(* ===== verification/_CoqProject ===== *)
-Q . S2P
Prelude.v
Core.v
Aggregator.v
Signing.v
Ms003.v
Sigma.v
SigmaParse.v
SigmaEngine.v
RuleStore.v
Bus.v
Store.v
StoreProps.v
Correlator.v
Lint.v
Responder.v
ResponderProps.v
Backends.v
BackendsProps.v
Actions.v
ActionsProps.v
Journal.v
JournalKinds.v
JournalProps.v
JournalKindsProps.v
Federation.v
FederationProps.v
NetText.v
F32.v
Hardware.v
Config.v
PolicyOverlap.v
Features.v
Modules.v
ModulesProps.v
ModulesPlan.v
CapWord.v
Auditd.v
AuditdProps.v
Collectors.v
CollectorsProps.v
Guardian.v
GuardianProps.v
Scheduler.v
SchedulerProps.v
SchedulerLog.v
SchedulerRun.v
SchedulerLogProps.v
Registry.v
Registries.v
RegistryProps.v
Profiles.v
AuditRegistry.v
RulesRegistry.v
MirrorExport.v
MirrorProps.v
Notify.v
Escalation.v
Dispatcher.v
WakeTask.v
Api.v
ApiProps.v
Transport.v
Perimeter.v
FrictionAudit.v
Channels.v
ChannelsProps.v
Daemon.v
DaemonProps.v
SshWrap.v
SshWrapProps.v
