(* ===== verification/Prelude.v ===== *)
(** * selfdef: a verification development

    selfdef is a host-defence daemon. Collectors turn kernel and log records into
    OCSF events and publish them on a broadcast bus. The correlator matches every
    event against Sigma rules, counts events per group in sliding windows, and
    publishes findings on the same bus. The responder consumes findings and runs
    response actions, some of them destructive, behind an allowlist, a federation
    trust boundary, a burst dedup and a rate cap. Findings are also turned into
    payloads for the operator: an escalation engine stores each of them in a
    table, a dispatcher walks notification channels, and a wake task re-fires or
    closes what is not acknowledged. Rules are loaded from a directory of signed
    files. Hosts exchange events over NATS, signed by the sender. The API lets
    operators reload rules, fire a panic, run actions and acknowledge
    notifications, streams events, and keeps registries of grants, capability
    tokens, sandboxes, quarantined tools and trust scores in snapshot files. Beside
    the daemon, a guardian kills processes on kernel events and keeps a
    hash-chained log of it, a scheduler measures the host and decides where requests
    run, signed extensions widen the execution perimeter, a boot-time audit of the
    hardware can be overridden by signed manifests, and a
    wrapper filters the arguments of ssh by policy. The command line tool resolves the
    modules of a host, checks signatures, hardware and configuration, and runs their
    scripts.

    This library models that pipeline, the API, the registries, the guardian, the
    scheduler, the perimeter, the audit, the modules and the wrapper as executable
    functions and proves what makes them correct.

    ** Files

    - Prelude (this file): Rust results, machine integers, strings and their
      parsing and printing, shared lemmas, the [selfdef] hint database.
    - Core: crates/selfdef-core. The event envelope, its constructor, setters and
      validation, and the JSON value rules are matched against.
    - Aggregator: [Aggregator] of crates/selfdef-correlator/src/sigma.rs with its
      abstract specification, a count over the full history.
    - Signing: crates/selfdef-signing/src/lib.rs over an explicit file system.
    - Ms003: crates/selfdef-signing/src/ms003.rs, the signed records: base64url,
      canonical bytes, trust anchors, verification.
    - Sigma, SigmaParse, SigmaEngine: rules of sigma.rs. The model is in Sigma;
      the round trips of its text parsers in SigmaParse; compilation, matching
      and [Engine::process] in SigmaEngine.
    - RuleStore: the directory walk, rule loading with signatures and
      [Engine::attack_coverage] of sigma.rs.
    - Bus: crates/selfdef-bus/src/lib.rs.
    - Store, StoreProps: crates/selfdef-store, the sink of the daemon and
      crates/selfdef-daemon/src/retention_sweep_loop.rs.
    - Correlator: crates/selfdef-correlator/src/lib.rs and the SIGUSR2 handler of
      crates/selfdef-daemon/src/main.rs.
    - Lint: crates/selfdef-correlator/src/lint.rs.
    - Responder, ResponderProps: crates/selfdef-responder/src/lib.rs and the
      specification of its gates by history.
    - Backends, BackendsProps: the requests of the fourteen enforcement crates
      (crates/selfdef-*-backend/src/lib.rs), one Module each, their validation and
      authority tiers, and the specification of what they accept.
    - Actions, ActionsProps: crates/selfdef-responder/src/actions.rs, the
      twenty-one actions as functions from an event and a host to an outcome and
      a list of effects, and the dispatch loop with the actions behind the gates.
    - Journal, JournalKinds, JournalProps, JournalKindsProps: the in-memory and the
      file-backed stores of those crates with concurrent callers. Journal has the store
      all of them repeat over the class [Journaled], with five instances;
      JournalKinds has the other eight and the block set with its nftables adapter.
    - Federation, FederationProps: crates/selfdef-nats/src/lib.rs and the retry loop
      of the daemon around it; a network of such hosts as a step relation.
    - NetText: what the standard library parses and prints of addresses and decimal
      numbers.
    - F32: single-precision floats over the IEEE 754 specification of the Standard Library.
    - Hardware: crates/selfdef-hardware (the probe and what follows from it) and
      crates/selfdef-hardware-requirements.
    - Config: crates/selfdef-config/src/lib.rs, every section with its defaults and
      [Config::validate].
    - PolicyOverlap, Features, Modules, ModulesProps, ModulesPlan:
      crates/selfdef-cli/src/perimeter.rs and modules.rs. PolicyOverlap has the check of
      the tracing policies, Features the TOML values and the features of a module,
      Modules the resolution and the lifecycle, ModulesPlan the commands that plan.
    - Auditd, AuditdProps: crates/selfdef-collector-auditd (parser and tail loop) and
      crates/selfdef-collector-util.
    - Collectors, CollectorsProps: the collectors suricata, tetragon, journald,
      eventstream, canary and ebpf (crates/selfdef-collector-NAME), a Module each, over
      one tail loop, and crates/selfdef-ebpf-common.
    - Guardian, GuardianProps: crates/selfdef-guardian (library and binary) and
      crates/selfdef-guardian-mirror.
    - Scheduler, SchedulerProps: the decision pipeline of crates/selfdef-scheduler
      (psi.rs, dcgm.rs, human_gate.rs, backpressure_driver.rs, objective_signals.rs,
      scheduling_law.rs, decide.rs and the monitor and objective of lib.rs) with
      crates/selfdef-scheduler-mirror.
    - SchedulerLog, SchedulerRun, SchedulerLogProps: its logs and their replay
      (decision_audit.rs, driver_replay.rs and lib.rs), then the ring, the security
      events (ocsf_emitter.rs), config.rs and the three programs of bin/.
    - CapWord: crates/selfdef-capability-word/src/lib.rs.
    - Registry, Registries, RegistryProps: the five registries of the API. Registry
      holds what they share (snapshot file, tiles, life times, requests) behind the
      classes [Registry] and [TtlEntry]; Registries has a Module each for
      crates/selfdef-{grant,capability,sandbox,quarantine,trust-score}-registry with
      their mirror crates, the grant issuer, the overlap detector, the issuance
      cooldown, the trust-score engine and the handlers of crates/selfdef-api/src.
    - Profiles: crates/selfdef-profile-authority-gate, crates/selfdef-flex-profile with
      crates/selfdef-api/src/flex_profile.rs, and what selfdef-profile-mirror shows.
    - AuditRegistry: crates/selfdef-audit-registry and crates/selfdef-audit-mirror.
    - RulesRegistry: crates/selfdef-rules-registry with its nft parser,
      crates/selfdef-rules-mirror and rules_collector_loop.rs of the daemon.
    - MirrorExport, MirrorProps: mirror_export_loop.rs and cli_mirror_publisher.rs of
      the daemon over all the registries, with crates/selfdef-tui-mirror,
      crates/selfdef-cli-mirror and the publish counters of the API's metrics.rs.
    - Notify: crates/selfdef-notifier-orchestrator and crates/selfdef-notifier.
    - Escalation: crates/selfdef-notifier-engine/src/lib.rs, the table.
    - Dispatcher: profile.rs and dispatcher.rs of the same crate, and
      crates/selfdef-daemon/src/dispatcher_adapter.rs.
    - WakeTask: wake_task.rs of the same crate.
    - Api, ApiProps: crates/selfdef-api/src (transport.rs, control.rs, handlers.rs,
      state.rs and the routes of lib.rs that change state) on top of Correlator,
      Responder, Escalation and Registries.
    - Perimeter: the extension store of crates/selfdef-perimeter/src/lib.rs.
    - FrictionAudit: crates/selfdef-friction-audit, its mirror, the routes of
      crates/selfdef-api/src/friction_audit.rs and the commands of
      crates/selfdef-cli/src/friction_audit.rs.
    - Channels, ChannelsProps: the fourteen crates selfdef-integration-*, one Module
      each: construction, texts, requests and the reading of answers.
    - Daemon, DaemonProps: what main of crates/selfdef-daemon/src/main.rs builds from
      the configuration and the host, and its signal loop.
    - SshWrap, SshWrapProps: crates/selfdef-ssh-wrap (argv.rs, policy.rs and the
      decision of main.rs).

    ** How the code is rendered

    A struct is a record, an enum an inductive type, a [Result] the type [result]
    with the notation [let?] for the question mark operator. Mutable state is
    passed explicitly: an operation takes the state and returns its answer and
    the new state. Every mutex of the modelled code is held only for a synchronous
    part, and every database operation is one transaction, so concurrent tasks
    are interleavings of whole operations: a run is a list of inputs (bus results,
    signals, operations) and the theorems quantify over all of them. The journals
    write their files after the mutex is released: there an operation is two
    steps of a step relation. The registries take no lock at all: a request is a
    load and a finish, and other requests may come between. The counters of the
    event stream are atomics: every atomic operation is a step of its own. Integers are
    [Z] with the wrap-around, saturation or overflow check of their width written
    out; instants are nanoseconds, stored timestamps seconds. Strings are
    sequences of bytes; a [char] is the string of its UTF-8 bytes. A [HashMap]
    that is only looked up is a [gmap]; where its iteration order matters it is a
    parameter.

    Clock readings, fresh identifiers, what a channel or an action answers and
    failures of the database are inputs. Third-party code is a parameter: the
    classes [UnicodeTables] (character tables), [WireFormat] (UUID, timestamp and
    JSON printing), [RuleLibs] (regular expressions), [RuleYaml] (rule
    deserialization), [Minisign] (key and signature checks), [SqlEngine] (row
    order and constraint order of SQLite), [UuidText] (UUID text round trip),
    [Codec] (JSON of the journals), [HashOrder] and [HashValues] (hash map
    iteration), [FederationKeys] and [FederationWire] (ed25519 and the JSON of the
    bridge), [FieldOrder] (order of a JSON object), [Sha256], [JsonText] and
    [TetragonJson] (the guardian), [Rfc3339] and [SnapshotJson] (the registries),
    [FlexJson], [AuditJson] and [MirrorJson] (the profiles, the audit chain and the mirrors),
    [ManifestJson] and [KeyFile] (the perimeter), [EventText] and [EventSql] (the store), [JsonParse] and
    [MaskText] (the collectors), [FloatText], [DriverText] and [DecisionText] (the
    scheduler), [FrictionJson] (the audit), [TomlText], [ModuleToml], [StatusJson] and
    [PolicyYaml] (the modules), [MailLib], [Iso8601], [HttpText]
    and [UuidSimple] (the channels), whose HTTP answers, children and secret files
    are arguments; running openssl is the record [Openssl]. Their laws are the documented ones: a scan
    visits every row once, parsing undoes printing. Each class has an instance
    with which the properties are evaluated.

    ** What is shown

    - Detection: the aggregator implements a strict sliding-window count and its
      memory is bounded by the active groups; a compiled count rule implements
      its documented meaning over any event stream; compiled rules never reach
      the defensive branches of the engine; findings are valid, numbered in order
      and inherit the federation markers of their trigger; parsers round-trip.
    - Rules: the load order does not depend on the file system; with a verifier
      every running rule was signed, through any history of reloads and key
      rotations; a failed load changes nothing; the correlator does not feed on
      its own findings.
    - Response: the gates implement a specification by history; destructive
      actions are bounded per minute; dedup is exact and leaves failures
      retryable; unverified federated findings never trigger destructive actions;
      evidence always runs; the operator path bypasses the gates.
    - Actions: a dry run has no effect; what is killed, frozen or confined is the
      process of the event, never init or the daemon; nothing an event carries is
      read as an option of a program; an untrusted event only leads to evidence
      and notification; idempotency keys identify finding and target.
    - Enforcement: the backends accept exactly the authorised requests, and
      authority is monotone in the tier; the file-backed store implements the
      in-memory one, restarts exactly and is never torn by a crash; a receipt says
      what is in force; the block set answers the responder like a plain map. Four
      theorems record weaknesses: overlapping writes can lose a confirmed effect,
      the file-backed session store has no exclusion list, burst dedup does
      not tell mounts or sockets of one actor apart, and a key used for both address
      families of the block set is never released in full.
    - Notification: the table is always readable; due rows come back in order; an
      acknowledgement ends an escalation; tokens are stable and links resolve;
      rows are stored before anything is sent; the channel walk is first success
      wins; every escalation ends; the wake task never oversleeps.
    - Federation: what a host admits from its peers is marked as federated, is never its
      own, and is marked as verified exactly if a trusted key signed it; over any
      run of a network, a verified event was published by the host whose key
      signed it; delivery round-trips; forwarded events are not forwarded again.
      Three theorems record weaknesses: a finding made from an unverified event is
      signed and forwarded as the host's own, a peer may name any host inside a
      signed event, and consumer names can collide.
    - Signed records: verification succeeds exactly on an envelope with a trusted key
      over the canonical bytes, and each other status has its exact cause.
    - Collection: the auditd tail publishes exactly the records of the log, whatever the
      chunks, rotations and idle turns; tokenizing undoes rendering; every event
      built is valid. Two theorems record weaknesses of argument decoding and of
      shutdown during a read.
    - Other collectors: a tailing collector publishes exactly the complete lines of the
      files it reads, whatever the chunks and rotations; all events are valid and
      local; eventstream reads only files that passed its gate; journald keeps
      following; a canary is never missed; an execution reported by the kernel
      reaches the rules with its arguments.
    - Store: the table holds exactly what the sink received and the sweep did not remove,
      and every query answers from it; retention is exact; an interrupted migration
      is repaired. A theorem records that a stamp beyond 2262 is swept away.
    - Guardian: its effects are exactly the responses to the admitted events, at most
      five per target and minute and aimed at the process of the event; the log it
      writes passes its own check, and a log that passes the check and ends in the
      same line is the same log, or two texts with one hash are known. Verdicts can
      overwrite each other in the ring.
    - Scheduler: whatever was measured before, no decision sends work to a tier that is
      still under pressure, and work waits only when it must; the rotated log of
      readings verifies after any emissions, rotations and failures; a replay under
      the thresholds in force reproduces the recorded states; the ring keeps the newest
      decisions. Six theorems record weaknesses of how the programs use these parts: decisions are
      written into the log of readings and break it, the current file alone does not
      verify after a rotation, a program that polls once has no hysteresis and
      ignores the configured thresholds, heartbeats push decisions out of the
      ring, the approvals of four crates are not counted, and the replay differs at the
      threshold itself.
    - Registries: tiles do not depend on hash order; expiry is exact and idempotent; a
      request is all or nothing, whatever the file system does; over any history
      of requests the grants on file are those that were minted, and the cooldown
      keeps equal grants apart; a capability word allows the tools that were
      asked for; trust scores stay valid and are explained by their history.
      Four theorems record weaknesses: the overlap gate never refuses, overlapping
      requests lose a revocation, the root overlaps nothing, and a large reward
      turns into the score 0.
    - API: over TCP a control verb is carried out exactly for the holder of the control
      token, whatever rotations came before, and nothing else but an
      acknowledgement changes the state; the stream quota never drifts under any
      interleaving. Two theorems record weaknesses: the audit event of a refused
      panic request makes the responder act, and a second click on an
      acknowledgement link is answered with an error.
    - Profiles: the gate grants exactly what the profile authorises, and more evidence
      never loses a permission; the flex profile loses no change over any requests
      and failures. Two theorems record weaknesses: the autonomous profile commits
      without what it is declared to require, and an unreadable profile is overwritten.
    - Audit chain: the registry refines the unbounded chain of hash-linked spans and
      verification reports exactly the first gap. Two theorems record weaknesses: the
      content of a span is not verified, and appends do not refresh the report.
    - Rules: what is shown of a rule is characterised, the tiles are exact with saturating
      sums, and the store always holds the last ruleset that could be read.
    - Mirrors: the export loop writes nothing but its artifacts; no published grant is
      past its time; the published schema of the commands was checked; the layout
      check is exact. Two theorems record weaknesses: a failed publication can count
      as a success, and one failed shell-out is final.
    - Perimeter: a binary that an extension lets through was named by a valid manifest
      that two different keys signed. A later extension can hide an earlier one.
    - Friction audit: a gate counts as overridden only while a valid manifest is in force
      that a key of the trust roots signed; the ring is read newest first; the check of
      the event chain accepts exactly the logs whose links agree. Five theorems record
      weaknesses: one signature is enough, the seven days can start in the future, a log without
      links passes, an override changes no verdict, and the entry of the whole run
      hides a skipped check.
    - Hardware: a module's requirements are met exactly when each of them holds and some
      alternative does; the SAIN-01 verdict and the derived flags agree with the probe.
      Two theorems record weaknesses: a misspelled verdict disables its gate, and with
      more than ten GPUs their rows are misplaced.
    - Modules: a host configuration resolves exactly when its modules are known, used as
      their manifests allow, free of conflicts and ordered by acyclic dependencies, and
      the result has each entry once behind everything it depends on; a script runs in
      an apply only when all selected modules passed the signing gate and its own module
      passed the gates of hardware and daemon; no command runs modules against their
      order; an apply that passes its gates runs them all. The plan to install is a
      topological order of what is ready, found by a second sort that agrees with the
      first. Six theorems record weaknesses: a plan applies nothing and reports success,
      it lists modules whose dependency it skips, a module names the key it is checked
      with, the scripts are not signed, a failed module does not stop the
      next phase, and the hardware gate drops dependencies.
    - Features and policies: a feature that was set is read back, merging and clearing are
      exact, and the overlap check blocks exactly the documented overlaps. Three
      theorems record weaknesses: a key is written beside the table that is read, a
      file that does not parse is replaced, and one selector hides another.
    - Configuration and start: a validated API configuration is served as written, a
      validated response floor is the one applied, no profile makes the escalation
      fail, a daemon that requires signed rules never runs an unsigned one, and it
      runs only registered and allowed actions. A theorem records that a panic floor
      written with blanks passes validation and is then dropped.
    - Channels: ntfy delivers with at most three identical requests that no alert text can
      suppress; a channel built from configuration sends its secret only over TLS;
      the triage budget is an exact sliding window. Three theorems record
      weaknesses: a channel that reached nobody ends the chain, Twilio's byte cut can
      panic, Discord's cut exceeds the cap.
    - ssh: the arguments handed to ssh read back as the policy followed by the
      options the policy allows and the untouched target and command; the audit
      record mirrors the filter; resolution is deterministic with the exact host
      last. Three theorems record behaviour that differs from the documentation:
      the defaults section has no effect, an option value can look like a help
      flag, and the channels of a profile's last rung are never used.

    ** Recursion and bounds

    All recursion is structural, over the input, the rules or the bytes of a
    string, except the number printers, whose fuel is one more than the binary
    logarithm of the number (every digit at least halves it), the tokenizer of
    auditd records, whose fuel is the length of the line (every round consumes a
    byte), the sorts of the modules, whose fuel is their number (every round places
    one; [kahn_fuel] shows that more changes nothing), the substitution in daemon
    requirements, whose fuel is the length of the text ([expand_fuel]), the attempts to
    run a busy command, five as in the code, and
    [Correlator.drain], which takes the number of receptions as fuel: the theorem
    about it gives the number that is always enough.

    ** Not modelled

    Loading and attaching the kernel probes, HTTP itself (requests are decoded
    verbs with the text of their authorization header), TLS, the read-only pages of
    the API, the text syntax of the configuration file, and of the
    start the status logging and the heartbeat are effects
    around the modelled core. The dashboard preferences are the one store behind the
    API that is not modelled. The event log and the ring of
    the perimeter repeat those of the guardian. Schema migrations of the
    escalation table are not modelled. Of the scheduler, the Prometheus and terminal
    texts, the HTTP routes, policy_signer.rs and the modules of constant tables are
    left out: they format or list what the modelled part computes; of the hardware
    inventory the Prometheus text and the capabilities file, of the modules the
    commands that only print. The other operator commands of the CLI and the several
    hundred small library crates are not called by the pipeline and are
    not modelled here. *)

From Stdlib Require Export Ascii.
From stdpp Require Export base tactics numbers option list gmap strings fin_maps sorting.
From stdpp Require Import options.

(** ** Scope, hint database and tactics *)

Declare Scope selfdef_scope.
Delimit Scope selfdef_scope with selfdef.

Create HintDb selfdef.

(** [split_ifs] destructs every boolean or decidable test and every match
    scrutinee left in the goal and clears the contradictory branches. *)
Ltac split_ifs :=
  repeat first [ case_decide | case_match ]; simplify_eq/=; try done.

(** Case analysis on a boolean comparison, with its meaning as hypothesis. *)
Ltac zcase :=
  match goal with
  | |- context [ (?a <? ?b)%Z ] => destruct (Z.ltb_spec a b)
  | |- context [ (?a <=? ?b)%Z ] => destruct (Z.leb_spec a b)
  | |- context [ (?a =? ?b)%Z ] => destruct (Z.eqb_spec a b)
  | H : context [ (?a <? ?b)%Z ] |- _ => destruct (Z.ltb_spec a b)
  | H : context [ (?a <=? ?b)%Z ] |- _ => destruct (Z.leb_spec a b)
  | H : context [ (?a =? ?b)%Z ] |- _ => destruct (Z.eqb_spec a b)
  end.

(** ** Rust [Result] *)

Inductive result (A E : Type) : Type :=
| Ok (a : A)
| Err (e : E).
Arguments Ok {A E} a.
Arguments Err {A E} e.

Definition result_bind {A B E} (r : result A E) (f : A -> result B E) : result B E :=
  match r with
  | Ok a => f a
  | Err e => Err e
  end.

(** The [?] operator of Rust. *)
Notation "'let?' x ':=' c1 'in' c2" := (result_bind c1 (fun x => c2))
  (at level 10, x name, c1 at level 100, c2 at level 200) : selfdef_scope.
Open Scope selfdef_scope.

Definition ok_or {A E} (o : option A) (e : E) : result A E :=
  match o with
  | Some a => Ok a
  | None => Err e
  end.

Definition is_ok {A E} (r : result A E) : bool :=
  match r with Ok _ => true | Err _ => false end.

(** ** Machine integers *)

Definition u16_max : Z := 2 ^ 16 - 1.
Definition u32_max : Z := 2 ^ 32 - 1.
Definition u64_max : Z := 2 ^ 64 - 1.

(** [x as u32] for a non-negative [x], and the wrapping [u64] addition of
    [fetch_add] and [wrapping_add]. *)
Definition as_u32 (x : Z) : Z := x `mod` 2 ^ 32.
Definition wrapping_add_u64 (x y : Z) : Z := (x + y) `mod` 2 ^ 64.

Definition checked_mul_u64 (x y : Z) : option Z :=
  if (x * y <=? u64_max)%Z then Some (x * y)%Z else None.

(** [Instant::duration_since] saturates at zero. Instants and durations are
    integers of nanoseconds. *)
Definition duration_since (now earlier : Z) : Z := (now - earlier) `max` 0.
Definition from_secs (s : Z) : Z := s * 10 ^ 9.

Lemma as_u32_id x : (0 <= x <= u32_max)%Z -> as_u32 x = x.
Proof. unfold as_u32, u32_max. intros. apply Z.mod_small. lia. Qed.

Lemma as_u32_le x : (0 <= x)%Z -> (as_u32 x <= x)%Z.
Proof. intros. unfold as_u32. apply Z.mod_le; lia. Qed.

Lemma duration_since_le now t : (t <= now)%Z -> duration_since now t = (now - t)%Z.
Proof. unfold duration_since. lia. Qed.

(** ** Rust strings

    A [&str] is its UTF-8 bytes, a [char] is the string of the one to four
    bytes that encode it, so that [chars] cuts a string into pieces whose
    concatenation is the string again. *)

Abbreviation rchar := string (only parsing).

Definition byte (a : ascii) : N := N_of_ascii a.

Fixpoint str_concat (l : list string) : string :=
  match l with
  | [] => ""
  | s :: l => s +:+ str_concat l
  end.

(** The pieces of a byte string by the lengths that the leading bytes announce. *)
Fixpoint chars (s : string) : list rchar :=
  match s with
  | "" => []
  | String a s1 =>
      if (byte a <? 192)%N then String a "" :: chars s1
      else match s1 with
      | "" => [String a ""]
      | String b s2 =>
          if (byte a <? 224)%N then String a (String b "") :: chars s2
          else match s2 with
          | "" => [String a (String b "")]
          | String c s3 =>
              if (byte a <? 240)%N then String a (String b (String c "")) :: chars s3
              else match s3 with
              | "" => [String a (String b (String c ""))]
              | String d s4 => String a (String b (String c (String d ""))) :: chars s4
              end
          end
      end
  end.

(** The code point a [char] encodes. *)
Definition char_code (c : rchar) : N :=
  match c with
  | String a "" => byte a
  | String a (String b "") => N.lor (N.shiftl (N.land (byte a) 31) 6) (N.land (byte b) 63)
  | String a (String b (String c "")) =>
      N.lor (N.shiftl (N.land (byte a) 15) 12)
        (N.lor (N.shiftl (N.land (byte b) 63) 6) (N.land (byte c) 63))
  | String a (String b (String c (String d ""))) =>
      N.lor (N.shiftl (N.land (byte a) 7) 18)
        (N.lor (N.shiftl (N.land (byte b) 63) 12)
          (N.lor (N.shiftl (N.land (byte c) 63) 6) (N.land (byte d) 63)))
  | _ => 0
  end%N.

Definition in_range (lo hi n : N) : bool := ((lo <=? n) && (n <=? hi))%N.

(** [char::is_whitespace]: the Unicode [White_Space] property. *)
Definition is_whitespace (c : rchar) : bool :=
  let n := char_code c in
  in_range 9 13 n || (n =? 32)%N || (n =? 133)%N || (n =? 160)%N || (n =? 5760)%N
  || in_range 8192 8202 n || (n =? 8232)%N || (n =? 8233)%N || (n =? 8239)%N
  || (n =? 8287)%N || (n =? 12288)%N.

Definition is_ascii_digit (c : rchar) : bool := in_range 48 57 (char_code c).
Definition is_ascii_alphanumeric (n : N) : bool :=
  in_range 48 57 n || in_range 65 90 n || in_range 97 122 n.

Fixpoint drop_ws (l : list rchar) : list rchar :=
  match l with
  | c :: l' => if is_whitespace c then drop_ws l' else l
  | [] => []
  end.

Definition trim_start (s : string) : string := str_concat (drop_ws (chars s)).
Definition trim (s : string) : string :=
  str_concat (reverse (drop_ws (reverse (drop_ws (chars s))))).

(** [str::split_whitespace]. *)
Definition split_whitespace (s : string) : list string :=
  let step c acc := match acc with
                    | (w, ws) => if is_whitespace c then ("", if bool_decide (w = "") then ws else w :: ws)
                                 else (c +:+ w, ws)
                    end in
  let '(w, ws) := foldr step ("", []) (chars s) in
  if bool_decide (w = "") then ws else w :: ws.

Fixpoint str_map (f : ascii -> ascii) (s : string) : string :=
  match s with
  | "" => ""
  | String a s => String (f a) (str_map f s)
  end.

Definition ascii_lower (a : ascii) : ascii :=
  if in_range 65 90 (byte a) then ascii_of_N (byte a + 32)%N else a.
Definition ascii_upper (a : ascii) : ascii :=
  if in_range 97 122 (byte a) then ascii_of_N (byte a - 32)%N else a.

Definition to_ascii_lowercase : string -> string := str_map ascii_lower.
Definition eq_ignore_ascii_case (a b : string) : bool :=
  bool_decide (to_ascii_lowercase a = to_ascii_lowercase b).

Fixpoint strip_prefix (p s : string) : option string :=
  match p, s with
  | "", _ => Some s
  | String a p', String b s' => if bool_decide (a = b) then strip_prefix p' s' else None
  | _, _ => None
  end.

Definition starts_with (s p : string) : bool := bool_decide (is_Some (strip_prefix p s)).
Definition strip_suffix (p s : string) : option string :=
  String.rev <$> strip_prefix (String.rev p) (String.rev s).
Definition ends_with (s p : string) : bool := bool_decide (is_Some (strip_suffix p s)).

Fixpoint contains (s p : string) : bool :=
  starts_with s p || match s with "" => false | String _ s' => contains s' p end.

(** [str::split_once] and [str::split] on an ASCII separator. *)
Fixpoint split_once (c : ascii) (s : string) : option (string * string) :=
  match s with
  | "" => None
  | String a s' =>
      if bool_decide (a = c) then Some ("", s')
      else match split_once c s' with
           | Some (l, r) => Some (String a l, r)
           | None => None
           end
  end.

Fixpoint split (c : ascii) (s : string) : list string :=
  match s with
  | "" => [""]
  | String a s' =>
      if bool_decide (a = c) then "" :: split c s'
      else match split c s' with
           | h :: t => String a h :: t
           | [] => [String a ""]
           end
  end.

(** [str::lines]: the pieces between line feeds, each line-feed-terminated one
    without the carriage return that may precede the line feed, and no final
    empty piece. *)
Definition str_lines (s : string) : list string :=
  let pieces := split "010"%char s in
  let n := length pieces - 1 in
  let strip l := default l (strip_suffix (String "013"%char "") l) in
  (strip <$> take n pieces) ++ filter (.≠ "") (drop n pieces).

(** Decimal numbers: [FromStr] of an unsigned integer and [Display]. *)
Definition digit_val (a : ascii) : option Z :=
  if in_range 48 57 (byte a) then Some (Z.of_N (byte a) - 48)%Z else None.

Fixpoint digits_val (s : string) (acc : Z) : option Z :=
  match s with
  | "" => Some acc
  | String a s' => match digit_val a with
                   | Some d => digits_val s' (acc * 10 + d)%Z
                   | None => None
                   end
  end.

Definition parse_uint (max : Z) (s : string) : option Z :=
  let body := match s with String "+" s' => s' | _ => s end in
  match body with
  | "" => None
  | _ => match digits_val body 0 with
         | Some n => if (n <=? max)%Z then Some n else None
         | None => None
         end
  end.

Definition show_digit (d : Z) : ascii := ascii_of_N (Z.to_N (d + 48)).

Fixpoint show_go (fuel : nat) (n : Z) (acc : string) : string :=
  match fuel with
  | O => acc
  | S fuel =>
      let acc := String (show_digit (n `mod` 10)) acc in
      if (n <? 10)%Z then acc else show_go fuel (n `div` 10) acc
  end.

Definition show_uint (n : Z) : string := show_go (S (Z.to_nat (Z.log2 n))) n "".
Definition show_int (n : Z) : string :=
  if (n <? 0)%Z then "-" +:+ show_uint (- n) else show_uint n.

Definition hex_digit (d : Z) : ascii :=
  ascii_of_N (Z.to_N (if (d <? 10)%Z then d + 48 else d + 87)).

Fixpoint show_hex_go (fuel : nat) (n : Z) (acc : string) : string :=
  match fuel with
  | O => acc
  | S fuel =>
      let acc := String (hex_digit (n `mod` 16)) acc in
      if (n <? 16)%Z then acc else show_hex_go fuel (n / 16) acc
  end.
Definition show_hex (n : Z) : string := show_hex_go (S (Z.to_nat (Z.log2 n))) n "".

(** [FromStr] of a signed integer. *)
Definition parse_int (lo hi : Z) (s : string) : option Z :=
  let checked n := if (lo <=? n)%Z && (n <=? hi)%Z then Some n else None in
  match s with
  | "" => None
  | String "-" "" | String "+" "" => None
  | String "-" s' => match digits_val s' 0 with Some n => checked (- n)%Z | None => None end
  | String "+" s' => match digits_val s' 0 with Some n => checked n | None => None end
  | _ => match digits_val s 0 with Some n => checked n | None => None end
  end.

(** [slice::join]. *)
Fixpoint join (sep : string) (l : list string) : string :=
  match l with
  | [] => ""
  | [s] => s
  | s :: l => s +:+ sep +:+ join sep l
  end.

(** [Path::join] with a relative name. *)
Definition path_join (dir name : string) : string :=
  if bool_decide (dir = "") then name
  else if ends_with dir "/" then dir +:+ name else dir +:+ "/" +:+ name.

(** [Path::extension] of a file name: the text after the last dot, none when
    there is no dot or when the only dot leads the name. *)
Definition extension (name : string) : option string :=
  if bool_decide (name = "..") then None
  else
    let pieces := split "." name in
    match pieces with
    | [_] | [""; _] => None
    | _ => last pieces
    end.

(** [Path::with_extension] of a path that ends in a file name. *)
Definition with_extension (path ext : string) : string :=
  match extension (default "" (last (split "/" path))) with
  | Some e => default path (strip_suffix e path) +:+ ext
  | None => path +:+ "." +:+ ext
  end.

(** [str::replace] of a non-empty pattern: leftmost matches that do not overlap;
    [skip] counts the bytes of the current match still to drop. *)
Fixpoint replace_go (pat to : string) (skip : nat) (s : string) : string :=
  match s with
  | "" => ""
  | String a s' =>
      match skip with
      | S k => replace_go pat to k s'
      | O => if starts_with s pat then to +:+ replace_go pat to (String.length pat - 1) s'
             else String a (replace_go pat to 0 s')
      end
  end.
Definition replace (pat to s : string) : string := replace_go pat to 0 s.

(** A byte offset at which [&s[..n]] may cut. *)
Definition is_char_boundary (s : string) (n : nat) : bool :=
  match String.get n s with
  | Some a => ((byte a <? 128) || (192 <=? byte a))%N
  | None => bool_decide (n = String.length s)
  end.

(** [str::split_inclusive]: the pieces with their terminator, and no final empty
    piece. *)
Fixpoint split_inclusive (c : ascii) (s : string) : list string :=
  match s with
  | "" => []
  | String a s' =>
      if bool_decide (a = c) then String a "" :: split_inclusive c s'
      else match split_inclusive c s' with
           | h :: t => String a h :: t
           | [] => [String a ""]
           end
  end.

(** [str::from_utf8] succeeds: [need] is the list of ranges that the next
    continuation bytes must lie in. *)
Fixpoint utf8_valid_go (need : list (N * N)) (s : string) : bool :=
  match s, need with
  | "", _ => bool_decide (need = [])
  | String a s', (lo, hi) :: need => in_range lo hi (byte a) && utf8_valid_go need s'
  | String a s', [] =>
      let n := byte a in
      let cont := (128, 191)%N in
      if (n <? 128)%N then utf8_valid_go [] s'
      else if in_range 194 223 n then utf8_valid_go [cont] s'
      else if (n =? 224)%N then utf8_valid_go [(160, 191)%N; cont] s'
      else if (n =? 237)%N then utf8_valid_go [(128, 159)%N; cont] s'
      else if in_range 225 239 n then utf8_valid_go [cont; cont] s'
      else if (n =? 240)%N then utf8_valid_go [(144, 191)%N; cont; cont] s'
      else if in_range 241 243 n then utf8_valid_go [cont; cont; cont] s'
      else if (n =? 244)%N then utf8_valid_go [(128, 143)%N; cont; cont] s'
      else false
  end.
Definition utf8_valid (s : string) : bool := utf8_valid_go [] s.

(** *** Facts about strings *)

Lemma str_app_nil_r s : s +:+ "" = s.
Proof. induction s as [|a s IH]; [done|]. change (String a (s +:+ "") = String a s). by rewrite IH. Qed.

Lemma str_app_assoc s1 s2 s3 : (s1 +:+ s2) +:+ s3 = s1 +:+ (s2 +:+ s3).
Proof.
  induction s1 as [|a s1 IH]; [done|].
  change (String a ((s1 +:+ s2) +:+ s3) = String a (s1 +:+ (s2 +:+ s3))). by rewrite IH.
Qed.

Lemma str_concat_app l1 l2 : str_concat (l1 ++ l2) = str_concat l1 +:+ str_concat l2.
Proof. induction l1 as [|s l1 IH]; [done|]. simpl. by rewrite IH, str_app_assoc. Qed.

Lemma str_cons_app a s t : String a s +:+ t = String a (s +:+ t).
Proof. done. Qed.

Lemma str_length_app s t : String.length (s +:+ t) = String.length s + String.length t.
Proof. induction s as [|a s IH]; [done|]. rewrite str_cons_app. simpl. by rewrite IH. Qed.

Lemma chars_concat s : str_concat (chars s) = s.
Proof.
  revert s. fix IH 1. intros [|a s1]; [done|].
  assert (Hc : forall x y, str_concat (x :: y) = x +:+ str_concat y) by done.
  simpl chars. case_match; [rewrite Hc, IH; done|].
  destruct s1 as [|b s2]; [done|]. case_match; [rewrite Hc, IH; done|].
  destruct s2 as [|c s3]; [done|]. case_match; [rewrite Hc, IH; done|].
  destruct s3 as [|d s4]; [done|]. rewrite Hc, IH; done.
Qed.

(** A string of ASCII bytes; on it every [char] is one byte. *)
Fixpoint all_bytes (P : ascii -> bool) (s : string) : bool :=
  match s with
  | "" => true
  | String a s => P a && all_bytes P s
  end.

Definition is_ascii (a : ascii) : bool := (byte a <? 128)%N.

Lemma all_bytes_app P s t : all_bytes P (s +:+ t) = all_bytes P s && all_bytes P t.
Proof. induction s as [|a s IH]; [done|]. rewrite str_cons_app. simpl. by rewrite IH, andb_assoc. Qed.

Lemma all_bytes_impl (P Q : ascii -> bool) s :
  (forall a, P a = true -> Q a = true) -> all_bytes P s = true -> all_bytes Q s = true.
Proof. induction s as [|a s IH]; simpl; [done|]. rewrite !andb_true_iff. naive_solver. Qed.

Lemma chars_cons_ascii a s : is_ascii a = true -> chars (String a s) = String a "" :: chars s.
Proof. unfold is_ascii. intros H%N.ltb_lt. simpl. by rewrite (proj2 (N.ltb_lt _ _)) by lia. Qed.

Lemma chars_app_ascii s t :
  all_bytes is_ascii s = true -> chars (s +:+ t) = chars s ++ chars t.
Proof.
  induction s as [|a s IH]; [done|]. simpl all_bytes. intros [Ha Hs]%andb_true_iff.
  rewrite str_cons_app, !chars_cons_ascii by done. by rewrite IH.
Qed.

(** [trim] leaves alone a string that neither starts nor ends with white space. *)
Lemma drop_ws_head l : (forall c, head l = Some c -> is_whitespace c = false) -> drop_ws l = l.
Proof. destruct l as [|c l]; [done|]. simpl. intros H. by rewrite (H c). Qed.

Lemma trim_id s :
  (forall c, head (chars s) = Some c -> is_whitespace c = false) ->
  (forall c, last (chars s) = Some c -> is_whitespace c = false) -> trim s = s.
Proof.
  intros Hh Hl. unfold trim. rewrite (drop_ws_head _ Hh).
  rewrite drop_ws_head, reverse_involutive, chars_concat; [done|].
  intros c. rewrite head_reverse. apply Hl.
Qed.

Definition ws_byte (a : ascii) : bool := is_whitespace (String a "").

Lemma str_snoc_inv s : s = "" \/ exists t b, s = t +:+ String b "".
Proof.
  induction s as [|a s [->|(t & b & ->)]]; [by left|right; by exists "", a|].
  right. by exists (String a t), b.
Qed.

(** Splitting equal texts at a known length. *)
Lemma str_app_inj_len s1 s2 t1 t2 :
  String.length t1 = String.length t2 -> s1 +:+ t1 = s2 +:+ t2 -> s1 = s2 /\ t1 = t2.
Proof.
  revert s2. induction s1 as [|x s1 IH]; intros [|y s2] Hlen Heq; [done| | |].
  1, 2: exfalso; apply (f_equal String.length) in Heq; rewrite !str_length_app in Heq; simpl in Heq; lia.
  - rewrite !str_cons_app in Heq. revert Heq. intros [= -> Heq]. by destruct (IH s2 Hlen Heq) as [-> ->].
Qed.

Lemma str_app_inj_pre s1 s2 t1 t2 :
  String.length s1 = String.length s2 -> s1 +:+ t1 = s2 +:+ t2 -> s1 = s2 /\ t1 = t2.
Proof.
  revert s2. induction s1 as [|x s1 IH]; intros [|y s2] Hlen; [done..|]. rewrite !str_cons_app.
  injection Hlen as Hlen. intros [= -> Heq]. by destruct (IH s2 Hlen Heq) as [-> ->].
Qed.
Lemma path_join_inj dir a b : path_join dir a = path_join dir b -> a = b.
Proof.
  unfold path_join. case_bool_decide; [done|].
  case_match; intros Heq; apply str_app_inj_pre in Heq as [_ Heq]; try done.
  by apply str_app_inj_pre in Heq as [_ Heq].
Qed.

Lemma str_snoc_inj s t a b : s +:+ String a "" = t +:+ String b "" -> s = t /\ a = b.
Proof.
  revert t. induction s as [|x s IH]; intros [|y t]; rewrite ?str_cons_app; intros E.
  - injection E. done.
  - injection E. by destruct t.
  - injection E. by destruct s.
  - injection E as -> E. by apply IH in E as [-> ->].
Qed.

Lemma str_app_String s a t : s +:+ String a t = (s +:+ String a "") +:+ t.
Proof. by rewrite str_app_assoc. Qed.

(** An ASCII string whose first and last bytes are not white space. *)
Definition trimmed_ascii (s : string) : Prop :=
  all_bytes is_ascii s = true /\
  (forall a t, s = String a t -> ws_byte a = false) /\
  (forall b t, s = t +:+ String b "" -> ws_byte b = false).

Lemma trimmed_ends s : trimmed_ascii s ->
  (forall c, head (chars s) = Some c -> is_whitespace c = false) /\
  (forall c, last (chars s) = Some c -> is_whitespace c = false).
Proof.
  intros (Ha & Hh & Hl). split.
  - intros c. destruct s as [|a s]; [done|]. simpl in Ha. apply andb_true_iff in Ha as [Ha _].
    rewrite chars_cons_ascii by done. intros; simplify_eq/=. by eapply Hh.
  - intros c. destruct (str_snoc_inv s) as [->|(t & b & ->)]; [done|].
    rewrite all_bytes_app in Ha. simpl in Ha. rewrite !andb_true_iff in Ha.
    rewrite chars_app_ascii by naive_solver. rewrite chars_cons_ascii by naive_solver.
    change (chars "") with (@nil string). rewrite last_snoc.
    intros; simplify_eq/=. by eapply Hl.
Qed.

Lemma trim_trimmed_ascii s : trimmed_ascii s -> trim s = s.
Proof. intros [? ?]%trimmed_ends. by apply trim_id. Qed.

Lemma trim_blank_l s : trimmed_ascii s -> trim (" " +:+ s) = s.
Proof. intros H. change (trim s = s). by apply trim_trimmed_ascii. Qed.

(** A trailing white-space byte. *)
Lemma trim_ws_r s a : trimmed_ascii s -> is_ascii a = true -> ws_byte a = true ->
  trim (s +:+ String a "") = s.
Proof.
  intros H Ha Hw. destruct (trimmed_ends s H) as [Hh Hl]. unfold trim.
  rewrite chars_app_ascii, (chars_cons_ascii a) by (done || apply H). change (chars "") with (@nil string).
  unfold ws_byte in Hw. revert Hh Hl. destruct (chars s) as [|c l] eqn:E; intros Hh Hl.
  - apply (f_equal str_concat) in E. rewrite chars_concat in E. subst. simpl. by rewrite Hw.
  - rewrite (drop_ws_head ((c :: l) ++ _)) by exact Hh.
    rewrite reverse_snoc. simpl drop_ws. rewrite Hw.
    rewrite drop_ws_head, reverse_involutive, <-E, chars_concat; [done|].
    intros c'. rewrite head_reverse. apply Hl.
Qed.

Lemma trim_blank_r s : trimmed_ascii s -> trim (s +:+ " ") = s.
Proof. intros H. by apply trim_ws_r. Qed.

(** [split_once] cuts at the first occurrence of the separator. *)
Lemma split_once_app c l r :
  all_bytes (fun a => negb (bool_decide (a = c))) l = true ->
  split_once c (l +:+ String c r) = Some (l, r).
Proof.
  induction l as [|a l IH]; intros H.
  - simpl. by rewrite bool_decide_true.
  - rewrite str_cons_app. simpl in *. apply andb_true_iff in H as [Ha Hl].
    apply negb_true_iff in Ha. by rewrite Ha, IH.
Qed.

Lemma split_once_Some c s l r : split_once c s = Some (l, r) -> s = l +:+ String c r.
Proof.
  revert l r. induction s as [|a s IH]; intros l r; [done|]. simpl.
  case_bool_decide; [intros; by simplify_eq/=|].
  destruct (split_once c s) as [[l' r']|]; intros; simplify_eq/=.
  rewrite str_cons_app. f_equal. by apply IH.
Qed.

Lemma split_once_None c s :
  split_once c s = None <-> all_bytes (fun a => negb (bool_decide (a = c))) s = true.
Proof.
  induction s as [|a s IH]; [done|]. simpl.
  case_bool_decide; simpl; [naive_solver|].
  rewrite <-IH. destruct (split_once c s) as [[]|]; naive_solver.
Qed.

Lemma strip_prefix_Some p s t : strip_prefix p s = Some t <-> s = p +:+ t.
Proof.
  revert s. induction p as [|a p IH]; intros s; simpl.
  - change ("" +:+ t) with t. naive_solver.
  - rewrite str_cons_app. destruct s as [|b s]; [naive_solver|].
    case_bool_decide; [rewrite IH|]; naive_solver.
Qed.

Lemma starts_with_spec s p : starts_with s p = true <-> exists t, s = p +:+ t.
Proof.
  unfold starts_with. rewrite bool_decide_eq_true. unfold is_Some.
  by setoid_rewrite strip_prefix_Some.
Qed.

Lemma contains_spec s p : contains s p = true <-> exists l r, s = l +:+ (p +:+ r).
Proof.
  induction s as [|a s IH].
  - simpl. rewrite orb_false_r, starts_with_spec. split.
    + intros [t Ht]. by exists "", t.
    + intros (l & r & Hs). destruct l; [by exists r|done].
  - simpl. rewrite orb_true_iff, starts_with_spec, IH. split.
    + intros [[t Ht]|(l & r & ->)]; [by exists "", t|]. by exists (String a l), r.
    + intros ([|b l] & r & Hs); [left; by exists r|]. rewrite str_cons_app in Hs.
      right. exists l, r. by simplify_eq.
Qed.

(** Reversal and suffixes. *)
Lemma rev_app_eq s t : String.rev_app s t = String.rev s +:+ t.
Proof.
  unfold String.rev. revert t. induction s as [|a s IH]; intros t; [done|]. simpl.
  rewrite (IH (String a t)), (IH (String a "")). by rewrite <-str_app_String.
Qed.

Lemma rev_str_app s t : String.rev (s +:+ t) = String.rev t +:+ String.rev s.
Proof.
  induction s as [|a s IH]; [by rewrite str_app_nil_r|]. rewrite str_cons_app.
  change (String.rev_app (s +:+ t) (String a "") = String.rev t +:+ String.rev_app s (String a "")).
  by rewrite !rev_app_eq, IH, str_app_assoc.
Qed.

Lemma rev_str_involutive s : String.rev (String.rev s) = s.
Proof.
  induction s as [|a s IH]; [done|].
  change (String.rev (String.rev_app s (String a "")) = String a s).
  by rewrite rev_app_eq, rev_str_app, IH.
Qed.

Lemma strip_suffix_Some p s t : strip_suffix p s = Some t <-> s = t +:+ p.
Proof.
  unfold strip_suffix. rewrite fmap_Some. setoid_rewrite strip_prefix_Some. split.
  - intros (u & E & ->). by rewrite <-(rev_str_involutive s), E, rev_str_app, rev_str_involutive.
  - intros ->. exists (String.rev t). by rewrite rev_str_app, rev_str_involutive.
Qed.

Lemma ends_with_spec s p : ends_with s p = true <-> exists t, s = t +:+ p.
Proof.
  unfold ends_with. rewrite bool_decide_eq_true. unfold is_Some. by setoid_rewrite strip_suffix_Some.
Qed.

Lemma utf8_valid_ascii s : all_bytes is_ascii s = true -> utf8_valid s = true.
Proof.
  unfold utf8_valid, is_ascii. induction s as [|a s IH]; [done|]. simpl.
  intros [Ha Hs]%andb_true_iff. by rewrite Ha, IH.
Qed.

(** *** Facts about decimal numbers *)

Lemma digit_val_show d : (0 <= d < 10)%Z -> digit_val (show_digit d) = Some d.
Proof.
  intros H. unfold digit_val, show_digit, byte, in_range. rewrite N_ascii_embedding by lia.
  rewrite (proj2 (N.leb_le 48 _)), (proj2 (N.leb_le _ 57)) by lia. simpl. f_equal. lia.
Qed.

Lemma show_go_digits fuel n acc :
  (0 <= n < 10 ^ Z.of_nat fuel)%Z ->
  exists k, (0 <= k)%Z /\
    forall a, digits_val (show_go fuel n acc) a = digits_val acc (a * 10 ^ k + n).
Proof.
  revert n acc. induction fuel as [|fuel IH]; intros n acc Hn.
  - exists 0%Z. split; [lia|]. intros a. simpl. f_equal. simpl in Hn. lia.
  - simpl show_go. assert (Hm := Z.mod_pos_bound n 10 ltac:(lia)).
    assert (Hd := Z.div_mod n 10 ltac:(lia)). destruct (Z.ltb_spec n 10).
    + exists 1%Z. split; [lia|]. intros a. simpl. rewrite digit_val_show by done.
      by rewrite Z.mod_small by lia.
    + destruct (IH (n `div` 10)%Z (String (show_digit (n `mod` 10)) acc)) as (k & Hk0 & Hk).
      { rewrite Nat2Z.inj_succ, Z.pow_succ_r in Hn by lia.
        split; [apply Z.div_pos; lia|]. apply Z.div_lt_upper_bound; lia. }
      exists (k + 1)%Z. split; [lia|]. intros a. rewrite Hk. simpl.
      rewrite digit_val_show by done. f_equal. rewrite Z.pow_add_r by lia. lia.
Qed.

Lemma show_uint_fuel n : (0 <= n)%Z -> (n < 10 ^ Z.of_nat (S (Z.to_nat (Z.log2 n))))%Z.
Proof.
  intros Hn. assert (Hl := Z.log2_nonneg n). rewrite Nat2Z.inj_succ, Z2Nat.id by lia.
  destruct (decide (n = 0%Z)) as [->|]; [done|].
  eapply Z.lt_le_trans; [apply Z.log2_spec; lia|].
  apply Z.pow_le_mono_l. lia.
Qed.

Lemma show_digit_nat d : (0 <= d < 10)%Z -> in_range 48 57 (byte (show_digit d)) = true.
Proof.
  intros H. unfold show_digit, byte, in_range. rewrite N_ascii_embedding by lia.
  apply andb_true_iff. rewrite !N.leb_le. lia.
Qed.

Definition digit_byte (a : ascii) : bool := in_range 48 57 (byte a).

Lemma show_go_all fuel n acc :
  (0 <= n)%Z -> all_bytes digit_byte acc = true -> all_bytes digit_byte (show_go fuel n acc) = true.
Proof.
  revert n acc. induction fuel as [|fuel IH]; intros n acc Hn Ha; [done|]. simpl.
  assert (Hs : all_bytes digit_byte (String (show_digit (n `mod` 10)) acc) = true).
  { simpl. rewrite Ha, andb_true_r. apply show_digit_nat, Z.mod_pos_bound. lia. }
  case_match; [done|]. apply IH; [apply Z.div_pos; lia|done].
Qed.

Lemma show_go_cons fuel n acc : exists a s, show_go (S fuel) n acc = String a s.
Proof.
  revert n acc. induction fuel as [|fuel IH]; intros n acc; simpl; case_match; eauto.
Qed.

Lemma show_uint_all n : (0 <= n)%Z -> all_bytes digit_byte (show_uint n) = true.
Proof. intros. by apply show_go_all. Qed.

Lemma show_uint_cons n : exists a s, show_uint n = String a s.
Proof. apply show_go_cons. Qed.

Lemma digits_val_show n : (0 <= n)%Z -> digits_val (show_uint n) 0 = Some n.
Proof.
  intros Hn. destruct (show_go_digits (S (Z.to_nat (Z.log2 n))) n "") as (k & Hk & H).
  { split; [done|]. by apply show_uint_fuel. }
  unfold show_uint. by rewrite H.
Qed.

Lemma digit_byte_not_plus a s : digit_byte a = true ->
  match String a s with String "+" s' => s' | _ => String a s end = String a s.
Proof. destruct a as [[] [] [] [] [] [] [] []]; done. Qed.

(** Printing a number and parsing it back gives the number. *)
Lemma parse_show_uint max n : (0 <= n <= max)%Z -> parse_uint max (show_uint n) = Some n.
Proof.
  intros Hn. unfold parse_uint. destruct (show_uint_cons n) as (a & s & E).
  assert (Ha := show_uint_all n ltac:(lia)). rewrite E in Ha. simpl in Ha.
  apply andb_true_iff in Ha as [Ha _]. rewrite E, digit_byte_not_plus by done.
  rewrite <-E, digits_val_show by lia. by destruct (Z.leb_spec n max); [|lia].
Qed.

Lemma digits_val_ge s acc n : (0 <= acc)%Z -> digits_val s acc = Some n -> (acc <= n)%Z.
Proof.
  revert acc. induction s as [|a s IH]; simpl; intros acc Hacc H; [naive_solver lia|].
  unfold digit_val, in_range in H.
  destruct ((48 <=? byte a)%N && (byte a <=? 57)%N) eqn:E; [|done].
  apply andb_true_iff in E as [?%N.leb_le ?%N.leb_le]. apply IH in H; lia.
Qed.

Lemma parse_uint_bounds max s n : parse_uint max s = Some n -> (0 <= n <= max)%Z.
Proof.
  unfold parse_uint. set (body := match s with String "+" s' => s' | _ => s end).
  destruct body as [|a b]; [done|]. destruct (digits_val _ 0) eqn:E; [|done].
  destruct (Z.leb_spec z max); [|done]. intros; simplify_eq.
  apply digits_val_ge in E; lia.
Qed.

(** ** Lists *)

Lemma filter_all {A} (P : A -> Prop) `{forall x, Decision (P x)} (l : list A) :
  Forall P l -> filter P l = l.
Proof. induction 1; [done|]. rewrite filter_cons_True by done. by f_equal. Qed.

Lemma filter_none {A} (P : A -> Prop) `{forall x, Decision (P x)} (l : list A) :
  Forall (fun x => ~ P x) l -> filter P l = [].
Proof. induction 1; [done|]. by rewrite filter_cons_False by done. Qed.

Lemma NoDup_omap {A B} (f : A -> option B) (l : list A) :
  (forall x y z, x ∈ l -> y ∈ l -> f x = Some z -> f y = Some z -> x = y) -> NoDup l -> NoDup (omap f l).
Proof.
  intros Hf Hn. induction Hn as [|x l Hx Hl IH]; [constructor|]. simpl.
  assert (IH' : NoDup (omap f l)) by (apply IH; intros; eapply Hf; try done; by constructor).
  case_match eqn:E; [|done]. constructor; [|done]. rewrite list_elem_of_omap. intros (y & Hy & Ey).
  destruct Hx. rewrite (Hf x y b); [done|by constructor|by constructor|done|done].
Qed.

Lemma size_list_to_set_le `{Countable A} (l : list A) : size (list_to_set l : gset A) <= length l.
Proof.
  induction l as [|x l IH]; [done|]; simpl.
  rewrite size_union_alt, size_singleton.
  assert (size (list_to_set l ∖ {[x]} : gset A) <= size (list_to_set l : gset A));
    [apply subseteq_size; set_solver|lia].
Qed.

(** ** Unicode tables

    The ASCII part of the character properties is spelled out; the tables of
    the Unicode standard for the other characters are a parameter. *)
Class UnicodeTables := {
  uc_alphanumeric : N -> bool;
  uc_uppercase : rchar -> string;
  uc_debug_plain : N -> bool;
}.

Definition is_alphanumeric `{UnicodeTables} (c : rchar) : bool :=
  let n := char_code c in
  if (n <? 128)%N then is_ascii_alphanumeric n else uc_alphanumeric n.

Definition char_uppercase `{UnicodeTables} (c : rchar) : string :=
  if (char_code c <? 128)%N then str_map ascii_upper c else uc_uppercase c.

Definition to_uppercase `{UnicodeTables} (s : string) : string :=
  str_concat (char_uppercase <$> chars s).

(** [{:?}] of a [str]: quoted, with the escapes of [char::escape_debug]. The table
    [uc_debug_plain] holds the non-ASCII characters that are printable and do not
    extend a grapheme. *)
Definition char_debug `{UnicodeTables} (c : rchar) : string :=
  let n := char_code c in
  if (n =? 0)%N then "\0" else if (n =? 9)%N then "\t" else if (n =? 10)%N then "\n"
  else if (n =? 13)%N then "\r" else if (n =? 34)%N then String "\" (String "034" "")
  else if (n =? 92)%N then "\\"
  else if (if (n <? 128)%N then in_range 32 126 n else uc_debug_plain n) then c
  else "\u{" +:+ show_hex (Z.of_N n) +:+ "}".

Definition str_debug `{UnicodeTables} (s : string) : string :=
  String "034" "" +:+ str_concat (char_debug <$> chars s) +:+ String "034" "".

(** [{:?}] of a vector and of an option, from that of the elements. *)
Definition vec_debug (l : list string) : string := "[" +:+ join ", " l +:+ "]".
Definition option_debug (o : option string) : string :=
  match o with Some s => "Some(" +:+ s +:+ ")" | None => "None" end.
