(* ===== verification/Core.v ===== *)
(** * selfdef-core: taxonomy, observables and the event envelope

    Models crates/selfdef-core/src: the OCSF enumerations with their wire
    integers, the observables, [Event] with its constructor and setters,
    [Event::validate], and the JSON value that serde derives for an event (the
    value the correlator matches its rules against).

    Wall-clock readings and fresh identifiers are inputs of the constructors;
    the text forms of a UUID and of a timestamp come from the [WireFormat]
    class, because those formatters belong to third-party crates. *)

From S2P Require Import Prelude.
From stdpp Require Import options.

(** ** severity.rs *)

Module SeverityId.
Inductive t :=
| Unknown | Informational | Low | Medium | High | Critical | Fatal | Other.

#[global] Instance eq_dec : EqDecision t.
Proof. solve_decision. Defined.
End SeverityId.

(** The discriminants of the [repr(u32)] enumeration. *)
Definition severity_u32 (s : SeverityId.t) : Z :=
  match s with
  | SeverityId.Unknown => 0
  | SeverityId.Informational => 1
  | SeverityId.Low => 2
  | SeverityId.Medium => 3
  | SeverityId.High => 4
  | SeverityId.Critical => 5
  | SeverityId.Fatal => 6
  | SeverityId.Other => 99
  end%Z.

Definition severity_name (s : SeverityId.t) : string :=
  match s with
  | SeverityId.Unknown => "Unknown"
  | SeverityId.Informational => "Informational"
  | SeverityId.Low => "Low"
  | SeverityId.Medium => "Medium"
  | SeverityId.High => "High"
  | SeverityId.Critical => "Critical"
  | SeverityId.Fatal => "Fatal"
  | SeverityId.Other => "Other"
  end.

Definition is_actionable (s : SeverityId.t) : bool :=
  match s with
  | SeverityId.High | SeverityId.Critical | SeverityId.Fatal => true
  | _ => false
  end.

(** The derived [PartialOrd]: declaration order, which agrees with the
    discriminants. *)
Definition severity_lt (a b : SeverityId.t) : bool := (severity_u32 a <? severity_u32 b)%Z.

(** ** status.rs *)

Module StatusId.
Inductive t := Unknown | Success | Failure | Other.

#[global] Instance eq_dec : EqDecision t.
Proof. solve_decision. Defined.
End StatusId.

Definition status_u32 (s : StatusId.t) : Z :=
  match s with
  | StatusId.Unknown => 0
  | StatusId.Success => 1
  | StatusId.Failure => 2
  | StatusId.Other => 99
  end%Z.

(** ** category.rs *)

Module CategoryUid.
Inductive t :=
| Unknown | SystemActivity | Findings | Iam | NetworkActivity | Discovery
| ApplicationActivity | Other.

#[global] Instance eq_dec : EqDecision t.
Proof. solve_decision. Defined.
End CategoryUid.

Definition category_u32 (c : CategoryUid.t) : Z :=
  match c with
  | CategoryUid.Unknown => 0
  | CategoryUid.SystemActivity => 1
  | CategoryUid.Findings => 2
  | CategoryUid.Iam => 3
  | CategoryUid.NetworkActivity => 4
  | CategoryUid.Discovery => 5
  | CategoryUid.ApplicationActivity => 6
  | CategoryUid.Other => 99
  end%Z.

(** A [ClassUid] is its [u32]. *)
Definition FILE_SYSTEM_ACTIVITY : Z := 1001.
Definition PROCESS_ACTIVITY : Z := 1007.
Definition SECURITY_FINDING : Z := 2001.
Definition DETECTION_FINDING : Z := 2004.
Definition INCIDENT_FINDING : Z := 2005.
Definition AUTHENTICATION : Z := 3002.
Definition NETWORK_ACTIVITY : Z := 4001.
Definition SSH_ACTIVITY : Z := 4007.

Definition class_category (class_uid : Z) : CategoryUid.t :=
  match class_uid / 1000 with
  | 1 => CategoryUid.SystemActivity
  | 2 => CategoryUid.Findings
  | 3 => CategoryUid.Iam
  | 4 => CategoryUid.NetworkActivity
  | 5 => CategoryUid.Discovery
  | 6 => CategoryUid.ApplicationActivity
  | _ => CategoryUid.Other
  end%Z.

Definition class_name (class_uid : Z) : string :=
  match class_uid with
  | 1001 => "File System Activity"
  | 1002 => "Kernel Extension"
  | 1003 => "Kernel Activity"
  | 1004 => "Memory Activity"
  | 1005 => "Module Activity"
  | 1006 => "Scheduled Job"
  | 1007 => "Process Activity"
  | 2001 => "Security Finding"
  | 2004 => "Detection Finding"
  | 2005 => "Incident Finding"
  | 3001 => "Account Change"
  | 3002 => "Authentication"
  | 3003 => "Authorize Session"
  | 3006 => "Group Management"
  | 4001 => "Network Activity"
  | 4002 => "HTTP Activity"
  | 4003 => "DNS Activity"
  | 4007 => "SSH Activity"
  | _ => "Unknown"
  end%Z.

Definition type_uid (class_uid activity_id : Z) : Z := class_uid * 100 + activity_id.

(** ** attack.rs *)

Module Tactic.
Inductive t :=
| Reconnaissance | ResourceDevelopment | InitialAccess | Execution | Persistence
| PrivilegeEscalation | DefenseEvasion | CredentialAccess | Discovery
| LateralMovement | Collection | CommandAndControl | Exfiltration | Impact.

#[global] Instance eq_dec : EqDecision t.
Proof. solve_decision. Defined.
End Tactic.

(** The snake-case wire form. *)
Definition tactic_wire (t : Tactic.t) : string :=
  match t with
  | Tactic.Reconnaissance => "reconnaissance"
  | Tactic.ResourceDevelopment => "resource_development"
  | Tactic.InitialAccess => "initial_access"
  | Tactic.Execution => "execution"
  | Tactic.Persistence => "persistence"
  | Tactic.PrivilegeEscalation => "privilege_escalation"
  | Tactic.DefenseEvasion => "defense_evasion"
  | Tactic.CredentialAccess => "credential_access"
  | Tactic.Discovery => "discovery"
  | Tactic.LateralMovement => "lateral_movement"
  | Tactic.Collection => "collection"
  | Tactic.CommandAndControl => "command_and_control"
  | Tactic.Exfiltration => "exfiltration"
  | Tactic.Impact => "impact"
  end.

Record TechniqueRef := mkTechniqueRef {
  tr_id : string;
  tr_name : string;
  tr_tactic : Tactic.t;
}.

(** ** Observables *)

(** [std::net::IpAddr]: an IPv4 address as its 32 bits, an IPv6 address as its
    eight 16-bit segments. *)
Inductive IpAddr :=
| V4 (bits : Z)
| V6 (segments : list Z).

Record Endpoint := mkEndpoint {
  ep_ip : option IpAddr;
  ep_port : option Z;
  ep_hostname : option string;
  ep_country : option string;
  ep_asn : option Z;
  ep_interface : option string;
}.

Module Direction.
Inductive t := Unknown | Inbound | Outbound | Lateral | Other.
End Direction.

Definition direction_u32 (d : Direction.t) : Z :=
  match d with
  | Direction.Unknown => 0
  | Direction.Inbound => 1
  | Direction.Outbound => 2
  | Direction.Lateral => 3
  | Direction.Other => 99
  end%Z.

Record NetworkConnection := mkNetworkConnection {
  nc_protocol_name : option string;
  nc_protocol_num : option Z;
  nc_direction : option Direction.t;
  nc_bytes_in : option Z;
  nc_bytes_out : option Z;
  nc_tcp_flags : option string;
}.

Record User := mkUser {
  u_uid : option Z;
  u_name : option string;
  u_uid_str : option string;
  u_domain : option string;
  u_group_name : option string;
}.

(** Timestamps ([OffsetDateTime]) are integers of nanoseconds since the epoch. *)
Record Process := mkProcess {
  p_pid : Z;
  p_parent_pid : option Z;
  p_name : option string;
  p_path : option string;
  p_cmdline : option string;
  p_created_time_dt : option Z;
  p_user : option User;
  p_image_sha256 : option string;
}.

Record UserSession := mkUserSession {
  se_uid : option string;
  se_created_time_dt : option Z;
  se_is_remote : option bool;
  se_kind : option string;
}.

Record Actor := mkActor {
  a_user : option User;
  a_process : option Process;
  a_session : option UserSession;
  a_invoked_by : option string;
}.

Module FileType.
Inductive t :=
| Unknown | Regular | Directory | Symlink | CharacterDevice | BlockDevice | Pipe
| Socket | Other.
End FileType.

Definition file_type_u32 (f : FileType.t) : Z :=
  match f with
  | FileType.Unknown => 0
  | FileType.Regular => 1
  | FileType.Directory => 2
  | FileType.Symlink => 3
  | FileType.CharacterDevice => 4
  | FileType.BlockDevice => 5
  | FileType.Pipe => 6
  | FileType.Socket => 7
  | FileType.Other => 99
  end%Z.

Module HashAlgorithm.
Inductive t :=
| Unknown | Md5 | Sha1 | Sha256 | Sha512 | Ctph | Tlsh | QuickXorHash | Other.
End HashAlgorithm.

Definition hash_algorithm_u32 (h : HashAlgorithm.t) : Z :=
  match h with
  | HashAlgorithm.Unknown => 0
  | HashAlgorithm.Md5 => 1
  | HashAlgorithm.Sha1 => 2
  | HashAlgorithm.Sha256 => 3
  | HashAlgorithm.Sha512 => 4
  | HashAlgorithm.Ctph => 5
  | HashAlgorithm.Tlsh => 6
  | HashAlgorithm.QuickXorHash => 7
  | HashAlgorithm.Other => 99
  end%Z.

Record FileHash := mkFileHash {
  h_algorithm_id : HashAlgorithm.t;
  h_value : string;
}.

Record File := mkFile {
  f_name : option string;
  f_path : option string;
  f_type_id : option FileType.t;
  f_size : option Z;
  f_hashes : list FileHash;
  f_owner : option User;
  f_mode : option Z;
  f_created_time_dt : option Z;
  f_modified_time_dt : option Z;
}.

(** ** metadata.rs *)

Record Product := mkProduct {
  pr_name : string;
  pr_vendor_name : string;
  pr_version : string;
}.

(** [CARGO_PKG_VERSION] is the workspace version. *)
Definition product_default : Product := mkProduct "selfdef-daemon" "selfdef" "0.1.0".

Record Metadata := mkMetadata {
  m_product : Product;
  m_logged_time_dt : Z;
  m_sequence : Z;
  m_profiles : list string;
}.

Definition metadata_now (now sequence : Z) : Metadata :=
  mkMetadata product_default now sequence ["host"; "linux"].

(** ** JSON values

    [serde_json::Value]. A [Number] is a [u64], a negative [i64] or a float;
    the bits of a float are not inspected by the modelled code. *)
Inductive json :=
| JNull
| JBool (b : bool)
| JPosInt (n : Z)
| JNegInt (n : Z)
| JFloat (bits : Z)
| JString (s : string)
| JArray (l : list json)
| JObject (fields : list (string * json)).

Definition json_int (n : Z) : json := if (0 <=? n)%Z then JPosInt n else JNegInt n.

Fixpoint assoc {A} (k : string) (l : list (string * A)) : option A :=
  match l with
  | [] => None
  | (k', v) :: l => if bool_decide (k = k') then Some v else assoc k l
  end.

(** [Value::get] with a string index, and the [as_*] accessors. *)
Definition json_get (v : json) (k : string) : option json :=
  match v with JObject l => assoc k l | _ => None end.
Definition json_as_str (v : json) : option string :=
  match v with JString s => Some s | _ => None end.
Definition json_as_bool (v : json) : option bool :=
  match v with JBool b => Some b | _ => None end.
Definition json_as_u64 (v : json) : option Z :=
  match v with JPosInt n => Some n | _ => None end.
Definition json_as_i64 (v : json) : option Z :=
  match v with
  | JPosInt n => if (n <? 2 ^ 63)%Z then Some n else None
  | JNegInt n => Some n
  | _ => None
  end.

(** Text forms that belong to third-party crates: [Uuid]'s [Display], RFC 3339
    formatting (which can fail on an out-of-range year) and the compact text
    of a JSON value. *)
Class WireFormat := {
  uuid_to_string : Z -> string;
  rfc3339_format : Z -> option string;
  json_to_string : json -> string;
}.

(** [Display] of an address. IPv6 follows the standard library: an IPv4-mapped
    address prints its dotted tail, otherwise the first longest run of at
    least two zero segments is compressed to [::]. *)
Definition show_ipv4 (b : Z) : string :=
  show_uint ((b / 2 ^ 24) `mod` 256) +:+ "." +:+ show_uint ((b / 2 ^ 16) `mod` 256) +:+ "."
  +:+ show_uint ((b / 2 ^ 8) `mod` 256) +:+ "." +:+ show_uint (b `mod` 256).

Definition show_hex16 (n : Z) : string := show_hex_go 4 n "".

(** Start and length of the longest run of zero segments, the first on ties:
    [cur] is the run that ends before segment [i], [best] the best so far. *)
Fixpoint zero_run (i : nat) (segs : list Z) (cur best : nat * nat) : nat * nat :=
  match segs with
  | [] => best
  | s :: segs =>
      if (s =? 0)%Z then
        let cur := (match cur.2 with O => i | _ => cur.1 end, S cur.2) in
        zero_run (S i) segs cur (if decide (best.2 < cur.2) then cur else best)
      else zero_run (S i) segs (0, 0) best
  end.

Definition show_ipv6 (segs : list Z) : string :=
  match segs with
  | [0; 0; 0; 0; 0; 65535; ab; cd]%Z => "::ffff:" +:+ show_ipv4 (ab * 2 ^ 16 + cd)
  | _ =>
      let '(start, len) := zero_run 0 segs (0, 0) (0, 0) in
      if decide (1 < len) then
        join ":" (show_hex16 <$> take start segs) +:+ "::"
        +:+ join ":" (show_hex16 <$> drop (start + len) segs)
      else join ":" (show_hex16 <$> segs)
  end.

Definition show_ip (ip : IpAddr) : string :=
  match ip with
  | V4 b => show_ipv4 b
  | V6 segs => show_ipv6 segs
  end.

Example show_ip_examples :
  show_ip <$> [V4 3221226059; V6 [8193; 3512; 0; 1; 0; 0; 0; 1]; V6 [0; 0; 0; 0; 0; 0; 0; 0];
               V6 [0; 0; 0; 0; 0; 65535; 49152; 523]]%Z
  = ["192.0.2.75"; "2001:db8:0:1::1"; "::"; "::ffff:192.0.2.11"].
Proof. by vm_compute. Qed.

(** ** envelope.rs: the event *)

Definition SCHEMA_VERSION : Z := 1.

Record Event := mkEvent {
  ev_schema : Z;
  ev_id : Z;
  ev_time_dt : Z;
  ev_category_uid : CategoryUid.t;
  ev_class_uid : Z;
  ev_activity_id : Z;
  ev_type_uid : Z;
  ev_severity_id : SeverityId.t;
  ev_host_tag : string;
  ev_source : string;
  ev_status_id : option StatusId.t;
  ev_message : option string;
  ev_actor : option Actor;
  ev_process : option Process;
  ev_file : option File;
  ev_src_endpoint : option Endpoint;
  ev_dst_endpoint : option Endpoint;
  ev_network : option NetworkConnection;
  ev_attack : list TechniqueRef;
  ev_metadata : Metadata;
  ev_raw : option json;
  ev_federated : bool;
  ev_federation_verified : bool;
}.

(** The readings one construction takes: [Uuid::now_v7], the wall clock of the
    envelope and the wall clock of its metadata. *)
Record Stamp := mkStamp {
  st_id : Z;
  st_time : Z;
  st_logged : Z;
}.

Definition event_new (st : Stamp) (class_uid activity_id : Z) (severity_id : SeverityId.t)
    (host_tag source : string) (sequence : Z) : Event :=
  {| ev_schema := SCHEMA_VERSION;
     ev_id := st_id st;
     ev_time_dt := st_time st;
     ev_category_uid := class_category class_uid;
     ev_class_uid := class_uid;
     ev_activity_id := activity_id;
     ev_type_uid := type_uid class_uid activity_id;
     ev_severity_id := severity_id;
     ev_host_tag := host_tag;
     ev_source := source;
     ev_status_id := None;
     ev_message := None;
     ev_actor := None;
     ev_process := None;
     ev_file := None;
     ev_src_endpoint := None;
     ev_dst_endpoint := None;
     ev_network := None;
     ev_attack := [];
     ev_metadata := metadata_now (st_logged st) sequence;
     ev_raw := None;
     ev_federated := false;
     ev_federation_verified := false |}.

(** The builder-style setters. *)
Definition with_status (s : StatusId.t) (e : Event) : Event :=
  let 'mkEvent a b c d x f g h i j _ l m n o p q r s' t u v w := e in
  mkEvent a b c d x f g h i j (Some s) l m n o p q r s' t u v w.
Definition with_message (m : string) (e : Event) : Event :=
  let 'mkEvent a b c d x f g h i j k _ m' n o p q r s t u v w := e in
  mkEvent a b c d x f g h i j k (Some m) m' n o p q r s t u v w.
Definition with_actor (ac : Actor) (e : Event) : Event :=
  let 'mkEvent a b c d x f g h i j k l _ n o p q r s t u v w := e in
  mkEvent a b c d x f g h i j k l (Some ac) n o p q r s t u v w.
Definition with_process (pr : Process) (e : Event) : Event :=
  let 'mkEvent a b c d x f g h i j k l m _ o p q r s t u v w := e in
  mkEvent a b c d x f g h i j k l m (Some pr) o p q r s t u v w.
Definition with_file (fl : File) (e : Event) : Event :=
  let 'mkEvent a b c d x f g h i j k l m n _ p q r s t u v w := e in
  mkEvent a b c d x f g h i j k l m n (Some fl) p q r s t u v w.
Definition with_src_endpoint (ep : Endpoint) (e : Event) : Event :=
  let 'mkEvent a b c d x f g h i j k l m n o _ q r s t u v w := e in
  mkEvent a b c d x f g h i j k l m n o (Some ep) q r s t u v w.
Definition with_dst_endpoint (ep : Endpoint) (e : Event) : Event :=
  let 'mkEvent a b c d x f g h i j k l m n o p _ r s t u v w := e in
  mkEvent a b c d x f g h i j k l m n o p (Some ep) r s t u v w.
Definition with_network (nc : NetworkConnection) (e : Event) : Event :=
  let 'mkEvent a b c d x f g h i j k l m n o p q _ s t u v w := e in
  mkEvent a b c d x f g h i j k l m n o p q (Some nc) s t u v w.
Definition with_attack (tq : TechniqueRef) (e : Event) : Event :=
  let 'mkEvent a b c d x f g h i j k l m n o p q r s t u v w := e in
  mkEvent a b c d x f g h i j k l m n o p q r (s ++ [tq]) t u v w.
Definition with_raw (rw : json) (e : Event) : Event :=
  let 'mkEvent a b c d x f g h i j k l m n o p q r s t _ v w := e in
  mkEvent a b c d x f g h i j k l m n o p q r s t (Some rw) v w.
Definition with_federated (fd : bool) (e : Event) : Event :=
  let 'mkEvent a b c d x f g h i j k l m n o p q r s t u _ w := e in
  mkEvent a b c d x f g h i j k l m n o p q r s t u fd w.
Definition with_federation_verified (fv : bool) (e : Event) : Event :=
  let 'mkEvent a b c d x f g h i j k l m n o p q r s t u v _ := e in
  mkEvent a b c d x f g h i j k l m n o p q r s t u v fv.

(** error.rs: what [validate] can report. *)
Inductive CoreError :=
| UnsupportedSchema (got supported : Z)
| Validation (msg : string).

Definition validate (e : Event) : result unit CoreError :=
  if negb (ev_schema e =? SCHEMA_VERSION)%Z then
    Err (UnsupportedSchema (ev_schema e) SCHEMA_VERSION)
  else if bool_decide (ev_host_tag e = "") then
    Err (Validation "host_tag must not be empty")
  else if bool_decide (ev_source e = "") then
    Err (Validation "source must not be empty")
  else
    let expected := type_uid (ev_class_uid e) (ev_activity_id e) in
    if negb (ev_type_uid e =? expected)%Z then
      Err (Validation ("type_uid " +:+ show_uint (ev_type_uid e)
        +:+ " != class_uid*100+activity_id (" +:+ show_uint expected +:+ ")"))
    else Ok tt.

(** ** The JSON value of an event

    The derived [Serialize] implementations: every field under its own name,
    optional fields and empty lists left out, enumerations as their integers,
    and the two local provenance markers ([serde(skip)]) never written. The
    only failure is a timestamp that has no RFC 3339 form. *)
Section to_json.
Context `{WireFormat}.

Definition opt_field {A} (k : string) (f : A -> json) (o : option A) : list (string * json) :=
  match o with
  | Some a => [(k, f a)]
  | None => []
  end.

Definition opt_field_m {A} (k : string) (f : A -> option json) (o : option A) :
    option (list (string * json)) :=
  match o with
  | Some a => j ← f a; Some [(k, j)]
  | None => Some []
  end.

Definition vec_field {A} (k : string) (f : A -> json) (l : list A) : list (string * json) :=
  match l with
  | [] => []
  | _ => [(k, JArray (f <$> l))]
  end.

Definition time_json (t : Z) : option json := JString <$> rfc3339_format t.

Definition user_json (u : User) : json :=
  JObject (opt_field "uid" JPosInt (u_uid u) ++ opt_field "name" JString (u_name u)
    ++ opt_field "uid_str" JString (u_uid_str u) ++ opt_field "domain" JString (u_domain u)
    ++ opt_field "group_name" JString (u_group_name u)).

Definition process_json (p : Process) : option json :=
  created ← opt_field_m "created_time_dt" time_json (p_created_time_dt p);
  Some (JObject ([("pid", json_int (p_pid p))] ++ opt_field "parent_pid" json_int (p_parent_pid p)
    ++ opt_field "name" JString (p_name p) ++ opt_field "path" JString (p_path p)
    ++ opt_field "cmdline" JString (p_cmdline p) ++ created
    ++ opt_field "user" user_json (p_user p)
    ++ opt_field "image_sha256" JString (p_image_sha256 p))).

Definition session_json (s : UserSession) : option json :=
  created ← opt_field_m "created_time_dt" time_json (se_created_time_dt s);
  Some (JObject (opt_field "uid" JString (se_uid s) ++ created
    ++ opt_field "is_remote" JBool (se_is_remote s) ++ opt_field "kind" JString (se_kind s))).

Definition actor_json (a : Actor) : option json :=
  process ← opt_field_m "process" process_json (a_process a);
  session ← opt_field_m "session" session_json (a_session a);
  Some (JObject (opt_field "user" user_json (a_user a) ++ process ++ session
    ++ opt_field "invoked_by" JString (a_invoked_by a))).

Definition hash_json (h : FileHash) : json :=
  JObject [("algorithm_id", JPosInt (hash_algorithm_u32 (h_algorithm_id h)));
           ("value", JString (h_value h))].

Definition file_json (f : File) : option json :=
  created ← opt_field_m "created_time_dt" time_json (f_created_time_dt f);
  modified ← opt_field_m "modified_time_dt" time_json (f_modified_time_dt f);
  Some (JObject (opt_field "name" JString (f_name f) ++ opt_field "path" JString (f_path f)
    ++ opt_field "type_id" (fun t => JPosInt (file_type_u32 t)) (f_type_id f)
    ++ opt_field "size" JPosInt (f_size f) ++ vec_field "hashes" hash_json (f_hashes f)
    ++ opt_field "owner" user_json (f_owner f) ++ opt_field "mode" JPosInt (f_mode f)
    ++ created ++ modified)).

Definition endpoint_json (e : Endpoint) : json :=
  JObject (opt_field "ip" (fun i => JString (show_ip i)) (ep_ip e)
    ++ opt_field "port" JPosInt (ep_port e) ++ opt_field "hostname" JString (ep_hostname e)
    ++ opt_field "country" JString (ep_country e) ++ opt_field "asn" JPosInt (ep_asn e)
    ++ opt_field "interface" JString (ep_interface e)).

Definition network_json (n : NetworkConnection) : json :=
  JObject (opt_field "protocol_name" JString (nc_protocol_name n)
    ++ opt_field "protocol_num" JPosInt (nc_protocol_num n)
    ++ opt_field "direction" (fun d => JPosInt (direction_u32 d)) (nc_direction n)
    ++ opt_field "bytes_in" JPosInt (nc_bytes_in n)
    ++ opt_field "bytes_out" JPosInt (nc_bytes_out n)
    ++ opt_field "tcp_flags" JString (nc_tcp_flags n)).

Definition technique_json (t : TechniqueRef) : json :=
  JObject [("id", JString (tr_id t)); ("name", JString (tr_name t));
           ("tactic", JString (tactic_wire (tr_tactic t)))].

Definition product_json (p : Product) : json :=
  JObject [("name", JString (pr_name p)); ("vendor_name", JString (pr_vendor_name p));
           ("version", JString (pr_version p))].

Definition metadata_json (m : Metadata) : option json :=
  logged ← time_json (m_logged_time_dt m);
  Some (JObject ([("product", product_json (m_product m)); ("logged_time_dt", logged);
                  ("sequence", JPosInt (m_sequence m))]
    ++ vec_field "profiles" JString (m_profiles m))).

(** [serde_json::to_value(event)]. *)
Definition event_to_json (e : Event) : option json :=
  time ← time_json (ev_time_dt e);
  actor ← opt_field_m "actor" actor_json (ev_actor e);
  process ← opt_field_m "process" process_json (ev_process e);
  file ← opt_field_m "file" file_json (ev_file e);
  metadata ← metadata_json (ev_metadata e);
  Some (JObject (
    [("schema", JPosInt (ev_schema e)); ("id", JString (uuid_to_string (ev_id e)));
     ("time_dt", time); ("category_uid", JPosInt (category_u32 (ev_category_uid e)));
     ("class_uid", JPosInt (ev_class_uid e)); ("activity_id", JPosInt (ev_activity_id e));
     ("type_uid", JPosInt (ev_type_uid e));
     ("severity_id", JPosInt (severity_u32 (ev_severity_id e)));
     ("host_tag", JString (ev_host_tag e)); ("source", JString (ev_source e))]
    ++ opt_field "status_id" (fun s => JPosInt (status_u32 s)) (ev_status_id e)
    ++ opt_field "message" JString (ev_message e)
    ++ actor ++ process ++ file
    ++ opt_field "src_endpoint" endpoint_json (ev_src_endpoint e)
    ++ opt_field "dst_endpoint" endpoint_json (ev_dst_endpoint e)
    ++ opt_field "network" network_json (ev_network e)
    ++ vec_field "attack" technique_json (ev_attack e)
    ++ [("metadata", metadata)]
    ++ opt_field "raw" id (ev_raw e))).
End to_json.

(** A concrete wire format for evaluating the model on examples. *)
Module Demo.
#[export] Instance wire_format : WireFormat := {|
  uuid_to_string := fun u => "uuid-" +:+ show_int u;
  rfc3339_format := fun t => Some ("t" +:+ show_int t);
  json_to_string := fun j => match j with JPosInt n => show_uint n | _ => "json" end;
|}.
End Demo.

(** ** Properties *)

Lemma assoc_app {A} k (l1 l2 : list (string * A)) :
  assoc k (l1 ++ l2) = match assoc k l1 with Some v => Some v | None => assoc k l2 end.
Proof. induction l1 as [|[k' v] l1 IH]; simpl; [done|]. by case_bool_decide. Qed.

Lemma assoc_opt_field {A} k k' (f : A -> json) o :
  assoc k (opt_field k' f o) = if bool_decide (k = k') then f <$> o else None.
Proof. destruct o; simpl; by case_bool_decide. Qed.

Lemma assoc_vec_field {A} k k' (f : A -> json) l : k <> k' -> assoc k (vec_field k' f l) = None.
Proof. intros. destruct l; simpl; [done|]. by rewrite bool_decide_false. Qed.

Lemma assoc_opt_field_m {A} k k' (f : A -> option json) o l :
  opt_field_m k' f o = Some l -> k <> k' -> assoc k l = None.
Proof.
  intros Hl Hk. destruct o as [a|]; simpl in Hl; simplify_eq; [|done].
  destruct (f a); simplify_eq/=. by rewrite bool_decide_false.
Qed.

Lemma class_category_finding c : (2000 <= c < 3000)%Z -> class_category c = CategoryUid.Findings.
Proof.
  intros H. unfold class_category. replace (c / 1000)%Z with 2%Z; [done|].
  apply Z.div_unique with (c - 2000)%Z; lia.
Qed.
