(* ===== verification/Aggregator.v ===== *)
(** * The count aggregator of the Sigma engine

    Models [AggState] and [Aggregator] of crates/selfdef-correlator/src/sigma.rs:
    per-group queues of observation times, pruned on every observation of the
    group and swept every [GC_EVERY] observations.

    The specification keeps, for every group, all observation times since the
    group last fired, and never drops any; the refinement theorem shows that
    pruning and sweeping never change a verdict as long as the clock is
    monotone. Instants are integers of nanoseconds. *)

From S2P Require Import Prelude.
From stdpp Require Import options.

Definition GC_EVERY : Z := 1024.

Record AggState := mkAggState {
  agg_groups : gmap string (list Z);
  agg_observes : Z;
}.

Record Aggregator := mkAggregator {
  agg_state : AggState;
  agg_threshold : Z;
  agg_window : Z;
}.

Definition aggregator_new (threshold window : Z) : Aggregator :=
  mkAggregator (mkAggState ∅ 0) threshold window.

(** The condition of the sweep: the newest observation is inside the window. *)
Definition queue_live (window now : Z) (q : list Z) : bool :=
  match last q with
  | Some t => (duration_since now t <=? window)%Z
  | None => false
  end.

Definition gc_sweep (window now : Z) (groups : gmap string (list Z)) : gmap string (list Z) :=
  filter (fun kq => queue_live window now kq.2 = true) groups.

(** The [while let] loop over the front of the queue. *)
Fixpoint prune (window now : Z) (q : list Z) : list Z :=
  match q with
  | front :: rest => if (window <? duration_since now front)%Z then prune window now rest else q
  | [] => []
  end.

Definition observe (key : string) (now : Z) (a : Aggregator) : option string * Aggregator :=
  let observes := wrapping_add_u64 (agg_observes (agg_state a)) 1 in
  let groups :=
    if (observes `mod` GC_EVERY =? 0)%Z then gc_sweep (agg_window a) now (agg_groups (agg_state a))
    else agg_groups (agg_state a) in
  let queue := prune (agg_window a) now (default [] (groups !! key) ++ [now]) in
  let groups := <[key := queue]> groups in
  if (agg_threshold a <? as_u32 (Z.of_nat (length queue)))%Z then
    (Some key, mkAggregator (mkAggState (delete key groups) observes) (agg_threshold a) (agg_window a))
  else
    (None, mkAggregator (mkAggState groups observes) (agg_threshold a) (agg_window a)).

(** A run over a sequence of observations, with the verdicts in order. *)
Fixpoint observe_all (obs : list (string * Z)) (a : Aggregator) : list (option string) * Aggregator :=
  match obs with
  | [] => ([], a)
  | (k, now) :: obs =>
      let '(v, a) := observe k now a in
      let '(vs, a) := observe_all obs a in
      (v :: vs, a)
  end.

(** ** Specification: the strict count over a sliding window *)

Section spec.
Context (threshold window : Z).

(** Observations of a history that are inside the window at [now]. *)
Definition in_window (now : Z) (h : list Z) : list Z :=
  filter (fun t => duration_since now t <= window)%Z h.

Definition spec_observe (key : string) (now : Z) (h : gmap string (list Z)) :
    option string * gmap string (list Z) :=
  let hist := default [] (h !! key) ++ [now] in
  if (threshold <? Z.of_nat (length (in_window now hist)))%Z then (Some key, delete key h)
  else (None, <[key := hist]> h).

Fixpoint spec_observe_all (obs : list (string * Z)) (h : gmap string (list Z)) :
    list (option string) :=
  match obs with
  | [] => []
  | (k, now) :: obs =>
      let '(v, h) := spec_observe k now h in v :: spec_observe_all obs h
  end.
End spec.

(** Readings of the monotone clock, all at or after [t]. *)
Fixpoint clock_from (t : Z) (obs : list (string * Z)) : Prop :=
  match obs with
  | [] => True
  | (_, now) :: obs => (t <= now)%Z /\ clock_from now obs
  end.

(** ** Lemmas *)

Definition dead (window now t : Z) : Prop := (window < now - t)%Z.

(** Queue entries not after [now], in order. *)
Definition ordered_upto (now : Z) (q : list Z) : Prop :=
  StronglySorted Z.le q /\ Forall (fun t => t <= now)%Z q.

Lemma dead_mono w t1 t2 x : (t1 <= t2)%Z -> dead w t1 x -> dead w t2 x.
Proof. unfold dead. lia. Qed.

Lemma ordered_upto_mono t1 t2 q : (t1 <= t2)%Z -> ordered_upto t1 q -> ordered_upto t2 q.
Proof. intros Ht [? Hq]. split; [done|]. eapply Forall_impl; [done|]. simpl. lia. Qed.

Lemma ordered_upto_snoc t now q : (t <= now)%Z -> ordered_upto t q -> ordered_upto now (q ++ [now]).
Proof.
  intros Ht [Hs Hq]. split.
  - induction Hs as [|x q Hs IH Hx]; simpl; [repeat constructor|]. inv Hq.
    constructor; [by apply IH|]. apply Forall_app. split; [done|]. repeat constructor. lia.
  - apply Forall_app. split; [|repeat constructor; lia].
    eapply Forall_impl; [done|]. simpl. lia.
Qed.

Lemma prune_suffix w now q :
  exists d, q = d ++ prune w now q /\ Forall (fun t => w < duration_since now t)%Z d.
Proof.
  induction q as [|x q (d & Hq & Hd)]; simpl; [by exists []|].
  destruct (Z.ltb_spec w (duration_since now x)); [|by exists []].
  exists (x :: d). simpl. split; [by f_equal|by constructor].
Qed.

(** On an ordered queue the loop removes exactly the entries outside the window. *)
Lemma prune_in_window w now q : ordered_upto now q -> prune w now q = in_window w now q.
Proof.
  intros [Hs Hq]. induction q as [|x q IH]; [done|]. simpl. inv Hs. inv Hq.
  unfold in_window. rewrite filter_cons.
  destruct (Z.ltb_spec w (duration_since now x)).
  - rewrite decide_False by lia. by apply IH.
  - rewrite decide_True by lia. f_equal. symmetry. apply filter_all.
    rewrite !Forall_forall in *. intros y Hy. rewrite duration_since_le in * by auto.
    specialize (H2 y Hy). simpl in *. lia.
Qed.

Lemma prune_ordered w now q : ordered_upto now q -> ordered_upto now (prune w now q).
Proof.
  intros [Hs Hq]. destruct (prune_suffix w now q) as (d & E & _). rewrite E in Hs, Hq.
  split; [by apply StronglySorted_app_1_r in Hs|by apply Forall_app in Hq as [_ ?]].
Qed.

Lemma prune_length w now q : length (prune w now q) <= length q.
Proof. induction q as [|x q IH]; simpl; [done|]. case_match; simpl; lia. Qed.

Lemma queue_live_all_dead w t q : ordered_upto t q -> queue_live w t q = false -> Forall (dead w t) q.
Proof.
  intros [Hs Hq]. unfold queue_live. destruct (last q) as [x|] eqn:E.
  - intros Hx%Z.leb_gt. apply last_Some in E as [q' ->].
    apply Forall_app in Hq as [Hq' Hx']. rewrite Forall_singleton in Hx'.
    rewrite duration_since_le in Hx by done.
    apply Forall_app. split; [|apply Forall_singleton; unfold dead; lia].
    apply Forall_forall. intros y Hy. assert (y <= x)%Z; [|unfold dead; lia].
    eapply (StronglySorted_app_1_elem_of _ _ _ y x Hs); [done|by apply list_elem_of_singleton].
  - intros _. apply last_None in E as ->. constructor.
Qed.

(** The simulation: a group's queue is its history less a prefix of
    observations that are outside the window for good. *)
Definition agg_sim (th w t : Z) (g h : gmap string (list Z)) : Prop :=
  forall k, exists d,
    default [] (h !! k) = d ++ default [] (g !! k) /\ Forall (dead w t) d /\
    ordered_upto t (default [] (g !! k)) /\ (Z.of_nat (length (default [] (g !! k))) <= th)%Z.

Lemma agg_sim_mono th w t1 t2 g h : (t1 <= t2)%Z -> agg_sim th w t1 g h -> agg_sim th w t2 g h.
Proof.
  intros Ht Hs k. destruct (Hs k) as (d & ? & Hd & ? & ?). exists d. split_and!; [done| |..|done].
  - eapply Forall_impl; [done|]. intros x. by apply dead_mono.
  - by eapply ordered_upto_mono.
Qed.

Lemma agg_sim_gc th w t g h :
  (0 <= th)%Z -> agg_sim th w t g h -> agg_sim th w t (gc_sweep w t g) h.
Proof.
  intros Hth Hs k. destruct (Hs k) as (d & Hh & Hd & Ho & Hl). unfold gc_sweep.
  destruct (g !! k) as [q|] eqn:E; simpl in *.
  - destruct (queue_live w t q) eqn:Hq.
    + rewrite (map_lookup_filter_Some_2 _ _ _ q) by done. by exists d.
    + rewrite map_lookup_filter_None_2 by (right; intros; simplify_eq/=; congruence). exists (d ++ q). simpl.
      split_and!; [by rewrite app_nil_r| |by repeat constructor|done].
      apply Forall_app. split; [done|]. by apply queue_live_all_dead.
  - rewrite map_lookup_filter_None_2 by auto. by exists d.
Qed.

Lemma in_window_dead w t d q : Forall (dead w t) d -> in_window w t (d ++ q) = in_window w t q.
Proof.
  intros Hd. unfold in_window. rewrite filter_app, filter_none; [done|].
  eapply Forall_impl; [done|]. unfold dead, duration_since. simpl. lia.
Qed.

(** One observation: same verdict, and the simulation holds again. *)
Lemma observe_sim th w t now k a h :
  (0 <= th < u32_max)%Z -> agg_threshold a = th -> agg_window a = w -> (t <= now)%Z ->
  agg_sim th w t (agg_groups (agg_state a)) h ->
  (observe k now a).1 = (spec_observe th w k now h).1 /\
  agg_sim th w now (agg_groups (agg_state (observe k now a).2)) (spec_observe th w k now h).2 /\
  agg_threshold (observe k now a).2 = th /\ agg_window (observe k now a).2 = w.
Proof.
  intros Hth <- <- Ht Hs. set (w := agg_window a). set (th := agg_threshold a) in *.
  unfold observe, spec_observe. fold w th.
  set (obs := wrapping_add_u64 _ _).
  set (g := if (obs `mod` GC_EVERY =? 0)%Z then _ else _).
  assert (Hg : agg_sim th w now g h).
  { apply (agg_sim_mono _ _ t now) in Hs; [|done]. unfold g. case_match; [|done].
    apply agg_sim_gc; [lia|done]. }
  clearbody g obs. destruct (Hg k) as (d & Hh & Hd & Ho & Hl).
  set (q := default [] (g !! k)) in *. assert (Ho' := ordered_upto_snoc now now q ltac:(lia) Ho).
  rewrite Hh, <-app_assoc, in_window_dead by done. rewrite prune_in_window by done.
  set (q' := in_window w now (q ++ [now])).
  assert (Hq' : q' = prune w now (q ++ [now])) by (by rewrite prune_in_window).
  assert (Hlen : (Z.of_nat (length q') <= th + 1)%Z).
  { rewrite Hq'. assert (Hp := prune_length w now (q ++ [now])).
    rewrite length_app in Hp. simpl in Hp. lia. }
  rewrite as_u32_id by lia. destruct (Z.ltb_spec th (Z.of_nat (length q'))); simpl.
  - split_and!; [done| |done..]. intros k'. destruct (decide (k' = k)) as [->|Hne].
    + rewrite !lookup_delete_eq. exists []. split_and!; [done|done|by repeat constructor|simpl; lia].
    + rewrite !lookup_delete_ne, lookup_insert_ne by done. apply Hg.
  - split_and!; [done| |done..]. intros k'. destruct (decide (k' = k)) as [->|Hne].
    + rewrite !lookup_insert_eq. simpl.
      destruct (prune_suffix w now (q ++ [now])) as (d' & E & Hd'). rewrite <-Hq' in E.
      exists (d ++ d'). split_and!; [by rewrite E, app_assoc| | |lia].
      * apply Forall_app. split; [done|]. destruct Ho' as [_ Ho']. rewrite E in Ho'.
        apply Forall_app in Ho' as [Ho' _]. eapply Forall_impl; [exact (proj2 (Forall_and _ _) (conj Hd' Ho'))|].
        simpl. intros x [Hx ?]. rewrite duration_since_le in Hx by done. done.
      * rewrite Hq'. by apply prune_ordered.
    + rewrite !lookup_insert_ne by done. apply Hg.
Qed.

Lemma observe_all_sim th w obs t a h :
  (0 <= th < u32_max)%Z -> agg_threshold a = th -> agg_window a = w -> clock_from t obs ->
  agg_sim th w t (agg_groups (agg_state a)) h ->
  (observe_all obs a).1 = spec_observe_all th w obs h.
Proof.
  intros Hth. revert t a h. induction obs as [|[k now] obs IH]; intros t a h Ha Hw Hc Hs; [done|].
  destruct Hc as [Ht Hc]. destruct (observe_sim th w t now k a h) as (Hv & Hs' & Ha' & Hw'); [done..|].
  simpl. destruct (observe k now a) as [v a'], (spec_observe th w k now h) as [v' h']. simpl in *.
  specialize (IH now a' h' Ha' Hw' Hc Hs'). destruct (observe_all obs a') as [vs a'']. simpl in *.
  by subst.
Qed.

Lemma agg_sim_empty th w t : (0 <= th)%Z -> agg_sim th w t ∅ ∅.
Proof.
  intros Hth k. exists []. rewrite lookup_empty. simpl.
  split_and!; [done|constructor|by repeat constructor|done].
Qed.

(** *** Memory *)

Lemma observe_all_app o1 o2 a :
  (observe_all (o1 ++ o2) a).2 = (observe_all o2 (observe_all o1 a).2).2.
Proof.
  revert a. induction o1 as [|[k now] o1 IH]; intros a; [done|]. simpl.
  destruct (observe k now a) as [v a']. specialize (IH a').
  destruct (observe_all (o1 ++ o2) a'), (observe_all o1 a'). done.
Qed.

Lemma observe_window k now a : agg_window (observe k now a).2 = agg_window a.
Proof. unfold observe. by case_match. Qed.

Lemma observe_observes k now a :
  agg_observes (agg_state (observe k now a).2) = wrapping_add_u64 (agg_observes (agg_state a)) 1.
Proof. unfold observe. by case_match. Qed.

Lemma observe_all_window obs a : agg_window (observe_all obs a).2 = agg_window a.
Proof.
  revert a. induction obs as [|[k now] obs IH]; intros a; [done|]. simpl.
  assert (H := observe_window k now a). destruct (observe k now a) as [v a'].
  specialize (IH a'). destruct (observe_all obs a'). simpl in *. congruence.
Qed.

Lemma observe_all_observes obs a n :
  agg_observes (agg_state a) = (Z.of_nat n `mod` 2 ^ 64)%Z ->
  agg_observes (agg_state (observe_all obs a).2) = (Z.of_nat (n + length obs) `mod` 2 ^ 64)%Z.
Proof.
  revert a n. induction obs as [|[k now] obs IH]; intros a n Hn; simpl.
  - by rewrite Nat.add_0_r.
  - assert (H := observe_observes k now a). destruct (observe k now a) as [v a'].
    specialize (IH a' (S n)). destruct (observe_all obs a'). simpl in *.
    rewrite IH; [f_equal; lia|]. rewrite H, Hn. unfold wrapping_add_u64.
    rewrite Z.add_mod_idemp_l by lia. f_equal. lia.
Qed.

(** What an observation leaves in the map. *)
Lemma observe_groups k now a k' q :
  agg_groups (agg_state (observe k now a).2) !! k' = Some q ->
  (k' = k /\ forall t, t ∈ q -> t = now \/ exists q0, agg_groups (agg_state a) !! k = Some q0 /\ t ∈ q0) \/
  (k' <> k /\ agg_groups (agg_state a) !! k' = Some q /\
   ((agg_observes (agg_state (observe k now a).2) `mod` GC_EVERY = 0)%Z ->
    queue_live (agg_window a) now q = true)).
Proof.
  rewrite observe_observes. unfold observe. set (obs := wrapping_add_u64 _ _).
  set (g := if (obs `mod` GC_EVERY =? 0)%Z then _ else _).
  assert (Hsub : forall k q, g !! k = Some q -> agg_groups (agg_state a) !! k = Some q /\
    ((obs `mod` GC_EVERY = 0)%Z -> queue_live (agg_window a) now q = true)).
  { intros k0 q0. unfold g. destruct (Z.eqb_spec (obs `mod` GC_EVERY) 0).
    - unfold gc_sweep. rewrite map_lookup_filter_Some. naive_solver.
    - intros ?. split; [done|lia]. }
  clearbody g.
  set (q' := prune _ _ _). assert (Hq' : forall t, t ∈ q' -> t ∈ default [] (g !! k) ++ [now]).
  { intros t Ht. destruct (prune_suffix (agg_window a) now (default [] (g !! k) ++ [now]))
      as (d & E & _). rewrite E. apply elem_of_app. by right. }
  intros H. assert (Hk : k' = k /\ q = q' \/ k' <> k /\ g !! k' = Some q).
  { revert H. case_match; simpl.
    - rewrite lookup_delete_Some, lookup_insert_Some. naive_solver.
    - rewrite lookup_insert_Some. naive_solver. }
  destruct Hk as [[-> ->]|[Hne Hk]]; [left|right; naive_solver].
  split; [done|]. intros t Ht%Hq'. apply elem_of_app in Ht as [Ht|Ht%list_elem_of_singleton]; [|by left].
  right. destruct (g !! k) as [q0|] eqn:E; simpl in Ht; [|by apply not_elem_of_nil in Ht].
  exists q0. split; [|done]. by apply Hsub.
Qed.

(** Every time stored under a key was observed for that key. *)
Definition stored_in (seen : list (string * Z)) (g : gmap string (list Z)) : Prop :=
  forall k q t, g !! k = Some q -> t ∈ q -> (k, t) ∈ seen.

Lemma stored_in_run obs a seen :
  stored_in seen (agg_groups (agg_state a)) ->
  stored_in (seen ++ obs) (agg_groups (agg_state (observe_all obs a).2)).
Proof.
  revert a seen. induction obs as [|[k now] obs IH]; intros a seen Hs; simpl.
  - by rewrite app_nil_r.
  - assert (H := fun k' q => observe_groups k now a k' q).
    destruct (observe k now a) as [v a']. simpl in H.
    specialize (IH a' (seen ++ [(k, now)])). destruct (observe_all obs a'). simpl in *.
    rewrite <-app_assoc in IH. apply IH. intros k' q t Hq Ht. apply elem_of_app.
    destruct (H _ _ Hq) as [[-> Hin]|(_ & Hq' & _)]; [|left; by eapply Hs].
    destruct (Hin t Ht) as [->|(q0 & ? & ?)]; [right; by apply list_elem_of_singleton|].
    left. by eapply Hs.
Qed.

Lemma groups_keys_run obs a k :
  is_Some (agg_groups (agg_state (observe_all obs a).2) !! k) ->
  k ∈ obs.*1 \/ is_Some (agg_groups (agg_state a) !! k).
Proof.
  revert a. induction obs as [|[k0 now] obs IH]; intros a; simpl; [by right|].
  assert (H := fun k' q => observe_groups k0 now a k' q).
  destruct (observe k0 now a) as [v a']. specialize (IH a').
  destruct (observe_all obs a'). simpl in *. intros Hk.
  rewrite elem_of_cons. destruct (IH Hk) as [?|[q Hq]]; [by left; right|].
  destruct (H _ _ Hq) as [[-> _]|(_ & Hq' & _)]; [by left; left|right; by exists q].
Qed.

(** The keys that still had an observation inside the window at [now]. *)
Definition live_keys (w now : Z) (obs : list (string * Z)) : gset string :=
  list_to_set (filter (fun kt => duration_since now kt.2 <= w)%Z obs).*1.

Lemma queue_live_last w now q :
  queue_live w now q = true -> exists t, t ∈ q /\ (duration_since now t <= w)%Z.
Proof.
  unfold queue_live. destruct (last q) as [t|] eqn:E; [|done]. intros ?%Z.leb_le.
  exists t. split; [|done]. apply last_Some in E as [q' ->]. apply elem_of_app. right.
  by apply list_elem_of_singleton.
Qed.

(** Right after a sweep every tracked group is live. *)
Lemma sweep_keys th w obs k now key :
  (0 <= w)%Z -> (Z.of_nat (S (length obs)) `mod` GC_EVERY = 0)%Z ->
  is_Some (agg_groups (agg_state (observe_all (obs ++ [(k, now)]) (aggregator_new th w)).2) !! key) ->
  key ∈ live_keys w now (obs ++ [(k, now)]).
Proof.
  intros Hw Hn [q Hq]. rewrite observe_all_app in Hq.
  set (a := (observe_all obs (aggregator_new th w)).2) in *.
  assert (Hst : stored_in obs (agg_groups (agg_state a))).
  { apply (stored_in_run obs (aggregator_new th w) []). intros k0 q0 t0. simpl.
    by rewrite lookup_empty. }
  assert (Haw : agg_window a = w) by apply observe_all_window.
  assert (Hob : agg_observes (agg_state a) = (Z.of_nat (length obs) `mod` 2 ^ 64)%Z)
    by (apply (observe_all_observes obs (aggregator_new th w) 0); done).
  clearbody a. simpl in Hq. assert (H := observe_groups k now a key q).
  rewrite observe_observes in H.
  destruct (observe k now a) as [v a'] eqn:E. simpl in Hq, H.
  unfold live_keys. rewrite elem_of_list_to_set, list_elem_of_fmap.
  destruct (H Hq) as [[-> _]|(Hne & Hq' & Hlive)].
  - exists (k, now). split; [done|]. apply list_elem_of_filter. simpl. split.
    + unfold duration_since. lia.
    + apply elem_of_app. right. by apply list_elem_of_singleton.
  - rewrite Haw in Hlive. destruct (queue_live_last w now q) as (t & Ht & Hd).
    { apply Hlive. rewrite Hob. unfold wrapping_add_u64.
      rewrite Z.add_mod_idemp_l by lia.
      rewrite Z.mod_mod_divide by (by exists (2 ^ 54)%Z). by rewrite <-Hn, Nat2Z.inj_succ. }
    exists (key, t). split; [done|]. apply list_elem_of_filter. simpl. split; [done|].
    apply elem_of_app. left. by eapply Hst.
Qed.

(** ** Properties *)

(** C5: the aggregator implements the strict sliding-window count. For every
    sequence of observations read off a monotone clock, the verdicts of
    [observe] (with its front pruning, its reset on fire and its periodic
    sweep) are those of the specification that keeps every observation since
    the group last fired: a group fires exactly when more than [threshold] of
    them, the current one included, are inside the window. *)
Theorem aggregator_refines (threshold window t : Z) (obs : list (string * Z)) :
  (0 <= threshold < u32_max)%Z -> clock_from t obs ->
  (observe_all obs (aggregator_new threshold window)).1 = spec_observe_all threshold window obs ∅.
Proof. intros Hth Hc. by eapply observe_all_sim, agg_sim_empty; [..|lia]. Qed.

(** Three matches of one address inside the window cross a threshold of two; a
    stale one does not count. *)
Lemma aggregator_refines_witness :
  let obs := [("a", 0); ("a", 5); ("b", 6); ("a", 70); ("a", 71); ("a", 72); ("a", 73)]%Z in
  (observe_all obs (aggregator_new 2 60)).1 = spec_observe_all 2 60 obs ∅ /\
  spec_observe_all 2 60 obs ∅ = [None; None; None; None; None; Some "a"; None].
Proof.
  intros obs. split; [|by vm_compute].
  apply (aggregator_refines 2 60 0 obs); [by vm_compute|]. simpl. lia.
Defined.

(** Memory is bounded by the groups that are active. At the last sweep of a
    run every tracked group had an observation inside the window, so after at
    most [GC_EVERY - 1] further observations the map holds no more than the
    groups that were live at that sweep plus one per later observation. *)
Theorem aggregator_memory_bound (threshold window : Z) (swept later : list (string * Z)) k now :
  (0 <= window)%Z -> (Z.of_nat (length (swept ++ [(k, now)])) `mod` GC_EVERY = 0)%Z ->
  (Z.of_nat (length later) < GC_EVERY)%Z ->
  let a := (observe_all ((swept ++ [(k, now)]) ++ later) (aggregator_new threshold window)).2 in
  size (agg_groups (agg_state a)) <= size (live_keys window now (swept ++ [(k, now)])) + length later
  /\ size (agg_groups (agg_state a)) <= size (live_keys window now (swept ++ [(k, now)])) + 1023.
Proof.
  intros Hw Hn Hl a. cut (size (agg_groups (agg_state a)) <=
    size (live_keys window now (swept ++ [(k, now)])) + length later); [unfold GC_EVERY in Hl; lia|].
  transitivity (size (live_keys window now (swept ++ [(k, now)]) ∪ list_to_set later.*1)).
  - rewrite <-size_dom. apply subseteq_size. intros key Hkey%elem_of_dom. apply elem_of_union.
    unfold a in Hkey. rewrite observe_all_app in Hkey.
    apply groups_keys_run in Hkey as [Hkey|Hkey]; [right; by apply elem_of_list_to_set|left].
    apply (sweep_keys threshold); [done| |done]. by rewrite length_app, Nat.add_1_r in Hn.
  - rewrite size_union_alt. apply Nat.add_le_mono_l.
    transitivity (size (list_to_set later.*1 : gset string)); [apply subseteq_size; set_solver|].
    rewrite <-(length_fmap fst later). apply size_list_to_set_le.
Qed.

(** A flood of 1025 one-shot keys, ten nanoseconds of window: twelve groups. *)
Lemma aggregator_memory_bound_witness :
  let flood := (fun i => ("k" +:+ show_uint (Z.of_nat i), Z.of_nat i)) <$> seq 0 1023 in
  let a := (observe_all ((flood ++ [("k1023", 1023%Z)]) ++ [("k1024", 1024%Z)])
              (aggregator_new 5 10)).2 in
  (size (agg_groups (agg_state a)) <= size (live_keys 10 1023 (flood ++ [("k1023", 1023%Z)])) + 1 /\
   size (agg_groups (agg_state a)) <= size (live_keys 10 1023 (flood ++ [("k1023", 1023%Z)])) + 1023) /\
  size (agg_groups (agg_state a)) = 12.
Proof.
  intros flood a. split; [|by vm_compute].
  apply (aggregator_memory_bound 5 10 flood [("k1024", 1024%Z)] "k1023" 1023); by vm_compute.
Defined.
