(* ===== verification/Signing.v ===== *)
(** * Detached signatures

    Models crates/selfdef-signing/src/lib.rs: loading of a minisign public key,
    the sidecar path of a file, and the verification of a file against its
    sidecar. The file system is a parameter of each operation; base64 decoding,
    signature decoding and the ed25519 check belong to the minisign_verify crate
    and come from the [Minisign] class. *)

From S2P Require Import Prelude.
From stdpp Require Import options.

(** ** Paths and the file system *)

(** An absolute path as the list of its components. *)
Definition path := list string.

Fixpoint path_display (p : path) : string :=
  match p with
  | [] => ""
  | c :: p => "/" +:+ c +:+ path_display p
  end.

(** What [read_dir] enumerates below a directory, in the order it does so;
    [err] is the error with which the enumeration stops, if it does. *)
Inductive node :=
| NFile
| NDir (entries : list (string * node)) (err : option string).

(** The file-system calls of the code: the tree at a path ([None] when nothing
    exists there), and the contents of a file. *)
Record FileSystem := mkFileSystem {
  fs_tree : path -> option node;
  fs_read : path -> result string string;
  fs_read_to_string : path -> result string string;
}.

Definition fs_exists (fs : FileSystem) (p : path) : bool :=
  bool_decide (is_Some (fs_tree fs p)).

(** A file system that changes while files are loaded. A file that is first read and
    then checked against its signature is read twice: [lf_check p] is what the check
    of the file at [p] finds, everything else is what the loader finds. *)
Record LiveFs := mkLiveFs {
  lf_fs :> FileSystem;
  lf_check : path -> FileSystem;
}.

(** One that does not change. *)
Definition still (fs : FileSystem) : LiveFs := mkLiveFs fs (fun _ => fs).

(** ** Errors *)

Inductive SigningError :=
| ReadPublicKey (p : path) (source : string)
| ReadTarget (p : path) (source : string)
| ReadSignature (p : path) (source : string)
| BadPublicKey (p : path) (reason : string)
| MissingSignature (p target : path)
| BadSignature (p : path) (reason : string)
| VerificationFailed (target : path).

(** ** The verifier *)

Class Minisign := {
  PublicKey : Type;
  MinisignSignature : Type;
  key_from_base64 : string -> result PublicKey string;
  signature_decode : string -> result MinisignSignature string;
  key_verify : PublicKey -> string -> MinisignSignature -> bool;
}.

Record Verifier `{Minisign} := mkVerifier {
  vf_public_key : PublicKey;
  vf_source : path;
}.

Definition SIGNATURE_SUFFIX : string := ".minisig".

(** Appends the suffix to the path's text, that is to its last component. *)
Definition signature_path_for (target : path) : path :=
  match last target with
  | Some name => take (length target - 1) target ++ [name +:+ SIGNATURE_SUFFIX]
  | None => [SIGNATURE_SUFFIX]
  end.

Section verifier.
Context `{Minisign}.

(** The first line that is neither empty nor minisign's comment header. *)
Definition key_line_of (body : string) : string :=
  trim (default "" (List.find (fun l => negb (bool_decide (l = "")) && negb (starts_with l "untrusted"))
                      (str_lines body))).

Definition verifier_load (fs : FileSystem) (p : path) : result Verifier SigningError :=
  match fs_read_to_string fs p with
  | Err e => Err (ReadPublicKey p e)
  | Ok body =>
      match key_from_base64 (key_line_of body) with
      | Err e => Err (BadPublicKey p e)
      | Ok key => Ok {| vf_public_key := key; vf_source := p |}
      end
  end.

Definition verify_detached_file (fs : FileSystem) (v : Verifier) (target : path) :
    result unit SigningError :=
  let sig_path := signature_path_for target in
  if negb (fs_exists fs sig_path) then Err (MissingSignature sig_path target)
  else
    match fs_read fs target with
    | Err e => Err (ReadTarget target e)
    | Ok target_bytes =>
        match fs_read_to_string fs sig_path with
        | Err e => Err (ReadSignature sig_path e)
        | Ok sig_str =>
            match signature_decode sig_str with
            | Err e => Err (BadSignature sig_path e)
            | Ok signature =>
                if key_verify (vf_public_key v) target_bytes signature then Ok tt
                else Err (VerificationFailed target)
            end
        end
    end.

(** A file is signed under a key when its sidecar decodes to a signature that
    the key verifies over the file's own bytes. *)
Definition signed_under (fs : FileSystem) (key : PublicKey) (target : path) (bytes : string) : Prop :=
  fs_read fs target = Ok bytes /\
  exists sig_str signature, fs_read_to_string fs (signature_path_for target) = Ok sig_str /\
    signature_decode sig_str = Ok signature /\ key_verify key bytes signature = true.

Lemma verify_detached_file_ok fs v target :
  verify_detached_file fs v target = Ok () ->
  exists bytes, signed_under fs (vf_public_key v) target bytes.
Proof.
  unfold verify_detached_file, signed_under. destruct (fs_exists _ _); [|done]. simpl.
  destruct (fs_read fs target) as [bytes|]; [|done].
  destruct (fs_read_to_string fs _) as [s|]; [|done].
  destruct (signature_decode s) as [sg|] eqn:E; [|done].
  destruct (key_verify _ _ _) eqn:Ev; [|done]. intros _. exists bytes. split; [done|]. eauto 6.
Qed.

Lemma signature_path_for_app p name :
  signature_path_for (p ++ [name]) = p ++ [name +:+ SIGNATURE_SUFFIX].
Proof.
  unfold signature_path_for. rewrite last_snoc, length_app. simpl.
  by rewrite Nat.add_sub, take_app_length.
Qed.
End verifier.
