(* ===== verification/Ms003.v ===== *)
(** * Signed mutation records

    Models crates/selfdef-signing/src/ms003.rs: unpadded base64url, the canonical
    bytes of a JSON record, the store of public trust anchors, and the
    classification of a record by its signature.

    Byte vectors are strings. The ed25519 check is the process [openssl]: what
    the temporary directory, the writes and the process answer is an [Openssl]
    record. Scalars and keys of a record are printed by serde_json
    ([json_to_string] of [WireFormat]). A JSON object is a map: its keys are
    distinct. *)

From S2P Require Import Prelude Core.
From stdpp Require Import options.

Definition UNSIGNED_PLACEHOLDER : string := "unsigned-pending-MS003".
Definition PREFIX : string := "ms003:ed25519:".

(** ** Statuses *)

Module VerifyStatus.
Inductive t := Verified | UnsignedPlaceholder | NoSignatureField | UnknownKeyid | InvalidSignature.

#[global] Instance eq_dec : EqDecision t.
Proof. solve_decision. Defined.
End VerifyStatus.

Definition as_str (s : VerifyStatus.t) : string :=
  match s with
  | VerifyStatus.Verified => "verified"
  | VerifyStatus.UnsignedPlaceholder => "unsigned-placeholder"
  | VerifyStatus.NoSignatureField => "no-signature-field"
  | VerifyStatus.UnknownKeyid => "unknown-keyid"
  | VerifyStatus.InvalidSignature => "invalid-signature"
  end.

Definition is_verified (s : VerifyStatus.t) : bool := bool_decide (s = VerifyStatus.Verified).

Definition is_security_event (s : VerifyStatus.t) : bool :=
  match s with VerifyStatus.InvalidSignature | VerifyStatus.UnknownKeyid => true | _ => false end.

(** ** base64url *)

Definition B64U : string := "ABCDEFGHIJKLMNOPQRSTUVWXYZabcdefghijklmnopqrstuvwxyz0123456789-_".

(** [B64U[i] as char]; the index is always below 64. *)
Definition b64u_char (i : Z) : ascii := default "A"%char (String.get (Z.to_nat i) B64U).

Definition zbyte (a : ascii) : Z := Z.of_N (byte a).
Definition byte_of (n : Z) : ascii := ascii_of_N (Z.to_N (n `mod` 256)).

(** The 24-bit group of up to three bytes, and its [k]-th six bits. *)
Definition group3 (b0 b1 b2 : Z) : Z := Z.lor (Z.lor (Z.shiftl b0 16) (Z.shiftl b1 8)) b2.
Definition sextet (n k : Z) : ascii := b64u_char (Z.land (Z.shiftr n k) 63).

Fixpoint b64u_encode (raw : string) : string :=
  match raw with
  | "" => ""
  | String a0 "" =>
      let n := group3 (zbyte a0) 0 0 in String (sextet n 18) (String (sextet n 12) "")
  | String a0 (String a1 "") =>
      let n := group3 (zbyte a0) (zbyte a1) 0 in
      String (sextet n 18) (String (sextet n 12) (String (sextet n 6) ""))
  | String a0 (String a1 (String a2 raw)) =>
      let n := group3 (zbyte a0) (zbyte a1) (zbyte a2) in
      String (sextet n 18) (String (sextet n 12) (String (sextet n 6) (String (sextet n 0) (b64u_encode raw))))
  end.

Definition b64u_val (a : ascii) : option Z :=
  let c := zbyte a in
  if in_range 65 90 (byte a) then Some (c - 65)%Z
  else if in_range 97 122 (byte a) then Some (c - 97 + 26)%Z
  else if in_range 48 57 (byte a) then Some (c - 48 + 52)%Z
  else if bool_decide (a = "-"%char) then Some 62%Z
  else if bool_decide (a = "_"%char) then Some 63%Z
  else None.

(** [(n << 6) | val(c)?]. *)
Definition shift_in (n : Z) (a : ascii) : option Z := (fun v => Z.lor (Z.shiftl n 6) v) <$> b64u_val a.

Fixpoint decode_chunks (s : string) : option string :=
  match s with
  | "" => Some ""
  | String a0 "" => None
  | String a0 (String a1 "") =>
      n ← shift_in 0 a0; n ← shift_in n a1;
      let n := Z.shiftl n 12 in Some (String (byte_of (Z.shiftr n 16)) "")
  | String a0 (String a1 (String a2 "")) =>
      n ← shift_in 0 a0; n ← shift_in n a1; n ← shift_in n a2;
      let n := Z.shiftl n 6 in
      Some (String (byte_of (Z.shiftr n 16)) (String (byte_of (Z.shiftr n 8)) ""))
  | String a0 (String a1 (String a2 (String a3 s))) =>
      n ← shift_in 0 a0; n ← shift_in n a1; n ← shift_in n a2; n ← shift_in n a3;
      rest ← decode_chunks s;
      Some (String (byte_of (Z.shiftr n 16)) (String (byte_of (Z.shiftr n 8)) (String (byte_of n) rest)))
  end.

Definition b64u_decode (s : string) : option string := decode_chunks (trim s).

Fixpoint str_take (n : nat) (s : string) : string :=
  match n, s with
  | S n, String a s => String a (str_take n s)
  | _, _ => ""
  end.

Definition keyid (pub_raw : string) : string := str_take 16 (b64u_encode pub_raw).

(** [try_into::<[u8; 32]>]. *)
Definition key_bytes (raw : string) : option string :=
  if bool_decide (String.length raw = 32) then Some raw else None.

(** ** Canonical bytes *)

Definition key_le (p q : string * string) : Prop := String.le p.1 q.1.
#[global] Instance key_le_dec : RelDecision key_le.
Proof. unfold key_le. solve_decision. Defined.

Section canonical.
Context `{WireFormat}.

(** An object from its keys and the canonical form of their values. *)
Definition write_object (entries : list (string * string)) : string :=
  "{" +:+ join "," ((fun kv => json_to_string (JString kv.1) +:+ ":" +:+ kv.2) <$> merge_sort key_le entries)
  +:+ "}".

Fixpoint write_canonical (v : json) : string :=
  match v with
  | JObject fields => write_object ((fun kv => (kv.1, write_canonical kv.2)) <$> fields)
  | JArray l => "[" +:+ join "," (write_canonical <$> l) +:+ "]"
  | _ => json_to_string v
  end.

Definition canonical_bytes (record : json) : string :=
  match record with
  | JObject fields =>
      write_object ((fun kv => (kv.1, write_canonical kv.2))
                    <$> filter (fun kv : string * json => kv.1 <> "signature") fields)
  | _ => write_canonical record
  end.
End canonical.

(** ** Trust anchors

    The file system is what [read_to_string] answers for the text of a path; a
    write changes the answer for the text written to. *)

Definition files := string -> option string.

Record TrustAnchors := mkTrustAnchors { ta_dir : string }.

(** [Path::join]: an absolute name replaces the directory. *)
Definition join_path (dir name : string) : string :=
  if starts_with name "/" then name else path_join dir name.

Definition from_env (var : option string) : TrustAnchors :=
  mkTrustAnchors (default "/etc/selfdef/ms003-trust-anchors" var).

Definition anchor_path (a : TrustAnchors) (key_id : string) : string :=
  join_path (ta_dir a) (key_id +:+ ".pub").

Definition load (fs : files) (a : TrustAnchors) (key_id : string) : option string :=
  body ← fs (anchor_path a key_id);
  raw ← b64u_decode body;
  raw ← key_bytes raw;
  if bool_decide (keyid raw = key_id) then Some raw else None.

(** What [create_dir_all] and [write] answer; a write that fails leaves the file
    in some state. *)
Record AddIo := mkAddIo {
  io_mkdir : result unit string;
  io_write : result unit (string * option string);
}.

Definition set_file (p : string) (body : option string) (fs : files) : files :=
  fun q => if bool_decide (q = p) then body else fs q.

Definition newline : string := String "010" "".

Definition add (io : AddIo) (fs : files) (a : TrustAnchors) (pub_b64u : string) :
    result string string * files :=
  match raw ← b64u_decode pub_b64u; key_bytes raw with
  | None => (Err "not a base64url raw 32-byte ed25519 public key", fs)
  | Some raw =>
      let kid := keyid raw in
      match io_mkdir io with
      | Err e => (Err e, fs)
      | Ok _ =>
          match io_write io with
          | Err (e, partial) => (Err e, set_file (anchor_path a kid) partial fs)
          | Ok _ => (Ok kid, set_file (anchor_path a kid) (Some (b64u_encode raw +:+ newline)) fs)
          end
      end
  end.

(** [Path::file_stem] of a name whose [Path::extension] is [pub]: what precedes
    the last dot, when it is not empty. *)
Definition pub_stem (name : string) : option string :=
  stem ← strip_suffix ".pub" name;
  if bool_decide (stem = "") then None else Some stem.

(** [entries]: the names [read_dir] yields, in its order; [None] when it fails. *)
Definition list_anchors (fs : files) (a : TrustAnchors) (entries : option (list string)) : list string :=
  merge_sort String.le
    (omap (fun name =>
             stem ← pub_stem name;
             if utf8_valid stem && bool_decide (is_Some (load fs a stem)) then Some stem else None)
          (default [] entries)).

(** ** Verification *)

(** The temporary directory, the writes below it, and the exit status of
    [openssl pkeyutl -verify] on a DER key, a message and a signature; [None]
    when the process cannot be started. *)
Record Openssl := mkOpenssl {
  os_tempdir : bool;
  os_write : string -> bool;
  os_run : string -> string -> string -> option bool;
}.

Definition ED25519_SPKI_PREFIX : string :=
  str_concat ((fun n => String (byte_of n) "")
              <$> [0x30; 0x2a; 0x30; 0x05; 0x06; 0x03; 0x2b; 0x65; 0x70; 0x03; 0x21; 0x00]%Z).

Definition openssl_verify (os : Openssl) (pub_raw msg sig : string) : bool :=
  if negb (os_tempdir os) then false
  else
    let der := ED25519_SPKI_PREFIX +:+ pub_raw in
    if negb (os_write os "k.der") || negb (os_write os "m.bin") || negb (os_write os "s.bin") then false
    else default false (os_run os der msg sig).

Section verify.
Context `{WireFormat}.

Definition verify_record (os : Openssl) (fs : files) (anchors : TrustAnchors) (record : json) :
    VerifyStatus.t :=
  match json_get record "signature" with
  | None | Some JNull => VerifyStatus.NoSignatureField
  | Some (JString sig) =>
      if bool_decide (sig = UNSIGNED_PLACEHOLDER) then VerifyStatus.UnsignedPlaceholder
      else
        match strip_prefix PREFIX sig with
        | None => VerifyStatus.InvalidSignature
        | Some rest =>
            match split_once ":" rest with
            | None => VerifyStatus.InvalidSignature
            | Some (kid, sig_b64) =>
                match load fs anchors kid with
                | None => VerifyStatus.UnknownKeyid
                | Some pub_raw =>
                    match b64u_decode sig_b64 with
                    | Some sig_bytes =>
                        if bool_decide (String.length sig_bytes = 64) then
                          if openssl_verify os pub_raw (canonical_bytes record) sig_bytes
                          then VerifyStatus.Verified else VerifyStatus.InvalidSignature
                        else VerifyStatus.InvalidSignature
                    | None => VerifyStatus.InvalidSignature
                    end
                end
            end
        end
  | Some _ => VerifyStatus.InvalidSignature
  end.
End verify.

(** ** base64url round trip *)

(** Or-ing a value into the zero bits below a shifted one is an addition. *)
Lemma lor_shiftl_add n v k : (0 <= k)%Z -> (0 <= v < 2 ^ k)%Z -> Z.lor (Z.shiftl n k) v = (n * 2 ^ k + v)%Z.
Proof.
  intros Hk Hv. rewrite <-Z.shiftl_mul_pow2 by done. symmetry. apply Z.add_nocarry_lor.
  apply Z.bits_inj'. intros i Hi. rewrite Z.land_spec, Z.bits_0.
  destruct (Z.lt_ge_cases i k); [by rewrite Z.shiftl_spec_low|].
  rewrite <-(Z.mod_small v (2 ^ k)), Z.mod_pow2_bits_high, andb_false_r by lia. done.
Qed.

Lemma zbyte_range a : (0 <= zbyte a < 256)%Z.
Proof. unfold zbyte, byte. assert (H := N_ascii_bounded a). lia. Qed.

Lemma byte_of_zbyte a n : (n `mod` 256 = zbyte a)%Z -> byte_of n = a.
Proof. intros E. unfold byte_of, zbyte, byte in *. by rewrite E, N2Z.id, ascii_N_embedding. Qed.

Lemma group3_add b0 b1 b2 : (0 <= b0 < 256)%Z -> (0 <= b1 < 256)%Z -> (0 <= b2 < 256)%Z ->
  group3 b0 b1 b2 = (b0 * 65536 + b1 * 256 + b2)%Z.
Proof.
  intros. unfold group3.
  replace (Z.shiftl b0 16) with (Z.shiftl (Z.shiftl b0 8) 8) by by rewrite Z.shiftl_shiftl.
  rewrite <-Z.shiftl_lor, (lor_shiftl_add b0), lor_shiftl_add by lia. lia.
Qed.

(** The 64 characters of the alphabet: the value table inverts it, and none of
    them is white space. *)
Lemma b64u_alphabet i : (0 <= i < 64)%Z ->
  b64u_val (b64u_char i) = Some i /\ is_ascii (b64u_char i) = true /\ ws_byte (b64u_char i) = false.
Proof.
  intros Hi.
  assert (Hall : forallb (fun i => bool_decide (b64u_val (b64u_char i) = Some i)
                    && is_ascii (b64u_char i) && negb (ws_byte (b64u_char i))) (seqZ 0 64) = true) by reflexivity.
  rewrite forallb_forall in Hall. specialize (Hall i). rewrite <-list_elem_of_In, elem_of_seqZ in Hall.
  specialize (Hall ltac:(lia)). rewrite !andb_true_iff, negb_true_iff, bool_decide_eq_true in Hall. tauto.
Qed.

Lemma sextet_index n k : (0 <= k)%Z -> Z.land (Z.shiftr n k) 63 = ((n `div` 2 ^ k) `mod` 64)%Z.
Proof. intros. by rewrite (Z.land_ones _ 6), Z.shiftr_div_pow2. Qed.

Lemma shift_in_sextet n m k : (0 <= k)%Z ->
  shift_in n (sextet m k) = Some (n * 64 + (m `div` 2 ^ k) `mod` 64)%Z.
Proof.
  intros. unfold shift_in, sextet. rewrite sextet_index by done.
  assert (Hr := Z.mod_pos_bound (m `div` 2 ^ k) 64 ltac:(lia)).
  rewrite (proj1 (b64u_alphabet _ Hr)). simpl. by rewrite lor_shiftl_add.
Qed.

(** Reading the sextets of a group back. *)
Ltac sextets :=
  cbn [b64u_encode decode_chunks];
  repeat (rewrite shift_in_sextet by lia; cbn [mbind option_bind]).

(** The four sextets of a 24-bit group add up to it. *)
Lemma sextets_sum n : (0 <= n < 2 ^ 24)%Z ->
  ((((0 * 64 + (n `div` 2 ^ 18) `mod` 64) * 64 + (n `div` 2 ^ 12) `mod` 64) * 64
     + (n `div` 2 ^ 6) `mod` 64) * 64 + (n `div` 2 ^ 0) `mod` 64 = n)%Z.
Proof. intros. Z.div_mod_to_equations. lia. Qed.

(** Three and two sextets, left aligned, when the bits below them are zero. *)
Lemma sextets_sum3 n : (0 <= n < 2 ^ 24)%Z -> (n `mod` 64 = 0)%Z ->
  ((((0 * 64 + (n `div` 2 ^ 18) `mod` 64) * 64 + (n `div` 2 ^ 12) `mod` 64) * 64
     + (n `div` 2 ^ 6) `mod` 64) ≪ 6 = n)%Z.
Proof. intros. rewrite Z.shiftl_mul_pow2 by lia. Z.div_mod_to_equations. lia. Qed.
Lemma sextets_sum2 n : (0 <= n < 2 ^ 24)%Z -> (n `mod` 4096 = 0)%Z ->
  (((0 * 64 + (n `div` 2 ^ 18) `mod` 64) * 64 + (n `div` 2 ^ 12) `mod` 64) ≪ 12 = n)%Z.
Proof. intros. rewrite Z.shiftl_mul_pow2 by lia. Z.div_mod_to_equations. lia. Qed.

Lemma group3_bytes b0 b1 b2 :
  let n := (zbyte b0 * 65536 + zbyte b1 * 256 + zbyte b2)%Z in
  byte_of (Z.shiftr n 16) = b0 /\ byte_of (Z.shiftr n 8) = b1 /\ byte_of n = b2.
Proof.
  intros n. assert (H0 := zbyte_range b0). assert (H1 := zbyte_range b1). assert (H2 := zbyte_range b2).
  repeat split; apply byte_of_zbyte; rewrite ?Z.shiftr_div_pow2 by lia; subst n; Z.div_mod_to_equations; lia.
Qed.

Lemma decode_chunks_encode s : decode_chunks (b64u_encode s) = Some s.
Proof.
  revert s. fix IH 1. intros [|a [|b [|c s]]]; [done|..].
  - assert (Ha := zbyte_range a). sextets. rewrite group3_add, sextets_sum2 by (Z.div_mod_to_equations; lia).
    destruct (group3_bytes a "000" "000") as [E _].
    change (zbyte "000") with 0%Z in E. by rewrite E.
  - assert (Ha := zbyte_range a). assert (Hb := zbyte_range b). sextets.
    rewrite group3_add, sextets_sum3 by (Z.div_mod_to_equations; lia).
    destruct (group3_bytes a b "000") as (E1 & E2 & _).
    change (zbyte "000") with 0%Z in E1, E2. by rewrite E1, E2.
  - assert (Ha := zbyte_range a). assert (Hb := zbyte_range b). assert (Hc := zbyte_range c). sextets.
    rewrite group3_add, sextets_sum by lia. rewrite IH. cbn [mbind option_bind].
    destruct (group3_bytes a b c) as (-> & -> & ->). done.
Qed.

Definition b64u_byte (a : ascii) : bool := is_ascii a && negb (ws_byte a).

Lemma sextet_byte n k : (0 <= k)%Z -> b64u_byte (sextet n k) = true.
Proof.
  intros. unfold sextet, b64u_byte. rewrite sextet_index by done.
  destruct (b64u_alphabet ((n `div` 2 ^ k) `mod` 64)) as (_ & -> & ->); [|done]. by apply Z.mod_pos_bound.
Qed.

Lemma b64u_encode_bytes s : all_bytes b64u_byte (b64u_encode s) = true.
Proof.
  revert s. fix IH 1. intros [|a [|b [|c s]]]; cbn [b64u_encode all_bytes];
    rewrite ?sextet_byte by lia; [done..|]. apply IH.
Qed.

Lemma all_bytes_trimmed s : all_bytes b64u_byte s = true -> trimmed_ascii s.
Proof.
  unfold b64u_byte. intros Hs. split; [|split].
  - eapply all_bytes_impl; [|exact Hs]. intros a. by intros [? ?]%andb_true_iff.
  - intros a t ->. simpl in Hs. rewrite !andb_true_iff, negb_true_iff in Hs. tauto.
  - intros b t ->. rewrite all_bytes_app in Hs. simpl in Hs. rewrite !andb_true_iff, negb_true_iff in Hs. tauto.
Qed.

Lemma b64u_decode_encode raw : b64u_decode (b64u_encode raw) = Some raw.
Proof.
  unfold b64u_decode. rewrite trim_trimmed_ascii by apply all_bytes_trimmed, b64u_encode_bytes.
  apply decode_chunks_encode.
Qed.

Lemma b64u_decode_line raw : b64u_decode (b64u_encode raw +:+ newline) = Some raw.
Proof.
  unfold b64u_decode, newline. rewrite trim_ws_r by (done || apply all_bytes_trimmed, b64u_encode_bytes).
  apply decode_chunks_encode.
Qed.

(** Every byte string is read back from its base64url text, with or without the
    line feed that ends an anchor file; different byte strings have different
    texts. *)
Theorem b64u_round_trip raw raw' :
  b64u_decode (b64u_encode raw) = Some raw /\ b64u_decode (b64u_encode raw +:+ newline) = Some raw /\
  (b64u_encode raw = b64u_encode raw' <-> raw = raw').
Proof.
  split_and!; [apply b64u_decode_encode|apply b64u_decode_line|]. split; [|by intros ->].
  intros E. assert (H := b64u_decode_encode raw). rewrite E, b64u_decode_encode in H. by injection H.
Qed.

(** ** Canonical form *)

(** One step of reordering: the fields of one object, at any depth. The keys of an
    object are distinct. *)
Inductive reorder : json -> json -> Prop :=
| reorder_here f1 f2 : NoDup f1.*1 -> f1 ≡ₚ f2 -> reorder (JObject f1) (JObject f2)
| reorder_field l k v w r : reorder v w -> reorder (JObject (l ++ (k, v) :: r)) (JObject (l ++ (k, w) :: r))
| reorder_elem l v w r : reorder v w -> reorder (JArray (l ++ v :: r)) (JArray (l ++ w :: r)).

(** The same object up to its [signature] field. *)
Definition set_signature (sig : option json) (fields : list (string * json)) : json :=
  JObject (filter (fun kv : string * json => kv.1 <> "signature") fields
           ++ match sig with Some v => [("signature", v)] | None => [] end).

Section canonical_props.
Context `{WireFormat}.

Lemma key_le_total : Total key_le.
Proof. intros p q. apply (total String.le). Qed.
Lemma key_le_trans : Transitive key_le.
Proof. intros p q r. unfold key_le. apply (transitivity (R := String.le)). Qed.
#[local] Existing Instance key_le_total.
#[local] Existing Instance key_le_trans.

Lemma nodup_key_eq {A} (l : list (string * A)) p q :
  NoDup l.*1 -> p ∈ l -> q ∈ l -> p.1 = q.1 -> p = q.
Proof.
  intros Hn [i Hi]%list_elem_of_lookup [j Hj]%list_elem_of_lookup E.
  assert (i = j) as ->; [|congruence].
  apply (NoDup_lookup _ i j p.1 Hn); rewrite list_lookup_fmap; [by rewrite Hi|by rewrite Hj, E].
Qed.

(** Sorting entries with distinct keys forgets their order. *)
Lemma sort_entries_perm (l1 l2 : list (string * string)) :
  NoDup l1.*1 -> l1 ≡ₚ l2 -> merge_sort key_le l1 = merge_sort key_le l2.
Proof.
  intros Hn Hp. apply (StronglySorted_unique_strong key_le).
  - intros p q. rewrite !merge_sort_Permutation. intros Hp1 Hp2 L1 L2.
    eapply nodup_key_eq; [done|done|by rewrite Hp|]. by apply (anti_symm String.le).
  - apply StronglySorted_merge_sort; apply _.
  - apply StronglySorted_merge_sort; apply _.
  - by rewrite !merge_sort_Permutation.
Qed.

Lemma write_object_perm (l1 l2 : list (string * string)) :
  NoDup l1.*1 -> l1 ≡ₚ l2 -> write_object l1 = write_object l2.
Proof. intros. unfold write_object. by rewrite (sort_entries_perm l1 l2). Qed.

Lemma entries_keys {A B} (f : A -> B) (l : list (string * A)) :
  ((fun kv => (kv.1, f kv.2)) <$> l).*1 = l.*1.
Proof. rewrite <-list_fmap_compose. by apply list_fmap_ext. Qed.

Lemma write_canonical_reorder v w : reorder v w -> write_canonical v = write_canonical w.
Proof.
  induction 1 as [f1 f2 Hn Hp|l k v w r _ IH|l v w r _ IH]; simpl.
  - apply write_object_perm; [by rewrite entries_keys|by apply fmap_Permutation].
  - by rewrite !fmap_app, !fmap_cons; simpl; rewrite IH.
  - by rewrite !fmap_app, !fmap_cons, IH.
Qed.

Lemma nodup_filter_keys (P : string * json -> Prop) `{forall x, Decision (P x)} l :
  NoDup l.*1 -> NoDup (filter P l).*1.
Proof.
  induction l as [|kv l IH]; [done|]. rewrite fmap_cons, NoDup_cons. intros [Hk Hl].
  rewrite filter_cons. case_decide; [|auto]. rewrite fmap_cons, NoDup_cons. split; [|auto].
  contradict Hk. apply list_elem_of_fmap in Hk as (x & -> & Hx). apply list_elem_of_filter in Hx as [_ Hx].
  by apply list_elem_of_fmap_2.
Qed.

Lemma canonical_bytes_reorder v w : reorder v w -> canonical_bytes v = canonical_bytes w.
Proof.
  intros Hr. destruct Hr as [f1 f2 Hn Hp|l k v w r Hr|l v w r Hr]; simpl.
  - apply write_object_perm; [rewrite entries_keys; by apply nodup_filter_keys|].
    by apply fmap_Permutation, filter_Permutation.
  - rewrite !filter_app, !filter_cons. simpl. case_decide; [|done].
    rewrite !fmap_app, !fmap_cons. simpl. by rewrite (write_canonical_reorder v w).
  - by rewrite !fmap_app, !fmap_cons, (write_canonical_reorder v w).
Qed.

Lemma canonical_bytes_signature sig fields :
  canonical_bytes (set_signature sig fields) = canonical_bytes (JObject fields).
Proof.
  unfold set_signature, canonical_bytes. rewrite filter_app. do 2 f_equal.
  rewrite filter_all by (apply Forall_forall; intros x [? _]%list_elem_of_filter; done).
  destruct sig; [by rewrite filter_cons_False, app_nil_r by (simpl; tauto)|by rewrite app_nil_r].
Qed.

Lemma assoc_perm {A} k (f1 f2 : list (string * A)) :
  NoDup f1.*1 -> f1 ≡ₚ f2 -> assoc k f1 = assoc k f2.
Proof.
  intros Hn Hp. induction Hp as [|[k1 v] f1 f2 _ IH|[k1 v] [k2 w] f|f1 f2 f3 Hp1 IH1 Hp2 IH2]; simpl in *.
  - done.
  - apply NoDup_cons in Hn as [_ Hn]. by rewrite IH.
  - apply NoDup_cons in Hn as [Hk _]. repeat case_bool_decide; subst; try done. set_solver.
  - rewrite IH1 by done. apply IH2. by rewrite <-Hp1.
Qed.

(** The bytes that are signed do not depend on the order in which the keys of
    any object of the record are written, nor on its signature field: reordering
    keys at any depth, and setting, replacing or removing the signature, leave
    them unchanged. *)
Theorem canonical_bytes_stable v w sig fields :
  rtc reorder v w ->
  canonical_bytes v = canonical_bytes w /\
  canonical_bytes (set_signature sig fields) = canonical_bytes (JObject fields).
Proof.
  intros Hr. split; [|apply canonical_bytes_signature].
  induction Hr as [|x y z Hxy _ IH]; [done|]. by rewrite (canonical_bytes_reorder x y).
Qed.
End canonical_props.

(** ** Trust anchors: what is stored is what is loaded *)

Lemma length_b64u_encode s :
  String.length (b64u_encode s) = (4 * String.length s + 2) `div` 3.
Proof.
  revert s. fix IH 1. intros [|a [|b [|c s]]]; [done..|].
  cbn [b64u_encode String.length]. rewrite IH.
  replace (4 * S (S (S (String.length s))) + 2) with (4 * 3 + (4 * String.length s + 2)) by lia.
  by rewrite (Nat.div_add_l 4 3).
Qed.

Lemma length_str_take n s : String.length (str_take n s) = n `min` String.length s.
Proof. revert s. induction n as [|n IH]; intros [|a s]; [done..|]. simpl. by rewrite IH. Qed.

Lemma all_bytes_str_take P n s : all_bytes P s = true -> all_bytes P (str_take n s) = true.
Proof.
  revert s. induction n as [|n IH]; intros [|a s]; [done..|]. simpl.
  rewrite !andb_true_iff. naive_solver.
Qed.

(** The bytes of an identifier: the alphabet of base64url. *)
Definition alphabet_byte (a : ascii) : bool := bool_decide (is_Some (b64u_val a)).

Lemma sextet_alphabet n k : (0 <= k)%Z -> alphabet_byte (sextet n k) = true.
Proof.
  intros. unfold sextet, alphabet_byte. rewrite sextet_index by done.
  destruct (b64u_alphabet ((n `div` 2 ^ k) `mod` 64)) as (-> & _); [by apply Z.mod_pos_bound|].
  by apply bool_decide_eq_true.
Qed.

Lemma b64u_encode_alphabet s : all_bytes alphabet_byte (b64u_encode s) = true.
Proof.
  revert s. fix IH 1. intros [|a [|b [|c s]]]; cbn [b64u_encode all_bytes];
    rewrite ?sextet_alphabet by lia; [done..|]. apply IH.
Qed.

Lemma key_bytes_Some raw k : key_bytes raw = Some k <-> raw = k /\ String.length k = 32.
Proof. unfold key_bytes. case_bool_decide; naive_solver. Qed.

Lemma keyid_shape raw : String.length raw = 32 ->
  String.length (keyid raw) = 16 /\ all_bytes alphabet_byte (keyid raw) = true.
Proof.
  intros Hl. unfold keyid. split; [|apply all_bytes_str_take, b64u_encode_alphabet].
  by rewrite length_str_take, length_b64u_encode, Hl.
Qed.

(** A name in the alphabet is one component of a path. *)
Lemma alphabet_relative s t : all_bytes alphabet_byte s = true -> s <> "" -> starts_with (s +:+ t) "/" = false.
Proof.
  destruct s as [|a s]; [done|]. intros H _. simpl in H. apply andb_true_iff in H as [H _].
  apply not_true_is_false. rewrite starts_with_spec. intros [r Hr]. rewrite str_cons_app in Hr.
  change ("/" +:+ r) with (String "/" r) in Hr. by simplify_eq.
Qed.

Lemma load_Some fs a kid raw : load fs a kid = Some raw <->
  kid = keyid raw /\ String.length raw = 32 /\
  exists body, fs (path_join (ta_dir a) (kid +:+ ".pub")) = Some body /\ b64u_decode body = Some raw.
Proof.
  unfold load, anchor_path. split.
  - intros H. apply bind_Some in H as (body & Hb & H). apply bind_Some in H as (raw' & Hd & H).
    apply bind_Some in H as (k & Hk & H). apply key_bytes_Some in Hk as [-> Hl].
    case_bool_decide as Ek; [|done]. simplify_eq. destruct (keyid_shape raw Hl) as [Hl16 Ha].
    unfold join_path in Hb. rewrite alphabet_relative in Hb; [eauto 6|done|].
    intros E. by rewrite E in Hl16.
  - intros (-> & Hl & body & Hb & Hd). destruct (keyid_shape raw Hl) as [Hl16 Ha].
    unfold join_path. rewrite alphabet_relative; [|done|intros E; by rewrite E in Hl16].
    rewrite Hb. simpl. rewrite Hd. simpl. rewrite (proj2 (key_bytes_Some raw raw)) by done. simpl.
    by rewrite bool_decide_true.
Qed.

(** A key is loaded only under its own identifier, sixteen characters of the
    base64url alphabet, from the file of that name directly below the store's
    directory: no identifier reaches another directory. An installed key is
    loaded back; one that is refused or not written is reported; and no other
    anchor is affected. *)
Theorem anchors_store io fs a text :
  (forall kid raw, load fs a kid = Some raw ->
     kid = keyid raw /\ String.length kid = 16 /\ all_bytes alphabet_byte kid = true /\
     exists body, fs (path_join (ta_dir a) (kid +:+ ".pub")) = Some body /\ b64u_decode body = Some raw) /\
  (forall kid fs', add io fs a text = (Ok kid, fs') ->
     exists raw, b64u_decode text = Some raw /\ kid = keyid raw /\ load fs' a kid = Some raw /\
       forall kid', kid' <> kid -> load fs' a kid' = load fs a kid') /\
  (forall raw, b64u_decode text = Some raw -> String.length raw = 32 ->
     io_mkdir io = Ok tt -> io_write io = Ok tt -> (add io fs a text).1 = Ok (keyid raw)).
Proof.
  split; [|split].
  - intros kid raw (-> & Hl & Hb)%load_Some. destruct (keyid_shape raw Hl). eauto.
  - intros kid fs'. unfold add.
    destruct (b64u_decode text) as [raw|]; [|done]. simpl. unfold key_bytes.
    case_bool_decide as Hl; [|done]. destruct (io_mkdir io), (io_write io) as [|[]]; try done.
    intros; simplify_eq. exists raw. destruct (keyid_shape raw Hl) as [Hl16 Ha].
    assert (Hap : anchor_path a (keyid raw) = path_join (ta_dir a) (keyid raw +:+ ".pub")).
    { unfold anchor_path, join_path. rewrite alphabet_relative; [done..|]. intros E. by rewrite E in Hl16. }
    split_and!; [done..| |].
    + apply load_Some. split_and!; [done..|]. rewrite <-Hap. unfold set_file.
      rewrite bool_decide_true by done. eexists. split; [done|]. apply b64u_decode_line.
    + intros kid' Hne. apply option_eq. intros raw'. rewrite !load_Some. unfold set_file. rewrite Hap.
      rewrite bool_decide_false; [done|]. intros E%path_join_inj. by apply str_app_inj_len in E as [? _].
  - intros raw Hd Hl Em Ew. unfold add. rewrite Hd. simpl. unfold key_bytes.
    by rewrite bool_decide_true, Em, Ew by done.
Qed.

Lemma pub_stem_Some name stem : pub_stem name = Some stem <-> name = stem +:+ ".pub" /\ stem <> "".
Proof.
  unfold pub_stem. rewrite bind_Some. setoid_rewrite strip_suffix_Some. split.
  - intros (t & -> & H). case_bool_decide; naive_solver.
  - intros [-> Hne]. eexists. split; [done|]. by rewrite bool_decide_false.
Qed.

Lemma alphabet_ascii a : alphabet_byte a = true -> is_ascii a = true.
Proof. by destruct a as [[] [] [] [] [] [] [] []]. Qed.

(** The keys listed are exactly those of the named files that load, in byte
    order, without repetition. *)
Theorem list_anchors_spec fs a entries kid :
  NoDup entries ->
  (kid ∈ list_anchors fs a (Some entries) <-> (kid +:+ ".pub") ∈ entries /\ is_Some (load fs a kid)) /\
  StronglySorted String.le (list_anchors fs a (Some entries)) /\
  NoDup (list_anchors fs a (Some entries)).
Proof.
  intros Hn. unfold list_anchors. split_and!.
  - rewrite merge_sort_Permutation, list_elem_of_omap. simpl. setoid_rewrite bind_Some.
    setoid_rewrite pub_stem_Some. split.
    + intros (name & Hin & stem & [-> _] & H). case_match eqn:E; simplify_eq.
      apply andb_true_iff in E as [_ ?%bool_decide_eq_true]. done.
    + intros [Hin [raw Hl]]. exists (kid +:+ ".pub"). split; [done|]. exists kid.
      assert (Hl' := Hl). apply load_Some in Hl as (-> & Hlen & _). destruct (keyid_shape raw Hlen) as [H16 Ha].
      split; [split; [done|intros E; by rewrite E in H16]|].
      rewrite utf8_valid_ascii by (eapply all_bytes_impl, Ha; apply alphabet_ascii).
      by rewrite bool_decide_true by eauto.
  - apply StronglySorted_merge_sort; apply _.
  - rewrite merge_sort_Permutation. simpl. apply NoDup_omap; [|done]. intros x y z _ _ Hx Hy.
    apply bind_Some in Hx as (s1 & [-> _]%pub_stem_Some & H1). apply bind_Some in Hy as (s2 & [-> _]%pub_stem_Some & H2).
    repeat case_match; by simplify_eq.
Qed.

(** ** Classification *)

(** The signature text of a record: the prefix, a key identifier without a colon,
    a colon, and the rest. *)
Definition envelope (kid sig_b64 : string) : string := PREFIX +:+ kid +:+ ":" +:+ sig_b64.
Definition colon_free : string -> bool := all_bytes (fun a => negb (bool_decide (a = ":"%char))).

Lemma envelope_read sig kid sig_b64 :
  (exists rest, strip_prefix PREFIX sig = Some rest /\ split_once ":" rest = Some (kid, sig_b64)) <->
  sig = envelope kid sig_b64 /\ colon_free kid = true.
Proof.
  setoid_rewrite strip_prefix_Some. unfold envelope. split.
  - intros (rest & -> & Hs). split.
    + by rewrite (split_once_Some _ _ _ _ Hs).
    + revert kid Hs. induction rest as [|a rest IH]; intros kid; [done|]. simpl.
      case_bool_decide as Ha; [intros; by simplify_eq/=|].
      destruct (split_once ":" rest) as [[l r]|]; [|done]. intros; simplify_eq.
      unfold colon_free. simpl. rewrite bool_decide_false by done. by apply IH.
  - intros [-> Hc]. eexists. split; [done|]. by apply split_once_app.
Qed.

Section classify.
Context `{WireFormat}.

Definition accepts (os : Openssl) (key msg sig_b64 : string) : Prop :=
  exists sig, b64u_decode sig_b64 = Some sig /\ String.length sig = 64 /\ openssl_verify os key msg sig = true.

(** The record of an envelope, and the three kinds of signature value that are none. *)
Lemma verify_envelope os fs a r kid sig_b64 :
  json_get r "signature" = Some (JString (envelope kid sig_b64)) -> colon_free kid = true ->
  match load fs a kid with
  | None => verify_record os fs a r = VerifyStatus.UnknownKeyid
  | Some key =>
      accepts os key (canonical_bytes r) sig_b64 /\ verify_record os fs a r = VerifyStatus.Verified \/
      ~ accepts os key (canonical_bytes r) sig_b64 /\ verify_record os fs a r = VerifyStatus.InvalidSignature
  end.
Proof.
  intros Hj Hc. destruct (proj2 (envelope_read _ kid sig_b64) (conj eq_refl Hc)) as (rest & Hp & Hs).
  unfold verify_record, accepts. rewrite Hj, bool_decide_false, Hp, Hs by done.
  destruct (load fs a kid) as [key|]; [|done].
  destruct (b64u_decode sig_b64) as [sig|]; [|right; split; [by intros (? & ? & _)|done]].
  case_bool_decide as Hl; [|right; split; [|done]; intros (? & ? & ? & _); congruence].
  destruct (openssl_verify _ _ _ _) eqn:E; [by left; eauto 6|].
  right. split; [|done]. intros (? & ? & _ & ?). congruence.
Qed.

(** A text that is no envelope. *)
Lemma verify_other os fs a r sig :
  json_get r "signature" = Some (JString sig) ->
  (exists kid sig_b64, sig = envelope kid sig_b64 /\ colon_free kid = true) \/
  (forall kid sig_b64, sig <> envelope kid sig_b64) /\
  verify_record os fs a r =
    if bool_decide (sig = UNSIGNED_PLACEHOLDER) then VerifyStatus.UnsignedPlaceholder
    else VerifyStatus.InvalidSignature.
Proof.
  intros Hj. unfold verify_record. rewrite Hj.
  destruct (strip_prefix PREFIX sig) as [rest|] eqn:Ep.
  - destruct (split_once ":" rest) as [[kid sb]|] eqn:Es.
    + left. exists kid, sb. apply envelope_read. eauto.
    + right. split; [|by case_bool_decide]. intros kid sb ->. unfold envelope in Ep.
      apply strip_prefix_Some, str_app_inj_pre in Ep as [_ <-]; [|done].
      apply split_once_None in Es. rewrite all_bytes_app in Es. apply andb_true_iff in Es as [_ Es]. done.
  - right. split; [|by case_bool_decide]. intros kid sb ->.
    by rewrite (proj2 (strip_prefix_Some PREFIX _ (kid +:+ ":" +:+ sb))) in Ep.
Qed.

Lemma loaded_colon_free fs a kid key : load fs a kid = Some key -> colon_free kid = true.
Proof.
  intros (-> & Hl & _)%load_Some. destruct (keyid_shape key Hl) as [_ Ha].
  eapply all_bytes_impl, Ha. intros c. by case_bool_decide; subst.
Qed.

Lemma envelope_inj k1 s1 k2 s2 :
  colon_free k1 = true -> colon_free k2 = true -> envelope k1 s1 = envelope k2 s2 -> k1 = k2 /\ s1 = s2.
Proof.
  intros H1 H2 E. destruct (proj2 (envelope_read _ k1 s1) (conj eq_refl H1)) as (r1 & P1 & S1).
  destruct (proj2 (envelope_read _ k2 s2) (conj eq_refl H2)) as (r2 & P2 & S2).
  rewrite E in P1. by simplify_eq.
Qed.

(** The five outcomes with what each was decided from. *)
Inductive outcome (os : Openssl) (fs : files) (a : TrustAnchors) (r : json) :
    option json -> VerifyStatus.t -> Prop :=
| out_none : outcome os fs a r None VerifyStatus.NoSignatureField
| out_null : outcome os fs a r (Some JNull) VerifyStatus.NoSignatureField
| out_placeholder :
    outcome os fs a r (Some (JString UNSIGNED_PLACEHOLDER)) VerifyStatus.UnsignedPlaceholder
| out_unknown kid sb : colon_free kid = true -> load fs a kid = None ->
    outcome os fs a r (Some (JString (envelope kid sb))) VerifyStatus.UnknownKeyid
| out_verified kid sb key : colon_free kid = true -> load fs a kid = Some key ->
    accepts os key (canonical_bytes r) sb ->
    outcome os fs a r (Some (JString (envelope kid sb))) VerifyStatus.Verified
| out_bad kid sb key : colon_free kid = true -> load fs a kid = Some key ->
    ~ accepts os key (canonical_bytes r) sb ->
    outcome os fs a r (Some (JString (envelope kid sb))) VerifyStatus.InvalidSignature
| out_other v : v <> JNull -> v <> JString UNSIGNED_PLACEHOLDER ->
    (forall kid sb, v <> JString (envelope kid sb)) ->
    outcome os fs a r (Some v) VerifyStatus.InvalidSignature.

Lemma verify_record_outcome os fs a r :
  outcome os fs a r (json_get r "signature") (verify_record os fs a r).
Proof.
  destruct (json_get r "signature") as [v|] eqn:Hj; [|unfold verify_record; rewrite Hj; constructor].
  destruct v as [| | | | |sig| |].
  1-5, 7-8: unfold verify_record; rewrite Hj; by constructor.
  destruct (verify_other os fs a r sig Hj) as [(kid & sb & -> & Hc)|[Hno ->]].
  - assert (Hv := verify_envelope os fs a r kid sb Hj Hc). destruct (load fs a kid) as [key|] eqn:El.
    + destruct Hv as [[Hacc ->]|[Hacc ->]]; econstructor; done.
    + rewrite Hv. by constructor.
  - case_bool_decide; [subst; constructor|]. constructor; [done|congruence|]. intros kid sb E. by simplify_eq; apply (Hno kid sb).
Qed.

(** The outcome of a field is determined by it. *)
Lemma outcome_det os fs a r sf s1 s2 : outcome os fs a r sf s1 -> outcome os fs a r sf s2 -> s1 = s2.
Proof.
  intros H1 H2. destruct H1; inv H2; try done; try (exfalso; naive_solver congruence);
    match goal with
    | E : ?k1 +:+ ":" +:+ ?s1 = ?k2 +:+ ":" +:+ ?s2 |- _ =>
        destruct (envelope_inj k1 s1 k2 s2) as [-> ->]; [done|done|unfold envelope; by rewrite E|congruence]
    end.
Qed.

(** C35: a record is verified exactly when its signature field is an envelope that
    names a trusted key by its identifier and carries 64 bytes that openssl
    accepts under that key for the canonical bytes of this very record. It is
    unsigned exactly when the field is absent or null, a placeholder exactly when
    it is the placeholder text, of an unknown key exactly when the envelope is
    well formed and no anchor loads. Everything else is an invalid signature. *)
Theorem verify_record_exact os fs a r :
  let sig_field := json_get r "signature" in
  let s := verify_record os fs a r in
  (s = VerifyStatus.Verified <->
     exists kid sig_b64 key sig, sig_field = Some (JString (envelope kid sig_b64)) /\
       load fs a kid = Some key /\ b64u_decode sig_b64 = Some sig /\ String.length sig = 64 /\
       openssl_verify os key (canonical_bytes r) sig = true) /\
  (s = VerifyStatus.NoSignatureField <-> sig_field = None \/ sig_field = Some JNull) /\
  (s = VerifyStatus.UnsignedPlaceholder <-> sig_field = Some (JString UNSIGNED_PLACEHOLDER)) /\
  (s = VerifyStatus.UnknownKeyid <->
     exists kid sig_b64, sig_field = Some (JString (envelope kid sig_b64)) /\
       colon_free kid = true /\ load fs a kid = None) /\
  (is_security_event s = true <->
     s <> VerifyStatus.Verified /\
     exists v, sig_field = Some v /\ v <> JNull /\ v <> JString UNSIGNED_PLACEHOLDER).
Proof.
  intros sf s. subst sf s. assert (Ho := verify_record_outcome os fs a r).
  split_and!; split.
  1: { inv Ho; try done. match goal with H : accepts _ _ _ _ |- _ => destruct H as (sig & ?) end. eauto 8. }
  2, 4, 6, 8: inv Ho; try done; eauto 6.
  - intros (kid & sb & key & sig & Hj & Hl & Hacc). rewrite Hj in Ho. apply (outcome_det _ _ _ _ _ _ _ Ho).
    econstructor; [by eapply loaded_colon_free|done|]. by exists sig.
  - intros [Hj|Hj]; rewrite Hj in Ho; apply (outcome_det _ _ _ _ _ _ _ Ho); constructor.
  - intros Hj; rewrite Hj in Ho; apply (outcome_det _ _ _ _ _ _ _ Ho); constructor.
  - intros (kid & sb & Hj & Hc & Hl). rewrite Hj in Ho; apply (outcome_det _ _ _ _ _ _ _ Ho); by constructor.
  - intros [Hv (v & Hj & H1 & H2)]. rewrite Hj in Ho. inv Ho; done.
Qed.
End classify.

(** ** Evaluation *)
Module Ms003Examples.
Import Core.Demo.

Definition GOLDEN_PUB : string := "MSC1I_5sR6G2V_NNv0kL4ZBmyfiHsxR31_2Iey1EKh0".
Definition GOLDEN_KEYID : string := "MSC1I_5sR6G2V_NN".
Definition anchors : TrustAnchors := from_env None.
Definition io_ok : AddIo := mkAddIo (Ok tt) (Ok tt).
Definition stored : files := (add io_ok (fun _ => None) anchors GOLDEN_PUB).2.
(** An openssl that accepts one signature text under one key. *)
Definition openssl : Openssl :=
  mkOpenssl true (fun _ => true)
    (fun der msg sig => Some (bool_decide (sig = b64u_encode (der +:+ str_take 4 msg)))).

Example golden_keyid :
  (raw ← b64u_decode GOLDEN_PUB; Some (keyid raw, b64u_encode raw)) = Some (GOLDEN_KEYID, GOLDEN_PUB).
Proof. reflexivity. Qed.

Example golden_stored :
  list_anchors stored anchors (Some [GOLDEN_KEYID +:+ ".pub"; "README"; ".pub"; "x.pub"]) = [GOLDEN_KEYID].
Proof. vm_compute. reflexivity. Qed.

Definition rec1 : json := JObject [("n", JPosInt 7); ("id", JObject [("z", JPosInt 1); ("a", JPosInt 2)])].
Definition rec2 : json := JObject [("id", JObject [("a", JPosInt 2); ("z", JPosInt 1)]); ("n", JPosInt 7)].

Lemma canonical_bytes_stable_witness :
  canonical_bytes rec1 = canonical_bytes rec2 /\
  canonical_bytes (set_signature None [("n", JPosInt 7)]) = canonical_bytes (JObject [("n", JPosInt 7)]).
Proof.
  apply (canonical_bytes_stable rec1 rec2 None [("n", JPosInt 7)]).
  apply rtc_l with (JObject [("n", JPosInt 7); ("id", JObject [("a", JPosInt 2); ("z", JPosInt 1)])]).
  - apply (reorder_field [("n", JPosInt 7)] "id" _ _ []), reorder_here; [vm_compute; by repeat constructor; set_solver|].
    apply Permutation_swap.
  - apply rtc_once, reorder_here; [by repeat constructor; set_solver|]. apply Permutation_swap.
Defined.

Lemma list_anchors_spec_witness :
  StronglySorted String.le (list_anchors stored anchors (Some [GOLDEN_KEYID +:+ ".pub"; "README"])).
Proof.
  apply (list_anchors_spec stored anchors [GOLDEN_KEYID +:+ ".pub"; "README"] GOLDEN_KEYID).
  repeat constructor; set_solver.
Defined.

Definition signed (kid sig : string) : json := JObject [("n", JPosInt 7); ("signature", JString (envelope kid sig))].
Definition good_sig (msg : string) : string :=
  b64u_encode (b64u_encode (ED25519_SPKI_PREFIX +:+ default "" (b64u_decode GOLDEN_PUB) +:+ str_take 4 msg)).

(** Each of the five statuses is reached. *)
Example statuses :
  verify_record openssl stored anchors <$>
    [JObject [("n", JPosInt 7)]; JObject [("signature", JString UNSIGNED_PLACEHOLDER)];
     signed "../x" "AAAA"; signed GOLDEN_KEYID "AAAA";
     signed GOLDEN_KEYID (good_sig (canonical_bytes (signed "" ""))); JObject [("signature", JBool true)]]
  = [VerifyStatus.NoSignatureField; VerifyStatus.UnsignedPlaceholder; VerifyStatus.UnknownKeyid;
     VerifyStatus.InvalidSignature; VerifyStatus.Verified; VerifyStatus.InvalidSignature].
Proof. vm_compute. reflexivity. Qed.
End Ms003Examples.
