(* ===== verification/Sigma.v ===== *)
(** * The Sigma rule engine

    Models crates/selfdef-correlator/src/sigma.rs: the raw rule, the compiled
    rule, the condition and timeframe parsers, selection matching over the
    JSON value of an event, finding construction and [Engine::process].

    A [HashMap] that the code iterates over is an association list in the
    iteration order; one it only looks keys up in is a [gmap]. Clock readings
    and fresh identifiers are inputs. The regular-expression engine and the
    debug form of a YAML value belong to third-party crates and come from the
    [RuleLibs] class. *)

From S2P Require Import Prelude Core Aggregator Signing.
From stdpp Require Import options.

(** ** Raw rules *)

(** [serde_yaml_ng::Value]. *)
Inductive yaml :=
| YNull
| YBool (b : bool)
| YPosInt (n : Z)
| YNegInt (n : Z)
| YFloat (bits : Z)
| YString (s : string)
| YSequence (l : list yaml)
| YMapping (l : list (yaml * yaml))
| YTagged (tag : string) (v : yaml).

(** The accessors look through tags. *)
Fixpoint untag (v : yaml) : yaml :=
  match v with YTagged _ v => untag v | _ => v end.

Definition yaml_as_str (v : yaml) : option string :=
  match untag v with YString s => Some s | _ => None end.
Definition yaml_as_bool (v : yaml) : option bool :=
  match untag v with YBool b => Some b | _ => None end.
Definition yaml_as_u64 (v : yaml) : option Z :=
  match untag v with YPosInt n => Some n | _ => None end.
Definition yaml_as_i64 (v : yaml) : option Z :=
  match untag v with
  | YPosInt n => if (n <? 2 ^ 63)%Z then Some n else None
  | YNegInt n => Some n
  | _ => None
  end.
Definition yaml_as_sequence (v : yaml) : option (list yaml) :=
  match untag v with YSequence l => Some l | _ => None end.
Definition yaml_as_mapping (v : yaml) : option (list (yaml * yaml)) :=
  match untag v with YMapping l => Some l | _ => None end.

Module SigmaLevel.
Inductive t := Informational | Low | Medium | High | Critical.

#[global] Instance eq_dec : EqDecision t.
Proof. solve_decision. Defined.
End SigmaLevel.

Definition to_severity (l : SigmaLevel.t) : SeverityId.t :=
  match l with
  | SigmaLevel.Informational => SeverityId.Informational
  | SigmaLevel.Low => SeverityId.Low
  | SigmaLevel.Medium => SeverityId.Medium
  | SigmaLevel.High => SeverityId.High
  | SigmaLevel.Critical => SeverityId.Critical
  end.

Record LogSource := mkLogSource {
  ls_product : option string;
  ls_service : option string;
  ls_category : option string;
}.

Record RawDetection := mkRawDetection {
  rd_selections : list (string * yaml);
  rd_timeframe : option string;
  rd_condition : string;
}.

Record RawRule := mkRawRule {
  rr_id : string;
  rr_title : string;
  rr_description : option string;
  rr_level : SigmaLevel.t;
  rr_status : option string;
  rr_author : option string;
  rr_date : option string;
  rr_tags : list string;
  rr_references : list string;
  rr_falsepositives : list string;
  rr_logsource : LogSource;
  rr_detection : RawDetection;
}.

(** ** Compiled rules *)

Inductive Condition :=
| Single (selection : string)
| Count (selection group_by_field : string) (threshold : Z).

Module FieldOp.
Inductive t := Eq | Contains | StartsWith | EndsWith | Regex.

#[global] Instance eq_dec : EqDecision t.
Proof. solve_decision. Defined.
End FieldOp.

Class RuleLibs := {
  regex : Type;
  regex_new : string -> result regex string;
  regex_is_match : regex -> string -> bool;
  yaml_debug : yaml -> string;
}.

Inductive MatchValue `{RuleLibs} :=
| MString (s : string)
| MInt (n : Z)
| MBool (b : bool)
| MRegex (r : regex).

Record FieldClause `{RuleLibs} := mkFieldClause {
  fc_path : string;
  fc_op : FieldOp.t;
  fc_values : list MatchValue;
}.

Record SelectionMatcher `{RuleLibs} := mkSelectionMatcher {
  sm_fields : list FieldClause;
}.

Record CompiledRule `{RuleLibs} := mkCompiledRule {
  cr_id : string;
  cr_title : string;
  cr_description : option string;
  cr_level : SigmaLevel.t;
  cr_tags : list string;
  cr_references : list string;
  cr_author : option string;
  cr_falsepositives : list string;
  cr_logsource : LogSource;
  cr_source_path : path;
  cr_matchers : gmap string SelectionMatcher;
  cr_condition : Condition;
  cr_timeframe : option Z;
  cr_aggregator : option Aggregator;
}.

Inductive SigmaError :=
| Yaml (p : path) (source : string)
| Io (source : string)
| InvalidRule (id reason : string)
| RegexError (source : string)
| InvalidTimeframe (s : string)
| InvalidCondition (s : string)
| Signature (p : path) (source : SigningError).

(** ** Parsers *)

Definition parse_field_spec (spec : string) : string * FieldOp.t :=
  match split_once "|" spec with
  | Some (path, modifier) =>
      let op :=
        if bool_decide (modifier = "contains") then FieldOp.Contains
        else if bool_decide (modifier = "startswith") then FieldOp.StartsWith
        else if bool_decide (modifier = "endswith") then FieldOp.EndsWith
        else if bool_decide (modifier = "re") then FieldOp.Regex
        else FieldOp.Eq in
      (path, op)
  | None => (spec, FieldOp.Eq)
  end.

(** [parse_duration]: seconds in a [u64]; the result is in nanoseconds. *)
Definition unit_mult (unit : rchar) : option Z :=
  if bool_decide (unit = "s") then Some 1%Z
  else if bool_decide (unit = "m") then Some 60%Z
  else if bool_decide (unit = "h") then Some 3600%Z
  else if bool_decide (unit = "d") then Some 86400%Z
  else None.

Definition parse_duration (s : string) : result Z SigmaError :=
  let s := trim s in
  let? unit := ok_or (last (chars s)) (InvalidTimeframe s) in
  let num_part := str_concat (take (length (chars s) - 1) (chars s)) in
  if bool_decide (num_part = "") then Err (InvalidTimeframe s)
  else
    let? n := ok_or (parse_uint u64_max num_part) (InvalidTimeframe s) in
    let? mult := ok_or (unit_mult unit) (InvalidTimeframe s) in
    let? secs := ok_or (checked_mul_u64 n mult) (InvalidTimeframe s) in
    Ok (from_secs secs).

Definition parse_condition `{UnicodeTables} (s : string) : option (Condition * option string) :=
  let s := trim s in
  match split_once "|" s with
  | Some (lhs, rhs) =>
      let selection := trim lhs in
      let rhs := trim rhs in
      rest ← strip_prefix "count() by " rhs;
      '(field_part, num_part) ← split_once ">" rest;
      let group_by_field := trim field_part in
      threshold ← parse_uint u32_max (trim num_part);
      Some (Count selection group_by_field threshold, Some group_by_field)
  | None =>
      if forallb (fun c => is_alphanumeric c || bool_decide (c = "_")) (chars s)
      then Some (Single s, None)
      else None
  end.

(** ** Compilation *)

Section compile.
Context `{RuleLibs} `{UnicodeTables}.

(** [n as i64] for a [u64]. *)
Definition as_i64 (n : Z) : Z := if (n <? 2 ^ 63)%Z then n else n - 2 ^ 64.

Definition compile_value (v : yaml) (op : FieldOp.t) : result MatchValue string :=
  match yaml_as_str v with
  | Some s =>
      if bool_decide (op = FieldOp.Regex) then
        match regex_new s with
        | Ok r => Ok (MRegex r)
        | Err e => Err ("bad regex: " +:+ e)
        end
      else Ok (MString s)
  | None =>
      match yaml_as_i64 v with
      | Some n => Ok (MInt n)
      | None =>
          match yaml_as_u64 v with
          | Some n => Ok (MInt (as_i64 n))
          | None =>
              match yaml_as_bool v with
              | Some b => Ok (MBool b)
              | None => Err ("unsupported value type: " +:+ yaml_debug v)
              end
          end
      end
  end.

(** [iter().map(f).collect::<Result<Vec<_>, _>>()]: stops at the first error. *)
Fixpoint collect {A B E} (f : A -> result B E) (l : list A) : result (list B) E :=
  match l with
  | [] => Ok []
  | a :: l => let? b := f a in let? bs := collect f l in Ok (b :: bs)
  end.

Definition compile_values (v : yaml) (op : FieldOp.t) : result (list MatchValue) string :=
  match yaml_as_sequence v with
  | Some seq => collect (fun item => compile_value item op) seq
  | None => let? m := compile_value v op in Ok [m]
  end.

Definition map_err {A E F} (f : E -> F) (r : result A E) : result A F :=
  match r with Ok a => Ok a | Err e => Err (f e) end.

Definition compile_field (name : string) (kv : yaml * yaml) : result FieldClause string :=
  let? key_str := ok_or (yaml_as_str kv.1)
    ("selection '" +:+ name +:+ "': field key must be a string") in
  let '(path, op) := parse_field_spec key_str in
  let? values := map_err
    (fun e => "selection '" +:+ name +:+ "' field '" +:+ key_str +:+ "': " +:+ e)
    (compile_values kv.2 op) in
  Ok (mkFieldClause _ path op values).

Definition compile_selection (name : string) (value : yaml) : result SelectionMatcher string :=
  let? map := ok_or (yaml_as_mapping value) ("selection '" +:+ name +:+ "' must be a mapping") in
  let? fields := collect (compile_field name) map in
  Ok (mkSelectionMatcher _ fields).

(** The loop that compiles every selection into [matchers]. *)
Fixpoint compile_selections (id : string) (sels : list (string * yaml))
    (matchers : gmap string SelectionMatcher) : result (gmap string SelectionMatcher) SigmaError :=
  match sels with
  | [] => Ok matchers
  | (name, value) :: sels =>
      let? matcher := map_err (InvalidRule id) (compile_selection name value) in
      compile_selections id sels (<[name := matcher]> matchers)
  end.

Definition condition_selection (c : Condition) : string :=
  match c with Single n => n | Count sel _ _ => sel end.

Definition compile_rule (raw : RawRule) (source_path : path) : result CompiledRule SigmaError :=
  let det := rr_detection raw in
  let? parsed := ok_or (parse_condition (rd_condition det)) (InvalidCondition (rd_condition det)) in
  let '(condition, threshold_group_by) := parsed in
  let sel_name := condition_selection condition in
  if negb (bool_decide (is_Some (assoc sel_name (rd_selections det)))) then
    Err (InvalidRule (rr_id raw)
      ("condition references unknown selection '" +:+ sel_name +:+ "'"))
  else
    let? matchers := compile_selections (rr_id raw) (rd_selections det) ∅ in
    let? timeframe :=
      match rd_timeframe det with
      | None => Ok None
      | Some s => let? d := parse_duration s in Ok (Some d)
      end in
    let? aggregator :=
      match condition, timeframe, threshold_group_by with
      | Count _ _ threshold, Some dur, Some _ => Ok (Some (aggregator_new threshold dur))
      | Count _ _ _, _, _ =>
          Err (InvalidRule (rr_id raw) "count() condition requires `timeframe`")
      | _, _, _ => Ok None
      end in
    Ok {| cr_id := rr_id raw; cr_title := rr_title raw; cr_description := rr_description raw;
          cr_level := rr_level raw; cr_tags := rr_tags raw; cr_references := rr_references raw;
          cr_author := rr_author raw; cr_falsepositives := rr_falsepositives raw;
          cr_logsource := rr_logsource raw; cr_source_path := source_path;
          cr_matchers := matchers; cr_condition := condition; cr_timeframe := timeframe;
          cr_aggregator := aggregator |}.
End compile.

(** ** Matching *)

(** [extract]: a field by dot notation. *)
Fixpoint extract_segments (value : json) (segments : list string) : option json :=
  match segments with
  | [] => Some value
  | seg :: segments => v ← json_get value seg; extract_segments v segments
  end.
Definition extract (value : json) (path : string) : option json :=
  extract_segments value (split "." path).

Section engine.
Context `{RuleLibs} `{UnicodeTables} `{WireFormat}.

Definition str_test (v : json) (f : string -> bool) : bool :=
  match json_as_str v with Some x => f x | None => false end.

Definition matches_json (m : MatchValue) (v : json) (op : FieldOp.t) : bool :=
  match m, op with
  | MString s, FieldOp.Eq => str_test v (fun x => eq_ignore_ascii_case x s)
  | MString s, FieldOp.Contains =>
      str_test v (fun x => contains (to_ascii_lowercase x) (to_ascii_lowercase s))
  | MString s, FieldOp.StartsWith =>
      str_test v (fun x => starts_with (to_ascii_lowercase x) (to_ascii_lowercase s))
  | MString s, FieldOp.EndsWith =>
      str_test v (fun x => ends_with (to_ascii_lowercase x) (to_ascii_lowercase s))
  | MInt n, FieldOp.Eq =>
      bool_decide (json_as_i64 v = Some n) || bool_decide (json_as_u64 v = Some (n `mod` 2 ^ 64)%Z)
  | MBool b, FieldOp.Eq => bool_decide (json_as_bool v = Some b)
  | MRegex r, FieldOp.Regex => str_test v (regex_is_match r)
  | _, _ => false
  end.

(** Every clause must hold; within a clause one value suffices. *)
Fixpoint clauses_match (clauses : list FieldClause) (event_json : json) : bool :=
  match clauses with
  | [] => true
  | clause :: clauses =>
      match extract event_json (fc_path clause) with
      | None => false
      | Some v =>
          if existsb (fun val => matches_json val v (fc_op clause)) (fc_values clause)
          then clauses_match clauses event_json
          else false
      end
  end.
Definition selection_matches (m : SelectionMatcher) (event_json : json) : bool :=
  clauses_match (sm_fields m) event_json.

Definition logsource_matches (ls : LogSource) (event : Event) : bool :=
  match ls_service ls with
  | Some service => bool_decide (ev_source event = service)
  | None => true
  end.

(** ** ATT&CK tags *)

Definition parse_technique_tag (tag : string) : option string :=
  rest ← strip_prefix "attack.t" tag;
  hd ← head (split "." rest);
  if forallb is_ascii_digit (chars hd) then Some (to_uppercase ("T" +:+ rest)) else None.

Definition parse_tactic_tag (tag : string) : option Tactic.t :=
  rest ← strip_prefix "attack." tag;
  if bool_decide (rest = "reconnaissance") then Some Tactic.Reconnaissance
  else if bool_decide (rest = "resource_development") then Some Tactic.ResourceDevelopment
  else if bool_decide (rest = "initial_access") then Some Tactic.InitialAccess
  else if bool_decide (rest = "execution") then Some Tactic.Execution
  else if bool_decide (rest = "persistence") then Some Tactic.Persistence
  else if bool_decide (rest = "privilege_escalation") then Some Tactic.PrivilegeEscalation
  else if bool_decide (rest = "defense_evasion") then Some Tactic.DefenseEvasion
  else if bool_decide (rest = "credential_access") then Some Tactic.CredentialAccess
  else if bool_decide (rest = "discovery") then Some Tactic.Discovery
  else if bool_decide (rest = "lateral_movement") then Some Tactic.LateralMovement
  else if bool_decide (rest = "collection") then Some Tactic.Collection
  else if bool_decide (rest = "command_and_control") then Some Tactic.CommandAndControl
  else if bool_decide (rest = "exfiltration") then Some Tactic.Exfiltration
  else if bool_decide (rest = "impact") then Some Tactic.Impact
  else None.

(** The first tactic tag, else Reconnaissance, on every technique tag. *)
Definition parse_attack_tags (tags : list string) : list TechniqueRef :=
  let tactic := default Tactic.Reconnaissance (head (omap parse_tactic_tag tags)) in
  (fun id => mkTechniqueRef id "(from rule tag)" tactic) <$> omap parse_technique_tag tags.

(** ** Findings *)

Definition FINDING_CREATE : Z := 1.

Definition build_finding (st : Stamp) (rule : CompiledRule) (triggering : Event)
    (host_tag : string) (seq : Z) (group_key : option string) : Event :=
  let message :=
    match group_key with
    | Some k => cr_title rule +:+ " (group=" +:+ k +:+ ")"
    | None => cr_title rule
    end in
  let ev := with_message message
    (event_new st DETECTION_FINDING FINDING_CREATE (to_severity (cr_level rule)) host_tag
      ("selfdef.correlator." +:+ cr_id rule) seq) in
  let raw := JObject [
    ("rule_id", JString (cr_id rule)); ("rule_title", JString (cr_title rule));
    ("rule_path", JString (path_display (cr_source_path rule)));
    ("trigger_id", JString (uuid_to_string (ev_id triggering)));
    ("group_key", match group_key with Some k => JString k | None => JNull end);
    ("tags", JArray (JString <$> cr_tags rule));
    ("references", JArray (JString <$> cr_references rule))] in
  let ev := with_raw raw ev in
  let ev := match ev_src_endpoint triggering with
            | Some src => with_src_endpoint src ev
            | None => ev
            end in
  let ev := foldl (fun ev technique => with_attack technique ev) ev
              (parse_attack_tags (cr_tags rule)) in
  if ev_federated triggering then
    let ev := with_federated true ev in
    if ev_federation_verified triggering then with_federation_verified true ev else ev
  else ev.

(** ** Engine *)

(** What one rule reads off the clocks while an event is processed. *)
Record Tick := mkTick {
  tk_instant : Z;
  tk_stamp : Stamp;
}.

Definition set_aggregator (agg : Aggregator) (r : CompiledRule) : CompiledRule :=
  {| cr_id := cr_id r; cr_title := cr_title r; cr_description := cr_description r;
     cr_level := cr_level r; cr_tags := cr_tags r; cr_references := cr_references r;
     cr_author := cr_author r; cr_falsepositives := cr_falsepositives r;
     cr_logsource := cr_logsource r; cr_source_path := cr_source_path r;
     cr_matchers := cr_matchers r; cr_condition := cr_condition r;
     cr_timeframe := cr_timeframe r; cr_aggregator := Some agg |}.

(** The group key of an event: the string at the field, the JSON text of any
    other value, the empty string when the field is absent. *)
Definition group_key_of (event_json : json) (field : string) : string :=
  match extract event_json field with
  | Some v => match json_as_str v with Some s => s | None => json_to_string v end
  | None => ""
  end.

(** One iteration of the loop of [Engine::process]: the finding, if any, the
    rule with its aggregator updated, and the sequence counter. *)
Definition process_rule (event_json : json) (event : Event) (host_tag : string) (tick : Tick)
    (rule : CompiledRule) (sequence : Z) : option Event * CompiledRule * Z :=
  if negb (logsource_matches (cr_logsource rule) event) then (None, rule, sequence)
  else
    match cr_matchers rule !! condition_selection (cr_condition rule) with
    | None => (None, rule, sequence)
    | Some matcher =>
        if negb (selection_matches matcher event_json) then (None, rule, sequence)
        else
          match cr_condition rule, cr_aggregator rule with
          | Single _, _ =>
              (Some (build_finding (tk_stamp tick) rule event host_tag sequence None), rule,
               wrapping_add_u64 sequence 1)
          | Count _ field _, Some agg =>
              let '(fired, agg) := observe (group_key_of event_json field) (tk_instant tick) agg in
              match fired with
              | Some k =>
                  (Some (build_finding (tk_stamp tick) rule event host_tag sequence (Some k)),
                   set_aggregator agg rule, wrapping_add_u64 sequence 1)
              | None => (None, set_aggregator agg rule, sequence)
              end
          | Count _ _ _, None => (None, rule, sequence)
          end
    end.

Fixpoint process_rules (event_json : json) (event : Event) (host_tag : string)
    (ticks : nat -> Tick) (i : nat) (rules : list CompiledRule) (sequence : Z) :
    list Event * list CompiledRule * Z :=
  match rules with
  | [] => ([], [], sequence)
  | rule :: rules =>
      let '(finding, rule, sequence) :=
        process_rule event_json event host_tag (ticks i) rule sequence in
      let '(findings, rules, sequence) :=
        process_rules event_json event host_tag ticks (S i) rules sequence in
      (option_list finding ++ findings, rule :: rules, sequence)
  end.

(** [Engine::process]: an event that does not serialize yields nothing. *)
Definition engine_process (rules : list CompiledRule) (event : Event) (host_tag : string)
    (sequence : Z) (ticks : nat -> Tick) : list Event * list CompiledRule * Z :=
  match event_to_json event with
  | None => ([], rules, sequence)
  | Some event_json => process_rules event_json event host_tag ticks 0 rules sequence
  end.
End engine.
