(* ===== verification/SigmaParse.v ===== *)
(** * The text parsers of the Sigma engine: round trips and failure modes

    Properties of [parse_duration] and [parse_condition] of
    crates/selfdef-correlator/src/sigma.rs, as modelled in Sigma. *)

From S2P Require Import Prelude Core Aggregator Sigma.
From stdpp Require Import options.

(** ** Bytes *)

Lemma digit_byte_ascii a : digit_byte a = true -> is_ascii a = true /\ ws_byte a = false.
Proof. destruct a as [[] [] [] [] [] [] [] []]; done. Qed.

Lemma show_uint_ascii n : (0 <= n)%Z -> all_bytes is_ascii (show_uint n) = true.
Proof.
  intros Hn. eapply all_bytes_impl; [|by apply show_uint_all].
  intros a Ha. by apply digit_byte_ascii.
Qed.

Lemma show_uint_first n a t : (0 <= n)%Z -> show_uint n = String a t -> ws_byte a = false.
Proof.
  intros Hn E. assert (Ha := show_uint_all n Hn). rewrite E in Ha. simpl in Ha.
  apply andb_true_iff in Ha as [Ha _]. by apply digit_byte_ascii.
Qed.

Lemma show_uint_trimmed n : (0 <= n)%Z -> trimmed_ascii (show_uint n).
Proof.
  intros Hn. split_and!; [by apply show_uint_ascii|intros a t; by apply show_uint_first|].
  intros b t E. assert (Ha := show_uint_all n Hn). rewrite E, all_bytes_app in Ha. simpl in Ha.
  rewrite !andb_true_iff in Ha. apply digit_byte_ascii. naive_solver.
Qed.

(** The units of a timeframe are single ASCII letters. *)
Lemma unit_mult_inv unit mult :
  unit_mult unit = Some mult ->
  (exists a, unit = String a "" /\ is_ascii a = true /\ ws_byte a = false) /\
  (1 <= mult <= 86400)%Z.
Proof.
  unfold unit_mult. intros H.
  repeat (case_bool_decide; [subst; simplify_eq; split; [eexists; by split_and!|lia]|]). done.
Qed.

(** ** Properties *)

(** A timeframe written as a number and a unit means that many seconds,
    minutes, hours or days, whenever the product fits a [u64]. *)
Theorem parse_duration_roundtrip (n : Z) (unit : string) (mult : Z) :
  (0 <= n)%Z -> unit_mult unit = Some mult -> (n * mult <= u64_max)%Z ->
  parse_duration (show_uint n +:+ unit) = Ok (from_secs (n * mult)).
Proof.
  intros Hn Hu Hmax. destruct (unit_mult_inv _ _ Hu) as [(a & -> & Ha & Hw) Hm].
  assert (Hs := show_uint_trimmed n Hn). destruct (show_uint_cons n) as (a0 & t0 & E0).
  unfold parse_duration. rewrite trim_trimmed_ascii.
  2: { split_and!.
       - rewrite all_bytes_app, show_uint_ascii by done. simpl. by rewrite Ha.
       - intros b t. rewrite E0, str_cons_app. intros; simplify_eq. by eapply (show_uint_first n).
       - intros b t E%str_snoc_inj. naive_solver. }
  rewrite chars_app_ascii, chars_cons_ascii by (done || by apply show_uint_ascii).
  change (chars "") with (@nil string). rewrite last_snoc. simpl result_bind.
  rewrite length_app, Nat.add_sub, take_app_length, chars_concat. simpl length.
  rewrite bool_decide_false by (by rewrite E0). rewrite parse_show_uint by nia. simpl.
  rewrite Hu. simpl. unfold checked_mul_u64. rewrite (proj2 (Z.leb_le _ _)) by done. done.
Qed.

Lemma parse_duration_roundtrip_witness :
  parse_duration (show_uint 5 +:+ "m") = Ok (from_secs (5 * 60)).
Proof. apply (parse_duration_roundtrip 5 "m" 60); by vm_compute. Defined.

(** [parse_duration] is total on every input: it returns a duration of at
    most [u64::MAX] seconds or the [InvalidTimeframe] error with the trimmed
    text, and it never returns a wrapped product. *)
Theorem parse_duration_total (s : string) :
  (exists n mult, parse_duration s = Ok (from_secs (n * mult)) /\
     (0 <= n /\ 1 <= mult <= 86400 /\ n * mult <= u64_max)%Z /\
     unit_mult (default "" (last (chars (trim s)))) = Some mult)
  \/ parse_duration s = Err (InvalidTimeframe (trim s)).
Proof.
  unfold parse_duration. destruct (last (chars (trim s))) as [unit|]; [|by right]. simpl.
  case_bool_decide; [by right|].
  destruct (parse_uint u64_max _) as [n|] eqn:En; [|by right]. simpl.
  destruct (unit_mult unit) as [mult|] eqn:Eu; [|by right]. simpl.
  unfold checked_mul_u64. destruct (Z.leb_spec (n * mult) u64_max); [|by right]. simpl.
  left. exists n, mult. apply parse_uint_bounds in En. apply unit_mult_inv in Eu as [_ ?].
  split_and!; [done|lia..|done].
Qed.

(** The separators of a condition do not occur in a name. *)
Definition name_byte (a : ascii) : bool :=
  negb (bool_decide (a = "|"%char)) && negb (bool_decide (a = ">"%char)).

Definition good_name (s : string) : Prop :=
  trimmed_ascii s /\ all_bytes name_byte s = true /\ s <> "".

Lemma name_no_bar s : all_bytes name_byte s = true ->
  all_bytes (fun a => negb (bool_decide (a = "|"%char))) s = true.
Proof. apply all_bytes_impl. intros a [? _]%andb_true_iff. done. Qed.

Lemma name_no_gt s : all_bytes name_byte s = true ->
  all_bytes (fun a => negb (bool_decide (a = ">"%char))) s = true.
Proof. apply all_bytes_impl. intros a [_ ?]%andb_true_iff. done. Qed.

Lemma trimmed_wrap s m t :
  trimmed_ascii s -> s <> "" -> all_bytes is_ascii m = true -> trimmed_ascii t -> t <> "" ->
  trimmed_ascii (s +:+ (m +:+ t)).
Proof.
  intros (Hs & Hs1 & _) Hne Hm (Ht & _ & Ht1) Hne'. split_and!.
  - by rewrite !all_bytes_app, Hs, Hm, Ht.
  - destruct s as [|a s]; [done|]. intros b u. rewrite str_cons_app. intros; simplify_eq.
    by eapply Hs1.
  - destruct (str_snoc_inv t) as [->|(u & b & ->)]; [done|]. intros c v.
    rewrite <-!str_app_assoc. intros [_ <-]%str_snoc_inj. by eapply Ht1.
Qed.

(** The text of a count condition. *)
Definition count_text (selection field : string) (threshold : Z) : string :=
  selection +:+ (" | count() by " +:+ (field +:+ (" > " +:+ show_uint threshold))).

(** A count condition written out in the documented form parses back to its
    selection, its group-by field and its threshold. *)
Theorem parse_count_roundtrip `{UnicodeTables} (selection field : string) (threshold : Z) :
  good_name selection -> good_name field -> (0 <= threshold <= u32_max)%Z ->
  parse_condition (count_text selection field threshold)
  = Some (Count selection field threshold, Some field).
Proof.
  intros (Hs & Hsb & Hsn) (Hf & Hfb & Hfn) Ht.
  assert (Hn := show_uint_trimmed threshold ltac:(lia)).
  assert (Hne : show_uint threshold <> "")
    by (destruct (show_uint_cons threshold) as (? & ? & ->); done).
  assert (Hrest := trimmed_wrap field " > " (show_uint threshold) Hf Hfn eq_refl Hn Hne).
  assert (Hrne : field +:+ (" > " +:+ show_uint threshold) <> "") by (by destruct field).
  unfold parse_condition, count_text.
  rewrite trim_trimmed_ascii by (apply trimmed_wrap; done).
  change (" | count() by " +:+ ?x) with (String " " (String "|" (" count() by " +:+ x))).
  rewrite (str_app_String selection " "), split_once_app.
  2: { rewrite all_bytes_app. by rewrite (name_no_bar _ Hsb). }
  rewrite trim_blank_r by done.
  change (" count() by " +:+ ?x) with (" " +:+ ("count() by " +:+ x)).
  rewrite trim_blank_l.
  2: { change ("count() by " +:+ ?x) with ("count()" +:+ (" by " +:+ x)).
       apply trimmed_wrap; [|done..]. split_and!; [done|intros ?? [=]; by subst|].
       intros b t E. change "count()" with ("count(" +:+ ")") in E. by apply str_snoc_inj in E as [_ <-]. }
  rewrite (proj2 (strip_prefix_Some "count() by " _ _) eq_refl). simpl.
  change (" > " +:+ ?x) with (String " " (String ">" (" " +:+ x))).
  rewrite (str_app_String field " "), split_once_app.
  2: { rewrite all_bytes_app. by rewrite (name_no_gt _ Hfb). }
  simpl. rewrite trim_blank_r, trim_blank_l by done.
  rewrite parse_show_uint by lia. done.
Qed.

#[local] Instance ascii_only : UnicodeTables :=
  {| uc_alphanumeric := fun _ => false; uc_uppercase := fun c => c; uc_debug_plain := fun _ => true |}.

(** A checkable form of [good_name]. *)
Lemma good_name_check t b a u :
  t +:+ String b "" = String a u ->
  all_bytes is_ascii (t +:+ String b "") && negb (ws_byte a) && negb (ws_byte b)
  && all_bytes name_byte (t +:+ String b "") = true ->
  good_name (t +:+ String b "").
Proof.
  intros E. rewrite !andb_true_iff, !negb_true_iff. intros [[[? ?] ?] ?].
  split; [split_and!|split; [done|by rewrite E]]; [done| |].
  - intros c v. rewrite E. intros; by simplify_eq.
  - by intros c v [_ <-]%str_snoc_inj.
Qed.

Lemma parse_count_roundtrip_witness :
  parse_condition (count_text "failed_logins" "src_endpoint.ip" 5)
  = Some (Count "failed_logins" "src_endpoint.ip" 5, Some "src_endpoint.ip").
Proof.
  apply parse_count_roundtrip; [| |by vm_compute].
  - by apply (good_name_check "failed_login" "s" "f" "ailed_logins").
  - by apply (good_name_check "src_endpoint.i" "p" "s" "rc_endpoint.ip").
Defined.
