(* ===== verification/SigmaEngine.v ===== *)
(** * Properties of rule compilation, matching and the engine

    Theorems about [compile_rule], [matches_json], [build_finding] and
    [Engine::process] of crates/selfdef-correlator/src/sigma.rs as modelled in
    Sigma, and the composition of a count rule with the aggregator's
    sliding-window specification. *)

From S2P Require Import Prelude Core Aggregator Signing Sigma.
From stdpp Require Import options.

(** Concrete third-party parts, for evaluating examples: literal patterns
    instead of regular expressions. *)
Module DemoLibs.
#[export] Instance rule_libs : RuleLibs := {|
  regex := string;
  regex_new := fun p => Ok p;
  regex_is_match := fun p s => contains s p;
  yaml_debug := fun _ => "yaml";
|}.
#[export] Instance unicode_tables : UnicodeTables :=
  {| uc_alphanumeric := fun _ => false; uc_uppercase := fun c => c; uc_debug_plain := fun _ => true |}.
End DemoLibs.

Section engine_facts.
Context `{RuleLibs} `{UnicodeTables} `{WireFormat}.
Implicit Types (r : CompiledRule) (e : Event) (j : json).

(** ** Well-formed compiled rules *)

(** The named selection is there, and a count condition has an aggregator
    with the condition's threshold and the rule's timeframe. *)
Definition rule_wf r : Prop :=
  is_Some (cr_matchers r !! condition_selection (cr_condition r)) /\
  match cr_condition r with
  | Single _ => True
  | Count _ _ th => (0 <= th <= u32_max)%Z /\
      exists agg, cr_aggregator r = Some agg /\ agg_threshold agg = th /\
                  cr_timeframe r = Some (agg_window agg)
  end.

Lemma compile_selections_keep id sels m m' name :
  compile_selections id sels m = Ok m' -> is_Some (m !! name) -> is_Some (m' !! name).
Proof.
  revert m. induction sels as [|[n v] sels IH]; intros m Hc Hm; simplify_eq/=; [done|].
  destruct (compile_selection n v) as [mt|]; simplify_eq/=. eapply IH; [done|].
  destruct (decide (n = name)) as [->|]; [rewrite lookup_insert_eq; eauto|].
  by rewrite lookup_insert_ne.
Qed.

Lemma compile_selections_lookup id sels m m' name :
  compile_selections id sels m = Ok m' -> is_Some (assoc name sels) -> is_Some (m' !! name).
Proof.
  revert m. induction sels as [|[n v] sels IH]; intros m Hc Hs; simplify_eq/=; [by destruct Hs|].
  destruct (compile_selection n v) as [mt|]; simplify_eq/=.
  case_bool_decide; [subst|by eapply IH].
  eapply compile_selections_keep; [done|]. rewrite lookup_insert_eq. eauto.
Qed.

Lemma parse_condition_threshold s sel field th g :
  parse_condition s = Some (Count sel field th, g) -> (0 <= th <= u32_max)%Z.
Proof.
  unfold parse_condition. destruct (split_once _ _) as [[l rr]|]; [|by case_match].
  intros Hp. apply bind_Some in Hp as (rest & _ & Hp).
  apply bind_Some in Hp as ([fp np] & _ & Hp). apply bind_Some in Hp as (t & Ht & Hp).
  simplify_eq. by apply parse_uint_bounds in Ht.
Qed.

Lemma compile_rule_inv raw p r :
  compile_rule raw p = Ok r ->
  exists group_by, parse_condition (rd_condition (rr_detection raw)) = Some (cr_condition r, group_by) /\
  is_Some (assoc (condition_selection (cr_condition r)) (rd_selections (rr_detection raw))) /\
  compile_selections (rr_id raw) (rd_selections (rr_detection raw)) ∅ = Ok (cr_matchers r) /\
  match cr_condition r with
  | Single _ => True
  | Count _ _ th => exists d, cr_timeframe r = Some d /\ cr_aggregator r = Some (aggregator_new th d)
  end /\ cr_id r = rr_id raw /\ cr_level r = rr_level raw.
Proof.
  unfold compile_rule. destruct (parse_condition _) as [[cond gb]|]; [|done]. simpl.
  case_bool_decide; [|done]. simpl.
  destruct (compile_selections _ _ _) as [m|]; [|done]. simpl. intros Hc. exists gb.
  destruct (rd_timeframe _) as [s|]; simpl in Hc;
    [destruct (parse_duration s) as [d|]; simpl in Hc; [|done]|];
    destruct cond as [sel|sel field th]; simpl in Hc; try (destruct gb); simplify_eq/=; eauto 12.
Qed.

Lemma compile_rule_wf_lemma raw p r : compile_rule raw p = Ok r -> rule_wf r.
Proof.
  intros (gb & Hp & Hs & Hm & Hc & _)%compile_rule_inv. split.
  - by eapply compile_selections_lookup.
  - destruct (cr_condition r) as [|sel field th]; [done|]. destruct Hc as (d & Hd & Ha).
    split; [by eapply parse_condition_threshold|]. eexists. split_and!; [done..|]. done.
Qed.

(** ** Rules as the loop sees them *)

(** The guards of the loop body, before aggregation. *)
Definition rule_selects r e j : bool :=
  logsource_matches (cr_logsource r) e &&
  match cr_matchers r !! condition_selection (cr_condition r) with
  | Some m => selection_matches m j
  | None => false
  end.

Lemma process_rule_unselected j e host tick r seq :
  rule_selects r e j = false -> process_rule j e host tick r seq = (None, r, seq).
Proof.
  unfold rule_selects, process_rule. destruct (logsource_matches _ _); [|done]. simpl.
  destruct (_ !! _) as [m|]; [|done]. by intros ->.
Qed.

Lemma process_rule_selected j e host tick r seq :
  rule_selects r e j = true ->
  process_rule j e host tick r seq =
    match cr_condition r, cr_aggregator r with
    | Single _, _ =>
        (Some (build_finding (tk_stamp tick) r e host seq None), r, wrapping_add_u64 seq 1)
    | Count _ field _, Some agg =>
        let '(fired, agg) := observe (group_key_of j field) (tk_instant tick) agg in
        match fired with
        | Some k => (Some (build_finding (tk_stamp tick) r e host seq (Some k)),
                     set_aggregator agg r, wrapping_add_u64 seq 1)
        | None => (None, set_aggregator agg r, seq)
        end
    | Count _ _ _, None => (None, r, seq)
    end.
Proof.
  unfold rule_selects, process_rule. destruct (logsource_matches _ _); [|done]. simpl.
  destruct (_ !! _) as [m|]; [|done]. by intros ->.
Qed.

(** A processed rule keeps everything but its aggregator's state. *)
Lemma process_rule_frame j e host tick r seq :
  let r' := (process_rule j e host tick r seq).1.2 in
  cr_condition r' = cr_condition r /\ cr_matchers r' = cr_matchers r /\
  cr_logsource r' = cr_logsource r /\ cr_timeframe r' = cr_timeframe r.
Proof.
  destruct (rule_selects r e j) eqn:E;
    [rewrite process_rule_selected by done|by rewrite process_rule_unselected].
  destruct (cr_condition r) eqn:Ec; [done|]. destruct (cr_aggregator r) as [agg|]; [|done].
  destruct (observe _ _ agg) as [[k|] agg']; simpl; by rewrite ?Ec.
Qed.

Lemma rule_selects_frame j e host tick r seq e' j' :
  rule_selects (process_rule j e host tick r seq).1.2 e' j' = rule_selects r e' j'.
Proof.
  destruct (process_rule_frame j e host tick r seq) as (Hc & Hm & Hl & _).
  unfold rule_selects. by rewrite Hc, Hm, Hl.
Qed.

Lemma process_rule_wf j e host tick r seq :
  rule_wf r -> rule_wf (process_rule j e host tick r seq).1.2.
Proof.
  intros [Hs Ha]. destruct (process_rule_frame j e host tick r seq) as (Hc & Hm & Hl & Ht).
  split; [by rewrite Hm, Hc|]. rewrite Hc, Ht.
  destruct (cr_condition r) as [|sel field th] eqn:Ec; [done|].
  destruct Ha as (Hth & agg & Hagg & <- & Hw). split; [done|].
  destruct (rule_selects r e j) eqn:E; [|rewrite process_rule_unselected by done; eauto].
  rewrite process_rule_selected, Ec, Hagg by done.
  assert (Hf : agg_threshold (observe (group_key_of j field) (tk_instant tick) agg).2 = agg_threshold agg)
    by (unfold observe; by case_match).
  assert (Hg := observe_window (group_key_of j field) (tk_instant tick) agg).
  destruct (observe _ _ agg) as [[k|] agg']; simpl in *; eexists; rewrite Hw, Hf, Hg; done.
Qed.

(** ** A count rule over a stream of events *)

(** The loop body over consecutive events, with the rule state threaded. *)
Fixpoint run_rule (host : string) (stream : list (json * Event * Tick)) r (seq : Z) :
    list (option Event) :=
  match stream with
  | [] => []
  | (j, e, tick) :: stream =>
      let '(f, r, seq) := process_rule j e host tick r seq in
      f :: run_rule host stream r seq
  end.

(** The specification: only selected events count, and each one is judged by
    the sliding-window count of its group. *)
Fixpoint count_spec r (th w : Z) (field : string) (stream : list (json * Event * Tick))
    (h : gmap string (list Z)) : list (option string) :=
  match stream with
  | [] => []
  | (j, e, tick) :: stream =>
      if rule_selects r e j then
        let '(v, h) := spec_observe th w (group_key_of j field) (tk_instant tick) h in
        v :: count_spec r th w field stream h
      else None :: count_spec r th w field stream h
  end.

Fixpoint instants_from (t : Z) (stream : list (json * Event * Tick)) : Prop :=
  match stream with
  | [] => True
  | (_, _, tick) :: stream => (t <= tk_instant tick)%Z /\ instants_from (tk_instant tick) stream
  end.

Definition fired {A} (o : option A) : bool := match o with Some _ => true | None => false end.

Lemma count_spec_ext r r' th w field stream h :
  (forall e j, rule_selects r' e j = rule_selects r e j) ->
  count_spec r' th w field stream h = count_spec r th w field stream h.
Proof.
  intros Hr. revert h. induction stream as [|[[j e] tick] stream IH]; intros h; simpl; [done|].
  rewrite Hr. case_match; [|by f_equal]. destruct (spec_observe _ _ _ _ h). by f_equal.
Qed.

Lemma run_rule_sim host stream r seq sel field th w t agg h :
  (0 <= th < u32_max)%Z -> cr_condition r = Count sel field th ->
  cr_aggregator r = Some agg -> agg_threshold agg = th -> agg_window agg = w ->
  instants_from t stream -> agg_sim th w t (agg_groups (agg_state agg)) h ->
  fired <$> run_rule host stream r seq = fired <$> count_spec r th w field stream h.
Proof.
  intros Hth. revert r seq t agg h.
  induction stream as [|[[j e] tick] stream IH]; intros r seq t agg h Hc Ha Ht Hw Hi Hs; [done|].
  destruct Hi as [Hti Hi]. simpl.
  assert (Hsel := fun e' j' => rule_selects_frame j e host tick r seq e' j').
  destruct (process_rule_frame j e host tick r seq) as (Hfc & _).
  destruct (rule_selects r e j) eqn:E.
  - destruct (observe_sim th w t (tk_instant tick) (group_key_of j field) agg h)
      as (Hv & Hs' & Ht' & Hw'); [done..|].
    rewrite process_rule_selected, Hc, Ha in * by done.
    destruct (observe _ _ agg) as [[k|] agg'], (spec_observe _ _ _ _ h) as [v h'];
      simpl in *; subst v; f_equal;
      rewrite <-(count_spec_ext _ _ _ _ _ _ _ Hsel); by eapply IH.
  - rewrite process_rule_unselected by done. simpl. f_equal. eapply IH; [done..| |done].
    destruct stream as [|[[j1 e1] tk1] stream]; simpl in *; [done|intuition lia].
Qed.

(** ** Findings *)

Lemma foldl_with_attack_frame {B} (P : Event -> B) (l : list TechniqueRef) e :
  (forall t e, P (with_attack t e) = P e) -> P (foldl (fun ev t => with_attack t ev) e l) = P e.
Proof. intros HP. revert e. induction l as [|t l IH]; intros e; simpl; [done|]. by rewrite IH, HP. Qed.

Lemma foldl_with_attack l e : ev_attack (foldl (fun ev t => with_attack t ev) e l) = ev_attack e ++ l.
Proof.
  revert e. induction l as [|t l IH]; intros e; simpl; [by rewrite app_nil_r|].
  rewrite IH. destruct e. simpl. by rewrite <-app_assoc.
Qed.

(** What a finding carries. *)
Definition finding_of r (trigger : Event) (host : string) (seq : Z) (f : Event) : Prop :=
  ev_category_uid f = CategoryUid.Findings /\ ev_class_uid f = DETECTION_FINDING /\
  ev_severity_id f = to_severity (cr_level r) /\ ev_host_tag f = host /\
  ev_source f = "selfdef.correlator." +:+ cr_id r /\
  ev_src_endpoint f = ev_src_endpoint trigger /\
  ev_attack f = parse_attack_tags (cr_tags r) /\
  m_sequence (ev_metadata f) = seq /\
  ev_federated f = ev_federated trigger /\
  ev_federation_verified f = ev_federated trigger && ev_federation_verified trigger /\
  (host <> "" -> validate f = Ok tt).

Lemma build_finding_spec st r e host seq key : finding_of r e host seq (build_finding st r e host seq key).
Proof.
  unfold build_finding. set (ev0 := with_message _ _). set (raw := JObject _).
  set (ev1 := match ev_src_endpoint e with Some src => _ | None => _ end).
  set (ev2 := foldl _ ev1 _).
  assert (H2 : forall B (P : Event -> B), (forall t e, P (with_attack t e) = P e) -> P ev2 = P ev1)
    by (intros; by apply foldl_with_attack_frame).
  assert (Hatt : ev_attack ev2 = parse_attack_tags (cr_tags r)).
  { unfold ev2. rewrite foldl_with_attack. unfold ev1. by destruct (ev_src_endpoint e). }
  assert (Hsrc : ev_src_endpoint ev2 = ev_src_endpoint e).
  { rewrite H2 by (by intros ? []). unfold ev1. by destruct (ev_src_endpoint e). }
  assert (Hval : host <> "" -> validate ev2 = Ok tt).
  { intros Hh. rewrite H2 by (by intros ? []). unfold ev1, validate.
    destruct (ev_src_endpoint e); simpl; rewrite !bool_decide_false by done; done. }
  assert (Hrest : (ev_category_uid ev2, ev_class_uid ev2, ev_severity_id ev2, ev_host_tag ev2,
      ev_source ev2, m_sequence (ev_metadata ev2), ev_federated ev2, ev_federation_verified ev2)
    = (CategoryUid.Findings, DETECTION_FINDING, to_severity (cr_level r), host,
       "selfdef.correlator." +:+ cr_id r, seq, false, false)).
  { rewrite (H2 _ ev_category_uid), (H2 _ ev_class_uid), (H2 _ ev_severity_id), (H2 _ ev_host_tag),
      (H2 _ ev_source), (H2 _ ev_metadata), (H2 _ ev_federated), (H2 _ ev_federation_verified)
      by (by intros ? []). unfold ev1. by destruct (ev_src_endpoint e). }
  clearbody ev2. clear H2 ev1. destruct ev2. simpl in *. simplify_eq.
  unfold finding_of, validate in *.
  destruct (ev_federated e), (ev_federation_verified e); simpl; by split_and!.
Qed.

Lemma process_rule_finding j e host tick r seq f :
  (process_rule j e host tick r seq).1.1 = Some f -> finding_of r e host seq f.
Proof.
  destruct (rule_selects r e j) eqn:E;
    [rewrite process_rule_selected by done|by rewrite process_rule_unselected].
  destruct (cr_condition r) as [|sel field th].
  - intros; simplify_eq/=. apply build_finding_spec.
  - destruct (cr_aggregator r) as [agg|]; [|done].
    destruct (observe _ _ agg) as [[k|] agg']; simpl; [|done].
    intros; simplify_eq/=. apply build_finding_spec.
Qed.

Lemma process_rule_seq j e host tick r seq :
  (process_rule j e host tick r seq).2 =
    match (process_rule j e host tick r seq).1.1 with
    | Some _ => wrapping_add_u64 seq 1
    | None => seq
    end.
Proof.
  destruct (rule_selects r e j) eqn:E;
    [rewrite process_rule_selected by done|by rewrite process_rule_unselected].
  destruct (cr_condition r); [done|]. destruct (cr_aggregator r) as [agg|]; [|done].
  by destruct (observe _ _ agg) as [[k|] agg'].
Qed.

(** Findings come out in rule order, numbered consecutively. *)
Lemma process_rules_spec j e host ticks i rules seq n :
  seq = (n `mod` 2 ^ 64)%Z ->
  let '(fs, rules', seq') := process_rules j e host ticks i rules seq in
  seq' = ((n + Z.of_nat (length fs)) `mod` 2 ^ 64)%Z /\
  (forall k f, fs !! k = Some f ->
     exists r, r ∈ rules /\ finding_of r e host ((n + Z.of_nat k) `mod` 2 ^ 64)%Z f) /\
  Forall2 (fun r r' => cr_condition r' = cr_condition r /\ (rule_wf r -> rule_wf r')) rules rules'.
Proof.
  revert i seq n. induction rules as [|r rules IH]; intros i seq n Hseq; simpl.
  - split_and!; [by rewrite Z.add_0_r|done|constructor].
  - assert (Hf := process_rule_finding j e host (ticks i) r seq).
    assert (Hs := process_rule_seq j e host (ticks i) r seq).
    assert (Hw := process_rule_wf j e host (ticks i) r seq).
    destruct (process_rule_frame j e host (ticks i) r seq) as (Hc & _).
    destruct (process_rule j e host (ticks i) r seq) as [[f r'] seq1]. simpl in *.
    specialize (IH (S i) seq1 (n + Z.of_nat (length (option_list f)))%Z).
    destruct (process_rules j e host ticks (S i) rules seq1) as [[fs rules'] seq2].
    destruct IH as (Hs2 & Hfs & Hr).
    { rewrite Hs. destruct f; simpl; [|by rewrite Z.add_0_r]. subst.
      unfold wrapping_add_u64. by rewrite Z.add_mod_idemp_l by lia. }
    split_and!; [|intros k g|by constructor].
    + rewrite Hs2, length_app. f_equal. lia.
    + destruct f as [f|]; simpl.
      * destruct k as [|k]; simpl; intros Hk; simplify_eq.
        -- exists r. split; [by constructor|]. rewrite Z.add_0_r. by apply Hf.
        -- destruct (Hfs k g Hk) as (r0 & ? & Hg). exists r0. split; [by constructor|].
           simpl in Hg. by rewrite <-Z.add_assoc, Z.add_1_l, <-Nat2Z.inj_succ in Hg.
      * intros Hk. destruct (Hfs k g Hk) as (r0 & ? & Hg). exists r0.
        split; [by constructor|]. simpl in Hg. by rewrite Z.add_0_r in Hg.
Qed.
Lemma engine_process_spec rules e host seq ticks :
  (0 <= seq <= u64_max)%Z -> Forall rule_wf rules ->
  let '(findings, rules', seq') := engine_process rules e host seq ticks in
  seq' = ((seq + Z.of_nat (length findings)) `mod` 2 ^ 64)%Z /\
  Forall rule_wf rules' /\
  forall i f, findings !! i = Some f ->
    exists r, r ∈ rules /\ finding_of r e host ((seq + Z.of_nat i) `mod` 2 ^ 64)%Z f.
Proof.
  intros Hseq Hwf. unfold engine_process, u64_max in *. destruct (event_to_json e) as [j|].
  - assert (Hs := process_rules_spec j e host ticks 0 rules seq seq).
    destruct (process_rules _ _ _ _ _ _ _) as [[fs rules'] seq'].
    destruct Hs as (Hs & Hf & Hr); [rewrite Z.mod_small; lia|].
    split_and!; [done| |done].
    clear -Hr Hwf. induction Hr as [|r r' rs rs' [_ Hx] _ IH]; [done|].
    inv Hwf. constructor; auto.
  - split_and!; [|done|done]. simpl. rewrite Z.add_0_r, Z.mod_small; lia.
Qed.

Lemma engine_process_length rules e host seq ticks :
  length (engine_process rules e host seq ticks).1.1 <= length rules.
Proof.
  unfold engine_process. destruct (event_to_json e) as [j|]; [|simpl; lia].
  generalize 0 as i. revert seq. induction rules as [|r rules IH]; intros seq i; [done|]. simpl.
  destruct (process_rule _ _ _ _ _ _) as [[f r'] s]. specialize (IH s (S i)).
  destruct (process_rules _ _ _ _ _ _ s) as [[fs rs] s']. simpl in *.
  rewrite length_app. destruct f; simpl; lia.
Qed.

Lemma engine_process_category rules e host seq ticks :
  Forall (fun f => ev_category_uid f = CategoryUid.Findings)
    (engine_process rules e host seq ticks).1.1.
Proof.
  unfold engine_process. destruct (event_to_json e) as [j|]; [|constructor].
  generalize 0 as i. revert seq. induction rules as [|r rules IH]; intros seq i; [constructor|]. simpl.
  pose proof (process_rule_finding j e host (ticks i) r seq) as Hf.
  destruct (process_rule _ _ _ _ _ _) as [[f r'] s]. simpl in Hf. specialize (IH s (S i)).
  destruct (process_rules _ _ _ _ _ _ s) as [[fs rs] s']. simpl in *.
  apply Forall_app. split; [|done]. destruct f as [f|]; constructor; [|constructor].
  by destruct (Hf f eq_refl).
Qed.
(** ** The engine over a stream of events *)

(** What the loop over the rules decides, said without queues: each rule, in the
    order of the rules, fires on an event it selects when it has no count, and else
    when its group has strictly more than the threshold of observations in the
    timeframe, by the complete history of the group. *)
Definition History := gmap string (list Z).

Definition spec_rule r e j (tick : Tick) (h : History) : option (option string) * History :=
  if rule_selects r e j then
    match cr_condition r with
    | Single _ => (Some None, h)
    | Count _ field th =>
        let '(v, h) := spec_observe th (default 0%Z (cr_timeframe r)) (group_key_of j field) (tk_instant tick) h in
        (Some <$> v, h)
    end
  else (None, h).

(** A finding that is due: the rule and the group that crossed its threshold. *)
Definition Due : Type := CompiledRule * option string.

Fixpoint spec_rules e j (ticks : nat -> Tick) (i : nat) (rhs : list (CompiledRule * History)) :
    list Due * list (CompiledRule * History) :=
  match rhs with
  | [] => ([], [])
  | (r, h) :: rhs =>
      let '(v, h) := spec_rule r e j (ticks i) h in
      let '(due, rhs) := spec_rules e j ticks (S i) rhs in
      (match v with Some k => (r, k) :: due | None => due end, (r, h) :: rhs)
  end.

Definition spec_engine e (ticks : nat -> Tick) (rhs : list (CompiledRule * History)) :
    list Due * list (CompiledRule * History) :=
  match event_to_json e with
  | None => ([], rhs)
  | Some j => spec_rules e j ticks 0 rhs
  end.

Fixpoint spec_run (stream : list (Event * (nat -> Tick))) (rhs : list (CompiledRule * History)) :
    list (list (Event * Due)) :=
  match stream with
  | [] => []
  | (e, ticks) :: stream =>
      let '(due, rhs) := spec_engine e ticks rhs in (pair e <$> due) :: spec_run stream rhs
  end.

(** The engine over the same stream, its rules and its counter threaded. *)
Fixpoint engine_run (host : string) (stream : list (Event * (nat -> Tick))) (rules : list CompiledRule) (seq : Z) :
    list (list Event) :=
  match stream with
  | [] => []
  | (e, ticks) :: stream =>
      let '(findings, rules, seq) := engine_process rules e host seq ticks in
      findings :: engine_run host stream rules seq
  end.

(** The clock a rule reads does not go back from one event to the next. *)
Fixpoint ticks_from (t : nat -> Z) (stream : list (Event * (nat -> Tick))) : Prop :=
  match stream with
  | [] => True
  | (_, ticks) :: stream =>
      (forall i, t i <= tk_instant (ticks i))%Z /\ ticks_from (fun i => tk_instant (ticks i)) stream
  end.

(** The finding that is due, for the rule, the group and the number it has. *)
Definition finding_due (host : string) (seq : Z) (d : Event * Due) (f : Event) : Prop :=
  finding_of d.2.1 d.1 host (seq `mod` 2 ^ 64)%Z f /\
  ev_message f = Some (match d.2.2 with
                       | Some k => cr_title d.2.1 +:+ " (group=" +:+ k +:+ ")"
                       | None => cr_title d.2.1
                       end).

Fixpoint numbered (host : string) (n : Z) (ds : list (Event * Due)) (fs : list Event) : Prop :=
  match ds, fs with
  | [], [] => True
  | d :: ds, f :: fs => finding_due host n d f /\ numbered host (n + 1) ds fs
  | _, _ => False
  end.

Lemma numbered_app host n ds1 fs1 ds2 fs2 :
  numbered host n ds1 fs1 -> numbered host (n + Z.of_nat (length fs1)) ds2 fs2 ->
  numbered host n (ds1 ++ ds2) (fs1 ++ fs2).
Proof.
  revert n fs1. induction ds1 as [|d ds1 IH]; intros n [|f fs1]; simpl; try done.
  - by rewrite Z.add_0_r.
  - intros [? ?] Hn2. split; [done|]. apply IH; [done|]. by replace (n + 1 + Z.of_nat (length fs1))%Z with (n + Z.of_nat (S (length fs1)))%Z by lia.
Qed.

(** A rule in the engine and the same rule with its history. *)
Definition rule_sim (t : Z) (rh : CompiledRule * History) r : Prop :=
  (cr_id r = cr_id rh.1 /\ cr_title r = cr_title rh.1 /\ cr_level r = cr_level rh.1 /\ cr_tags r = cr_tags rh.1) /\
  (forall e j, rule_selects r e j = rule_selects rh.1 e j) /\ cr_condition r = cr_condition rh.1 /\
  match cr_condition rh.1 with
  | Single _ => True
  | Count _ _ th => exists w agg, cr_timeframe rh.1 = Some w /\ cr_aggregator r = Some agg /\
      agg_threshold agg = th /\ agg_window agg = w /\ (0 <= th < u32_max)%Z /\
      agg_sim th w t (agg_groups (agg_state agg)) rh.2
  end.

Lemma rule_sim_mono t t' rh r : (t <= t')%Z -> rule_sim t rh r -> rule_sim t' rh r.
Proof.
  intros Ht (? & ? & ? & Hc). split; [done|]. split; [done|]. split; [done|]. destruct (cr_condition rh.1); [done|].
  destruct Hc as (w & agg & ? & ? & ? & ? & ? & ?). exists w, agg. repeat (split; [done|]). by eapply agg_sim_mono.
Qed.

Lemma build_finding_message st r e host seq key :
  ev_message (build_finding st r e host seq key)
  = Some (match key with Some k => cr_title r +:+ " (group=" +:+ k +:+ ")" | None => cr_title r end).
Proof.
  unfold build_finding. set (ev2 := foldl _ _ _).
  assert (E : ev_message ev2 = Some (match key with Some k => cr_title r +:+ " (group=" +:+ k +:+ ")" | None => cr_title r end)).
  { unfold ev2. rewrite foldl_with_attack_frame by (by intros ? []). by destruct (ev_src_endpoint e), key. }
  clearbody ev2. destruct (ev_federated e), (ev_federation_verified e); by destruct ev2.
Qed.

(** A finding built from the engine's copy of a rule is the one due for the rule. *)
Lemma due_of_build t rh r st e host seq key :
  rule_sim t rh r -> finding_due host seq (e, (rh.1, key)) (build_finding st r e host (seq `mod` 2 ^ 64) key).
Proof.
  intros ((Hid & Hti & Hle & Htg) & _). split; simpl; [|rewrite build_finding_message; by rewrite Hti].
  destruct (build_finding_spec st r e host (seq `mod` 2 ^ 64)%Z key) as (?&?&?&?&?&?&?&?&?&?&?).
  unfold finding_of. rewrite <-Hid, <-Hle, <-Htg. by split_and!.
Qed.

Lemma process_rule_sim t rh r j e host tick seq :
  rule_sim t rh r -> (t <= tk_instant tick)%Z ->
  let '(f, r', seq') := process_rule j e host tick r (seq `mod` 2 ^ 64)%Z in
  let '(v, h') := spec_rule rh.1 e j tick rh.2 in
  rule_sim (tk_instant tick) (rh.1, h') r' /\ seq' = ((seq + Z.of_nat (length (option_list f))) `mod` 2 ^ 64)%Z /\
  numbered host seq (pair e <$> match v with Some k => [(rh.1, k)] | None => [] end) (option_list f).
Proof.
  intros Hs Ht. assert (Hb := fun st key => due_of_build t rh r st e host seq key Hs).
  assert (Hm := rule_sim_mono _ _ _ _ Ht Hs). destruct Hs as (Hn & Hsel & Hc & Ha). unfold spec_rule.
  destruct (rule_selects rh.1 e j) eqn:E.
  2:{ rewrite process_rule_unselected by (by rewrite Hsel). destruct rh. simpl in *. split_and!; try done. by rewrite Z.add_0_r. }
  rewrite process_rule_selected, Hc by (by rewrite Hsel).
  destruct (cr_condition rh.1) as [sel|sel field th] eqn:Ec.
  { destruct rh. simpl in *. split_and!; try done. unfold wrapping_add_u64. by rewrite Z.add_mod_idemp_l. }
  destruct Ha as (w & agg & Hw & Hagg & Hth & Hwin & Hb2 & Hsim). rewrite Hagg, Hw. simpl default.
  destruct (observe_sim th w t (tk_instant tick) (group_key_of j field) agg rh.2) as (Hv & Hs' & Ht' & Hw'); [done..|].
  assert (Hr : forall agg', agg_threshold agg' = th -> agg_window agg' = w -> forall h',
    agg_sim th w (tk_instant tick) (agg_groups (agg_state agg')) h' ->
    rule_sim (tk_instant tick) (rh.1, h') (set_aggregator agg' r)).
  { intros agg' ? ? h' ?. split; [done|]. split; [intros; by rewrite <-Hsel|]. split; [simpl; congruence|]. simpl.
    rewrite Ec. by exists w, agg'. }
  destruct (observe _ _ agg) as [fired agg'], (spec_observe _ _ _ _ _) as [v h']. simpl in *. subst v.
  destruct fired as [k|]; simpl; (split; [by apply Hr|split; [|auto]]).
  - unfold wrapping_add_u64. by rewrite Z.add_mod_idemp_l.
  - by rewrite Z.add_0_r.
Qed.

Fixpoint rules_sim (t : nat -> Z) (i : nat) (rhs : list (CompiledRule * History)) (rules : list CompiledRule) : Prop :=
  match rhs, rules with
  | [], [] => True
  | rh :: rhs, r :: rules => rule_sim (t i) rh r /\ rules_sim t (S i) rhs rules
  | _, _ => False
  end.

Lemma rules_sim_mono t t' i rhs rules : (forall i, t i <= t' i)%Z -> rules_sim t i rhs rules -> rules_sim t' i rhs rules.
Proof.
  intros Ht. revert i rules. induction rhs as [|rh rhs IH]; intros i [|r rules]; simpl; try done.
  intros [Hr Hrs]. split; [by eapply rule_sim_mono, Hr|by apply IH].
Qed.

Lemma process_rules_sim t rhs j e host ticks i rules seq :
  rules_sim t i rhs rules -> (forall i, t i <= tk_instant (ticks i))%Z ->
  let '(fs, rules', seq') := process_rules j e host ticks i rules (seq `mod` 2 ^ 64)%Z in
  let '(due, rhs') := spec_rules e j ticks i rhs in
  rules_sim (fun i => tk_instant (ticks i)) i rhs' rules' /\
  seq' = ((seq + Z.of_nat (length fs)) `mod` 2 ^ 64)%Z /\ numbered host seq (pair e <$> due) fs.
Proof.
  intros Hs Ht. revert i rules seq Hs. induction rhs as [|[r0 h] rhs IH]; intros i [|r rules] seq Hs; simpl in *; try done.
  { split_and!; [done|by rewrite Z.add_0_r|done]. }
  destruct Hs as [Hr Hrs]. assert (Hp := process_rule_sim (t i) (r0, h) r j e host (ticks i) seq Hr (Ht i)). simpl in Hp.
  destruct (process_rule _ _ _ _ _ _) as [[f r'] seq1]. destruct (spec_rule _ _ _ _ _) as [v h'].
  destruct Hp as (Hr' & -> & Hn). specialize (IH (S i) rules (seq + Z.of_nat (length (option_list f)))%Z Hrs).
  destruct (process_rules _ _ _ _ _ _ _) as [[fs rules'] seq2]. destruct (spec_rules _ _ _ _ _) as [due rhs'].
  destruct IH as (Hrs' & -> & Hns). split_and!; [by split|rewrite length_app; f_equal; lia|].
  replace (pair e <$> match v with Some k => (r0, k) :: due | None => due end)
    with ((pair e <$> match v with Some k => [(r0, k)] | None => [] end) ++ (pair e <$> due)) by (by destruct v).
  by apply numbered_app.
Qed.

Lemma engine_run_sim host stream : forall t rhs rules seq,
  rules_sim t 0 rhs rules -> ticks_from t stream ->
  length <$> engine_run host stream rules (seq `mod` 2 ^ 64)%Z = length <$> spec_run stream rhs /\
  numbered host seq (concat (spec_run stream rhs)) (concat (engine_run host stream rules (seq `mod` 2 ^ 64)%Z)).
Proof.
  induction stream as [|[e ticks] stream IH]; intros t rhs rules seq Hs Ht; [done|]. destruct Ht as [Ht Hts]. simpl.
  unfold engine_process, spec_engine. destruct (event_to_json e) as [j|].
  - assert (Hp := process_rules_sim t rhs j e host ticks 0 rules seq Hs Ht).
    destruct (process_rules _ _ _ _ _ _ _) as [[fs rules'] seq1]. destruct (spec_rules _ _ _ _ _) as [due rhs'].
    destruct Hp as (Hs' & -> & Hn). destruct (IH _ _ _ (seq + Z.of_nat (length fs))%Z Hs' Hts) as [Hl Hns].
    split; [|by apply numbered_app]. simpl. f_equal; [|done]. rewrite length_fmap. clear -Hn. revert seq Hn.
    generalize fs. induction due as [|d due IHd]; intros [|f fs'] seq; simpl; try done. intros [_ ?]. f_equal. by eapply IHd.
  - destruct (IH (fun i => tk_instant (ticks i)) rhs rules seq) as [Hl Hns]; [by eapply rules_sim_mono|done|].
    split; [|exact Hns]. rewrite !fmap_cons. by f_equal.
Qed.

(** Rules as they are loaded: compiled, with no history. *)
Definition fresh_rule r : Prop :=
  (exists raw p, compile_rule raw p = Ok r) /\
  match cr_condition r with Single _ => True | Count _ _ th => (th < u32_max)%Z end.

Lemma fresh_rules_sim t rules : Forall fresh_rule rules -> forall i, rules_sim t i ((fun r => (r, ∅)) <$> rules) rules.
Proof.
  induction 1 as [|r rules [(raw & p & Hc) Hth] _ IH]; intros i; simpl; [done|]. split; [|apply IH].
  split; [done|]. split; [done|]. split; [done|]. simpl. destruct (compile_rule_wf_lemma _ _ _ Hc) as [_ Hwf].
  destruct (compile_rule_inv _ _ _ Hc) as (gb & _ & _ & _ & Ha & _).
  destruct (cr_condition r) as [|sel field th]; [done|]. destruct Ha as (d & Hd & Ha). destruct Hwf as [Hz _].
  exists d, (aggregator_new th d). repeat (split; [done|]). split; [lia|]. apply agg_sim_empty. lia.
Qed.
End engine_facts.

(** ** An example rule: SSH brute force *)

Module DemoRules.
Import DemoLibs Core.Demo.

Definition brute_force : RawRule := {|
  rr_id := "ssh-brute-force"; rr_title := "SSH brute force"; rr_description := Some "d";
  rr_level := SigmaLevel.High; rr_status := None; rr_author := Some "selfdef"; rr_date := None;
  rr_tags := ["attack.credential_access"; "attack.t1110"]; rr_references := [];
  rr_falsepositives := []; rr_logsource := mkLogSource None (Some "auditd") None;
  rr_detection := {|
    rd_selections := [("failed", YMapping [(YString "class_uid", YPosInt 3002);
                                           (YString "status_id", YPosInt 2)])];
    rd_timeframe := Some "60s";
    rd_condition := "failed | count() by src_endpoint.ip > 2" |} |}.

Definition brute_force_rule : option CompiledRule :=
  match compile_rule brute_force ["rules"; "ssh.yml"] with Ok r => Some r | Err _ => None end.

Definition login_failure (source : string) (federated : bool) : Event :=
  with_federation_verified federated (with_federated federated
    (with_src_endpoint (mkEndpoint (Some (V4 3221226059)) None None None None None)
      (with_status StatusId.Failure
        (event_new (mkStamp 7 100 101) AUTHENTICATION 1 SeverityId.Medium "web-1" source 1)))).

Definition tick_at (secs : Z) : Tick := mkTick (from_secs secs) (mkStamp 9 200 201).

Definition attempt (secs : Z) : json * Event * Tick :=
  (default JNull (event_to_json (login_failure "auditd" false)),
   login_failure "auditd" false, tick_at secs).

(** The third failure inside a minute is the one that fires. *)
Example brute_force_fires :
  match brute_force_rule with
  | Some r => fired <$> run_rule "web-1" (attempt <$> [0; 1; 90; 100; 110; 111; 112]%Z) r 0
  | None => []
  end = [false; false; false; false; true; false; false].
Proof. by vm_compute. Qed.
End DemoRules.

(** ** Properties *)

(** A rule that compiles is one the engine can run. The selection its
    condition names is among its matchers, and a count condition has a fresh
    aggregator with the condition's threshold over the rule's timeframe, so
    neither the missing-matcher branch nor the missing-aggregator branch of
    [Engine::process] can be taken for it. *)
Theorem compile_rule_sound `{RuleLibs} `{UnicodeTables} (raw : RawRule) (p : path) r :
  compile_rule raw p = Ok r ->
  rule_wf r /\ cr_id r = rr_id raw /\ cr_level r = rr_level raw /\
  match cr_condition r with
  | Single _ => True
  | Count _ _ th => exists w, cr_timeframe r = Some w /\ cr_aggregator r = Some (aggregator_new th w)
  end.
Proof.
  intros Hc. split; [by eapply compile_rule_wf_lemma|].
  destruct (compile_rule_inv _ _ _ Hc) as (gb & _ & _ & _ & Ha & Hid & Hl). done.
Qed.

(** Compilation refuses what it cannot run: a condition it cannot parse, a
    condition that names an unknown selection, and a count condition without a
    timeframe all make [compile_rule] return an error. *)
Theorem compile_rule_rejects `{RuleLibs} `{UnicodeTables} (raw : RawRule) (p : path) :
  let det := rr_detection raw in
  (parse_condition (rd_condition det) = None ->
     compile_rule raw p = Err (InvalidCondition (rd_condition det))) /\
  (forall cond gb, parse_condition (rd_condition det) = Some (cond, gb) ->
     assoc (condition_selection cond) (rd_selections det) = None ->
     compile_rule raw p = Err (InvalidRule (rr_id raw)
       ("condition references unknown selection '" +:+ condition_selection cond +:+ "'"))) /\
  (forall sel field th gb, parse_condition (rd_condition det) = Some (Count sel field th, gb) ->
     rd_timeframe det = None -> is_ok (compile_rule raw p) = false).
Proof.
  intros det. unfold compile_rule. fold det. split_and!.
  - by intros ->.
  - intros cond gb -> Hn. simpl. rewrite bool_decide_false; [done|]. rewrite Hn. by intros [].
  - intros sel field th gb -> ->. simpl. case_bool_decide; [|done]. simpl.
    by destruct (compile_selections _ _ _).
Qed.

(** C6: a count rule implements its documented semantics. Over any stream of
    events read off a monotone clock, the rule fires on exactly the events that
    pass its log source and selection and for which strictly more than [N]
    selected events with the same group value, since the group last fired,
    lie within the timeframe. *)
Theorem count_rule_refines `{RuleLibs} `{UnicodeTables} `{WireFormat}
    (raw : RawRule) (p : path) (host : string) r sel field th w t seq
    (stream : list (json * Event * Tick)) :
  compile_rule raw p = Ok r -> cr_condition r = Count sel field th ->
  cr_timeframe r = Some w -> (th < u32_max)%Z -> instants_from t stream ->
  fired <$> run_rule host stream r seq = fired <$> count_spec r th w field stream ∅.
Proof.
  intros Hc Hcond Hw Hth Hi. destruct (compile_rule_wf_lemma _ _ _ Hc) as [_ Hwf].
  destruct (compile_rule_inv _ _ _ Hc) as (gb & _ & _ & _ & Ha & _). rewrite Hcond in Ha, Hwf.
  destruct Ha as (d & Hd & Ha). simplify_eq. destruct Hwf as [? _].
  eapply run_rule_sim; [|done..|]; [lia|]. apply agg_sim_empty. lia.
Qed.

(** C7: the engine emits exactly the findings that are due. Over any stream of events
    through freshly compiled rules, the findings of every event are, in the order of
    the rules, those of the rules that fire on it by the complete history of the
    stream: a rule without a count fires on each event it selects, a count rule on
    those that bring its group strictly over the threshold within the timeframe. The
    findings are numbered consecutively from the shared counter, which wraps at 2^64.
    Each is a Detection Finding with its rule's title and group, severity and tags and the
    trigger's source endpoint, and has exactly the trigger's federation taint: federated when the
    trigger is, verified only when the trigger is federated and verified. The clock
    that a rule reads may not go back, and thresholds are below the largest u32. *)
Theorem engine_process_findings `{RuleLibs} `{UnicodeTables} `{WireFormat}
    (rules : list CompiledRule) (host : string) (seq : Z) (t : nat -> Z) (stream : list (Event * (nat -> Tick))) :
  (0 <= seq <= u64_max)%Z -> Forall fresh_rule rules -> ticks_from t stream ->
  let found := engine_run host stream rules seq in
  let due := spec_run stream ((fun r => (r, ∅)) <$> rules) in
  length <$> found = length <$> due /\ numbered host seq (concat due) (concat found).
Proof.
  intros Hseq Hf Ht found due. assert (Hm : (seq `mod` 2 ^ 64)%Z = seq) by (apply Z.mod_small; unfold u64_max in Hseq; lia).
  assert (Hr := engine_run_sim host stream t ((fun r => (r, ∅)) <$> rules) rules seq). rewrite Hm in Hr.
  apply Hr; [|done]. by apply fresh_rules_sim.
Qed.

(** String matching ignores ASCII case, as the rules rely on: two string
    values that differ only in ASCII case are matched alike by every
    operator but the regular expression. *)
Theorem matching_ignores_ascii_case `{RuleLibs} (s x y : string) (op : FieldOp.t) :
  to_ascii_lowercase x = to_ascii_lowercase y ->
  matches_json (MString s) (JString x) op = matches_json (MString s) (JString y) op.
Proof.
  intros E. destruct op; simpl; unfold str_test, eq_ignore_ascii_case; simpl; by rewrite ?E.
Qed.

(** ** The properties at concrete rules and events *)

Module SigmaWitnesses.
Import DemoLibs Core.Demo.

Lemma compile_rule_sound_witness :
  exists r, compile_rule DemoRules.brute_force ["r.yml"] = Ok r
    /\ rule_wf r.
Proof.
  eexists. split; [vm_compute; reflexivity|].
  eapply (@compile_rule_sound DemoLibs.rule_libs DemoLibs.unicode_tables DemoRules.brute_force ["r.yml"]).
  vm_compute. reflexivity.
Defined.

Lemma count_rule_refines_witness :
  let stream := DemoRules.attempt <$> [0; 1; 90; 100; 110]%Z in
  exists r, compile_rule DemoRules.brute_force ["r.yml"] = Ok r
    /\ fired <$> run_rule "web-1" stream r 0
       = fired <$> count_spec r 2 (from_secs 60) "src_endpoint.ip" stream ∅.
Proof.
  intros stream. eexists. split; [vm_compute; reflexivity|].
  eapply (@count_rule_refines DemoLibs.rule_libs DemoLibs.unicode_tables Core.Demo.wire_format
    DemoRules.brute_force ["r.yml"] "web-1" _ "failed" "src_endpoint.ip" 2 (from_secs 60) 0 0 stream);
    [vm_compute; reflexivity|reflexivity|reflexivity|reflexivity|].
  vm_compute. repeat split; discriminate.
Defined.

(** The brute-force rule and one that selects every event of a host. *)
Definition any_rule : RawRule :=
  {| rr_id := "any"; rr_title := "t"; rr_description := None; rr_level := SigmaLevel.Low;
     rr_status := None; rr_author := None; rr_date := None; rr_tags := []; rr_references := [];
     rr_falsepositives := []; rr_logsource := mkLogSource None None None;
     rr_detection := mkRawDetection [("s", YMapping [(YString "host_tag|startswith", YString "WEB")])] None "s" |}.

Definition failures (secs : list Z) : list (Event * (nat -> Tick)) :=
  (fun s => (DemoRules.login_failure "auditd" true, fun _ => DemoRules.tick_at s)) <$> secs.

Definition compiled (raw : RawRule) : list CompiledRule :=
  match compile_rule raw ["r.yml"] with Ok r => [r] | Err _ => [] end.

Definition two_rules : list CompiledRule := compiled DemoRules.brute_force ++ compiled any_rule.

Lemma engine_process_findings_witness :
  let found := engine_run "web-1" (failures [0; 1; 2; 3]%Z) two_rules 41 in
  let due := spec_run (failures [0; 1; 2; 3]%Z) ((fun r => (r, ∅)) <$> two_rules) in
  length <$> due = [1; 1; 2; 1] /\ ((fun d => cr_id d.2.1) <$> concat due) = ["any"; "any"; "ssh-brute-force"; "any"; "any"] /\
  length <$> found = length <$> due /\ numbered "web-1" 41 (concat due) (concat found).
Proof.
  split; [vm_compute; reflexivity|]. split; [vm_compute; reflexivity|].
  apply (engine_process_findings two_rules "web-1" 41 (fun _ => 0%Z) (failures [0; 1; 2; 3]%Z)).
  - by vm_compute.
  - constructor; [|constructor; [|constructor]].
    + split; [exists DemoRules.brute_force, ["r.yml"]; vm_compute; reflexivity|vm_compute; reflexivity].
    + split; [exists any_rule, ["r.yml"]; vm_compute; reflexivity|exact I].
  - vm_compute. repeat split; discriminate.
Defined.

Lemma matching_ignores_ascii_case_witness :
  matches_json (MString "\powershell.exe") (JString "C:\PowerShell.EXE") FieldOp.EndsWith
  = matches_json (MString "\powershell.exe") (JString "c:\powershell.exe") FieldOp.EndsWith.
Proof. apply matching_ignores_ascii_case. reflexivity. Defined.
End SigmaWitnesses.
