(* ===== verification/RuleStore.v ===== *)
(** * Rule loading and ATT&CK coverage

    Models the loading half of [Engine] in
    crates/selfdef-correlator/src/sigma.rs: the recursive walk of the rules
    directory with its final sort, the load of every rule file with the optional
    signature check, and [Engine::attack_coverage]. YAML deserialization of a
    rule is third-party and comes from the [RuleYaml] class. *)

From S2P Require Import Prelude Core Aggregator Signing Sigma SigmaEngine.
From stdpp Require Import options.

(** ** The order of paths *)

(** [PathBuf]'s order: component by component, each by its bytes. *)
Fixpoint path_le (p q : path) : Prop :=
  match p, q with
  | [], _ => True
  | _ :: _, [] => False
  | x :: p, y :: q => (x = y /\ path_le p q) \/ (x <> y /\ String.le x y)
  end.

#[export] Instance path_le_dec : RelDecision path_le.
Proof.
  intros p. induction p as [|x p IH]; intros [|y q]; simpl; try apply _.
Defined.

Lemma path_le_refl p : path_le p p.
Proof. induction p; simpl; auto. Qed.

Lemma path_le_trans p q r : path_le p q -> path_le q r -> path_le p r.
Proof.
  revert q r. induction p as [|x p IH]; intros [|y q] [|z r]; simpl; try done.
  intros [[-> ?]|[? Hxy]] [[-> ?]|[? Hyz]]; eauto.
  destruct (decide (x = z)) as [->|].
  - exfalso. assert (y = z); [|done]. by apply (anti_symm String.le).
  - right. split; [done|]. by trans y.
Qed.

Lemma path_le_antisym p q : path_le p q -> path_le q p -> p = q.
Proof.
  revert q. induction p as [|x p IH]; intros [|y q]; simpl; try done.
  intros [[-> ?]|[? Hxy]] [[? ?]|[? Hyx]]; [f_equal; auto|done|congruence|].
  exfalso. assert (x = y); [|done]. by apply (anti_symm String.le).
Qed.

#[export] Instance path_le_total : Total path_le.
Proof.
  intros p. induction p as [|x p IH]; intros [|y q]; simpl; auto.
  destruct (decide (x = y)) as [->|].
  - destruct (IH q); auto.
  - destruct (total String.le x y); auto.
Qed.

#[export] Instance path_le_partial_order : PartialOrder path_le.
Proof.
  split; [split|].
  - intros p. apply path_le_refl.
  - intros p q r. apply path_le_trans.
  - intros p q. apply path_le_antisym.
Qed.

(** ** Walking the directory *)

Definition is_yaml_name (name : string) : bool :=
  match extension name with
  | Some s => bool_decide (s = "yml") || bool_decide (s = "yaml")
  | None => false
  end.

(** [walk_yaml_inner]; the [&mut Vec] it pushes to is its result. *)
Fixpoint walk_yaml_inner (dir : path) (n : node) : result (list path) string :=
  match n with
  | NFile => Err "Not a directory"
  | NDir entries err =>
      (fix go (entries : list (string * node)) : result (list path) string :=
         match entries with
         | [] => match err with Some e => Err e | None => Ok [] end
         | (name, child) :: entries =>
             match child with
             | NDir _ _ =>
                 let? below := walk_yaml_inner (dir ++ [name]) child in
                 let? rest := go entries in
                 Ok (below ++ rest)
             | NFile =>
                 let? rest := go entries in
                 Ok (if is_yaml_name name then (dir ++ [name]) :: rest else rest)
             end
         end) entries
  end.

Definition walk_yaml (fs : FileSystem) (dir : path) : result (list path) string :=
  match fs_tree fs dir with
  | None => Ok []
  | Some n => let? out := walk_yaml_inner dir n in Ok (merge_sort path_le out)
  end.

(** ** Loading *)

Class RuleYaml := { raw_rule_from_slice : string -> result RawRule string }.

(** Test fixtures are not rules. *)
Definition is_test_fixture (entry : path) : bool :=
  match last entry with
  | Some s => ends_with s ".tests.yaml" || ends_with s ".tests.yml"
  | None => false
  end.

Section load.
Context `{RuleLibs} `{UnicodeTables} `{Minisign} `{RuleYaml}.

(** One iteration of the loop of [load_dir_maybe_verified]. The signature check reads
    the file again. *)
Definition load_entry (fs : LiveFs) (verifier : option Verifier) (entry : path) :
    result CompiledRule SigmaError :=
  let? yaml_bytes := map_err Io (fs_read fs entry) in
  let? raw := map_err (Yaml entry) (raw_rule_from_slice yaml_bytes) in
  let? _ := match verifier with
            | Some v => map_err (Signature entry) (verify_detached_file (lf_check fs entry) v entry)
            | None => Ok tt
            end in
  compile_rule raw entry.

Fixpoint load_entries (fs : LiveFs) (verifier : option Verifier) (entries : list path) :
    result (list CompiledRule) SigmaError :=
  match entries with
  | [] => Ok []
  | entry :: entries =>
      if is_test_fixture entry then load_entries fs verifier entries
      else
        let? rule := load_entry fs verifier entry in
        let? rules := load_entries fs verifier entries in
        Ok (rule :: rules)
  end.

Definition load_dir_maybe_verified (fs : LiveFs) (dir : path) (verifier : option Verifier) :
    result (list CompiledRule) SigmaError :=
  let? entries := map_err Io (walk_yaml fs dir) in
  load_entries fs verifier entries.

Definition load_dir (fs : LiveFs) (dir : path) := load_dir_maybe_verified fs dir None.
Definition load_dir_verified (fs : LiveFs) (dir : path) (v : Verifier) :=
  load_dir_maybe_verified fs dir (Some v).
End load.

(** ** ATT&CK coverage *)

#[export] Instance tactic_countable : Countable Tactic.t.
Proof.
  refine (inj_countable tactic_wire (fun s => parse_tactic_tag ("attack." +:+ s)) _).
  by intros [].
Defined.

Record AttackCoverage := mkAttackCoverage {
  ac_techniques : gset string;
  ac_tactics : gset Tactic.t;
  ac_rules_per_tactic : gmap Tactic.t nat;
}.

Section coverage.
Context `{RuleLibs} `{UnicodeTables}.

(** The loop body for one rule: its tags extend the two sets, and each tactic
    it names, counted once, gets one more rule. *)
Definition cover_rule (out : AttackCoverage) (rule : CompiledRule) : AttackCoverage :=
  let rule_tactics : gset Tactic.t := list_to_set (omap parse_tactic_tag (cr_tags rule)) in
  {| ac_techniques := ac_techniques out ∪ list_to_set (omap parse_technique_tag (cr_tags rule));
     ac_tactics := ac_tactics out ∪ rule_tactics;
     ac_rules_per_tactic :=
       set_fold (fun t m => <[t := S (default 0 (m !! t))]> m)
         (ac_rules_per_tactic out) rule_tactics |}.

Definition attack_coverage (rules : list CompiledRule) : AttackCoverage :=
  foldl cover_rule (mkAttackCoverage ∅ ∅ ∅) rules.
End coverage.

(** ** Walking, independently of the enumeration order *)

(** Two trees with the same entries, enumerated in any order at every level. *)
Inductive node_perm : node -> node -> Prop :=
| NP_file : node_perm NFile NFile
| NP_dir es1 es es2 err :
    Permutation es1 es ->
    Forall2 (fun a b => a.1 = b.1 /\ node_perm a.2 b.2) es es2 ->
    node_perm (NDir es1 err) (NDir es2 err).

(** Induction over a tree with the hypothesis for every entry. *)
Lemma node_ind' (P : node -> Prop) :
  P NFile -> (forall es err, Forall (fun e => P e.2) es -> P (NDir es err)) -> forall n, P n.
Proof.
  intros Hf Hd. fix IH 1. intros [|es err]; [exact Hf|]. apply Hd.
  induction es as [|[name n] es IHes]; constructor; [apply IH|apply IHes].
Qed.

(** The contribution of one entry, and the walk of an entry list. *)
Definition walk_entry (dir : path) (e : string * node) : result (list path) string :=
  match e.2 with
  | NDir _ _ => walk_yaml_inner (dir ++ [e.1]) e.2
  | NFile => Ok (if is_yaml_name e.1 then [dir ++ [e.1]] else [])
  end.

Fixpoint walk_entries (dir : path) (es : list (string * node)) (err : option string) :
    result (list path) string :=
  match es with
  | [] => match err with Some e => Err e | None => Ok [] end
  | e :: es =>
      let? below := walk_entry dir e in
      let? rest := walk_entries dir es err in
      Ok (below ++ rest)
  end.

Lemma walk_inner_dir dir es err : walk_yaml_inner dir (NDir es err) = walk_entries dir es err.
Proof.
  simpl. induction es as [|[name n] es IH]; [done|]. simpl in *.
  destruct n; simpl; rewrite IH; [|done]. destruct (walk_entries dir es err); [|done].
  simpl. by destruct (is_yaml_name name).
Qed.

(** Results that agree up to the order of the paths and the choice of error. *)
Definition same_walk (a b : result (list path) string) : Prop :=
  match a, b with
  | Ok l1, Ok l2 => Permutation l1 l2
  | Err _, Err _ => True
  | _, _ => False
  end.

#[export] Instance same_walk_equiv : Equivalence same_walk.
Proof.
  split.
  - intros [l|e]; simpl; [reflexivity|exact I].
  - intros [] []; simpl; done.
  - intros [a1|] [b1|] [c1|]; simpl; try done. apply Permutation_trans.
Qed.

Lemma walk_entries_cons_same dir e1 e2 es1 es2 err :
  same_walk (walk_entry dir e1) (walk_entry dir e2) ->
  same_walk (walk_entries dir es1 err) (walk_entries dir es2 err) ->
  same_walk (walk_entries dir (e1 :: es1) err) (walk_entries dir (e2 :: es2) err).
Proof.
  simpl. destruct (walk_entry dir e1), (walk_entry dir e2), (walk_entries dir es1 err),
    (walk_entries dir es2 err); simpl; try done. intros. by apply Permutation_app.
Qed.

Lemma walk_entries_perm dir es1 es2 err :
  Permutation es1 es2 -> same_walk (walk_entries dir es1 err) (walk_entries dir es2 err).
Proof.
  induction 1 as [|e es1 es2 _ IH|e1 e2 es|es1 es2 es3 _ IH1 _ IH2].
  - done.
  - by apply walk_entries_cons_same.
  - simpl. destruct (walk_entry dir e1), (walk_entry dir e2), (walk_entries dir es err);
      simpl; try done. rewrite !(assoc_L (++)). apply Permutation_app; [|done].
    apply Permutation_app_comm.
  - by etrans.
Qed.

Lemma walk_inner_perm n1 : forall n2 dir,
  node_perm n1 n2 -> same_walk (walk_yaml_inner dir n1) (walk_yaml_inner dir n2).
Proof.
  induction n1 as [|es1 err IH] using node_ind'; intros n2 dir Hp; inv Hp; [done|].
  rewrite !walk_inner_dir. etrans; [by apply walk_entries_perm|].
  match goal with H : Permutation es1 _ |- _ => rewrite H in IH; clear H end.
  match goal with H : Forall2 _ _ _ |- _ =>
    induction H as [|[name m1] [name2 m2] es es' [Hn Hm] _ IHes] end; [done|].
  inv IH. simpl in *. subst name2. apply walk_entries_cons_same; [|auto].
  unfold walk_entry. simpl. assert (Hm' := Hm). inv Hm'; [done|]. eauto.
Qed.

Lemma walk_yaml_perm fs1 fs2 dir n1 n2 :
  fs_tree fs1 dir = Some n1 -> fs_tree fs2 dir = Some n2 -> node_perm n1 n2 ->
  walk_yaml fs1 dir = walk_yaml fs2 dir \/
  (is_ok (walk_yaml fs1 dir) = false /\ is_ok (walk_yaml fs2 dir) = false).
Proof.
  intros H1 H2 Hp. unfold walk_yaml. rewrite H1, H2.
  pose proof (walk_inner_perm n1 n2 dir Hp) as Hw.
  destruct (walk_yaml_inner dir n1), (walk_yaml_inner dir n2); simpl in *; try done; [|by right].
  left. f_equal. apply (StronglySorted_unique path_le);
    [apply StronglySorted_merge_sort; apply _..|]. by rewrite !merge_sort_Permutation.
Qed.

(** ** Loading, entry by entry *)

Section load_facts.
Context `{RuleLibs} `{UnicodeTables} `{Minisign} `{RuleYaml}.

(** A rule came from its file: the file's bytes deserialize to a raw rule that
    compiles to it under the file's path. *)
Definition loaded_from (fs : FileSystem) (entry : path) (rule : CompiledRule) : Prop :=
  exists bytes raw, fs_read fs entry = Ok bytes /\ raw_rule_from_slice bytes = Ok raw /\
    compile_rule raw entry = Ok rule.

Lemma load_entry_ok (fs : LiveFs) v entry rule :
  load_entry fs v entry = Ok rule ->
  loaded_from fs entry rule /\
  match v with Some v => verify_detached_file (lf_check fs entry) v entry = Ok () | None => True end.
Proof.
  unfold load_entry, loaded_from. destruct (fs_read fs entry) as [bytes|] eqn:Eb; [|done]. simpl.
  destruct (raw_rule_from_slice bytes) as [raw|] eqn:Er; [|done]. simpl.
  destruct v as [v|]; simpl; [|intros; split; [by eauto 6|done]].
  destruct (verify_detached_file (lf_check fs entry) v entry) as [[]|]; simpl; [|done]. intros; split; by eauto 6.
Qed.

Lemma load_entries_ok (fs : LiveFs) v entries rules :
  load_entries fs v entries = Ok rules ->
  Forall2 (fun entry rule => load_entry fs v entry = Ok rule)
    (filter (fun e => is_test_fixture e = false) entries) rules.
Proof.
  revert rules. induction entries as [|e entries IH]; intros rules; simpl.
  - intros. simplify_eq. constructor.
  - rewrite filter_cons. destruct (is_test_fixture e); [by apply IH|]. simpl.
    destruct (load_entry fs v e) eqn:E; [|done]. simpl.
    destruct (load_entries fs v entries); [|done]. simpl. intros. simplify_eq.
    constructor; auto.
Qed.

(** Two file systems that answer the signature check of every file alike. *)
Definition same_checks (fs1 fs2 : LiveFs) : Prop :=
  forall e p, fs_read (lf_check fs1 e) p = fs_read (lf_check fs2 e) p /\
    fs_read_to_string (lf_check fs1 e) p = fs_read_to_string (lf_check fs2 e) p /\
    fs_exists (lf_check fs1 e) p = fs_exists (lf_check fs2 e) p.

Lemma load_entries_ext (fs1 fs2 : LiveFs) v entries :
  (forall p, fs_read fs1 p = fs_read fs2 p) -> same_checks fs1 fs2 ->
  load_entries fs1 v entries = load_entries fs2 v entries.
Proof.
  intros Hr Hc. induction entries as [|e entries IH]; [done|]. simpl. rewrite IH.
  unfold load_entry. rewrite Hr. destruct v as [v|]; [|done]. unfold verify_detached_file.
  destruct (Hc e (signature_path_for e)) as (_ & -> & ->). by destruct (Hc e e) as (-> & _ & _).
Qed.

(** The tags of a rule name a tactic. *)
Definition has_tactic (t : Tactic.t) (rule : CompiledRule) : bool :=
  bool_decide (t ∈ omap parse_tactic_tag (cr_tags rule)).

Lemma bump_lookup (X : gset Tactic.t) m t :
  default 0 (set_fold (fun t m => <[t := S (default 0 (m !! t))]> m) m X !! t)
  = (if decide (t ∈ X) then 1 else 0) + default 0 ((m : gmap Tactic.t nat) !! t).
Proof.
  revert t. pose (P (m' : gmap Tactic.t nat) (X' : gset Tactic.t) := forall t,
    default 0 (m' !! t) = (if decide (t ∈ X') then 1 else 0) + default 0 (m !! t)).
  change (P (set_fold (fun t m => <[t := S (default 0 (m !! t))]> m) m X) X).
  apply set_fold_ind_L; unfold P.
  - intros t. by rewrite decide_False by set_solver.
  - intros x Y m' Hx IH t. destruct (decide (t = x)) as [->|].
    + rewrite lookup_insert_eq, decide_True by set_solver. simpl. rewrite IH.
      by rewrite decide_False by done.
    + rewrite lookup_insert_ne by done. rewrite IH.
      destruct (decide (t ∈ Y)); [rewrite decide_True by set_solver; done|].
      by rewrite decide_False by set_solver.
Qed.

Lemma attack_coverage_count rules t : forall out,
  default 0 (ac_rules_per_tactic (foldl cover_rule out rules) !! t)
  = default 0 (ac_rules_per_tactic out !! t) + length (filter (fun r => has_tactic t r = true) rules).
Proof.
  induction rules as [|r rules IH]; intros out; simpl; [lia|].
  rewrite IH. unfold cover_rule. simpl. rewrite bump_lookup, filter_cons.
  unfold has_tactic. destruct (decide (t ∈ list_to_set _)) as [Ht|Ht];
    rewrite elem_of_list_to_set in Ht.
  - rewrite bool_decide_true by done. simpl. lia.
  - rewrite bool_decide_false by done. simpl. lia.
Qed.

Lemma attack_coverage_tactics rules t : forall out,
  t ∈ ac_tactics (foldl cover_rule out rules) <->
  t ∈ ac_tactics out \/ Exists (fun r => has_tactic t r = true) rules.
Proof.
  induction rules as [|r rules IH]; intros out; simpl.
  - rewrite Exists_nil. tauto.
  - rewrite IH, Exists_cons. unfold cover_rule, has_tactic at 2. simpl.
    rewrite elem_of_union, elem_of_list_to_set, bool_decide_eq_true. tauto.
Qed.
End load_facts.

(** ** Properties *)

(** The order in which rules are loaded, and so the order in which they
    fire, does not depend on the order in which the file system enumerates
    directories. For two file systems with the same contents whose directory
    trees differ only in enumeration order at any depth, the load gives the
    same rules in the same order or the same error; only when the enumeration
    itself fails, in both, may the two I/O errors differ. *)
Theorem load_dir_deterministic `{RuleLibs} `{UnicodeTables} `{Minisign} `{RuleYaml}
    (fs1 fs2 : LiveFs) (dir : path) (v : option Verifier) n1 n2 :
  (forall p, fs_read fs1 p = fs_read fs2 p) ->
  same_checks fs1 fs2 ->
  fs_tree fs1 dir = Some n1 -> fs_tree fs2 dir = Some n2 -> node_perm n1 n2 ->
  load_dir_maybe_verified fs1 dir v = load_dir_maybe_verified fs2 dir v \/
  exists e1 e2, load_dir_maybe_verified fs1 dir v = Err (Io e1) /\
                load_dir_maybe_verified fs2 dir v = Err (Io e2).
Proof.
  intros Hr Hs Ht1 Ht2 Hp. unfold load_dir_maybe_verified.
  destruct (walk_yaml_perm _ _ _ _ _ Ht1 Ht2 Hp) as [->|[E1 E2]].
  - left. destruct (walk_yaml fs2 dir); simpl; [|done]. by apply load_entries_ext.
  - right. destruct (walk_yaml fs1 dir), (walk_yaml fs2 dir); try done. simpl. eauto.
Qed.

(** With a verifier, only signed rules are loaded. A successful load turns
    the rule files of the walk, test fixtures left out, into rules one by one in
    path order; every loaded rule was compiled from the bytes of its file, is
    one the engine can run, and its file's sidecar held a signature that the
    verifier's key accepts over the bytes the file had when it was checked. *)
Theorem load_dir_verified_signed `{RuleLibs} `{UnicodeTables} `{Minisign} `{RuleYaml}
    (fs : LiveFs) (dir : path) (v : Verifier) rules :
  load_dir_verified fs dir v = Ok rules ->
  exists entries, walk_yaml fs dir = Ok entries /\ StronglySorted path_le entries /\
  Forall2 (fun entry rule =>
      loaded_from fs entry rule /\ rule_wf rule /\
      exists bytes, signed_under (lf_check fs entry) (vf_public_key v) entry bytes)
    (filter (fun e => is_test_fixture e = false) entries) rules.
Proof.
  unfold load_dir_verified, load_dir_maybe_verified.
  destruct (walk_yaml fs dir) as [entries|] eqn:Hw; [|done]. simpl. intros Hl.
  exists entries. split_and!; [done| |].
  - unfold walk_yaml in Hw. destruct (fs_tree fs dir) as [n|]; [|simplify_eq; constructor].
    destruct (walk_yaml_inner dir n) as [l|]; simplify_eq/=.
    apply StronglySorted_merge_sort; apply _.
  - eapply Forall2_impl; [by apply load_entries_ok|]. simpl.
    intros entry rule [Hf Hv]%load_entry_ok. split_and!; [done| |].
    + destruct Hf as (? & ? & _ & _ & Hc). by eapply compile_rule_wf_lemma.
    + by apply verify_detached_file_ok.
Qed.

(** The ATT&CK coverage summary counts rules, not tags: for every tactic,
    the count is the number of loaded rules with at least one tag naming it, and
    the set of covered tactics is the set of tactics with a non-zero count. *)
Theorem attack_coverage_spec `{RuleLibs} `{UnicodeTables} (rules : list CompiledRule) (t : Tactic.t) :
  default 0 (ac_rules_per_tactic (attack_coverage rules) !! t)
    = length (filter (fun r => has_tactic t r = true) rules) /\
  (t ∈ ac_tactics (attack_coverage rules) <->
   0 < length (filter (fun r => has_tactic t r = true) rules)).
Proof.
  unfold attack_coverage. split.
  - rewrite attack_coverage_count. simpl. by rewrite lookup_empty.
  - rewrite attack_coverage_tactics. simpl. rewrite Exists_exists.
    split.
    + intros [?|(r & Hr & Ht)]; [set_solver|].
      assert (Hin : r ∈ filter (fun r => has_tactic t r = true) rules)
        by by apply list_elem_of_filter.
      destruct (filter _ rules); [set_solver|simpl; lia].
    + intros Hl. right. destruct (filter _ rules) as [|r l] eqn:E; [simpl in Hl; lia|].
      exists r. assert (Hin : r ∈ filter (fun r => has_tactic t r = true) rules)
        by (rewrite E; by constructor). apply list_elem_of_filter in Hin. tauto.
Qed.

(** ** The properties at a concrete rules directory *)

Module StoreWitnesses.
Import DemoLibs Core.Demo.

(** A signature is the signed text itself, followed by the key. *)
#[local] Instance minisign : Minisign := {|
  PublicKey := string;
  MinisignSignature := string;
  key_from_base64 := fun s => Ok s;
  signature_decode := fun s => Ok s;
  key_verify := fun key bytes sg => bool_decide (sg = bytes +:+ key);
|}.

(** A rule file holds the name of its rule. *)
#[local] Instance rule_yaml : RuleYaml := {|
  raw_rule_from_slice := fun s =>
    Ok {| rr_id := s; rr_title := s; rr_description := None; rr_level := SigmaLevel.Low;
          rr_status := None; rr_author := None; rr_date := None; rr_tags := ["attack.impact"];
          rr_references := []; rr_falsepositives := []; rr_logsource := mkLogSource None None None;
          rr_detection := mkRawDetection [("s", YMapping [(YString "host_tag", YString "web")])] None "s" |};
|}.

Definition disk (root : node) : LiveFs := still {|
  fs_tree := fun p =>
    if bool_decide (p = ["rules"]) then Some root
    else if bool_decide (p ∈ [["rules"; "b.yml.minisig"]; ["rules"; "x"; "a.yaml.minisig"]])
    then Some NFile else None;
  fs_read := fun p => match last p with Some s => Ok s | None => Err "EISDIR" end;
  fs_read_to_string := fun p =>
    match p with
    | ["rules"; "b.yml.minisig"] => Ok "b.ymlKEY"
    | ["rules"; "x"; "a.yaml.minisig"] => Ok "a.yamlKEY"
    | _ => Err "ENOENT"
    end;
|}.

Definition sub : node := NDir [("a.yaml", NFile); ("a.tests.yaml", NFile)] None.
Definition sub_reversed : node := NDir [("a.tests.yaml", NFile); ("a.yaml", NFile)] None.
Definition rules_dir : node := NDir [("x", sub); ("b.yml", NFile); ("README.md", NFile)] None.
Definition rules_dir_shuffled : node :=
  NDir [("README.md", NFile); ("b.yml", NFile); ("x", sub_reversed)] None.
Definition key : Verifier := mkVerifier minisign "KEY" ["policy.pub"].

Lemma shuffled : node_perm rules_dir rules_dir_shuffled.
Proof.
  apply NP_dir with (es := [("README.md", NFile); ("b.yml", NFile); ("x", sub)]).
  - apply (Permutation_rev [("x", sub); ("b.yml", NFile); ("README.md", NFile)]).
  - repeat constructor. simpl. apply NP_dir with (es := [("a.tests.yaml", NFile); ("a.yaml", NFile)]).
    + constructor.
    + repeat constructor.
Qed.

Lemma load_dir_deterministic_witness :
  load_dir_maybe_verified (disk rules_dir) ["rules"] (Some key)
    = load_dir_maybe_verified (disk rules_dir_shuffled) ["rules"] (Some key) \/
  exists e1 e2, load_dir_maybe_verified (disk rules_dir) ["rules"] (Some key) = Err (Io e1) /\
    load_dir_maybe_verified (disk rules_dir_shuffled) ["rules"] (Some key) = Err (Io e2).
Proof.
  apply (load_dir_deterministic (disk rules_dir) (disk rules_dir_shuffled) ["rules"] (Some key)
    rules_dir rules_dir_shuffled); try reflexivity; [|apply shuffled].
  intros e p. split; [reflexivity|]. split; [reflexivity|]. unfold fs_exists, disk. simpl. by destruct (bool_decide (p = _)).
Defined.

Lemma load_dir_verified_signed_witness :
  exists rules, load_dir_verified (disk rules_dir) ["rules"] key = Ok rules /\ length rules = 2 /\
  exists entries, walk_yaml (disk rules_dir) ["rules"] = Ok entries /\
    Forall2 (fun entry rule => loaded_from (disk rules_dir) entry rule /\ rule_wf rule /\
        exists bytes, signed_under (lf_check (disk rules_dir) entry) "KEY" entry bytes)
      (filter (fun e => is_test_fixture e = false) entries) rules.
Proof.
  destruct (load_dir_verified (disk rules_dir) ["rules"] key) as [rules|e] eqn:E;
    [|vm_compute in E; discriminate].
  exists rules. split; [reflexivity|].
  destruct (load_dir_verified_signed (disk rules_dir) ["rules"] key rules E) as (entries & Hw & _ & Hf).
  split; [vm_compute in E; injection E as <-; reflexivity|].
  exists entries. split; [exact Hw|exact Hf].
Defined.

(** A file that is replaced between the two reads: the rule that is loaded is not the
    one whose signature was checked, and no signature covers it. *)
Definition swapped : LiveFs :=
  mkLiveFs (mkFileSystem (fs_tree (disk rules_dir)) (fun _ => Ok "evil") (fs_read_to_string (disk rules_dir)))
    (lf_check (disk rules_dir)).

Theorem rule_swapped_between_reads :
  exists rules, load_dir_verified swapped ["rules"] key = Ok rules /\ cr_id <$> rules = ["evil"; "evil"] /\
    key_verify (vf_public_key key) "evil" "b.ymlKEY" = false /\ key_verify (vf_public_key key) "evil" "a.yamlKEY" = false.
Proof. eexists. split; [vm_compute; reflexivity|]. vm_compute. done. Qed.
End StoreWitnesses.
