(* ===== verification/Bus.v ===== *)
(** * The event bus

    Models crates/selfdef-bus/src/lib.rs: the errors of the bus and the mapping
    of the results of tokio's broadcast channel to them. The channel itself is
    third-party: a run of a consumer is a run over the sequence of results that
    its receiver returned. *)

From S2P Require Import Prelude Core.
From stdpp Require Import options.

Inductive BusError :=
| NoSubscribers
| Lagged (n : Z)
| Closed.

(** The results of tokio's [Sender::send], [Receiver::recv] and
    [Receiver::try_recv]. *)
Inductive RecvError := RecvLagged (n : Z) | RecvClosed.
Inductive TryRecvError := TryEmpty | TryLagged (n : Z) | TryClosed.

Definition publish (sent : result nat Event) : result nat BusError :=
  match sent with
  | Ok n => Ok n
  | Err _ => Err NoSubscribers
  end.

Definition recv (r : result Event RecvError) : result Event BusError :=
  match r with
  | Ok e => Ok e
  | Err (RecvLagged n) => Err (Lagged n)
  | Err RecvClosed => Err Closed
  end.

Definition try_recv (r : result Event TryRecvError) : result (option Event) BusError :=
  match r with
  | Ok e => Ok (Some e)
  | Err TryEmpty => Ok None
  | Err (TryLagged n) => Err (Lagged n)
  | Err TryClosed => Err Closed
  end.
