(* ===== verification/Store.v ===== *)
(** * The hot event store

    Models crates/selfdef-store/src (lib.rs and sqlite.rs), the store sink of
    crates/selfdef-daemon/src/main.rs and the retention sweep of
    crates/selfdef-daemon/src/retention_sweep_loop.rs.

    SQLite is outside: a table is a map from the primary key to the row, the order
    in which a query meets rows that its [ORDER BY] does not separate comes from
    [EventSql], and every statement may fail as a whole. The JSON text of an event
    comes from serde ([EventText]). The mutex around the connection makes every
    statement atomic, so the sink and the sweep are an interleaving of whole
    operations. *)

From S2P Require Import Prelude Core Bus.
From stdpp Require Import options.

(** ** Rows *)

(** [x as i64]. *)
Definition wrap_i64 (x : Z) : Z := (x + 2 ^ 63) `mod` 2 ^ 64 - 2 ^ 63.
Definition i64_min : Z := - 2 ^ 63.
Definition i64_max : Z := 2 ^ 63 - 1.

(** The columns of the table [events]; the key [id] is the key of the map. *)
Record EventRow := mkEventRow {
  er_schema : Z;
  er_time_ns : Z;
  er_category_uid : Z;
  er_class_uid : Z;
  er_activity_id : Z;
  er_type_uid : Z;
  er_severity_id : Z;
  er_status_id : option Z;
  er_host_tag : string;
  er_source : string;
  er_sequence : Z;
  er_payload : string;
}.

Abbreviation EventTable := (gmap Z EventRow).

(** The database: its [user_version] and the table, once it is created. *)
Record StoreDb := mkStoreDb {
  db_user_version : Z;
  db_events : option EventTable;
}.

(** A statement that fails: in SQLite, or because its task was cancelled. *)
Inductive StoreFault :=
| SqliteFault (reason : string)
| JoinFault (reason : string).

Inductive StoreError :=
| StoreSqlite (reason : string)
| StoreIo (reason : string)
| StoreSerde (reason : string)
| StoreJoin (reason : string)
| BadMigration (applied current : Z).

Definition fault_error (f : StoreFault) : StoreError :=
  match f with SqliteFault r => StoreSqlite r | JoinFault r => StoreJoin r end.

(** The texts of serde, and the row order of SQLite. *)
Class EventText := {
  event_to_string : Event -> result string string;
  event_from_str : string -> result Event string;
}.

Class EventSql := {
  scan_events : EventTable -> list (Z * EventRow);
  scan_events_perm t : scan_events t ≡ₚ map_to_list t;
}.

(** ** Opening *)

(** A migration is the creation of the table and its indices, if it does not exist. *)
Definition initial_sql (db : StoreDb) : StoreDb :=
  mkStoreDb (db_user_version db) (Some (default ∅ (db_events db))).

Definition MIGRATIONS : list (StoreDb -> StoreDb) := [initial_sql].

(** The loop over the migrations that are left. [fault] answers for each statement:
    the batch and the update of the version are two of them, and a failure leaves
    the database as it was before the statement that failed. *)
Fixpoint apply_migrations (todo : list (StoreDb -> StoreDb)) (fault : nat -> option string) (at_ : nat) (db : StoreDb) :
    result unit StoreError * StoreDb :=
  match todo with
  | [] => (Ok tt, db)
  | sql :: todo =>
      match fault at_ with
      | Some e => (Err (StoreSqlite e), db)
      | None =>
          let db := sql db in
          match fault (S at_) with
          | Some e => (Err (StoreSqlite e), db)
          | None => apply_migrations todo fault (S (S at_)) (mkStoreDb (db_user_version db + 1) (db_events db))
          end
      end
  end.

(** [migrate]; the version is a [u32], reading it is the statement 0. *)
Definition migrate (fault : nat -> option string) (db : StoreDb) : result unit StoreError * StoreDb :=
  match fault 0 with
  | Some e => (Err (StoreSqlite e), db)
  | None =>
      let current := db_user_version db in
      if (SCHEMA_VERSION <? current)%Z then (Err (BadMigration current SCHEMA_VERSION), db)
      else apply_migrations (drop (Z.to_nat current) MIGRATIONS) fault 1 db
  end.

Definition integrity_check (quick_check : result string string) : result unit string :=
  match quick_check with
  | Err e => Err ("quick_check query failed: " +:+ e)
  | Ok r => if bool_decide (r = "ok") then Ok tt else Err r
  end.

(** [open]: the directory, the file and its pragmas answer with [prepared]; a failed
    integrity check is reported and does not stop the opening. *)
Definition store_open (prepared : result unit StoreError) (quick_check : result string string)
    (fault : nat -> option string) (db : StoreDb) : result unit StoreError * option string * StoreDb :=
  match prepared with
  | Err e => (Err e, None, db)
  | Ok _ =>
      let report := match integrity_check quick_check with Ok _ => None | Err detail => Some detail end in
      let '(res, db) := migrate fault db in (res, report, db)
  end.

(** ** Operations *)

Section operations.
Context `{EventText} `{EventSql}.

Definition event_row (event : Event) (payload : string) : EventRow := {|
  er_schema := ev_schema event;
  er_time_ns := wrap_i64 (ev_time_dt event);
  er_category_uid := category_u32 (ev_category_uid event);
  er_class_uid := ev_class_uid event;
  er_activity_id := ev_activity_id event;
  er_type_uid := wrap_i64 (ev_type_uid event);
  er_severity_id := severity_u32 (ev_severity_id event);
  er_status_id := status_u32 <$> ev_status_id event;
  er_host_tag := ev_host_tag event;
  er_source := ev_source event;
  er_sequence := wrap_i64 (m_sequence (ev_metadata event));
  er_payload := payload |}.

Definition insert (event : Event) (fault : option StoreFault) (t : EventTable) : result unit StoreError * EventTable :=
  match event_to_string event with
  | Err e => (Err (StoreSerde e), t)
  | Ok payload =>
      match fault with
      | Some f => (Err (fault_error f), t)
      | None =>
          match t !! ev_id event with
          | Some _ => (Err (StoreSqlite "UNIQUE constraint failed: events.id"), t)
          | None => (Ok tt, <[ev_id event := event_row event payload]> t)
          end
      end
  end.

Definition count (fault : option StoreFault) (t : EventTable) : result Z StoreError :=
  match fault with
  | Some f => Err (fault_error f)
  | None => Ok (Z.of_nat (size t))
  end.

(** [ORDER BY time_ns DESC, sequence DESC]. *)
Definition newest_le (a b : Z * EventRow) : Prop :=
  (er_time_ns b.2 < er_time_ns a.2)%Z \/
  er_time_ns a.2 = er_time_ns b.2 /\ (er_sequence b.2 <= er_sequence a.2)%Z.
#[global] Instance newest_le_dec : RelDecision newest_le.
Proof. intros a b. unfold newest_le. apply _. Defined.

Definition newest_rows (t : EventTable) : list (Z * EventRow) := merge_sort newest_le (scan_events t).

(** The collection of the parsed payloads: the first text that does not parse is
    the answer. *)
Fixpoint parse_payloads (rows : list string) : result (list Event) StoreError :=
  match rows with
  | [] => Ok []
  | s :: rows =>
      match event_from_str s with
      | Err e => Err (StoreSerde e)
      | Ok ev => let? evs := parse_payloads rows in Ok (ev :: evs)
      end
  end.

Definition query_newest (limit : nat) (fault : option StoreFault) (t : EventTable) : result (list Event) StoreError :=
  match fault with
  | Some f => Err (fault_error f)
  | None => parse_payloads (er_payload ∘ snd <$> take limit (newest_rows t))
  end.

Definition recent (limit : nat) (fault : option StoreFault) (t : EventTable) : result (list Event) StoreError :=
  query_newest limit fault t.

(** [WHERE category_uid = 2]. *)
Definition findings (t : EventTable) : EventTable := filter (fun kr => er_category_uid kr.2 = 2%Z) t.

Definition recent_findings (limit : nat) (fault : option StoreFault) (t : EventTable) : result (list Event) StoreError :=
  query_newest limit fault (findings t).

Definition get (id : Z) (fault : option StoreFault) (t : EventTable) : result (option Event) StoreError :=
  match fault with
  | Some f => Err (fault_error f)
  | None =>
      match t !! id with
      | None => Ok None
      | Some r => match event_from_str (er_payload r) with Ok ev => Ok (Some ev) | Err e => Err (StoreSerde e) end
      end
  end.

(** [DELETE FROM events WHERE time_ns < cutoff]. *)
Definition prune_older_than (cutoff_ns : Z) (fault : option StoreFault) (t : EventTable) : result Z StoreError * EventTable :=
  match fault with
  | Some f => (Err (fault_error f), t)
  | None =>
      let kept : EventTable := filter (fun kr => (cutoff_ns <= er_time_ns kr.2)%Z) t in
      (Ok (Z.of_nat (size t) - Z.of_nat (size kept))%Z, kept)
  end.

(** ** The retention sweep *)

Definition NANOS_PER_DAY : Z := 86400 * 1000000000.

(** [clamp] to the range of the column. *)
Definition clamp_i64 (x : Z) : Z := (x `max` i64_min) `min` i64_max.

Definition cutoff (hot_retention_days now_ns : Z) : Z := clamp_i64 (now_ns - hot_retention_days * NANOS_PER_DAY).

(** One pass: what the metrics record, and the table. *)
Definition sweep_once (hot_retention_days now_ns : Z) (fault : option StoreFault) (t : EventTable) :
    option Z * EventTable :=
  match prune_older_than (cutoff hot_retention_days now_ns) fault t with
  | (Ok deleted, t) => (Some deleted, t)
  | (Err _, t) => (None, t)
  end.

(** A tick of [run_retention_sweep_loop], which returns at once when the horizon is 0. *)
Definition retention_tick (hot_retention_days now_ns : Z) (fault : option StoreFault) (t : EventTable) : EventTable :=
  if (hot_retention_days =? 0)%Z then t else (sweep_once hot_retention_days now_ns fault t).2.

(** ** The sink *)

Record Sink := mkSink {
  sk_written : Z;
  sk_lagged : Z;
  sk_running : bool;
}.

Definition saturating_add_u64 (x y : Z) : Z := (x + y) `min` u64_max.

(** An event reaches the store, or its failure is logged. *)
Definition sink_event (event : Event) (fault : option StoreFault) (st : Sink * EventTable) : Sink * EventTable :=
  let '(k, t) := st in
  match insert event fault t with
  | (Ok _, t) => (mkSink (wrapping_add_u64 (sk_written k) 1) (sk_lagged k) (sk_running k), t)
  | (Err _, t) => (k, t)
  end.

Definition sink_lag (n : Z) (k : Sink) : Sink := mkSink (sk_written k) (saturating_add_u64 (sk_lagged k) n) (sk_running k).
Definition sink_stop (k : Sink) : Sink := mkSink (sk_written k) (sk_lagged k) false.

(** The drain of the backlog: what the receiver answers, with the answer of the
    database for an event. The sink stops at the end of it. *)
Fixpoint sink_drain (backlog : list (result Event TryRecvError * option StoreFault)) (st : Sink * EventTable) :
    Sink * EventTable :=
  match backlog with
  | [] => st
  | (r, fault) :: backlog =>
      match try_recv r with
      | Ok (Some event) => sink_drain backlog (sink_event event fault st)
      | Ok None => (sink_stop st.1, st.2)
      | Err (Lagged n) => sink_drain backlog (sink_lag n st.1, st.2)
      | Err _ => (sink_stop st.1, st.2)
      end
  end.

(** What happens to the store while the daemon runs: the sink wakes up, or the
    sweep ticks, or the sink drains its backlog at shutdown. *)
Inductive StoreInput :=
| Received (r : result Event RecvError) (fault : option StoreFault)
| Shutdown (backlog : list (result Event TryRecvError * option StoreFault))
| Tick (now_ns : Z) (fault : option StoreFault).

Definition store_step (hot_retention_days : Z) (i : StoreInput) (st : Sink * EventTable) : Sink * EventTable :=
  let '(k, t) := st in
  match i with
  | Tick now fault =>
      (k, retention_tick hot_retention_days now fault t)
  | Shutdown backlog => if sk_running k then sink_drain backlog st else st
  | Received r fault =>
      if sk_running k then
        match recv r with
        | Ok event => sink_event event fault st
        | Err (Lagged n) => (sink_lag n k, t)
        | Err Closed => (sink_stop k, t)
        | Err _ => st
        end
      else st
  end.

Definition store_run (hot_retention_days : Z) (inputs : list StoreInput) (st : Sink * EventTable) : Sink * EventTable :=
  foldl (fun st i => store_step hot_retention_days i st) st inputs.
End operations.
