(* ===== verification/StoreProps.v ===== *)
(** * Properties of the hot event store

    An abstract store is the list of the events it holds, in the order of their
    arrival. The table of the model represents such a list after any run of the
    sink and the sweep, and every query answers from it. *)

From S2P Require Import Prelude Core Bus Store.
From stdpp Require Import options.

(** ** The abstract store *)

(** What serde keeps of an event: the local provenance markers are skipped. *)
Definition unmarked (e : Event) : Event := with_federation_verified false (with_federated false e).

Class EventTextLaws `{EventText} := {
  event_text_read_back e s : event_to_string e = Ok s -> event_from_str s = Ok (unmarked e);
}.

(** What the inputs of a run ask of the store. *)
Inductive StoreOp :=
| Put (event : Event) (fault : option StoreFault)
| Prune (cutoff_ns : Z) (fault : option StoreFault).

Section spec.
Context `{EventText}.

(** An event is kept if it has a text, the database answers and its id is new. *)
Definition keeps (e : Event) (fault : option StoreFault) (l : list Event) : bool :=
  is_ok (event_to_string e) && bool_decide (fault = None) && bool_decide (ev_id e ∉ ev_id <$> l).

Definition spec_op (op : StoreOp) (l : list Event) : list Event :=
  match op with
  | Put e fault => if keeps e fault l then l ++ [e] else l
  | Prune c None => filter (fun e => (c <= wrap_i64 (ev_time_dt e))%Z) l
  | Prune _ (Some _) => l
  end.

Definition spec_ops (ops : list StoreOp) (l : list Event) : list Event := foldl (fun l op => spec_op op l) l ops.

(** The backlog up to the answer that ends the drain, and whether there is one. *)
Fixpoint drain_ops (backlog : list (result Event TryRecvError * option StoreFault)) : list StoreOp * bool :=
  match backlog with
  | [] => ([], true)
  | (Ok e, fault) :: backlog => let '(ops, r) := drain_ops backlog in (Put e fault :: ops, r)
  | (Err (TryLagged _), _) :: backlog => drain_ops backlog
  | (Err _, _) :: _ => ([], false)
  end.

Definition input_ops (days : Z) (i : StoreInput) (running : bool) : list StoreOp * bool :=
  match i with
  | Tick now fault => (if (days =? 0)%Z then [] else [Prune (cutoff days now) fault], running)
  | Shutdown backlog => if running then drain_ops backlog else ([], false)
  | Received r fault =>
      if running then
        match r with
        | Ok e => ([Put e fault], true)
        | Err (RecvLagged _) => ([], true)
        | Err RecvClosed => ([], false)
        end
      else ([], false)
  end.

Fixpoint run_ops (days : Z) (inputs : list StoreInput) (running : bool) : list StoreOp :=
  match inputs with
  | [] => []
  | i :: inputs => let '(ops, running) := input_ops days i running in ops ++ run_ops days inputs running
  end.

Definition payload_of (e : Event) : string := match event_to_string e with Ok s => s | Err _ => "" end.
Definition entry (e : Event) : Z * EventRow := (ev_id e, event_row e (payload_of e)).

Definition represents (t : EventTable) (l : list Event) : Prop :=
  NoDup (ev_id <$> l) /\ Forall (fun e => is_ok (event_to_string e) = true) l /\ t = list_to_map (entry <$> l).

Lemma entry_keys l : (entry <$> l).*1 = ev_id <$> l.
Proof. rewrite <-list_fmap_compose. by apply list_fmap_ext. Qed.

Lemma represents_empty : represents ∅ [].
Proof. split; [constructor|]. split; [constructor|done]. Qed.

Lemma represents_lookup t l e : represents t l -> e ∈ l -> t !! ev_id e = Some (entry e).2.
Proof.
  intros (Hn & _ & ->) He. apply elem_of_list_to_map_1; [by rewrite entry_keys|].
  apply list_elem_of_fmap. by exists e.
Qed.

Lemma represents_lookup_inv t l id r :
  represents t l -> t !! id = Some r -> exists e, e ∈ l /\ ev_id e = id /\ r = event_row e (payload_of e).
Proof.
  intros (_ & _ & ->) Hl. apply elem_of_list_to_map_2, list_elem_of_fmap in Hl as (e & Heq & He).
  exists e. unfold entry in Heq. by simplify_eq.
Qed.

Lemma represents_fresh t l id : represents t l -> t !! id = None <-> id ∉ ev_id <$> l.
Proof. intros (Hn & _ & ->). rewrite <-not_elem_of_list_to_map. by rewrite entry_keys. Qed.

Lemma represents_insert t l e fault :
  represents t l -> let '(res, t') := insert e fault t in
  represents t' (spec_op (Put e fault) l) /\ is_ok res = keeps e fault l.
Proof.
  intros Hr. pose proof (represents_fresh t l (ev_id e) Hr) as Hf. destruct Hr as (Hn & Ho & Ht).
  unfold insert. simpl. unfold keeps. destruct (event_to_string e) as [s|err] eqn:Es; simpl; [|done].
  destruct fault as [f|]; simpl; [done|]. destruct (t !! ev_id e) as [r|] eqn:El.
  - rewrite (bool_decide_false (ev_id e ∉ _)) by (intros Hx; by apply Hf in Hx). done.
  - rewrite (bool_decide_true (ev_id e ∉ _)) by (by apply Hf). split; [|done]. split_and!.
    + rewrite fmap_app. apply NoDup_app. split; [done|]. split; [|apply NoDup_singleton].
      intros x Hx ->%list_elem_of_singleton. by apply (proj1 Hf).
    + rewrite Forall_app, Forall_singleton. by rewrite Es.
    + rewrite fmap_app. simpl. unfold entry at 2. rewrite list_to_map_snoc.
      * unfold payload_of. by rewrite Es, <-Ht.
      * rewrite entry_keys. by apply Hf.
Qed.

Lemma represents_filter (P : Z * EventRow -> Prop) `{!forall kr, Decision (P kr)} (Q : Event -> Prop)
    `{!forall e, Decision (Q e)} t l :
  (forall e, P (entry e) <-> Q e) -> represents t l -> represents (filter P t) (filter Q l).
Proof.
  intros HPQ (Hn & Ho & ->). split_and!.
  - eapply sublist_NoDup; [done|]. apply fmap_sublist, sublist_filter.
  - rewrite Forall_forall in *. intros e [_ He]%list_elem_of_filter. by apply Ho.
  - clear Ho. induction l as [|e l IH]; [apply map_filter_empty|].
    csimpl. rewrite fmap_cons in Hn. apply NoDup_cons in Hn as [Hni Hn]. rewrite map_filter_insert, filter_cons.
    change (event_row e (payload_of e)) with (entry e).2.
    destruct (decide (Q e)) as [HQ|HQ].
    + rewrite decide_True by (by apply HPQ). csimpl. by rewrite IH.
    + rewrite decide_False by (rewrite <-HPQ in HQ; exact HQ). rewrite delete_id, IH by (done || (apply not_elem_of_list_to_map; by rewrite entry_keys)).
      done.
Qed.

Lemma represents_size t l : represents t l -> size t = length l.
Proof. intros (Hn & _ & ->). rewrite map_size_list_to_map by (by rewrite entry_keys). by rewrite length_fmap. Qed.

Lemma represents_prune t l c fault :
  represents t l -> represents (prune_older_than c fault t).2 (spec_op (Prune c fault) l).
Proof.
  intros Hr. destruct fault; simpl; [done|]. apply represents_filter; [|done]. done.
Qed.

(** ** The run *)

Lemma sink_event_spec e fault k t l :
  represents t l -> represents (sink_event e fault (k, t)).2 (spec_op (Put e fault) l) /\
  sk_running (sink_event e fault (k, t)).1 = sk_running k.
Proof.
  intros Hr. pose proof (represents_insert t l e fault Hr) as Hi. unfold sink_event.
  destruct (insert e fault t) as [[?|?] t']; by destruct Hi.
Qed.

Lemma sink_drain_spec backlog k t l :
  represents t l -> sk_running k = true ->
  represents (sink_drain backlog (k, t)).2 (spec_ops (drain_ops backlog).1 l) /\
  sk_running (sink_drain backlog (k, t)).1 = (drain_ops backlog).2.
Proof.
  revert k t l. induction backlog as [|[[e|[|n|]] fault] backlog IH]; intros k t l Hr Hk; cbn [sink_drain drain_ops try_recv]; try done.
  - destruct (sink_event_spec e fault k t l Hr) as [Hr' Hk']. destruct (sink_event e fault (k, t)) as [k' t'].
    destruct (IH k' t' _ Hr') as [IH1 IH2]; [by rewrite <-Hk, <-Hk'|]. destruct (drain_ops backlog). split; [exact IH1|exact IH2].
  - by apply IH.
Qed.

Lemma store_step_spec days i k t l :
  represents t l ->
  represents (store_step days i (k, t)).2 (spec_ops (input_ops days i (sk_running k)).1 l) /\
  sk_running (store_step days i (k, t)).1 = (input_ops days i (sk_running k)).2.
Proof.
  intros Hr. destruct i as [r fault|backlog|now fault]; cbn [store_step input_ops].
  - destruct (sk_running k) eqn:Hk; [|done]. destruct r as [e|[n|]]; cbn [recv]; [|done|done].
    destruct (sink_event_spec e fault k t l Hr) as [H1 H2]. split; [exact H1|by rewrite H2].
  - destruct (sk_running k) eqn:Hk; [by apply sink_drain_spec|done].
  - split; [|done]. unfold retention_tick. destruct (days =? 0)%Z; [done|]. simpl. pose proof (represents_prune t l (cutoff days now) fault Hr) as Hp.
    unfold sweep_once. by destruct (prune_older_than _ _ _) as [[?|?] ?].
Qed.

Lemma store_run_spec days inputs k t l :
  represents t l -> represents (store_run days inputs (k, t)).2 (spec_ops (run_ops days inputs (sk_running k)) l).
Proof.
  revert k t l. induction inputs as [|i inputs IH]; intros k t l Hr; [done|].
  destruct (store_step_spec days i k t l Hr) as [Hr' Hk]. cbn [run_ops]. unfold store_run. cbn [foldl].
  destruct (store_step days i (k, t)) as [k' t']. specialize (IH k' t' _ Hr'). simpl in Hk. rewrite Hk in IH.
  destruct (input_ops days i (sk_running k)) as [ops running]. unfold spec_ops in *. rewrite foldl_app. exact IH.
Qed.
End spec.

(** ** The specification

    Written on the events alone, without the table, its columns or its queries. *)

(** The value of the low 64 bits, read with a sign. *)
Definition signed64 (x : Z) : Z :=
  let low := (x `mod` 2 ^ 64)%Z in if (low <? 2 ^ 63)%Z then low else (low - 2 ^ 64)%Z.

Lemma wrap_signed x : wrap_i64 x = signed64 x.
Proof.
  unfold wrap_i64, signed64. cbv zeta. rewrite <-Z.add_mod_idemp_l by lia.
  pose proof (Z.mod_pos_bound x (2 ^ 64) ltac:(lia)) as Hb.
  destruct (Z.ltb_spec (x `mod` 2 ^ 64) (2 ^ 63)) as [Hl|Hl].
  - rewrite Z.mod_small by lia. lia.
  - rewrite <-(Z.mod_unique (x `mod` 2 ^ 64 + 2 ^ 63) (2 ^ 64) 1 (x `mod` 2 ^ 64 - 2 ^ 63)); lia.
Qed.

(** Newest first: the later time before the earlier, and at one time the higher sequence
    number before the lower, both as 64-bit numbers. *)
Definition newer (a b : Event) : Prop :=
  let time e := signed64 (ev_time_dt e) in let sequence e := signed64 (m_sequence (ev_metadata e)) in
  (time a > time b)%Z \/ time a = time b /\ (sequence a >= sequence b)%Z.

(** At [now], an event is older than the days it is kept; the last representable instant
    is never older. *)
Definition expired (days now : Z) (e : Event) : Prop :=
  (signed64 (ev_time_dt e) < now - days * (24 * 60 * 60 * 1000000000))%Z /\ signed64 (ev_time_dt e) <> (2 ^ 63 - 1)%Z.
#[global] Instance expired_dec days now e : Decision (expired days now e).
Proof. unfold expired. apply _. Defined.

Section holds.
Context `{EventText}.

(** The events of the backlog that arrive before the receiver is empty or closed. *)
Fixpoint drains (backlog : list (result Event TryRecvError * option StoreFault)) (l : list Event) : bool * list Event :=
  match backlog with
  | [] => (true, l)
  | (Ok e, fault) :: backlog => drains backlog (if keeps e fault l then l ++ [e] else l)
  | (Err (TryLagged _), _) :: backlog => drains backlog l
  | (Err _, _) :: _ => (false, l)
  end.

(** What one input does to the events held; the sink stops for good. *)
Definition input_holds (days : Z) (i : StoreInput) (s : bool * list Event) : bool * list Event :=
  match i, s with
  | Tick now None, (running, l) => (running, if bool_decide (days = 0%Z) then l else filter (fun e => ~ expired days now e) l)
  | Tick _ (Some _), _ => s
  | _, (false, l) => (false, l)
  | Received (Ok e) fault, (true, l) => (true, if keeps e fault l then l ++ [e] else l)
  | Received (Err (RecvLagged _)) _, (true, l) => (true, l)
  | Received (Err RecvClosed) _, (true, l) => (false, l)
  | Shutdown backlog, (true, l) => drains backlog l
  end.

(** The lives of the daemon, each with its horizon and what happened in it. *)
Definition holds (lives : list (Z * list StoreInput)) : list Event :=
  foldl (fun l life => (foldl (fun s i => input_holds life.1 i s) (true, l) life.2).2) [] lives.

Lemma signed64_range x : (- 2 ^ 63 <= signed64 x <= 2 ^ 63 - 1)%Z.
Proof using Type.
  unfold signed64. cbv zeta. pose proof (Z.mod_pos_bound x (2 ^ 64) ltac:(lia)) as Hb.
  destruct (Z.ltb_spec (x `mod` 2 ^ 64) (2 ^ 63)); lia.
Qed.

Lemma cutoff_expired days now e : (cutoff days now <= wrap_i64 (ev_time_dt e))%Z <-> ~ expired days now e.
Proof using Type.
  rewrite wrap_signed. pose proof (signed64_range (ev_time_dt e)) as Hr.
  unfold expired, cutoff, clamp_i64, i64_min, i64_max, NANOS_PER_DAY. lia.
Qed.

Lemma drains_ops backlog l : drains backlog l = ((drain_ops backlog).2, spec_ops (drain_ops backlog).1 l).
Proof using Type.
  revert l. induction backlog as [|[[e|[|n|]] fault] backlog IH]; intros l; simpl; try done.
  rewrite IH. by destruct (drain_ops backlog).
Qed.

Lemma input_holds_ops days i running l :
  input_holds days i (running, l) = ((input_ops days i running).2, spec_ops (input_ops days i running).1 l).
Proof using Type.
  destruct i as [r fault|backlog|now fault]; simpl.
  - by destruct running, r as [e|[n|]].
  - destruct running; [|done]. apply drains_ops.
  - destruct (Z.eqb_spec days 0) as [->|Hne]; [by destruct fault|]. rewrite bool_decide_false by done.
    destruct fault; [done|]. simpl. f_equal. apply list_filter_iff. intros e. symmetry. apply cutoff_expired.
Qed.

Lemma life_holds days inputs running l :
  (foldl (fun s i => input_holds days i s) (running, l) inputs).2 = spec_ops (run_ops days inputs running) l.
Proof using Type.
  revert running l. induction inputs as [|i inputs IH]; intros running l; [done|]. cbn [foldl run_ops].
  rewrite input_holds_ops. destruct (input_ops days i running) as [ops running']. simpl. rewrite IH.
  unfold spec_ops. by rewrite foldl_app.
Qed.

(** The table after the lives: each opens the one that the life before left. *)
Definition store_lives (lives : list (Z * list StoreInput)) : EventTable :=
  foldl (fun t life => (store_run life.1 life.2 (mkSink 0 0 true, t)).2) ∅ lives.

Lemma lives_represent lives : represents (store_lives lives) (holds lives).
Proof using Type.
  unfold store_lives, holds. assert (Hinv : forall t l, represents t l ->
    represents (foldl (fun t life => (store_run life.1 life.2 (mkSink 0 0 true, t)).2) t lives)
      (foldl (fun l life => (foldl (fun s i => input_holds life.1 i s) (true, l) life.2).2) l lives)).
  { induction lives as [|[days inputs] lives IH]; intros t l Hr; [done|]. cbn [foldl fst snd]. apply IH.
    rewrite life_holds. by apply (store_run_spec days inputs (mkSink 0 0 true)). }
  apply Hinv, represents_empty.
Qed.

Lemma newest_newer a b : newest_le (entry a) (entry b) -> newer a b.
Proof using Type. unfold newest_le, newer. simpl. rewrite !wrap_signed. lia. Qed.
End holds.

(** ** Queries *)

Section queries.
Context `{EventTextLaws} `{EventSql}.
#[local] Set Default Proof Using "Type*".

#[local] Instance newest_le_total : Total newest_le.
Proof using Type. intros a b. unfold newest_le. lia. Qed.
#[local] Instance newest_le_trans : Transitive newest_le.
Proof using Type. intros a b c. unfold newest_le. lia. Qed.

Lemma parse_payloads_of l :
  Forall (fun e => is_ok (event_to_string e) = true) l ->
  parse_payloads (er_payload ∘ snd <$> (entry <$> l)) = Ok (unmarked <$> l).
Proof.
  induction 1 as [|e l He _ IH]; [done|]. csimpl. unfold payload_of at 1.
  destruct (event_to_string e) as [s|] eqn:Es; [|done]. rewrite (event_text_read_back e s Es).
  by rewrite IH.
Qed.

Lemma StronglySorted_fmap_inv {A B} (f : A -> B) (R : relation B) (l : list A) :
  StronglySorted R (f <$> l) -> StronglySorted (fun a b => R (f a) (f b)) l.
Proof using Type.
  induction l as [|a l IH]; csimpl; [constructor|]. intros [Hs Hf]%StronglySorted_inv. constructor; [by apply IH|].
  rewrite Forall_fmap in Hf. exact Hf.
Qed.

Lemma StronglySorted_impl {A} (R S : relation A) l :
  (forall a b, R a b -> S a b) -> StronglySorted R l -> StronglySorted S l.
Proof using Type. intros HRS. induction 1 as [|a l _ IH Hf]; constructor; [done|]. eapply Forall_impl; [exact Hf|]. intros b. apply HRS. Qed.

Lemma query_newest_spec t l :
  represents t l -> exists l', l' ≡ₚ l /\ StronglySorted newer l' /\
    forall limit, query_newest limit None t = Ok (unmarked <$> take limit l').
Proof.
  intros (Hn & Ho & ->). unfold query_newest, newest_rows. set (t := list_to_map _).
  assert (Hp : merge_sort newest_le (scan_events t) ≡ₚ entry <$> l).
  { rewrite merge_sort_Permutation, scan_events_perm. apply map_to_list_to_map. by rewrite entry_keys. }
  pose proof (StronglySorted_merge_sort newest_le (scan_events t)) as Hs.
  apply Permutation_map_inv in Hp as (l' & Hl & Hp). fold (entry <$> l') in Hl.
  change (map entry l') with (entry <$> l') in Hl. rewrite Hl in *. exists l'. split; [done|].
  split; [eapply StronglySorted_impl; [|exact (StronglySorted_fmap_inv entry newest_le l' Hs)]; apply newest_newer|]. intros limit. rewrite <-fmap_take. apply parse_payloads_of.
  apply Forall_take. by rewrite <-Hp.
Qed.

(** The event of an id. *)
Definition find_event (id : Z) (l : list Event) : option Event := head (filter (fun e => ev_id e = id) l).

Lemma get_spec t l id : represents t l -> get id None t = Ok (unmarked <$> find_event id l).
Proof.
  intros Hr. unfold get, find_event. destruct (filter _ l) as [|e l'] eqn:Ef.
  - rewrite (proj2 (represents_fresh t l id Hr)); [done|]. intros (e & -> & He)%list_elem_of_fmap.
    apply (filter_nil_not_elem_of _ _ e Ef); [done|done].
  - assert (He : e ∈ filter (fun e => ev_id e = id) l) by (rewrite Ef; left).
    apply list_elem_of_filter in He as [<- He]. rewrite (represents_lookup t l e Hr He). simpl.
    destruct Hr as (_ & Ho & _). rewrite Forall_forall in Ho. specialize (Ho e He). unfold payload_of.
    destruct (event_to_string e) as [s|] eqn:Es; [|done]. by rewrite (event_text_read_back e s Es).
Qed.

(** C39: The hot store holds exactly the events that the sink received and the sweep did
    not remove. Over any number of lives of the daemon on one database, each with any run
    of the sink and the retention sweep, with lags, failed statements, repeated ids and a
    drained backlog at shutdown, the count is the number of the events held, an id is
    answered with the event that arrived first under it, and the recent events and the
    recent findings are the newest ones: latest time first, at one time the highest
    sequence number first, both read as signed 64-bit numbers. The events held are those
    with a text that arrived under a new id while the database answered, less those that a
    successful sweep found more than the horizon's days old. What is read back is the
    event itself except for its local provenance markers. *)
Theorem store_refines (lives : list (Z * list StoreInput)) :
  let t := store_lives lives in
  let l := holds lives in
  count None t = Ok (Z.of_nat (length l)) /\
  (forall id, get id None t = Ok (unmarked <$> find_event id l)) /\
  (exists l', l' ≡ₚ l /\ StronglySorted newer l' /\
     forall limit, recent limit None t = Ok (unmarked <$> take limit l')) /\
  (exists l', l' ≡ₚ filter (fun e => ev_category_uid e = CategoryUid.Findings) l /\ StronglySorted newer l' /\
     forall limit, recent_findings limit None t = Ok (unmarked <$> take limit l')).
Proof.
  cbv zeta. pose proof (lives_represent lives) as Hr.
  split; [by unfold count; erewrite represents_size|]. split; [intros id; by apply get_spec|].
  split; [by apply query_newest_spec|]. apply query_newest_spec, represents_filter; [|done].
  intros e. simpl. by destruct (ev_category_uid e).
Qed.
End queries.

(** ** Retention *)

Section retention.
Context `{EventText}.

Lemma wrap_i64_id x : (i64_min <= x <= i64_max)%Z -> wrap_i64 x = x.
Proof. unfold i64_min, i64_max, wrap_i64. intros. rewrite Z.mod_small; lia. Qed.

Lemma wrap_i64_far x : (2 ^ 63 <= x < 2 ^ 64)%Z -> wrap_i64 x = (x - 2 ^ 64)%Z.
Proof. intros. unfold wrap_i64. rewrite <-(Z.mod_unique (x + 2 ^ 63) (2 ^ 64) 1 (x + 2 ^ 63 - 2 ^ 64)); lia. Qed.

Lemma cutoff_le days now time :
  (i64_min <= time <= i64_max)%Z -> (now <= i64_max)%Z -> (0 <= days)%Z ->
  (cutoff days now <= time)%Z <-> (now - days * NANOS_PER_DAY <= time)%Z.
Proof. unfold cutoff, clamp_i64, i64_min, i64_max, NANOS_PER_DAY. lia. Qed.

(** The events that inputs put into the store, were it running. *)
Definition put_ids (ops : list StoreOp) : list Z :=
  omap (fun op => match op with Put e _ => Some (ev_id e) | Prune _ _ => None end) ops.

(** What the successful sweeps among operations keep. *)
Definition survives (e : Event) (op : StoreOp) : Prop :=
  match op with Prune c None => (c <= wrap_i64 (ev_time_dt e))%Z | _ => True end.

Lemma spec_ops_keeps e ops l :
  e ∈ l -> ev_id e ∉ put_ids ops -> e ∈ spec_ops ops l <-> Forall (survives e) ops.
Proof.
  intros He Hn. assert (Hgen : forall l, ev_id e ∉ put_ids ops -> e ∈ spec_ops ops l <-> e ∈ l /\ Forall (survives e) ops).
  { clear. induction ops as [|op ops IH]; intros l Hn; [simpl; rewrite Forall_nil; tauto|].
    unfold spec_ops in *. cbn [foldl]. rewrite Forall_cons.
    assert (Hop : e ∈ spec_op op l <-> e ∈ l /\ survives e op).
    { destruct op as [e' f|c [f|]]; simpl.
      - destruct (keeps e' f l); [|tauto]. rewrite elem_of_app, list_elem_of_singleton.
        split; [intros [?| ->]; [done|]|tauto]. exfalso. apply Hn. left.
      - tauto.
      - rewrite list_elem_of_filter. tauto. }
    rewrite IH, Hop; [tauto|]. intros Hx. apply Hn. unfold put_ids in *. destruct op; simpl; [by right|done]. }
  rewrite Hgen by done. tauto.
Qed.
End retention.

(** ** What a run keeps *)

Section retained.
Context `{EventText}.

Lemma spec_ops_origin e ops l : e ∈ spec_ops ops l -> e ∈ l \/ ev_id e ∈ put_ids ops.
Proof.
  revert l. induction ops as [|op ops IH]; intros l; [by left|]. unfold spec_ops in *. cbn [foldl]. intros Hin.
  apply IH in Hin as [Hin|Hin].
  - destruct op as [e' f|c [f|]]; simpl in *; [|by left|].
    + destruct (keeps e' f l); [|by left]. apply elem_of_app in Hin as [?| ->%list_elem_of_singleton]; [by left|].
      right. left.
    + apply list_elem_of_filter in Hin as [_ ?]. by left.
  - right. destruct op; simpl; [by right|done].
Qed.

Definition puts_only (ops : list StoreOp) : Prop := Forall (fun op => exists e f, op = Put e f) ops.

Lemma drain_puts backlog : puts_only (drain_ops backlog).1.
Proof.
  induction backlog as [|[[e|[|n|]] f] backlog IH]; simpl; try (constructor; fail); [|exact IH].
  destruct (drain_ops backlog). simpl in *. constructor; eauto.
Qed.

(** Whether a sweep keeps an event, by the horizon in days. *)
Definition tick_keeps (days : Z) (e : Event) (i : StoreInput) : Prop :=
  match i with Tick now None => (now - days * NANOS_PER_DAY <= ev_time_dt e)%Z | _ => True end.
#[global] Instance tick_keeps_dec days e i : Decision (tick_keeps days e i).
Proof. destruct i as [| |now []]; simpl; apply _. Defined.
Definition tick_in_range (i : StoreInput) : Prop :=
  match i with Tick now _ => (now <= i64_max)%Z | _ => True end.

Lemma puts_survive e ops : puts_only ops -> Forall (survives e) ops.
Proof. intros Hp. eapply Forall_impl; [exact Hp|]. by intros op (e' & f & ->). Qed.

Lemma run_survives days e inputs running :
  (i64_min <= ev_time_dt e <= i64_max)%Z -> (0 <= days)%Z -> Forall tick_in_range inputs ->
  Forall (survives e) (run_ops days inputs running) <-> days = 0%Z \/ Forall (tick_keeps days e) inputs.
Proof.
  intros Ht Hd Hin. revert running. induction Hin as [|i inputs Hi _ IH]; intros running; simpl; [split; auto; right; constructor|].
  destruct (input_ops days i running) as [ops running'] eqn:Ei. rewrite Forall_app, Forall_cons, IH.
  assert (Hops : Forall (survives e) ops <-> days = 0%Z \/ tick_keeps days e i); [|tauto].
  destruct i as [r f|backlog|now f]; simpl in *.
  - split; [by right|]. intros _. destruct running; [|by simplify_eq]. destruct r as [e'|[n|]]; simplify_eq; repeat constructor.
  - split; [by right|]. intros _. destruct running; [|by simplify_eq]. apply puts_survive.
    pose proof (drain_puts backlog) as Hp. by rewrite Ei in Hp.
  - destruct (Z.eqb_spec days 0) as [->|Hne]; simplify_eq; [split; [by left|constructor]|].
    rewrite Forall_singleton. simpl. destruct f; [tauto|]. rewrite wrap_i64_id, cutoff_le by done. tauto.
Qed.

(** Retention is exact. An event that reaches a running sink under a new id, has a text
    and meets no failing statement is in the store at any later point of the run if
    and only if the horizon is 0 or no sweep that succeeded since then was made more
    than the horizon after its time; nothing else removes it, no event of another id
    replaces it and no failing sweep deletes anything. *)
Theorem retained_exact (days : Z) (pre post : list StoreInput) (e : Event) :
  let st := store_run days pre (mkSink 0 0 true, ∅) in
  is_ok (event_to_string e) = true -> (i64_min <= ev_time_dt e <= i64_max)%Z -> (0 <= days)%Z ->
  sk_running st.1 = true -> st.2 !! ev_id e = None ->
  ev_id e ∉ put_ids (run_ops days post true) -> Forall tick_in_range post ->
  (store_run days (pre ++ Received (Ok e) None :: post) (mkSink 0 0 true, ∅)).2 !! ev_id e =
    (if bool_decide (days = 0%Z \/ Forall (tick_keeps days e) post) then Some (event_row e (payload_of e)) else None).
Proof.
  simpl. intros He Ht Hd Hrun Hfresh Hput Hin.
  pose proof (store_run_spec days pre (mkSink 0 0 true) ∅ [] represents_empty) as Hr.
  unfold store_run in *. rewrite foldl_app. destruct (foldl _ (mkSink 0 0 true, ∅) pre) as [k t]. simpl in Hrun, Hfresh, Hr.
  set (l := spec_ops _ _) in Hr. cbn [foldl].
  assert (Hni : ev_id e ∉ ev_id <$> l) by (by apply (represents_fresh t l)).
  assert (Hkeep : keeps e None l = true) by (unfold keeps; rewrite He, !bool_decide_true by done; done).
  destruct (sink_event_spec e None k t l Hr) as [Hr' Hk']. unfold spec_op in Hr'. rewrite Hkeep in Hr'.
  assert (Hs : store_step days (Received (Ok e) None) (k, t) = sink_event e None (k, t)).
  { unfold store_step. rewrite Hrun. reflexivity. }
  rewrite Hs. destruct (sink_event e None (k, t)) as [k' t']. cbn [fst snd] in Hr', Hk'.
  pose proof (store_run_spec days post k' t' _ Hr') as Hr''. rewrite Hk', Hrun in Hr''.
  unfold store_run in Hr''. set (t'' := (foldl _ _ post).2) in *. set (l'' := spec_ops _ _) in Hr''.
  assert (Hkeeps : e ∈ l'' <-> days = 0%Z \/ Forall (tick_keeps days e) post).
  { unfold l''. rewrite spec_ops_keeps; [by apply run_survives| |done]. apply elem_of_app. right. left. }
  case_bool_decide as Hc.
  - apply Hkeeps in Hc. exact (represents_lookup t'' l'' e Hr'' Hc).
  - destruct (t'' !! ev_id e) as [r|] eqn:El; [|done]. exfalso. apply Hc, Hkeeps.
    destruct (represents_lookup_inv t'' l'' _ r Hr'' El) as (e' & He' & Hid & _). pose proof He' as Hsrc.
    apply spec_ops_origin in Hsrc as [Hsrc|Hsrc]; [|by rewrite Hid in Hsrc].
    apply elem_of_app in Hsrc as [Hsrc|Hsrc]; [|by apply list_elem_of_singleton in Hsrc as <-].
    exfalso. apply Hni. rewrite <-Hid. by apply list_elem_of_fmap_2.
Qed.
End retained.

Section far_future.
Context `{EventTextLaws}.
#[local] Set Default Proof Using "Type*".

Lemma unmarked_time e : ev_time_dt (unmarked e) = ev_time_dt e.
Proof using Type. by destruct e. Qed.

(** Events stamped beyond the range of the column do not survive the next sweep. The
    nanoseconds are cut to 64 bits, so a time from April 2262 to July 2554 is stored
    as one before 1970: whatever was received, after a sweep no event with such a
    time can be read, although it is newer than the horizon. *)
Theorem far_future_event_lost (days now id : Z) (inputs : list StoreInput) (ev : Event) :
  (0 < days)%Z -> (0 <= now - days * NANOS_PER_DAY <= i64_max)%Z ->
  get id None (store_run days (inputs ++ [Tick now None]) (mkSink 0 0 true, ∅)).2 = Ok (Some ev) ->
  ~ (2 ^ 63 <= ev_time_dt ev < 2 ^ 64)%Z.
Proof.
  intros Hd Hn Hg Hfar. unfold store_run in Hg. rewrite foldl_app in Hg.
  pose proof (store_run_spec days inputs (mkSink 0 0 true) ∅ [] represents_empty) as Hr. unfold store_run in Hr.
  destruct (foldl _ _ inputs) as [k t]. cbn [snd] in Hr. destruct (store_step_spec days (Tick now None) k t _ Hr) as [Hr' _].
  cbn [foldl] in Hg. set (t' := (store_step _ _ _).2) in *. rewrite (get_spec t' _ id Hr') in Hg.
  cbn [input_ops fst] in Hr', Hg. rewrite (proj2 (Z.eqb_neq days 0)) in Hg by lia.
  unfold find_event in Hg. destruct (filter _ _) as [|e l'] eqn:Ef; [done|].
  assert (ev = unmarked e) as -> by (cbn in Hg; congruence). rewrite unmarked_time in Hfar.
  assert (He : e ∈ e :: l') by left. rewrite <-Ef in He. apply list_elem_of_filter in He as [_ He].
  apply list_elem_of_filter in He as [Hc _]. rewrite wrap_i64_far in Hc by exact Hfar.
  unfold cutoff, clamp_i64, i64_min, i64_max in *. lia.
Qed.
End far_future.

(** Where a migration from the empty version can stop. *)
Lemma migrate_initial fault t :
  let full := Some (default ∅ t) in
  (migrate fault (mkStoreDb 0 t)).2 ∈ [mkStoreDb 0 t; mkStoreDb 0 full; mkStoreDb 1 full].
Proof.
  unfold migrate. destruct (fault 0); [left|]. change (drop _ MIGRATIONS) with [initial_sql].
  cbn [apply_migrations]. destruct (fault 1); [left|]. destruct (fault 2); [right; left|right; right; left].
Qed.

Lemma migrate_current fault t : (migrate fault (mkStoreDb 1 t)).2 = mkStoreDb 1 t.
Proof. unfold migrate. by destruct (fault 0). Qed.

Lemma migrate_later fault v t : (1 < v)%Z ->
  migrate fault (mkStoreDb v t) = (match fault 0 with Some e => Err (StoreSqlite e) | None => Err (BadMigration v 1) end, mkStoreDb v t).
Proof. intros Hl. unfold migrate. destruct (fault 0); [done|]. cbn [db_user_version]. unfold SCHEMA_VERSION. by rewrite (proj2 (Z.ltb_lt 1 v) Hl). Qed.

(** Opening repairs what an interrupted opening left. Wherever a statement of a
    migration failed, opening again leads to the current version with the table
    there, and every row that was stored before is still stored; a database of a
    later version is refused and left alone. *)
Theorem migration_recovers (db : StoreDb) (fault : nat -> option string) :
  (0 <= db_user_version db)%Z -> (db_user_version db <> 0%Z -> db_events db <> None) ->
  let db' := (migrate fault db).2 in
  let '(res, db'') := migrate (fun _ => None) db' in
  if (SCHEMA_VERSION <? db_user_version db)%Z
  then res = Err (BadMigration (db_user_version db) SCHEMA_VERSION) /\ db'' = db
  else res = Ok tt /\ db_user_version db'' = SCHEMA_VERSION /\ db_events db'' = Some (default ∅ (db_events db)).
Proof.
  destruct db as [v t]. cbn [db_user_version db_events]. intros Hv Ht. unfold SCHEMA_VERSION.
  destruct (Z.ltb_spec 1 v) as [Hl|Hl]; [cbn zeta; rewrite migrate_later by exact Hl; cbn [snd]; by rewrite migrate_later by exact Hl|].
  assert (v = 0%Z \/ v = 1%Z) as [-> | ->] by lia.
  - pose proof (migrate_initial fault t) as Hin. cbn zeta in Hin. rewrite !elem_of_cons, elem_of_nil in Hin.
    by destruct Hin as [-> | [-> | [-> | []]]].
  - rewrite migrate_current. destruct t; [done|]. by destruct (Ht ltac:(done)).
Qed.

(** ** Witnesses *)

Module StoreDemo.

#[local] Instance product_eq_dec : EqDecision Product.
Proof. solve_decision. Defined.
#[local] Instance metadata_eq_dec : EqDecision Metadata.
Proof. solve_decision. Defined.

(** Two events: a finding on day 40, and a login on day 80. *)
Definition day (n : Z) : Z := n * NANOS_PER_DAY.
Definition alarm : Event := event_new (mkStamp 7 (day 40) (day 40)) 2004 1 SeverityId.High "web-1" "correlator" 1.
Definition login : Event := event_new (mkStamp 8 (day 80) (day 80)) 3002 1 SeverityId.Low "web-1" "auditd" 2.

(** An event without optional parts that differs from [d] at most in its markers. *)
Definition reads_as (d e : Event) : bool :=
  match e with
  | mkEvent schema id time cat cls act ty sev host src None None None None None None None None [] md None _ _ =>
      bool_decide (schema = ev_schema d /\ id = ev_id d /\ time = ev_time_dt d /\ cat = ev_category_uid d /\
        cls = ev_class_uid d /\ act = ev_activity_id d /\ ty = ev_type_uid d /\ sev = ev_severity_id d /\
        host = ev_host_tag d /\ src = ev_source d /\ md = ev_metadata d)
  | _ => false
  end.

Lemma reads_as_eq st cls act sev host src seq e :
  reads_as (event_new st cls act sev host src seq) e = true -> unmarked e = event_new st cls act sev host src seq.
Proof.
  destruct e as [? ? ? ? ? ? ? ? ? ? [] [] [] [] [] [] [] [] [] ? [] ? ?]; try done. simpl.
  intros (-> & -> & -> & -> & -> & -> & -> & -> & -> & -> & ->)%bool_decide_eq_true. done.
Qed.

#[local] Instance event_text : EventText := {|
  event_to_string e :=
    if reads_as alarm e then Ok "alarm" else if reads_as login e then Ok "login" else Err "unknown";
  event_from_str s :=
    if bool_decide (s = "alarm") then Ok alarm else if bool_decide (s = "login") then Ok login else Err "unknown"
|}.

#[local] Instance event_text_laws : EventTextLaws.
Proof.
  constructor. intros e s. simpl. destruct (reads_as alarm e) eqn:Ea; [|destruct (reads_as login e) eqn:El; [|done]].
  - intros [= <-]. simpl. by rewrite (reads_as_eq _ _ _ _ _ _ _ _ Ea).
  - intros [= <-]. simpl. by rewrite (reads_as_eq _ _ _ _ _ _ _ _ El).
Qed.

#[local] Instance event_sql : EventSql := {| scan_events := map_to_list; scan_events_perm t := Permutation_refl _ |}.

Definition history : list StoreInput :=
  [Received (Ok alarm) None; Received (Err (RecvLagged 3)) None; Received (Ok login) (Some (SqliteFault "disk full"));
   Tick (day 60) None; Received (Ok login) None; Received (Ok alarm) None].

(** The same database in a second life, which keeps events for ten days. *)
Definition lives : list (Z * list StoreInput) := [(30%Z, history); (10%Z, [Tick (day 60) None; Tick (day 85) None])].

Example lives_hold : holds [(30%Z, history)] = [alarm; login] /\ holds lives = [login].
Proof. vm_compute. done. Qed.

Lemma store_refines_witness :
  recent 5 None (store_lives [(30%Z, history)]) = Ok [login; alarm] /\
  exists l', l' ≡ₚ [alarm; login] /\ StronglySorted newer l' /\
    forall limit, recent limit None (store_lives [(30%Z, history)]) = Ok (unmarked <$> take limit l').
Proof.
  split; [vm_compute; reflexivity|].
  destruct (store_refines [(30%Z, history)]) as (_ & _ & (l' & Hp & Hs & Hr) & _). exists l'. split; [|split; [exact Hs|exact Hr]].
  replace [alarm; login] with (holds [(30%Z, history)]); [exact Hp|vm_compute; reflexivity].
Defined.

Lemma retained_exact_witness :
  (store_run 30 ([] ++ Received (Ok alarm) None :: [Tick (day 60) None; Tick (day 71) None]) (mkSink 0 0 true, ∅)).2
    !! 7%Z = None /\
  (store_run 30 ([] ++ Received (Ok alarm) None :: [Tick (day 60) None; Tick (day 71) (Some (SqliteFault "busy"))])
    (mkSink 0 0 true, ∅)).2 !! 7%Z <> None.
Proof.
  split.
  - rewrite (retained_exact 30 [] [Tick (day 60) None; Tick (day 71) None] alarm);
      [vm_compute; reflexivity|vm_compute; reflexivity|vm_compute; split; discriminate|lia|reflexivity|reflexivity| |].
    + vm_compute. intros Hx. inversion Hx.
    + repeat constructor; vm_compute; discriminate.
  - rewrite (retained_exact 30 [] [Tick (day 60) None; Tick (day 71) (Some (SqliteFault "busy"))] alarm);
      [vm_compute; discriminate|vm_compute; reflexivity|vm_compute; split; discriminate|lia|reflexivity|reflexivity| |].
    + vm_compute. intros Hx. inversion Hx.
    + repeat constructor; vm_compute; discriminate.
Defined.

Lemma far_future_event_lost_witness : ~ (2 ^ 63 <= ev_time_dt alarm < 2 ^ 64)%Z.
Proof.
  apply (far_future_event_lost 30 (day 60) 7 [Received (Ok alarm) None] alarm); [lia| |vm_compute; reflexivity].
  vm_compute. split; discriminate.
Defined.

Lemma migration_recovers_witness :
  migrate (fun _ => None) (migrate (fun n => if bool_decide (n = 2) then Some "disk full" else None) (mkStoreDb 0 None)).2
    = (Ok tt, mkStoreDb 1 (Some ∅)).
Proof.
  pose proof (migration_recovers (mkStoreDb 0 None) (fun n => if bool_decide (n = 2) then Some "disk full" else None)) as Hm.
  destruct Hm as (Hr & Hv & He); [vm_compute; discriminate|done|]. vm_compute. reflexivity.
Defined.
End StoreDemo.
