(* ===== verification/Correlator.v ===== *)
(** * The correlator

    Models crates/selfdef-correlator/src/lib.rs: the state of the correlator,
    rule loading with its atomic swap, verifier rotation, event processing and
    the receive loop. The locks of the code are never held across a step that
    another one interrupts, so a run is a sequence of whole steps; signals
    (SIGHUP, SIGUSR2) are inputs of that sequence beside the bus. *)

From S2P Require Import Prelude Core Aggregator Signing Sigma SigmaEngine RuleStore Bus.
From stdpp Require Import options.

Section correlator.
Context `{RuleLibs} `{UnicodeTables} `{WireFormat} `{Minisign} `{RuleYaml}.

Record Correlator := mkCorrelator {
  co_host_tag : string;
  co_engine : list CompiledRule;
  co_rules_dir : path;
  co_sequence : Z;
  co_verifier : option Verifier;
  co_lag_counter : option Z;
}.

Inductive ReloadVerifierError :=
| NoVerifierConfigured
| Load (p : path) (e : SigningError).

Definition correlator_new (host_tag : string) (rules_dir : path) : Correlator :=
  {| co_host_tag := host_tag; co_engine := []; co_rules_dir := rules_dir; co_sequence := 0;
     co_verifier := None; co_lag_counter := None |}.

(** Updates of one field. *)
Definition set_engine (e : list CompiledRule) (c : Correlator) : Correlator :=
  mkCorrelator (co_host_tag c) e (co_rules_dir c) (co_sequence c) (co_verifier c) (co_lag_counter c).
Definition set_sequence (s : Z) (c : Correlator) : Correlator :=
  mkCorrelator (co_host_tag c) (co_engine c) (co_rules_dir c) s (co_verifier c) (co_lag_counter c).
Definition set_verifier (v : option Verifier) (c : Correlator) : Correlator :=
  mkCorrelator (co_host_tag c) (co_engine c) (co_rules_dir c) (co_sequence c) v (co_lag_counter c).
Definition set_lag_counter (n : option Z) (c : Correlator) : Correlator :=
  mkCorrelator (co_host_tag c) (co_engine c) (co_rules_dir c) (co_sequence c) (co_verifier c) n.

Definition with_lag_counter (counter : Z) (c : Correlator) : Correlator :=
  set_lag_counter (Some counter) c.
Definition with_verifier (v : Verifier) (c : Correlator) : Correlator := set_verifier (Some v) c.

Definition has_verifier (c : Correlator) : bool := bool_decide (is_Some (co_verifier c)).
Definition verifier_source (c : Correlator) : option path := vf_source <$> co_verifier c.
Definition rule_count (c : Correlator) : nat := length (co_engine c).

(** [reload_verifier]: reads the key again from where it came from. *)
Definition reload_verifier (fs : LiveFs) (c : Correlator) :
    result path ReloadVerifierError * Correlator :=
  match verifier_source c with
  | None => (Err NoVerifierConfigured, c)
  | Some p =>
      match verifier_load fs p with
      | Err e => (Err (Load p e), c)
      | Ok fresh => (Ok p, set_verifier (Some fresh) c)
      end
  end.

(** [load_rules]: swaps the engine only when the whole load succeeded. *)
Definition load_rules (fs : LiveFs) (c : Correlator) : result nat SigmaError * Correlator :=
  let loaded :=
    match co_verifier c with
    | Some v => load_dir_verified fs (co_rules_dir c) v
    | None => load_dir fs (co_rules_dir c)
    end in
  match loaded with
  | Err e => (Err e, c)
  | Ok rules => (Ok (length rules), set_engine rules c)
  end.

(** [process]: the findings handed to the publisher, in order. *)
Definition process (event : Event) (ticks : nat -> Tick) (c : Correlator) : list Event * Correlator :=
  if bool_decide (ev_category_uid event = CategoryUid.Findings) then ([], c)
  else
    let '(findings, rules, seq) :=
      engine_process (co_engine c) event (co_host_tag c) (co_sequence c) ticks in
    (findings, set_sequence seq (set_engine rules c)).

(** One turn of the daemon as the correlator sees it: what the [select!] of
    [run] yields, or a signal handled by another task. *)
Inductive input :=
| Cancelled
| Received (r : result Event BusError) (ticks : nat -> Tick)
| Sighup (fs : LiveFs)
| Sigusr2 (fs : LiveFs).

(** The daemon's SIGUSR2 handler: rules are loaded again only under a verifier
    that was itself reloaded. *)
Definition on_sigusr2 (fs : LiveFs) (c : Correlator) : Correlator :=
  if has_verifier c then
    let '(res, c) := reload_verifier fs c in
    match res with
    | Ok _ => (load_rules fs c).2
    | Err _ => c
    end
  else c.

Definition fetch_add_lag (n : Z) (c : Correlator) : Correlator :=
  match co_lag_counter c with
  | Some k => set_lag_counter (Some (wrapping_add_u64 k n)) c
  | None => c
  end.

(** The state after one turn, what it published, and whether the loop goes on. *)
Definition turn (i : input) (c : Correlator) : list Event * Correlator * bool :=
  match i with
  | Cancelled => ([], c, false)
  | Received (Ok event) ticks => let '(findings, c) := process event ticks c in (findings, c, true)
  | Received (Err (Lagged n)) _ => ([], fetch_add_lag n c, true)
  | Received (Err Closed) _ => ([], c, false)
  | Received (Err NoSubscribers) _ => ([], c, true)
  | Sighup fs => ([], (load_rules fs c).2, true)
  | Sigusr2 fs => ([], on_sigusr2 fs c, true)
  end.

(** [run] over the inputs it meets, until it returns or they end. *)
Fixpoint run (inputs : list input) (c : Correlator) : list Event * Correlator * bool :=
  match inputs with
  | [] => ([], c, true)
  | i :: inputs =>
      let '(out, c, go) := turn i c in
      if go then let '(rest, c, go) := run inputs c in (out ++ rest, c, go) else (out, c, false)
  end.

(** ** Loopback

    The correlator subscribes to the bus it publishes on: every finding comes
    back to it. [drain] runs the queue of pending events until it is empty, at
    most [fuel] events, and returns what was published. *)
Fixpoint drain (fuel : nat) (queue : list Event) (ticks : nat -> nat -> Tick) (c : Correlator) :
    option (list Event * Correlator) :=
  match queue with
  | [] => Some ([], c)
  | event :: queue =>
      match fuel with
      | 0 => None
      | S fuel =>
          let '(findings, c) := process event (ticks fuel) c in
          '(published, c) ← drain fuel (queue ++ findings) ticks c;
          Some (findings ++ published, c)
      end
  end.

(** ** Lemmas *)

Definition correlator_wf (c : Correlator) : Prop :=
  Forall rule_wf (co_engine c) /\ (0 <= co_sequence c <= u64_max)%Z.

(** A rule without the state of its aggregator. *)
Definition rule_text (r : CompiledRule) : CompiledRule :=
  {| cr_id := cr_id r; cr_title := cr_title r; cr_description := cr_description r;
     cr_level := cr_level r; cr_tags := cr_tags r; cr_references := cr_references r;
     cr_author := cr_author r; cr_falsepositives := cr_falsepositives r;
     cr_logsource := cr_logsource r; cr_source_path := cr_source_path r;
     cr_matchers := cr_matchers r; cr_condition := cr_condition r;
     cr_timeframe := cr_timeframe r; cr_aggregator := None |}.

Lemma process_rule_text j e host tick r seq :
  rule_text (process_rule j e host tick r seq).1.2 = rule_text r.
Proof.
  destruct (rule_selects r e j) eqn:E;
    [rewrite process_rule_selected by done|by rewrite process_rule_unselected].
  destruct (cr_condition r) eqn:Ec; [done|]. destruct (cr_aggregator r) as [agg|] eqn:Ea; [|done].
  by destruct (observe _ _ agg) as [[k|] agg'].
Qed.

Lemma engine_process_text rules e host seq ticks :
  rule_text <$> (engine_process rules e host seq ticks).1.2 = rule_text <$> rules.
Proof.
  unfold engine_process. destruct (event_to_json e) as [j|]; [|done].
  generalize 0 as i. revert seq. induction rules as [|r rules IH]; intros seq i; [done|]. simpl.
  pose proof (process_rule_text j e host (ticks i) r seq) as Ht.
  destruct (process_rule _ _ _ _ _ _) as [[f r'] s]. simpl in Ht. specialize (IH s (S i)).
  destruct (process_rules _ _ _ _ _ _ s) as [[fs rs] s']. csimpl in *. by rewrite Ht, IH.
Qed.

Lemma process_finding e ticks c :
  ev_category_uid e = CategoryUid.Findings -> process e ticks c = ([], c).
Proof. intros He. unfold process. by rewrite bool_decide_true. Qed.

Lemma process_facts e ticks c :
  let '(findings, c') := process e ticks c in
  length findings <= length (co_engine c) /\
  Forall (fun f => ev_category_uid f = CategoryUid.Findings) findings /\
  rule_text <$> co_engine c' = rule_text <$> co_engine c /\
  co_verifier c' = co_verifier c /\ co_lag_counter c' = co_lag_counter c.
Proof.
  unfold process. case_bool_decide; [simpl; split_and!; [lia|constructor|done..]|].
  pose proof (engine_process_length (co_engine c) e (co_host_tag c) (co_sequence c) ticks) as Hl.
  pose proof (engine_process_category (co_engine c) e (co_host_tag c) (co_sequence c) ticks) as Hc.
  pose proof (engine_process_text (co_engine c) e (co_host_tag c) (co_sequence c) ticks) as Ht.
  by destruct (engine_process _ _ _ _ _) as [[fs rs] s].
Qed.

Lemma rule_text_length (rs1 rs2 : list CompiledRule) :
  rule_text <$> rs1 = rule_text <$> rs2 -> length rs1 = length rs2.
Proof. intros E. by rewrite <-(length_fmap rule_text), E, length_fmap. Qed.
End correlator.

(** ** The loop and its invariants *)

Section correlator_facts.
Context `{RuleLibs} `{UnicodeTables} `{WireFormat} `{Minisign} `{RuleYaml}.

Lemma process_wf e ticks c : correlator_wf c -> correlator_wf (process e ticks c).2.
Proof.
  intros [Hr Hs]. unfold process. case_bool_decide; [done|].
  pose proof (engine_process_spec (co_engine c) e (co_host_tag c) (co_sequence c) ticks Hs Hr) as Hp.
  destruct (engine_process _ _ _ _ _) as [[fs rs] s]. destruct Hp as (-> & Hr' & _).
  split; [done|]. simpl. unfold u64_max. pose proof (Z.mod_pos_bound
    (co_sequence c + Z.of_nat (length fs)) (2 ^ 64)). lia.
Qed.

Lemma load_dir_maybe_verified_ok (fs : LiveFs) dir v rules :
  load_dir_maybe_verified fs dir v = Ok rules ->
  Forall (fun r => rule_wf r /\ exists entry, loaded_from fs entry r /\
    match v with
    | Some v => exists bytes, signed_under (lf_check fs entry) (vf_public_key v) entry bytes
    | None => True
    end) rules.
Proof.
  unfold load_dir_maybe_verified. destruct (walk_yaml fs dir) as [entries|]; [|done]. simpl.
  intros Hl%load_entries_ok. induction Hl as [|entry r es rs He _ IH]; constructor; [|done].
  apply load_entry_ok in He as [Hf Hv]. split.
  - destruct Hf as (? & ? & _ & _ & Hc). by eapply compile_rule_wf_lemma.
  - exists entry. split; [done|]. destruct v; [|done]. by apply verify_detached_file_ok.
Qed.

Lemma load_rules_cases fs c :
  (exists e, load_rules fs c = (Err e, c)) \/
  exists rules, load_rules fs c = (Ok (length rules), set_engine rules c) /\
    load_dir_maybe_verified fs (co_rules_dir c) (co_verifier c) = Ok rules.
Proof.
  unfold load_rules, load_dir, load_dir_verified.
  destruct (co_verifier c); destruct (load_dir_maybe_verified _ _ _) eqn:E; eauto.
Qed.

Lemma load_rules_wf fs c : correlator_wf c -> correlator_wf (load_rules fs c).2.
Proof.
  intros [Hr Hs]. destruct (load_rules_cases fs c) as [[e ->]|(rules & -> & Hl)]; [done|].
  split; [|done]. apply load_dir_maybe_verified_ok in Hl. simpl.
  eapply Forall_impl; [done|]. tauto.
Qed.

Lemma reload_verifier_cases fs c :
  (exists e, reload_verifier fs c = (Err e, c)) \/
  exists v fresh, co_verifier c = Some v /\ verifier_load fs (vf_source v) = Ok fresh /\
    reload_verifier fs c = (Ok (vf_source v), set_verifier (Some fresh) c).
Proof.
  unfold reload_verifier, verifier_source. destruct (co_verifier c) as [v|]; simpl; [|eauto].
  destruct (verifier_load fs (vf_source v)) eqn:E; [|eauto]. right. eauto.
Qed.

Lemma verifier_load_source fs p v : verifier_load fs p = Ok v -> vf_source v = p.
Proof.
  unfold verifier_load. destruct (fs_read_to_string fs p); [|done].
  destruct (key_from_base64 _); [|done]. by intros; simplify_eq/=.
Qed.

Lemma on_sigusr2_wf fs c : correlator_wf c -> correlator_wf (on_sigusr2 fs c).
Proof.
  intros Hwf. unfold on_sigusr2. destruct (has_verifier c); [|done].
  destruct (reload_verifier_cases fs c) as [[e ->]|(v & fresh & _ & _ & ->)]; [done|].
  by apply load_rules_wf.
Qed.

Lemma turn_wf i c : correlator_wf c -> correlator_wf (turn i c).1.2.
Proof.
  intros Hwf. destruct i as [|[e|[|n|]] ticks|fs|fs]; simpl; try done.
  - pose proof (process_wf e ticks c Hwf) as Hp. by destruct (process e ticks c).
  - unfold fetch_add_lag. by destruct (co_lag_counter c).
  - by apply load_rules_wf.
  - by apply on_sigusr2_wf.
Qed.

Lemma run_wf inputs : forall c, correlator_wf c -> correlator_wf (run inputs c).1.2.
Proof.
  induction inputs as [|i inputs IH]; intros c Hwf; [done|]. simpl.
  pose proof (turn_wf i c Hwf) as Ht. destruct (turn i c) as [[out c1] go]. simpl in Ht.
  destruct go; [|done]. specialize (IH c1 Ht). by destruct (run inputs c1) as [[out' c2] go'].
Qed.

(** ** Provenance of the loaded rules *)

(** The file systems that the signals of a run met. *)
Definition snapshots (inputs : list input) : list LiveFs :=
  omap (fun i => match i with Sighup fs | Sigusr2 fs => Some fs | _ => None end) inputs.

(** A key of the trust root [v0]: its own, or one read later from its path. *)
Definition trusted_key (v0 : Verifier) (F : list LiveFs) (key : PublicKey) : Prop :=
  key = vf_public_key v0 \/
  exists (fs : LiveFs) v, fs ∈ F /\ verifier_load fs (vf_source v0) = Ok v /\ vf_public_key v = key.

(** A rule that is, up to the state of its aggregator, the compilation of the bytes
    [parsed] of a file, which was then checked: at the check its sidecar held a
    signature under such a key over the bytes [checked] that the file had. They are
    the bytes that were compiled when the file did not change between the two reads. *)
Definition signed_rule (v0 : Verifier) (F : list LiveFs) (r : CompiledRule) : Prop :=
  exists fs entry r0 parsed raw key checked, fs ∈ F /\
    fs_read (lf_fs fs) entry = Ok parsed /\ raw_rule_from_slice parsed = Ok raw /\ compile_rule raw entry = Ok r0 /\
    rule_text r = rule_text r0 /\ signed_under (lf_check fs entry) key entry checked /\ trusted_key v0 F key /\
    (checked = parsed <-> fs_read (lf_check fs entry) entry = fs_read (lf_fs fs) entry).

Definition provenance_inv (v0 : Verifier) (F : list LiveFs) (c : Correlator) : Prop :=
  Forall (signed_rule v0 F) (co_engine c) /\
  exists v, co_verifier c = Some v /\ vf_source v = vf_source v0 /\ trusted_key v0 F (vf_public_key v).

Lemma trusted_key_mono v0 F G key : F ⊆ G -> trusted_key v0 F key -> trusted_key v0 G key.
Proof. intros Hs [->|(fs & v & Hin & ?)]; [by left|right; exists fs, v; auto]. Qed.

Lemma provenance_mono v0 F G c : F ⊆ G -> provenance_inv v0 F c -> provenance_inv v0 G c.
Proof.
  intros Hs [Hf (v & ? & ? & ?)]. split; [|by eauto 6 using trusted_key_mono].
  eapply Forall_impl; [done|]. intros r (fs & entry & r0 & parsed & raw & key & checked & Hin & ?&?&?&?&?&?&?).
  exists fs, entry, r0, parsed, raw, key, checked. split; [by apply Hs|]. repeat (split; [done|]). split; [|done].
  by eapply trusted_key_mono.
Qed.

Lemma load_rules_provenance v0 F fs c :
  fs ∈ F -> provenance_inv v0 F c -> provenance_inv v0 F (load_rules fs c).2.
Proof.
  intros Hin Hinv. destruct (load_rules_cases fs c) as [[e ->]|(rules & -> & Hl)]; [done|].
  destruct Hinv as [_ (v & Hv & Hs & Ht)]. split; [|by eauto].
  rewrite Hv in Hl. apply load_dir_maybe_verified_ok in Hl. simpl.
  eapply Forall_impl; [done|]. intros r (_ & entry & (parsed & raw & Hp & Hr & Hc) & checked & Hsig).
  exists fs, entry, r, parsed, raw, (vf_public_key v), checked. repeat (split; [done|]).
  destruct Hsig as [Hk _]. split; intros E; congruence.
Qed.

Lemma process_provenance v0 F e ticks c :
  provenance_inv v0 F c -> provenance_inv v0 F (process e ticks c).2.
Proof.
  intros [Hf Hv]. pose proof (process_facts e ticks c) as Hp.
  destruct (process e ticks c) as [fs c']. destruct Hp as (_ & _ & Ht & Hver & _). simpl.
  split; [|by rewrite Hver]. clear -Hf Ht. revert Ht Hf. generalize (co_engine c) as rs.
  induction (co_engine c') as [|r' rs' IH]; intros [|r rs] Ht Hf; try done.
  csimpl in Ht. assert (Hr := f_equal head Ht). apply (f_equal tail) in Ht. simpl in Hr, Ht.
  apply (inj Some) in Hr. inv Hf. constructor; [|by eauto].
  match goal with H : signed_rule _ _ _ |- _ =>
    destruct H as (fs0 & entry & r0 & parsed & raw & key & checked & Hin & Hp & Hr0 & Hc & Htx & Hrest) end.
  exists fs0, entry, r0, parsed, raw, key, checked. repeat (split; [done|]). split; [|exact Hrest].
  rewrite <-Htx. unfold rule_text. congruence.
Qed.

Lemma turn_provenance v0 F i c :
  provenance_inv v0 F c -> provenance_inv v0 (F ++ snapshots [i]) (turn i c).1.2.
Proof.
  intros Hinv. assert (Hm := provenance_mono v0 F (F ++ snapshots [i]) c ltac:(set_solver) Hinv).
  destruct i as [|[e|[|n|]] ticks|fs|fs]; simpl; try done.
  - apply (process_provenance _ _ e ticks) in Hm. by destruct (process e ticks c).
  - unfold fetch_add_lag. by destruct (co_lag_counter c).
  - apply load_rules_provenance; [set_solver|done].
  - unfold on_sigusr2. destruct (has_verifier c); [|done].
    destruct (reload_verifier_cases fs c) as [[e ->]|(v & fresh & Hv & Hl & ->)]; [done|].
    apply load_rules_provenance; [set_solver|]. destruct Hm as [Hr (v' & Hv' & Hs & _)].
    simplify_eq. split; [done|]. exists fresh. split_and!; [done| |].
    + rewrite <-Hs. by eapply verifier_load_source.
    + right. exists fs, fresh. rewrite <-Hs. split_and!; [set_solver|done..].
Qed.

Lemma run_provenance v0 inputs : forall F c,
  provenance_inv v0 F c -> provenance_inv v0 (F ++ snapshots inputs) (run inputs c).1.2.
Proof.
  induction inputs as [|i inputs IH]; intros F c Hinv; simpl; [by rewrite app_nil_r|].
  pose proof (turn_provenance v0 F i c Hinv) as Ht. destruct (turn i c) as [[out c1] go]. simpl in Ht.
  assert (Hsub : F ++ snapshots [i] ⊆ F ++ snapshots (i :: inputs)).
  { unfold snapshots. destruct i; simpl; set_solver. }
  destruct go.
  - specialize (IH _ c1 Ht). destruct (run inputs c1) as [[out' c2] go']. simpl in *.
    eapply provenance_mono; [|exact IH]. unfold snapshots. destruct i; simpl; set_solver.
  - by eapply provenance_mono.
Qed.

(** ** The loopback *)

Definition raw_events (q : list Event) : nat :=
  length (filter (fun e => ev_category_uid e <> CategoryUid.Findings) q).

Lemma raw_events_findings fs :
  Forall (fun f => ev_category_uid f = CategoryUid.Findings) fs -> raw_events fs = 0.
Proof.
  unfold raw_events. induction 1 as [|f fs Hf _ IH]; [done|].
  by rewrite filter_cons_False by tauto.
Qed.

Lemma raw_events_app q1 q2 : raw_events (q1 ++ q2) = raw_events q1 + raw_events q2.
Proof. unfold raw_events. by rewrite filter_app, length_app. Qed.

Lemma drain_terminates fuel : forall queue ticks c,
  length queue + raw_events queue * rule_count c <= fuel ->
  exists published c', drain fuel queue ticks c = Some (published, c') /\
    length published <= raw_events queue * rule_count c /\
    Forall (fun f => ev_category_uid f = CategoryUid.Findings) published.
Proof.
  induction fuel as [|fuel IH]; intros [|e q] ticks c Hfuel; simpl in Hfuel.
  1, 3: exists [], c; simpl; split_and!; [done|lia|constructor].
  1: lia.
  simpl. pose proof (process_facts e (ticks fuel) c) as Hp.
  destruct (process e (ticks fuel) c) as [fs c'] eqn:E.
  destruct Hp as (Hl & Hc & Ht%rule_text_length & _).
  assert (Hraw : raw_events (e :: q) * rule_count c >= length fs + raw_events q * rule_count c).
  { unfold raw_events, rule_count. rewrite filter_cons.
    destruct (decide (ev_category_uid e = CategoryUid.Findings)) as [Hf|Hf].
    - rewrite process_finding in E by done. simplify_eq/=. case_decide; simpl; lia.
    - rewrite decide_True by done. simpl. lia. }
  destruct (IH (q ++ fs) ticks c') as (pub & c'' & -> & Hp & Hcat).
  { rewrite length_app, raw_events_app, (raw_events_findings fs Hc). unfold rule_count in *.
    rewrite Ht. simpl in Hfuel. lia. }
  exists (fs ++ pub), c''. split_and!; [done| |by apply Forall_app].
  rewrite raw_events_app, (raw_events_findings fs Hc) in Hp. unfold rule_count in *.
  rewrite length_app. rewrite Ht in Hp. lia.
Qed.
End correlator_facts.

(** ** Properties *)

(** C24: the correlator cannot feed on itself. It publishes on the bus it reads
    from, and a queue of pending events with every finding fed back empties
    after a bounded number of receptions: each raw event gives at most one
    finding per rule, and findings give none. Everything published is a
    finding. *)
Theorem loopback_terminates `{RuleLibs} `{UnicodeTables} `{WireFormat} `{Minisign} `{RuleYaml}
    (queue : list Event) (ticks : nat -> nat -> Tick) (c : Correlator) :
  let fuel := length queue + raw_events queue * rule_count c in
  exists published c', drain fuel queue ticks c = Some (published, c') /\
    length published <= raw_events queue * rule_count c /\
    Forall (fun f => ev_category_uid f = CategoryUid.Findings) published.
Proof. by apply drain_terminates. Qed.

(** Rule loading is atomic. A failed load leaves the correlator exactly as
    it was; a successful one replaces the whole rule set by rules the engine can
    run, returns their number, and changes nothing else. *)
Theorem load_rules_atomic `{RuleLibs} `{UnicodeTables} `{Minisign} `{RuleYaml}
    (fs : LiveFs) (c : Correlator) :
  match load_rules fs c with
  | (Err _, c') => c' = c
  | (Ok n, c') => n = rule_count c' /\ c' = set_engine (co_engine c') c /\
      load_dir_maybe_verified fs (co_rules_dir c) (co_verifier c) = Ok (co_engine c') /\
      Forall rule_wf (co_engine c')
  end.
Proof.
  destruct (load_rules_cases fs c) as [[e ->]|(rules & -> & Hl)]; [done|].
  split_and!; [done..|]. apply load_dir_maybe_verified_ok in Hl.
  eapply Forall_impl; [exact Hl|]. by intros r [? _].
Qed.

(** The signing requirement survives any history. A correlator that starts
    with a verifier never runs a rule that was not signed: after any sequence of
    bus results, rule reloads and key rotations, every rule in the engine is
    the compilation of a file whose sidecar verified, when it was loaded, under
    the initial key or one read later from the same key path. The verifier is
    never detached nor moved to another path, and all rules can run. *)
Theorem rules_stay_signed `{RuleLibs} `{UnicodeTables} `{WireFormat} `{Minisign} `{RuleYaml}
    (host : string) (dir : path) (v0 : Verifier) (inputs : list input) :
  let '(published, c, running) := run inputs (with_verifier v0 (correlator_new host dir)) in
  Forall (signed_rule v0 (snapshots inputs)) (co_engine c) /\
  verifier_source c = Some (vf_source v0) /\ correlator_wf c.
Proof.
  set (c0 := with_verifier v0 (correlator_new host dir)).
  assert (Hp := run_provenance v0 inputs [] c0). assert (Hw := run_wf inputs c0).
  destruct (run inputs c0) as [[published c] running]. simpl in *.
  destruct Hp as [Hf (v & Hv & Hs & _)].
  { split; [constructor|]. exists v0. split_and!; [done..|]. by left. }
  split_and!; [done| |].
  - unfold verifier_source. rewrite Hv. simpl. by rewrite Hs.
  - apply Hw. split; [constructor|]. unfold u64_max. simpl. lia.
Qed.
