(* ===== verification/Lint.v ===== *)
(** * Rule lint

    Models crates/selfdef-correlator/src/lint.rs. The order in which a [HashMap]
    is iterated is unspecified: it comes from the [HashOrder] class, whose law
    says that every entry is visited once. *)

From S2P Require Import Prelude Core Aggregator Signing Sigma SigmaEngine.
From stdpp Require Import options.

Class HashOrder := {
  hash_iter : gmap string nat -> list (string * nat);
  hash_iter_perm m : Permutation (hash_iter m) (map_to_list m);
}.

Module LintSeverity.
Inductive t := Error | Warn.

#[global] Instance eq_dec : EqDecision t.
Proof. solve_decision. Defined.
End LintSeverity.

Record Issue := mkIssue {
  is_rule_id : string;
  is_severity : LintSeverity.t;
  is_message : string;
}.

(** [Display]: the tag padded to five columns. *)
Definition issue_display (i : Issue) : string :=
  match is_severity i with LintSeverity.Error => "ERROR" | LintSeverity.Warn => "WARN " end
  +:+ " [" +:+ is_rule_id i +:+ "] " +:+ is_message i.

Definition KNOWN_ROOTS : list string :=
  ["src_endpoint"; "dst_endpoint"; "actor"; "file"; "process"; "network"; "host_tag"; "source";
   "metadata"; "raw"; "class_uid"; "category_uid"; "activity_id"; "type_uid"; "severity_id";
   "status_id"; "message"; "schema"; "id"; "time_dt"].

Definition looks_like_event_path (p : string) : bool :=
  let root := default "" (head (split "." p)) in
  bool_decide (root ∈ KNOWN_ROOTS).

Section lint.
Context `{RuleLibs}.

Definition lint_error (rule : CompiledRule) (msg : string) : Issue :=
  mkIssue (cr_id rule) LintSeverity.Error msg.
Definition lint_warn (rule : CompiledRule) (msg : string) : Issue :=
  mkIssue (cr_id rule) LintSeverity.Warn msg.

(** [if b { out.push(i) }] *)
Definition when (b : bool) (i : Issue) : list Issue := if b then [i] else [].

Definition is_technique_tag (t : string) : bool :=
  match strip_prefix "attack.t" t with
  | Some rest => match chars rest with c :: _ => is_ascii_digit c | [] => false end
  | None => false
  end.

Definition lint_tags (rule : CompiledRule) : list Issue :=
  match cr_tags rule with
  | [] => [lint_warn rule "no tags; rules should carry at least one `attack.*` tag"]
  | tags =>
      when (negb (existsb (fun t => starts_with t "attack.") tags))
        (lint_warn rule "no `attack.*` tag; ATT&CK coverage will not increase") ++
      when (negb (existsb is_technique_tag tags))
        (lint_warn rule "no `attack.tNNNN[.NNN]` technique tag")
  end.

Definition lint_rule (rule : CompiledRule) : list Issue :=
  when (bool_decide (trim (cr_title rule) = "")) (lint_error rule "title is empty") ++
  when (bool_decide (trim (default "" (cr_description rule)) = ""))
    (lint_warn rule "missing or empty `description`") ++
  lint_tags rule ++
  when (bool_decide (cr_falsepositives rule = []))
    (lint_warn rule "no `falsepositives` documented; high-confidence rules should still list known FP sources") ++
  when (bool_decide (cr_author rule = None)) (lint_warn rule "no `author` field") ++
  (let referenced := condition_selection (cr_condition rule) in
   when (bool_decide (cr_matchers rule !! referenced = None))
     (lint_error rule ("condition references undefined selection `" +:+ referenced +:+ "`"))) ++
  match cr_condition rule with
  | Count _ group_by_field _ =>
      when (negb (looks_like_event_path group_by_field))
        (lint_warn rule ("count() by `" +:+ group_by_field +:+
          "` doesn't look like a known event field — typo? known top-level fields include src_endpoint, dst_endpoint, actor, file, process"))
  | Single _ => []
  end.

Definition count_id (seen : gmap string nat) (rule : CompiledRule) : gmap string nat :=
  <[cr_id rule := S (default 0 (seen !! cr_id rule))]> seen.

Context `{HashOrder}.

Definition lint_rules (rules : list CompiledRule) : list Issue :=
  let seen_ids := foldl count_id ∅ rules in
  (rules ≫= lint_rule) ++
  (hash_iter seen_ids ≫= fun '(id, count) =>
     when (bool_decide (1 < count))
       (mkIssue id LintSeverity.Error
         ("duplicate rule id (appears in " +:+ show_uint (Z.of_nat count) +:+ " rule files)"))).

(** ** Lemmas *)

Lemma elem_of_when b i j : i ∈ when b j <-> b = true /\ i = j.
Proof. unfold when. destruct b; [rewrite list_elem_of_singleton|rewrite elem_of_nil]; naive_solver. Qed.

Lemma lint_tags_warn rule i : i ∈ lint_tags rule -> is_severity i = LintSeverity.Warn.
Proof.
  unfold lint_tags. destruct (cr_tags rule).
  - rewrite list_elem_of_singleton. by intros ->.
  - rewrite elem_of_app, !elem_of_when. by intros [[_ ->]|[_ ->]].
Qed.

(** Which errors [lint_rule] reports for a rule the engine can run. *)
Lemma lint_rule_errors rule i :
  is_Some (cr_matchers rule !! condition_selection (cr_condition rule)) ->
  i ∈ lint_rule rule -> is_severity i = LintSeverity.Error -> trim (cr_title rule) = "" /\
    i = lint_error rule "title is empty".
Proof.
  intros [m Hm]. unfold lint_rule. rewrite !elem_of_app, !elem_of_when, !bool_decide_eq_true, Hm.
  intros [[Ht ->]|[[_ ->]|[Hi|[[_ ->]|[[_ ->]|[[? _]|Hi]]]]]] He; try done.
  - apply lint_tags_warn in Hi. congruence.
  - destruct (cr_condition rule); [by apply elem_of_nil in Hi|].
    apply elem_of_when in Hi as [_ ->]. done.
Qed.

Definition id_count (id : string) (rules : list CompiledRule) : nat :=
  length (filter (fun r => cr_id r = id) rules).

Lemma count_id_lookup rules id : forall seen,
  default 0 (foldl count_id seen rules !! id) = default 0 (seen !! id) + id_count id rules.
Proof.
  unfold id_count. induction rules as [|r rules IH]; intros seen; simpl; [lia|].
  rewrite IH, filter_cons. unfold count_id. destruct (decide (cr_id r = id)) as [<-|].
  - rewrite lookup_insert_eq. simpl. lia.
  - rewrite lookup_insert_ne by done. lia.
Qed.

Lemma duplicate_issue rules id n :
  (id, n) ∈ hash_iter (foldl count_id ∅ rules) /\ 1 < n <-> n = id_count id rules /\ 1 < n.
Proof.
  rewrite hash_iter_perm, elem_of_map_to_list.
  pose proof (count_id_lookup rules id ∅) as Hc. rewrite lookup_empty in Hc. simpl in Hc.
  split.
  - intros [Hl ?]. rewrite Hl in Hc. simpl in Hc. done.
  - intros [-> ?]. split; [|done]. destruct (_ !! id); simpl in Hc; [by subst|lia].
Qed.
End lint.

(** ** Properties *)

(** What the linter calls an error. For rules that the compiler accepted,
    an error is reported exactly for the rules with a blank title and for the
    ids that more than one rule carries, with the number of them; the error on
    an undefined selection cannot appear. Everything else is a warning. *)
Theorem lint_errors_exact `{RuleLibs} `{HashOrder} (rules : list CompiledRule) (i : Issue) :
  Forall rule_wf rules ->
  (i ∈ lint_rules rules /\ is_severity i = LintSeverity.Error <->
   (exists r, r ∈ rules /\ trim (cr_title r) = "" /\ i = lint_error r "title is empty") \/
   (exists id, 1 < id_count id rules /\
      i = mkIssue id LintSeverity.Error ("duplicate rule id (appears in "
            +:+ show_uint (Z.of_nat (id_count id rules)) +:+ " rule files)"))).
Proof.
  intros Hwf. unfold lint_rules. rewrite elem_of_app, !list_elem_of_bind. split.
  - intros [[(r & Hi & Hr)|([id n] & Hi & Hn)] He].
    + left. exists r. split; [done|]. eapply lint_rule_errors; [|done..].
      rewrite Forall_forall in Hwf. by destruct (Hwf r Hr).
    + right. apply elem_of_when in Hi as [Hlt%bool_decide_eq_true ->].
      destruct (proj1 (duplicate_issue rules id n) (conj Hn Hlt)) as [-> _]. by exists id.
  - intros [(r & Hr & Ht & ->)|(id & Hn & ->)].
    + split; [|done]. left. exists r. split; [|done]. unfold lint_rule.
      rewrite elem_of_app, elem_of_when. left. by rewrite bool_decide_true.
    + split; [|done]. right. exists (id, id_count id rules).
      destruct (proj2 (duplicate_issue rules id (id_count id rules)) (conj eq_refl Hn)) as [Hin _].
      split; [|done]. apply elem_of_when. by rewrite bool_decide_true.
Qed.

Module LintWitnesses.
Import DemoLibs.

#[local] Instance hash_order : HashOrder :=
  {| hash_iter := map_to_list; hash_iter_perm := fun m => Permutation_refl (map_to_list m) |}.

Lemma lint_errors_exact_witness :
  exists r, DemoRules.brute_force_rule = Some r /\
    (mkIssue "ssh-brute-force" LintSeverity.Error "duplicate rule id (appears in 2 rule files)"
       ∈ lint_rules [r; r]).
Proof.
  destruct DemoRules.brute_force_rule as [r|] eqn:E; [|vm_compute in E; discriminate].
  exists r. split; [reflexivity|].
  assert (Hwf : rule_wf r).
  { unfold DemoRules.brute_force_rule in E. destruct (compile_rule _ _) eqn:Ec; [|discriminate].
    injection E as ->. exact (compile_rule_wf_lemma _ _ _ Ec). }
  assert (Hid : cr_id r = "ssh-brute-force") by (vm_compute in E; injection E as <-; reflexivity).
  apply (lint_errors_exact [r; r]); [repeat constructor; apply Hwf|].
  right. exists "ssh-brute-force". unfold id_count.
  rewrite !filter_cons_True, filter_nil by done. split; [simpl; lia|reflexivity].
Defined.
End LintWitnesses.
