(* ===== verification/Responder.v ===== *)
(** * The responder

    Models crates/selfdef-responder/src/lib.rs: the autonomous-response engine
    between the bus and the actions. Its gates (allowlist, federation trust
    boundary, burst dedup, rate cap) and their state are modelled in full. An
    action is known here by its name; what its execution returned, and what the
    clock showed before, at and after the gates, are inputs of each dispatch.
    The mutexes are held only for the synchronous gate steps, so dispatches are
    a sequence of steps. *)

From S2P Require Import Prelude Core Bus.
From stdpp Require Import options.

(** ** Action results *)

Module ActionStatus.
Inductive t := Success | DryRun | Skipped.

#[global] Instance eq_dec : EqDecision t.
Proof. solve_decision. Defined.
End ActionStatus.

Record ActionOutcome := mkActionOutcome {
  ao_status : ActionStatus.t;
  ao_notes : string;
}.

Inductive ActionError :=
| ActionIo (reason : string)
| ActionNotify (reason : string)
| ActionExec (reason : string).

(** [timeout(deadline, execute)]: [None] when the deadline expired. *)
Definition RunResult := option (result ActionOutcome ActionError).

(** ** Classification and targets *)

Definition destructive_actions : list string :=
  ["kill_pid"; "lockdown_egress"; "revoke_session"; "block_ip"; "quarantine_process";
   "session_revocation"; "api_token_revocation"; "mfa_grant_revocation"; "netns_isolation";
   "mount_binding_unbind"; "process_tree_freeze"; "socket_fd_revocation"; "process_env_scrub";
   "capability_drop"; "kernel_keyring_eviction"; "apparmor_profile_pivot"; "bpf_map_element_clear"].

Definition is_destructive_action (name : string) : bool :=
  bool_decide (name ∈ destructive_actions).

Definition event_target_sig (event : Event) : string :=
  let pid := default 0%Z
    (match ev_actor event ≫= a_process with
     | Some p => Some (p_pid p)
     | None => p_pid <$> ev_process event
     end) in
  let ip := default "" (show_ip <$> (ev_src_endpoint event ≫= ep_ip)) in
  let user := default "" ((ev_actor event ≫= a_user) ≫= u_name) in
  show_int pid +:+ "|" +:+ ip +:+ "|" +:+ user.

(** [Duration::as_secs_f64] as displayed: whole seconds, then the fraction
    without trailing zeros. *)
Fixpoint show_fraction (fuel : nat) (nanos : Z) : string :=
  match fuel with
  | 0 => ""
  | S fuel =>
      if (nanos =? 0)%Z then ""
      else show_uint (nanos * 10 / 10 ^ 9) +:+ show_fraction fuel ((nanos * 10) `mod` 10 ^ 9)
  end.
Definition show_secs (nanos : Z) : string :=
  let frac := show_fraction 9 (nanos `mod` 10 ^ 9) in
  show_uint (nanos / 10 ^ 9) +:+ (if bool_decide (frac = "") then "" else "." +:+ frac).

Definition dquote : string := String "034"%char "".

(** ** State *)

Record Responder := mkResponder {
  rp_actions : list string;
  rp_allowed_actions : gset string;
  rp_dry_run : bool;
  rp_min_severity : SeverityId.t;
  rp_action_deadline : Z;
  rp_dedup_window : Z;
  rp_destructive_cap_per_min : Z;
  rp_act_on_federated : bool;
}.

(** What the mutexes and the counters hold. *)
Record RespState := mkRespState {
  rs_recent_fires : gmap string Z;
  rs_destructive_fire_log : list Z;
  rs_lag_counter : option Z;
  rs_suppressed_counter : option Z;
  rs_ratecap_tripped_counter : option Z;
  rs_federated_refused_counter : option Z;
}.

Definition DEFAULT_ACTION_DEADLINE : Z := from_secs 60.
Definition CAP_WINDOW : Z := from_secs 60.

Definition responder_new (actions : list string) (allowed : list string) (dry_run : bool) :
    Responder * RespState :=
  ({| rp_actions := actions; rp_allowed_actions := list_to_set allowed; rp_dry_run := dry_run;
      rp_min_severity := SeverityId.Unknown; rp_action_deadline := DEFAULT_ACTION_DEADLINE;
      rp_dedup_window := 0; rp_destructive_cap_per_min := 0; rp_act_on_federated := true |},
   {| rs_recent_fires := ∅; rs_destructive_fire_log := []; rs_lag_counter := None;
      rs_suppressed_counter := None; rs_ratecap_tripped_counter := None;
      rs_federated_refused_counter := None |}).

Definition bump (n : Z) (counter : option Z) : option Z :=
  (fun c => wrapping_add_u64 c n) <$> counter.

Definition set_recent (m : gmap string Z) (s : RespState) : RespState :=
  mkRespState m (rs_destructive_fire_log s) (rs_lag_counter s) (rs_suppressed_counter s)
    (rs_ratecap_tripped_counter s) (rs_federated_refused_counter s).
Definition set_log (l : list Z) (s : RespState) : RespState :=
  mkRespState (rs_recent_fires s) l (rs_lag_counter s) (rs_suppressed_counter s)
    (rs_ratecap_tripped_counter s) (rs_federated_refused_counter s).
Definition bump_lag (n : Z) (s : RespState) : RespState :=
  mkRespState (rs_recent_fires s) (rs_destructive_fire_log s) (bump n (rs_lag_counter s))
    (rs_suppressed_counter s) (rs_ratecap_tripped_counter s) (rs_federated_refused_counter s).
Definition bump_suppressed (s : RespState) : RespState :=
  mkRespState (rs_recent_fires s) (rs_destructive_fire_log s) (rs_lag_counter s)
    (bump 1 (rs_suppressed_counter s)) (rs_ratecap_tripped_counter s) (rs_federated_refused_counter s).
Definition bump_ratecap (s : RespState) : RespState :=
  mkRespState (rs_recent_fires s) (rs_destructive_fire_log s) (rs_lag_counter s)
    (rs_suppressed_counter s) (bump 1 (rs_ratecap_tripped_counter s)) (rs_federated_refused_counter s).
Definition bump_refused (s : RespState) : RespState :=
  mkRespState (rs_recent_fires s) (rs_destructive_fire_log s) (rs_lag_counter s)
    (rs_suppressed_counter s) (rs_ratecap_tripped_counter s) (bump 1 (rs_federated_refused_counter s)).

(** ** Dispatch *)

(** What one action's turn reads from outside: the clock at the dedup gate, at
    the rate cap and after execution, and the result of the execution. *)
Record Attempt := mkAttempt {
  at_dedup_now : Z;
  at_cap_now : Z;
  at_result : RunResult;
  at_done : Z;
}.

Inductive Verdict :=
| NotAllowed
| RefusedFederated
| SuppressedDedup
| SuppressedCap
| Executed (r : RunResult).

Section dispatch.
Context (cfg : Responder).

(** The dedup gate: the state with expired entries dropped, and [None] when the
    action is suppressed, else the key to record on success. *)
Definition dedup_gate (autonomous : bool) (name : string) (event : Event) (now : Z) (s : RespState) :
    option (option string) * RespState :=
  if autonomous && negb (rp_dedup_window cfg =? 0)%Z && is_destructive_action name then
    let key := name +:+ "|" +:+ event_target_sig event in
    let recent := filter (fun kv => duration_since now kv.2 < rp_dedup_window cfg)%Z (rs_recent_fires s) in
    if bool_decide (is_Some (recent !! key)) then (None, bump_suppressed (set_recent recent s))
    else (Some (Some key), set_recent recent s)
  else (Some None, s).

(** The rate cap: whether the action may run. *)
Definition cap_gate (autonomous : bool) (name : string) (now : Z) (s : RespState) : bool * RespState :=
  if autonomous && (0 <? rp_destructive_cap_per_min cfg)%Z && is_destructive_action name then
    let log := filter (fun t => duration_since now t < CAP_WINDOW)%Z (rs_destructive_fire_log s) in
    if (rp_destructive_cap_per_min cfg <=? as_u32 (Z.of_nat (length log)))%Z
    then (false, bump_ratecap (bump_suppressed (set_log log s)))
    else (true, set_log (log ++ [now]) s)
  else (true, s).

(** The dedup record is committed only on success. *)
Definition commit (dedup_key : option string) (a : Attempt) (s : RespState) : RespState :=
  match at_result a, dedup_key with
  | Some (Ok o), Some key =>
      if bool_decide (ao_status o = ActionStatus.Success)
      then set_recent (<[key := at_done a]> (rs_recent_fires s)) s
      else s
  | _, _ => s
  end.

(** One iteration of the loop of [handle_finding]. *)
Definition handle_action (event : Event) (autonomous : bool) (name : string) (a : Attempt)
    (s : RespState) : Verdict * RespState :=
  if negb (bool_decide (name ∈ rp_allowed_actions cfg)) then (NotAllowed, s)
  else if autonomous && negb (rp_act_on_federated cfg) && ev_federated event
          && negb (ev_federation_verified event) && is_destructive_action name
  then (RefusedFederated, bump_refused s)
  else
    let '(gate, s) := dedup_gate autonomous name event (at_dedup_now a) s in
    match gate with
    | None => (SuppressedDedup, s)
    | Some dedup_key =>
        let '(pass, s) := cap_gate autonomous name (at_cap_now a) s in
        if pass then (Executed (at_result a), commit dedup_key a s) else (SuppressedCap, s)
    end.

(** The loop over the registered actions; the environment gives each its
    attempt. *)
Fixpoint handle_actions (event : Event) (autonomous : bool) (actions : list string)
    (env : nat -> Attempt) (i : nat) (s : RespState) : list (string * Verdict) * RespState :=
  match actions with
  | [] => ([], s)
  | name :: actions =>
      let '(v, s) := handle_action event autonomous name (env i) s in
      let '(vs, s) := handle_actions event autonomous actions env (S i) s in
      ((name, v) :: vs, s)
  end.

Definition handle_finding (event : Event) (autonomous : bool) (env : nat -> Attempt) (s : RespState) :
    list (string * Verdict) * RespState :=
  handle_actions event autonomous (rp_actions cfg) env 0 s.

(** [fire]: the operator's direct path. *)
Definition fire (event : Event) (env : nat -> Attempt) (s : RespState) :
    list (string * Verdict) * RespState :=
  handle_finding event false env s.

(** The text of a timeout; action names need no escaping in [{:?}]. *)
Definition timeout_message (name : string) : string :=
  "action " +:+ dquote +:+ name +:+ dquote +:+ " timed out after "
  +:+ show_secs (rp_action_deadline cfg) +:+ "s (deadline; child killed via kill_on_drop)".

(** [dispatch_single]: the first action of that name, allowlist or not. *)
Definition dispatch_single (name : string) (run : string -> RunResult) :
    option (result ActionOutcome ActionError) :=
  match List.find (fun n => bool_decide (n = name)) (rp_actions cfg) with
  | Some n => Some (default (Err (ActionExec (timeout_message name))) (run n))
  | None => None
  end.

Definition action_names : list string := rp_actions cfg.

(** [unknown_allowed_actions]: sorted, without repetition. *)
Definition unknown_allowed_actions : list string :=
  merge_sort String.le (elements (filter (fun n => n ∉ rp_actions cfg) (rp_allowed_actions cfg))).

(** ** The bus loop *)

Inductive bus_input :=
| Shutdown
| FromBus (r : result Event BusError) (env : nat -> Attempt).

Definition resp_turn (i : bus_input) (s : RespState) : list (string * Verdict) * RespState * bool :=
  match i with
  | Shutdown => ([], s, false)
  | FromBus (Ok event) env =>
      if bool_decide (ev_category_uid event = CategoryUid.Findings) then
        if severity_lt (ev_severity_id event) (rp_min_severity cfg) then ([], s, true)
        else let '(vs, s) := handle_finding event true env s in (vs, s, true)
      else ([], s, true)
  | FromBus (Err (Lagged n)) _ => ([], bump_lag n s, true)
  | FromBus (Err Closed) _ => ([], s, false)
  | FromBus (Err NoSubscribers) _ => ([], s, true)
  end.

Fixpoint resp_run (inputs : list bus_input) (s : RespState) : list (list (string * Verdict)) * RespState :=
  match inputs with
  | [] => ([], s)
  | i :: inputs =>
      let '(vs, s, go) := resp_turn i s in
      if go then let '(rest, s) := resp_run inputs s in (vs :: rest, s) else ([vs], s)
  end.
End dispatch.
