(* ===== verification/ResponderProps.v ===== *)
(** * Properties of the responder

    The gates of the responder against a specification that remembers the whole
    history of dispatches instead of pruned tables: which actions run, the rate
    bound on destructive actions, the federation trust boundary and the
    operator paths of crates/selfdef-responder/src/lib.rs. *)

From S2P Require Import Prelude Core Bus Responder.
From stdpp Require Import options.

(** ** Specification *)

(** One dispatch: the event, who asked, the action and its attempt. *)
Record Turn := mkTurn {
  tn_event : Event;
  tn_autonomous : bool;
  tn_name : string;
  tn_attempt : Attempt;
}.

(** Everything that was run under the gates, without forgetting: the instants
    of the destructive dispatches in order, and the successes, newest first. *)
Record Hist := mkHist {
  h_dispatched : list Z;
  h_successes : list (string * Z);
}.

Definition tn_key (tn : Turn) : string := tn_name tn +:+ "|" +:+ event_target_sig (tn_event tn).
Definition tn_gated (tn : Turn) : bool := tn_autonomous tn && is_destructive_action (tn_name tn).

Definition succeeded (r : RunResult) : bool :=
  match r with
  | Some (Ok o) => bool_decide (ao_status o = ActionStatus.Success)
  | _ => false
  end.

(** Executions in the minute that ends at [now]. *)
Definition in_last_minute (now : Z) (times : list Z) : list Z :=
  filter (fun t => now - t < CAP_WINDOW)%Z times.

Definition recent_success (key : string) (now window : Z) (h : Hist) : bool :=
  existsb (fun kt => bool_decide (kt.1 = key) && (now - kt.2 <? window)%Z) (h_successes h).

Definition spec_verdict (cfg : Responder) (tn : Turn) (h : Hist) : Verdict :=
  let a := tn_attempt tn in
  if negb (bool_decide (tn_name tn ∈ rp_allowed_actions cfg)) then NotAllowed
  else if negb (tn_gated tn) then Executed (at_result a)
  else if negb (rp_act_on_federated cfg) && ev_federated (tn_event tn)
          && negb (ev_federation_verified (tn_event tn)) then RefusedFederated
  else if (0 <? rp_dedup_window cfg)%Z
          && recent_success (tn_key tn) (at_dedup_now a) (rp_dedup_window cfg) h then SuppressedDedup
  else if (0 <? rp_destructive_cap_per_min cfg)%Z
          && (rp_destructive_cap_per_min cfg
              <=? Z.of_nat (length (in_last_minute (at_cap_now a) (h_dispatched h))))%Z
  then SuppressedCap
  else Executed (at_result a).

Definition spec_record (tn : Turn) (v : Verdict) (h : Hist) : Hist :=
  match v with
  | Executed r =>
      if tn_gated tn then
        {| h_dispatched := h_dispatched h ++ [at_cap_now (tn_attempt tn)];
           h_successes := if succeeded r then (tn_key tn, at_done (tn_attempt tn)) :: h_successes h
                          else h_successes h |}
      else h
  | _ => h
  end.

Fixpoint spec_turns (cfg : Responder) (turns : list Turn) (h : Hist) : list Verdict :=
  match turns with
  | [] => []
  | tn :: turns => let v := spec_verdict cfg tn h in v :: spec_turns cfg turns (spec_record tn v h)
  end.

(** ** The dispatches of a run *)

Fixpoint finding_turns (event : Event) (autonomous : bool) (actions : list string)
    (env : nat -> Attempt) (i : nat) : list Turn :=
  match actions with
  | [] => []
  | name :: actions =>
      mkTurn event autonomous name (env i) :: finding_turns event autonomous actions env (S i)
  end.

(** The dispatches the bus loop makes: one per registered action for every
    finding at or above the severity floor, until the loop ends. *)
Fixpoint run_turns (cfg : Responder) (inputs : list bus_input) : list Turn :=
  match inputs with
  | [] => []
  | Shutdown :: _ => []
  | FromBus (Err Closed) _ :: _ => []
  | FromBus (Ok event) env :: inputs =>
      (if bool_decide (ev_category_uid event = CategoryUid.Findings)
          && negb (severity_lt (ev_severity_id event) (rp_min_severity cfg))
       then finding_turns event true (rp_actions cfg) env 0 else [])
      ++ run_turns cfg inputs
  | FromBus (Err _) _ :: inputs => run_turns cfg inputs
  end.

(** The code's gate applied to a sequence of dispatches. *)
Fixpoint code_turns (cfg : Responder) (turns : list Turn) (s : RespState) : list Verdict * RespState :=
  match turns with
  | [] => ([], s)
  | tn :: turns =>
      let '(v, s) := handle_action cfg (tn_event tn) (tn_autonomous tn) (tn_name tn) (tn_attempt tn) s in
      let '(vs, s) := code_turns cfg turns s in
      (v :: vs, s)
  end.

(** Clock readings in the order the code takes them. *)
Fixpoint clock_ordered (c : Z) (turns : list Turn) : Prop :=
  match turns with
  | [] => True
  | tn :: turns =>
      let a := tn_attempt tn in
      (c <= at_dedup_now a <= at_cap_now a /\ at_cap_now a <= at_done a)%Z /\
      clock_ordered (at_done a) turns
  end.

Definition cfg_wf (cfg : Responder) : Prop :=
  (0 <= rp_dedup_window cfg)%Z /\ (0 <= rp_destructive_cap_per_min cfg <= u32_max)%Z.

(** ** Sequencing lemmas *)

Lemma code_turns_app cfg l1 l2 s :
  code_turns cfg (l1 ++ l2) s =
  let '(v1, s1) := code_turns cfg l1 s in
  let '(v2, s2) := code_turns cfg l2 s1 in (v1 ++ v2, s2).
Proof.
  revert s. induction l1 as [|tn l1 IH]; intros s; simpl; [by destruct (code_turns cfg l2 s)|].
  destruct (handle_action _ _ _ _ _ s) as [v s1]. rewrite IH.
  destruct (code_turns cfg l1 s1) as [v1 s2]. by destruct (code_turns cfg l2 s2).
Qed.

Lemma handle_actions_turns cfg event autonomous actions env i s :
  let '(vs, s') := handle_actions cfg event autonomous actions env i s in
  code_turns cfg (finding_turns event autonomous actions env i) s = (vs.*2, s') /\ vs.*1 = actions.
Proof.
  revert i s. induction actions as [|n actions IH]; intros i s; [done|]. simpl.
  destruct (handle_action _ _ _ _ _ s) as [v s1]. specialize (IH (S i) s1).
  destruct (handle_actions _ _ _ _ _ _ s1) as [vs s2]. destruct IH as [-> Hn]. csimpl. by rewrite Hn.
Qed.

(** The only other effect of the loop is on the lag counter. *)
Definition gate_state (s : RespState) : gmap string Z * list Z :=
  (rs_recent_fires s, rs_destructive_fire_log s).

Lemma handle_action_gate_ext cfg event autonomous name a s1 s2 :
  gate_state s1 = gate_state s2 ->
  (handle_action cfg event autonomous name a s1).1 = (handle_action cfg event autonomous name a s2).1 /\
  gate_state (handle_action cfg event autonomous name a s1).2
    = gate_state (handle_action cfg event autonomous name a s2).2.
Proof.
  destruct s1 as [r1 l1 ????], s2 as [r2 l2 ????]. unfold gate_state. simpl. intros; simplify_eq.
  unfold handle_action, dedup_gate, cap_gate, commit. simpl.
  repeat (case_match; simplify_eq/=); done.
Qed.

Lemma code_turns_gate_ext cfg turns : forall s1 s2,
  gate_state s1 = gate_state s2 -> (code_turns cfg turns s1).1 = (code_turns cfg turns s2).1.
Proof.
  induction turns as [|tn turns IH]; intros s1 s2 Hs; [done|]. simpl.
  destruct (handle_action_gate_ext cfg (tn_event tn) (tn_autonomous tn) (tn_name tn) (tn_attempt tn)
    s1 s2 Hs) as [Hv Hg].
  destruct (handle_action _ _ _ _ _ s1) as [v1 s1'], (handle_action _ _ _ _ _ s2) as [v2 s2'].
  simpl in *. subst v2. specialize (IH s1' s2' Hg).
  destruct (code_turns cfg turns s1'), (code_turns cfg turns s2'). simpl in *. by rewrite IH.
Qed.

Lemma resp_run_turns cfg inputs : forall s,
  (concat (resp_run cfg inputs s).1).*2 = (code_turns cfg (run_turns cfg inputs) s).1.
Proof.
  induction inputs as [|i inputs IH]; intros s; [done|].
  destruct i as [|[event|[|n|]] env]; simpl; try done.
  - case_bool_decide; simpl.
    + destruct (severity_lt _ _); simpl.
      * specialize (IH s). by destruct (resp_run cfg inputs s).
      * unfold handle_finding. rewrite code_turns_app.
        pose proof (handle_actions_turns cfg event true (rp_actions cfg) env 0 s) as Hh.
        destruct (handle_actions _ _ _ _ _ _ s) as [vs s1]. destruct Hh as [-> _].
        specialize (IH s1). destruct (resp_run cfg inputs s1). simpl in *.
        rewrite fmap_app, IH. by destruct (code_turns cfg _ s1).
    + specialize (IH s). by destruct (resp_run cfg inputs s).
  - specialize (IH s). by destruct (resp_run cfg inputs s).
  - specialize (IH (bump_lag n s)). destruct (resp_run cfg inputs _). simpl in *.
    rewrite IH. by apply code_turns_gate_ext.
Qed.

(** ** The pruned tables simulate the history *)

Lemma duration_since_lt now t w : (0 < w)%Z -> (duration_since now t < w)%Z <-> (now - t < w)%Z.
Proof. unfold duration_since. lia. Qed.

(** The newest success of a key. *)
Definition newest (key : string) (l : list (string * Z)) : option Z :=
  snd <$> head (filter (fun kt => kt.1 = key) l).

Definition newest_first (l : list (string * Z)) : Prop := StronglySorted (fun a b => b.2 <= a.2)%Z l.

Lemma newest_cons key k t l :
  newest key ((k, t) :: l) = if decide (k = key) then Some t else newest key l.
Proof. unfold newest. rewrite filter_cons. simpl. by case_decide. Qed.

Lemma recent_success_newest key now w h :
  newest_first (h_successes h) ->
  recent_success key now w h =
    match newest key (h_successes h) with Some t => (now - t <? w)%Z | None => false end.
Proof.
  unfold recent_success. generalize (h_successes h) as l. clear h.
  induction 1 as [|[k t] l _ IH Hf]; [done|]. rewrite newest_cons. simpl. rewrite IH.
  case_bool_decide; simpl; [|by rewrite decide_False]. subst. rewrite decide_True by done.
  destruct (newest key l) as [t'|] eqn:E; [|by rewrite orb_false_r].
  assert (Ht : (t' <= t)%Z).
  { unfold newest in E. destruct (head _) as [[k' t0]|] eqn:Eh; simplify_eq/=.
    apply head_Some_elem_of, list_elem_of_filter in Eh as [_ Hin].
    rewrite Forall_forall in Hf. by apply (Hf _ Hin). }
  repeat zcase; simpl; lia || done.
Qed.

Definition if_live (now w : Z) (o : option Z) : option Z :=
  match o with
  | Some t => if (now - t <? w)%Z then Some t else None
  | None => None
  end.

(** The fire log is the part of the history inside the minute before the
    latest reading; the table is the newest success of each key, if recent. *)
Record gate_sim (cfg : Responder) (c : Z) (h : Hist) (s : RespState) : Prop := {
  gs_log : (0 < rp_destructive_cap_per_min cfg)%Z -> exists c1, (c1 <= c)%Z /\
    rs_destructive_fire_log s = in_last_minute c1 (h_dispatched h) /\
    Forall (fun t => t <= c1)%Z (h_dispatched h) /\
    (Z.of_nat (length (rs_destructive_fire_log s)) <= rp_destructive_cap_per_min cfg)%Z;
  gs_recent : (0 < rp_dedup_window cfg)%Z -> exists c2, (c2 <= c)%Z /\
    forall k, rs_recent_fires s !! k =
      if_live c2 (rp_dedup_window cfg) (newest k (h_successes h));
  gs_sorted : newest_first (h_successes h);
  gs_past : Forall (fun kt => kt.2 <= c)%Z (h_successes h);
}.

Lemma gate_sim_init cfg c s :
  (0 <= rp_destructive_cap_per_min cfg)%Z ->
  gate_state s = (∅, []) -> gate_sim cfg c (mkHist [] []) s.
Proof.
  unfold gate_state. intros ? [= Hr Hl]. split; simpl; rewrite ?Hr, ?Hl.
  - intros _. exists c. split_and!; [lia|done|constructor|done].
  - intros _. exists c. split; [lia|]. intros k. by rewrite lookup_empty.
  - constructor.
  - constructor.
Qed.

Lemma gate_sim_later cfg c c' h s : (c <= c')%Z -> gate_sim cfg c h s -> gate_sim cfg c' h s.
Proof.
  intros Hc [Hl Hr Hs Hp]. split; [| |done|].
  - intros Hcap. destruct (Hl Hcap) as (c1 & ? & ?). exists c1. split; [lia|done].
  - intros Hw. destruct (Hr Hw) as (c2 & ? & ?). exists c2. split; [lia|done].
  - eapply Forall_impl; [done|]. simpl. intros. lia.
Qed.

Lemma in_last_minute_later c c' l :
  (c <= c')%Z -> filter (fun t => duration_since c' t < CAP_WINDOW)%Z (in_last_minute c l)
  = in_last_minute c' l.
Proof.
  intros Hc. unfold in_last_minute. rewrite list_filter_filter.
  apply list_filter_iff. intros t. rewrite duration_since_lt by done. lia.
Qed.

(** The cap gate, against the history. *)
Lemma cap_gate_sim cfg c now name h s :
  cfg_wf cfg -> gate_sim cfg c h s -> (c <= now)%Z -> is_destructive_action name = true ->
  let full := (0 <? rp_destructive_cap_per_min cfg)%Z
    && (rp_destructive_cap_per_min cfg <=? Z.of_nat (length (in_last_minute now (h_dispatched h))))%Z in
  let '(pass, s') := cap_gate cfg true name now s in
  pass = negb full /\
  gate_sim cfg now (if pass then mkHist (h_dispatched h ++ [now]) (h_successes h) else h) s'.
Proof.
  intros [_ Hcap] Hsim Hnow Hd full. unfold cap_gate. rewrite Hd, andb_true_r. simpl.
  unfold full. destruct (Z.ltb_spec 0 (rp_destructive_cap_per_min cfg)) as [H0|H0]; simpl.
  2: { split; [done|]. apply (gate_sim_later _ c now) in Hsim; [|done].
       destruct Hsim as [Hl Hr Hs Hp]. split; [intros; lia|done..]. }
  destruct (gs_log _ _ _ _ Hsim H0) as (c1 & Hc1 & Hlog & Hpast & Hlen).
  rewrite Hlog, in_last_minute_later by lia.
  assert (Hle : (Z.of_nat (length (in_last_minute now (h_dispatched h)))
     <= rp_destructive_cap_per_min cfg)%Z).
  { rewrite Hlog in Hlen. rewrite <-(in_last_minute_later c1 now) by lia.
    pose proof (length_filter (fun t => duration_since now t < CAP_WINDOW)%Z
      (in_last_minute c1 (h_dispatched h))). lia. }
  rewrite as_u32_id by lia.
  assert (Hpast' : Forall (fun t => t <= now)%Z (h_dispatched h)).
  { eapply Forall_impl; [done|]. simpl. intros. lia. }
  destruct (gate_sim_later _ _ _ _ _ Hnow Hsim) as [_ Hr Hs Hp].
  destruct (Z.leb_spec (rp_destructive_cap_per_min cfg)
    (Z.of_nat (length (in_last_minute now (h_dispatched h))))); simpl; (split; [done|]).
  - split; simpl; [|done..]. intros _. exists now. split_and!; [lia|done|done|done].
  - assert (Hpush : in_last_minute now (h_dispatched h) ++ [now]
      = in_last_minute now (h_dispatched h ++ [now])).
    { unfold in_last_minute. rewrite filter_app. f_equal.
      rewrite filter_cons_True, filter_nil; [done|]. unfold CAP_WINDOW, from_secs. lia. }
    split; simpl; [|done..]. intros _. exists now. rewrite Hpush.
    split_and!; [lia|done| |].
    + apply Forall_app. split; [done|]. constructor; [lia|constructor].
    + rewrite <-Hpush, length_app. simpl. lia.
Qed.

(** The dedup gate, against the history. *)
Lemma dedup_gate_sim cfg c now name event h s :
  cfg_wf cfg -> gate_sim cfg c h s -> (c <= now)%Z -> is_destructive_action name = true ->
  let key := name +:+ "|" +:+ event_target_sig event in
  let '(gate, s') := dedup_gate cfg true name event now s in
  gate_sim cfg now h s' /\
  gate = (if (0 <? rp_dedup_window cfg)%Z && recent_success key now (rp_dedup_window cfg) h then None
          else Some (if (0 <? rp_dedup_window cfg)%Z then Some key else None)).
Proof.
  intros [Hw _] Hsim Hnow Hd key. unfold dedup_gate. fold key. rewrite Hd, andb_true_r.
  destruct (Z.eqb_spec (rp_dedup_window cfg) 0) as [->|Hne]; simpl;
    [by split; [eapply gate_sim_later|]|].
  rewrite (proj2 (Z.ltb_lt 0 (rp_dedup_window cfg))) by lia. simpl.
  destruct (gs_recent _ _ _ _ Hsim ltac:(lia)) as (c2 & Hc2 & Hrec).
  set (recent := filter _ (rs_recent_fires s)).
  assert (Hr : forall k, recent !! k = if_live now (rp_dedup_window cfg) (newest k (h_successes h))).
  { intros k. unfold recent. rewrite map_lookup_filter, Hrec.
    destruct (newest k (h_successes h)) as [t|]; simpl; [|done].
    pose proof (duration_since_lt now t (rp_dedup_window cfg) ltac:(lia)).
    repeat zcase; simpl; rewrite ?option_guard_True, ?option_guard_False by lia; done || lia. }
  rewrite (recent_success_newest _ _ _ _ (gs_sorted _ _ _ _ Hsim)).
  pose proof (Hr key) as Hk. destruct (gate_sim_later _ _ _ _ _ Hnow Hsim) as [Hl _ Hs Hp].
  assert (Hsim' : gate_sim cfg now h (set_recent recent s)).
  { split; [exact Hl| |done|done]. intros _. exists now. split; [lia|exact Hr]. }
  destruct (newest key (h_successes h)) as [t|]; simpl in Hk;
    [destruct (Z.ltb_spec (now - t) (rp_dedup_window cfg))|].
  - rewrite bool_decide_true by (rewrite Hk; done). split; [by destruct Hsim'|done].
  - rewrite bool_decide_false by (rewrite Hk; by intros []). done.
  - rewrite bool_decide_false by (rewrite Hk; by intros []). done.
Qed.

(** Recording a success keeps the simulation. *)
Lemma commit_sim cfg c key a h s :
  gate_sim cfg c h s -> (c <= at_done a)%Z ->
  gate_sim cfg (at_done a)
    (mkHist (h_dispatched h)
      (if succeeded (at_result a) then (key, at_done a) :: h_successes h else h_successes h))
    (commit (if (0 <? rp_dedup_window cfg)%Z then Some key else None) a s).
Proof.
  intros Hsim Hc. pose proof (gs_past _ _ _ _ Hsim) as Hpast.
  destruct (gate_sim_later _ _ _ _ _ Hc Hsim) as [Hl Hr Hs Hp].
  unfold commit, succeeded.
  destruct (at_result a) as [[o|e]|]; simpl;
    [|by destruct (Z.ltb 0 (rp_dedup_window cfg)); split..].
  case_bool_decide; simpl; [|by destruct (Z.ltb 0 (rp_dedup_window cfg)); split].
  assert (Hs' : newest_first ((key, at_done a) :: h_successes h)).
  { constructor; [done|]. eapply Forall_impl; [done|]. simpl. intros. lia. }
  assert (Hp' : Forall (fun kt => kt.2 <= at_done a)%Z ((key, at_done a) :: h_successes h)).
  { constructor; [simpl; lia|done]. }
  destruct (Z.ltb_spec 0 (rp_dedup_window cfg)); (split; [exact Hl| |done|done]); intros Hw; [|lia].
  destruct (gs_recent _ _ _ _ Hsim Hw) as (c2 & ? & Hrec). exists c2. split; [lia|].
  intros k. simpl. rewrite newest_cons. case_decide.
  - subst. rewrite lookup_insert_eq. simpl. destruct (Z.ltb_spec (c2 - at_done a) (rp_dedup_window cfg)); [done|lia].
  - by rewrite lookup_insert_ne.
Qed.

Lemma handle_action_sim cfg c tn h s :
  cfg_wf cfg -> gate_sim cfg c h s -> clock_ordered c [tn] ->
  let '(v, s') := handle_action cfg (tn_event tn) (tn_autonomous tn) (tn_name tn) (tn_attempt tn) s in
  v = spec_verdict cfg tn h /\ gate_sim cfg (at_done (tn_attempt tn)) (spec_record tn v h) s'.
Proof.
  intros Hcfg Hsim [[Hc1 Hc2] _]. unfold handle_action, spec_verdict, tn_gated, tn_key.
  assert (Hlater : gate_sim cfg (at_done (tn_attempt tn)) h s) by (eapply gate_sim_later; [|done]; lia).
  destruct (negb (bool_decide _)); [done|].
  destruct (tn_autonomous tn) eqn:Ea; simpl;
    [destruct (is_destructive_action (tn_name tn)) eqn:Ed; rewrite ?andb_true_r, ?andb_false_r; simpl|].
  - destruct (_ && _ && negb (ev_federation_verified _)).
    { split; [done|]. by destruct Hlater. }
    pose proof (dedup_gate_sim cfg c (at_dedup_now (tn_attempt tn)) (tn_name tn) (tn_event tn) h s
      Hcfg Hsim ltac:(lia) Ed) as Hdg.
    destruct (dedup_gate _ _ _ _ _ s) as [gate s1]. destruct Hdg as [Hsim1 ->].
    destruct ((0 <? rp_dedup_window cfg)%Z && recent_success _ _ _ h) eqn:Er.
    { split; [done|]. eapply gate_sim_later; [|done]. lia. }
    pose proof (cap_gate_sim cfg _ (at_cap_now (tn_attempt tn)) (tn_name tn) h s1 Hcfg Hsim1
      ltac:(lia) Ed) as Hcg.
    destruct (cap_gate _ _ _ _ s1) as [pass s2]. destruct Hcg as [-> Hsim2].
    destruct ((0 <? rp_destructive_cap_per_min cfg)%Z && _); simpl in *.
    { split; [done|]. eapply gate_sim_later; [|done]. lia. }
    split; [done|]. unfold tn_gated. rewrite Ea, Ed. simpl.
    apply (commit_sim _ _ (tn_key tn) _ _ _ Hsim2). lia.
  - unfold dedup_gate, cap_gate. rewrite Ed, !andb_false_r. simpl.
    unfold tn_gated. rewrite Ea, Ed. simpl. split; [done|].
    unfold commit. by destruct (at_result _) as [[]|].
  - unfold dedup_gate, cap_gate. simpl. unfold tn_gated. rewrite Ea. simpl. split; [done|].
    unfold commit. by destruct (at_result _) as [[]|].
Qed.

Lemma code_turns_sim cfg turns : forall c h s,
  cfg_wf cfg -> gate_sim cfg c h s -> clock_ordered c turns ->
  (code_turns cfg turns s).1 = spec_turns cfg turns h.
Proof.
  induction turns as [|tn turns IH]; intros c h s Hcfg Hsim Hclock; [done|].
  destruct Hclock as [Hc Hcs]. simpl.
  pose proof (handle_action_sim cfg c tn h s Hcfg Hsim (conj Hc I)) as Hh.
  destruct (handle_action _ _ _ _ _ s) as [v s1]. destruct Hh as [-> Hsim1].
  specialize (IH _ _ _ Hcfg Hsim1 Hcs). destruct (code_turns cfg turns s1). simpl in *. by rewrite IH.
Qed.

(** ** The rate bound *)

(** The instants of the gated executions of a run. *)
Definition execution_time (tv : Turn * Verdict) : option Z :=
  match tv.2 with
  | Executed _ => if tn_gated tv.1 then Some (at_cap_now (tn_attempt tv.1)) else None
  | _ => None
  end.
Definition execution_times (turns : list Turn) (vs : list Verdict) : list Z :=
  omap execution_time (zip turns vs).

(** The instants of the list in the minute that ends at [x]. *)
Definition within_minute (x : Z) (l : list Z) : list Z :=
  filter (fun t => x - CAP_WINDOW < t <= x)%Z l.

Lemma within_minute_snoc x now l n :
  Forall (fun t => t <= now)%Z l ->
  length (within_minute x l) <= n -> length (in_last_minute now l) < n ->
  length (within_minute x (l ++ [now])) <= n.
Proof.
  intros Hpast Hx Hnow. unfold within_minute. rewrite filter_app, length_app.
  rewrite filter_cons, filter_nil. case_decide as Hd; simpl; [|unfold within_minute in Hx; lia].
  enough (length (filter (fun t => x - CAP_WINDOW < t <= x)%Z l) <= length (in_last_minute now l)) by lia.
  unfold in_last_minute. clear Hx Hnow. induction Hpast as [|t l Ht _ IH]; [done|].
  rewrite !filter_cons. case_decide; [rewrite decide_True by lia; simpl; lia|].
  case_decide; simpl; lia.
Qed.

Lemma spec_dispatch_step cfg tn h :
  h_dispatched (spec_record tn (spec_verdict cfg tn h) h)
  = h_dispatched h ++ option_list (execution_time (tn, spec_verdict cfg tn h)).
Proof.
  unfold spec_record, execution_time. simpl.
  destruct (spec_verdict cfg tn h); simpl; try by rewrite app_nil_r.
  destruct (tn_gated tn); simpl; by rewrite ?app_nil_r.
Qed.

Lemma spec_executed_below cfg tn h t :
  (0 < rp_destructive_cap_per_min cfg)%Z -> execution_time (tn, spec_verdict cfg tn h) = Some t ->
  t = at_cap_now (tn_attempt tn) /\
  (Z.of_nat (length (in_last_minute t (h_dispatched h))) < rp_destructive_cap_per_min cfg)%Z.
Proof.
  intros Hcap. unfold execution_time, spec_verdict. simpl.
  destruct (negb (bool_decide _)); [done|].
  destruct (tn_gated tn); simpl; [|done]. destruct (_ && _ && _); [done|].
  destruct (_ && recent_success _ _ _ _); [done|].
  rewrite (proj2 (Z.ltb_lt _ _) Hcap). simpl. zcase; [done|]. intros; by simplify_eq.
Qed.

Lemma spec_rate_bound cfg turns : forall c h x,
  (0 < rp_destructive_cap_per_min cfg)%Z -> clock_ordered c turns ->
  Forall (fun t => t <= c)%Z (h_dispatched h) ->
  (Z.of_nat (length (within_minute x (h_dispatched h))) <= rp_destructive_cap_per_min cfg)%Z ->
  (Z.of_nat (length (within_minute x
     (h_dispatched h ++ execution_times turns (spec_turns cfg turns h))))
   <= rp_destructive_cap_per_min cfg)%Z.
Proof.
  induction turns as [|tn turns IH]; intros c h x Hcap Hclock Hpast Hx; simpl;
    [by rewrite app_nil_r|].
  destruct Hclock as [[[? ?] ?] Hcs]. unfold execution_times. csimpl.
  pose proof (spec_dispatch_step cfg tn h) as Hstep. set (v := spec_verdict cfg tn h) in *.
  assert (Hpast' : Forall (fun t => t <= at_done (tn_attempt tn))%Z (h_dispatched h))
    by (eapply Forall_impl; [done|]; simpl; intros; lia).
  assert (Hnext : Forall (fun t => t <= at_done (tn_attempt tn))%Z (h_dispatched (spec_record tn v h)) /\
    (Z.of_nat (length (within_minute x (h_dispatched (spec_record tn v h))))
      <= rp_destructive_cap_per_min cfg)%Z).
  { rewrite Hstep. destruct (execution_time (tn, v)) as [t|] eqn:E; simpl; [|by rewrite app_nil_r].
    apply spec_executed_below in E as [-> Hlt]; [|done]. split.
    - apply Forall_app. split; [done|]. constructor; [lia|constructor].
    - pose proof (within_minute_snoc x (at_cap_now (tn_attempt tn)) (h_dispatched h)
        (Z.to_nat (rp_destructive_cap_per_min cfg))) as Hw.
      specialize (Hw ltac:(eapply Forall_impl; [exact Hpast|]; simpl; intros; lia)). lia. }
  destruct Hnext as [Hp' Hx']. specialize (IH _ _ x Hcap Hcs Hp' Hx'). rewrite Hstep in IH.
  destruct (execution_time (tn, v)); simpl in *; [by rewrite <-app_assoc in IH|by rewrite app_nil_r in IH].
Qed.

(** ** Dedup, against the run itself *)

Fixpoint hist_after (cfg : Responder) (turns : list Turn) (h : Hist) : Hist :=
  match turns with
  | [] => h
  | tn :: turns => hist_after cfg turns (spec_record tn (spec_verdict cfg tn h) h)
  end.

Lemma spec_turns_lookup cfg turns : forall h j tn,
  turns !! j = Some tn ->
  spec_turns cfg turns h !! j = Some (spec_verdict cfg tn (hist_after cfg (take j turns) h)).
Proof.
  induction turns as [|tn' turns IH]; intros h [|j] tn Hj; simpl in *; simplify_eq; [done|]. by apply IH.
Qed.

(** Turn [i] ran its action under the gates, and the action succeeded. *)
Definition success_at (turns : list Turn) (vs : list Verdict) (i : nat) (tn : Turn) : Prop :=
  turns !! i = Some tn /\ tn_gated tn = true /\
  exists r, vs !! i = Some (Executed r) /\ succeeded r = true.

Lemma hist_successes cfg turns : forall h j key t,
  (key, t) ∈ h_successes (hist_after cfg (take j turns) h) <->
  (key, t) ∈ h_successes h \/
  exists i tn, i < j /\ success_at turns (spec_turns cfg turns h) i tn /\
    tn_key tn = key /\ at_done (tn_attempt tn) = t.
Proof.
  induction turns as [|tn turns IH]; intros h j key t.
  { rewrite take_nil. simpl. split; [by left|]. by intros [?|(i & tn & _ & [? _] & _)]. }
  destruct j as [|j]; simpl.
  { split; [by left|]. intros [?|(i & ? & ? & _)]; [done|lia]. }
  rewrite IH. set (v := spec_verdict cfg tn h).
  assert (Hhead : (key, t) ∈ h_successes (spec_record tn v h) <->
    (key, t) ∈ h_successes h \/ success_at (tn :: turns) (v :: spec_turns cfg turns (spec_record tn v h)) 0 tn
      /\ tn_key tn = key /\ at_done (tn_attempt tn) = t).
  { unfold spec_record, success_at. simpl. destruct v as [| | | |r]; try naive_solver.
    destruct (tn_gated tn); simpl; [|split; [by left|]; by intros [?|((_ & ? & _) & _)]].
    destruct (succeeded r) eqn:Er; simpl;
      [|split; [by left|]; intros [?|((_ & _ & r' & [= <-] & Hr') & _)]; [done|congruence]].
    rewrite elem_of_cons. split.
    - intros [[= -> ->]|?]; [right|by left]. by eauto 7.
    - intros [?|(_ & -> & ->)]; [by right|by left]. }
  rewrite Hhead. split.
  - intros [[?|?]|(i & tn' & ? & Hs & ?)]; [by left|right; exists 0, tn; split; [lia|done]|].
    right. exists (S i), tn'. split; [lia|done].
  - intros [?|([|i] & tn' & ? & Hs & ?)]; [by left; left| |right; exists i, tn'; split; [lia|done]].
    left. right. assert (tn' = tn) as -> by (destruct Hs as [Hl _]; by simplify_eq/=). done.
Qed.

Lemma run_verdicts cfg inputs c s :
  cfg_wf cfg -> gate_state s = (∅, []) -> clock_ordered c (run_turns cfg inputs) ->
  (concat (resp_run cfg inputs s).1).*2 = spec_turns cfg (run_turns cfg inputs) (mkHist [] []).
Proof.
  intros Hcfg Hs Hc. rewrite resp_run_turns. eapply code_turns_sim; [done| |done].
  apply gate_sim_init; [apply Hcfg|done].
Qed.

(** The verdict of one action on the paths that no gate guards. *)
Lemma ungated_executes cfg event autonomous name a s :
  name ∈ rp_allowed_actions cfg -> autonomous && is_destructive_action name = false ->
  handle_action cfg event autonomous name a s = (Executed (at_result a), s).
Proof.
  intros Hin Hg. unfold handle_action. rewrite bool_decide_true by done. simpl.
  assert (Hf : autonomous && negb (rp_act_on_federated cfg) && ev_federated event
    && negb (ev_federation_verified event) && is_destructive_action name = false).
  { destruct autonomous; [|done]. simpl in *. rewrite Hg. apply andb_false_r. }
  assert (Hd : forall now, dedup_gate cfg autonomous name event now s = (Some None, s)).
  { intros now. unfold dedup_gate. destruct autonomous; simpl in *; [|done]. by rewrite Hg, andb_false_r. }
  assert (Hc : forall now, cap_gate cfg autonomous name now s = (true, s)).
  { intros now. unfold cap_gate. destruct autonomous; simpl in *; [|done]. by rewrite Hg, andb_false_r. }
  rewrite Hf, Hd, Hc. unfold commit. by destruct (at_result a) as [[]|].
Qed.

Lemma disallowed_skips cfg event autonomous name a s :
  name ∉ rp_allowed_actions cfg -> handle_action cfg event autonomous name a s = (NotAllowed, s).
Proof. intros. unfold handle_action. by rewrite bool_decide_false. Qed.

Lemma handle_actions_lookup cfg event autonomous actions env : forall i s j name v,
  (handle_actions cfg event autonomous actions env i s).1 !! j = Some (name, v) ->
  actions !! j = Some name /\
  exists s', v = (handle_action cfg event autonomous name (env (i + j)) s').1.
Proof.
  induction actions as [|n actions IH]; intros i s j name v; simpl; [done|].
  destruct (handle_action _ _ _ n _ s) as [v0 s1] eqn:E. specialize (IH (S i) s1).
  destruct (handle_actions _ _ _ _ _ _ s1) as [vs s2]. simpl in *.
  destruct j as [|j]; simpl; intros Hj; simplify_eq.
  - split; [done|]. exists s. rewrite Nat.add_0_r. by rewrite E.
  - destruct (IH j name v Hj) as [? (s' & ->)]. split; [done|]. exists s'. by rewrite Nat.add_succ_r.
Qed.

(** ** Properties *)

(** C1: the responder's gates implement their specification. Although the code
    keeps only pruned tables (a map of recent successes, a log of the last
    minute), over any run of the bus loop with clock readings in order every
    dispatch gets the verdict that the complete history of the run prescribes:
    allowlist, then the federation boundary, then dedup against all earlier
    successes on the same target, then the count of destructive dispatches in
    the minute before. *)
Theorem responder_refines (cfg : Responder) (inputs : list bus_input) (c : Z) (s : RespState) :
  cfg_wf cfg -> gate_state s = (∅, []) -> clock_ordered c (run_turns cfg inputs) ->
  (concat (resp_run cfg inputs s).1).*2 = spec_turns cfg (run_turns cfg inputs) (mkHist [] []).
Proof. apply run_verdicts. Qed.

(** C2: the circuit breaker holds. With a cap of [n] per minute, in every run of
    the bus loop and for every instant [x], at most [n] destructive actions were
    executed in the sixty seconds that end at [x], whatever the events, the
    targets and the outcomes. *)
Theorem destructive_rate_bounded (cfg : Responder) (inputs : list bus_input) (c : Z) (s : RespState) (x : Z) :
  cfg_wf cfg -> (0 < rp_destructive_cap_per_min cfg)%Z -> gate_state s = (∅, []) ->
  clock_ordered c (run_turns cfg inputs) ->
  let verdicts := (concat (resp_run cfg inputs s).1).*2 in
  (Z.of_nat (length (within_minute x (execution_times (run_turns cfg inputs) verdicts)))
   <= rp_destructive_cap_per_min cfg)%Z.
Proof.
  intros Hcfg Hcap Hs Hc verdicts. unfold verdicts. rewrite (run_verdicts _ _ c) by done.
  by apply (spec_rate_bound cfg (run_turns cfg inputs) c (mkHist [] []) x Hcap Hc); [constructor|simpl; lia].
Qed.

(** C3: burst dedup is exact. A destructive dispatch is suppressed as a
    duplicate if and only if it passed the allowlist and the federation
    boundary, dedup is enabled, and an earlier dispatch of the run with the same
    action and target was executed, succeeded, and finished less than the window
    before. In particular an action that failed, timed out, was skipped or ran
    dry stays retryable. *)
Theorem dedup_exact (cfg : Responder) (inputs : list bus_input) (c : Z) (s : RespState) j tn :
  cfg_wf cfg -> gate_state s = (∅, []) -> clock_ordered c (run_turns cfg inputs) ->
  run_turns cfg inputs !! j = Some tn ->
  let verdicts := (concat (resp_run cfg inputs s).1).*2 in
  verdicts !! j = Some SuppressedDedup <->
  tn_name tn ∈ rp_allowed_actions cfg /\ tn_gated tn = true /\
  (rp_act_on_federated cfg || negb (ev_federated (tn_event tn))
    || ev_federation_verified (tn_event tn)) = true /\
  (0 < rp_dedup_window cfg)%Z /\
  exists i tn', i < j /\ success_at (run_turns cfg inputs) verdicts i tn' /\ tn_key tn' = tn_key tn /\
    (at_dedup_now (tn_attempt tn) - at_done (tn_attempt tn') < rp_dedup_window cfg)%Z.
Proof.
  intros Hcfg Hs Hc Hj verdicts. unfold verdicts. rewrite (run_verdicts _ _ c) by done.
  rewrite (spec_turns_lookup _ _ _ _ _ Hj).
  set (h := hist_after cfg (take j (run_turns cfg inputs)) (mkHist [] [])).
  assert (Hrs : recent_success (tn_key tn) (at_dedup_now (tn_attempt tn)) (rp_dedup_window cfg) h = true
    <-> exists i tn', i < j /\ success_at (run_turns cfg inputs)
          (spec_turns cfg (run_turns cfg inputs) (mkHist [] [])) i tn' /\ tn_key tn' = tn_key tn /\
          (at_dedup_now (tn_attempt tn) - at_done (tn_attempt tn') < rp_dedup_window cfg)%Z).
  { unfold recent_success. rewrite existsb_exists. split.
    - intros ([k t] & Hin%list_elem_of_In & [Hk%bool_decide_eq_true Ht%Z.ltb_lt]%andb_true_iff).
      simpl in *. subst k. apply hist_successes in Hin as [?%elem_of_nil|(i & tn' & ? & ? & ? & <-)]; [done|].
      by exists i, tn'.
    - intros (i & tn' & Hi & Hsu & Hk & Ht). exists (tn_key tn, at_done (tn_attempt tn')). split.
      + apply list_elem_of_In, hist_successes. right. by exists i, tn'.
      + simpl. rewrite bool_decide_true by done. by apply Z.ltb_lt. }
  rewrite <-Hrs. unfold spec_verdict. clear Hrs.
  split.
  - case_bool_decide; [|done]. destruct (tn_gated tn); [|done]. simpl.
    destruct (rp_act_on_federated cfg), (ev_federated _), (ev_federation_verified _); simpl; try done;
      (destruct (Z.ltb_spec 0 (rp_dedup_window cfg)); simpl; [|by destruct (_ && _)]);
      (destruct (recent_success _ _ _ _); [done|by destruct (_ && _)]).
  - intros (Hin & -> & Hf & Hw & ->). rewrite bool_decide_true, (proj2 (Z.ltb_lt _ _) Hw) by done. simpl.
    by destruct (rp_act_on_federated cfg), (ev_federated _), (ev_federation_verified _).
Qed.

Lemma bump_refused_gates n s : gate_state (Nat.iter n bump_refused s) = gate_state s.
Proof. induction n as [|n IH]; [done|]. by rewrite <-IH. Qed.

(** C4: the federation trust boundary fails closed. With [act_on_federated] off, a
    finding that came from another host without a verified signature is answered,
    on the autonomous path, by exactly this: a registered action outside of the
    allowlist is not run, an allowed destructive one is refused, and any other
    allowed one is executed. The one change of state is that the counter of refused
    actions goes up by one for each refusal: the table of dedup and the log of the
    rate cap are left as they were, whatever they held. *)
Theorem federated_fails_closed (cfg : Responder) (event : Event) (env : nat -> Attempt) (s : RespState) :
  rp_act_on_federated cfg = false -> ev_federated event = true -> ev_federation_verified event = false ->
  let allowed name := bool_decide (name ∈ rp_allowed_actions cfg) in
  let refused := filter (fun name => (allowed name && is_destructive_action name)%bool = true) (rp_actions cfg) in
  let '(verdicts, s') := handle_finding cfg event true env s in
  verdicts = imap (fun i name => (name, if allowed name
                                        then if is_destructive_action name then RefusedFederated
                                             else Executed (at_result (env i))
                                        else NotAllowed)) (rp_actions cfg) /\
  s' = Nat.iter (length refused) bump_refused s /\ gate_state s' = gate_state s.
Proof.
  intros Hact Hfed Hver allowed refused. unfold handle_finding, refused.
  enough (Hg : forall actions i s, handle_actions cfg event true actions env i s =
    (imap (fun k name => (name, if allowed name then if is_destructive_action name then RefusedFederated
       else Executed (at_result (env (i + k))) else NotAllowed)) actions,
     Nat.iter (length (filter (fun name => (allowed name && is_destructive_action name)%bool = true) actions)) bump_refused s)).
  { rewrite Hg. split; [done|]. split; [done|apply bump_refused_gates]. }
  unfold allowed. clear s refused. induction actions as [|n actions IH]; intros i s; [done|]. simpl. rewrite Nat.add_0_r, filter_cons.
  rewrite (imap_ext _ (fun k name => (name, if allowed name then if is_destructive_action name then RefusedFederated
       else Executed (at_result (env (S i + k))) else NotAllowed)))
    by (intros k x _; simpl; by rewrite Nat.add_succ_r).
  case_bool_decide as Hin; simpl.
  - destruct (is_destructive_action n) eqn:Hd.
    + assert (Hn : handle_action cfg event true n (env i) s = (RefusedFederated, bump_refused s)).
      { unfold handle_action. by rewrite bool_decide_true, Hact, Hfed, Hver, Hd. }
      rewrite Hn, IH. simpl. by rewrite <-Nat.iter_succ_r.
    + rewrite ungated_executes by done. by rewrite IH.
  - rewrite disallowed_skips by done. by rewrite IH.
Qed.

(** Alerts and evidence are never suppressed. On the autonomous path every
    allowed action that is not destructive is executed for every finding,
    whatever the origin of the finding and the state of the gates. *)
Theorem evidence_always_runs (cfg : Responder) (event : Event) (env : nat -> Attempt) (s : RespState) j name v :
  (handle_finding cfg event true env s).1 !! j = Some (name, v) ->
  name ∈ rp_allowed_actions cfg -> is_destructive_action name = false ->
  v = Executed (at_result (env j)).
Proof.
  intros Hj Hin Hd. apply handle_actions_lookup in Hj as [_ (s' & ->)].
  by rewrite ungated_executes.
Qed.

(** The operator's panic path bypasses the gates. [fire] executes every
    registered action that the allowlist names, in registration order, without
    reading or changing the gates' state. *)
Theorem fire_bypasses_gates (cfg : Responder) (event : Event) (env : nat -> Attempt) (s : RespState) :
  fire cfg event env s =
  (imap (fun i name => (name, if bool_decide (name ∈ rp_allowed_actions cfg)
                              then Executed (at_result (env i)) else NotAllowed)) (rp_actions cfg), s).
Proof.
  unfold fire, handle_finding.
  enough (Hg : forall actions i, handle_actions cfg event false actions env i s =
    (imap (fun k name => (name, if bool_decide (name ∈ rp_allowed_actions cfg)
       then Executed (at_result (env (i + k))) else NotAllowed)) actions, s)) by apply Hg.
  induction actions as [|n actions IH]; intros i; [done|]. simpl. rewrite Nat.add_0_r.
  assert (Hn : handle_action cfg event false n (env i) s =
    (if bool_decide (n ∈ rp_allowed_actions cfg) then Executed (at_result (env i)) else NotAllowed, s)).
  { case_bool_decide; [by apply ungated_executes|by apply disallowed_skips]. }
  rewrite Hn, IH. f_equal. f_equal. apply imap_ext. intros k x _. simpl. by rewrite Nat.add_succ_r.
Qed.

(** The allowlist check reports exactly the dead entries. An entry is
    reported, once and in sorted order, if and only if it is allowed but no
    registered action has that name, that is, if no run can ever dispatch it. *)
Theorem unknown_allowed_exact (cfg : Responder) (name : string) :
  (name ∈ unknown_allowed_actions cfg <-> name ∈ rp_allowed_actions cfg /\ name ∉ rp_actions cfg) /\
  NoDup (unknown_allowed_actions cfg) /\ StronglySorted String.le (unknown_allowed_actions cfg).
Proof.
  unfold unknown_allowed_actions. split_and!.
  - rewrite merge_sort_Permutation, elem_of_elements, elem_of_filter. tauto.
  - rewrite merge_sort_Permutation. apply NoDup_elements.
  - apply StronglySorted_merge_sort; apply _.
Qed.

(** ** The properties on a small burst *)

Module ResponderWitnesses.

Definition cfg : Responder := {|
  rp_actions := ["notify"; "kill_pid"]; rp_allowed_actions := {["notify"; "kill_pid"; "kil_pid"]};
  rp_dry_run := false; rp_min_severity := SeverityId.Medium; rp_action_deadline := from_secs 60;
  rp_dedup_window := from_secs 30; rp_destructive_cap_per_min := 1; rp_act_on_federated := false |}.

Definition s0 : RespState := (responder_new [] [] false).2.

Definition finding (federated : bool) (pid : Z) : Event :=
  with_federated federated
    (with_process (mkProcess pid None None None None None None None)
      (event_new (mkStamp 1 2 3) DETECTION_FINDING 1 SeverityId.High "web-1" "selfdef.correlator.r" 1)).

Definition at_second (n : Z) (i : nat) : Attempt :=
  let t := (from_secs n + Z.of_nat i)%Z in
  mkAttempt t t (Some (Ok (mkActionOutcome ActionStatus.Success "done"))) t.

(** The same target twice, then another one, then a forged remote finding. *)
Definition burst : list bus_input :=
  [FromBus (Ok (finding false 7)) (at_second 10); FromBus (Ok (finding false 7)) (at_second 20);
   FromBus (Ok (finding false 8)) (at_second 30); FromBus (Ok (finding true 9)) (at_second 100);
   FromBus (Ok (finding false 8)) (at_second 101); Shutdown].

Example burst_verdicts :
  (filter (fun nv => nv.1 = "kill_pid") (concat (resp_run cfg burst s0).1)).*2 =
  [Executed (at_result (at_second 0 0)); SuppressedDedup; SuppressedCap; RefusedFederated;
   Executed (at_result (at_second 0 0))].
Proof. by vm_compute. Qed.

Lemma cfg_ok : cfg_wf cfg.
Proof. by vm_compute. Qed.

Lemma burst_clock : clock_ordered 0 (run_turns cfg burst).
Proof. vm_compute. repeat split; discriminate. Qed.

Lemma responder_refines_witness :
  (concat (resp_run cfg burst s0).1).*2 = spec_turns cfg (run_turns cfg burst) (mkHist [] []).
Proof. apply (responder_refines cfg burst 0 s0); [exact cfg_ok|reflexivity|exact burst_clock]. Defined.

Lemma destructive_rate_bounded_witness :
  (Z.of_nat (length (within_minute (from_secs 101) (execution_times (run_turns cfg burst)
    (concat (resp_run cfg burst s0).1).*2))) <= 1)%Z.
Proof.
  apply (destructive_rate_bounded cfg burst 0 s0 (from_secs 101));
    [exact cfg_ok|reflexivity|reflexivity|exact burst_clock].
Defined.

Lemma dedup_exact_witness :
  exists tn, run_turns cfg burst !! 3 = Some tn /\
    exists i tn', i < 3 /\ success_at (run_turns cfg burst) (concat (resp_run cfg burst s0).1).*2 i tn' /\
      tn_key tn' = tn_key tn.
Proof.
  eexists. split; [reflexivity|].
  destruct (proj1 (dedup_exact cfg burst 0 s0 3 _ cfg_ok eq_refl burst_clock eq_refl)
    ltac:(vm_compute; reflexivity)) as (_ & _ & _ & _ & i & tn' & ? & ? & ? & _).
  exists i, tn'. repeat (split; [assumption|]). assumption.
Defined.

Lemma federated_fails_closed_witness :
  let '(verdicts, s') := handle_finding cfg (finding true 9) true (at_second 100) s0 in
  verdicts = [("notify", Executed (at_result (at_second 100 0))); ("kill_pid", RefusedFederated)] /\
  s' = bump_refused s0 /\ gate_state s' = gate_state s0.
Proof.
  exact (federated_fails_closed cfg (finding true 9) (at_second 100) s0 eq_refl eq_refl eq_refl).
Defined.

Lemma evidence_always_runs_witness :
  exists v, (handle_finding cfg (finding true 9) true (at_second 100) s0).1 !! 0 = Some ("notify", v) /\
    v = Executed (at_result (at_second 100 0)).
Proof.
  eexists. split; [vm_compute; reflexivity|].
  apply (evidence_always_runs cfg (finding true 9) (at_second 100) s0 0 "notify");
    [reflexivity|vm_compute; reflexivity|reflexivity].
Defined.
End ResponderWitnesses.
