(* ===== verification/Backends.v ===== *)
(** * The enforcement backends: requests and their validation

    Models the request side of the fourteen enforcement crates
    (crates/selfdef-*-backend/src/lib.rs) that the responder's actions call: the
    authority tiers with the longest effect each may ask for, the requests, and
    the validation that the implementations of a backend run first. One Module
    per crate.

    Each crate declares its own copy of [AuthorityTier] with the same four
    tiers, and its own error enum; they are one type here, the error type being
    the union of the crates' variants. Durations are nanoseconds. *)

From S2P Require Import Prelude Core.
From stdpp Require Import options.

(** ** Tiers, errors and handles *)

Module AuthorityTier.
Inductive t := Autonomous | Responder | Operator | OperatorOverridden.

#[global] Instance eq_dec : EqDecision t.
Proof. solve_decision. Defined.
End AuthorityTier.

Definition tier_debug (a : AuthorityTier.t) : string :=
  match a with
  | AuthorityTier.Autonomous => "Autonomous"
  | AuthorityTier.Responder => "Responder"
  | AuthorityTier.Operator => "Operator"
  | AuthorityTier.OperatorOverridden => "OperatorOverridden"
  end.

(** The [match] of a crate's [max_duration]. *)
Definition ceilings (autonomous responder operator overridden : Z) (a : AuthorityTier.t) : Z :=
  from_secs match a with
            | AuthorityTier.Autonomous => autonomous
            | AuthorityTier.Responder => responder
            | AuthorityTier.Operator => operator
            | AuthorityTier.OperatorOverridden => overridden
            end.

Definition as_secs (d : Z) : Z := (d / 10 ^ 9)%Z.

Inductive BackendError :=
| InvalidRequest (reason : string)
| AuthorityInsufficient (tier : AuthorityTier.t) (max_secs requested_secs : Z)
| BackendUnreachable (reason : string)
| LinkLocalRefused (addr : IpAddr)
| SpecialAddrRefused (addr : IpAddr) (kind : string)
| PidNotFound (pid : Z)
| PidRefused (pid : Z) (reason : string)
| RootPidRefused (pid : Z) (reason : string)
| PidSacrosanct (pid : Z) (reason : string)
| AlreadyContainerized (pid : Z)
| ExcludedUser (user : string)
| ExcludedPrincipal (principal : string)
| ScopeRequiresOverride (tier : AuthorityTier.t)
| PidfdGetfdUnsupported
| UnknownCapability (name : string)
| UnparseableKeySpec (spec : string)
| InvalidProfileName (name : string)
| EnforcementOffline (reason : string)
| WrongMacBackend (reason : string)
| UnparseableMapSpec (spec : string)
| InvalidKeyHex (key : string)
| ElementScopeRequiresKey
| AllScopeForbidsKey
| AllScopeRequiresOperator (tier : AuthorityTier.t).

(** The [Display] of the error enums. *)
Definition backend_error_display (e : BackendError) : string :=
  match e with
  | InvalidRequest r => "invalid request: " +:+ r
  | AuthorityInsufficient tier max req =>
      "authority " +:+ tier_debug tier +:+ " max " +:+ show_uint max +:+ "s exceeded by requested "
      +:+ show_uint req +:+ "s"
  | BackendUnreachable r => "backend unreachable: " +:+ r
  | LinkLocalRefused a => "ipv6 link-local address refused: " +:+ show_ip a
  | SpecialAddrRefused a kind => "special address refused (" +:+ kind +:+ "): " +:+ show_ip a
  | PidNotFound pid => "pid " +:+ show_int pid +:+ " not found (process exited?)"
  | PidRefused pid r => "pid " +:+ show_int pid +:+ " refused: " +:+ r
  | RootPidRefused pid r => "root pid " +:+ show_int pid +:+ " refused: " +:+ r
  | PidSacrosanct pid r => "pid " +:+ show_int pid +:+ " sacrosanct: " +:+ r
  | AlreadyContainerized pid => "pid " +:+ show_int pid +:+ " already containerized — refusing isolation"
  | ExcludedUser u => "user " +:+ u +:+ " is on the exclusion list — cannot revoke"
  | ExcludedPrincipal p => "principal " +:+ p +:+ " is on the exclusion list — cannot revoke"
  | ScopeRequiresOverride tier =>
      "scope AllMatching requires operator-overridden tier — got " +:+ tier_debug tier
  | PidfdGetfdUnsupported =>
      "pidfd_getfd unsupported on this kernel — use SDD-070 netns isolation instead"
  | UnknownCapability n => "unknown capability name: " +:+ n
  | UnparseableKeySpec s => "unparseable key spec: " +:+ s
  | InvalidProfileName n => "invalid profile name: " +:+ n
  | EnforcementOffline r => "enforcement offline: " +:+ r
  | WrongMacBackend r => "wrong MAC backend: " +:+ r
  | UnparseableMapSpec s => "unparseable map spec: " +:+ s
  | InvalidKeyHex k => "invalid key hex: " +:+ k
  | ElementScopeRequiresKey => "element-scope clear requires --key"
  | AllScopeForbidsKey => "all-scope clear forbids --key (specify keyed element-scope instead)"
  | AllScopeRequiresOperator tier =>
      "scope All requires Operator+ tier; got " +:+ tier_debug tier +:+ " (D-10)"
  end.

(** The handles of all crates; the argument is the idempotency key. *)
Inductive Handle :=
| Active (key : string)
| Contested (key : string)
| Stale (key : string)
| NoMatch (key : string)
| Redundant (key : string)
| NotFound (key : string)
| NoTarget (key : string)
| Denied (key : string)
| MapNotFound (key : string)
| AmbiguousName (key : string)
| KeySizeMismatch (key : string)
| KeyNotFound (key : string)
| BpfMapAccessDenied (key : string).

Definition handle_parts (h : Handle) : string * string :=
  match h with
  | Active k => ("Active", k)
  | Contested k => ("Contested", k)
  | Stale k => ("Stale", k)
  | NoMatch k => ("NoMatch", k)
  | Redundant k => ("Redundant", k)
  | NotFound k => ("NotFound", k)
  | NoTarget k => ("NoTarget", k)
  | Denied k => ("Denied", k)
  | MapNotFound k => ("MapNotFound", k)
  | AmbiguousName k => ("AmbiguousName", k)
  | KeySizeMismatch k => ("KeySizeMismatch", k)
  | KeyNotFound k => ("KeyNotFound", k)
  | BpfMapAccessDenied k => ("BpfMapAccessDenied", k)
  end.

Definition handle_debug `{UnicodeTables} (h : Handle) : string :=
  (handle_parts h).1 +:+ "(" +:+ str_debug (handle_parts h).2 +:+ ")".

(** ** The checks the crates share *)

Definition blank (s : string) : bool := bool_decide (trim s = "").

Definition check_reason (reason : string) : result unit BackendError :=
  if blank reason then Err (InvalidRequest "reason must be non-empty") else Ok tt.

Definition check_duration (max : AuthorityTier.t -> Z) (tier : AuthorityTier.t) (duration : Z) :
    result unit BackendError :=
  if (max tier <? duration)%Z
  then Err (AuthorityInsufficient tier (as_secs (max tier)) (as_secs duration))
  else Ok tt.

(** [pid <= 0] and [pid == 1] with the crate's words. *)
Definition check_pid (field : string) (refused : Z -> string -> BackendError) (init : string) (pid : Z) :
    result unit BackendError :=
  if (pid <=? 0)%Z then Err (InvalidRequest (field +:+ " must be positive, got " +:+ show_int pid))
  else if (pid =? 1)%Z then Err (refused pid init)
  else Ok tt.

Definition check_excluded (excluded : gset string) (refused : string -> BackendError) (name : string) :
    result unit BackendError :=
  if bool_decide (name ∈ excluded) then Err (refused name) else Ok tt.

(** ** selfdef-blockset-backend *)

Definition ip_is_loopback (a : IpAddr) : bool :=
  match a with
  | V4 b => (b / 2 ^ 24 =? 127)%Z
  | V6 s => bool_decide (s = [0; 0; 0; 0; 0; 0; 0; 1]%Z)
  end.
Definition ip_is_unspecified (a : IpAddr) : bool :=
  match a with
  | V4 b => (b =? 0)%Z
  | V6 s => bool_decide (s = [0; 0; 0; 0; 0; 0; 0; 0]%Z)
  end.
Definition ip_is_multicast (a : IpAddr) : bool :=
  match a with
  | V4 b => (224 <=? b / 2 ^ 24)%Z && (b / 2 ^ 24 <=? 239)%Z
  | V6 s => (hd 0%Z s / 2 ^ 8 =? 255)%Z
  end.

Module BlockSet.
Definition max_duration := ceilings (5 * 60) (60 * 60) (24 * 60 * 60) (720 * 60 * 60).

Record BlockIpRequest := mkBlockIpRequest {
  addr : IpAddr;
  reason : string;
  duration : Z;
  authority : AuthorityTier.t;
  idempotency_key : string;
}.

Definition check_addr (a : IpAddr) : result unit BackendError :=
  if ip_is_loopback a then Err (SpecialAddrRefused a "loopback")
  else if ip_is_unspecified a then Err (SpecialAddrRefused a "unspecified")
  else if ip_is_multicast a then Err (SpecialAddrRefused a "multicast")
  else
    match a with
    | V4 b =>
        if (b / 2 ^ 16 =? 169 * 2 ^ 8 + 254)%Z then Err (SpecialAddrRefused a "link-local")
        else if (b =? 2 ^ 32 - 1)%Z then Err (SpecialAddrRefused a "broadcast")
        else Ok tt
    | V6 s =>
        let octet0 := (hd 0 s / 2 ^ 8)%Z in
        let octet1 := (hd 0 s `mod` 2 ^ 8)%Z in
        if (octet0 =? 254)%Z && (Z.land octet1 192 =? 128)%Z then Err (LinkLocalRefused a) else Ok tt
    end.

Definition validate (req : BlockIpRequest) : result unit BackendError :=
  let? _ := check_reason (reason req) in
  let? _ := check_duration max_duration (authority req) (duration req) in
  check_addr (addr req).

(** The arguments of [nft]. *)
Definition set_name (a : IpAddr) : string := match a with V4 _ => "v4" | V6 _ => "v6" end.

Definition nft_add_element_args (req : BlockIpRequest) : list string :=
  ["add"; "element"; "inet"; "selfdef-blocks"; set_name (addr req);
   "{ " +:+ show_ip (addr req) +:+ " timeout " +:+ show_uint (as_secs (duration req)) +:+ "s }"].

Definition nft_delete_element_args (a : IpAddr) : list string :=
  ["delete"; "element"; "inet"; "selfdef-blocks"; set_name a; "{ " +:+ show_ip a +:+ " }"].
End BlockSet.

(** ** selfdef-process-quarantine-backend *)

Module Quarantine.
Definition max_duration := ceilings (2 * 60) (15 * 60) (60 * 60) (24 * 60 * 60).

Inductive FreezeScope := Process | Tree.
Definition scope_debug (s : FreezeScope) : string :=
  match s with Process => "Process" | Tree => "Tree" end.

Record FreezeRequest := mkFreezeRequest {
  pid : Z;
  reason : string;
  duration : Z;
  authority : AuthorityTier.t;
  scope : FreezeScope;
  idempotency_key : string;
}.

Definition validate (req : FreezeRequest) : result unit BackendError :=
  let? _ := check_reason (reason req) in
  let? _ := check_pid "pid" PidRefused "pid 1 (init) is never freezable; freezing init hangs the host" (pid req) in
  check_duration max_duration (authority req) (duration req).
End Quarantine.

(** ** selfdef-session-revocation-backend *)

Module SessionRevocation.
Definition max_duration := ceilings 60 (30 * 60) (4 * 60 * 60) (24 * 60 * 60).

Inductive RevocationScope := Local_ | SourceIp (ip : IpAddr).
Definition scope_debug (s : RevocationScope) : string :=
  match s with Local_ => "Local" | SourceIp ip => "SourceIp(" +:+ show_ip ip +:+ ")" end.

Record RevokeRequest := mkRevokeRequest {
  user : string;
  reason : string;
  duration : Z;
  authority : AuthorityTier.t;
  scope : RevocationScope;
  idempotency_key : string;
}.

(** [validate], and with [accept] the exclusion check that follows it in the
    in-memory store. *)
Definition validate (req : RevokeRequest) : result unit BackendError :=
  let? _ := if blank (user req) then Err (InvalidRequest "user must be non-empty") else Ok tt in
  let? _ := check_reason (reason req) in
  check_duration max_duration (authority req) (duration req).

Definition accept (excluded_users : gset string) (req : RevokeRequest) : result unit BackendError :=
  let? _ := validate req in
  check_excluded excluded_users ExcludedUser (user req).
End SessionRevocation.

(** ** selfdef-api-token-revocation-backend *)

Module TokenRevocation.
Definition max_duration := ceilings (2 * 60) (60 * 60) (8 * 60 * 60) (72 * 60 * 60).

Inductive TokenClass := Api | Cockpit | Mcp | Other (name : string).
Inductive TokenClassMask := All | Specific (classes : list TokenClass).

Definition class_debug `{UnicodeTables} (c : TokenClass) : string :=
  match c with
  | Api => "Api" | Cockpit => "Cockpit" | Mcp => "Mcp"
  | Other n => "Other(" +:+ str_debug n +:+ ")"
  end.
Definition mask_debug `{UnicodeTables} (m : TokenClassMask) : string :=
  match m with
  | All => "All"
  | Specific l => "Specific(" +:+ vec_debug (class_debug <$> l) +:+ ")"
  end.

Record TokenRevokeRequest := mkTokenRevokeRequest {
  principal : string;
  reason : string;
  duration : Z;
  authority : AuthorityTier.t;
  token_classes : TokenClassMask;
  idempotency_key : string;
}.

Definition validate (req : TokenRevokeRequest) : result unit BackendError :=
  let? _ := if blank (principal req) then Err (InvalidRequest "principal must be non-empty") else Ok tt in
  let? _ := check_reason (reason req) in
  check_duration max_duration (authority req) (duration req).

Definition accept (excluded_principals : gset string) (req : TokenRevokeRequest) : result unit BackendError :=
  let? _ := validate req in
  check_excluded excluded_principals ExcludedPrincipal (principal req).
End TokenRevocation.

(** ** selfdef-mfa-grant-revocation-backend *)

Module MfaGrantRevocation.
Definition max_duration := ceilings (5 * 60) (30 * 60) (4 * 60 * 60) (24 * 60 * 60).

Inductive MfaGrantSurface := Pam | Api | Cockpit.
Inductive MfaGrantScope := All | Specific (surfaces : list MfaGrantSurface).

Definition surface_debug (s : MfaGrantSurface) : string :=
  match s with Pam => "Pam" | Api => "Api" | Cockpit => "Cockpit" end.
Definition scope_debug (m : MfaGrantScope) : string :=
  match m with
  | All => "All"
  | Specific l => "Specific(" +:+ vec_debug (surface_debug <$> l) +:+ ")"
  end.

Record MfaGrantRevokeRequest := mkMfaGrantRevokeRequest {
  principal : string;
  reason : string;
  duration : Z;
  authority : AuthorityTier.t;
  grant_scope : MfaGrantScope;
  idempotency_key : string;
}.

Definition validate (req : MfaGrantRevokeRequest) : result unit BackendError :=
  let? _ := if blank (principal req) then Err (InvalidRequest "principal must be non-empty") else Ok tt in
  let? _ := check_reason (reason req) in
  check_duration max_duration (authority req) (duration req).

Definition accept (excluded_principals : gset string) (req : MfaGrantRevokeRequest) :
    result unit BackendError :=
  let? _ := validate req in
  check_excluded excluded_principals ExcludedPrincipal (principal req).
End MfaGrantRevocation.

(** ** selfdef-netns-isolation-backend *)

Module NetnsIsolation.
Definition max_duration := ceilings (5 * 60) (30 * 60) (2 * 60 * 60) (12 * 60 * 60).

Inductive IsolationScope := NetOnly | NetPidIpc.
Definition scope_debug (s : IsolationScope) : string :=
  match s with NetOnly => "NetOnly" | NetPidIpc => "NetPidIpc" end.

Record IsolatePidRequest := mkIsolatePidRequest {
  pid : Z;
  reason : string;
  duration : Z;
  authority : AuthorityTier.t;
  scope : IsolationScope;
  idempotency_key : string;
}.

Definition validate (req : IsolatePidRequest) : result unit BackendError :=
  let? _ := check_pid "pid" PidRefused
    "pid 1 (init) is never isolatable; moving its netns would sever host networking" (pid req) in
  let? _ := check_reason (reason req) in
  check_duration max_duration (authority req) (duration req).
End NetnsIsolation.

(** ** selfdef-mount-binding-unbind-backend *)

Module MountUnbind.
Definition max_duration := ceilings (5 * 60) (20 * 60) (60 * 60) (6 * 60 * 60).

Inductive UnbindScope := Bind | Overlay | AllMatching (pattern : string).
Definition scope_debug `{UnicodeTables} (s : UnbindScope) : string :=
  match s with
  | Bind => "Bind" | Overlay => "Overlay"
  | AllMatching p => "AllMatching(" +:+ str_debug p +:+ ")"
  end.

Record UnbindMountRequest := mkUnbindMountRequest {
  mount_point : string;
  reason : string;
  duration : Z;
  authority : AuthorityTier.t;
  scope : UnbindScope;
  lazy : bool;
  idempotency_key : string;
}.

Definition has_parent_component (p : string) : bool := bool_decide (".." ∈ split "/" p).

Definition check_mount_point `{UnicodeTables} (mp : string) : result unit BackendError :=
  if blank mp then Err (InvalidRequest "mount_point must be non-empty")
  else if negb (starts_with mp "/")
  then Err (InvalidRequest ("mount_point must be an absolute path, got " +:+ str_debug mp))
  else if has_parent_component mp
  then Err (InvalidRequest ("mount_point must not contain a '..' component, got " +:+ str_debug mp))
  else Ok tt.

Definition validate `{UnicodeTables} (req : UnbindMountRequest) : result unit BackendError :=
  let? _ := check_mount_point (mount_point req) in
  let? _ := check_reason (reason req) in
  let? _ := check_duration max_duration (authority req) (duration req) in
  match scope req with
  | AllMatching _ =>
      if bool_decide (authority req = AuthorityTier.OperatorOverridden) then Ok tt
      else Err (ScopeRequiresOverride (authority req))
  | _ => Ok tt
  end.
End MountUnbind.

(** ** selfdef-process-tree-freeze-backend *)

Module TreeFreeze.
Definition max_duration := ceilings (5 * 60) (30 * 60) (4 * 60 * 60) (8 * 60 * 60).

Inductive TreeScope := Descendants | StrictDescendants | ChildrenOnly.
Definition scope_debug (s : TreeScope) : string :=
  match s with
  | Descendants => "Descendants" | StrictDescendants => "StrictDescendants"
  | ChildrenOnly => "ChildrenOnly"
  end.

Record FreezeTreeRequest := mkFreezeTreeRequest {
  root_pid : Z;
  reason : string;
  duration : Z;
  authority : AuthorityTier.t;
  scope : TreeScope;
  include_self : bool;
  idempotency_key : string;
}.

Definition validate (req : FreezeTreeRequest) : result unit BackendError :=
  let? _ := check_pid "root_pid" RootPidRefused "pid 1 (init) is never freezable" (root_pid req) in
  let? _ := check_reason (reason req) in
  check_duration max_duration (authority req) (duration req).
End TreeFreeze.

(** ** selfdef-socket-fd-revocation-backend *)

Module FdRevocation.
Definition max_duration := ceilings (2 * 60) (15 * 60) (60 * 60) (4 * 60 * 60).

Inductive SocketProtocol := Tcp | Unix | Netlink | Any.
Definition protocol_debug (p : SocketProtocol) : string :=
  match p with Tcp => "Tcp" | Unix => "Unix" | Netlink => "Netlink" | Any => "Any" end.

Record RevokeFdRequest := mkRevokeFdRequest {
  pid : Z;
  fd : Z;
  reason : string;
  duration : Z;
  authority : AuthorityTier.t;
  protocol : SocketProtocol;
  expected_inode : option Z;
  idempotency_key : string;
}.

Definition validate (req : RevokeFdRequest) : result unit BackendError :=
  let? _ := check_pid "pid" PidRefused
    "pid 1 (init) sockets are never revocable; tearing down init's fds can break host services" (pid req) in
  let? _ := if (fd req <? 0)%Z
            then Err (InvalidRequest ("fd must be non-negative, got " +:+ show_int (fd req))) else Ok tt in
  let? _ := check_reason (reason req) in
  check_duration max_duration (authority req) (duration req).
End FdRevocation.

(** ** selfdef-process-env-scrub-backend *)

Module EnvScrub.
Definition max_duration := ceilings (5 * 60) (30 * 60) (2 * 60 * 60) (6 * 60 * 60).

Inductive ScrubSignal := Sigusr1 | Sigusr2 | Sighup | NoSignal.
Definition signal_debug (s : ScrubSignal) : string :=
  match s with Sigusr1 => "Sigusr1" | Sigusr2 => "Sigusr2" | Sighup => "Sighup" | NoSignal => "None" end.

Record ScrubEnvRequest := mkScrubEnvRequest {
  pid : Z;
  vars : list string;
  reason : string;
  duration : Z;
  authority : AuthorityTier.t;
  signal : ScrubSignal;
  idempotency_key : string;
}.

Fixpoint check_vars `{UnicodeTables} (vars : list string) : result unit BackendError :=
  match vars with
  | [] => Ok tt
  | v :: vars =>
      if bool_decide (v = "") then Err (InvalidRequest "no var name may be empty")
      else if contains v "=" || contains v (String "000" "")
      then Err (InvalidRequest ("var name " +:+ str_debug v +:+ " must not contain '=' or NUL"))
      else check_vars vars
  end.

Definition validate `{UnicodeTables} (req : ScrubEnvRequest) : result unit BackendError :=
  let? _ := check_pid "pid" PidRefused "pid 1 (init) is never env-scrubbable" (pid req) in
  let? _ := if bool_decide (vars req = []) then Err (InvalidRequest "vars must be non-empty") else Ok tt in
  let? _ := check_vars (vars req) in
  let? _ := check_reason (reason req) in
  check_duration max_duration (authority req) (duration req).
End EnvScrub.

(** ** selfdef-capability-drop-backend *)

Module CapDrop.
Definition max_duration := ceilings (5 * 60) (30 * 60) (4 * 60 * 60) (8 * 60 * 60).

Inductive CapScope := BoundingOnly | AllSets.
Definition scope_debug (s : CapScope) : string :=
  match s with BoundingOnly => "BoundingOnly" | AllSets => "AllSets" end.

Definition KNOWN_CAPS : list string :=
  ["CAP_AUDIT_CONTROL"; "CAP_AUDIT_READ"; "CAP_AUDIT_WRITE"; "CAP_BLOCK_SUSPEND"; "CAP_BPF";
   "CAP_CHECKPOINT_RESTORE"; "CAP_CHOWN"; "CAP_DAC_OVERRIDE"; "CAP_DAC_READ_SEARCH"; "CAP_FOWNER";
   "CAP_FSETID"; "CAP_IPC_LOCK"; "CAP_IPC_OWNER"; "CAP_KILL"; "CAP_LEASE"; "CAP_LINUX_IMMUTABLE";
   "CAP_MAC_ADMIN"; "CAP_MAC_OVERRIDE"; "CAP_MKNOD"; "CAP_NET_ADMIN"; "CAP_NET_BIND_SERVICE";
   "CAP_NET_BROADCAST"; "CAP_NET_RAW"; "CAP_PERFMON"; "CAP_SETFCAP"; "CAP_SETGID"; "CAP_SETPCAP";
   "CAP_SETUID"; "CAP_SYS_ADMIN"; "CAP_SYS_BOOT"; "CAP_SYS_CHROOT"; "CAP_SYS_MODULE"; "CAP_SYS_NICE";
   "CAP_SYS_PACCT"; "CAP_SYS_PTRACE"; "CAP_SYS_RAWIO"; "CAP_SYS_RESOURCE"; "CAP_SYS_TIME";
   "CAP_SYS_TTY_CONFIG"; "CAP_SYSLOG"; "CAP_WAKE_ALARM"].

Definition canonicalize_cap `{UnicodeTables} (s : string) : option string :=
  let upper := to_uppercase (trim s) in
  let with_prefix := if starts_with upper "CAP_" then upper else "CAP_" +:+ upper in
  List.find (fun k => bool_decide (k = with_prefix)) KNOWN_CAPS.

Record DropCapsRequest := mkDropCapsRequest {
  pid : Z;
  caps : list string;
  reason : string;
  duration : Z;
  authority : AuthorityTier.t;
  scope : CapScope;
  idempotency_key : string;
}.

(** The first name that is not a capability. *)
Definition unknown_cap `{UnicodeTables} (caps : list string) : option string :=
  List.find (fun c => match canonicalize_cap c with None => true | Some _ => false end) caps.

Definition validate `{UnicodeTables} (req : DropCapsRequest) : result unit BackendError :=
  let? _ := check_pid "pid" PidRefused "pid 1 (init) is never cap-droppable" (pid req) in
  let? _ := if bool_decide (caps req = []) then Err (InvalidRequest "caps must be non-empty") else Ok tt in
  let? _ := match unknown_cap (caps req) with Some c => Err (UnknownCapability c) | None => Ok tt end in
  let? _ := check_reason (reason req) in
  check_duration max_duration (authority req) (duration req).
End CapDrop.

(** ** selfdef-kernel-keyring-eviction-backend *)

Definition is_ascii_hexdigit (a : ascii) : bool :=
  in_range 48 57 (byte a) || in_range 65 70 (byte a) || in_range 97 102 (byte a).

Module KeyEviction.
Definition max_duration := ceilings (2 * 60) (15 * 60) (60 * 60) (4 * 60 * 60).

Inductive EvictionScope := Invalidate | Unlink | Both.
Definition scope_debug (s : EvictionScope) : string :=
  match s with Invalidate => "Invalidate" | Unlink => "Unlink" | Both => "Both" end.

Definition KNOWN_TYPES : list string :=
  ["user"; "logon"; "keyring"; "big_key"; "asymmetric"; "trusted"; "encrypted"; "rxrpc"; "rxrpc_s";
   "dns_resolver"; "id_resolver"; "cifs.idmap"; "cifs.spnego"].

Definition parse_key_spec (spec : string) : option (string * string) :=
  let trimmed := trim spec in
  match strip_prefix "0x" trimmed with
  | Some hex =>
      if negb (bool_decide (hex = "")) && all_bytes is_ascii_hexdigit hex then Some ("serial", trimmed) else None
  | None =>
      match split_once ":" trimmed with
      | None => None
      | Some (ty, desc) =>
          if bool_decide (ty = "") || bool_decide (desc = "") then None
          else if negb (bool_decide (ty ∈ KNOWN_TYPES)) then None
          else Some (ty, desc)
      end
  end.

Record EvictKeyRequest := mkEvictKeyRequest {
  key_spec : string;
  reason : string;
  duration : Z;
  authority : AuthorityTier.t;
  scope : EvictionScope;
  idempotency_key : string;
}.

Definition validate (req : EvictKeyRequest) : result (string * string) BackendError :=
  let? _ := check_reason (reason req) in
  let? _ := check_duration max_duration (authority req) (duration req) in
  ok_or (parse_key_spec (key_spec req)) (UnparseableKeySpec (key_spec req)).
End KeyEviction.

(** ** selfdef-apparmor-profile-pivot-backend *)

Module ProfilePivot.
Definition max_duration := ceilings (5 * 60) (30 * 60) (4 * 60 * 60) (24 * 60 * 60).

Inductive PivotScope := ProfileScope | Hat.
Definition scope_debug (s : PivotScope) : string :=
  match s with ProfileScope => "Profile" | Hat => "Hat" end.

Definition name_char (a : ascii) : bool :=
  is_ascii_alphanumeric (byte a) || bool_decide (a ∈ ["_"; "."; "/"; "-"]%char).

Definition validate_profile_name (name : string) : option string :=
  if bool_decide (name = "") || (256 <? Z.of_nat (String.length name))%Z then None
  else if negb (all_bytes name_char name) then None
  else Some name.

Record PivotProfileRequest := mkPivotProfileRequest {
  pid : Z;
  target_profile : string;
  reason : string;
  duration : Z;
  authority : AuthorityTier.t;
  scope : PivotScope;
  idempotency_key : string;
}.

Definition check_sacrosanct (pid : Z) : result unit BackendError :=
  if (pid <=? 1)%Z
  then Err (PidSacrosanct pid (if (pid <? 0)%Z then "negative pid invalid" else "init / kernel-thread pid"))
  else Ok tt.

Definition check_target (tier : AuthorityTier.t) (name : string) : result string BackendError :=
  let observe := bool_decide (name = "selfdef-observe-only") in
  let strict := bool_decide (name = "selfdef-quarantine-strict") in
  match tier with
  | AuthorityTier.Autonomous =>
      if observe then Ok name
      else Err (InvalidRequest ("Autonomous tier may only pivot into selfdef-observe-only, not " +:+ name))
  | AuthorityTier.Responder =>
      if observe || strict then Ok name
      else Err (InvalidRequest ("Responder tier may only pivot into selfdef-observe-only or selfdef-quarantine-strict, not " +:+ name))
  | AuthorityTier.Operator =>
      if bool_decide (name = "unconfined")
      then Err (InvalidRequest "Operator tier cannot pivot INTO unconfined; use OperatorOverridden")
      else Ok name
  | AuthorityTier.OperatorOverridden => Ok name
  end.

Definition validate (req : PivotProfileRequest) : result string BackendError :=
  let? _ := check_reason (reason req) in
  let? _ := check_sacrosanct (pid req) in
  let? _ := check_duration max_duration (authority req) (duration req) in
  let? name := ok_or (validate_profile_name (target_profile req)) (InvalidProfileName (target_profile req)) in
  check_target (authority req) name.
End ProfilePivot.

(** ** selfdef-bpf-map-element-clear-backend *)

Module MapClear.
Definition max_duration := ceilings (2 * 60) (15 * 60) (60 * 60) (4 * 60 * 60).

Inductive ClearScope := Element | AllElements.
Definition scope_debug (s : ClearScope) : string :=
  match s with Element => "Element" | AllElements => "All" end.

Inductive MapSpecKind := Path | Id | Name.

Definition map_char (extra : list ascii) (a : ascii) : bool :=
  is_ascii_alphanumeric (byte a) || bool_decide (a ∈ extra).

Definition parse_map_spec (spec : string) : option (MapSpecKind * string) :=
  let trimmed := trim spec in
  match strip_prefix "id:" trimmed with
  | Some rest =>
      if negb (bool_decide (rest = "")) && all_bytes (fun a => in_range 48 57 (byte a)) rest
      then Some (Id, rest) else None
  | None =>
      match strip_prefix "name:" trimmed with
      | Some rest =>
          if negb (bool_decide (rest = "")) && all_bytes (map_char ["_"; "."; "-"]%char) rest
          then Some (Name, rest) else None
      | None =>
          match strip_prefix "/sys/fs/bpf/" trimmed with
          | Some rest =>
              if negb (bool_decide (rest = "")) && all_bytes (map_char ["_"; "/"; "."; "-"]%char) rest
                 && negb (bool_decide (".." ∈ split "/" rest))
              then Some (Path, trimmed) else None
          | None => None
          end
      end
  end.

Definition parse_key_hex (key : string) : option Z :=
  let trimmed := trim key in
  let len := Z.of_nat (String.length trimmed) in
  if bool_decide (trimmed = "") || negb (len `mod` 2 =? 0)%Z then None
  else if negb (all_bytes is_ascii_hexdigit trimmed) then None
  else Some (len / 2)%Z.

Record ClearRequest := mkClearRequest {
  map_spec : string;
  scope : ClearScope;
  key_hex : option string;
  reason : string;
  duration : Z;
  authority : AuthorityTier.t;
  idempotency_key : string;
}.

Definition operator_tier (a : AuthorityTier.t) : bool :=
  match a with AuthorityTier.Operator | AuthorityTier.OperatorOverridden => true | _ => false end.

Definition validate (req : ClearRequest) : result MapSpecKind BackendError :=
  let? _ := check_reason (reason req) in
  let? _ := check_duration max_duration (authority req) (duration req) in
  let? kind := ok_or (fst <$> parse_map_spec (map_spec req)) (UnparseableMapSpec (map_spec req)) in
  let? _ := match scope req, key_hex req with
            | Element, None => Err ElementScopeRequiresKey
            | Element, Some key =>
                match parse_key_hex key with None => Err (InvalidKeyHex key) | Some _ => Ok tt end
            | AllElements, Some _ => Err AllScopeForbidsKey
            | AllElements, None =>
                if operator_tier (authority req) then Ok tt else Err (AllScopeRequiresOperator (authority req))
            end in
  Ok kind.
End MapClear.

(** ** All requests *)

Inductive Request :=
| BlockIp (r : BlockSet.BlockIpRequest)
| FreezeProcess (r : Quarantine.FreezeRequest)
| RevokeSessions (r : SessionRevocation.RevokeRequest)
| RevokeTokens (r : TokenRevocation.TokenRevokeRequest)
| RevokeMfaGrants (r : MfaGrantRevocation.MfaGrantRevokeRequest)
| IsolatePid (r : NetnsIsolation.IsolatePidRequest)
| UnbindMount (r : MountUnbind.UnbindMountRequest)
| FreezeTree (r : TreeFreeze.FreezeTreeRequest)
| RevokeFd (r : FdRevocation.RevokeFdRequest)
| ScrubEnv (r : EnvScrub.ScrubEnvRequest)
| DropCaps (r : CapDrop.DropCapsRequest)
| EvictKey (r : KeyEviction.EvictKeyRequest)
| PivotProfile (r : ProfilePivot.PivotProfileRequest)
| ClearMap (r : MapClear.ClearRequest).

(** The never-revoke lists a deployment configures. *)
Record Exclusions := mkExclusions {
  ex_users : gset string;
  ex_token_principals : gset string;
  ex_mfa_principals : gset string;
}.

Definition discard {A E} (r : result A E) : result unit E := let? _ := r in Ok tt.

(** The checks an in-memory backend runs on a request before it touches its
    state. The file-backed ones run the same, except that of sessions, which has
    no exclusion list. *)
Definition accepts `{UnicodeTables} (ex : Exclusions) (req : Request) : result unit BackendError :=
  match req with
  | BlockIp r => BlockSet.validate r
  | FreezeProcess r => Quarantine.validate r
  | RevokeSessions r => SessionRevocation.accept (ex_users ex) r
  | RevokeTokens r => TokenRevocation.accept (ex_token_principals ex) r
  | RevokeMfaGrants r => MfaGrantRevocation.accept (ex_mfa_principals ex) r
  | IsolatePid r => NetnsIsolation.validate r
  | UnbindMount r => MountUnbind.validate r
  | FreezeTree r => TreeFreeze.validate r
  | RevokeFd r => FdRevocation.validate r
  | ScrubEnv r => EnvScrub.validate r
  | DropCaps r => CapDrop.validate r
  | EvictKey r => discard (KeyEviction.validate r)
  | PivotProfile r => discard (ProfilePivot.validate r)
  | ClearMap r => discard (MapClear.validate r)
  end.

(** What the requests have in common. *)
Definition request_pid (req : Request) : option Z :=
  match req with
  | FreezeProcess r => Some (Quarantine.pid r)
  | IsolatePid r => Some (NetnsIsolation.pid r)
  | FreezeTree r => Some (TreeFreeze.root_pid r)
  | RevokeFd r => Some (FdRevocation.pid r)
  | ScrubEnv r => Some (EnvScrub.pid r)
  | DropCaps r => Some (CapDrop.pid r)
  | PivotProfile r => Some (ProfilePivot.pid r)
  | BlockIp _ | RevokeSessions _ | RevokeTokens _ | RevokeMfaGrants _ | UnbindMount _
  | EvictKey _ | ClearMap _ => None
  end.

(** Reason, duration, tier and the crate's ceiling for it. *)
Definition request_terms (req : Request) : string * Z * AuthorityTier.t * (AuthorityTier.t -> Z) :=
  match req with
  | BlockIp r => (BlockSet.reason r, BlockSet.duration r, BlockSet.authority r, BlockSet.max_duration)
  | FreezeProcess r =>
      (Quarantine.reason r, Quarantine.duration r, Quarantine.authority r, Quarantine.max_duration)
  | RevokeSessions r =>
      (SessionRevocation.reason r, SessionRevocation.duration r, SessionRevocation.authority r,
       SessionRevocation.max_duration)
  | RevokeTokens r =>
      (TokenRevocation.reason r, TokenRevocation.duration r, TokenRevocation.authority r,
       TokenRevocation.max_duration)
  | RevokeMfaGrants r =>
      (MfaGrantRevocation.reason r, MfaGrantRevocation.duration r, MfaGrantRevocation.authority r,
       MfaGrantRevocation.max_duration)
  | IsolatePid r =>
      (NetnsIsolation.reason r, NetnsIsolation.duration r, NetnsIsolation.authority r,
       NetnsIsolation.max_duration)
  | UnbindMount r =>
      (MountUnbind.reason r, MountUnbind.duration r, MountUnbind.authority r, MountUnbind.max_duration)
  | FreezeTree r =>
      (TreeFreeze.reason r, TreeFreeze.duration r, TreeFreeze.authority r, TreeFreeze.max_duration)
  | RevokeFd r =>
      (FdRevocation.reason r, FdRevocation.duration r, FdRevocation.authority r, FdRevocation.max_duration)
  | ScrubEnv r => (EnvScrub.reason r, EnvScrub.duration r, EnvScrub.authority r, EnvScrub.max_duration)
  | DropCaps r => (CapDrop.reason r, CapDrop.duration r, CapDrop.authority r, CapDrop.max_duration)
  | EvictKey r =>
      (KeyEviction.reason r, KeyEviction.duration r, KeyEviction.authority r, KeyEviction.max_duration)
  | PivotProfile r =>
      (ProfilePivot.reason r, ProfilePivot.duration r, ProfilePivot.authority r, ProfilePivot.max_duration)
  | ClearMap r => (MapClear.reason r, MapClear.duration r, MapClear.authority r, MapClear.max_duration)
  end.

Definition request_key (req : Request) : string :=
  match req with
  | BlockIp r => BlockSet.idempotency_key r
  | FreezeProcess r => Quarantine.idempotency_key r
  | RevokeSessions r => SessionRevocation.idempotency_key r
  | RevokeTokens r => TokenRevocation.idempotency_key r
  | RevokeMfaGrants r => MfaGrantRevocation.idempotency_key r
  | IsolatePid r => NetnsIsolation.idempotency_key r
  | UnbindMount r => MountUnbind.idempotency_key r
  | FreezeTree r => TreeFreeze.idempotency_key r
  | RevokeFd r => FdRevocation.idempotency_key r
  | ScrubEnv r => EnvScrub.idempotency_key r
  | DropCaps r => CapDrop.idempotency_key r
  | EvictKey r => KeyEviction.idempotency_key r
  | PivotProfile r => ProfilePivot.idempotency_key r
  | ClearMap r => MapClear.idempotency_key r
  end.
