(* ===== verification/BackendsProps.v ===== *)
(** * Properties of the enforcement backends

    Which requests the backends of Backends accept, stated without the order of
    their checks, and what the authority tiers buy. *)

From S2P Require Import Prelude Core Backends.
From stdpp Require Import options.

(** ** The specification of acceptance *)

(** An address that may be blocked: no loopback, unspecified, multicast,
    link-local or broadcast address. For IPv6 the first segment decides on
    multicast (ff00::/8) and link-local (fe80::/10). *)
Definition blockable (a : IpAddr) : Prop :=
  match a with
  | V4 b => (b / 2 ^ 24 <> 127 /\ b <> 0 /\ ~ (224 <= b / 2 ^ 24 <= 239) /\
             b / 2 ^ 16 <> 43518 /\ b <> 4294967295)%Z
  | V6 s => (s <> [0; 0; 0; 0; 0; 0; 0; 1] /\ s <> [0; 0; 0; 0; 0; 0; 0; 0] /\
             ~ (65280 <= hd 0 s <= 65535) /\ ~ (65152 <= hd 0 s <= 65215))%Z
  end.

Definition rank (t : AuthorityTier.t) : nat :=
  match t with
  | AuthorityTier.Autonomous => 0
  | AuthorityTier.Responder => 1
  | AuthorityTier.Operator => 2
  | AuthorityTier.OperatorOverridden => 3
  end.

(** The profiles a tier may pivot a process into. *)
Definition may_pivot (t : AuthorityTier.t) (name : string) : Prop :=
  name = "selfdef-observe-only" \/
  (1 <= rank t /\ name = "selfdef-quarantine-strict") \/
  (2 <= rank t /\ name <> "unconfined") \/
  rank t = 3.

Section spec.
Context `{UnicodeTables} (ex : Exclusions).

Definition target_ok (req : Request) : Prop :=
  match req with
  | BlockIp r => blockable (BlockSet.addr r)
  | FreezeProcess _ | IsolatePid _ | FreezeTree _ => True
  | RevokeSessions r => trim (SessionRevocation.user r) <> "" /\ SessionRevocation.user r ∉ ex_users ex
  | RevokeTokens r =>
      trim (TokenRevocation.principal r) <> "" /\ TokenRevocation.principal r ∉ ex_token_principals ex
  | RevokeMfaGrants r =>
      trim (MfaGrantRevocation.principal r) <> "" /\ MfaGrantRevocation.principal r ∉ ex_mfa_principals ex
  | UnbindMount r =>
      trim (MountUnbind.mount_point r) <> "" /\ starts_with (MountUnbind.mount_point r) "/" = true /\
      ".." ∉ split "/" (MountUnbind.mount_point r) /\
      (forall p, MountUnbind.scope r = MountUnbind.AllMatching p -> rank (MountUnbind.authority r) = 3)
  | RevokeFd r => (0 <= FdRevocation.fd r)%Z
  | ScrubEnv r =>
      EnvScrub.vars r <> [] /\
      Forall (fun v => v <> "" /\ contains v "=" = false /\ contains v (String "000" "") = false) (EnvScrub.vars r)
  | DropCaps r => CapDrop.caps r <> [] /\ Forall (fun c => is_Some (CapDrop.canonicalize_cap c)) (CapDrop.caps r)
  | EvictKey r => is_Some (KeyEviction.parse_key_spec (KeyEviction.key_spec r))
  | PivotProfile r =>
      is_Some (ProfilePivot.validate_profile_name (ProfilePivot.target_profile r)) /\
      may_pivot (ProfilePivot.authority r) (ProfilePivot.target_profile r)
  | ClearMap r =>
      is_Some (MapClear.parse_map_spec (MapClear.map_spec r)) /\
      match MapClear.scope r with
      | MapClear.Element => is_Some (MapClear.key_hex r ≫= MapClear.parse_key_hex)
      | MapClear.AllElements => MapClear.key_hex r = None /\ 2 <= rank (MapClear.authority r)
      end
  end.

Definition authorised (req : Request) : Prop :=
  let '(reason, duration, tier, max) := request_terms req in
  trim reason <> "" /\ (duration <= max tier)%Z /\
  (forall pid, request_pid req = Some pid -> (1 < pid)%Z) /\ target_ok req.
End spec.

(** ** The checks one by one *)

Lemma bind_ok {A B E} (r : result A E) (f : A -> result B E) b :
  (let? x := r in f x) = Ok b <-> exists x, r = Ok x /\ f x = Ok b.
Proof. destruct r; naive_solver. Qed.

Lemma bind_ok_unit {B E} (r : result unit E) (f : result B E) b :
  (let? _ := r in f) = Ok b <-> r = Ok tt /\ f = Ok b.
Proof. destruct r as [[]|]; naive_solver. Qed.

Lemma check_reason_ok r : check_reason r = Ok tt <-> trim r <> "".
Proof. unfold check_reason, blank. case_bool_decide; naive_solver. Qed.

Lemma check_duration_ok max t d : check_duration max t d = Ok tt <-> (d <= max t)%Z.
Proof. unfold check_duration. destruct (Z.ltb_spec (max t) d); split; try done; lia. Qed.

Lemma check_pid_ok f g s p : check_pid f g s p = Ok tt <-> (1 < p)%Z.
Proof.
  unfold check_pid. destruct (Z.leb_spec p 0); [split; [done|lia]|].
  destruct (Z.eqb_spec p 1); split; try done; lia.
Qed.

Lemma check_excluded_ok ex f n : check_excluded ex f n = Ok tt <-> n ∉ ex.
Proof. unfold check_excluded. case_bool_decide; naive_solver. Qed.

Lemma blank_ok {E} s (e : E) : (if blank s then Err e else Ok tt) = Ok tt <-> trim s <> "".
Proof. unfold blank. case_bool_decide; naive_solver. Qed.

Lemma nonempty_ok {A E} `{EqDecision A} (l : list A) (e : E) :
  (if bool_decide (l = []) then Err e else Ok tt) = Ok tt <-> l <> [].
Proof. case_bool_decide; naive_solver. Qed.

Lemma ok_or_ok {A E} (o : option A) (e : E) x : ok_or o e = Ok x <-> o = Some x.
Proof. destruct o; naive_solver. Qed.

Lemma discard_ok {A E} (r : result A E) : discard r = Ok tt <-> exists x, r = Ok x.
Proof. unfold discard. rewrite bind_ok. naive_solver. Qed.

(** fe80::/10 by its two octets. *)
Lemma link_local_octets h :
  ((h / 2 ^ 8 =? 254) && (Z.land (h `mod` 2 ^ 8) 192 =? 128))%Z = true <-> (65152 <= h <= 65215)%Z.
Proof.
  assert (Hsweep : forallb (fun n => Bool.eqb (Z.land (Z.of_nat n) 192 =? 128)%Z
    ((128 <=? Z.of_nat n) && (Z.of_nat n <=? 191))%Z) (seq 0 256) = true) by (vm_compute; reflexivity).
  rewrite forallb_forall in Hsweep.
  assert (Hm : (0 <= h `mod` 2 ^ 8 < 256)%Z) by (apply Z.mod_pos_bound; lia).
  assert (Hd : h = (2 ^ 8 * (h / 2 ^ 8) + h `mod` 2 ^ 8)%Z) by (apply Z.div_mod; lia).
  specialize (Hsweep (Z.to_nat (h `mod` 2 ^ 8))). rewrite in_seq, Z2Nat.id in Hsweep by lia.
  rewrite (eqb_prop _ _ (Hsweep ltac:(lia))), !andb_true_iff, Z.eqb_eq, !Z.leb_le. change (2 ^ 8)%Z with 256%Z in *. lia.
Qed.

Lemma check_addr_ok a : BlockSet.check_addr a = Ok tt <-> blockable a.
Proof.
  unfold BlockSet.check_addr, ip_is_loopback, ip_is_unspecified, ip_is_multicast. destruct a as [b|s]; simpl.
  - repeat match goal with |- context [(?x =? ?y)%Z] => destruct (Z.eqb_spec x y) end;
      destruct (Z.leb_spec 224 (b / 2 ^ 24)), (Z.leb_spec (b / 2 ^ 24) 239); simpl; split; try done; lia.
  - case_bool_decide; [naive_solver|]. case_bool_decide; [naive_solver|].
    pose proof (link_local_octets (hd 0%Z s)) as Hll.
    assert (Hmc : (hd 0 s / 2 ^ 8 =? 255)%Z = true <-> (65280 <= hd 0 s <= 65535)%Z).
    { rewrite Z.eqb_eq. change (2 ^ 8)%Z with 256%Z. pose proof (Z.div_mod (hd 0 s) 256 ltac:(lia))%Z.
      pose proof (Z.mod_pos_bound (hd 0 s) 256 ltac:(lia))%Z. lia. }
    destruct (_ =? 255)%Z; [naive_solver|]. destruct (_ && _); naive_solver.
Qed.

Section checks.
Context `{UnicodeTables}.

Lemma check_mount_point_ok mp :
  MountUnbind.check_mount_point mp = Ok tt <->
  trim mp <> "" /\ starts_with mp "/" = true /\ ".." ∉ split "/" mp.
Proof.
  unfold MountUnbind.check_mount_point, MountUnbind.has_parent_component, blank.
  case_bool_decide; [naive_solver|]. destruct (starts_with mp "/"); [|naive_solver]. simpl.
  case_bool_decide; naive_solver.
Qed.

Lemma check_vars_ok vars :
  EnvScrub.check_vars vars = Ok tt <->
  Forall (fun v => v <> "" /\ contains v "=" = false /\ contains v (String "000" "") = false) vars.
Proof.
  induction vars as [|v vars IH]; cbn [EnvScrub.check_vars]; [by rewrite Forall_nil|].
  rewrite Forall_cons, <-IH. case_bool_decide; [naive_solver|].
  destruct (contains v "="), (contains v _); naive_solver.
Qed.

Lemma unknown_cap_none caps :
  CapDrop.unknown_cap caps = None <-> Forall (fun c => is_Some (CapDrop.canonicalize_cap c)) caps.
Proof.
  unfold CapDrop.unknown_cap. induction caps as [|c caps IH]; cbn [List.find]; [by rewrite Forall_nil|].
  rewrite Forall_cons, <-IH. destruct (CapDrop.canonicalize_cap c) eqn:E.
  - split; [intros HH; split; [by eexists|done]|by intros [_ HH]].
  - split; [done|by intros [[? ?] _]].
Qed.

Lemma check_target_ok t n name : ProfilePivot.check_target t n = Ok name <-> name = n /\ may_pivot t n.
Proof.
  unfold ProfilePivot.check_target, may_pivot.
  destruct t; simpl; repeat case_bool_decide; simpl; split; intros; destruct_and?; simplify_eq; try (by auto 6);
    try (split; [done|]; by auto 6); try lia; naive_solver lia.
Qed.

Lemma check_sacrosanct_ok p : ProfilePivot.check_sacrosanct p = Ok tt <-> (1 < p)%Z.
Proof. unfold ProfilePivot.check_sacrosanct. destruct (Z.leb_spec p 1); split; try done; lia. Qed.
End checks.

#[local] Hint Unfold accepts BlockSet.validate Quarantine.validate SessionRevocation.accept
  SessionRevocation.validate TokenRevocation.accept TokenRevocation.validate MfaGrantRevocation.accept
  MfaGrantRevocation.validate NetnsIsolation.validate MountUnbind.validate TreeFreeze.validate
  FdRevocation.validate EnvScrub.validate CapDrop.validate authorised target_ok : selfdef.

(** Acceptance as the conjunction of the checks. *)
Ltac split_checks :=
  rewrite ?bind_ok_unit, ?check_reason_ok, ?check_duration_ok, ?check_pid_ok, ?check_excluded_ok, ?blank_ok,
    ?nonempty_ok, ?check_addr_ok, ?check_mount_point_ok, ?check_vars_ok.

Section acceptance.
Context `{UnicodeTables} (ex : Exclusions).

Lemma pid_some_iff {P : Z -> Prop} p : (forall q, Some p = Some q -> P q) <-> P p.
Proof. naive_solver. Qed.
Lemma pid_none_iff {P : Z -> Prop} : (forall q, None = Some q -> P q) <-> True.
Proof. naive_solver. Qed.

Lemma pivot_ok r :
  discard (ProfilePivot.validate r) = Ok tt <->
  authorised ex (PivotProfile r).
Proof.
  unfold ProfilePivot.validate, authorised. cbn. rewrite discard_ok, pid_some_iff.
  setoid_rewrite bind_ok_unit. setoid_rewrite bind_ok_unit. setoid_rewrite bind_ok_unit. setoid_rewrite bind_ok.
  setoid_rewrite check_reason_ok. setoid_rewrite check_sacrosanct_ok. setoid_rewrite check_duration_ok.
  setoid_rewrite ok_or_ok. setoid_rewrite check_target_ok.
  assert (Hname : forall n m, ProfilePivot.validate_profile_name n = Some m -> m = n)
    by (intros n m; unfold ProfilePivot.validate_profile_name; repeat case_match; naive_solver).
  split.
  - intros (x & Hr & Hp & Hd & y & Hy & -> & Hm). pose proof (Hname _ _ Hy) as ->. naive_solver.
  - intros (Hr & Hd & Hp & [y Hy] & Hm). pose proof (Hname _ _ Hy) as ->. naive_solver.
Qed.

Lemma clear_ok r : discard (MapClear.validate r) = Ok tt <-> authorised ex (ClearMap r).
Proof.
  unfold MapClear.validate, authorised. cbn. rewrite discard_ok, pid_none_iff.
  setoid_rewrite bind_ok_unit. setoid_rewrite bind_ok_unit. setoid_rewrite bind_ok. setoid_rewrite bind_ok_unit.
  setoid_rewrite check_reason_ok. setoid_rewrite check_duration_ok. setoid_rewrite ok_or_ok.
  rewrite <-(fmap_is_Some fst).
  destruct (MapClear.scope r), (MapClear.key_hex r) as [k|]; simpl; unfold is_Some; try naive_solver.
  - destruct (MapClear.parse_key_hex k); naive_solver.
  - destruct (MapClear.authority r); simpl; naive_solver lia.
Qed.

Lemma evict_ok r : discard (KeyEviction.validate r) = Ok tt <-> authorised ex (EvictKey r).
Proof.
  unfold KeyEviction.validate, authorised. cbn. rewrite discard_ok, pid_none_iff.
  setoid_rewrite bind_ok_unit. setoid_rewrite bind_ok_unit.
  setoid_rewrite check_reason_ok. setoid_rewrite check_duration_ok. setoid_rewrite ok_or_ok. unfold is_Some.
  naive_solver.
Qed.

Lemma unbind_ok r : MountUnbind.validate r = Ok tt <-> authorised ex (UnbindMount r).
Proof.
  autounfold with selfdef. cbn. split_checks. rewrite pid_none_iff.
  destruct (MountUnbind.scope r); [naive_solver..|].
  case_bool_decide as Ha; [rewrite Ha|]; simpl; [naive_solver|].
  split; [naive_solver|]. intros (? & ? & ? & ? & ? & ? & Ht). specialize (Ht _ eq_refl).
  by destruct (MountUnbind.authority r).
Qed.

Lemma accepts_ok req : accepts ex req = Ok tt <-> authorised ex req.
Proof.
  destruct req as [r|r|r|r|r|r|r|r|r|r|r|r|r|r]; cbn [accepts];
    [..|apply evict_ok|apply pivot_ok|apply clear_ok];
    try apply unbind_ok; autounfold with selfdef; cbn; split_checks; rewrite ?pid_some_iff, ?pid_none_iff; try tauto.
  - destruct (Z.ltb_spec (FdRevocation.fd r) 0); split; intros; destruct_and?; repeat split; try done; lia.
  - pose proof (unknown_cap_none (CapDrop.caps r)). destruct (CapDrop.unknown_cap _); naive_solver.
Qed.

(** The in-memory backends accept exactly the authorised requests: the reason is not
    blank, the duration is within the tier's ceiling, a process to act on is
    neither init nor a process group, and the target is one the tier may touch.
    No order of the checks is left visible by acceptance. *)
Theorem accepts_exact req : accepts ex req = Ok tt <-> authorised ex req.
Proof. apply accepts_ok. Qed.
End acceptance.

(** ** What a tier buys *)

(** The same request under another authority. *)
Definition with_authority (t : AuthorityTier.t) (req : Request) : Request :=
  match req with
  | BlockIp (BlockSet.mkBlockIpRequest a r d _ k) => BlockIp (BlockSet.mkBlockIpRequest a r d t k)
  | FreezeProcess (Quarantine.mkFreezeRequest p r d _ s k) => FreezeProcess (Quarantine.mkFreezeRequest p r d t s k)
  | RevokeSessions (SessionRevocation.mkRevokeRequest u r d _ s k) =>
      RevokeSessions (SessionRevocation.mkRevokeRequest u r d t s k)
  | RevokeTokens (TokenRevocation.mkTokenRevokeRequest u r d _ s k) =>
      RevokeTokens (TokenRevocation.mkTokenRevokeRequest u r d t s k)
  | RevokeMfaGrants (MfaGrantRevocation.mkMfaGrantRevokeRequest u r d _ s k) =>
      RevokeMfaGrants (MfaGrantRevocation.mkMfaGrantRevokeRequest u r d t s k)
  | IsolatePid (NetnsIsolation.mkIsolatePidRequest p r d _ s k) =>
      IsolatePid (NetnsIsolation.mkIsolatePidRequest p r d t s k)
  | UnbindMount (MountUnbind.mkUnbindMountRequest m r d _ s l k) =>
      UnbindMount (MountUnbind.mkUnbindMountRequest m r d t s l k)
  | FreezeTree (TreeFreeze.mkFreezeTreeRequest p r d _ s i k) =>
      FreezeTree (TreeFreeze.mkFreezeTreeRequest p r d t s i k)
  | RevokeFd (FdRevocation.mkRevokeFdRequest p f r d _ s i k) =>
      RevokeFd (FdRevocation.mkRevokeFdRequest p f r d t s i k)
  | ScrubEnv (EnvScrub.mkScrubEnvRequest p v r d _ s k) => ScrubEnv (EnvScrub.mkScrubEnvRequest p v r d t s k)
  | DropCaps (CapDrop.mkDropCapsRequest p c r d _ s k) => DropCaps (CapDrop.mkDropCapsRequest p c r d t s k)
  | EvictKey (KeyEviction.mkEvictKeyRequest x r d _ s k) => EvictKey (KeyEviction.mkEvictKeyRequest x r d t s k)
  | PivotProfile (ProfilePivot.mkPivotProfileRequest p n r d _ s k) =>
      PivotProfile (ProfilePivot.mkPivotProfileRequest p n r d t s k)
  | ClearMap (MapClear.mkClearRequest m s x r d _ k) => ClearMap (MapClear.mkClearRequest m s x r d t k)
  end.

(** No crate's ceiling exceeds these, and ceilings grow with the tier. *)
Definition tier_limit : AuthorityTier.t -> Z := ceilings (5 * 60) (60 * 60) (24 * 60 * 60) (720 * 60 * 60).

Lemma ceilings_grow req t1 t2 :
  let '(_, _, _, max) := request_terms req in
  rank t1 <= rank t2 -> (max t1 <= max t2)%Z /\ (max t1 <= tier_limit t1)%Z.
Proof. destruct req, t1, t2; simpl; intros ?; try lia; split; vm_compute; discriminate. Qed.

Lemma may_pivot_grows t1 t2 name : rank t1 <= rank t2 -> may_pivot t1 name -> may_pivot t2 name.
Proof.
  unfold may_pivot. intros Hle [->|[[? ->]|[[? ?]|?]]]; [by auto|right; left; split; [lia|done]| |right; right; right].
  - right. right. left. split; [lia|done].
  - pose proof (eq_refl : rank AuthorityTier.OperatorOverridden = 3). destruct t2; simpl in *; lia.
Qed.

Section tiers.
Context `{UnicodeTables} (ex : Exclusions).

Lemma target_grows req t1 t2 : rank t1 <= rank t2 ->
  target_ok ex (with_authority t1 req) -> target_ok ex (with_authority t2 req).
Proof.
  intros Hle. destruct req as [[]|[]|[]|[]|[]|[]|[]|[]|[]|[]|[]|[]|[]|[]]; simpl; try done.
  - intros (? & ? & ? & Hs). repeat split; try done. intros p Hp. specialize (Hs p Hp). destruct t2; simpl in *; lia.
  - intros [? ?]. split; [done|]. eauto using may_pivot_grows.
  - intros [? Hs]. split; [done|]. destruct scope; [done|]. destruct Hs. split; [done|lia].
Qed.

(** Authority is monotone: a request a backend accepts under one tier it
    accepts under every higher tier, and under no tier does an accepted effect
    outlast 5 minutes (autonomous), an hour (responder), a day (operator) or 30
    days (operator override). *)
Theorem authority_monotone req t1 t2 :
  rank t1 <= rank t2 -> accepts ex (with_authority t1 req) = Ok tt ->
  accepts ex (with_authority t2 req) = Ok tt /\ ((request_terms req).1.1.2 <= tier_limit t1)%Z.
Proof.
  intros Hle. rewrite !accepts_ok. pose proof (ceilings_grow req t1 t2) as Hc.
  pose proof (target_grows req t1 t2 Hle) as Ht.
  destruct req as [[]|[]|[]|[]|[]|[]|[]|[]|[]|[]|[]|[]|[]|[]]; unfold authorised in *; cbn [request_terms with_authority] in *;
    specialize (Hc Hle) as [Hc1 Hc2]; intros (Hr & Hd & Hp & Hok); cbn in *; (split; [|lia]);
    (split; [exact Hr|]; split; [lia|]; split; [exact Hp|by apply Ht]).
Qed.
End tiers.

Module BackendsWitnesses.

#[local] Instance no_unicode : UnicodeTables :=
  {| uc_alphanumeric := fun _ => false; uc_uppercase := fun c => c; uc_debug_plain := fun _ => true |}.

Definition exclusions : Exclusions := mkExclusions {["root"]} ∅ ∅.

Definition pivot : Request :=
  PivotProfile (ProfilePivot.mkPivotProfileRequest 7 "selfdef-quarantine-strict" "finding 1" (from_secs 60)
    AuthorityTier.Responder ProfilePivot.ProfileScope "key").

Lemma authority_monotone_witness :
  accepts exclusions (with_authority AuthorityTier.Operator pivot) = Ok tt /\
  (from_secs 60 <= tier_limit AuthorityTier.Responder)%Z.
Proof.
  apply (authority_monotone exclusions pivot AuthorityTier.Responder AuthorityTier.Operator); [simpl; lia|].
  vm_compute. reflexivity.
Defined.
End BackendsWitnesses.
