(* ===== verification/Actions.v ===== *)
(** * The response actions

    Models crates/selfdef-responder/src/actions.rs: the extraction of an action's
    target from an event, and [execute] of every built-in action. An action
    returns its outcome together with the list of effects it had on the host, in
    order: notifications, processes started, files written and requests to the
    enforcement backends.

    What the host answers (exit statuses, file contents, backend results) comes
    from a [World]; the n-th call of a backend may answer differently each time.
    Paths are their text; standard error is the text that
    [String::from_utf8_lossy] gives. *)

From S2P Require Import Prelude Core Responder Backends.
From stdpp Require Import options.

(** ** The host *)

Record Output := mkOutput {
  o_success : bool;
  o_code : option Z;
  o_stdout : string;
  o_stderr : string;
}.

(** The fields of the backends' receipts that the actions read; the count is
    the number of processes, variables, capabilities, keys or elements. *)
Record Receipt := mkReceipt {
  rc_handle : Handle;
  rc_count : Z;
  rc_original_profile : string;
}.

Record World := mkWorld {
  w_own_pid : Z;
  w_notify : Event -> result unit string;
  w_spawn : string -> list string -> result Output string;
  w_create_dir : string -> result unit string;
  w_read : string -> result string string;
  w_write : string -> string -> result unit string;
  w_read_link : string -> result string string;
  w_read_dir : string -> option (list (string * result string string));
  w_event_json : Event -> result string string;
  w_backend : nat -> Request -> result Receipt BackendError;
}.

Inductive Effect :=
| Notified (event : Event)
| Spawned (program : string) (args : list string)
| CreatedDir (dir : string)
| Wrote (file : string) (content : string)
| Requested (req : Request).

Definition ActionResult : Type := result ActionOutcome ActionError * list Effect.

Definition act_ok (notes : string) : result ActionOutcome ActionError :=
  Ok (mkActionOutcome ActionStatus.Success notes).
Definition act_dry_run (notes : string) : result ActionOutcome ActionError :=
  Ok (mkActionOutcome ActionStatus.DryRun notes).
Definition act_skipped (notes : string) : result ActionOutcome ActionError :=
  Ok (mkActionOutcome ActionStatus.Skipped notes).

Definition i32_max : Z := 2 ^ 31 - 1.
Definition i32_min : Z := - 2 ^ 31.

(** [{:?}] of an exit code. *)
Definition code_debug (code : option Z) : string := option_debug (show_int <$> code).

(** [x as i32] of a [u32]. *)
Definition u32_as_i32 (n : Z) : Z := if (n <=? i32_max)%Z then n else (n - 2 ^ 32)%Z.

(** ** Targets *)

Section actions.
Context `{UnicodeTables} `{WireFormat}.
Context (w : World).

Definition pid_from_event (event : Event) : option Z :=
  let pid := match ev_actor event ≫= a_process with
             | Some p => Some (p_pid p)
             | None => p_pid <$> ev_process event
             end in
  match pid with
  | Some p => if (0 <? p)%Z && negb (p =? u32_as_i32 (w_own_pid w))%Z then Some p else None
  | None => None
  end.

Definition source_ip_from_event (event : Event) : option IpAddr := ev_src_endpoint event ≫= ep_ip.

Definition nonempty (o : option string) : option string :=
  match o with Some s => if bool_decide (s = "") then None else Some s | None => None end.

Definition user_from_event (event : Event) : option string := (ev_actor event ≫= a_user) ≫= u_name.

Definition sdd067_user_from_event (event : Event) : option string := nonempty (user_from_event event).
Definition sdd068_principal_from_event (event : Event) : option string := nonempty (user_from_event event).
Definition sdd069_principal_from_event (event : Event) : option string := nonempty (user_from_event event).
Definition sdd071_mount_point_from_event (event : Event) : option string :=
  nonempty (ev_file event ≫= f_path).

Fixpoint find_fd (profiles : list string) : option Z :=
  match profiles with
  | [] => None
  | p :: profiles =>
      match strip_prefix "socket_fd:" p ≫= parse_int i32_min i32_max with
      | Some fd => Some fd
      | None => find_fd profiles
      end
  end.

Definition sdd073_pid_fd_from_event (event : Event) : option (Z * Z) :=
  pid ← pid_from_event event;
  fd ← find_fd (m_profiles (ev_metadata event));
  Some (pid, fd).

(** ** Processes *)

(** Start a program and turn its exit into an outcome. *)
Definition run_command (program : string) (args : list string) (what ok : string) : ActionResult :=
  let res := match w_spawn w program args with
             | Err e => Err (ActionIo e)
             | Ok out =>
                 if o_success out then act_ok ok
                 else Err (ActionExec (what +:+ " exit " +:+ code_debug (o_code out) +:+ ": "
                                       +:+ trim (o_stderr out)))
             end in
  (res, [Spawned program args]).

Definition notify_execute (event : Event) (dry_run : bool) : ActionResult :=
  if dry_run then (act_dry_run ("would notify: " +:+ default "(no message)" (ev_message event)), [])
  else (match w_notify w event with Ok _ => act_ok "notified" | Err e => Err (ActionNotify e) end,
        [Notified event]).

Definition kill_pid_execute (event : Event) (dry_run : bool) : ActionResult :=
  match pid_from_event event with
  | None => (act_skipped "no actor pid available", [])
  | Some pid =>
      if (pid =? 1)%Z then (act_skipped "refusing to signal pid 1 (init)", [])
      else if dry_run then (act_dry_run ("would SIGTERM pid " +:+ show_int pid), [])
      else run_command "kill" ["-TERM"; show_int pid] "kill" ("SIGTERM sent to pid " +:+ show_int pid)
  end.

Definition lockdown_egress_execute (script : string) (event : Event) (dry_run : bool) : ActionResult :=
  if dry_run then (act_dry_run ("would invoke " +:+ script +:+ " activate"), [])
  else run_command script ["activate"] "lockdown script" "egress locked down".

Definition revoke_session_execute (script : string) (excluded : gset string) (event : Event)
    (dry_run : bool) : ActionResult :=
  match user_from_event event with
  | None => (act_skipped "no actor user name", [])
  | Some user =>
      if starts_with user "-"
      then (act_skipped ("refusing user with leading '-' (possible argv injection): " +:+ str_debug user), [])
      else if bool_decide (user ∈ excluded)
      then (act_skipped ("refusing to revoke protected user (self-lockout guard): " +:+ str_debug user), [])
      else if dry_run then (act_dry_run ("would invoke " +:+ script +:+ " " +:+ user), [])
      else run_command script [user] "revoke script" ("revoked sessions for " +:+ user)
  end.

Definition render_args (args : list string) (event : Event) : list string :=
  (fun a => replace "{host_tag}" (ev_host_tag event) (replace "{event_id}" (uuid_to_string (ev_id event)) a))
  <$> args.

Definition velociraptor_execute (binary : string) (args : list string) (event : Event) (dry_run : bool) :
    ActionResult :=
  if starts_with (ev_host_tag event) "-"
  then (act_skipped ("refusing host_tag with leading '-' (possible argv injection): "
                     +:+ str_debug (ev_host_tag event)), [])
  else
    let rendered := render_args args event in
    if dry_run then (act_dry_run ("would invoke " +:+ binary +:+ " " +:+ join " " rendered), [])
    else run_command binary rendered "velociraptor"
           ("velociraptor escalation dispatched (" +:+ show_uint (Z.of_nat (length rendered)) +:+ " args)").

(** ** Evidence *)

Definition DMESG_TAIL_LINES : nat := 2000.
Definition JOURNAL_TAIL_LINES : nat := 2000.

Definition proc_sources : list string := ["cmdline"; "environ"; "status"; "maps"; "stat"; "io"].

(** Best-effort copies: an unreadable source is skipped, a failed write is
    ignored. *)
Definition copy_file (src dest : string) : list Effect :=
  match w_read w src with Ok content => [Wrote dest content] | Err _ => [] end.
Definition copy_link (src dest : string) : list Effect :=
  match w_read_link w src with Ok target => [Wrote dest target] | Err _ => [] end.

Definition snapshot_proc_execute (snapshot_dir : string) (event : Event) (dry_run : bool) : ActionResult :=
  match pid_from_event event with
  | None => (act_skipped "no actor pid available", [])
  | Some pid =>
      let dir := path_join snapshot_dir (uuid_to_string (ev_id event)) in
      if dry_run then (act_dry_run ("would snapshot pid " +:+ show_int pid +:+ " to " +:+ dir), [])
      else
        match w_create_dir w dir with
        | Err e => (Err (ActionIo e), [CreatedDir dir])
        | Ok _ =>
            let root := "/proc/" +:+ show_int pid in
            (act_ok ("snapshotted pid " +:+ show_int pid +:+ " → " +:+ dir),
             CreatedDir dir
             :: (proc_sources ≫= fun s => copy_file (root +:+ "/" +:+ s) (path_join dir s))
             ++ copy_link (root +:+ "/exe") (path_join dir "exe_link")
             ++ copy_link (root +:+ "/cwd") (path_join dir "cwd_link"))
        end
  end.

Definition tail_lines (bytes : string) (n : nat) : string :=
  if bool_decide (n = 0) then ""
  else if negb (utf8_valid bytes) then bytes
  else
    let lines := split_inclusive "010" bytes in
    str_concat (drop (length lines - n) lines).

(** A step of the bundle: the manifest lines it adds and its effects. *)
Definition Step : Type := list string * list Effect.

Definition bytes_line (dest : string) (content : string) : string :=
  dest +:+ " " +:+ show_uint (Z.of_nat (String.length content)) +:+ " bytes".
Definition skip_line (dest e : string) : string := dest +:+ " SKIP (" +:+ e +:+ ")".

Definition bundle_event (dir : string) (event : Event) : Step :=
  match w_event_json w event with
  | Ok bytes =>
      let file := path_join dir "event.json" in
      ([match w_write w file bytes with
        | Err e => "event.json ERR " +:+ e
        | Ok _ => bytes_line "event.json" bytes
        end], [Wrote file bytes])
  | Err e => (["event.json SERIALIZE-ERR " +:+ e], [])
  end.

Definition bundle_file (dir label src dest : string) : Step :=
  match w_read w src with
  | Ok content => ([bytes_line label content], [Wrote (path_join dir dest) content])
  | Err e => ([skip_line label e], [])
  end.

Definition bundle_link (dir label src dest : string) : Step :=
  match w_read_link w src with
  | Ok target => ([bytes_line label target], [Wrote (path_join dir dest) target])
  | Err _ => ([], [])
  end.

Definition static_sources : list (string * string) :=
  [("os-release", "/etc/os-release"); ("proc-version", "/proc/version"); ("proc-cmdline", "/proc/cmdline");
   ("uptime", "/proc/uptime"); ("mounts", "/proc/mounts"); ("modules", "/proc/modules");
   ("passwd", "/etc/passwd"); ("group", "/etc/group"); ("net-tcp", "/proc/net/tcp");
   ("net-udp", "/proc/net/udp")].

(** A tool: the content kept of its output and the suffix of its line. *)
Definition bundle_tool (dir dest prog : string) (args : list string) (keep : string -> string)
    (suffix : Output -> string) : Step :=
  match w_spawn w prog args with
  | Ok out =>
      let content := keep (o_stdout out) in
      ([bytes_line dest content +:+ suffix out], [Spawned prog args; Wrote (path_join dir dest) content])
  | Err e => ([skip_line dest e], [Spawned prog args])
  end.

Definition exit_suffix (out : Output) : string := " (exit " +:+ code_debug (o_code out) +:+ ")".
Definition newline : string := String "010" "".

Definition fd_line (entry : string * result string string) : string :=
  entry.1 +:+ " -> "
  +:+ match entry.2 with Ok link => link | Err e => "<unreadable: " +:+ e +:+ ">" end +:+ newline.

Definition bundle_fds (dir src : string) : Step :=
  match w_read_dir w src with
  | Some entries =>
      (["proc/fd (" +:+ show_uint (Z.of_nat (length entries)) +:+ " entries)"],
       [Wrote (path_join dir "fd") (str_concat (fd_line <$> entries))])
  | None => ([], [])
  end.

Definition bundle_proc (dir : string) (event : Event) : list Step :=
  match pid_from_event event with
  | None => [(["proc/* SKIP (no actor pid)"], [])]
  | Some pid =>
      let proc_dir := path_join dir "proc" in
      let root := "/proc/" +:+ show_int pid in
      ([], [CreatedDir proc_dir])
      :: ((fun s => bundle_file proc_dir ("proc/" +:+ s) (root +:+ "/" +:+ s) s) <$> proc_sources)
      ++ [bundle_link proc_dir "proc/exe_link" (root +:+ "/exe") "exe_link";
          bundle_link proc_dir "proc/cwd_link" (root +:+ "/cwd") "cwd_link";
          bundle_fds proc_dir (root +:+ "/fd")]
  end.

Definition bundle_steps (dir : string) (event : Event) : list Step :=
  bundle_event dir event
  :: ((fun ds => bundle_file dir ds.1 ds.2 ds.1) <$> static_sources)
  ++ [bundle_tool dir "uname" "uname" ["-a"] id exit_suffix;
      bundle_tool dir "ss-tnap" "ss" ["-tnap"] id exit_suffix;
      bundle_tool dir "dmesg" "dmesg" ["--ctime"] (fun s => tail_lines s DMESG_TAIL_LINES) (fun _ => "");
      bundle_tool dir "journalctl" "journalctl"
        ["-n"; show_uint (Z.of_nat JOURNAL_TAIL_LINES); "--no-pager"] id (fun _ => "")]
  ++ bundle_proc dir event.

Definition forensics_bundle_execute (forensics_dir : string) (event : Event) (dry_run : bool) :
    ActionResult :=
  let dir := path_join forensics_dir (uuid_to_string (ev_id event)) in
  if dry_run then (act_dry_run ("would write forensics bundle to " +:+ dir), [])
  else
    match w_create_dir w dir with
    | Err e => (Err (ActionIo e), [CreatedDir dir])
    | Ok _ =>
        let steps := bundle_steps dir event in
        let manifest := join newline (steps ≫= fst) +:+ newline in
        (act_ok ("forensics bundle written → " +:+ dir),
         CreatedDir dir :: (steps ≫= snd) ++ [Wrote (path_join dir "manifest.txt") manifest])
    end.

(** ** Enforcement *)

(** Hand a request to a backend; [ok] renders the receipt. *)
Definition ask (req : Request) (backend : string) (ok : Receipt -> string) : ActionResult :=
  (match w_backend w 0 req with
   | Ok receipt => act_ok (ok receipt)
   | Err e => Err (ActionExec (backend +:+ " backend: " +:+ backend_error_display e))
   end, [Requested req]).

Definition reason_of (prefix : string) (event : Event) : string :=
  prefix +:+ ": event " +:+ uuid_to_string (ev_id event).

(** [" for {}s under {:?} ({})"]. *)
Definition terms (duration : Z) (tier : AuthorityTier.t) (reason : string) : string :=
  " for " +:+ show_uint (as_secs duration) +:+ "s under " +:+ tier_debug tier +:+ " (" +:+ reason +:+ ")".

(** The settings every enforcement action has. *)
Record Enforce := mkEnforce {
  en_authority : AuthorityTier.t;
  en_duration : Z;
  en_reason_prefix : string;
}.

Definition block_ip_execute (en : Enforce) (event : Event) (dry_run : bool) : ActionResult :=
  match source_ip_from_event event with
  | None => (act_skipped "no src_endpoint.ip in event — block_ip skipped", [])
  | Some addr =>
      let reason := reason_of (en_reason_prefix en) event in
      if dry_run then (act_dry_run ("would block " +:+ show_ip addr
                         +:+ terms (en_duration en) (en_authority en) reason), [])
      else ask (BlockIp (BlockSet.mkBlockIpRequest addr reason (en_duration en) (en_authority en)
                 (join ":" [show_ip addr; uuid_to_string (ev_id event); tier_debug (en_authority en)])))
             "block_ip"
             (fun rc => "blocked " +:+ show_ip addr +:+ " (" +:+ reason +:+ "); handle=" +:+ handle_debug (rc_handle rc))
  end.

Definition quarantine_process_execute (en : Enforce) (scope : Quarantine.FreezeScope) (event : Event)
    (dry_run : bool) : ActionResult :=
  match pid_from_event event with
  | None => (act_skipped "no actor pid available — quarantine_process skipped", [])
  | Some pid =>
      let reason := reason_of (en_reason_prefix en) event in
      let sc := Quarantine.scope_debug scope in
      if dry_run then (act_dry_run ("would freeze pid " +:+ show_int pid +:+ " (" +:+ sc +:+ ")"
                         +:+ terms (en_duration en) (en_authority en) reason), [])
      else ask (FreezeProcess (Quarantine.mkFreezeRequest pid reason (en_duration en) (en_authority en) scope
                 (join ":" [show_int pid; uuid_to_string (ev_id event); tier_debug (en_authority en); sc])))
             "quarantine_process"
             (fun rc => "frozen pid " +:+ show_int pid +:+ " (" +:+ reason +:+ "); handle=" +:+ handle_debug (rc_handle rc))
  end.

Definition session_revocation_execute (en : Enforce) (scope : SessionRevocation.RevocationScope)
    (event : Event) (dry_run : bool) : ActionResult :=
  match sdd067_user_from_event event with
  | None => (act_skipped "no actor.user.name in event — session_revocation skipped", [])
  | Some user =>
      let reason := reason_of (en_reason_prefix en) event in
      let sc := SessionRevocation.scope_debug scope in
      if dry_run then (act_dry_run ("would revoke sessions for " +:+ user +:+ " (" +:+ sc +:+ ")"
                         +:+ terms (en_duration en) (en_authority en) reason), [])
      else ask (RevokeSessions (SessionRevocation.mkRevokeRequest user reason (en_duration en)
                 (en_authority en) scope
                 (join ":" [user; uuid_to_string (ev_id event); tier_debug (en_authority en); sc])))
             "revoke_sessions"
             (fun rc => "revoked sessions for " +:+ user +:+ " (" +:+ reason +:+ "); handle="
                        +:+ handle_debug (rc_handle rc))
  end.

Definition api_token_revocation_execute (en : Enforce) (classes : TokenRevocation.TokenClassMask)
    (event : Event) (dry_run : bool) : ActionResult :=
  match sdd068_principal_from_event event with
  | None => (act_skipped "no actor.user.name in event — api_token_revocation skipped", [])
  | Some principal =>
      let reason := reason_of (en_reason_prefix en) event in
      let sc := TokenRevocation.mask_debug classes in
      if dry_run then (act_dry_run ("would revoke tokens for " +:+ principal +:+ " (" +:+ sc +:+ ")"
                         +:+ terms (en_duration en) (en_authority en) reason), [])
      else ask (RevokeTokens (TokenRevocation.mkTokenRevokeRequest principal reason (en_duration en)
                 (en_authority en) classes
                 (join ":" [principal; uuid_to_string (ev_id event); tier_debug (en_authority en); sc])))
             "api_token_revocation"
             (fun rc => "revoked tokens for " +:+ principal +:+ " (" +:+ reason +:+ "); handle="
                        +:+ handle_debug (rc_handle rc))
  end.

Definition mfa_grant_revocation_execute (en : Enforce) (scope : MfaGrantRevocation.MfaGrantScope)
    (event : Event) (dry_run : bool) : ActionResult :=
  match sdd069_principal_from_event event with
  | None => (act_skipped "no actor.user.name in event — mfa_grant_revocation skipped", [])
  | Some principal =>
      let reason := reason_of (en_reason_prefix en) event in
      let sc := MfaGrantRevocation.scope_debug scope in
      if dry_run then (act_dry_run ("would revoke MFA grants for " +:+ principal +:+ " (" +:+ sc +:+ ")"
                         +:+ terms (en_duration en) (en_authority en) reason), [])
      else ask (RevokeMfaGrants (MfaGrantRevocation.mkMfaGrantRevokeRequest principal reason (en_duration en)
                 (en_authority en) scope
                 (join ":" [principal; uuid_to_string (ev_id event); tier_debug (en_authority en); sc])))
             "mfa_grant_revocation"
             (fun rc => "revoked MFA grants for " +:+ principal +:+ " (" +:+ reason +:+ "); handle="
                        +:+ handle_debug (rc_handle rc))
  end.

Definition netns_isolation_execute (en : Enforce) (scope : NetnsIsolation.IsolationScope) (event : Event)
    (dry_run : bool) : ActionResult :=
  match pid_from_event event with
  | None => (act_skipped "no actor.process.pid in event — netns_isolation skipped", [])
  | Some pid =>
      let reason := reason_of (en_reason_prefix en) event in
      let sc := NetnsIsolation.scope_debug scope in
      if dry_run then (act_dry_run ("would isolate pid " +:+ show_int pid +:+ " (" +:+ sc +:+ ")"
                         +:+ terms (en_duration en) (en_authority en) reason), [])
      else ask (IsolatePid (NetnsIsolation.mkIsolatePidRequest pid reason (en_duration en) (en_authority en) scope
                 (join ":" [show_int pid; uuid_to_string (ev_id event); tier_debug (en_authority en); sc])))
             "netns_isolation"
             (fun rc => "isolated pid " +:+ show_int pid +:+ " (" +:+ reason +:+ "); handle="
                        +:+ handle_debug (rc_handle rc))
  end.

Definition show_bool (b : bool) : string := if b then "true" else "false".

Definition mount_binding_unbind_execute (en : Enforce) (scope : MountUnbind.UnbindScope) (lazy : bool)
    (event : Event) (dry_run : bool) : ActionResult :=
  match sdd071_mount_point_from_event event with
  | None => (act_skipped "no file.path in event — mount_binding_unbind skipped", [])
  | Some mount_point =>
      let reason := reason_of (en_reason_prefix en) event in
      let sc := MountUnbind.scope_debug scope in
      if dry_run then (act_dry_run ("would unbind " +:+ mount_point +:+ " (" +:+ sc +:+ ", lazy="
                         +:+ show_bool lazy +:+ ")" +:+ terms (en_duration en) (en_authority en) reason), [])
      else ask (UnbindMount (MountUnbind.mkUnbindMountRequest mount_point reason (en_duration en)
                 (en_authority en) scope lazy
                 (join ":" [mount_point; uuid_to_string (ev_id event); tier_debug (en_authority en); sc])))
             "mount_binding_unbind"
             (fun rc => "unbound " +:+ mount_point +:+ " (" +:+ reason +:+ "); handle="
                        +:+ handle_debug (rc_handle rc))
  end.

Definition process_tree_freeze_execute (en : Enforce) (scope : TreeFreeze.TreeScope) (include_self : bool)
    (event : Event) (dry_run : bool) : ActionResult :=
  match pid_from_event event with
  | None => (act_skipped "no actor.process.pid in event — process_tree_freeze skipped", [])
  | Some root_pid =>
      let reason := reason_of (en_reason_prefix en) event in
      let sc := TreeFreeze.scope_debug scope in
      if dry_run then (act_dry_run ("would freeze tree root=" +:+ show_int root_pid +:+ " (" +:+ sc
                         +:+ ", include_self=" +:+ show_bool include_self +:+ ")"
                         +:+ terms (en_duration en) (en_authority en) reason), [])
      else ask (FreezeTree (TreeFreeze.mkFreezeTreeRequest root_pid reason (en_duration en) (en_authority en)
                 scope include_self
                 (join ":" [show_int root_pid; uuid_to_string (ev_id event); tier_debug (en_authority en); sc])))
             "process_tree_freeze"
             (fun rc => "froze tree root=" +:+ show_int root_pid +:+ " (" +:+ reason +:+ "); frozen_pid_count="
                        +:+ show_uint (rc_count rc) +:+ "; handle=" +:+ handle_debug (rc_handle rc))
  end.

Definition socket_fd_revocation_execute (en : Enforce) (protocol : FdRevocation.SocketProtocol)
    (expected_inode : option Z) (event : Event) (dry_run : bool) : ActionResult :=
  match sdd073_pid_fd_from_event event with
  | None => (act_skipped "no actor.process.pid + metadata.profiles[socket_fd:N] in event — socket_fd_revocation skipped", [])
  | Some (pid, fd) =>
      let reason := reason_of (en_reason_prefix en) event in
      let sc := FdRevocation.protocol_debug protocol in
      if dry_run then (act_dry_run ("would revoke fd " +:+ show_int fd +:+ " on pid " +:+ show_int pid
                         +:+ " (" +:+ sc +:+ ")" +:+ terms (en_duration en) (en_authority en) reason), [])
      else ask (RevokeFd (FdRevocation.mkRevokeFdRequest pid fd reason (en_duration en) (en_authority en)
                 protocol expected_inode
                 (join ":" [show_int pid; show_int fd; uuid_to_string (ev_id event);
                            tier_debug (en_authority en); sc])))
             "socket_fd_revocation"
             (fun rc => "revoked fd " +:+ show_int fd +:+ " on pid " +:+ show_int pid +:+ " (" +:+ reason
                        +:+ "); handle=" +:+ handle_debug (rc_handle rc))
  end.

Definition process_env_scrub_execute (en : Enforce) (vars : list string) (signal : EnvScrub.ScrubSignal)
    (event : Event) (dry_run : bool) : ActionResult :=
  match pid_from_event event with
  | None => (act_skipped "no actor.process.pid in event — process_env_scrub skipped", [])
  | Some pid =>
      if bool_decide (vars = [])
      then (act_skipped "no vars configured on action — process_env_scrub skipped", [])
      else
        let reason := reason_of (en_reason_prefix en) event in
        let sg := EnvScrub.signal_debug signal in
        if dry_run then (act_dry_run ("would scrub vars " +:+ vec_debug (str_debug <$> vars) +:+ " on pid "
                           +:+ show_int pid +:+ " (signal=" +:+ sg +:+ ")"
                           +:+ terms (en_duration en) (en_authority en) reason), [])
        else ask (ScrubEnv (EnvScrub.mkScrubEnvRequest pid vars reason (en_duration en) (en_authority en) signal
                   (join ":" [show_int pid; uuid_to_string (ev_id event); join "," vars;
                              tier_debug (en_authority en); sg])))
               "process_env_scrub"
               (fun rc => "scrubbed " +:+ show_uint (rc_count rc) +:+ " vars on pid " +:+ show_int pid
                          +:+ " (" +:+ reason +:+ "); handle=" +:+ handle_debug (rc_handle rc))
  end.

Definition capability_drop_execute (en : Enforce) (caps : list string) (scope : CapDrop.CapScope)
    (event : Event) (dry_run : bool) : ActionResult :=
  match pid_from_event event with
  | None => (act_skipped "no actor.process.pid in event — capability_drop skipped", [])
  | Some pid =>
      if bool_decide (caps = [])
      then (act_skipped "no caps configured on action — capability_drop skipped", [])
      else
        match CapDrop.unknown_cap caps with
        | Some c => (Err (ActionExec ("capability_drop: unknown cap name " +:+ str_debug c
                                      +:+ " in action config")), [])
        | None =>
            let reason := reason_of (en_reason_prefix en) event in
            let sc := CapDrop.scope_debug scope in
            if dry_run then (act_dry_run ("would drop caps " +:+ vec_debug (str_debug <$> caps) +:+ " on pid "
                               +:+ show_int pid +:+ " (" +:+ sc +:+ ")"
                               +:+ terms (en_duration en) (en_authority en) reason), [])
            else ask (DropCaps (CapDrop.mkDropCapsRequest pid caps reason (en_duration en) (en_authority en) scope
                       (join ":" [show_int pid; uuid_to_string (ev_id event); join "," caps;
                                  tier_debug (en_authority en); sc])))
                   "capability_drop"
                   (fun rc => "dropped " +:+ show_uint (rc_count rc) +:+ " caps on pid " +:+ show_int pid
                              +:+ " (" +:+ reason +:+ "); handle=" +:+ handle_debug (rc_handle rc))
        end
  end.

(** The loop over the key specs: the error, or the totals and handles; and the
    requests made. *)
Fixpoint evict_keys (en : Enforce) (scope : KeyEviction.EvictionScope) (event : Event) (specs : list string)
    (i : nat) (evicted not_found : Z) (handles : list string) :
    result (Z * Z * list string) ActionError * list Effect :=
  match specs with
  | [] => (Ok (evicted, not_found, handles), [])
  | spec :: specs =>
      let req := EvictKey (KeyEviction.mkEvictKeyRequest spec (reason_of (en_reason_prefix en) event)
        (en_duration en) (en_authority en) scope
        (join ":" [uuid_to_string (ev_id event); tier_debug (en_authority en); spec;
                   KeyEviction.scope_debug scope])) in
      match w_backend w i req with
      | Err e => (Err (ActionExec ("kernel_keyring_eviction backend on spec " +:+ str_debug spec +:+ ": "
                                   +:+ backend_error_display e)), [Requested req])
      | Ok rc =>
          let '(res, effects) := evict_keys en scope event specs (S i) (evicted + rc_count rc)
            (if (rc_count rc =? 0)%Z then not_found + 1 else not_found)
            (handles ++ [handle_debug (rc_handle rc)]) in
          (res, Requested req :: effects)
      end
  end.

Definition kernel_keyring_eviction_execute (en : Enforce) (key_specs : list string)
    (scope : KeyEviction.EvictionScope) (event : Event) (dry_run : bool) : ActionResult :=
  if bool_decide (key_specs = [])
  then (act_skipped "no key_specs configured on action — kernel_keyring_eviction skipped", [])
  else
    let reason := reason_of (en_reason_prefix en) event in
    let n := show_uint (Z.of_nat (length key_specs)) in
    if dry_run then (act_dry_run ("would evict " +:+ n +:+ " key(s) (" +:+ join ", " key_specs +:+ "); "
                                  +:+ reason), [])
    else
      let '(res, effects) := evict_keys en scope event key_specs 0 0 0 [] in
      (match res with
       | Err e => Err e
       | Ok (evicted, not_found, handles) =>
           act_ok ("evicted " +:+ show_uint evicted +:+ " kernel keys across " +:+ n +:+ " spec(s); "
                   +:+ show_uint not_found +:+ " NotFound; handles=" +:+ vec_debug (str_debug <$> handles)
                   +:+ "; reason=" +:+ reason)
       end, effects).

Definition apparmor_profile_pivot_execute (en : Enforce) (target_profile : string)
    (scope : ProfilePivot.PivotScope) (event : Event) (dry_run : bool) : ActionResult :=
  match pid_from_event event with
  | None => (act_skipped "no actor.process.pid in event — apparmor_profile_pivot skipped", [])
  | Some pid =>
      let reason := reason_of (en_reason_prefix en) event in
      let sc := ProfilePivot.scope_debug scope in
      if dry_run then (act_dry_run ("would pivot pid " +:+ show_int pid +:+ " into AppArmor profile "
                         +:+ str_debug target_profile +:+ " (" +:+ sc +:+ ")"
                         +:+ terms (en_duration en) (en_authority en) reason), [])
      else ask (PivotProfile (ProfilePivot.mkPivotProfileRequest pid target_profile reason (en_duration en)
                 (en_authority en) scope
                 (join ":" [show_int pid; uuid_to_string (ev_id event); target_profile;
                            tier_debug (en_authority en); sc])))
             "apparmor_profile_pivot"
             (fun rc => "pivoted pid " +:+ show_int pid +:+ " into AppArmor profile " +:+ str_debug target_profile
                        +:+ " (was " +:+ str_debug (rc_original_profile rc) +:+ "); handle="
                        +:+ handle_debug (rc_handle rc) +:+ "; " +:+ reason)
  end.

(** The client-side checks of the map spec and of the key. *)
Definition check_clear_config (map_spec : string) (scope : MapClear.ClearScope) (key_hex : option string) :
    option ActionError :=
  match MapClear.parse_map_spec map_spec with
  | None => Some (ActionExec ("bpf_map_element_clear: unparseable map spec " +:+ str_debug map_spec
                              +:+ " in action config"))
  | Some _ =>
      match scope, key_hex with
      | MapClear.Element, None =>
          Some (ActionExec "bpf_map_element_clear: element-scope requires key_hex in action config")
      | MapClear.Element, Some key =>
          match MapClear.parse_key_hex key with
          | None => Some (ActionExec ("bpf_map_element_clear: invalid key_hex " +:+ str_debug key
                                      +:+ " in action config"))
          | Some _ => None
          end
      | MapClear.AllElements, Some _ =>
          Some (ActionExec "bpf_map_element_clear: all-scope forbids key_hex in action config")
      | MapClear.AllElements, None => None
      end
  end.

Definition bpf_map_element_clear_execute (en : Enforce) (map_spec : string) (scope : MapClear.ClearScope)
    (key_hex : option string) (event : Event) (dry_run : bool) : ActionResult :=
  match check_clear_config map_spec scope key_hex with
  | Some e => (Err e, [])
  | None =>
      let reason := reason_of (en_reason_prefix en) event in
      let sc := MapClear.scope_debug scope in
      let key := option_debug (str_debug <$> key_hex) in
      if dry_run then (act_dry_run ("would clear BPF map " +:+ str_debug map_spec +:+ " (" +:+ sc +:+ ") key="
                         +:+ key +:+ terms (en_duration en) (en_authority en) reason), [])
      else ask (ClearMap (MapClear.mkClearRequest map_spec scope key_hex reason (en_duration en) (en_authority en)
                 (join ":" [uuid_to_string (ev_id event); map_spec; sc; key; tier_debug (en_authority en)])))
             "bpf_map_element_clear"
             (fun rc => "cleared " +:+ show_uint (rc_count rc) +:+ " BPF map element(s) in " +:+ str_debug map_spec
                        +:+ " (" +:+ sc +:+ "); handle=" +:+ handle_debug (rc_handle rc) +:+ "; " +:+ reason)
  end.

(** ** All actions *)

Inductive Action :=
| NotifyAction
| SnapshotProcAction (snapshot_dir : string)
| KillPidAction
| LockdownEgressAction (script : string)
| RevokeSessionAction (script : string) (excluded_users : gset string)
| ForensicsBundleAction (forensics_dir : string)
| VelociraptorEscalateAction (binary : string) (args : list string)
| BlockIpAction (en : Enforce)
| QuarantineProcessAction (en : Enforce) (scope : Quarantine.FreezeScope)
| SessionRevocationAction (en : Enforce) (scope : SessionRevocation.RevocationScope)
| ApiTokenRevocationAction (en : Enforce) (classes : TokenRevocation.TokenClassMask)
| MfaGrantRevocationAction (en : Enforce) (scope : MfaGrantRevocation.MfaGrantScope)
| NetnsIsolationAction (en : Enforce) (scope : NetnsIsolation.IsolationScope)
| MountBindingUnbindAction (en : Enforce) (scope : MountUnbind.UnbindScope) (lazy : bool)
| ProcessTreeFreezeAction (en : Enforce) (scope : TreeFreeze.TreeScope) (include_self : bool)
| SocketFdRevocationAction (en : Enforce) (protocol : FdRevocation.SocketProtocol) (inode : option Z)
| ProcessEnvScrubAction (en : Enforce) (vars : list string) (signal : EnvScrub.ScrubSignal)
| CapabilityDropAction (en : Enforce) (caps : list string) (scope : CapDrop.CapScope)
| KernelKeyringEvictionAction (en : Enforce) (key_specs : list string) (scope : KeyEviction.EvictionScope)
| ApparmorProfilePivotAction (en : Enforce) (target_profile : string) (scope : ProfilePivot.PivotScope)
| BpfMapElementClearAction (en : Enforce) (map_spec : string) (scope : MapClear.ClearScope)
    (key_hex : option string).

Definition action_name (a : Action) : string :=
  match a with
  | NotifyAction => "notify"
  | SnapshotProcAction _ => "snapshot_proc"
  | KillPidAction => "kill_pid"
  | LockdownEgressAction _ => "lockdown_egress"
  | RevokeSessionAction _ _ => "revoke_session"
  | ForensicsBundleAction _ => "forensics_bundle"
  | VelociraptorEscalateAction _ _ => "velociraptor_escalate"
  | BlockIpAction _ => "block_ip"
  | QuarantineProcessAction _ _ => "quarantine_process"
  | SessionRevocationAction _ _ => "session_revocation"
  | ApiTokenRevocationAction _ _ => "api_token_revocation"
  | MfaGrantRevocationAction _ _ => "mfa_grant_revocation"
  | NetnsIsolationAction _ _ => "netns_isolation"
  | MountBindingUnbindAction _ _ _ => "mount_binding_unbind"
  | ProcessTreeFreezeAction _ _ _ => "process_tree_freeze"
  | SocketFdRevocationAction _ _ _ => "socket_fd_revocation"
  | ProcessEnvScrubAction _ _ _ => "process_env_scrub"
  | CapabilityDropAction _ _ _ => "capability_drop"
  | KernelKeyringEvictionAction _ _ _ => "kernel_keyring_eviction"
  | ApparmorProfilePivotAction _ _ _ => "apparmor_profile_pivot"
  | BpfMapElementClearAction _ _ _ _ => "bpf_map_element_clear"
  end.

Definition execute (a : Action) (event : Event) (dry_run : bool) : ActionResult :=
  match a with
  | NotifyAction => notify_execute event dry_run
  | SnapshotProcAction dir => snapshot_proc_execute dir event dry_run
  | KillPidAction => kill_pid_execute event dry_run
  | LockdownEgressAction script => lockdown_egress_execute script event dry_run
  | RevokeSessionAction script excluded => revoke_session_execute script excluded event dry_run
  | ForensicsBundleAction dir => forensics_bundle_execute dir event dry_run
  | VelociraptorEscalateAction binary args => velociraptor_execute binary args event dry_run
  | BlockIpAction en => block_ip_execute en event dry_run
  | QuarantineProcessAction en scope => quarantine_process_execute en scope event dry_run
  | SessionRevocationAction en scope => session_revocation_execute en scope event dry_run
  | ApiTokenRevocationAction en classes => api_token_revocation_execute en classes event dry_run
  | MfaGrantRevocationAction en scope => mfa_grant_revocation_execute en scope event dry_run
  | NetnsIsolationAction en scope => netns_isolation_execute en scope event dry_run
  | MountBindingUnbindAction en scope lazy => mount_binding_unbind_execute en scope lazy event dry_run
  | ProcessTreeFreezeAction en scope self => process_tree_freeze_execute en scope self event dry_run
  | SocketFdRevocationAction en protocol inode => socket_fd_revocation_execute en protocol inode event dry_run
  | ProcessEnvScrubAction en vars signal => process_env_scrub_execute en vars signal event dry_run
  | CapabilityDropAction en caps scope => capability_drop_execute en caps scope event dry_run
  | KernelKeyringEvictionAction en specs scope => kernel_keyring_eviction_execute en specs scope event dry_run
  | ApparmorProfilePivotAction en profile scope => apparmor_profile_pivot_execute en profile scope event dry_run
  | BpfMapElementClearAction en spec scope key => bpf_map_element_clear_execute en spec scope key event dry_run
  end.
End actions.

(** ** Actions behind the gates *)

(** What the turn of one action reads from outside: the clocks of the gates,
    the host, and, when the deadline expired, how many effects were done. *)
Record Turn := mkTurn {
  tu_dedup_now : Z;
  tu_cap_now : Z;
  tu_done : Z;
  tu_world : World;
  tu_expired : option nat;
}.

Section respond.
Context `{UnicodeTables} `{WireFormat} (cfg : Responder).

Definition attempt_of (a : Action) (event : Event) (t : Turn) : Attempt :=
  mkAttempt (tu_dedup_now t) (tu_cap_now t)
    (match tu_expired t with
     | Some _ => None
     | None => Some (execute (tu_world t) a event (rp_dry_run cfg)).1
     end) (tu_done t).

Definition turn_effects (a : Action) (event : Event) (t : Turn) : list Effect :=
  let effects := (execute (tu_world t) a event (rp_dry_run cfg)).2 in
  match tu_expired t with Some n => take n effects | None => effects end.

(** The loop of [handle_finding] with the actions themselves: the effects on
    the host and the state of the gates. *)
Fixpoint respond (event : Event) (autonomous : bool) (acts : list Action) (turns : list Turn) (s : RespState) :
    list Effect * RespState :=
  match acts, turns with
  | a :: acts, t :: turns =>
      let '(v, s) := handle_action cfg event autonomous (action_name a) (attempt_of a event t) s in
      let '(effects, s) := respond event autonomous acts turns s in
      (match v with Executed _ => turn_effects a event t ++ effects | _ => effects end, s)
  | _, _ => ([], s)
  end.
End respond.
