(* ===== verification/ActionsProps.v ===== *)
(** * Properties of the response actions

    What the actions of Actions can do to the host, alone, behind the gates of
    Responder and in front of the validation of Backends. *)

From S2P Require Import Prelude Core Responder Backends BackendsProps Actions.
From stdpp Require Import options.

#[local] Hint Unfold execute notify_execute snapshot_proc_execute kill_pid_execute lockdown_egress_execute
  revoke_session_execute forensics_bundle_execute velociraptor_execute block_ip_execute
  quarantine_process_execute session_revocation_execute api_token_revocation_execute
  mfa_grant_revocation_execute netns_isolation_execute mount_binding_unbind_execute
  process_tree_freeze_execute socket_fd_revocation_execute process_env_scrub_execute
  capability_drop_execute kernel_keyring_eviction_execute apparmor_profile_pivot_execute
  bpf_map_element_clear_execute run_command ask : selfdef.

(** Case analysis on the guards of an [execute]. *)
Ltac split_guard :=
  match goal with
  | |- context [match ?x with _ => _ end] =>
      lazymatch x with
      | context [match _ with _ => _ end] => fail
      | _ => destruct x eqn:?
      end
  end.

Section facts.
Context `{UnicodeTables} `{WireFormat}.
Implicit Types (w : World) (a : Action) (e : Event).

(** ** Targets *)

Lemma pid_from_event_safe w e pid :
  pid_from_event w e = Some pid -> (0 < pid)%Z /\ pid <> u32_as_i32 (w_own_pid w).
Proof.
  unfold pid_from_event. destruct (match _ ≫= _ with Some _ => _ | None => _ end) as [p|]; [|done].
  destruct (Z.ltb_spec 0 p); [|done]. destruct (Z.eqb_spec p (u32_as_i32 (w_own_pid w))); [done|].
  by intros [= <-].
Qed.

Lemma pid_fd_safe w e pid fd :
  sdd073_pid_fd_from_event w e = Some (pid, fd) -> pid_from_event w e = Some pid.
Proof.
  unfold sdd073_pid_fd_from_event. destruct (pid_from_event w e) as [p|]; [|done]. simpl.
  destruct (find_fd _); [|done]. simpl. by intros [= <- _].
Qed.

(** ** Requests *)

(** The request an action makes, once its target is known. *)
Lemma evict_keys_effects w en scope e specs : forall i n k hs eff,
  eff ∈ (evict_keys w en scope e specs i n k hs).2 ->
  exists spec, spec ∈ specs /\ eff = Requested (EvictKey (KeyEviction.mkEvictKeyRequest spec
    (reason_of (en_reason_prefix en) e) (en_duration en) (en_authority en) scope
    (join ":" [uuid_to_string (ev_id e); tier_debug (en_authority en); spec; KeyEviction.scope_debug scope]))).
Proof.
  induction specs as [|spec specs IH]; intros i n k hs eff; cbn [evict_keys snd].
  - by intros ?%elem_of_nil.
  - destruct (w_backend w i _) as [rc|err]; cbn [snd].
    + destruct (evict_keys _ _ _ _ _ _ _ _ _) as [res effs] eqn:E. cbn [snd].
      intros [->|Hin]%elem_of_cons; [exists spec; by rewrite elem_of_cons; auto|].
      destruct (IH (S i) (n + rc_count rc)%Z (if (rc_count rc =? 0)%Z then (k + 1)%Z else k)
        (hs ++ [handle_debug (rc_handle rc)]) eff) as (sp & Hsp & ->); [by rewrite E|].
      exists sp. rewrite elem_of_cons. auto.
    + intros ->%list_elem_of_singleton. exists spec. rewrite elem_of_cons. auto.
Qed.

Lemma dry_run_facts w w' a e : w_own_pid w = w_own_pid w' ->
  (execute w a e true).2 = [] /\ execute w a e true = execute w' a e true /\
  forall o, (execute w a e true).1 = Ok o -> ao_status o <> ActionStatus.Success.
Proof.
  intros Hpid. assert (Hp : pid_from_event w e = pid_from_event w' e) by (unfold pid_from_event; by rewrite Hpid).
  assert (Hf : sdd073_pid_fd_from_event w e = sdd073_pid_fd_from_event w' e)
    by (unfold sdd073_pid_fd_from_event; by rewrite Hp).
  destruct a; autounfold with selfdef; rewrite <-?Hp, <-?Hf; repeat split_guard; simpl;
    (split; [done|]; split; [done|]; by intros o [= <-]).
Qed.

(** Evidence gathering writes files and starts the fixed tools, nothing else. *)
Definition gathers (eff : Effect) : Prop :=
  match eff with
  | CreatedDir _ | Wrote _ _ => True
  | Spawned p args => (p, args) ∈ [("uname", ["-a"]); ("ss", ["-tnap"]); ("dmesg", ["--ctime"]);
                                   ("journalctl", ["-n"; "2000"; "--no-pager"])]
  | _ => False
  end.

Lemma copies_gather w src dest : Forall gathers (copy_file w src dest) /\ Forall gathers (copy_link w src dest).
Proof. unfold copy_file, copy_link. split; case_match; by repeat constructor. Qed.

Lemma bundle_gathers w dir e : Forall gathers (bundle_steps w dir e ≫= snd).
Proof.
  assert (Hfile : forall d l src dest, Forall gathers (bundle_file w d l src dest).2)
    by (intros; unfold bundle_file; case_match; by repeat constructor).
  assert (Hlink : forall d l src dest, Forall gathers (bundle_link w d l src dest).2)
    by (intros; unfold bundle_link; case_match; by repeat constructor).
  assert (Htool : forall d dest p args keep sfx, gathers (Spawned p args) ->
      Forall gathers (bundle_tool w d dest p args keep sfx).2)
    by (intros; unfold bundle_tool; case_match; repeat first [apply Forall_nil_2|apply Forall_cons_2]; done).
  assert (Hsteps : Forall (fun st => Forall gathers st.2) (bundle_steps w dir e)).
  { unfold bundle_steps, bundle_proc.
    repeat first [case_match|apply Forall_nil_2|apply Forall_cons_2|apply Forall_app_2];
      first [apply Hfile|apply Hlink|apply Htool; set_solver|idtac]; try done;
      unfold bundle_event, bundle_fds; repeat case_match; by repeat constructor. }
  clear -Hsteps. induction Hsteps as [|st l Hst Hl IH]; [constructor|]. rewrite bind_cons. by apply Forall_app_2.
Qed.

Lemma evidence_gathers w a e dry eff :
  (exists d, a = SnapshotProcAction d) \/ (exists d, a = ForensicsBundleAction d) ->
  eff ∈ (execute w a e dry).2 -> gathers eff.
Proof.
  intros Ha Hin. assert (Hall : Forall gathers (execute w a e dry).2); [|by rewrite Forall_forall in Hall; auto].
  destruct Ha as [[d ->]|[d ->]]; autounfold with selfdef; repeat split_guard; simpl; try constructor; try done.
  - repeat first [apply Forall_nil_2|apply Forall_app_2|apply copies_gather].
  - apply Forall_app_2; [apply bundle_gathers|by repeat constructor].
Qed.

(** The target of a request as text. *)
Definition request_target (req : Request) : string :=
  match req with
  | BlockIp r => show_ip (BlockSet.addr r)
  | FreezeProcess r => show_int (Quarantine.pid r)
  | RevokeSessions r => SessionRevocation.user r
  | RevokeTokens r => TokenRevocation.principal r
  | RevokeMfaGrants r => MfaGrantRevocation.principal r
  | IsolatePid r => show_int (NetnsIsolation.pid r)
  | UnbindMount r => MountUnbind.mount_point r
  | FreezeTree r => show_int (TreeFreeze.root_pid r)
  | RevokeFd r => show_int (FdRevocation.pid r) +:+ ":" +:+ show_int (FdRevocation.fd r)
  | ScrubEnv r => show_int (EnvScrub.pid r)
  | DropCaps r => show_int (CapDrop.pid r)
  | EvictKey r => KeyEviction.key_spec r
  | PivotProfile r => show_int (ProfilePivot.pid r)
  | ClearMap r => MapClear.map_spec r
  end.

(** What an action's idempotency keys are made of beside the target and the
    event: the text between event and target when the event comes first, and
    the text after both. *)
Definition key_affixes (a : Action) : option string * string :=
  match a with
  | BlockIpAction en => (None, ":" +:+ tier_debug (en_authority en))
  | QuarantineProcessAction en sc =>
      (None, ":" +:+ join ":" [tier_debug (en_authority en); Quarantine.scope_debug sc])
  | SessionRevocationAction en sc =>
      (None, ":" +:+ join ":" [tier_debug (en_authority en); SessionRevocation.scope_debug sc])
  | ApiTokenRevocationAction en m =>
      (None, ":" +:+ join ":" [tier_debug (en_authority en); TokenRevocation.mask_debug m])
  | MfaGrantRevocationAction en sc =>
      (None, ":" +:+ join ":" [tier_debug (en_authority en); MfaGrantRevocation.scope_debug sc])
  | NetnsIsolationAction en sc =>
      (None, ":" +:+ join ":" [tier_debug (en_authority en); NetnsIsolation.scope_debug sc])
  | MountBindingUnbindAction en sc _ =>
      (None, ":" +:+ join ":" [tier_debug (en_authority en); MountUnbind.scope_debug sc])
  | ProcessTreeFreezeAction en sc _ =>
      (None, ":" +:+ join ":" [tier_debug (en_authority en); TreeFreeze.scope_debug sc])
  | SocketFdRevocationAction en p _ =>
      (None, ":" +:+ join ":" [tier_debug (en_authority en); FdRevocation.protocol_debug p])
  | ProcessEnvScrubAction en vars sg =>
      (None, ":" +:+ join ":" [join "," vars; tier_debug (en_authority en); EnvScrub.signal_debug sg])
  | CapabilityDropAction en caps sc =>
      (None, ":" +:+ join ":" [join "," caps; tier_debug (en_authority en); CapDrop.scope_debug sc])
  | ApparmorProfilePivotAction en p sc =>
      (None, ":" +:+ join ":" [p; tier_debug (en_authority en); ProfilePivot.scope_debug sc])
  | KernelKeyringEvictionAction en _ sc =>
      (Some (":" +:+ tier_debug (en_authority en) +:+ ":"), ":" +:+ KeyEviction.scope_debug sc)
  | BpfMapElementClearAction en _ sc key =>
      (Some ":", ":" +:+ join ":" [MapClear.scope_debug sc; option_debug (str_debug <$> key);
                                   tier_debug (en_authority en)])
  | _ => (None, "")
  end.

(** What every request of an action looks like. *)
Definition request_shape w a e (dry : bool) (req : Request) : Prop :=
  dry = false /\ is_destructive_action (action_name a) = true /\
  (forall pid, request_pid req = Some pid -> pid_from_event w e = Some pid) /\
  let uuid := uuid_to_string (ev_id e) in
  request_key req = match key_affixes a with
                    | (None, suf) => request_target req +:+ ":" +:+ uuid +:+ suf
                    | (Some pre, suf) => uuid +:+ pre +:+ request_target req +:+ suf
                    end.

Lemma request_facts w a e dry req : Requested req ∈ (execute w a e dry).2 -> request_shape w a e dry req.
Proof.
  destruct a; try (intros Hin; exfalso; apply (evidence_gathers w _ e dry (Requested req)) in Hin; [done|by eauto]);
  autounfold with selfdef; repeat split_guard; subst; cbn [snd];
    try (by intros ?%elem_of_nil); try (by intros ?%list_elem_of_singleton).
  all: try (intros Hr%list_elem_of_singleton; injection Hr as ->; split; [done|]; split; [done|]; split;
    [intros p Hp; first [discriminate Hp|injection Hp as <-; eauto using pid_fd_safe]|];
    cbn [request_key request_target key_affixes join]; by rewrite ?str_app_assoc).
  all: intros Hin; match goal with E : evict_keys _ _ _ _ _ _ _ _ _ = (_, ?l) |- _ =>
    apply (f_equal snd) in E; cbn [snd] in E; rewrite <-E in Hin end;
    apply evict_keys_effects in Hin as (spec & _ & [= ->]); split; [done|]; split; [done|]; split; [done|];
    cbn [request_key request_target key_affixes join]; by rewrite ?str_app_assoc.
Qed.

(** ** Arguments of programs *)

Lemma replace_head pat to s (x : ascii) t :
  to <> "" -> replace pat to s = String x t -> (exists u, s = String x u) \/ (exists u, to = String x u).
Proof.
  unfold replace. destruct s as [|b s]; [done|]. cbn [replace_go]. intros Hne.
  case_match; [|intros [= -> _]; eauto].
  destruct to as [|c to]; [done|]. rewrite str_cons_app. intros [= -> _]. eauto.
Qed.

Lemma replace_head_gone pat s (x : ascii) t :
  replace pat "" s = String x t -> (exists u, s = String x u) \/ starts_with s pat = true.
Proof.
  unfold replace. destruct s as [|b s]; [done|]. cbn [replace_go].
  destruct (starts_with (String b s) pat); [by right|]. intros [= -> _]. eauto.
Qed.

Lemma dash_head s : starts_with s "-" = true <-> exists t, s = String "-" t.
Proof. rewrite starts_with_spec. by setoid_rewrite str_cons_app. Qed.

(** ** Behind the gates *)

(** An effect of a dispatch is an effect of an allowed action, run in its own turn,
    whose event passed the trust boundary. *)
Lemma respond_effect cfg e auto eff : forall acts turns s,
  eff ∈ (respond cfg e auto acts turns s).1 ->
  exists i a t, acts !! i = Some a /\ turns !! i = Some t /\ action_name a ∈ rp_allowed_actions cfg /\
    eff ∈ (execute (tu_world t) a e (rp_dry_run cfg)).2 /\
    (auto && negb (rp_act_on_federated cfg) && ev_federated e && negb (ev_federation_verified e)
     && is_destructive_action (action_name a) = false).
Proof.
  induction acts as [|a acts IH]; intros [|t turns] s; cbn [respond fst]; try by intros ?%elem_of_nil.
  destruct (handle_action _ _ _ _ _ _) as [v s'] eqn:Ha.
  destruct (respond _ _ _ acts _ _) as [effs s''] eqn:Hr. cbn [fst]. intros Hin.
  assert (Hcase : (exists r, v = Executed r) /\ eff ∈ turn_effects cfg a e t \/ eff ∈ effs)
    by (destruct v; [..|rewrite elem_of_app in Hin]; naive_solver).
  destruct Hcase as [[[r ->] Heff]|Heff].
  - exists 0, a, t. unfold handle_action in Ha.
    repeat (case_match; simplify_eq). split; [done|]. split; [done|]. split.
    { match goal with Hn : negb (bool_decide _) = false |- _ => by apply negb_false_iff, bool_decide_eq_true in Hn end. }
    split; [|done]. unfold turn_effects in Heff. case_match; [by eapply elem_of_take in Heff as (? & ?%list_elem_of_lookup_2 & _)|done].
  - destruct (IH turns s') as (i & b & u & ? & ? & ? & ? & ?); [by rewrite Hr|]. exists (S i), b, u. auto 10.
Qed.
End facts.

(** ** What the responder can do to the host *)

Section theorems.
Context `{UnicodeTables} `{WireFormat}.

(** A dry run is harmless: no action of a dispatch has any effect on the
    host, and no action reports success, so nothing enters the dedup record. What
    it reports depends on the host only through the daemon's own pid. *)
Theorem dry_run_harmless cfg e auto acts turns s :
  rp_dry_run cfg = true ->
  (respond cfg e auto acts turns s).1 = [] /\
  forall w w' a, w_own_pid w = w_own_pid w' ->
    execute w a e true = execute w' a e true /\
    forall o, (execute w a e true).1 = Ok o -> ao_status o <> ActionStatus.Success.
Proof.
  intros Hdry. split.
  - destruct (respond cfg e auto acts turns s).1 as [|eff effs] eqn:E; [done|]. exfalso.
    destruct (respond_effect cfg e auto eff acts turns s) as (i & a & t & _ & _ & _ & Hin & _);
      [rewrite E; apply elem_of_cons; by left|].
    rewrite Hdry in Hin. destruct (dry_run_facts (tu_world t) (tu_world t) a e eq_refl) as [Hnil _].
    rewrite Hnil in Hin. by apply elem_of_nil in Hin.
  - intros w w' a Hpid. by destruct (dry_run_facts w w' a e Hpid) as (_ & ? & ?).
Qed.

Lemma kill_effect w e dry eff : eff ∈ (execute w KillPidAction e dry).2 ->
  exists pid, eff = Spawned "kill" ["-TERM"; show_int pid] /\ (1 < pid)%Z /\ pid_from_event w e = Some pid.
Proof.
  autounfold with selfdef. destruct (pid_from_event w e) as [pid|] eqn:Hp; [|by intros ?%elem_of_nil].
  destruct (Z.eqb_spec pid 1); [by intros ?%elem_of_nil|]. destruct dry; [by intros ?%elem_of_nil|].
  intros ->%list_elem_of_singleton. exists pid. apply pid_from_event_safe in Hp as Hs. split; [done|]. split; [lia|done].
Qed.

(** *** Aim *)

(** What an event names: its process (of the actor, else its own), its user, its
    source address and its file. *)
Definition event_process (e : Event) : option Z :=
  match ev_actor e ≫= a_process with Some p => Some (p_pid p) | None => p_pid <$> ev_process e end.
Definition event_user (e : Event) : option string := (ev_actor e ≫= a_user) ≫= u_name.
Definition event_source (e : Event) : option IpAddr := ev_src_endpoint e ≫= ep_ip.
Definition event_path (e : Event) : option string := ev_file e ≫= f_path.

(** A process that may be contained: the one the event names, not the daemon itself,
    and neither a process group nor the whole system. *)
Definition containable (own : Z) (e : Event) (pid : Z) : Prop :=
  event_process e = Some pid /\ (0 < pid)%Z /\ pid <> u32_as_i32 own.

(** The requests an action may make for an event. *)
Definition aimed_request (own : Z) (a : Action) (e : Event) (req : Request) : Prop :=
  match a, req with
  | BlockIpAction _, BlockIp r => event_source e = Some (BlockSet.addr r)
  | QuarantineProcessAction _ _, FreezeProcess r => containable own e (Quarantine.pid r)
  | SessionRevocationAction _ _, RevokeSessions r =>
      event_user e = Some (SessionRevocation.user r) /\ SessionRevocation.user r <> ""
  | ApiTokenRevocationAction _ _, RevokeTokens r =>
      event_user e = Some (TokenRevocation.principal r) /\ TokenRevocation.principal r <> ""
  | MfaGrantRevocationAction _ _, RevokeMfaGrants r =>
      event_user e = Some (MfaGrantRevocation.principal r) /\ MfaGrantRevocation.principal r <> ""
  | NetnsIsolationAction _ _, IsolatePid r => containable own e (NetnsIsolation.pid r)
  | MountBindingUnbindAction _ _ _, UnbindMount r =>
      event_path e = Some (MountUnbind.mount_point r) /\ MountUnbind.mount_point r <> ""
  | ProcessTreeFreezeAction _ _ _, FreezeTree r => containable own e (TreeFreeze.root_pid r)
  | SocketFdRevocationAction _ _ _, RevokeFd r => containable own e (FdRevocation.pid r)
  | ProcessEnvScrubAction _ vars _, ScrubEnv r => containable own e (EnvScrub.pid r) /\ EnvScrub.vars r = vars
  | CapabilityDropAction _ caps _, DropCaps r => containable own e (CapDrop.pid r) /\ CapDrop.caps r = caps
  | KernelKeyringEvictionAction _ specs _, EvictKey r => KeyEviction.key_spec r ∈ specs
  | ApparmorProfilePivotAction _ profile _, PivotProfile r =>
      containable own e (ProfilePivot.pid r) /\ ProfilePivot.target_profile r = profile
  | BpfMapElementClearAction _ spec _ _, ClearMap r => MapClear.map_spec r = spec
  | _, _ => False
  end.

(** The effects an action may have on the host for an event. *)
Definition aimed (own : Z) (a : Action) (e : Event) (eff : Effect) : Prop :=
  match a, eff with
  | NotifyAction, Notified e' => e' = e
  | KillPidAction, Spawned program args =>
      exists pid, program = "kill" /\ args = ["-TERM"; show_int pid] /\ containable own e pid /\ pid <> 1%Z
  | LockdownEgressAction script, Spawned program args => program = script /\ args = ["activate"]
  | RevokeSessionAction script excluded, Spawned program args =>
      program = script /\ exists user, args = [user] /\ event_user e = Some user /\ user ∉ excluded
  | VelociraptorEscalateAction binary templates, Spawned program args =>
      program = binary /\ length args = length templates
  | SnapshotProcAction _, eff | ForensicsBundleAction _, eff => gathers eff
  | a, Requested req =>
      is_destructive_action (action_name a) = true /\ aimed_request own a e req /\
      (request_pid req = Some 1%Z -> forall ex, accepts ex req <> Ok tt)
  | _, _ => False
  end.

Lemma pid_containable w e pid : pid_from_event w e = Some pid -> containable (w_own_pid w) e pid.
Proof.
  intros Hp. destruct (pid_from_event_safe w e pid Hp). split; [|done]. unfold event_process. revert Hp. unfold pid_from_event.
  destruct (match _ ≫= _ with Some _ => _ | None => _ end) as [p|]; [|done]. case_match; [|done]. by intros [= ->].
Qed.

Lemma fd_containable w e pid fd : sdd073_pid_fd_from_event w e = Some (pid, fd) -> containable (w_own_pid w) e pid.
Proof. intros Hp. by eapply pid_containable, pid_fd_safe. Qed.

Lemma nonempty_Some o s : nonempty o = Some s -> o = Some s /\ s <> "".
Proof. destruct o as [x|]; [|done]. simpl. case_bool_decide; [done|]. by intros [= ->]. Qed.

Lemma init_refused req : request_pid req = Some 1%Z -> forall ex, accepts ex req <> Ok tt.
Proof.
  intros Hp ex Hok%accepts_ok. unfold authorised in Hok. destruct (request_terms req) as [[[? ?] ?] ?].
  destruct Hok as (_ & _ & Hlt & _). by specialize (Hlt _ Hp).
Qed.

Lemma request_aimed w a e dry req : Requested req ∈ (execute w a e dry).2 -> aimed_request (w_own_pid w) a e req.
Proof.
  destruct a; try (intros Hin; exfalso; apply (evidence_gathers w _ e dry (Requested req)) in Hin; [done|by eauto]);
  autounfold with selfdef; repeat split_guard; subst; cbn [snd];
    try (by intros ?%elem_of_nil); try (by intros ?%list_elem_of_singleton).
  all: try (intros Hr%list_elem_of_singleton; injection Hr as ->; cbn [aimed_request];
    first [done|by eauto using pid_containable, fd_containable|split; [by eauto using pid_containable|done]
      |match goal with E : _ = Some _ |- _ => by apply nonempty_Some in E as [? ?] end]).
  all: intros Hin; match goal with E : evict_keys _ _ _ _ _ _ _ _ _ = (_, ?l) |- _ =>
    apply (f_equal snd) in E; cbn [snd] in E; rewrite <-E in Hin end;
    by apply evict_keys_effects in Hin as (spec & ? & [= ->]).
Qed.

Lemma execute_aimed w a e dry eff : eff ∈ (execute w a e dry).2 -> dry = false /\ aimed (w_own_pid w) a e eff.
Proof.
  intros Hin. split.
  { destruct dry; [|done]. destruct (dry_run_facts w w a e eq_refl) as [Hn _]. rewrite Hn in Hin. by apply elem_of_nil in Hin. }
  destruct eff as [e'|program args|d|f c|req].
  5:{ destruct (request_facts _ _ _ _ _ Hin) as (_ & Hd & _). assert (Hr := request_aimed _ _ _ _ _ Hin).
      destruct a; simpl in Hr; try done; (split; [done|]; split; [exact Hr|apply init_refused]). }
  all: revert Hin; destruct a; try (by intros Hin; eapply evidence_gathers in Hin; [exact Hin|eauto]);
    autounfold with selfdef; repeat split_guard; subst; cbn [snd];
    try (by intros ?%elem_of_nil); try (by intros ?%list_elem_of_singleton);
    try (by intros Heq%list_elem_of_singleton; simplify_eq; cbn [aimed]; rewrite ?length_fmap);
    try (intros Hin; match goal with E : evict_keys _ _ _ _ _ _ _ _ _ = (_, ?l) |- _ =>
      apply (f_equal snd) in E; cbn [snd] in E; rewrite <-E in Hin end;
      by apply evict_keys_effects in Hin as (spec & ? & [= ->])).
  all: intros Heq%list_elem_of_singleton; simplify_eq; cbn [aimed].
  all: try (eexists; split; [done|]; split; [done|]; split; [by apply pid_containable|]; lia).
  all: split; [done|]; first [by unfold render_args; rewrite length_fmap
    |eexists; split; [done|]; split; [done|]; by eapply bool_decide_eq_false].
Qed.

(** C14: Containment is aimed. Every effect that a dispatch has on the host is an effect
    of one of the registered actions, allowed by the operator and run for real in its own
    turn, and is aimed at what the event names. A kill names the process of the event,
    never init, a process group or the daemon itself; a request to a backend is made
    by an action that the rate cap and the dedup count, names the process, the user, the
    source address or the file of the event (keys and maps come from the configuration
    of the action), a process never being the daemon or a group, and init is
    refused by every backend. The scripts get fixed arguments or the user of the
    event, unless protected; everything else notifies of the event or gathers
    evidence. *)
Theorem containment_is_aimed cfg e auto acts turns s eff :
  eff ∈ (respond cfg e auto acts turns s).1 ->
  exists i a t, acts !! i = Some a /\ turns !! i = Some t /\ action_name a ∈ rp_allowed_actions cfg /\
    rp_dry_run cfg = false /\ eff ∈ (execute (tu_world t) a e false).2 /\ aimed (w_own_pid (tu_world t)) a e eff.
Proof.
  intros Hin. destruct (respond_effect cfg e auto eff acts turns s Hin) as (i & a & t & Ha & Ht & Hal & Heff & _).
  destruct (execute_aimed _ _ _ _ _ Heff) as [Hdry Haim]. rewrite Hdry in Heff. by exists i, a, t.
Qed.

Lemma harmless_effects w a e dry eff :
  is_destructive_action (action_name a) = false -> eff ∈ (execute w a e dry).2 ->
  eff = Notified e \/ gathers eff \/
  exists binary args, a = VelociraptorEscalateAction binary args /\ eff = Spawned binary (render_args args e).
Proof.
  intros Hd. destruct a; try (vm_compute in Hd; discriminate Hd); clear Hd.
  - simpl. unfold notify_execute. case_match; [by intros ?%elem_of_nil|]. intros ->%list_elem_of_singleton. by left.
  - intros Hin. right. left. eapply evidence_gathers; [|exact Hin]; eauto.
  - intros Hin. right. left. eapply evidence_gathers; [|exact Hin]; eauto.
  - simpl. unfold velociraptor_execute, run_command. repeat case_match; try by intros ?%elem_of_nil.
    all: intros ->%list_elem_of_singleton; right; right; by eauto.
Qed.

(** C15: An unverified remote finding cannot make the host act: when acting on
    federated findings is off, a dispatch of the bus loop for such an event only
    notifies, gathers evidence with the fixed tools, or starts the escalation
    binary the operator configured. *)
Theorem untrusted_event_only_observes cfg e acts turns s eff :
  rp_act_on_federated cfg = false -> ev_federated e = true -> ev_federation_verified e = false ->
  eff ∈ (respond cfg e true acts turns s).1 ->
  eff = Notified e \/ gathers eff \/
  exists binary args, VelociraptorEscalateAction binary args ∈ acts /\ eff = Spawned binary (render_args args e).
Proof.
  intros Hact Hfed Hver Hin.
  destruct (respond_effect cfg e true eff acts turns s Hin) as (i & a & t & Ha%list_elem_of_lookup_2 & _ & _ & Heff & Hgate).
  rewrite Hact, Hfed, Hver in Hgate. simpl in Hgate.
  destruct (harmless_effects _ _ _ _ _ Hgate Heff) as [?|[?|(b & args & -> & ?)]]; eauto 6.
Qed.

Lemma rendered_option e t :
  starts_with (ev_host_tag e) "-" = false ->
  uuid_to_string (ev_id e) <> "" -> starts_with (uuid_to_string (ev_id e)) "-" = false ->
  let filled := replace "{event_id}" (uuid_to_string (ev_id e)) t in
  starts_with (replace "{host_tag}" (ev_host_tag e) filled) "-" = true ->
  starts_with t "-" = true \/ (ev_host_tag e = "" /\ starts_with filled "{host_tag}" = true).
Proof.
  intros Hh' Hu Hu' filled Hs. apply dash_head in Hs as [r Hr].
  assert (Hf : starts_with filled "-" = true -> starts_with t "-" = true).
  { intros [r' Hr']%dash_head. apply dash_head.
    by apply replace_head in Hr' as [Hr'|Hr']; [..|rewrite (proj2 (dash_head _) Hr') in Hu'|]. }
  destruct (decide (ev_host_tag e = "")) as [E|Hne].
  - rewrite E in *. apply replace_head_gone in Hr as [[r' Hr]|Hr]; [|by right]. left. apply Hf, dash_head. eauto.
  - left. apply replace_head in Hr as [[r' Hr]|Hr]; [|by rewrite (proj2 (dash_head _) Hr) in Hh'|done].
    apply Hf, dash_head. eauto.
Qed.

(** C25: No option injection, as far as it goes. Let the text of an event id not be empty
    nor begin with a dash (a UUID begins with a hexadecimal digit). What the event puts
    on a command line is then not read as an option, with one exception. The revoke
    script gets the user name alone, which has no leading dash and is not a protected
    user; kill gets a positive number; the other programs get fixed arguments; and an
    argument of the escalation binary that starts with a dash comes from a template that
    does, except that an event with an empty host tag, which is not refused, makes one
    of a template that begins with the placeholder of the tag. *)
Theorem arguments_not_injected w a e dry program args :
  uuid_to_string (ev_id e) <> "" -> starts_with (uuid_to_string (ev_id e)) "-" = false ->
  Spawned program args ∈ (execute w a e dry).2 ->
  match a with
  | RevokeSessionAction script excluded =>
      program = script /\ exists user, user_from_event e = Some user /\ args = [user] /\
        starts_with user "-" = false /\ user ∉ excluded
  | VelociraptorEscalateAction binary templates =>
      program = binary /\
      Forall2 (fun t arg => starts_with arg "-" = true -> starts_with t "-" = true \/
          (ev_host_tag e = "" /\ starts_with (replace "{event_id}" (uuid_to_string (ev_id e)) t) "{host_tag}" = true))
        templates args
  | KillPidAction => program = "kill" /\ exists pid, args = ["-TERM"; show_int pid] /\ (1 < pid)%Z
  | LockdownEgressAction script => program = script /\ args = ["activate"]
  | _ => gathers (Spawned program args)
  end.
Proof.
  intros Hu Hu'.
  destruct a; try (by intros Hin; apply evidence_gathers in Hin; [exact Hin|by eauto]).
  2: { intros Hin. destruct (kill_effect _ _ _ _ Hin) as (pid & [= -> ->] & Hgt & _). eauto. }
  all: autounfold with selfdef; repeat split_guard; cbn [snd]; try (by intros ?%elem_of_nil);
    try (by intros Heq%list_elem_of_singleton; simplify_eq).
  all: intros Hin.
  1-3: apply list_elem_of_singleton in Hin; simplify_eq; split; [done|]; eexists; split; [done|]; split; [done|];
    split; [done|]; by eapply bool_decide_eq_false.
  1-3: apply list_elem_of_singleton in Hin; simplify_eq; split; [done|];
    apply Forall2_fmap_r, Forall_Forall2_diag, Forall_true; intros t Ht; by apply (rendered_option e).
  all: subst; match goal with E : evict_keys _ _ _ _ _ _ _ _ _ = _ |- _ =>
    apply (f_equal snd) in E; cbn [snd] in E; rewrite <-E in Hin end;
    by apply evict_keys_effects in Hin as (? & _ & ?).
Qed.

(** An event without a host tag turns the template [{host_tag}-x] into an option. *)
Theorem empty_host_tag_injects w binary e : ev_host_tag e = "" ->
  (execute w (VelociraptorEscalateAction binary ["{host_tag}-x"]) e false).2 = [Spawned binary ["-x"]].
Proof.
  intros E. simpl. unfold velociraptor_execute, run_command, render_args. rewrite E. simpl.
  change (replace "{event_id}" (uuid_to_string (ev_id e)) "{host_tag}-x") with "{host_tag}-x". done.
Qed.

(** Idempotency keys identify the work: two requests of one configured
    action carry the same key only when they come from events with the same id
    text and name the same target. A backend that answers a repeated key from
    memory never drops a request for another target or another finding. The
    texts of event ids have one length. *)
Theorem idempotency_keys_identify w1 w2 a e1 e2 dry1 dry2 req1 req2 :
  (forall u v, String.length (uuid_to_string u) = String.length (uuid_to_string v)) ->
  Requested req1 ∈ (execute w1 a e1 dry1).2 -> Requested req2 ∈ (execute w2 a e2 dry2).2 ->
  request_key req1 = request_key req2 ->
  uuid_to_string (ev_id e1) = uuid_to_string (ev_id e2) /\ request_target req1 = request_target req2.
Proof.
  intros Hlen (_ & _ & _ & K1)%request_facts (_ & _ & _ & K2)%request_facts. rewrite K1, K2. clear K1 K2.
  destruct (key_affixes a) as [[pre|] suf].
  - intros [Hu Hk]%str_app_inj_pre; [|apply Hlen]. split; [done|].
    apply str_app_inj_pre in Hk as [_ Hk]; [|done]. by apply str_app_inj_len in Hk as [? _].
  - intros [Ht Hk]%str_app_inj_len; [|by rewrite !str_length_app, (Hlen (ev_id e1) (ev_id e2))].
    split; [|done]. apply str_app_inj_pre in Hk as [_ Hk]; [|done]. by apply str_app_inj_len in Hk as [? _].
Qed.

(** ** The dedup key and the actions' targets *)

(** Two events that differ at most in the file and in the profiles. *)
Definition same_actor (e1 e2 : Event) : Prop :=
  ev_actor e1 = ev_actor e2 /\ ev_process e1 = ev_process e2 /\ ev_src_endpoint e1 = ev_src_endpoint e2.

(** Burst dedup conflates mounts and sockets: the dedup key is made of pid,
    source address and user, so once an action has succeeded for one event, the
    same action for another mount point, or another socket, of the same actor is
    suppressed for the whole window, although its target is a different one. *)
Theorem dedup_conflates_targets cfg s0 s1 e1 e2 a t1 t2 :
  same_actor e1 e2 ->
  is_destructive_action (action_name a) = true -> action_name a ∈ rp_allowed_actions cfg ->
  rp_act_on_federated cfg = true ->
  handle_action cfg e1 true (action_name a) (attempt_of cfg a e1 t1) s0
    = (Executed (at_result (attempt_of cfg a e1 t1)), s1) ->
  (exists o, at_result (attempt_of cfg a e1 t1) = Some (Ok o) /\ ao_status o = ActionStatus.Success) ->
  (0 <= tu_dedup_now t2 - tu_done t1 < rp_dedup_window cfg)%Z ->
  (handle_action cfg e2 true (action_name a) (attempt_of cfg a e2 t2) s1).1 = SuppressedDedup.
Proof.
  intros (Ha & Hp & Hs) Hd Hal Hfed H1 (o & Hr & Ho) Hw.
  assert (Hsig : event_target_sig e2 = event_target_sig e1) by (unfold event_target_sig; by rewrite Ha, Hp, Hs).
  assert (Hrec : rs_recent_fires s1 !! (action_name a +:+ "|" +:+ event_target_sig e1) = Some (tu_done t1)).
  { revert H1. unfold handle_action. rewrite bool_decide_true, Hfed by done. simpl.
    unfold dedup_gate. rewrite Hd. destruct (Z.eqb_spec (rp_dedup_window cfg) 0); [lia|]. simpl.
    case_bool_decide; [done|]. case_match. case_match; [|done]. intros [= <-].
    unfold commit. rewrite Hr, bool_decide_true by done. simpl. by rewrite lookup_insert_eq. }
  unfold handle_action. rewrite bool_decide_true, Hfed by done. simpl. unfold dedup_gate. rewrite Hd, Hsig.
  destruct (Z.eqb_spec (rp_dedup_window cfg) 0); [lia|]. simpl.
  rewrite bool_decide_true; [done|]. exists (tu_done t1). apply map_lookup_filter_Some. split; [done|].
  simpl. unfold duration_since. lia.
Qed.

(** ** The kept end of a log *)

Lemma concat_split c s : str_concat (split_inclusive c s) = s.
Proof.
  induction s as [|x s IH]; [done|]. cbn [split_inclusive]. case_bool_decide.
  - cbn [str_concat]. by rewrite IH, str_cons_app.
  - destruct (split_inclusive c s) as [|h t]; cbn [str_concat] in *; rewrite str_cons_app; by rewrite <-IH.
Qed.

Lemma split_rest c s h t : split_inclusive c s = h :: t -> split_inclusive c (str_concat t) = t.
Proof.
  revert h t. induction s as [|x s IH]; intros h t; [done|]. cbn [split_inclusive]. case_bool_decide.
  - intros [= <- <-]. by rewrite concat_split.
  - destruct (split_inclusive c s) as [|h' t'] eqn:E; intros [= <- <-]; [done|]. by eapply IH.
Qed.

Lemma split_drop c k : forall s, split_inclusive c (str_concat (drop k (split_inclusive c s)))
  = drop k (split_inclusive c s).
Proof.
  induction k as [|k IH]; intros s; [by rewrite drop_0, concat_split|].
  destruct (split_inclusive c s) as [|h t] eqn:E; [done|]. cbn [drop].
  rewrite <-(split_rest c s h t E). apply IH.
Qed.

(** The kept end of a log is its end: for valid UTF-8, [tail_lines] returns
    a suffix of the text made of its last [n] lines, terminators included, or of
    all of them when there are fewer; other bytes are kept whole. *)
Theorem tail_lines_keeps_last bytes n :
  0 < n ->
  let lines := split_inclusive "010" bytes in
  if utf8_valid bytes then
    bytes = str_concat (take (length lines - n) lines) +:+ tail_lines bytes n /\
    length (split_inclusive "010" (tail_lines bytes n)) = Nat.min n (length lines) /\
    exists before, lines = before ++ split_inclusive "010" (tail_lines bytes n)
  else tail_lines bytes n = bytes.
Proof.
  intros Hn lines. unfold tail_lines. rewrite bool_decide_false by lia.
  destruct (utf8_valid bytes); [|done]. cbn [negb]. fold lines. split; [|split].
  - rewrite <-str_concat_app, take_drop. unfold lines. by rewrite concat_split.
  - unfold lines. rewrite split_drop, length_drop. lia.
  - exists (take (length lines - n) lines). unfold lines. by rewrite split_drop, take_drop.
Qed.
End theorems.

(** ** Concrete inputs *)

Module ActionsWitnesses.

#[local] Instance no_unicode : UnicodeTables :=
  {| uc_alphanumeric := fun _ => false; uc_uppercase := fun c => c; uc_debug_plain := fun _ => true |}.

(** A 32-digit text for an id. *)
Fixpoint hex_text (k : nat) (u : Z) : string :=
  match k with 0 => "" | S k => String (hex_digit ((u / 16 ^ Z.of_nat k) `mod` 16)) (hex_text k u) end.

#[local] Instance wire : WireFormat :=
  {| uuid_to_string := hex_text 32; rfc3339_format := fun _ => None; json_to_string := fun _ => "" |}.

Lemma uuid_length u v : String.length (uuid_to_string u) = String.length (uuid_to_string v).
Proof. done. Qed.

Definition host : World :=
  mkWorld 900 (fun _ => Ok tt) (fun _ _ => Ok (mkOutput true (Some 0%Z) "" "")) (fun _ => Ok tt)
    (fun _ => Ok "x") (fun _ _ => Ok tt) (fun _ => Err "no link") (fun _ => None) (fun _ => Ok "{}")
    (fun _ req => Ok (mkReceipt (Active (request_key req)) 1 "unconfined")).

Definition en : Enforce := mkEnforce AuthorityTier.Responder (from_secs 60) "selfdef".

Definition cfg (dry fed : bool) : Responder := {|
  rp_actions := []; rp_allowed_actions := {["notify"; "kill_pid"; "quarantine_process"; "mount_binding_unbind"]};
  rp_dry_run := dry; rp_min_severity := SeverityId.Medium; rp_action_deadline := from_secs 60;
  rp_dedup_window := from_secs 30; rp_destructive_cap_per_min := 0; rp_act_on_federated := fed |}.

Definition s0 : RespState := (responder_new [] [] false).2.

Definition finding (federated : bool) (id : Z) (path : string) : Event :=
  with_file (mkFile None (Some path) None None [] None None None None)
    (with_federated federated
      (with_process (mkProcess 7 None None None None None None None)
        (event_new (mkStamp id 2 3) DETECTION_FINDING 1 SeverityId.High "web-1" "selfdef.correlator.r" 1))).

Definition turn (n : Z) : Turn := mkTurn (from_secs n) (from_secs n) (from_secs n) host None.

Definition acts : list Action := [NotifyAction; KillPidAction; QuarantineProcessAction en Quarantine.Process].
Definition freeze : Request :=
  FreezeProcess (Quarantine.mkFreezeRequest 7 (reason_of "selfdef" (finding false 1 "/mnt/a")) (from_secs 60)
    AuthorityTier.Responder Quarantine.Process
    (join ":" ["7"; uuid_to_string 1; "Responder"; "Process"])).

Example acts_effects :
  (respond (cfg false true) (finding false 1 "/mnt/a") true acts [turn 1; turn 2; turn 3] s0).1
  = [Notified (finding false 1 "/mnt/a"); Spawned "kill" ["-TERM"; "7"]; Requested freeze].
Proof. vm_compute. reflexivity. Qed.

Lemma dry_run_harmless_witness :
  (respond (cfg true true) (finding false 1 "/mnt/a") true acts [turn 1; turn 2; turn 3] s0).1 = [].
Proof. apply (dry_run_harmless (cfg true true)). reflexivity. Defined.

Lemma containment_is_aimed_witness :
  exists i a t, acts !! i = Some a /\ [turn 1; turn 2; turn 3] !! i = Some t /\
    action_name a ∈ rp_allowed_actions (cfg false true) /\ rp_dry_run (cfg false true) = false /\
    Requested freeze ∈ (execute (tu_world t) a (finding false 1 "/mnt/a") false).2 /\
    aimed (w_own_pid (tu_world t)) a (finding false 1 "/mnt/a") (Requested freeze).
Proof.
  apply (containment_is_aimed (cfg false true) (finding false 1 "/mnt/a") true acts [turn 1; turn 2; turn 3] s0).
  rewrite acts_effects. rewrite !elem_of_cons. auto.
Defined.

Lemma untrusted_event_only_observes_witness :
  let e := finding true 1 "/mnt/a" in
  Notified e = Notified e \/ gathers (Notified e) \/
  exists binary args, VelociraptorEscalateAction binary args ∈ acts /\ Notified e = Spawned binary (render_args args e).
Proof.
  apply (untrusted_event_only_observes (cfg false false) _ acts [turn 1; turn 2; turn 3] s0); [reflexivity..|].
  vm_compute. left.
Defined.

Lemma arguments_not_injected_witness :
  "/bin/velo" = "/bin/velo" /\
  Forall2 (fun t arg => starts_with arg "-" = true -> starts_with t "-" = true \/
      ("web-1" = "" /\ starts_with (replace "{event_id}" (uuid_to_string 1) t) "{host_tag}" = true))
    ["--host"; "{host_tag}-{event_id}"] ["--host"; "web-1-" +:+ uuid_to_string 1].
Proof.
  apply (arguments_not_injected host (VelociraptorEscalateAction "/bin/velo" ["--host"; "{host_tag}-{event_id}"])
    (finding false 1 "/mnt/a") false); [done|vm_compute; reflexivity|vm_compute; left].
Defined.

Definition unbind : Action := MountBindingUnbindAction en MountUnbind.Bind false.
Definition unbind_request (id : Z) (path : string) : Request :=
  UnbindMount (MountUnbind.mkUnbindMountRequest path (reason_of "selfdef" (finding false id path)) (from_secs 60)
    AuthorityTier.Responder MountUnbind.Bind false
    (join ":" [path; uuid_to_string id; "Responder"; "Bind"])).

Lemma idempotency_keys_identify_witness :
  request_target (unbind_request 1 "/mnt/a") = request_target (unbind_request 1 "/mnt/a").
Proof.
  apply (idempotency_keys_identify host host unbind (finding false 1 "/mnt/a") (finding false 1 "/mnt/a") false false
    (unbind_request 1 "/mnt/a") (unbind_request 1 "/mnt/a") uuid_length); [left|left|reflexivity].
Defined.

Lemma dedup_conflates_targets_witness :
  sdd071_mount_point_from_event (finding false 1 "/mnt/a") <> sdd071_mount_point_from_event (finding false 2 "/mnt/b") /\
  (handle_action (cfg false true) (finding false 2 "/mnt/b") true "mount_binding_unbind"
    (attempt_of (cfg false true) unbind (finding false 2 "/mnt/b") (turn 20))
    (handle_action (cfg false true) (finding false 1 "/mnt/a") true "mount_binding_unbind"
      (attempt_of (cfg false true) unbind (finding false 1 "/mnt/a") (turn 10)) s0).2).1 = SuppressedDedup.
Proof.
  split; [done|].
  apply (dedup_conflates_targets (cfg false true) s0 _ (finding false 1 "/mnt/a") (finding false 2 "/mnt/b")
    unbind (turn 10) (turn 20)).
  - done.
  - reflexivity.
  - set_solver.
  - reflexivity.
  - vm_compute. reflexivity.
  - eexists. split; vm_compute; reflexivity.
  - vm_compute. split; [discriminate|reflexivity].
Defined.

Lemma tail_lines_keeps_last_witness :
  let bytes := "a" +:+ newline +:+ "b" +:+ newline +:+ "c" in
  tail_lines bytes 2 = "b" +:+ newline +:+ "c" /\
  bytes = "a" +:+ newline +:+ tail_lines bytes 2.
Proof.
  split; [vm_compute; reflexivity|].
  apply (tail_lines_keeps_last ("a" +:+ newline +:+ "b" +:+ newline +:+ "c") 2). lia.
Defined.
End ActionsWitnesses.
