(* ===== verification/Journal.v ===== *)
(** * The state journals of the enforcement backends

    Models the stores of the enforcement crates (crates/selfdef-*-backend/src/
    lib.rs): the [InMemoryBackend] and the [FsBackend] each of them has. The
    thirteen crates repeat the same store over different requests: [Journaled]
    names what a store does with a request before it takes its mutex, with one
    instance per store. This file has the store and the instances of
    process-quarantine, session-revocation, api-token-revocation,
    mfa-grant-revocation and netns-isolation; the other instances, whose requests
    have more outcomes, and the block set, which has a store of its own, are in
    JournalKinds.

    An [FsBackend] keeps a map of active effects and a map of effects pending a
    decision in memory, and writes both to two files. The maps change under a
    mutex; the snapshot taken there is written after the mutex is released, so
    the two are separate steps here ([lock] and [persist]). Files are a map from
    path to content; what each write meets is an input. *)

From S2P Require Import Prelude Core Backends.
From stdpp Require Import options.

(** ** Requests as a journal sees them *)

(** What a store has worked out about an accepted request when it takes its
    mutex: that there is nothing to enforce, with the handle that says why, or
    what to keep of it in the active and in the pending entry. Both carry what
    the receipt reports besides the handle and the count. *)
Inductive Plan (Act Pend Rcpt : Type) :=
| Skip (handle : Handle) (receipt : Rcpt)
| Enter (active : Act) (pending : Pend) (receipt : Rcpt).
Arguments Skip {_ _ _}.
Arguments Enter {_ _ _}.

Class Journaled (Req Act Pend Rcpt : Type) := {
  jr_key : Req -> string;
  jr_reason : Req -> string;
  jr_duration : Req -> Z;
  jr_authority : Req -> AuthorityTier.t;
  jr_plan : Req -> result (Plan Act Pend Rcpt) BackendError;
  jr_pending_file : string;
}.

(** A store that keeps the same of a request in both entries and reports
    nothing else. *)
Definition enter {A} (check : result unit BackendError) (entry : A) : result (Plan A A unit) BackendError :=
  let? _ := check in Ok (Enter entry entry tt).

Definition quarantine_journal :
  Journaled Quarantine.FreezeRequest (Z * Quarantine.FreezeScope) (Z * Quarantine.FreezeScope) unit := {|
  jr_key := Quarantine.idempotency_key; jr_reason := Quarantine.reason; jr_duration := Quarantine.duration;
  jr_authority := Quarantine.authority;
  jr_plan := fun req => enter (Quarantine.validate req) (Quarantine.pid req, Quarantine.scope req);
  jr_pending_file := "pending-releases.json" |}.
#[export] Existing Instance quarantine_journal.

Definition session_plan (check : result unit BackendError) (req : SessionRevocation.RevokeRequest) :=
  enter check (SessionRevocation.user req, SessionRevocation.scope req).

(** The file-backed session journal has no exclusion list. *)
Definition session_journal :
  Journaled SessionRevocation.RevokeRequest (string * SessionRevocation.RevocationScope)
    (string * SessionRevocation.RevocationScope) unit := {|
  jr_key := SessionRevocation.idempotency_key; jr_reason := SessionRevocation.reason;
  jr_duration := SessionRevocation.duration; jr_authority := SessionRevocation.authority;
  jr_plan := fun req => session_plan (SessionRevocation.validate req) req;
  jr_pending_file := "pending-restores.json" |}.
#[export] Existing Instance session_journal.

(** The in-memory session store has one. *)
Definition session_mem_journal (excluded : gset string) :
  Journaled SessionRevocation.RevokeRequest (string * SessionRevocation.RevocationScope)
    (string * SessionRevocation.RevocationScope) unit := {|
  jr_key := SessionRevocation.idempotency_key; jr_reason := SessionRevocation.reason;
  jr_duration := SessionRevocation.duration; jr_authority := SessionRevocation.authority;
  jr_plan := fun req => session_plan (SessionRevocation.accept excluded req) req;
  jr_pending_file := "pending-restores.json" |}.

Definition token_journal (excluded : gset string) :
  Journaled TokenRevocation.TokenRevokeRequest (string * TokenRevocation.TokenClassMask)
    (string * TokenRevocation.TokenClassMask) unit := {|
  jr_key := TokenRevocation.idempotency_key; jr_reason := TokenRevocation.reason;
  jr_duration := TokenRevocation.duration; jr_authority := TokenRevocation.authority;
  jr_plan := fun req => enter (TokenRevocation.accept excluded req)
                              (TokenRevocation.principal req, TokenRevocation.token_classes req);
  jr_pending_file := "pending-restores.json" |}.

Definition mfa_journal (excluded : gset string) :
  Journaled MfaGrantRevocation.MfaGrantRevokeRequest (string * MfaGrantRevocation.MfaGrantScope)
    (string * MfaGrantRevocation.MfaGrantScope) unit := {|
  jr_key := MfaGrantRevocation.idempotency_key; jr_reason := MfaGrantRevocation.reason;
  jr_duration := MfaGrantRevocation.duration; jr_authority := MfaGrantRevocation.authority;
  jr_plan := fun req => enter (MfaGrantRevocation.accept excluded req)
                              (MfaGrantRevocation.principal req, MfaGrantRevocation.grant_scope req);
  jr_pending_file := "pending-restores.json" |}.

Definition netns_journal :
  Journaled NetnsIsolation.IsolatePidRequest (Z * NetnsIsolation.IsolationScope)
    (Z * NetnsIsolation.IsolationScope) unit := {|
  jr_key := NetnsIsolation.idempotency_key; jr_reason := NetnsIsolation.reason;
  jr_duration := NetnsIsolation.duration; jr_authority := NetnsIsolation.authority;
  jr_plan := fun req => enter (NetnsIsolation.validate req) (NetnsIsolation.pid req, NetnsIsolation.scope req);
  jr_pending_file := "pending-releases.json" |}.
#[export] Existing Instance netns_journal.

(** ** State *)

(** The fields all crates have; [ae_rest] and [pe_rest] are those that differ. *)
Record ActiveEntry (Act : Type) := mkActiveEntry {
  ae_handle : Handle;
  ae_original_reason : string;
  ae_original_authority : AuthorityTier.t;
  ae_rest : Act;
}.
Arguments mkActiveEntry {_}.
Arguments ae_handle {_}.
Arguments ae_original_reason {_}.
Arguments ae_original_authority {_}.
Arguments ae_rest {_}.

Record PendingEntry (Pend : Type) := mkPendingEntry {
  pe_handle : Handle;
  pe_original_authority : AuthorityTier.t;
  pe_original_reason : string;
  pe_seconds_remaining : Z;
  pe_rest : Pend;
}.
Arguments mkPendingEntry {_}.
Arguments pe_handle {_}.
Arguments pe_seconds_remaining {_}.
Arguments pe_rest {_}.

Record FsState (Act Pend : Type) := mkFsState {
  fs_active : gmap string (ActiveEntry Act);
  fs_pending : gmap string (PendingEntry Pend);
}.
Arguments mkFsState {_ _}.
Arguments fs_active {_ _}.
Arguments fs_pending {_ _}.

Definition handle_key (h : Handle) : string := (handle_parts h).2.
Definition active_key {Act} (e : ActiveEntry Act) : string := handle_key (ae_handle e).
Definition pending_key {Pend} (p : PendingEntry Pend) : string := handle_key (pe_handle p).

Abbreviation Files := (gmap string string).

(** Both files live in one directory, and a request with nothing to enforce is
    answered with a handle of its own key that is not [Active]. *)
Class JournaledLaws Req Act Pend Rcpt `{!Journaled Req Act Pend Rcpt} : Prop := {
  jr_pending_name : exists t, jr_pending_file = String "p" t;
  jr_skip_handle : forall req h r, jr_plan req = Ok (Skip h r) ->
    handle_key h = jr_key req /\ h <> Active (jr_key req);
}.

Ltac solve_journal_laws :=
  split; [by eexists|]; intros req h r; cbn; unfold session_plan, enter, result_bind; intros Hplan;
  repeat (case_match; simplify_eq/=); try (split; [done|discriminate]).

#[export] Instance quarantine_journal_laws : JournaledLaws Quarantine.FreezeRequest _ _ _.
Proof. solve_journal_laws. Qed.
#[export] Instance session_journal_laws : JournaledLaws SessionRevocation.RevokeRequest _ _ _.
Proof. solve_journal_laws. Qed.
#[export] Instance token_journal_laws ex : @JournaledLaws _ _ _ _ (token_journal ex).
Proof. solve_journal_laws. Qed.
#[export] Instance mfa_journal_laws ex : @JournaledLaws _ _ _ _ (mfa_journal ex).
Proof. solve_journal_laws. Qed.
#[export] Instance netns_journal_laws : JournaledLaws NetnsIsolation.IsolatePidRequest _ _ _.
Proof. solve_journal_laws. Qed.

(** [serde_json] on the two vectors, and the order in which a [HashMap] yields
    its values. *)
Class Codec (Act Pend : Type) := {
  enc_active : list (ActiveEntry Act) -> result string string;
  dec_active : string -> option (list (ActiveEntry Act));
  enc_pending : list (PendingEntry Pend) -> result string string;
  dec_pending : string -> option (list (PendingEntry Pend));
  active_values : gmap string (ActiveEntry Act) -> list (ActiveEntry Act);
  pending_values : gmap string (PendingEntry Pend) -> list (PendingEntry Pend);
}.

(** What the stores rely on: what was written is read back, and [values] yields
    each value once. *)
Class CodecLaws (Act Pend : Type) `{!Codec Act Pend} : Prop := {
  dec_enc_active : forall l b, enc_active l = Ok b -> dec_active b = Some l;
  dec_enc_pending : forall l b, enc_pending l = Ok b -> dec_pending b = Some l;
  active_values_perm : forall m, active_values m ≡ₚ (map_to_list m).*2;
  pending_values_perm : forall m, pending_values m ≡ₚ (map_to_list m).*2;
}.

(** ** Files *)

(** How far a [write_atomic] gets. *)
Inductive WriteOutcome :=
| CreateFails (e : string)
| WriteFails (partial e : string)
| SyncFails (e : string)
| RenameFails (removed : bool) (e : string)
| Written.

Record WriteStep := mkWriteStep {
  ws_pid : Z;
  ws_nanos : Z;
  ws_outcome : WriteOutcome;
}.

Definition tmp_path (dir name : string) (w : WriteStep) : string :=
  path_join dir (name +:+ ".tmp." +:+ show_uint (ws_pid w) +:+ "." +:+ show_uint (ws_nanos w)).

Definition write_atomic (dir name bytes : string) (w : WriteStep) (files : Files) :
    result unit BackendError * Files :=
  let tmp := tmp_path dir name w in
  let target := path_join dir name in
  match ws_outcome w with
  | CreateFails e => (Err (BackendUnreachable ("create " +:+ tmp +:+ ": " +:+ e)), files)
  | WriteFails partial e => (Err (BackendUnreachable ("write " +:+ tmp +:+ ": " +:+ e)), <[tmp := partial]> files)
  | SyncFails e => (Err (BackendUnreachable ("fsync " +:+ tmp +:+ ": " +:+ e)), <[tmp := bytes]> files)
  | RenameFails removed e =>
      (Err (BackendUnreachable ("rename " +:+ tmp +:+ " -> " +:+ target +:+ ": " +:+ e)),
       if removed then delete tmp files else <[tmp := bytes]> files)
  | Written => (Ok tt, <[target := bytes]> (delete tmp files))
  end.

(** ** The file-backed store *)

Section store.
Context {Req Act Pend Rcpt : Type} `{!Journaled Req Act Pend Rcpt} `{!Codec Act Pend}.
Implicit Types (s : FsState Act Pend) (req : Req).

Definition unreachable (what : string) (e : string) : BackendError := BackendUnreachable (what +:+ ": " +:+ e).

Definition map_error {A} (f : string -> BackendError) (r : result A string) : result A BackendError :=
  match r with Ok x => Ok x | Err e => Err (f e) end.

(** [Mutex] sections. Each returns the new state, which is also the snapshot. *)
Definition enforce_locked (req : Req) (act : Act) (pend : Pend) s : Handle * nat * FsState Act Pend :=
  let key := jr_key req in
  let entry := default (mkActiveEntry (Active key) (jr_reason req) (jr_authority req) act) (fs_active s !! key) in
  let handle := ae_handle entry in
  let active := <[key := entry]> (fs_active s) in
  let pending :=
    match handle with
    | Active k =>
        if bool_decide (jr_authority req = AuthorityTier.Responder)
        then <[k := mkPendingEntry handle (jr_authority req) (jr_reason req) (as_secs (jr_duration req)) pend]>
               (fs_pending s)
        else fs_pending s
    | _ => fs_pending s
    end in
  (handle, size active, mkFsState active pending).

Definition release_locked (handle : Handle) s : bool * FsState Act Pend :=
  let key := handle_key handle in
  (bool_decide (is_Some (fs_active s !! key)),
   mkFsState (delete key (fs_active s)) (delete key (fs_pending s))).

Definition decide_locked (handle : Handle) s : bool * FsState Act Pend :=
  let key := handle_key handle in
  (bool_decide (is_Some (fs_pending s !! key)), mkFsState (fs_active s) (delete key (fs_pending s))).

(** [persist]: the two files, the active effects first. *)
Definition persist (dir : string) s (w1 w2 : WriteStep) (files : Files) : result unit BackendError * Files :=
  match map_error (unreachable "serialize active") (enc_active (active_values (fs_active s))) with
  | Err e => (Err e, files)
  | Ok active_bytes =>
      match write_atomic dir "active.json" active_bytes w1 files with
      | (Err e, files) => (Err e, files)
      | (Ok _, files) =>
          match map_error (unreachable "serialize pending") (enc_pending (pending_values (fs_pending s))) with
          | Err e => (Err e, files)
          | Ok pending_bytes => write_atomic dir jr_pending_file pending_bytes w2 files
          end
      end
  end.

(** Loading: an absent or malformed file is an empty map. *)
Definition load_active (files : Files) (path : string) : gmap string (ActiveEntry Act) :=
  match files !! path ≫= dec_active with
  | Some vec => foldl (fun m e => <[active_key e := e]> m) ∅ vec
  | None => ∅
  end.

Definition load_pending (files : Files) (path : string) : gmap string (PendingEntry Pend) :=
  match files !! path ≫= dec_pending with
  | Some vec => foldl (fun m p => <[pending_key p := p]> m) ∅ vec
  | None => ∅
  end.

Definition open (dir : string) (create : result unit string) (files : Files) :
    result (FsState Act Pend) BackendError :=
  let? _ := map_error (unreachable ("create_dir_all " +:+ dir)) create in
  Ok (mkFsState (load_active files (path_join dir "active.json"))
                (load_pending files (path_join dir jr_pending_file))).

(** The operations, run without interruption. *)
Definition fs_enforce (dir : string) (req : Req) (w1 w2 : WriteStep) (s : FsState Act Pend) (files : Files) :
    result (Handle * nat * Rcpt) BackendError * FsState Act Pend * Files :=
  match jr_plan req with
  | Err e => (Err e, s, files)
  | Ok (Skip handle receipt) => (Ok (handle, size (fs_active s), receipt), s, files)
  | Ok (Enter act pend receipt) =>
      let '(handle, active_count, s) := enforce_locked req act pend s in
      match persist dir s w1 w2 files with
      | (Err e, files) => (Err e, s, files)
      | (Ok _, files) => (Ok (handle, active_count, receipt), s, files)
      end
  end.

Definition fs_release (dir : string) (handle : Handle) (w1 w2 : WriteStep) (s : FsState Act Pend) (files : Files) :
    result bool BackendError * FsState Act Pend * Files :=
  let '(released, s) := release_locked handle s in
  match persist dir s w1 w2 files with
  | (Err e, files) => (Err e, s, files)
  | (Ok _, files) => (Ok released, s, files)
  end.

Definition fs_decide (dir : string) (handle : Handle) (w1 w2 : WriteStep) (s : FsState Act Pend) (files : Files) :
    bool * FsState Act Pend * Files :=
  let '(removed, s) := decide_locked handle s in
  if removed then (removed, s, (persist dir s w1 w2 files).2) else (removed, s, files).

Definition pending_le (p q : PendingEntry Pend) : Prop :=
  (pe_seconds_remaining p <= pe_seconds_remaining q)%Z.
#[global] Instance pending_le_dec : RelDecision pending_le.
Proof. unfold pending_le. solve_decision. Defined.

Definition pending_list s : list (PendingEntry Pend) := merge_sort pending_le (pending_values (fs_pending s)).

(** ** The in-memory store *)

(** The in-memory stores of quarantine and of sessions also note the target of
    each handle in a third map, which nothing reads. *)
Record MemState := mkMemState {
  ms_active : gmap string Handle;
  ms_pending : gmap string (PendingEntry Pend);
}.

Definition mem_enforce (req : Req) (m : MemState) : result (Handle * nat * Rcpt) BackendError * MemState :=
  match jr_plan req with
  | Err e => (Err e, m)
  | Ok (Skip handle receipt) => (Ok (handle, size (ms_active m), receipt), m)
  | Ok (Enter _ pend receipt) =>
      let key := jr_key req in
      let handle := default (Active key) (ms_active m !! key) in
      let active := <[key := handle]> (ms_active m) in
      let pending :=
        match handle with
        | Active k =>
            if bool_decide (jr_authority req = AuthorityTier.Responder)
            then <[k := mkPendingEntry handle (jr_authority req) (jr_reason req) (as_secs (jr_duration req)) pend]>
                   (ms_pending m)
            else ms_pending m
        | _ => ms_pending m
        end in
      (Ok (handle, size active, receipt), mkMemState active pending)
  end.

Definition mem_release (handle : Handle) (m : MemState) : bool * MemState :=
  let key := handle_key handle in
  (bool_decide (is_Some (ms_active m !! key)), mkMemState (delete key (ms_active m)) (delete key (ms_pending m))).

Definition mem_decide (handle : Handle) (m : MemState) : bool * MemState :=
  let key := handle_key handle in
  (bool_decide (is_Some (ms_pending m !! key)), mkMemState (ms_active m) (delete key (ms_pending m))).

(** ** Concurrent callers *)

Inductive Op :=
| OpEnforce (req : Req)
| OpRelease (handle : Handle)
| OpDecide (handle : Handle).

(** The locked section of an operation: whether it goes on to persist, and the
    new state, which it will persist. *)
Definition lock (op : Op) s : bool * FsState Act Pend :=
  match op with
  | OpEnforce req =>
      match jr_plan req with
      | Ok (Enter act pend _) => (true, (enforce_locked req act pend s).2)
      | Ok (Skip _ _) | Err _ => (false, s)
      end
  | OpRelease handle => (true, (release_locked handle s).2)
  | OpDecide handle => decide_locked handle s
  end.

(** The memory, the files, and the snapshots taken but not yet written. *)
Record Sys := mkSys {
  sy_mem : FsState Act Pend;
  sy_files : Files;
  sy_flight : list (FsState Act Pend);
}.

Inductive jstep (dir : string) : Sys -> Sys -> Prop :=
| step_lock op mem files flight go mem' :
    lock op mem = (go, mem') ->
    jstep dir (mkSys mem files flight) (mkSys mem' files (if go then flight ++ [mem'] else flight))
| step_persist mem files l1 snapshot l2 w1 w2 r files' :
    persist dir snapshot w1 w2 files = (r, files') ->
    jstep dir (mkSys mem files (l1 ++ snapshot :: l2)) (mkSys mem files' (l1 ++ l2)).
End store.
