(* ===== verification/JournalKinds.v ===== *)
(** * The remaining enforcement stores

    Instances of [Journaled] for the crates whose requests can end without
    anything to enforce or whose receipts report more: mount-binding-unbind,
    process-tree-freeze, socket-fd-revocation, process-env-scrub,
    capability-drop, kernel-keyring-eviction, apparmor-profile-pivot and
    bpf-map-element-clear. What their stores are told about the target (how many
    variables matched, the inode behind a descriptor, ...) is a field each store
    is built with, here an argument of the instance.

    Then blockset (crates/selfdef-blockset-backend/src/lib.rs), whose store keeps
    the two address families apart, with its nftables adapter. *)

From S2P Require Import Prelude Core Backends Journal Actions.
From stdpp Require Import options.

(** ** selfdef-mount-binding-unbind-backend *)

Module Mounts.
Import MountUnbind.

Record Entry := mkEntry { e_mount_point : string; e_scope : UnbindScope; e_lazy : bool }.
Record Pending := mkPending { p_mount_point : string; p_scope : UnbindScope }.

Definition journal `{UnicodeTables} : Journaled UnbindMountRequest Entry Pending unit := {|
  jr_key := idempotency_key; jr_reason := reason; jr_duration := duration; jr_authority := authority;
  jr_plan := fun req =>
    let? _ := validate req in
    Ok (Enter (mkEntry (mount_point req) (scope req) (lazy req)) (mkPending (mount_point req) (scope req)) tt);
  jr_pending_file := "pending-rebinds.json" |}.
End Mounts.

(** ** selfdef-process-tree-freeze-backend *)

Module Trees.
Import TreeFreeze.

Record Entry := mkEntry {
  e_root_pid : Z; e_scope : TreeScope; e_include_self : bool; e_frozen_pid_count : nat }.
Record Pending := mkPending { p_root_pid : Z; p_scope : TreeScope; p_frozen_pid_count : nat }.

Definition journal (frozen_pid_count : nat) : Journaled FreezeTreeRequest Entry Pending nat := {|
  jr_key := idempotency_key; jr_reason := reason; jr_duration := duration; jr_authority := authority;
  jr_plan := fun req =>
    let? _ := validate req in
    Ok (Enter (mkEntry (root_pid req) (scope req) (include_self req) frozen_pid_count)
              (mkPending (root_pid req) (scope req) frozen_pid_count) frozen_pid_count);
  jr_pending_file := "pending-thaws.json" |}.
End Trees.

(** ** selfdef-socket-fd-revocation-backend *)

Module Fds.
Import FdRevocation.

Record Entry := mkEntry { e_pid : Z; e_fd : Z; e_protocol : SocketProtocol; e_expected_inode : option Z }.
Record Pending := mkPending { p_pid : Z; p_fd : Z; p_protocol : SocketProtocol }.

(** The descriptor was reused since the finding. *)
Definition stale (expected current : option Z) : bool :=
  match expected, current with
  | Some exp, Some curr => negb (exp =? curr)%Z
  | _, _ => false
  end.

Definition journal (current_inode : option Z) : Journaled RevokeFdRequest Entry Pending unit := {|
  jr_key := idempotency_key; jr_reason := reason; jr_duration := duration; jr_authority := authority;
  jr_plan := fun req =>
    let? _ := validate req in
    if stale (expected_inode req) current_inode then Ok (Skip (Stale (idempotency_key req)) tt)
    else Ok (Enter (mkEntry (pid req) (fd req) (protocol req) (expected_inode req))
                   (mkPending (pid req) (fd req) (protocol req)) tt);
  jr_pending_file := "pending-restores.json" |}.
End Fds.

(** ** selfdef-process-env-scrub-backend *)

Module Envs.
Import EnvScrub.

Record Entry := mkEntry { e_pid : Z; e_vars : list string; e_signal : ScrubSignal; e_vars_scrubbed : nat }.

Definition journal `{UnicodeTables} (vars_matched : option nat) : Journaled ScrubEnvRequest Entry Entry nat := {|
  jr_key := idempotency_key; jr_reason := reason; jr_duration := duration; jr_authority := authority;
  jr_plan := fun req =>
    let? _ := validate req in
    let vars_scrubbed := default (length (vars req)) vars_matched in
    if Nat.eqb vars_scrubbed 0 then Ok (Skip (NoMatch (idempotency_key req)) 0)
    else let entry := mkEntry (pid req) (vars req) (signal req) vars_scrubbed in
         Ok (Enter entry entry vars_scrubbed);
  jr_pending_file := "pending-restores.json" |}.
End Envs.

(** ** selfdef-capability-drop-backend *)

Module Caps.
Import CapDrop.

Record Entry := mkEntry { e_pid : Z; e_caps : list string; e_scope : CapScope; e_caps_dropped : nat }.

Definition journal `{UnicodeTables} (caps_held : option nat) : Journaled DropCapsRequest Entry Entry nat := {|
  jr_key := idempotency_key; jr_reason := reason; jr_duration := duration; jr_authority := authority;
  jr_plan := fun req =>
    let? _ := validate req in
    let caps_dropped := default (length (caps req)) caps_held in
    if Nat.eqb caps_dropped 0 then Ok (Skip (Redundant (idempotency_key req)) 0)
    else let entry := mkEntry (pid req) (caps req) (scope req) caps_dropped in
         Ok (Enter entry entry caps_dropped);
  jr_pending_file := "pending-restores.json" |}.
End Caps.

(** ** selfdef-kernel-keyring-eviction-backend *)

Module Keys.
Import KeyEviction.

Record Entry := mkEntry { e_key_spec : string; e_key_type : string; e_scope : EvictionScope; e_keys_evicted : nat }.

Definition journal (evicted : option nat) : Journaled EvictKeyRequest Entry Entry nat := {|
  jr_key := idempotency_key; jr_reason := reason; jr_duration := duration; jr_authority := authority;
  jr_plan := fun req =>
    let? parsed := validate req in
    let keys_evicted := default 1 evicted in
    if Nat.eqb keys_evicted 0 then Ok (Skip (NotFound (idempotency_key req)) 0)
    else let entry := mkEntry (key_spec req) (fst parsed) (scope req) keys_evicted in
         Ok (Enter entry entry keys_evicted);
  jr_pending_file := "pending-restores.json" |}.
End Keys.

(** ** selfdef-apparmor-profile-pivot-backend *)

Module Pivots.
Import ProfilePivot.

Inductive ForcedHandleKind := ForceNoTarget | ForceDenied | ForceStale.

Definition forced_handle (kind : ForcedHandleKind) (key : string) : Handle :=
  match kind with ForceNoTarget => NoTarget key | ForceDenied => Denied key | ForceStale => Stale key end.

Record Entry := mkEntry { e_pid : Z; e_target_profile : string; e_original_profile : string; e_scope : PivotScope }.
Record Pending := mkPending {
  p_pid : Z; p_target_profile : string; p_original_profile : string; p_scope : PivotScope;
  p_requires_process_restart : bool }.

(** The in-memory store; the file-backed one has no forced outcomes. *)
Definition mem_journal (original_profile : string) (forced : option ForcedHandleKind) :
  Journaled PivotProfileRequest Entry Pending string := {|
  jr_key := idempotency_key; jr_reason := reason; jr_duration := duration; jr_authority := authority;
  jr_plan := fun req =>
    let? _ := validate req in
    match forced with
    | Some kind => Ok (Skip (forced_handle kind (idempotency_key req)) original_profile)
    | None => Ok (Enter (mkEntry (pid req) (target_profile req) original_profile (scope req))
                        (mkPending (pid req) (target_profile req) original_profile (scope req) true)
                        original_profile)
    end;
  jr_pending_file := "pending-restores.json" |}.

Definition journal (original_profile : string) := mem_journal original_profile None.
End Pivots.

(** ** selfdef-bpf-map-element-clear-backend *)

Module Clears.
Import MapClear.

Inductive ForcedHandleKind :=
| ForceMapNotFound | ForceAmbiguousName | ForceKeySizeMismatch | ForceKeyNotFound | ForceBpfMapAccessDenied.

Definition forced_handle (kind : ForcedHandleKind) (key : string) : Handle :=
  match kind with
  | ForceMapNotFound => MapNotFound key
  | ForceAmbiguousName => AmbiguousName key
  | ForceKeySizeMismatch => KeySizeMismatch key
  | ForceKeyNotFound => KeyNotFound key
  | ForceBpfMapAccessDenied => BpfMapAccessDenied key
  end.

Record Entry := mkEntry {
  e_map_spec : string; e_map_spec_kind : MapSpecKind; e_scope : ClearScope; e_key_hex : option string;
  e_elements_cleared : nat }.
Record Pending := mkPending { p_entry : Entry; p_requires_owning_program_repopulation : bool }.

Definition default_cleared (sc : ClearScope) : nat := match sc with Element => 1 | AllElements => 0 end.

(** The in-memory store; the file-backed one has no forced outcomes. *)
Definition mem_journal (cleared : option nat) (forced : option ForcedHandleKind) :
  Journaled ClearRequest Entry Pending (nat * MapSpecKind) := {|
  jr_key := idempotency_key; jr_reason := reason; jr_duration := duration; jr_authority := authority;
  jr_plan := fun req =>
    let? kind := validate req in
    let elements_cleared := default (default_cleared (scope req)) cleared in
    match forced with
    | Some fkind => Ok (Skip (forced_handle fkind (idempotency_key req)) (0, kind))
    | None =>
        let entry := mkEntry (map_spec req) kind (scope req) (key_hex req) elements_cleared in
        Ok (Enter entry (mkPending entry true) (elements_cleared, kind))
    end;
  jr_pending_file := "pending-restores.json" |}.

Definition journal (cleared : option nat) := mem_journal cleared None.
End Clears.

#[export] Instance mounts_laws `{UnicodeTables} : @JournaledLaws _ _ _ _ Mounts.journal.
Proof. solve_journal_laws. Qed.
#[export] Instance trees_laws n : @JournaledLaws _ _ _ _ (Trees.journal n).
Proof. solve_journal_laws. Qed.
#[export] Instance fds_laws i : @JournaledLaws _ _ _ _ (Fds.journal i).
Proof. solve_journal_laws. Qed.
#[export] Instance envs_laws `{UnicodeTables} n : @JournaledLaws _ _ _ _ (Envs.journal n).
Proof. solve_journal_laws. Qed.
#[export] Instance caps_laws `{UnicodeTables} n : @JournaledLaws _ _ _ _ (Caps.journal n).
Proof. solve_journal_laws. Qed.
#[export] Instance keys_laws n : @JournaledLaws _ _ _ _ (Keys.journal n).
Proof. solve_journal_laws. Qed.
#[export] Instance pivots_laws p forced : @JournaledLaws _ _ _ _ (Pivots.mem_journal p forced).
Proof. destruct forced as [[]|]; solve_journal_laws. Qed.
#[export] Instance clears_laws n forced : @JournaledLaws _ _ _ _ (Clears.mem_journal n forced).
Proof. destruct forced as [[]|]; solve_journal_laws. Qed.

(** ** selfdef-blockset-backend *)

Module Blocks.
Import BlockSet.

(** A [PendingExtension] has the fields of the other pending entries and the
    address. *)
Record State := mkState {
  v4 : gmap string Handle;
  v6 : gmap string Handle;
  handle_addr : gmap string IpAddr;
  pending : gmap string (PendingEntry IpAddr);
}.

Definition empty : State := mkState ∅ ∅ ∅ ∅.

Definition or_active (key : string) (set : gmap string Handle) : Handle := default (Active key) (set !! key).

(** The set of the address's family gets the key; [handle_addr] remembers the
    address under the handle. *)
Definition block_ip (req : BlockIpRequest) (s : State) : result (Handle * nat * nat) BackendError * State :=
  match validate req with
  | Err e => (Err e, s)
  | Ok _ =>
      let key := idempotency_key req in
      let handle := match addr req with V4 _ => or_active key (v4 s) | V6 _ => or_active key (v6 s) end in
      let v4' := match addr req with V4 _ => <[key := handle]> (v4 s) | V6 _ => v4 s end in
      let v6' := match addr req with V4 _ => v6 s | V6 _ => <[key := handle]> (v6 s) end in
      let k := handle_key handle in
      let pending' :=
        if bool_decide (authority req = AuthorityTier.Responder)
        then <[k := mkPendingEntry handle (authority req) (reason req) (as_secs (duration req)) (addr req)]> (pending s)
        else pending s in
      (Ok (handle, size v4', size v6'), mkState v4' v6' (<[k := addr req]> (handle_addr s)) pending')
  end.

Definition unblock_ip (handle : Handle) (s : State) : bool * State :=
  let key := handle_key handle in
  let addrs := delete key (handle_addr s) in
  let pend := delete key (pending s) in
  match handle_addr s !! key with
  | Some (V4 _) => (bool_decide (is_Some (v4 s !! key)), mkState (delete key (v4 s)) (v6 s) addrs pend)
  | Some (V6 _) => (bool_decide (is_Some (v6 s !! key)), mkState (v4 s) (delete key (v6 s)) addrs pend)
  | None => (false, mkState (v4 s) (v6 s) addrs pend)
  end.

(** [values] is the order in which the map yields its values. *)
Definition pending_extensions (values : gmap string (PendingEntry IpAddr) -> list (PendingEntry IpAddr))
    (s : State) : list (PendingEntry IpAddr) :=
  merge_sort pending_le (values (pending s)).

Definition mark_extension_decided (handle : Handle) (s : State) : bool * State :=
  let key := handle_key handle in
  (bool_decide (is_Some (pending s !! key)), mkState (v4 s) (v6 s) (handle_addr s) (delete key (pending s))).

(** The nftables adapter. [spawn] is the outcome of [Command::output]. *)
Definition nft_bootstrap_script : string := join newline
  ["add table inet selfdef-blocks";
   "add set inet selfdef-blocks v4 { type ipv4_addr; flags timeout; }";
   "add set inet selfdef-blocks v6 { type ipv6_addr; flags timeout; }";
   "add chain inet selfdef-blocks enforce { type filter hook input priority -100; policy accept; }";
   "add rule inet selfdef-blocks enforce ip saddr @v4 drop";
   "add rule inet selfdef-blocks enforce ip6 saddr @v6 drop";
   ""].

(** What the child of [ensure_table] meets. *)
Inductive Child :=
| SpawnFails (e : string)
| ScriptFails (e : string)
| WaitFails (e : string)
| Finished (out : Output).

(** The command is started with its arguments and its standard input. *)
Definition ensure_table (nft_path : string) (run : string -> list string -> string -> Child) :
    result unit BackendError :=
  match run nft_path ["-f"; "-"] nft_bootstrap_script with
  | SpawnFails e => Err (BackendUnreachable ("spawn nft -f -: " +:+ e))
  | ScriptFails e => Err (BackendUnreachable ("write nft script: " +:+ e))
  | WaitFails e => Err (BackendUnreachable ("wait nft: " +:+ e))
  | Finished out => if o_success out then Ok tt else Err (BackendUnreachable (o_stderr out))
  end.

(** The commands started, and the receipt. *)
Definition nft_block_ip (nft_path : string) (spawn : string -> list string -> result Output string)
    (req : BlockIpRequest) : list (string * list string) * result (Handle * nat * nat) BackendError :=
  match validate req with
  | Err e => ([], Err e)
  | Ok _ =>
      let args := nft_add_element_args req in
      ([(nft_path, args)],
       match spawn nft_path args with
       | Err e => Err (BackendUnreachable e)
       | Ok out =>
           if o_success out then Ok (Active (idempotency_key req), 0, 0)
           else Err (BackendUnreachable (o_stderr out))
       end)
  end.

Definition nft_unblock_ip (handle : Handle) : list (string * list string) * result bool BackendError :=
  ([], Ok false).
End Blocks.
