(* ===== verification/JournalProps.v ===== *)
(** * Properties of the state journals

    The file-backed store behaves like the in-memory one, survives restarts and
    crashes, and keeps its two maps consistent; its writes outside the mutex can
    undo each other. *)

From S2P Require Import Prelude Core Backends Journal.
From stdpp Require Import options.

(** ** Collecting a map from its values *)

Section collect.
Context {V : Type} (h : V -> string).

Definition keyed (m : gmap string V) : Prop := forall k v, m !! k = Some v -> h v = k.

Lemma foldl_insert_map l (m : gmap string V) :
  foldl (fun m v => <[h v := v]> m) m l = list_to_map (reverse ((fun v => (h v, v)) <$> l)) ∪ m.
Proof.
  revert m. induction l as [|v l IH]; intros m; cbn [foldl].
  - by rewrite fmap_nil, reverse_nil, list_to_map_nil, map_empty_union.
  - rewrite IH, fmap_cons, reverse_cons, list_to_map_app, list_to_map_cons, list_to_map_nil, <-map_union_assoc.
    f_equal. by rewrite <-insert_union_l, map_empty_union.
Qed.

Lemma keyed_pairs m : keyed m -> (fun v => (h v, v)) <$> (map_to_list m).*2 = map_to_list m.
Proof.
  intros Hk. rewrite <-list_fmap_compose. rewrite <-(list_fmap_id (map_to_list m)) at 2.
  apply list_fmap_ext. intros i [k v] Hi. simpl. apply list_elem_of_lookup_2, elem_of_map_to_list in Hi.
  by rewrite (Hk _ _ Hi).
Qed.

Lemma collect_values (m : gmap string V) l :
  keyed m -> l ≡ₚ (map_to_list m).*2 -> foldl (fun m v => <[h v := v]> m) (∅ : gmap string V) l = m.
Proof.
  intros Hk Hl. rewrite foldl_insert_map, map_union_empty. etrans; [|apply list_to_map_to_list].
  symmetry. apply list_to_map_proper; [apply NoDup_fst_map_to_list|].
  rewrite reverse_Permutation, Hl. by rewrite keyed_pairs.
Qed.

Lemma keyed_collected l (m : gmap string V) : keyed m -> keyed (foldl (fun m v => <[h v := v]> m) m l).
Proof.
  revert m. induction l as [|v l IH]; intros m Hm; [done|]. apply IH.
  intros k u. rewrite lookup_insert_Some. intros [[<- <-]|[_ ?]]; [done|by apply Hm].
Qed.
End collect.

(** ** Invariant *)

Section props.
Context {Req Act Pend Rcpt : Type} `{!Journaled Req Act Pend Rcpt}.
Implicit Types (s : FsState Act Pend) (req : Req).

(** Entries sit under their own handle. *)
Definition state_wf s : Prop := keyed active_key (fs_active s) /\ keyed pending_key (fs_pending s).

(** Whatever waits for a decision is in force. *)
Definition covered s : Prop := dom (fs_pending s) ⊆ dom (fs_active s).

Lemma keyed_insert {V} (h : V -> string) m v : keyed h m -> keyed h (<[h v := v]> m).
Proof. intros Hm k u. rewrite lookup_insert_Some. intros [[<- <-]|[_ ?]]; [done|by apply Hm]. Qed.

Lemma keyed_delete {V} (h : V -> string) m k : keyed h m -> keyed h (delete k m).
Proof. intros Hm j u. rewrite lookup_delete_Some. intros [_ ?]. by apply Hm. Qed.

(** The handle of an enforced request carries its key. *)
Lemma enforce_handle req act pend s : state_wf s -> handle_key (enforce_locked req act pend s).1.1 = jr_key req.
Proof.
  intros [Ha _]. unfold enforce_locked. simpl. destruct (fs_active s !! jr_key req) as [e|] eqn:E; simpl; [|done].
  by apply Ha.
Qed.

(** The pending decisions after a request: the old ones, or a new one under the
    key of the request. *)
Lemma enforce_pending req act pend s : state_wf s ->
  let '(h, _, s') := enforce_locked req act pend s in
  fs_pending s' = fs_pending s \/
  h = Active (jr_key req) /\ jr_authority req = AuthorityTier.Responder /\
  fs_pending s' = <[jr_key req := mkPendingEntry h (jr_authority req) (jr_reason req)
                                   (as_secs (jr_duration req)) pend]> (fs_pending s).
Proof.
  intros Hwf. pose proof (enforce_handle req act pend s Hwf) as Hh. unfold enforce_locked in *. cbn in *.
  destruct (ae_handle _) as [k| | | | | | | | | | | |]; try (by left). cbn in Hh. subst k.
  case_bool_decide; [by right|by left].
Qed.

Lemma enforce_wf req act pend s : state_wf s -> state_wf (enforce_locked req act pend s).2.
Proof.
  intros Hwf. pose proof (enforce_handle req act pend s Hwf) as Hh. pose proof (enforce_pending req act pend s Hwf) as Hp'.
  destruct Hwf as [Ha Hp]. split.
  - unfold enforce_locked in *. cbn in *. intros k e. rewrite lookup_insert_Some.
    intros [[<- <-]|[_ ?]]; [done|by apply Ha].
  - destruct (enforce_locked req act pend s) as [[h n] s']. cbn [fst snd] in *.
    destruct Hp' as [->|(-> & _ & ->)]; [done|]. intros k e. rewrite lookup_insert_Some.
    intros [[<- <-]|[_ ?]]; [done|by apply Hp].
Qed.

Lemma enforce_covered req act pend s : state_wf s -> covered s -> covered (enforce_locked req act pend s).2.
Proof.
  intros Hwf Hc. pose proof (enforce_pending req act pend s Hwf) as Hp.
  assert (Ha : dom (fs_active (enforce_locked req act pend s).2) = {[jr_key req]} ∪ dom (fs_active s))
    by (cbn; by rewrite dom_insert_L).
  unfold covered in *. rewrite Ha. destruct (enforce_locked req act pend s) as [[h n] s']. cbn [snd].
  destruct Hp as [->|(_ & _ & ->)]; [set_solver|]. rewrite dom_insert_L. set_solver.
Qed.

(** Repeating a request changes nothing that is in force. *)
Lemma enforce_again req act pend act' pend' s :
  let '(h, n, s1) := enforce_locked req act pend s in
  let '(h', n', s2) := enforce_locked req act' pend' s1 in
  h' = h /\ n' = n /\ fs_active s2 = fs_active s1.
Proof.
  unfold enforce_locked. cbn. rewrite lookup_insert_eq. cbn.
  rewrite insert_insert_eq. done.
Qed.

Lemma release_wf handle s : state_wf s -> state_wf (release_locked handle s).2.
Proof. intros [Ha Hp]. split; by apply keyed_delete. Qed.
Lemma decide_wf handle s : state_wf s -> state_wf (decide_locked handle s).2.
Proof. intros [Ha Hp]. split; [done|by apply keyed_delete]. Qed.

(** ** Files *)

Context `{!JournaledLaws Req Act Pend Rcpt} `{!Codec Act Pend} `{!CodecLaws Act Pend}.
#[local] Set Default Proof Using "Type*".


Lemma tmp_path_ne dir name w : tmp_path dir name w <> path_join dir name.
Proof.
  unfold tmp_path. intros Heq%path_join_inj. apply (f_equal String.length) in Heq.
  rewrite str_length_app in Heq. simpl in Heq. lia.
Qed.

Lemma tmp_path_other dir name other w x y t u :
  name = String x t -> other = String y u -> x <> y ->
  tmp_path dir name w <> path_join dir other /\ path_join dir name <> path_join dir other.
Proof.
  intros -> -> Hne. split; [unfold tmp_path|]; intros Heq%path_join_inj; rewrite ?str_cons_app in Heq; congruence.
Qed.

Lemma write_target dir name bytes w files :
  (write_atomic dir name bytes w files).2 !! path_join dir name =
  match (write_atomic dir name bytes w files).1 with Ok _ => Some bytes | Err _ => files !! path_join dir name end.
Proof.
  pose proof (tmp_path_ne dir name w) as Hne. unfold write_atomic.
  destruct (ws_outcome w) as [| | |[]|]; cbn [fst snd];
    rewrite ?lookup_insert_eq, ?(lookup_insert_ne _ (tmp_path dir name w)), ?lookup_delete_ne by done; done.
Qed.

Lemma write_other dir name other bytes w files x y t u :
  name = String x t -> other = String y u -> x <> y ->
  (write_atomic dir name bytes w files).2 !! path_join dir other = files !! path_join dir other.
Proof.
  intros Hn Ho Hxy. destruct (tmp_path_other dir name other w x y t u Hn Ho Hxy) as [H1 H2]. unfold write_atomic.
  destruct (ws_outcome w) as [| | |[]|]; cbn [snd];
    rewrite ?(lookup_insert_ne _ (path_join dir name)), ?(lookup_insert_ne _ (tmp_path dir name w)),
      ?lookup_delete_ne by done; done.
Qed.

(** What a reader of the files sees. *)
Definition seen (dir : string) (files : Files) : FsState Act Pend :=
  mkFsState (load_active files (path_join dir "active.json")) (load_pending files (path_join dir jr_pending_file)).

Lemma load_active_written files path m b :
  keyed active_key m -> enc_active (active_values m) = Ok b -> files !! path = Some b -> load_active files path = m.
Proof.
  intros Hk Hb Hf. unfold load_active. rewrite Hf. simpl. rewrite (dec_enc_active _ _ Hb).
  apply collect_values; [done|apply active_values_perm].
Qed.

Lemma load_pending_written files path m b :
  keyed pending_key m -> enc_pending (pending_values m) = Ok b -> files !! path = Some b -> load_pending files path = m.
Proof.
  intros Hk Hb Hf. unfold load_pending. rewrite Hf. simpl. rewrite (dec_enc_pending _ _ Hb).
  apply collect_values; [done|apply pending_values_perm].
Qed.

Lemma load_active_same (files files' : Files) path : files' !! path = files !! path ->
  load_active (Act := Act) (Pend := Pend) files' path = load_active files path.
Proof. unfold load_active. by intros ->. Qed.
Lemma load_pending_same (files files' : Files) path : files' !! path = files !! path ->
  load_pending (Act := Act) (Pend := Pend) files' path = load_pending files path.
Proof. unfold load_pending. by intros ->. Qed.

(** Every outcome of [persist], as a reader sees it. *)
Lemma persist_seen dir s w1 w2 files : state_wf s ->
  let '(r, files') := persist dir s w1 w2 files in
  match r with
  | Ok _ => seen dir files' = s
  | Err _ => seen dir files' = seen dir files \/
             seen dir files' = mkFsState (fs_active s) (fs_pending (seen dir files))
  end.
Proof.
  intros [Ha Hp]. destruct jr_pending_name as [pt Hpf]. unfold persist.
  destruct (enc_active _) as [ab|e] eqn:Eab; cbn [map_error]; [|by left].
  pose proof (write_target dir "active.json" ab w1 files) as Ht1.
  pose proof (write_other dir "active.json" jr_pending_file ab w1 files "a" "p" _ _ eq_refl Hpf ltac:(done)) as Ho1.
  destruct (write_atomic dir "active.json" ab w1 files) as [r1 f1]. cbn [fst snd] in *. unfold seen.
  destruct r1 as [[]|e1]; cbn [fs_pending]; [|left; f_equal; [by apply load_active_same|by apply load_pending_same]].
  pose proof (load_active_written _ _ _ _ Ha Eab Ht1) as Hla.
  destruct (enc_pending _) as [pb|e] eqn:Epb; cbn [map_error];
    [|right; f_equal; [done|by apply load_pending_same]].
  pose proof (write_target dir jr_pending_file pb w2 f1) as Ht2.
  pose proof (write_other dir jr_pending_file "active.json" pb w2 f1 "p" "a" _ _ Hpf eq_refl ltac:(done)) as Ho2.
  destruct (write_atomic dir jr_pending_file pb w2 f1) as [r2 f2]. cbn [fst snd] in *.
  rewrite (load_active_same f1 f2) by done. rewrite Hla. destruct r2 as [[]|e2].
  - rewrite (load_pending_written _ _ _ _ Hp Epb Ht2). by destruct s.
  - right. f_equal. apply load_pending_same. by rewrite Ht2.
Qed.

(** ** The store against its simpler form *)

(** The in-memory state that a file-backed state stands for. *)
Definition forget s : MemState (Pend := Pend) :=
  mkMemState (ae_handle <$> fs_active s) (fs_pending s).

Lemma write_fails dir name bytes w files e :
  (write_atomic dir name bytes w files).1 = Err e -> exists x, e = BackendUnreachable x.
Proof using Type. unfold write_atomic. destruct (ws_outcome w); simpl; intros [= <-]; eauto. Qed.

Lemma persist_fails dir s w1 w2 files :
  match (persist dir s w1 w2 files).1 with Ok _ => True | Err e => exists x, e = BackendUnreachable x end.
Proof using Type.
  unfold persist. destruct (enc_active _) as [ab|]; cbn; [|by eauto].
  destruct (write_atomic dir "active.json" ab w1 files) as [[[]|e] f1] eqn:E1; cbn;
    [|eapply write_fails; by rewrite E1].
  destruct (enc_pending _) as [pb|]; cbn; [|by eauto].
  destruct (write_atomic _ _ pb w2 f1) as [[[]|e] f2] eqn:E2; cbn; [done|]. eapply write_fails; by rewrite E2.
Qed.

(** The in-memory part of a locked section. *)
Lemma forget_enforce req act pend s :
  forget (enforce_locked req act pend s).2 =
    mkMemState (<[jr_key req := default (Active (jr_key req)) ((ae_handle <$> fs_active s) !! jr_key req)]>
                  (ae_handle <$> fs_active s))
               (fs_pending (enforce_locked req act pend s).2) /\
  (enforce_locked req act pend s).1.1 = default (Active (jr_key req)) ((ae_handle <$> fs_active s) !! jr_key req).
Proof using Type.
  unfold forget, enforce_locked. cbn. rewrite lookup_fmap, fmap_insert.
  by destruct (fs_active s !! jr_key req).
Qed.

Lemma mem_enforce_forget req act pend receipt s : jr_plan req = Ok (Enter act pend receipt) ->
  mem_enforce req (forget s) =
    (Ok ((enforce_locked req act pend s).1, receipt), forget (enforce_locked req act pend s).2).
Proof using Type.
  intros Hp. destruct (forget_enforce req act pend s) as [-> Hh]. unfold mem_enforce. rewrite Hp.
  unfold enforce_locked in *. cbn in *. rewrite <-Hh. f_equal. f_equal. f_equal. f_equal.
  rewrite Hh, <-(map_size_fmap ae_handle), fmap_insert, lookup_fmap. by destruct (fs_active s !! jr_key req).
Qed.

(** The file-backed store implements the in-memory one: every operation
    changes the in-memory part as the in-memory store does, and whenever it does
    not report a failed write, its answer is the same; refused requests and
    requests with nothing to enforce are answered alike and change nothing. *)
Theorem fs_refines_memory dir s files w1 w2 req handle :
  (let '(r, s', _) := fs_enforce dir req w1 w2 s files in
   let '(r', m') := mem_enforce req (forget s) in
   m' = forget s' /\ ((exists e, r = Err (BackendUnreachable e)) \/ r = r')) /\
  (let '(r, s', _) := fs_release dir handle w1 w2 s files in
   let '(b, m') := mem_release handle (forget s) in
   m' = forget s' /\ ((exists e, r = Err (BackendUnreachable e)) \/ r = Ok b)) /\
  (let '(b, s', _) := fs_decide dir handle w1 w2 s files in
   let '(b', m') := mem_decide handle (forget s) in m' = forget s' /\ b = b').
Proof using Type.
  pose proof (fun t => persist_fails dir t w1 w2 files) as Herr. split; [|split].
  - unfold fs_enforce. destruct (jr_plan req) as [[h r|act pend r]|e] eqn:Hp.
    + unfold mem_enforce, forget. rewrite Hp. cbn. rewrite map_size_fmap. auto.
    + rewrite (mem_enforce_forget _ _ _ _ s Hp). specialize (Herr (enforce_locked req act pend s).2).
      destruct (enforce_locked req act pend s) as [[h n] s']. cbn [fst snd] in *.
      destruct (persist dir s' w1 w2 files) as [[[]|e] files']; cbn in Herr |- *; [by auto|].
      destruct Herr as [x ->]. eauto.
    + unfold mem_enforce. rewrite Hp. auto.
  - unfold fs_release, mem_release. cbn. specialize (Herr (release_locked handle s).2). unfold release_locked in Herr.
    cbn in Herr. destruct (persist _ _ _ _ _) as [[[]|e] files']; cbn in Herr |- *; unfold forget; cbn;
      rewrite fmap_delete, lookup_fmap; (split; [done|]).
    + right. f_equal. apply bool_decide_ext. by rewrite fmap_is_Some.
    + destruct Herr as [x ->]. eauto.
  - unfold fs_decide, mem_decide. cbn. by case_bool_decide.
Qed.

(** ** Restarts and crashes *)

(** The state an operation leaves in memory, and the files, whatever the
    writes meet. *)
Definition run_op (dir : string) (op : Op) (w1 w2 : WriteStep) s (files : Files) : FsState Act Pend * Files :=
  match op with
  | OpEnforce req => let '(_, s, files) := fs_enforce dir req w1 w2 s files in (s, files)
  | OpRelease handle => let '(_, s, files) := fs_release dir handle w1 w2 s files in (s, files)
  | OpDecide handle => let '(_, s, files) := fs_decide dir handle w1 w2 s files in (s, files)
  end.

Lemma run_op_lock dir op w1 w2 s files :
  let '(go, s') := lock op s in
  run_op dir op w1 w2 s files = (s', if go then (persist dir s' w1 w2 files).2 else files).
Proof.
  destruct op as [req|key|key]; cbn [lock run_op].
  - unfold fs_enforce. destruct (jr_plan req) as [[|act pend r]|]; [done| |done].
    destruct (enforce_locked req act pend s) as [[h n] s']. cbn [snd]. by destruct (persist dir s' w1 w2 files) as [[]].
  - unfold fs_release. cbn. by destruct (persist _ _ _ _ _) as [[]].
  - unfold fs_decide. cbn. by case_bool_decide.
Qed.

Lemma lock_wf op s : state_wf s -> state_wf (lock op s).2.
Proof.
  intros Hwf. destruct op as [req|key|key]; cbn [lock]; [|by apply release_wf|by apply decide_wf].
  destruct (jr_plan req) as [[]|]; [done|by apply enforce_wf|done].
Qed.

(** A section that does not persist changed nothing. *)
Lemma lock_idle op s : (lock op s).1 = false -> (lock op s).2 = s.
Proof.
  destruct op as [req|key|key]; cbn; [by destruct (jr_plan req) as [[]|]|done|].
  case_bool_decide as Hk; [done|]. intros _. rewrite delete_id; [by destruct s|].
  destruct (fs_pending s !! handle_key key); [by destruct Hk|done].
Qed.

(** Crashes leave no torn journal: whatever the two writes of an operation
    meet, a restart reads either the maps from before the operation, or both new
    maps, or the new active effects with the old pending decisions; in the last
    two cases everything the operation put in force is there. *)
Theorem journal_crash_consistent dir op w1 w2 s files : state_wf s ->
  let '(s', files') := run_op dir op w1 w2 s files in
  seen dir files' = seen dir files \/ seen dir files' = s' \/
  seen dir files' = mkFsState (fs_active s') (fs_pending (seen dir files)).
Proof.
  intros Hwf. pose proof (run_op_lock dir op w1 w2 s files) as Hrun. pose proof (lock_wf op s Hwf) as Hwf'.
  destruct (lock op s) as [go s']. rewrite Hrun. cbn [snd] in Hwf'. destruct go; [|by left].
  pose proof (persist_seen dir s' w1 w2 files Hwf') as Hp.
  destruct (persist dir s' w1 w2 files) as [[[]|e] files']; [by auto|]. destruct Hp; auto.
Qed.

(** Operations run one after the other, all writes succeeding. *)
Inductive serial (dir : string) : FsState Act Pend * Files -> FsState Act Pend * Files -> Prop :=
| serial_nil p : serial dir p p
| serial_cons op w1 w2 s files s' files' p :
    run_op dir op w1 w2 s files = (s', files') ->
    ws_outcome w1 = Written -> ws_outcome w2 = Written ->
    serial dir (s', files') p -> serial dir (s, files) p.

Lemma persist_succeeds dir s w1 w2 files :
  (forall l, exists b, enc_active l = Ok b) -> (forall l, exists b, enc_pending l = Ok b) ->
  ws_outcome w1 = Written -> ws_outcome w2 = Written -> (persist dir s w1 w2 files).1 = Ok tt.
Proof.
  intros Ha Hp H1 H2. unfold persist, write_atomic. destruct (Ha (active_values (fs_active s))) as [ab ->]. cbn.
  rewrite H1. destruct (Hp (pending_values (fs_pending s))) as [pb ->]. cbn. by rewrite H2.
Qed.

(** C30: Restart is exact for callers that take turns: after any sequence of
    operations whose writes succeed, started on an opened store, opening the
    directory again yields the state in memory. *)
Theorem journal_restart_exact dir files s s' files' :
  (forall l, exists b, enc_active l = Ok b) -> (forall l, exists b, enc_pending l = Ok b) ->
  open dir (Ok tt) files = Ok s -> serial dir (s, files) (s', files') -> open dir (Ok tt) files' = Ok s'.
Proof.
  intros Ha Hp [= <-] Hser.
  assert (Hwf : state_wf (seen dir files)) by (split; unfold seen, load_active, load_pending; cbn;
    case_match; [by apply keyed_collected|done|by apply keyed_collected|done]).
  assert (Hgen : forall p q, serial dir p q -> state_wf p.1 -> p.1 = seen dir p.2 -> q.1 = seen dir q.2).
  { intros p q H. induction H as [|op w1 w2 s f s1 f1 p Hrun H1 H2 _ IH]; [done|]. cbn [fst snd]. intros Hw Hs.
    pose proof (run_op_lock dir op w1 w2 s f) as Hl. pose proof (lock_wf op s Hw) as Hw1.
    pose proof (lock_idle op s) as Hidle. destruct (lock op s) as [go s2]. cbn [fst snd] in *.
    rewrite Hrun in Hl. injection Hl as -> ->. apply IH; [done|]. cbn [fst snd]. destruct go; [|by rewrite Hidle].
    pose proof (persist_seen dir s2 w1 w2 f Hw1) as Hps. pose proof (persist_succeeds dir s2 w1 w2 f Ha Hp H1 H2) as Hok.
    destruct (persist dir s2 w1 w2 f) as [r f2]. cbn [fst snd] in *. by subst r. }
  specialize (Hgen _ _ Hser Hwf eq_refl). cbn in Hgen. unfold open. cbn. by rewrite Hgen.
Qed.

(** ** Concurrent callers *)

Lemma lock_covered op s : state_wf s -> covered s -> covered (lock op s).2.
Proof.
  intros Hwf Hc. destruct op as [req|key|key]; cbn [lock].
  - destruct (jr_plan req) as [[]|]; [done|by apply enforce_covered|done].
  - unfold covered in *. cbn. rewrite !dom_delete_L. set_solver.
  - unfold covered in *. cbn. rewrite !dom_delete_L. set_solver.
Qed.

(** Along every interleaving of callers and every outcome of their writes,
    entries sit under their own handle, whatever waits for a decision is in
    force, and the list of pending decisions shows each of them once, the most
    urgent first. *)
Theorem journal_invariant dir sys sys' :
  rtc (jstep dir) sys sys' -> state_wf (sy_mem sys) -> covered (sy_mem sys) ->
  state_wf (sy_mem sys') /\ covered (sy_mem sys') /\
  StronglySorted pending_le (pending_list (sy_mem sys')) /\
  pending_list (sy_mem sys') ≡ₚ (map_to_list (fs_pending (sy_mem sys'))).*2.
Proof.
  intros Hstar Hwf Hc.
  assert (Hinv : state_wf (sy_mem sys') /\ covered (sy_mem sys')).
  { induction Hstar as [|x y z Hstep _ IH]; [done|].
    destruct Hstep as [op mem files flight go mem' Hl|]; cbn [sy_mem] in *; [|by apply IH].
    pose proof (lock_wf op mem Hwf). pose proof (lock_covered op mem Hwf Hc). rewrite Hl in *. by apply IH. }
  destruct Hinv as [? ?]. split; [done|]. split; [done|]. unfold pending_list. split.
  - apply StronglySorted_merge_sort; unfold Transitive, Total, pending_le; intros; lia.
  - by rewrite merge_sort_Permutation, pending_values_perm.
Qed.

(** ** What a receipt means *)

(** Every effect in force was entered by a request, not read from a file that
    records another outcome. *)
Definition all_active s : Prop := forall k e, fs_active s !! k = Some e -> ae_handle e = Active k.

Lemma enforce_active req act pend s : all_active s ->
  (enforce_locked req act pend s).1.1 = Active (jr_key req) /\ all_active (enforce_locked req act pend s).2.
Proof using Type.
  intros Ha. assert (Hh : (enforce_locked req act pend s).1.1 = Active (jr_key req)).
  { cbn. destruct (fs_active s !! jr_key req) eqn:E; cbn; [by apply Ha|done]. }
  split; [done|]. intros k e. cbn in *. rewrite lookup_insert_Some. intros [[<- <-]|[_ ?]]; [done|by apply Ha].
Qed.

Lemma lock_active op s : all_active s -> all_active (lock op s).2.
Proof using Type.
  intros Ha. destruct op as [req|h|h]; cbn [lock]; [|intros k e; cbn; intros [_ ?]%lookup_delete_Some; by apply Ha|done].
  destruct (jr_plan req) as [[]|]; [done|by apply enforce_active|done].
Qed.

(** A receipt tells the truth: an [Active] handle means that the effect is in
    force in memory and in the files, so that a restart finds it; any other handle
    means that nothing at all changed. Both carry the key of the request and the
    number of effects in force. *)
Theorem receipt_truthful dir req w1 w2 s files h n rc s' files' :
  state_wf s -> all_active s -> fs_enforce dir req w1 w2 s files = (Ok (h, n, rc), s', files') ->
  handle_key h = jr_key req /\ n = size (fs_active s') /\
  ((h = Active (jr_key req) /\ (exists e, fs_active s' !! jr_key req = Some e /\ ae_handle e = h) /\
    open dir (Ok tt) files' = Ok s') \/
   (h <> Active (jr_key req) /\ s' = s /\ files' = files)).
Proof.
  intros Hwf Ha. unfold fs_enforce. destruct (jr_plan req) as [[h0 r0|act pend r0]|] eqn:Hp; [| |done].
  - intros [= <- <- <- <- <-]. destruct (jr_skip_handle _ _ _ Hp) as [Hk Hne].
    split; [done|]. split; [done|]. by right.
  - destruct (enforce_active req act pend s Ha) as [Hh _]. pose proof (enforce_wf req act pend s Hwf) as Hwf'.
    pose proof (persist_seen dir _ w1 w2 files Hwf') as Hs.
    assert (Hin : fs_active (enforce_locked req act pend s).2 !! jr_key req <> None /\
                  (enforce_locked req act pend s).1.2 = size (fs_active (enforce_locked req act pend s).2))
      by (cbn; by rewrite lookup_insert_eq).
    pose proof (proj2 (enforce_active req act pend s Ha)) as Ha'.
    destruct (enforce_locked req act pend s) as [[h1 n1] s1]. cbn [fst snd] in *.
    destruct (persist dir s1 w1 w2 files) as [[[]|e] files1]; intros [= <- <- <- <- <-]. subst h1.
    destruct Hin as [Hin ->]. split; [done|]. split; [done|]. left. split; [done|]. split.
    + destruct (fs_active s1 !! jr_key req) as [e|] eqn:E; [|done]. exists e. split; [done|by apply Ha'].
    + unfold open. cbn. by rewrite <-Hs.
Qed.

(** The journal can lose an effect that was confirmed: the snapshot of an
    operation is written after the mutex is released, so of two operations that
    overlap the one that changed the maps first can write last. Both are
    confirmed and both effects are in force in memory, but after a restart the
    second one is gone. *)
Theorem journal_race_loses dir r1 r2 act1 pend1 rc1 act2 pend2 rc2 :
  (forall l, exists b, enc_active l = Ok b) -> (forall l, exists b, enc_pending l = Ok b) ->
  jr_plan r1 = Ok (Enter act1 pend1 rc1) -> jr_plan r2 = Ok (Enter act2 pend2 rc2) -> jr_key r1 <> jr_key r2 ->
  exists w1 w2 s1 s2 files2 files1,
    let s0 : FsState Act Pend := mkFsState ∅ ∅ in
    s1 = (enforce_locked r1 act1 pend1 s0).2 /\ s2 = (enforce_locked r2 act2 pend2 s1).2 /\
    persist dir s2 w1 w2 ∅ = (Ok tt, files2) /\ persist dir s1 w1 w2 files2 = (Ok tt, files1) /\
    rtc (jstep dir) (mkSys s0 ∅ []) (mkSys s2 files1 []) /\
    is_Some (fs_active s2 !! jr_key r2) /\
    exists s, open dir (Ok tt) files1 = Ok s /\ fs_active s !! jr_key r2 = None.
Proof.
  intros Ha Hp Hc1 Hc2 Hne. set (w := mkWriteStep 1 1 Written). set (s0 := mkFsState ∅ ∅ : FsState Act Pend).
  set (s1 := (enforce_locked r1 act1 pend1 s0).2). set (s2 := (enforce_locked r2 act2 pend2 s1).2).
  pose proof (persist_succeeds dir s2 w w ∅ Ha Hp eq_refl eq_refl) as H2.
  destruct (persist dir s2 w w ∅) as [r files2] eqn:E2. cbn in H2. subst r.
  pose proof (persist_succeeds dir s1 w w files2 Ha Hp eq_refl eq_refl) as H1.
  destruct (persist dir s1 w w files2) as [r files1] eqn:E1. cbn in H1. subst r.
  assert (Hwf : state_wf s1) by (apply enforce_wf; split; intros k v Hk; cbn in Hk; by rewrite lookup_empty in Hk).
  exists w, w, s1, s2, files2, files1. cbn zeta. do 2 (split; [done|]). split; [done|]. split; [done|]. split.
  { eapply rtc_l; [apply (step_lock dir (OpEnforce r1)); cbn [lock]; by rewrite Hc1|].
    eapply rtc_l; [apply (step_lock dir (OpEnforce r2)); cbn [lock]; by rewrite Hc2|].
    eapply rtc_l; [apply (step_persist dir s2 ∅ [s1] s2 [] w w _ _ E2)|].
    apply rtc_once, (step_persist dir s2 files2 [] s1 [] w w _ _ E1). }
  split; [unfold s2, enforce_locked; cbn; rewrite lookup_insert_eq; by eexists|].
  exists (seen dir files1). split; [done|]. pose proof (persist_seen dir s1 w w files2 Hwf) as Hs. rewrite E1 in Hs.
  rewrite Hs. unfold s1, enforce_locked. cbn. by rewrite lookup_insert_ne.
Qed.
End props.

(** ** The exclusion list of sessions *)

(** The file-backed session store has no self-lockout guard: a request the
    in-memory store refuses because the user is on the exclusion list is accepted
    and recorded as active by the file-backed one, for every exclusion list. *)
Theorem session_guard_missing
    `{!Codec (string * SessionRevocation.RevocationScope) (string * SessionRevocation.RevocationScope)}
    dir (req : SessionRevocation.RevokeRequest) (excluded : gset string) s files w1 w2 m :
  SessionRevocation.validate req = Ok tt -> SessionRevocation.user req ∈ excluded ->
  mem_enforce (Journaled0 := session_mem_journal excluded) req m
    = (Err (ExcludedUser (SessionRevocation.user req)), m) /\
  is_Some (fs_active (fs_enforce dir req w1 w2 s files).1.2 !! SessionRevocation.idempotency_key req).
Proof.
  intros Hv Hex. split.
  - unfold mem_enforce. cbn. unfold session_plan, SessionRevocation.accept, check_excluded. rewrite Hv. cbn.
    by rewrite bool_decide_true.
  - unfold fs_enforce. cbn [jr_plan session_journal]. unfold session_plan, enter. rewrite Hv.
    set (entry := (SessionRevocation.user req, SessionRevocation.scope req)). cbn -[enforce_locked persist].
    destruct (enforce_locked req entry entry s) as [[h n] s'] eqn:E.
    assert (Hs : is_Some (fs_active s' !! SessionRevocation.idempotency_key req)).
    { apply (f_equal snd) in E. cbn in E. rewrite <-E. cbn. rewrite lookup_insert_eq. by eexists. }
    by destruct (persist dir s' w1 w2 files) as [[]].
Qed.

(** ** Concrete inputs *)

Module JournalWitnesses.

Fixpoint bits (p : positive) : string :=
  match p with xH => "" | xO p => String "0" (bits p) | xI p => String "1" (bits p) end.
Fixpoint unbits (s : string) : positive :=
  match s with "" => xH | String a s => if bool_decide (a = "0"%char) then xO (unbits s) else xI (unbits s) end.

Lemma unbits_bits p : unbits (bits p) = p.
Proof. induction p as [p IH|p IH|]; cbn; by rewrite ?IH. Qed.

#[local] Instance tier_countable : Countable AuthorityTier.t.
Proof.
  refine (inj_countable' (fun t => match t with
      | AuthorityTier.Autonomous => 0 | AuthorityTier.Responder => 1
      | AuthorityTier.Operator => 2 | AuthorityTier.OperatorOverridden => 3 end)
    (fun n => match n with 0 => AuthorityTier.Autonomous | 1 => AuthorityTier.Responder
      | 2 => AuthorityTier.Operator | _ => AuthorityTier.OperatorOverridden end) _).
  by intros [].
Defined.

Definition scope_bit (sc : Quarantine.FreezeScope) : bool :=
  match sc with Quarantine.Process => false | Quarantine.Tree => true end.
Definition bit_scope (b : bool) : Quarantine.FreezeScope := if b then Quarantine.Tree else Quarantine.Process.

Definition handle_code (h : Handle) : nat * string :=
  match h with
  | Active k => (0, k) | Contested k => (1, k) | Stale k => (2, k) | NoMatch k => (3, k) | Redundant k => (4, k)
  | NotFound k => (5, k) | NoTarget k => (6, k) | Denied k => (7, k) | MapNotFound k => (8, k)
  | AmbiguousName k => (9, k) | KeySizeMismatch k => (10, k) | KeyNotFound k => (11, k)
  | BpfMapAccessDenied k => (12, k)
  end.
Definition code_handle (c : nat * string) : Handle :=
  let '(n, k) := c in
  match n with
  | 0 => Active k | 1 => Contested k | 2 => Stale k | 3 => NoMatch k | 4 => Redundant k | 5 => NotFound k
  | 6 => NoTarget k | 7 => Denied k | 8 => MapNotFound k | 9 => AmbiguousName k | 10 => KeySizeMismatch k
  | 11 => KeyNotFound k | _ => BpfMapAccessDenied k
  end.

Abbreviation entry_t := (Z * Quarantine.FreezeScope)%type.
Abbreviation active_t := (nat * string * string * AuthorityTier.t * (Z * bool))%type.
Abbreviation pending_t := (nat * string * AuthorityTier.t * string * Z * (Z * bool))%type.

Definition active_tuple (e : ActiveEntry entry_t) : active_t :=
  let 'mkActiveEntry h r a (t, sc) := e in (handle_code h, r, a, (t, scope_bit sc)).
Definition tuple_active (p : active_t) : ActiveEntry entry_t :=
  let '(c, r, a, (t, b)) := p in mkActiveEntry (code_handle c) r a (t, bit_scope b).
Definition pending_tuple (e : PendingEntry entry_t) : pending_t :=
  let 'mkPendingEntry h a r n (t, sc) := e in (handle_code h, a, r, n, (t, scope_bit sc)).
Definition tuple_pending (p : pending_t) : PendingEntry entry_t :=
  let '(c, a, r, n, (t, b)) := p in mkPendingEntry (code_handle c) a r n (t, bit_scope b).

(** A journal whose files hold an encoding of the entries as bits. *)
#[local] Instance bit_codec : Codec entry_t entry_t := {|
  enc_active := fun l => Ok (bits (encode (List.map active_tuple l)));
  dec_active := fun b => match decode (A := list active_t) (unbits b) with
                         | Some l => Some (List.map tuple_active l) | None => None end;
  enc_pending := fun l => Ok (bits (encode (List.map pending_tuple l)));
  dec_pending := fun b => match decode (A := list pending_t) (unbits b) with
                          | Some l => Some (List.map tuple_pending l) | None => None end;
  active_values := fun m => (map_to_list m).*2;
  pending_values := fun m => (map_to_list m).*2 |}.

Lemma active_tuples l : List.map tuple_active (List.map active_tuple l) = l.
Proof. rewrite List.map_map. rewrite <-List.map_id. apply List.map_ext. by intros [[] ?? [? []]]. Qed.
Lemma pending_tuples l : List.map tuple_pending (List.map pending_tuple l) = l.
Proof. rewrite List.map_map. rewrite <-List.map_id. apply List.map_ext. by intros [[] ??? [? []]]. Qed.

#[local] Instance bit_codec_laws : CodecLaws entry_t entry_t.
Proof.
  split; [| |done|done]; intros l b [= <-]; unfold dec_active, dec_pending, bit_codec;
    by rewrite unbits_bits, decode_encode, ?active_tuples, ?pending_tuples.
Qed.

Definition freeze (pid : Z) (key : string) : Quarantine.FreezeRequest :=
  Quarantine.mkFreezeRequest pid "finding" (from_secs 60) AuthorityTier.Responder Quarantine.Process key.

Definition ok_write (n : Z) : WriteStep := mkWriteStep 900 n Written.
Definition dir : string := "/var/lib/selfdef/quarantine".

Lemma enc_total : (forall l, exists b, enc_active l = Ok b) /\ (forall l, exists b, enc_pending l = Ok b).
Proof. split; intros l; by eexists. Qed.

Lemma journal_race_loses_witness :
  exists w1 w2 s1 s2 files2 files1,
    let s0 : FsState entry_t entry_t := mkFsState ∅ ∅ in
    s1 = (enforce_locked (freeze 7 "a") (7%Z, Quarantine.Process) (7%Z, Quarantine.Process) s0).2 /\ s2 = (enforce_locked (freeze 8 "b") (8%Z, Quarantine.Process) (8%Z, Quarantine.Process) s1).2 /\
    persist dir s2 w1 w2 ∅ = (Ok tt, files2) /\ persist dir s1 w1 w2 files2 = (Ok tt, files1) /\
    rtc (jstep dir) (mkSys s0 ∅ []) (mkSys s2 files1 []) /\
    is_Some (fs_active s2 !! jr_key (freeze 8 "b")) /\
    exists s, open dir (Ok tt) files1 = Ok s /\ fs_active s !! jr_key (freeze 8 "b") = None.
Proof.
  apply (journal_race_loses (Req := Quarantine.FreezeRequest) (Act := entry_t) (Pend := entry_t)
    dir (freeze 7 "a") (freeze 8 "b") _ _ tt _ _ tt);
    [apply enc_total|apply enc_total|vm_compute; reflexivity|vm_compute; reflexivity|discriminate].
Defined.

Definition empty : FsState entry_t entry_t := mkFsState ∅ ∅.

Lemma empty_wf : state_wf empty.
Proof. split; intros k v Hk; cbn in Hk; by rewrite lookup_empty in Hk. Qed.

Lemma journal_crash_consistent_witness :
  let '(s', files') := run_op dir (OpEnforce (freeze 7 "a")) (ok_write 1) (mkWriteStep 900 2 (SyncFails "disk full"))
                         empty ∅ in
  seen dir files' = seen dir ∅ \/ seen dir files' = s' \/
  seen dir files' = mkFsState (fs_active s') (fs_pending (seen dir ∅)).
Proof. apply (journal_crash_consistent (Req := Quarantine.FreezeRequest) (Act := entry_t) (Pend := entry_t)
    dir _ _ _ empty ∅ empty_wf). Defined.

Definition once : FsState entry_t entry_t * gmap string string :=
  run_op dir (OpEnforce (freeze 7 "a")) (ok_write 1) (ok_write 2) empty ∅.

Lemma journal_restart_exact_witness : open dir (Ok tt) once.2 = Ok once.1.
Proof.
  apply (journal_restart_exact (Req := Quarantine.FreezeRequest) (Act := entry_t) (Pend := entry_t)
    dir ∅ empty once.1 once.2); [apply enc_total|apply enc_total|reflexivity|].
  eapply (serial_cons dir (OpEnforce (freeze 7 "a")) (ok_write 1) (ok_write 2));
    [apply surjective_pairing|reflexivity|reflexivity|constructor].
Defined.

Lemma receipt_truthful_witness :
  let key := jr_key (freeze 7 "a") in
  handle_key (Active "a") = key /\ 1 = size (fs_active once.1) /\
  ((Active "a" = Active key /\ (exists e, fs_active once.1 !! key = Some e /\ ae_handle e = Active "a") /\
    open dir (Ok tt) once.2 = Ok once.1) \/
   (Active "a" <> Active key /\ once.1 = empty /\ once.2 = ∅)).
Proof.
  apply (receipt_truthful (Req := Quarantine.FreezeRequest) (Act := entry_t) (Pend := entry_t)
    dir (freeze 7 "a") (ok_write 1) (ok_write 2) empty ∅ (Active "a") 1 tt once.1 once.2);
    [apply empty_wf|intros k e Hk; cbn in Hk; by rewrite lookup_empty in Hk|reflexivity].
Defined.

Lemma journal_invariant_witness :
  state_wf once.1 /\ covered once.1 /\ StronglySorted pending_le (pending_list once.1) /\
  pending_list once.1 ≡ₚ (map_to_list (fs_pending once.1)).*2.
Proof.
  apply (journal_invariant (Req := Quarantine.FreezeRequest) (Act := entry_t) (Pend := entry_t)
    dir (mkSys empty ∅ []) (mkSys once.1 ∅ [once.1])); [|apply empty_wf|done].
  apply rtc_once, (step_lock dir (OpEnforce (freeze 7 "a")) empty ∅ [] true). reflexivity.
Defined.

#[local] Instance no_codec :
  Codec (string * SessionRevocation.RevocationScope) (string * SessionRevocation.RevocationScope) := {|
  enc_active := fun _ => Ok ""; dec_active := fun _ => None; enc_pending := fun _ => Ok "";
  dec_pending := fun _ => None; active_values := fun m => (map_to_list m).*2;
  pending_values := fun m => (map_to_list m).*2 |}.

Definition revoke : SessionRevocation.RevokeRequest :=
  SessionRevocation.mkRevokeRequest "root" "finding" (from_secs 60) AuthorityTier.Responder SessionRevocation.Local_ "k".

Lemma session_guard_missing_witness :
  (mem_enforce (Journaled0 := session_mem_journal {["root"]}) revoke (mkMemState ∅ ∅)).1 = Err (ExcludedUser "root") /\
  is_Some (fs_active (fs_enforce dir revoke (ok_write 1) (ok_write 2) (mkFsState ∅ ∅) ∅).1.2 !! "k").
Proof.
  split.
  - rewrite (proj1 (session_guard_missing dir revoke {["root"]} (mkFsState ∅ ∅) ∅ (ok_write 1) (ok_write 2) _
      ltac:(vm_compute; reflexivity) ltac:(cbn; set_solver))). reflexivity.
  - apply (session_guard_missing dir revoke {["root"]} (mkFsState ∅ ∅) ∅ (ok_write 1) (ok_write 2) (mkMemState ∅ ∅));
      [vm_compute; reflexivity|cbn; set_solver].
Defined.
End JournalWitnesses.
