(* ===== verification/JournalKindsProps.v ===== *)
(** * Properties of the block set

    The store of blocked addresses against a plain map from keys to addresses,
    the keys the responder's action gives it, and what happens when one key is
    used for both address families. *)

From S2P Require Import Prelude Core Backends Journal JournalKinds Actions ActionsProps.
From stdpp Require Import options.
Import BlockSet Blocks.

Definition is_v4 (a : IpAddr) : bool := match a with V4 _ => true | V6 _ => false end.

(** ** The specification *)

(** Blocks are a map from key to address; pending decisions a map from key. *)
Record Spec := mkSpec {
  sp_addrs : gmap string IpAddr;
  sp_pending : gmap string (PendingEntry IpAddr);
}.

Inductive BlockOp :=
| Block (req : BlockIpRequest)
| Unblock (handle : Handle)
| Decide (handle : Handle).

Inductive Answer :=
| Blocked (r : result (Handle * nat * nat) BackendError)
| Done (found : bool).

Definition of_family (four : bool) (m : gmap string IpAddr) : gmap string IpAddr :=
  filter (fun p => is_v4 p.2 = four) m.

Definition spec_step (op : BlockOp) (sp : Spec) : Answer * Spec :=
  match op with
  | Block req =>
      match validate req with
      | Err e => (Blocked (Err e), sp)
      | Ok _ =>
          let key := idempotency_key req in
          let addrs := <[key := addr req]> (sp_addrs sp) in
          let entry := mkPendingEntry (Active key) (authority req) (reason req) (as_secs (duration req)) (addr req) in
          (Blocked (Ok (Active key, size (of_family true addrs), size (of_family false addrs))),
           mkSpec addrs (if bool_decide (authority req = AuthorityTier.Responder)
                         then <[key := entry]> (sp_pending sp) else sp_pending sp))
      end
  | Unblock h =>
      (Done (bool_decide (is_Some (sp_addrs sp !! handle_key h))),
       mkSpec (delete (handle_key h) (sp_addrs sp)) (delete (handle_key h) (sp_pending sp)))
  | Decide h =>
      (Done (bool_decide (is_Some (sp_pending sp !! handle_key h))),
       mkSpec (sp_addrs sp) (delete (handle_key h) (sp_pending sp)))
  end.

Definition store_step (op : BlockOp) (s : State) : Answer * State :=
  match op with
  | Block req => let '(r, s) := block_ip req s in (Blocked r, s)
  | Unblock h => let '(b, s) := unblock_ip h s in (Done b, s)
  | Decide h => let '(b, s) := mark_extension_decided h s in (Done b, s)
  end.

Fixpoint run_ops {S} (step : BlockOp -> S -> Answer * S) (ops : list BlockOp) (s : S) : list Answer * S :=
  match ops with
  | [] => ([], s)
  | op :: ops => let '(a, s) := step op s in let '(l, s) := run_ops step ops s in (a :: l, s)
  end.

(** ** Refinement *)

(** The keys of one family, each with its own handle. *)
Definition family (four : bool) (m : gmap string IpAddr) : gmap string Handle :=
  map_imap (fun k a => if Bool.eqb (is_v4 a) four then Some (Active k) else None) m.

Definition blocks_wf (s : State) : Prop :=
  v4 s = family true (handle_addr s) /\ v6 s = family false (handle_addr s).

Lemma family_lookup four m k :
  family four m !! k = a ← m !! k; if Bool.eqb (is_v4 a) four then Some (Active k) else None.
Proof. apply map_lookup_imap. Qed.

Lemma family_size four m : size (family four m) = size (of_family four m).
Proof.
  rewrite <-!size_dom. f_equal. apply set_eq. intros k. rewrite !elem_of_dom, family_lookup. unfold of_family.
  rewrite map_lookup_filter. destruct (m !! k) as [a|]; cbn; [|split; by intros []].
  destruct (is_v4 a) eqn:E, four; cbn; rewrite ?option_guard_True, ?option_guard_False by (by rewrite E);
    split; intros []; try done; by eexists.
Qed.

Lemma family_insert_in four m k a : is_v4 a = four -> family four (<[k := a]> m) = <[k := Active k]> (family four m).
Proof.
  intros <-. apply map_eq. intros j. rewrite family_lookup, !lookup_insert. case_decide as Hj; subst; cbn.
  - by rewrite Bool.eqb_reflx.
  - by rewrite family_lookup.
Qed.

Lemma family_insert_out four m k a :
  is_v4 a <> four -> (forall b, m !! k = Some b -> is_v4 b <> four) -> family four (<[k := a]> m) = family four m.
Proof.
  intros Ha Hm. apply map_eq. intros j. rewrite !family_lookup, lookup_insert. case_decide as Hj; [subst j|done]. cbn.
  rewrite (proj2 (Bool.eqb_false_iff _ _)) by done. destruct (m !! k) as [b|] eqn:E; cbn; [|done].
  rewrite (proj2 (Bool.eqb_false_iff _ _)); [done|by apply Hm].
Qed.

Lemma family_delete four m k : family four (delete k m) = delete k (family four m).
Proof. apply map_imap_delete. Qed.

Lemma family_handle four m k : or_active k (family four m) = Active k.
Proof.
  unfold or_active. rewrite family_lookup. destruct (m !! k) as [a|]; cbn; [|done]. by destruct (Bool.eqb _ _).
Qed.

Definition abs (s : State) : Spec := mkSpec (handle_addr s) (pending s).

(** A request whose key, if in force, stands for an address of the same
    family. *)
Definition fits (s : State) (op : BlockOp) : Prop :=
  match op with
  | Block req => forall a, handle_addr s !! idempotency_key req = Some a -> is_v4 a = is_v4 (addr req)
  | _ => True
  end.

Lemma block_step_refines req s : blocks_wf s -> fits s (Block req) ->
  let '(ans, s') := store_step (Block req) s in spec_step (Block req) (abs s) = (ans, abs s') /\ blocks_wf s'.
Proof.
  intros [H4 H6] Hf. cbn [store_step spec_step fits] in *. unfold block_ip. destruct (validate req) as [|e]; [|done].
  destruct (addr req) as [b|segs] eqn:Ha; cbn [is_v4] in Hf.
  - assert (H6' : family false (<[idempotency_key req := V4 b]> (handle_addr s)) = family false (handle_addr s)).
    { apply family_insert_out; [done|]. intros c Hc. by rewrite (Hf c Hc). }
    rewrite H4, family_handle, <-(family_insert_in true _ _ (V4 b)) by done. cbn. rewrite H6, <-H6', !family_size. split; [done|].
    by split.
  - assert (H4' : family true (<[idempotency_key req := V6 segs]> (handle_addr s)) = family true (handle_addr s)).
    { apply family_insert_out; [done|]. intros c Hc. by rewrite (Hf c Hc). }
    rewrite H6, family_handle, <-(family_insert_in false _ _ (V6 segs)) by done. cbn. rewrite H4, <-H4', !family_size. split; [done|].
    by split.
Qed.

Lemma family_released four m k a : m !! k = Some a -> is_v4 a = four ->
  bool_decide (is_Some (family four m !! k)) = true.
Proof. intros Hm <-. rewrite family_lookup, Hm. cbn. rewrite Bool.eqb_reflx. by apply bool_decide_eq_true. Qed.

Lemma family_other four m k a : m !! k = Some a -> is_v4 a <> four -> family four (delete k m) = family four m.
Proof.
  intros Hm Ha. rewrite family_delete. apply delete_id. rewrite family_lookup, Hm. cbn.
  by rewrite (proj2 (Bool.eqb_false_iff _ _)).
Qed.

Lemma store_step_refines op s : blocks_wf s -> fits s op ->
  let '(ans, s') := store_step op s in spec_step op (abs s) = (ans, abs s') /\ blocks_wf s'.
Proof.
  destruct op as [req|h|h]; [apply block_step_refines| |done]. intros [H4 H6] _. cbn [store_step spec_step abs].
  unfold unblock_ip, blocks_wf. set (k := handle_key h). cbn [sp_addrs sp_pending].
  destruct (handle_addr s !! k) as [[b|segs]|] eqn:E; cbn [abs handle_addr pending v4 v6].
  - rewrite H4, (family_released true _ _ (V4 b)) by done. rewrite bool_decide_true by by eexists.
    split; [done|]. split; [by rewrite family_delete|]. by rewrite H6, (family_other false _ _ (V4 b)).
  - rewrite H6, (family_released false _ _ (V6 segs)) by done. rewrite bool_decide_true by by eexists.
    split; [done|]. split; [by rewrite H4, (family_other true _ _ (V6 segs))|]. by rewrite family_delete.
  - unfold abs. cbn. rewrite bool_decide_false by (intros [x Hx]; congruence). split; [done|]. by rewrite !delete_id.
Qed.

(** Keys that stand for one family each. *)
Definition keys_split (key_family : string -> bool) (op : BlockOp) : Prop :=
  match op with Block req => is_v4 (addr req) = key_family (idempotency_key req) | _ => True end.

Lemma step_keeps_keys key_family op s :
  keys_split key_family op -> map_Forall (fun k a => is_v4 a = key_family k) (handle_addr s) -> blocks_wf s ->
  map_Forall (fun k a => is_v4 a = key_family k) (handle_addr (store_step op s).2).
Proof.
  intros Hop Hm Hwf. destruct op as [req|h|h]; cbn in *.
  - unfold block_ip. destruct (validate req); [|done]. cbn in *. apply map_Forall_insert_2; [|done].
    destruct Hwf as [-> ->]. by destruct (addr req); rewrite family_handle.
  - unfold unblock_ip. by destruct (handle_addr s !! handle_key h) as [[]|]; apply map_Forall_delete.
  - done.
Qed.

(** The block set is a map from keys to addresses as long as no key is used
    for both families: for every sequence of blocks, releases and decisions the
    receipts are those of the plain map: the handle of the key, the number of
    addresses of each family, and whether there was something to release or to
    decide. *)
Lemma blocks_refine key_family ops s :
  Forall (keys_split key_family) ops ->
  map_Forall (fun k a => is_v4 a = key_family k) (handle_addr s) -> blocks_wf s ->
  let '(answers, s') := run_ops store_step ops s in
  run_ops spec_step ops (abs s) = (answers, abs s') /\ blocks_wf s'.
Proof.
  intros Hops. revert s. induction Hops as [|op ops Hop _ IH]; intros s Hm Hwf; [done|]. cbn [run_ops].
  assert (Hfit : fits s op).
  { destruct op as [req| |]; [|done|done]. intros a Ha. by rewrite (Hm _ _ Ha), Hop. }
  pose proof (store_step_refines op s Hwf Hfit) as Hstep. pose proof (step_keeps_keys _ op s Hop Hm Hwf) as Hm'.
  destruct (store_step op s) as [ans s1]. cbn [snd] in Hm'. destruct Hstep as [-> Hwf'].
  specialize (IH s1 Hm' Hwf'). destruct (run_ops store_step ops s1) as [l s2]. by destruct IH as [-> ?].
Qed.

(** ** The text of an address tells its family *)

Definition plain (a : ascii) : bool := negb (bool_decide (a = ":"%char)).

Lemma octet_plain n : all_bytes plain (show_uint (n `mod` 256)) = true.
Proof.
  assert (Hd : forall a, digit_byte a = true -> plain a = true).
  { intros a. unfold plain. case_bool_decide as E; [by rewrite E; vm_compute|done]. }
  eapply all_bytes_impl; [apply Hd|]. apply show_uint_all, Z.mod_pos_bound. done.
Qed.

Lemma ipv4_plain b : all_bytes plain (show_ipv4 b) = true.
Proof. unfold show_ipv4. by rewrite !all_bytes_app, !octet_plain. Qed.

(** A value of [Ipv6Addr] has eight segments. *)
Definition addr_ok (a : IpAddr) : Prop := match a with V4 _ => True | V6 segs => length segs = 8 end.

Lemma ipv6_colon segs : length segs = 8 -> all_bytes plain (show_ipv6 segs) = false.
Proof.
  intros Hlen. assert (Hgen : all_bytes plain
    (let '(start, len) := zero_run 0 segs (0, 0) (0, 0) in
      if decide (1 < len) then
        join ":" (show_hex16 <$> take start segs) +:+ "::" +:+ join ":" (show_hex16 <$> drop (start + len) segs)
      else join ":" (show_hex16 <$> segs)) = false).
  { destruct (zero_run 0 segs (0, 0) (0, 0)) as [start len]. case_decide.
    - rewrite !all_bytes_app. cbn. by rewrite !andb_false_r.
    - destruct segs as [|x [|y segs]]; [done|done|]. cbn [fmap list_fmap join]. rewrite !all_bytes_app. cbn.
      by rewrite !andb_false_r. }
  unfold show_ipv6. repeat (case_match; try exact Hgen). rewrite all_bytes_app. done.
Qed.

Lemma family_text a b : addr_ok a -> addr_ok b -> show_ip a = show_ip b -> is_v4 a = is_v4 b.
Proof.
  intros Ha Hb Heq. apply (f_equal (all_bytes plain)) in Heq.
  destruct a, b; cbn in *; rewrite ?ipv4_plain, ?ipv6_colon in Heq by done; done.
Qed.

(** ** The responder's blocks *)

Definition wants (k : string) (op : BlockOp) : bool :=
  match op with Block req => bool_decide (idempotency_key req = k) | _ => false end.

(** The family of the first request with a key. *)
Definition first_family (ops : list BlockOp) (k : string) : bool :=
  match List.find (wants k) ops with Some (Block req) => is_v4 (addr req) | _ => true end.

Lemma first_family_split ops :
  (forall r1 r2, Block r1 ∈ ops -> Block r2 ∈ ops -> idempotency_key r1 = idempotency_key r2 ->
     is_v4 (addr r1) = is_v4 (addr r2)) ->
  Forall (keys_split (first_family ops)) ops.
Proof.
  intros Hops. apply Forall_forall. intros [req| |] Hin; [|done|done]. cbn. unfold first_family.
  destruct (List.find (wants (idempotency_key req)) ops) as [op|] eqn:E.
  - apply List.find_some in E as [Hop Hw]. destruct op as [r| |]; [|done|done]. cbn in Hw.
    apply bool_decide_eq_true in Hw. apply Hops; [done|by apply list_elem_of_In|done].
  - apply list_elem_of_In in Hin. pose proof (List.find_none _ _ E _ Hin) as Hw. cbn in Hw.
    by rewrite bool_decide_true in Hw.
Qed.

Section responder.
Context `{UnicodeTables} `{WireFormat}.

(** A request the block action makes for some event. *)
Definition by_action (en : Enforce) (op : BlockOp) : Prop :=
  match op with
  | Block req => addr_ok (addr req) /\
      exists w e dry, Requested (BlockIp req) ∈ (execute w (BlockIpAction en) e dry).2
  | _ => True
  end.

(** C29: The blocks the responder asks for are kept exactly: whatever events a
    block action handles, with releases and decisions in between, the store
    answers as a plain map from keys to addresses does. The keys carry the text of
    the address, so one key never stands for both families. *)
Theorem responder_blocks_refine en ops :
  (forall u v, String.length (uuid_to_string u) = String.length (uuid_to_string v)) ->
  Forall (by_action en) ops ->
  let '(answers, s') := run_ops store_step ops empty in
  run_ops spec_step ops (mkSpec ∅ ∅) = (answers, abs s').
Proof.
  intros Hlen Hops. pose proof (first_family_split ops) as Hsplit.
  assert (Hwf : blocks_wf empty) by done.
  pose proof (blocks_refine (first_family ops) ops empty) as Href.
  destruct (run_ops store_step ops empty) as [answers s'].
  apply Href; [|apply map_Forall_empty|done]. apply Hsplit. intros r1 r2 H1 H2 Hk. rewrite Forall_forall in Hops.
  destruct (Hops _ H1) as (Ho1 & w1 & e1 & d1 & R1). destruct (Hops _ H2) as (Ho2 & w2 & e2 & d2 & R2).
  apply family_text; [done|done|].
  apply (idempotency_keys_identify w1 w2 (BlockIpAction en) e1 e2 d1 d2 _ _ Hlen R1 R2 Hk).
Qed.
End responder.

(** ** One key for both families *)

Lemma unblock_absent k s : handle_addr s !! k = None -> pending s !! k = None -> unblock_ip (Active k) s = (false, s).
Proof. intros Ha Hp. unfold unblock_ip. cbn. rewrite Ha, !delete_id by done. by destruct s. Qed.

(** A key used for both families is never released in full: after a block of
    an IPv4 and of an IPv6 address under one key, releasing the handle reports
    success but releases only the second address; the first stays blocked, and
    every later release of the handle finds nothing. *)
Theorem shared_key_leaks r4 r6 b segs k :
  validate r4 = Ok tt -> validate r6 = Ok tt -> addr r4 = V4 b -> addr r6 = V6 segs ->
  idempotency_key r4 = k -> idempotency_key r6 = k ->
  exists s, (store_step (Unblock (Active k)) (run_ops store_step [Block r4; Block r6] empty).2) = (Done true, s) /\
    v4 s !! k = Some (Active k) /\ v6 s !! k = None /\
    forall n, run_ops store_step (replicate n (Unblock (Active k))) s = (replicate n (Done false), s).
Proof.
  intros V4ok V6ok A4 A6 K4 K6. cbn [run_ops store_step]. unfold block_ip.
  rewrite V4ok, A4, K4. cbn -[validate unblock_ip]. rewrite V6ok, A6, K6. cbn -[unblock_ip]. unfold or_active. rewrite !lookup_empty. cbn.
  unfold unblock_ip. cbn. rewrite !lookup_insert_eq. rewrite bool_decide_true by by eexists.
  eexists. split; [done|]. cbn. split; [by rewrite lookup_insert_eq|]. split; [by rewrite lookup_delete_eq|].
  induction n as [|n IH]; [done|]. cbn [replicate run_ops store_step].
  rewrite unblock_absent by (cbn; by rewrite lookup_delete_eq). by rewrite IH.
Qed.

(** ** Concrete inputs *)

Module BlockWitnesses.
Import ActionsProps.ActionsWitnesses.
#[local] Existing Instance no_unicode.
#[local] Existing Instance wire.

Definition from (ip : IpAddr) (id : Z) : Event :=
  with_src_endpoint (mkEndpoint (Some ip) None None None None None) (finding false id "/mnt/a").

Definition req_of (ip : IpAddr) (id : Z) : BlockIpRequest :=
  mkBlockIpRequest ip (reason_of "selfdef" (from ip id)) (from_secs 60) AuthorityTier.Responder
    (join ":" [show_ip ip; uuid_to_string id; "Responder"]).

Definition four : IpAddr := V4 3221226059.
Definition six : IpAddr := V6 [8193; 3512; 0; 1; 0; 0; 0; 1]%Z.

Definition ops : list BlockOp :=
  [Block (req_of four 1); Block (req_of six 1); Unblock (Active (idempotency_key (req_of four 1)));
   Decide (Active (idempotency_key (req_of six 1)))].

Example ops_answers : (run_ops store_step ops empty).1 =
  [Blocked (Ok (Active (idempotency_key (req_of four 1)), 1, 0));
   Blocked (Ok (Active (idempotency_key (req_of six 1)), 1, 1)); Done true; Done true].
Proof. vm_compute. reflexivity. Qed.

Lemma ops_by_action : Forall (by_action en) ops.
Proof.
  repeat constructor; [exists host, (from four 1), false|exists host, (from six 1), false]; vm_compute; left.
Qed.

Lemma responder_blocks_refine_witness :
  let '(answers, s') := run_ops store_step ops empty in run_ops spec_step ops (mkSpec ∅ ∅) = (answers, abs s').
Proof. apply (responder_blocks_refine en ops uuid_length ops_by_action). Defined.

Definition named (ip : IpAddr) : BlockIpRequest :=
  mkBlockIpRequest ip "scan" (from_secs 60) AuthorityTier.Operator "finding-1".

Lemma shared_key_leaks_witness :
  exists s, store_step (Unblock (Active "finding-1")) (run_ops store_step [Block (named four); Block (named six)] empty).2
      = (Done true, s) /\
    v4 s !! "finding-1" = Some (Active "finding-1") /\ v6 s !! "finding-1" = None /\
    forall n, run_ops store_step (replicate n (Unblock (Active "finding-1"))) s = (replicate n (Done false), s).
Proof.
  apply (shared_key_leaks (named four) (named six) 3221226059 [8193; 3512; 0; 1; 0; 0; 0; 1]%Z "finding-1");
    vm_compute; reflexivity.
Defined.
End BlockWitnesses.
