(* ===== verification/Federation.v ===== *)
(** * Federation over NATS

    Models crates/selfdef-nats/src/lib.rs: the subjects and consumer names, the
    signing material, the wire envelope of a signed event, the outbound and the
    inbound pump of a bridge in both modes, and a federation of bridges around
    one server.

    NATS itself is outside: a run of a pump is a run over what the bus, the
    subscription and the server answered. The JSON texts of events and
    envelopes come from serde ([FederationWire]), keys and signatures from the
    minisign crates ([Minisign], [FederationKeys]). Diagnostics that are only
    logged are constructors instead of formatted texts. *)

From S2P Require Import Prelude Core Signing Bus.
From stdpp Require Import options.

(** ** Configuration *)

Record JetStreamConfig := mkJetStreamConfig {
  js_enabled : bool;
  js_stream_name : string;
  js_durable_consumer_prefix : string;
  js_max_age_secs : Z;
  js_max_bytes : Z;
  js_max_msgs : Z;
}.

Definition jetstream_default : JetStreamConfig := {|
  js_enabled := false;
  js_stream_name := "selfdef-events";
  js_durable_consumer_prefix := "selfdef-bridge";
  js_max_age_secs := 7 * 24 * 3600;
  js_max_bytes := -1;
  js_max_msgs := -1 |}.

Record NatsConfig := mkNatsConfig {
  nc_url : string;
  nc_subject_prefix : string;
  nc_jetstream : JetStreamConfig;
}.

Definition nats_default : NatsConfig := {|
  nc_url := "";
  nc_subject_prefix := "selfdef.events";
  nc_jetstream := jetstream_default |}.

Inductive NatsError :=
| Connect (e : string)
| Subscribe (e : string)
| Publish (e : string)
| Stream (e : string)
| Consumer (e : string)
| JsPublish (e : string)
| Serde (e : string)
| Sign (e : string)
| KeyLoad (e : string).

(** ** Names *)

(** [str::replace] of the characters a predicate selects. *)
Definition replace_chars (p : rchar -> bool) (to s : string) : string :=
  str_concat ((fun c => if p c then to else c) <$> chars s).

Definition subject_reserved (c : rchar) : bool :=
  is_whitespace c || bool_decide (c = ".") || bool_decide (c = ">") || bool_decide (c = "*").

Definition outbound_subject (prefix host_tag : string) : string :=
  prefix +:+ "." +:+ replace_chars subject_reserved "-" host_tag.

Definition inbound_subject (prefix : string) : string := prefix +:+ ".>".

Definition is_local_originated (event : Event) (local_host_tag : string) : bool :=
  bool_decide (ev_host_tag event = local_host_tag).

Definition durable_reserved (c : rchar) : bool :=
  negb (is_ascii_alphanumeric (char_code c)) && negb (bool_decide (c = "-")) && negb (bool_decide (c = "_")).

Definition durable_consumer_name (prefix host_tag : string) : string :=
  prefix +:+ "-" +:+ replace_chars durable_reserved "-" host_tag.

(** ** UTF-8 *)

(** The continuation ranges a leading byte asks for. *)
Definition utf8_needs (n : N) : option (list (N * N)) :=
  let cont := (128, 191)%N in
  if (n <? 128)%N then Some []
  else if in_range 194 223 n then Some [cont]
  else if (n =? 224)%N then Some [(160, 191)%N; cont]
  else if (n =? 237)%N then Some [(128, 159)%N; cont]
  else if in_range 225 239 n then Some [cont; cont]
  else if (n =? 240)%N then Some [(144, 191)%N; cont; cont]
  else if in_range 241 243 n then Some [cont; cont; cont]
  else if (n =? 244)%N then Some [(128, 143)%N; cont; cont]
  else None.

(** U+FFFD. *)
Definition replacement : string := String "239" (String "191" (String "189" "")).

(** [String::from_utf8_lossy]: every longest prefix of a sequence that cannot be
    completed becomes one replacement character. [pend] is the sequence begun. *)
Fixpoint lossy_go (need : list (N * N)) (pend s : string) : string :=
  match s with
  | "" => match need with [] => "" | _ => replacement end
  | String a s' =>
      let start :=
        match utf8_needs (byte a) with
        | Some [] => String a (lossy_go [] "" s')
        | Some need' => lossy_go need' (String a "") s'
        | None => replacement +:+ lossy_go [] "" s'
        end in
      match need with
      | [] => start
      | (lo, hi) :: need' =>
          if in_range lo hi (byte a) then
            let pend' := pend +:+ String a "" in
            match need' with
            | [] => pend' +:+ lossy_go [] "" s'
            | _ => lossy_go need' pend' s'
            end
          else replacement +:+ start
      end
  end.
Definition from_utf8_lossy (s : string) : string := lossy_go [] "" s.

(** ** Keys and wire formats *)

Record SignedEnvelope := mkSignedEnvelope {
  env_kid : string;
  env_event : string;
  env_sig : string;
}.

Class FederationKeys `{Minisign} := {
  SecretKey : Type;
  SecretKeyBox : Type;
  secret_box_from_string : string -> result SecretKeyBox string;
  secret_from_unencrypted_box : SecretKeyBox -> result SecretKey string;
  public_key_decode : string -> result PublicKey string;
  minisign_sign : SecretKey -> string -> result string string;
}.

Class FederationWire := {
  event_to_vec : Event -> option string;
  event_from_slice : string -> result Event string;
  envelope_to_vec : SignedEnvelope -> result string string;
  envelope_from_slice : string -> option SignedEnvelope;
}.

Record FederationSigning `{FederationKeys} := mkFederationSigning {
  fd_secret : SecretKey;
  fd_peer_keys : gmap string PublicKey;
}.

(** What [verify] reports. *)
Inductive VerifyError :=
| NoTrustedKey (kid : string)
| DecodeSig (e : string)
| SignatureInvalid (kid : string).

Section bridge.
Context `{FederationKeys} `{FederationWire}.

(** The peers in the order in which the map yields them. *)
Fixpoint load_peers (read : string -> result string string) (peers : list (string * string))
    (peer_keys : gmap string PublicKey) : result (gmap string PublicKey) NatsError :=
  match peers with
  | [] => Ok peer_keys
  | (host, path) :: peers =>
      match read path with
      | Err e => Err (KeyLoad ("read peer " +:+ host +:+ " key " +:+ path +:+ ": " +:+ e))
      | Ok pk_str =>
          match public_key_decode (trim pk_str) with
          | Err e => Err (KeyLoad ("parse peer " +:+ host +:+ " key: " +:+ e))
          | Ok pk => load_peers read peers (<[host := pk]> peer_keys)
          end
      end
  end.

Definition federation_load (read : string -> result string string) (secret_key_path : string)
    (peers : list (string * string)) : result FederationSigning NatsError :=
  match read secret_key_path with
  | Err e => Err (KeyLoad ("read secret " +:+ secret_key_path +:+ ": " +:+ e))
  | Ok sk_str =>
      match secret_box_from_string sk_str with
      | Err e => Err (KeyLoad ("parse secret key: " +:+ e))
      | Ok sk_box =>
          match secret_from_unencrypted_box sk_box with
          | Err e => Err (KeyLoad ("load unencrypted secret key (use `minisign -G -W`): " +:+ e))
          | Ok secret =>
              let? peer_keys := load_peers read peers ∅ in Ok {| fd_secret := secret; fd_peer_keys := peer_keys |}
          end
      end
  end.

Definition sign (fd : FederationSigning) (host_tag event_bytes : string) : result string NatsError :=
  match minisign_sign (fd_secret fd) event_bytes with
  | Err e => Err (Sign e)
  | Ok sig =>
      match envelope_to_vec (mkSignedEnvelope host_tag (from_utf8_lossy event_bytes) sig) with
      | Err e => Err (Serde e)
      | Ok env => Ok env
      end
  end.

Definition verify (fd : FederationSigning) (env : SignedEnvelope) : result string VerifyError :=
  match fd_peer_keys fd !! env_kid env with
  | None => Err (NoTrustedKey (env_kid env))
  | Some pk =>
      match signature_decode (env_sig env) with
      | Err e => Err (DecodeSig e)
      | Ok signature =>
          if key_verify pk (env_event env) signature then Ok (env_event env)
          else Err (SignatureInvalid (env_kid env))
      end
  end.

Definition encode_outbound (event : Event) (host_tag : string) (signing : option FederationSigning) :
    option string :=
  match event_to_vec event with
  | None => None
  | Some bytes =>
      match signing with
      | None => Some bytes
      | Some fd => match sign fd host_tag bytes with Ok env => Some env | Err _ => None end
      end
  end.

Definition decode_event (bytes : string) : result Event NatsError :=
  match event_from_slice bytes with Ok e => Ok e | Err e => Err (Serde e) end.

(** ** Inbound *)

(** The shared counters, absent when not configured, and what was published on the
    local bus, the latest last. *)
Record Inbound := mkInbound {
  in_federated : option Z;
  in_verified : option Z;
  in_published : list Event;
}.

Definition fetch_add_1 (c : option Z) : option Z := (fun n => wrapping_add_u64 n 1) <$> c.

(** The bytes to decode and whether a trusted peer signed them. *)
Definition resolve_payload (payload : string) (signing : option FederationSigning) :
    option (string * bool) :=
  match signing with
  | Some fd =>
      match envelope_from_slice payload with
      | Some env => match verify fd env with Ok inner => Some (inner, true) | Err _ => None end
      | None => Some (payload, false)
      end
  | None => Some (payload, false)
  end.

Definition republish_inbound (payload local_host_tag : string) (signing : option FederationSigning)
    (st : Inbound) : Inbound :=
  match resolve_payload payload signing with
  | None => st
  | Some (event_bytes, verified) =>
      match decode_event event_bytes with
      | Err _ => st
      | Ok event =>
          if bool_decide (ev_host_tag event = local_host_tag) then st
          else
            let event := with_federated true event in
            if verified then
              mkInbound (fetch_add_1 (in_federated st)) (fetch_add_1 (in_verified st))
                (in_published st ++ [with_federation_verified true event])
            else mkInbound (fetch_add_1 (in_federated st)) (in_verified st) (in_published st ++ [event])
      end
  end.

(** What the core inbound loop is woken by: shutdown, or the next item of the
    subscription ([None] when it has ended). *)
Inductive InboundWake :=
| InShutdown
| InNext (payload : option string).

Fixpoint run_inbound (local_host_tag : string) (signing : option FederationSigning)
    (wakes : list InboundWake) (st : Inbound) : Inbound :=
  match wakes with
  | [] => st
  | InShutdown :: _ => st
  | InNext None :: _ => st
  | InNext (Some payload) :: wakes =>
      run_inbound local_host_tag signing wakes (republish_inbound payload local_host_tag signing st)
  end.

(** The JetStream loop: a receive error is skipped, and every message is
    acknowledged whatever became of it. A message carries its stream sequence
    number and what [ack] answers. *)
Inductive JetWake :=
| JetShutdown
| JetEnd
| JetRecvError (e : string)
| JetMessage (seq : Z) (payload : string) (ack : result unit string).

Fixpoint run_jetstream_inbound (local_host_tag : string) (signing : option FederationSigning)
    (wakes : list JetWake) (acked : list Z) (st : Inbound) : list Z * Inbound :=
  match wakes with
  | [] => (acked, st)
  | JetShutdown :: _ | JetEnd :: _ => (acked, st)
  | JetRecvError _ :: wakes => run_jetstream_inbound local_host_tag signing wakes acked st
  | JetMessage seq payload ack :: wakes =>
      let st := republish_inbound payload local_host_tag signing st in
      let acked := if is_ok ack then acked ++ [seq] else acked in
      run_jetstream_inbound local_host_tag signing wakes acked st
  end.

(** ** Outbound *)

(** Woken by shutdown or by the local bus, with what the server answers to the
    publication that may follow. *)
Inductive OutboundWake :=
| OutShutdown
| OutRecv (r : result Event BusError) (answer : result unit string).

(** The payload of an event, when it is to be sent. *)
Definition outbound_payload (host_tag : string) (signing : option FederationSigning) (event : Event) :
    option string :=
  if negb (is_local_originated event host_tag) then None else encode_outbound event host_tag signing.

(** The payloads handed to the server, in order; a failed publication is logged. *)
Fixpoint run_outbound (host_tag subject : string) (signing : option FederationSigning)
    (wakes : list OutboundWake) : list (string * string) :=
  match wakes with
  | [] => []
  | OutShutdown :: _ => []
  | OutRecv (Ok event) _ :: wakes =>
      match outbound_payload host_tag signing event with
      | None => run_outbound host_tag subject signing wakes
      | Some bytes => (subject, bytes) :: run_outbound host_tag subject signing wakes
      end
  | OutRecv (Err (Lagged _)) _ :: wakes => run_outbound host_tag subject signing wakes
  | OutRecv (Err _) _ :: _ => []
  end.

(** With JetStream a publication gives the future of its acknowledgement, which is
    awaited; a failure of either is logged. *)
Inductive JetOutboundWake :=
| JetOutShutdown
| JetOutRecv (r : result Event BusError) (answer : result (result unit string) string).

Fixpoint run_jetstream_outbound (host_tag subject : string) (signing : option FederationSigning)
    (wakes : list JetOutboundWake) : list (string * string) :=
  match wakes with
  | [] => []
  | JetOutShutdown :: _ => []
  | JetOutRecv (Ok event) _ :: wakes =>
      match outbound_payload host_tag signing event with
      | None => run_jetstream_outbound host_tag subject signing wakes
      | Some bytes => (subject, bytes) :: run_jetstream_outbound host_tag subject signing wakes
      end
  | JetOutRecv (Err (Lagged _)) _ :: wakes => run_jetstream_outbound host_tag subject signing wakes
  | JetOutRecv (Err _) _ :: _ => []
  end.

(** [run_bridge]: connect, then the two pumps of the configured mode until both
    have stopped. [subscribed], [stream] and [consumer] are the answers to the
    calls that set a mode up. *)
Record BridgeIo := mkBridgeIo {
  io_connect : result unit string;
  io_subscribed : result unit string;
  io_stream : result unit string;
  io_consumer : result unit string;
  io_messages : result unit string;
  io_core_wakes : list InboundWake;
  io_jet_wakes : list JetWake;
  io_out_wakes : list OutboundWake;
  io_jet_out_wakes : list JetOutboundWake;
}.

Definition map_err {A E F} (f : E -> F) (r : result A E) : result A F :=
  match r with Ok a => Ok a | Err e => Err (f e) end.

Definition run_core_bridge (cfg : NatsConfig) (host_tag : string) (signing : option FederationSigning)
    (io : BridgeIo) (st : Inbound) : result (list (string * string) * list Z * Inbound) NatsError :=
  let? _ := map_err Subscribe (io_subscribed io) in
  let out_subject := outbound_subject (nc_subject_prefix cfg) host_tag in
  Ok (run_outbound host_tag out_subject signing (io_out_wakes io), [],
      run_inbound host_tag signing (io_core_wakes io) st).

Definition run_jetstream_bridge (cfg : NatsConfig) (host_tag : string) (signing : option FederationSigning)
    (io : BridgeIo) (st : Inbound) : result (list (string * string) * list Z * Inbound) NatsError :=
  let? _ := map_err Stream (io_stream io) in
  let? _ := map_err Consumer (io_consumer io) in
  let out_subject := outbound_subject (nc_subject_prefix cfg) host_tag in
  let '(acked, st') :=
    match io_messages io with
    | Err _ => ([], st)
    | Ok _ => run_jetstream_inbound host_tag signing (io_jet_wakes io) [] st
    end in
  Ok (run_jetstream_outbound host_tag out_subject signing (io_jet_out_wakes io), acked, st').

Definition run_bridge (cfg : NatsConfig) (host_tag : string) (signing : option FederationSigning)
    (io : BridgeIo) (st : Inbound) : result (list (string * string) * list Z * Inbound) NatsError :=
  let? _ := map_err Connect (io_connect io) in
  if js_enabled (nc_jetstream cfg) then run_jetstream_bridge cfg host_tag signing io st
  else run_core_bridge cfg host_tag signing io st.

(** ** The supervised bridge of the daemon *)

(** The material of a configured key file; a load failure leaves the bridge
    unsigned. *)
Definition federation_signing_of (read : string -> result string string) (signing_key_file : string)
    (peer_keys : list (string * string)) : option FederationSigning :=
  if bool_decide (signing_key_file = "") then None
  else match federation_load read signing_key_file peer_keys with Ok fd => Some fd | Err _ => None end.

(** Milliseconds. *)
Definition NATS_MIN_RETRY_BACKOFF : Z := 500.
Definition NATS_MAX_RETRY_BACKOFF : Z := 30000.
Definition NATS_HEALTHY_RUN_RESET_THRESHOLD : Z := 60000.

Definition nats_bridge_backoff (prev : Z) (healthy_run : bool) : Z * Z :=
  let current := if healthy_run then NATS_MIN_RETRY_BACKOFF else prev in
  (current, (current * 2) `min` NATS_MAX_RETRY_BACKOFF)%Z.

(** One turn of the retry loop: whether shutdown was requested before it, what the
    bridge met, how long it ran, and whether shutdown was requested after it or
    during the sleep. *)
Record BridgeAttempt := mkBridgeAttempt {
  ba_cancelled : bool;
  ba_io : BridgeIo;
  ba_elapsed : Z;
  ba_cancelled_after : bool;
  ba_cancelled_asleep : bool;
}.

(** The sleeps of the loop, what was sent, what was acknowledged, and the inbound
    state, which the attempts share. *)
Fixpoint supervise (cfg : NatsConfig) (host_tag : string) (signing : option FederationSigning)
    (backoff : Z) (attempts : list BridgeAttempt) (st : Inbound) :
    list Z * list (string * string) * Inbound :=
  match attempts with
  | [] => ([], [], st)
  | a :: attempts =>
      if ba_cancelled a then ([], [], st)
      else
        match run_bridge cfg host_tag signing (ba_io a) st with
        | Ok (sent, _, st) => ([], sent, st)
        | Err _ =>
            if ba_cancelled_after a then ([], [], st)
            else
              let healthy_run := (NATS_HEALTHY_RUN_RESET_THRESHOLD <=? ba_elapsed a)%Z in
              let '(sleep_for, next) := nats_bridge_backoff backoff healthy_run in
              if ba_cancelled_asleep a then ([sleep_for], [], st)
              else
                let '(sleeps, sent, st) := supervise cfg host_tag signing next attempts st in
                (sleep_for :: sleeps, sent, st)
        end
  end.

(** The spawn of the bridge task. *)
Definition nats_task (enabled : bool) (cfg : NatsConfig) (host_tag : string)
    (signing : option FederationSigning) (attempts : list BridgeAttempt) (st : Inbound) :
    option (list Z * list (string * string) * Inbound) :=
  if enabled && negb (bool_decide (trim (nc_url cfg) = "")) then
    Some (supervise cfg host_tag signing NATS_MIN_RETRY_BACKOFF attempts st)
  else None.
End bridge.

(** ** Laws of the wire format

    [serde]: the markers are skipped, so a decoded event has them unset; an event
    is read back with its identifier, class and host tag; JSON text is UTF-8; an
    envelope is read back; the text of an event has none of an envelope's
    fields, and the text of an envelope lacks required fields of an event. *)
Class FederationWireLaws `{FederationWire} := {
  decoded_unmarked b e : event_from_slice b = Ok e -> ev_federated e = false /\ ev_federation_verified e = false;
  event_read_back e b : event_to_vec e = Some b ->
    utf8_valid b = true /\ envelope_from_slice b = None /\
    exists e', event_from_slice b = Ok e' /\ ev_id e' = ev_id e /\ ev_class_uid e' = ev_class_uid e /\
      ev_host_tag e' = ev_host_tag e;
  envelope_read_back env b : envelope_to_vec env = Ok b ->
    envelope_from_slice b = Some env /\ forall e, event_from_slice b <> Ok e;
}.

(** A trusted key that belongs to a secret key accepts what it signs. *)
Definition key_pair `{FederationKeys} (sk : SecretKey) (pk : PublicKey) : Prop :=
  forall bytes text, minisign_sign sk bytes = Ok text ->
    exists signature, signature_decode text = Ok signature /\ key_verify pk bytes signature = true.
