(* ===== verification/FederationProps.v ===== *)
(** * Properties of the federation bridge

    What the pumps of crates/selfdef-nats/src/lib.rs let through, how the signing
    modes of two bridges work together, and what holds in a federation of
    bridges around one server: provenance of verified events, no forwarding of
    received events, and how far a marker travels. *)

From S2P Require Import Prelude Core Signing Bus Sigma SigmaEngine Responder ResponderProps Federation.
From stdpp Require Import options.

(** ** UTF-8 *)

Lemma utf8_valid_start a s :
  utf8_valid_go [] (String a s) =
    match utf8_needs (byte a) with Some need => utf8_valid_go need s | None => false end.
Proof. unfold utf8_needs. simpl. by repeat case_match. Qed.

(** A valid text is unchanged by the lossy conversion. *)
Lemma lossy_go_valid s need pend :
  utf8_valid_go need s = true -> (need = [] -> pend = "") -> lossy_go need pend s = pend +:+ s.
Proof.
  revert need pend. induction s as [|a s IH]; intros need pend Hv Hp.
  - destruct need; [by rewrite Hp|done].
  - destruct need as [|[lo hi] need].
    + rewrite Hp by done. rewrite utf8_valid_start in Hv. simpl. destruct (utf8_needs (byte a)) as [[|r need]|]; [| |done].
      * by rewrite IH.
      * by rewrite IH.
    + simpl in Hv. apply andb_true_iff in Hv as [Hr Hv]. simpl. rewrite Hr.
      destruct need; rewrite IH by done; by rewrite <-str_app_String.
Qed.

Lemma from_utf8_lossy_valid s : utf8_valid s = true -> from_utf8_lossy s = s.
Proof. intros Hv. unfold from_utf8_lossy. by rewrite lossy_go_valid. Qed.

(** ** One payload *)

Section pumps.
Context `{FederationKeys} `{FederationWire}.

(** What a payload becomes on the local bus. *)
Definition admitted (payload local : string) (signing : option FederationSigning) : option Event :=
  match resolve_payload payload signing with
  | None => None
  | Some (bytes, verified) =>
      match event_from_slice bytes with
      | Err _ => None
      | Ok event =>
          if bool_decide (ev_host_tag event = local) then None
          else Some (if verified then with_federation_verified true (with_federated true event)
                     else with_federated true event)
      end
  end.

(** A payload is signed for a bridge: an envelope whose signature the key trusted
    for its identifier accepts over exactly the bytes that are decoded. *)
Definition signed_for (fd : FederationSigning) (payload kid bytes : string) : Prop :=
  exists env pk signature, envelope_from_slice payload = Some env /\ env_kid env = kid /\ env_event env = bytes /\
    fd_peer_keys fd !! kid = Some pk /\ signature_decode (env_sig env) = Ok signature /\
    key_verify pk bytes signature = true.

Lemma resolve_verified payload signing bytes :
  resolve_payload payload signing = Some (bytes, true) <->
  exists fd kid, signing = Some fd /\ signed_for fd payload kid bytes.
Proof.
  unfold resolve_payload, signed_for, verify. split.
  - destruct signing as [fd|]; [|done]. destruct (envelope_from_slice payload) as [env|]; [|done].
    destruct (fd_peer_keys fd !! env_kid env) as [pk|] eqn:Ek; [|done].
    destruct (signature_decode (env_sig env)) as [sg|] eqn:Es; [|done].
    destruct (key_verify _ _ _) eqn:Ev; [|done]. intros; simplify_eq. naive_solver.
  - intros (fd & kid & -> & env & pk & sg & -> & <- & <- & -> & -> & ->). done.
Qed.

Lemma resolve_plain payload signing bytes :
  resolve_payload payload signing = Some (bytes, false) <->
  bytes = payload /\ (signing = None \/ envelope_from_slice payload = None).
Proof.
  unfold resolve_payload. destruct signing as [fd|]; [|naive_solver].
  destruct (envelope_from_slice payload) as [env|]; [|naive_solver].
  destruct (verify fd env); naive_solver.
Qed.

Lemma admitted_host payload local signing e :
  admitted payload local signing = Some e -> ev_host_tag e <> local /\ ev_federated e = true.
Proof.
  unfold admitted. destruct (resolve_payload _ _) as [[bytes v]|]; [|done].
  destruct (event_from_slice bytes) as [ev|]; [|done]. case_bool_decide; [done|].
  destruct v; intros; simplify_eq; by destruct ev.
Qed.

(** ** Runs of the pumps *)

Fixpoint core_payloads (wakes : list InboundWake) : list string :=
  match wakes with InNext (Some p) :: wakes => p :: core_payloads wakes | _ => [] end.
Definition jet_wake (w : JetWake) : option InboundWake :=
  match w with
  | JetShutdown => Some InShutdown
  | JetEnd => Some (InNext None)
  | JetRecvError _ => None
  | JetMessage _ payload _ => Some (InNext (Some payload))
  end.
Fixpoint received (wakes : list OutboundWake) : list Event :=
  match wakes with
  | OutRecv (Ok e) _ :: wakes => e :: received wakes
  | OutRecv (Err (Lagged _)) _ :: wakes => received wakes
  | _ => []
  end.

Lemma run_inbound_payloads tag signing wakes st :
  run_inbound tag signing wakes st =
    foldl (fun st p => republish_inbound p tag signing st) st (core_payloads wakes).
Proof.
  revert st. induction wakes as [|[|[p|]] wakes IH]; intros st; [done..| |done]. simpl. apply IH.
Qed.

Lemma run_outbound_sent tag subject signing wakes :
  run_outbound tag subject signing wakes = pair subject <$> omap (outbound_payload tag signing) (received wakes).
Proof.
  induction wakes as [|w wakes IH]; [done|]. destruct w as [|[e|[|n|]] ans]; simpl; try done.
  destruct (outbound_payload tag signing e); simpl; by rewrite IH.
Qed.

Definition jet_out_wake (w : JetOutboundWake) : OutboundWake :=
  match w with
  | JetOutShutdown => OutShutdown
  | JetOutRecv r answer => OutRecv r (match answer with Ok ack => ack | Err e => Err e end)
  end.

(** Both modes send the same payloads for the same bus. *)
Lemma run_jetstream_outbound_core tag subject signing wakes :
  run_jetstream_outbound tag subject signing wakes = run_outbound tag subject signing (jet_out_wake <$> wakes).
Proof.
  induction wakes as [|w wakes IH]; [done|]. destruct w as [|[e|[|n|]] ans]; simpl; try done.
  destruct (outbound_payload tag signing e); by rewrite IH.
Qed.

(** The outbound pumps send one payload for each event of the local bus that
    carries the local host tag and can be encoded, in the order of the bus, to the
    host's subject, in either mode, and nothing else; a lag of the bus does not
    stop them. *)
Theorem outbound_exact tag subject signing wakes jwakes :
  run_outbound tag subject signing wakes = pair subject <$> omap (outbound_payload tag signing) (received wakes) /\
  run_jetstream_outbound tag subject signing jwakes =
    pair subject <$> omap (outbound_payload tag signing) (received (jet_out_wake <$> jwakes)) /\
  (forall e p, outbound_payload tag signing e = Some p -> ev_host_tag e = tag).
Proof.
  split; [apply run_outbound_sent|]. split; [rewrite run_jetstream_outbound_core; apply run_outbound_sent|].
  intros e p. unfold outbound_payload, is_local_originated. by case_bool_decide.
Qed.

(** The two modes treat messages alike: the durable loop publishes what the
    core loop publishes for the same messages, receive errors skipped, and
    acknowledges, in order, exactly the messages whose acknowledgement the server
    took, each only after it was processed. *)
Theorem jetstream_inbound_core tag signing wakes acked st :
  (run_jetstream_inbound tag signing wakes acked st).2 = run_inbound tag signing (omap jet_wake wakes) st /\
  exists n, (run_jetstream_inbound tag signing wakes acked st).1 =
    acked ++ omap (fun w => match w with JetMessage seq _ (Ok _) => Some seq | _ => None end) (take n wakes) /\
  core_payloads (omap jet_wake wakes) =
    omap (fun w => match w with JetMessage _ p _ => Some p | _ => None end) (take n wakes).
Proof.
  revert acked st. induction wakes as [|w wakes IH]; intros acked st; simpl.
  { split; [done|]. exists 0. by rewrite app_nil_r. }
  destruct w as [| |e|seq p ack]; simpl; [split; [done|]; exists 0; by rewrite app_nil_r..| |].
  - destruct (IH acked st) as [E (n & E1 & E2)]. split; [done|]. by exists (S n).
  - destruct (IH (if is_ok ack then acked ++ [seq] else acked) (republish_inbound p tag signing st))
      as [E (n & E1 & E2)].
    split; [done|]. exists (S n). split; [|simpl; f_equal; exact E2]. rewrite E1.
    destruct ack; simpl; by rewrite <-?app_assoc.
Qed.

(** Nothing that came in goes out again. *)
Lemma admitted_not_forwarded payload local signing signing' e :
  admitted payload local signing = Some e -> outbound_payload local signing' e = None.
Proof.
  intros [Hh _]%admitted_host. unfold outbound_payload, is_local_originated. by rewrite bool_decide_false.
Qed.
End pumps.

(** ** The state of a federation *)

Record Net := mkNet {
  net_wire : list string;
  net_bus : string -> list Event;
  net_sent : list (string * string);
}.

Definition net0 : Net := mkNet [] (fun _ => []) [].

Definition bus_add (h : string) (es : list Event) (bus : string -> list Event) : string -> list Event :=
  fun k => if bool_decide (k = h) then bus k ++ es else bus k.

Lemma bus_add_incl h es bus k e : e ∈ bus k -> e ∈ bus_add h es bus k.
Proof. unfold bus_add. case_bool_decide; set_solver. Qed.

Lemma elem_of_bus_add h es bus k e : e ∈ bus_add h es bus k -> e ∈ bus k \/ k = h /\ e ∈ es.
Proof. unfold bus_add. case_bool_decide; set_solver. Qed.

(** ** With the laws of the wire format *)

Section laws.
Context `{FederationKeys} `{FederationWireLaws}.
#[local] Set Default Proof Using "Type*".

Lemma republish_admitted payload local signing st :
  republish_inbound payload local signing st =
    match admitted payload local signing with
    | None => st
    | Some e => mkInbound (fetch_add_1 (in_federated st))
                  (if ev_federation_verified e then fetch_add_1 (in_verified st) else in_verified st)
                  (in_published st ++ [e])
    end.
Proof.
  unfold republish_inbound, admitted, decode_event. destruct (resolve_payload _ _) as [[bytes v]|]; [|done].
  destruct (event_from_slice bytes) as [ev|] eqn:E; [|done]. case_bool_decide; [done|].
  apply decoded_unmarked in E as [_ Ev]. destruct v, ev; simpl in *; by subst.
Qed.

Lemma admitted_verified payload local signing e :
  admitted payload local signing = Some e ->
  (ev_federation_verified e = true <->
   exists fd kid bytes, signing = Some fd /\ signed_for fd payload kid bytes /\
     exists e0, event_from_slice bytes = Ok e0 /\ e = with_federation_verified true (with_federated true e0)).
Proof.
  unfold admitted. destruct (resolve_payload _ _) as [[bytes v]|] eqn:Er; [|done].
  destruct (event_from_slice bytes) as [ev|] eqn:E; [|done]. case_bool_decide; [done|]. intros; simplify_eq.
  assert (Hu := decoded_unmarked _ _ E). destruct v.
  - split; [|by destruct ev]. intros _. apply resolve_verified in Er as (fd & kid & -> & Hs). eauto 10.
  - split; [destruct ev; naive_solver|]. intros (fd & kid & bytes' & -> & Hs & e0 & He0 & Heq).
    assert (Hr : resolve_payload payload (Some fd) = Some (bytes', true)) by (apply resolve_verified; eauto).
    congruence.
Qed.

(** Published events and counters of a run over payloads. *)
Lemma foldl_republish tag signing ps st :
  let new := omap (fun p => admitted p tag signing) ps in
  foldl (fun st p => republish_inbound p tag signing st) st ps =
    mkInbound (Nat.iter (length new) fetch_add_1 (in_federated st))
      (Nat.iter (length (filter (fun e => ev_federation_verified e = true) new)) fetch_add_1 (in_verified st))
      (in_published st ++ new).
Proof.
  simpl. revert st. induction ps as [|p ps IH]; intros st; simpl.
  { rewrite app_nil_r. by destruct st. }
  rewrite IH, republish_admitted. destruct (admitted p tag signing) as [e|]; [|done].
  rewrite filter_cons. simpl. rewrite <-app_assoc.
  destruct (ev_federation_verified e) eqn:Ev; [rewrite decide_True by done|rewrite decide_False by done];
    by rewrite ?Nat.iter_swap.
Qed.

Definition added (n : nat) (c : option Z) : option Z := (fun x => (x + Z.of_nat n) `mod` 2 ^ 64)%Z <$> c.

Lemma iter_fetch_add n c : (forall x, c = Some x -> 0 <= x < 2 ^ 64)%Z -> Nat.iter n fetch_add_1 c = added n c.
Proof.
  intros Hc. induction n as [|n IH]; simpl.
  - destruct c as [x|]; [|done]. specialize (Hc x eq_refl). unfold added. simpl.
    by rewrite Z.add_0_r, Z.mod_small.
  - rewrite IH. destruct c as [x|]; [|done]. unfold added, fetch_add_1, wrapping_add_u64. simpl.
    rewrite Z.add_mod_idemp_l by lia. do 2 f_equal. lia.
Qed.

(** What a payload may become. Either a trusted peer signed the bytes that are
    decoded, and the event is marked verified; or the payload itself is decoded, which
    happens only without signing material or when it is no envelope, and the event is
    marked unverified. Its host tag is foreign, and nothing but the two marks is
    changed. *)
Definition admits (tag : string) (signing : option FederationSigning) (payload : string) (e : Event) : Prop :=
  exists (trusted : bool) bytes e0,
    (if trusted then exists fd kid, signing = Some fd /\ signed_for fd payload kid bytes
     else bytes = payload /\ (signing = None \/ envelope_from_slice payload = None)) /\
    event_from_slice bytes = Ok e0 /\ ev_host_tag e0 <> tag /\
    e = with_federation_verified trusted (with_federated true e0).

Inductive admits_all (tag : string) (signing : option FederationSigning) : list string -> list Event -> Prop :=
| admits_none : admits_all tag signing [] []
| admits_drop p ps es : (forall e, ~ admits tag signing p e) -> admits_all tag signing ps es ->
    admits_all tag signing (p :: ps) es
| admits_take p ps e es : admits tag signing p e -> admits_all tag signing ps es ->
    admits_all tag signing (p :: ps) (e :: es).

Lemma admitted_admits payload tag signing e : admitted payload tag signing = Some e <-> admits tag signing payload e.
Proof.
  unfold admitted, admits. split.
  - destruct (resolve_payload _ _) as [[bytes v]|] eqn:Er; [|done]. destruct (event_from_slice bytes) as [e0|] eqn:Ee; [|done].
    case_bool_decide as Hh; [done|]. intros [= <-]. exists v, bytes, e0. split; [|split; [done|split; [done|]]].
    + destruct v; [by apply resolve_verified|by apply resolve_plain].
    + apply decoded_unmarked in Ee as [_ Hv]. destruct v, e0; simpl in *; by subst.
  - intros ([] & bytes & e0 & Hr & He & Hh & ->).
    + rewrite (proj2 (resolve_verified _ _ _) Hr), He. by rewrite bool_decide_false.
    + rewrite (proj2 (resolve_plain _ _ _) Hr), He, bool_decide_false by done.
      apply decoded_unmarked in He as [_ Hv]. destruct e0; simpl in *; by subst.
Qed.

Lemma omap_admits_all tag signing ps : admits_all tag signing ps (omap (fun p => admitted p tag signing) ps).
Proof.
  induction ps as [|p ps IH]; simpl; [constructor|]. destruct (admitted p tag signing) as [e|] eqn:E.
  - constructor; [by apply admitted_admits|done].
  - constructor; [|done]. intros e He%admitted_admits. congruence.
Qed.

(** C9: the trust boundary of the bridge, exactly. A run of the inbound loop publishes,
    in order, one event for each payload that is admitted and nothing for any other. A
    payload is admitted as verified when it is an envelope with a valid signature of a
    trusted peer over the very bytes that are decoded; as unverified when the bridge
    has no signing material or the payload is no envelope, and then the payload itself
    is decoded; an envelope that does not verify is never admitted. The event is
    the decoded one, of a foreign host, with the mark of a federated event set and the
    mark of a verified one set accordingly. The two counters count, modulo 2^64,
    what was published and what of it was verified. *)
Theorem inbound_trust_boundary tag signing wakes st :
  exists new, in_published (run_inbound tag signing wakes st) = in_published st ++ new /\
    admits_all tag signing (core_payloads wakes) new /\
    ((forall x, in_federated st = Some x -> 0 <= x < 2 ^ 64)%Z ->
     in_federated (run_inbound tag signing wakes st) = added (length new) (in_federated st)) /\
    ((forall x, in_verified st = Some x -> 0 <= x < 2 ^ 64)%Z ->
     in_verified (run_inbound tag signing wakes st) =
       added (length (filter (fun e => ev_federation_verified e = true) new)) (in_verified st)).
Proof.
  rewrite run_inbound_payloads, foldl_republish. simpl. eexists. split; [done|]. split_and!.
  - apply omap_admits_all.
  - apply iter_fetch_add.
  - apply iter_fetch_add.
Qed.

Lemma sign_Ok fd tag bytes payload :
  sign fd tag bytes = Ok payload <->
  exists sig, minisign_sign (fd_secret fd) bytes = Ok sig /\
    envelope_to_vec (mkSignedEnvelope tag (from_utf8_lossy bytes) sig) = Ok payload.
Proof.
  unfold sign. destruct (minisign_sign _ _) as [sig|]; [|split; [done|by intros (? & ? & _)]].
  split.
  - destruct (envelope_to_vec _) eqn:E; intros; simplify_eq. eauto.
  - intros (sig' & [= <-] & ->). done.
Qed.

(** The bytes of an event of another host, once resolved. *)
Lemma admitted_bytes payload local signing e bytes v :
  event_to_vec e = Some bytes -> ev_host_tag e <> local ->
  resolve_payload payload signing = Some (bytes, v) ->
  exists e', admitted payload local signing = Some e' /\
    ev_id e' = ev_id e /\ ev_host_tag e' = ev_host_tag e /\ ev_federation_verified e' = v.
Proof.
  intros Eb Hl Hr. destruct (event_read_back e bytes Eb) as (_ & _ & e1 & He1 & Hid & _ & Ht).
  unfold admitted. rewrite Hr, He1, bool_decide_false by congruence. eexists. split; [done|].
  apply decoded_unmarked in He1 as [_ Hv]. destruct v, e1; simpl in *; by subst.
Qed.

Lemma signed_payload e host fd payload :
  encode_outbound e host (Some fd) = Some payload ->
  exists bytes sig, event_to_vec e = Some bytes /\ minisign_sign (fd_secret fd) bytes = Ok sig /\
    envelope_from_slice payload = Some (mkSignedEnvelope host bytes sig) /\
    forall e', event_from_slice payload <> Ok e'.
Proof.
  unfold encode_outbound. destruct (event_to_vec e) as [bytes|] eqn:Eb; [|done].
  destruct (event_read_back e bytes Eb) as (Hu & _).
  destruct (sign fd host bytes) as [p|] eqn:Es; [|done]. intros [= <-].
  apply sign_Ok in Es as (sig & Hsig & Henv). rewrite from_utf8_lossy_valid in Henv by done.
  apply envelope_read_back in Henv as [Hrb Hno]. eauto 8.
Qed.

Lemma signed_delivery e host local fd fd' pk payload :
  ev_host_tag e = host -> host <> local -> encode_outbound e host (Some fd) = Some payload ->
  fd_peer_keys fd' !! host = Some pk -> key_pair (fd_secret fd) pk ->
  exists e', admitted payload local (Some fd') = Some e' /\
    ev_id e' = ev_id e /\ ev_host_tag e' = host /\ ev_federation_verified e' = true.
Proof.
  intros <- Hl (bytes & sig & Hb & Hsig & Hrb & _)%signed_payload Hk Hkp.
  destruct (Hkp bytes sig Hsig) as (sg & Hd & Hv). eapply admitted_bytes; [done..|].
  simpl. rewrite Hrb. unfold verify. simpl. by rewrite Hk, Hd, Hv.
Qed.

(** How the signing modes of a sender and a receiver work together, for every
    event a host forwards to another. A raw event arrives unverified in both
    receiving modes. A signed one arrives verified where the sender's key is
    trusted under the sender's host tag, and is dropped, not degraded to an
    unverified event, by a receiver without that key and by a receiver that
    runs unsigned. *)
Theorem delivery e host local sender receiver payload :
  ev_host_tag e = host -> host <> local -> encode_outbound e host sender = Some payload ->
  match sender, receiver with
  | None, _ =>
      exists e', admitted payload local receiver = Some e' /\
        ev_id e' = ev_id e /\ ev_host_tag e' = host /\ ev_federation_verified e' = false
  | Some _, None => admitted payload local receiver = None
  | Some fd, Some fd' =>
      (fd_peer_keys fd' !! host = None -> admitted payload local receiver = None) /\
      (forall pk, fd_peer_keys fd' !! host = Some pk -> key_pair (fd_secret fd) pk ->
         exists e', admitted payload local receiver = Some e' /\
           ev_id e' = ev_id e /\ ev_host_tag e' = host /\ ev_federation_verified e' = true)
  end.
Proof.
  intros Hh Hl Hp. destruct sender as [fd|].
  - destruct receiver as [fd'|].
    + split; [|intros; by eapply signed_delivery].
      destruct (signed_payload _ _ _ _ Hp) as (bytes & sig & _ & _ & Hrb & _).
      intros Hk. unfold admitted. simpl. rewrite Hrb. unfold verify. simpl. by rewrite Hk.
    + destruct (signed_payload _ _ _ _ Hp) as (bytes & sig & _ & _ & _ & Hno). unfold admitted. simpl.
      destruct (event_from_slice payload) as [e'|]; [|done]. by destruct (Hno e').
  - unfold encode_outbound in Hp. destruct (event_to_vec e) as [bytes|] eqn:Eb; [|done]. simplify_eq.
    destruct (event_read_back e payload Eb) as (_ & Hne & _).
    destruct (admitted_bytes payload local receiver e payload false Eb Hl) as (e' & He');
      [apply resolve_plain; auto|]. destruct receiver; eauto.
Qed.

(** ** A federation around one server

    Hosts by their tag, with their signing material. The server keeps every
    payload and hands any of them to any host, again and again if it likes. A
    host's bus also feeds its outbound pump. A local component publishes events
    under the tag of its host. An outsider may put any payload on
    the server, except one that carries a signature a trusted key accepts over
    bytes which that key's owner never signed. *)

Context (hosts : gmap string (option FederationSigning)).

(** A payload that passes for signed at some host. *)
Definition passes (payload kid bytes : string) : Prop :=
  exists h fd, hosts !! h = Some (Some fd) /\ signed_for fd payload kid bytes.

(** What the outbound pump makes of new events on the bus. *)
Definition forward (h : string) (signing : option FederationSigning) (es : list Event) (n : Net) : Net :=
  mkNet (net_wire n ++ omap (outbound_payload h signing) es)
    (bus_add h es (net_bus n))
    (net_sent n ++ match signing with
                   | Some _ => pair h <$> omap event_to_vec (filter (fun e => is_local_originated e h = true) es)
                   | None => []
                   end).

Inductive net_step : Net -> Net -> Prop :=
| net_local h signing e n : hosts !! h = Some signing -> ev_host_tag e = h ->
    net_step n (forward h signing [e] n)
| net_deliver h signing p n : hosts !! h = Some signing -> p ∈ net_wire n ->
    net_step n (forward h signing (option_list (admitted p h signing)) n)
| net_inject p n : (forall kid bytes, passes p kid bytes -> (kid, bytes) ∈ net_sent n) ->
    net_step n (mkNet (net_wire n ++ [p]) (net_bus n) (net_sent n)).

(** The provenance of a verified event on a bus. *)
Definition provenance (n : Net) (h : string) (e : Event) : Prop :=
  exists fd kid e0, hosts !! h = Some (Some fd) /\ is_Some (fd_peer_keys fd !! kid) /\
    kid <> h /\ ev_host_tag e = kid /\ e0 ∈ net_bus n kid /\
    ev_host_tag e0 = kid /\ ev_id e0 = ev_id e /\ ev_class_uid e0 = ev_class_uid e.

Record net_inv (n : Net) : Prop := {
  inv_wire p kid bytes : p ∈ net_wire n -> passes p kid bytes -> (kid, bytes) ∈ net_sent n;
  inv_sent kid bytes : (kid, bytes) ∈ net_sent n ->
    exists e, e ∈ net_bus n kid /\ ev_host_tag e = kid /\ event_to_vec e = Some bytes;
  inv_bus h e : e ∈ net_bus n h -> ev_host_tag e <> h -> ev_federation_verified e = true -> provenance n h e;
}.

Lemma forward_sent h signing es n kid bytes :
  (kid, bytes) ∈ net_sent (forward h signing es n) ->
  (kid, bytes) ∈ net_sent n \/
  kid = h /\ exists e, e ∈ es /\ ev_host_tag e = h /\ event_to_vec e = Some bytes.
Proof.
  simpl. rewrite elem_of_app. intros [Hin|Hin]; [by left|right]. destruct signing; [|by apply elem_of_nil in Hin].
  apply list_elem_of_fmap in Hin as (b & [= -> ->] & (e & He & Hb)%list_elem_of_omap).
  apply list_elem_of_filter in He as [Hl He]. apply bool_decide_eq_true in Hl. eauto.
Qed.

(** A payload that the outbound pump produced passes for signed only if it is the
    envelope just signed. *)
Lemma forward_wire h signing es n p kid bytes :
  p ∈ omap (outbound_payload h signing) es -> passes p kid bytes ->
  (kid, bytes) ∈ net_sent (forward h signing es n).
Proof.
  intros (e & He & Hp)%list_elem_of_omap (h' & fd & _ & env & pk & sg & Henv & <- & <- & _).
  unfold outbound_payload in Hp. destruct (is_local_originated e h) eqn:Hl; [|done]. simpl in Hp.
  unfold encode_outbound in Hp. destruct (event_to_vec e) as [b|] eqn:Eb; [|done].
  destruct (event_read_back e b Eb) as (Hu & Hne & _). destruct signing as [fd'|]; [|by simplify_eq; congruence].
  destruct (sign fd' h b) as [q|] eqn:Es; [|done]. simplify_eq.
  apply sign_Ok in Es as (sig & _ & Hv). rewrite from_utf8_lossy_valid in Hv by done.
  apply envelope_read_back in Hv as [Hv _]. rewrite Hv in Henv. simplify_eq. simpl.
  apply elem_of_app. right. apply list_elem_of_fmap. eexists. split; [done|].
  apply list_elem_of_omap. exists e. split; [|done]. by apply list_elem_of_filter.
Qed.

Lemma net_provenance_mono n n' h e :
  (forall k x, x ∈ net_bus n k -> x ∈ net_bus n' k) -> provenance n h e -> provenance n' h e.
Proof. intros Hm (fd & kid & e0 & ? & ? & ? & ? & ? & ?). exists fd, kid, e0. auto 10. Qed.

Lemma forward_inv h signing es n :
  hosts !! h = Some signing -> net_inv n ->
  (forall e, e ∈ es -> ev_host_tag e <> h -> ev_federation_verified e = true -> provenance n h e) ->
  net_inv (forward h signing es n).
Proof.
  intros Hh Hinv Hes. constructor.
  - intros p kid bytes [Hp|Hp]%elem_of_app Hpass; [|by eapply forward_wire].
    simpl. apply elem_of_app. left. by eapply inv_wire.
  - intros kid bytes Hs%forward_sent. simpl. destruct Hs as [Hs|(-> & e & He & Ht & Hb)].
    + destruct (inv_sent _ Hinv _ _ Hs) as (e & He & ? & ?). exists e. split; [|done]. by apply bus_add_incl.
    + exists e. split; [|done]. unfold bus_add. rewrite bool_decide_true by done. set_solver.
  - intros k e [Hin|[-> Hin]]%elem_of_bus_add Ht Hv; (eapply net_provenance_mono; [intros; by apply bus_add_incl|]).
    + by eapply inv_bus.
    + by apply Hes.
Qed.

Lemma admitted_provenance n h signing p e :
  hosts !! h = Some signing -> net_inv n -> p ∈ net_wire n ->
  admitted p h signing = Some e -> ev_federation_verified e = true -> provenance n h e.
Proof.
  intros Hh Hinv Hp Ha Hv. assert (Hadm := admitted_host _ _ _ _ Ha).
  apply (admitted_verified _ _ _ _ Ha) in Hv as (fd & kid & bytes & -> & Hs & e0 & He0 & ->).
  assert (Hsent : (kid, bytes) ∈ net_sent n) by (eapply (inv_wire _ Hinv); [done|]; by exists h, fd).
  destruct (inv_sent _ Hinv _ _ Hsent) as (e1 & He1 & Ht1 & Hb).
  destruct (event_read_back e1 bytes Hb) as (_ & _ & e2 & He2 & Hid & Hc & Ht). rewrite He0 in He2. simplify_eq.
  destruct Hs as (env & pk & sg & _ & _ & _ & Hk & _). exists fd, (ev_host_tag e1), e1.
  destruct e2; simpl in *; subst. split_and!; try done. by apply Hadm.
Qed.

Lemma net_step_inv n n' : net_step n n' -> net_inv n -> net_inv n'.
Proof.
  intros [h signing e m Hh Ht|h signing p m Hh Hp|p m Hi] Hinv.
  - apply forward_inv; [done..|]. by intros x ->%list_elem_of_singleton.
  - apply forward_inv; [done..|]. intros x Hx Ht Hv. destruct (admitted p h signing) as [y|] eqn:Ha; [|set_solver].
    apply list_elem_of_singleton in Hx as ->. by eapply admitted_provenance.
  - constructor; simpl; [|apply (inv_sent _ Hinv)|apply (inv_bus _ Hinv)].
    intros q kid bytes [Hq| ->%list_elem_of_singleton]%elem_of_app Hpass; [by eapply inv_wire|by apply Hi].
Qed.

(** C10: authenticity across the federation. In every reachable state, an event of
    another host that is marked verified on some bus was published, with the
    same identifier, class and host tag, on the bus of the peer that its host
    tag names, and that peer's key is trusted by the receiver: replays,
    reordering and forged payloads notwithstanding, as long as trusted peers keep
    their keys. *)
Theorem federation_authentic n h e :
  rtc net_step net0 n -> e ∈ net_bus n h -> ev_host_tag e <> h -> ev_federation_verified e = true ->
  provenance n h e.
Proof.
  intros Hr. assert (Hinv : net_inv n); [|by apply (inv_bus _ Hinv)].
  assert (H00 : net_inv net0) by (constructor; simpl; set_solver).
  clear -Hr H00 H2. revert H00. induction Hr as [|x y z Hxy _ IH]; [done|]. intros Hx. by eapply IH, net_step_inv.
Qed.

(** No amplification. Delivering a payload, to any host and any number of times,
    never puts another payload on the server, and publishes at most one event. *)
Theorem delivery_not_forwarded h signing p n :
  net_wire (forward h signing (option_list (admitted p h signing)) n) = net_wire n /\
  length (option_list (admitted p h signing)) <= 1.
Proof using Type.
  simpl. destruct (admitted p h signing) as [e|] eqn:Ha; simpl; [|split; [by rewrite app_nil_r|lia]].
  rewrite (admitted_not_forwarded _ _ _ signing _ Ha). split; [by rewrite app_nil_r|lia].
Qed.
End laws.

(** ** Limits of the signatures *)

Section limits.
Context `{FederationKeys} `{FederationWireLaws}.
#[local] Set Default Proof Using "Type*".

(** A signature vouches for the sender, not for the origin of what it sends: an
    event that reached a host unsigned leads to a finding there that the host's
    own responder treats as unverified, and that the host nevertheless signs and
    forwards without the markers; every peer that trusts the host receives the
    finding as verified, and its responder never refuses it as federated. *)
Theorem correlation_launders_origin `{RuleLibs, !UnicodeTables, !WireFormat}
    st rule seq key e hostB hostC fdB fdC pk q :
  ev_federated e = true -> ev_federation_verified e = false ->
  let f := build_finding st rule e hostB seq key in
  outbound_payload hostB (Some fdB) f = Some q ->
  fd_peer_keys fdC !! hostB = Some pk -> key_pair (fd_secret fdB) pk -> hostB <> hostC ->
  ev_federated f = true /\ ev_federation_verified f = false /\
  exists f', admitted q hostC (Some fdC) = Some f' /\ ev_id f' = ev_id f /\
    ev_federated f' = true /\ ev_federation_verified f' = true /\
    forall cfg env s j name v, (handle_finding cfg f' true env s).1 !! j = Some (name, v) -> v <> RefusedFederated.
Proof.
  intros Hf Hv f Hq Hk Hkp Hne. assert (Hs := build_finding_spec st rule e hostB seq key).
  fold f in Hs. destruct Hs as (_ & _ & _ & Ht & _ & _ & _ & _ & Hff & Hfv & _).
  rewrite Hf, Hv in *. split_and!; [done..|]. unfold outbound_payload in Hq.
  destruct (is_local_originated f hostB); [|done]. simpl in Hq.
  destruct (signed_delivery f hostB hostC fdB fdC pk q Ht Hne Hq Hk Hkp) as (f' & Ha & Hid & _ & Hver). exists f'.
  split_and!; [done..|by apply (admitted_host _ _ _ _ Ha)|done|].
  intros cfg env s j name v Hj. apply handle_actions_lookup in Hj as [_ (s' & ->)].
  unfold handle_action. rewrite Hver. simpl. rewrite andb_false_r, andb_false_l. destruct (negb _); [done|].
  destruct (dedup_gate _ _ _ _ _ _) as [[] ?]; [|done]. by destruct (cap_gate _ _ _ _ _) as [[] ?].
Qed.

(** A trusted key is not bound to the host tag of the events it signs: the holder
    of a key that is trusted for one host can have an event accepted as a
    verified event of any other. *)
Theorem peer_speaks_for_any_host e b host other local fd pk secret sig payload :
  event_to_vec e = Some b -> ev_host_tag e = other -> other <> local ->
  fd_peer_keys fd !! host = Some pk -> key_pair secret pk -> minisign_sign secret b = Ok sig ->
  envelope_to_vec (mkSignedEnvelope host b sig) = Ok payload ->
  exists e', admitted payload local (Some fd) = Some e' /\ ev_id e' = ev_id e /\
    ev_host_tag e' = other /\ ev_federation_verified e' = true.
Proof.
  intros Eb <- Hl Hk Hkp Hsig Henv. destruct (Hkp b sig Hsig) as (sg & Hd & Hv).
  apply envelope_read_back in Henv as [Hrb _]. eapply admitted_bytes; [done..|].
  simpl. rewrite Hrb. unfold verify. simpl. by rewrite Hk, Hd, Hv.
Qed.
End limits.

(** Hosts whose tags differ only in characters that the durable name does not
    allow share one durable consumer, so the server divides the messages between
    them instead of delivering each message to both. *)
Theorem durable_names_collide prefix a b l r :
  durable_reserved a = true -> durable_reserved b = true ->
  all_bytes is_ascii (l +:+ a +:+ b) = true -> chars a = [a] -> chars b = [b] ->
  durable_consumer_name prefix (l +:+ a +:+ r) = durable_consumer_name prefix (l +:+ b +:+ r) /\
  durable_consumer_name prefix (l +:+ a +:+ r) = durable_consumer_name prefix (l +:+ "-" +:+ r).
Proof.
  intros Ha Hb Hasc Ea Eb. rewrite !all_bytes_app, !andb_true_iff in Hasc. destruct Hasc as (Hl & Hsa & Hsb).
  unfold durable_consumer_name, replace_chars.
  rewrite !(chars_app_ascii l), (chars_app_ascii a), (chars_app_ascii b), (chars_app_ascii "-") by done.
  rewrite Ea, Eb. rewrite !fmap_app. simpl. by rewrite Ha, Hb.
Qed.

(** ** The retry loop of the daemon *)

Section retry.
Context `{FederationKeys} `{FederationWire}.

Definition in_backoff (z : Z) : Prop := (NATS_MIN_RETRY_BACKOFF <= z <= NATS_MAX_RETRY_BACKOFF)%Z.

Lemma backoff_range prev healthy :
  in_backoff prev -> in_backoff (nats_bridge_backoff prev healthy).1 /\ in_backoff (nats_bridge_backoff prev healthy).2.
Proof.
  unfold in_backoff, nats_bridge_backoff, NATS_MIN_RETRY_BACKOFF, NATS_MAX_RETRY_BACKOFF. destruct healthy; simpl; lia.
Qed.

(** An attempt that fails while starting and is not interrupted. *)
Definition fails (cfg : NatsConfig) (tag : string) (signing : option FederationSigning) (a : BridgeAttempt) : Prop :=
  ba_cancelled a = false /\ ba_cancelled_after a = false /\ ba_cancelled_asleep a = false /\
  forall st, is_ok (run_bridge cfg tag signing (ba_io a) st) = false.

Lemma supervise_sleeps cfg tag signing backoff attempts st :
  in_backoff backoff -> Forall in_backoff (supervise cfg tag signing backoff attempts st).1.1.
Proof.
  revert backoff st. induction attempts as [|a attempts IH]; intros backoff st Hb; simpl; [done|].
  destruct (ba_cancelled a); [done|]. destruct (run_bridge _ _ _ _ _) as [[[sent acked] st']|]; [done|].
  destruct (ba_cancelled_after a); [done|].
  destruct (backoff_range backoff (NATS_HEALTHY_RUN_RESET_THRESHOLD <=? ba_elapsed a)%Z Hb) as [Hb1 Hb2].
  simpl in Hb1, Hb2. destruct (ba_cancelled_asleep a); [constructor; [exact Hb1|constructor]|].
  specialize (IH _ st Hb2). destruct (supervise _ _ _ _ _ _) as [[sleeps sent] st']. by constructor.
Qed.

Definition capped (k : Z) : Z := (NATS_MIN_RETRY_BACKOFF * 2 ^ k) `min` NATS_MAX_RETRY_BACKOFF.

Lemma capped_succ k : (0 <= k)%Z -> ((capped k * 2) `min` NATS_MAX_RETRY_BACKOFF)%Z = capped (k + 1).
Proof.
  intros Hk. unfold capped, NATS_MIN_RETRY_BACKOFF, NATS_MAX_RETRY_BACKOFF.
  rewrite Z.pow_add_r by lia. change (2 ^ 1)%Z with 2%Z. lia.
Qed.

Lemma supervise_failing cfg tag signing k attempts rest st i :
  Forall (fails cfg tag signing) attempts ->
  Forall (fun a => ba_elapsed a < NATS_HEALTHY_RUN_RESET_THRESHOLD)%Z attempts ->
  (0 <= k)%Z -> i < length attempts ->
  (supervise cfg tag signing (capped k) (attempts ++ rest) st).1.1 !! i = Some (capped (k + Z.of_nat i)).
Proof.
  intros Hf He. revert k st i. induction attempts as [|a attempts IH]; intros k st i Hk Hi; [simpl in Hi; lia|].
  apply Forall_cons in Hf as [(Ha & Hb & Hc & Hr) Hf]. apply Forall_cons in He as [Hel He].
  simpl. rewrite Ha. specialize (Hr st). destruct (run_bridge _ _ _ _ _) as [|]; [done|]. rewrite Hb.
  rewrite (proj2 (Z.leb_gt _ _)) by done. unfold nats_bridge_backoff. rewrite Hc, capped_succ by done.
  destruct (supervise _ _ _ _ _ _) as [[sleeps sent] st'] eqn:Es. destruct i as [|i]; simpl.
  - by rewrite Z.add_0_r.
  - assert (E := IH Hf He (k + 1)%Z st i). rewrite Es in E. simpl in E, Hi.
    rewrite E by lia. f_equal. f_equal. lia.
Qed.

(** The daemon retries a bridge that fails to start after between half a second
    and thirty seconds, the delay doubling from one failure to the next; it
    never gives up while shutdown is not requested. *)
Theorem retry_backoff cfg tag signing attempts rest st i :
  Forall in_backoff (supervise cfg tag signing NATS_MIN_RETRY_BACKOFF (attempts ++ rest) st).1.1 /\
  (Forall (fails cfg tag signing) attempts ->
   Forall (fun a => ba_elapsed a < NATS_HEALTHY_RUN_RESET_THRESHOLD)%Z attempts -> i < length attempts ->
   (supervise cfg tag signing NATS_MIN_RETRY_BACKOFF (attempts ++ rest) st).1.1 !! i = Some (capped (Z.of_nat i))).
Proof.
  split; [by apply supervise_sleeps|]. intros Hf He Hi. by apply (supervise_failing _ _ _ 0%Z).
Qed.
End retry.

(** ** Evaluation

    An event travels as its identifier, class and host tag, an envelope as its
    three parts on lines of their own; a signature is the key followed by the
    text. *)
Module FederationExamples.
Import SigmaEngine.DemoLibs Core.Demo.

#[local] Instance minisign : Minisign := {|
  PublicKey := string;
  MinisignSignature := string;
  key_from_base64 := fun s => Ok s;
  signature_decode := fun s => Ok s;
  key_verify := fun key bytes sg => bool_decide (sg = key +:+ bytes);
|}.
#[local] Instance keys : FederationKeys := {|
  SecretKey := string;
  SecretKeyBox := string;
  secret_box_from_string := fun s => Ok s;
  secret_from_unencrypted_box := fun s => Ok s;
  public_key_decode := fun s => Ok s;
  minisign_sign := fun sk b => Ok (sk +:+ b);
|}.

Definition lf : ascii := "010".
Definition no_lf : string -> bool := all_bytes (fun a => negb (bool_decide (a = lf))).

Definition event_text (e : Event) : option string :=
  if utf8_valid (ev_host_tag e) && (0 <=? ev_id e)%Z && (0 <=? ev_class_uid e)%Z then
    Some (String "E" (show_uint (ev_id e) +:+ String ":" (show_uint (ev_class_uid e) +:+ String ":" (ev_host_tag e))))
  else None.
Definition event_of_text (s : string) : result Event string :=
  match s with
  | String "E" s =>
      match split_once ":" s with
      | Some (id, s) =>
          match split_once ":" s with
          | Some (cls, tag) =>
              match digits_val id 0, digits_val cls 0 with
              | Some id, Some cls => Ok (event_new (mkStamp id 0 0) cls 1 SeverityId.High tag "peer" 0)
              | _, _ => Err "number"
              end
          | None => Err "class"
          end
      | None => Err "id"
      end
  | _ => Err "event"
  end.

#[local] Instance wire : FederationWire := {|
  event_to_vec := event_text;
  event_from_slice := event_of_text;
  envelope_to_vec := fun env =>
    if no_lf (env_kid env) && no_lf (env_event env) then
      Ok ("V" +:+ env_kid env +:+ String lf (env_event env +:+ String lf (env_sig env)))
    else Err "line feed";
  envelope_from_slice := fun s =>
    match s with
    | String "V" s =>
        match split_once lf s with
        | Some (kid, s) =>
            match split_once lf s with
            | Some (ev, sig) => Some (mkSignedEnvelope kid ev sig)
            | None => None
            end
        | None => None
        end
    | _ => None
    end;
|}.

Lemma digits_no_colon n : (0 <= n)%Z ->
  all_bytes (fun a => negb (bool_decide (a = ":"%char))) (show_uint n) = true.
Proof.
  intros Hn. eapply all_bytes_impl, show_uint_all, Hn. intros a. by case_bool_decide; subst.
Qed.

Lemma digits_ascii n : (0 <= n)%Z -> all_bytes is_ascii (show_uint n) = true.
Proof.
  intros Hn. eapply all_bytes_impl, show_uint_all, Hn. intros a. by destruct a as [[] [] [] [] [] [] [] []].
Qed.

Lemma utf8_valid_app_ascii s t : all_bytes is_ascii s = true -> utf8_valid (s +:+ t) = utf8_valid t.
Proof.
  unfold utf8_valid, is_ascii. induction s as [|a s IH]; [done|]. rewrite str_cons_app. simpl.
  intros [Ha Hs]%andb_true_iff. by rewrite Ha, IH.
Qed.

#[local] Instance wire_laws : FederationWireLaws.
Proof.
  split.
  - intros b e. simpl. unfold event_of_text. repeat case_match; intros; by simplify_eq.
  - intros e b. simpl. unfold event_text. destruct (_ && _ && _) eqn:Eg; [|done]. intros [= <-].
    apply andb_true_iff in Eg as [[Hu Hi%Z.leb_le]%andb_true_iff Hc%Z.leb_le]. split; [|split; [done|]].
    + change (utf8_valid (String "E" ?x)) with (utf8_valid x). rewrite utf8_valid_app_ascii by by apply digits_ascii.
      change (utf8_valid (String ":" ?x)) with (utf8_valid x). by rewrite utf8_valid_app_ascii by by apply digits_ascii.
    + eexists. split.
      * unfold event_of_text. rewrite split_once_app by by apply digits_no_colon.
        rewrite split_once_app by by apply digits_no_colon. rewrite !digits_val_show by done. reflexivity.
      * done.
  - intros [kid ev sig] b. simpl. destruct (no_lf kid && no_lf ev) eqn:E; [|done]. intros [= <-].
    apply andb_true_iff in E as [H1 H2]. split; [|done]. change ("V" +:+ ?x) with (String "V" x). simpl.
    by rewrite !split_once_app.
Qed.

Definition fdA : FederationSigning := {| fd_secret := "ka"; fd_peer_keys := {["B" := "kb"]} |}.
Definition fdB : FederationSigning := {| fd_secret := "kb"; fd_peer_keys := {["A" := "ka"]} |}.
Definition fdC : FederationSigning := {| fd_secret := "kc"; fd_peer_keys := {["B" := "kb"]} |}.
Definition ev (id : Z) (tag : string) : Event :=
  event_new (mkStamp id 0 0) PROCESS_ACTIVITY 1 SeverityId.High tag "auditd" 0.
Definition hosts : gmap string (option FederationSigning) := {["A" := Some fdA; "B" := Some fdB]}.

Lemma demo_pair sk : key_pair sk sk.
Proof. intros bytes text [= <-]. eexists. split; [done|]. by apply bool_decide_eq_true. Qed.

Definition payload_A : string := default "" (encode_outbound (ev 7 "A") "A" (Some fdA)).

Lemma inbound_trust_boundary_witness :
  let wakes := [InNext (Some payload_A); InNext (Some "garbage")] in
  let st := mkInbound (Some 0%Z) (Some 0%Z) [] in
  in_federated (run_inbound "B" (Some fdB) wakes st) = Some 1%Z /\
  in_verified (run_inbound "B" (Some fdB) wakes st) = Some 1%Z /\
  exists new, in_published (run_inbound "B" (Some fdB) wakes st) = [] ++ new /\
    admits_all "B" (Some fdB) [payload_A; "garbage"] new.
Proof.
  intros wakes st. split; [vm_compute; reflexivity|]. split; [vm_compute; reflexivity|].
  destruct (inbound_trust_boundary "B" (Some fdB) wakes st) as (new & E & Ha & _).
  exists new. split; [exact E|exact Ha].
Defined.

Lemma delivery_witness :
  exists e', admitted payload_A "B" (Some fdB) = Some e' /\
    ev_id e' = 7%Z /\ ev_host_tag e' = "A" /\ ev_federation_verified e' = true.
Proof.
  apply (delivery (ev 7 "A") "A" "B" (Some fdA) (Some fdB) payload_A
           ltac:(reflexivity) ltac:(discriminate) ltac:(vm_compute; reflexivity)) with "ka".
  - vm_compute. reflexivity.
  - apply demo_pair.
Defined.

(** A emits an event, the server delivers it to B. *)
Definition n1 : Net := forward "A" (Some fdA) [ev 7 "A"] net0.
Definition n2 : Net := forward "B" (Some fdB) (option_list (admitted payload_A "B" (Some fdB))) n1.

Lemma federation_authentic_witness :
  provenance hosts n2 "B" (with_federation_verified true (with_federated true
    (event_new (mkStamp 7 0 0) PROCESS_ACTIVITY 1 SeverityId.High "A" "peer" 0))).
Proof.
  apply (federation_authentic hosts n2 "B").
  - eapply rtc_l; [apply (net_local hosts "A" (Some fdA) (ev 7 "A") net0); [vm_compute; reflexivity|reflexivity]|].
    eapply rtc_once. apply (net_deliver hosts "B" (Some fdB) payload_A n1); [vm_compute; reflexivity|].
    apply list_elem_of_lookup. exists 0. vm_compute. reflexivity.
  - apply list_elem_of_lookup. exists 0. vm_compute. reflexivity.
  - discriminate.
  - reflexivity.
Defined.

Definition rule : CompiledRule := {|
  cr_id := "r1"; cr_title := "remote root shell"; cr_description := None; cr_level := SigmaLevel.High;
  cr_tags := []; cr_references := []; cr_author := None; cr_falsepositives := [];
  cr_logsource := mkLogSource None None None; cr_source_path := []; cr_matchers := ∅;
  cr_condition := Single "s"; cr_timeframe := None; cr_aggregator := None |}.
Definition unsigned_at_B : Event := with_federated true (ev 9 "X").
Definition finding_at_B : Event := build_finding (mkStamp 10 0 0) rule unsigned_at_B "B" 0 None.

Lemma correlation_launders_origin_witness :
  exists f', admitted (default "" (outbound_payload "B" (Some fdB) finding_at_B)) "C" (Some fdC) = Some f' /\
    ev_federation_verified finding_at_B = false /\ ev_federation_verified f' = true.
Proof.
  destruct (correlation_launders_origin (mkStamp 10 0 0) rule 0 None unsigned_at_B "B" "C" fdB fdC "kb"
    (default "" (outbound_payload "B" (Some fdB) finding_at_B)) ltac:(reflexivity) ltac:(reflexivity)
    ltac:(vm_compute; reflexivity) ltac:(vm_compute; reflexivity) (demo_pair "kb") ltac:(discriminate))
    as (_ & Hf & f' & Ha & _ & _ & Hv & _).
  exists f'. split; [exact Ha|split; [exact Hf|exact Hv]].
Defined.

Lemma peer_speaks_for_any_host_witness :
  exists e', admitted ("VA" +:+ String lf ("E5:1007:bank" +:+ String lf ("ka" +:+ "E5:1007:bank"))) "B" (Some fdB) = Some e' /\
    ev_id e' = 5%Z /\ ev_host_tag e' = "bank" /\ ev_federation_verified e' = true.
Proof.
  apply (peer_speaks_for_any_host (ev 5 "bank") "E5:1007:bank" "A" "bank" "B" fdB "ka" "ka" ("ka" +:+ "E5:1007:bank"));
    [vm_compute; reflexivity|reflexivity|discriminate|vm_compute; reflexivity|apply demo_pair|reflexivity|
     vm_compute; reflexivity].
Defined.

Lemma durable_names_collide_witness :
  durable_consumer_name "selfdef-bridge" "web.1" = durable_consumer_name "selfdef-bridge" "web/1" /\
  durable_consumer_name "selfdef-bridge" "web.1" = durable_consumer_name "selfdef-bridge" "web-1".
Proof. apply (durable_names_collide "selfdef-bridge" "." "/" "web" "1"); reflexivity. Defined.
End FederationExamples.
