(* ===== verification/NetText.v ===== *)
(** * Addresses and decimal fractions in text

    The standard library's [FromStr] of [IpAddr] and of [f64], as the collectors
    use them: addresses of records, and timestamps truncated to whole seconds. *)

From S2P Require Import Prelude Core.
From stdpp Require Import options.

(** ** [IpAddr::from_str] *)

(** [char::to_digit(16)]. *)
Definition hex_val (a : ascii) : option Z :=
  let n := byte a in
  if in_range 48 57 n then Some (Z.of_N n - 48)%Z
  else if in_range 97 102 n then Some (Z.of_N n - 87)%Z
  else if in_range 65 70 n then Some (Z.of_N n - 55)%Z
  else None.

(** The digits at the head of the input: their value and number, and the rest. *)
Fixpoint read_digits (digit : ascii -> option Z) (radix : Z) (s : string) (acc : Z) (count : nat) :
    Z * nat * string :=
  match s with
  | String a s' =>
      match digit a with
      | Some d => read_digits digit radix s' (acc * radix + d)%Z (S count)
      | None => (acc, count, s)
      end
  | "" => (acc, count, "")
  end.

(** [Parser::read_number] with a bound on the digits. *)
Definition read_number (digit : ascii -> option Z) (radix : Z) (max_digits : nat) (max : Z)
    (allow_zero_prefix : bool) (s : string) : option (Z * string) :=
  let '(result, count, rest) := read_digits digit radix s 0 0 in
  if decide (max_digits < count) then None
  else if decide (count = 0) then None
  else if negb allow_zero_prefix && starts_with s "0" && bool_decide (1 < count) then None
  else if (result <=? max)%Z then Some (result, rest) else None.

Definition read_given_char (c : ascii) (s : string) : option string :=
  match s with String a s' => if bool_decide (a = c) then Some s' else None | "" => None end.

(** [Parser::read_separator]: the separator is read before every item but the first. *)
Definition read_separator {A} (sep : ascii) (index : nat) (inner : string -> option (A * string)) (s : string) :
    option (A * string) :=
  match index with
  | O => inner s
  | S _ => s' ← read_given_char sep s; inner s'
  end.

Definition read_octet (index : nat) (s : string) : option (Z * string) :=
  read_separator "." index (read_number digit_val 10 3 255 false) s.

Definition read_ipv4 (s : string) : option (Z * string) :=
  '(a, s) ← read_octet 0 s; '(b, s) ← read_octet 1 s; '(c, s) ← read_octet 2 s; '(d, s) ← read_octet 3 s;
  Some ((((a * 256 + b) * 256 + c) * 256 + d)%Z, s).

(** [read_groups]: groups from index [i], [left] of them at most; the flag says
    that the last two came from an embedded IPv4 address. *)
Fixpoint read_groups (i left : nat) (s : string) : list Z * bool * string :=
  match left with
  | O => ([], false, s)
  | S left' =>
      let v4 := match left' with O => None | S _ => read_separator ":" i read_ipv4 s end in
      match v4 with
      | Some (v, s') => ([(v / 2 ^ 16)%Z; (v `mod` 2 ^ 16)%Z], true, s')
      | None =>
          match read_separator ":" i (read_number hex_val 16 4 65535 true) s with
          | Some (g, s') => let '(gs, f, rest) := read_groups (S i) left' s' in (g :: gs, f, rest)
          | None => ([], false, s)
          end
      end
  end.

Definition read_ipv6 (s : string) : option (list Z * string) :=
  let '(head, head_ipv4, rest) := read_groups 0 8 s in
  if decide (length head = 8) then Some (head, rest)
  else if head_ipv4 then None
  else
    s1 ← read_given_char ":" rest;
    s2 ← read_given_char ":" s1;
    let '(tail, _, rest) := read_groups 0 (8 - (length head + 1)) s2 in
    Some (head ++ replicate (8 - length head - length tail) 0%Z ++ tail, rest).

(** The whole text must be an address. *)
Definition parse_ip (s : string) : option IpAddr :=
  match read_ipv4 s with
  | Some (b, rest) => if bool_decide (rest = "") then Some (V4 b) else None
  | None =>
      match read_ipv6 s with
      | Some (segs, rest) => if bool_decide (rest = "") then Some (V6 segs) else None
      | None => None
      end
  end.

Example parse_ip_examples :
  parse_ip <$> ["192.0.2.75"; "2001:db8:0:1::1"; "::"; "::ffff:192.0.2.11"; "1.2.3"; "01.2.3.4"; "1.2.3.256";
                "1:2:3:4:5:6:7:8"; "1::2::3"; "1.2.3.4 "; "g::"; "1:2:3:4:5:6:7:8:9"]
  = [Some (V4 3221226059); Some (V6 [8193; 3512; 0; 1; 0; 0; 0; 1]); Some (V6 [0; 0; 0; 0; 0; 0; 0; 0]);
     Some (V6 [0; 0; 0; 0; 0; 65535; 49152; 523]); None; None; None;
     Some (V6 [1; 2; 3; 4; 5; 6; 7; 8]); None; None; None; None]%Z.
Proof. vm_compute. reflexivity. Qed.

(** ** [f64::from_str] followed by [trunc() as u64] *)

Fixpoint span_digits (s : string) : string * string :=
  match s with
  | String a s' =>
      match digit_val a with
      | Some _ => let '(d, r) := span_digits s' in (String a d, r)
      | None => ("", s)
      end
  | "" => ("", "")
  end.

(** The nearest double of [num / den], ties to even, truncated. A double has 53
    significant bits; [e] places the number between [2^52] and [2^53]. *)
Definition round_half_even (a b : Z) : Z :=
  (let q := a / b in
   let r := a `mod` b in
   if 2 * r <? b then q else if b <? 2 * r then q + 1 else if Z.even q then q else q + 1)%Z.

Definition scaled (num den e : Z) : Z * Z :=
  if (0 <=? e)%Z then (num, den * 2 ^ e)%Z else (num * 2 ^ (- e), den)%Z.

Definition double_trunc (num den : Z) : Z :=
  if (num <=? 0)%Z then 0%Z
  else
    let e0 := (Z.log2 num - Z.log2 den - 52)%Z in
    let '(a0, b0) := scaled num den e0 in
    let e := if (a0 / b0 <? 2 ^ 52)%Z then (e0 - 1)%Z else e0 in
    let '(a, b) := scaled num den e in
    let m := round_half_even a b in
    (if 0 <=? e then m * 2 ^ e else m / 2 ^ (- e))%Z.

(** The grammar of a decimal number without its sign: digits with at most one
    point, and an exponent. The value is the first number times ten to the second. *)
Definition decimal_number (s : string) : option (Z * Z) :=
  let '(int, s1) := span_digits s in
  let '(frac, s2) := match s1 with String "." s' => span_digits s' | _ => ("", s1) end in
  if bool_decide (int = "") && bool_decide (frac = "") then None
  else
    match
      match s2 with
      | "" => Some 0%Z
      | String c s3 =>
          if bool_decide (c = "e"%char) || bool_decide (c = "E"%char) then
            let '(neg, s4) := match s3 with
                              | String "-" s' => (true, s')
                              | String "+" s' => (false, s')
                              | _ => (false, s3)
                              end in
            let '(ds, rest) := span_digits s4 in
            if bool_decide (ds = "") || negb (bool_decide (rest = "")) then None
            else (fun n => if neg then (- n)%Z else n) <$> digits_val ds 0
          else None
      end
    with
    | None => None
    | Some exp =>
        m ← digits_val (int +:+ frac) 0;
        Some (m, exp - Z.of_nat (String.length frac))%Z
    end.

(** [as u64]: saturating, with NaN and negative numbers to zero. *)
Definition f64_number (negative : bool) (s : string) : option Z :=
  '(m, e10) ← decimal_number s;
  let v := if (0 <=? e10)%Z then double_trunc (m * 10 ^ e10) 1 else double_trunc m (10 ^ (- e10)) in
  Some (if negative then 0 else v `min` u64_max)%Z.

Definition f64_secs (s : string) : option Z :=
  let '(negative, body) := match s with
                           | String "-" s' => (true, s')
                           | String "+" s' => (false, s')
                           | _ => (false, s)
                           end in
  let low := to_ascii_lowercase body in
  if bool_decide (low = "inf") || bool_decide (low = "infinity") then
    Some (if negative then 0 else u64_max)%Z
  else if bool_decide (low = "nan") then Some 0%Z
  else f64_number negative body.

Example f64_secs_examples :
  f64_secs <$> ["1736944496.789"; "1.0"; "1e3"; ".5"; "5."; "."; "-3"; "inf"; "1_0"; "0.99999999999999999999";
                "1e30"; "9007199254740993"]
  = [Some 1736944496; Some 1; Some 1000; Some 0; Some 5; None; Some 0; Some u64_max; None; Some 1;
     Some u64_max; Some 9007199254740992]%Z.
Proof. vm_compute. reflexivity. Qed.

(** ** Facts *)

(** The text of an IPv4 address parses back to it. *)
Lemma read_digits_app ds rest acc count n :
  digits_val ds acc = Some n -> (forall a t, rest = String a t -> digit_val a = None) ->
  read_digits digit_val 10 (ds +:+ rest) acc count = (n, String.length ds + count, rest).
Proof.
  revert acc count. induction ds as [|a ds IH]; intros acc count Hd Hr.
  - simpl in Hd. simplify_eq. change ("" +:+ rest) with rest. destruct rest as [|b rest]; [done|].
    simpl. by rewrite (Hr b rest).
  - rewrite str_cons_app. simpl in *. destruct (digit_val a) as [d|]; [|done].
    rewrite (IH _ _ Hd Hr). do 2 f_equal. lia.
Qed.

Lemma octet_text n : (0 <= n <= 255)%Z ->
  exists a t, show_uint n = String a t /\ String.length t <= 2 /\ (a = "0"%char -> t = "").
Proof.
  intros Hn. assert (Hall : forallb (fun n => match show_uint n with
      | String a t => bool_decide (String.length t <= 2) && (negb (bool_decide (a = "0"%char)) || bool_decide (t = ""))
      | "" => false end) (seqZ 0 256) = true) by (vm_compute; reflexivity).
  rewrite forallb_forall in Hall. specialize (Hall n). rewrite <-list_elem_of_In, elem_of_seqZ in Hall.
  specialize (Hall ltac:(lia)). destruct (show_uint n) as [|a t]; [done|]. exists a, t.
  rewrite andb_true_iff, orb_true_iff, negb_true_iff, !bool_decide_eq_true, bool_decide_eq_false in Hall.
  naive_solver.
Qed.

Lemma read_number_octet n rest : (0 <= n <= 255)%Z -> (forall a t, rest = String a t -> digit_val a = None) ->
  read_number digit_val 10 3 255 false (show_uint n +:+ rest) = Some (n, rest).
Proof.
  intros Hn Hr. unfold read_number. rewrite (read_digits_app _ _ _ _ n) by (done || apply digits_val_show; lia).
  destruct (octet_text n Hn) as (a & t & E & Hl & H0). rewrite E. simpl. rewrite Nat.add_0_r.
  rewrite decide_False by lia.
  rewrite (proj2 (Z.leb_le n 255)) by lia. case_match eqn:Eg; [|done]. exfalso.
  apply andb_true_iff in Eg as [[t' Ht]%starts_with_spec Hc%bool_decide_eq_true].
  rewrite str_cons_app in Ht. change ("0" +:+ t') with (String "0" t') in Ht. simplify_eq. rewrite H0 in Hc by done.
  simpl in Hc. lia.
Qed.

Lemma read_octet_next i n rest : (0 <= n <= 255)%Z -> (forall a t, rest = String a t -> digit_val a = None) ->
  read_octet (S i) ("." +:+ show_uint n +:+ rest) = Some (n, rest).
Proof. intros. by apply read_number_octet. Qed.

(** A printed IPv4 address is read back as the same address. *)
Theorem ipv4_round_trip b : (0 <= b < 2 ^ 32)%Z -> parse_ip (show_ipv4 b) = Some (V4 b).
Proof.
  intros Hb. unfold parse_ip, read_ipv4, show_ipv4.
  set (o3 := ((b / 2 ^ 24) `mod` 256)%Z). set (o2 := ((b / 2 ^ 16) `mod` 256)%Z).
  set (o1 := ((b / 2 ^ 8) `mod` 256)%Z). set (o0 := (b `mod` 256)%Z).
  assert (H3 : (0 <= o3 <= 255)%Z) by (subst o3; Z.div_mod_to_equations; lia).
  assert (H2 : (0 <= o2 <= 255)%Z) by (subst o2; Z.div_mod_to_equations; lia).
  assert (H1 : (0 <= o1 <= 255)%Z) by (subst o1; Z.div_mod_to_equations; lia).
  assert (H0 : (0 <= o0 <= 255)%Z) by (subst o0; Z.div_mod_to_equations; lia).
  assert (Hd : forall s a t, "." +:+ s = String a t -> digit_val a = None)
    by (intros s a t; change ("." +:+ s) with (String "." s); by intros [= <- _]).
  change (read_octet 0) with (read_number digit_val 10 3 255 false).
  rewrite (read_number_octet o3) by eauto. cbn [mbind option_bind].
  rewrite (read_octet_next 0 o2) by eauto. cbn [mbind option_bind].
  rewrite (read_octet_next 1 o1) by eauto. cbn [mbind option_bind].
  assert (E := read_octet_next 2 o0 "" H0 ltac:(done)). rewrite str_app_nil_r in E. rewrite E.
  cbn [mbind option_bind]. rewrite bool_decide_true by done. do 2 f_equal.
  subst o0 o1 o2 o3. Z.div_mod_to_equations. lia.
Qed.

Lemma ipv4_round_trip_witness : parse_ip (show_ipv4 3221226059) = Some (V4 3221226059).
Proof. apply (ipv4_round_trip 3221226059). lia. Defined.
