(* ===== verification/F32.v ===== *)
(** * Single-precision floats

    [f32] of Rust, and the one use of [f64], over the Standard Library's
    specification of IEEE 754: arithmetic rounds to nearest, ties to even. Only
    what the scheduler uses is here: arithmetic, comparison, [max], [clamp],
    literals, conversion from integers, [FromStr] and printing with two decimals. *)

From S2P Require Import Prelude NetText.
From Stdlib Require Export SpecFloat.
From stdpp Require Import options.

Abbreviation f32 := spec_float.

Definition f_add : f32 -> f32 -> f32 := SFadd 24 128.
Definition f_sub : f32 -> f32 -> f32 := SFsub 24 128.
Definition f_mul : f32 -> f32 -> f32 := SFmul 24 128.
Definition f_div : f32 -> f32 -> f32 := SFdiv 24 128.

(** Comparisons with a NaN are false. *)
Definition f_lt (x y : f32) : bool := SFltb x y.
Definition f_le (x y : f32) : bool := SFleb x y.
Definition f_ge (x y : f32) : bool := f_le y x.
Definition f_gt (x y : f32) : bool := f_lt y x.

Definition is_nan (x : f32) : bool := match x with S754_nan => true | _ => false end.

(** [f32::max]: a NaN gives way to the other argument. *)
Definition f_max (x y : f32) : f32 :=
  if is_nan x then y else if is_nan y then x else if f_lt x y then y else x.

Definition f_clamp (x lo hi : f32) : f32 :=
  let x := if f_lt x lo then lo else x in
  if f_gt x hi then hi else x.

(** [(lo..=hi).contains(&x)] *)
Definition f_within (lo hi x : f32) : bool := f_le lo x && f_le x hi.

(** The float nearest to [num * 10 ^ e10], with a sign. *)
Definition f_decimal (negative : bool) (num e10 : Z) : f32 :=
  match num with
  | Zpos m =>
      if (0 <=? e10)%Z
      then f_div (S754_finite negative (Z.to_pos (Zpos m * 10 ^ e10)) 0) (S754_finite false 1 0)
      else f_div (S754_finite negative m 0) (S754_finite false (Z.to_pos (10 ^ (- e10))) 0)
  | _ => S754_zero negative
  end.

(** Literals: [f_lit 90 2] is [0.90]. *)
Definition f_lit (num places : Z) : f32 := f_decimal false num (- places).
Definition f_zero : f32 := S754_zero false.
Definition f_one : f32 := f_lit 1 0.

(** [n as f32] and [(a as f64 / b as f64) as f32] for unsigned integers. *)
Definition f_of_uint (n : Z) : f32 := binary_normalize 24 128 n 0 false.

Definition f_of_double (x : spec_float) : f32 :=
  match x with S754_finite s m e => binary_round 24 128 s m e | _ => x end.
Definition double_ratio (a b : Z) : f32 :=
  f_of_double (SFdiv 53 1024 (binary_normalize 53 1024 a 0 false) (binary_normalize 53 1024 b 0 false)).

(** [f32::from_str] *)
Definition f_parse (s : string) : option f32 :=
  let '(negative, body) := match s with
                           | String "-" s' => (true, s')
                           | String "+" s' => (false, s')
                           | _ => (false, s)
                           end in
  let low := to_ascii_lowercase body in
  if bool_decide (low = "inf") || bool_decide (low = "infinity") then Some (S754_infinity negative)
  else if bool_decide (low = "nan") then Some S754_nan
  else '(m, e10) ← decimal_number body; Some (f_decimal negative m e10).

(** [{:.2}]: the exact value to two decimals, ties to even. *)
Definition hundredths (m : positive) (e : Z) : Z :=
  if (0 <=? e)%Z then (Zpos m * 2 ^ e * 100)%Z else round_half_even (Zpos m * 100) (2 ^ (- e)).

Definition show_hundredths (negative : bool) (n : Z) : string :=
  (if negative then "-" else "") +:+ show_uint (n / 100) +:+ "."
  +:+ show_uint ((n / 10) `mod` 10) +:+ show_uint (n `mod` 10).

Definition f_show2 (x : f32) : string :=
  match x with
  | S754_nan => "NaN"
  | S754_infinity s => if s then "-inf" else "inf"
  | S754_zero s => show_hundredths s 0
  | S754_finite s m e => show_hundredths s (hundredths m e)
  end.

Example f32_examples :
  f_show2 <$> [f_lit 5 1; f_lit 125 3; f_lit 375 3; f_sub f_one (f_lit 7 1); f_div f_one (f_of_uint 3);
               f_decimal true 1 (-3); double_ratio 22000 24576]
  = ["0.50"; "0.12"; "0.38"; "0.30"; "0.33"; "-0.00"; "0.90"].
Proof. vm_compute. reflexivity. Qed.

(** The literals are the bit patterns the compiler uses. *)
Example f32_literals :
  [f_lit 1 1; f_lit 3 1; f_lit 9 1; f_one] =
  [S754_finite false 13421773 (-27); S754_finite false 10066330 (-25); S754_finite false 15099494 (-24);
   S754_finite false 8388608 (-23)].
Proof. vm_compute. reflexivity. Qed.

Example f_parse_examples :
  f_parse <$> ["0.00"; "12.34"; "1e2"; "-3"; "nan"; "x"; "1."] =
  [Some (S754_zero false); Some (f_lit 1234 2); Some (f_lit 100 0); Some (f_decimal true 3 0); Some S754_nan; None;
   Some f_one].
Proof. vm_compute. reflexivity. Qed.
