(* ===== verification/Hardware.v ===== *)
(** * The hardware inventory and its gate

    Models crates/selfdef-hardware/src/lib.rs (the probe with its parsers, the
    SAIN-01 verdict, the capability map) and
    crates/selfdef-hardware-requirements/src/lib.rs (the [requires_hardware] gate of a
    module). A file is the result of reading it, a directory the names it lists, a
    command the text it prints when it succeeds. The Prometheus text of a snapshot is
    not modelled. *)

From stdpp Require Import gmap sorting.
From S2P Require Import Prelude NetText F32.
From stdpp Require Import options.

(** ** Snapshots *)

Record ThermalReading := mkThermal { th_source : string; th_celsius : Z }.

Record CpuInventory := mkCpuInventory {
  ci_vendor : string;
  ci_model_name : string;
  ci_physical_cores : Z;
  ci_logical_threads : Z;
  ci_features : gset string;
  ci_avx512_present : bool;
  ci_avx512_vnni : bool;
  ci_avx512_bf16 : bool;
}.
Definition cpu_default : CpuInventory := mkCpuInventory "" "" 0 0 ∅ false false false.

Record GpuInventory := mkGpuInventory {
  gi_device_node : string;
  gi_pci_address : option string;
  gi_model_hint : option string;
  gi_vram_bytes : option Z;
  gi_power_draw_watts : option Z;
  gi_power_limit_watts : option Z;
}.

Record MotherboardInventory := mkMotherboard { mb_vendor : option string; mb_product_name : option string }.

Record HardwareSnapshot := mkSnapshot {
  hs_cpu : CpuInventory;
  hs_memory_total_bytes : Z;
  hs_gpus : list GpuInventory;
  hs_motherboard : option MotherboardInventory;
  hs_pcie_x8_slots : Z;
  hs_thermals : list ThermalReading;
  hs_probed_at : string;
}.

(** ** The SAIN-01 verdict *)

Module Sain01Verdict.
Inductive t := FullMatch | PartialMatch | NoMatch.
#[global] Instance eq_dec : EqDecision t.
Proof. solve_decision. Defined.
End Sain01Verdict.

Record Sain01Match := mkSain01 {
  sm_overall : Sain01Verdict.t;
  sm_cpu_avx512_vnni : bool;
  sm_cpu_avx512_bf16 : bool;
  sm_memory_at_least_256gb : bool;
  sm_gpu_count_at_least_2 : bool;
  sm_motherboard_proart_x870e : option bool;
  sm_pcie_dual_x8_present : bool;
}.

Definition GIB : Z := 1024 * 1024 * 1024.

Definition motherboard_is_proart_x870e (mb : MotherboardInventory) : bool :=
  match mb_vendor mb, mb_product_name mb with
  | Some v, Some p =>
      let p := to_ascii_lowercase p in
      contains (to_ascii_lowercase v) "asus" && (contains p "proart" && contains p "x870e")
  | _, _ => false
  end.

Definition one_if (b : bool) : Z := if b then 1 else 0.

Definition matches_sain01 (snap : HardwareSnapshot) : Sain01Match :=
  let vnni := ci_avx512_vnni (hs_cpu snap) in
  let bf16 := ci_avx512_bf16 (hs_cpu snap) in
  let memory := (256 * GIB <=? hs_memory_total_bytes snap)%Z in
  let gpus := 2 <=? length (hs_gpus snap) in
  let pcie := (2 <=? hs_pcie_x8_slots snap)%Z in
  let board := motherboard_is_proart_x870e <$> hs_motherboard snap in
  let hits := (one_if vnni + one_if memory + one_if gpus + one_if pcie + one_if bf16
               + one_if (bool_decide (board = Some true)))%Z in
  let total := (4 + one_if bf16 + one_if (bool_decide (is_Some board)))%Z in
  let overall := if (hits =? total)%Z then Sain01Verdict.FullMatch
                 else if (hits =? 0)%Z then Sain01Verdict.NoMatch else Sain01Verdict.PartialMatch in
  mkSain01 overall vnni bf16 memory gpus board pcie.

(** ** Parsers *)

Definition split_kv (line : string) : option (string * string) :=
  '(k, v) ← split_once ":" line; Some (trim k, trim v).

(** What the walk over /proc/cpuinfo has gathered. *)
Record CpuWalk := mkCpuWalk {
  cw_inv : CpuInventory;
  cw_processors : Z;
  cw_cores : gset (string * string);
  cw_physical_id : string;
}.

Definition with_vendor (v : string) (i : CpuInventory) : CpuInventory :=
  mkCpuInventory v (ci_model_name i) (ci_physical_cores i) (ci_logical_threads i) (ci_features i)
    (ci_avx512_present i) (ci_avx512_vnni i) (ci_avx512_bf16 i).
Definition with_model (v : string) (i : CpuInventory) : CpuInventory :=
  mkCpuInventory (ci_vendor i) v (ci_physical_cores i) (ci_logical_threads i) (ci_features i)
    (ci_avx512_present i) (ci_avx512_vnni i) (ci_avx512_bf16 i).
Definition with_flags (fs : list string) (i : CpuInventory) : CpuInventory :=
  mkCpuInventory (ci_vendor i) (ci_model_name i) (ci_physical_cores i) (ci_logical_threads i)
    (ci_features i ∪ list_to_set fs) (ci_avx512_present i) (ci_avx512_vnni i) (ci_avx512_bf16 i).

Definition cpuinfo_line (w : CpuWalk) (line : string) : CpuWalk :=
  let '(mkCpuWalk inv processors cores physical_id) := w in
  match strip_prefix "processor" line with
  | Some rest => mkCpuWalk inv (if contains rest ":" then processors + 1 else processors)%Z cores physical_id
  | None =>
      match split_kv line with
      | Some ("vendor_id", v) => mkCpuWalk (with_vendor v inv) processors cores physical_id
      | Some ("model name", v) => mkCpuWalk (with_model v inv) processors cores physical_id
      | Some ("physical id", v) => mkCpuWalk inv processors cores v
      | Some ("core id", v) => mkCpuWalk inv processors ({[(physical_id, v)]} ∪ cores) physical_id
      | Some ("flags", v) => mkCpuWalk (with_flags (split_whitespace v) inv) processors cores physical_id
      | _ => w
      end
  end.

Definition read_cpuinfo (body : result string string) : CpuInventory :=
  match body with
  | Err _ => cpu_default
  | Ok body =>
      let w := foldl cpuinfo_line (mkCpuWalk cpu_default 0 ∅ "") (str_lines body) in
      let inv := cw_inv w in
      let feats := ci_features inv in
      mkCpuInventory (ci_vendor inv) (ci_model_name inv)
        (if bool_decide (cw_cores w = ∅) then cw_processors w else Z.of_nat (size (cw_cores w)))
        (cw_processors w) feats
        (existsb (fun f => starts_with f "avx512") (elements feats))
        (bool_decide ("avx512_vnni" ∈ feats)) (bool_decide ("avx512_bf16" ∈ feats))
  end.

Definition saturating_mul_u64 (a b : Z) : Z := (a * b) `min` u64_max.

(** The first [MemTotal:] line decides. *)
Fixpoint meminfo_lines (lines : list string) : Z :=
  match lines with
  | [] => 0
  | line :: lines =>
      match strip_prefix "MemTotal:" line with
      | Some rest =>
          match head (split_whitespace rest) ≫= parse_uint u64_max with
          | Some n => saturating_mul_u64 n 1024
          | None => 0
          end
      | None => meminfo_lines lines
      end
  end.
Definition read_meminfo (body : result string string) : Z :=
  match body with Err _ => 0 | Ok body => meminfo_lines (str_lines body) end.

Definition count_pcie_x8_gen4_plus (body : string) : Z :=
  Z.of_nat (length (filter (fun line =>
    let line := trim line in
    (starts_with line "LnkSta:" && contains line "Width x8"
     && (contains line "Speed 16GT/s" || contains line "Speed 32GT/s"
         || contains line "Speed 16.0GT/s" || contains line "Speed 32.0GT/s")) = true) (str_lines body))).
Definition probe_pcie_via_lspci (lspci : option string) : Z :=
  match lspci with Some body => count_pcie_x8_gen4_plus body | None => 0 end.

(** [/dev/nvidia<digits>], in the order of the path texts. [dev] is the listing of the
    directory: [None] when it cannot be read. *)
Definition gpu_node (name : string) : bool :=
  match strip_prefix "nvidia" name with
  | Some rest => negb (bool_decide (rest = "")) && forallb is_ascii_digit (chars rest)
  | None => false
  end.
Definition read_gpu_device_nodes (dev : option (list string)) : list GpuInventory :=
  match dev with
  | None => []
  | Some names =>
      (fun name => mkGpuInventory ("/dev/" +:+ name) None None None None None)
        <$> merge_sort String.le (filter (fun name => gpu_node name = true) names)
  end.

(** [None] for [dmi]: the directory does not exist; otherwise what reading a file of it gives. *)
Definition read_motherboard (dmi : option (string -> result string string)) : option MotherboardInventory :=
  match dmi with
  | None => None
  | Some read =>
      let read_nonempty name := match read name with
                                | Ok s => if bool_decide (trim s = "") then None else Some (trim s)
                                | Err _ => None
                                end in
      match read_nonempty "board_vendor", read_nonempty "board_name" with
      | None, None => None
      | vendor, product => Some (mkMotherboard vendor product)
      end
  end.

(** ** nvidia-smi *)

Definition csv_fields (line : string) : list string := trim <$> split "," line.

Definition nvidia_smi_row (line : string) : option (Z * string * option Z) :=
  match csv_fields line with
  | idx :: name :: vram :: _ =>
      idx ← parse_uint u64_max idx;
      if bool_decide (name = "") then None
      else Some (idx, name, (fun mib => saturating_mul_u64 mib (1024 * 1024)) <$> parse_uint u64_max vram)
  | _ => None
  end.
Definition parse_nvidia_smi_csv (body : string) : list (Z * string * option Z) := omap nvidia_smi_row (str_lines body).

(** [f.round().max(0.0) as u32] of a double: halves go away from zero. *)
Definition round_watts (x : spec_float) : Z :=
  match x with
  | S754_infinity false => u32_max
  | S754_finite false m e =>
      (if (0 <=? e)%Z then Zpos m * 2 ^ e else (2 * Zpos m + 2 ^ (- e)) / (2 * 2 ^ (- e)))%Z `min` u32_max
  | _ => 0
  end.

(** [f64::from_str]. *)
Definition d_parse (s : string) : option spec_float :=
  let '(negative, body) := match s with
                           | String "-" s' => (true, s')
                           | String "+" s' => (false, s')
                           | _ => (false, s)
                           end in
  let low := to_ascii_lowercase body in
  if bool_decide (low = "inf") || bool_decide (low = "infinity") then Some (S754_infinity negative)
  else if bool_decide (low = "nan") then Some S754_nan
  else
    '(m, e10) ← decimal_number body;
    Some match m with
         | Zpos m =>
             if (0 <=? e10)%Z
             then SFdiv 53 1024 (S754_finite negative (Z.to_pos (Zpos m * 10 ^ e10)) 0) (S754_finite false 1 0)
             else SFdiv 53 1024 (S754_finite negative m 0) (S754_finite false (Z.to_pos (10 ^ (- e10))) 0)
         | _ => S754_zero negative
         end.

Definition parse_watts (s : string) : option Z :=
  if bool_decide (s = "") || bool_decide (s = "[N/A]") || eq_ignore_ascii_case s "not supported"
     || eq_ignore_ascii_case s "n/a" then None
  else round_watts <$> d_parse s.

Definition power_row (line : string) : option (Z * option Z * option Z) :=
  match csv_fields line with
  | idx :: draw :: limit :: _ => idx ← parse_uint u64_max idx; Some (idx, parse_watts draw, parse_watts limit)
  | _ => None
  end.
Definition parse_nvidia_smi_power_csv (body : string) : list (Z * option Z * option Z) := omap power_row (str_lines body).

Definition temp_row (line : string) : option (Z * Z) :=
  match csv_fields line with
  | idx :: temp :: _ => idx ← parse_uint u64_max idx; temp ← parse_int (- 2 ^ 63) (2 ^ 63 - 1) temp; Some (idx, temp)
  | _ => None
  end.
Definition parse_nvidia_smi_gpu_temp_csv (body : string) : list (Z * Z) := omap temp_row (str_lines body).

(** A row applies to the GPU at its index, when there is one. *)
Definition at_index (idx : Z) (f : GpuInventory -> GpuInventory) (gpus : list GpuInventory) : list GpuInventory :=
  if (idx <? Z.of_nat (length gpus))%Z then alter f (Z.to_nat idx) gpus else gpus.

Definition or_else {A} (a b : option A) : option A := match a with Some _ => a | None => b end.

Definition set_model (row : Z * string * option Z) (g : GpuInventory) : GpuInventory :=
  let '(_, model, vram) := row in
  mkGpuInventory (gi_device_node g) (gi_pci_address g) (or_else (gi_model_hint g) (Some model))
    (or_else (gi_vram_bytes g) vram) (gi_power_draw_watts g) (gi_power_limit_watts g).
Definition set_power (row : Z * option Z * option Z) (g : GpuInventory) : GpuInventory :=
  let '(_, draw, limit) := row in
  mkGpuInventory (gi_device_node g) (gi_pci_address g) (gi_model_hint g) (gi_vram_bytes g)
    (or_else (gi_power_draw_watts g) draw) (or_else (gi_power_limit_watts g) limit).

Definition enrich_gpus_via_nvidia_smi (smi : option string) (gpus : list GpuInventory) : list GpuInventory :=
  match gpus, smi with
  | _ :: _, Some body => foldl (fun gpus row => at_index row.1.1 (set_model row) gpus) gpus (parse_nvidia_smi_csv body)
  | _, _ => gpus
  end.
Definition enrich_gpus_power_via_nvidia_smi (smi : option string) (gpus : list GpuInventory) : list GpuInventory :=
  match gpus, smi with
  | _ :: _, Some body =>
      foldl (fun gpus row => at_index row.1.1 (set_power row) gpus) gpus (parse_nvidia_smi_power_csv body)
  | _, _ => gpus
  end.

(** ** Thermals *)

(** [i32::try_from(n).unwrap_or(0)]. *)
Definition as_celsius (n : Z) : Z := if ((- 2 ^ 31 <=? n) && (n <? 2 ^ 31))%Z then n else 0.
(** The [i64] division truncates; the half is added away from zero. *)
Definition millideg_celsius (m : Z) : Z := as_celsius ((m + (if (0 <=? m)%Z then 500 else -500)) `quot` 1000).

(** A directory of /sys/class/hwmon: the names it lists ([None] when that fails) and
    what reading a file of it gives. *)
Record Hwmon := mkHwmon { hm_names : option (list string); hm_read : string -> result string string }.

Definition numbered {A} (p q : A * Z) : Prop := (p.2 <= q.2)%Z.
#[export] Instance numbered_dec {A} (p q : A * Z) : Decision (numbered p q).
Proof. unfold numbered. apply _. Defined.

Definition temp_index (name : string) : option (string * Z) :=
  mid ← strip_prefix "temp" name; idx ← strip_suffix "_input" mid; n ← parse_uint u32_max idx; Some (name, n).
Definition hwmon_index (name : string) : option (string * Z) :=
  rest ← strip_prefix "hwmon" name; n ← parse_uint u32_max rest; Some (name, n).

Definition nonempty_text (r : result string string) : option string :=
  match r with Ok s => if bool_decide (trim s = "") then None else Some (trim s) | Err _ => None end.

Definition temp_reading (h : Hwmon) (name : string) (file : string * Z) : option ThermalReading :=
  match hm_read h file.1 with
  | Err _ => None
  | Ok body =>
      millideg ← parse_int (- 2 ^ 63) (2 ^ 63 - 1) (trim body);
      let label := nonempty_text (hm_read h ("temp" +:+ show_uint file.2 +:+ "_label")) in
      Some (mkThermal (name +:+ "/" +:+ default ("temp" +:+ show_uint file.2) label) (millideg_celsius millideg))
  end.

Definition hwmon_readings (h : Hwmon) : list ThermalReading :=
  match nonempty_text (hm_read h "name") with
  | None => []
  | Some name => omap (temp_reading h name) (merge_sort numbered (omap temp_index (default [] (hm_names h))))
  end.

Definition read_thermals_from_hwmon (dir : option (list string)) (open : string -> Hwmon) : list ThermalReading :=
  match dir with
  | None => []
  | Some names => p ← merge_sort numbered (omap hwmon_index names); hwmon_readings (open p.1)
  end.

Definition enrich_thermals_via_nvidia_smi (smi : option string) (thermals : list ThermalReading) : list ThermalReading :=
  match smi with
  | None => thermals
  | Some body =>
      thermals ++ ((fun row => mkThermal ("nvidia-gpu-" +:+ show_uint row.1) (as_celsius row.2))
                     <$> parse_nvidia_smi_gpu_temp_csv body)
  end.

(** ** The probe *)

Record Host := mkHost {
  ho_cpuinfo : result string string;
  ho_meminfo : result string string;
  ho_dev : option (list string);
  ho_dmi : option (string -> result string string);
  ho_lspci : option string;
  ho_smi : option string;
  ho_smi_power : option string;
  ho_smi_temp : option string;
  ho_hwmon : option (list string);
  ho_hwmon_open : string -> Hwmon;
  ho_now : option string;
}.

(** [None]: the time could not be formatted. *)
Definition probe_from_roots (h : Host) : option HardwareSnapshot :=
  let gpus := enrich_gpus_power_via_nvidia_smi (ho_smi_power h)
                (enrich_gpus_via_nvidia_smi (ho_smi h) (read_gpu_device_nodes (ho_dev h))) in
  let thermals := enrich_thermals_via_nvidia_smi (ho_smi_temp h)
                    (read_thermals_from_hwmon (ho_hwmon h) (ho_hwmon_open h)) in
  probed_at ← ho_now h;
  Some (mkSnapshot (read_cpuinfo (ho_cpuinfo h)) (read_meminfo (ho_meminfo h)) gpus (read_motherboard (ho_dmi h))
          (probe_pcie_via_lspci (ho_lspci h)) thermals probed_at).

(** ** Capabilities *)

Record CpuCapabilities := mkCpuCaps {
  cc_vendor : string;
  cc_model_name : string;
  cc_physical_cores : Z;
  cc_logical_threads : Z;
  cc_sse4_2 : bool;
  cc_avx : bool;
  cc_avx2 : bool;
  cc_fma : bool;
  cc_avx512f : bool;
  cc_avx512dq : bool;
  cc_avx512bw : bool;
  cc_avx512vl : bool;
  cc_avx512vnni : bool;
  cc_avx512bf16 : bool;
  cc_avx512fp16 : bool;
  cc_avx512vbmi : bool;
  cc_avx512vbmi2 : bool;
  cc_ternary_aot_capable : bool;
  cc_zmm_int8_lane_capacity : Z;
  cc_recommended_march : string;
  cc_recommended_compile_flags : list string;
  cc_extended_features : list string;
}.

Record GpuDeviceCapabilities := mkGpuDevice {
  gd_device_node : option string;
  gd_pci_address : option string;
  gd_model_hint : option string;
  gd_vram_bytes : option Z;
  gd_power_draw_watts : option Z;
  gd_power_limit_watts : option Z;
}.

Record WasmAotCapabilities := mkWasmAot {
  wa_target_triple : string;
  wa_target_cpu : string;
  wa_target_features : string;
  wa_compile_command_hint : string;
  wa_ternary_kernel_hint : string;
}.

Record HardwareCapabilities := mkCaps {
  hc_schema_version : string;
  hc_probed_at : string;
  hc_host_tag : option string;
  hc_cpu : CpuCapabilities;
  hc_memory_total_bytes : Z;
  hc_memory_at_least_256gb : bool;
  hc_memory_at_least_512gb : bool;
  hc_gpu_device_count : Z;
  hc_gpu_device_nodes : list string;
  hc_gpu_devices : list GpuDeviceCapabilities;
  hc_pcie_x8_slots : Z;
  hc_pcie_dual_x8_present : bool;
  hc_sain01_match : Sain01Match;
  hc_wasm_aot : WasmAotCapabilities;
}.

Section derive.
Context (feats : gset string).

Definition has (f : string) : bool := bool_decide (f ∈ feats).

Definition derive_ternary_aot_capable : bool := has "avx512_vnni" && (has "avx512_bf16" || has "avx512_fp16").

Definition derive_zmm_int8_lane_capacity : Z :=
  if has "avx512_vnni" then 64 else if has "avx2" then 32 else if has "ssse3" then 16 else 0.

Definition recommended_march_for (vendor : string) : string :=
  if has "avx512_vnni" && has "avx512_bf16" then
    if bool_decide (vendor = "AuthenticAMD") then "znver5" else "x86-64-v4"
  else if has "avx512f" && bool_decide (vendor = "AuthenticAMD") then "znver4"
  else "native".

Definition recommended_compile_flags : list string :=
  omap (fun '(flag, f) => if has f then Some flag else None)
    [("-msse4.2", "sse4_2"); ("-mavx", "avx"); ("-mavx2", "avx2"); ("-mfma", "fma"); ("-mavx512f", "avx512f");
     ("-mavx512dq", "avx512dq"); ("-mavx512bw", "avx512bw"); ("-mavx512vl", "avx512vl");
     ("-mavx512vnni", "avx512_vnni"); ("-mavx512bf16", "avx512_bf16"); ("-mavx512fp16", "avx512_fp16");
     ("-mavx512vbmi", "avx512_vbmi"); ("-mavx512vbmi2", "avx512_vbmi2")].
End derive.

Definition derive_ternary_kernel_hint (cpu : CpuCapabilities) : string :=
  if cc_avx512vnni cpu then "bitnet.cpp/VPDPBUSD: 64×INT8 per ZMM (master spec § 16 hot path)"
  else if cc_avx2 cpu then "bitnet.cpp/VPMADDUBSW: 32×INT8 per YMM (AVX2 fallback)"
  else if cc_sse4_2 cpu then "bitnet.cpp/PMADDUBSW: 16×INT8 per XMM (SSSE3 fallback)"
  else "".

Definition derive_wasm_aot_capabilities (cpu : CpuCapabilities) : WasmAotCapabilities :=
  let target_triple := "x86_64-unknown-linux-gnu" in
  let target_cpu := if bool_decide (cc_recommended_march cpu = "") then "native" else cc_recommended_march cpu in
  let target_features := join "," (omap (fun '(b, f) => if (b : bool) then Some f else None)
    [(cc_avx512f cpu, "+avx512f"); (cc_avx512dq cpu, "+avx512dq"); (cc_avx512bw cpu, "+avx512bw");
     (cc_avx512vl cpu, "+avx512vl"); (cc_avx512vnni cpu, "+avx512vnni"); (cc_avx512bf16 cpu, "+avx512bf16");
     (cc_avx512fp16 cpu, "+avx512fp16"); (cc_avx512vbmi cpu, "+avx512vbmi"); (cc_avx512vbmi2 cpu, "+avx512vbmi2");
     (cc_avx2 cpu, "+avx2"); (cc_fma cpu, "+fma")]) in
  let hint := if cc_avx512f cpu
              then "wasmtime compile --target " +:+ target_triple +:+ " --target-feature " +:+ target_features
                   +:+ " module.wasm -o module.cwasm"
              else "" in
  mkWasmAot target_triple target_cpu target_features hint (derive_ternary_kernel_hint cpu).

Definition derive_capabilities (snap : HardwareSnapshot) : HardwareCapabilities :=
  let c := hs_cpu snap in
  let feats := ci_features c in
  let has := has feats in
  let cpu := mkCpuCaps (ci_vendor c) (ci_model_name c) (ci_physical_cores c) (ci_logical_threads c)
    (has "sse4_2") (has "avx") (has "avx2") (has "fma") (has "avx512f") (has "avx512dq") (has "avx512bw")
    (has "avx512vl") (has "avx512_vnni") (has "avx512_bf16") (has "avx512_fp16") (has "avx512_vbmi") (has "avx512_vbmi2")
    (derive_ternary_aot_capable feats) (derive_zmm_int8_lane_capacity feats)
    (recommended_march_for feats (ci_vendor c)) (recommended_compile_flags feats)
    (merge_sort String.le (elements feats)) in
  mkCaps "1.4.0" (hs_probed_at snap) None cpu
    (hs_memory_total_bytes snap) (256 * GIB <=? hs_memory_total_bytes snap)%Z (512 * GIB <=? hs_memory_total_bytes snap)%Z
    (Z.of_nat (length (hs_gpus snap)) `min` u32_max)%Z (gi_device_node <$> hs_gpus snap)
    ((fun g => mkGpuDevice (Some (gi_device_node g)) (gi_pci_address g) (gi_model_hint g) (gi_vram_bytes g)
                 (gi_power_draw_watts g) (gi_power_limit_watts g)) <$> hs_gpus snap)
    (hs_pcie_x8_slots snap) (2 <=? hs_pcie_x8_slots snap)%Z (matches_sain01 snap) (derive_wasm_aot_capabilities cpu).

(** ** Compiler flags of the GPUs *)

Definition nvidia_sm_for_model (model_hint : string) : option string :=
  let m := to_ascii_lowercase model_hint in
  let any := existsb (contains m) in
  if any ["blackwell"; "rtx pro 6000"; "b100"; "b200"] then Some "sm_120"
  else if any ["h100"; "h200"; "hopper"] then Some "sm_90"
  else if any ["rtx 4090"; "rtx 4080"; "rtx 4070"; "rtx 4060"; "l40s"; "l40"; "ada"] then Some "sm_89"
  else if any ["a100"] then Some "sm_80"
  else if any ["rtx 3090"; "rtx 3080"; "rtx 3070"; "rtx 3060"; "ampere"] then Some "sm_86"
  else if any ["rtx 2080"; "rtx 2070"; "turing"] then Some "sm_75"
  else None.

(** The first of each architecture; the digits follow [sm_]. *)
Definition gencode_flags_for_gpus (caps : HardwareCapabilities) : list string :=
  (foldl (fun '(seen, out) d =>
     match gd_model_hint d ≫= nvidia_sm_for_model with
     | Some sm =>
         if bool_decide (sm ∈ seen) then (seen, out)
         else (sm :: seen, out ++ ["-gencode arch=compute_" +:+ default "" (strip_prefix "sm_" sm) +:+ ",code=" +:+ sm])
     | None => (seen, out)
     end) ([], []) (hc_gpu_devices caps)).2.

(** ** Requirements *)

Inductive HardwareRequirements := mkRequirements {
  rq_avx512_vnni : bool;
  rq_avx512_bf16 : bool;
  rq_memory_gib_min : Z;
  rq_gpu_count_min : Z;
  rq_gpu_vram_gib_min : Z;
  rq_gpu_vram_gib_each_min : Z;
  rq_gpu_power_headroom_watts_min : Z;
  rq_wasm_aot_features_required : string;
  rq_sain01_verdict_min : string;
  rq_ternary_aot_capable_required : bool;
  rq_zmm_int8_lanes_min : Z;
  rq_host_features_required : string;
  rq_any_of : list HardwareRequirements;
}.

Definition requirements_default : HardwareRequirements := mkRequirements false false 0 0 0 0 0 "" "" false 0 "" [].

Definition requirements_is_empty (r : HardwareRequirements) : bool :=
  negb (rq_avx512_vnni r) && negb (rq_avx512_bf16 r) && (rq_memory_gib_min r =? 0)%Z && (rq_gpu_count_min r =? 0)%Z
  && (rq_gpu_vram_gib_min r =? 0)%Z && (rq_gpu_vram_gib_each_min r =? 0)%Z && (rq_gpu_power_headroom_watts_min r =? 0)%Z
  && bool_decide (rq_wasm_aot_features_required r = "") && bool_decide (rq_sain01_verdict_min r = "")
  && negb (rq_ternary_aot_capable_required r) && (rq_zmm_int8_lanes_min r =? 0)%Z
  && bool_decide (rq_host_features_required r = "")
  && match rq_any_of r with [] => true | _ => false end.

Definition words (s : string) : list string := filter (fun w => w <> "") (trim <$> split "," s).

Definition big_enough (want : Z) (d : GpuDeviceCapabilities) : bool :=
  match gd_vram_bytes d with Some b => (want <=? b)%Z | None => false end.

(** The sum of limit minus draw, saturating in 32 bits, and whether every GPU reports both. *)
Definition headroom (devices : list GpuDeviceCapabilities) : Z * bool :=
  foldl (fun '(total, complete) d =>
    match gd_power_limit_watts d, gd_power_draw_watts d with
    | Some limit, Some draw => ((total + (limit - draw) `max` 0) `min` u32_max, complete)%Z
    | _, _ => (total, false)
    end) (0%Z, match devices with [] => false | _ => true end) devices.

Definition verdict_name (v : Sain01Verdict.t) : string :=
  match v with
  | Sain01Verdict.FullMatch => "FullMatch" | Sain01Verdict.PartialMatch => "PartialMatch" | Sain01Verdict.NoMatch => "NoMatch"
  end.
Definition verdict_rank (s : string) : Z :=
  match s with "FullMatch" => 3 | "PartialMatch" => 2 | "NoMatch" => 1 | _ => 0 end.

Definition zmax (l : list Z) : option Z := match l with [] => None | x :: l => Some (foldr Z.max x l) end.
Definition zmin (l : list Z) : option Z := match l with [] => None | x :: l => Some (foldr Z.min x l) end.

Section evaluate.
Context `{UnicodeTables} (caps : HardwareCapabilities).

Definition devices : list GpuDeviceCapabilities := hc_gpu_devices caps.
Definition missing_wasm (r : HardwareRequirements) : list string :=
  filter (fun f => f ∉ words (wa_target_features (hc_wasm_aot caps))) (words (rq_wasm_aot_features_required r)).
Definition missing_host (r : HardwareRequirements) : list string :=
  filter (fun f => f ∉ cc_extended_features (hc_cpu caps)) (words (rq_host_features_required r)).

(** The predicates of the block itself, in the order they are reported. *)
Definition root_unmet (r : HardwareRequirements) : list string :=
  let cpu := hc_cpu caps in
  (if rq_avx512_vnni r && negb (cc_avx512vnni cpu) then ["avx512_vnni required (host lacks AVX-512 VNNI)"] else [])
  ++ (if rq_avx512_bf16 r && negb (cc_avx512bf16 cpu) then ["avx512_bf16 required (host lacks AVX-512 BF16)"] else [])
  ++ (let host_gib := (hc_memory_total_bytes caps / GIB)%Z in
      if (0 <? rq_memory_gib_min r)%Z && (host_gib <? rq_memory_gib_min r)%Z
      then ["memory_gib_min = " +:+ show_uint (rq_memory_gib_min r) +:+ " (host has " +:+ show_uint host_gib +:+ " GiB)"]
      else [])
  ++ (if (0 <? rq_gpu_count_min r)%Z && (hc_gpu_device_count caps <? rq_gpu_count_min r)%Z
      then ["gpu_count_min = " +:+ show_uint (rq_gpu_count_min r) +:+ " (host has "
            +:+ show_uint (hc_gpu_device_count caps) +:+ " GPU(s))"]
      else [])
  ++ (let want := saturating_mul_u64 (rq_gpu_vram_gib_min r) GIB in
      if (0 <? rq_gpu_vram_gib_min r)%Z && negb (existsb (big_enough want) devices)
      then ["gpu_vram_gib_min = " +:+ show_uint (rq_gpu_vram_gib_min r) +:+ " (host best is "
            +:+ show_uint (default 0 (zmax (omap gd_vram_bytes devices)) / GIB)%Z +:+ " GiB)"]
      else [])
  ++ (let want := saturating_mul_u64 (rq_gpu_vram_gib_each_min r) GIB in
      if (0 <? rq_gpu_vram_gib_each_min r)%Z
         && negb (negb (match devices with [] => true | _ => false end) && forallb (big_enough want) devices)
      then ["gpu_vram_gib_each_min = " +:+ show_uint (rq_gpu_vram_gib_each_min r) +:+ " (host worst is "
            +:+ show_uint (default 0 (zmin (omap gd_vram_bytes devices)) / GIB)%Z +:+ " GiB across "
            +:+ show_uint (Z.of_nat (length devices)) +:+ " GPU(s))"]
      else [])
  ++ (if (0 <? rq_gpu_power_headroom_watts_min r)%Z then
        let '(total, complete) := headroom devices in
        if negb complete
        then ["gpu_power_headroom_watts_min = " +:+ show_uint (rq_gpu_power_headroom_watts_min r)
              +:+ " (host GPU(s) lack power telemetry — install nvidia-smi + NVML)"]
        else if (total <? rq_gpu_power_headroom_watts_min r)%Z
        then ["gpu_power_headroom_watts_min = " +:+ show_uint (rq_gpu_power_headroom_watts_min r)
              +:+ " (host headroom is " +:+ show_uint total +:+ " W)"]
        else []
      else [])
  ++ (match missing_wasm r with
      | [] => []
      | missing => ["wasm_aot_features_required = " +:+ str_debug (rq_wasm_aot_features_required r)
                    +:+ " (host missing: " +:+ join "," missing +:+ ")"]
      end)
  ++ (let actual := verdict_name (sm_overall (hc_sain01_match caps)) in
      if negb (bool_decide (rq_sain01_verdict_min r = ""))
         && (verdict_rank actual <? verdict_rank (rq_sain01_verdict_min r))%Z
      then ["sain01_verdict_min = " +:+ rq_sain01_verdict_min r +:+ " (host verdict = " +:+ actual +:+ ")"]
      else [])
  ++ (if rq_ternary_aot_capable_required r && negb (cc_ternary_aot_capable cpu)
      then ["ternary_aot_capable required (host lacks AVX-512 VNNI + (BF16 or FP16) — bitnet.cpp ternary hot path "
            +:+ "unavailable per master spec § 16)"]
      else [])
  ++ (if (0 <? rq_zmm_int8_lanes_min r)%Z && (cc_zmm_int8_lane_capacity cpu <? rq_zmm_int8_lanes_min r)%Z
      then ["zmm_int8_lanes_min = " +:+ show_uint (rq_zmm_int8_lanes_min r) +:+ " (host max = "
            +:+ show_uint (cc_zmm_int8_lane_capacity cpu) +:+ ")"]
      else [])
  ++ (match missing_host r with
      | [] => []
      | missing => ["host_features_required = " +:+ str_debug (rq_host_features_required r)
                    +:+ " (host missing: " +:+ join "," missing +:+ ")"]
      end).

(** [Ok] carries the index of the first alternative that holds, when there are any. *)
Fixpoint evaluate_resolved (r : HardwareRequirements) {struct r} : result (option nat) (list string) :=
  let finish unmet matched := match unmet with [] => Ok matched | _ => Err unmet end in
  match rq_any_of r with
  | [] => finish (root_unmet r) None
  | any_of =>
      match (fix branches i (l : list HardwareRequirements) (failures : list (list string)) :=
               match l with
               | [] => inr failures
               | b :: l =>
                   match evaluate_resolved b with
                   | Ok _ => inl i
                   | Err unmet => branches (S i) l (failures ++ [unmet])
                   end
               end) 0 any_of [] with
      | inl i => finish (root_unmet r) (Some i)
      | inr failures =>
          finish (root_unmet r
            ++ ["any_of: NONE of " +:+ show_uint (Z.of_nat (length any_of)) +:+ " OR-branch(es) passed"]
            ++ imap (fun i unmet => "  any_of[" +:+ show_uint (Z.of_nat i) +:+ "]: " +:+ join " | " unmet) failures) None
      end
  end.

Definition evaluate (r : HardwareRequirements) : result unit (list string) :=
  match evaluate_resolved r with Ok _ => Ok tt | Err unmet => Err unmet end.
End evaluate.

(** ** What the gate decides *)

(** The predicates of a block, as they are documented; those with the value zero, or
    the empty text, ask for nothing. *)
Record root_ok (caps : HardwareCapabilities) (r : HardwareRequirements) : Prop := {
  ro_vnni : rq_avx512_vnni r = true -> cc_avx512vnni (hc_cpu caps) = true;
  ro_bf16 : rq_avx512_bf16 r = true -> cc_avx512bf16 (hc_cpu caps) = true;
  ro_memory : (0 < rq_memory_gib_min r)%Z -> (rq_memory_gib_min r <= hc_memory_total_bytes caps / GIB)%Z;
  ro_gpus : (0 < rq_gpu_count_min r)%Z -> (rq_gpu_count_min r <= hc_gpu_device_count caps)%Z;
  ro_vram : (0 < rq_gpu_vram_gib_min r)%Z ->
    exists d b, d ∈ hc_gpu_devices caps /\ gd_vram_bytes d = Some b /\ (saturating_mul_u64 (rq_gpu_vram_gib_min r) GIB <= b)%Z;
  ro_vram_each : (0 < rq_gpu_vram_gib_each_min r)%Z -> hc_gpu_devices caps <> [] /\
    forall d, d ∈ hc_gpu_devices caps ->
      exists b, gd_vram_bytes d = Some b /\ (saturating_mul_u64 (rq_gpu_vram_gib_each_min r) GIB <= b)%Z;
  ro_headroom : (0 < rq_gpu_power_headroom_watts_min r)%Z ->
    (headroom (hc_gpu_devices caps)).2 = true /\
    (rq_gpu_power_headroom_watts_min r <= (headroom (hc_gpu_devices caps)).1)%Z;
  ro_wasm : forall f, f ∈ words (rq_wasm_aot_features_required r) -> f ∈ words (wa_target_features (hc_wasm_aot caps));
  ro_verdict : (verdict_rank (rq_sain01_verdict_min r) <= verdict_rank (verdict_name (sm_overall (hc_sain01_match caps))))%Z;
  ro_ternary : rq_ternary_aot_capable_required r = true -> cc_ternary_aot_capable (hc_cpu caps) = true;
  ro_lanes : (0 < rq_zmm_int8_lanes_min r)%Z -> (rq_zmm_int8_lanes_min r <= cc_zmm_int8_lane_capacity (hc_cpu caps))%Z;
  ro_host : forall f, f ∈ words (rq_host_features_required r) -> f ∈ cc_extended_features (hc_cpu caps);
}.

(** A module's block: its own predicates, and one alternative when there are any. *)
Inductive meets (caps : HardwareCapabilities) : HardwareRequirements -> Prop :=
| meets_intro r : root_ok caps r -> (rq_any_of r <> [] -> exists b, b ∈ rq_any_of r /\ meets caps b) -> meets caps r.

Section exact.
Context `{UnicodeTables} (caps : HardwareCapabilities).

Lemma if_nil {A} (b : bool) (x : A) l : (if b then x :: l else []) = [] <-> b = false.
Proof using Type. by destruct b. Qed.

Lemma app_nil_iff {A} (l k : list A) : l ++ k = [] <-> l = [] /\ k = [].
Proof using Type. split; [apply app_eq_nil|]. by intros [-> ->]. Qed.

Lemma and_negb_false a b : a && negb b = false <-> (a = true -> b = true).
Proof using Type. destruct a, b; naive_solver. Qed.

Lemma big_enough_spec want d : big_enough want d = true <-> exists b, gd_vram_bytes d = Some b /\ (want <= b)%Z.
Proof using Type.
  unfold big_enough. destruct (gd_vram_bytes d) as [b|]; [rewrite Z.leb_le|]; naive_solver.
Qed.

Lemma below_false a b : (0 <? a)%Z && (b <? a)%Z = false <-> ((0 < a)%Z -> (a <= b)%Z).
Proof using Type. destruct (Z.ltb_spec 0 a), (Z.ltb_spec b a); simpl; naive_solver lia. Qed.

Lemma filter_out_nil (l k : list string) : filter (fun f => f ∉ k) l = [] <-> forall f, f ∈ l -> f ∈ k.
Proof using Type.
  split.
  - intros Hn f Hf. destruct (decide (f ∈ k)) as [|Hk]; [done|]. exfalso.
    assert (Hin : f ∈ filter (fun f => f ∉ k) l) by by apply list_elem_of_filter. rewrite Hn in Hin. by apply elem_of_nil in Hin.
  - intros Hf. apply filter_none, Forall_forall. intros f Hin Hk. apply Hk. auto.
Qed.

Lemma some_vram want : negb (existsb (big_enough want) (devices caps)) = false <->
  exists d b, d ∈ hc_gpu_devices caps /\ gd_vram_bytes d = Some b /\ (want <= b)%Z.
Proof using Type.
  rewrite negb_false_iff, existsb_exists. split.
  - intros (d & Hd%list_elem_of_In & (b & ? & ?)%big_enough_spec). eauto.
  - intros (d & b & Hd & ? & ?). exists d. split; [by apply list_elem_of_In|]. apply big_enough_spec. eauto.
Qed.

Lemma each_vram want :
  negb (negb (match devices caps with [] => true | _ => false end) && forallb (big_enough want) (devices caps)) = false <->
  hc_gpu_devices caps <> [] /\ forall d, d ∈ hc_gpu_devices caps -> exists b, gd_vram_bytes d = Some b /\ (want <= b)%Z.
Proof using Type.
  rewrite negb_false_iff, andb_true_iff, negb_true_iff, forallb_forall. unfold devices. split.
  - intros [Hne Hall]. split; [by destruct (hc_gpu_devices caps)|]. intros d Hd%list_elem_of_In. by apply big_enough_spec, Hall.
  - intros [Hne Hall]. split; [by destruct (hc_gpu_devices caps)|]. intros d Hd%list_elem_of_In. by apply big_enough_spec, Hall.
Qed.

Lemma guarded_false (a b : bool) (P : Prop) : (b = false <-> P) -> (a && b = false <-> (a = true -> P)).
Proof using Type. destruct a, b; naive_solver. Qed.

Lemma verdict_false s v : negb (bool_decide (s = "")) && (verdict_rank v <? verdict_rank s)%Z = false <->
  (verdict_rank s <= verdict_rank v)%Z.
Proof using Type.
  destruct (bool_decide_reflect (s = "")) as [->|]; simpl.
  - split; [intros _|done]. assert (0 <= verdict_rank v)%Z; [|done]. unfold verdict_rank. repeat case_match; lia.
  - rewrite Z.ltb_ge. done.
Qed.

Lemma headroom_nil need (m1 : string) (m2 : Z -> string) :
  (if (0 <? need)%Z then
     let '(total, complete) := headroom (hc_gpu_devices caps) in
     if negb complete then [m1] else if (total <? need)%Z then [m2 total] else []
   else []) = [] <->
  ((0 < need)%Z -> (headroom (hc_gpu_devices caps)).2 = true /\ (need <= (headroom (hc_gpu_devices caps)).1)%Z).
Proof using Type.
  destruct (headroom (hc_gpu_devices caps)) as [total complete]. simpl.
  destruct (Z.ltb_spec 0 need), complete; simpl; try (destruct (Z.ltb_spec total need)); naive_solver lia.
Qed.

Lemma missing_nil (l k : list string) (m : list string -> string) :
  match filter (fun f => f ∉ k) l with [] => [] | missing => [m missing] end = [] <-> forall f, f ∈ l -> f ∈ k.
Proof using Type. rewrite <-filter_out_nil. by destruct (filter _ _). Qed.

Lemma root_unmet_nil r : root_unmet caps r = [] <-> root_ok caps r.
Proof using Type.
  unfold root_unmet. cbv zeta. rewrite !app_nil_iff, !if_nil.
  rewrite (guarded_false _ _ _ (some_vram _)), (guarded_false _ _ _ (each_vram _)), !Z.ltb_lt, verdict_false.
  rewrite !and_negb_false, !below_false.
  unfold devices, missing_wasm, missing_host.
  rewrite (headroom_nil _ _ (fun total => _ +:+ show_uint (rq_gpu_power_headroom_watts_min r)
              +:+ " (host headroom is " +:+ show_uint total +:+ " W)")).
  rewrite (missing_nil _ _ (fun m => _ +:+ str_debug (rq_wasm_aot_features_required r) +:+ " (host missing: " +:+ join "," m +:+ ")")).
  rewrite (missing_nil _ _ (fun m => _ +:+ str_debug (rq_host_features_required r) +:+ " (host missing: " +:+ join "," m +:+ ")")).
  split; [intros (?&?&?&?&?&?&?&?&?&?&?&?); by constructor|intros []; split_and!; done].
Qed.
Lemma requirements_ind' (P : HardwareRequirements -> Prop) :
  (forall r, Forall P (rq_any_of r) -> P r) -> forall r, P r.
Proof using Type.
  intros Hr. fix IH 1. intros r. apply Hr. destruct r as [? ? ? ? ? ? ? ? ? ? ? ? any_of]. simpl.
  induction any_of as [|b any_of IHl]; constructor; [apply IH|exact IHl].
Qed.

(** The walk over the alternatives. *)
Definition first_branch (i : nat) (l : list HardwareRequirements) (failures : list (list string)) : nat + list (list string) :=
  (fix branches i (l : list HardwareRequirements) (failures : list (list string)) :=
     match l with
     | [] => inr failures
     | b :: l =>
         match evaluate_resolved caps b with
         | Ok _ => inl i
         | Err unmet => branches (S i) l (failures ++ [unmet])
         end
     end) i l failures.

Lemma first_branch_spec l i failures :
  match first_branch i l failures with
  | inl j => exists k b, j = i + k /\ l !! k = Some b /\ is_ok (evaluate_resolved caps b) = true /\
      forall n b', n < k -> l !! n = Some b' -> is_ok (evaluate_resolved caps b') = false
  | inr _ => forall b, b ∈ l -> is_ok (evaluate_resolved caps b) = false
  end.
Proof using Type.
  revert i failures. induction l as [|b l IH]; intros i failures.
  { cbn. by intros b ?%elem_of_nil. }
  cbn [first_branch]. unfold first_branch. destruct (evaluate_resolved caps b) as [m|unmet] eqn:Eb.
  - exists 0, b. rewrite Eb. split_and!; [lia|done|done|]. intros; lia.
  - specialize (IH (S i) (failures ++ [unmet])). unfold first_branch in IH.
    destruct (_ (S i) l (failures ++ [unmet])) as [j|fs].
    + destruct IH as (k & b' & -> & Hk & Hok & Hlt). exists (S k), b'. split_and!; [lia|done|done|].
      intros [|n] b'' Hn Hb''; simpl in Hb''; [by simplify_eq; rewrite Eb|]. apply (Hlt n); [lia|done].
    + intros b' [->|Hb']%elem_of_cons; [by rewrite Eb|auto].
Qed.

Lemma evaluate_resolved_eq r : evaluate_resolved caps r =
  let finish unmet matched := match unmet with [] => Ok matched | _ => Err unmet end in
  match rq_any_of r with
  | [] => finish (root_unmet caps r) None
  | any_of =>
      match first_branch 0 any_of [] with
      | inl i => finish (root_unmet caps r) (Some i)
      | inr failures =>
          finish (root_unmet caps r
            ++ ["any_of: NONE of " +:+ show_uint (Z.of_nat (length any_of)) +:+ " OR-branch(es) passed"]
            ++ imap (fun i unmet => "  any_of[" +:+ show_uint (Z.of_nat i) +:+ "]: " +:+ join " | " unmet) failures) None
      end
  end.
Proof using Type. by destruct r. Qed.

Lemma meets_inv r : meets caps r <-> root_ok caps r /\ (rq_any_of r <> [] -> exists b, b ∈ rq_any_of r /\ meets caps b).
Proof using Type. split; [by inversion 1|]. intros []. by constructor. Qed.

Lemma evaluate_resolved_ok r : is_ok (evaluate_resolved caps r) = true <-> meets caps r.
Proof using Type.
  induction r as [r IH] using requirements_ind'. rewrite Forall_forall in IH. rewrite meets_inv, <-root_unmet_nil, evaluate_resolved_eq.
  destruct (rq_any_of r) as [|b0 l]; cbv zeta.
  { destruct (root_unmet caps r); naive_solver. }
  pose proof (first_branch_spec (b0 :: l) 0 []) as Hb. destruct (first_branch 0 (b0 :: l) []) as [i|failures].
  - destruct Hb as (k & b & _ & Hk%list_elem_of_lookup_2 & Hok & _). destruct (root_unmet caps r); [|naive_solver].
    split; [|done]. intros _. split; [done|]. intros _. exists b. split; [done|]. by apply IH.
  - destruct (root_unmet caps r); simpl; (split; [done|]); intros [? Hex]; [|done].
    destruct Hex as (b & Hin & Hm); [done|]. apply IH in Hm; [|done]. by rewrite Hb in Hm.
Qed.

Lemma evaluate_ok r : evaluate caps r = Ok tt <-> meets caps r.
Proof using Type. rewrite <-evaluate_resolved_ok. unfold evaluate. by destruct (evaluate_resolved caps r). Qed.

(** The gate of a module, exactly. It lets the module through when the host meets the
    predicates of the block and, if there are alternatives, those of one of them; the
    index it reports is that of the first such alternative. *)
Theorem requirements_exact r :
  (evaluate caps r = Ok tt <-> meets caps r) /\
  forall matched, evaluate_resolved caps r = Ok matched ->
    match matched with
    | None => rq_any_of r = []
    | Some i => exists b, rq_any_of r !! i = Some b /\ meets caps b /\
        forall n b', n < i -> rq_any_of r !! n = Some b' -> ~ meets caps b'
    end.
Proof using Type.
  split; [apply evaluate_ok|].
  intros matched. rewrite evaluate_resolved_eq. destruct (rq_any_of r) as [|b0 l]; cbv zeta.
  { destruct (root_unmet caps r); [by intros [= <-]|done]. }
  pose proof (first_branch_spec (b0 :: l) 0 []) as Hb. destruct (first_branch 0 (b0 :: l) []) as [i|failures].
  - destruct (root_unmet caps r); [|done]. intros [= <-]. destruct Hb as (k & b & -> & Hk & Hok & Hlt). simpl.
    exists b. split; [done|]. split; [by apply evaluate_resolved_ok|].
    intros n b' Hn Hb'. rewrite <-evaluate_resolved_ok, (Hlt n b' Hn Hb'). done.
  - by destruct (root_unmet caps r).
Qed.

(** A block that asks for nothing is met by every host: the gate may skip the probe. *)
Theorem empty_requirements_met r : requirements_is_empty r = true -> evaluate_resolved caps r = Ok None.
Proof using Type.
  unfold requirements_is_empty. rewrite !andb_true_iff, !negb_true_iff, !Z.eqb_eq, !bool_decide_eq_true.
  intros ((((((((((((? & ?) & ?) & ?) & ?) & ?) & ?) & Hw) & Hs) & ?) & ?) & Hh) & Ha).
  rewrite evaluate_resolved_eq. destruct (rq_any_of r); [|done]. cbv zeta.
  rewrite (proj2 (root_unmet_nil r)); [done|]. constructor; try congruence; try (intros; lia).
  - rewrite Hw. by intros f ?%elem_of_nil.
  - rewrite Hs. simpl. destruct (sm_overall _); simpl; lia.
  - rewrite Hh. by intros f ?%elem_of_nil.
Qed.

(** A verdict that is not spelled as one of the three asks for nothing. *)
Theorem unknown_verdict_ignored s : s ∉ ["FullMatch"; "PartialMatch"; "NoMatch"] ->
  evaluate caps (mkRequirements false false 0 0 0 0 0 "" s false 0 "" []) = Ok tt.
Proof using Type.
  intros Hs. apply evaluate_ok, meets_intro; [|done].
  assert (Hr : verdict_rank s = 0%Z) by (unfold verdict_rank; repeat case_match; try done; subst; set_solver).
  constructor; simpl; try done; try lia; try (by intros f ?%elem_of_nil).
  rewrite Hr. destruct (sm_overall _); simpl; lia.
Qed.
End exact.

(** ** What the probe gathers *)

(** A full match needs the four fixed dimensions; a board that can be read must be the
    right one, a board that cannot be read and a missing BF16 unit do not count. *)
Theorem full_match_exact snap : sm_overall (matches_sain01 snap) = Sain01Verdict.FullMatch <->
  ci_avx512_vnni (hs_cpu snap) = true /\ (256 * GIB <= hs_memory_total_bytes snap)%Z /\ 2 <= length (hs_gpus snap) /\
  (2 <= hs_pcie_x8_slots snap)%Z /\ (motherboard_is_proart_x870e <$> hs_motherboard snap) <> Some false.
Proof.
  unfold matches_sain01. cbv zeta. cbn [sm_overall].
  rewrite <-(Z.leb_le (256 * GIB)), <-(Nat.leb_le 2), <-(Z.leb_le 2).
  destruct (ci_avx512_vnni _), (256 * GIB <=? hs_memory_total_bytes snap)%Z, (2 <=? length (hs_gpus snap)),
    (2 <=? hs_pcie_x8_slots snap)%Z, (ci_avx512_bf16 _), (motherboard_is_proart_x870e <$> hs_motherboard snap) as [[]|];
    vm_compute; naive_solver.
Qed.

(** A summary of the cores never contradicts the feature list it was made from. *)
Theorem probed_flags_agree h snap : probe_from_roots h = Some snap ->
  let caps := derive_capabilities snap in
  cc_avx512vnni (hc_cpu caps) = sm_cpu_avx512_vnni (hc_sain01_match caps) /\
  cc_avx512bf16 (hc_cpu caps) = sm_cpu_avx512_bf16 (hc_sain01_match caps) /\
  hc_gpu_device_count caps = (Z.of_nat (length (hc_gpu_devices caps)) `min` u32_max)%Z /\
  (forall f, f ∈ cc_extended_features (hc_cpu caps) <-> f ∈ ci_features (hs_cpu snap)).
Proof.
  unfold probe_from_roots. destruct (ho_now h); [|done]. cbn [mbind option_bind]. intros [= <-]. cbv zeta.
  assert (Hf : forall (X : gset string) f, f ∈ merge_sort String.le (elements X) <-> f ∈ X).
  { intros X f. rewrite merge_sort_Permutation. apply elem_of_elements. }
  unfold read_cpuinfo, derive_capabilities, matches_sain01. simpl. rewrite length_fmap.
  destruct (ho_cpuinfo h); simpl; unfold has; (split_and!; [try done|try done|done|apply Hf]).
Qed.

Module HardwareExamples.
(** Eleven GPUs: the path texts put nvidia10 before nvidia2, while nvidia-smi counts in
    numbers, so that the memory of GPU 2 is booked on GPU 10. *)
Definition eleven : list string :=
  ["nvidia0"; "nvidia1"; "nvidia2"; "nvidia3"; "nvidia4"; "nvidia5"; "nvidia6"; "nvidia7"; "nvidia8"; "nvidia9"; "nvidia10";
   "nvidiactl"; "nvidia-uvm"].

Theorem gpu_rows_misplaced :
  (fun g => (gi_device_node g, gi_vram_bytes g))
    <$> enrich_gpus_via_nvidia_smi (Some "2, NVIDIA RTX PRO 6000 Blackwell, 98304") (read_gpu_device_nodes (Some eleven))
  = [("/dev/nvidia0", None); ("/dev/nvidia1", None); ("/dev/nvidia10", Some (96 * GIB)%Z); ("/dev/nvidia2", None);
     ("/dev/nvidia3", None); ("/dev/nvidia4", None); ("/dev/nvidia5", None); ("/dev/nvidia6", None);
     ("/dev/nvidia7", None); ("/dev/nvidia8", None); ("/dev/nvidia9", None)].
Proof. vm_compute. reflexivity. Qed.

Example watts : parse_watts <$> ["275.4"; "275.5"; "-3"; "[N/A]"; "Not Supported"; "nan"; "1e12"; "x"]
  = [Some 275; Some 276; Some 0; None; None; Some 0; Some u32_max; None]%Z.
Proof. vm_compute. reflexivity. Qed.

Example celsius : millideg_celsius <$> [45499; 45500; -1500; 2 ^ 62]%Z = [45; 46; -2; 0]%Z.
Proof. vm_compute. reflexivity. Qed.

Definition sain01_host : Host := mkHost
  (Ok (join (String "010" "") ["processor : 0"; "vendor_id : AuthenticAMD"; "physical id : 0"; "core id : 0"; "flags : avx2 avx512f avx512_vnni";
       "processor : 1"; "physical id : 0"; "core id : 0"]))
  (Ok ("MemTotal:       " +:+ show_uint (256 * 1024 * 1024) +:+ " kB")) (Some ["nvidia1"; "nvidiactl"; "nvidia0"]) None
  (Some (join (String "010" "") ["  LnkSta: Speed 16GT/s, Width x8"; " LnkSta: Speed 32GT/s, Width x8"; "LnkSta: Speed 8GT/s, Width x8"]))
  (Some "0, NVIDIA RTX PRO 6000 Blackwell, 98304") None None None (fun _ => mkHwmon None (fun _ => Err "ENOENT")) (Some "now").

Example sain01_probe :
  (fun s => (sm_overall (matches_sain01 s), ci_logical_threads (hs_cpu s), ci_physical_cores (hs_cpu s),
     gencode_flags_for_gpus (derive_capabilities s), cc_recommended_march (hc_cpu (derive_capabilities s))))
    <$> probe_from_roots sain01_host
  = Some (Sain01Verdict.FullMatch, 2%Z, 1%Z, ["-gencode arch=compute_120,code=sm_120"], "znver4").
Proof. vm_compute. reflexivity. Qed.

#[local] Instance tables : UnicodeTables :=
  {| uc_alphanumeric := fun _ => false; uc_uppercase := fun c => c; uc_debug_plain := fun _ => true |}.

Lemma unknown_verdict_ignored_witness caps :
  evaluate caps (mkRequirements false false 0 0 0 0 0 "" "fullmatch" false 0 "" []) = Ok tt.
Proof. apply (unknown_verdict_ignored caps "fullmatch"). vm_compute. set_solver. Defined.
End HardwareExamples.
