(* ===== verification/Config.v ===== *)
(** * Configuration

    Models crates/selfdef-config/src/lib.rs: the sections of the configuration with
    their defaults, the resolvers that depend on the deployment target, and the
    validation that runs before the daemon starts. Merging of the defaults, the TOML
    file and the environment is figment's and not modelled: a configuration is the
    value that it extracts.

    Paths are strings. The subscriptions are a hash map that validation iterates:
    they are the list of its entries in iteration order. *)

From S2P Require Import Prelude Core NetText.
From stdpp Require Import options.

(** ** Sections *)

Module DeploymentTarget.
Inductive t := Generic | Sain01.

#[global] Instance eq_dec : EqDecision t.
Proof. solve_decision. Defined.
End DeploymentTarget.

Definition target_as_str (t : DeploymentTarget.t) : string :=
  match t with DeploymentTarget.Generic => "generic" | DeploymentTarget.Sain01 => "sain01" end.

Definition target_from_str `{UnicodeTables} (s : string) : result DeploymentTarget.t string :=
  if bool_decide (s = "generic") then Ok DeploymentTarget.Generic
  else if bool_decide (s = "sain01") then Ok DeploymentTarget.Sain01
  else Err ("unknown deployment.target " +:+ str_debug s +:+ ": expected 'generic' or 'sain01'").

Record DeploymentConfig := mkDeploymentConfig {
  cdep_target : DeploymentTarget.t;
  cdep_sain01_strict : bool;
  cdep_hardware_metrics_path : string;
  cdep_hardware_capabilities_path : string;
  cdep_selfdef_mirror_dir : string;
}.
Definition deployment_default : DeploymentConfig := mkDeploymentConfig DeploymentTarget.Generic false "" "" "".

Record HardwareProbeConfig := mkHardwareProbeConfig {
  chw_enabled : bool;
  chw_interval_seconds : Z;
  chw_emit_thermal_events : bool;
  chw_thermal_warn_celsius : Z;
  chw_thermal_critical_celsius : Z;
  chw_gpu_critical_celsius : Z;
}.
Definition hardware_probe_default : HardwareProbeConfig := mkHardwareProbeConfig false 300 false 85 95 0.

Definition classify_thermal_reading (cfg : HardwareProbeConfig) (source : string) (celsius : Z) : string :=
  let critical :=
    if starts_with source "nvidia-gpu-" && (0 <? chw_gpu_critical_celsius cfg)%Z then chw_gpu_critical_celsius cfg
    else chw_thermal_critical_celsius cfg in
  if (critical <=? celsius)%Z then "critical"
  else if (chw_thermal_warn_celsius cfg <=? celsius)%Z then "warn"
  else "ok".

Record SecurityConfig := mkSecurityConfig {
  csec_require_signed_rules : bool;
  csec_signing_public_key_file : option string;
}.
Definition security_default : SecurityConfig := mkSecurityConfig false None.

Module OverlapPolicy.
Inductive t := Off | Warn | Refuse.
End OverlapPolicy.

Record GrantsConfig := mkGrantsConfig {
  cgr_overlap_policy : OverlapPolicy.t;
  cgr_issuance_cooldown_secs : Z;
}.
Definition grants_default : GrantsConfig := mkGrantsConfig OverlapPolicy.Off 0.

Record DaemonConfig := mkDaemonConfig {
  cdm_host_tag : option string;
  cdm_log_level : string;
  cdm_log_format : string;
}.
Definition daemon_default : DaemonConfig := mkDaemonConfig None "info" "text".

Record NatsJetStreamConfig := mkNatsJetStreamConfig {
  cjs_enabled : bool;
  cjs_stream_name : string;
  cjs_durable_consumer_prefix : string;
  cjs_max_age_secs : Z;
  cjs_max_bytes : Z;
  cjs_max_msgs : Z;
}.
Definition jetstream_default : NatsJetStreamConfig :=
  mkNatsJetStreamConfig false "selfdef-events" "selfdef-bridge" (7 * 24 * 3600) (-1) (-1).

Record NatsBridgeConfig := mkNatsBridgeConfig {
  cnats_enabled : bool;
  cnats_url : string;
  cnats_subject_prefix : string;
  cnats_jetstream : NatsJetStreamConfig;
  cnats_signing_key_file : string;
  cnats_peer_keys : gmap string string;
}.
Definition nats_default : NatsBridgeConfig := mkNatsBridgeConfig false "" "selfdef.events" jetstream_default "" ∅.

Record BusConfig := mkBusConfig {
  cbus_backend : string;
  cbus_inproc_capacity : Z;
  cbus_nats : NatsBridgeConfig;
}.
Definition bus_default : BusConfig := mkBusConfig "inproc" 4096 nats_default.

Record StoreConfig := mkStoreConfig {
  cst_hot_path : string;
  cst_hot_retention_days : Z;
}.
Definition store_default : StoreConfig := mkStoreConfig "/var/lib/selfdef/state.sqlite" 30.

(** *** Collectors *)

Record AuditdConfig := mkAuditdConfig {
  caud_enabled : bool;
  caud_input_path : string;
  caud_read_from : string;
}.
Definition auditd_default : AuditdConfig := mkAuditdConfig false "/var/log/audit/audit.log" "end".

Record JournaldConfig := mkJournaldConfig {
  cjd_enabled : bool;
  cjd_mode : string;
  cjd_input_path : option string;
  cjd_read_from : string;
  cjd_journalctl_path : string;
  cjd_units : list string;
}.
Definition journald_default : JournaldConfig :=
  mkJournaldConfig false "journalctl" None "end" "/usr/bin/journalctl" [].

Record TetragonConfig := mkTetragonConfig {
  ctet_enabled : bool;
  ctet_input_path : string;
  ctet_read_from : string;
}.
Definition tetragon_default : TetragonConfig := mkTetragonConfig false "/var/log/tetragon/events.json" "end".

Record SuricataConfig := mkSuricataConfig {
  csur_enabled : bool;
  csur_input_path : string;
  csur_read_from : string;
}.
Definition suricata_default : SuricataConfig := mkSuricataConfig false "/var/log/suricata/eve.json" "end".

Record CanaryConfig := mkCanaryConfig {
  ccan_enabled : bool;
  ccan_paths : list string;
}.
Definition canary_default : CanaryConfig := mkCanaryConfig false [].

Record EventstreamConfig := mkEventstreamConfig {
  cevs_enabled : bool;
  cevs_paths : list string;
  cevs_read_from : string;
  cevs_integrity_check : bool;
  cevs_allowed_owners : list Z;
}.
Definition eventstream_default : EventstreamConfig := mkEventstreamConfig false [] "" false [].

Record EbpfCollectorConfig := mkEbpfCollectorConfig {
  cebpf_enabled : bool;
  cebpf_program_path : string;
  cebpf_enable_execve : bool;
  cebpf_enable_lsm_open : bool;
  cebpf_enable_kprobe_unlink : bool;
}.
Definition ebpf_default : EbpfCollectorConfig :=
  mkEbpfCollectorConfig false "/usr/lib/selfdef/selfdef.bpf.o" true false true.

Record CollectorsConfig := mkCollectorsConfig {
  ccol_auditd : AuditdConfig;
  ccol_journald : JournaldConfig;
  ccol_tetragon : TetragonConfig;
  ccol_suricata : SuricataConfig;
  ccol_canary : CanaryConfig;
  ccol_eventstream : EventstreamConfig;
  ccol_ebpf : EbpfCollectorConfig;
}.
Definition collectors_default : CollectorsConfig :=
  mkCollectorsConfig auditd_default journald_default tetragon_default suricata_default canary_default
    eventstream_default ebpf_default.

Record CorrelatorConfig := mkCorrelatorConfig {
  ccor_enabled : bool;
  ccor_rules_dir : string;
  ccor_window_secs : Z;
  ccor_threshold : Z;
}.
Definition correlator_default : CorrelatorConfig := mkCorrelatorConfig true "/etc/selfdef/rules" 60 3.

(** *** Notification channels *)

Record NtfyConfig := mkNtfyConfig { cntfy_url : string; cntfy_topic : string; cntfy_token_file : option string }.
Definition ntfy_default : NtfyConfig := mkNtfyConfig "" "" None.

Record SignalConfig := mkSignalConfig { csig_binary : string; csig_account : string; csig_recipient : string }.
Definition signal_default : SignalConfig := mkSignalConfig "/usr/bin/signal-cli" "" "".

Record SmtpConfig := mkSmtpConfig {
  csmtp_relay_host : string;
  csmtp_relay_port : Z;
  csmtp_tls : string;
  csmtp_username : option string;
  csmtp_password_file : option string;
  csmtp_from : string;
  csmtp_to : list string;
  csmtp_timeout_secs : Z;
}.
Definition smtp_default : SmtpConfig := mkSmtpConfig "" 587 "starttls" None None "" [] 10.

Record TwilioConfig := mkTwilioConfig {
  ctw_account_sid : string;
  ctw_auth_token_file : option string;
  ctw_from : string;
  ctw_to : list string;
  ctw_timeout_secs : Z;
}.
Definition twilio_default : TwilioConfig := mkTwilioConfig "" None "" [] 10.

Record SlackConfig := mkSlackConfig {
  cslk_webhook_url_file : option string;
  cslk_username : string;
  cslk_icon_emoji : string;
}.
Definition slack_default : SlackConfig := mkSlackConfig None "" "".

Record DiscordConfig := mkDiscordConfig { cdis_webhook_url_file : option string; cdis_username : string }.
Definition discord_default : DiscordConfig := mkDiscordConfig None "".

Record PagerDutyConfig := mkPagerDutyConfig {
  cpd_routing_key_file : option string;
  cpd_endpoint : string;
  cpd_source : string;
}.
Definition pagerduty_default : PagerDutyConfig := mkPagerDutyConfig None "" "".

Record LokiConfig := mkLokiConfig {
  clok_endpoint : string;
  clok_tenant_id : string;
  clok_auth_token_file : option string;
  clok_source : string;
}.
Definition loki_default : LokiConfig := mkLokiConfig "" "" None "".

Record OpenSearchConfig := mkOpenSearchConfig {
  cos_endpoint : string;
  cos_index : string;
  cos_auth_kind : string;
  cos_username : string;
  cos_auth_token_file : option string;
  cos_source : string;
}.
Definition opensearch_default : OpenSearchConfig := mkOpenSearchConfig "" "" "" "" None "".

Record TheHiveConfig := mkTheHiveConfig {
  cth_endpoint : string;
  cth_api_key_file : option string;
  cth_source : string;
  cth_alert_type : string;
}.
Definition thehive_default : TheHiveConfig := mkTheHiveConfig "" None "" "".

Record WallConfig := mkWallConfig { cwall_binary : string; cwall_severity_floor : string }.
Definition wall_default : WallConfig := mkWallConfig "" "".

Record WriteConfig := mkWriteConfig {
  cwri_binary : string;
  cwri_severity_floor : string;
  cwri_users : list string;
}.
Definition write_default : WriteConfig := mkWriteConfig "" "" [].

Record SharedAuditSummaryConfig := mkSharedAuditSummaryConfig {
  csas_enabled : option bool;
  csas_path : option string;
  csas_selfdef_audit_path : option string;
  csas_jsonl_twin : bool;
  csas_jsonl_twin_path : option string;
}.
Definition shared_audit_summary_default : SharedAuditSummaryConfig :=
  mkSharedAuditSummaryConfig None None None false None.

Record OracleTriageFilterConfig := mkOracleTriageFilterConfig {
  cof_min_severity : string;
  cof_kinds : list string;
}.
Record OracleTriageConfig := mkOracleTriageConfig {
  cor_enabled : bool;
  cor_endpoint : string;
  cor_model : string;
  cor_timeout_seconds : Z;
  cor_api_key_env : option string;
  cor_filter : OracleTriageFilterConfig;
  cor_output_target : string;
  cor_system_prompt_path : option string;
  cor_max_events_per_hour : Z;
}.
Definition oracle_triage_default : OracleTriageConfig :=
  mkOracleTriageConfig false "http://127.0.0.1:8080" "auto" 30 None (mkOracleTriageFilterConfig "medium" [])
    "operator-dashboard" None 100.

Record RungConfig := mkRungConfig { crun_channels : list string; crun_ack_window_secs : Z }.
Record ProfileConfig := mkProfileConfig { cpro_rungs : list RungConfig }.
Record SubscriptionConfig := mkSubscriptionConfig {
  csub_severity_floor : option string;
  csub_event_kinds : list string;
}.

Record NotifierConfig := mkNotifierConfig {
  cn_channels : list string;
  cn_ntfy : NtfyConfig;
  cn_signal : SignalConfig;
  cn_smtp : SmtpConfig;
  cn_twilio : TwilioConfig;
  cn_slack : SlackConfig;
  cn_discord : DiscordConfig;
  cn_pagerduty : PagerDutyConfig;
  cn_loki : LokiConfig;
  cn_opensearch : OpenSearchConfig;
  cn_thehive : TheHiveConfig;
  cn_wall : WallConfig;
  cn_write : WriteConfig;
  cn_shared_audit_summary : SharedAuditSummaryConfig;
  cn_oracle_triage : OracleTriageConfig;
  cn_escalations_path : option string;
  cn_mode : string;
  cn_profile : string;
  cn_panic_floor : option string;
  cn_profiles : gmap string ProfileConfig;
  cn_subscriptions : list (string * SubscriptionConfig);
  cn_ack_link_base : option string;
}.
Definition notifier_default : NotifierConfig :=
  mkNotifierConfig [] ntfy_default signal_default smtp_default twilio_default slack_default discord_default
    pagerduty_default loki_default opensearch_default thehive_default wall_default write_default
    shared_audit_summary_default oracle_triage_default None "enforce" "auto" None ∅ [] None.

(** *** Perimeter, responder, API *)

Record PerimeterConfig := mkPerimeterConfig {
  cper_check_overlap_on_apply : option bool;
  cper_sovereign_kernel_fence_path : string;
  cper_policies_dir : string;
  cper_overlap_warn_only : bool;
  cper_third_party_policy_stance : string;
}.
Definition perimeter_default : PerimeterConfig :=
  mkPerimeterConfig None "/etc/tetragon/tracing-policies/sovereign-kernel-fence.yaml"
    "/etc/tetragon/tracing-policies" false "warn".

Record ResponderConfig := mkResponderConfig {
  cr_dry_run : bool;
  cr_allowed_actions : list string;
  cr_min_severity : string;
  cr_dedup_window_secs : Z;
  cr_max_destructive_actions_per_min : Z;
  cr_act_on_federated : bool;
  cr_snapshot_dir : string;
  cr_lockdown_script : string;
  cr_revoke_session_script : string;
  cr_revoke_session_excluded_users : list string;
  cr_forensics_dir : string;
  cr_velociraptor_binary : string;
  cr_velociraptor_args : list string;
  cr_block_ip_nft_path : string;
}.
Definition responder_default : ResponderConfig :=
  mkResponderConfig true ["notify"] "none" 0 0 true "/var/lib/selfdef/snapshots"
    "/usr/local/sbin/selfdef-lockdown.sh" "/usr/local/sbin/selfdef-revoke-session.sh" []
    "/var/lib/selfdef/forensics" "/usr/local/bin/velociraptor" [] "/usr/sbin/nft".

Record ApiTlsConfig := mkApiTlsConfig { ctls_cert_path : string; ctls_key_path : string; ctls_client_ca : string }.
Record ApiConfig := mkApiConfig {
  ca_enabled : bool;
  ca_unix_socket : string;
  ca_unix_socket_mode : string;
  ca_tcp_addr : string;
  ca_token_file : string;
  ca_control_token_file : string;
  ca_tls : ApiTlsConfig;
  ca_max_sse_subscribers : option Z;
  ca_max_sse_subscribers_per_token : option Z;
}.
Definition api_default : ApiConfig :=
  mkApiConfig false "/run/selfdef.sock" "0660" "" "/etc/selfdef/api.token" "" (mkApiTlsConfig "" "" "") None None.

Record Config := mkConfig {
  cfg_daemon : DaemonConfig;
  cfg_bus : BusConfig;
  cfg_store : StoreConfig;
  cfg_collectors : CollectorsConfig;
  cfg_correlator : CorrelatorConfig;
  cfg_notifier : NotifierConfig;
  cfg_responder : ResponderConfig;
  cfg_api : ApiConfig;
  cfg_security : SecurityConfig;
  cfg_deployment : DeploymentConfig;
  cfg_hardware_probe : HardwareProbeConfig;
  cfg_perimeter : PerimeterConfig;
  cfg_grants : GrantsConfig;
}.
Definition config_default : Config :=
  mkConfig daemon_default bus_default store_default collectors_default correlator_default notifier_default
    responder_default api_default security_default deployment_default hardware_probe_default perimeter_default
    grants_default.

(** ** Paths that depend on the target *)

Definition state_dir (target : DeploymentTarget.t) : string :=
  match target with DeploymentTarget.Generic => "/var/lib/selfdef" | DeploymentTarget.Sain01 => "/mnt/vault/context" end.
Definition audit_log_path (target : DeploymentTarget.t) : string := path_join (state_dir target) "selfdef-audit.jsonl".
Definition escalations_path (target : DeploymentTarget.t) : string :=
  path_join (state_dir target) "selfdef-escalations.sqlite".
Definition shared_audit_log_path (target : DeploymentTarget.t) : option string :=
  match target with
  | DeploymentTarget.Generic => None
  | DeploymentTarget.Sain01 => Some "/mnt/vault/context/security_audit.log"
  end.

Definition is_sain01 (c : Config) : bool := bool_decide (cdep_target (cfg_deployment c) = DeploymentTarget.Sain01).

Definition resolve_perimeter_check_overlap (c : Config) : bool :=
  default (is_sain01 c) (cper_check_overlap_on_apply (cfg_perimeter c)).

Definition resolve_shared_audit_summary_enabled (c : Config) : bool :=
  default (is_sain01 c) (csas_enabled (cn_shared_audit_summary (cfg_notifier c))).
Definition resolve_shared_audit_summary_path (c : Config) : option string :=
  match csas_path (cn_shared_audit_summary (cfg_notifier c)) with
  | Some p => Some p
  | None => shared_audit_log_path (cdep_target (cfg_deployment c))
  end.
Definition resolve_shared_audit_summary_pointer (c : Config) : string :=
  default (audit_log_path (cdep_target (cfg_deployment c)))
    (csas_selfdef_audit_path (cn_shared_audit_summary (cfg_notifier c))).
Definition resolve_shared_audit_summary_jsonl_twin (c : Config) : option string :=
  let s := cn_shared_audit_summary (cfg_notifier c) in
  if negb (csas_jsonl_twin s) then None
  else
    match csas_jsonl_twin_path s with
    | Some p => Some p
    | None => (fun base => with_extension base "jsonl") <$> resolve_shared_audit_summary_path c
    end.

(** ** Texts that the standard library parses *)

(** [str::trim_start_matches('0')]. *)
Fixpoint trim_zeros (s : string) : string :=
  match s with String "0" s' => trim_zeros s' | _ => s end.

Fixpoint octal_val (s : string) (acc : Z) : option Z :=
  match s with
  | "" => Some acc
  | String a s' => if in_range 48 55 (byte a) then octal_val s' (acc * 8 + (Z.of_N (byte a) - 48))%Z else None
  end.

(** [u32::from_str_radix(s, 8)]. *)
Definition u32_from_octal (s : string) : option Z :=
  let body := match s with String "+" s' => s' | _ => s end in
  if bool_decide (body = "") then None
  else n ← octal_val body 0; if (n <=? u32_max)%Z then Some n else None.

(** [SocketAddr::from_str]: the address and the port; the scope of an IPv6 address
    is read and dropped. *)
Definition read_port (s : string) : option (Z * string) :=
  s ← read_given_char ":" s; read_number digit_val 10 (String.length s) u16_max true s.

Definition read_scope_id (s : string) : option string :=
  s ← read_given_char "%" s; snd <$> read_number digit_val 10 (String.length s) u32_max true s.

Definition read_socket_v4 (s : string) : option (IpAddr * Z * string) :=
  '(ip, s) ← read_ipv4 s; '(port, s) ← read_port s; Some (V4 ip, port, s).

Definition read_socket_v6 (s : string) : option (IpAddr * Z * string) :=
  s ← read_given_char "[" s; '(ip, s) ← read_ipv6 s;
  s ← read_given_char "]" (default s (read_scope_id s)); '(port, s) ← read_port s; Some (V6 ip, port, s).

Definition parse_socket_addr (s : string) : option (IpAddr * Z) :=
  match (match read_socket_v4 s with Some r => Some r | None => read_socket_v6 s end) with
  | Some (ip, port, "") => Some (ip, port)
  | _ => None
  end.

Example parse_socket_addr_examples :
  parse_socket_addr <$> ["127.0.0.1:8443"; "[::1]:00080"; "[fe80::1%3]:1"; "localhost:1"; "127.0.0.1"; "1.2.3.4:65536"; "1.2.3.4:1 "]
  = [Some (V4 2130706433, 8443); Some (V6 [0; 0; 0; 0; 0; 0; 0; 1], 80); Some (V6 [65152; 0; 0; 0; 0; 0; 0; 1], 1);
     None; None; None; None]%Z.
Proof. vm_compute. reflexivity. Qed.

(** ** Validation *)

Inductive ConfigError :=
| Figment (e : string)
| Invalid (reason : string).

Definition invalid (reason : string) : result unit ConfigError := Err (Invalid reason).
Definition blank (s : string) : bool := bool_decide (trim s = "").
Definition quoted (s : string) : string := String "034" "" +:+ s +:+ String "034" "".

Definition VALID_STANCES : list string := ["warn"; "ignore"; "block"].
Definition VALID_READ_FROM : list string := ["start"; "end"].
Definition VALID_JOURNALD_MODE : list string := ["journalctl"; "file"].
Definition VALID_SEVERITY_GRADE : list string :=
  ["info"; "informational"; "low"; "medium"; "med"; "high"; "critical"; "crit"; "fatal"].
Definition VALID_MIN_SEVERITY : list string := "none" :: "unknown" :: VALID_SEVERITY_GRADE.

Section validate.
Context `{UnicodeTables}.

Definition words_debug (l : list string) : string := vec_debug (str_debug <$> l).

Definition check_signing (s : SecurityConfig) : result unit ConfigError :=
  if csec_require_signed_rules s && bool_decide (csec_signing_public_key_file s = None) then
    invalid ("[security] require_signed_rules = true but signing_public_key_file is unset — "
      +:+ "the correlator cannot verify rule signatures without a public key")
  else Ok tt.

Definition check_stance (p : PerimeterConfig) : result unit ConfigError :=
  if negb (bool_decide (cper_third_party_policy_stance p ∈ VALID_STANCES)) then
    invalid ("[perimeter] third_party_policy_stance must be one of " +:+ words_debug VALID_STANCES +:+ ", got "
      +:+ str_debug (cper_third_party_policy_stance p))
  else Ok tt.

Fixpoint check_read_from (l : list (string * string)) : result unit ConfigError :=
  match l with
  | [] => Ok tt
  | (section, value) :: l =>
      if negb (bool_decide (value = "")) && negb (bool_decide (value ∈ VALID_READ_FROM)) then
        invalid ("[collectors." +:+ section +:+ "] read_from must be one of " +:+ words_debug VALID_READ_FROM
          +:+ " (or unset), got " +:+ str_debug value +:+ " (an unrecognized value silently defaults to "
          +:+ quoted "end" +:+ ", dropping historical replay)")
      else check_read_from l
  end.

Definition read_from_sections (c : CollectorsConfig) : list (string * string) :=
  [("auditd", caud_read_from (ccol_auditd c)); ("journald", cjd_read_from (ccol_journald c));
   ("tetragon", ctet_read_from (ccol_tetragon c)); ("suricata", csur_read_from (ccol_suricata c));
   ("eventstream", cevs_read_from (ccol_eventstream c))].

Definition check_tls (has_tcp : bool) (t : ApiTlsConfig) : result unit ConfigError :=
  if negb has_tcp then Ok tt
  else
    let cert := negb (blank (ctls_cert_path t)) in
    let key := negb (blank (ctls_key_path t)) in
    let client_ca := negb (blank (ctls_client_ca t)) in
    if negb (bool_decide (cert = key)) then
      invalid ("[api.tls] cert_path and key_path must BOTH be set (or both empty) — "
        +:+ "exactly one is set, which silently disables TLS and serves the TCP "
        +:+ "control API in plaintext (bearer token only)")
    else if client_ca && negb (cert && key) then
      invalid ("[api.tls] client_ca (mTLS) is set but cert_path/key_path are not — "
        +:+ "mTLS requires TLS, so without a cert+key the TCP control API silently "
        +:+ "serves plaintext with no client-certificate requirement")
    else Ok tt.

Definition check_api (a : ApiConfig) : result unit ConfigError :=
  if negb (ca_enabled a) then Ok tt
  else
    let has_unix := negb (blank (ca_unix_socket a)) in
    let has_tcp := negb (blank (ca_tcp_addr a)) in
    if negb has_unix && negb has_tcp then
      invalid ("[api] enabled = true but neither unix_socket nor tcp_addr is set — "
        +:+ "set one transport or disable the api")
    else if has_tcp && blank (ca_token_file a) then
      invalid ("[api] tcp_addr is set but token_file is empty — the TCP transport "
        +:+ "requires a bearer token_file (it refuses to serve unauthenticated)")
    else if has_tcp && bool_decide (parse_socket_addr (ca_tcp_addr a) = None) then
      invalid ("[api] tcp_addr = " +:+ str_debug (ca_tcp_addr a) +:+ " is not a valid IP:port socket address (e.g. "
        +:+ quoted "127.0.0.1:8443" +:+ "; hostnames are not resolved) — the daemon "
        +:+ "cannot bind it and would silently serve no TCP API")
    else if has_unix && bool_decide (u32_from_octal (trim_zeros (ca_unix_socket_mode a)) = None) then
      invalid ("[api] unix_socket_mode = " +:+ str_debug (ca_unix_socket_mode a)
        +:+ " is not a valid octal file mode (e.g. " +:+ quoted "0660" +:+ ") — "
        +:+ "an unparseable mode silently falls back to 0660 (group-readable), widening "
        +:+ "permissions on the trusted control API socket")
    else check_tls has_tcp (ca_tls a).

Definition check_bus (b : BusConfig) : result unit ConfigError :=
  if cnats_enabled (cbus_nats b) && blank (cnats_url (cbus_nats b)) then
    invalid ("[bus.nats] enabled = true but url is empty — the NATS bridge needs a url (e.g. "
      +:+ quoted "nats://host:4222" +:+ ") or it silently never connects")
  else if (cbus_inproc_capacity b =? 0)%Z then
    invalid ("[bus] inproc_capacity = 0 is invalid — the in-process event "
      +:+ "bus needs a positive per-subscriber backlog (default 4096); "
      +:+ "a 0 capacity would panic the daemon at startup")
  else Ok tt.

Definition check_journald_mode (j : JournaldConfig) : result unit ConfigError :=
  if negb (bool_decide (cjd_mode j = "")) && negb (bool_decide (cjd_mode j ∈ VALID_JOURNALD_MODE)) then
    invalid ("[collectors.journald] mode must be one of " +:+ words_debug VALID_JOURNALD_MODE +:+ " (or unset), got "
      +:+ str_debug (cjd_mode j) +:+ " (an unrecognized value silently falls back to journalctl mode, ignoring input_path)")
  else Ok tt.

Definition check_min_severity (r : ResponderConfig) : result unit ConfigError :=
  let min_sev := to_ascii_lowercase (trim (cr_min_severity r)) in
  if negb (bool_decide (min_sev = "")) && negb (bool_decide (min_sev ∈ VALID_MIN_SEVERITY)) then
    invalid ("[responder] min_severity = " +:+ str_debug (cr_min_severity r) +:+ " is not a recognized severity floor "
      +:+ "(use one of none/info/low/medium/high/critical/fatal) — an unrecognized "
      +:+ "token silently applies NO floor, letting aggressive autonomous actions "
      +:+ "fire on low-confidence findings")
  else Ok tt.

Definition bad_grade (value : string) : bool :=
  let v := to_ascii_lowercase (trim value) in
  negb (bool_decide (v = "")) && negb (bool_decide (v ∈ VALID_SEVERITY_GRADE)).

Definition check_panic_floor (n : NotifierConfig) : result unit ConfigError :=
  match cn_panic_floor n with
  | Some raw =>
      if bad_grade raw then
        invalid ("[notifier] panic_floor = " +:+ str_debug raw +:+ " is not a recognized severity grade "
          +:+ "(use one of informational/low/medium/high/critical/fatal, or leave it "
          +:+ "unset for no floor) — an unrecognized token silently voids the audit-mode "
          +:+ "panic escape hatch, suppressing even critical findings")
      else Ok tt
  | None => Ok tt
  end.

Fixpoint check_subscriptions (l : list (string * SubscriptionConfig)) : result unit ConfigError :=
  match l with
  | [] => Ok tt
  | (name, sub) :: l =>
      match csub_severity_floor sub with
      | Some raw =>
          if bad_grade raw then
            invalid ("[notifier.subscriptions." +:+ name +:+ "] severity_floor = " +:+ str_debug raw +:+ " is not a "
              +:+ "recognized severity grade (use one of informational/low/medium/high/"
              +:+ "critical/fatal, or leave it unset) — an unrecognized token is silently "
              +:+ "dropped, so the channel fires on every finding instead of its intended gate")
          else check_subscriptions l
      | None => check_subscriptions l
      end
  end.

Definition check_channel_floors (n : NotifierConfig) : result unit ConfigError :=
  if bad_grade (cwall_severity_floor (cn_wall n)) then
    invalid ("[notifier.wall] severity_floor = " +:+ str_debug (cwall_severity_floor (cn_wall n))
      +:+ " is not a recognized severity grade (use one of informational/low/medium/high/critical/fatal, or leave it unset "
      +:+ "for the default) — an unrecognized token makes the builder refuse the wall "
      +:+ "channel, silently disabling its broadcasts")
  else if bad_grade (cwri_severity_floor (cn_write n)) then
    invalid ("[notifier.write] severity_floor = " +:+ str_debug (cwri_severity_floor (cn_write n))
      +:+ " is not a recognized severity grade (use one of informational/low/medium/high/critical/fatal, or leave it unset "
      +:+ "for the default) — an unrecognized token silently disables the write channel")
  else check_subscriptions (cn_subscriptions n).

Definition check_hardware_probe (h : HardwareProbeConfig) : result unit ConfigError :=
  if chw_enabled h && (chw_interval_seconds h <? 30)%Z then
    invalid ("[hardware_probe] interval_seconds = " +:+ show_uint (chw_interval_seconds h) +:+ " is below the 30s minimum — "
      +:+ "sub-30s probe cadence yields no operator value (probe I/O is cheap "
      +:+ "but not free); raise it to >= 30 (default 300) or disable the probe")
  else Ok tt.

Definition validate (c : Config) : result unit ConfigError :=
  let? _ := check_signing (cfg_security c) in
  let? _ := check_stance (cfg_perimeter c) in
  let? _ := check_read_from (read_from_sections (cfg_collectors c)) in
  let? _ := check_api (cfg_api c) in
  let? _ := check_bus (cfg_bus c) in
  let? _ := check_journald_mode (ccol_journald (cfg_collectors c)) in
  let? _ := check_min_severity (cfg_responder c) in
  let? _ := check_panic_floor (cfg_notifier c) in
  let? _ := check_channel_floors (cfg_notifier c) in
  check_hardware_probe (cfg_hardware_probe c).

(** [Config::load]; the answer of figment is an input. *)
Definition load (parsed : result Config string) : result Config ConfigError :=
  match parsed with
  | Err e => Err (Figment e)
  | Ok c => let? _ := validate c in Ok c
  end.
End validate.

Example default_validates `{UnicodeTables} : validate config_default = Ok tt.
Proof. reflexivity. Qed.
