(* ===== verification/PolicyOverlap.v ===== *)
(** * Overlap of tracing policies

    Models crates/selfdef-cli/src/perimeter.rs: the summary of the tracing policies in
    a directory, the overlap check under the three stances towards third parties, its
    report, and the commands check-overlap and the counts of status. Parsing of the
    YAML text is a parameter. *)

From stdpp Require Import sorting.
From S2P Require Import Prelude Core Signing Config.
From stdpp Require Import options.

(** ** Policies *)

Record MatchNamespace := mkMatchNamespace { mn_operator : string; mn_values : list string }.
Record Selector := mkSelector { sel_match_namespaces : list MatchNamespace }.
Record Kprobe := mkKprobe { kp_call : string; kp_selectors : list Selector }.
Record TracingPolicyDoc := mkTracingPolicy { tp_name : string; tp_kprobes : list Kprobe }.

(** [serde_yaml_ng::from_str] on a policy. *)
Class PolicyYaml := { policy_from_yaml : string -> result TracingPolicyDoc string }.

Module PolicyScope.
Inductive t := Host | Container.
#[global] Instance eq_dec : EqDecision t.
Proof. solve_decision. Defined.
Definition display (s : t) : string := match s with Host => "host" | Container => "container" end.
End PolicyScope.

Record KprobeSummary := mkKprobeSummary { ks_call : string; ks_scope : PolicyScope.t }.
Record PolicySummary := mkPolicySummary {
  ps_filename : string;
  ps_metadata_name : string;
  ps_author : string;
  ps_kprobes : list KprobeSummary;
}.

Definition SELFDEF_POLICY_PREFIX : string := "agent-guard-".
Definition SOVEREIGN_POLICY_PREFIX : string := "sovereign-".
Definition HOST_SCOPED_SYSCALLS : list string := ["sys_execve"; "sys_execveat"; "tcp_connect"; "tcp_sendmsg"].

Definition is_selfdef_policy (policy_name : string) : bool := starts_with policy_name SELFDEF_POLICY_PREFIX.

Definition classify_author (filename : string) : string :=
  if starts_with filename SELFDEF_POLICY_PREFIX then "selfdef"
  else if starts_with filename SOVEREIGN_POLICY_PREFIX then "sovereign-os"
  else "third-party".

Definition classify_scope (k : Kprobe) : PolicyScope.t :=
  if existsb (fun sel => existsb (fun mn => bool_decide (mn_operator mn = "In") && bool_decide ("container" ∈ mn_values mn))
                           (sel_match_namespaces sel)) (kp_selectors k)
  then PolicyScope.Container else PolicyScope.Host.

Definition parse_policy `{PolicyYaml} (filename body : string) : result PolicySummary string :=
  match policy_from_yaml body with
  | Err e => Err e
  | Ok doc => Ok (mkPolicySummary filename (tp_name doc) (classify_author filename)
                    ((fun k => mkKprobeSummary (kp_call k) (classify_scope k)) <$> tp_kprobes doc))
  end.

Definition filename_le (p q : PolicySummary) : Prop := String.le (ps_filename p) (ps_filename q).
#[export] Instance filename_le_dec p q : Decision (filename_le p q).
Proof. unfold filename_le. apply _. Defined.

Definition policy_file `{PolicyYaml} (fs : FileSystem) (dir : path) (name : string) : option PolicySummary :=
  if negb (utf8_valid name) then None
  else if negb (ends_with name ".yaml" || ends_with name ".yml") then None
  else match fs_read_to_string fs (dir ++ [name]) with
       | Err _ => None
       | Ok body => match parse_policy name body with Ok s => Some s | Err _ => None end
       end.

(** An entry that cannot be read, or a file that does not parse, is left out. *)
Definition read_policies_dir `{PolicyYaml} (fs : FileSystem) (dir : path) : result (list PolicySummary) string :=
  match fs_tree fs dir with
  | None => Ok []
  | Some NFile => Err "Not a directory (os error 20)"
  | Some (NDir entries _) => Ok (merge_sort filename_le (omap (policy_file fs dir) entries.*1))
  end.

(** ** Findings *)

Inductive OverlapFinding :=
| DuplicateMetadataName (name : string) (files : list string)
| SelfdefHostScopedOnFencedSyscall (filename metadata_name syscall : string)
| ThirdPartyPolicyObserved (filename metadata_name : string)
| ThirdPartyHostScopedOnFencedSyscall (filename metadata_name syscall : string).

Definition duplicates (policies : list PolicySummary) : list OverlapFinding :=
  let names := merge_sort String.le (remove_dups (filter (fun n => n <> "") (ps_metadata_name <$> policies))) in
  omap (fun name =>
    let files := ps_filename <$> filter (fun p => ps_metadata_name p = name) policies in
    if 1 <? length files then Some (DuplicateMetadataName name (merge_sort String.le files)) else None) names.

Definition fenced (kp : KprobeSummary) : bool :=
  bool_decide (ks_scope kp = PolicyScope.Host) && bool_decide (ks_call kp ∈ HOST_SCOPED_SYSCALLS).

Definition fenced_calls (mk : string -> string -> string -> OverlapFinding) (p : PolicySummary) : list OverlapFinding :=
  (fun kp => mk (ps_filename p) (ps_metadata_name p) (ks_call kp)) <$> filter (fun kp => fenced kp = true) (ps_kprobes p).

Definition check_overlap_with_stance (policies : list PolicySummary) (stance : string) : list OverlapFinding :=
  duplicates policies
  ++ (p ← filter (fun p => ps_author p = "selfdef") policies; fenced_calls SelfdefHostScopedOnFencedSyscall p)
  ++ (if bool_decide (stance = "ignore") then []
      else p ← filter (fun p => ps_author p = "third-party") policies;
           ThirdPartyPolicyObserved (ps_filename p) (ps_metadata_name p)
           :: (if bool_decide (stance = "block") then fenced_calls ThirdPartyHostScopedOnFencedSyscall p else [])).

Definition check_overlap (policies : list PolicySummary) : list OverlapFinding := check_overlap_with_stance policies "ignore".

Definition finding_is_blocking (f : OverlapFinding) : bool :=
  match f with ThirdPartyPolicyObserved _ _ => false | _ => true end.

(** The exit code of the report; the text it prints is not modelled. *)
Definition overlap_exit (findings : list OverlapFinding) : Z := if existsb finding_is_blocking findings then 1 else 0.

(** ** Commands *)

Section commands.
Context `{PolicyYaml} (fs : FileSystem) (dir_of : string -> path).

(** [dir_of] turns the configured text into a path. *)
Definition run_check_overlap (cfg : Config) : result Z string :=
  if bool_decide (cdep_target (cfg_deployment cfg) = DeploymentTarget.Generic) && negb (resolve_perimeter_check_overlap cfg)
  then Ok 0%Z
  else
    let? policies := read_policies_dir fs (dir_of (cper_policies_dir (cfg_perimeter cfg))) in
    let findings := check_overlap_with_stance policies (cper_third_party_policy_stance (cfg_perimeter cfg)) in
    if negb (match findings with [] => true | _ => false end) && cper_overlap_warn_only (cfg_perimeter cfg) then Ok 0%Z
    else Ok (overlap_exit findings).

(** The three counts that status prints. *)
Definition status_counts (cfg : Config) : nat * nat * nat :=
  let policies := match read_policies_dir fs (dir_of (cper_policies_dir (cfg_perimeter cfg))) with Ok l => l | Err _ => [] end in
  let count author := length (filter (fun p => ps_author p = author) policies) in
  (count "selfdef", count "sovereign-os", count "third-party").

(** The gate before an apply: [cfg] is [None] when no configuration is given, an error
    when it does not load. *)
Definition pre_apply_perimeter_check (cfg : option (result Config ConfigError)) : Z :=
  match cfg with
  | None | Some (Err _) => 0
  | Some (Ok cfg) =>
      if negb (resolve_perimeter_check_overlap cfg) then 0
      else match read_policies_dir fs (dir_of (cper_policies_dir (cfg_perimeter cfg))) with
           | Err _ => 0
           | Ok policies =>
               let findings := check_overlap_with_stance policies (cper_third_party_policy_stance (cfg_perimeter cfg)) in
               if negb (existsb finding_is_blocking findings) then 0
               else if cper_overlap_warn_only (cfg_perimeter cfg) then 0
               else overlap_exit findings `max` 1
           end
  end.
End commands.

(** ** What the check finds *)

Definition host_wide (p : PolicySummary) : Prop :=
  exists kp, kp ∈ ps_kprobes p /\ ks_scope kp = PolicyScope.Host /\ ks_call kp ∈ HOST_SCOPED_SYSCALLS.

Lemma fenced_spec kp : fenced kp = true <-> ks_scope kp = PolicyScope.Host /\ ks_call kp ∈ HOST_SCOPED_SYSCALLS.
Proof. unfold fenced. by rewrite andb_true_iff, !bool_decide_eq_true. Qed.

Lemma fenced_calls_nonempty mk p : (exists f, f ∈ fenced_calls mk p) <-> host_wide p.
Proof.
  unfold fenced_calls, host_wide. split.
  - intros (f & (kp & _ & [Hf Hin]%list_elem_of_filter)%list_elem_of_fmap). apply fenced_spec in Hf. naive_solver.
  - intros (kp & Hin & Hs & Hc). eexists. apply list_elem_of_fmap. exists kp. split; [done|].
    apply list_elem_of_filter. split; [by apply fenced_spec|done].
Qed.

(** Two files share a name. *)
Definition share_name (policies : list PolicySummary) : Prop :=
  exists name, name <> "" /\ 1 < length (filter (fun p => ps_metadata_name p = name) policies).

Lemma duplicates_nonempty policies : (exists f, f ∈ duplicates policies) <-> share_name policies.
Proof.
  unfold duplicates, share_name. split.
  - intros (f & (name & Hin & Hf)%list_elem_of_omap). rewrite merge_sort_Permutation, elem_of_remove_dups in Hin.
    apply list_elem_of_filter in Hin as [Hne _]. exists name. split; [done|]. rewrite length_fmap in Hf.
    by destruct (Nat.ltb_spec 1 (length (filter (fun p => ps_metadata_name p = name) policies))).
  - intros (name & Hne & Hl). eexists. apply list_elem_of_omap. exists name. split.
    + rewrite merge_sort_Permutation, elem_of_remove_dups. apply list_elem_of_filter. split; [done|].
      destruct (filter (fun p => ps_metadata_name p = name) policies) as [|p l] eqn:E; [simpl in Hl; lia|].
      assert (Hp : p ∈ filter (fun p => ps_metadata_name p = name) policies) by (rewrite E; by left).
      apply list_elem_of_filter in Hp as [<- Hp]. by apply list_elem_of_fmap_2.
    + rewrite length_fmap. destruct (Nat.ltb_spec 1 (length (filter (fun p => ps_metadata_name p = name) policies))); [done|lia].
Qed.

Lemma duplicates_blocking policies f : f ∈ duplicates policies -> finding_is_blocking f = true.
Proof.
  unfold duplicates. intros (name & _ & Hf)%list_elem_of_omap.
  destruct (1 <? _); [|done]. by injection Hf as <-.
Qed.

Lemma fenced_calls_mk mk p f : f ∈ fenced_calls mk p -> exists a b c, f = mk a b c.
Proof. unfold fenced_calls. intros (kp & -> & _)%list_elem_of_fmap. eauto. Qed.

(** The check, exactly: something blocks when two files share a name, when a policy of
    selfdef asserts host-wide on a fenced call, or, under the stance block, when one of
    a third party does. *)
Theorem overlap_blocks_exact policies stance :
  existsb finding_is_blocking (check_overlap_with_stance policies stance) = true <->
  share_name policies \/ (exists p, p ∈ policies /\ ps_author p = "selfdef" /\ host_wide p) \/
  (stance = "block" /\ exists p, p ∈ policies /\ ps_author p = "third-party" /\ host_wide p).
Proof.
  unfold check_overlap_with_stance. rewrite !existsb_app, !orb_true_iff.
  assert (H1 : existsb finding_is_blocking (duplicates policies) = true <-> share_name policies).
  { rewrite <-duplicates_nonempty, existsb_exists. split.
    - intros (f & Hf%list_elem_of_In & _). eauto.
    - intros (f & Hf). exists f. split; [by apply list_elem_of_In|by eapply duplicates_blocking]. }
  assert (H2 : forall mk author, (forall a b c, finding_is_blocking (mk a b c) = true) ->
    existsb finding_is_blocking (filter (fun p => ps_author p = author) policies ≫= fenced_calls mk) = true <->
    exists p, p ∈ policies /\ ps_author p = author /\ host_wide p).
  { intros mk author Hmk. rewrite existsb_exists. split.
    - intros (f & Hf%list_elem_of_In & _). apply list_elem_of_bind in Hf as (p & Hf & [Ha Hp]%list_elem_of_filter).
      exists p. split; [done|]. split; [done|]. apply (fenced_calls_nonempty mk). eauto.
    - intros (p & Hp & Ha & [f Hf]%(fenced_calls_nonempty mk)). exists f. split.
      + apply list_elem_of_In, list_elem_of_bind. exists p. split; [done|]. by apply list_elem_of_filter.
      + destruct (fenced_calls_mk _ _ _ Hf) as (a & b & c & ->). apply Hmk. }
  rewrite H1, (H2 SelfdefHostScopedOnFencedSyscall "selfdef") by done.
  assert (H3 : existsb finding_is_blocking (if bool_decide (stance = "ignore") then []
      else p ← filter (fun p => ps_author p = "third-party") policies;
           ThirdPartyPolicyObserved (ps_filename p) (ps_metadata_name p)
           :: (if bool_decide (stance = "block") then fenced_calls ThirdPartyHostScopedOnFencedSyscall p else [])) = true <->
    (stance = "block" /\ exists p, p ∈ policies /\ ps_author p = "third-party" /\ host_wide p)).
  { rewrite <-(H2 ThirdPartyHostScopedOnFencedSyscall "third-party") by done.
    destruct (bool_decide_reflect (stance = "ignore")) as [->|]; [naive_solver|].
    destruct (bool_decide_reflect (stance = "block")) as [->|Hb].
    - induction (filter (fun p => ps_author p = "third-party") policies) as [|p l IH]; simpl; [naive_solver|].
      rewrite !existsb_app, !orb_true_iff, IH. naive_solver.
    - induction (filter (fun p => ps_author p = "third-party") policies) as [|p l IH]; simpl; naive_solver. }
  rewrite H3. done.
Qed.

Module OverlapExamples.
(** Selectors are alternatives: one that is bound to containers makes the whole probe
    count as container-scoped, although the other fires on the host. *)
Definition two_selectors : Kprobe :=
  mkKprobe "sys_execve" [mkSelector [mkMatchNamespace "In" ["container"]]; mkSelector []].
Theorem one_selector_hides_another :
  classify_scope two_selectors = PolicyScope.Container /\
  classify_scope (mkKprobe "sys_execve" [mkSelector []]) = PolicyScope.Host /\
  check_overlap [mkPolicySummary "agent-guard-x.yaml" "x" "selfdef" [mkKprobeSummary "sys_execve" (classify_scope two_selectors)]] = [].
Proof. vm_compute. done. Qed.
End OverlapExamples.
