(* ===== verification/Features.v ===== *)
(** * TOML values and the features of a module

    Models the TOML helpers of crates/selfdef-cli/src/modules.rs: dotted lookup, set and
    clear, the merge of an overlay into defaults, the boolean filter, the conversion to
    JSON, and the commands that show, set and clear the features of a module. A table is
    the sorted list of its entries, as the map of the toml crate iterates it; reading and
    printing of TOML text are parameters. *)

From stdpp Require Import sorting.
From S2P Require Import Prelude Core Signing.
From stdpp Require Import options.

(** ** Values *)

(** A float is its 64 bits, a date its text. *)
Inductive toml :=
| TString (s : string)
| TInteger (n : Z)
| TFloat (bits : Z)
| TBoolean (b : bool)
| TDatetime (text : string)
| TArray (l : list toml)
| TTable (t : list (string * toml)).

Abbreviation table := (list (string * toml)).

Definition is_table (v : toml) : bool := match v with TTable _ => true | _ => false end.
Definition toml_as_str (v : toml) : option string := match v with TString s => Some s | _ => None end.

(** [Map::insert] and [Map::remove]. *)
Fixpoint sorted_insert (k : string) (v : toml) (t : table) : table :=
  match t with
  | [] => [(k, v)]
  | (k', v') :: t => if bool_decide (String.le k k') then (k, v) :: (k', v') :: t else (k', v') :: sorted_insert k v t
  end.
Definition tbl_insert (k : string) (v : toml) (t : table) : table :=
  if bool_decide (k ∈ t.*1) then (fun p => if bool_decide (p.1 = k) then (k, v) else p) <$> t
  else sorted_insert k v t.
Definition tbl_remove (k : string) (t : table) : table := filter (fun p => p.1 <> k) t.

(** ** Dotted keys *)

Fixpoint lookup_parts (v : toml) (parts : list string) : option toml :=
  match parts with
  | [] => Some v
  | p :: parts => match v with TTable t => w ← assoc p t; lookup_parts w parts | _ => None end
  end.
Definition lookup_dotted (root : toml) (dotted : string) : option toml := lookup_parts root (split "." dotted).

Fixpoint set_parts (t : table) (parts : list string) (value : toml) : table :=
  match parts with
  | [] => t
  | [p] => tbl_insert p value t
  | p :: parts =>
      let inner := match assoc p t with Some (TTable inner) => inner | _ => [] end in
      tbl_insert p (TTable (set_parts inner parts value)) t
  end.
Definition set_dotted (root : toml) (dotted : string) (value : toml) : toml :=
  TTable (set_parts (match root with TTable t => t | _ => [] end) (split "." dotted) value).

(** The second component tells whether something was removed. *)
Fixpoint clear_parts (t : table) (parts : list string) : table * bool :=
  match parts with
  | [] => (t, false)
  | [p] => match assoc p t with Some _ => (tbl_remove p t, true) | None => (t, false) end
  | p :: parts =>
      match assoc p t with
      | Some (TTable inner) =>
          let '(inner, cleared) := clear_parts inner parts in
          if cleared then (tbl_insert p (TTable inner) t, true) else (t, false)
      | _ => (t, false)
      end
  end.
Definition clear_dotted (root : toml) (dotted : string) : toml * bool :=
  match root with
  | TTable t => let '(t, cleared) := clear_parts t (split "." dotted) in (TTable t, cleared)
  | _ => (root, false)
  end.

(** ** Merging *)

Fixpoint deep_merge_toml (base overlay : toml) {struct overlay} : toml :=
  match base, overlay with
  | TTable b, TTable o =>
      TTable ((fix go (b : table) (o : table) {struct o} : table :=
        match o with
        | [] => b
        | (k, v) :: o =>
            go (match assoc k b with
                | Some existing =>
                    if is_table existing && is_table v then tbl_insert k (deep_merge_toml existing v) b
                    else tbl_insert k v b
                | None => tbl_insert k v b
                end) o
        end) b o)
  | _, _ => overlay
  end.

Fixpoint overlay_keys (v : toml) (dotted : string) {struct v} : list string :=
  match v with
  | TTable t =>
      (fix go (t : table) : list string :=
         match t with
         | [] => []
         | (k, w) :: t => overlay_keys w (if bool_decide (dotted = "") then k else dotted +:+ "." +:+ k) ++ go t
         end) t
  | _ => [dotted]
  end.
(** The keys of the leaves, of a table at the top. *)
Definition collect_overlay_keys_dotted (t : table) : list string := overlay_keys (TTable t) "".

Fixpoint filter_features_by_bool (v : toml) (target : bool) {struct v} : toml :=
  match v with
  | TBoolean b => if Bool.eqb b target then v else TTable []
  | TTable t =>
      TTable ((fix go (t : table) : table :=
        match t with
        | [] => []
        | (k, child) :: t =>
            match filter_features_by_bool child target with
            | TTable [] => go t
            | TBoolean b => if Bool.eqb b target then (k, TBoolean b) :: go t else go t
            | TTable inner => (k, TTable inner) :: go t
            | _ => go t
            end
        end) t)
  | _ => TTable []
  end.

(** A float that is not finite becomes null. *)
Definition finite_bits (bits : Z) : bool := negb ((bits / 2 ^ 52) `mod` 2 ^ 11 =? 2 ^ 11 - 1)%Z.
Fixpoint toml_to_json (v : toml) : json :=
  match v with
  | TString s => JString s
  | TInteger n => json_int n
  | TFloat bits => if finite_bits bits then JFloat bits else JNull
  | TBoolean b => JBool b
  | TDatetime text => JString text
  | TArray l => JArray (toml_to_json <$> l)
  | TTable t => JObject ((fun p => (p.1, toml_to_json p.2)) <$> t)
  end.

(** ** The features of a module *)

Class TomlText := {
  toml_from_str : string -> result toml string;
  toml_to_string_pretty : toml -> result string string;
}.

Module FeatureFilter.
Inductive t := All | EnabledOnly | DisabledOnly.
End FeatureFilter.

Definition PER_MODULE_DIR : path := ["etc"; "selfdef"; "modules"].
Definition etc_overlay (slug : string) : path := PER_MODULE_DIR ++ [slug +:+ ".toml"].

Definition upper_or_underscore (c : rchar) : string :=
  if is_ascii_alphanumeric (char_code c) then str_map ascii_upper c else "_".
Definition module_features_env_name (slug : string) : string :=
  "SELFDEF_MODULE_FEATURES_" +:+ str_concat (upper_or_underscore <$> chars slug).

Definition is_file (fs : FileSystem) (p : path) : bool :=
  match fs_tree fs p with Some NFile => true | _ => false end.

(** [env] is the path in the variable of the module, when it is set and not empty. *)
Definition resolve_module_features_overlay (fs : FileSystem) (env : option path) (slug : string) (explicit : option path) :
    option path :=
  match explicit with
  | Some p => if is_file fs p then Some p else None
  | None =>
      match env with
      | Some p => if is_file fs p then Some p else if is_file fs (etc_overlay slug) then Some (etc_overlay slug) else None
      | None => if is_file fs (etc_overlay slug) then Some (etc_overlay slug) else None
      end
  end.

(** An operator file may carry a [features] table or be flat. *)
Definition overlay_table (v : toml) : table :=
  match v with
  | TTable t => match assoc "features" t with Some (TTable inner) => inner | _ => t end
  | _ => []
  end.

Section features.
Context `{TomlText} (fs : FileSystem).

(** The overlay that is in force, if any, and the error of reading it, if any. *)
Definition load_overlay (resolved : option path) : option table * option string :=
  match resolved with
  | None => (None, None)
  | Some p =>
      match fs_read_to_string fs p with
      | Err e => (None, Some e)
      | Ok body => match toml_from_str body with Ok v => (Some (overlay_table v), None) | Err e => (None, Some e) end
      end
  end.

Definition merge_overlay (defaults : table) (overlay : option table) : toml :=
  match overlay with Some o => deep_merge_toml (TTable defaults) (TTable o) | None => TTable defaults end.

Definition apply_filter (f : FeatureFilter.t) (v : toml) : toml :=
  match f with
  | FeatureFilter.All => v
  | FeatureFilter.EnabledOnly => filter_features_by_bool v true
  | FeatureFilter.DisabledOnly => filter_features_by_bool v false
  end.

(** What [modules features] prints: the overlay keys, the features and the error. *)
Definition features_json_filtered (defaults : table) (resolved : option path) (f : FeatureFilter.t) :
    list string * json * option string :=
  let '(overlay, parse_error) := load_overlay resolved in
  (merge_sort String.le (default [] (collect_overlay_keys_dotted <$> overlay)),
   toml_to_json (apply_filter f (merge_overlay defaults overlay)), parse_error).

(** The command, from the path that was given, the environment and /etc. *)
Definition cmd_features_json_filtered (env : option path) (slug : string) (explicit : option path) (defaults : table)
    (f : FeatureFilter.t) : list string * json * option string :=
  features_json_filtered defaults (resolve_module_features_overlay fs env slug explicit) f.

Definition load_overlay_or_empty (p : path) : toml :=
  match fs_read_to_string fs p with
  | Err _ => TTable []
  | Ok body => match toml_from_str body with Ok v => v | Err _ => TTable [] end
  end.

Definition overlay_write_path (slug : string) (explicit : option path) : path := default (etc_overlay slug) explicit.

(** [modules feature set]: the text that is written to the overlay, or the error. *)
Definition feature_set (known : bool) (slug key : string) (value : string) (explicit : option path) :
    result (path * string) string :=
  if negb known then Err ("no module named `" +:+ slug +:+ "`")
  else
    let? doc := toml_from_str ("v = " +:+ value) in
    match doc with
    | TTable t =>
        match assoc "v" t with
        | None => Err "could not parse scalar"
        | Some parsed =>
            let overlay_path := overlay_write_path slug explicit in
            let? body := toml_to_string_pretty (set_dotted (load_overlay_or_empty overlay_path) key parsed) in
            Ok (overlay_path, body)
        end
    | _ => Err "could not parse scalar"
    end.

(** [modules feature clear]: the text that is written, [None] when nothing is. *)
Definition feature_clear (known : bool) (slug key : string) (explicit : option path) : result (option (path * string)) string :=
  if negb known then Err ("no module named `" +:+ slug +:+ "`")
  else
    let overlay_path := overlay_write_path slug explicit in
    if negb (is_file fs overlay_path) then Ok None
    else
      let '(root, did) := clear_dotted (load_overlay_or_empty overlay_path) key in
      if did then let? body := toml_to_string_pretty root in Ok (Some (overlay_path, body)) else Ok None.
End features.

(** ** Tables *)

Lemma assoc_sorted_insert k v t k' : k ∉ t.*1 ->
  assoc k' (sorted_insert k v t) = if bool_decide (k' = k) then Some v else assoc k' t.
Proof.
  induction t as [|[x w] t IH]; simpl; intros Hk; [done|]. rewrite not_elem_of_cons in Hk. destruct Hk as [Hx Hk].
  destruct (bool_decide (String.le k x)); simpl; [done|]. rewrite IH by done. repeat case_bool_decide; naive_solver.
Qed.

Lemma assoc_replace k v (t : table) k' : k ∈ t.*1 ->
  assoc k' ((fun p => if bool_decide (p.1 = k) then (k, v) else p) <$> t) = if bool_decide (k' = k) then Some v else assoc k' t.
Proof.
  induction t as [|[x w] t IH]; intros Hin; [by apply elem_of_nil in Hin|]. rewrite fmap_cons in *. simpl in Hin. cbn [fst].
  destruct (decide (x = k)) as [->|Hx].
  - rewrite bool_decide_true by done. cbn [assoc]. destruct (bool_decide_reflect (k' = k)) as [|Hk]; [done|].
    clear -Hk. induction t as [|[y u] t IH]; [done|]. rewrite fmap_cons. cbn [fst].
    destruct (bool_decide_reflect (y = k)) as [->|]; cbn [assoc]; rewrite IH; [|done]. by rewrite bool_decide_false.
  - rewrite (bool_decide_false (x = k)) by done. cbn [assoc]. rewrite IH by (apply elem_of_cons in Hin; naive_solver).
    repeat case_bool_decide; naive_solver.
Qed.

Lemma assoc_tbl_insert k v t k' : assoc k' (tbl_insert k v t) = if bool_decide (k' = k) then Some v else assoc k' t.
Proof. unfold tbl_insert. case_bool_decide as Hin; [by apply assoc_replace|by apply assoc_sorted_insert]. Qed.

Lemma assoc_tbl_remove k t k' : assoc k' (tbl_remove k t) = if bool_decide (k' = k) then None else assoc k' t.
Proof.
  unfold tbl_remove. induction t as [|[x w] t IH]; [simpl; by case_bool_decide|].
  destruct (decide (x = k)) as [->|Hx].
  - rewrite filter_cons_False by (simpl; tauto). rewrite IH. simpl. repeat case_bool_decide; naive_solver.
  - rewrite filter_cons_True by done. simpl. rewrite IH. repeat case_bool_decide; naive_solver.
Qed.

Lemma sorted_insert_perm k v t : sorted_insert k v t ≡ₚ (k, v) :: t.
Proof.
  induction t as [|[x w] t IH]; simpl; [done|]. case_bool_decide; [done|]. rewrite IH. apply Permutation_swap.
Qed.

Lemma tbl_insert_keys k v t : NoDup t.*1 -> NoDup (tbl_insert k v t).*1.
Proof.
  intros Hn. unfold tbl_insert. case_bool_decide as Hin.
  - assert (E : ((fun p : string * toml => if bool_decide (p.1 = k) then (k, v) else p) <$> t).*1 = t.*1).
    { rewrite <-list_fmap_compose. apply list_fmap_ext. intros i [x w] _. simpl. case_bool_decide; simpl; congruence. }
    by rewrite E.
  - rewrite sorted_insert_perm, fmap_cons. by apply NoDup_cons.
Qed.

(** Keys are distinct in every table. *)
Inductive toml_wf : toml -> Prop :=
| wf_leaf v : is_table v = false -> toml_wf v
| wf_table t : NoDup t.*1 -> Forall (fun p => toml_wf p.2) t -> toml_wf (TTable t).

Lemma toml_wf_table t : toml_wf (TTable t) <-> NoDup t.*1 /\ Forall (fun p => toml_wf p.2) t.
Proof. split; [by inversion 1|]. intros []. by constructor. Qed.

Lemma assoc_elem (t : table) k v : assoc k t = Some v -> (k, v) ∈ t.
Proof. induction t as [|[x w] t IH]; simpl; [done|]. case_bool_decide; [naive_solver set_solver|]. intros. right. auto. Qed.

Lemma assoc_wf t k v : toml_wf (TTable t) -> assoc k t = Some v -> toml_wf v.
Proof. intros [_ Hf]%toml_wf_table Ha%assoc_elem. rewrite Forall_forall in Hf. by apply (Hf (k, v)). Qed.

Lemma elem_assoc (t : table) k v : NoDup t.*1 -> (k, v) ∈ t -> assoc k t = Some v.
Proof.
  induction t as [|[x w] t IH]; simpl; intros Hn Hin; [by apply elem_of_nil in Hin|].
  apply NoDup_cons in Hn as [Hx Hn]. apply elem_of_cons in Hin as [[= -> ->]|Hin]; [by rewrite bool_decide_true|].
  rewrite bool_decide_false; [auto|]. intros ->. apply Hx. change x with ((x, v).1). by apply list_elem_of_fmap_2.
Qed.

Lemma tbl_insert_wf k v t : toml_wf (TTable t) -> toml_wf v -> toml_wf (TTable (tbl_insert k v t)).
Proof.
  intros Ht Hv. assert (Ht' := Ht). apply toml_wf_table in Ht' as [Hn _]. apply toml_wf_table.
  pose proof (tbl_insert_keys k v t Hn) as Hn'. split; [done|]. apply Forall_forall. intros [x w] Hin%elem_assoc; [|done].
  simpl. rewrite assoc_tbl_insert in Hin. case_bool_decide; [naive_solver|]. by eapply assoc_wf.
Qed.

(** ** Dotted keys *)

Lemma lookup_cons t p parts : lookup_parts (TTable t) (p :: parts) = assoc p t ≫= fun w => lookup_parts w parts.
Proof. done. Qed.

Lemma set_parts_cons t p q parts v : set_parts t (p :: q :: parts) v =
  tbl_insert p (TTable (set_parts (match assoc p t with Some (TTable inner) => inner | _ => [] end) (q :: parts) v)) t.
Proof. done. Qed.

Lemma lookup_set t parts v : parts <> [] -> lookup_parts (TTable (set_parts t parts v)) parts = Some v.
Proof.
  revert t. induction parts as [|p [|q parts] IH]; intros t Hne; [done| |].
  - simpl. by rewrite assoc_tbl_insert, bool_decide_true.
  - rewrite set_parts_cons, lookup_cons, assoc_tbl_insert, bool_decide_true by done. simpl. by apply IH.
Qed.

(** Two dotted keys neither of which leads to the other. *)
Fixpoint diverge (a b : list string) : Prop :=
  match a, b with
  | x :: a, y :: b => x <> y \/ diverge a b
  | _, _ => False
  end.

Lemma lookup_empty_table parts : parts <> [] -> lookup_parts (TTable []) parts = None.
Proof. by destruct parts. Qed.

Lemma diverge_nonempty a b : diverge a b -> a <> [] /\ b <> [].
Proof. by destruct a, b. Qed.

Lemma lookup_set_other t parts other v : diverge parts other ->
  lookup_parts (TTable (set_parts t parts v)) other = lookup_parts (TTable t) other.
Proof.
  revert t other. induction parts as [|p parts IH]; intros t [|o other] Hd; [done|done|done|]. simpl in Hd.
  destruct parts as [|q parts].
  { simpl. rewrite assoc_tbl_insert. destruct Hd as [Hne|[]]. by rewrite bool_decide_false. }
  rewrite set_parts_cons, !lookup_cons, assoc_tbl_insert. destruct (bool_decide_reflect (o = p)) as [->|]; [|done].
  destruct Hd as [?|Hd]; [done|]. cbn [mbind option_bind]. rewrite IH by done. destruct (diverge_nonempty _ _ Hd) as [_ Ho].
  destruct (assoc p t) as [w|]; simpl; [|by apply lookup_empty_table]. destruct w; try done; by destruct other.
Qed.

Lemma set_parts_wf t parts v : toml_wf (TTable t) -> toml_wf v -> toml_wf (TTable (set_parts t parts v)).
Proof.
  revert t. induction parts as [|p [|q parts] IH]; intros t Ht Hv; [done|by apply tbl_insert_wf|].
  rewrite set_parts_cons. apply tbl_insert_wf; [done|]. apply IH; [|done].
  assert (He : toml_wf (TTable [])) by (apply toml_wf_table; split; constructor).
  destruct (assoc p t) as [w|] eqn:E; [|done]. apply (assoc_wf _ _ _ Ht) in E. by destruct w.
Qed.

Lemma clear_parts_cons t p q parts : clear_parts t (p :: q :: parts) =
  match assoc p t with
  | Some (TTable inner) =>
      let '(inner, cleared) := clear_parts inner (q :: parts) in
      if cleared then (tbl_insert p (TTable inner) t, true) else (t, false)
  | _ => (t, false)
  end.
Proof. done. Qed.

Lemma lookup_clear t parts : parts <> [] ->
  let '(t', cleared) := clear_parts t parts in
  lookup_parts (TTable t') parts = None /\ (cleared = true <-> is_Some (lookup_parts (TTable t) parts)) /\
  (cleared = false -> t' = t).
Proof.
  revert t. induction parts as [|p [|q parts] IH]; intros t Hne; [done| |].
  - simpl. destruct (assoc p t) as [w|] eqn:E; simpl.
    + rewrite assoc_tbl_remove, bool_decide_true by done. naive_solver.
    + rewrite E. split; [done|]. split; [|done]. split; [done|]. intros [? [=]].
  - rewrite clear_parts_cons, lookup_cons.
    assert (Hno : assoc p t ≫= (fun w => lookup_parts w (q :: parts)) = None -> let '(t', cleared) := (t, false) in
      lookup_parts (TTable t') (p :: q :: parts) = None /\
      (cleared = true <-> is_Some (assoc p t ≫= fun w => lookup_parts w (q :: parts))) /\ (cleared = false -> t' = t)).
    { intros Hn. rewrite lookup_cons, Hn. split; [done|]. split; [|done]. split; [done|]. intros [? [=]]. }
    destruct (assoc p t) as [[| | | | | |inner]|] eqn:E; try (by apply Hno).
    specialize (IH inner ltac:(done)). destruct (clear_parts inner (q :: parts)) as [inner' [|]].
    + destruct IH as (IH1 & IH2 & IH3). rewrite lookup_cons, assoc_tbl_insert, bool_decide_true by done. done.
    + destruct IH as (IH1 & IH2 & IH3). apply Hno. rewrite <-(IH3 eq_refl). exact IH1.
Qed.

Lemma lookup_clear_other t parts other : diverge parts other ->
  lookup_parts (TTable (clear_parts t parts).1) other = lookup_parts (TTable t) other.
Proof.
  revert t other. induction parts as [|p [|q parts] IH]; intros t [|o other] Hd; try done.
  - destruct Hd as [Hd|[]]. simpl. destruct (assoc p t); [|done]. simpl. by rewrite assoc_tbl_remove, bool_decide_false.
  - rewrite clear_parts_cons. destruct (assoc p t) as [[| | | | | |inner]|] eqn:E; try done.
    destruct (clear_parts inner (q :: parts)) as [inner' cleared] eqn:Ec. destruct cleared; [|done]. cbn [fst].
    rewrite !lookup_cons, assoc_tbl_insert. destruct (bool_decide_reflect (o = p)) as [->|]; [|done].
    destruct Hd as [?|Hd]; [done|]. rewrite E. specialize (IH inner other Hd). by rewrite Ec in IH.
Qed.

(** ** Merging *)

(** One entry of the overlay over what the base holds. *)
Definition over (base : option toml) (v : toml) : toml := match base with Some e => deep_merge_toml e v | None => v end.

Fixpoint merge_tables (b o : table) : table :=
  match o with
  | [] => b
  | (k, v) :: o => merge_tables (tbl_insert k (over (assoc k b) v) b) o
  end.

Lemma merge_leaf base v : is_table base && is_table v = false -> deep_merge_toml base v = v.
Proof. by destruct base, v. Qed.

Lemma deep_merge_tables b o : deep_merge_toml (TTable b) (TTable o) = TTable (merge_tables b o).
Proof.
  simpl. f_equal. revert b. induction o as [|[k v] o IH]; intros b; [done|]. simpl. rewrite IH. f_equal. unfold over.
  destruct (assoc k b) as [e|]; [|done]. destruct (is_table e && is_table v) eqn:E; [done|]. by rewrite merge_leaf.
Qed.

Lemma assoc_merge b o k : NoDup o.*1 ->
  assoc k (merge_tables b o) = match assoc k o with Some v => Some (over (assoc k b) v) | None => assoc k b end.
Proof.
  revert b. induction o as [|[x v] o IH]; intros b Hn; [done|]. apply NoDup_cons in Hn as [Hx Hn]. cbn [merge_tables assoc].
  rewrite IH by done. rewrite assoc_tbl_insert. destruct (bool_decide_reflect (k = x)) as [->|]; [|done].
  destruct (assoc x o) as [w|] eqn:E; [|done]. exfalso. apply Hx. apply assoc_elem in E.
  by apply (list_elem_of_fmap_2 fst) in E.
Qed.

(** The overlay says nothing at a key: it has the tables on the way, up to one that
    does not hold the next part. *)
Fixpoint untouched (o : toml) (parts : list string) : Prop :=
  match parts with
  | [] => False
  | p :: parts =>
      match o with
      | TTable t => match assoc p t with None => True | Some w => is_table w = true /\ untouched w parts end
      | _ => False
      end
  end.

Lemma untouched_None o parts : untouched o parts -> lookup_parts o parts = None.
Proof.
  revert o. induction parts as [|p parts IH]; intros o; [done|]. destruct o; try done. rewrite lookup_cons. simpl.
  destruct (assoc p t) as [w|]; [|done]. intros [_ Hu]. by apply IH.
Qed.

Lemma lookup_leaf v parts : is_table v = false -> parts <> [] -> lookup_parts v parts = None.
Proof. by destruct v, parts. Qed.

(** The merge at every dotted key: where the overlay holds a value that is not a table
    it wins, and where it says nothing the defaults show through. *)
Theorem merge_exact b o parts : toml_wf o ->
  (forall v, lookup_parts o parts = Some v -> is_table v = false -> lookup_parts (deep_merge_toml b o) parts = Some v) /\
  (is_table b = true -> untouched o parts -> lookup_parts (deep_merge_toml b o) parts = lookup_parts b parts).
Proof.
  revert b o. induction parts as [|p parts IH]; intros b o Hwf.
  { split; [|done]. simpl. intros v [= <-] Ht. rewrite merge_leaf; [done|]. by rewrite Ht, andb_false_r. }
  destruct (is_table o) eqn:Eo; [|split; [by destruct o|by destruct o]].
  destruct o as [| | | | | |o]; try done. assert (Hwf' := Hwf). apply toml_wf_table in Hwf' as [Hn _].
  assert (Hw : forall w, assoc p o = Some w -> toml_wf w) by (intros w; by apply assoc_wf).
  destruct (is_table b) eqn:Eb; [destruct b as [| | | | | |b]; try done|].
  - rewrite deep_merge_tables, !lookup_cons, assoc_merge by done. cbn [untouched]. unfold over. split.
    + intros v. destruct (assoc p o) as [w|]; [|done]. intros Hv Ht. destruct (assoc p b) as [e|]; [|done].
      by apply (IH e w (Hw w eq_refl)).
    + intros _. destruct (assoc p o) as [w|]; [|done]. intros [Hwt Hu]. destruct (assoc p b) as [e|]; cbn.
      * destruct (is_table e) eqn:Ee; [by apply (IH e w (Hw w eq_refl))|].
        rewrite merge_leaf by (by rewrite Ee). rewrite (lookup_leaf e) by (try done; by destruct parts). by apply untouched_None.
      * by apply untouched_None.
  - split; [|done]. intros v Hv Ht. by rewrite merge_leaf by (by rewrite Eb).
Qed.

(** ** Setting a feature *)

(** What the documentation of the toml crate promises: printed text parses back, and a
    document is a table with distinct keys. *)
Class TomlTextLaws `{TomlText} : Prop := {
  pretty_parses : forall v s, toml_to_string_pretty v = Ok s -> toml_from_str s = Ok v;
  parsed_wf : forall s v, toml_from_str s = Ok v -> toml_wf v /\ is_table v = true;
}.

Section set.
Context `{TomlText} `{!TomlTextLaws}.

Lemma empty_table_wf : toml_wf (TTable []).
Proof using Type. apply toml_wf_table. split; constructor. Qed.

Lemma load_overlay_or_empty_wf fs p : toml_wf (load_overlay_or_empty fs p) /\ is_table (load_overlay_or_empty fs p) = true.
Proof using All.
  unfold load_overlay_or_empty. destruct (fs_read_to_string fs p) as [body|]; [|split; [apply empty_table_wf|done]].
  destruct (toml_from_str body) as [v|] eqn:E; [by eapply parsed_wf|split; [apply empty_table_wf|done]].
Qed.

(** What a successful [feature set] wrote. *)
Lemma feature_set_inv fs known slug key value explicit p body : feature_set fs known slug key value explicit = Ok (p, body) ->
  exists parsed, p = overlay_write_path slug explicit /\ toml_wf parsed /\
    toml_from_str body = Ok (set_dotted (load_overlay_or_empty fs p) key parsed) /\
    exists t, toml_from_str ("v = " +:+ value) = Ok (TTable t) /\ assoc "v" t = Some parsed.
Proof using All.
  unfold feature_set. destruct known; [|done]. simpl. destruct (toml_from_str ("v = " +:+ value)) as [doc|] eqn:Ed; [|done]. simpl.
  destruct (parsed_wf _ _ Ed) as [Hwf _]. destruct doc as [| | | | | |t]; try done.
  destruct (assoc "v" t) as [parsed|] eqn:Ea; [|done].
  destruct (toml_to_string_pretty _) as [b|] eqn:Ep; [|done]. intros [= <- <-]. exists parsed. split; [done|].
  split; [by eapply assoc_wf|]. split; [by apply pretty_parses|]. eauto.
Qed.

Lemma split_nonempty c s : split c s <> [].
Proof using Type. destruct s as [|a s]; [done|]. simpl. destruct (split c s); by case_bool_decide. Qed.

(** [std::fs::write]: a file with the text, everything else as it was. *)
Definition write_file (fs : FileSystem) (p : path) (body : string) : FileSystem :=
  mkFileSystem (fun q => if bool_decide (q = p) then Some NFile else fs_tree fs q)
    (fun q => if bool_decide (q = p) then Ok body else fs_read fs q)
    (fun q => if bool_decide (q = p) then Ok body else fs_read_to_string fs q).

(** The value at a dotted key of a JSON document. *)
Fixpoint json_at (v : json) (parts : list string) : option json :=
  match parts with
  | [] => Some v
  | p :: parts => match v with JObject fields => assoc p fields ≫= fun w => json_at w parts | _ => None end
  end.

Lemma json_at_toml v parts : json_at (toml_to_json v) parts = toml_to_json <$> lookup_parts v parts.
Proof using Type.
  revert v. induction parts as [|p parts IH]; intros v; [done|].
  destruct v as [|n|bits| | | |t]; try done; [simpl; unfold json_int; by destruct (0 <=? n)%Z|simpl; by destruct (finite_bits bits)|].
  rewrite lookup_cons. cbn [toml_to_json json_at]. induction t as [|[k w] t IHt]; [done|]. cbn [fmap list_fmap assoc fst snd].
  case_bool_decide; [apply IH|apply IHt].
Qed.

(** Which file the features are read from after [p] was written. *)
Lemma resolve_written fs env slug explicit body :
  let p := overlay_write_path slug explicit in
  let fs' := write_file fs p body in
  (explicit = None -> forall q, env = Some q -> is_file fs q = true -> q = p) ->
  resolve_module_features_overlay fs' env slug explicit = Some p.
Proof using Type.
  cbv zeta. intros He. assert (Hp : is_file (write_file fs (overlay_write_path slug explicit) body) (overlay_write_path slug explicit) = true).
  { unfold is_file. simpl. by rewrite bool_decide_true. }
  unfold resolve_module_features_overlay, overlay_write_path in *. destruct explicit as [p|]; cbn [default from_option id] in *; [by rewrite Hp|]. rewrite Hp.
  destruct env as [q|]; [|done]. destruct (is_file (write_file fs (etc_overlay slug) body) q) eqn:E; [|done].
  destruct (decide (q = etc_overlay slug)) as [->|Hne]; [done|]. f_equal. apply He; [done|done|].
  revert E. unfold is_file. simpl. by rewrite bool_decide_false.
Qed.

(** C31: A feature that was set is reported: after feature set has written its file, the
    features command with the same explicit path, looking where it looks (the explicit
    path, else the file that the module's environment variable names, else the one in
    /etc), prints the value at the key, whatever the module's defaults are. This holds for
    every value that is not a table, under three conditions: without an explicit path the
    environment variable names no other file, the overlay had no [features] table, and the
    key does not begin with features. *)
Theorem feature_set_takes_effect fs env known slug key value explicit p body defaults t parsed :
  feature_set fs known slug key value explicit = Ok (p, body) ->
  toml_from_str ("v = " +:+ value) = Ok (TTable t) -> assoc "v" t = Some parsed -> is_table parsed = false ->
  (explicit = None -> forall q, env = Some q -> is_file fs q = true -> q = p) ->
  (forall old inner, load_overlay_or_empty fs p = TTable old -> assoc "features" old <> Some (TTable inner)) ->
  head (split "." key) <> Some "features" ->
  let report := cmd_features_json_filtered (write_file fs p body) env slug explicit defaults FeatureFilter.All in
  json_at report.1.2 (split "." key) = Some (toml_to_json parsed) /\ report.2 = None.
Proof using All.
  intros Hs Hv Ha Ht He Hf Hk. destruct (feature_set_inv _ _ _ _ _ _ _ _ Hs) as (parsed' & -> & Hwfp & Hb & t' & Hv' & Ha').
  rewrite Hv in Hv'. injection Hv' as <-. rewrite Ha in Ha'. injection Ha' as <-.
  unfold cmd_features_json_filtered, features_json_filtered. rewrite resolve_written by done.
  unfold load_overlay. cbn [write_file fs_read_to_string]. rewrite bool_decide_true, Hb by done. cbn [apply_filter fst snd].
  split; [|done]. rewrite json_at_toml. cbn [merge_overlay].
  destruct (load_overlay_or_empty_wf fs (overlay_write_path slug explicit)) as [Hwf Htbl].
  destruct (load_overlay_or_empty fs (overlay_write_path slug explicit)) as [| | | | | |old] eqn:Eold; try done.
  unfold set_dotted. assert (Ho : overlay_table (TTable (set_parts old (split "." key) parsed)) = set_parts old (split "." key) parsed).
  { simpl. assert (E : assoc "features" (set_parts old (split "." key) parsed) = assoc "features" old).
    { destruct (split "." key) as [|q parts]; [done|]. simpl in Hk.
      destruct parts; [simpl|rewrite set_parts_cons]; rewrite assoc_tbl_insert, bool_decide_false; naive_solver. }
    rewrite E. destruct (assoc "features" old) as [[| | | | | |inner]|] eqn:E'; try done. by destruct (Hf old inner). }
  rewrite Ho. assert (Hl : lookup_parts (deep_merge_toml (TTable defaults) (TTable (set_parts old (split "." key) parsed))) (split "." key) = Some parsed); [|by rewrite Hl].
  apply merge_exact; [|by apply lookup_set, split_nonempty|done]. by apply set_parts_wf.
Qed.

(** When the module's environment variable names another file, the command writes the file
    in /etc all the same, and what the features show does not change. *)
Theorem feature_set_shadowed fs env known slug key value p body defaults q :
  feature_set fs known slug key value None = Ok (p, body) -> env = Some q -> is_file fs q = true -> q <> p ->
  cmd_features_json_filtered (write_file fs p body) env slug None defaults FeatureFilter.All =
  cmd_features_json_filtered fs env slug None defaults FeatureFilter.All.
Proof using Type.
  intros _ -> Hq Hne. unfold cmd_features_json_filtered, resolve_module_features_overlay.
  assert (Hq' : is_file (write_file fs p body) q = true).
  { unfold is_file in *. simpl. by rewrite bool_decide_false. }
  rewrite Hq', Hq. unfold features_json_filtered, load_overlay. simpl. by rewrite bool_decide_false.
Qed.

(** When the operator's file has a [features] table, the command writes beside it: what
    the features show does not change at all, although the command reports the key as
    set. The comment in the code says that the value goes under the table then. *)
Theorem feature_set_beside fs fs' known slug key value explicit p body defaults t inner :
  feature_set fs known slug key value explicit = Ok (p, body) ->
  load_overlay_or_empty fs p = TTable t -> assoc "features" t = Some (TTable inner) ->
  head (split "." key) <> Some "features" -> fs_read_to_string fs' p = Ok body ->
  merge_overlay defaults (load_overlay fs' (Some p)).1 = merge_overlay defaults (load_overlay fs (Some p)).1.
Proof using All.
  intros Hs Hl Hf Hk Hr. destruct (feature_set_inv _ _ _ _ _ _ _ _ Hs) as (parsed & -> & _ & Hb & _).
  assert (Hold : (load_overlay fs (Some (overlay_write_path slug explicit))).1 = Some inner).
  { unfold load_overlay_or_empty in Hl. unfold load_overlay. destruct (fs_read_to_string fs _) as [b|]; [|by injection Hl as <-].
    destruct (toml_from_str b) as [v|]; [|by injection Hl as <-]. subst v. simpl. by rewrite Hf. }
  rewrite Hold. unfold load_overlay. rewrite Hr, Hb, Hl. cbn [fst]. f_equal. f_equal. unfold set_dotted, overlay_table.
  assert (E : assoc "features" (set_parts t (split "." key) parsed) = Some (TTable inner)); [|by rewrite E].
  destruct (split "." key) as [|q parts]; [done|]. simpl in Hk.
  destruct parts; [simpl|rewrite set_parts_cons]; rewrite assoc_tbl_insert, bool_decide_false; naive_solver.
Qed.

(** A file that does not parse is replaced: the command writes the new key alone and
    drops everything the operator had. *)
Theorem feature_set_replaces_broken fs known slug key value explicit p body old e :
  feature_set fs known slug key value explicit = Ok (p, body) ->
  fs_read_to_string fs p = Ok old -> toml_from_str old = Err e ->
  exists parsed, toml_from_str body = Ok (TTable (set_parts [] (split "." key) parsed)).
Proof using All.
  intros Hs Hr He. destruct (feature_set_inv _ _ _ _ _ _ _ _ Hs) as (parsed & -> & _ & Hb & _). exists parsed.
  unfold load_overlay_or_empty in Hb. by rewrite Hr, He in Hb.
Qed.

(** Clearing removes the key and nothing beside it, and writes only when it did. *)
Theorem feature_clear_exact fs slug key explicit out :
  feature_clear fs true slug key explicit = Ok out ->
  let p := overlay_write_path slug explicit in
  match out with
  | None => is_file fs p = false \/ lookup_dotted (load_overlay_or_empty fs p) key = None
  | Some (p', body) => p' = p /\ exists root, toml_from_str body = Ok root /\ lookup_dotted root key = None /\
      is_Some (lookup_dotted (load_overlay_or_empty fs p) key) /\
      forall other, diverge (split "." key) (split "." other) ->
        lookup_dotted root other = lookup_dotted (load_overlay_or_empty fs p) other
  end.
Proof using All.
  unfold feature_clear. simpl. destruct (is_file fs (overlay_write_path slug explicit)) eqn:Ef; simpl; [|intros [= <-]; by left].
  destruct (load_overlay_or_empty_wf fs (overlay_write_path slug explicit)) as [_ Ht].
  destruct (load_overlay_or_empty fs (overlay_write_path slug explicit)) as [| | | | | |t]; try done.
  unfold clear_dotted, lookup_dotted. pose proof (lookup_clear t (split "." key) (split_nonempty _ _)) as Hc.
  pose proof (lookup_clear_other t (split "." key)) as Ho.
  destruct (clear_parts t (split "." key)) as [t' [|]]; destruct Hc as (Hn & Hi & Hsame).
  - destruct (toml_to_string_pretty _) as [body|] eqn:Ep; [|done]. intros [= <-]. split; [done|].
    exists (TTable t'). split; [by apply pretty_parses|]. split; [done|]. split; [by apply Hi|]. intros other. apply Ho.
  - intros [= <-]. right. by rewrite (Hsame eq_refl) in Hn.
Qed.
End set.

Module FeaturesExamples.
(** Two documents, enough to set one feature and to read it back. *)
#[local] Instance two_documents : TomlText := {|
  toml_from_str := fun s =>
    if bool_decide (s = "v = true") then Ok (TTable [("v", TBoolean true)])
    else if bool_decide (s = "ssh.guard = true") then Ok (TTable [("ssh", TTable [("guard", TBoolean true)])])
    else Err "expected a key";
  toml_to_string_pretty := fun v =>
    match v with
    | TTable [("ssh", TTable [("guard", TBoolean true)])] => Ok "ssh.guard = true"
    | _ => Err "unsupported"
    end |}.

#[local] Instance two_documents_laws : TomlTextLaws.
Proof.
  split.
  - intros v s. simpl. repeat case_match; intros [= <-]; subst; try done.
  - intros s v. simpl. repeat case_bool_decide; intros [= <-]; (split; [|done]);
      repeat first [apply wf_table; [vm_compute; by repeat constructor; set_solver|]
                   |constructor]; done.
Qed.

Definition host_with (content : option string) : FileSystem :=
  mkFileSystem (fun p => if bool_decide (p = etc_overlay "ssh-guard") then (fun _ => NFile) <$> content else None) (fun _ => Err "ENOENT")
    (fun p => match content with Some c => if bool_decide (p = etc_overlay "ssh-guard") then Ok c else Err "ENOENT" | None => Err "ENOENT" end).

Lemma feature_set_takes_effect_witness :
  let fs' := write_file (host_with None) (etc_overlay "ssh-guard") "ssh.guard = true" in
  json_at (cmd_features_json_filtered fs' (Some ["absent"]) "ssh-guard" None [("ssh", TTable [("guard", TBoolean false)])]
    FeatureFilter.All).1.2 ["ssh"; "guard"] = Some (JBool true).
Proof.
  refine (proj1 (feature_set_takes_effect (host_with None) (Some ["absent"]) true "ssh-guard" "ssh.guard" "true" None
    (etc_overlay "ssh-guard") "ssh.guard = true" [("ssh", TTable [("guard", TBoolean false)])] [("v", TBoolean true)] (TBoolean true) _ _ _ _ _ _ _));
    try (vm_compute; reflexivity).
  - intros _ q [= <-]. vm_compute. done.
  - intros old inner Ho. vm_compute in Ho. injection Ho as <-. vm_compute. done.
  - vm_compute. done.
Defined.

Example merged_features :
  toml_to_json (filter_features_by_bool (deep_merge_toml
    (TTable [("a", TBoolean true); ("net", TTable [("x", TBoolean false); ("y", TInteger 3)])])
    (TTable [("a", TBoolean false); ("net", TTable [("z", TBoolean true)])])) true)
  = JObject [("net", JObject [("z", JBool true)])].
Proof. vm_compute. reflexivity. Qed.
End FeaturesExamples.
