(* ===== verification/Modules.v ===== *)
(** * Modules: the catalog, resolution and the lifecycle

    Models the lifecycle of crates/selfdef-cli/src/modules.rs: manifests and the catalog,
    the host configuration with its keys, the resolution of the active modules into an
    order, the signing, hardware and daemon gates, the runner of the scripts, and apply,
    check and uninstall. The gates of the hardware and of the tracing policies are in
    Hardware and PolicyOverlap, the TOML helpers in Features.

    The host answers through arguments: the file system, the probe, what each script
    prints. A run returns its exit code with what it did. Errors keep their cause as a
    constructor where the code builds a text. *)

From stdpp Require Import sorting.
From S2P Require Import Prelude Core Signing Federation Config Hardware PolicyOverlap Features.
From stdpp Require Import options.

(** ** Manifests *)

Module Phase.
Inductive t := Pre | Main | Post.
#[global] Instance eq_dec : EqDecision t.
Proof. solve_decision. Defined.
Definition as_str (p : t) : string := match p with Pre => "pre" | Main => "main" | Post => "post" end.
(** The derived order. *)
Definition rank (p : t) : nat := match p with Pre => 0 | Main => 1 | Post => 2 end.
Definition all : list t := [Pre; Main; Post].
End Phase.

Inductive DaemonRequirement :=
| DBool (b : bool)
| DInt (n : Z)
| DString (s : string)
| DArray (l : list string).

Record ModuleSigningSpec := mkSigningSpec { sp_required : bool; sp_trust_root : option path }.
Record ModuleResourceSpec := mkResourceSpec {
  rs_cpu_max : option string;
  rs_memory_max : option string;
  rs_io_weight : option Z;
  rs_time_max_seconds : option Z;
}.
Record InstallSpec := mkInstallSpec {
  is_kind : string;
  is_package : option string;
  is_apply : option string;
  is_check : option string;
  is_uninstall : option string;
}.
(** [details]: the override of [instanced] of a profile, when it has one. *)
Record ProfileSpec := mkProfileSpec {
  pr_default : option string;
  pr_available : list string;
  pr_details : list (string * option bool);
}.

Record ModuleManifest := mkModuleManifest {
  mf_name : string;
  mf_version : string;
  mf_summary : string;
  mf_category : string;
  mf_depends_on : list string;
  mf_conflicts : list string;
  mf_provides : list string;
  mf_consumes : list string;
  mf_requires : list (string * string);
  mf_requires_hardware : HardwareRequirements;
  mf_signing : option ModuleSigningSpec;
  mf_resources : option ModuleResourceSpec;
  mf_install : option InstallSpec;
  mf_profiles : option ProfileSpec;
  mf_instanced : bool;
  mf_phase : Phase.t;
  mf_daemon_requires : list (string * DaemonRequirement);
  mf_features : table;
}.

Definition profile_instanced (p : ProfileSpec) (profile : string) (module_default : bool) : bool :=
  default module_default (mjoin (assoc profile (pr_details p))).

(** The host configuration: for each key, in order, the configuration path it names. *)
Definition HostConfig := list (string * option path).

(** [toml::from_str] on a manifest and on a host configuration. *)
Class ModuleToml := {
  manifest_from_toml : string -> result ModuleManifest string;
  host_from_toml : string -> result HostConfig string;
}.

(** ** Errors *)

Inductive KeyError := BadSlug (s : string) | BadInstance (s : string) | TwoHashes | BadKey.

Inductive ModulesError :=
| CatalogMissing (dir : path)
| CatalogUnreadable (dir : path) (e : string)
| ManifestUnreadable (p : path) (e : string)
| ManifestMalformed (p : path) (e : string)
| NameMismatch (name slug : string)
| HostUnreadable (p : path) (e : string)
| HostMalformed (p : path) (e : string)
| BadHostKey (key : string) (e : KeyError)
| NotInCatalog (slug : string)
| MixedKeys (slug : string)
| NotInstanced (slug : string)
| ProfileNotInstanced (slug profile inst : string)
| DuplicateEntries (slug : string)
| DuplicateInstance (slug inst : string)
| Conflicts (slug c : string)
| DepNotInCatalog (slug d : string)
| DepNotActive (slug d : string)
| DepLaterPhase (slug d : string)
| DependencyCycle (phase : Phase.t) (leftover : list string)
| DaemonConfigUnreadable (p : path) (e : string)
| DaemonConfigMalformed (p : path) (e : string)
| SubstitutionFailed (slug key e : string)
| NoInstallSection (slug : string)
| NoScript (slug action : string)
| ScriptMissing (slug : string) (p : path)
| SpawnFailed (p : path) (e : string)
| WrongModule (slug claimed : string).

(** The first error of a loop. *)
Fixpoint each {A E} (f : A -> result unit E) (l : list A) : result unit E :=
  match l with
  | [] => Ok tt
  | x :: l => let? _ := f x in each f l
  end.

(** ** The catalog and the host configuration *)

Definition SYSTEM_MODULES_DIR : path := ["usr"; "share"; "selfdef"; "modules"].
Definition DEFAULT_HOST_CONFIG : path := ["etc"; "selfdef"; "modules.toml"].
Definition DAEMON_CONFIG : path := ["etc"; "selfdef"; "selfdef.toml"].

Section load.
Context `{ModuleToml} (fs : FileSystem).

(** [workspace] is the directory of a development checkout. *)
Definition resolve_dir (workspace : path) (explicit : option path) : path :=
  match explicit with
  | Some p => p
  | None => if fs_exists fs SYSTEM_MODULES_DIR then SYSTEM_MODULES_DIR else workspace
  end.

Fixpoint load_manifests (dir : path) (names : list string) (out : list (string * ModuleManifest)) :
    result (list (string * ModuleManifest)) ModulesError :=
  match names with
  | [] => Ok out
  | name :: names =>
      let slug := from_utf8_lossy name in
      let manifest_path := dir ++ [name; "module.toml"] in
      if negb (fs_exists fs manifest_path) then load_manifests dir names out
      else match fs_read_to_string fs manifest_path with
           | Err e => Err (ManifestUnreadable manifest_path e)
           | Ok content =>
               match manifest_from_toml content with
               | Err e => Err (ManifestMalformed manifest_path e)
               | Ok manifest =>
                   if negb (bool_decide (mf_name manifest = slug)) then Err (NameMismatch (mf_name manifest) slug)
                   else load_manifests dir names (out ++ [(slug, manifest)])
               end
           end
  end.

Definition subdirectories (entries : list (string * node)) : list string :=
  merge_sort String.le (omap (fun '(name, n) => match n with NDir _ _ => Some name | NFile => None end) entries).

Definition load_all (dir : path) : result (list (string * ModuleManifest)) ModulesError :=
  match fs_tree fs dir with
  | None => Err (CatalogMissing dir)
  | Some NFile => Err (CatalogUnreadable dir "Not a directory (os error 20)")
  | Some (NDir entries _) => load_manifests dir (subdirectories entries) []
  end.

(** [env] is the path in SELFDEF_HOST_MODULES_CONFIG. *)
Definition resolve_host_config_path (env explicit : option path) : path :=
  match explicit with Some p => p | None => default DEFAULT_HOST_CONFIG env end.

Definition part_char (c : rchar) : bool := is_ascii_alphanumeric (char_code c) || bool_decide (c = "-").
Definition valid_part (s : string) : bool :=
  negb (bool_decide (s = "")) && forallb part_char (chars s)
  && match chars s with c :: _ => is_ascii_alphanumeric (char_code c) | [] => false end.

(** [key.matches('#').count()]. *)
Definition hashes (key : string) : nat := length (split "#" key) - 1.

Definition parse_host_key (key : string) : result (string * option string) KeyError :=
  match split_once "#" key with
  | Some (slug, instance) =>
      if negb (valid_part slug) then Err (BadSlug slug)
      else if negb (valid_part instance) then Err (BadInstance instance)
      else if 1 <? hashes key then Err TwoHashes
      else Ok (slug, Some instance)
  | None => if negb (valid_part key) then Err BadKey else Ok (key, None)
  end.

Definition check_key (key : string) : result unit ModulesError :=
  match parse_host_key key with Ok _ => Ok tt | Err e => Err (BadHostKey key e) end.

Definition load_host_config (p : path) : result HostConfig ModulesError :=
  if negb (fs_exists fs p) then Ok []
  else match fs_read_to_string fs p with
       | Err e => Err (HostUnreadable p e)
       | Ok body =>
           match host_from_toml body with
           | Err e => Err (HostMalformed p e)
           | Ok cfg => let? _ := each check_key cfg.*1 in Ok cfg
           end
       end.
End load.

(** ** Resolution *)

Record ActiveModule := mkActive {
  am_slug : string;
  am_instance : option string;
  am_module_root : path;
  am_config_path : path;
  am_manifest : ModuleManifest;
}.

Definition display_name (a : ActiveModule) : string :=
  match am_instance a with Some i => am_slug a +:+ "#" +:+ i | None => am_slug a end.

(** An entry of the host configuration after its key was parsed. *)
Record HostEntry := mkHostEntry { he_slug : string; he_instance : option string; he_config : option path }.

Fixpoint parse_entries (host : HostConfig) : result (list HostEntry) ModulesError :=
  match host with
  | [] => Ok []
  | (key, config) :: host =>
      match parse_host_key key with
      | Err e => Err (BadHostKey key e)
      | Ok (slug, instance) => let? rest := parse_entries host in Ok (mkHostEntry slug instance config :: rest)
      end
  end.

(** [None] sorts before every name. *)
Definition instance_le (a b : HostEntry) : Prop :=
  match he_instance a, he_instance b with
  | None, _ => True
  | Some _, None => False
  | Some x, Some y => String.le x y
  end.
#[export] Instance instance_le_dec a b : Decision (instance_le a b).
Proof. unfold instance_le. destruct (he_instance a), (he_instance b); apply _. Defined.

(** The groups: the slugs in order, and the entries of one by their instance. *)
Definition group_keys (entries : list HostEntry) : list string := merge_sort String.le (remove_dups (he_slug <$> entries)).
Definition group (entries : list HostEntry) (slug : string) : list HostEntry :=
  merge_sort instance_le (filter (fun e => he_slug e = slug) entries).

Definition default_config_path (slug : string) (instance : option string) : path :=
  PER_MODULE_DIR ++ [match instance with Some i => slug +:+ "." +:+ i +:+ ".toml" | None => slug +:+ ".toml" end].

Definition config_path_of (e : HostEntry) : path := default (default_config_path (he_slug e) (he_instance e)) (he_config e).

(** A map from the catalog: a later entry replaces an earlier one. *)
Definition by_slug (catalog : list (string * ModuleManifest)) : gmap string ModuleManifest :=
  foldl (fun m e => <[e.1 := e.2]> m) ∅ catalog.

Section resolve.
Context `{TomlText} (fs : FileSystem).

Definition read_profile_from_config (p : path) : option string :=
  match fs_read_to_string fs p with
  | Err _ => None
  | Ok body =>
      match toml_from_str body with
      | Ok (TTable t) => assoc "profile" t ≫= toml_as_str
      | _ => None
      end
  end.

(** The check of one instance against the profile it would run under. *)
Definition check_profile (slug : string) (m : ModuleManifest) (profiles : ProfileSpec) (e : HostEntry) :
    result unit ModulesError :=
  match he_instance e with
  | None => Ok tt
  | Some inst_name =>
      let profile_name := default (default "" (pr_default profiles)) (read_profile_from_config (config_path_of e)) in
      if bool_decide (profile_name = "") then Ok tt
      else if profile_instanced profiles profile_name (mf_instanced m) then Ok tt
      else Err (ProfileNotInstanced slug profile_name inst_name)
  end.

(** Instance names that were seen before are refused. *)
Fixpoint distinct_instances (slug : string) (l : list HostEntry) (seen : list string) : result unit ModulesError :=
  match l with
  | [] => Ok tt
  | e :: l =>
      let name := default "" (he_instance e) in
      if bool_decide (name ∈ seen) then Err (DuplicateInstance slug name) else distinct_instances slug l (name :: seen)
  end.

Definition check_instances (entries : list HostEntry) (cat : gmap string ModuleManifest) (slug : string) : result unit ModulesError :=
  match cat !! slug with
  | None => Err (NotInCatalog slug)
  | Some m =>
      let l := group entries slug in
      let any_instanced := existsb (fun e => match he_instance e with Some _ => true | None => false end) l in
      let any_flat := existsb (fun e => match he_instance e with Some _ => false | None => true end) l in
      if any_instanced && any_flat then Err (MixedKeys slug)
      else if any_instanced && negb (mf_instanced m) then Err (NotInstanced slug)
      else
        let? _ := match mf_profiles m with
                  | Some profiles => if any_instanced then each (check_profile slug m profiles) l else Ok tt
                  | None => Ok tt
                  end in
        if any_flat && (1 <? length l) then Err (DuplicateEntries slug)
        else if any_instanced then distinct_instances slug l [] else Ok tt
  end.

Definition check_in_catalog (cat : gmap string ModuleManifest) (slug : string) : result unit ModulesError :=
  if bool_decide (is_Some (cat !! slug)) then Ok tt else Err (NotInCatalog slug).

Definition check_conflicts (cat : gmap string ModuleManifest) (active : list string) (slug : string) : result unit ModulesError :=
  match cat !! slug with
  | None => Err (NotInCatalog slug)
  | Some m => each (fun c => if bool_decide (c ∈ active) then Err (Conflicts slug c) else Ok tt) (mf_conflicts m)
  end.

Definition check_dep (cat : gmap string ModuleManifest) (active : list string) (slug : string) (m : ModuleManifest) (d : string) :
    result unit ModulesError :=
  match cat !! d with
  | None => Err (DepNotInCatalog slug d)
  | Some dep_m =>
      if negb (bool_decide (d ∈ active)) then Err (DepNotActive slug d)
      else if Phase.rank (mf_phase m) <? Phase.rank (mf_phase dep_m) then Err (DepLaterPhase slug d)
      else Ok tt
  end.
Definition check_deps (cat : gmap string ModuleManifest) (active : list string) (slug : string) : result unit ModulesError :=
  match cat !! slug with
  | None => Err (NotInCatalog slug)
  | Some m => each (check_dep cat active slug m) (mf_depends_on m)
  end.
End resolve.

(** *** The order within a phase *)

Section kahn.
Context (deps : string -> list string) (slugs : list string).

(** The distinct dependencies inside the phase. *)
Definition in_degree (s : string) : nat := length (remove_dups (filter (fun d => d ∈ slugs) (deps s))).

(** One round: [next] is taken, and each module that lists it loses one dependency; those
    that have none left become ready. *)
Definition dependents (next : string) : list string := filter (fun s => next ∈ deps s) slugs.
Definition decrease (next : string) (indeg : gmap string nat) : gmap string nat :=
  foldl (fun m s => alter Nat.pred s m) indeg (dependents next).
Definition newly_ready (next : string) (indeg : gmap string nat) : list string :=
  filter (fun s => decrease next indeg !! s = Some 0) (dependents next).

(** [ready] is kept in ascending order and taken from its head. *)
Fixpoint kahn (fuel : nat) (indeg : gmap string nat) (ready order : list string) : list string :=
  match fuel, ready with
  | O, _ | _, [] => order
  | S fuel, next :: ready =>
      kahn fuel (decrease next indeg) (merge_sort String.le (ready ++ newly_ready next indeg)) (order ++ [next])
  end.

Definition initial_degrees : gmap string nat := list_to_map ((fun s => (s, in_degree s)) <$> slugs).
Definition initial_ready : list string := merge_sort String.le (filter (fun s => in_degree s = 0) slugs).

(** At most one round per module. *)
Definition topo_sort : list string := kahn (length slugs) initial_degrees initial_ready [].
End kahn.

Section order.
Context (cat : gmap string ModuleManifest).

Definition deps_of (slug : string) : list string := from_option mf_depends_on [] (cat !! slug).
Definition phase_slugs (active : list string) (phase : Phase.t) : list string :=
  filter (fun s => mf_phase <$> cat !! s = Some phase) active.

Definition phase_order (active : list string) (phase : Phase.t) : result (list string) ModulesError :=
  let slugs := phase_slugs active phase in
  let order := topo_sort deps_of slugs in
  if length order =? length slugs then Ok order
  else Err (DependencyCycle phase (filter (fun s => s ∉ order) slugs)).

Definition slug_order (active : list string) : result (list string) ModulesError :=
  let? pre := phase_order active Phase.Pre in
  let? main := phase_order active Phase.Main in
  let? post := phase_order active Phase.Post in
  Ok (pre ++ main ++ post).
End order.

Definition materialise (cat : gmap string ModuleManifest) (catalog_dir : path) (entries : list HostEntry) (slug : string) :
    list ActiveModule :=
  match cat !! slug with
  | None => []
  | Some m => (fun e => mkActive slug (he_instance e) (catalog_dir ++ [slug]) (config_path_of e) m) <$> group entries slug
  end.

Definition resolve_active `{TomlText} (fs : FileSystem) (host : HostConfig) (catalog_dir : path)
    (catalog : list (string * ModuleManifest)) : result (list ActiveModule) ModulesError :=
  let cat := by_slug catalog in
  let? entries := parse_entries host in
  let active := group_keys entries in
  let? _ := each (check_in_catalog cat) active in
  let? _ := each (check_instances fs entries cat) active in
  let? _ := each (check_conflicts cat active) active in
  let? _ := each (check_deps cat active) active in
  let? order := slug_order cat active in
  Ok (order ≫= materialise cat catalog_dir entries).

(** ** Selection *)

Record LifecycleOpts := mkOpts {
  lo_host_config : option path;
  lo_dir : option path;
  lo_only : list string;
  lo_except : list string;
  lo_dry_run : bool;
  lo_ignore_daemon_requires : bool;
  lo_ignore_hardware : bool;
  lo_strict_hardware : bool;
  lo_reprobe_hardware : bool;
  lo_daemon_config_path : option path;
}.

Definition matches (a : ActiveModule) (set : list string) : bool :=
  bool_decide (am_slug a ∈ set) || bool_decide (display_name a ∈ set).

Definition selected (only except : list string) (a : ActiveModule) : bool :=
  (bool_decide (only = []) || matches a only) && negb (matches a except).

Definition filter_active (active : list ActiveModule) (only except : list string) : list ActiveModule :=
  filter (fun a => selected only except a = true) active.

(** ** The signing gate *)

Inductive SigningFailure :=
| TrustRootMissing (p : path)
| TrustRootUnreadable (p : path) (e : SigningError)
| NoPubkeys (p : path)
| SignatureRejected (p : path) (tried : nat) (last : option (path * SigningError)).

Section signing.
Context `{Minisign} (fs : FileSystem).

Definition policy_pub : path := ["etc"; "selfdef"; "keys"; "policy.pub"].

Definition load_trust_roots (p : path) : result (list Verifier) SigningFailure :=
  match fs_tree fs p with
  | Some (NDir entries _) =>
      Ok (omap (fun name => match verifier_load fs (p ++ [name]) with Ok v => Some v | Err _ => None end)
            (merge_sort String.le (filter (fun name => extension name = Some "pub") entries.*1)))
  | Some NFile =>
      match verifier_load fs p with
      | Ok v => Ok [v]
      | Err e => Err (TrustRootUnreadable p e)
      end
  | None => Err (TrustRootMissing p)
  end.

(** The keys in order; [last] is the error of the one before. *)
Fixpoint try_keys (manifest_path : path) (vs : list Verifier) (tried : nat) (last : option (path * SigningError)) :
    result unit SigningFailure :=
  match vs with
  | [] => Err (SignatureRejected manifest_path tried last)
  | v :: vs =>
      match verify_detached_file fs v manifest_path with
      | Ok _ => Ok tt
      | Err e => try_keys manifest_path vs tried (Some (vf_source v, e))
      end
  end.

Definition verify_module_signing (am : ActiveModule) : result unit SigningFailure :=
  match mf_signing (am_manifest am) with
  | None => Ok tt
  | Some signing =>
      if negb (sp_required signing) then Ok tt
      else
        let trust_root := default policy_pub (sp_trust_root signing) in
        let manifest_path := am_module_root am ++ ["module.toml"] in
        let? verifiers := load_trust_roots trust_root in
        match verifiers with
        | [] => Err (NoPubkeys trust_root)
        | _ => try_keys manifest_path verifiers (length verifiers) None
        end
  end.

End signing.

(** The gate reads module.toml a second time: the manifest of [am] was parsed from what
    the loader read, the signature is checked over what the gate reads. *)
Definition verify_module_live `{Minisign} (fs : LiveFs) (am : ActiveModule) : result unit SigningFailure :=
  verify_module_signing (lf_check fs (am_module_root am ++ ["module.toml"])) am.

Fixpoint apply_signing_gate `{Minisign} (fs : LiveFs) (active : list ActiveModule) :
    list ActiveModule * list (string * SigningFailure) :=
  match active with
  | [] => ([], [])
  | am :: active =>
      let '(kept, failed) := apply_signing_gate fs active in
      match verify_module_live fs am with
      | Ok _ => (am :: kept, failed)
      | Err e => (kept, (display_name am, e) :: failed)
      end
  end.

(** ** The hardware gate *)

Definition gated (a : ActiveModule) : bool := negb (requirements_is_empty (mf_requires_hardware (am_manifest a))).

(** [caps] is [None] when the probe failed. *)
Definition hardware_keeps `{UnicodeTables} (caps : option HardwareCapabilities) (a : ActiveModule) : bool :=
  negb (gated a) ||
  match caps with
  | Some c => is_ok (evaluate_resolved c (mf_requires_hardware (am_manifest a)))
  | None => false
  end.
Definition apply_hardware_gate `{UnicodeTables} (caps : option HardwareCapabilities) (active : list ActiveModule) : list ActiveModule :=
  filter (fun a => hardware_keeps caps a = true) active.

(** ** The daemon gate *)

Section daemon_requires.
Context `{TomlText} (fs : FileSystem).

Definition load_daemon_config (p : path) : result toml ModulesError :=
  if negb (fs_exists fs p) then Ok (TTable [])
  else match fs_read_to_string fs p with
       | Err e => Err (DaemonConfigUnreadable p e)
       | Ok body => match toml_from_str body with Ok v => Ok v | Err e => Err (DaemonConfigMalformed p e) end
       end.

(** Whether the value in the daemon's configuration satisfies the requirement. *)
Definition check_requirement (actual : option toml) (expected : DaemonRequirement) : bool :=
  match actual, expected with
  | Some (TBoolean a), DBool e => Bool.eqb a e
  | Some (TInteger a), DInt e => (a =? e)%Z
  | Some (TString a), DString e => bool_decide (a = e)
  | Some (TArray arr), DArray items => forallb (fun item => bool_decide (item ∈ omap toml_as_str arr)) items
  | _, _ => false
  end.

(** The text before the first [pat], and the text after it. *)
Fixpoint find_split (pat s : string) : option (string * string) :=
  match strip_prefix pat s with
  | Some rest => Some ("", rest)
  | None =>
      match s with
      | String a s => '(before, after) ← find_split pat s; Some (String a before, after)
      | EmptyString => None
      end
  end.

(** [${key}] is replaced by the text of that key; each round drops at least two bytes, so
    that the length of the text bounds the rounds. *)
Fixpoint expand_one (fuel : nat) (host_config : toml) (rest out : string) : result string string :=
  match fuel with
  | O => Ok (out +:+ rest)
  | S fuel =>
      match find_split "${" rest with
      | None => Ok (out +:+ rest)
      | Some (before, rest_after) =>
          match split_once "}" rest_after with
          | None => Err "unterminated `${`"
          | Some (key, rest) =>
              match (match host_config with TTable t => assoc key t | _ => None end) ≫= toml_as_str with
              | None => Err ("substitution `${" +:+ key +:+ "}` did not resolve to a string in the per-module config")
              | Some value => expand_one fuel host_config rest (out +:+ before +:+ value)
              end
          end
      end
  end.
Definition expand_text (host_config : toml) (s : string) : result string string := expand_one (String.length s) host_config s "".

Fixpoint expand_items (host_config : toml) (items : list string) : result (list string) string :=
  match items with
  | [] => Ok []
  | item :: items => let? x := expand_text host_config item in let? xs := expand_items host_config items in Ok (x :: xs)
  end.

Definition expand_substitution (expected : DaemonRequirement) (host_config : toml) : result DaemonRequirement string :=
  match expected with
  | DBool _ | DInt _ => Ok expected
  | DString s => let? s := expand_text host_config s in Ok (DString s)
  | DArray items => let? items := expand_items host_config items in Ok (DArray items)
  end.

(** The unmet requirements of one module: the key and the value expected. *)
Fixpoint unmet_of (slug : string) (host_cfg daemon_cfg : toml) (reqs : list (string * DaemonRequirement)) :
    result (list (string * DaemonRequirement)) ModulesError :=
  match reqs with
  | [] => Ok []
  | (key, raw_req) :: reqs =>
      match expand_substitution raw_req host_cfg with
      | Err e => Err (SubstitutionFailed slug key e)
      | Ok expected =>
          let? rest := unmet_of slug host_cfg daemon_cfg reqs in
          Ok (if check_requirement (lookup_dotted daemon_cfg key) expected then rest else (key, expected) :: rest)
      end
  end.

Definition module_config (am : ActiveModule) : toml :=
  match load_daemon_config (am_config_path am) with Ok v => v | Err _ => TTable [] end.

Fixpoint check_daemon_requires (active : list ActiveModule) (daemon_cfg : toml) :
    result (list (string * list (string * DaemonRequirement))) ModulesError :=
  match active with
  | [] => Ok []
  | am :: active =>
      let? missing := unmet_of (am_slug am) (module_config am) daemon_cfg (mf_daemon_requires (am_manifest am)) in
      let? rest := check_daemon_requires active daemon_cfg in
      Ok (match missing with [] => rest | _ => (display_name am, missing) :: rest end)
  end.
End daemon_requires.

(** ** The runner *)

Module OutcomeStatus.
Inductive t := Success | Skipped | Failed.
#[global] Instance eq_dec : EqDecision t.
Proof. solve_decision. Defined.
Definition from_str (s : string) : t := match s with "ok" => Success | "skipped" => Skipped | _ => Failed end.
End OutcomeStatus.

Module ModuleAction.
Inductive t := Apply | Check | Uninstall.
Definition script_relpath (a : t) (i : InstallSpec) : option string :=
  match a with Apply => is_apply i | Check => is_check i | Uninstall => is_uninstall i end.
Definition name (a : t) : string := match a with Apply => "apply" | Check => "check" | Uninstall => "uninstall" end.
End ModuleAction.

Record Outcome := mkOutcome {
  oc_slug : string;
  oc_instance : option string;
  oc_status : OutcomeStatus.t;
  oc_message : string;
  oc_raw_stderr : string;
}.

Record StatusLine := mkStatusLine { sl_module : string; sl_status : string; sl_message : string }.
(** [serde_json::from_str] on one line of a script's output. *)
Class StatusJson := { status_from_json : string -> option StatusLine }.

Definition parse_status_line `{StatusJson} (stdout : string) : option StatusLine :=
  head (omap (fun line => status_from_json (trim line)) (rev (str_lines stdout))).

(** What a script leaves: its exit code, none when a signal ended it, and its output. *)
Record Output := mkOutput { ou_code : option Z; ou_stdout : string; ou_stderr : string }.
Definition success (o : Output) : bool := bool_decide (ou_code o = Some 0%Z).

(** What the host answers for one module: whether the script exists, and how it ran. *)
Record ScriptAnswer := mkAnswer { sa_exists : bool; sa_output : result Output string }.

Definition env_var_for_config (slug : string) : string :=
  "SELFDEF_" +:+ str_map (fun c => if bool_decide (c = "-"%char) then "_"%char else ascii_upper c) slug +:+ "_CONFIG".

(** The script a module is run with, and the environment it is given. *)
Record ScriptRun := mkScriptRun { sr_script : path; sr_env : list (string * string) }.

Definition script_env (active : ActiveModule) (dry_run : bool) (module_lib : string) : list (string * string) :=
  [(env_var_for_config (am_slug active), path_display (am_config_path active));
   ("SELFDEF_DRY_RUN", if dry_run then "1" else "0"); ("SELFDEF_MODULE_LIB", module_lib)]
  ++ match am_instance active with Some i => [("SELFDEF_INSTANCE_ID", i)] | None => [] end
  ++ match mf_resources (am_manifest active) with
     | None => []
     | Some res =>
         let field k o := match o with Some v => [(k, v)] | None => [] end in
         field "SELFDEF_RESOURCE_CPU_MAX" (rs_cpu_max res) ++ field "SELFDEF_RESOURCE_MEMORY_MAX" (rs_memory_max res)
         ++ field "SELFDEF_RESOURCE_IO_WEIGHT" (show_uint <$> rs_io_weight res)
         ++ field "SELFDEF_RESOURCE_TIME_MAX_SECONDS" (show_uint <$> rs_time_max_seconds res)
     end.

(** [Path::join]: an absolute path replaces the directory. *)
Definition join_rel (dir : path) (rel : string) : path :=
  match strip_prefix "/" rel with Some abs => split "/" abs | None => dir ++ split "/" rel end.

Definition exit_debug (code : option Z) : string :=
  match code with Some c => "Some(" +:+ show_int c +:+ ")" | None => "None" end.

Definition outcome_of `{StatusJson} (active : ActiveModule) (out : Output) : result Outcome ModulesError :=
  let? reported := match parse_status_line (from_utf8_lossy (ou_stdout out)) with
    | Some s =>
        if negb (bool_decide (sl_module s = "")) && negb (bool_decide (sl_module s = am_slug active))
        then Err (WrongModule (am_slug active) (sl_module s))
        else Ok (OutcomeStatus.from_str (sl_status s), sl_message s)
    | None =>
        if success out then Ok (OutcomeStatus.Success, "(no structured status emitted)")
        else Ok (OutcomeStatus.Failed, "exit=" +:+ exit_debug (ou_code out) +:+ ", no structured status")
    end in
  let status := if negb (success out) then OutcomeStatus.Failed else reported.1 in
  Ok (mkOutcome (am_slug active) (am_instance active) status reported.2 (from_utf8_lossy (ou_stderr out))).

(** The script that was started, if any, and the outcome. *)
Definition run_one `{StatusJson} (active : ActiveModule) (action : ModuleAction.t) (dry_run : bool) (module_lib : string)
    (answer : ScriptAnswer) : option ScriptRun * result Outcome ModulesError :=
  match mf_install (am_manifest active) with
  | None => (None, Err (NoInstallSection (am_slug active)))
  | Some install =>
      match ModuleAction.script_relpath action install with
      | None => (None, Err (NoScript (am_slug active) (ModuleAction.name action)))
      | Some rel =>
          let script := join_rel (am_module_root active) rel in
          if negb (sa_exists answer) then (None, Err (ScriptMissing (am_slug active) script))
          else match sa_output answer with
               | Err e => (None, Err (SpawnFailed script e))
               | Ok out => (Some (mkScriptRun script (script_env active dry_run module_lib)), outcome_of active out)
               end
      end
  end.

(** ** The lifecycle *)

Record LifecyclePolicy := mkPolicy { lp_reverse_order : bool; lp_tolerate_missing_script : bool }.
Definition policy_default : LifecyclePolicy := mkPolicy false false.

Definition module_has_script (active : ActiveModule) (action : ModuleAction.t) : bool :=
  match mf_install (am_manifest active) with
  | Some i => bool_decide (is_Some (ModuleAction.script_relpath action i))
  | None => false
  end.

(** What a run did: the scripts it started, for which module, and the lines of the audit
    file about an overridden or strict hardware gate, with the modules they name. *)
Inductive Effect :=
| RanScript (a : ActiveModule) (run : ScriptRun)
| AuditIgnoreHardware (modules : list string)
| AuditStrictHardware (modules : list string).

(** What the host provides during one command. *)
Record ModuleHost := mkModuleHost {
  mh_fs : LiveFs;
  mh_workspace : path;
  mh_env_config : option path;
  mh_module_lib : string;
  mh_audit : bool;
  mh_caps : option HardwareCapabilities;
  mh_daemon_config : option (result Config ConfigError);
  mh_dir_of : string -> path;
  mh_answers : nat -> ScriptAnswer;
}.

Section lifecycle.
Context `{UnicodeTables} `{Minisign} `{TomlText} `{ModuleToml} `{StatusJson} `{PolicyYaml} (h : ModuleHost).

Definition prepare (opts : LifecycleOpts) : result (list ActiveModule) ModulesError :=
  let fs : FileSystem := mh_fs h in
  let catalog_dir := resolve_dir fs (mh_workspace h) (lo_dir opts) in
  let? catalog := load_all fs catalog_dir in
  let? host := load_host_config fs (resolve_host_config_path (mh_env_config h) (lo_host_config opts)) in
  let? active := resolve_active fs host catalog_dir catalog in
  Ok (filter_active active (lo_only opts) (lo_except opts)).

(** The modules that were gated out, by name, as the strict mode reports them. *)
Definition strict_names (opts : LifecycleOpts) (kept : list ActiveModule) : list string :=
  let fresh := match prepare opts with Ok l => l | Err _ => [] end in
  display_name <$> filter (fun am => gated am = true /\ am_slug am ∉ (am_slug <$> kept)) fresh.

(** Scripts one after the other; an error ends the command. [i] counts the modules. *)
Fixpoint run_all (opts : LifecycleOpts) (action : ModuleAction.t) (policy : LifecyclePolicy) (i : nat) (l : list ActiveModule) :
    list Effect * result (list Outcome) ModulesError :=
  match l with
  | [] => ([], Ok [])
  | a :: l =>
      let '(ran, outcome) :=
        if lp_tolerate_missing_script policy && negb (module_has_script a action)
        then (None, Ok (mkOutcome (am_slug a) (am_instance a) OutcomeStatus.Skipped
                          ("no " +:+ ModuleAction.name action +:+ " script declared") ""))
        else run_one a action (lo_dry_run opts) (mh_module_lib h) (mh_answers h i) in
      let eff := match ran with Some r => [RanScript a r] | None => [] end in
      match outcome with
      | Err e => (eff, Err e)
      | Ok o =>
          let '(effs, rest) := run_all opts action policy (S i) l in
          (eff ++ effs, let? os := rest in Ok (o :: os))
      end
  end.

Definition gating (action : ModuleAction.t) : bool :=
  match action with ModuleAction.Apply | ModuleAction.Check => true | ModuleAction.Uninstall => false end.
Definition is_apply_action (action : ModuleAction.t) : bool := match action with ModuleAction.Apply => true | _ => false end.

(** After the gates: the daemon's configuration, then the scripts. *)
Definition run_selected (opts : LifecycleOpts) (action : ModuleAction.t) (policy : LifecyclePolicy) (active : list ActiveModule) :
    list Effect * result Z ModulesError :=
  let scripts :=
    match active with
    | [] => ([], Ok 0%Z)
    | _ =>
        let '(effs, outcomes) := run_all opts action policy 0 active in
        (effs, let? os := outcomes in
               Ok (if existsb (fun o => bool_decide (oc_status o = OutcomeStatus.Failed)) os then 1 else 0)%Z)
    end in
  if gating action && negb (lo_ignore_daemon_requires opts) then
    match load_daemon_config (mh_fs h) (default DAEMON_CONFIG (lo_daemon_config_path opts)) with
    | Err e => ([], Err e)
    | Ok daemon_cfg =>
        match check_daemon_requires (mh_fs h) active daemon_cfg with
        | Err e => ([], Err e)
        | Ok [] => scripts
        | Ok _ => ([], Ok 2%Z)
        end
    end
  else scripts.

Definition run_lifecycle (opts : LifecycleOpts) (action : ModuleAction.t) (policy : LifecyclePolicy) :
    list Effect * result Z ModulesError :=
  match prepare opts with
  | Err e => ([], Err e)
  | Ok active =>
      let active := if lp_reverse_order policy then rev active else active in
      let '(active, failed) := if gating action then apply_signing_gate (mh_fs h) active else (active, []) in
      if negb (match failed with [] => true | _ => false end) && is_apply_action action then ([], Ok 1%Z)
      else if gating action && negb (lo_ignore_hardware opts) && existsb gated active then
        let kept := apply_hardware_gate (mh_caps h) active in
        if lo_strict_hardware opts && (length kept <? length active)
        then (if mh_audit h then [AuditStrictHardware (strict_names opts kept)] else [], Ok 1%Z)
        else run_selected opts action policy kept
      else if lo_ignore_hardware opts && existsb gated active then
        let '(effs, r) := run_selected opts action policy active in
        ((if mh_audit h then [AuditIgnoreHardware (display_name <$> filter (fun a => gated a = true) active)] else []) ++ effs, r)
      else run_selected opts action policy active
  end.

Definition cmd_apply (opts : LifecycleOpts) : list Effect * result Z ModulesError :=
  let pre_code := pre_apply_perimeter_check (mh_fs h) (mh_dir_of h)
                    (match lo_daemon_config_path opts with Some _ => mh_daemon_config h | None => None end) in
  if negb (pre_code =? 0)%Z then ([], Ok pre_code) else run_lifecycle opts ModuleAction.Apply policy_default.

Definition cmd_check (opts : LifecycleOpts) : list Effect * result Z ModulesError :=
  run_lifecycle (mkOpts (lo_host_config opts) (lo_dir opts) (lo_only opts) (lo_except opts) false
    (lo_ignore_daemon_requires opts) (lo_ignore_hardware opts) (lo_strict_hardware opts) (lo_reprobe_hardware opts)
    (lo_daemon_config_path opts)) ModuleAction.Check policy_default.

Definition cmd_uninstall (opts : LifecycleOpts) : list Effect * result Z ModulesError :=
  run_lifecycle opts ModuleAction.Uninstall (mkPolicy true true).
End lifecycle.
