(* ===== verification/ModulesProps.v ===== *)
(** * Facts about the modules

    The order of a phase is a topological order, and it is found exactly when there is
    one; from it the properties of the resolution; what apply, check and uninstall run. *)

From stdpp Require Import sorting.
From S2P Require Import Prelude Core Signing Federation Config Hardware PolicyOverlap Features Modules.
From stdpp Require Import options.

(** ** Loops *)

Lemma bind_tt_ok {A E} (r : result unit E) (f : result A E) x : (let? _ := r in f) = Ok x <-> r = Ok tt /\ f = Ok x.
Proof. destruct r as [[]|e]; simpl; naive_solver. Qed.

Lemma each_ok {A E} (f : A -> result unit E) l : each f l = Ok tt <-> forall x, x ∈ l -> f x = Ok tt.
Proof.
  induction l as [|x l IH]; simpl.
  - split; [|done]. by intros _ x ?%elem_of_nil.
  - rewrite bind_tt_ok, IH. setoid_rewrite elem_of_cons. naive_solver.
Qed.

Lemma merge_sort_elem {A} (R : relation A) `{forall x y, Decision (R x y)} l x : x ∈ merge_sort R l <-> x ∈ l.
Proof. by rewrite merge_sort_Permutation. Qed.

(** ** The order of a phase *)

Lemma foldl_alter (l : list string) (m : gmap string nat) s : NoDup l ->
  foldl (fun m s => alter Nat.pred s m) m l !! s = if decide (s ∈ l) then Nat.pred <$> m !! s else m !! s.
Proof.
  intros Hn. revert m. induction Hn as [|x l Hx _ IH]; intros m; [done|]. cbn [foldl]. rewrite IH.
  destruct (decide (s = x)) as [->|Hne].
  - rewrite decide_False by done. rewrite decide_True by by left. by rewrite lookup_alter_eq.
  - rewrite lookup_alter_ne by done. destruct (decide (s ∈ l)); [rewrite decide_True by by right|rewrite decide_False by (rewrite elem_of_cons; tauto)]; done.
Qed.

Section kahn.
Context (deps : string -> list string) (slugs : list string) (Hnd : NoDup slugs).

(** A ranking that puts each dependency inside the phase below its dependent. *)
Definition acyclic : Prop := exists rank : string -> nat, forall s d, s ∈ slugs -> d ∈ slugs -> d ∈ deps s -> rank d < rank s.

(** Each module comes after its dependencies inside the phase. *)
Definition deps_first (order : list string) : Prop :=
  forall l1 s l2, order = l1 ++ s :: l2 -> forall d, d ∈ slugs -> d ∈ deps s -> d ∈ l1.

(** The dependencies that are not placed yet. *)
Definition remaining (order : list string) (s : string) : list string :=
  filter (fun d => d ∉ order) (remove_dups (filter (fun d => d ∈ slugs) (deps s))).

Lemma elem_of_remaining order s d : d ∈ remaining order s <-> d ∈ deps s /\ d ∈ slugs /\ d ∉ order.
Proof using Type. unfold remaining. rewrite list_elem_of_filter, elem_of_remove_dups, list_elem_of_filter. naive_solver. Qed.

Lemma NoDup_remaining order s : NoDup (remaining order s).
Proof using Type. apply NoDup_filter, NoDup_remove_dups. Qed.

Lemma remaining_nil order s : remaining order s = [] <-> forall d, d ∈ deps s -> d ∈ slugs -> d ∈ order.
Proof using Type.
  split.
  - intros Hr d Hd Hs. destruct (decide (d ∈ order)) as [|Hn]; [done|]. exfalso.
    assert (Hin : d ∈ remaining order s) by by apply elem_of_remaining. rewrite Hr in Hin. by apply elem_of_nil in Hin.
  - intros Hall. destruct (remaining order s) as [|d l] eqn:E; [done|]. exfalso.
    assert (Hin : d ∈ remaining order s) by (rewrite E; by left). apply elem_of_remaining in Hin as (? & ? & Hn). auto.
Qed.

Lemma remaining_snoc order next s : next ∈ slugs -> next ∉ order ->
  length (remaining (order ++ [next]) s) = if decide (next ∈ deps s) then Nat.pred (length (remaining order s)) else length (remaining order s).
Proof using Type.
  intros Hs Hn.
  assert (E : remaining (order ++ [next]) s ≡ₚ filter (fun d => d <> next) (remaining order s)).
  { apply NoDup_Permutation; [apply NoDup_remaining|apply NoDup_filter, NoDup_remaining|].
    intros d. rewrite list_elem_of_filter, !elem_of_remaining, elem_of_app, list_elem_of_singleton. naive_solver. }
  rewrite E. case_decide as Hd.
  - assert (Hin : next ∈ remaining order s) by by apply elem_of_remaining.
    pose proof (NoDup_remaining order s) as Hrn. apply list_elem_of_split in Hin as (l1 & l2 & Hs12).
    assert (Hk : remaining order s ≡ₚ next :: l1 ++ l2) by (rewrite Hs12; symmetry; apply Permutation_middle).
    rewrite Hk in Hrn. apply NoDup_cons in Hrn as [Hx _]. rewrite Hk, filter_cons_False by tauto. simpl.
    rewrite filter_all; [done|]. apply Forall_forall. intros d Hd' ->. done.
  - rewrite filter_all; [done|]. apply Forall_forall. intros d Hd' ->. apply elem_of_remaining in Hd'. naive_solver.
Qed.

Lemma decrease_lookup next indeg s : NoDup slugs ->
  decrease deps slugs next indeg !! s = if decide (s ∈ slugs /\ next ∈ deps s) then Nat.pred <$> indeg !! s else indeg !! s.
Proof using Type.
  intros Hn. unfold decrease. rewrite foldl_alter by (unfold dependents; by apply NoDup_filter).
  assert (Hiff : s ∈ dependents deps slugs next <-> s ∈ slugs /\ next ∈ deps s) by (unfold dependents; rewrite list_elem_of_filter; tauto).
  destruct (decide (s ∈ slugs /\ next ∈ deps s)); [rewrite decide_True by tauto|rewrite decide_False by tauto]; done.
Qed.

(** What holds between two rounds. *)
Record kahn_inv (indeg : gmap string nat) (ready order : list string) : Prop := {
  ki_order : NoDup order /\ order ⊆ slugs;
  ki_ready : NoDup ready /\ ready ⊆ slugs /\ forall s, s ∈ ready -> s ∉ order;
  ki_degree : forall s, s ∈ slugs -> indeg !! s = Some (length (remaining order s));
  ki_done : forall s, s ∈ slugs -> (remaining order s = [] <-> s ∈ order \/ s ∈ ready);
  ki_first : deps_first order;
}.

Lemma newly_ready_spec next indeg ready order s : kahn_inv indeg (next :: ready) order ->
  s ∈ newly_ready deps slugs next indeg <->
  s ∈ slugs /\ next ∈ deps s /\ remaining (order ++ [next]) s = [].
Proof using Hnd.
  intros [Ho Hr Hdeg Hdone Hf]. unfold newly_ready, dependents. rewrite !list_elem_of_filter.
  destruct Hr as (Hrn & Hrs & Hro). assert (Hnext : next ∈ slugs) by (apply Hrs; by left).
  assert (Hnn : next ∉ order) by (apply Hro; by left).
  split.
  - intros (Hz & Hin & Hs). rewrite decrease_lookup, decide_True, (Hdeg s Hs) in Hz by done. injection Hz as Hz.
    split; [done|]. split; [done|]. apply length_zero_iff_nil. by rewrite remaining_snoc, decide_True.
  - intros (Hs & Hin & He). split; [|done]. rewrite decrease_lookup, decide_True, (Hdeg s Hs) by done. simpl.
    f_equal. pose proof (remaining_snoc order next s Hnext Hnn) as Hl. rewrite He, decide_True in Hl by done. done.
Qed.

Lemma kahn_step indeg next ready order : kahn_inv indeg (next :: ready) order ->
  kahn_inv (decrease deps slugs next indeg) (merge_sort String.le (ready ++ newly_ready deps slugs next indeg)) (order ++ [next]).
Proof using Hnd.
  intros Hinv. pose proof (fun s => newly_ready_spec next indeg ready order s Hinv) as Hnew.
  destruct Hinv as [[Hon Hos] (Hrn & Hrs & Hro) Hdeg Hdone Hf].
  assert (Hnext : next ∈ slugs) by (apply Hrs; by left). assert (Hnn : next ∉ order) by (apply Hro; by left).
  apply NoDup_cons in Hrn as [Hnr Hrn].
  assert (Hfresh : forall s, s ∈ newly_ready deps slugs next indeg -> s ∉ order /\ s ∉ next :: ready).
  { intros s (Hs & Hd & _)%Hnew. assert (Hne : remaining order s <> []).
    { intros He. apply Hnn. rewrite remaining_nil in He. auto. }
    rewrite Hdone in Hne by done. tauto. }
  constructor.
  - split; [|set_solver]. apply NoDup_app. split_and!; [done|set_solver|apply NoDup_singleton].
  - split_and!.
    + rewrite merge_sort_Permutation. apply NoDup_app. split_and!; [done| |].
      * intros s Hs Hin. apply Hfresh in Hin as [_ Hin]. apply Hin. by right.
      * unfold newly_ready, dependents. by apply NoDup_filter, NoDup_filter.
    + intros s. rewrite merge_sort_elem, elem_of_app. intros [Hs|(? & _)%Hnew]; [|done]. apply Hrs. by right.
    + intros s. rewrite merge_sort_elem, !elem_of_app, list_elem_of_singleton. intros [Hs|Hs] [Ho| ->].
      * apply (Hro s); [by right|done].
      * done.
      * by apply Hfresh in Hs as [? _].
      * apply Hfresh in Hs as [_ Hs]. apply Hs. by left.
  - intros s Hs. rewrite decrease_lookup, (Hdeg s Hs) by done. rewrite remaining_snoc by done.
    destruct (decide (next ∈ deps s)); [rewrite decide_True by done|rewrite decide_False by tauto]; done.
  - intros s Hs. rewrite merge_sort_elem, !elem_of_app, list_elem_of_singleton, Hnew.
    pose proof (Hdone s Hs) as Hd. rewrite elem_of_cons in Hd. rewrite !remaining_nil in *. split.
    + intros He. destruct (decide (next ∈ deps s)) as [Hin|Hin]; [naive_solver|].
      assert (Hre : forall d, d ∈ deps s -> d ∈ slugs -> d ∈ order).
      { intros d Hd1 Hd2. specialize (He d Hd1 Hd2). rewrite elem_of_app, list_elem_of_singleton in He. naive_solver. }
      apply Hd in Hre. naive_solver.
    + intros [[Ho| ->]|[Hr|(_ & _ & He)]]; [| | |done]; intros d Hd1 Hd2; rewrite elem_of_app; left;
        (apply Hd; [naive_solver|done|done]).
  - intros l1 s l2 Heq d Hd1 Hd2. destruct l2 as [|y l2 _] using rev_ind.
    + apply app_inj_tail in Heq as [-> ->]. assert (He : remaining l1 s = []) by (apply Hdone; [done|right; by left]).
      rewrite remaining_nil in He. auto.
    + rewrite app_comm_cons, app_assoc in Heq. apply app_inj_tail in Heq as [-> _]. by eapply Hf.
Qed.
Lemma kahn_start : kahn_inv (initial_degrees deps slugs) (initial_ready deps slugs) [].
Proof using Hnd.
  assert (Hrem : forall s, remaining [] s = remove_dups (filter (fun d => d ∈ slugs) (deps s))).
  { intros s. unfold remaining. apply filter_all, Forall_forall. intros d _. by apply not_elem_of_nil. }
  constructor.
  - split; [constructor|]. by intros s ?%elem_of_nil.
  - unfold initial_ready. split_and!.
    + rewrite merge_sort_Permutation. by apply NoDup_filter.
    + intros s. rewrite merge_sort_elem, list_elem_of_filter. tauto.
    + intros s _. by apply not_elem_of_nil.
  - intros s Hs. rewrite Hrem. unfold initial_degrees. apply elem_of_list_to_map_1.
    + rewrite <-list_fmap_compose. by rewrite (list_fmap_ext _ id), list_fmap_id by done.
    + apply list_elem_of_fmap. by exists s.
  - intros s Hs. rewrite Hrem. unfold initial_ready. rewrite merge_sort_elem, list_elem_of_filter. unfold in_degree.
    rewrite length_zero_iff_nil. split; [tauto|]. by intros [?%elem_of_nil|[? _]].
  - intros l1 s l2 Heq. by destruct l1.
Qed.

Lemma order_length order : NoDup order -> order ⊆ slugs -> length order <= length slugs.
Proof using Type. intros Hn Hs. by apply NoDup_incl_length; [apply NoDup_ListNoDup|intros x ?%list_elem_of_In; apply list_elem_of_In, Hs]. Qed.

Lemma full_order order : NoDup order -> order ⊆ slugs -> length slugs <= length order -> order ≡ₚ slugs.
Proof using Hnd.
  intros Hn Hs Hl. apply submseteq_length_Permutation; [|done]. by apply NoDup_submseteq.
Qed.

(** Enough rounds end with nothing ready. *)
Lemma kahn_end fuel indeg ready order : kahn_inv indeg ready order -> length slugs <= fuel + length order ->
  exists indeg', kahn_inv indeg' [] (kahn deps slugs fuel indeg ready order).
Proof using Hnd.
  revert indeg ready order. induction fuel as [|fuel IH]; intros indeg ready order Hinv Hfuel.
  - assert (Hr : ready = []); [|subst; by exists indeg].
    destruct Hinv as [[Hon Hos] (_ & Hrs & Hro) _ _ _]. assert (Hp : order ≡ₚ slugs) by by apply full_order.
    destruct ready as [|s ready]; [done|]. exfalso. apply (Hro s); [by left|]. rewrite Hp. apply Hrs. by left.
  - destruct ready as [|next ready]; [by exists indeg|]. cbn [kahn]. apply IH; [by apply kahn_step|].
    rewrite length_app. simpl. lia.
Qed.

Lemma kahn_fuel fuel k indeg ready order : kahn_inv indeg ready order -> length slugs <= fuel + length order ->
  kahn deps slugs (fuel + k) indeg ready order = kahn deps slugs fuel indeg ready order.
Proof using Hnd.
  revert indeg ready order. induction fuel as [|fuel IH]; intros indeg ready order Hinv Hfuel.
  - destruct (kahn_end 0 indeg ready order Hinv Hfuel) as [_ _].
    assert (Hr : ready = []); [|subst; by destruct k].
    destruct Hinv as [[Hon Hos] (_ & Hrs & Hro) _ _ _]. assert (Hp : order ≡ₚ slugs) by by apply full_order.
    destruct ready as [|s ready]; [done|]. exfalso. apply (Hro s); [by left|]. rewrite Hp. apply Hrs. by left.
  - destruct ready as [|next ready]; [done|]. cbn [kahn plus]. apply IH; [by apply kahn_step|]. rewrite length_app. simpl. lia.
Qed.

Lemma topo_sort_inv : exists indeg, kahn_inv indeg [] (topo_sort deps slugs).
Proof using Hnd. apply kahn_end; [apply kahn_start|simpl; lia]. Qed.

Lemma topo_sort_deps_first : deps_first (topo_sort deps slugs).
Proof using Hnd. destruct topo_sort_inv as [indeg Hinv]. by destruct Hinv. Qed.

Lemma topo_sort_perm : length (topo_sort deps slugs) = length slugs -> topo_sort deps slugs ≡ₚ slugs.
Proof using Hnd. intros Hl. destruct topo_sort_inv as [indeg [[Hn Hs] _ _ _ _]]. apply full_order; [done|done|lia]. Qed.

(** Of finitely many modules one has the least rank. *)
Lemma least (rank : string -> nat) (l : list string) : l <> [] -> exists s, s ∈ l /\ forall d, d ∈ l -> rank s <= rank d.
Proof using Type.
  induction l as [|x [|y l] IH]; intros Hne; [done| |].
  - exists x. split; [by left|]. intros d ->%list_elem_of_singleton. done.
  - destruct IH as (s & Hs & Hmin); [done|]. destruct (decide (rank x <= rank s)).
    + exists x. split; [by left|]. intros d [->|Hd]%elem_of_cons; [done|]. specialize (Hmin d Hd). lia.
    + exists s. split; [by right|]. intros d [->|Hd]%elem_of_cons; [lia|auto].
Qed.

Lemma deps_first_acyclic order : NoDup order -> order ≡ₚ slugs -> deps_first order -> acyclic.
Proof using Type.
  intros Hn Hp Hf. exists (fun s => from_option fst 0 (list_find (fun x => x = s) order)). intros s d Hs Hd Hin.
  assert (Hso : s ∈ order) by by rewrite Hp. apply list_elem_of_split in Hso as (l1 & l2 & Heq).
  assert (Hdl : d ∈ l1) by by eapply Hf. rewrite Heq in Hn |- *.
  assert (Hsl : s ∉ l1) by (apply NoDup_app in Hn as (_ & Hn & _); intros Hs1; apply (Hn s Hs1); by left).
  assert (Hnone : list_find (fun x => x = s) l1 = None).
  { apply list_find_None, Forall_forall. intros x Hx Hxs. subst x. exact (Hsl Hx). }
  rewrite (list_find_app_r (fun x => x = s) l1) by done. simpl. rewrite decide_True by done. simpl.
  destruct (list_find (fun x => x = d) l1) as [[i x]|] eqn:E.
  - rewrite (list_find_app_l _ _ _ _ _ E). simpl. apply list_find_Some in E as (E & _). apply lookup_lt_Some in E. lia.
  - apply list_find_None in E. rewrite Forall_forall in E. by destruct (E d Hdl).
Qed.

(** The sort places every module exactly when there is an order at all. *)
Lemma topo_sort_complete : length (topo_sort deps slugs) = length slugs <-> acyclic.
Proof using Hnd.
  destruct topo_sort_inv as [indeg Hinv]. split.
  - intros Hl. destruct Hinv as [[Hn _] _ _ _ Hf]. by apply (deps_first_acyclic _ Hn (topo_sort_perm Hl)).
  - intros [rank Hrank]. destruct Hinv as [[Hn Hs] _ _ Hdone _]. set (order := topo_sort deps slugs) in *.
    destruct (filter (fun s => s ∉ order) slugs) as [|x l] eqn:E.
    + apply Permutation_length, NoDup_Permutation; [done|done|]. intros s. split; [apply Hs|]. intros Hsl.
      destruct (decide (s ∈ order)) as [|Hno]; [done|]. exfalso.
      assert (Hin : s ∈ filter (fun s => s ∉ order) slugs) by by apply list_elem_of_filter. rewrite E in Hin. by apply elem_of_nil in Hin.
    + destruct (least rank (filter (fun s => s ∉ order) slugs)) as (s & [Hno Hsl]%list_elem_of_filter & Hmin); [by rewrite E|].
      exfalso. destruct (remaining order s) as [|d r] eqn:Er.
      { apply Hdone in Er as [?|?%elem_of_nil]; done. }
      assert (Hd : d ∈ remaining order s) by (rewrite Er; by left). apply elem_of_remaining in Hd as (Hd1 & Hd2 & Hd3).
      specialize (Hmin d). specialize (Hrank s d Hsl Hd2 Hd1). rewrite list_elem_of_filter in Hmin. specialize (Hmin (conj Hd3 Hd2)). lia.
Qed.
End kahn.

(** ** The whole order *)

Lemma cons_app_split {A} (l k l1 : list A) x l2 : l ++ k = l1 ++ x :: l2 ->
  (exists r, l = l1 ++ x :: r /\ l2 = r ++ k) \/ (exists r, l1 = l ++ r /\ k = r ++ x :: l2).
Proof.
  revert l1. induction l as [|y l IH]; intros l1 Heq; [by right; exists l1|]. destruct l1 as [|z l1]; injection Heq as -> Heq.
  - left. by exists l.
  - destruct (IH l1 Heq) as [(r & -> & ->)|(r & -> & ->)]; [left; by exists r|right; by exists r].
Qed.

Lemma bind_split {A B} (f : A -> list B) xs l1 b l2 : xs ≫= f = l1 ++ b :: l2 ->
  exists o1 x o2 b1 b2, xs = o1 ++ x :: o2 /\ f x = b1 ++ b :: b2 /\ l1 = (o1 ≫= f) ++ b1 /\ l2 = b2 ++ (o2 ≫= f).
Proof.
  revert l1. induction xs as [|x xs IH]; intros l1 Heq; [by destruct l1|]. cbn in Heq.
  apply cons_app_split in Heq as [(r & Hf & ->)|(r & -> & Heq)].
  - by exists [], x, xs, l1, r.
  - destruct (IH r Heq) as (o1 & y & o2 & b1 & b2 & -> & Hf & -> & ->). exists (x :: o1), y, o2, b1, b2.
    split; [done|]. split; [done|]. split; [|done]. cbn. by rewrite app_assoc.
Qed.

Lemma deps_first_app deps A B oa ob : deps_first deps A oa -> deps_first deps B ob -> oa ≡ₚ A ->
  (forall s d, s ∈ A -> d ∈ deps s -> d ∉ B) -> deps_first deps (A ++ B) (oa ++ ob).
Proof.
  intros Ha Hb Hp Hab l1 s l2 Heq d Hd Hin. apply cons_app_split in Heq as [(r & -> & ->)|(r & -> & ->)].
  - apply elem_of_app in Hd as [Hd|Hd]; [by eapply Ha|]. exfalso. apply (Hab s d); [|done|done].
    rewrite <-Hp, elem_of_app. right. by left.
  - rewrite elem_of_app. apply elem_of_app in Hd as [Hd|Hd]; [left; by rewrite Hp|right; by eapply Hb].
Qed.

Lemma deps_first_ext deps A B order : (forall d, d ∈ A <-> d ∈ B) -> deps_first deps A order -> deps_first deps B order.
Proof. intros Hab Ha l1 s l2 Heq d Hd. apply (Ha l1 s l2 Heq). by apply Hab. Qed.

Lemma acyclic_sub deps A B : (forall s, s ∈ A -> s ∈ B) -> acyclic deps B -> acyclic deps A.
Proof. intros Hs [rank Hr]. exists rank. eauto. Qed.

Section order.
Context (cat : gmap string ModuleManifest) (active : list string) (Hnd : NoDup active).
Context (Hcat : forall s, s ∈ active -> is_Some (cat !! s)).
Context (Hdeps : forall s d m dm, s ∈ active -> cat !! s = Some m -> d ∈ mf_depends_on m -> cat !! d = Some dm ->
  Phase.rank (mf_phase dm) <= Phase.rank (mf_phase m)).

Lemma elem_of_phase s phase : s ∈ phase_slugs cat active phase <-> s ∈ active /\ exists m, cat !! s = Some m /\ mf_phase m = phase.
Proof using Type.
  unfold phase_slugs. rewrite list_elem_of_filter, fmap_Some. split; [intros [(m & ? & ->) ?]|intros [? (m & ? & <-)]]; eauto.
Qed.

Lemma phases_perm : phase_slugs cat active Phase.Pre ++ phase_slugs cat active Phase.Main ++ phase_slugs cat active Phase.Post ≡ₚ active.
Proof using Hnd Hcat.
  apply NoDup_Permutation; [|done|].
  - apply NoDup_app. split_and!; [by apply NoDup_filter| |apply NoDup_app; split_and!; [by apply NoDup_filter| |by apply NoDup_filter]].
    + intros s. rewrite elem_of_app, !elem_of_phase. naive_solver congruence.
    + intros s. rewrite !elem_of_phase. naive_solver congruence.
  - intros s. rewrite !elem_of_app, !elem_of_phase. split; [naive_solver|].
    intros Hs. destruct (Hcat s Hs) as [m Hm]. destruct (mf_phase m) eqn:E; naive_solver.
Qed.

Lemma later_free s d a b : s ∈ phase_slugs cat active a -> d ∈ phase_slugs cat active b -> d ∈ deps_of cat s -> Phase.rank b <= Phase.rank a.
Proof using Hdeps.
  intros (Hs & m & Hm & <-)%elem_of_phase (Hd & dm & Hdm & <-)%elem_of_phase Hin. unfold deps_of in Hin. rewrite Hm in Hin.
  by apply (Hdeps s d m dm).
Qed.

Lemma phase_order_ok phase order : phase_order cat active phase = Ok order ->
  order ≡ₚ phase_slugs cat active phase /\ deps_first (deps_of cat) (phase_slugs cat active phase) order.
Proof using Hnd.
  unfold phase_order. assert (Hn : NoDup (phase_slugs cat active phase)) by by apply NoDup_filter.
  destruct (Nat.eqb_spec (length (topo_sort (deps_of cat) (phase_slugs cat active phase))) (length (phase_slugs cat active phase))) as [E|]; [|done].
  intros [= <-]. split; [by apply topo_sort_perm|by apply topo_sort_deps_first].
Qed.

Lemma phase_order_acyclic phase : acyclic (deps_of cat) (phase_slugs cat active phase) -> exists order, phase_order cat active phase = Ok order.
Proof using Hnd.
  intros Ha. unfold phase_order. assert (Hn : NoDup (phase_slugs cat active phase)) by by apply NoDup_filter.
  rewrite (proj2 (topo_sort_complete (deps_of cat) _ Hn) Ha), Nat.eqb_refl. eauto.
Qed.

Lemma slug_order_ok order : slug_order cat active = Ok order ->
  order ≡ₚ active /\ deps_first (deps_of cat) active order.
Proof using All.
  unfold slug_order. destruct (phase_order cat active Phase.Pre) as [pre|] eqn:E1; [|done]. simpl.
  destruct (phase_order cat active Phase.Main) as [main|] eqn:E2; [|done]. simpl.
  destruct (phase_order cat active Phase.Post) as [post|] eqn:E3; [|done]. simpl. intros [= <-].
  destruct (phase_order_ok _ _ E1) as [P1 F1], (phase_order_ok _ _ E2) as [P2 F2], (phase_order_ok _ _ E3) as [P3 F3].
  split; [by rewrite P1, P2, P3, phases_perm|].
  apply (deps_first_ext _ (phase_slugs cat active Phase.Pre ++ phase_slugs cat active Phase.Main ++ phase_slugs cat active Phase.Post)).
  { intros d. by rewrite phases_perm. }
  apply deps_first_app; [done| |done|].
  - apply deps_first_app; [done|done|done|]. intros s d Hs Hd Hb. pose proof (later_free s d _ _ Hs Hb Hd) as Hl. simpl in Hl. lia.
  - intros s d Hs Hd [Hb|Hb]%elem_of_app; pose proof (later_free s d _ _ Hs Hb Hd) as Hl; simpl in Hl; lia.
Qed.

(** The slugs are put into an order exactly when their dependencies have no cycle. *)
Lemma slug_order_exact : is_ok (slug_order cat active) = true <-> acyclic (deps_of cat) active.
Proof using All.
  split.
  - destruct (slug_order cat active) as [order|] eqn:E; [|done]. intros _. destruct (slug_order_ok _ E) as [Hp Hf].
    by apply (deps_first_acyclic _ _ order); [rewrite Hp|..].
  - intros Ha. unfold slug_order.
    assert (Hs : forall phase, exists order, phase_order cat active phase = Ok order).
    { intros phase. apply phase_order_acyclic. eapply acyclic_sub; [|exact Ha]. intros s ?%elem_of_phase. tauto. }
    destruct (Hs Phase.Pre) as [? ->], (Hs Phase.Main) as [? ->], (Hs Phase.Post) as [? ->]. done.
Qed.
End order.

(** ** Resolution *)

Section resolution.
Context `{TomlText} (fs : FileSystem).

(** The profile an instance would run under allows several instances. *)
Definition profile_ok (m : ModuleManifest) (e : HostEntry) : Prop :=
  forall profiles, mf_profiles m = Some profiles ->
  let name := default (default "" (pr_default profiles)) (read_profile_from_config fs (config_path_of e)) in
  name = "" \/ profile_instanced profiles name (mf_instanced m) = true.

(** A module is active once without an instance, or under distinct instances, which its
    manifest and the profile of each must allow. *)
Definition instances_ok (m : ModuleManifest) (l : list HostEntry) : Prop :=
  (exists e, l = [e] /\ he_instance e = None) \/
  (mf_instanced m = true /\ (forall e, e ∈ l -> is_Some (he_instance e) /\ profile_ok m e) /\ NoDup (he_instance <$> l)).

(** What the host configuration must satisfy. *)
Record admissible (cat : gmap string ModuleManifest) (entries : list HostEntry) : Prop := {
  ad_known : forall s, s ∈ he_slug <$> entries -> is_Some (cat !! s);
  ad_instances : forall s m, s ∈ he_slug <$> entries -> cat !! s = Some m -> instances_ok m (group entries s);
  ad_conflicts : forall s m c, s ∈ he_slug <$> entries -> cat !! s = Some m -> c ∈ mf_conflicts m -> c ∉ he_slug <$> entries;
  ad_deps : forall s m d, s ∈ he_slug <$> entries -> cat !! s = Some m -> d ∈ mf_depends_on m ->
    d ∈ he_slug <$> entries /\ exists dm, cat !! d = Some dm /\ Phase.rank (mf_phase dm) <= Phase.rank (mf_phase m);
  ad_acyclic : acyclic (deps_of cat) (he_slug <$> entries);
}.

Lemma elem_of_group_keys entries s : s ∈ group_keys entries <-> s ∈ he_slug <$> entries.
Proof using Type. unfold group_keys. by rewrite merge_sort_elem, elem_of_remove_dups. Qed.
Lemma NoDup_group_keys entries : NoDup (group_keys entries).
Proof using Type. unfold group_keys. rewrite merge_sort_Permutation. apply NoDup_remove_dups. Qed.
Lemma elem_of_group entries s e : e ∈ group entries s <-> e ∈ entries /\ he_slug e = s.
Proof using Type. unfold group. rewrite merge_sort_elem, list_elem_of_filter. tauto. Qed.

Lemma distinct_instances_ok slug l seen : (forall e, e ∈ l -> is_Some (he_instance e)) ->
  distinct_instances slug l seen = Ok tt <->
  NoDup (he_instance <$> l) /\ forall e i, e ∈ l -> he_instance e = Some i -> i ∉ seen.
Proof using Type.
  revert seen. induction l as [|e l IH]; intros seen Hs; simpl.
  { split; [|done]. intros _. split; [constructor|]. by intros e i ?%elem_of_nil. }
  destruct (Hs e) as [i Hi]; [by left|]. rewrite Hi. simpl.
  assert (Hs' : forall e, e ∈ l -> is_Some (he_instance e)) by (intros; apply Hs; by right).
  case_bool_decide as Hin.
  - split; [done|]. intros [_ Hall]. by destruct (Hall e i); [left|done|].
  - rewrite (IH (i :: seen) Hs'), NoDup_cons. setoid_rewrite elem_of_cons.
    assert (Hmem : Some i ∈ he_instance <$> l <-> exists e', e' ∈ l /\ he_instance e' = Some i).
    { rewrite list_elem_of_fmap. naive_solver. }
    rewrite Hmem. split.
    + intros [Hn Hall]. split; [split; [|done]|].
      * intros (e' & He' & Hi'). destruct (Hall e' i He' Hi'). by left.
      * intros e' j [->|He'] Hj Hjs; [congruence|]. destruct (Hall e' j He' Hj). by right.
    + intros [[Hno Hn] Hall]. split; [done|]. intros e' j He' Hj [->|Hjs]; [by apply Hno; eauto|]. by apply (Hall e' j); [right| |].
Qed.

Lemma check_profile_ok s m profiles e i : mf_profiles m = Some profiles -> he_instance e = Some i ->
  check_profile fs s m profiles e = Ok tt <-> profile_ok m e.
Proof using Type.
  intros Hp Hi. unfold check_profile, profile_ok. rewrite Hi, Hp. case_bool_decide; [naive_solver|].
  destruct (profile_instanced _ _ _) eqn:Ep; [naive_solver|]. split; [done|]. intros Hx.
  destruct (Hx profiles eq_refl); [done|]. congruence.
Qed.

Lemma check_instances_ok cat entries s m : s ∈ he_slug <$> entries -> cat !! s = Some m ->
  check_instances fs entries cat s = Ok tt <-> instances_ok m (group entries s).
Proof using Type.
  intros Hs Hm. unfold check_instances. rewrite Hm. set (l := group entries s).
  assert (Hne : l <> []).
  { apply list_elem_of_fmap in Hs as (e & -> & He). intros Hl. assert (Hin : e ∈ l) by by apply elem_of_group.
    rewrite Hl in Hin. by apply elem_of_nil in Hin. }
  set (ai := existsb _ l). set (af := existsb (fun e => match he_instance e with Some _ => false | None => true end) l).
  assert (Hai : ai = true <-> exists e, e ∈ l /\ is_Some (he_instance e)).
  { unfold ai. rewrite existsb_exists. split; intros (e & He & Hi); exists e; (split; [by apply list_elem_of_In|]);
      destruct (he_instance e); try done; try (by eexists); by destruct Hi. }
  assert (Haf : af = true <-> exists e, e ∈ l /\ he_instance e = None).
  { unfold af. rewrite existsb_exists. split; intros (e & He & Hi); exists e; (split; [by apply list_elem_of_In|]);
      by destruct (he_instance e). }
  clearbody ai af. unfold instances_ok. destruct ai eqn:Eai; simpl.
  - destruct (proj1 Hai eq_refl) as (e0 & He0 & Hi0). destruct af; simpl.
    { split; [done|]. destruct (proj1 Haf eq_refl) as (e1 & He1 & Hi1). intros [(e & -> & Hi)|(_ & Hall & _)].
      - apply list_elem_of_singleton in He0 as ->. rewrite Hi in Hi0. by destruct Hi0.
      - destruct (Hall e1 He1) as [[? Hx] _]. congruence. }
    assert (Hall : forall e, e ∈ l -> is_Some (he_instance e)).
    { intros e He. destruct (he_instance e) eqn:Ei; [eauto|]. exfalso. assert (false = true) by (apply Haf; eauto). done. }
    destruct (mf_instanced m) eqn:Emi; simpl.
    2: { split; [done|]. intros [(e & -> & Hi)|(? & _)]; [|done]. apply list_elem_of_singleton in He0 as ->. rewrite Hi in Hi0. by destruct Hi0. }
    rewrite bind_tt_ok, (distinct_instances_ok s l [] Hall).
    assert (Hprof : (match mf_profiles m with Some profiles => each (check_profile fs s m profiles) l | None => Ok tt end) = Ok tt <->
      forall e, e ∈ l -> profile_ok m e).
    { destruct (mf_profiles m) as [profiles|] eqn:Ep; [|unfold profile_ok; naive_solver]. rewrite each_ok.
      split; intros Hx e He; destruct (Hall e He) as [i Hi]; by eapply check_profile_ok; eauto. }
    rewrite Hprof. split.
    + intros (Hp & Hn & _). right. naive_solver.
    + intros [(e & -> & Hi)|(_ & Ha & Hn)].
      * apply list_elem_of_singleton in He0 as ->. rewrite Hi in Hi0. by destruct Hi0.
      * split; [naive_solver|]. split; [done|]. intros. apply not_elem_of_nil.
  - assert (Hall : forall e, e ∈ l -> he_instance e = None).
    { intros e He. destruct (he_instance e) eqn:Ei; [|done]. exfalso. assert (false = true) by (apply Hai; eauto). done. }
    assert (Hprof : (match mf_profiles m with Some _ => Ok tt | None => Ok tt end : result unit ModulesError) = Ok tt) by by destruct (mf_profiles m).
    rewrite Hprof. simpl. destruct l as [|e l']; [done|].
    assert (Haf' : af = true) by (apply Haf; exists e; split; [by left|apply Hall; by left]). rewrite Haf'. simpl.
    destruct l' as [|e' l']; simpl.
    + split; [|done]. intros _. left. exists e. split; [done|]. apply Hall. by left.
    + split; [done|]. intros [(x & [=] & _)|(_ & Hx & _)]. destruct (Hx e) as [[? Hi] _]; [by left|]. rewrite (Hall e) in Hi by by left. done.
Qed.
Lemma by_slug_total (cat : gmap string ModuleManifest) entries :
  each (check_in_catalog cat) (group_keys entries) = Ok tt <-> forall s, s ∈ he_slug <$> entries -> is_Some (cat !! s).
Proof using Type.
  rewrite each_ok. setoid_rewrite elem_of_group_keys. unfold check_in_catalog. split; intros Hx s Hs; specialize (Hx s Hs).
  - by case_bool_decide.
  - by rewrite bool_decide_true.
Qed.

Lemma check_conflicts_ok cat active s m : cat !! s = Some m ->
  check_conflicts cat active s = Ok tt <-> forall c, c ∈ mf_conflicts m -> c ∉ active.
Proof using Type.
  intros Hm. unfold check_conflicts. rewrite Hm, each_ok. split; intros Hx c Hc; specialize (Hx c Hc); case_bool_decide; done.
Qed.

Lemma check_deps_ok cat active s m : cat !! s = Some m ->
  check_deps cat active s = Ok tt <-> forall d, d ∈ mf_depends_on m ->
    d ∈ active /\ exists dm, cat !! d = Some dm /\ Phase.rank (mf_phase dm) <= Phase.rank (mf_phase m).
Proof using Type.
  intros Hm. unfold check_deps. rewrite Hm, each_ok. split; intros Hx d Hd; specialize (Hx d Hd); unfold check_dep in *.
  - destruct (cat !! d) as [dm|]; [|done]. destruct (bool_decide_reflect (d ∈ active)); [|done]. simpl in Hx.
    destruct (Nat.ltb_spec (Phase.rank (mf_phase m)) (Phase.rank (mf_phase dm))); [done|]. eauto.
  - destruct Hx as (Ha & dm & -> & Hr). rewrite bool_decide_true by done. simpl.
    destruct (Nat.ltb_spec (Phase.rank (mf_phase m)) (Phase.rank (mf_phase dm))); [lia|done].
Qed.

(** The checks before the order, one by one. *)
Lemma resolve_checks (cat : gmap string ModuleManifest) entries : (forall s, s ∈ he_slug <$> entries -> is_Some (cat !! s)) ->
  (each (check_instances fs entries cat) (group_keys entries) = Ok tt /\
   each (check_conflicts cat (group_keys entries)) (group_keys entries) = Ok tt /\
   each (check_deps cat (group_keys entries)) (group_keys entries) = Ok tt) <->
  (forall s m, s ∈ he_slug <$> entries -> cat !! s = Some m -> instances_ok m (group entries s)) /\
  (forall s m c, s ∈ he_slug <$> entries -> cat !! s = Some m -> c ∈ mf_conflicts m -> c ∉ he_slug <$> entries) /\
  (forall s m d, s ∈ he_slug <$> entries -> cat !! s = Some m -> d ∈ mf_depends_on m ->
    d ∈ he_slug <$> entries /\ exists dm, cat !! d = Some dm /\ Phase.rank (mf_phase dm) <= Phase.rank (mf_phase m)).
Proof using Type.
  intros Hk. rewrite !each_ok. setoid_rewrite elem_of_group_keys. split.
  - intros (H1 & H2 & H3). split_and!; intros s m.
    + intros Hs Hm. by apply (check_instances_ok cat), H1.
    + intros c Hs Hm Hc Hin. apply elem_of_group_keys in Hin. revert Hin. by apply (check_conflicts_ok cat _ s m Hm); [apply H2|].
    + intros d Hs Hm Hd. destruct (proj1 (check_deps_ok cat _ s m Hm) (H3 s Hs) d Hd) as [Ha Hr]. by rewrite elem_of_group_keys in Ha.
  - intros (H1 & H2 & H3). split_and!; intros s Hs; destruct (Hk s Hs) as [m Hm].
    + apply (check_instances_ok cat entries s m); auto.
    + apply (check_conflicts_ok cat _ s m Hm). intros c Hc. rewrite elem_of_group_keys. eauto.
    + apply (check_deps_ok cat _ s m Hm). intros d Hd. rewrite elem_of_group_keys. eauto.
Qed.

Lemma resolve_active_inv host dir catalog out : resolve_active fs host dir catalog = Ok out <->
  exists entries order, parse_entries host = Ok entries /\
    (forall s, s ∈ he_slug <$> entries -> is_Some (by_slug catalog !! s)) /\
    (each (check_instances fs entries (by_slug catalog)) (group_keys entries) = Ok tt /\
     each (check_conflicts (by_slug catalog) (group_keys entries)) (group_keys entries) = Ok tt /\
     each (check_deps (by_slug catalog) (group_keys entries)) (group_keys entries) = Ok tt) /\
    slug_order (by_slug catalog) (group_keys entries) = Ok order /\
    out = order ≫= materialise (by_slug catalog) dir entries.
Proof using Type.
  unfold resolve_active. cbv zeta. destruct (parse_entries host) as [entries|e]; simpl; [|naive_solver].
  rewrite !bind_tt_ok, by_slug_total. split.
  - intros (? & ? & ? & ? & Ho). destruct (slug_order (by_slug catalog) (group_keys entries)) as [order|] eqn:Eo; [|done].
    injection Ho as <-. exists entries, order. split_and!; done.
  - intros (? & order & [= <-] & ? & (? & ? & ?) & -> & ->). split_and!; done.
Qed.

Lemma dep_phase (cat : gmap string ModuleManifest) entries : (forall s m d, s ∈ he_slug <$> entries -> cat !! s = Some m -> d ∈ mf_depends_on m ->
    d ∈ he_slug <$> entries /\ exists dm, cat !! d = Some dm /\ Phase.rank (mf_phase dm) <= Phase.rank (mf_phase m)) ->
  forall s d m dm, s ∈ group_keys entries -> cat !! s = Some m -> d ∈ mf_depends_on m -> cat !! d = Some dm ->
    Phase.rank (mf_phase dm) <= Phase.rank (mf_phase m).
Proof using Type.
  intros Hd s d m dm Hs%elem_of_group_keys Hm Hin Hdm. destruct (Hd s m d Hs Hm Hin) as (_ & dm' & Hdm' & Hr). naive_solver.
Qed.

(** The modules of a host are resolved exactly when the configuration is admissible: its
    keys parse, every module is known and used the way its manifest and profiles
    allow, none conflicts with another, all dependencies are active in no later phase,
    and they form no cycle. *)
Lemma resolve_active_ok host dir catalog : is_ok (resolve_active fs host dir catalog) = true <->
  exists entries, parse_entries host = Ok entries /\ admissible (by_slug catalog) entries.
Proof using Type.
  assert (Hcyc : forall (cat : gmap string ModuleManifest) entries, (forall s, s ∈ he_slug <$> entries -> is_Some (cat !! s)) ->
    (forall s m d, s ∈ he_slug <$> entries -> cat !! s = Some m -> d ∈ mf_depends_on m ->
      d ∈ he_slug <$> entries /\ exists dm, cat !! d = Some dm /\ Phase.rank (mf_phase dm) <= Phase.rank (mf_phase m)) ->
    is_ok (slug_order cat (group_keys entries)) = true <-> acyclic (deps_of cat) (he_slug <$> entries)).
  { intros cat entries Hk Hd. rewrite slug_order_exact; [|apply NoDup_group_keys|by intros s ?%elem_of_group_keys; auto|by apply dep_phase].
    split; apply acyclic_sub; intros s; by rewrite elem_of_group_keys. }
  split.
  - destruct (resolve_active fs host dir catalog) as [out|] eqn:E; [|done]. intros _.
    apply resolve_active_inv in E as (entries & order & Hp & Hk & Hc & Ho & _). apply (resolve_checks _ _ Hk) in Hc as (H1 & H2 & H3).
    exists entries. split; [done|]. constructor; [done..|]. apply (Hcyc (by_slug catalog)); [done|done|]. by rewrite Ho.
  - intros (entries & Hp & [Hk H1 H2 H3 Ha]). apply (Hcyc _ _ Hk H3) in Ha.
    destruct (slug_order _ _) as [order|] eqn:Eo; [|done].
    assert (Hr : resolve_active fs host dir catalog = Ok (order ≫= materialise (by_slug catalog) dir entries)); [|by rewrite Hr].
    apply resolve_active_inv. exists entries, order. split; [done|]. split; [done|]. split; [by apply resolve_checks|done].
Qed.
End resolution.

(** *** What the resolution returns *)

(** Every dependency of a module is behind it completely. *)
Definition dependency_order (out : list ActiveModule) : Prop :=
  forall l1 a l2, out = l1 ++ a :: l2 -> forall d, d ∈ mf_depends_on (am_manifest a) ->
    (exists b, b ∈ l1 /\ am_slug b = d) /\ forall b, b ∈ a :: l2 -> am_slug b <> d.

Lemma filter_split (k : string) ks (l : list HostEntry) : k ∉ ks ->
  filter (fun e => he_slug e = k) l ++ filter (fun e => he_slug e ∈ ks) l ≡ₚ filter (fun e => he_slug e ∈ k :: ks) l.
Proof.
  intros Hk. induction l as [|e l IH]; [done|]. rewrite !filter_cons. destruct (decide (he_slug e = k)) as [He|He].
  - rewrite (decide_False (P := he_slug e ∈ ks)) by (by rewrite He). rewrite (decide_True (P := he_slug e ∈ k :: ks)) by (rewrite He; by left).
    simpl. by rewrite IH.
  - destruct (decide (he_slug e ∈ ks)) as [Hi|Hi].
    + rewrite (decide_True (P := he_slug e ∈ k :: ks)) by by right. by rewrite <-Permutation_middle, IH.
    + rewrite (decide_False (P := he_slug e ∈ k :: ks)) by (rewrite elem_of_cons; tauto). exact IH.
Qed.

Lemma groups_filter entries keys : NoDup keys ->
  keys ≫= group entries ≡ₚ filter (fun e => he_slug e ∈ keys) entries.
Proof.
  induction 1 as [|k keys Hk _ IH]; cbn.
  - rewrite filter_none; [done|]. apply Forall_forall. intros e _. by apply not_elem_of_nil.
  - rewrite IH, <-filter_split by done. apply Permutation_app_tail. unfold group. apply merge_sort_Permutation.
Qed.

Lemma bind_fmap {A B C} (f : A -> list B) (g : B -> C) xs : g <$> (xs ≫= f) = xs ≫= fun x => g <$> f x.
Proof. induction xs as [|x xs IH]; [done|]. cbn. by rewrite fmap_app, IH. Qed.

Lemma bind_ext_in {A B} (f g : A -> list B) xs : (forall x, x ∈ xs -> f x = g x) -> xs ≫= f = xs ≫= g.
Proof.
  induction xs as [|x xs IH]; intros Hx; [done|]. cbn. rewrite (Hx x) by by left. f_equal. apply IH. intros y Hy. apply Hx. by right.
Qed.

Section resolved.
Context `{TomlText} (fs : FileSystem).

Lemma elem_of_materialise cat dir entries s a : a ∈ materialise cat dir entries s <->
  exists m e, cat !! s = Some m /\ e ∈ entries /\ he_slug e = s /\
    a = mkActive s (he_instance e) (dir ++ [s]) (config_path_of e) m.
Proof using Type.
  unfold materialise. destruct (cat !! s) as [m|].
  - rewrite list_elem_of_fmap. setoid_rewrite elem_of_group. naive_solver.
  - rewrite elem_of_nil. naive_solver.
Qed.

Lemma materialise_slug cat dir entries s a : a ∈ materialise cat dir entries s -> am_slug a = s /\ cat !! s = Some (am_manifest a).
Proof using Type. intros (m & e & Hm & _ & _ & ->)%elem_of_materialise. done. Qed.

Lemma materialise_nonempty cat dir entries s : s ∈ he_slug <$> entries -> is_Some (cat !! s) -> exists a, a ∈ materialise cat dir entries s.
Proof using Type.
  intros (e & -> & He)%list_elem_of_fmap [m Hm]. exists (mkActive (he_slug e) (he_instance e) (dir ++ [he_slug e]) (config_path_of e) m).
  apply elem_of_materialise. eauto 8.
Qed.

Lemma materialised_order cat dir entries order :
  (forall s, s ∈ he_slug <$> entries -> is_Some (cat !! s)) -> NoDup order -> (forall s, s ∈ order <-> s ∈ he_slug <$> entries) ->
  deps_first (deps_of cat) (he_slug <$> entries) order ->
  (forall s m d, s ∈ he_slug <$> entries -> cat !! s = Some m -> d ∈ mf_depends_on m -> d ∈ he_slug <$> entries) ->
  dependency_order (order ≫= materialise cat dir entries).
Proof using Type.
  intros Hk Hn Hord Hf Hd l1 a l2 Heq d Hin.
  apply bind_split in Heq as (o1 & s & o2 & b1 & b2 & -> & Hs & -> & ->).
  assert (Ha : a ∈ materialise cat dir entries s) by (rewrite Hs; set_solver).
  destruct (materialise_slug _ _ _ _ _ Ha) as [Hslug Hcat].
  assert (Hso : s ∈ he_slug <$> entries) by (apply Hord; set_solver).
  assert (Hda : d ∈ he_slug <$> entries) by by eapply Hd.
  assert (Hdo : d ∈ o1). { apply (Hf o1 s o2 eq_refl d Hda). unfold deps_of. by rewrite Hcat. }
  apply NoDup_app in Hn as (_ & Hn & [Hs2 _]%NoDup_cons).
  split.
  - destruct (materialise_nonempty cat dir entries d Hda (Hk d Hda)) as [b Hb]. exists b. split; [|by eapply materialise_slug].
    rewrite elem_of_app. left. apply list_elem_of_bind. eauto.
  - intros b Hb Hbd. assert (Hbs : am_slug b = s \/ am_slug b ∈ o2).
    { apply elem_of_cons in Hb as [->|Hb]; [by left|]. apply elem_of_app in Hb as [Hb|Hb].
      - left. eapply materialise_slug. rewrite Hs. set_solver.
      - right. apply list_elem_of_bind in Hb as (s' & Hb & Hs'). apply materialise_slug in Hb as [-> _]. done. }
    apply (Hn d Hdo). rewrite <-Hbd, elem_of_cons. naive_solver.
Qed.

Lemma materialised_perm cat dir entries order :
  (forall s, s ∈ he_slug <$> entries -> is_Some (cat !! s)) -> NoDup order -> (forall s, s ∈ order <-> s ∈ he_slug <$> entries) ->
  (fun a => (am_slug a, am_instance a, am_config_path a)) <$> (order ≫= materialise cat dir entries) ≡ₚ
  (fun e => (he_slug e, he_instance e, config_path_of e)) <$> entries.
Proof using Type.
  intros Hk Hn Hord. rewrite bind_fmap.
  rewrite (bind_ext_in _ (fun s => (fun e => (he_slug e, he_instance e, config_path_of e)) <$> group entries s)).
  - rewrite <-bind_fmap. apply fmap_Permutation. rewrite groups_filter by done. rewrite filter_all; [done|].
    apply Forall_forall. intros e He. apply Hord. by apply list_elem_of_fmap_2.
  - intros s Hs. destruct (Hk s) as [m Hm]; [by apply Hord|]. unfold materialise. rewrite Hm, <-list_fmap_compose.
    apply list_fmap_ext. intros i e He%list_elem_of_lookup_2. apply elem_of_group in He as [_ <-]. done.
Qed.

Lemma resolved_facts host dir catalog out : resolve_active fs host dir catalog = Ok out ->
  exists entries, parse_entries host = Ok entries /\ admissible fs (by_slug catalog) entries /\
    (fun a => (am_slug a, am_instance a, am_config_path a)) <$> out ≡ₚ
      (fun e => (he_slug e, he_instance e, config_path_of e)) <$> entries /\
    Forall (fun a => by_slug catalog !! am_slug a = Some (am_manifest a) /\ am_module_root a = dir ++ [am_slug a]) out /\
    dependency_order out.
Proof using Type.
  intros E. assert (Hok : is_ok (resolve_active fs host dir catalog) = true) by by rewrite E.
  apply resolve_active_ok in Hok as (entries & Hp & Had). apply resolve_active_inv in E as (entries' & order & Hp' & Hk & _ & Ho & ->).
  assert (entries' = entries) as -> by congruence. exists entries. destruct Had as [Hk' H1 H2 H3 Ha] eqn:Eq. clear Eq.
  destruct (slug_order_ok (by_slug catalog) (group_keys entries) (NoDup_group_keys entries)
    (fun s Hs => Hk s (proj1 (elem_of_group_keys entries s) Hs)) (dep_phase _ _ H3) order Ho) as [Hperm Hfirst].
  assert (Hn : NoDup order) by (rewrite Hperm; apply NoDup_group_keys).
  assert (Hord : forall s, s ∈ order <-> s ∈ he_slug <$> entries) by (intros s; by rewrite Hperm, elem_of_group_keys).
  split; [done|]. split; [by constructor|]. split; [by apply materialised_perm|]. split.
  - apply Forall_forall. intros a (s & (m & e & Hm & _ & _ & ->)%elem_of_materialise & _)%list_elem_of_bind. done.
  - apply materialised_order; [done|done|done| |by intros s m d Hs Hm Hd; eapply H3].
    eapply deps_first_ext; [|exact Hfirst]. intros d. apply elem_of_group_keys.
Qed.

(** C18: Resolution, exactly. A host configuration is accepted when and only when its keys
    parse, every module is in the catalog and used the way its manifest and profiles
    allow, no module conflicts with another, all dependencies are active and in no later
    phase, and the dependencies form no cycle; what is returned is then one entry for each
    key, with the manifest of the catalog, in an order in which everything a module
    depends on is completely before it. *)
Theorem modules_resolved_exact host dir catalog :
  (is_ok (resolve_active fs host dir catalog) = true <->
   exists entries, parse_entries host = Ok entries /\ admissible fs (by_slug catalog) entries) /\
  forall out, resolve_active fs host dir catalog = Ok out ->
    exists entries, parse_entries host = Ok entries /\
      (fun a => (am_slug a, am_instance a, am_config_path a)) <$> out ≡ₚ
        (fun e => (he_slug e, he_instance e, config_path_of e)) <$> entries /\
      Forall (fun a => by_slug catalog !! am_slug a = Some (am_manifest a) /\ am_module_root a = dir ++ [am_slug a]) out /\
      dependency_order out.
Proof using Type.
  split; [apply resolve_active_ok|]. intros out E. destruct (resolved_facts _ _ _ _ E) as (entries & ? & _ & ? & ? & ?). eauto.
Qed.
End resolved.

(** ** The gates *)

Section gates.
Context `{Minisign} (fs : FileSystem).

(** The manifest that lies in the module's directory is signed under a key of the trust
    root. *)
Definition manifest_signed (am : ActiveModule) (trust_root : path) : Prop :=
  exists verifiers v bytes, load_trust_roots fs trust_root = Ok verifiers /\ v ∈ verifiers /\
    signed_under fs (vf_public_key v) (am_module_root am ++ ["module.toml"]) bytes.

Lemma try_keys_ok p vs tried last : try_keys fs p vs tried last = Ok tt ->
  exists v bytes, v ∈ vs /\ signed_under fs (vf_public_key v) p bytes.
Proof using Type.
  revert last. induction vs as [|v vs IH]; intros last; simpl; [done|].
  destruct (verify_detached_file fs v p) as [[]|e] eqn:E.
  - intros _. apply verify_detached_file_ok in E as [bytes Hb]. exists v, bytes. split; [by left|done].
  - intros (v' & bytes & Hv & Hb)%IH. exists v', bytes. split; [by right|done].
Qed.

Lemma verify_module_signing_ok am spec : verify_module_signing fs am = Ok tt -> mf_signing (am_manifest am) = Some spec ->
  sp_required spec = true -> manifest_signed am (default policy_pub (sp_trust_root spec)).
Proof using Type.
  unfold verify_module_signing. intros Hv Hs Hr. rewrite Hs, Hr in Hv. simpl in Hv.
  destruct (load_trust_roots fs _) as [[|v0 vs]|] eqn:El; [done| |done]. cbn [result_bind] in Hv.
  apply try_keys_ok in Hv as (v & bytes & Hin & Hb). exists (v0 :: vs), v, bytes. done.
Qed.

Lemma signing_gate_spec (live : LiveFs) active :
  (apply_signing_gate live active).1 = filter (fun am => is_ok (verify_module_live live am) = true) active /\
  ((apply_signing_gate live active).2 = [] <-> forall am, am ∈ active -> verify_module_live live am = Ok tt).
Proof using Type.
  induction active as [|am active [IH1 IH2]]; simpl.
  { split; [done|]. split; [|done]. by intros _ am ?%elem_of_nil. }
  destruct (apply_signing_gate live active) as [kept failed]. simpl in IH1, IH2.
  destruct (verify_module_live live am) as [[]|e] eqn:E; simpl.
  - rewrite filter_cons_True by (by rewrite E). split; [by rewrite IH1|]. rewrite IH2. setoid_rewrite elem_of_cons. naive_solver.
  - rewrite filter_cons_False by (by rewrite E). split; [done|]. split; [done|]. intros Hall.
    assert (Hx : verify_module_live live am = Ok tt) by (apply Hall; by left). congruence.
Qed.

(** The gate looks at the manifest, its signature and the trust root, and at nothing
    else: two hosts that agree on these give the same answer, whatever the scripts that
    would run contain. *)
Theorem signing_covers_manifest_only fs' am :
  let manifest := am_module_root am ++ ["module.toml"] in
  let root := default policy_pub (mf_signing (am_manifest am) ≫= sp_trust_root) in
  (forall p, p = manifest \/ p = signature_path_for manifest \/ p = root \/ (exists name, p = root ++ [name]) ->
    fs_tree fs p = fs_tree fs' p /\ fs_read fs p = fs_read fs' p /\ fs_read_to_string fs p = fs_read_to_string fs' p) ->
  verify_module_signing fs am = verify_module_signing fs' am.
Proof using Type.
  cbv zeta. intros Hagree. unfold verify_module_signing. destruct (mf_signing (am_manifest am)) as [spec|]; [|done]. simpl in Hagree.
  destruct (sp_required spec); [|done]. simpl. set (root := default policy_pub (sp_trust_root spec)) in *.
  assert (Hv : forall p, p = root \/ (exists name, p = root ++ [name]) -> verifier_load fs p = verifier_load fs' p).
  { intros p Hp. unfold verifier_load. destruct (Hagree p) as (_ & _ & ->); [tauto|done]. }
  assert (Hroots : load_trust_roots fs root = load_trust_roots fs' root).
  { unfold load_trust_roots. destruct (Hagree root) as (-> & _ & _); [tauto|]. destruct (fs_tree fs' root) as [[|entries err]|]; [|f_equal|done].
    - rewrite Hv by tauto. done.
    - apply list_omap_ext, Forall2_same_length_lookup_2; [done|]. intros i name name' Hn Hn'. assert (name' = name) as -> by congruence. 
      rewrite Hv by eauto. done. }
  rewrite Hroots. destruct (load_trust_roots fs' root) as [[|v vs]|]; [done| |done]. cbn [result_bind].
  assert (Hd : forall w, verify_detached_file fs w (am_module_root am ++ ["module.toml"]) = verify_detached_file fs' w (am_module_root am ++ ["module.toml"])).
  { intros w. unfold verify_detached_file. cbv zeta. unfold fs_exists.
    destruct (Hagree (am_module_root am ++ ["module.toml"])) as (_ & -> & _); [tauto|].
    destruct (Hagree (signature_path_for (am_module_root am ++ ["module.toml"]))) as (-> & _ & ->); [tauto|done]. }
  clear Hroots. generalize (length (v :: vs)) (@None (path * SigningError)). induction (v :: vs) as [|w ws IH]; intros n last; [done|].
  cbn [try_keys]. rewrite Hd. destruct (verify_detached_file fs' w _); [done|]. apply IH.
Qed.
End gates.

Section daemon.
Context `{TomlText} (fs : FileSystem).

(** A requirement with its substitutions is met by the daemon's configuration. *)
Definition requirement_met (am : ActiveModule) (daemon_cfg : toml) (key : string) (raw : DaemonRequirement) : Prop :=
  exists expected, expand_substitution raw (module_config fs am) = Ok expected /\
    check_requirement (lookup_dotted daemon_cfg key) expected = true.

Lemma unmet_of_nil am daemon_cfg reqs : unmet_of (am_slug am) (module_config fs am) daemon_cfg reqs = Ok [] <->
  forall key raw, (key, raw) ∈ reqs -> requirement_met am daemon_cfg key raw.
Proof using Type.
  induction reqs as [|[key raw] reqs IH]; simpl.
  { split; [|done]. by intros _ key raw ?%elem_of_nil. }
  setoid_rewrite elem_of_cons. unfold requirement_met in *.
  destruct (expand_substitution raw _) as [expected|e] eqn:Ee.
  - destruct (unmet_of _ _ _ reqs) as [rest|]; simpl; [|naive_solver].
    destruct (check_requirement _ expected) eqn:Ec; [naive_solver|]. split; [done|]. intros Hall.
    destruct (Hall key raw) as (x & Hx & Hc); [by left|]. congruence.
  - split; [done|]. intros Hall. destruct (Hall key raw) as (x & Hx & _); [by left|]. congruence.
Qed.

Lemma check_daemon_requires_nil active daemon_cfg : check_daemon_requires fs active daemon_cfg = Ok [] <->
  forall am, am ∈ active -> forall key raw, (key, raw) ∈ mf_daemon_requires (am_manifest am) -> requirement_met am daemon_cfg key raw.
Proof using Type.
  induction active as [|am active IH]; simpl.
  { split; [|done]. by intros _ am ?%elem_of_nil. }
  setoid_rewrite elem_of_cons. pose proof (unmet_of_nil am daemon_cfg (mf_daemon_requires (am_manifest am))) as Hu.
  destruct (unmet_of _ _ _ _) as [[|x missing]|e]; simpl.
  - destruct (check_daemon_requires fs active daemon_cfg) as [rest|]; simpl; naive_solver.
  - destruct (check_daemon_requires fs active daemon_cfg) as [rest|]; simpl; [|naive_solver]. split; [done|]. intros Hall.
    assert (Ok (x :: missing) = Ok [] :> result _ ModulesError); [|done]. apply Hu. naive_solver.
  - split; [done|]. intros Hall. assert (Err e = Ok [] :> result (list (string * DaemonRequirement)) _); [|done]. apply Hu. naive_solver.
Qed.

(** The substitution ends by itself: more rounds than the text has bytes change nothing. *)
Lemma find_split_length pat s a b : find_split pat s = Some (a, b) ->
  String.length a + String.length pat + String.length b = String.length s.
Proof using Type.
  revert a. induction s as [|c s IH]; intros a; cbn [find_split].
  - destruct (strip_prefix pat "") as [r|] eqn:E; [|done]. intros [= <- <-]. apply strip_prefix_Some, (f_equal String.length) in E.
    rewrite str_length_app in E. simpl in *. lia.
  - destruct (strip_prefix pat (String c s)) as [r|] eqn:E.
    + intros [= <- <-]. apply strip_prefix_Some, (f_equal String.length) in E.
    rewrite str_length_app in E. simpl in *. lia.
    + destruct (find_split pat s) as [[a' b']|]; [|done]. cbn. intros [= <- <-]. specialize (IH a' eq_refl). simpl. lia.
Qed.

Lemma expand_fuel f1 f2 host rest out : String.length rest <= f1 -> String.length rest <= f2 ->
  expand_one f1 host rest out = expand_one f2 host rest out.
Proof using Type.
  assert (Hnil : forall f out, expand_one f host "" out = Ok (out +:+ "")) by by intros [].
  revert f2 rest out. induction f1 as [|f1 IH]; intros f2 rest out H1 H2.
  - destruct rest; [|simpl in H1; lia]. by rewrite !Hnil.
  - destruct f2 as [|f2]; [destruct rest; [by rewrite !Hnil|simpl in H2; lia]|]. cbn [expand_one].
    destruct (find_split "${" rest) as [[a b]|] eqn:E; [|done]. apply find_split_length in E. simpl in E.
    destruct (split_once "}" b) as [[key r]|] eqn:Es; [|done]. apply split_once_Some in Es.
    destruct (_ ≫= toml_as_str); [|done]. apply IH; rewrite Es, str_length_app in E; simpl in E; lia.
Qed.
End daemon.

(** ** What a command runs *)

Definition ran (effs : list Effect) : list ActiveModule := omap (fun e => match e with RanScript a _ => Some a | _ => None end) effs.

Section lifecycle.
Context `{UnicodeTables} `{Minisign} `{TomlText} `{ModuleToml} `{StatusJson} `{PolicyYaml} (h : ModuleHost).

(** The script is the one the manifest declares for the action. *)
Definition declared (opts : LifecycleOpts) (action : ModuleAction.t) (a : ActiveModule) (r : ScriptRun) : Prop :=
  exists install rel, mf_install (am_manifest a) = Some install /\ ModuleAction.script_relpath action install = Some rel /\
    r = mkScriptRun (join_rel (am_module_root a) rel) (script_env a (lo_dry_run opts) (mh_module_lib h)).

Lemma run_one_declared opts action a answer r o :
  run_one a action (lo_dry_run opts) (mh_module_lib h) answer = (Some r, o) -> declared opts action a r.
Proof using Type.
  unfold run_one. destruct (mf_install (am_manifest a)) as [install|] eqn:Ei; [|done].
  destruct (ModuleAction.script_relpath action install) as [rel|] eqn:Er; [|done]. cbv zeta.
  destruct (sa_exists answer); [|done]. simpl. destruct (sa_output answer) as [out|]; [|done]. intros [= <- _]. exists install, rel. done.
Qed.

Lemma run_all_ran opts action policy i l :
  ran (run_all h opts action policy i l).1 `sublist_of` l /\
  forall e, e ∈ (run_all h opts action policy i l).1 -> exists a r, e = RanScript a r /\ declared opts action a r.
Proof using Type.
  revert i. induction l as [|a l IH]; intros i; simpl; [split; [done|by intros e ?%elem_of_nil]|].
  assert (Hone : forall x o, (if lp_tolerate_missing_script policy && negb (module_has_script a action)
      then (None, Ok (mkOutcome (am_slug a) (am_instance a) OutcomeStatus.Skipped ("no " +:+ ModuleAction.name action +:+ " script declared") ""))
      else run_one a action (lo_dry_run opts) (mh_module_lib h) (mh_answers h i)) = (x, o) ->
    forall r, x = Some r -> declared opts action a r).
  { intros x o Hx r ->. destruct (_ && _); [done|]. by eapply run_one_declared. }
  destruct (if _ && _ then _ else _) as [x o]. specialize (Hone x o eq_refl).
  specialize (IH (S i)). destruct (run_all h opts action policy (S i) l) as [effs rest]. simpl in IH. destruct IH as [IH1 IH2].
  assert (Hx : forall e, e ∈ (match x with Some r => [RanScript a r] | None => [] end) -> exists a' r, e = RanScript a' r /\ declared opts action a' r).
  { destruct x as [r|]; [|by intros e ?%elem_of_nil]. intros e ->%list_elem_of_singleton. eauto. }
  destruct o as [o|e]; simpl.
  - split.
    + unfold ran. rewrite omap_app. destruct x as [r|]; simpl; [by apply sublist_skip|by apply sublist_cons].
    + intros e [?|?]%elem_of_app; auto.
  - split; [|done]. destruct x as [r|]; simpl; [apply sublist_skip|]; apply sublist_nil_l.
Qed.

(** Either nothing ran, or the daemon's configuration was checked first. *)
Lemma run_selected_ran opts action policy active :
  ran (run_selected h opts action policy active).1 `sublist_of` active /\
  (forall e, e ∈ (run_selected h opts action policy active).1 -> exists a r, e = RanScript a r /\ declared opts action a r) /\
  ((run_selected h opts action policy active).1 <> [] -> gating action = true -> lo_ignore_daemon_requires opts = false ->
   exists daemon_cfg, load_daemon_config (mh_fs h) (default DAEMON_CONFIG (lo_daemon_config_path opts)) = Ok daemon_cfg /\
     forall am, am ∈ active -> forall key raw, (key, raw) ∈ mf_daemon_requires (am_manifest am) ->
       requirement_met (mh_fs h) am daemon_cfg key raw).
Proof using Type.
  set (scripts := match active with
    | [] => ([], Ok 0%Z)
    | _ => let '(effs, outcomes) := run_all h opts action policy 0 active in
           (effs, let? os := outcomes in Ok (if existsb (fun o => bool_decide (oc_status o = OutcomeStatus.Failed)) os then 1 else 0)%Z)
    end : list Effect * result Z ModulesError).
  assert (Hs : ran scripts.1 `sublist_of` active /\ forall e, e ∈ scripts.1 -> exists a r, e = RanScript a r /\ declared opts action a r).
  { pose proof (run_all_ran opts action policy 0 active) as Hr. unfold scripts. destruct active as [|a l]; [by split; [|intros e ?%elem_of_nil]|].
    by destruct (run_all h opts action policy 0 (a :: l)) as [effs os]. }
  assert (Hnil : ran [] `sublist_of` active /\ forall e, e ∈ ([] : list Effect) -> exists a r, e = RanScript a r /\ declared opts action a r).
  { split; [apply sublist_nil_l|by intros e ?%elem_of_nil]. }
  unfold run_selected. fold scripts. destruct (gating action && negb (lo_ignore_daemon_requires opts)) eqn:Eg.
  - destruct (load_daemon_config _ _) as [daemon_cfg|]; [|naive_solver].
    pose proof (check_daemon_requires_nil (mh_fs h) active daemon_cfg) as Hc.
    destruct (check_daemon_requires (mh_fs h) active daemon_cfg) as [[|x missing]|]; simpl; [|naive_solver..].
    split; [by destruct Hs|]. split; [by destruct Hs|]. intros _ _ _. exists daemon_cfg. split; [done|]. by apply Hc.
  - split; [by destruct Hs|]. split; [by destruct Hs|]. intros _ Hg Hi. by rewrite Hg, Hi in Eg.
Qed.

(** The modules whose hardware requirements the host meets, as far as they have any. *)
Lemma hardware_keeps_ok a : hardware_keeps (mh_caps h) a = true ->
  gated a = true -> exists caps, mh_caps h = Some caps /\ meets caps (mf_requires_hardware (am_manifest a)).
Proof using Type.
  unfold hardware_keeps. intros Hk Hg. rewrite Hg in Hk. simpl in Hk. destruct (mh_caps h) as [caps|]; [|done].
  exists caps. split; [done|]. by apply evaluate_resolved_ok.
Qed.

Lemma not_gated (l : list ActiveModule) a : existsb gated l = false -> a ∈ l -> gated a = false.
Proof using Type.
  intros Hg Ha. destruct (gated a) eqn:E; [|done]. assert (Hx : existsb gated l = true); [|congruence].
  apply existsb_exists. exists a. split; [by apply list_elem_of_In|done].
Qed.

(** The files as the signing gate finds them when it checks a module. *)
Definition gate_fs (a : ActiveModule) : FileSystem := lf_check (mh_fs h) (am_module_root a ++ ["module.toml"]).

(** What must hold before a script may run. *)
Record vetted (opts : LifecycleOpts) (a : ActiveModule) : Prop := {
  ve_signed : forall spec, mf_signing (am_manifest a) = Some spec -> sp_required spec = true ->
    manifest_signed (gate_fs a) a (default policy_pub (sp_trust_root spec));
  ve_hardware : lo_ignore_hardware opts = false -> gated a = true ->
    exists caps, mh_caps h = Some caps /\ meets caps (mf_requires_hardware (am_manifest a));
  ve_daemon : lo_ignore_daemon_requires opts = false -> exists daemon_cfg,
    load_daemon_config (mh_fs h) (default DAEMON_CONFIG (lo_daemon_config_path opts)) = Ok daemon_cfg /\
    forall key raw, (key, raw) ∈ mf_daemon_requires (am_manifest a) -> requirement_met (mh_fs h) a daemon_cfg key raw;
}.

Lemma elem_of_ran effs a : a ∈ ran effs <-> exists r, RanScript a r ∈ effs.
Proof using Type.
  unfold ran. rewrite list_elem_of_omap. split.
  - intros ([] & ? & ?); simplify_eq. eauto.
  - intros [r Hr]. by exists (RanScript a r).
Qed.

(** The part after the signing gate, for the modules it left. *)
Definition after_signing (opts : LifecycleOpts) (action : ModuleAction.t) (policy : LifecyclePolicy) (active : list ActiveModule) :
    list Effect * result Z ModulesError :=
  if gating action && negb (lo_ignore_hardware opts) && existsb gated active then
    let kept := apply_hardware_gate (mh_caps h) active in
    if lo_strict_hardware opts && (length kept <? length active)
    then (if mh_audit h then [AuditStrictHardware (strict_names h opts kept)] else [], Ok 1%Z)
    else run_selected h opts action policy kept
  else if lo_ignore_hardware opts && existsb gated active then
    let '(effs, r) := run_selected h opts action policy active in
    ((if mh_audit h then [AuditIgnoreHardware (display_name <$> filter (fun a => gated a = true) active)] else []) ++ effs, r)
  else run_selected h opts action policy active.

Lemma after_signing_ran opts action policy active :
  ran (after_signing opts action policy active).1 `sublist_of` active /\
  forall a r, RanScript a r ∈ (after_signing opts action policy active).1 -> declared opts action a r /\
    (gating action = true -> (lo_ignore_hardware opts = false -> gated a = true ->
        exists caps, mh_caps h = Some caps /\ meets caps (mf_requires_hardware (am_manifest a))) /\
      (lo_ignore_daemon_requires opts = false -> exists daemon_cfg,
        load_daemon_config (mh_fs h) (default DAEMON_CONFIG (lo_daemon_config_path opts)) = Ok daemon_cfg /\
        forall key raw, (key, raw) ∈ mf_daemon_requires (am_manifest a) -> requirement_met (mh_fs h) a daemon_cfg key raw)).
Proof using Type.
  assert (Hrun : forall l, (gating action = true -> lo_ignore_hardware opts = false -> forall a, a ∈ l -> gated a = true ->
      exists caps, mh_caps h = Some caps /\ meets caps (mf_requires_hardware (am_manifest a))) ->
    forall a r, RanScript a r ∈ (run_selected h opts action policy l).1 -> declared opts action a r /\
    (gating action = true -> (lo_ignore_hardware opts = false -> gated a = true ->
        exists caps, mh_caps h = Some caps /\ meets caps (mf_requires_hardware (am_manifest a))) /\
      (lo_ignore_daemon_requires opts = false -> exists daemon_cfg,
        load_daemon_config (mh_fs h) (default DAEMON_CONFIG (lo_daemon_config_path opts)) = Ok daemon_cfg /\
        forall key raw, (key, raw) ∈ mf_daemon_requires (am_manifest a) -> requirement_met (mh_fs h) a daemon_cfg key raw))).
  { intros l Hhw a r Hin. destruct (run_selected_ran opts action policy l) as (Hsub & Hdec & Hdae).
    assert (Hal : a ∈ l) by (eapply elem_of_sublist; [|exact Hsub]; apply elem_of_ran; eauto).
    split. { destruct (Hdec _ Hin) as (a' & r' & [= <- <-] & Hd). done. }
    intros Hg. split; [by intros Hi; apply Hhw|]. intros Hi. destruct Hdae as (cfg & ? & Hall); [|done|done|eauto].
    intros Hn. rewrite Hn in Hin. by apply elem_of_nil in Hin. }
  unfold after_signing. destruct (gating action && negb (lo_ignore_hardware opts) && existsb gated active) eqn:Eg; cbv zeta.
  - destruct (lo_strict_hardware opts && _).
    + destruct (mh_audit h); simpl; (split; [apply sublist_nil_l|]); intros a r; [by intros ?%list_elem_of_singleton|by intros ?%elem_of_nil].
    + split; [etransitivity; [apply run_selected_ran|apply sublist_filter]|].
      apply Hrun. intros _ _ a [Hk _]%list_elem_of_filter. by apply hardware_keeps_ok.
  - destruct (lo_ignore_hardware opts && existsb gated active) eqn:Ei.
    + apply andb_true_iff in Ei as [Ei _]. pose proof (Hrun active) as Hr.
      destruct (run_selected_ran opts action policy active) as (Hsub & _ & _).
      destruct (run_selected h opts action policy active) as [effs res]. simpl in *. split.
      * unfold ran. rewrite omap_app. by destruct (mh_audit h).
      * intros a r [Ha|Ha]%elem_of_app; [|apply Hr; [congruence|done]].
        destruct (mh_audit h); [by apply list_elem_of_singleton in Ha|by apply elem_of_nil in Ha].
    + split; [apply run_selected_ran|]. apply Hrun. intros Hg Hi a Ha Hga. rewrite Hg, Hi in Eg. simpl in Eg.
      by rewrite (not_gated _ _ Eg Ha) in Hga.
Qed.

Lemma elem_of_rev {A} (l : list A) x : x ∈ rev l <-> x ∈ l.
Proof using Type. by rewrite !list_elem_of_In, <-in_rev. Qed.

Lemma rev_sublist {A} (l k : list A) : l `sublist_of` k -> rev l `sublist_of` rev k.
Proof using Type.
  induction 1 as [|x l k _ IH|x l k _ IH]; simpl; [done|by apply sublist_app|]. etransitivity; [exact IH|]. by apply sublist_inserts_r.
Qed.

Lemma run_lifecycle_unfold opts action policy active : prepare h opts = Ok active ->
  let l := if lp_reverse_order policy then rev active else active in
  run_lifecycle h opts action policy =
    if gating action then
      let '(kept, failed) := apply_signing_gate (mh_fs h) l in
      if negb (match failed with [] => true | _ => false end) && is_apply_action action then ([], Ok 1%Z)
      else after_signing opts action policy kept
    else after_signing opts action policy l.
Proof using Type.
  intros Hp. cbv zeta. unfold run_lifecycle. rewrite Hp. cbv beta iota zeta. destruct (gating action) eqn:Eg.
  - destruct (apply_signing_gate (mh_fs h) _) as [kept failed]. unfold after_signing. by rewrite Eg.
  - unfold after_signing. by rewrite Eg.
Qed.

(** What a command runs comes from its selection, in the selection's order; when the command
    is gated each module it runs passed every gate, and when it applies no module of
    the selection failed the signing gate. *)
Lemma run_lifecycle_ran opts action policy active : prepare h opts = Ok active ->
  ran (run_lifecycle h opts action policy).1 `sublist_of` (if lp_reverse_order policy then rev active else active) /\
  forall a r, RanScript a r ∈ (run_lifecycle h opts action policy).1 -> declared opts action a r /\
    (gating action = true -> vetted opts a) /\
    (is_apply_action action = true -> forall b, b ∈ active -> verify_module_live (mh_fs h) b = Ok tt).
Proof using Type.
  intros Hp. rewrite (run_lifecycle_unfold _ _ _ _ Hp). set (l := if lp_reverse_order policy then rev active else active).
  assert (Hl : forall b, b ∈ active -> b ∈ l) by (intros b Hb; unfold l; destruct (lp_reverse_order policy); [by rewrite elem_of_rev|done]).
  destruct (gating action) eqn:Eg.
  - pose proof (signing_gate_spec (mh_fs h) l) as [Hk Hf]. destruct (apply_signing_gate (mh_fs h) l) as [kept failed]. simpl in Hk, Hf.
    destruct (negb _ && is_apply_action action) eqn:Ef.
    { split; [apply sublist_nil_l|]. by intros a r ?%elem_of_nil. }
    destruct (after_signing_ran opts action policy kept) as [Hsub Hran].
    split; [etransitivity; [exact Hsub|rewrite Hk; apply sublist_filter]|]. intros a r Hin.
    destruct (Hran a r Hin) as [Hd Hg]. destruct (Hg Eg) as [Hhw Hda]. split; [done|]. split.
    + intros _. constructor; [|done|done]. intros spec Hs Hr. eapply verify_module_signing_ok; [|done|done].
      assert (Ha : a ∈ kept) by (eapply elem_of_sublist; [|exact Hsub]; apply elem_of_ran; eauto).
      rewrite Hk in Ha. apply list_elem_of_filter in Ha as [Ha _]. change (verify_module_live (mh_fs h) a = Ok tt). by destruct (verify_module_live _ a) as [[]|].
    + intros Hap b Hb. rewrite Hap in Ef. destruct failed; [|done]. by apply Hf; [|apply Hl].
  - destruct (after_signing_ran opts action policy l) as [Hsub Hran]. split; [done|]. intros a r Hin.
    destruct (Hran a r Hin) as [Hd _]. split; [done|]. split; [done|]. by destruct action.
Qed.

Lemma prepare_order opts active : prepare h opts = Ok active -> exists resolved, dependency_order resolved /\
  active = filter_active resolved (lo_only opts) (lo_except opts).
Proof using Type.
  unfold prepare. cbv zeta. destruct (load_all _ _) as [catalog|]; [|done]. cbn [result_bind].
  destruct (load_host_config _ _) as [host|]; [|done]. cbn [result_bind].
  destruct (resolve_active _ _ _ _) as [resolved|] eqn:E; [|done]. cbn [result_bind]. intros [= <-].
  apply resolved_facts in E as (_ & _ & _ & _ & _ & Ho). eauto.
Qed.

(** *** Order *)

(** No module is listed before one it depends on. *)
Definition deps_never_later (l : list ActiveModule) : Prop :=
  forall l1 a l2, l = l1 ++ a :: l2 -> forall b, b ∈ a :: l2 -> am_slug b ∉ mf_depends_on (am_manifest a).

Lemma deps_never_later_sub l k : l `sublist_of` k -> deps_never_later k -> deps_never_later l.
Proof using Type.
  intros Hs Hk l1 a l2 -> b Hb. apply sublist_app_l in Hs as (k1 & k2' & -> & _ & Hs).
  apply sublist_cons_l in Hs as (k2 & k3 & -> & Hs). rewrite app_assoc in Hk. apply (Hk _ a k3 eq_refl).
  apply elem_of_cons in Hb as [->|Hb]; [by left|]. right. by eapply elem_of_sublist.
Qed.

Lemma prepare_never_later opts active : prepare h opts = Ok active -> deps_never_later active.
Proof using Type.
  intros (resolved & Ho & ->)%prepare_order. eapply deps_never_later_sub; [apply sublist_filter|].
  intros l1 a l2 -> b Hb Hd. destruct (Ho l1 a l2 eq_refl _ Hd) as [_ Hno]. by apply (Hno b).
Qed.

(** *** Nothing stops a command that passes its gates *)

(** The [j]-th module's script starts and reports the [j]-th outcome. *)
Definition reports (opts : LifecycleOpts) (action : ModuleAction.t) (i : nat) (l : list ActiveModule) (os : list Outcome) : Prop :=
  length l = length os /\ forall j a o, l !! j = Some a -> os !! j = Some o ->
    exists r, run_one a action (lo_dry_run opts) (mh_module_lib h) (mh_answers h (i + j)) = (Some r, Ok o).

Lemma run_all_complete opts action policy i l os : lp_tolerate_missing_script policy = false -> reports opts action i l os ->
  ran (run_all h opts action policy i l).1 = l /\ (run_all h opts action policy i l).2 = Ok os.
Proof using Type.
  intros Ht. revert i os. induction l as [|a l IH]; intros i os [Hlen Hf]; destruct os as [|o os]; try done.
  destruct (Hf 0 a o eq_refl eq_refl) as [r Hr]. rewrite Nat.add_0_r in Hr.
  cbn [run_all]. rewrite Ht. cbn [andb]. rewrite Hr.
  destruct (IH (S i) os) as [Hl Ho].
  { split; [by injection Hlen|]. intros j b p Hb Hp. destruct (Hf (S j) b p Hb Hp) as [r' Hr']. rewrite Nat.add_succ_r in Hr'. eauto. }
  destruct (run_all h opts action policy (S i) l) as [effs rest]. simpl in Hl, Ho |- *. rewrite Ho. split; [|done]. by rewrite Hl.
Qed.

(** The daemon's configuration meets what the modules of a list require of it. *)
Definition daemon_ready (opts : LifecycleOpts) (l : list ActiveModule) : Prop :=
  lo_ignore_daemon_requires opts = true \/
  exists daemon_cfg, load_daemon_config (mh_fs h) (default DAEMON_CONFIG (lo_daemon_config_path opts)) = Ok daemon_cfg /\
    forall a, a ∈ l -> forall key raw, (key, raw) ∈ mf_daemon_requires (am_manifest a) -> requirement_met (mh_fs h) a daemon_cfg key raw.

Lemma run_selected_complete opts action policy l os : lp_tolerate_missing_script policy = false -> daemon_ready opts l ->
  reports opts action 0 l os ->
  ran (run_selected h opts action policy l).1 = l /\
  (run_selected h opts action policy l).2 =
    Ok (if existsb (fun o => bool_decide (oc_status o = OutcomeStatus.Failed)) os then 1 else 0)%Z.
Proof using Type.
  intros Ht Hd Hr. destruct (run_all_complete opts action policy 0 l os Ht Hr) as [Hl Ho].
  assert (Hs : gating action && negb (lo_ignore_daemon_requires opts) = false \/
    (exists cfg, load_daemon_config (mh_fs h) (default DAEMON_CONFIG (lo_daemon_config_path opts)) = Ok cfg /\
      check_daemon_requires (mh_fs h) l cfg = Ok [])).
  { destruct Hd as [Hd|(cfg & Hc & Hall)]; [left; rewrite Hd; by destruct (gating action)|].
    right. exists cfg. split; [done|by apply check_daemon_requires_nil]. }
  unfold run_selected.
  assert (Hrun : (match l with
      | [] => ([], Ok 0%Z)
      | _ => let '(effs, outcomes) := run_all h opts action policy 0 l in
             (effs, let? os := outcomes in Ok (if existsb (fun o => bool_decide (oc_status o = OutcomeStatus.Failed)) os then 1 else 0)%Z)
      end : list Effect * result Z ModulesError) =
      ((run_all h opts action policy 0 l).1, Ok (if existsb (fun o => bool_decide (oc_status o = OutcomeStatus.Failed)) os then 1 else 0)%Z)).
  { destruct l as [|a l]; [destruct os; [done|by destruct Hr]|]. destruct (run_all h opts action policy 0 (a :: l)) as [effs rest].
    simpl in Ho. by rewrite Ho. }
  cbv zeta. rewrite Hrun. destruct Hs as [->|(cfg & -> & Hc)]; [done|]. destruct (gating action && _); [rewrite Hc|]; done.
Qed.

Lemma after_signing_complete opts policy l os : lp_tolerate_missing_script policy = false ->
  lo_ignore_hardware opts = true \/ (forall a, a ∈ l -> hardware_keeps (mh_caps h) a = true) ->
  daemon_ready opts l -> reports opts ModuleAction.Apply 0 l os ->
  ran (after_signing opts ModuleAction.Apply policy l).1 = l /\
  (after_signing opts ModuleAction.Apply policy l).2 =
    Ok (if existsb (fun o => bool_decide (oc_status o = OutcomeStatus.Failed)) os then 1 else 0)%Z.
Proof using Type.
  intros Ht Hh Hd Hr. pose proof (run_selected_complete opts ModuleAction.Apply policy l os Ht Hd Hr) as Hrun.
  unfold after_signing. cbn [gating andb]. destruct (lo_ignore_hardware opts) eqn:Ei; cbn [negb andb].
  - destruct (existsb gated l); [|done]. destruct (run_selected h opts ModuleAction.Apply policy l) as [effs res].
    split; [|by destruct Hrun]. simpl in *. unfold ran. rewrite omap_app. destruct Hrun as [Hrun _]. by destruct (mh_audit h).
  - destruct Hh as [?|Hh]; [done|]. destruct (existsb gated l); [|done]. cbv zeta. unfold apply_hardware_gate.
    rewrite filter_all by by apply Forall_forall. rewrite Nat.ltb_irrefl, andb_false_r. done.
Qed.

Lemma cmd_apply_unfold opts : pre_apply_perimeter_check (mh_fs h) (mh_dir_of h)
    (match lo_daemon_config_path opts with Some _ => mh_daemon_config h | None => None end) = 0%Z ->
  cmd_apply h opts = run_lifecycle h opts ModuleAction.Apply policy_default.
Proof using Type. intros Hp. unfold cmd_apply. cbv zeta. by rewrite Hp. Qed.

Lemma cmd_apply_ran opts a r : RanScript a r ∈ (cmd_apply h opts).1 ->
  pre_apply_perimeter_check (mh_fs h) (mh_dir_of h)
    (match lo_daemon_config_path opts with Some _ => mh_daemon_config h | None => None end) = 0%Z.
Proof using Type.
  unfold cmd_apply. cbv zeta. destruct (_ =? 0)%Z eqn:E; [by intros _; apply Z.eqb_eq|]. by intros ?%elem_of_nil.
Qed.

Lemma run_lifecycle_prepared opts action policy : (run_lifecycle h opts action policy).1 <> [] -> exists active, prepare h opts = Ok active.
Proof using Type. unfold run_lifecycle. destruct (prepare h opts) as [active|]; [eauto|done]. Qed.

(** *** The properties *)

(** What the overlap check demands: whenever the operator names a daemon configuration
    that loads, it asks for the check and does not reduce it to warnings, and the policies
    can be read, no two policies share a name, none of selfdef's own asserts host-wide on
    a fenced call, and under the stance block none of a third party does. *)
Definition perimeter_clear (opts : LifecycleOpts) : Prop :=
  forall cfg policies, lo_daemon_config_path opts <> None -> mh_daemon_config h = Some (Ok cfg) ->
    resolve_perimeter_check_overlap cfg = true -> cper_overlap_warn_only (cfg_perimeter cfg) = false ->
    read_policies_dir (mh_fs h) (mh_dir_of h (cper_policies_dir (cfg_perimeter cfg))) = Ok policies ->
    (forall i j p q, policies !! i = Some p -> policies !! j = Some q -> ps_metadata_name p = ps_metadata_name q ->
      ps_metadata_name p = "" \/ i = j) /\
    (forall p, p ∈ policies -> ps_author p = "selfdef" -> ~ host_wide p) /\
    (cper_third_party_policy_stance (cfg_perimeter cfg) = "block" ->
      forall p, p ∈ policies -> ps_author p = "third-party" -> ~ host_wide p).

Lemma share_name_lookup (policies : list PolicySummary) i j p q : policies !! i = Some p -> policies !! j = Some q -> i < j ->
  ps_metadata_name p = ps_metadata_name q -> ps_metadata_name p <> "" -> share_name policies.
Proof using Type.
  intros Hi Hj Hlt Heq Hne. exists (ps_metadata_name p). split; [done|].
  rewrite <-(take_drop_middle policies i p Hi), filter_app, filter_cons_True, length_app by done. cbn [length].
  assert (Hq : q ∈ filter (fun p' => ps_metadata_name p' = ps_metadata_name p) (drop (S i) policies)).
  { apply list_elem_of_filter. split; [done|]. apply list_elem_of_lookup. exists (j - S i). rewrite lookup_drop.
    rewrite <-Hj. f_equal. lia. }
  apply list_elem_of_lookup in Hq as [k Hk%lookup_lt_Some]. lia.
Qed.

Lemma pre_apply_clear opts : pre_apply_perimeter_check (mh_fs h) (mh_dir_of h)
    (match lo_daemon_config_path opts with Some _ => mh_daemon_config h | None => None end) = 0%Z ->
  perimeter_clear opts.
Proof using Type.
  intros Hpre cfg policies Hopt Hcfg Hon Hwarn Hread. destruct (lo_daemon_config_path opts) as [cfg_path|]; [|done]. rewrite Hcfg in Hpre.
  unfold pre_apply_perimeter_check in Hpre. rewrite Hon, Hread in Hpre. cbn [negb] in Hpre. cbv zeta in Hpre.
  pose proof (overlap_blocks_exact policies (cper_third_party_policy_stance (cfg_perimeter cfg))) as Hex.
  destruct (existsb finding_is_blocking _) eqn:Eb.
  { cbn [negb] in Hpre. rewrite Hwarn in Hpre. unfold overlap_exit in Hpre. rewrite Eb in Hpre. done. }
  assert (Hno : ~ (share_name policies \/ (exists p, p ∈ policies /\ ps_author p = "selfdef" /\ host_wide p) \/
    (cper_third_party_policy_stance (cfg_perimeter cfg) = "block" /\
     exists p, p ∈ policies /\ ps_author p = "third-party" /\ host_wide p))) by (rewrite <-Hex; done).
  split; [|split; naive_solver]. intros i j p q Hi Hj Heq.
  destruct (decide (ps_metadata_name p = "")) as [|Hne]; [by left|]. right.
  destruct (Nat.lt_trichotomy i j) as [Hlt|[?|Hlt]]; [exfalso|done|exfalso]; apply Hno; left.
  - by apply (share_name_lookup policies i j p q).
  - apply (share_name_lookup policies j i q p); congruence.
Qed.


Lemma run_lifecycle_never_later opts action policy :
  let l := ran (run_lifecycle h opts action policy).1 in deps_never_later (if lp_reverse_order policy then rev l else l).
Proof using Type.
  cbv zeta. destruct (decide ((run_lifecycle h opts action policy).1 = [])) as [->|Hne].
  { intros l1 a l2 Heq. destruct (lp_reverse_order policy); by destruct l1. }
  apply run_lifecycle_prepared in Hne as [active Ha]. destruct (run_lifecycle_ran opts action policy active Ha) as [Hsub _].
  apply (deps_never_later_sub _ active); [|by eapply prepare_never_later].
  destruct (lp_reverse_order policy); [|done]. rewrite <-(rev_involutive active). by apply rev_sublist.
Qed.

(** Apply and check never run a module before one it depends on; uninstall never takes a
    module down before one that depends on it. *)
Theorem lifecycle_order opts :
  deps_never_later (ran (cmd_apply h opts).1) /\
  deps_never_later (ran (cmd_check h opts).1) /\
  deps_never_later (rev (ran (cmd_uninstall h opts).1)).
Proof using Type.
  split; [|split].
  - unfold cmd_apply. cbv zeta. destruct (negb _); [intros l1 a l2 Heq; by destruct l1|]. apply (run_lifecycle_never_later opts ModuleAction.Apply policy_default).
  - apply (run_lifecycle_never_later _ ModuleAction.Check policy_default).
  - apply (run_lifecycle_never_later _ ModuleAction.Uninstall (mkPolicy true true)).
Qed.

(** An apply whose gates all pass runs every selected module in the order of its
    selection, whatever the scripts report: a failed module does not keep the later ones
    from running, and the exit code is 1 exactly when some module failed. *)
Theorem apply_complete opts active os : prepare h opts = Ok active ->
  pre_apply_perimeter_check (mh_fs h) (mh_dir_of h)
    (match lo_daemon_config_path opts with Some _ => mh_daemon_config h | None => None end) = 0%Z ->
  (forall b, b ∈ active -> verify_module_live (mh_fs h) b = Ok tt) ->
  lo_ignore_hardware opts = true \/ (forall b, b ∈ active -> hardware_keeps (mh_caps h) b = true) ->
  daemon_ready opts active -> reports opts ModuleAction.Apply 0 active os ->
  ran (cmd_apply h opts).1 = active /\
  (cmd_apply h opts).2 = Ok (if existsb (fun o => bool_decide (oc_status o = OutcomeStatus.Failed)) os then 1 else 0)%Z.
Proof using Type.
  intros Ha Hpre Hs Hh Hd Hr. rewrite (cmd_apply_unfold _ Hpre), (run_lifecycle_unfold _ _ _ _ Ha). cbn [lp_reverse_order policy_default gating].
  pose proof (signing_gate_spec (mh_fs h) active) as [Hk Hf]. destruct (apply_signing_gate (mh_fs h) active) as [kept failed]. simpl in Hk, Hf.
  rewrite (proj2 Hf Hs). cbn [negb andb].
  assert (kept = active) as ->; [|by apply after_signing_complete].
  rewrite Hk. apply filter_all, Forall_forall. intros b Hb. by rewrite (Hs b Hb).
Qed.
End lifecycle.

(** ** A host with two modules *)

Module ModulesExamples.
#[local] Instance tables : UnicodeTables :=
  {| uc_alphanumeric := fun _ => false; uc_uppercase := fun c => c; uc_debug_plain := fun _ => true |}.
(** A signature is the signed text followed by the key. *)
#[local] Instance minisign : Minisign := {|
  PublicKey := string; MinisignSignature := string; key_from_base64 := Ok; signature_decode := Ok;
  key_verify := fun key bytes sg => bool_decide (sg = bytes +:+ key) |}.
#[local] Instance no_toml : TomlText := {| toml_from_str := fun _ => Err "expected a key"; toml_to_string_pretty := fun _ => Err "unsupported" |}.
#[local] Instance policies : PolicyYaml := {| policy_from_yaml := fun s =>
  if bool_decide (s = "contained")
  then Ok (mkTracingPolicy "exec" [mkKprobe "sys_execve" [mkSelector [mkMatchNamespace "In" ["container"]]]])
  else Err "expected a mapping" |}.
#[local] Instance status_json : StatusJson := {| status_from_json := fun line =>
  if bool_decide (line = "drift") then Some (mkStatusLine "sentinel" "failed" "drift") else Some (mkStatusLine "" "ok" "") |}.

Definition any_host : HardwareRequirements := mkRequirements false false 0 0 0 0 0 "" "" false 0 "" [].
Definition with_gpu : HardwareRequirements := mkRequirements false false 0 1 0 0 0 "" "" false 0 "" [].
Definition scripts : option InstallSpec := Some (mkInstallSpec "script" None (Some "apply.sh") (Some "check.sh") None).
Definition sentinel (hw : HardwareRequirements) : ModuleManifest :=
  mkModuleManifest "sentinel" "1.0.0" "" "" [] [] [] [] [] hw None None scripts None false Phase.Pre [] [].
Definition ids : ModuleManifest :=
  mkModuleManifest "ids" "1.0.0" "" "" ["sentinel"] [] [] [] [] any_host (Some (mkSigningSpec true None)) None scripts None false Phase.Main [] [].
(** The same module with another script to apply. *)
Definition swapped : ModuleManifest :=
  mkModuleManifest "ids" "1.0.0" "" "" ["sentinel"] [] [] [] [] any_host (Some (mkSigningSpec true None)) None
    (Some (mkInstallSpec "script" None (Some "other.sh") (Some "check.sh") None)) None false Phase.Main [] [].

#[local] Instance module_toml : ModuleToml := {|
  manifest_from_toml := fun s =>
    if bool_decide (s = "sentinel") then Ok (sentinel any_host)
    else if bool_decide (s = "gated") then Ok (sentinel with_gpu)
    else if bool_decide (s = "ids") then Ok ids
    else if bool_decide (s = "swapped") then Ok swapped else Err "expected a table";
  host_from_toml := fun s => if bool_decide (s = "both") then Ok [("ids", None); ("sentinel", None)] else Err "expected a table" |}.

Definition files_with (ids_toml sentinel_toml : string) : FileSystem :=
  let files := [(["cat"; "ids"; "module.toml"], ids_toml); (["pol"; "agent-guard-exec.yaml"], "contained");
    (["cat"; "ids"; "module.toml.minisig"], "idsK");
    (["cat"; "sentinel"; "module.toml"], sentinel_toml); (policy_pub, "K"); (DEFAULT_HOST_CONFIG, "both")] in
  let find p := head (filter (fun f => f.1 = p) files) in
  let read p := match find p with Some f => Ok f.2 | None => Err "ENOENT" end in
  mkFileSystem (fun p => if bool_decide (p = ["cat"]) then Some (NDir [("sentinel", NDir [] None); ("ids", NDir [] None)] None)
    else if bool_decide (p = ["pol"]) then Some (NDir [("agent-guard-exec.yaml", NFile)] None)
    else match find p with Some _ => Some NFile | None => None end) read read.
Definition files : string -> FileSystem := files_with "ids".

(** A configuration that asks for the overlap check and stands against third parties. *)
Definition checked : Config :=
  mkConfig daemon_default bus_default store_default collectors_default correlator_default notifier_default
    responder_default api_default security_default deployment_default hardware_probe_default
    (mkPerimeterConfig (Some true) "" "/pol" false "block") grants_default.

(** The first script to run reports a failure, the others succeed. *)
Definition host (sentinel_toml first : string) : ModuleHost :=
  mkModuleHost (still (files sentinel_toml)) ["work"] None "lib.sh" false None (Some (Ok checked)) (fun _ => ["pol"])
    (fun i => mkAnswer true (Ok (mkOutput (Some 0%Z) (if i =? 0 then first else "ok") ""))).
Definition opts : LifecycleOpts := mkOpts None (Some ["cat"]) [] [] false false false false false None.

Definition active_sentinel : ActiveModule := mkActive "sentinel" None ["cat"; "sentinel"] (default_config_path "sentinel" None) (sentinel any_host).
Definition active_ids : ActiveModule := mkActive "ids" None ["cat"; "ids"] (default_config_path "ids" None) ids.

Definition checked_opts : LifecycleOpts := mkOpts None (Some ["cat"]) [] [] false false false false false (Some ["c"]).


(** The manifest is read twice: one that is put in place of the signed one while the
    catalog is loaded, and taken away before the gate looks, decides which script runs,
    although the module demands a signature and nobody signed what was loaded. *)
Theorem manifest_swapped_between_reads :
  let loaded := mkLiveFs (files_with "swapped" "sentinel") (fun _ => files "sentinel") in
  let h := mkModuleHost loaded ["work"] None "lib.sh" false None None (fun _ => [])
    (fun _ => mkAnswer true (Ok (mkOutput (Some 0%Z) "ok" ""))) in
  sp_required <$> mf_signing swapped = Some true /\
  is_ok (verify_module_signing loaded (mkActive "ids" None ["cat"; "ids"] [] swapped)) = false /\
  omap (fun e => match e with RanScript _ r => Some (sr_script r) | _ => None end) (cmd_apply h opts).1 =
    [["cat"; "sentinel"; "apply.sh"]; ["cat"; "ids"; "other.sh"]].
Proof. vm_compute. done. Qed.

(** The outcomes of an apply in which the first module detects a drift. *)
Definition drifted : list Outcome :=
  [mkOutcome "sentinel" None OutcomeStatus.Failed "drift" ""; mkOutcome "ids" None OutcomeStatus.Success "" ""].

Lemma apply_complete_witness :
  ran (cmd_apply (host "sentinel" "drift") opts).1 = [active_sentinel; active_ids] /\
  (cmd_apply (host "sentinel" "drift") opts).2 = Ok 1%Z.
Proof.
  apply (apply_complete (host "sentinel" "drift") opts [active_sentinel; active_ids] drifted).
  - vm_compute. reflexivity.
  - vm_compute. reflexivity.
  - intros b Hb. apply elem_of_cons in Hb as [->|Hb]; [vm_compute; reflexivity|]. apply list_elem_of_singleton in Hb as ->. vm_compute. reflexivity.
  - right. intros b Hb. apply elem_of_cons in Hb as [->|Hb]; [vm_compute; reflexivity|]. apply list_elem_of_singleton in Hb as ->. vm_compute. reflexivity.
  - right. exists (TTable []). split; [vm_compute; reflexivity|]. intros b Hb key raw Hin.
    apply elem_of_cons in Hb as [->|Hb]; [by apply elem_of_nil in Hin|]. apply list_elem_of_singleton in Hb as ->. by apply elem_of_nil in Hin.
  - split; [reflexivity|]. intros [|[|j]] a o Ha Ho; [..|by destruct j]; injection Ha as <-; injection Ho as <-; eexists; vm_compute; reflexivity.
Defined.

(** A module may name the key it is checked against: one signed by whoever wrote it passes
    the gate, although the operator's key did not sign it and the module demands a
    signature. *)
Theorem module_names_its_own_key :
  exists fs am, mf_signing (am_manifest am) = Some (mkSigningSpec true (Some (am_module_root am ++ ["own.pub"]))) /\
    verify_module_signing fs am = Ok tt /\
    (exists v, verifier_load fs policy_pub = Ok v /\ verify_detached_file fs v (am_module_root am ++ ["module.toml"]) <> Ok tt).
Proof.
  set (contents := [(["m"; "module.toml"], "text"); (["m"; "module.toml.minisig"], "textX"); (["m"; "own.pub"], "X"); (policy_pub, "K")]).
  set (find p := head (filter (fun f : path * string => f.1 = p) contents)).
  set (read p := match find p with Some f => Ok f.2 | None => Err "ENOENT" end : result string string).
  exists (mkFileSystem (fun p => (fun _ => NFile) <$> find p) read read).
  exists (mkActive "m" None ["m"] [] (mkModuleManifest "m" "" "" "" [] [] [] [] [] any_host
    (Some (mkSigningSpec true (Some ["m"; "own.pub"]))) None scripts None false Phase.Main [] [])).
  split; [reflexivity|]. split; [vm_compute; reflexivity|]. eexists. split; [vm_compute; reflexivity|]. vm_compute. done.
Qed.

(** The pre-phase module fails, and the main-phase module that depends on it still runs. *)
Theorem failure_does_not_halt :
  exists h os, oc_status <$> os = [OutcomeStatus.Failed; OutcomeStatus.Success] /\
    reports h opts ModuleAction.Apply 0 [active_sentinel; active_ids] os /\
    Phase.rank (mf_phase (am_manifest active_sentinel)) < Phase.rank (mf_phase (am_manifest active_ids)) /\
    "sentinel" ∈ mf_depends_on (am_manifest active_ids) /\ ran (cmd_apply h opts).1 = [active_sentinel; active_ids].
Proof.
  exists (host "sentinel" "drift"), drifted. split; [reflexivity|]. split.
  { split; [reflexivity|]. intros [|[|j]] a o Ha Ho; [..|by destruct j]; injection Ha as <-; injection Ho as <-; eexists; vm_compute; reflexivity. }
  split; [vm_compute; lia|]. split; [by left|vm_compute; reflexivity].
Qed.

(** The hardware gate drops a module, and one that depends on it is applied without it;
    the command reports success. *)
Theorem gate_skips_dependency :
  (am_slug <$> ran (cmd_apply (host "gated" "ok") opts).1) = ["ids"] /\
  (cmd_apply (host "gated" "ok") opts).2 = Ok 0%Z /\ "sentinel" ∈ mf_depends_on ids.
Proof. split; [vm_compute; reflexivity|]. split; [vm_compute; reflexivity|]. by left. Qed.
End ModulesExamples.
