(* ===== verification/ModulesPlan.v ===== *)
(** * ModulesPlan: what could be installed, and the plan to do it

    Models diff, install-options, install-plan and apply-plan of
    crates/selfdef-cli/src/modules.rs: the catalog is compared with the host configuration,
    what is missing is classified by the hardware gate and its dependencies, and what is
    ready is put into an order whose steps are applied one by one. The order is found by a
    second implementation of the sort of Modules, with a list of edges and a queue that is
    sorted again at every push; it is proved to give the same order. *)

From stdpp Require Import sorting.
From S2P Require Import Prelude Core Signing Federation Config Hardware PolicyOverlap Features Modules ModulesProps.
From stdpp Require Import options.

(** ** The catalog against the host *)

(** [split('#').next()]. *)
Definition base_slug (key : string) : string := default key (head (split "#" key)).
(** The modules of the host configuration, an ordered set. *)
Definition host_slugs (host : HostConfig) : list string := merge_sort String.le (remove_dups (base_slug <$> host.*1)).
Definition catalog_slugs (mods : list (string * ModuleManifest)) : list string := merge_sort String.le (remove_dups mods.*1).

Record Diff := mkDiff { df_installed : list string; df_available : list string; df_orphaned : list string }.
Definition diff (host : HostConfig) (mods : list (string * ModuleManifest)) : Diff :=
  let h := host_slugs host in
  let c := catalog_slugs mods in
  mkDiff (filter (fun s => s ∈ h) c) (filter (fun s => s ∉ h) c) (filter (fun s => s ∉ c) h).

Inductive GateVerdict := Ungated | Passes | Blocked (unmet : list string) | ProbeUnavailable.
Inductive Recommendation := Ready | BlockedByHardware | BlockedByMissingDeps | NeedsReview.
#[export] Instance recommendation_eq_dec : EqDecision Recommendation.
Proof. solve_decision. Defined.

Section plan.
Context `{UnicodeTables} (caps : option HardwareCapabilities).

Definition gate_verdict (m : ModuleManifest) : GateVerdict :=
  if requirements_is_empty (mf_requires_hardware m) then Ungated
  else match caps with
       | Some c => match evaluate c (mf_requires_hardware m) with Ok _ => Passes | Err u => Blocked u end
       | None => ProbeUnavailable
       end.

Definition gate_ok (m : ModuleManifest) : bool :=
  requirements_is_empty (mf_requires_hardware m)
  || match caps with Some c => is_ok (evaluate c (mf_requires_hardware m)) | None => false end.

Definition recommend (verdict : GateVerdict) (deps_present : bool) : Recommendation :=
  match verdict, deps_present with
  | Blocked _, _ => BlockedByHardware
  | ProbeUnavailable, _ => NeedsReview
  | _, false => BlockedByMissingDeps
  | _, true => Ready
  end.

(** What is not installed and is of the category that is asked for. *)
Definition candidate (host : list string) (category : option string) (e : string * ModuleManifest) : bool :=
  bool_decide (e.1 ∉ host) && match category with Some cat => bool_decide (mf_category e.2 = cat) | None => true end.

(** *** install-options *)

Record OptionRow := mkOptionRow {
  or_slug : string;
  or_manifest : ModuleManifest;
  or_depends_on : list (string * bool);
  or_gate : GateVerdict;
  or_recommendation : Recommendation;
}.
Definition option_row (host : list string) (e : string * ModuleManifest) : OptionRow :=
  let gate := gate_verdict e.2 in
  let deps := (fun d => (d, bool_decide (d ∈ host))) <$> (mf_depends_on e.2) in
  mkOptionRow e.1 e.2 deps gate (recommend gate (forallb snd deps)).

(** The rows shown, and how many there are of each recommendation. *)
Definition install_options (host : list string) (mods : list (string * ModuleManifest)) (category : option string) (only_ready : bool) :
    list OptionRow * (Recommendation -> nat) :=
  let rows := option_row host <$> filter (fun e => candidate host category e = true) mods in
  (filter (fun r => only_ready = false \/ or_recommendation r = Ready) rows,
   fun rec => length (filter (fun r => or_recommendation r = rec) rows)).

(** *** install-plan *)

Definition hw_passing_available (host : list string) (mods : list (string * ModuleManifest)) (category : option string) : list string :=
  (filter (fun e => candidate host category e = true /\ gate_ok e.2 = true) mods).*1.

Definition missing_deps (host passing : list string) (m : ModuleManifest) : list string :=
  filter (fun d => (d ∉ host) /\ (d ∉ passing)) (mf_depends_on m).

Record PlanRow := mkPlanRow { pw_slug : string; pw_manifest : ModuleManifest; pw_recommendation : Recommendation; pw_missing : list string }.

Definition plan_rows (host : list string) (mods : list (string * ModuleManifest)) (category : option string) : list PlanRow :=
  let passing := hw_passing_available host mods category in
  (fun e => let missing := missing_deps host passing e.2 in
            mkPlanRow e.1 e.2 (recommend (gate_verdict e.2) (bool_decide (missing = []))) missing)
    <$> filter (fun e => candidate host category e = true) mods.
End plan.

(** The sort. An edge for each time a module names another as a dependency. *)
Section plan_sort.
Context (deps : string -> list string) (slugs : list string).

Definition edges (n : string) : list string := slugs ≫= fun s => (fun _ => s) <$> filter (fun d => d = n) (deps s).
Definition plan_degree (s : string) : nat := length (filter (fun d => d ∈ slugs) (deps s)).

Definition relax (st : gmap string nat * list string) (next : string) : gmap string nat * list string :=
  let d := Nat.pred (default 0 (st.1 !! next)) in
  (<[next := d]> st.1, if d =? 0 then merge_sort String.le (st.2 ++ [next]) else st.2).

Fixpoint plan_loop (fuel : nat) (indeg : gmap string nat) (queue order : list string) : list string :=
  match fuel, queue with
  | O, _ | _, [] => order
  | S fuel, n :: queue =>
      let '(indeg, queue) := foldl relax (indeg, queue) (edges n) in
      plan_loop fuel indeg queue (order ++ [n])
  end.

Definition plan_order : list string :=
  plan_loop (length slugs) (list_to_map ((fun s => (s, plan_degree s)) <$> slugs))
    (merge_sort String.le (filter (fun s => plan_degree s = 0) slugs)) [].
End plan_sort.

Record InstallPlan := mkInstallPlan {
  ip_ready : list string;
  ip_order : list string;
  ip_skipped : list PlanRow;
  ip_cycle_nodes : list string;
  ip_exit : Z;
}.

Definition ready_rows (rows : list PlanRow) : list PlanRow := filter (fun r => pw_recommendation r = Ready) rows.
Definition row_deps (rows : list PlanRow) (s : string) : list string :=
  match head (filter (fun r => pw_slug r = s) rows) with Some r => mf_depends_on (pw_manifest r) | None => [] end.

Definition install_plan `{UnicodeTables} (caps : option HardwareCapabilities) (host : list string)
    (mods : list (string * ModuleManifest)) (category : option string) : InstallPlan :=
  let rows := plan_rows caps host mods category in
  let ready := pw_slug <$> ready_rows rows in
  let order := plan_order (row_deps rows) ready in
  let cycle_present := negb (length order =? length ready) in
  mkInstallPlan (merge_sort String.le ready) order (filter (fun r => pw_recommendation r <> Ready) rows)
    (if cycle_present then filter (fun s => s ∉ order) (merge_sort String.le ready) else [])
    (if cycle_present then 1 else 0)%Z.

(** *** apply-plan *)

Inductive StepOutcome := StepDryRun | StepOk | StepFailed (rc : Z) | StepError (e : ModulesError) | StepHalted.
Definition step_failed (o : StepOutcome) : bool := match o with StepFailed _ | StepError _ => true | _ => false end.

(** The modules that the command counts as ready, with the dependencies of each. *)
Definition executable `{UnicodeTables} (caps : option HardwareCapabilities) (host : list string)
    (mods : list (string * ModuleManifest)) (category : option string) : list (string * ModuleManifest) :=
  let passing := hw_passing_available caps host mods category in
  filter (fun e => candidate host category e = true /\ gate_ok caps e.2 = true /\ missing_deps host passing e.2 = []) mods.

Definition listed_deps (mods : list (string * ModuleManifest)) (s : string) : list string :=
  match head (filter (fun e => e.1 = s) mods) with Some e => mf_depends_on e.2 | None => [] end.

Record PlanReport := mkPlanReport { rp_order : list string; rp_results : list (string * StepOutcome); rp_exit : Z }.

Section apply_plan.
Context `{UnicodeTables} `{Minisign} `{TomlText} `{ModuleToml} `{StatusJson} `{PolicyYaml}.
(** The host when the plan is made, and when each of its steps begins. *)
Context (host0 : ModuleHost) (hosts : nat -> ModuleHost).

Definition step_opts (host_path dir : path) (slug : string) : LifecycleOpts :=
  mkOpts (Some host_path) (Some dir) [slug] [] false false false false false None.

Fixpoint apply_steps (host_path dir : path) (apply continue_on_failure : bool) (i : nat) (order : list string) :
    list Effect * list (string * StepOutcome) :=
  match order with
  | [] => ([], [])
  | slug :: order =>
      let '(effs, outcome) :=
        if apply then
          let '(effs, r) := cmd_apply (hosts i) (step_opts host_path dir slug) in
          (effs, match r with Ok rc => if (rc =? 0)%Z then StepOk else StepFailed rc | Err e => StepError e end)
        else ([], StepDryRun) in
      if step_failed outcome && negb continue_on_failure then
        (effs, (slug, outcome) :: match outcome with StepFailed _ => [("(remaining-steps)", StepHalted)] | _ => [] end)
      else
        let '(rest_effs, rest) := apply_steps host_path dir apply continue_on_failure (S i) order in
        (effs ++ rest_effs, (slug, outcome) :: rest)
  end.

Definition cmd_apply_plan (host_path dir : path) (category : option string) (apply continue_on_failure : bool) :
    list Effect * result PlanReport ModulesError :=
  match load_host_config (mh_fs host0) host_path with
  | Err e => ([], Err e)
  | Ok host =>
      match load_all (mh_fs host0) dir with
      | Err e => ([], Err e)
      | Ok mods =>
          let ready := executable (mh_caps host0) (host_slugs host) mods category in
          let order := plan_order (listed_deps ready) ready.*1 in
          if negb (length order =? length ready) then ([], Ok (mkPlanReport [] [] 1%Z))
          else
            let '(effs, results) := apply_steps host_path dir apply continue_on_failure 0 order in
            (effs, Ok (mkPlanReport order results (if existsb (fun r => step_failed r.2) results then 1 else 0)%Z))
      end
  end.

Definition cmd_install_plan (host_path dir : path) (category : option string) : result InstallPlan ModulesError :=
  let? host := load_host_config (mh_fs host0) host_path in
  let? mods := load_all (mh_fs host0) dir in
  Ok (install_plan (mh_caps host0) (host_slugs host) mods category).

Definition cmd_diff (host_path dir : path) : result Diff ModulesError :=
  let? host := load_host_config (mh_fs host0) host_path in
  let? mods := load_all (mh_fs host0) dir in
  Ok (diff host mods).

Definition cmd_install_options (host_path dir : path) (category : option string) (only_ready : bool) :
    result (list OptionRow * (Recommendation -> nat)) ModulesError :=
  let? host := load_host_config (mh_fs host0) host_path in
  let? mods := load_all (mh_fs host0) dir in
  Ok (install_options (mh_caps host0) (host_slugs host) mods category only_ready).
End apply_plan.

(** ** The sort gives the order of Modules *)

Definition occ (s : string) (l : list string) : nat := length (filter (fun x => x = s) l).

Lemma occ_cons s x l : occ s (x :: l) = (if decide (x = s) then 1 else 0) + occ s l.
Proof. unfold occ. rewrite filter_cons. by destruct (decide (x = s)). Qed.
Lemma occ_app s l k : occ s (l ++ k) = occ s l + occ s k.
Proof. unfold occ. by rewrite filter_app, length_app. Qed.
Lemma occ_elem s l : s ∈ l <-> 0 < occ s l.
Proof.
  induction l as [|x l IH]; [split; [by intros ?%elem_of_nil|unfold occ; simpl; lia]|]. rewrite elem_of_cons, occ_cons, IH.
  destruct (decide (x = s)); [split; [lia|auto]|]. split; [intros [->|]; [done|lia]|]. lia.
Qed.
Lemma occ_const s x (l : list string) : occ s ((fun _ => x) <$> l) = if decide (x = s) then length l else 0.
Proof.
  induction l as [|y l IH]; [by destruct (decide (x = s))|]. rewrite fmap_cons, occ_cons, IH. by destruct (decide (x = s)).
Qed.

Lemma filter_iff_in {A} (P Q : A -> Prop) `{forall x, Decision (P x)} `{forall x, Decision (Q x)} (l : list A) :
  (forall x, x ∈ l -> P x <-> Q x) -> filter P l = filter Q l.
Proof.
  induction l as [|x l IH]; intros Hl; [done|]. rewrite !filter_cons, IH by (intros; apply Hl; by right).
  assert (Hx : P x <-> Q x) by (apply Hl; by left). destruct (decide (P x)); [rewrite decide_True by tauto|rewrite decide_False by tauto]; done.
Qed.

(** A round takes from each module as much as it occurs in the edges, and queues those
    that have nothing left. *)
Lemma relax_fold es m q : (forall s, s ∈ es -> exists k, m !! s = Some k /\ occ s es <= k) ->
  (forall s, (foldl relax (m, q) es).1 !! s = (fun k => k - occ s es) <$> m !! s) /\
  (foldl relax (m, q) es).2 ≡ₚ q ++ filter (fun s => m !! s = Some (occ s es)) (remove_dups es) /\
  (StronglySorted String.le q -> StronglySorted String.le (foldl relax (m, q) es).2).
Proof.
  revert m q. induction es as [|e es IH]; intros m q Hm.
  { cbn. split; [intros s; destruct (m !! s); simpl; f_equal; lia|]. by rewrite app_nil_r. }
  destruct (Hm e) as (k & Hk & Hle); [by left|]. rewrite occ_cons, decide_True in Hle by done.
  set (m' := <[e := Nat.pred k]> m).
  assert (Hr : relax (m, q) e = (m', if Nat.pred k =? 0 then merge_sort String.le (q ++ [e]) else q)).
  { unfold relax. cbn [fst snd]. by rewrite Hk. }
  cbn [foldl]. rewrite Hr.
  assert (Hm' : forall s, m' !! s = if decide (s = e) then Some (Nat.pred k) else m !! s).
  { intros s. unfold m'. destruct (decide (s = e)) as [->|]; [by rewrite lookup_insert_eq|by rewrite lookup_insert_ne]. }
  destruct (IH m' (if Nat.pred k =? 0 then merge_sort String.le (q ++ [e]) else q)) as (I1 & I2 & I3).
  { intros s Hs. rewrite Hm'. destruct (decide (s = e)) as [->|Hne]; [exists (Nat.pred k); split; [done|lia]|].
    destruct (Hm s) as (k' & Hk' & Hle'); [by right|]. rewrite occ_cons, decide_False in Hle' by done. eauto. }
  split; [|split].
  - intros s. rewrite I1, Hm', occ_cons. destruct (decide (s = e)) as [->|Hne].
    + rewrite decide_True, Hk by done. simpl. f_equal. lia.
    + rewrite (decide_False (P := e = s)) by done. done.
  - rewrite I2. assert (Hf : filter (fun s => m' !! s = Some (occ s es)) (remove_dups es) =
      filter (fun s => s <> e /\ m !! s = Some (occ s (e :: es)) \/ s = e /\ k = S (occ e es)) (remove_dups es)).
    { apply list_filter_iff. intros s. rewrite Hm', occ_cons. destruct (decide (s = e)) as [->|Hne].
      - split; [intros [= Heq]; right; split; [done|lia]|]. intros [[? _]|[_ ->]]; [done|]. done.
      - rewrite (decide_False (P := e = s)) by done. simpl. tauto. }
    rewrite Hf. cbn [remove_dups]. destruct (decide_rel (∈) e es) as [Hin|Hin].
    + assert (Hp : 0 < occ e es) by by apply occ_elem. destruct (Nat.eqb_spec (Nat.pred k) 0); [lia|].
      apply Permutation_app_head. apply reflexive_eq, filter_iff_in. intros s _. rewrite occ_cons.
      destruct (decide (s = e)) as [->|Hne]; [rewrite decide_True, Hk by done|rewrite (decide_False (P := e = s)) by done; simpl; tauto].
      simpl. split; [intros [[? _]|[_ ->]]; done|]. intros [= ->]. auto.
    + assert (Hz : occ e es = 0). { destruct (occ e es) eqn:E; [done|]. exfalso. apply Hin, occ_elem. lia. }
      assert (Hoe : occ e (e :: es) = 1) by (rewrite occ_cons, decide_True by done; lia).
      rewrite filter_cons, Hoe, Hk.
      assert (Hrest : filter (fun s => s <> e /\ m !! s = Some (occ s (e :: es)) \/ s = e /\ k = S (occ e es)) (remove_dups es) =
        filter (fun s => m !! s = Some (occ s (e :: es))) (remove_dups es)).
      { apply filter_iff_in. intros s Hs. rewrite elem_of_remove_dups in Hs. assert (s <> e) by (intros Hse; subst s; exact (Hin Hs)). tauto. }
      rewrite Hz in Hrest. rewrite Hz, Hrest. destruct (Nat.eqb_spec (Nat.pred k) 0) as [Hk0|Hk0].
      * rewrite decide_True by (f_equal; lia). rewrite merge_sort_Permutation, <-app_assoc. done.
      * rewrite decide_False by (intros [= ->]; simpl in Hk0; lia). done.
  - intros Hs. apply I3. destruct (_ =? 0); [apply StronglySorted_merge_sort; apply _|done].
Qed.

Section plan_sort.
Context (deps : string -> list string) (slugs : list string) (Hnd : NoDup slugs).

(** The dependencies that are not placed yet, each as often as it is named. *)
Definition unplaced (order : list string) (s : string) : list string := filter (fun d => d ∈ slugs /\ d ∉ order) (deps s).

Lemma unplaced_nil order s : unplaced order s = [] <-> remaining deps slugs order s = [].
Proof using Type.
  rewrite remaining_nil. unfold unplaced. split.
  - intros Hu d Hd Hs. destruct (decide (d ∈ order)) as [|Hn]; [done|]. exfalso.
    assert (Hin : d ∈ filter (fun d => d ∈ slugs /\ d ∉ order) (deps s)) by by apply list_elem_of_filter.
    rewrite Hu in Hin. by apply elem_of_nil in Hin.
  - intros Hall. apply filter_none, Forall_forall. intros d Hd [Hs Hn]. auto.
Qed.

Lemma unplaced_snoc order n s : n ∈ slugs -> n ∉ order ->
  length (unplaced order s) = occ n (deps s) + length (unplaced (order ++ [n]) s).
Proof using Type.
  intros Hs Hn. unfold unplaced, occ. induction (deps s) as [|d ds IH]; [done|]. rewrite !filter_cons.
  destruct (decide (d = n)) as [->|Hdn].
  - rewrite decide_True by done. rewrite decide_False by (rewrite elem_of_app, list_elem_of_singleton; tauto). simpl. by rewrite IH.
  - assert (Hiff : d ∉ order ++ [n] <-> d ∉ order) by (rewrite elem_of_app, list_elem_of_singleton; tauto).
    destruct (decide (d ∈ slugs /\ d ∉ order)); [rewrite decide_True by tauto|rewrite decide_False by tauto]; simpl; lia.
Qed.

Lemma occ_bind (l : list string) n s : NoDup l ->
  occ s (l ≫= fun x => (fun _ => x) <$> filter (fun d => d = n) (deps x)) = if decide (s ∈ l) then occ n (deps s) else 0.
Proof using Type.
  induction 1 as [|x l Hx _ IH]; [done|]. rewrite bind_cons, occ_app, occ_const, IH.
  destruct (decide (x = s)) as [->|Hne].
  - rewrite decide_False by done. rewrite decide_True by by left. unfold occ. lia.
  - destruct (decide (s ∈ l)); [rewrite decide_True by by right|rewrite decide_False by (rewrite elem_of_cons; naive_solver)]; done.
Qed.

Lemma occ_edges n s : occ s (edges deps slugs n) = if decide (s ∈ slugs) then occ n (deps s) else 0.
Proof using Hnd. by apply occ_bind. Qed.

Lemma elem_of_edges n s : s ∈ edges deps slugs n <-> s ∈ slugs /\ n ∈ deps s.
Proof using Hnd. rewrite occ_elem, occ_edges, (occ_elem n). destruct (decide (s ∈ slugs)); [tauto|]. split; [lia|tauto]. Qed.

(** The state of this sort that corresponds to one of the other. *)
Definition degrees_of (order : list string) (m : gmap string nat) : Prop :=
  forall s, s ∈ slugs -> m !! s = Some (length (unplaced order s)).

Lemma plan_round indeg next ready order m : kahn_inv deps slugs indeg (next :: ready) order -> degrees_of order m ->
  StronglySorted String.le ready ->
  degrees_of (order ++ [next]) (foldl relax (m, ready) (edges deps slugs next)).1 /\
  (foldl relax (m, ready) (edges deps slugs next)).2 = merge_sort String.le (ready ++ newly_ready deps slugs next indeg).
Proof using Hnd.
  intros Hinv Hdeg Hsort. pose proof (fun s => newly_ready_spec deps slugs Hnd next indeg ready order s Hinv) as Hnew.
  destruct Hinv as [_ (_ & Hrs & Hro) _ _ _]. assert (Hs : next ∈ slugs) by (apply Hrs; by left). assert (Hn : next ∉ order) by (apply Hro; by left).
  destruct (relax_fold (edges deps slugs next) m ready) as (R1 & R2 & R3).
  { intros s [Hin _]%elem_of_edges. exists (length (unplaced order s)). split; [by apply Hdeg|].
    rewrite occ_edges, decide_True, (unplaced_snoc order next s) by done. lia. }
  split.
  - intros s Hin. rewrite R1, (Hdeg s Hin), occ_edges, decide_True by done. simpl. f_equal. rewrite (unplaced_snoc order next s) by done. lia.
  - apply (StronglySorted_unique String.le); [by apply R3|apply StronglySorted_merge_sort; apply _|].
    rewrite R2, merge_sort_Permutation. apply Permutation_app_head, NoDup_Permutation.
    + apply NoDup_filter, NoDup_remove_dups.
    + unfold newly_ready, dependents. by apply NoDup_filter, NoDup_filter.
    + intros s. rewrite list_elem_of_filter, elem_of_remove_dups, elem_of_edges, Hnew, <-unplaced_nil.
      split; [intros (Hm & Hin & Hd); split_and!; [done|done|]|intros (Hin & Hd & He); split; [|done]].
      * rewrite (Hdeg s Hin), occ_edges, decide_True, (unplaced_snoc order next s) in Hm by done. injection Hm as Hm.
        apply length_zero_iff_nil. lia.
      * rewrite (Hdeg s Hin), occ_edges, decide_True, (unplaced_snoc order next s), He by done. simpl. f_equal. lia.
Qed.

Lemma plan_loop_kahn fuel indeg ready order m : kahn_inv deps slugs indeg ready order -> degrees_of order m ->
  StronglySorted String.le ready -> plan_loop deps slugs fuel m ready order = kahn deps slugs fuel indeg ready order.
Proof using Hnd.
  revert indeg ready order m. induction fuel as [|fuel IH]; intros indeg ready order m Hinv Hdeg Hsort; [done|].
  destruct ready as [|next ready]; [done|]. cbn [plan_loop kahn]. apply StronglySorted_inv in Hsort as [Hsort _].
  destruct (plan_round indeg next ready order m Hinv Hdeg Hsort) as [Hd Hq].
  destruct (foldl relax (m, ready) (edges deps slugs next)) as [m' q']. simpl in Hd, Hq. subst q'.
  apply IH; [by apply kahn_step|done|apply StronglySorted_merge_sort; apply _].
Qed.

(** The plan lists the modules in the order in which a resolution of one phase would. *)
Lemma plan_order_topo_sort : plan_order deps slugs = topo_sort deps slugs.
Proof using Hnd.
  assert (Hdeg : forall s, plan_degree deps slugs s = length (unplaced [] s)).
  { intros s. unfold plan_degree, unplaced. f_equal. apply filter_iff_in. intros d _. split; [intros; split; [done|apply not_elem_of_nil]|tauto]. }
  unfold plan_order, topo_sort.
  assert (Hq : filter (fun s => plan_degree deps slugs s = 0) slugs = filter (fun s => in_degree deps slugs s = 0) slugs).
  { apply filter_iff_in. intros s _. rewrite Hdeg. unfold in_degree. rewrite !length_zero_iff_nil, unplaced_nil, remaining_nil.
    split; [|intros Hr d Hd Hs; exfalso].
    - intros Hall. rewrite filter_none; [done|]. apply Forall_forall. intros d Hd Hs. by apply (not_elem_of_nil d), Hall.
    - assert (Hin : d ∈ remove_dups (filter (fun d => d ∈ slugs) (deps s))) by by rewrite elem_of_remove_dups, list_elem_of_filter.
      rewrite Hr in Hin. by apply elem_of_nil in Hin. }
  rewrite Hq. apply plan_loop_kahn; [by apply kahn_start| |apply StronglySorted_merge_sort; apply _].
  intros s Hs. rewrite <-Hdeg. apply elem_of_list_to_map_1.
  - rewrite <-list_fmap_compose. by rewrite (list_fmap_ext _ id), list_fmap_id by done.
  - apply list_elem_of_fmap. by exists s.
Qed.
End plan_sort.

(** ** What the plan contains *)

Lemma plan_order_ext deps deps' slugs : (forall s, s ∈ slugs -> deps s = deps' s) -> plan_order deps slugs = plan_order deps' slugs.
Proof.
  intros Hext. unfold plan_order.
  assert (Hdeg : forall s, s ∈ slugs -> plan_degree deps slugs s = plan_degree deps' slugs s) by (intros s Hs; unfold plan_degree; by rewrite Hext).
  assert (Hedges : forall n, edges deps slugs n = edges deps' slugs n).
  { intros n. unfold edges. apply bind_ext_in. intros s Hs. by rewrite Hext. }
  rewrite (filter_iff_in (fun s => plan_degree deps slugs s = 0) (fun s => plan_degree deps' slugs s = 0)) by (intros s Hs; by rewrite Hdeg).
  assert (Hm : (fun s => (s, plan_degree deps slugs s)) <$> slugs = (fun s => (s, plan_degree deps' slugs s)) <$> slugs).
  { apply list_fmap_ext. intros i s Hs%list_elem_of_lookup_2. by rewrite Hdeg. }
  rewrite Hm. generalize (length slugs), (list_to_map ((fun s => (s, plan_degree deps' slugs s)) <$> slugs) : gmap string nat),
    (merge_sort String.le (filter (fun s => plan_degree deps' slugs s = 0) slugs)), ([] : list string).
  intros fuel. induction fuel as [|fuel IH]; intros m q order; [done|]. destruct q as [|n q]; [done|]. cbn [plan_loop].
  rewrite Hedges. destruct (foldl relax (m, q) (edges deps' slugs n)). apply IH.
Qed.

Section install_plan.
Context `{UnicodeTables} (caps : option HardwareCapabilities) (host : list string) (mods : list (string * ModuleManifest))
  (category : option string).

Lemma ready_iff m (missing : list string) :
  recommend (gate_verdict caps m) (bool_decide (missing = [])) = Ready <-> gate_ok caps m = true /\ missing = [].
Proof using Type.
  unfold recommend, gate_verdict, gate_ok. destruct (bool_decide_reflect (missing = [])), (requirements_is_empty _); simpl; [naive_solver| |naive_solver|];
    (destruct caps as [c|]; [destruct (evaluate c _)|]; naive_solver).
Qed.

Lemma ready_rows_of (passing : list string) (l : list (string * ModuleManifest)) :
  (fun r => (pw_slug r, pw_manifest r)) <$> filter (fun r => pw_recommendation r = Ready)
    ((fun e => mkPlanRow e.1 e.2 (recommend (gate_verdict caps e.2) (bool_decide (missing_deps host passing e.2 = []))) (missing_deps host passing e.2))
      <$> filter (fun e => candidate host category e = true) l) =
  filter (fun e => candidate host category e = true /\ gate_ok caps e.2 = true /\ missing_deps host passing e.2 = []) l.
Proof using Type.
  induction l as [|[s m] l IH]; [done|]. rewrite !filter_cons.
  destruct (decide (candidate host category (s, m) = true)) as [Hc|Hc]; [|by rewrite decide_False by tauto].
  rewrite fmap_cons, filter_cons. cbn [pw_recommendation fst snd].
  pose proof (ready_iff m (missing_deps host passing m)) as Hr. destruct (decide (recommend _ _ = Ready)) as [Hy|Hy].
  - rewrite fmap_cons, IH, decide_True by tauto. done.
  - rewrite IH, decide_False by tauto. done.
Qed.

(** Both commands find the same modules ready. *)
Lemma ready_rows_executable :
  (fun r => (pw_slug r, pw_manifest r)) <$> ready_rows (plan_rows caps host mods category) = executable caps host mods category.
Proof using Type. apply ready_rows_of. Qed.

Lemma ready_slugs : pw_slug <$> ready_rows (plan_rows caps host mods category) = (executable caps host mods category).*1.
Proof using Type. rewrite <-ready_rows_executable, <-list_fmap_compose. done. Qed.

Lemma elem_of_executable s m : (s, m) ∈ executable caps host mods category <->
  (s, m) ∈ mods /\ candidate host category (s, m) = true /\ gate_ok caps m = true /\
  forall d, d ∈ mf_depends_on m -> d ∈ host \/ d ∈ hw_passing_available caps host mods category.
Proof using Type.
  unfold executable. cbv zeta. rewrite list_elem_of_filter. cbn [snd].
  assert (Hm : missing_deps host (hw_passing_available caps host mods category) m = [] <->
    forall d, d ∈ mf_depends_on m -> d ∈ host \/ d ∈ hw_passing_available caps host mods category).
  { unfold missing_deps. split.
    - intros Hn d Hd. destruct (decide (d ∈ host)); [by left|]. destruct (decide (d ∈ hw_passing_available caps host mods category)) as [|Hp]; [by right|].
      exfalso. assert (Hin : d ∈ filter (fun d => (d ∉ host) /\ (d ∉ hw_passing_available caps host mods category)) (mf_depends_on m))
        by by apply list_elem_of_filter. rewrite Hn in Hin. by apply elem_of_nil in Hin.
    - intros Hall. apply filter_none, Forall_forall. intros d Hd [Hh Hp]. destruct (Hall d Hd); auto. }
  rewrite Hm. tauto.
Qed.

Hypothesis Hnd : NoDup mods.*1.

Lemma executable_NoDup : NoDup (executable caps host mods category).*1.
Proof using Hnd.
  unfold executable. cbv zeta. eapply (sublist_NoDup _ mods.*1); [exact Hnd|]. apply fmap_sublist, sublist_filter.
Qed.

(** The dependencies that the plan looks up are those of the manifest. *)
Lemma row_deps_of s m : (s, m) ∈ executable caps host mods category ->
  row_deps (plan_rows caps host mods category) s = mf_depends_on m /\ listed_deps (executable caps host mods category) s = mf_depends_on m.
Proof using Hnd.
  intros Hin. split.
  - unfold row_deps. destruct (head _) as [r|] eqn:E.
    + apply head_Some_elem_of, list_elem_of_filter in E as [<- E]. unfold plan_rows in E. cbv zeta in E.
      apply list_elem_of_fmap in E as ([s' m'] & -> & [_ E]%list_elem_of_filter). simpl in *.
      apply elem_of_executable in Hin as [Hin _]. f_equal.
      apply list_elem_of_lookup in E as [i Ei], Hin as [j Ej].
      assert (i = j); [|naive_solver]. eapply (NoDup_lookup mods.*1); [done| |]; rewrite list_lookup_fmap; [by rewrite Ei|by rewrite Ej].
    + exfalso. rewrite <-ready_rows_executable in Hin. apply list_elem_of_fmap in Hin as (r & [= -> ->] & [_ Hr]%list_elem_of_filter).
      assert (Hr' : r ∈ filter (fun r' => pw_slug r' = pw_slug r) (plan_rows caps host mods category)) by by apply list_elem_of_filter.
      destruct (filter (fun r' => pw_slug r' = pw_slug r) _); [by apply elem_of_nil in Hr'|done].
  - unfold listed_deps. destruct (head _) as [[s' m']|] eqn:E.
    + apply head_Some_elem_of, list_elem_of_filter in E as [<- E]. simpl in *. f_equal.
      pose proof executable_NoDup as Hn. apply list_elem_of_lookup in E as [i Ei], Hin as [j Ej].
      assert (i = j); [|naive_solver]. eapply (NoDup_lookup (executable caps host mods category).*1); [done| |]; rewrite list_lookup_fmap; [by rewrite Ei|by rewrite Ej].
    + exfalso. assert (Hr' : (s, m) ∈ filter (fun e => e.1 = s) (executable caps host mods category)) by by apply list_elem_of_filter.
      destruct (filter (fun e => e.1 = s) _); [by apply elem_of_nil in Hr'|done].
Qed.

(** The steps of apply-plan are those that install-plan lists. *)
Lemma same_order : plan_order (listed_deps (executable caps host mods category)) (executable caps host mods category).*1 =
  ip_order (install_plan caps host mods category).
Proof using Hnd.
  unfold install_plan. cbv zeta. cbn [ip_order]. rewrite ready_slugs. apply plan_order_ext. intros s ([s' m] & -> & Hin)%list_elem_of_fmap.
  cbn [fst]. destruct (row_deps_of _ _ Hin) as [-> ->]. done.
Qed.

(** The plan, exactly. A module is ready when it is in the catalog and not on the host, is
    of the category, passes the hardware gate, and each of its dependencies is on the host
    or passes that gate as well; the plan exists unless the dependencies among the ready
    modules form a cycle, and then lists each ready module once, behind those it depends
    on. *)
Theorem install_plan_exact :
  let plan := install_plan caps host mods category in
  let deps := row_deps (plan_rows caps host mods category) in
  (forall s, s ∈ ip_ready plan <-> exists m, (s, m) ∈ mods /\ candidate host category (s, m) = true /\ gate_ok caps m = true /\
    (forall d, d ∈ mf_depends_on m -> d ∈ host \/ d ∈ hw_passing_available caps host mods category)) /\
  (ip_exit plan = 0%Z <-> acyclic deps (ip_ready plan)) /\
  (ip_exit plan = 0%Z -> ip_order plan ≡ₚ ip_ready plan /\ deps_first deps (ip_ready plan) (ip_order plan)) /\
  NoDup (ip_ready plan).
Proof using Hnd.
  unfold install_plan. cbv zeta. cbn [ip_ready ip_exit ip_order]. rewrite ready_slugs. pose proof executable_NoDup as Hn.
  set (slugs := (executable caps host mods category).*1) in *. set (deps := row_deps _). rewrite (plan_order_topo_sort deps slugs Hn).
  split; [|split; [|split]].
  - intros s. rewrite merge_sort_elem. unfold slugs. rewrite list_elem_of_fmap. setoid_rewrite <-elem_of_executable. split.
    + intros ([s' m] & -> & Hin). eauto.
    + intros (m & Hin). by exists (s, m).
  - transitivity (length (topo_sort deps slugs) = length slugs).
    { destruct (Nat.eqb_spec (length (topo_sort deps slugs)) (length slugs)); simpl; [tauto|]. split; [lia|done]. }
    rewrite topo_sort_complete by done. split; apply acyclic_sub; intros s; by rewrite merge_sort_elem.
  - intros He. destruct (Nat.eqb_spec (length (topo_sort deps slugs)) (length slugs)) as [Hl|]; [|done].
    split; [by rewrite (topo_sort_perm deps slugs Hn Hl), merge_sort_Permutation|].
    eapply deps_first_ext; [|apply topo_sort_deps_first; exact Hn]. intros d. by rewrite merge_sort_elem.
  - by rewrite merge_sort_Permutation.
Qed.
End install_plan.

(** ** What apply-plan does *)

Lemma head_split c s : head (split c s) = Some (match split_once c s with Some (l, _) => l | None => s end).
Proof.
  induction s as [|a s IH]; [done|]. cbn [split split_once]. case_bool_decide; [done|].
  destruct (split c s) as [|x xs]; [done|]. injection IH as ->. by destruct (split_once c s) as [[]|].
Qed.

Lemma parse_host_key_base key slug inst : parse_host_key key = Ok (slug, inst) -> base_slug key = slug.
Proof.
  unfold parse_host_key, base_slug. rewrite head_split. destruct (split_once "#" key) as [[l r]|]; simpl; intros E; repeat case_match; by simplify_eq.
Qed.

Lemma parse_entries_slugs host entries : parse_entries host = Ok entries -> he_slug <$> entries = base_slug <$> host.*1.
Proof.
  revert entries. induction host as [|[key config] host IH]; intros entries; simpl; [by intros [= <-]|].
  destruct (parse_host_key key) as [[slug inst]|] eqn:E; [|done]. apply parse_host_key_base in E.
  destruct (parse_entries host) as [rest|]; [|done]. intros [= <-]. rewrite fmap_cons. cbn [he_slug]. f_equal; [done|auto].
Qed.

Lemma elem_of_host_slugs host s : s ∈ host_slugs host <-> s ∈ base_slug <$> host.*1.
Proof. unfold host_slugs. by rewrite merge_sort_elem, elem_of_remove_dups. Qed.

(** The name of an instance contains the separator. *)
Lemma display_name_plain a s : split_once "#" s = None -> display_name a = s -> am_slug a = s.
Proof.
  unfold display_name. destruct (am_instance a) as [i|]; [|done]. intros Hs <-. apply split_once_None in Hs.
  rewrite all_bytes_app, andb_true_iff in Hs. destruct Hs as [_ Hs]. done.
Qed.

(** Only modules that are ready are steps. *)
Lemma relax_sub es m q : (foldl relax (m, q) es).2 ⊆ q ++ es.
Proof.
  revert m q. induction es as [|e es IH]; intros m q; [cbn; by rewrite app_nil_r|]. cbn [foldl]. unfold relax at 2. cbn [fst snd].
  intros s Hs. apply IH in Hs. destruct (_ =? 0); rewrite ?elem_of_app, ?elem_of_cons, ?merge_sort_elem, ?elem_of_app, ?list_elem_of_singleton in *; naive_solver.
Qed.
Lemma plan_order_sub deps slugs : plan_order deps slugs ⊆ slugs.
Proof.
  assert (Hloop : forall fuel m q order, q ⊆ slugs -> order ⊆ slugs -> plan_loop deps slugs fuel m q order ⊆ slugs).
  { induction fuel as [|fuel IH]; intros m q order Hq Ho; [done|]. destruct q as [|n q]; [done|]. cbn [plan_loop].
    pose proof (relax_sub (edges deps slugs n) m q) as Hr. destruct (foldl relax (m, q) (edges deps slugs n)) as [m' q']. simpl in Hr.
    apply IH; [|set_solver]. intros s [Hs|Hs]%Hr%elem_of_app; [apply Hq; by right|].
    unfold edges in Hs. apply list_elem_of_bind in Hs as (x & (y & -> & _)%list_elem_of_fmap & Hx). done. }
  unfold plan_order. apply Hloop; [|by intros s ?%elem_of_nil]. intros s. rewrite merge_sort_elem, list_elem_of_filter. tauto.
Qed.

Section nothing_runs.
Context `{UnicodeTables} `{Minisign} `{TomlText} `{ModuleToml} `{StatusJson} `{PolicyYaml}.

(** Selecting a module that the host configuration does not name selects nothing. *)
Lemma prepare_unknown h host_path dir s host mods : load_host_config (mh_fs h) host_path = Ok host -> load_all (mh_fs h) dir = Ok mods ->
  s ∉ host_slugs host -> split_once "#" s = None -> forall active, prepare h (step_opts host_path dir s) = Ok active -> active = [].
Proof using Type.
  intros Hh Hm Hs Hp active. unfold prepare. cbn [lo_dir lo_host_config lo_only lo_except step_opts resolve_dir resolve_host_config_path].
  cbv zeta. rewrite Hm, Hh. cbn [result_bind]. destruct (resolve_active _ _ _ _) as [out|] eqn:E; [|done]. cbn [result_bind]. intros [= <-].
  apply resolved_facts in E as (entries & He & _ & Hperm & _). apply parse_entries_slugs in He.
  unfold filter_active. apply filter_none, Forall_forall. intros a Ha. unfold selected, matches. rewrite andb_true_iff, orb_true_iff.
  rewrite !bool_decide_eq_true, orb_true_iff, !bool_decide_eq_true, !list_elem_of_singleton. intros [[?|Hx] _]; [done|].
  assert (Hslug : am_slug a = s) by (destruct Hx as [?|Hx]; [done|by apply display_name_plain in Hx]).
  apply Hs. rewrite elem_of_host_slugs, <-He, <-Hslug.
  assert (Hin : (am_slug a, am_instance a, am_config_path a) ∈ (fun e => (he_slug e, he_instance e, config_path_of e)) <$> entries).
  { rewrite <-Hperm. apply list_elem_of_fmap. by exists a. }
  apply list_elem_of_fmap in Hin as (e & [= -> _ _] & Hin). by apply list_elem_of_fmap_2.
Qed.

Lemma apply_empty h opts : prepare h opts = Ok [] -> lo_daemon_config_path opts = None -> lo_ignore_daemon_requires opts = false ->
  cmd_apply h opts = ([], match load_daemon_config (mh_fs h) DAEMON_CONFIG with Ok _ => Ok 0%Z | Err e => Err e end).
Proof using Type.
  intros Hp Hd Hi. rewrite cmd_apply_unfold by (by rewrite Hd). unfold run_lifecycle. rewrite Hp. cbn.
  rewrite andb_false_r, andb_false_r. unfold run_selected. cbn [gating andb]. rewrite Hi, Hd. cbn [negb default from_option].
  by destruct (load_daemon_config (mh_fs h) DAEMON_CONFIG).
Qed.

(** The steps of a plan are modules that are not on the host, and a step applies what the
    host configuration selects under that name, which is nothing: no script is ever
    started, and each step is reported as a success. *)
Theorem apply_plan_runs_nothing host0 hosts host_path dir category apply cont host mods :
  load_host_config (mh_fs host0) host_path = Ok host -> load_all (mh_fs host0) dir = Ok mods ->
  Forall (fun e => split_once "#" e.1 = None) mods -> (forall i, mh_fs (hosts i) = mh_fs host0) ->
  (cmd_apply_plan host0 hosts host_path dir category apply cont).1 = [] /\
  (is_ok (resolve_active (mh_fs host0) host dir mods) = true -> is_ok (load_daemon_config (mh_fs host0) DAEMON_CONFIG) = true ->
   forall report, (cmd_apply_plan host0 hosts host_path dir category apply cont).2 = Ok report ->
     rp_results report = (fun s => (s, if apply then StepOk else StepDryRun)) <$> rp_order report).
Proof using Type.
  intros Hh Hm Hplain Hfs. unfold cmd_apply_plan. rewrite Hh, Hm. cbv zeta.
  set (ready := executable (mh_caps host0) (host_slugs host) mods category).
  assert (Hord : forall s, s ∈ plan_order (listed_deps ready) ready.*1 -> s ∉ host_slugs host /\ split_once "#" s = None).
  { intros s Hs%plan_order_sub. apply list_elem_of_fmap in Hs as ([s' m] & -> & Hin). apply elem_of_executable in Hin as (Hin & Hc & _).
    unfold candidate in Hc. rewrite andb_true_iff, bool_decide_eq_true in Hc. split; [by destruct Hc|].
    rewrite Forall_forall in Hplain. by apply (Hplain (s', m)). }
  set (order := plan_order (listed_deps ready) ready.*1) in *. clearbody order.
  destruct (negb _); [split; [done|]; intros _ _ report [= <-]; done|].
  assert (Hstep : forall i s, s ∈ order -> (cmd_apply (hosts i) (step_opts host_path dir s)).1 = [] /\
    (is_ok (resolve_active (mh_fs host0) host dir mods) = true -> is_ok (load_daemon_config (mh_fs host0) DAEMON_CONFIG) = true ->
     (cmd_apply (hosts i) (step_opts host_path dir s)).2 = Ok 0%Z)).
  { intros i s [Hs1 Hs2]%Hord.
    assert (Hp : forall active, prepare (hosts i) (step_opts host_path dir s) = Ok active -> active = []).
    { apply (prepare_unknown (hosts i) host_path dir s host mods); rewrite ?Hfs; done. }
    destruct (prepare (hosts i) (step_opts host_path dir s)) as [active|e] eqn:Ep.
    - rewrite (Hp active eq_refl) in Ep. rewrite (apply_empty _ _ Ep) by done. rewrite Hfs. split; [done|]. intros _ Hd. by destruct (load_daemon_config _ _).
    - rewrite cmd_apply_unfold by done. unfold run_lifecycle. rewrite Ep. split; [done|]. intros Hr. exfalso. unfold prepare in Ep.
      cbn [lo_dir lo_host_config lo_only lo_except step_opts resolve_dir resolve_host_config_path] in Ep. cbv zeta in Ep.
      rewrite Hfs, Hm, Hh in Ep. cbn [result_bind] in Ep. by destruct (resolve_active _ _ _ _). }
  assert (Hall : forall l i, l ⊆ order -> (apply_steps hosts host_path dir apply cont i l).1 = [] /\
    (is_ok (resolve_active (mh_fs host0) host dir mods) = true -> is_ok (load_daemon_config (mh_fs host0) DAEMON_CONFIG) = true ->
     (apply_steps hosts host_path dir apply cont i l).2 = (fun s => (s, if apply then StepOk else StepDryRun)) <$> l)).
  { induction l as [|s l IH]; intros i Hl; [done|]. destruct (IH (S i)) as [IH1 IH2]; [set_solver|]. cbn [apply_steps].
    destruct (Hstep i s) as [Hs1 Hs2]; [set_solver|]. destruct (cmd_apply (hosts i) (step_opts host_path dir s)) as [effs r]. simpl in Hs1, Hs2. subst effs.
    destruct (apply_steps hosts host_path dir apply cont (S i) l) as [re rest]. simpl in IH1, IH2. subst re.
    destruct apply; simpl.
    - split; [by destruct (_ && _)|]. intros Hr Hd. rewrite (Hs2 Hr Hd). simpl. f_equal. exact (IH2 Hr Hd).
    - split; [done|]. intros Hr Hd. f_equal. exact (IH2 Hr Hd). }
  destruct (Hall order 0) as [Ha1 Ha2]; [done|]. destruct (apply_steps hosts host_path dir apply cont 0 order) as [effs results].
  simpl in *. subst effs. split; [done|]. intros Hr Hd report [= <-]. by apply Ha2.
Qed.
End nothing_runs.

(** ** Plans of small catalogs *)

Module PlanExamples.
#[local] Instance tables : UnicodeTables :=
  {| uc_alphanumeric := fun _ => false; uc_uppercase := fun c => c; uc_debug_plain := fun _ => true |}.

Definition plain (name : string) (deps : list string) : string * ModuleManifest :=
  (name, mkModuleManifest name "1.0.0" "" "" deps [] [] [] [] requirements_default None None None None false Phase.Main [] []).

Example plan_of_three :
  ip_order (install_plan None ["base"] [plain "a" ["c"; "c"]; plain "b" ["a"; "base"]; plain "base" []; plain "c" []] None) = ["c"; "a"; "b"].
Proof. vm_compute. reflexivity. Qed.

(** A module whose dependency is skipped is planned all the same. *)
Theorem plan_lists_unready :
  let plan := install_plan None [] [plain "app" ["lib"]; plain "lib" ["missing"]] None in
  ip_order plan = ["app"] /\ (pw_slug <$> ip_skipped plan) = ["lib"] /\ ip_exit plan = 0%Z.
Proof. vm_compute. done. Qed.

Lemma install_plan_exact_witness :
  let mods := [plain "a" ["b"]; plain "b" ["a"]] in
  NoDup mods.*1 /\ (ip_exit (install_plan None [] mods None) = 0%Z <->
    acyclic (row_deps (plan_rows None [] mods None)) (ip_ready (install_plan None [] mods None))).
Proof.
  cbv zeta. assert (Hn : NoDup ["a"; "b"]) by (apply (bool_decide_unpack _); vm_compute; done).
  split; [exact Hn|]. exact (proj1 (proj2 (install_plan_exact None [] [plain "a" ["b"]; plain "b" ["a"]] None Hn))).
Defined.
End PlanExamples.
