(* ===== verification/CapWord.v ===== *)
(** * Capability words

    Models crates/selfdef-capability-word/src/lib.rs: a 64-bit word of eight byte
    fields with typed accessors, and its hexadecimal wire form. A word is a [Z];
    shifts are those of [u64], whose amount is taken modulo 64. *)

From S2P Require Import Prelude NetText.
From stdpp Require Import options.

Module ToolClass.
Inductive t := ReadOnlyHost | WriteHost | Tests | Builds | NetworkEgress | GpuCompute | VmSpawn | Browser.

#[global] Instance eq_dec : EqDecision t.
Proof. solve_decision. Defined.
End ToolClass.

Definition tool_bit (c : ToolClass.t) : Z :=
  match c with
  | ToolClass.ReadOnlyHost => 0 | ToolClass.WriteHost => 1 | ToolClass.Tests => 2 | ToolClass.Builds => 3
  | ToolClass.NetworkEgress => 4 | ToolClass.GpuCompute => 5 | ToolClass.VmSpawn => 6 | ToolClass.Browser => 7
  end.

Module FilesystemScope.
Inductive t := SourceReadOnly | WorkspaceWrite | WorkspaceScratch | EtcRead | HostRead | HostReadWrite.
End FilesystemScope.

Definition fs_encode (s : FilesystemScope.t) : Z :=
  match s with
  | FilesystemScope.SourceReadOnly => 1 | FilesystemScope.WorkspaceWrite => 2 | FilesystemScope.WorkspaceScratch => 3
  | FilesystemScope.EtcRead => 4 | FilesystemScope.HostRead => 5 | FilesystemScope.HostReadWrite => 6
  end.

Definition fs_decode (b : Z) : option FilesystemScope.t :=
  match b with
  | 1 => Some FilesystemScope.SourceReadOnly | 2 => Some FilesystemScope.WorkspaceWrite | 3 => Some FilesystemScope.WorkspaceScratch
  | 4 => Some FilesystemScope.EtcRead | 5 => Some FilesystemScope.HostRead | 6 => Some FilesystemScope.HostReadWrite
  | _ => None
  end%Z.

Module CapFlag.
Inductive t := CloudOk | PiiOk | HighRisk | OperatorSigned | AdapterPromote | ReplayMode | Reserved6 | Reserved7.

#[global] Instance eq_dec : EqDecision t.
Proof. solve_decision. Defined.
End CapFlag.

Definition flag_bit (f : CapFlag.t) : Z :=
  match f with
  | CapFlag.CloudOk => 0 | CapFlag.PiiOk => 1 | CapFlag.HighRisk => 2 | CapFlag.OperatorSigned => 3
  | CapFlag.AdapterPromote => 4 | CapFlag.ReplayMode => 5 | CapFlag.Reserved6 => 6 | CapFlag.Reserved7 => 7
  end.

Definition CapabilityWord : Type := Z.

Inductive CapError :=
| InvalidFilesystemScope (b : Z)
| InvalidTrustLevel (b : Z)
| InvalidNetworkScope (b : Z).

(** ** Bytes *)

Definition shl64 (x n : Z) : Z := Z.land (Z.shiftl x (n `mod` 64)) (Z.ones 64).
Definition shr64 (x n : Z) : Z := Z.shiftr x (n `mod` 64).
Definition not64 (x : Z) : Z := Z.ldiff (Z.ones 64) x.

Definition word_empty : CapabilityWord := 0%Z.

Fixpoint from_bytes_go (i : Z) (b : list Z) (w : Z) : Z :=
  match b with
  | [] => w
  | x :: b => from_bytes_go (i + 1) b (Z.lor w (shl64 x (i * 8)))
  end.
Definition from_bytes (b : list Z) : CapabilityWord := from_bytes_go 0 b 0.

Definition word_byte (w : CapabilityWord) (slot : Z) : Z := Z.land (shr64 w (slot * 8)) 255.

Definition to_bytes (w : CapabilityWord) : list Z := word_byte w <$> [0; 1; 2; 3; 4; 5; 6; 7]%Z.

Definition set_byte (slot value : Z) (w : CapabilityWord) : CapabilityWord :=
  let mask := shl64 255 (slot * 8) in
  Z.lor (Z.land w (not64 mask)) (shl64 value (slot * 8)).

(** ** Fields *)

Definition bit_of (b n : Z) : bool := (Z.land (Z.shiftr b n) 1 =? 1)%Z.

Definition has_tool (w : CapabilityWord) (t : ToolClass.t) : bool := bit_of (word_byte w 0) (tool_bit t).
Definition allow_tool (t : ToolClass.t) (w : CapabilityWord) : CapabilityWord :=
  set_byte 0 (Z.lor (word_byte w 0) (Z.shiftl 1 (tool_bit t))) w.

Definition fs_scope (w : CapabilityWord) : result (option FilesystemScope.t) CapError :=
  let b := word_byte w 1 in
  if (b =? 0)%Z then Ok None
  else match fs_decode b with Some s => Ok (Some s) | None => Err (InvalidFilesystemScope b) end.
Definition set_fs_scope (s : FilesystemScope.t) : CapabilityWord -> CapabilityWord := set_byte 1 (fs_encode s).

Definition network_scope_byte (w : CapabilityWord) : Z := word_byte w 2.
Definition max_runtime_minutes (w : CapabilityWord) : Z := word_byte w 3.
Definition max_memory_mib (w : CapabilityWord) : Z :=
  let b := word_byte w 4 in if (b =? 255)%Z then u32_max else (b * 64)%Z.
Definition output_type (w : CapabilityWord) : Z := word_byte w 5.

Definition trust_level (w : CapabilityWord) : result Z CapError :=
  let b := word_byte w 6 in if (4 <? b)%Z then Err (InvalidTrustLevel b) else Ok b.
Definition set_trust_level (level : Z) (w : CapabilityWord) : result CapabilityWord CapError :=
  if (4 <? level)%Z then Err (InvalidTrustLevel level) else Ok (set_byte 6 level w).

Definition has_flag (w : CapabilityWord) (f : CapFlag.t) : bool := bit_of (word_byte w 7) (flag_bit f).
Definition set_flag (f : CapFlag.t) (w : CapabilityWord) : CapabilityWord :=
  set_byte 7 (Z.lor (word_byte w 7) (Z.shiftl 1 (flag_bit f))) w.
Definition clear_flag (f : CapFlag.t) (w : CapabilityWord) : CapabilityWord :=
  set_byte 7 (Z.ldiff (word_byte w 7) (Z.shiftl 1 (flag_bit f))) w.

(** ** Text *)

(** [{:016x}]: a [u64] never has more than sixteen digits. *)
Fixpoint hex_fixed (k : nat) (n : Z) : string :=
  match k with
  | 0 => ""
  | S k => hex_fixed k (n / 16) +:+ String (hex_digit (n `mod` 16)) ""
  end.

Definition to_hex (w : CapabilityWord) : string := "0x" +:+ hex_fixed 16 w.

Fixpoint hex_digits_val (s : string) (acc : Z) : option Z :=
  match s with
  | "" => Some acc
  | String a s => d ← hex_val a; hex_digits_val s (acc * 16 + d)%Z
  end.

(** [u64::from_str_radix] with radix 16, where a plus sign may come first. *)
Definition parse_hex_u64 (s : string) : option Z :=
  let digits := default s (strip_prefix "+" s) in
  if bool_decide (digits = "") then None
  else
    n ← hex_digits_val digits 0;
    if (n <=? u64_max)%Z then Some n else None.

Definition from_hex (s : string) : option CapabilityWord :=
  let stripped := match strip_prefix "0x" s with
                  | Some t => t
                  | None => default s (strip_prefix "0X" s)
                  end in
  if negb (String.length stripped =? 16) then None else parse_hex_u64 stripped.

(** ** Properties *)

Definition is_word (w : Z) : Prop := (0 <= w < 2 ^ 64)%Z.
Definition is_byte (b : Z) : Prop := (0 <= b < 256)%Z.

Lemma bits_high k n i : (0 <= k)%Z -> (0 <= n < 2 ^ k)%Z -> (k <= i)%Z -> Z.testbit n i = false.
Proof. intros Hk Hn Hi. rewrite <-(Z.mod_small n (2 ^ k)) by done. by apply Z.mod_pow2_bits_high. Qed.

Lemma bits_bound k n : (0 <= k)%Z -> (0 <= n)%Z -> (forall i, (k <= i)%Z -> Z.testbit n i = false) -> (n < 2 ^ k)%Z.
Proof.
  intros Hk Hn Hb. enough (n = n `mod` 2 ^ k)%Z as -> by (apply Z.mod_pos_bound; lia).
  apply Z.bits_inj'. intros i Hi. destruct (Z.lt_ge_cases i k) as [Hlt|Hge].
  - by rewrite Z.mod_pow2_bits_low.
  - by rewrite Z.mod_pow2_bits_high, Hb.
Qed.

Lemma ones_bit k i : (0 <= k)%Z -> (0 <= i)%Z -> Z.testbit (Z.ones k) i = (i <? k)%Z.
Proof. intros. rewrite Z.testbit_ones_nonneg by lia. done. Qed.

Lemma byte_bit w slot i : (0 <= slot < 8)%Z -> (0 <= i)%Z ->
  Z.testbit (word_byte w slot) i = (i <? 8)%Z && Z.testbit w (slot * 8 + i).
Proof.
  intros Hs Hi. unfold word_byte, shr64. rewrite Z.mod_small by lia. change 255%Z with (Z.ones 8).
  rewrite Z.land_spec, Z.shiftr_spec, ones_bit by lia. rewrite andb_comm. by rewrite (Z.add_comm i).
Qed.

Lemma byte_is_byte w slot : is_word w -> (0 <= slot < 8)%Z -> is_byte (word_byte w slot).
Proof.
  intros Hw Hs. assert (0 <= word_byte w slot)%Z.
  { unfold word_byte. apply Z.land_nonneg. lia. }
  split; [done|]. apply (bits_bound 8); [lia|done|]. intros i Hi. rewrite byte_bit by lia.
  by rewrite (proj2 (Z.ltb_ge i 8)).
Qed.

Lemma shl64_bit x slot i : is_byte x -> (0 <= slot < 8)%Z -> (0 <= i)%Z ->
  Z.testbit (shl64 x (slot * 8)) i = (slot * 8 <=? i)%Z && Z.testbit x (i - slot * 8).
Proof.
  intros Hx Hs Hi. unfold shl64. rewrite Z.mod_small by lia. rewrite Z.land_spec, ones_bit by lia.
  destruct (Z.leb_spec (slot * 8) i) as [Hle|Hgt]; simpl.
  - rewrite Z.shiftl_spec by lia. destruct (Z.ltb_spec i 64) as [|Hge]; [by rewrite andb_true_r|].
    rewrite (bits_high 8 x) by (unfold is_byte in Hx; lia). done.
  - by rewrite Z.shiftl_spec_low.
Qed.

Lemma set_byte_bit slot v w i : is_byte v -> is_word w -> (0 <= slot < 8)%Z -> (0 <= i)%Z ->
  Z.testbit (set_byte slot v w) i =
    if ((slot * 8 <=? i)%Z && (i <? slot * 8 + 8)%Z) then Z.testbit v (i - slot * 8) else Z.testbit w i.
Proof.
  intros Hv Hw Hs Hi. unfold set_byte, not64. rewrite Z.lor_spec, Z.land_spec, Z.ldiff_spec, !shl64_bit, ones_bit
    by (unfold is_byte in *; lia).
  change 255%Z with (Z.ones 8).
  destruct (Z.leb_spec (slot * 8) i) as [Hle|Hgt]; simpl.
  - rewrite ones_bit by lia. destruct (Z.ltb_spec i (slot * 8 + 8)) as [Hlt|Hge].
    + rewrite (proj2 (Z.ltb_lt (i - slot * 8) 8)) by lia. simpl. by rewrite !andb_false_r.
    + rewrite (proj2 (Z.ltb_ge (i - slot * 8) 8)) by lia. rewrite (bits_high 8 v) by (unfold is_byte in Hv; lia).
      simpl. rewrite andb_true_r, orb_false_r. destruct (Z.ltb_spec i 64) as [|H64]; [by rewrite andb_true_r|].
      rewrite (bits_high 64 w) by (unfold is_word in Hw; lia). done.
  - simpl. rewrite andb_true_r, orb_false_r. by rewrite (proj2 (Z.ltb_lt i 64)), andb_true_r by lia.
Qed.

Lemma set_byte_word slot v w : is_byte v -> is_word w -> (0 <= slot < 8)%Z -> is_word (set_byte slot v w).
Proof.
  intros Hv Hw Hs. assert (0 <= set_byte slot v w)%Z.
  { unfold set_byte, shl64, not64. apply Z.lor_nonneg. split; apply Z.land_nonneg; [left; apply Hw|right; by vm_compute]. }
  split; [done|]. apply bits_bound; [lia|done|]. intros i Hi. rewrite set_byte_bit by (done || lia).
  rewrite (proj2 (Z.ltb_ge i (slot * 8 + 8))), andb_false_r by lia. apply (bits_high 64); [lia|done|lia].
Qed.

Lemma byte_set_byte slot slot' v w : is_byte v -> is_word w -> (0 <= slot < 8)%Z -> (0 <= slot' < 8)%Z ->
  word_byte (set_byte slot v w) slot' = if decide (slot = slot') then v else word_byte w slot'.
Proof.
  intros Hv Hw Hs Hs'. apply Z.bits_inj'. intros i Hi. rewrite byte_bit, set_byte_bit by (done || lia).
  destruct (Z.ltb_spec i 8) as [Hlt|Hge]; simpl.
  - case_decide as E; [subst slot'|].
    + rewrite (proj2 (Z.leb_le _ _)), (proj2 (Z.ltb_lt _ _)) by lia. simpl. f_equal. lia.
    + rewrite byte_bit, (proj2 (Z.ltb_lt i 8)) by lia. simpl.
      destruct (Z.leb_spec (slot * 8) (slot' * 8 + i)), (Z.ltb_spec (slot' * 8 + i) (slot * 8 + 8)); simpl; try done. lia.
  - case_decide; [|rewrite byte_bit, (proj2 (Z.ltb_ge i 8)) by lia; done].
    rewrite (bits_high 8 v) by (unfold is_byte in Hv; lia). done.
Qed.

Lemma bit_of_testbit b n : (0 <= n)%Z -> bit_of b n = Z.testbit b n.
Proof.
  intros Hn. unfold bit_of. change 1%Z with (Z.ones 1) at 1. rewrite Z.land_ones, Z.shiftr_div_pow2 by lia.
  change (2 ^ 1)%Z with 2%Z. rewrite <-Z.testbit_spec' by done. by destruct (Z.testbit b n).
Qed.

Lemma lor_byte b c : is_byte b -> is_byte c -> is_byte (Z.lor b c).
Proof.
  intros Hb Hc. assert (0 <= Z.lor b c)%Z by (apply Z.lor_nonneg; unfold is_byte in *; lia). split; [done|].
  apply (bits_bound 8); [lia|done|]. intros i Hi. by rewrite Z.lor_spec, !(bits_high 8) by (unfold is_byte in *; lia).
Qed.

Lemma bit_byte n : (0 <= n < 8)%Z -> is_byte (Z.shiftl 1 n).
Proof.
  intros Hn. rewrite Z.shiftl_1_l. split; [lia|]. change 256%Z with (2 ^ 8)%Z. apply Z.pow_lt_mono_r; lia.
Qed.

Lemma tool_bit_range t : (0 <= tool_bit t < 8)%Z.
Proof. destruct t; simpl; lia. Qed.
Lemma tool_bit_inj t t' : tool_bit t = tool_bit t' -> t = t'.
Proof. by destruct t, t'. Qed.

(** Allowing a tool sets its bit and changes nothing else. *)
Lemma allow_tool_spec t w : is_word w ->
  is_word (allow_tool t w) /\
  (forall t', has_tool (allow_tool t w) t' = bool_decide (t = t') || has_tool w t') /\
  (forall slot, (1 <= slot < 8)%Z -> word_byte (allow_tool t w) slot = word_byte w slot).
Proof.
  intros Hw. assert (Hb : is_byte (Z.lor (word_byte w 0) (Z.shiftl 1 (tool_bit t)))).
  { apply lor_byte; [by apply byte_is_byte|apply bit_byte, tool_bit_range]. }
  unfold allow_tool. split_and!.
  - by apply set_byte_word.
  - intros t'. assert (Ht := tool_bit_range t'). unfold has_tool. rewrite byte_set_byte, decide_True by done.
    rewrite !bit_of_testbit, Z.lor_spec, orb_comm by lia. f_equal. rewrite Z.shiftl_spec by lia.
    case_bool_decide as E.
    + subst. by rewrite Z.sub_diag.
    + destruct (Z.lt_ge_cases (tool_bit t') (tool_bit t)); [by rewrite Z.testbit_neg_r by lia|].
      apply (bits_high 1); [lia..|]. enough (tool_bit t <> tool_bit t') by lia. by intros ?%tool_bit_inj.
  - intros slot Hs. rewrite byte_set_byte by (done || lia). by rewrite decide_False by lia.
Qed.

(** ** Text *)

Lemma hex_val_digit d : (0 <= d < 16)%Z -> hex_val (hex_digit d) = Some d.
Proof.
  intros Hd. assert (d ∈ seqZ 0 16) as Hin by (apply elem_of_seqZ; lia).
  assert (H : Forall (fun d => hex_val (hex_digit d) = Some d) (seqZ 0 16)) by (vm_compute; repeat constructor).
  rewrite Forall_forall in H. by apply H.
Qed.

Lemma hex_digits_app s a acc : hex_digits_val (s +:+ String a "") acc =
  (n ← hex_digits_val s acc; d ← hex_val a; Some (n * 16 + d)%Z).
Proof.
  revert acc. induction s as [|b s IH]; intros acc.
  - simpl. by destruct (hex_val a).
  - rewrite str_cons_app. simpl. destruct (hex_val b); [apply IH|done].
Qed.

Lemma hex_fixed_read k n : (0 <= n < 16 ^ Z.of_nat k)%Z ->
  hex_digits_val (hex_fixed k n) 0 = Some n /\ String.length (hex_fixed k n) = k.
Proof.
  revert n. induction k as [|k IH]; intros n Hn; [simpl; split; [f_equal; lia|done]|]. cbn [hex_fixed].
  destruct (IH (n / 16)%Z) as [H1 H2].
  { split; [apply Z.div_pos; lia|]. apply Z.div_lt_upper_bound; [lia|]. rewrite Nat2Z.inj_succ, Z.pow_succ_r in Hn by lia. lia. }
  split.
  - rewrite hex_digits_app, H1. simpl. rewrite hex_val_digit by (apply Z.mod_pos_bound; lia). simpl. f_equal.
    rewrite Z.mul_comm. symmetry. apply Z.div_mod. lia.
  - rewrite str_length_app, H2. simpl. lia.
Qed.

(** The wire form of a word is read back. *)
Lemma hex_round_trip w : is_word w -> from_hex (to_hex w) = Some w.
Proof.
  intros Hw. destruct (hex_fixed_read 16 w) as [H1 H2]; [exact Hw|]. unfold from_hex, to_hex.
  rewrite (proj2 (strip_prefix_Some "0x" _ (hex_fixed 16 w)) eq_refl), H2. cbn [Nat.eqb negb]. unfold parse_hex_u64.
  assert (Hp : strip_prefix "+" (hex_fixed 16 w) = None).
  { destruct (strip_prefix "+" (hex_fixed 16 w)) as [t|] eqn:E; [|done]. apply strip_prefix_Some in E.
    rewrite E in H1. done. }
  rewrite Hp. cbn [from_option id]. rewrite bool_decide_false by (intros E; by rewrite E in H2). rewrite H1. simpl.
  rewrite (proj2 (Z.leb_le _ _)); [done|]. unfold u64_max, is_word in *. lia.
Qed.

(** ** The byte array *)

Definition nth_bit (i : Z) (b : list Z) (j : Z) : bool :=
  if (i <=? j / 8)%Z then match b !! Z.to_nat (j / 8 - i) with Some x => Z.testbit x (j `mod` 8) | None => false end
  else false.

Lemma shl64_nth x i j : is_byte x -> (0 <= i < 8)%Z -> (0 <= j)%Z ->
  Z.testbit (shl64 x (i * 8)) j = if (i =? j / 8)%Z then Z.testbit x (j `mod` 8) else false.
Proof.
  intros Hx Hi Hj. rewrite shl64_bit by done. assert (Hdm := Z.div_mod j 8). assert (Hm := Z.mod_pos_bound j 8).
  destruct (Z.eqb_spec i (j / 8)) as [->|Hne].
  - rewrite (proj2 (Z.leb_le _ _)) by lia. simpl. f_equal. lia.
  - destruct (Z.leb_spec (i * 8) j); [|done]. simpl. apply (bits_high 8); [lia|done|]. lia.
Qed.

Lemma from_bytes_go_bit b i w j : Forall is_byte b -> (0 <= i)%Z -> (i + Z.of_nat (length b) <= 8)%Z -> (0 <= j)%Z ->
  Z.testbit (from_bytes_go i b w) j = Z.testbit w j || nth_bit i b j.
Proof.
  intros Hb. revert i w. induction Hb as [|x b Hx Hb IH]; intros i w Hi Hl Hj; simpl in *.
  - unfold nth_bit. rewrite lookup_nil. destruct (_ <=? _)%Z; by rewrite orb_false_r.
  - rewrite IH, Z.lor_spec, shl64_nth, <-orb_assoc by (done || lia). f_equal. unfold nth_bit.
    destruct (Z.eqb_spec i (j / 8)) as [->|Hne].
    + rewrite (proj2 (Z.leb_gt (j / 8 + 1) _)), Z.leb_refl, Z.sub_diag by lia. simpl. by rewrite orb_false_r.
    + destruct (Z.leb_spec i (j / 8)); [|by rewrite (proj2 (Z.leb_gt (i + 1) _)) by lia].
      rewrite (proj2 (Z.leb_le (i + 1) _)) by lia. simpl.
      replace (Z.to_nat (j / 8 - i)) with (S (Z.to_nat (j / 8 - (i + 1)))) by lia. done.
Qed.

Lemma to_bytes_lookup w k : is_word w -> (0 <= k < 8)%Z -> to_bytes w !! Z.to_nat k = Some (word_byte w k).
Proof.
  intros Hw Hk. assert (k = 0 \/ k = 1 \/ k = 2 \/ k = 3 \/ k = 4 \/ k = 5 \/ k = 6 \/ k = 7)%Z as Hc by lia.
  by repeat destruct Hc as [->|Hc]; [..|subst].
Qed.

Lemma bytes_lookup_high (b : list Z) j : length b = 8 -> (64 <= j)%Z -> nth_bit 0 b j = false.
Proof.
  intros Hl Hj. unfold nth_bit. rewrite (lookup_ge_None_2 b); [by destruct (_ <=? _)%Z|].
  rewrite Hl, Z.sub_0_r. apply (Nat2Z.inj_le 8). rewrite Z2Nat.id by (apply Z.div_pos; lia).
  apply Z.div_le_lower_bound; lia.
Qed.

Lemma from_bytes_bit b j : Forall is_byte b -> length b = 8 -> (0 <= j)%Z ->
  Z.testbit (from_bytes b) j = nth_bit 0 b j.
Proof. intros Hb Hl Hj. unfold from_bytes. by rewrite from_bytes_go_bit, Z.bits_0 by (done || lia). Qed.

Lemma from_bytes_word b : Forall is_byte b -> length b = 8 -> is_word (from_bytes b).
Proof.
  intros Hb Hl. assert (Hh : forall j, (64 <= j)%Z -> Z.testbit (from_bytes b) j = false).
  { intros j Hj. rewrite from_bytes_bit by (done || lia). by apply bytes_lookup_high. }
  assert (0 <= from_bytes b)%Z by (apply Z.bits_iff_nonneg_ex; exists 64%Z; intros m Hm; apply Hh; lia).
  split; [done|]. by apply bits_bound.
Qed.

Lemma from_bytes_byte b k x : Forall is_byte b -> length b = 8 -> b !! k = Some x -> word_byte (from_bytes b) (Z.of_nat k) = x.
Proof.
  intros Hb Hl Hx. assert (Hk := lookup_lt_Some _ _ _ Hx). assert (Hx' : is_byte x) by (by eapply Forall_lookup_1).
  apply Z.bits_inj'. intros i Hi. rewrite byte_bit by lia.
  destruct (Z.ltb_spec i 8) as [Hi8|Hi8]; simpl; [|symmetry; apply (bits_high 8); [lia|done|lia]].
  rewrite from_bytes_bit by (done || lia). unfold nth_bit. rewrite Z.add_comm, Z.div_add, (Z.div_small i), Z.add_0_l by lia.
  rewrite (proj2 (Z.leb_le _ _)), Z.sub_0_r, Nat2Z.id, Hx by lia. by rewrite Z.mod_add, Z.mod_small by lia.
Qed.

Lemma from_to_bytes w : is_word w -> from_bytes (to_bytes w) = w.
Proof.
  intros Hw. assert (Hbs : Forall is_byte (to_bytes w)) by (repeat constructor; by apply byte_is_byte).
  apply Z.bits_inj'. intros j Hj. rewrite from_bytes_bit by done.
  assert (Hm := Z.mod_pos_bound j 8). assert (Hdm := Z.div_mod j 8). assert (0 <= j / 8)%Z by (apply Z.div_pos; lia).
  destruct (Z.lt_ge_cases j 64) as [Hlt|Hge].
  - unfold nth_bit. rewrite (proj2 (Z.leb_le 0 _)), Z.sub_0_r by done. rewrite to_bytes_lookup by (done || lia).
    rewrite byte_bit, (proj2 (Z.ltb_lt _ 8)) by lia. simpl. f_equal. lia.
  - rewrite bytes_lookup_high by done. symmetry. by apply (bits_high 64).
Qed.

Lemma to_from_bytes b : Forall is_byte b -> length b = 8 -> to_bytes (from_bytes b) = b.
Proof.
  intros Hb Hl. apply list_eq. intros n. destruct (decide (n < 8)) as [Hn|Hn].
  - destruct (lookup_lt_is_Some_2 b n) as [x Hx]; [lia|]. rewrite Hx. rewrite <-(Nat2Z.id n) at 1.
    rewrite to_bytes_lookup by (lia || by apply from_bytes_word). by rewrite (from_bytes_byte b n x).
  - rewrite !lookup_ge_None_2; [done|lia|change (length (to_bytes _)) with 8; lia].
Qed.

(** A capability word survives its two representations: the hexadecimal wire form
    is read back to the same word, and so are its eight bytes; eight bytes put
    into a word are its bytes. *)
Theorem capability_word_round_trip w b :
  is_word w -> length b = 8 -> Forall is_byte b ->
  from_hex (to_hex w) = Some w /\ from_bytes (to_bytes w) = w /\ to_bytes (from_bytes b) = b.
Proof. intros Hw Hl Hb. split_and!; [by apply hex_round_trip|by apply from_to_bytes|by apply to_from_bytes]. Qed.

Lemma capability_word_round_trip_witness :
  from_hex (to_hex 66%Z) = Some 66%Z /\ from_bytes (to_bytes 66%Z) = 66%Z /\
  to_bytes (from_bytes [1; 2; 3; 4; 5; 6; 7; 8]%Z) = [1; 2; 3; 4; 5; 6; 7; 8]%Z.
Proof. apply capability_word_round_trip; [by unfold is_word|done|repeat constructor; done]. Defined.
