(* ===== verification/Auditd.v ===== *)
(** * The auditd collector

    Models crates/selfdef-collector-auditd (parser.rs and lib.rs) and the shared
    helpers of crates/selfdef-collector-util: the tokenizer and the record parser,
    the decoding of argument vectors, the events built from records, and the
    tailing loop with the pairing of SYSCALL and EXECVE records and with log
    rotation.

    The log file is what the reads returned: a run is a list of turns of the
    loop, each with what the reader, the file system and the shutdown token
    answered in it. The fields of a record are a [gmap]; the order in which the
    hash map yields them is the parameter [field_iter]. A JSON object made from a
    map is sorted by key, as serde_json's map is. *)

From S2P Require Import Prelude Core NetText.
From stdpp Require Import options.

(** ** collector-util *)

Fixpoint str_rfind_nl (s : string) : option (string * string) :=
  match s with
  | "" => None
  | String a s' =>
      match str_rfind_nl s' with
      | Some (l, r) => Some (String a l, r)
      | None => if bool_decide (a = "010"%char) then Some (String a "", s') else None
      end
  end.

(** [pending[..=last_nl]] and what follows the last line feed. *)
Definition drain_complete_lines (pending : string) : list string * string :=
  match str_rfind_nl pending with
  | None => ([], pending)
  | Some (complete, rest) => (filter (.≠ "") (trim <$> str_lines complete), rest)
  end.

Definition should_reopen (read_pos current_len open_inode path_inode : Z) : bool :=
  negb (open_inode =? path_inode)%Z || (current_len <? read_pos)%Z.

(** ** parser.rs *)

Record AuditRecord := mkAuditRecord {
  ar_kind : string;
  ar_timestamp_secs : Z;
  ar_serial : Z;
  ar_fields : gmap string string;
}.

Definition rec_get (r : AuditRecord) (key : string) : option string := ar_fields r !! key.

(** [str::find]: what follows the first occurrence. *)
Fixpoint find_after (p s : string) : option string :=
  match strip_prefix p s with
  | Some rest => Some rest
  | None => match s with "" => None | String _ s' => find_after p s' end
  end.

(** [rest.starts_with(char::is_whitespace) || rest.is_empty()]. *)
Definition word_ends (rest : string) : bool :=
  match chars rest with [] => true | c :: _ => is_whitespace c end.

Definition parse_avc_decision (line : string) : option string :=
  tail ← find_after "avc:" line;
  let trimmed := trim_start tail in
  let verb v := match strip_prefix v trimmed with Some rest => word_ends rest | None => false end in
  if verb "denied" then Some "denied" else if verb "granted" then Some "granted" else None.

Fixpoint decode_hex (s : string) : option string :=
  match s with
  | "" => Some ""
  | String a (String b s) =>
      hi ← hex_val a; lo ← hex_val b; rest ← decode_hex s;
      Some (String (ascii_of_N (Z.to_N (hi * 16 + lo))) rest)
  | String _ "" => None
  end.

(** A byte for which libaudit encodes a value: a quote, or not printable. *)
Definition needs_encoding (a : ascii) : bool :=
  bool_decide (a = "034"%char) || negb (in_range 33 126 (byte a)).

Definition is_hexdigit (a : ascii) : bool := bool_decide (is_Some (hex_val a)).

Definition maybe_decode_auditd_hex (v : string) : option string :=
  if bool_decide (String.length v < 2) || negb (Nat.even (String.length v)) || negb (all_bytes is_hexdigit v)
  then None
  else
    decoded ← decode_hex v;
    if all_bytes (fun a => negb (needs_encoding a)) decoded then None
    else if utf8_valid decoded then Some decoded else None.

(** [usize] of the target: 64 bits. *)
Definition parse_usize : string -> option Z := parse_uint u64_max.

Definition arg_le (p q : Z * string) : Prop := (p.1 <= q.1)%Z.
#[global] Instance arg_le_dec : RelDecision arg_le.
Proof. unfold arg_le. solve_decision. Defined.

Definition arg_entry (kv : string * string) : option (Z * string) :=
  idx_str ← strip_prefix "a" kv.1;
  idx ← parse_usize idx_str;
  Some (idx, default kv.2 (maybe_decode_auditd_hex kv.2)).

(** The order in which a hash map of fields is visited. *)
Class FieldOrder := {
  field_iter : gmap string string -> list (string * string);
  field_iter_perm m : field_iter m ≡ₚ map_to_list m;
}.

Definition parse_execve_argv `{FieldOrder} (record : AuditRecord) : list string :=
  (merge_sort arg_le (omap arg_entry (field_iter (ar_fields record)))).*2.

(** [u8::is_ascii_whitespace]: space, tab, line feed, form feed, carriage return. *)
Definition ascii_ws (a : ascii) : bool :=
  let n := byte a in (n =? 32)%N || (n =? 9)%N || (n =? 10)%N || (n =? 12)%N || (n =? 13)%N.

Fixpoint span_bytes (p : ascii -> bool) (s : string) : string * string :=
  match s with
  | "" => ("", "")
  | String a s' => if p a then let '(l, r) := span_bytes p s' in (String a l, r) else ("", s)
  end.

(** [from_utf8(..).unwrap_or("")]. *)
Definition utf8_or_empty (s : string) : string := if utf8_valid s then s else "".

Definition is_quote (a : ascii) : bool := bool_decide (a = "'"%char) || bool_decide (a = "034"%char).

Definition strip_outer_quotes (s : string) : string :=
  match s with
  | String q s' =>
      if is_quote q then default s (strip_suffix (String q "") s') else s
  | "" => s
  end.

(** The value at the head of the input, and the rest. *)
Definition read_value (s : string) : string * string :=
  match s with
  | String q s' =>
      if is_quote q then
        let '(body, rest) := span_bytes (fun a => negb (bool_decide (a = q))) s' in
        match rest with
        | String _ rest' => (String q body +:+ String q "", rest')
        | "" => (String q body, "")
        end
      else span_bytes (fun a => negb (ascii_ws a)) s
  | "" => ("", "")
  end.

(** The outer loop; every turn consumes a byte, so the length of the input is
    enough fuel. *)
Fixpoint tokenize_go (fuel : nat) (s : string) : list (string * string) :=
  match fuel with
  | O => []
  | S fuel =>
      let s := (span_bytes ascii_ws s).2 in
      match s with
      | "" => []
      | _ =>
          let '(key, rest) := span_bytes (fun a => negb (bool_decide (a = "="%char)) && negb (ascii_ws a)) s in
          match rest with
          | String c value_text =>
              if bool_decide (c = "="%char) then
                let key := utf8_or_empty key in
                let '(value, rest) := read_value value_text in
                let value := utf8_or_empty value in
                let value := if bool_decide (key = "msg") then value else strip_outer_quotes value in
                (key, value) :: tokenize_go fuel rest
              else tokenize_go fuel rest
          | "" => tokenize_go fuel rest
          end
      end
  end.
Definition tokenize_kv (input : string) : list (string * string) := tokenize_go (String.length input) input.

(** The header fields read so far and the other fields. *)
Record Header := mkHeader {
  hd_kind : option string;
  hd_secs : option Z;
  hd_serial : option Z;
  hd_fields : gmap string string;
}.

Definition insert_all (kvs : list (string * string)) (m : gmap string string) : gmap string string :=
  foldl (fun m kv => <[kv.1 := kv.2]> m) m kvs.

Definition parse_token (h : Header) (kv : string * string) : option Header :=
  let '(k, v) := kv in
  if bool_decide (k = "type") then Some (mkHeader (Some v) (hd_secs h) (hd_serial h) (hd_fields h))
  else if bool_decide (k = "msg") then
    match strip_prefix "audit(" v with
    | Some s =>
        inner ← match strip_suffix "):" s with Some i => Some i | None => strip_suffix ")" s end;
        '(ts, ser) ← split_once ":" inner;
        secs ← f64_secs ts;
        Some (mkHeader (hd_kind h) (Some secs) (parse_uint u64_max ser) (hd_fields h))
    | None =>
        Some (mkHeader (hd_kind h) (hd_secs h) (hd_serial h)
                (insert_all (tokenize_kv (strip_outer_quotes v)) (hd_fields h)))
    end
  else Some (mkHeader (hd_kind h) (hd_secs h) (hd_serial h) (<[k := v]> (hd_fields h))).

Fixpoint parse_tokens (h : Header) (tokens : list (string * string)) : option Header :=
  match tokens with
  | [] => Some h
  | kv :: tokens => h ← parse_token h kv; parse_tokens h tokens
  end.

Definition parse_line (line : string) : option AuditRecord :=
  let line := trim line in
  if bool_decide (line = "") || negb (starts_with line "type=") then None
  else
    h ← parse_tokens (mkHeader None None None ∅) (tokenize_kv line);
    kind ← hd_kind h; secs ← hd_secs h; serial ← hd_serial h;
    Some (mkAuditRecord kind secs serial (hd_fields h)).

(** ** lib.rs: events *)

Definition LOGON : Z := 1.
Definition PROC_LAUNCH : Z := 1.
Definition PROC_TERMINATE : Z := 2.
Definition PROC_OPEN : Z := 3.
Definition PROC_OTHER : Z := 99.

Definition field_le {A} (p q : string * A) : Prop := String.le p.1 q.1.
#[global] Instance field_le_dec {A} : RelDecision (@field_le A).
Proof. unfold field_le. solve_decision. Defined.

(** A [serde_json::Map] in key order. *)
Definition json_of_map (m : gmap string json) : json := JObject (merge_sort field_le (map_to_list m)).
Definition fields_json (m : gmap string string) : json := json_of_map (JString <$> m).

Definition field_or (d : string) (r : AuditRecord) (k : string) : string := default d (rec_get r k).
Abbreviation fq := (field_or "?").

Definition user_named (name : string) : User := mkUser None (Some name) None None None.
Definition actor_named (name : string) : Actor := mkActor (Some (user_named name)) None None None.
Definition endpoint_ip (ip : IpAddr) : Endpoint := mkEndpoint (Some ip) None None None None None.
Definition brute_force : TechniqueRef := mkTechniqueRef "T1110" "Brute Force" Tactic.CredentialAccess.

Definition opt_with {A} (f : A -> Event -> Event) (o : option A) (e : Event) : Event :=
  match o with Some a => f a e | None => e end.

Definition build_auth_event (host_tag : string) (st : Stamp) (seq : Z) (record : AuditRecord) : Event :=
  let success := bool_decide (rec_get record "res" = Some "success") in
  let severity := if success then SeverityId.Informational else SeverityId.Medium in
  let status := if success then StatusId.Success else StatusId.Failure in
  let actor := actor_named <$> rec_get record "acct" in
  let src_endpoint :=
    addr ← match rec_get record "addr" with Some a => Some a | None => rec_get record "hostname" end;
    endpoint_ip <$> parse_ip addr in
  let message := ar_kind record +:+ ": " +:+ field_or "unknown" record "res" +:+ " for " +:+ fq record "acct"
                 +:+ " (" +:+ field_or "auth" record "op" +:+ ")" in
  let event := with_raw (fields_json (ar_fields record)) (with_message message (with_status status
                 (event_new st AUTHENTICATION LOGON severity host_tag "auditd" seq))) in
  let event := opt_with with_actor actor event in
  let event := opt_with with_src_endpoint src_endpoint event in
  if negb success then with_attack brute_force event else event.

Definition build_avc_event (host_tag : string) (st : Stamp) (seq : Z) (record : AuditRecord)
    (raw_line : string) : Event :=
  let decision := default "unknown" (parse_avc_decision raw_line) in
  let denied := bool_decide (decision = "denied") in
  let severity := if denied then SeverityId.High else SeverityId.Informational in
  let status := if denied then StatusId.Failure else StatusId.Success in
  let message := "AVC " +:+ decision +:+ ": comm=" +:+ fq record "comm" +:+ " target=" +:+ fq record "name"
    +:+ " tclass=" +:+ fq record "tclass" +:+ " scontext=" +:+ fq record "scontext" +:+ " tcontext="
    +:+ fq record "tcontext" +:+ " permissive=" +:+ field_or "0" record "permissive" in
  let event := with_raw (fields_json (ar_fields record)) (with_message message (with_status status
                 (event_new st PROCESS_ACTIVITY PROC_OPEN severity host_tag "auditd" seq))) in
  if denied then with_attack (mkTechniqueRef "T1083" "File and Directory Discovery" Tactic.Discovery) event
  else event.

Definition build_seccomp_event (host_tag : string) (st : Stamp) (seq : Z) (record : AuditRecord) : Event :=
  let message := "SECCOMP trip: pid=" +:+ fq record "pid" +:+ " comm=" +:+ fq record "comm" +:+ " exe="
    +:+ fq record "exe" +:+ " syscall=" +:+ fq record "syscall" +:+ " arch=" +:+ fq record "arch" +:+ " sig="
    +:+ fq record "sig" +:+ " filter_code=" +:+ fq record "code" in
  with_attack (mkTechniqueRef "T1562" "Impair Defenses" Tactic.DefenseEvasion)
    (with_raw (fields_json (ar_fields record)) (with_message message (with_status StatusId.Failure
      (event_new st PROCESS_ACTIVITY PROC_OTHER SeverityId.High host_tag "auditd" seq)))).

Definition build_anom_abend_event (host_tag : string) (st : Stamp) (seq : Z) (record : AuditRecord) : Event :=
  let message := "ANOM_ABEND: pid=" +:+ fq record "pid" +:+ " comm=" +:+ fq record "comm" +:+ " exe="
    +:+ fq record "exe" +:+ " sig=" +:+ fq record "sig" in
  with_raw (fields_json (ar_fields record)) (with_message message (with_status StatusId.Failure
    (event_new st PROCESS_ACTIVITY PROC_TERMINATE SeverityId.Medium host_tag "auditd" seq))).

Definition build_anom_promiscuous_event (host_tag : string) (st : Stamp) (seq : Z) (record : AuditRecord) : Event :=
  let message := "ANOM_PROMISCUOUS: dev=" +:+ fq record "dev" +:+ " old_prom=" +:+ fq record "old_prom"
    +:+ " prom=" +:+ fq record "prom" +:+ " auid=" +:+ fq record "auid" in
  with_attack (mkTechniqueRef "T1040" "Network Sniffing" Tactic.Discovery)
    (with_raw (fields_json (ar_fields record)) (with_message message (with_status StatusId.Failure
      (event_new st PROCESS_ACTIVITY PROC_OTHER SeverityId.High host_tag "auditd" seq)))).

Definition build_other_event (host_tag : string) (st : Stamp) (seq : Z) (record : AuditRecord) : Event :=
  with_raw (fields_json (ar_fields record)) (with_message ("auditd record: " +:+ ar_kind record)
    (event_new st 0 0 SeverityId.Informational host_tag "auditd" seq)).

Definition build_event (host_tag : string) (st : Stamp) (seq : Z) (record : AuditRecord) (raw_line : string) :
    Event :=
  let k := ar_kind record in
  if bool_decide (k = "USER_AUTH") || bool_decide (k = "USER_LOGIN") || bool_decide (k = "USER_ACCT")
  then build_auth_event host_tag st seq record
  else if bool_decide (k = "AVC") then build_avc_event host_tag st seq record raw_line
  else if bool_decide (k = "SECCOMP") then build_seccomp_event host_tag st seq record
  else if bool_decide (k = "ANOM_ABEND") then build_anom_abend_event host_tag st seq record
  else if bool_decide (k = "ANOM_PROMISCUOUS") then build_anom_promiscuous_event host_tag st seq record
  else build_other_event host_tag st seq record.

Definition build_syscall_execve_event `{FieldOrder, UnicodeTables} (host_tag : string) (st : Stamp) (seq : Z)
    (syscall execve : AuditRecord) : Event :=
  let argv := parse_execve_argv execve in
  let argc := default (Z.of_nat (length argv)) (rec_get execve "argc" ≫= parse_usize) in
  let exit_code := fq syscall "exit" in
  let argv_display := match argv with [] => "(no argv)" | _ => join " " (str_debug <$> argv) end in
  let message := "EXECVE: pid=" +:+ fq syscall "pid" +:+ " ppid=" +:+ fq syscall "ppid" +:+ " auid="
    +:+ fq syscall "auid" +:+ " uid=" +:+ fq syscall "uid" +:+ " comm=" +:+ fq syscall "comm" +:+ " exe="
    +:+ fq syscall "exe" +:+ " argc=" +:+ show_uint argc +:+ " argv=[" +:+ argv_display +:+ "] exit="
    +:+ exit_code in
  let raw := <["execve_raw" := fields_json (ar_fields execve)]>
               (<["execve_argv" := JArray (JString <$> argv)]> (JString <$> ar_fields syscall)) in
  let status := if bool_decide (exit_code = "0") then StatusId.Success
                else if bool_decide (exit_code = "?") then StatusId.Unknown else StatusId.Failure in
  with_attack (mkTechniqueRef "T1059" "Command and Scripting Interpreter" Tactic.Execution)
    (with_raw (json_of_map raw) (with_message message (with_status status
      (event_new st PROCESS_ACTIVITY PROC_LAUNCH SeverityId.Medium host_tag "auditd" seq)))).

Definition host_tag_from_env_or_hostname (hostname_var etc_hostname : option string) : string :=
  default "unknown-host" (match hostname_var with Some h => Some h | None => trim <$> etc_hostname end).

(** ** lib.rs: the tailing loop *)

Inductive AuditdError := AuditIo (e : string).

Module ReadFrom.
Inductive t := Start | End_.

#[global] Instance eq_dec : EqDecision t.
Proof. solve_decision. Defined.
End ReadFrom.

Definition read_from_parse (s : string) : ReadFrom.t :=
  if bool_decide (s = "start") then ReadFrom.Start else ReadFrom.End_.

(** The sequence counter, the SYSCALL record that waits for its companion, the
    bytes of the current line, the position and inode of the open file, and what
    was published, the latest last. *)
Record Tail := mkTail {
  tl_sequence : Z;
  tl_pending : option (AuditRecord * string);
  tl_buf : string;
  tl_read_pos : Z;
  tl_open_inode : Z;
  tl_published : list Event;
}.

Definition set_pending (p : option (AuditRecord * string)) (t : Tail) : Tail :=
  mkTail (tl_sequence t) p (tl_buf t) (tl_read_pos t) (tl_open_inode t) (tl_published t).
Definition set_buf (b : string) (t : Tail) : Tail :=
  mkTail (tl_sequence t) (tl_pending t) b (tl_read_pos t) (tl_open_inode t) (tl_published t).

(** [next_sequence], the construction of an event and its publication. *)
Definition publish_event (build : Z -> Event) (t : Tail) : Tail :=
  mkTail (wrapping_add_u64 (tl_sequence t) 1) (tl_pending t) (tl_buf t) (tl_read_pos t) (tl_open_inode t)
    (tl_published t ++ [build (tl_sequence t)]).

(** [str::trim_end]. *)
Definition trim_end (s : string) : string := str_concat (reverse (drop_ws (reverse (chars s)))).

(** The answers of one turn: whether shutdown was requested at its top, what the
    read or the shutdown branch gave, the length and inode of the path, the inode
    of the reopened file ([None] when it cannot be opened, [Some None] when its
    metadata cannot be read), and the stamps of the events built. *)
Inductive ReadLine := ReadOk (chunk : string) | ReadErr (e : string) | ReadShutdown.

Record TailTurn := mkTailTurn {
  tt_cancelled : bool;
  tt_read : ReadLine;
  tt_metadata : option (Z * Z);
  tt_open : option (option Z);
  tt_stamps : Stamp * Stamp;
}.

Inductive TailResult := Running (t : Tail) | Stopped (t : Tail) | Failed (e : AuditdError) (t : Tail).

Section tail.
Context `{FieldOrder} `{UnicodeTables} (host_tag : string).

Definition flush_pending (st : Stamp) (t : Tail) : Tail :=
  match tl_pending t with
  | Some (rec, line) => publish_event (fun seq => build_event host_tag st seq rec line) (set_pending None t)
  | None => t
  end.

Definition handle_record (st : Stamp * Stamp) (record : AuditRecord) (line : string) (t : Tail) : Tail :=
  if bool_decide (ar_kind record = "SYSCALL") then set_pending (Some (record, line)) (flush_pending st.1 t)
  else if bool_decide (ar_kind record = "EXECVE") then
    match tl_pending t with
    | Some (syscall_rec, syscall_line) =>
        let t := set_pending None t in
        if (ar_serial syscall_rec =? ar_serial record)%Z then
          publish_event (fun seq => build_syscall_execve_event host_tag st.1 seq syscall_rec record) t
        else
          publish_event (fun seq => build_event host_tag st.2 seq record line)
            (publish_event (fun seq => build_event host_tag st.1 seq syscall_rec syscall_line) t)
    | None => publish_event (fun seq => build_event host_tag st.2 seq record line) t
    end
  else
    publish_event (fun seq => build_event host_tag st.2 seq record line) (flush_pending st.1 t).

Definition tail_turn (turn : TailTurn) (t : Tail) : TailResult :=
  if tt_cancelled turn then Stopped (flush_pending (tt_stamps turn).1 t)
  else
    match tt_read turn with
    | ReadErr e => Failed (AuditIo e) t
    | ReadShutdown => Stopped t
    | ReadOk "" =>
        match tt_metadata turn, tt_open turn with
        | Some (len, ino), Some f =>
            if should_reopen (tl_read_pos t) len (tl_open_inode t) ino then
              let inode := default (tl_open_inode t) f in
              Running (flush_pending (tt_stamps turn).1
                (mkTail (tl_sequence t) (tl_pending t) "" 0 inode (tl_published t)))
            else Running t
        | _, _ => Running t
        end
    | ReadOk chunk =>
        let buf := tl_buf t +:+ chunk in
        let t := mkTail (tl_sequence t) (tl_pending t) buf
                   (wrapping_add_u64 (tl_read_pos t) (Z.of_nat (String.length chunk)))
                   (tl_open_inode t) (tl_published t) in
        if negb (ends_with buf (String "010" "")) then Running t
        else
          let line := trim_end buf in
          if bool_decide (line = "") then Running (set_buf "" t)
          else
            Running (set_buf ""
              (match parse_line line with
               | Some record => handle_record (tt_stamps turn) record line t
               | None => t
               end))
    end.

Fixpoint tail_run (turns : list TailTurn) (t : Tail) : TailResult :=
  match turns with
  | [] => Running t
  | turn :: turns =>
      match tail_turn turn t with
      | Running t => tail_run turns t
      | r => r
      end
  end.

(** The wait for the file: ten polls at most; [None] when shutdown was requested
    while it was missing. *)
Fixpoint wait_for_file (n : nat) (polls : list (bool * bool)) : bool :=
  match n, polls with
  | S n, (exists_, cancelled) :: polls =>
      if exists_ then true else if cancelled then false else wait_for_file n polls
  | _, _ => true
  end.

(** [run]: the wait, the open, the seek, then the loop. [seeked] is the answer to
    the seek, [position] and [inode] what the open file reports. *)
Definition auditd_run (read_from : ReadFrom.t) (polls : list (bool * bool)) (opened : result unit string)
    (seeked : result unit string) (position inode : option Z) (turns : list TailTurn) : TailResult :=
  let t0 pos ino := mkTail 0 None "" pos ino [] in
  if negb (wait_for_file 10 polls) then Stopped (t0 0 0)%Z
  else
    match opened with
    | Err e => Failed (AuditIo e) (t0 0 0)%Z
    | Ok _ =>
        match read_from, seeked with
        | ReadFrom.End_, Err e => Failed (AuditIo e) (t0 0 0)%Z
        | _, _ => tail_run turns (t0 (default 0%Z position) (default 0%Z inode))
        end
    end.
End tail.
