(* ===== verification/AuditdProps.v ===== *)
(** * Properties of the auditd collector

    The tailing loop publishes exactly one event per record or pair of records of
    the log, in order and numbered, however the reads cut the log and whenever it
    is rotated; the tokenizer and the argument decoder; and where the collector
    does not do what its comments say. *)

From S2P Require Import Prelude Core NetText Auditd.
From stdpp Require Import options.

(** ** Pairing: the specification *)

(** A record with the line it came from. *)
Definition entry := (AuditRecord * string)%type.

Inductive emission := Single (r : entry) | Paired (syscall execve : entry).

Definition is_syscall (r : entry) : Prop := ar_kind r.1 = "SYSCALL".
Definition companions (s e : entry) : Prop :=
  ar_kind s.1 = "SYSCALL" /\ ar_kind e.1 = "EXECVE" /\ ar_serial s.1 = ar_serial e.1.
#[global] Instance is_syscall_dec r : Decision (is_syscall r).
Proof. unfold is_syscall. apply _. Defined.
#[global] Instance companions_dec s e : Decision (companions s e).
Proof. unfold companions. apply _. Defined.

(** The records of a log grouped: a SYSCALL with the EXECVE of the same serial that
    follows it, every other record alone. *)
Fixpoint groups (l : list entry) : list emission :=
  match l with
  | [] => []
  | s :: l' =>
      match l' with
      | e :: l'' => if decide (companions s e) then Paired s e :: groups l'' else Single s :: groups l'
      | [] => [Single s]
      end
  end.

Definition records_of (em : emission) : list entry :=
  match em with Single r => [r] | Paired s e => [s; e] end.

(** Grouping neither loses, duplicates nor reorders a record. *)
Lemma groups_lossless l : groups l ≫= records_of = l.
Proof.
  assert (H : groups l ≫= records_of = l /\ forall s, groups (s :: l) ≫= records_of = s :: l); [|apply H].
  induction l as [|e l [IH1 IH2]]; [done|]. split; [apply IH2|]. intros s.
  change (groups (s :: e :: l)) with
    (if decide (companions s e) then Paired s e :: groups l else Single s :: groups (e :: l)).
  case_decide; rewrite bind_cons, ?IH1, ?IH2; done.
Qed.

(** The complete lines of a text as records. *)
Definition nl : ascii := "010".
Definition line_record (piece : string) : option entry :=
  if negb (ends_with piece (String nl "")) then None
  else
    let line := trim_end piece in
    if bool_decide (line = "") then None else (fun r => (r, line)) <$> parse_line line.
Definition records (text : string) : list entry := omap line_record (split_inclusive nl text).

Definition event_of `{FieldOrder, UnicodeTables} (host : string) (st : Stamp) (seq : Z) (em : emission) : Event :=
  match em with
  | Single (r, line) => build_event host st seq r line
  | Paired (s, _) (e, _) => build_syscall_execve_event host st seq s e
  end.

(** ** Pairing as a machine with one pending record *)

Definition scan_step (st : list emission * option entry) (r : entry) : list emission * option entry :=
  let '(out, pend) := st in
  if decide (is_syscall r) then (out ++ (Single <$> option_list pend), Some r)
  else match pend with
       | Some s => if decide (companions s r) then (out ++ [Paired s r], None)
                   else (out ++ [Single s; Single r], None)
       | None => (out ++ [Single r], None)
       end.

Lemma scan_groups l out pend :
  (forall s, pend = Some s -> is_syscall s) ->
  let '(out', pend') := foldl scan_step (out, pend) l in
  out' ++ (Single <$> option_list pend') = out ++ groups (option_list pend ++ l) /\
  (forall s, pend' = Some s -> is_syscall s).
Proof.
  revert out pend. induction l as [|r l IH]; intros out pend Hp.
  - destruct pend; simpl; by rewrite ?app_nil_r.
  - cbn [foldl]. unfold scan_step at 2. case_decide as Hs.
    + specialize (IH (out ++ (Single <$> option_list pend)) (Some r) ltac:(naive_solver)).
      destruct (foldl _ _ _) as [out' pend']. destruct IH as [-> IH]. split; [|done].
      destruct pend as [s|]; simpl; [|by rewrite app_nil_r]. rewrite decide_False.
      * by rewrite <-app_assoc.
      * intros (_ & He & _). unfold is_syscall in Hs. congruence.
    + destruct pend as [s|]; [case_decide as Hc|].
      * specialize (IH (out ++ [Paired s r]) None ltac:(done)). destruct (foldl _ _ _) as [out' pend'].
        destruct IH as [-> IH]. split; [|done]. simpl. rewrite decide_True by done. by rewrite <-app_assoc.
      * specialize (IH (out ++ [Single s; Single r]) None ltac:(done)). destruct (foldl _ _ _) as [out' pend'].
        destruct IH as [-> IH]. split; [|done]. simpl. rewrite decide_False by done. rewrite <-app_assoc. simpl.
        do 2 f_equal. destruct l as [|e l]; [done|]. rewrite decide_False; [done|].
        intros (Hk & _). done.
      * specialize (IH (out ++ [Single r]) None ltac:(done)). destruct (foldl _ _ _) as [out' pend'].
        destruct IH as [-> IH]. split; [|done]. simpl. rewrite <-app_assoc. simpl. f_equal.
        destruct l as [|e l]; [done|]. rewrite decide_False; [done|]. intros (Hk & _). done.
Qed.

(** ** Lines *)

Definition no_nl (s : string) : Prop := all_bytes (fun a => negb (bool_decide (a = nl))) s = true.
Definition whole (s : string) : Prop := s = "" \/ exists s', s = s' +:+ String nl "".

Lemma split_whole s t : whole s -> split_inclusive nl (s +:+ t) = split_inclusive nl s ++ split_inclusive nl t.
Proof.
  induction s as [|a s IH]; intros Hw; [done|]. rewrite str_cons_app. cbn [split_inclusive].
  assert (Hs : whole s /\ (a <> nl -> s <> "")).
  { destruct Hw as [|[[|b s'] E]]; [done| |]; rewrite ?str_cons_app in E.
    - change ("" +:+ String nl "") with (String nl "") in E. simplify_eq. split; [by left|done].
    - simplify_eq. split; [right; by eexists|]. intros _. by destruct s'. }
  destruct Hs as [Hs Hne]. rewrite IH by done. case_bool_decide; [done|].
  destruct s as [|b s]; [by destruct Hne|]. cbn [split_inclusive].
  case_bool_decide; [done|]. by destruct (split_inclusive nl s).
Qed.

Lemma split_no_nl p : no_nl p -> split_inclusive nl p = match p with "" => [] | _ => [p] end.
Proof.
  unfold no_nl. induction p as [|a p IH]; [done|]. simpl. intros [Ha Hp]%andb_true_iff.
  apply negb_true_iff in Ha. rewrite Ha, IH by done. by destruct p.
Qed.

Lemma split_line p : no_nl p -> split_inclusive nl (p +:+ String nl "") = [p +:+ String nl ""].
Proof.
  unfold no_nl. induction p as [|a p IH]; [done|]. rewrite str_cons_app. cbn [split_inclusive all_bytes].
  intros [Ha Hp]%andb_true_iff. apply negb_true_iff in Ha. by rewrite Ha, IH.
Qed.

Lemma ends_with_nl p : ends_with (p +:+ String nl "") (String nl "") = true.
Proof. apply ends_with_spec. by exists p. Qed.

Lemma no_nl_end p : no_nl p -> ends_with p (String nl "") = false.
Proof.
  intros Hp. apply not_true_is_false. intros [t ->]%ends_with_spec. unfold no_nl in Hp.
  rewrite all_bytes_app in Hp. apply andb_true_iff in Hp as [_ Hp]. done.
Qed.

Lemma records_whole_partial s p : whole s -> no_nl p -> records (s +:+ p) = records s.
Proof.
  intros Hs Hp. unfold records. rewrite split_whole, omap_app, (split_no_nl p) by done.
  assert (E : omap line_record (match p with "" => [] | _ => [p] end) = []); [|by rewrite E, app_nil_r].
  destruct p as [|a p]; [done|]. unfold line_record. csimpl. by rewrite no_nl_end.
Qed.

Lemma records_line s p : whole s -> no_nl p ->
  records (s +:+ (p +:+ String nl "")) = records s ++ option_list (line_record (p +:+ String nl "")).
Proof.
  intros Hs Hp. unfold records. rewrite split_whole, omap_app, (split_line p) by done. done.
Qed.

(** ** The loop implements the grouping *)

Section loop.
Context `{FieldOrder} `{UnicodeTables} (host : string).

(** The events published are those of the emissions, in order and numbered. *)
Definition published_as (ems : list emission) (evs : list Event) : Prop :=
  length evs = length ems /\
  forall i em, ems !! i = Some em -> exists st, evs !! i = Some (event_of host st (Z.of_nat i `mod` 2 ^ 64) em).

Record numbered (t : Tail) (out : list emission) : Prop := {
  num_events : published_as out (tl_published t);
  num_seq : tl_sequence t = (Z.of_nat (length (tl_published t)) `mod` 2 ^ 64)%Z;
}.

Lemma publish_numbered t out em st build :
  numbered t out -> (forall seq, build seq = event_of host st seq em) ->
  numbered (publish_event build t) (out ++ [em]).
Proof.
  intros [[Hl He] Hs] Hb. split; simpl.
  - split; [by rewrite !length_app, Hl|]. intros i e Hi. apply lookup_app_Some in Hi as [Hi|[Hge Hi]].
    + destruct (He i e Hi) as [st' E]. exists st'. by apply lookup_app_l_Some.
    + rewrite <-Hl in *. destruct (i - length (tl_published t)) as [|k] eqn:Ei; [|by destruct k]. simplify_eq/=.
      assert (i = length (tl_published t)) as -> by lia. exists st. rewrite lookup_app_r, Nat.sub_diag by lia.
      simpl. by rewrite Hb, Hs.
  - rewrite length_app, Hs. simpl. unfold wrapping_add_u64. rewrite Z.add_mod_idemp_l by lia. f_equal. lia.
Qed.

Lemma numbered_ext t t' out :
  tl_published t' = tl_published t -> tl_sequence t' = tl_sequence t -> numbered t out -> numbered t' out.
Proof. intros E1 E2 [He Hs]. split; by rewrite ?E1, ?E2. Qed.

Lemma flush_numbered st t out :
  numbered t out ->
  numbered (flush_pending host st t) (out ++ (Single <$> option_list (tl_pending t))) /\
  tl_pending (flush_pending host st t) = None.
Proof.
  intros Hn. unfold flush_pending. destruct (tl_pending t) as [[r line]|] eqn:E; simpl; [|by rewrite app_nil_r].
  split; [|done]. eapply publish_numbered; [by apply (numbered_ext t)|]. by intros seq.
Qed.

Lemma handle_record_scan st r line t out :
  numbered t out -> (forall s, tl_pending t = Some s -> is_syscall s) ->
  let '(out', pend') := scan_step (out, tl_pending t) (r, line) in
  numbered (handle_record host st r line t) out' /\ tl_pending (handle_record host st r line t) = pend'.
Proof.
  intros Hn Hp. unfold scan_step, handle_record.
  destruct (decide (is_syscall (r, line))) as [Hs|Hs]; unfold is_syscall in Hs; simpl in Hs.
  { rewrite bool_decide_true by done. split; [|done]. by apply (numbered_ext (flush_pending host st.1 t)), flush_numbered. }
  rewrite bool_decide_false by done. destruct (flush_numbered st.1 t out Hn) as [Hf Hf0].
  destruct (tl_pending t) as [[sr sl]|] eqn:Ep.
  - assert (Hsr := Hp _ eq_refl). unfold is_syscall in Hsr. simpl in Hsr.
    assert (Hn0 : numbered (set_pending None t) out) by by apply (numbered_ext t).
    destruct (decide (companions (sr, sl) (r, line))) as [Hc|Hc]; unfold companions in Hc; simpl in Hc.
    + destruct Hc as (_ & Hk & Hser). rewrite bool_decide_true by done. rewrite (proj2 (Z.eqb_eq _ _)) by done.
      split; [|done]. by eapply publish_numbered.
    + replace (out ++ [Single (sr, sl); Single (r, line)]) with ((out ++ [Single (sr, sl)]) ++ [Single (r, line)])
        by by rewrite <-app_assoc.
      case_bool_decide as Hk.
      * rewrite (proj2 (Z.eqb_neq _ _)) by tauto. split; [|done].
        eapply publish_numbered; [|by intros seq]. eapply publish_numbered; [done|]. by intros seq.
      * split; [by eapply publish_numbered|]. simpl. by rewrite Hf0.
  - case_bool_decide.
    + split; [by eapply publish_numbered|done].
    + split; [|by simpl; rewrite Hf0]. eapply publish_numbered; [|by intros seq]. by rewrite app_nil_r in Hf.
Qed.

(** What [read_line] returns: bytes up to and including a line feed, or bytes
    without one at the end of the file, nothing included. *)
Definition line_chunk (c : string) : Prop := exists p, no_nl p /\ (c = p \/ c = p +:+ String nl "").

(** A turn in which nothing fails and nobody asks for shutdown. *)
Definition reads (turn : TailTurn) : Prop :=
  tt_cancelled turn = false /\ exists c, tt_read turn = ReadOk c /\ line_chunk c.

Definition rotated (turn : TailTurn) (t : Tail) : bool :=
  match tt_metadata turn, tt_open turn with
  | Some (len, ino), Some _ => should_reopen (tl_read_pos t) len (tl_open_inode t) ino
  | _, _ => false
  end.

(** The texts read along a run: of the files that were rotated away, and of the
    current one. *)
Fixpoint texts (turns : list TailTurn) (t : Tail) (done : list string) (cur : string) : list string * string :=
  match turns with
  | [] => (done, cur)
  | turn :: turns =>
      match tail_turn host turn t, tt_read turn with
      | Running t', ReadOk "" => if rotated turn t then texts turns t' (done ++ [cur]) "" else texts turns t' done cur
      | Running t', ReadOk c => texts turns t' done (cur +:+ c)
      | _, _ => (done, cur)
      end
  end.

Definition all_groups (done : list string) (cur : string) : list emission :=
  (done ≫= fun text => groups (records text)) ++ groups (records cur).

(** [cur] was read from the current file, and [before] was published for the
    files before it. *)
Definition tail_inv (t : Tail) (before : list emission) (cur : string) : Prop :=
  (exists s, whole s /\ cur = s +:+ tl_buf t) /\ no_nl (tl_buf t) /\
  let '(out, pend) := foldl scan_step (before, None) (records cur) in numbered t out /\ tl_pending t = pend.

Lemma tail_inv_groups t before cur : tail_inv t before cur ->
  exists out, numbered t out /\
    out ++ (Single <$> option_list (tl_pending t)) = before ++ groups (records cur) /\
    forall s, tl_pending t = Some s -> is_syscall s.
Proof.
  intros (_ & _ & Hi). assert (Hg := scan_groups (records cur) before None ltac:(done)).
  destruct (foldl _ _ _) as [out pend]. destruct Hi as [Hn ->]. exists out. naive_solver.
Qed.

Lemma no_nl_app p q : no_nl p -> no_nl q -> no_nl (p +:+ q).
Proof. unfold no_nl. intros Hp Hq. by rewrite all_bytes_app, Hp, Hq. Qed.

Lemma whole_app s p : whole (s +:+ (p +:+ String nl "")).
Proof. right. exists (s +:+ p). by rewrite str_app_assoc. Qed.

(** A chunk that is not empty. *)
Lemma tail_turn_chunk turn t before cur c :
  tt_cancelled turn = false -> tt_read turn = ReadOk c -> c <> "" -> line_chunk c -> tail_inv t before cur ->
  exists t', tail_turn host turn t = Running t' /\ tail_inv t' before (cur +:+ c).
Proof.
  intros Hc Hr Hne (p & Hp & Hcase) ((s & Hs & ->) & Hb & Hi). unfold tail_turn. rewrite Hc, Hr.
  destruct c as [|a c]; [done|]. set (chunk := String a c) in *. clearbody chunk.
  rewrite records_whole_partial in Hi by done. destruct Hcase as [->| ->].
  - rewrite no_nl_end by by apply no_nl_app. eexists. split; [done|].
    split; [|split; [by apply no_nl_app|]].
    + exists s. split; [done|]. by rewrite str_app_assoc.
    + rewrite str_app_assoc, records_whole_partial by (done || by apply no_nl_app).
      destruct (foldl _ _ _) as [out pend]. destruct Hi as [Hn Hpd]. split; [by apply (numbered_ext t)|done].
  - rewrite <-str_app_assoc, ends_with_nl. simpl negb. cbv iota.
    set (buf := (tl_buf t +:+ p) +:+ String nl "").
    set (t1 := mkTail _ _ buf _ _ _).
    assert (Hrec : records ((s +:+ tl_buf t) +:+ (p +:+ String nl "")) = records s ++ option_list (line_record buf)).
    { rewrite str_app_assoc, <-(str_app_assoc (tl_buf t)). apply records_line; [done|]. by apply no_nl_app. }
    assert (Hlr : line_record buf = if bool_decide (trim_end buf = "") then None
                                    else (fun r => (r, trim_end buf)) <$> parse_line (trim_end buf)).
    { unfold line_record. unfold buf at 1. by rewrite ends_with_nl. }
    assert (Hinv : forall t2, tl_buf t2 = "" ->
              (let '(out, pend) := foldl scan_step (before, None) (records s ++ option_list (line_record buf)) in
               numbered t2 out /\ tl_pending t2 = pend) ->
              tail_inv t2 before ((s +:+ tl_buf t) +:+ (p +:+ String nl ""))).
    { intros t2 Hb2 H2. unfold tail_inv. rewrite Hb2, Hrec. split; [|by split].
      eexists. split; [|symmetry; apply str_app_nil_r]. apply whole_app. }
    assert (Hg := scan_groups (records s) before None ltac:(done)).
    rewrite foldl_app in Hinv. rewrite Hlr in Hinv.
    destruct (foldl scan_step (before, None) (records s)) as [out pend]. destruct Hi as [Hn <-].
    assert (Hn1 : numbered t1 out) by by apply (numbered_ext t).
    case_bool_decide; [eexists; split; [done|]; apply Hinv; [done|]; split; [by apply (numbered_ext t)|done]|].
    destruct (parse_line (trim_end buf)) as [r|].
    + eexists. split; [done|]. apply Hinv; [done|].
      assert (Hh := handle_record_scan (tt_stamps turn) r (trim_end buf) t1 out Hn1 ltac:(naive_solver)).
      revert Hh. change (tl_pending t1) with (tl_pending t).
      change (foldl scan_step (out, tl_pending t) (option_list ((fun r => (r, trim_end buf)) <$> Some r)))
        with (scan_step (out, tl_pending t) (r, trim_end buf)).
      destruct (scan_step (out, tl_pending t) (r, trim_end buf)) as [out' pend']. intros [Hh <-].
      split; [|done]. by apply (numbered_ext (handle_record host (tt_stamps turn) r (trim_end buf) t1)).
    + eexists. split; [done|]. apply Hinv; [done|]. split; [by apply (numbered_ext t)|done].
Qed.

(** The end of the file, with or without a rotation. *)
Lemma tail_turn_eof turn t before cur :
  tt_cancelled turn = false -> tt_read turn = ReadOk "" -> tail_inv t before cur ->
  exists t', tail_turn host turn t = Running t' /\
    if rotated turn t then tail_inv t' (before ++ groups (records cur)) "" else tail_inv t' before cur.
Proof.
  intros Hc Hr Hi. unfold tail_turn, rotated. rewrite Hc, Hr.
  destruct (tt_metadata turn) as [[len ino]|]; [|by eauto]. destruct (tt_open turn) as [f|]; [|by eauto].
  destruct (should_reopen _ _ _ _); [|by eauto]. eexists. split; [done|].
  destruct (tail_inv_groups _ _ _ Hi) as (out & Hn & Ho & _).
  set (t1 := mkTail _ _ _ _ _ _). assert (Hn1 : numbered t1 out) by by apply (numbered_ext t).
  destruct (flush_numbered (tt_stamps turn).1 t1 out Hn1) as [Hf Hp].
  change (tl_pending t1) with (tl_pending t) in Hf. rewrite Ho in Hf.
  assert (Hb : tl_buf (flush_pending host (tt_stamps turn).1 t1) = "").
  { unfold flush_pending. by destruct (tl_pending t1) as [[]|]. }
  unfold tail_inv. rewrite Hb. split; [|done]. exists "". split; [by left|done].
Qed.

Lemma all_groups_snoc done cur : all_groups (done ++ [cur]) "" = all_groups done cur.
Proof. unfold all_groups. rewrite bind_app. simpl. by rewrite !app_nil_r. Qed.

Lemma tail_run_inv turns t done cur :
  Forall reads turns -> tail_inv t (done ≫= fun text => groups (records text)) cur ->
  exists t', tail_run host turns t = Running t' /\
    let '(done', cur') := texts turns t done cur in
    tail_inv t' (done' ≫= fun text => groups (records text)) cur'.
Proof.
  intros Hr. revert t done cur. induction Hr as [|turn turns (Hc & c & Hrd & Hch) _ IH]; intros t done cur Hi.
  { by exists t. }
  cbn [tail_run texts]. destruct c as [|a c].
  - destruct (tail_turn_eof turn t _ cur Hc Hrd Hi) as (t' & -> & Hi'). rewrite Hrd.
    destruct (rotated turn t); [|by apply IH]. apply IH. rewrite bind_app. simpl. by rewrite app_nil_r.
  - destruct (tail_turn_chunk turn t _ cur (String a c) Hc Hrd ltac:(done) Hch Hi) as (t' & -> & Hi').
    rewrite Hrd. by apply IH.
Qed.

Lemma tail_run_app turns rest t0 t :
  tail_run host turns t0 = Running t -> tail_run host (turns ++ rest) t0 = tail_run host rest t.
Proof.
  revert t0. induction turns as [|turn turns IH]; intros t0 Ht; simpl in *; [by simplify_eq|].
  destruct (tail_turn host turn t0); [by apply IH|done|done].
Qed.

Lemma tail_run_start pos ino turns :
  Forall reads turns ->
  exists t, tail_run host turns (mkTail 0 None "" pos ino []) = Running t /\
    let '(done, cur) := texts turns (mkTail 0 None "" pos ino []) [] "" in
    tail_inv t (done ≫= fun text => groups (records text)) cur.
Proof.
  intros Hr. apply tail_run_inv; [done|].
  split; [exists ""; split; [by left|done]|split; [done|split; [split; done|done]]].
Qed.

(** C23: the collector publishes the log, all of it and nothing else. Over any reads,
    cut into lines or not, with any rotations in between, and stopped at the top of
    a turn, the events published are, in order and numbered from zero, one for
    each group of the complete lines of each file read: a SYSCALL record with the
    EXECVE of the same serial that follows it, every other record alone. *)
Theorem tail_publishes_log pos ino turns last :
  Forall reads turns -> tt_cancelled last = true ->
  exists t', tail_run host (turns ++ [last]) (mkTail 0 None "" pos ino []) = Stopped t' /\
    let '(done, cur) := texts turns (mkTail 0 None "" pos ino []) [] "" in
    published_as (all_groups done cur) (tl_published t').
Proof.
  intros Hr Hl. destruct (tail_run_start pos ino turns Hr) as (t & Ht & Hi).
  rewrite (tail_run_app _ _ _ _ Ht). destruct (texts turns _ [] "") as [done cur].
  exists (flush_pending host (tt_stamps last).1 t). split; [simpl; unfold tail_turn; by rewrite Hl|].
  destruct (tail_inv_groups _ _ _ Hi) as (out & Hn & Ho & _).
  destruct (flush_numbered (tt_stamps last).1 t out Hn) as [[Hf _] _]. by rewrite Ho in Hf.
Qed.

Lemma tail_inv_pending t before cur l s :
  tail_inv t before cur -> records cur = l ++ [s] -> is_syscall s -> tl_pending t = Some s.
Proof.
  intros (_ & _ & Hi) E Hs. rewrite E, foldl_app in Hi. cbn [foldl] in Hi.
  destruct (foldl scan_step (before, None) l) as [out pend]. unfold scan_step in Hi.
  rewrite decide_True in Hi by done. by destruct Hi.
Qed.

(** When shutdown interrupts the read instead of being seen at the top of a turn,
    and the last complete line was a SYSCALL record, that record is lost:
    everything of the log is published but it. *)
Theorem shutdown_in_read_drops_record pos ino turns last done cur l s :
  Forall reads turns -> tt_cancelled last = false -> tt_read last = ReadShutdown ->
  texts turns (mkTail 0 None "" pos ino []) [] "" = (done, cur) -> records cur = l ++ [s] -> is_syscall s ->
  exists t' out, tail_run host (turns ++ [last]) (mkTail 0 None "" pos ino []) = Stopped t' /\
    all_groups done cur = out ++ [Single s] /\ published_as out (tl_published t').
Proof.
  intros Hr Hc Hrd Ht Hrec Hs. destruct (tail_run_start pos ino turns Hr) as (t & Hrun & Hi). rewrite Ht in Hi.
  rewrite (tail_run_app _ _ _ _ Hrun). destruct (tail_inv_groups _ _ _ Hi) as (out & Hn & Ho & _).
  exists t, out. rewrite (tail_inv_pending _ _ _ _ _ Hi Hrec Hs) in Ho.
  split; [simpl; unfold tail_turn; by rewrite Hc, Hrd|]. split; [done|apply Hn].
Qed.
End loop.

(** ** Tokenizer *)

Lemma span_bytes_length p s : String.length (span_bytes p s).2 <= String.length s.
Proof. induction s as [|a s IH]; [done|]. simpl. destruct (p a); [|done]. destruct (span_bytes p s). simpl in *. lia. Qed.

Lemma span_bytes_concat p s : (span_bytes p s).1 +:+ (span_bytes p s).2 = s.
Proof.
  induction s as [|a s IH]; [done|]. simpl. destruct (p a); [|done]. destruct (span_bytes p s). simpl in *.
  rewrite str_cons_app. by rewrite IH.
Qed.

Lemma read_value_length s : String.length (read_value s).2 <= String.length s.
Proof.
  destruct s as [|q s]; [done|]. cbn [read_value]. destruct (is_quote q); [|apply span_bytes_length].
  assert (H := span_bytes_length (fun a => negb (bool_decide (a = q))) s). destruct (span_bytes _ s) as [b r].
  simpl in *. destruct r; simpl in *; lia.
Qed.

Lemma span_bytes_stop p s a t : (span_bytes p s).2 = String a t -> p a = false.
Proof.
  induction s as [|b s IH]; [done|]. simpl. destruct (p b) eqn:Hb; [|intros; by simplify_eq/=].
  destruct (span_bytes p s). apply IH.
Qed.

(** The input left after a stray token is shorter. *)
Lemma stray_shorter a s key c rest :
  ascii_ws a = false -> c <> "="%char ->
  span_bytes (fun a => negb (bool_decide (a = "="%char)) && negb (ascii_ws a)) (String a s) = (key, String c rest) ->
  String.length (String c rest) < String.length (String a s).
Proof.
  intros Ha Hc E. set (p := fun a => _) in E.
  assert (Hcat := span_bytes_concat p (String a s)). assert (Hstop := span_bytes_stop p (String a s) c rest).
  rewrite E in Hcat, Hstop. simpl in Hcat, Hstop. specialize (Hstop eq_refl).
  destruct key as [|k key].
  - change ("" +:+ String c rest) with (String c rest) in Hcat. simplify_eq. unfold p in Hstop.
    rewrite Ha, bool_decide_false in Hstop by done. done.
  - apply (f_equal String.length) in Hcat. rewrite str_length_app in Hcat. simpl in *. lia.
Qed.

(** The length of the input is enough fuel: more gives the same tokens. *)
Lemma tokenize_fuel f1 f2 s :
  String.length s <= f1 -> String.length s <= f2 -> tokenize_go f1 s = tokenize_go f2 s.
Proof.
  revert f2 s. induction f1 as [|f1 IH]; intros f2 s H1 H2.
  - destruct s; simpl in H1; [|lia]. by destruct f2.
  - destruct f2 as [|f2]; [destruct s; simpl in H2; [done|lia]|]. cbn [tokenize_go].
    assert (Hs := span_bytes_length ascii_ws s). assert (Hst := span_bytes_stop ascii_ws s).
    destruct (span_bytes ascii_ws s) as [ws s'] eqn:Ews. simpl in Hs, Hst. cbn [snd].
    destruct s' as [|a s']; [done|]. specialize (Hst a s' eq_refl).
    destruct (span_bytes _ (String a s')) as [key rest] eqn:Ek.
    destruct rest as [|c rest]; [apply IH; simpl; lia|]. case_bool_decide as Hc.
    + assert (Hv := read_value_length rest). destruct (read_value rest) as [v r]. simpl in Hv. f_equal.
      assert (Hlen := span_bytes_length (fun a => negb (bool_decide (a = "="%char)) && negb (ascii_ws a)) (String a s')).
      rewrite Ek in Hlen. simpl in Hlen. apply IH; simpl in *; lia.
    + assert (Hlen := stray_shorter a s' key c rest Hst Hc Ek). apply IH; simpl in *; lia.
Qed.

Lemma span_bytes_app p l r :
  all_bytes p l = true -> (forall a t, r = String a t -> p a = false) -> span_bytes p (l +:+ r) = (l, r).
Proof.
  intros Hl Hr. induction l as [|a l IH].
  - change ("" +:+ r) with r. destruct r as [|a r]; [done|]. simpl. by rewrite (Hr a r).
  - rewrite str_cons_app. simpl in *. apply andb_true_iff in Hl as [-> Hl]. by rewrite IH.
Qed.

Lemma utf8_valid_go_app need s t :
  utf8_valid_go need s = true -> utf8_valid_go need (s +:+ t) = utf8_valid_go [] t.
Proof.
  revert need. induction s as [|a s IH]; intros need.
  - simpl. intros ->%bool_decide_eq_true. done.
  - rewrite str_cons_app. destruct need as [|[lo hi] need]; simpl.
    + repeat case_match; try done; apply IH.
    + intros [-> H]%andb_true_iff. by apply IH.
Qed.

Lemma utf8_valid_app s t : utf8_valid s = true -> utf8_valid (s +:+ t) = utf8_valid t.
Proof. apply utf8_valid_go_app. Qed.

Definition dq : ascii := "034".
(** A field as auditd writes a plain value, and the keys and values so written. *)
Definition render_field (kv : string * string) : string := kv.1 +:+ String "=" (String dq (kv.2 +:+ String dq "")).
Definition plain_field (kv : string * string) : Prop :=
  kv.1 <> "" /\ kv.1 <> "msg" /\ utf8_valid kv.1 = true /\ utf8_valid kv.2 = true /\
  all_bytes (fun a => negb (bool_decide (a = "="%char)) && negb (ascii_ws a)) kv.1 = true /\
  all_bytes (fun a => negb (bool_decide (a = dq))) kv.2 = true.

Lemma tokenize_blank s : tokenize_kv (String " " s) = tokenize_kv s.
Proof.
  unfold tokenize_kv. destruct s as [|a s]; [done|].
  rewrite (tokenize_fuel _ (S (String.length (String a s))) (String a s)) by (simpl; lia).
  cbn [String.length tokenize_go span_bytes]. change (ascii_ws " ") with true. cbv iota.
  by destruct (if ascii_ws a then _ else _).
Qed.

Lemma tokenize_field k v rest :
  plain_field (k, v) -> tokenize_kv (render_field (k, v) +:+ rest) = (k, v) :: tokenize_kv rest.
Proof.
  intros (Hk & Hm & Huk & Huv & Hkb & Hvb). unfold render_field. simpl in *.
  unfold tokenize_kv. rewrite str_app_assoc, str_cons_app, str_cons_app, str_app_assoc in *.
  destruct k as [|a k]; [done|]. rewrite (str_cons_app a k) in *. simpl String.length in *. cbn [tokenize_go].
  assert (Ha : ascii_ws a = false).
  { simpl in Hkb. rewrite !andb_true_iff, !negb_true_iff in Hkb. tauto. }
  assert (Hws : forall x, span_bytes ascii_ws (String a x) = ("", String a x)) by (intros x; simpl; by rewrite Ha).
  rewrite Hws. cbn [snd].
  rewrite <-(str_cons_app a k).
  rewrite (span_bytes_app _ (String a k)); [|exact Hkb|by intros ? ? [= <- _]].
  rewrite bool_decide_true by done. unfold read_value. change (is_quote dq) with true. cbv iota.
  change (String dq "" +:+ rest) with (String dq rest).
  rewrite (span_bytes_app _ v); [|exact Hvb|intros ? ? [= <- _]; by rewrite bool_decide_true].
  assert (Hke : utf8_or_empty (String a k) = String a k) by (unfold utf8_or_empty; by rewrite Huk).
  rewrite Hke, (bool_decide_false (String a k = "msg")) by done.
  assert (Hq : utf8_valid (String dq v +:+ String dq "") = true).
  { rewrite str_cons_app. change (utf8_valid (String dq ?x)) with (utf8_valid x). by rewrite utf8_valid_app. }
  unfold utf8_or_empty. rewrite Hq. f_equal.
  - f_equal. rewrite str_cons_app. unfold strip_outer_quotes. change (is_quote dq) with true. cbv iota.
    by rewrite (proj2 (strip_suffix_Some _ _ v)).
  - apply tokenize_fuel; [|done]. rewrite str_length_app. simpl. rewrite str_length_app. simpl. lia.
Qed.

(** A record line written field by field is tokenized into those fields. *)
Theorem tokenize_round_trip fields :
  Forall plain_field fields -> tokenize_kv (join " " (render_field <$> fields)) = fields.
Proof.
  induction 1 as [|[k v] fields Hf Hfs IH]; [done|]. destruct fields as [|f2 fields].
  - simpl. rewrite <-(str_app_nil_r (render_field _)). by rewrite tokenize_field.
  - change (join " " (render_field <$> (k, v) :: f2 :: fields)) with
      (render_field (k, v) +:+ (" " +:+ join " " (render_field <$> f2 :: fields))).
    rewrite tokenize_field by done. change (" " +:+ ?x) with (String " " x). by rewrite tokenize_blank, IH.
Qed.

(** ** Arguments *)

(** How auditd stores an argument: in hexadecimal when a byte of it needs encoding,
    in quotes, which the tokenizer strips, otherwise. *)
Definition hex_upper (d : Z) : ascii := ascii_of_N (Z.to_N (if (d <? 10)%Z then d + 48 else d + 55)).
Fixpoint encode_hex (s : string) : string :=
  match s with
  | "" => ""
  | String a s =>
      String (hex_upper (Z.of_N (byte a) / 16)) (String (hex_upper (Z.of_N (byte a) `mod` 16)) (encode_hex s))
  end.
Definition clean (arg : string) : bool := all_bytes (fun a => negb (needs_encoding a)) arg.
Definition stored (arg : string) : string := if clean arg then arg else encode_hex arg.
Definition decode_arg (v : string) : string := default v (maybe_decode_auditd_hex v).

Lemma hex_byte a :
  hex_val (hex_upper (Z.of_N (byte a) / 16)) = Some (Z.of_N (byte a) / 16)%Z /\
  hex_val (hex_upper (Z.of_N (byte a) `mod` 16)) = Some (Z.of_N (byte a) `mod` 16)%Z /\
  ascii_of_N (Z.to_N (Z.of_N (byte a) / 16 * 16 + Z.of_N (byte a) `mod` 16)) = a.
Proof. by destruct a as [[] [] [] [] [] [] [] []]. Qed.

Lemma decode_encode_hex s : decode_hex (encode_hex s) = Some s.
Proof.
  induction s as [|a s IH]; [done|]. cbn [encode_hex decode_hex]. destruct (hex_byte a) as (-> & -> & E).
  cbn [mbind option_bind]. rewrite IH. cbn [mbind option_bind]. by rewrite E.
Qed.

Lemma encode_hex_shape s :
  String.length (encode_hex s) = 2 * String.length s /\ all_bytes is_hexdigit (encode_hex s) = true.
Proof.
  induction s as [|a s [IHl IHb]]; [done|]. cbn [encode_hex String.length all_bytes].
  destruct (hex_byte a) as (E1 & E2 & _). unfold is_hexdigit at 1 2. rewrite E1, E2, !bool_decide_true by eauto.
  rewrite IHb. split; [lia|done].
Qed.

Lemma decode_hex_length v w : decode_hex v = Some w -> String.length v = 2 * String.length w.
Proof.
  revert v w. fix IH 1. intros [|a [|b v]] w; [by intros [= <-]|done|]. cbn [decode_hex].
  destruct (hex_val a), (hex_val b); try done. cbn [mbind option_bind].
  destruct (decode_hex v) as [r|] eqn:E; [|done]. cbn [mbind option_bind]. intros [= <-].
  apply IH in E. simpl. lia.
Qed.

Lemma maybe_decode_longer v w : maybe_decode_auditd_hex v = Some w -> w <> v.
Proof.
  unfold maybe_decode_auditd_hex. case_match eqn:Eg; [done|].
  destruct (decode_hex v) as [d|] eqn:Ed; [|done]. simpl. repeat case_match; try done. intros [= <-] ->.
  apply decode_hex_length in Ed. apply orb_false_iff in Eg as [[Hl _]%orb_false_iff _].
  apply bool_decide_eq_false in Hl. lia.
Qed.

Lemma decode_dirty arg : utf8_valid arg = true -> clean arg = false -> maybe_decode_auditd_hex (encode_hex arg) = Some arg.
Proof.
  intros Hu Hc. destruct (encode_hex_shape arg) as [Hl Hb]. unfold maybe_decode_auditd_hex.
  rewrite Hb, Hl, (bool_decide_false (2 * _ < 2)) by (destruct arg; [done|simpl; lia]).
  rewrite Nat.even_mul. simpl. rewrite decode_encode_hex. simpl. unfold clean in Hc. by rewrite Hc, Hu.
Qed.

(** Which arguments survive. An argument that auditd encodes is decoded exactly;
    one that auditd writes in quotes is kept exactly when it does not itself read
    as the encoding of a text that needs one. An argument like 20 or 0755 does: it
    reaches detection as the byte it would encode. *)
Theorem execve_arg_exact arg :
  utf8_valid arg = true ->
  (clean arg = false -> decode_arg (stored arg) = arg) /\
  (clean arg = true -> (decode_arg (stored arg) = arg <-> maybe_decode_auditd_hex arg = None)) /\
  decode_arg (stored "20") = " " /\ decode_arg (stored "0755") <> "0755".
Proof.
  intros Hu. unfold decode_arg, stored. split_and!.
  - intros Hc. by rewrite Hc, decode_dirty.
  - intros ->. destruct (maybe_decode_auditd_hex arg) as [w|] eqn:E; [|done]. simpl.
    split; [|done]. by intros ?%(maybe_decode_longer _ _ E).
  - reflexivity.
  - discriminate.
Qed.

Section argv.
Context `{FieldOrder}.
#[local] Set Default Proof Using "Type*".

Definition arg_key (i : Z) : string := "a" +:+ show_uint i.
(** The arguments of a record, by index, and no other field that reads as one. *)
Definition args_of (m : gmap string string) (vs : list string) : Prop :=
  (forall i v, vs !! i = Some v -> m !! arg_key (Z.of_nat i) = Some v) /\
  (forall k idx, is_Some (m !! k) -> strip_prefix "a" k ≫= parse_usize = Some idx ->
     exists i, i < length vs /\ k = arg_key (Z.of_nat i)).

Lemma parse_arg_key i : (Z.of_nat i <= u64_max)%Z -> strip_prefix "a" (arg_key (Z.of_nat i)) ≫= parse_usize = Some (Z.of_nat i).
Proof.
  intros Hi. rewrite (proj2 (strip_prefix_Some "a" _ (show_uint (Z.of_nat i)))) by done. simpl.
  apply parse_show_uint. lia.
Qed.

Definition indexed (vs : list string) : list (Z * string) := imap (fun i v => (Z.of_nat i, decode_arg v)) vs.

Lemma elem_of_indexed vs p :
  p ∈ indexed vs <-> exists i v, vs !! i = Some v /\ p = (Z.of_nat i, decode_arg v).
Proof.
  unfold indexed. rewrite list_elem_of_lookup. setoid_rewrite list_lookup_imap. split.
  - intros (i & Hi). destruct (vs !! i) as [v|] eqn:E; simpl in Hi; [|done]. simplify_eq. eauto.
  - intros (i & v & E & ->). exists i. by rewrite E.
Qed.

Lemma indexed_sorted vs : StronglySorted arg_le (indexed vs).
Proof.
  unfold indexed. assert (H' : forall k, StronglySorted arg_le (imap (fun i v => (Z.of_nat (k + i), decode_arg v)) vs)).
  { induction vs as [|v vs IH]; intros k; [constructor|]. rewrite imap_cons. constructor.
    - specialize (IH (S k)). erewrite imap_ext; [exact IH|]. intros i x _. simpl. do 2 f_equal. lia.
    - apply Forall_forall. intros p Hp. apply list_elem_of_lookup in Hp as [i Hi]. rewrite list_lookup_imap in Hi.
      destruct (vs !! i); simpl in Hi; [|done]. simplify_eq. unfold arg_le. simpl. lia. }
  apply (H' 0).
Qed.

Lemma arg_le_total : Total arg_le.
Proof using Type. intros p q. unfold arg_le. lia. Qed.
Lemma arg_le_trans : Transitive arg_le.
Proof using Type. intros p q r. unfold arg_le. lia. Qed.
#[local] Existing Instance arg_le_total.
#[local] Existing Instance arg_le_trans.

Lemma indexed_NoDup vs : NoDup (indexed vs).*1.
Proof.
  unfold indexed. rewrite fmap_imap. apply NoDup_alt. intros i j x. rewrite !list_lookup_imap.
  destruct (vs !! i), (vs !! j); simpl; try done. intros. simplify_eq. lia.
Qed.

Lemma arg_entries_perm m vs : args_of m vs -> (Z.of_nat (length vs) <= u64_max)%Z ->
  omap arg_entry (field_iter m) ≡ₚ indexed vs.
Proof.
  intros [Hin Hout] Hlen.
  assert (Hperm : omap arg_entry (field_iter m) ≡ₚ omap arg_entry (map_to_list m))
    by by rewrite field_iter_perm.
  assert (Hentry : forall k v p, (k, v) ∈ map_to_list m -> arg_entry (k, v) = Some p ->
    exists i, i < length vs /\ k = arg_key (Z.of_nat i) /\ vs !! i = Some v /\ p = (Z.of_nat i, decode_arg v)).
  { intros k v p Hkv%elem_of_map_to_list. unfold arg_entry. cbn [fst snd]. rewrite bind_Some. intros (s & Hs & Hp).
    apply bind_Some in Hp as (idx & Hidx & [= <-]).
    destruct (Hout k idx ltac:(eauto)) as (i & Hi & ->); [by rewrite Hs|]. exists i.
    assert (E := parse_arg_key i ltac:(lia)). rewrite Hs in E. cbn [mbind option_bind] in E. rewrite Hidx in E. simplify_eq.
    destruct (lookup_lt_is_Some_2 vs i Hi) as [w Hw]. assert (E2 := Hin i w Hw). naive_solver. }
  rewrite Hperm. apply NoDup_Permutation.
  - apply NoDup_omap; [|apply NoDup_map_to_list]. intros [k v] [k' v'] p Hx Hy Ex Ey.
    destruct (Hentry _ _ _ Hx Ex) as (i & _ & -> & Hv & ->). destruct (Hentry _ _ _ Hy Ey) as (j & _ & -> & Hv' & E).
    assert (i = j) as <- by (simplify_eq; lia). congruence.
  - by apply (NoDup_fmap_1 fst), indexed_NoDup.
  - intros p. rewrite list_elem_of_omap, elem_of_indexed. split.
    + intros ([k v] & Hx & Ex). destruct (Hentry _ _ _ Hx Ex) as (i & _ & -> & Hv & ->). eauto.
    + intros (i & v & Hv & ->). exists (arg_key (Z.of_nat i), v). split; [by apply elem_of_map_to_list, Hin|].
      assert (Hi := lookup_lt_Some _ _ _ Hv). assert (E := parse_arg_key i ltac:(lia)).
      unfold arg_entry. cbn [fst snd]. destruct (strip_prefix "a" (arg_key (Z.of_nat i))) as [s|]; [|done].
      cbn [mbind option_bind] in *. by rewrite E.
Qed.

(** The argument vector of a record is the decoded values of its argument fields in
    the order of their indices, all of them, whatever the order in which the hash
    map yields the fields; ten arguments and more included. *)
Theorem execve_argv_in_order r vs :
  args_of (ar_fields r) vs -> (Z.of_nat (length vs) <= u64_max)%Z -> parse_execve_argv r = decode_arg <$> vs.
Proof.
  intros Ha Hl. unfold parse_execve_argv. assert (Hp := arg_entries_perm _ _ Ha Hl).
  assert (E : merge_sort arg_le (omap arg_entry (field_iter (ar_fields r))) = indexed vs).
  { apply (StronglySorted_unique_strong arg_le).
    - intros p q Hin1 Hin2 L1 L2. rewrite merge_sort_Permutation, Hp in Hin1.
      apply elem_of_indexed in Hin1 as (i & v & Hv & ->). apply elem_of_indexed in Hin2 as (j & w & Hw & ->).
      unfold arg_le in *. simpl in *. assert (i = j) as <- by lia. congruence.
    - apply StronglySorted_merge_sort; apply _.
    - apply indexed_sorted.
    - by rewrite merge_sort_Permutation. }
  rewrite E. unfold indexed. rewrite fmap_imap. apply list_eq. intros i. rewrite list_lookup_imap, list_lookup_fmap.
  by destruct (vs !! i).
Qed.
End argv.

(** ** Events *)

(** What the setters of the builders leave alone. *)
Definition base (e : Event) :=
  (ev_schema e, ev_host_tag e, ev_source e, ev_class_uid e, ev_activity_id e, ev_type_uid e,
   m_sequence (ev_metadata e), ev_federated e, ev_federation_verified e).

Lemma base_setters :
  (forall m e, base (with_message m e) = base e) /\ (forall s e, base (with_status s e) = base e) /\
  (forall r e, base (with_raw r e) = base e) /\ (forall t e, base (with_attack t e) = base e) /\
  (forall a e, base (opt_with with_actor a e) = base e) /\ (forall p e, base (opt_with with_src_endpoint p e) = base e).
Proof. split_and!; [by intros ? []..| |]; intros [] []; done. Qed.

Lemma base_event_of `{FieldOrder, UnicodeTables} host st seq em :
  exists cls act, base (event_of host st seq em) =
    (SCHEMA_VERSION, host, "auditd", cls, act, type_uid cls act, seq, false, false).
Proof.
  destruct base_setters as (Hm & Hs & Hr & Ha & Hac & Hep).
  destruct em as [[r line]|[s ?] [e ?]]; simpl.
  - unfold build_event. repeat case_match;
      unfold build_auth_event, build_avc_event, build_seccomp_event, build_anom_abend_event,
        build_anom_promiscuous_event, build_other_event; cbv zeta;
      repeat case_match; rewrite ?Ha, ?Hep, ?Hac, ?Hr, ?Hm, ?Hs; by do 2 eexists.
  - unfold build_syscall_execve_event. cbv zeta. rewrite Ha, Hr, Hm, Hs. by do 2 eexists.
Qed.

(** Every event of the collector, of whatever record or pair, passes validation
    when the host has a tag, carries that tag, the sequence number it was given
    and the source auditd, and is not marked as coming from another host. *)
Theorem auditd_events_valid `{FieldOrder, UnicodeTables} host st seq em :
  host <> "" ->
  validate (event_of host st seq em) = Ok tt /\ ev_host_tag (event_of host st seq em) = host /\
  ev_source (event_of host st seq em) = "auditd" /\ m_sequence (ev_metadata (event_of host st seq em)) = seq /\
  ev_federated (event_of host st seq em) = false.
Proof using Type.
  intros Hh. destruct (base_event_of host st seq em) as (cls & act & E).
  destruct (event_of host st seq em). unfold base in E. simpl in E. simplify_eq. simpl.
  split_and!; try done. unfold validate. simpl. rewrite bool_decide_false by done. by rewrite Z.eqb_refl.
Qed.

(** ** Evaluation *)
Module AuditdExamples.
#[local] Instance demo_order : FieldOrder.
Proof. exists map_to_list. done. Defined.
#[local] Instance demo_unicode : UnicodeTables :=
  {| uc_alphanumeric := fun _ => false; uc_uppercase := fun c => c; uc_debug_plain := fun _ => true |}.

Definition q (s : string) : string := String dq (s +:+ String dq "").
Definition lf : string := String nl "".
Definition line_syscall : string := "type=SYSCALL msg=audit(1736944800.000:42): exit=0 pid=7 comm=" +:+ q "sh".
Definition line_execve : string :=
  "type=EXECVE msg=audit(1736944800.000:42): argc=3 a0=" +:+ q "sh" +:+ " a1=" +:+ q "-c" +:+ " a2=69643B206964".
Definition line_auth : string :=
  "type=USER_AUTH msg=audit(1736944496.789:1234567): pid=1 uid=0 msg='op=PAM:authentication acct="
  +:+ q "alice" +:+ " addr=192.0.2.5 res=failed'".

Example parse_auth :
  (fun r => (ar_kind r, ar_timestamp_secs r, ar_serial r, rec_get r "acct", rec_get r "addr", rec_get r "op"))
    <$> parse_line line_auth
  = Some ("USER_AUTH", 1736944496%Z, 1234567%Z, Some "alice", Some "192.0.2.5", Some "PAM:authentication").
Proof. vm_compute. reflexivity. Qed.

Example parse_argv : parse_execve_argv <$> parse_line line_execve = Some ["sh"; "-c"; "id; id"].
Proof. vm_compute. reflexivity. Qed.

Example avc :
  parse_avc_decision <$> ["x avc:  denied  { read }"; "avc: granted"; "avc: deniedfoo"; "none"]
  = [Some "denied"; Some "granted"; None; None].
Proof. vm_compute. reflexivity. Qed.

Example drain : drain_complete_lines ("one" +:+ lf +:+ "  " +:+ lf +:+ "two" +:+ lf +:+ "part") = (["one"; "two"], "part").
Proof. vm_compute. reflexivity. Qed.

Definition st0 : Stamp := mkStamp 1 0 0.
Definition read (c : string) : TailTurn := mkTailTurn false (ReadOk c) (Some (100%Z, 5%Z)) (Some (Some 6%Z)) (st0, st0).
Definition stop (cancelled : bool) : TailTurn := mkTailTurn cancelled ReadShutdown None None (st0, st0).

Lemma chunk_plain s : all_bytes (fun a => negb (bool_decide (a = nl))) s = true -> line_chunk s.
Proof. intros H. exists s. split; [exact H|by left]. Qed.
Lemma chunk_line s : all_bytes (fun a => negb (bool_decide (a = nl))) s = true -> line_chunk (s +:+ lf).
Proof. intros H. exists s. split; [exact H|by right]. Qed.

(** A SYSCALL record cut in two, a rotation, and the records of the next file. *)
Definition turns : list TailTurn :=
  [read "type=SYSCALL msg=audit(1.0:4"; read ("2): exit=0" +:+ lf); read ""; read (line_syscall +:+ lf);
   read (line_execve +:+ lf)].

Lemma tail_publishes_log_witness :
  exists t', tail_run "web" (turns ++ [stop true]) (mkTail 0 None "" 0 6 []) = Stopped t' /\
    length (tl_published t') = 2.
Proof.
  destruct (tail_publishes_log "web" 0 6 turns (stop true)) as (t' & E & _).
  - repeat constructor; (eexists; split; [reflexivity|]);
      first [apply chunk_plain; vm_compute; reflexivity | apply chunk_line; vm_compute; reflexivity].
  - reflexivity.
  - exists t'. split; [exact E|]. vm_compute in E. injection E as <-. reflexivity.
Defined.

Lemma shutdown_in_read_drops_record_witness :
  exists t', tail_run "web" ([read (line_syscall +:+ lf)] ++ [stop false]) (mkTail 0 None "" 0 5 []) = Stopped t' /\
    tl_published t' = [].
Proof.
  destruct (shutdown_in_read_drops_record "web" 0 5 [read (line_syscall +:+ lf)] (stop false) [] (line_syscall +:+ lf) []
    (default (mkAuditRecord "SYSCALL" 0 0 ∅) (parse_line line_syscall), line_syscall)) as (t' & out & E & Eg & _).
  - repeat constructor. eexists. split; [reflexivity|]. apply chunk_line. vm_compute. reflexivity.
  - reflexivity.
  - reflexivity.
  - vm_compute. reflexivity.
  - vm_compute. reflexivity.
  - reflexivity.
  - exists t'. split; [exact E|]. vm_compute in E. injection E as <-. reflexivity.
Defined.

Lemma tokenize_round_trip_witness :
  tokenize_kv (join " " (render_field <$> [("acct", "alice b"); ("exe", "/usr/bin/id")])) =
    [("acct", "alice b"); ("exe", "/usr/bin/id")].
Proof. apply (tokenize_round_trip [("acct", "alice b"); ("exe", "/usr/bin/id")]). by repeat constructor. Defined.

Lemma execve_arg_exact_witness : decode_arg (stored "id; id") = "id; id".
Proof. exact (proj1 (execve_arg_exact "id; id" eq_refl) eq_refl). Defined.

Lemma execve_argv_in_order_witness :
  parse_execve_argv (mkAuditRecord "EXECVE" 0 1 {["a0" := "ls"; "a1" := "-la"; "argc" := "2"]}) = ["ls"; "-la"].
Proof.
  apply (execve_argv_in_order (mkAuditRecord "EXECVE" 0 1 {["a0" := "ls"; "a1" := "-la"; "argc" := "2"]}) ["ls"; "-la"]).
  - split.
    + intros [|[|i]] v E; [injection E as <-; reflexivity..|]. by destruct i.
    + simpl. intros k idx [v Hk]. rewrite lookup_insert_Some in Hk. destruct Hk as [[<- _]|[_ Hk]]; [by exists 0; split; [lia|]|].
      rewrite lookup_insert_Some in Hk. destruct Hk as [[<- _]|[_ Hk]]; [by exists 1; split; [lia|]|].
      apply lookup_singleton_Some in Hk as [<- _]. discriminate.
  - vm_compute. discriminate.
Defined.

Lemma auditd_events_valid_witness :
  validate (event_of "web" st0 3 (Single (mkAuditRecord "SECCOMP" 0 1 ∅, ""))) = Ok tt.
Proof. apply (auditd_events_valid "web" st0 3 (Single (mkAuditRecord "SECCOMP" 0 1 ∅, ""))). discriminate. Defined.
End AuditdExamples.
