(* ===== verification/Collectors.v ===== *)
(** * The other collectors

    Models crates/selfdef-collector-{suricata,tetragon,journald,eventstream,canary,ebpf}
    and crates/selfdef-ebpf-common. Four of them tail a file of JSON lines with the
    same loop, which is modelled once over the translation of a line; each collector
    is a Module. What the reads, the file system, the children and the kernel answer
    is the input of a run. JSON text is parsed by serde ([JsonParse], and [EventText]
    for whole events); how the inotify crate prints a mask is [MaskText]. *)

From S2P Require Import Prelude Core NetText Bus Store Federation Auditd.
From stdpp Require Import options.

(** ** Shared parts *)

Class JsonParse := { json_from_str : string -> option json }.

(** [x as i32] of an [i64] or a [u32]. *)
Definition as_i32 (x : Z) : Z := (x + 2 ^ 31) `mod` 2 ^ 32 - 2 ^ 31.

(** The object that the [json!] macro builds. *)
Definition json_obj (fields : list (string * json)) : json := json_of_map (list_to_map fields).

Definition str_at (v : option json) (k : string) : option string := v ≫= fun v => json_get v k ≫= json_as_str.
Definition str_or_empty (v : option json) (k : string) : string := default "" (str_at v k).

Definition process_default (pid : Z) : Process := mkProcess pid None None None None None None None.
Definition user_uid (uid : Z) : User := mkUser (Some uid) None None None None.
Definition at_path (path : string) : File := mkFile None (Some path) None None [] None None None None.

Definition KERNEL_ACTIVITY : Z := 1003.
Definition AUTHORIZE_SESSION : Z := 3003.
Definition HTTP_ACTIVITY : Z := 4002.
Definition DNS_ACTIVITY : Z := 4003.

Definition non_empty (s : string) : option string := if bool_decide (s = "") then None else Some s.

(** ** Tailing a file of JSON lines *)

(** The sequence counter, the bytes of a line that is not complete, the position and
    inode of the open file, the open file itself, from which the reader reads, and what
    was published, the latest last. *)
Record JsonTail := mkJsonTail {
  jt_sequence : Z;
  jt_pending : string;
  jt_read_pos : Z;
  jt_open_inode : Z;
  jt_reader : nat;
  jt_published : list Event;
}.

(** The answers of one turn of the loop, as for auditd. Open files are numbered: [jn_read]
    is what reading each of them would give, [jn_open] is what opening the path again
    gives, a file with its inode when its metadata can be read; [None] when it fails or is
    refused. *)
Record JsonTurn := mkJsonTurn {
  jn_cancelled : bool;
  jn_read : nat -> ReadLine;
  jn_metadata : option (Z * Z);
  jn_open : option (nat * option Z);
  jn_stamp : nat -> Stamp;
}.

Inductive JsonResult :=
| JRunning (t : JsonTail)
| JStopped (t : JsonTail)
| JFailed (e : string) (t : JsonTail).

Section json_tail.
(** Whether the loop looks for rotation, and what it makes of a line: nothing, or an
    event for which it takes a sequence number. *)
Context (rotates : bool) (translate : string -> Stamp -> Z -> option Event).

Definition process_line (line : string) (st : Stamp) (t : JsonTail) : JsonTail :=
  match translate line st (jt_sequence t) with
  | Some ev =>
      mkJsonTail (wrapping_add_u64 (jt_sequence t) 1) (jt_pending t) (jt_read_pos t) (jt_open_inode t)
        (jt_reader t) (jt_published t ++ [ev])
  | None => t
  end.

Fixpoint process_lines (lines : list string) (stamp : nat -> Stamp) (i : nat) (t : JsonTail) : JsonTail :=
  match lines with
  | [] => t
  | line :: lines => process_lines lines stamp (S i) (process_line line (stamp i) t)
  end.

Definition json_turn (turn : JsonTurn) (t : JsonTail) : JsonResult :=
  if jn_cancelled turn then JStopped t
  else
    match jn_read turn (jt_reader t) with
    | ReadErr e => JFailed e t
    | ReadShutdown => JStopped t
    | ReadOk "" =>
        match jn_metadata turn, jn_open turn with
        | Some (len, ino), Some (f, f_ino) =>
            if rotates && should_reopen (jt_read_pos t) len (jt_open_inode t) ino then
              JRunning (mkJsonTail (jt_sequence t) "" 0 (default (jt_open_inode t) f_ino) f (jt_published t))
            else JRunning t
        | _, _ => JRunning t
        end
    | ReadOk chunk =>
        let '(lines, rest) := drain_complete_lines (jt_pending t +:+ chunk) in
        JRunning (process_lines lines (jn_stamp turn) 0
          (mkJsonTail (jt_sequence t) rest
             (wrapping_add_u64 (jt_read_pos t) (Z.of_nat (String.length chunk))) (jt_open_inode t) (jt_reader t)
             (jt_published t)))
    end.

Fixpoint json_run (turns : list JsonTurn) (t : JsonTail) : JsonResult :=
  match turns with
  | [] => JRunning t
  | turn :: turns =>
      match json_turn turn t with
      | JRunning t => json_run turns t
      | r => r
      end
  end.

(** [run] after the wait for the file: the open, the seek, then the loop. *)
Definition tail_file (read_from : ReadFrom.t) (opened : result nat string) (seeked : result unit string)
    (position inode : option Z) (turns : list JsonTurn) : JsonResult :=
  let t0 pos ino f := mkJsonTail 0 "" pos ino f [] in
  match opened with
  | Err e => JFailed e (t0 0%Z 0%Z 0)
  | Ok f =>
      match read_from, seeked with
      | ReadFrom.End_, Err e => JFailed e (t0 0%Z 0%Z f)
      | _, _ => json_run turns (t0 (default 0%Z position) (default 0%Z inode) f)
      end
  end.
End json_tail.

(** ** Suricata *)

Module Suricata.
Section suricata.
Context `{JsonParse} (host_tag : string).

Definition build_endpoint (ip port : option json) : option Endpoint :=
  ip_str ← ip ≫= json_as_str;
  parsed ← parse_ip ip_str;
  Some (mkEndpoint (Some parsed) (p ← port ≫= json_as_u64; if (p <=? u16_max)%Z then Some p else None) None None None None).

Definition with_endpoints (v : json) (ev : Event) : Event :=
  opt_with with_dst_endpoint (build_endpoint (json_get v "dest_ip") (json_get v "dest_port"))
    (opt_with with_src_endpoint (build_endpoint (json_get v "src_ip") (json_get v "src_port")) ev).

Definition alert_severity (suri_sev : Z) : SeverityId.t :=
  match suri_sev with 1 => SeverityId.High | 2 => SeverityId.Medium | _ => SeverityId.Low end%Z.

Definition build_alert (v : json) (st : Stamp) (seq : Z) : Event :=
  let alert := json_get v "alert" in
  let signature := default "Suricata alert" (str_at alert "signature") in
  let category := str_or_empty alert "category" in
  let suri_sev := default 3%Z (alert ≫= fun a => json_get a "severity" ≫= json_as_u64) in
  with_endpoints v (with_raw v (with_message ("Suricata: " +:+ signature +:+ " [" +:+ category +:+ "]")
    (event_new st DETECTION_FINDING 1 (alert_severity suri_sev) host_tag "suricata" seq))).

Definition build_network (v : json) (class activity : Z) (st : Stamp) (seq : Z) : Event :=
  with_endpoints v (with_raw v (event_new st class activity SeverityId.Informational host_tag "suricata" seq)).

Definition build_generic (v : json) (st : Stamp) (seq : Z) : Event :=
  with_raw v (event_new st 0 0 SeverityId.Informational host_tag "suricata" seq).

Definition process_line (line : string) (st : Stamp) (seq : Z) : option Event :=
  if bool_decide (line = "") then None
  else
    v ← json_from_str line;
    event_type ← json_get v "event_type" ≫= json_as_str;
    Some (if bool_decide (event_type = "alert") then build_alert v st seq
          else if bool_decide (event_type = "flow") then build_network v NETWORK_ACTIVITY 6 st seq
          else if bool_decide (event_type = "dns") then build_network v DNS_ACTIVITY 6 st seq
          else if bool_decide (event_type = "tls") then build_network v NETWORK_ACTIVITY 6 st seq
          else if bool_decide (event_type = "http") then build_network v HTTP_ACTIVITY 6 st seq
          else build_generic v st seq).

Definition run := tail_file true process_line.
End suricata.
End Suricata.

(** ** Tetragon *)

Module Tetragon.
Section tetragon.
Context `{JsonParse} (host_tag : string).

(** The last piece of a path. *)
Definition base_name (binary : string) : string := default binary (last (split "/" binary)).

Definition pid_of (v : option json) : Z := as_i32 (default 0%Z (v ≫= fun v => json_get v "pid" ≫= json_as_i64)).

Definition build_process_exec (exec full : json) (st : Stamp) (seq : Z) : Event :=
  let proc := default JNull (json_get exec "process") in
  let parent := json_get exec "parent" in
  let binary := str_or_empty (Some proc) "binary" in
  let arguments := str_or_empty (Some proc) "arguments" in
  let uid := as_u32 <$> (json_get proc "uid" ≫= json_as_u64) in
  let parent_pid := as_i32 <$> (parent ≫= fun p => json_get p "pid" ≫= json_as_i64) in
  let process := mkProcess (pid_of (Some proc)) parent_pid (Some (base_name binary)) (non_empty binary)
    (Some (if bool_decide (arguments = "") then binary else binary +:+ " " +:+ arguments)) None (user_uid <$> uid) None in
  with_raw full (with_message ("exec: " +:+ binary +:+ " " +:+ arguments) (with_process process
    (event_new st PROCESS_ACTIVITY 1 SeverityId.Informational host_tag "tetragon" seq))).

Definition tetragon_raw (kp full : json) : json :=
  let subobj := json_obj (map (fun k => (k, JString (str_or_empty (Some kp) k)))
                  ["policy_name"; "policy_namespace"; "action"; "function_name"]) in
  match full with
  | JObject fields => json_of_map (<["tetragon" := subobj]> (list_to_map fields))
  | v => v
  end.

(** The first argument of a probe that names a file. *)
Definition file_path (kp : json) : option string :=
  match json_get kp "args" with
  | Some (JArray arr) => head (omap (fun item => str_at (json_get item "file_arg") "path") arr)
  | _ => None
  end.

Definition kprobe_class (function : string) : Z * Z :=
  if contains function "file_open" || contains function "inode" then (FILE_SYSTEM_ACTIVITY, 14%Z)
  else if contains function "socket" || contains function "connect" then (NETWORK_ACTIVITY, 1%Z)
  else (KERNEL_ACTIVITY, 0%Z).

Definition build_process_kprobe (kp full : json) (st : Stamp) (seq : Z) : Event :=
  let function := str_or_empty (Some kp) "function_name" in
  let proc := json_get kp "process" in
  let pid := pid_of proc in
  let binary := str_or_empty proc "binary" in
  let '(class, activity) := kprobe_class function in
  let ev := with_raw (tetragon_raw kp full) (with_message ("kprobe: " +:+ function)
              (event_new st class activity SeverityId.Informational host_tag "tetragon" seq)) in
  let ev := opt_with (fun p => with_file (at_path p)) (file_path kp) ev in
  if (pid =? 0)%Z then ev
  else with_process (mkProcess pid None None (non_empty binary) None None None None) ev.

Definition build_process_exit (full : json) (st : Stamp) (seq : Z) : Event :=
  with_raw full (event_new st PROCESS_ACTIVITY 2 SeverityId.Informational host_tag "tetragon" seq).

Definition build_generic (full : json) (st : Stamp) (seq : Z) : Event :=
  with_raw full (event_new st 0 0 SeverityId.Informational host_tag "tetragon" seq).

Definition translate_line (line : string) (st : Stamp) (seq : Z) : option Event :=
  if bool_decide (line = "") then None
  else
    v ← json_from_str line;
    Some (match json_get v "process_exec", json_get v "process_kprobe", json_get v "process_exit" with
          | Some exec, _, _ => build_process_exec exec v st seq
          | None, Some kp, _ => build_process_kprobe kp v st seq
          | None, None, Some _ => build_process_exit v st seq
          | None, None, None => build_generic v st seq
          end).

Definition run := tail_file true translate_line.
End tetragon.
End Tetragon.

(** ** journald *)

Module Journald.

Definition MIN_RESPAWN_BACKOFF : Z := 100.
Definition MAX_RESPAWN_BACKOFF : Z := 30000.

(** Durations are milliseconds. *)
Definition next_backoff (current : Z) : Z := (current * 2) `min` MAX_RESPAWN_BACKOFF.

Definition classify_ident (ident : string) : Z * Z :=
  if bool_decide (ident = "sshd") then (SSH_ACTIVITY, 1%Z)
  else if bool_decide (ident = "sudo") then (AUTHENTICATION, 1%Z)
  else if bool_decide (ident = "systemd-logind") then (AUTHORIZE_SESSION, 1%Z)
  else (0%Z, 0%Z).

Definition priority_severity (priority : Z) : SeverityId.t :=
  if (priority <=? 2)%Z then SeverityId.Critical
  else if (priority =? 3)%Z then SeverityId.High
  else if (priority =? 4)%Z then SeverityId.Medium
  else if (priority =? 5)%Z then SeverityId.Low
  else SeverityId.Informational.

(** What one follower gave: its lines, then the end of its output, an error of the
    pipe, or shutdown. *)
Inductive FollowEnd := FollowClosed | FollowError (e : string) | FollowShutdown.

(** One round of the respawn loop: whether shutdown was seen at its top, how the
    child was started, what it gave, and whether shutdown came during the sleep. *)
Record Follower := mkFollower {
  fw_cancelled : bool;
  fw_spawned : result unit string;
  fw_lines : list (string * Stamp);
  fw_end : FollowEnd;
  fw_sleep_cancelled : bool;
}.

Section journald.
Context `{JsonParse} (host_tag : string).

Definition build_event (raw : json) (st : Stamp) (seq : Z) : Event :=
  let ident := str_or_empty (Some raw) "SYSLOG_IDENTIFIER" in
  let priority := default 6%Z (str_at (Some raw) "PRIORITY" ≫= parse_uint 255) in
  let message := str_or_empty (Some raw) "MESSAGE" in
  let '(class_uid, activity_id) := classify_ident ident in
  let actor := (fun uid => mkActor (Some (user_uid uid)) None None None) <$> (str_at (Some raw) "_UID" ≫= parse_uint u32_max) in
  opt_with with_actor actor (opt_with with_message (non_empty message)
    (with_raw raw (event_new st class_uid activity_id (priority_severity priority) host_tag "journald" seq))).

Definition translate (line : string) (st : Stamp) (seq : Z) : option Event :=
  let line := trim line in
  if bool_decide (line = "") then None else (fun v => build_event v st seq) <$> json_from_str line.

(** File mode does not look for rotation. Its wait ends the collector when shutdown is
    requested while the file is missing. *)
Definition run_file (polls : list (bool * bool)) (read_from : ReadFrom.t) (opened : result nat string) (seeked : result unit string)
    (turns : list JsonTurn) : JsonResult :=
  if negb (wait_for_file 10 polls) then JStopped (mkJsonTail 0 "" 0 0 0 [])
  else tail_file false translate read_from opened seeked None None turns.

Definition journalctl_args (units : list string) : list string :=
  ["--output=json"; "--follow"; "--no-pager"] ++ (units ≫= fun u => ["-u"; u]).

Definition follow_line (ls : string * Stamp) (t : JsonTail) : JsonTail := process_line translate ls.1 ls.2 t.

(** The respawn loop: the result, and the delays that were slept, in order. *)
Fixpoint run_journalctl (rounds : list Follower) (backoff : Z) (t : JsonTail) : JsonResult * list Z :=
  match rounds with
  | [] => (JRunning t, [])
  | f :: rounds =>
      if fw_cancelled f then (JStopped t, [])
      else
        match fw_spawned f with
        | Err e => (JFailed e t, [])
        | Ok _ =>
            let t := foldl (fun t ls => follow_line ls t) t (fw_lines f) in
            let delivered := negb (bool_decide (fw_lines f = [])) in
            match fw_end f with
            | FollowShutdown => (JStopped t, [])
            | FollowClosed | FollowError _ =>
                let backoff := if delivered then MIN_RESPAWN_BACKOFF else backoff in
                if fw_sleep_cancelled f then (JStopped t, [])
                else let '(r, sleeps) := run_journalctl rounds (next_backoff backoff) t in (r, backoff :: sleeps)
            end
        end
  end.
End journald.
End Journald.

(** ** eventstream *)

Module Eventstream.

Record IntegrityCheck := mkIntegrityCheck {
  ic_enabled : bool;
  ic_allowed_owners : list Z;
}.

Inductive EventstreamError :=
| EsIo (e : string)
| IntegrityRefused (reason : string)
| IntegritySymlink.

(** The facts that [fstat] gives about the file that was opened. *)
Record FileFacts := mkFileFacts {
  ff_is_file : bool;
  ff_mode : Z;
  ff_uid : Z;
}.

(** What the open without following links answers: the error number and text, or the
    answer of [fstat] on the descriptor. *)
Definition Opened : Type := result (result FileFacts string) (option Z * string).

Fixpoint euid_of_lines (lines : list string) : option Z :=
  match lines with
  | [] => None
  | line :: lines =>
      match strip_prefix "Uid:" line with
      | Some rest =>
          match split_whitespace rest with
          | _ :: euid :: _ => parse_uint u32_max euid
          | _ => euid_of_lines lines
          end
      | None => euid_of_lines lines
      end
  end.

(** [/proc/self/status], when it can be read. *)
Definition read_euid (status : option string) : option Z := status ≫= fun txt => euid_of_lines (str_lines txt).

Definition open_with_integrity_check (check : IntegrityCheck) (status : option string) (opened : Opened) :
    result FileFacts EventstreamError :=
  match opened with
  | Err (errno, e) => Err (if bool_decide (errno = Some 40%Z) then IntegritySymlink else EsIo e)
  | Ok (Err e) => Err (EsIo e)
  | Ok (Ok md) =>
      if negb (ff_is_file md) then Err (IntegrityRefused "not a regular file (fifo, socket, device, or directory)")
      else if negb (Z.land (ff_mode md) 2 =? 0)%Z then Err (IntegrityRefused "world-writable (mode & 0o002 != 0)")
      else
        let owner := ff_uid md in
        let euid := default 0%Z (read_euid status) in
        if (owner =? euid)%Z || (owner =? 0)%Z || bool_decide (owner ∈ ic_allowed_owners check) then Ok md
        else Err (IntegrityRefused ("owner uid not in allowed set (daemon-effective-uid, root, or "
                    +:+ "[collectors.eventstream].allowed_owners)"))
  end.

(** [open_input]: through the gate, or as it is; [plain] is the answer of the plain open. *)
Definition open_input (check : IntegrityCheck) (status : option string) (opened : Opened) (plain : result unit string) :
    result (option FileFacts) EventstreamError :=
  if ic_enabled check then let? md := open_with_integrity_check check status opened in Ok (Some md)
  else match plain with Ok _ => Ok None | Err e => Err (EsIo e) end.

(** A turn with what the file system answers to opening the path again: the file that is
    opened, with the facts that [fstat] gives of it, and its inode, or none if that
    cannot be read. *)
Record EsTurn := mkEsTurn {
  et_turn : JsonTurn;
  et_status : option string;
  et_opened : Opened;
  et_plain : result unit string;
  et_file : nat;
  et_inode : option Z;
}.

Section eventstream.
Context `{EventText} (check : IntegrityCheck).

Definition translate (line : string) (st : Stamp) (seq : Z) : option Event :=
  match event_from_str line with Ok event => Some event | Err _ => None end.

Definition reopen_answer (t : EsTurn) : option (nat * option Z) :=
  match open_input check (et_status t) (et_opened t) (et_plain t) with Ok _ => Some (et_file t, et_inode t) | Err _ => None end.

Definition json_turn_of (t : EsTurn) : JsonTurn :=
  let j := et_turn t in mkJsonTurn (jn_cancelled j) (jn_read j) (jn_metadata j) (reopen_answer t) (jn_stamp j).

Definition run (read_from : ReadFrom.t) (start : EsTurn) (seeked : result unit string) (position inode : option Z)
    (turns : list EsTurn) : result JsonResult EventstreamError :=
  match open_input check (et_status start) (et_opened start) (et_plain start) with
  | Err e => Err e
  | Ok _ => Ok (tail_file true translate read_from (Ok (et_file start)) seeked position inode (json_turn_of <$> turns))
  end.
End eventstream.
End Eventstream.

(** ** canary *)

Module Canary.

(** The masks of inotify, and their names as the crate prints them. *)
Definition ACCESS : Z := 1.
Definition MODIFY : Z := 2.
Definition ATTRIB : Z := 4.
Definition OPEN : Z := 32.
Definition DELETE_SELF : Z := 1024.
Definition MOVE_SELF : Z := 2048.

Class MaskText := { mask_debug : Z -> string }.

Definition has_bit (mask bit : Z) : bool := (Z.land mask bit =? bit)%Z.

Definition event_kind (mask : Z) : string :=
  if has_bit mask ACCESS then "read"
  else if has_bit mask OPEN then "open"
  else if has_bit mask MODIFY then "modify"
  else if has_bit mask ATTRIB then "attrib"
  else if has_bit mask DELETE_SELF then "delete"
  else if has_bit mask MOVE_SELF then "move"
  else "touch".

(** The watches that were installed: descriptor to path; one file has one descriptor,
    whatever its names. *)
Definition install (added : list (string * option Z)) : gmap Z string :=
  foldl (fun m pw => match pw.2 with Some wd => <[wd := pw.1]> m | None => m end) ∅ added.

Inductive StreamItem :=
| Notified (wd mask : Z) (st : Stamp)
| StreamError (e : string)
| StreamEnded
| StreamShutdown.

Section canary.
Context `{MaskText} (host_tag : string).

Definition finding (path : string) (mask : Z) (st : Stamp) (seq : Z) : Event :=
  let kind := event_kind mask in
  with_raw (json_obj [("canary_path", JString path); ("inotify_mask", JString (mask_debug mask));
                      ("event_kind", JString kind)])
    (with_attack (mkTechniqueRef "T1552.001" "Unsecured Credentials: Credentials In Files" Tactic.CredentialAccess)
      (with_file (at_path path) (with_message ("Canary " +:+ kind +:+ ": " +:+ path)
        (event_new st DETECTION_FINDING 1 SeverityId.Critical host_tag "selfdef.canary" seq)))).

(** The sequence counter, what was published, and whether the loop goes on. *)
Definition watch_step (watches : gmap Z string) (i : StreamItem) (s : Z * list Event * bool) : Z * list Event * bool :=
  let '(seq, out, running) := s in
  if negb running then s
  else
    match i with
    | Notified wd mask st =>
        match watches !! wd with
        | Some path => (wrapping_add_u64 seq 1, out ++ [finding path mask st seq], true)
        | None => s
        end
    | StreamError _ => s
    | StreamEnded | StreamShutdown => (seq, out, false)
    end.

(** [run]: without paths or without watches the collector is idle until shutdown. *)
Definition run (added : list (string * option Z)) (items : list StreamItem) : Z * list Event * bool :=
  let watches := install added in
  if bool_decide (added = []) || bool_decide (watches = ∅)
  then (0%Z, [], negb (existsb (fun i => match i with StreamShutdown => true | _ => false end) items))
  else foldl (fun s i => watch_step watches i s) (0%Z, [], true) items.
End canary.
End Canary.

(** ** ebpf *)

Module Ebpf.

Definition COMM_LEN : nat := 16.
Definition ARGV_BUF_LEN : nat := 256.
Definition PATH_BUF_LEN : nat := 256.

(** The records of the ring buffer; the padding bytes are kept in the layout only. *)
Record ProcessExecEvent := mkProcessExecEvent {
  px_pid : Z;
  px_tgid : Z;
  px_ppid : Z;
  px_uid : Z;
  px_gid : Z;
  px_comm : string;
  px_argv : string;
  px_argv_len : Z;
  px_argc : Z;
  px_argv_truncated : Z;
}.

Record FileOpenEvent := mkFileOpenEvent {
  fo_pid : Z;
  fo_uid : Z;
  fo_comm : string;
  fo_path : string;
  fo_path_len : Z;
  fo_flags : Z;
}.

Record UnlinkEvent := mkUnlinkEvent {
  un_pid : Z;
  un_uid : Z;
  un_comm : string;
  un_path : string;
  un_path_len : Z;
}.

(** The little-endian number in the bytes at an offset. *)
Fixpoint le_val (s : string) : Z :=
  match s with
  | "" => 0
  | String a s => Z.of_N (byte a) + 256 * le_val s
  end%Z.

Definition field (off len : nat) (bytes : string) : string := String.substring off len bytes.
Definition num (off len : nat) (bytes : string) : Z := le_val (field off len bytes).

(** [try_from_bytes] reads a record from a slice of exactly its size; the slots of
    the ring are aligned to eight bytes, so alignment never refuses it. *)
Definition exec_of_bytes (b : string) : option ProcessExecEvent :=
  if bool_decide (String.length b = 300) then
    Some (mkProcessExecEvent (num 4 4 b) (num 8 4 b) (num 12 4 b) (num 16 4 b) (num 20 4 b) (field 24 COMM_LEN b)
            (field 40 ARGV_BUF_LEN b) (num 296 2 b) (num 298 1 b) (num 299 1 b))
  else None.

Definition open_of_bytes (b : string) : option FileOpenEvent :=
  if bool_decide (String.length b = 292) then
    Some (mkFileOpenEvent (num 4 4 b) (num 8 4 b) (field 12 COMM_LEN b) (field 28 PATH_BUF_LEN b) (num 284 2 b) (num 288 4 b))
  else None.

Definition unlink_of_bytes (b : string) : option UnlinkEvent :=
  if bool_decide (String.length b = 288) then
    Some (mkUnlinkEvent (num 4 4 b) (num 8 4 b) (field 12 COMM_LEN b) (field 28 PATH_BUF_LEN b) (num 284 2 b))
  else None.

Fixpoint until_nul (s : string) : string :=
  match s with
  | "" => ""
  | String a s => if bool_decide (a = "000"%char) then "" else String a (until_nul s)
  end.

Definition decode_cstr (buf : string) : string := from_utf8_lossy (until_nul buf).

(** The first [len] bytes, as a string. *)
Definition path_str (path : string) (path_len : Z) : string :=
  from_utf8_lossy (String.substring 0 (Z.to_nat (path_len `min` Z.of_nat (String.length path))) path).

Definition argv_strings (e : ProcessExecEvent) : list string :=
  let used := Z.to_nat (px_argv_len e `min` Z.of_nat (String.length (px_argv e))) in
  from_utf8_lossy <$> filter (.≠ "") (split "000" (String.substring 0 used (px_argv e))).

Section ebpf.
Context (host_tag : string).

Definition process_exec_to_event (raw : ProcessExecEvent) (st : Stamp) (seq : Z) : Event :=
  let comm := decode_cstr (px_comm raw) in
  let argv := argv_strings raw in
  let cmdline := match argv with [] => comm | _ => join " " argv end in
  let process := mkProcess (as_i32 (px_pid raw)) (if (0 <? px_ppid raw)%Z then Some (as_i32 (px_ppid raw)) else None)
                   (Some comm) None (Some cmdline) None (Some (user_uid (px_uid raw))) None in
  with_raw (json_obj [("comm", JString comm); ("pid", JPosInt (px_pid raw)); ("ppid", JPosInt (px_ppid raw));
                      ("uid", JPosInt (px_uid raw)); ("gid", JPosInt (px_gid raw)); ("argc", JPosInt (px_argc raw));
                      ("argv_truncated", JBool (negb (px_argv_truncated raw =? 0)%Z));
                      ("argv", JArray (JString <$> argv))])
    (with_message ("exec: " +:+ cmdline) (with_process process
      (event_new st PROCESS_ACTIVITY 1 SeverityId.Informational host_tag "selfdef.ebpf" seq))).

(** The process of a file event, unless its pid is 0. *)
Definition with_raw_process (pid uid : Z) (comm : string) (ev : Event) : Event :=
  if (0 <? pid)%Z
  then with_process (mkProcess (as_i32 pid) None (Some comm) None None None (Some (user_uid uid)) None) ev
  else ev.

Definition file_open_to_event (raw : FileOpenEvent) (st : Stamp) (seq : Z) : Event :=
  let path := path_str (fo_path raw) (fo_path_len raw) in
  let comm := decode_cstr (fo_comm raw) in
  with_raw_process (fo_pid raw) (fo_uid raw) comm
    (with_raw (json_obj [("comm", JString comm); ("pid", JPosInt (fo_pid raw)); ("uid", JPosInt (fo_uid raw));
                         ("flags", JPosInt (fo_flags raw))])
      (with_file (at_path path) (with_message ("file_open: " +:+ path)
        (event_new st FILE_SYSTEM_ACTIVITY 14 SeverityId.Informational host_tag "selfdef.ebpf" seq)))).

Definition unlink_to_event (raw : UnlinkEvent) (st : Stamp) (seq : Z) : Event :=
  let path := path_str (un_path raw) (un_path_len raw) in
  let comm := decode_cstr (un_comm raw) in
  with_raw_process (un_pid raw) (un_uid raw) comm
    (with_raw (json_obj [("comm", JString comm); ("pid", JPosInt (un_pid raw)); ("uid", JPosInt (un_uid raw))])
      (with_file (at_path path) (with_message ("unlink: " +:+ path)
        (event_new st FILE_SYSTEM_ACTIVITY 4 SeverityId.Low host_tag "selfdef.ebpf" seq)))).

Definition handle_record (bytes : string) (st : Stamp) (seq : Z) : option Event :=
  match bytes with
  | "" => None
  | String k _ =>
      if (byte k =? 1)%N then (fun ev => process_exec_to_event ev st seq) <$> exec_of_bytes bytes
      else if (byte k =? 2)%N then (fun ev => file_open_to_event ev st seq) <$> open_of_bytes bytes
      else if (byte k =? 3)%N then (fun ev => unlink_to_event ev st seq) <$> unlink_of_bytes bytes
      else None
  end.

(** The drain of the ring: records in order, a number for each event. *)
Definition drain_step (bs : string * Stamp) (s : Z * list Event) : Z * list Event :=
  match handle_record bs.1 bs.2 s.1 with
  | Some ev => (wrapping_add_u64 s.1 1, s.2 ++ [ev])
  | None => s
  end.

Definition drain (records : list (string * Stamp)) (s : Z * list Event) : Z * list Event :=
  foldl (fun s bs => drain_step bs s) s records.
End ebpf.
End Ebpf.
