(* ===== verification/CollectorsProps.v ===== *)
(** * Properties of the collectors

    The shared tail loop publishes exactly the complete lines of the files it reads;
    every collector's events are valid; the integrity gate of eventstream; the
    respawn loop of journald; canaries; the records of the ring buffer. *)

From S2P Require Import Prelude Core NetText Bus Store Federation FederationProps Auditd AuditdProps Collectors.
From stdpp Require Import options.

(** ** Lines *)

Abbreviation nl := "010"%char.

Definition no_newline (s : string) : bool := all_bytes (fun a => negb (bool_decide (a = nl))) s.

Lemma split_cat c l r : split c (l +:+ String c r) = split c l ++ split c r.
Proof.
  induction l as [|a l IH]; [simpl; by rewrite bool_decide_true|]. rewrite str_cons_app. cbn [split].
  rewrite IH. case_bool_decide; [done|]. destruct (split c l) eqn:E; [|done]. exfalso. clear -E.
  destruct l as [|b l]; simpl in E; [done|]. case_bool_decide; [done|]. by destruct (split c l).
Qed.

Lemma rfind_none s : no_newline s = true -> str_rfind_nl s = None.
Proof.
  unfold no_newline. induction s as [|a s IH]; [done|]. simpl. intros [Ha Hs]%andb_true_iff.
  rewrite IH by done. apply negb_true_iff in Ha. by rewrite Ha.
Qed.

Lemma rfind_some s r : no_newline r = true -> str_rfind_nl (s +:+ String nl r) = Some (s +:+ String nl "", r).
Proof.
  intros Hr. induction s as [|a s IH].
  - simpl. by rewrite rfind_none.
  - rewrite !str_cons_app. cbn [str_rfind_nl]. by rewrite IH.
Qed.

(** Every text is its complete part and what follows the last line feed. *)
Lemma cut_last s : no_newline s = true \/ exists l r, s = l +:+ String nl r /\ no_newline r = true.
Proof.
  unfold no_newline. induction s as [|a s IH]; [by left|]. destruct IH as [Hs|(l & r & -> & Hr)].
  - destruct (decide (a = nl)) as [->|Ha].
    + right. by exists "", s.
    + left. simpl. by rewrite bool_decide_false.
  - right. by exists (String a l), r.
Qed.

Definition strip_cr (l : string) : string := default l (strip_suffix (String "013"%char "") l).
Definition clean (pieces : list string) : list string := filter (.≠ "") (trim <$> (strip_cr <$> pieces)).

Lemma str_lines_whole s : str_lines (s +:+ String nl "") = strip_cr <$> split nl s.
Proof.
  unfold str_lines. rewrite split_cat. cbn [split]. rewrite length_app. simpl.
  replace (length (split nl s) + 1 - 1) with (length (split nl s)) by lia.
  by rewrite take_app_length, drop_app_length, app_nil_r.
Qed.

Lemma drain_none s : no_newline s = true -> drain_complete_lines s = ([], s).
Proof. intros Hs. unfold drain_complete_lines. by rewrite rfind_none. Qed.

Lemma drain_some s r : no_newline r = true -> drain_complete_lines (s +:+ String nl r) = (clean (split nl s), r).
Proof. intros Hr. unfold drain_complete_lines. by rewrite rfind_some, str_lines_whole. Qed.

Lemma clean_app l l' : clean (l ++ l') = clean l ++ clean l'.
Proof. unfold clean. by rewrite !fmap_app, filter_app. Qed.

(** Draining a text in two parts is draining it whole. *)
Lemma drain_app s c :
  drain_complete_lines (s +:+ c) =
    ((drain_complete_lines s).1 ++ (drain_complete_lines ((drain_complete_lines s).2 +:+ c)).1,
     (drain_complete_lines ((drain_complete_lines s).2 +:+ c)).2).
Proof.
  destruct (cut_last s) as [Hs|(l & r & -> & Hr)].
  { rewrite (drain_none s) by done. cbn [fst snd app]. by destruct (drain_complete_lines _). }
  rewrite (drain_some l r) by done. cbn [fst snd]. rewrite str_app_assoc, str_cons_app.
  destruct (cut_last (r +:+ c)) as [Hc|(u & v & Ec & Hv)].
  - rewrite (drain_none (r +:+ c)), (drain_some l) by done. cbn [fst snd]. by rewrite app_nil_r.
  - rewrite Ec, (drain_some u v) by done. cbn [fst snd].
    replace (l +:+ String nl (u +:+ String nl v)) with ((l +:+ String nl u) +:+ String nl v)
      by (by rewrite str_app_assoc, str_cons_app).
    by rewrite drain_some, split_cat, clean_app.
Qed.

(** ** The tail loop *)

Section tail.
Context (rotates : bool) (translate : string -> Stamp -> Z -> option Event).

(** The events of lines with their stamps, and the number that comes next: only a line
    that gives an event takes one. *)
Fixpoint emit (lines : list (string * Stamp)) (seq : Z) : list Event * Z :=
  match lines with
  | [] => ([], seq)
  | (line, st) :: lines =>
      match translate line st seq with
      | Some ev => let '(evs, seq) := emit lines (wrapping_add_u64 seq 1) in (ev :: evs, seq)
      | None => emit lines seq
      end
  end.

Lemma emit_app l l' seq :
  emit (l ++ l') seq = ((emit l seq).1 ++ (emit l' (emit l seq).2).1, (emit l' (emit l seq).2).2).
Proof.
  revert seq. induction l as [|[line st] l IH]; intros seq; simpl; [by destruct (emit l' seq)|].
  destruct (translate line st seq); [|by apply IH]. rewrite IH.
  by destruct (emit l (wrapping_add_u64 seq 1)).
Qed.

Lemma process_lines_emit lines stamp i t :
  let out := emit (zip lines (stamp <$> seq i (length lines))) (jt_sequence t) in
  process_lines translate lines stamp i t =
    mkJsonTail out.2 (jt_pending t) (jt_read_pos t) (jt_open_inode t) (jt_reader t) (jt_published t ++ out.1).
Proof.
  revert i t. induction lines as [|line lines IH]; intros i [sq p pos ino rd pub]; simpl; [by rewrite app_nil_r|].
  unfold process_line. simpl. destruct (translate line (stamp i) sq) as [ev|] eqn:E.
  - rewrite IH. simpl. destruct (emit _ _) as [evs s]. simpl. by rewrite <-app_assoc.
  - rewrite IH. simpl. by destruct (emit _ _).
Qed.

(** The complete lines of a text, trimmed and without the empty ones. *)
Definition complete_lines (text : string) : list string := (drain_complete_lines text).1.

Definition rotated (turn : JsonTurn) (t : JsonTail) : bool :=
  match jn_metadata turn, jn_open turn with
  | Some (len, ino), Some _ => rotates && should_reopen (jt_read_pos t) len (jt_open_inode t) ino
  | _, _ => false
  end.

(** The texts read along a run: of the files that were rotated away, and of the
    current one. *)
Fixpoint texts (turns : list JsonTurn) (t : JsonTail) (past : list string) (cur : string) : list string * string :=
  match turns with
  | [] => (past, cur)
  | turn :: turns =>
      match json_turn rotates translate turn t, jn_read turn (jt_reader t) with
      | JRunning t', ReadOk "" => if rotated turn t then texts turns t' (past ++ [cur]) "" else texts turns t' past cur
      | JRunning t', ReadOk c => texts turns t' past (cur +:+ c)
      | _, _ => (past, cur)
      end
  end.

Definition all_lines (past : list string) (cur : string) : list string := (past ≫= complete_lines) ++ complete_lines cur.

(** A turn in which nothing fails and nobody asks for shutdown, and one that ends the run. *)
Definition reads (turn : JsonTurn) : Prop := jn_cancelled turn = false /\ forall f, exists c, jn_read turn f = ReadOk c.
Definition ends (turn : JsonTurn) : Prop := jn_cancelled turn = true \/ forall f, jn_read turn f = ReadShutdown.

Definition tail_inv (t : JsonTail) (past : list string) (cur : string) : Prop :=
  jt_pending t = (drain_complete_lines cur).2 /\
  exists stamps, length stamps = length (all_lines past cur) /\
    emit (zip (all_lines past cur) stamps) 0 = (jt_published t, jt_sequence t).

Lemma json_turn_read turn t past cur c :
  jn_cancelled turn = false -> jn_read turn (jt_reader t) = ReadOk c -> c <> "" -> tail_inv t past cur ->
  exists t', json_turn rotates translate turn t = JRunning t' /\ tail_inv t' past (cur +:+ c).
Proof.
  intros Hc Hr Hne (Hp & stamps & Hl & He). unfold json_turn. rewrite Hc, Hr. destruct c as [|a c]; [done|].
  set (chunk := String a c) in *. clearbody chunk. rewrite Hp.
  destruct (drain_complete_lines ((drain_complete_lines cur).2 +:+ chunk)) as [lines rest] eqn:Ed.
  eexists. split; [reflexivity|]. rewrite process_lines_emit. simpl.
  set (sts := jn_stamp turn <$> seq 0 (length lines)). unfold tail_inv. rewrite drain_app, Ed. cbn [fst snd jt_pending].
  split; [done|]. exists (stamps ++ sts).
  assert (Hall : all_lines past (cur +:+ chunk) = all_lines past cur ++ lines).
  { unfold all_lines, complete_lines. rewrite (drain_app cur), Ed. cbn [fst]. by rewrite app_assoc. }
  rewrite Hall. split; [unfold sts; by rewrite !length_app, Hl, length_fmap, length_seq|].
  rewrite zip_with_app by (by rewrite Hl). rewrite emit_app, He. cbn [fst snd jt_published jt_sequence]. done.
Qed.

Lemma json_turn_idle turn t past cur :
  jn_cancelled turn = false -> jn_read turn (jt_reader t) = ReadOk "" -> tail_inv t past cur ->
  exists t', json_turn rotates translate turn t = JRunning t' /\
    if rotated turn t then tail_inv t' (past ++ [cur]) "" else tail_inv t' past cur.
Proof.
  intros Hc Hr Hi. unfold json_turn, rotated. rewrite Hc, Hr.
  destruct (jn_metadata turn) as [[len ino]|]; [|by eauto]. destruct (jn_open turn) as [[f f_ino]|]; [|by eauto].
  destruct (rotates && _); [|by eauto]. eexists. split; [reflexivity|]. destruct Hi as (_ & stamps & Hl & He).
  split; [done|]. exists stamps. unfold all_lines in *. rewrite bind_app. cbn [mbind list_bind].
  change (complete_lines "") with (@nil string). by rewrite !app_nil_r.
Qed.

Lemma json_run_inv turns t past cur :
  Forall reads turns -> tail_inv t past cur ->
  exists t', json_run rotates translate turns t = JRunning t' /\
    let '(past', cur') := texts turns t past cur in tail_inv t' past' cur'.
Proof.
  intros Hr. revert t past cur. induction Hr as [|turn turns (Hc & Hall) _ IH]; intros t past cur Hi; [by eexists|].
  destruct (Hall (jt_reader t)) as [c Hrd]. cbn [json_run texts]. rewrite Hrd. destruct c as [|a c].
  - destruct (json_turn_idle turn t past cur Hc Hrd Hi) as (t' & -> & Hi'). destruct (rotated turn t); by apply IH.
  - destruct (json_turn_read turn t past cur _ Hc Hrd ltac:(done) Hi) as (t' & -> & Hi'). by apply IH.
Qed.

Lemma json_run_app turns turns' t t' :
  json_run rotates translate turns t = JRunning t' ->
  json_run rotates translate (turns ++ turns') t = json_run rotates translate turns' t'.
Proof.
  revert t. induction turns as [|turn turns IH]; intros t; simpl; [by intros [= ->]|].
  destruct (json_turn rotates translate turn t); [apply IH|done..].
Qed.

(** A tailing collector publishes its file, all of it and nothing else. Over any reads,
    however the text is cut into chunks, with any idle turns and rotations, and
    stopped by shutdown at any point, the events published are, in order, those of
    the complete lines of each file read, numbered consecutively from zero by the
    lines that give an event; at most the unfinished last line of a file is missing. *)
Theorem json_tail_exact (pos ino : Z) (file : nat) (turns : list JsonTurn) (last : JsonTurn) :
  Forall reads turns -> ends last ->
  exists t', json_run rotates translate (turns ++ [last]) (mkJsonTail 0 "" pos ino file []) = JStopped t' /\
    let '(past, cur) := texts turns (mkJsonTail 0 "" pos ino file []) [] "" in
    exists stamps, length stamps = length (all_lines past cur) /\
      jt_published t' = (emit (zip (all_lines past cur) stamps) 0).1 /\
      jt_pending t' = (drain_complete_lines cur).2.
Proof.
  intros Hr Hl. destruct (json_run_inv turns (mkJsonTail 0 "" pos ino file []) [] "" Hr) as (t' & Ht & Hi).
  { split; [done|]. by exists []. }
  exists t'. split.
  - rewrite (json_run_app _ _ _ _ Ht). simpl. unfold json_turn. destruct Hl as [Hl|Hl]; rewrite Hl; [done|]. by destruct (jn_cancelled last).
  - destruct (texts _ _ _ _) as [past cur]. destruct Hi as (Hp & stamps & Hlen & He). exists stamps. by rewrite He.
Qed.
End tail.

(** ** The events *)

(** What every builder fixes and no setter changes. *)
Definition sealed (host source : string) (seq : Z) (e : Event) : Prop :=
  ev_schema e = SCHEMA_VERSION /\ ev_host_tag e = host /\ ev_source e = source /\
  ev_type_uid e = type_uid (ev_class_uid e) (ev_activity_id e) /\ m_sequence (ev_metadata e) = seq /\
  ev_federated e = false /\ ev_federation_verified e = false.

Create HintDb collectors.

Section sealed.
Context (host source : string) (seq : Z).

Lemma sealed_new st cls act sev : sealed host source seq (event_new st cls act sev host source seq).
Proof. by split_and!. Qed.

Lemma sealed_message m e : sealed host source seq e -> sealed host source seq (with_message m e).
Proof. by destruct e. Qed.
Lemma sealed_raw r e : sealed host source seq e -> sealed host source seq (with_raw r e).
Proof. by destruct e. Qed.
Lemma sealed_process p e : sealed host source seq e -> sealed host source seq (with_process p e).
Proof. by destruct e. Qed.
Lemma sealed_file f e : sealed host source seq e -> sealed host source seq (with_file f e).
Proof. by destruct e. Qed.
Lemma sealed_actor a e : sealed host source seq e -> sealed host source seq (with_actor a e).
Proof. by destruct e. Qed.
Lemma sealed_src p e : sealed host source seq e -> sealed host source seq (with_src_endpoint p e).
Proof. by destruct e. Qed.
Lemma sealed_dst p e : sealed host source seq e -> sealed host source seq (with_dst_endpoint p e).
Proof. by destruct e. Qed.
Lemma sealed_attack t e : sealed host source seq e -> sealed host source seq (with_attack t e).
Proof. by destruct e. Qed.
Lemma sealed_opt {A} (f : A -> Event -> Event) (o : option A) e :
  (forall a e, sealed host source seq e -> sealed host source seq (f a e)) ->
  sealed host source seq e -> sealed host source seq (opt_with f o e).
Proof. intros Hf He. destruct o; [by apply Hf|done]. Qed.

Lemma sealed_valid e : host <> "" -> source <> "" -> sealed host source seq e -> validate e = Ok tt.
Proof.
  intros Hh Hs (H1 & H2 & H3 & H4 & _). unfold validate. rewrite H1, H2, H3, H4, !bool_decide_false by done.
  by rewrite !Z.eqb_refl.
Qed.
End sealed.

#[export] Hint Resolve sealed_new sealed_message sealed_raw sealed_process sealed_file sealed_actor sealed_src
  sealed_dst sealed_attack sealed_opt : collectors.

Lemma suricata_sealed `{JsonParse} host line st seq e :
  Suricata.process_line host line st seq = Some e -> sealed host "suricata" seq e.
Proof.
  unfold Suricata.process_line. case_bool_decide; [done|]. destruct (json_from_str line) as [v|]; [|done]. simpl.
  destruct (json_get v "event_type" ≫= json_as_str) as [ty|]; [|done]. simpl. intros [= <-].
  unfold Suricata.build_alert, Suricata.build_network, Suricata.build_generic, Suricata.with_endpoints.
  repeat case_match; eauto 9 with collectors.
Qed.

Lemma tetragon_sealed `{JsonParse} host line st seq e :
  Tetragon.translate_line host line st seq = Some e -> sealed host "tetragon" seq e.
Proof.
  unfold Tetragon.translate_line. case_bool_decide; [done|]. destruct (json_from_str line) as [v|]; [|done].
  simpl. intros [= <-].
  unfold Tetragon.build_process_exec, Tetragon.build_process_kprobe, Tetragon.build_process_exit, Tetragon.build_generic.
  repeat case_match; eauto 9 with collectors.
Qed.

Lemma journald_sealed `{JsonParse} host line st seq e :
  Journald.translate host line st seq = Some e -> sealed host "journald" seq e.
Proof.
  unfold Journald.translate. case_bool_decide; [done|]. destruct (json_from_str _) as [v|]; [|done].
  simpl. intros [= <-]. unfold Journald.build_event. repeat case_match; eauto 9 with collectors.
Qed.

Lemma ebpf_sealed host bytes st seq e :
  Ebpf.handle_record host bytes st seq = Some e -> sealed host "selfdef.ebpf" seq e.
Proof.
  unfold Ebpf.handle_record. intros Hm. repeat case_match; try discriminate; simplify_eq.
  all: match goal with Hm : _ <$> ?o = Some _ |- _ => destruct o; simpl in Hm; simplify_eq end.
  all: unfold Ebpf.process_exec_to_event, Ebpf.file_open_to_event, Ebpf.unlink_to_event, Ebpf.with_raw_process.
  all: repeat case_match; eauto 9 with collectors.
Qed.

Lemma canary_sealed `{Canary.MaskText} host path mask st seq :
  sealed host "selfdef.canary" seq (Canary.finding host path mask st seq).
Proof. unfold Canary.finding. eauto 9 with collectors. Qed.

Lemma auditd_sealed `{FieldOrder, UnicodeTables} host st seq em : sealed host "auditd" seq (event_of host st seq em).
Proof.
  destruct (base_event_of host st seq em) as (cls & act & E). destruct (event_of host st seq em).
  unfold base in E. simpl in E. simplify_eq. by split_and!.
Qed.

(** ** The streams *)

(** The event number [i] of a collector's stream: of this schema, with the host's tag, the
    collector's name, its place in the stream as sequence number (of 64 bits) and the type
    that its class and activity determine, not marked as coming from another host; and
    valid unless the host has no tag. *)
Record local_event (host source : string) (i : nat) (e : Event) : Prop := {
  le_schema : ev_schema e = SCHEMA_VERSION;
  le_host : ev_host_tag e = host;
  le_source : ev_source e = source;
  le_sequence : m_sequence (ev_metadata e) = (Z.of_nat i `mod` 2 ^ 64)%Z;
  le_type : ev_type_uid e = type_uid (ev_class_uid e) (ev_activity_id e);
  le_local : ev_federated e = false /\ ev_federation_verified e = false;
  le_valid : validate e = Ok tt <-> host <> "";
}.
Definition stream (host source : string) (evs : list Event) : Prop :=
  forall i e, evs !! i = Some e -> local_event host source i e.

Lemma sealed_local host source i e : source <> "" -> sealed host source (Z.of_nat i `mod` 2 ^ 64) e -> local_event host source i e.
Proof.
  intros Hs He. pose proof He as (H1 & H2 & H3 & H4 & H5 & H6 & H7). split; try done. split.
  - intros Hv ->. unfold validate in Hv. rewrite H1, H2, Z.eqb_refl in Hv. simpl in Hv. done.
  - intros Hh. by apply (sealed_valid host source (Z.of_nat i `mod` 2 ^ 64)).
Qed.

(** A stream and the number of the next event. *)
Definition streaming (host source : string) (seq : Z) (evs : list Event) : Prop :=
  stream host source evs /\ seq = (Z.of_nat (length evs) `mod` 2 ^ 64)%Z.

Lemma streaming_nil host source : streaming host source 0 [].
Proof. split; [|done]. intros i e Hi. by rewrite lookup_nil in Hi. Qed.

Lemma streaming_snoc host source seq evs e : source <> "" -> sealed host source seq e ->
  streaming host source seq evs -> streaming host source (wrapping_add_u64 seq 1) (evs ++ [e]).
Proof.
  intros Hs He [Hst ->]. split.
  - intros i x Hi. apply lookup_app_Some in Hi as [Hi|[Hge Hi]]; [by apply Hst|].
    destruct (i - length evs) as [|k] eqn:Ei; [|by destruct k]. simplify_eq/=.
    assert (i = length evs) as -> by lia. by apply sealed_local.
  - rewrite length_app. simpl. unfold wrapping_add_u64. rewrite Z.add_mod_idemp_l by lia. f_equal. lia.
Qed.

Definition json_published (r : JsonResult) : list Event :=
  match r with JRunning t | JStopped t | JFailed _ t => jt_published t end.
Definition audit_published (r : TailResult) : list Event :=
  match r with Running t | Stopped t | Failed _ t => tl_published t end.

Section json_streams.
Context (rotates : bool) (translate : string -> Stamp -> Z -> option Event) (host source : string).
Hypothesis named : source <> "".
Hypothesis makes_sealed : forall line st seq e, translate line st seq = Some e -> sealed host source seq e.

Definition tail_streams (t : JsonTail) : Prop := streaming host source (jt_sequence t) (jt_published t).

Lemma process_line_streams line st t : tail_streams t -> tail_streams (process_line translate line st t).
Proof using named makes_sealed.
  intros Ht. unfold process_line. destruct (translate line st (jt_sequence t)) as [e|] eqn:E; [|done].
  apply streaming_snoc; [done|by eapply makes_sealed|done].
Qed.

Lemma process_lines_streams lines stamp i t : tail_streams t -> tail_streams (process_lines translate lines stamp i t).
Proof using named makes_sealed. revert i t. induction lines as [|l lines IH]; intros i t Ht; [done|]. by apply IH, process_line_streams. Qed.

Lemma json_turn_streams turn t : tail_streams t ->
  stream host source (json_published (json_turn rotates translate turn t)) /\
  forall t', json_turn rotates translate turn t = JRunning t' -> tail_streams t'.
Proof using All.
  intros Ht. assert (Hs : stream host source (jt_published t)) by apply Ht. unfold json_turn.
  assert (Hsame : forall t1, jt_sequence t1 = jt_sequence t -> jt_published t1 = jt_published t -> tail_streams t1).
  { intros t1 E1 E2. unfold tail_streams. by rewrite E1, E2. }
  destruct (jn_cancelled turn); [by split|]. destruct (jn_read turn (jt_reader t)) as [[|a c]|e|]; [|..|by split|by split].
  - repeat case_match; (split; [done|intros t' [= <-]; by apply Hsame]).
  - destruct (drain_complete_lines _) as [lines rest]. set (t1 := process_lines _ _ _ _ _).
    assert (H1 : tail_streams t1) by by apply process_lines_streams, Hsame. split; [apply H1|by intros t' [= <-]].
Qed.

Lemma json_run_streams turns t : tail_streams t -> stream host source (json_published (json_run rotates translate turns t)).
Proof using All.
  revert t. induction turns as [|turn turns IH]; intros t Ht; [apply Ht|]. simpl.
  destruct (json_turn_streams turn t Ht) as [Hs Hr].
  destruct (json_turn rotates translate turn t) as [t'| |]; [by apply IH, Hr|done..].
Qed.

Lemma tail_file_streams read_from opened seeked position inode turns :
  stream host source (json_published (tail_file rotates translate read_from opened seeked position inode turns)).
Proof using All.
  unfold tail_file. destruct opened as [f|e]; [|apply streaming_nil].
  destruct read_from, seeked; try apply streaming_nil; apply json_run_streams, streaming_nil.
Qed.
End json_streams.

Section audit_streams.
Context `{FieldOrder} `{UnicodeTables} (host : string).
Definition audit_streams (t : Tail) : Prop := streaming host "auditd" (tl_sequence t) (tl_published t).

Lemma publish_streams build t : (forall seq, sealed host "auditd" seq (build seq)) -> audit_streams t ->
  audit_streams (publish_event build t).
Proof using All. intros Hb Ht. by apply streaming_snoc. Qed.

Lemma record_sealed st seq r line : sealed host "auditd" seq (build_event host st seq r line).
Proof using All. apply (auditd_sealed host st seq (Single (r, line))). Qed.
Lemma pair_sealed st seq r r' : sealed host "auditd" seq (build_syscall_execve_event host st seq r r').
Proof using All. apply (auditd_sealed host st seq (Paired (r, "") (r', ""))). Qed.

Lemma flush_streams st t : audit_streams t -> audit_streams (flush_pending host st t).
Proof using All.
  intros Ht. unfold flush_pending. destruct (tl_pending t) as [[r line]|]; [|done].
  apply publish_streams; [intros; apply record_sealed|exact Ht].
Qed.

Lemma handle_record_streams st r line t : audit_streams t -> audit_streams (handle_record host st r line t).
Proof using All.
  intros Ht. pose proof (flush_streams st.1 t Ht) as Hf. unfold handle_record.
  repeat case_match; try exact Hf; repeat (apply publish_streams; [intros; first [apply record_sealed|apply pair_sealed]|]); done.
Qed.

Lemma tail_turn_streams turn t : audit_streams t ->
  stream host "auditd" (audit_published (tail_turn host turn t)) /\
  forall t', tail_turn host turn t = Running t' -> audit_streams t'.
Proof using All.
  intros Ht. assert (Hs : stream host "auditd" (tl_published t)) by apply Ht. unfold tail_turn.
  destruct (tt_cancelled turn); [split; [apply flush_streams, Ht|done]|].
  destruct (tt_read turn) as [[|a c]|e|]; [|..|by split|by split].
  - assert (Hx : forall x : Tail, audit_streams x -> stream host "auditd" (audit_published (Running x)) /\
      forall t', Running x = Running t' -> audit_streams t').
    { intros x Hx. split; [apply Hx|]. by intros t' [= <-]. }
    repeat case_match; apply Hx; try done; by apply flush_streams.
  - set (t1 := mkTail _ _ _ _ _ _). assert (H1 : audit_streams t1) by exact Ht. cbv zeta.
    assert (Hx : forall x : Tail, audit_streams x -> stream host "auditd" (audit_published (Running x)) /\
      forall t', Running x = Running t' -> audit_streams t').
    { intros x Hx. split; [apply Hx|]. by intros t' [= <-]. }
    repeat case_match; apply Hx; try exact H1. exact (handle_record_streams _ _ _ _ H1).
Qed.

Lemma tail_run_streams turns t : audit_streams t -> stream host "auditd" (audit_published (tail_run host turns t)).
Proof using All.
  revert t. induction turns as [|turn turns IH]; intros t Ht; [apply Ht|]. simpl.
  destruct (tail_turn_streams turn t Ht) as [Hs Hr].
  destruct (tail_turn host turn t) as [t'| |]; [by apply IH, Hr|done..].
Qed.

Lemma auditd_run_streams read_from polls opened seeked position inode turns :
  stream host "auditd" (audit_published (auditd_run host read_from polls opened seeked position inode turns)).
Proof using All.
  unfold auditd_run. repeat case_match; try apply streaming_nil; apply tail_run_streams, streaming_nil.
Qed.
End audit_streams.

Lemma journalctl_streams `{JsonParse} host rounds backoff t : tail_streams host "journald" t ->
  stream host "journald" (json_published (Journald.run_journalctl host rounds backoff t).1).
Proof.
  revert backoff t. induction rounds as [|f rounds IH]; intros backoff t Ht; [apply Ht|]. cbn [Journald.run_journalctl].
  destruct (Journald.fw_cancelled f); [apply Ht|]. destruct (Journald.fw_spawned f); [|apply Ht].
  assert (H1 : tail_streams host "journald" (foldl (fun t ls => Journald.follow_line host ls t) t (Journald.fw_lines f))).
  { revert t Ht. induction (Journald.fw_lines f) as [|ls l IHl]; intros t Ht; [done|]. apply IHl.
    by apply (process_line_streams (Journald.translate host) host "journald" ltac:(done) (journald_sealed host)). }
  cbv zeta. destruct (Journald.fw_end f); [|..|apply H1]; (destruct (Journald.fw_sleep_cancelled f); [apply H1|]);
    specialize (IH (Journald.next_backoff (if negb (bool_decide (Journald.fw_lines f = [])) then Journald.MIN_RESPAWN_BACKOFF else backoff)) _ H1);
    destruct (Journald.run_journalctl _ _ _ _); exact IH.
Qed.

Lemma canary_streams `{Canary.MaskText} host added items : stream host "selfdef.canary" (Canary.run host added items).1.2.
Proof.
  unfold Canary.run. destruct (_ || _); [apply streaming_nil|].
  assert (Hinv : forall items s, streaming host "selfdef.canary" s.1.1 s.1.2 ->
    stream host "selfdef.canary" (foldl (fun s i => Canary.watch_step host (Canary.install added) i s) s items).1.2).
  { intros l. induction l as [|i l IH]; intros s Hs; [apply Hs|]. apply IH.
    destruct s as [[seq out] running]. unfold Canary.watch_step. destruct running; [|done]. simpl in *.
    destruct i as [wd mask st| | |]; try done. destruct (Canary.install added !! wd); [|done].
    apply streaming_snoc; [done|apply canary_sealed|done]. }
  apply (Hinv items (0%Z, [], true)), streaming_nil.
Qed.

Lemma ebpf_streams host records : stream host "selfdef.ebpf" (Ebpf.drain host records (0%Z, [])).2.
Proof.
  assert (Hinv : forall l s, streaming host "selfdef.ebpf" s.1 s.2 ->
    stream host "selfdef.ebpf" (foldl (fun s bs => Ebpf.drain_step host bs s) s l).2).
  { intros l. induction l as [|bs l IH]; intros s Hs; [apply Hs|]. apply IH. unfold Ebpf.drain_step.
    destruct (Ebpf.handle_record host bs.1 bs.2 s.1) as [ev|] eqn:E; [|done].
    apply streaming_snoc; [done|by eapply ebpf_sealed|done]. }
  apply (Hinv records (0%Z, [])), streaming_nil.
Qed.


(** ** eventstream *)

Module EventstreamProps.
Import Eventstream.

(** A file that may be read: regular, not writable by everyone, and owned by the
    daemon, root or an owner that the operator named. *)
Definition vetted (check : IntegrityCheck) (status : option string) (md : FileFacts) : Prop :=
  ff_is_file md = true /\ Z.testbit (ff_mode md) 1 = false /\
  (ff_uid md = default 0%Z (read_euid status) \/ ff_uid md = 0%Z \/ ff_uid md ∈ ic_allowed_owners check).

Lemma land_two n : (Z.land n 2 =? 0)%Z = negb (Z.testbit n 1).
Proof.
  destruct (Z.testbit n 1) eqn:E; simpl.
  - apply Z.eqb_neq. intros H. apply (f_equal (fun z => Z.testbit z 1)) in H. rewrite Z.land_spec, E in H. done.
  - apply Z.eqb_eq. apply Z.bits_inj_iff. intros i. rewrite Z.land_spec, Z.bits_0.
    destruct (decide (i = 1%Z)) as [->|Hi]; [by rewrite E|]. change 2%Z with (2 ^ 1)%Z.
    rewrite Z.pow2_bits_false by done. by rewrite andb_false_r.
Qed.

Lemma gate_exact check status opened md :
  open_with_integrity_check check status opened = Ok md <-> opened = Ok (Ok md) /\ vetted check status md.
Proof.
  unfold open_with_integrity_check, vetted. split.
  - destruct opened as [[md'|e]|[errno e]]; try done. destruct (ff_is_file md') eqn:Ef; [|done].
    rewrite land_two, negb_involutive. destruct (Z.testbit (ff_mode md') 1) eqn:Et; [done|]. cbn [negb].
    destruct (_ || _ || _) eqn:Eo; [|done]. intros [= <-]. split_and!; try done.
    rewrite !orb_true_iff, !Z.eqb_eq, bool_decide_eq_true in Eo. tauto.
  - intros (-> & Hf & Ht & Ho). rewrite Hf, land_two, Ht. cbn [negb].
    assert ((ff_uid md =? default 0%Z (read_euid status))%Z || (ff_uid md =? 0)%Z
            || bool_decide (ff_uid md ∈ ic_allowed_owners check) = true) as ->; [|done].
    rewrite !orb_true_iff, !Z.eqb_eq, bool_decide_eq_true. tauto.
Qed.

(** What the file system answered to an open is a file that may be read. *)
Definition passes (check : IntegrityCheck) (o : EsTurn) : Prop :=
  exists md, et_opened o = Ok (Ok md) /\ vetted check (et_status o) md.

Lemma open_passes check o : ic_enabled check = true ->
  is_ok (open_input check (et_status o) (et_opened o) (et_plain o)) = true <-> passes check o.
Proof.
  intros He. unfold open_input, passes. rewrite He.
  destruct (open_with_integrity_check check (et_status o) (et_opened o)) as [md|e] eqn:E; simpl.
  - apply gate_exact in E. split; [by eauto|done].
  - split; [done|]. intros (md & Hm). apply gate_exact in Hm. congruence.
Qed.

(** Files that some open of the run gave and that passed there. *)
Definition readable (check : IntegrityCheck) (opens : list EsTurn) (f : nat) : Prop :=
  exists o, o ∈ opens /\ et_file o = f /\ passes check o.

(** Two answers that differ at most in what files are found to hold that may not be read. *)
Definition agree (ok : nat -> Prop) (a b : EsTurn) : Prop :=
  jn_cancelled (et_turn a) = jn_cancelled (et_turn b) /\ jn_metadata (et_turn a) = jn_metadata (et_turn b) /\
  jn_stamp (et_turn a) = jn_stamp (et_turn b) /\ et_status a = et_status b /\ et_opened a = et_opened b /\
  et_plain a = et_plain b /\ et_file a = et_file b /\ et_inode a = et_inode b /\
  forall f, ok f -> jn_read (et_turn a) f = jn_read (et_turn b) f.

Section reads_vetted.
Context `{EventText} (check : IntegrityCheck).
Hypothesis checked : ic_enabled check = true.

Lemma process_lines_reader lines stamp i t :
  jt_reader (process_lines translate lines stamp i t) = jt_reader t.
Proof using Type. rewrite process_lines_emit. done. Qed.

(** A turn leaves the reader on its file or moves it to one that passed. *)
Lemma turn_reader o t t' : json_turn true translate (json_turn_of check o) t = JRunning t' ->
  jt_reader t' = jt_reader t \/ jt_reader t' = et_file o /\ passes check o.
Proof using checked.
  unfold json_turn, json_turn_of, reopen_answer. simpl. destruct (jn_cancelled _); [done|].
  destruct (jn_read _ _) as [[|a c]|e|]; try done.
  - pose proof (open_passes check o checked) as Hp. destruct (jn_metadata _) as [[len ino]|]; [|intros [= <-]; by left].
    destruct (open_input _ _ _ _) as [x|]; [|intros [= <-]; by left].
    destruct (should_reopen _ _ _ _); intros [= <-]; [right|by left]. split; [done|by apply Hp].
  - destruct (drain_complete_lines _) as [lines rest]. intros [= <-]. left. by rewrite process_lines_reader.
Qed.

Lemma turn_agree ok a b t : agree ok a b -> ok (jt_reader t) ->
  json_turn true translate (json_turn_of check a) t = json_turn true translate (json_turn_of check b) t.
Proof using Type.
  intros (Hc & Hm & Hs & Hst & Ho & Hp & Hf & Hi & Hr) Hok. unfold json_turn, json_turn_of, reopen_answer. simpl.
  by rewrite Hc, Hm, Hs, Hst, Ho, Hp, Hf, Hi, (Hr _ Hok).
Qed.

Lemma run_agree (ok : nat -> Prop) turns turns' t : Forall2 (agree ok) turns turns' ->
  (forall o, o ∈ turns -> passes check o -> ok (et_file o)) -> ok (jt_reader t) ->
  json_run true translate (json_turn_of check <$> turns) t = json_run true translate (json_turn_of check <$> turns') t.
Proof using checked.
  intros Ha. revert t. induction Ha as [|a b turns turns' Hab _ IH]; intros t Hin Hok; [done|]. cbn [fmap list_fmap json_run].
  rewrite (turn_agree ok a b t Hab Hok).
  destruct (json_turn true translate (json_turn_of check b) t) as [t'| |] eqn:E; [|done..].
  apply IH; [intros o Ho; by apply Hin; right|]. rewrite <-(turn_agree ok a b t Hab Hok) in E.
  destruct (turn_reader a t t' E) as [->|[-> Hp]]; [done|]. apply Hin; [by left|done].
Qed.

(** C32: With the integrity check on, eventstream never reads a file that the check did not
    pass. A run starts exactly when what it opened is a regular file that not everyone may
    write and that the daemon, root or a named owner owns, judged on the descriptor that
    is read. Over the whole run, rotations and refused reopens included, nothing depends
    on what files hold that did not pass: two runs in which the host answers alike, except
    that reading such files gives something else, publish the same and end the same. And
    at the end of a file that has been rotated away the run goes on with the new file when
    it passes, and stays as it is when it does not. *)
Theorem eventstream_reads_vetted (start : EsTurn) (read_from : ReadFrom.t) (seeked : result unit string)
    (position inode : option Z) (turns : list EsTurn) :
  let run := run check read_from start seeked position inode in
  (is_ok (run turns) = true <-> passes check start) /\
  (forall turns', Forall2 (agree (readable check (start :: turns))) turns turns' -> run turns = run turns') /\
  (forall t o len ino, run turns = Ok (JRunning t) -> jn_cancelled (et_turn o) = false ->
     jn_read (et_turn o) (jt_reader t) = ReadOk "" -> jn_metadata (et_turn o) = Some (len, ino) ->
     should_reopen (jt_read_pos t) len (jt_open_inode t) ino = true ->
     exists t', run (turns ++ [o]) = Ok (JRunning t') /\
       (passes check o -> jt_reader t' = et_file o /\ jt_read_pos t' = 0%Z) /\ (~ passes check o -> t' = t)).
Proof using checked.
  cbv zeta. unfold run. pose proof (open_passes check start checked) as Hp.
  destruct (open_input check (et_status start) (et_opened start) (et_plain start)) as [x|e]; cbn [is_ok] in *; [|by split_and!].
  split; [done|]. split.
  - intros turns' Ha. f_equal. unfold tail_file. assert (Hs : readable check (start :: turns) (et_file start)).
    { exists start. split; [by left|]. split; [done|by apply Hp]. }
    destruct read_from, seeked; try done;
      (apply (run_agree (readable check (start :: turns))); [done|intros o Ho Hpo; exists o; by split; [right|]|done]).
  - intros t o len ino Hr Hc Hrd Hm Hs. unfold tail_file in *. rewrite fmap_app. cbn [fmap list_fmap].
    assert (Hlast : exists t', json_turn true translate (json_turn_of check o) t = JRunning t' /\
      (passes check o -> jt_reader t' = et_file o /\ jt_read_pos t' = 0%Z) /\ (~ passes check o -> t' = t)).
    { unfold json_turn, json_turn_of, reopen_answer. simpl. rewrite Hc, Hrd, Hm. pose proof (open_passes check o checked) as Hpo.
      destruct (open_input check (et_status o) (et_opened o) (et_plain o)) as [y|e]; cbn [is_ok] in Hpo.
      - rewrite Hs. cbn [andb]. eexists. split; [done|]. split; [done|]. intros Hn. by destruct Hn; apply Hpo.
      - exists t. split; [done|]. split; [|done]. intros Hy. by apply Hpo in Hy. }
    destruct Hlast as (t' & Ht' & Hl). exists t'. split; [|done].
    destruct read_from, seeked; try done; injection Hr as Hr; f_equal; rewrite (json_run_app _ _ _ _ _ _ Hr); simpl; by rewrite Ht'.
Qed.
End reads_vetted.
End EventstreamProps.

(** ** journald *)

Module JournaldProps.
Import Journald.

(** A follower that was started, ended by itself, and whose delay was slept. *)
Definition alive (f : Follower) : Prop :=
  fw_cancelled f = false /\ fw_spawned f = Ok tt /\ fw_end f <> FollowShutdown /\ fw_sleep_cancelled f = false.

(** The delays by the number of followers in a row that gave no line. *)
Definition delay (k : nat) : Z := (100 * 2 ^ Z.of_nat k) `min` 30000.
Fixpoint delays (k : nat) (rounds : list Follower) : list Z :=
  match rounds with
  | [] => []
  | f :: rounds => let k := match fw_lines f with [] => k | _ => 0 end in delay k :: delays (S k) rounds
  end.

Lemma next_delay k : next_backoff (delay k) = delay (S k).
Proof. unfold next_backoff, delay, MAX_RESPAWN_BACKOFF. rewrite Nat2Z.inj_succ, Z.pow_succ_r by lia. lia. Qed.

Section journald.
Context `{JsonParse} (host : string).

Lemma follow_lines_emit lines t :
  let out := emit (translate host) lines (jt_sequence t) in
  foldl (fun t ls => follow_line host ls t) t lines =
    mkJsonTail out.2 (jt_pending t) (jt_read_pos t) (jt_open_inode t) (jt_reader t) (jt_published t ++ out.1).
Proof.
  revert t. induction lines as [|[line st] lines IH]; intros [sq p pos ino rd pub]; simpl; [by rewrite app_nil_r|].
  rewrite IH. unfold follow_line, process_line. simpl. destruct (translate host line st sq) as [ev|] eqn:E; simpl.
  - destruct (emit _ _ _). simpl. by rewrite <-app_assoc.
  - by destruct (emit _ _ _).
Qed.

Lemma run_delays rounds k t :
  Forall alive rounds -> exists t', run_journalctl host rounds (delay k) t = (JRunning t', delays k rounds) /\
    jt_published t' = jt_published t ++ (emit (translate host) (rounds ≫= fw_lines) (jt_sequence t)).1.
Proof.
  intros Ha. revert k t. induction Ha as [|f rounds (Hc & Hs & He & Hsl) _ IH]; intros k t.
  { exists t. split; [done|]. simpl. by rewrite app_nil_r. }
  cbn [run_journalctl delays mbind list_bind]. rewrite Hc, Hs, Hsl.
  rewrite follow_lines_emit. set (t1 := mkJsonTail _ _ _ _ _ _).
  set (k' := match fw_lines f with [] => k | _ => 0 end).
  assert (Hb : (if negb (bool_decide (fw_lines f = [])) then MIN_RESPAWN_BACKOFF else delay k) = delay k').
  { unfold k'. by destruct (fw_lines f). }
  destruct (IH (S k') t1) as (t' & Hr & Hp). exists t'. split.
  - rewrite Hb, next_delay, Hr. by destruct (fw_end f).
  - rewrite Hp. unfold t1. cbn [jt_published jt_sequence]. rewrite emit_app. cbn [fst]. by rewrite app_assoc.
Qed.

(** The journald collector does not give up. However often journalctl exits, with or
    without an error, and for any number of rounds, the collector goes on, publishes
    the lines of all followers in order, and sleeps between them the delays that
    double from 100 ms while nothing is delivered, never exceed 30 s and return to
    100 ms after a follower that delivered. It ends with an error only if a follower
    could not be started. *)
Theorem journald_keeps_following (rounds : list Follower) (t : JsonTail) :
  (Forall alive rounds ->
   exists t', run_journalctl host rounds MIN_RESPAWN_BACKOFF t = (JRunning t', delays 0 rounds) /\
     jt_published t' = jt_published t ++ (emit (translate host) (rounds ≫= fw_lines) (jt_sequence t)).1 /\
     Forall (fun d => 100 <= d <= MAX_RESPAWN_BACKOFF)%Z (delays 0 rounds)) /\
  (forall backoff e t', (run_journalctl host rounds backoff t).1 = JFailed e t' -> exists f, f ∈ rounds /\ fw_spawned f = Err e).
Proof.
  split.
  - intros Ha. destruct (run_delays rounds 0 t Ha) as (t' & Hr & Hp). exists t'. split; [exact Hr|]. split; [exact Hp|].
    generalize 0. clear. induction rounds as [|f rounds IH]; intros k; simpl; constructor; [|apply IH].
    unfold delay, MAX_RESPAWN_BACKOFF. pose proof (Z.pow_pos_nonneg 2 (Z.of_nat (match fw_lines f with [] => k | _ => 0 end))). lia.
  - revert t. induction rounds as [|f rounds IH]; intros t backoff e t'; simpl; [done|].
    destruct (fw_cancelled f); [done|]. destruct (fw_spawned f) as [[]|e'] eqn:Es; simpl.
    + assert (Hrec : forall b t1, (run_journalctl host rounds b t1).1 = JFailed e t' -> exists g, g ∈ f :: rounds /\ fw_spawned g = Err e).
      { intros b t1 Hr. destruct (IH t1 b e t' Hr) as (g & Hg & Hge). exists g. split; [by right|done]. }
      destruct (fw_end f); try done; destruct (fw_sleep_cancelled f); try done;
        match goal with |- context [run_journalctl host rounds ?b ?t1] => specialize (Hrec b t1); by destruct (run_journalctl host rounds b t1) end.
    + intros [= -> _]. exists f. split; [by left|done].
Qed.
End journald.
End JournaldProps.

(** ** canary *)

Module CanaryProps.
Import Canary.

Section canary.
Context `{MaskText} (host : string).

(** What an item of the stream tells about a watched file. *)
Definition hit (watches : gmap Z string) (i : StreamItem) : option (string * Z * Stamp) :=
  match i with
  | Notified wd mask st => (fun path => (path, mask, st)) <$> watches !! wd
  | _ => None
  end.

Definition goes_on (i : StreamItem) : Prop := match i with Notified _ _ _ | StreamError _ => True | _ => False end.

Definition findings_of (hits : list (string * Z * Stamp)) : list Event :=
  imap (fun n h => finding host h.1.1 h.1.2 h.2 (Z.of_nat n `mod` 2 ^ 64)) hits.

Lemma watch_items watches items :
  Forall goes_on items ->
  foldl (fun s i => watch_step host watches i s) (0%Z, [], true) items =
    (Z.of_nat (length (omap (hit watches) items)) `mod` 2 ^ 64, findings_of (omap (hit watches) items), true)%Z.
Proof.
  intros Hg. induction items as [|i items IH] using rev_ind; [done|]. apply Forall_app in Hg as [Hg Hi].
  apply Forall_cons in Hi as [Hi _]. rewrite foldl_app, IH by done. cbn [foldl]. rewrite omap_app.
  destruct i as [wd mask st|e| |]; try done.
  - unfold watch_step. cbn [negb]. csimpl. destruct (watches !! wd) as [path|] eqn:E; simpl; [|by rewrite app_nil_r].
    rewrite length_app. unfold findings_of. rewrite imap_app. simpl. rewrite Nat.add_0_r.
    f_equal. f_equal. unfold wrapping_add_u64. rewrite Z.add_mod_idemp_l by lia. f_equal. lia.
  - csimpl. by rewrite app_nil_r.
Qed.

(** The last name under which a descriptor was installed. *)
Lemma install_lookup added path wd rest :
  wd ∉ omap snd rest -> install (added ++ (path, Some wd) :: rest) !! wd = Some path.
Proof.
  intros Hn. unfold install. rewrite foldl_app. cbn [foldl snd fst].
  generalize (foldl (fun (m : gmap Z string) (pw : string * option Z) => match pw.2 with Some wd => <[wd:=pw.1]> m | None => m end) ∅ added).
  intros m. assert (Hm : (<[wd:=path]> m : gmap Z string) !! wd = Some path) by by rewrite lookup_insert_eq.
  revert Hm. generalize (<[wd:=path]> m). induction rest as [|[p [wd'|]] rest IH]; intros m' Hm; [done| |]; simpl.
  - apply IH; [set_solver|]. rewrite lookup_insert_ne; [done|]. set_solver.
  - by apply IH.
Qed.

(** A canary never goes off unheard. Every notification about a watched file, of any
    mask, leads to exactly one critical finding that names the file, in order and
    numbered from zero; errors of the stream are survived, and nothing else is
    published. A file whose watch was installed, and whose descriptor no other
    path took over, is watched. *)
Theorem canary_exact (added : list (string * option Z)) (items : list StreamItem) :
  install added <> ∅ -> Forall goes_on items ->
  let '(_, out, running) := run host added items in
  out = findings_of (omap (hit (install added)) items) /\ running = true /\
  Forall (fun e => ev_severity_id e = SeverityId.Critical /\ ev_class_uid e = DETECTION_FINDING) out /\
  (forall pre path wd rest, added = pre ++ (path, Some wd) :: rest -> wd ∉ omap snd rest ->
     install added !! wd = Some path).
Proof.
  intros Hw Hg. unfold run. rewrite (bool_decide_false (install added = ∅)) by done.
  destruct (decide (added = [])) as [->|Ha]; [done|]. rewrite (bool_decide_false (added = [])) by done. cbn [orb].
  rewrite watch_items by done. split; [done|]. split; [done|]. split.
  - apply Forall_lookup. intros n e. unfold findings_of. rewrite list_lookup_imap.
    destruct (_ !! n) as [h|]; [|done]. intros [= <-]. done.
  - intros pre path wd rest -> Hn. by apply install_lookup.
Qed.
End canary.
End CanaryProps.

(** ** The ring buffer *)

Module EbpfProps.
Import Ebpf.

Fixpoint le_bytes (n : nat) (x : Z) : string :=
  match n with
  | 0 => ""
  | S n => String (ascii_of_N (Z.to_N (x `mod` 256))) (le_bytes n (x / 256))
  end.

Lemma le_bytes_length n x : String.length (le_bytes n x) = n.
Proof. revert x. induction n as [|n IH]; intros x; simpl; [done|]. by rewrite IH. Qed.

Lemma le_val_bytes n x : (0 <= x < 256 ^ Z.of_nat n)%Z -> le_val (le_bytes n x) = x.
Proof.
  revert x. induction n as [|n IH]; intros x Hx; simpl; [simpl in Hx; lia|].
  rewrite Nat2Z.inj_succ, Z.pow_succ_r in Hx by lia. rewrite IH by (split; [apply Z.div_pos; lia|apply Z.div_lt_upper_bound; lia]).
  unfold byte. pose proof (Z.mod_pos_bound x 256 ltac:(lia)) as Hm. rewrite N_ascii_embedding by lia.
  rewrite Z2N.id by lia. pose proof (Z.div_mod x 256 ltac:(lia)). lia.
Qed.

(** The layout of a record, field by field. *)
Definition exec_fields (e : ProcessExecEvent) : list string :=
  [le_bytes 1 1; le_bytes 3 0; le_bytes 4 (px_pid e); le_bytes 4 (px_tgid e); le_bytes 4 (px_ppid e);
   le_bytes 4 (px_uid e); le_bytes 4 (px_gid e); px_comm e; px_argv e; le_bytes 2 (px_argv_len e);
   le_bytes 1 (px_argc e); le_bytes 1 (px_argv_truncated e)].
Definition exec_bytes (e : ProcessExecEvent) : string := str_concat (exec_fields e).

Definition u32 (x : Z) : Prop := (0 <= x < 256 ^ 4)%Z.
Definition exec_fits (e : ProcessExecEvent) : Prop :=
  u32 (px_pid e) /\ u32 (px_tgid e) /\ u32 (px_ppid e) /\ u32 (px_uid e) /\ u32 (px_gid e) /\
  String.length (px_comm e) = COMM_LEN /\ String.length (px_argv e) = ARGV_BUF_LEN /\
  (0 <= px_argv_len e < 256 ^ 2)%Z /\ (0 <= px_argc e < 256)%Z /\ (0 <= px_argv_truncated e < 256)%Z.

Lemma substring_here b s : String.substring 0 (String.length b) (b +:+ s) = b.
Proof. induction b as [|a b IH]; simpl; [by destruct s|]. f_equal. exact IH. Qed.

Lemma substring_after a m s : forall n, String.substring (String.length a + n) m (a +:+ s) = String.substring n m s.
Proof. intros n. induction a as [|x a IH]; [done|]. exact IH. Qed.

(** A field of a record is read back from its place. *)
Lemma field_of (fields : list string) i s :
  fields !! i = Some s ->
  field (sum_list (String.length <$> take i fields)) (String.length s) (str_concat fields) = s.
Proof.
  unfold field. revert i. induction fields as [|a fields IH]; intros [|i] Hi; simplify_eq/=.
  - apply substring_here.
  - rewrite substring_after. by apply IH.
Qed.

Lemma exec_of_exec_bytes e : exec_fits e -> exec_of_bytes (exec_bytes e) = Some e.
Proof.
  intros (H1 & H2 & H3 & H4 & H5 & Hc & Ha & H6 & H7 & H8). unfold exec_of_bytes.
  assert (Hlen : String.length (exec_bytes e) = 300).
  { unfold exec_bytes, exec_fields. cbn [str_concat]. rewrite !str_length_app, !le_bytes_length, Hc, Ha. done. }
  rewrite bool_decide_true by exact Hlen.
  assert (Hf : forall i off len s, exec_fields e !! i = Some s -> String.length s = len ->
            sum_list (String.length <$> take i (exec_fields e)) = off -> field off len (exec_bytes e) = s)
    by (intros i off len s Hi <- <-; by apply field_of).
  assert (Hoff : forall i, String.length <$> take i (exec_fields e) = take i [1; 3; 4; 4; 4; 4; 4; 16; 256; 2; 1; 1]).
  { intros i. rewrite fmap_take. unfold exec_fields. cbn [fmap list_fmap]. by rewrite !le_bytes_length, Hc, Ha. }
  unfold num.
  rewrite (Hf 2 4 4 (le_bytes 4 (px_pid e))), (Hf 3 8 4 (le_bytes 4 (px_tgid e))), (Hf 4 12 4 (le_bytes 4 (px_ppid e))),
    (Hf 5 16 4 (le_bytes 4 (px_uid e))), (Hf 6 20 4 (le_bytes 4 (px_gid e))), (Hf 7 24 COMM_LEN (px_comm e)),
    (Hf 8 40 ARGV_BUF_LEN (px_argv e)), (Hf 9 296 2 (le_bytes 2 (px_argv_len e))), (Hf 10 298 1 (le_bytes 1 (px_argc e))),
    (Hf 11 299 1 (le_bytes 1 (px_argv_truncated e))) by (done || apply le_bytes_length || (by rewrite Hoff)).
  rewrite !le_val_bytes by done. by destruct e.
Qed.

(** The buffer that the probe writes for arguments: each followed by a zero byte. *)
Definition argv_buffer (args : list string) : string := str_concat ((fun a => a +:+ String "000" "") <$> args).

(** An argument that the buffer holds faithfully. *)
Definition plain_arg (a : string) : Prop :=
  a <> "" /\ utf8_valid a = true /\ all_bytes (fun c => negb (bool_decide (c = "000"%char))) a = true.

Lemma split_plain c a : all_bytes (fun x => negb (bool_decide (x = c))) a = true -> split c a = [a].
Proof.
  induction a as [|x a IH]; [done|]. simpl. intros [Hx Ha]%andb_true_iff. apply negb_true_iff in Hx.
  by rewrite Hx, IH.
Qed.

Lemma split_argv args : Forall plain_arg args -> filter (.≠ "") (split "000" (argv_buffer args)) = args.
Proof.
  induction 1 as [|a args (Hne & _ & Hz) _ IH]; [done|]. unfold argv_buffer. cbn [fmap list_fmap str_concat].
  rewrite str_app_assoc. rewrite str_cons_app. change ("" +:+ ?x) with x. rewrite split_cat, split_plain by done.
  cbn [app]. rewrite filter_cons, decide_True by done. f_equal. exact IH.
Qed.

(** An execution that the kernel reports reaches the rules as it was. For a record of
    any process, with arguments that fit the buffer, the event built from its bytes
    has the process id, the parent, the user and, as its command line, exactly the
    arguments joined by blanks; and a record of any other kind or size than the
    three layouts gives no event at all. *)
Theorem exec_record_exact (host : string) (e : ProcessExecEvent) (args : list string) (pad : string) (st : Stamp) (seq : Z) :
  exec_fits e -> px_argv e = argv_buffer args +:+ pad -> px_argv_len e = Z.of_nat (String.length (argv_buffer args)) ->
  Forall plain_arg args -> args <> [] ->
  (exists ev p, handle_record host (exec_bytes e) st seq = Some ev /\ ev_process ev = Some p /\
     p_pid p = as_i32 (px_pid e) /\ p_user p = Some (user_uid (px_uid e)) /\ p_cmdline p = Some (join " " args) /\
     ev_message ev = Some ("exec: " +:+ join " " args)) /\
  (forall bytes, handle_record host bytes st seq <> None ->
     exists k rest, bytes = String k rest /\
       (byte k, String.length bytes) ∈ [(1%N, 300); (2%N, 292); (3%N, 288)]).
Proof.
  intros Hf Hargv Hlen Hargs Hne. split.
  - assert (Hstr : argv_strings e = args).
    { unfold argv_strings. rewrite Hlen, Hargv, str_length_app, Z.min_l, Nat2Z.id, substring_here by lia.
      rewrite split_argv by done. clear -Hargs. induction Hargs as [|a l (_ & Hu & _) _ IH]; [done|]. csimpl.
      by rewrite from_utf8_lossy_valid, IH. }
    assert (Hk : handle_record host (exec_bytes e) st seq = (fun ev => process_exec_to_event host ev st seq) <$> exec_of_bytes (exec_bytes e))
      by reflexivity.
    rewrite Hk, exec_of_exec_bytes by done. cbn [fmap option_fmap option_map]. unfold process_exec_to_event.
    rewrite Hstr. destruct args as [|a args]; [done|].
    do 2 eexists. split; [reflexivity|]. done.
  - intros [|k rest]; [done|]. unfold handle_record, exec_of_bytes, open_of_bytes, unlink_of_bytes. intros Hs.
    exists k, rest. split; [done|].
    destruct (N.eqb_spec (byte k) 1) as [->|]; [|destruct (N.eqb_spec (byte k) 2) as [->|]; [|destruct (N.eqb_spec (byte k) 3) as [->|]; [|done]]].
    all: case_bool_decide as Hb; [|done]; rewrite Hb; set_solver.
Qed.
End EbpfProps.

(** ** Witnesses *)

Module CollectorsDemo.

(** Two lines that the parser knows. *)
Definition dq : string := String "034" "".
Definition alert_json : json :=
  JObject [("alert", JObject [("severity", JPosInt 1); ("signature", JString "nmap")]);
           ("event_type", JString "alert"); ("src_ip", JString "192.0.2.5")].
#[local] Instance demo_json : JsonParse := {|
  json_from_str s :=
    if bool_decide (s = "alert") then Some alert_json
    else if bool_decide (s = "sshd") then Some (JObject [("MESSAGE", JString "hi"); ("SYSLOG_IDENTIFIER", JString "sshd")])
    else None
|}.
#[local] Instance demo_mask : Canary.MaskText := {| Canary.mask_debug _ := "mask" |}.

Definition lf : string := String nl "".
Definition st (n : nat) : Stamp := mkStamp (Z.of_nat n) 0 0.
Definition turn (c : string) : JsonTurn := mkJsonTurn false (fun _ => ReadOk c) (Some (0, 9)%Z) (Some (1, Some 9%Z)) st.
Definition stop : JsonTurn := mkJsonTurn true (fun _ => ReadShutdown) None None st.

(** A line cut in two, a rotation, and a line of the next file. *)
Definition cut_lines : list JsonTurn := [turn "ale"; turn ("rt" +:+ lf); turn ""; turn ("alert" +:+ lf +:+ "al")].

Lemma json_tail_exact_witness :
  exists t', json_run true (Suricata.process_line "web") (cut_lines ++ [stop]) (mkJsonTail 0 "" 0 5 0 []) = JStopped t' /\
    length (jt_published t') = 2 /\ jt_pending t' = "al".
Proof.
  destruct (json_tail_exact true (Suricata.process_line "web") 0 5 0 cut_lines stop) as (t' & E & _).
  - repeat constructor; eexists; reflexivity.
  - left. reflexivity.
  - exists t'. split; [exact E|]. vm_compute in E. injection E as <-. vm_compute. done.
Defined.

#[local] Instance demo_text : EventText := {| event_to_string _ := Err "no text"; event_from_str _ := Err "no event" |}.

(** A turn at the end of the open file in which the path holds a fresh file with the given
    mode and owner; a file that was opened in such a turn has no text. *)
Definition es_turn (file : nat) (mode uid : Z) (text : nat -> string) : Eventstream.EsTurn :=
  Eventstream.mkEsTurn (mkJsonTurn false (fun f => ReadOk (text f)) (Some (0, 9)%Z) None st)
    (Some ("Name: x" +:+ lf +:+ "Uid: 1000 1001 1001 1001"))
    (Ok (Ok (Eventstream.mkFileFacts true mode uid))) (Ok tt) file (Some 9%Z).
Definition guarded : Eventstream.IntegrityCheck := Eventstream.mkIntegrityCheck true [].

Lemma eventstream_reads_vetted_witness :
  let start := es_turn 0 420 1001 (fun _ => "") in
  let world (planted : string) := [es_turn 1 438 1001 (fun f => if f =? 1 then planted else "")] in
  Eventstream.run guarded ReadFrom.Start (es_turn 0 438 1001 (fun _ => "")) (Ok tt) None None [] =
    Err (Eventstream.IntegrityRefused "world-writable (mode & 0o002 != 0)") /\
  Eventstream.run guarded ReadFrom.Start start (Ok tt) (Some 5%Z) None (world "planted") =
  Eventstream.run guarded ReadFrom.Start start (Ok tt) (Some 5%Z) None (world "").
Proof.
  split; [vm_compute; reflexivity|].
  apply (EventstreamProps.eventstream_reads_vetted guarded eq_refl (es_turn 0 420 1001 (fun _ => "")) ReadFrom.Start (Ok tt) (Some 5%Z) None).
  constructor; [|constructor]. repeat (split; [reflexivity|]). intros f (o & Ho & <- & md & Hm & _ & Ht & _). simpl.
  apply elem_of_cons in Ho as [->|Ho]; [reflexivity|]. apply list_elem_of_singleton in Ho as ->.
  injection Hm as <-. vm_compute in Ht. discriminate.
Defined.

Definition follower (lines : list string) : Journald.Follower :=
  Journald.mkFollower false (Ok tt) ((fun l => (l, st 0)) <$> lines) Journald.FollowClosed false.

Lemma journald_keeps_following_witness :
  exists t', Journald.run_journalctl "web" [follower []; follower []; follower ["sshd"]; follower []] Journald.MIN_RESPAWN_BACKOFF
      (mkJsonTail 0 "" 0 0 0 []) = (JRunning t', [100; 200; 100; 200]%Z) /\ length (jt_published t') = 1.
Proof.
  destruct (JournaldProps.journald_keeps_following "web" [follower []; follower []; follower ["sshd"]; follower []]
    (mkJsonTail 0 "" 0 0 0 [])) as [Ha _].
  destruct Ha as (t' & E & Hp & _); [repeat constructor; discriminate|].
  exists t'. split; [exact E|]. rewrite Hp. vm_compute. reflexivity.
Defined.

Lemma canary_exact_witness :
  Canary.run "web" [("/root/key", Some 1%Z); ("/none", None)] [Canary.Notified 1 32 (st 0); Canary.Notified 2 32 (st 1)] =
    (1%Z, [Canary.finding "web" "/root/key" 32 (st 0) 0], true) /\
  Canary.install [("/root/key", Some 1%Z); ("/none", None)] !! 1%Z = Some "/root/key".
Proof.
  split; [vm_compute; reflexivity|].
  pose proof (CanaryProps.canary_exact "web" [("/root/key", Some 1%Z); ("/none", None)] [Canary.Notified 1 32 (st 0)]) as Hc.
  destruct Hc as (_ & _ & _ & Hi); [vm_compute; discriminate|repeat constructor|].
  apply (Hi [] "/root/key" 1%Z [("/none", None)]); [reflexivity|]. vm_compute. intros Hx. inversion Hx.
Defined.

Definition nuls (n : nat) : string := Nat.iter n (String "000") "".
Definition ls_event : Ebpf.ProcessExecEvent :=
  Ebpf.mkProcessExecEvent 1234 1234 1 1000 1000 ("ls" +:+ nuls 14) (EbpfProps.argv_buffer ["ls"; "-la"] +:+ nuls 249) 7 2 0.

Lemma exec_record_exact_witness :
  exists ev p, Ebpf.handle_record "web" (EbpfProps.exec_bytes ls_event) (st 0) 0 = Some ev /\ ev_process ev = Some p /\
    p_pid p = 1234%Z /\ p_cmdline p = Some "ls -la".
Proof.
  destruct (EbpfProps.exec_record_exact "web" ls_event ["ls"; "-la"] (nuls 249) (st 0) 0) as ((ev & p & Hh & Hp & Hpid & _ & Hc & _) & _).
  - vm_compute. repeat split; discriminate.
  - reflexivity.
  - reflexivity.
  - repeat constructor; try discriminate; vm_compute; reflexivity.
  - discriminate.
  - exists ev, p. split; [exact Hh|]. split; [exact Hp|]. split; [exact Hpid|exact Hc].
Defined.
End CollectorsDemo.
