(* ===== verification/Guardian.v ===== *)
(** * The guardian

    Models crates/selfdef-guardian (lib.rs and the daemon of bin/) and the verdict
    type of crates/selfdef-guardian-mirror: classification of Tetragon events, the
    three-step response with its effects, the flood breaker, the hash-chained
    detection log with its checker, and the ring of recent verdicts.

    An operation takes what the host answers (exit statuses, I/O results, clock
    readings) and returns its result with its effects. The JSON text of a value
    and SHA-256 come from [JsonText] and [Sha256]; a file is its text, [None] when
    it does not exist. *)

From S2P Require Import Prelude Core.
From stdpp Require Import options.

(** ** selfdef-guardian-mirror *)

Definition SCHEMA : string := "1.0.0".

Module Action.
Inductive t := Sigkill | ProcessRelated | Other.

#[global] Instance eq_dec : EqDecision t.
Proof. solve_decision. Defined.
End Action.

Module ResponseStep.
Inductive t := Sigkill | AuditAppend | ConsoleAlert.

#[global] Instance eq_dec : EqDecision t.
Proof. solve_decision. Defined.
End ResponseStep.

Inductive StepOutcome := StepOk | Skipped (reason : string) | StepFailed (detail : string).

Record StepResult := mkStepResult {
  sr_step : ResponseStep.t;
  sr_outcome : StepOutcome;
}.

Record Verdict := mkVerdict {
  vd_schema_version : string;
  vd_event_id : string;
  vd_action : Action.t;
  vd_target_pid : Z;
  vd_target_cgroup : string;
  vd_target_container_id : string;
  vd_target_binary_path : string;
  vd_response_steps : list StepResult;
  vd_ts_ms : Z;
  vd_hostname : string;
  vd_signer_kid_policy : string;
}.

Inductive MirrorError :=
| SchemaMismatch (got : string)
| EmptyPolicySigner
| EmptyHostname
| BadTimestamp
| EmptyEventId
| EmptyResponseSteps
| MirrorSerde (e : string).

Definition verdict_validate (v : Verdict) : result unit MirrorError :=
  if negb (bool_decide (vd_schema_version v = SCHEMA)) then Err (SchemaMismatch (vd_schema_version v))
  else if bool_decide (vd_event_id v = "") then Err EmptyEventId
  else if bool_decide (vd_signer_kid_policy v = "") then Err EmptyPolicySigner
  else if bool_decide (vd_hostname v = "") then Err EmptyHostname
  else if (vd_ts_ms v =? 0)%Z then Err BadTimestamp
  else match vd_response_steps v with [] => Err EmptyResponseSteps | _ => Ok tt end.

Definition outcome_ok (o : StepOutcome) : bool := match o with StepOk => true | _ => false end.

Definition step_ok (st : ResponseStep.t) (v : Verdict) : bool :=
  existsb (fun s => bool_decide (sr_step s = st) && outcome_ok (sr_outcome s)) (vd_response_steps v).
Definition sigkill_ok : Verdict -> bool := step_ok ResponseStep.Sigkill.
Definition audit_append_ok : Verdict -> bool := step_ok ResponseStep.AuditAppend.

Fixpoint all_steps_go (steps : list StepResult) (have_sigkill have_audit have_console : bool) : bool :=
  match steps with
  | [] => have_sigkill && have_audit && have_console
  | s :: steps =>
      match sr_outcome s with
      | StepFailed _ => false
      | _ =>
          match sr_step s with
          | ResponseStep.Sigkill => all_steps_go steps true have_audit have_console
          | ResponseStep.AuditAppend => all_steps_go steps have_sigkill true have_console
          | ResponseStep.ConsoleAlert => all_steps_go steps have_sigkill have_audit true
          end
      end
  end.
Definition all_steps_ok (v : Verdict) : bool := all_steps_go (vd_response_steps v) false false false.

(** ** Events and classification *)

Record TetragonEvent := mkTetragonEvent {
  te_event_id : string;
  te_action : string;
  te_pid : Z;
  te_cgroup : string;
  te_container_id : string;
  te_binary_path : string;
  te_ts_ms : Z;
}.

Definition classify (event : TetragonEvent) : Action.t :=
  let a := to_ascii_lowercase (te_action event) in
  if bool_decide (a = "sigkill") then Action.Sigkill
  else if contains a "process" then Action.ProcessRelated
  else Action.Other.

Definition should_respond (a : Action.t) : bool :=
  match a with Action.Sigkill | Action.ProcessRelated => true | Action.Other => false end.

Inductive GuardianError :=
| GSchemaMismatch (got : string)
| GIo (e : string)
| GSerde (e : string)
| Classifier (e : string)
| GCommand (e : string)
| AuditChainBreak (line : nat) (detail : string)
| CircuitBreakerOpen (detail : string).

(** ** Effects *)

Inductive Effect :=
| RunCommand (program : string) (args : list string)
| AppendLine (path line : string)
| ConsoleWrite (path text : string).

(** What the host answers to the three steps. [h_status] is the outcome of starting
    the kill command: an error of the spawn, or whether the exit status was a
    success, with its text. *)
Record Host := mkHost {
  h_self_pid : Z;
  h_status : result (bool * string) string;
  h_append : result unit string;
  h_console : result unit string;
  h_now_ms : Z;
}.

Definition sigkill `{UnicodeTables} (host : Host) (target_pid : Z) (container_id : string) :
    result unit string * list Effect :=
  if negb (bool_decide (container_id = "")) then
    if starts_with container_id "-" then
      (Err ("refusing container_id with leading '-' (possible argv injection, e.g. `podman kill --all`): "
            +:+ str_debug container_id), [])
    else
      (match h_status host with
       | Err e => Err ("spawn podman kill: " +:+ e)
       | Ok (true, _) => Ok tt
       | Ok (false, st) => Err ("podman kill exit=" +:+ st)
       end, [RunCommand "podman" ["kill"; "--"; container_id]])
  else if (target_pid =? 0)%Z then (Err "target_pid=0 with empty container_id; nothing to kill", [])
  else if (target_pid =? 1)%Z then (Err "refusing to SIGKILL pid 1 (init); would halt the host", [])
  else if (target_pid =? h_self_pid host)%Z then
    (Err "refusing to SIGKILL the guardian's own pid (self-preservation)", [])
  else
    (match h_status host with
     | Err e => Err ("spawn kill -9: " +:+ e)
     | Ok (true, _) => Ok tt
     | Ok (false, st) => Err ("kill -9 exit=" +:+ st)
     end, [RunCommand "kill" ["-9"; show_uint target_pid]]).

(** [char::is_control]: the general category Cc. *)
Definition is_control (c : rchar) : bool :=
  let n := char_code c in (n <? 32)%N || in_range 127 159 n.

Definition console_text (message : string) : string :=
  String "007" (str_concat (filter (fun c => is_control c = false) (chars message)) +:+ String "010" "").

Record Responder := mkResponder {
  rp_audit_log : string;
  rp_console : string;
  rp_hostname : string;
  rp_signer_kid_policy : string;
}.

Definition step_of (r : result unit string) : StepOutcome :=
  match r with Ok _ => StepOk | Err e => StepFailed e end.

Definition console_step (r : result unit string) : StepOutcome :=
  match r with
  | Ok _ => StepOk
  | Err e => if contains e "Permission denied" || contains e "No such file" then Skipped e else StepFailed e
  end.

Section respond.
Context `{WireFormat} `{UnicodeTables}.

Definition audit_line (r : Responder) (event : TetragonEvent) : string :=
  json_to_string (JObject
    [("ts_ms", JPosInt (te_ts_ms event)); ("hostname", JString (rp_hostname r));
     ("event_id", JString (te_event_id event)); ("action", JString (te_action event));
     ("target_pid", JPosInt (te_pid event)); ("target_container_id", JString (te_container_id event));
     ("target_binary_path", JString (te_binary_path event)); ("target_cgroup", JString (te_cgroup event));
     ("signer_kid_policy", JString (rp_signer_kid_policy r))]).

Definition respond (r : Responder) (host : Host) (event : TetragonEvent) : Verdict * list Effect :=
  let action := classify event in
  let '(sk_outcome, kills) :=
    if bool_decide (te_container_id event = "")
       && ((te_pid event <=? 1)%Z || (te_pid event =? h_self_pid host)%Z) then
      (Skipped ("refusing host SIGKILL of pid " +:+ show_uint (te_pid event)
                +:+ " (init/invalid/self); would halt the host or the guardian"), [])
    else
      let '(res, eff) := sigkill host (te_pid event) (te_container_id event) in (step_of res, eff) in
  let aa_outcome := step_of (h_append host) in
  let message := "[Guardian] SIGKILL pid=" +:+ show_uint (te_pid event) +:+ " cgroup=" +:+ te_cgroup event
    +:+ " binary=" +:+ te_binary_path event +:+ " event=" +:+ te_event_id event in
  let ca_outcome := console_step (h_console host) in
  (mkVerdict SCHEMA (te_event_id event) action (te_pid event) (te_cgroup event) (te_container_id event)
     (te_binary_path event)
     [mkStepResult ResponseStep.Sigkill sk_outcome; mkStepResult ResponseStep.AuditAppend aa_outcome;
      mkStepResult ResponseStep.ConsoleAlert ca_outcome]
     (if (te_ts_ms event =? 0)%Z then h_now_ms host else te_ts_ms event)
     (rp_hostname r) (rp_signer_kid_policy r),
   kills ++ [AppendLine (rp_audit_log r) (audit_line r event)] ++ [ConsoleWrite (rp_console r) (console_text message)]).
End respond.

(** ** The detection log *)

(** SHA-256 as lower-case hexadecimal text. *)
Class Sha256 := { sha256_hex : string -> string }.

(** Reading a JSON value back. *)
Class JsonText := { json_of_string : string -> result json string }.

Section log.
Context `{WireFormat} `{Sha256} `{JsonText}.

Definition blank (line : string) : bool := bool_decide (trim line = "").

Definition last_line_sha256 (file : option string) : option string :=
  text ← file;
  line ← last (filter (fun l => blank l = false) (str_lines text));
  Some (sha256_hex line).

Definition action_json (a : Action.t) : json :=
  JString (match a with
           | Action.Sigkill => "sigkill"
           | Action.ProcessRelated => "process-related"
           | Action.Other => "other"
           end).

Definition step_json (s : StepResult) : json :=
  JObject [("step", JString (match sr_step s with
                             | ResponseStep.Sigkill => "sigkill"
                             | ResponseStep.AuditAppend => "audit-append"
                             | ResponseStep.ConsoleAlert => "console-alert"
                             end));
           ("outcome", JObject (match sr_outcome s with
                                | StepOk => [("outcome", JString "ok")]
                                | Skipped d => [("outcome", JString "skipped"); ("detail", JString d)]
                                | StepFailed d => [("outcome", JString "failed"); ("detail", JString d)]
                                end))].

Definition detection_json (v : Verdict) (prev_sha : option string) : json :=
  let '(activity_id, severity_id, status_id) := if all_steps_ok v then (1, 4, 1)%Z else (3, 5, 2)%Z in
  JObject
    [("metadata", JObject [("version", JString "1.1.0");
        ("product", JObject [("name", JString "selfdef-guardian"); ("vendor_name", JString "selfdef")]);
        ("log_name", JString "guardian")]);
     ("category_uid", JPosInt 2); ("class_uid", JPosInt 2004); ("class_name", JString "Detection Finding");
     ("type_uid", JPosInt (2004 * 100 + activity_id)); ("activity_id", JPosInt activity_id);
     ("severity_id", JPosInt severity_id); ("status_id", JPosInt status_id); ("time", JPosInt (vd_ts_ms v));
     ("device", JObject [("hostname", JString (vd_hostname v))]);
     ("process", JObject [("pid", JPosInt (vd_target_pid v));
        ("file", JObject [("path", JString (vd_target_binary_path v))]);
        ("container", JObject [("id", JString (vd_target_container_id v))]);
        ("cgroup", JString (vd_target_cgroup v))]);
     ("guardian_event_id", JString (vd_event_id v)); ("guardian_action", action_json (vd_action v));
     ("guardian_steps", JArray (step_json <$> vd_response_steps v));
     ("policy_signer_kid", JString (vd_signer_kid_policy v)); ("schema_version", JString (vd_schema_version v));
     ("prev_event_sha256", match prev_sha with Some s => JString s | None => JNull end)].

(** The answers of the file system, in the order of the calls. A write that fails
    may have appended a part of the line. *)
Record LogIo := mkLogIo {
  li_mkdir : result unit string;
  li_read : result unit string;
  li_open : result unit string;
  li_write : result unit (string * nat);
  li_sync : result unit string;
}.

Fixpoint str_prefix (n : nat) (s : string) : string :=
  match n, s with S n, String a s => String a (str_prefix n s) | _, _ => "" end.

Definition newline : string := String "010" "".

Definition emit_ocsf_detection_2004 (io : LogIo) (v : Verdict) (file : option string) :
    result unit GuardianError * option string :=
  match li_mkdir io with
  | Err e => (Err (GIo e), file)
  | Ok _ =>
      match (match file with Some _ => li_read io | None => Ok tt end) with
      | Err e => (Err (GIo e), file)
      | Ok _ =>
          let prev_sha := last_line_sha256 file in
          let line := json_to_string (detection_json v prev_sha) in
          match li_open io with
          | Err e => (Err (GIo e), file)
          | Ok _ =>
              let text := default "" file in
              match li_write io with
              | Err (e, n) => (Err (GIo e), Some (text +:+ str_prefix n (line +:+ newline)))
              | Ok _ =>
                  (match li_sync io with Ok _ => Ok tt | Err e => Err (GIo e) end,
                   Some (text +:+ line +:+ newline))
              end
          end
      end
  end.

(** One line of the walk: the hash of the line before, if any, must be claimed. *)
Definition check_line (n : nat) (last_sha : option string) (line : string) : result string GuardianError :=
  match json_of_string line with
  | Err e => Err (AuditChainBreak n ("malformed JSON: " +:+ e))
  | Ok parsed =>
      match last_sha, json_get parsed "prev_event_sha256" ≫= json_as_str with
      | Some want, Some got =>
          if bool_decide (got = want) then Ok (sha256_hex line)
          else Err (AuditChainBreak n ("prev_event_sha256=" +:+ got +:+ ", expected " +:+ want))
      | Some _, None => Err (AuditChainBreak n "prev_event_sha256 missing from non-first event")
      | None, Some got =>
          Err (AuditChainBreak n ("first event claims predecessor prev_event_sha256=" +:+ got
                                  +:+ " (head truncated)"))
      | None, None => Ok (sha256_hex line)
      end
  end.

Fixpoint check_lines (n : nat) (lines : list string) (last_sha : option string) (events : nat) :
    result nat GuardianError :=
  match lines with
  | [] => Ok events
  | line :: lines =>
      if blank line then check_lines (S n) lines last_sha events
      else let? sha := check_line n last_sha line in check_lines (S n) lines (Some sha) (S events)
  end.

Definition audit_chain_check (read : result unit string) (file : option string) : result nat GuardianError :=
  match file with
  | None => Ok 0
  | Some text =>
      match read with
      | Err e => Err (GIo e)
      | Ok _ => check_lines 1 (str_lines text) None 0
      end
  end.
End log.

(** ** The flood breaker *)

Definition FLOOD_THRESHOLD_PER_TARGET : Z := 5.
Definition FLOOD_WINDOW_MS : Z := 60000.

Definition CircuitBreaker := gmap string (list Z).
Definition breaker_new : CircuitBreaker := ∅.

Definition target_key (container_id : string) (pid : Z) : string :=
  if bool_decide (container_id = "") then "pid:" +:+ show_uint pid else container_id.

Definition breaker_record `{UnicodeTables} (b : CircuitBreaker) (key : string) (now_ms : Z) :
    result unit GuardianError * CircuitBreaker :=
  let cutoff := ((now_ms - FLOOD_WINDOW_MS) `max` 0)%Z in
  let v := filter (fun t => (cutoff < t)%Z) (default [] (b !! key)) in
  if (FLOOD_THRESHOLD_PER_TARGET <=? as_u32 (Z.of_nat (length v)))%Z then
    (Err (CircuitBreakerOpen ("target " +:+ str_debug key +:+ " exceeded 5 SIGKILLs in 60000ms")), <[key := v]> b)
  else (Ok tt, <[key := v ++ [now_ms]]> b).

(** ** The ring of verdicts *)

(** The entries of the ring directory, in the order in which it is read: a name, the
    time of modification ([None] when it is not available) and the verdict stored. *)
Abbreviation Ring := (list (string * (option Z * Verdict))).

Definition json_name (name : string) : bool := bool_decide (extension name = Some "json").

Definition write_ring_entry (name : string) (mtime : option Z) (v : Verdict) (ring : Ring) : Ring :=
  if bool_decide (name ∈ ring.*1)
  then (fun e => if bool_decide (e.1 = name) then (name, (mtime, v)) else e) <$> ring
  else ring ++ [(name, (mtime, v))].

(** [Reverse] of the times, with the epoch for a missing one. *)
Definition newer (p q : string * (option Z * Verdict)) : Prop :=
  (default 0 q.2.1 <= default 0 p.2.1)%Z.
#[global] Instance newer_dec : RelDecision newer.
Proof. unfold newer. solve_decision. Defined.

(** [listed]: whether the directory and its metadata can be read; [removed]: which
    removals succeed. *)
Definition evict_old_ring_entries (cap : nat) (listed : bool) (removed : string -> bool) (ring : Ring) : Ring :=
  if negb listed then ring else
  let entries := filter (fun e => json_name e.1 = true) ring in
  if decide (length entries <= cap) then ring
  else
    let old := (drop cap (merge_sort newer entries)).*1 in
    filter (fun e => ~ (e.1 ∈ old /\ removed e.1 = true)) ring.

(** Newest first by the verdict's own time. *)
Definition ts_desc (v w : Verdict) : Prop := (vd_ts_ms w <= vd_ts_ms v)%Z.
#[global] Instance ts_desc_dec : RelDecision ts_desc.
Proof. unfold ts_desc. solve_decision. Defined.

(** [None]: no such directory. *)
Definition read_ring_buffer (listing : result (option Ring) string) : result (list Verdict) GuardianError :=
  match listing with
  | Err e => Err (GIo e)
  | Ok None => Ok []
  | Ok (Some ring) =>
      Ok (merge_sort ts_desc
           (filter (fun v => is_ok (verdict_validate v) = true)
             ((filter (fun e => json_name e.1 = true) ring).*2).*2))
  end.

(** ** The daemon *)

(** The derived deserialization of an event. *)
Class TetragonJson := { tetragon_of_json : string -> result TetragonEvent string }.

Record GuardState := mkGuardState {
  gs_breaker : CircuitBreaker;
  gs_ring : Ring;
  gs_ocsf : option string;
  gs_effects : list Effect;
}.

(** One item of the socket's line iterator with the answers to what it leads to;
    [ln_ring]: the time of the ring file, when it could be written. *)
Record LineIo := mkLineIo {
  ln_line : result string string;
  ln_now : Z;
  ln_host : Host;
  ln_ring : result (option Z) string;
  ln_listed : bool;
  ln_removed : string -> bool;
  ln_log : LogIo;
}.

Section daemon.
Context `{WireFormat} `{UnicodeTables} `{Sha256} `{JsonText} `{TetragonJson} (r : Responder).

Definition handle_event (io : LineIo) (event : TetragonEvent) (s : GuardState) : GuardState :=
  if negb (should_respond (classify event)) then s
  else
    let key := target_key (te_container_id event) (te_pid event) in
    match breaker_record (gs_breaker s) key (ln_now io) with
    | (Err _, b) => mkGuardState b (gs_ring s) (gs_ocsf s) (gs_effects s)
    | (Ok _, b) =>
        let '(verdict, effects) := respond r (ln_host io) event in
        let ring :=
          match ln_ring io with
          | Ok mtime => write_ring_entry ("evt-" +:+ show_uint (vd_ts_ms verdict) +:+ ".json") mtime verdict (gs_ring s)
          | Err _ => gs_ring s
          end in
        let ring := evict_old_ring_entries 256 (ln_listed io) (ln_removed io) ring in
        let '(_, ocsf) := emit_ocsf_detection_2004 (ln_log io) verdict (gs_ocsf s) in
        mkGuardState b ring ocsf (gs_effects s ++ effects)
    end.

Definition handle_line (io : LineIo) (line : string) (s : GuardState) : GuardState :=
  let trimmed := trim line in
  if bool_decide (trimmed = "") then s
  else match tetragon_of_json trimmed with
       | Err _ => s
       | Ok event => handle_event io event s
       end.

(** A connection: until the socket ends or a read fails; connections follow each
    other on the same state. *)
Fixpoint run_connection (lines : list LineIo) (s : GuardState) : GuardState :=
  match lines with
  | [] => s
  | io :: lines =>
      match ln_line io with
      | Err _ => s
      | Ok line => run_connection lines (handle_line io line s)
      end
  end.

Definition run_guardian (connections : list (list LineIo)) (s : GuardState) : GuardState :=
  foldl (fun s lines => run_connection lines s) s connections.
End daemon.
