(* ===== verification/GuardianProps.v ===== *)
(** * Properties of the guardian

    What it kills and what it writes, the exact meaning of its flood breaker, the
    detection log as a tamper-evident chain, and the ring of verdicts. *)

From S2P Require Import Prelude Core Guardian.
From stdpp Require Import options.

(** ** Effects *)

(** The commands the guardian may run for an event: the container of the event by a
    name that is no option, or the process of the event on the host, never init,
    the process group or the guardian itself. *)
Definition aimed (host : Host) (event : TetragonEvent) (e : Effect) : Prop :=
  match e with
  | RunCommand program args =>
      te_container_id event <> "" /\ starts_with (te_container_id event) "-" = false /\
        program = "podman" /\ args = ["kill"; "--"; te_container_id event] \/
      te_container_id event = "" /\ (1 < te_pid event)%Z /\ te_pid event <> h_self_pid host /\
        program = "kill" /\ args = ["-9"; show_uint (te_pid event)]
  | AppendLine _ _ => True
  | ConsoleWrite _ text => exists body, text = String "007" (str_concat body +:+ String "010" "") /\
                             Forall (fun c => is_control c = false) body
  end.

Section effects.
Context `{WireFormat} `{UnicodeTables}.

Lemma sigkill_aimed host event e :
  (te_container_id event = "" -> (1 < te_pid event)%Z) ->
  e ∈ (sigkill host (te_pid event) (te_container_id event)).2 -> aimed host event e.
Proof.
  intros Hp. unfold sigkill. destruct (bool_decide (te_container_id event = "")) eqn:Ec; simpl.
  - apply bool_decide_eq_true in Ec. specialize (Hp Ec). repeat zcase; simpl; try (by intros ?%elem_of_nil).
    intros ->%list_elem_of_singleton. by right.
  - apply bool_decide_eq_false in Ec. destruct (starts_with _ _) eqn:Es; simpl; [by intros ?%elem_of_nil|].
    intros ->%list_elem_of_singleton. by left.
Qed.

Lemma console_aimed host event p m : aimed host event (ConsoleWrite p (console_text m)).
Proof.
  exists (filter (fun c => is_control c = false) (chars m)). split; [done|].
  apply Forall_forall. by intros c [? _]%list_elem_of_filter.
Qed.

Lemma respond_aimed r host event e : e ∈ (respond r host event).2 -> aimed host event e.
Proof.
  unfold respond.
  destruct (bool_decide (te_container_id event = "") && ((te_pid event <=? 1)%Z || (te_pid event =? h_self_pid host)%Z)) eqn:Eg.
  - simpl. rewrite !elem_of_cons, elem_of_nil. intros [->|[->|[]]]; [done|apply console_aimed].
  - assert (Hp : te_container_id event = "" -> (1 < te_pid event)%Z).
    { intros E. rewrite bool_decide_true in Eg by done. apply orb_false_iff in Eg as [?%Z.leb_gt _]. lia. }
    assert (Hs := sigkill_aimed host event e Hp). destruct (sigkill _ _ _) as [res eff].
    simpl. rewrite elem_of_app, !elem_of_cons, elem_of_nil.
    intros [Hk|[->|[->|[]]]]; [by apply Hs|done|apply console_aimed].
Qed.

(** Every response records its three steps in order and attempts each of them, and
    its verdict passes validation when the event has an identifier and the
    guardian an identity. *)
Lemma respond_steps r host event :
  sr_step <$> vd_response_steps (respond r host event).1 =
    [ResponseStep.Sigkill; ResponseStep.AuditAppend; ResponseStep.ConsoleAlert] /\
  AppendLine (rp_audit_log r) (audit_line r event) ∈ (respond r host event).2 /\
  (te_event_id event <> "" -> rp_signer_kid_policy r <> "" -> rp_hostname r <> "" ->
   (te_ts_ms event <> 0 \/ h_now_ms host <> 0)%Z -> verdict_validate (respond r host event).1 = Ok tt).
Proof.
  unfold respond. destruct (if bool_decide (te_container_id event = "") && _ then _ else _) as [sk kills].
  simpl. split; [done|]. split; [set_solver|]. intros He Hs Hh Ht. unfold verdict_validate. simpl.
  rewrite !bool_decide_false by done. simpl. destruct (Z.eqb_spec (te_ts_ms event) 0) as [E0|E0].
  - by rewrite (proj2 (Z.eqb_neq _ _)) by naive_solver.
  - by rewrite (proj2 (Z.eqb_neq _ _)).
Qed.
End effects.

(** ** Lines *)

Definition nl : ascii := "010".
Definition no_nl : string -> bool := all_bytes (fun a => negb (bool_decide (a = nl))).
Definition strip_cr (l : string) : string := default l (strip_suffix (String "013" "") l).

Lemma split_cons_ne c s : exists h t, split c s = h :: t.
Proof. destruct s as [|a s]; simpl; [by eauto|]. case_bool_decide; [by eauto|]. destruct (split c s); eauto. Qed.

Lemma split_sep c s t : split c (s +:+ String c t) = split c s ++ split c t.
Proof.
  induction s as [|a s IH].
  - change ("" +:+ String c t) with (String c t). simpl. by rewrite bool_decide_true.
  - rewrite str_cons_app. simpl. rewrite IH. case_bool_decide; [done|].
    by destruct (split_cons_ne c s) as (h & tl & ->).
Qed.

Lemma split_one c s : all_bytes (fun a => negb (bool_decide (a = c))) s = true -> split c s = [s].
Proof.
  induction s as [|a s IH]; [done|]. simpl. intros [Ha%negb_true_iff Hs]%andb_true_iff.
  by rewrite Ha, (IH Hs).
Qed.

Lemma str_lines_ended s : str_lines (s +:+ String nl "") = strip_cr <$> split nl s.
Proof.
  unfold str_lines. fold nl. rewrite split_sep. simpl split at 2 4 6. rewrite length_app. simpl length.
  rewrite Nat.add_sub, take_app_length, drop_app_length. simpl. by rewrite app_nil_r.
Qed.

(** A text all of whose lines are ended. *)
Definition ended (s : string) : Prop := s = "" \/ exists s', s = s' +:+ String nl "".

Lemma str_lines_snoc s l : ended s -> no_nl l = true -> strip_cr l = l ->
  str_lines (s +:+ (l +:+ String nl "")) = str_lines s ++ [l].
Proof.
  intros [->|[s' ->]] Hl Hcr.
  - change ("" +:+ ?x) with x. rewrite str_lines_ended, split_one by done. simpl. by rewrite Hcr.
  - rewrite str_lines_ended, str_app_assoc, <-(str_app_assoc (String nl "")). change (String nl "" +:+ l) with (String nl l).
    rewrite <-str_app_assoc, str_lines_ended, split_sep, fmap_app, (split_one nl l) by done. simpl. by rewrite Hcr.
Qed.

(** ** The chain *)

(** serde_json: the compact text of an object is one line that is not blank and does
    not end in a carriage return, and it is read back with the same fields. *)
Class JsonTextLaws `{WireFormat} `{JsonText} : Prop := {
  object_one_line fields : no_nl (json_to_string (JObject fields)) = true;
  object_not_blank fields : blank (json_to_string (JObject fields)) = false;
  object_no_cr fields : strip_cr (json_to_string (JObject fields)) = json_to_string (JObject fields);
  object_read_back fields : NoDup fields.*1 ->
    exists v, json_of_string (json_to_string (JObject fields)) = Ok v /\ forall k, json_get v k = assoc k fields;
}.

(** An append that does not tear a line. *)
Definition untorn (io : LogIo) : Prop := match li_write io with Err (_, S _) => False | _ => True end.

Lemma detection_keys v prev : exists fields, detection_json v prev = JObject fields /\ NoDup fields.*1 /\
  assoc "prev_event_sha256" fields = Some (match prev with Some s => JString s | None => JNull end).
Proof.
  unfold detection_json. destruct (all_steps_ok v); eexists; (split; [reflexivity|]);
    (split; [repeat (constructor; [set_solver|]); constructor|done]).
Qed.

Section chain.
Context `{WireFormat} `{Sha256} `{JsonText}.

(** The hash that the walk holds after some lines. *)
Fixpoint walk_sha (lines : list string) (sha : option string) : option string :=
  match lines with
  | [] => sha
  | l :: lines => walk_sha lines (if blank l then sha else Some (sha256_hex l))
  end.

Lemma walk_sha_last lines sha :
  walk_sha lines sha = match last (filter (fun l => blank l = false) lines) with
                       | Some l => Some (sha256_hex l)
                       | None => sha
                       end.
Proof.
  revert sha. induction lines as [|l lines IH]; intros sha; [done|]. simpl. rewrite IH, filter_cons.
  destruct (blank l) eqn:E; [by rewrite decide_False|]. rewrite decide_True by done.
  rewrite last_cons. by destruct (last _).
Qed.

Lemma last_line_walk text : last_line_sha256 (Some text) = walk_sha (str_lines text) None.
Proof.
  unfold last_line_sha256. simpl. rewrite walk_sha_last. by destruct (last _).
Qed.

Lemma check_lines_snoc n lines sha k line :
  check_lines n (lines ++ [line]) sha k =
    let? m := check_lines n lines sha k in
    if blank line then Ok m
    else let? _ := check_line (n + length lines) (walk_sha lines sha) line in Ok (S m).
Proof.
  revert n sha k. induction lines as [|l lines IH]; intros n sha k; simpl.
  - rewrite Nat.add_0_r. destruct (blank line); [done|]. by destruct (check_line _ _ _).
  - destruct (blank l) eqn:E.
    + rewrite IH. by rewrite Nat.add_succ_r.
    + destruct (check_line n sha l) as [s|] eqn:Ec; [|done]. simpl. rewrite IH, Nat.add_succ_r.
      assert (s = sha256_hex l) as ->; [|done].
      unfold check_line in Ec. repeat case_match; by simplify_eq.
Qed.

Context `{!JsonTextLaws}.
#[local] Set Default Proof Using "Type*".

(** The line that [emit_ocsf_detection_2004] appends continues the chain. *)
Lemma emitted_line n v prev :
  let line := json_to_string (detection_json v prev) in
  no_nl line = true /\ blank line = false /\ strip_cr line = line /\ check_line n prev line = Ok (sha256_hex line).
Proof.
  simpl. destruct (detection_keys v prev) as (fields & -> & Hn & Ha).
  split_and!; [apply object_one_line|apply object_not_blank|apply object_no_cr|].
  destruct (object_read_back fields Hn) as (w & Hw & Hg). unfold check_line. rewrite Hw, Hg, Ha.
  destruct prev as [s|]; simpl; [by rewrite bool_decide_true|done].
Qed.

Definition chained (file : option string) (k : nat) : Prop :=
  match file with
  | None => k = 0
  | Some text => ended text /\ check_lines 1 (str_lines text) None 0 = Ok k
  end.

Lemma emit_chained io v file k :
  untorn io -> chained file k ->
  exists k', chained (emit_ocsf_detection_2004 io v file).2 k' /\ k <= k' <= S k /\
    ((emit_ocsf_detection_2004 io v file).1 = Ok tt -> k' = S k).
Proof.
  intros Hu Hc. unfold emit_ocsf_detection_2004. destruct (li_mkdir io); [|exists k; naive_solver lia].
  destruct (match file with Some _ => li_read io | None => Ok tt end); [|exists k; naive_solver lia].
  destruct (li_open io); [|exists k; naive_solver lia].
  assert (Hc' : chained (Some (default "" file)) k).
  { destruct file; [done|]. simpl in *. subst. split; [by left|done]. }
  assert (Hl : last_line_sha256 file = walk_sha (str_lines (default "" file)) None)
    by (destruct file; [apply last_line_walk|done]).
  unfold untorn in Hu. destruct (li_write io) as [|[e [|]]]; [|exists k; simpl; rewrite str_app_nil_r; naive_solver lia|done].
  exists (S k). split; [|split; [lia|done]]. simpl. destruct Hc' as [He Hk]. rewrite Hl.
  destruct (emitted_line (1 + length (str_lines (default "" file))) v (walk_sha (str_lines (default "" file)) None))
    as (L1 & L2 & L3 & L4). split.
  - right. eexists. by rewrite <-str_app_assoc.
  - rewrite str_lines_snoc, check_lines_snoc, Hk by done. simpl. rewrite L2. simpl in L4. by rewrite L4.
Qed.

(** Emissions one after the other: the results and the file. *)
Fixpoint emit_all (l : list (LogIo * Verdict)) (file : option string) : list (result unit GuardianError) * option string :=
  match l with
  | [] => ([], file)
  | (io, v) :: l =>
      let '(r, file) := emit_ocsf_detection_2004 io v file in
      let '(rs, file) := emit_all l file in (r :: rs, file)
  end.

Lemma emit_all_chained l file k :
  Forall (fun p => untorn p.1) l -> chained file k ->
  exists k', chained (emit_all l file).2 k' /\
    k + length (filter (fun r => is_ok r = true) (emit_all l file).1) <= k' <= k + length l.
Proof.
  intros Hu. revert file k. induction Hu as [|[io v] l Hio _ IH]; intros file k Hc; simpl; [exists k; split; [done|lia]|].
  destruct (emit_chained io v file k Hio Hc) as (k1 & Hc1 & Hk1 & Hok).
  destruct (emit_ocsf_detection_2004 io v file) as [r file1]. simpl in *.
  destruct (IH file1 k1 Hc1) as (k2 & Hc2 & Hk2). destruct (emit_all l file1) as [rs file2]. simpl in *.
  exists k2. split; [done|]. rewrite filter_cons. destruct r as [[]|e]; simpl.
  - rewrite Hok in * by done. lia.
  - lia.
Qed.

(** The detection log of a guardian always checks: starting without a file, after
    any emissions, failed ones included as long as no line is torn, the checker
    accepts the file, and it counts every emission that was reported as done and
    no more than were attempted. *)
Theorem emitted_log_checks l :
  Forall (fun p => untorn p.1) l ->
  exists k, audit_chain_check (Ok tt) (emit_all l None).2 = Ok k /\
    length (filter (fun r => is_ok r = true) (emit_all l None).1) <= k <= length l.
Proof.
  intros Hu. destruct (emit_all_chained l None 0 Hu eq_refl) as (k & Hc & Hk). exists k. split; [|done].
  destruct (emit_all l None) as [rs [text|]]; simpl in *; [by destruct Hc as [_ ->]|by subst].
Qed.
End chain.

(** ** Tampering *)

Section tamper.
Context `{Sha256} `{JsonText}.

Definition claimed (line : string) : option string :=
  match json_of_string line with Ok p => json_get p "prev_event_sha256" ≫= json_as_str | Err _ => None end.

Fixpoint linked (lines : list string) (sha : option string) : Prop :=
  match lines with
  | [] => True
  | l :: lines => is_ok (json_of_string l) = true /\ claimed l = sha /\ linked lines (Some (sha256_hex l))
  end.

Lemma check_line_ok n sha l : is_ok (check_line n sha l) = true <-> is_ok (json_of_string l) = true /\ claimed l = sha.
Proof.
  unfold check_line, claimed. destruct (json_of_string l) as [p|]; [|naive_solver].
  destruct (json_get p _ ≫= json_as_str) as [got|], sha as [want|]; simpl; try naive_solver.
  case_bool_decide; naive_solver.
Qed.

Lemma check_line_sha n sha l s : check_line n sha l = Ok s -> s = sha256_hex l.
Proof. unfold check_line. repeat case_match; intros; by simplify_eq. Qed.

(** The walk accepts exactly the linked lists of lines. *)
Lemma check_lines_linked n lines sha k m :
  check_lines n lines sha k = Ok m <->
  linked (filter (fun l => blank l = false) lines) sha /\ m = k + length (filter (fun l => blank l = false) lines).
Proof.
  revert n sha k. induction lines as [|l lines IH]; intros n sha k; simpl.
  - split; [intros; simplify_eq; split; [done|lia]|intros [_ ->]; f_equal; lia].
  - rewrite filter_cons. destruct (blank l) eqn:Eb; [by rewrite decide_False, IH|].
    rewrite decide_True by done. simpl. assert (Hco := check_line_ok n sha l).
    destruct (check_line n sha l) as [s|] eqn:Ec; simpl in *.
    + rewrite IH. apply check_line_sha in Ec as ->. destruct (proj1 Hco eq_refl) as [-> ->].
      split; [intros [? ->]; split; [by split|lia]|intros [[_ [_ ?]] ->]; split; [done|lia]].
    + split; [done|]. intros [[Hok [Hcl _]] _]. by discriminate (proj2 Hco (conj Hok Hcl)).
Qed.

Lemma linked_snoc lines l sha :
  linked (lines ++ [l]) sha <->
  linked lines sha /\ is_ok (json_of_string l) = true /\
  claimed l = match last lines with Some p => Some (sha256_hex p) | None => sha end.
Proof.
  revert sha. induction lines as [|x lines IH]; intros sha; simpl; [tauto|].
  rewrite IH, last_cons. destruct (last lines); tauto.
Qed.

Definition events_of (text : string) : list string := filter (fun l => blank l = false) (str_lines text).

(** C33: The audit log is tamper evident. Two files that both check and end in the same event
    contain the same events, all of them, unless the two files themselves hold a SHA-256
    collision: a line of the one and a different line of the other, both followed by an
    equal rest, with the same hash. So no event before a known one can be altered,
    inserted, removed or reordered, at the head of the file included. Removing events
    from the end, on the other hand, is not detected: every prefix of a file that checks
    is a file that checks. *)
Theorem chain_tamper_evident text1 text2 k1 k2 l :
  audit_chain_check (Ok tt) (Some text1) = Ok k1 -> audit_chain_check (Ok tt) (Some text2) = Ok k2 ->
  last (events_of text1) = Some l -> last (events_of text2) = Some l ->
  (events_of text1 = events_of text2 \/
   exists pre1 a pre2 b rest, events_of text1 = pre1 ++ a :: rest /\ events_of text2 = pre2 ++ b :: rest /\
     a <> b /\ sha256_hex a = sha256_hex b) /\
  (forall text, events_of text `prefix_of` events_of text1 ->
     audit_chain_check (Ok tt) (Some text) = Ok (length (events_of text))).
Proof.
  simpl. rewrite !check_lines_linked. intros [L1 _] [L2 _] E1 E2. fold (events_of text1) in L1. fold (events_of text2) in L2.
  split.
  - revert L1 L2 E1 E2. generalize (events_of text1) as ls1, (events_of text2) as ls2. intros ls1. revert l.
    induction ls1 as [|x ls1 IH] using rev_ind; intros l ls2 L1 L2 E1 E2; [done|].
    rewrite last_snoc in E1. simplify_eq. apply last_Some in E2 as [ls2' ->].
    apply linked_snoc in L1 as (L1 & _ & C1). apply linked_snoc in L2 as (L2 & _ & C2). rewrite C2 in C1.
    destruct (last ls1) as [p1|] eqn:P1, (last ls2') as [p2|] eqn:P2; simplify_eq.
    + destruct (decide (p1 = p2)) as [<-|Hne].
      * destruct (IH p1 ls2' L1 L2 eq_refl P2) as [->|(pre1 & a & pre2 & b & rest & -> & -> & Hc)]; [by left|].
        right. exists pre1, a, pre2, b, (rest ++ [l]). by rewrite <-!app_assoc.
      * apply last_Some in P1 as [q1 ->]. apply last_Some in P2 as [q2 ->]. right. exists q1, p1, q2, p2, [l].
        by rewrite <-!app_assoc.
    + apply last_None in P1 as ->. apply last_None in P2 as ->. by left.
  - intros text [rest Hr]. apply check_lines_linked. split; [|done]. fold (events_of text).
    rewrite Hr in L1. clear -L1. revert L1. generalize (None : option string) as sha.
    induction (events_of text) as [|x ls IH]; intros sha; simpl; [done|]. naive_solver.
Qed.
End tamper.

(** ** The breaker *)

Section breaker.
Context `{UnicodeTables}.

Fixpoint run_breaker (l : list (string * Z)) (b : CircuitBreaker) : list bool * CircuitBreaker :=
  match l with
  | [] => ([], b)
  | (key, now) :: l =>
      let '(r, b) := breaker_record b key now in
      let '(rs, b) := run_breaker l b in (is_ok r :: rs, b)
  end.

Definition cutoff (now : Z) : Z := (now - FLOOD_WINDOW_MS) `max` 0.

(** The specification, by history: an attempt is allowed when fewer than five attempts
    on the same target were allowed in the last minute. *)
Definition recent (key : string) (c : Z) (log : list (string * Z)) : list (string * Z) :=
  filter (fun e => e.1 = key /\ (c < e.2)%Z) log.

Fixpoint spec_breaker (l : list (string * Z)) (log : list (string * Z)) : list bool * list (string * Z) :=
  match l with
  | [] => ([], log)
  | (key, now) :: l =>
      let ok := bool_decide (length (recent key (cutoff now) log) < 5) in
      let '(rs, log) := spec_breaker l (if ok then log ++ [(key, now)] else log) in (ok :: rs, log)
  end.

Definition breaker_sim (now0 : Z) (b : CircuitBreaker) (log : list (string * Z)) : Prop :=
  (forall key c, (cutoff now0 <= c)%Z -> filter (fun t => (c < t)%Z) (default [] (b !! key)) = (recent key c log).*2) /\
  (forall key, length (default [] (b !! key)) <= 5).

Lemma cutoff_mono t u : (t <= u)%Z -> (cutoff t <= cutoff u)%Z.
Proof. unfold cutoff. lia. Qed.

Lemma recent_snoc key c log k t :
  (recent key c (log ++ [(k, t)])).*2 =
    (recent key c log).*2 ++ (if decide (k = key) then filter (fun t => (c < t)%Z) [t] else []).
Proof.
  unfold recent. rewrite filter_app, fmap_app. f_equal. rewrite filter_cons, filter_nil. simpl.
  destruct (decide (k = key)) as [->|Hk]; [|by rewrite decide_False by naive_solver].
  rewrite filter_cons, filter_nil. by repeat case_decide; naive_solver.
Qed.

Lemma filter_filter_le (c c' : Z) (l : list Z) : (c' <= c)%Z ->
  filter (fun t => (c < t)%Z) (filter (fun t => (c' < t)%Z) l) = filter (fun t => (c < t)%Z) l.
Proof. intros Hc. rewrite list_filter_filter_l; [done|]. intros x. lia. Qed.

Lemma breaker_lookup (b : CircuitBreaker) k v k' :
  <[k := v]> b !! k' = if decide (k = k') then Some v else b !! k'.
Proof. apply (lookup_insert (M := gmap string)). Qed.

Lemma breaker_step now0 b log key now :
  (now0 <= now)%Z -> breaker_sim now0 b log ->
  let ok := bool_decide (length (recent key (cutoff now) log) < 5) in
  is_ok (breaker_record b key now).1 = ok /\
  breaker_sim now (breaker_record b key now).2 (if ok then log ++ [(key, now)] else log).
Proof.
  intros Hnow [Hs Hl]. assert (Hm := cutoff_mono _ _ Hnow).
  assert (Hv := Hs key (cutoff now) Hm). unfold breaker_record. fold (cutoff now). rewrite Hv.
  assert (Hlen : length (recent key (cutoff now) log).*2 <= 5)
    by (rewrite <-Hv; etrans; [apply length_filter|done]).
  rewrite length_fmap in *. rewrite as_u32_id by (unfold u32_max; lia). unfold FLOOD_THRESHOLD_PER_TARGET.
  destruct (Z.leb_spec 5 (Z.of_nat (length (recent key (cutoff now) log)))) as [Hge|Hlt]; cbn [fst snd is_ok].
  - rewrite bool_decide_false by lia. split; [done|]. split.
    + intros k c Hc. destruct (decide (k = key)) as [->|Hk].
      * rewrite breaker_lookup, decide_True by done. simpl. rewrite <-Hv, filter_filter_le by done. apply Hs. lia.
      * rewrite breaker_lookup, decide_False by done. apply Hs. lia.
    + intros k. destruct (decide (k = key)) as [->|Hk]; [rewrite breaker_lookup, decide_True by done; simpl; by rewrite length_fmap|].
      rewrite breaker_lookup, decide_False by done. apply Hl.
  - rewrite bool_decide_true by lia. split; [done|]. split.
    + intros k c Hc. rewrite recent_snoc. destruct (decide (k = key)) as [->|Hk].
      * rewrite breaker_lookup, !decide_True by done. simpl. rewrite filter_app. f_equal.
        rewrite <-Hv, filter_filter_le by done. apply Hs. lia.
      * rewrite breaker_lookup, !decide_False, app_nil_r by done. apply Hs. lia.
    + intros k. destruct (decide (k = key)) as [->|Hk].
      * rewrite breaker_lookup, decide_True by done. simpl. rewrite length_app, length_fmap. simpl. lia.
      * rewrite breaker_lookup, decide_False by done. apply Hl.
Qed.

Lemma run_breaker_spec l now0 b log :
  StronglySorted Z.le (now0 :: l.*2) -> breaker_sim now0 b log -> (run_breaker l b).1 = (spec_breaker l log).1.
Proof.
  revert now0 b log. induction l as [|[key now] l IH]; intros now0 b log Hs Hsim; [done|]. cbn [run_breaker spec_breaker].
  inv Hs. match goal with H : Forall _ _ |- _ => inv H end.
  destruct (breaker_step now0 b log key now ltac:(done) Hsim) as [Hok Hsim'].
  destruct (breaker_record b key now) as [r b']. simpl in Hok, Hsim'. rewrite <-Hok in *.
  specialize (IH now b' _ ltac:(done) Hsim').
  destruct (run_breaker l b') as [rs b'']. destruct (spec_breaker l _) as [rs' log']. simpl in *. by rewrite IH.
Qed.

(** The attempts that went through, and those of a target in a window. *)
Definition allowed {A} (l : list A) (rs : list bool) : list A :=
  (filter (fun p => p.2 = true) (zip l rs)).*1.

Definition in_window (key : string) (a : Z) (log : list (string * Z)) : list (string * Z) :=
  filter (fun e => e.1 = key /\ (a < e.2 <= a + FLOOD_WINDOW_MS)%Z) log.

Lemma allowed_cons {A} (x : A) l b rs : allowed (x :: l) (b :: rs) = (if b then [x] else []) ++ allowed l rs.
Proof. unfold allowed. simpl. rewrite filter_cons. by destruct b. Qed.

Lemma spec_breaker_log l log : (spec_breaker l log).2 = log ++ allowed l (spec_breaker l log).1.
Proof.
  revert log. induction l as [|[key now] l IH]; intros log; simpl; [by rewrite app_nil_r|].
  case_bool_decide; match goal with |- context [spec_breaker l ?g] => specialize (IH g); destruct (spec_breaker l g) end;
    simpl in *; rewrite allowed_cons, IH; [by rewrite <-app_assoc|done].
Qed.

Lemma window_snoc key a log now : (0 <= a)%Z ->
  (forall k, length (in_window k a log) <= 5) -> length (recent key (cutoff now) log) < 5 ->
  forall k, length (in_window k a (log ++ [(key, now)])) <= 5.
Proof.
  intros Ha Hw Hr k. unfold in_window in *. rewrite filter_app, length_app, filter_cons, filter_nil. simpl.
  specialize (Hw k). case_decide as Hd; simpl; [|lia]. destruct Hd as [<- Hn].
  enough (length (filter (fun e => e.1 = key /\ (a < e.2 <= a + FLOOD_WINDOW_MS)%Z) log)
    <= length (recent key (cutoff now) log)) by lia.
  unfold recent. clear Hw Hr. induction log as [|e log IH]; [done|]. rewrite !filter_cons.
  repeat case_decide; simpl; try lia. exfalso. unfold cutoff, FLOOD_WINDOW_MS in *. naive_solver lia.
Qed.

Lemma spec_breaker_window l log a : (0 <= a)%Z ->
  (forall k, length (in_window k a log) <= 5) -> forall k, length (in_window k a (spec_breaker l log).2) <= 5.
Proof.
  intros Ha. revert log. induction l as [|[key now] l IH]; intros log Hw; simpl; [done|].
  case_bool_decide as Hb; match goal with |- context [spec_breaker l ?g] => specialize (IH g); destruct (spec_breaker l g) end;
    apply IH; [by apply window_snoc|done].
Qed.

Lemma breaker_new_sim now0 : breaker_sim now0 breaker_new [].
Proof.
  unfold breaker_sim, breaker_new, CircuitBreaker. split; intros; rewrite (lookup_empty (M := gmap string)); simpl; [done|lia].
Qed.

Lemma run_breaker_app l1 l2 b :
  run_breaker (l1 ++ l2) b =
    ((run_breaker l1 b).1 ++ (run_breaker l2 (run_breaker l1 b).2).1, (run_breaker l2 (run_breaker l1 b).2).2).
Proof.
  revert b. induction l1 as [|[key now] l1 IH]; intros b; simpl; [by destruct (run_breaker l2 b)|].
  destruct (breaker_record b key now) as [r b']. rewrite IH. by destruct (run_breaker l1 b').
Qed.

Lemma run_breaker_length l b : length (run_breaker l b).1 = length l.
Proof.
  revert b. induction l as [|[key now] l IH]; intros b; simpl; [done|].
  destruct (breaker_record b key now) as [r b']. specialize (IH b'). destruct (run_breaker l b'). simpl in *. lia.
Qed.

Lemma allowed_app {A} (l1 l2 : list A) rs1 rs2 : length l1 = length rs1 ->
  allowed (l1 ++ l2) (rs1 ++ rs2) = allowed l1 rs1 ++ allowed l2 rs2.
Proof. intros Hl. unfold allowed. by rewrite zip_with_app, filter_app, fmap_app. Qed.

Lemma allowed_fmap {A B} (f : A -> B) l rs : f <$> allowed l rs = allowed (f <$> l) rs.
Proof.
  revert rs. induction l as [|x l IH]; intros [|b rs]; [done..|]. simpl. rewrite !allowed_cons, fmap_app, IH.
  by destruct b.
Qed.

Lemma allowed_elem {A} (x : A) l rs : x ∈ allowed l rs -> x ∈ l.
Proof.
  revert rs. induction l as [|y l IH]; intros [|b rs]; [by intros ?%elem_of_nil..|].
  rewrite allowed_cons, elem_of_app. destruct b; set_solver.
Qed.
End breaker.

(** ** The daemon *)

Section run.
Context `{WireFormat} `{UnicodeTables} `{Sha256} `{JsonText} `{TetragonJson} (r : Responder).

(** The events of a connection that call for a response, with the answers of the host. *)
Definition line_attempt (io : LineIo) (line : string) : list (LineIo * TetragonEvent) :=
  if blank line then [] else
  match tetragon_of_json (trim line) with
  | Ok event => if should_respond (classify event) then [(io, event)] else []
  | Err _ => []
  end.

Fixpoint attempts (lines : list LineIo) : list (LineIo * TetragonEvent) :=
  match lines with
  | [] => []
  | io :: lines =>
      match ln_line io with Ok line => line_attempt io line ++ attempts lines | Err _ => [] end
  end.

Definition stamp (p : LineIo * TetragonEvent) : string * Z :=
  (target_key (te_container_id p.2) (te_pid p.2), ln_now p.1).

Definition response (p : LineIo * TetragonEvent) : list Effect := (respond r (ln_host p.1) p.2).2.

Definition ran (l : list (LineIo * TetragonEvent)) (s s' : GuardState) : Prop :=
  gs_breaker s' = (run_breaker (stamp <$> l) (gs_breaker s)).2 /\
  gs_effects s' = gs_effects s ++ (allowed l (run_breaker (stamp <$> l) (gs_breaker s)).1 ≫= response).

Lemma ran_nil s : ran [] s s.
Proof. split; [done|]. by rewrite app_nil_r. Qed.

Lemma ran_app l1 l2 s1 s2 s3 : ran l1 s1 s2 -> ran l2 s2 s3 -> ran (l1 ++ l2) s1 s3.
Proof.
  intros [B1 E1] [B2 E2]. unfold ran. rewrite fmap_app, run_breaker_app. simpl. rewrite <-B1. split; [done|].
  rewrite E2, E1, allowed_app, bind_app, <-app_assoc; [done|]. by rewrite run_breaker_length, length_fmap.
Qed.

Lemma handle_line_ran io line s : ran (line_attempt io line) s (handle_line r io line s).
Proof.
  unfold line_attempt, handle_line, blank. destruct (bool_decide (trim line = "")); [apply ran_nil|].
  destruct (tetragon_of_json (trim line)) as [event|]; [|apply ran_nil]. unfold handle_event.
  destruct (should_respond (classify event)); simpl; [|apply ran_nil]. unfold ran. simpl. unfold stamp. simpl.
  destruct (breaker_record (gs_breaker s) _ (ln_now io)) as [[[]|e] b]; simpl.
  - destruct (respond r (ln_host io) event) as [v eff] eqn:Er. destruct (emit_ocsf_detection_2004 _ _ _). simpl.
    unfold response. simpl. by rewrite Er, app_nil_r.
  - by rewrite app_nil_r.
Qed.

Lemma run_connection_ran lines s : ran (attempts lines) s (run_connection r lines s).
Proof.
  revert s. induction lines as [|io lines IH]; intros s; simpl; [apply ran_nil|].
  destruct (ln_line io) as [line|]; [|apply ran_nil]. eapply ran_app; [apply handle_line_ran|apply IH].
Qed.

Lemma run_guardian_ran conns s : ran (conns ≫= attempts) s (run_guardian r conns s).
Proof.
  unfold run_guardian. revert s. induction conns as [|lines conns IH]; intros s; simpl; [apply ran_nil|].
  eapply ran_app; [apply run_connection_ran|apply IH].
Qed.

(** C12: what a guardian does to the host, over any number of connections. Its effects
    are the responses to the events that call for one, in order, less those that
    the flood specification withholds: an attempt is dropped exactly when five on
    the same target went through in the last minute. So no target is hit more
    than five times in any minute, and every command names the container of the
    event by a name that cannot be read as an option, or its process, which is
    neither init nor the guardian. The clock must not go back. *)
Theorem guardian_effects_exact conns s0 :
  gs_breaker s0 = breaker_new -> gs_effects s0 = [] ->
  StronglySorted Z.le (ln_now <$> (conns ≫= attempts).*1) ->
  let att := conns ≫= attempts in
  let done := allowed att (spec_breaker (stamp <$> att) []).1 in
  gs_effects (run_guardian r conns s0) = (done ≫= response) /\
  (forall key a, (0 <= a)%Z -> length (in_window key a (stamp <$> done)) <= 5) /\
  (forall e, e ∈ gs_effects (run_guardian r conns s0) -> exists io event, (io, event) ∈ att /\ aimed (ln_host io) event e).
Proof.
  intros Hb He Hs att acc. destruct (run_guardian_ran conns s0) as [_ Hr]. rewrite Hb, He in Hr. fold att in Hr, Hs.
  assert (Heq : (run_breaker (stamp <$> att) breaker_new).1 = (spec_breaker (stamp <$> att) []).1).
  { destruct att as [|[io ev] att'] eqn:Ea; [done|]. apply (run_breaker_spec _ (ln_now io)); [|apply breaker_new_sim].
    replace ((stamp <$> (io, ev) :: att').*2) with (ln_now <$> ((io, ev) :: att').*1)
      by (rewrite <-!list_fmap_compose; done).
    constructor; [done|]. inv Hs. by constructor. }
  rewrite Heq in Hr. simpl in Hr. split; [done|]. split.
  - intros key a Ha. assert (Hw := spec_breaker_window (stamp <$> att) [] a Ha ltac:(simpl; lia) key).
    rewrite spec_breaker_log in Hw. unfold acc. by rewrite allowed_fmap.
  - intros e. rewrite Hr. intros ([io ev] & He' & Hin)%list_elem_of_bind. exists io, ev. split; [|by eapply respond_aimed].
    by eapply allowed_elem.
Qed.
End run.

(** ** The ring *)

Section ring.

Lemma filter_drop_names {A} (l1 l2 : list (string * A)) :
  NoDup (l1 ++ l2).*1 -> filter (fun e => e.1 ∉ l2.*1) (l1 ++ l2) = l1.
Proof.
  rewrite fmap_app, filter_app. intros (_ & Hd & _)%NoDup_app.
  rewrite filter_all, filter_none, app_nil_r; [done| |].
  - apply Forall_forall. intros e He Hn. apply Hn. by apply list_elem_of_fmap_2.
  - apply Forall_forall. intros e He. by apply Hd, list_elem_of_fmap_2.
Qed.

Lemma NoDup_names_inj {A} (l : list (string * A)) e e' : NoDup l.*1 -> e ∈ l -> e' ∈ l -> e.1 = e'.1 -> e = e'.
Proof.
  induction l as [|x l IH]; simpl; [by intros _ ?%elem_of_nil|]. intros [Hx Hl]%NoDup_cons [->|He]%elem_of_cons [->|He']%elem_of_cons E;
    [done| | |by apply IH]; destruct Hx; [rewrite E|rewrite <-E]; by apply list_elem_of_fmap_2.
Qed.

Definition json_entries (ring : Ring) : Ring := filter (fun e => json_name e.1 = true) ring.

#[local] Instance newer_total : Total newer.
Proof. intros x y. unfold newer. lia. Qed.
#[local] Instance newer_trans : Transitive newer.
Proof. intros x y z. unfold newer. lia. Qed.

(** The names that eviction removes, and what it keeps of the verdict files. *)
Lemma evicted cap ring :
  NoDup ring.*1 -> cap < length (json_entries ring) ->
  exists kept old, kept ++ old ≡ₚ json_entries ring /\ length kept = cap /\
    (forall e e', e ∈ kept -> e' ∈ old -> newer e e') /\
    evict_old_ring_entries cap true (fun _ => true) ring = filter (fun e => e.1 ∉ old.*1) ring /\
    filter (fun e => e.1 ∉ old.*1) (json_entries ring) ≡ₚ kept.
Proof.
  intros Hn Hc. set (sorted := merge_sort newer (json_entries ring)).
  assert (Hp : sorted ≡ₚ json_entries ring) by apply merge_sort_Permutation.
  assert (Hs : StronglySorted newer (take cap sorted ++ drop cap sorted)).
  { rewrite take_drop. apply Sorted_StronglySorted; [apply newer_trans|]. by apply Sorted_merge_sort, _. }
  exists (take cap sorted), (drop cap sorted). split; [by rewrite take_drop|]. split.
  { rewrite length_take, Hp. lia. }
  split; [by intros e e'; apply StronglySorted_app_1_elem_of|]. split.
  - unfold evict_old_ring_entries. fold (json_entries ring) sorted. simpl. rewrite decide_False by lia.
    apply list_filter_iff. tauto.
  - assert (Hf := filter_drop_names (take cap sorted) (drop cap sorted)). rewrite take_drop in Hf.
    rewrite <-Hp. apply reflexive_eq, Hf. rewrite Hp. eapply sublist_NoDup; [done|]. apply fmap_sublist, sublist_filter.
Qed.

(** What eviction leaves, when the directory can be read and files removed: at most
    [cap] verdict files, everything that is not a verdict file, and no verdict file
    is removed while an older one stays. Below the capacity nothing is removed. *)
Theorem ring_eviction cap ring :
  NoDup ring.*1 ->
  let ring' := evict_old_ring_entries cap true (fun _ => true) ring in
  length (json_entries ring') = Nat.min cap (length (json_entries ring)) /\
  (forall e, e ∈ ring -> json_name e.1 = false -> e ∈ ring') /\
  (forall e e', e ∈ json_entries ring' -> e' ∈ ring -> e' ∉ ring' -> newer e e').
Proof.
  intros Hn. destruct (decide (length (json_entries ring) <= cap)) as [Hc|Hc].
  { unfold evict_old_ring_entries. simpl. fold (json_entries ring). rewrite decide_True by done.
    split; [lia|]. split; [done|]. intros e e' _ H1 H2. by destruct H2. }
  destruct (evicted cap ring Hn ltac:(lia)) as (kept & old & Hp & Hl & Hnew & -> & Hk). simpl.
  assert (Hj : json_entries (filter (fun e => e.1 ∉ old.*1) ring) ≡ₚ kept).
  { rewrite <-Hk. unfold json_entries. rewrite !list_filter_filter. apply reflexive_eq, list_filter_iff. tauto. }
  assert (Hin : forall e, e ∈ old -> e ∈ json_entries ring) by (intros e; rewrite <-Hp; set_solver).
  split; [rewrite Hj; lia|]. split.
  - intros e He Hf. apply list_elem_of_filter. split; [|done].
    intros (e2 & E2 & H2)%list_elem_of_fmap. apply Hin, list_elem_of_filter in H2 as [H2 _]. congruence.
  - intros e e' He He' Hgone. apply Hnew; [by rewrite <-Hj|].
    destruct (decide (e'.1 ∈ old.*1)) as [Ho|Ho]; [|by destruct Hgone; apply list_elem_of_filter].
    apply list_elem_of_fmap in Ho as (e2 & E2 & H2). enough (e' = e2) by by subst.
    apply Hin, list_elem_of_filter in H2 as [_ H2]. by eapply NoDup_names_inj.
Qed.
End ring.

Section ring_run.
Context `{WireFormat} `{UnicodeTables} `{Sha256} `{JsonText} `{TetragonJson} (r : Responder).

Lemma evict_small cap listed removed ring : length ring <= cap -> evict_old_ring_entries cap listed removed ring = ring.
Proof.
  intros Hl. unfold evict_old_ring_entries. destruct listed; [|done]. simpl.
  rewrite decide_True; [done|]. etrans; [apply length_filter|done].
Qed.

Lemma handle_event_ring io event s mtime :
  should_respond (classify event) = true -> ln_ring io = Ok mtime ->
  is_ok (breaker_record (gs_breaker s) (target_key (te_container_id event) (te_pid event)) (ln_now io)).1 = true ->
  let v := (respond r (ln_host io) event).1 in
  gs_ring (handle_event r io event s) =
    evict_old_ring_entries 256 (ln_listed io) (ln_removed io)
      (write_ring_entry ("evt-" +:+ show_uint (vd_ts_ms v) +:+ ".json") mtime v (gs_ring s)).
Proof.
  intros Hr Hm Hb. unfold handle_event. rewrite Hr, Hm. simpl.
  destruct (breaker_record _ _ _) as [[]]; [|done]. destruct (respond _ _ _) as [v eff].
  by destruct (emit_ocsf_detection_2004 _ _ _).
Qed.

(** The ring file of a verdict is named by its millisecond alone. Of two events of
    the same millisecond that were both answered, on different targets even, the
    ring keeps only the second. *)
Theorem ring_loses_verdict io1 io2 e1 e2 s m1 m2 :
  gs_ring s = [] -> should_respond (classify e1) = true -> should_respond (classify e2) = true ->
  ln_ring io1 = Ok m1 -> ln_ring io2 = Ok m2 ->
  let allowed s io e := is_ok (breaker_record (gs_breaker s) (target_key (te_container_id e) (te_pid e)) (ln_now io)).1 in
  let s1 := handle_event r io1 e1 s in
  let s2 := handle_event r io2 e2 s1 in
  allowed s io1 e1 = true -> allowed s1 io2 e2 = true ->
  te_ts_ms e1 <> 0%Z -> te_ts_ms e2 = te_ts_ms e1 -> te_event_id e1 <> te_event_id e2 ->
  vd_event_id <$> (gs_ring s1).*2.*2 = [te_event_id e1] /\ vd_event_id <$> (gs_ring s2).*2.*2 = [te_event_id e2].
Proof.
  intros Hs R1 R2 M1 M2 ok s1 s2 A1 A2 T1 T2 _.
  assert (Hv : forall host e, vd_event_id (respond r host e).1 = te_event_id e /\
      (te_ts_ms e <> 0%Z -> vd_ts_ms (respond r host e).1 = te_ts_ms e)).
  { intros host e. unfold respond. destruct (if _ && _ then _ else _) as [? ?]. simpl. split; [done|].
    intros ?. by rewrite (proj2 (Z.eqb_neq _ _)). }
  assert (E1 : gs_ring s1 = [("evt-" +:+ show_uint (te_ts_ms e1) +:+ ".json", (m1, (respond r (ln_host io1) e1).1))]).
  { unfold s1. erewrite handle_event_ring by done. rewrite Hs, evict_small by (simpl; lia). simpl.
    by rewrite (proj2 (Hv _ _)). }
  assert (E2 : gs_ring s2 = [("evt-" +:+ show_uint (te_ts_ms e1) +:+ ".json", (m2, (respond r (ln_host io2) e2).1))]).
  { unfold s2. erewrite handle_event_ring by done. rewrite E1, (proj2 (Hv _ _)), T2 by congruence.
    unfold write_ring_entry. rewrite bool_decide_true by set_solver. simpl. rewrite bool_decide_true by done.
    by rewrite evict_small by (simpl; lia). }
  rewrite E1, E2. simpl. by rewrite !(proj1 (Hv _ _)).
Qed.
End ring_run.

(** ** Examples *)

Module GuardianExamples.

(** A text for JSON values: the bits of their code. *)
Fixpoint json_tree (j : json) : gen_tree (bool + Z + string) :=
  match j with
  | JNull => GenNode 0 []
  | JBool b => GenNode 1 [GenLeaf (inl (inl b))]
  | JPosInt n => GenNode 2 [GenLeaf (inl (inr n))]
  | JNegInt n => GenNode 3 [GenLeaf (inl (inr n))]
  | JFloat n => GenNode 4 [GenLeaf (inl (inr n))]
  | JString s => GenNode 5 [GenLeaf (inr s)]
  | JArray l => GenNode 6 (json_tree <$> l)
  | JObject l => GenNode 7 ((fun kv => GenNode 0 [GenLeaf (inr kv.1); json_tree kv.2]) <$> l)
  end.

Fixpoint tree_json (t : gen_tree (bool + Z + string)) : json :=
  match t with
  | GenNode 1 [GenLeaf (inl (inl b))] => JBool b
  | GenNode 2 [GenLeaf (inl (inr n))] => JPosInt n
  | GenNode 3 [GenLeaf (inl (inr n))] => JNegInt n
  | GenNode 4 [GenLeaf (inl (inr n))] => JFloat n
  | GenNode 5 [GenLeaf (inr s)] => JString s
  | GenNode 6 l => JArray (tree_json <$> l)
  | GenNode 7 l => JObject ((fun kt => match kt with GenNode _ [GenLeaf (inr k); t] => (k, tree_json t) | _ => ("", JNull) end) <$> l)
  | _ => JNull
  end.

Lemma tree_json_tree j : tree_json (json_tree j) = j.
Proof.
  revert j. fix IH 1. intros [| | | | | |l|l]; try reflexivity; simpl; f_equal.
  - induction l as [|x l IHl]; [done|]. simpl. f_equal; [apply IH|apply IHl].
  - induction l as [|[k x] l IHl]; [done|]. simpl. f_equal; [f_equal; apply IH|apply IHl].
Qed.

Fixpoint bits (p : positive) : string :=
  match p with
  | xH => "1"
  | xO p => String "0" (bits p)
  | xI p => String "1" (bits p)
  end.

Fixpoint unbits (s : string) : positive :=
  match s with
  | String "1" "" => xH
  | String "0" s => xO (unbits s)
  | String _ s => xI (unbits s)
  | "" => xH
  end.

Lemma text_of_bits p : unbits (bits p) = p.
Proof.
  induction p as [p IH|p IH|]; simpl; [|by rewrite IH|done].
  rewrite IH. by destruct p.
Qed.

#[local] Instance wire : WireFormat :=
  {| uuid_to_string := fun _ => ""; rfc3339_format := fun _ => None;
     json_to_string := fun j => bits (encode (json_tree j)) |}.
#[local] Instance text : JsonText :=
  {| json_of_string := fun s => match decode (unbits s) with Some t => Ok (tree_json t) | None => Err "not JSON" end |}.

Lemma bits_cons p : exists a s, bits p = String a s /\ (a = "0" \/ a = "1")%char.
Proof. destruct p; simpl; eauto. Qed.

Lemma bits_snoc p : exists s, bits p = s +:+ "1".
Proof.
  induction p as [p [s E]|p [s E]|]; simpl; [| |by exists ""]; rewrite E; [by exists (String "1" s)|by exists (String "0" s)].
Qed.

Lemma bits_text p : no_nl (bits p) = true /\ blank (bits p) = false /\ strip_cr (bits p) = bits p.
Proof.
  assert (Ht : trimmed_ascii (bits p)).
  { destruct (bits_snoc p) as [s E]. destruct (bits_cons p) as (a & t & E' & Ha). split_and!.
    - clear. induction p as [p IH|p IH|]; [| |done]; simpl; apply IH.
    - intros a' t' E2. rewrite E' in E2. simplify_eq. by destruct Ha as [-> | ->].
    - intros b t' E2. rewrite E in E2. apply str_snoc_inj in E2 as [_ <-]. done. }
  split_and!.
  - clear Ht. induction p as [p IH|p IH|]; [| |done]; unfold no_nl in *; simpl; by rewrite IH.
  - unfold blank. rewrite trim_trimmed_ascii by done. destruct (bits_cons p) as (a & t & -> & _). by rewrite bool_decide_false.
  - unfold strip_cr. destruct (strip_suffix _ (bits p)) as [t|] eqn:E; [|done].
    apply strip_suffix_Some in E. destruct (bits_snoc p) as [s E2]. rewrite E2 in E.
    by apply str_snoc_inj in E as [_ ?].
Qed.

#[local] Instance text_laws : JsonTextLaws.
Proof.
  split; intros fields; try apply bits_text. intros _. exists (JObject fields). split; [|done].
  unfold json_of_string, json_to_string. simpl json_of_string. unfold text, wire.
  rewrite text_of_bits, decode_encode, tree_json_tree. done.
Qed.

#[local] Instance sha : Sha256 := {| sha256_hex := fun s => s |}.
#[local] Instance tables : UnicodeTables :=
  {| uc_alphanumeric := fun _ => false; uc_uppercase := fun c => c; uc_debug_plain := fun _ => true |}.

Definition io_ok : LogIo := mkLogIo (Ok tt) (Ok tt) (Ok tt) (Ok tt) (Ok tt).
Definition io_full : LogIo := mkLogIo (Ok tt) (Ok tt) (Ok tt) (Err ("disk full", 0)) (Ok tt).
Definition verdict : Verdict :=
  mkVerdict SCHEMA "e1" Action.Sigkill 42 "/cg" "" "/bin/x" [mkStepResult ResponseStep.Sigkill StepOk] 1000 "host" "kid".

Lemma emitted_log_checks_witness :
  let l := [(io_ok, verdict); (io_full, verdict); (io_ok, verdict)] in
  exists k, audit_chain_check (Ok tt) (emit_all l None).2 = Ok k /\
    length (filter (fun r => is_ok r = true) (emit_all l None).1) <= k <= length l.
Proof. intros l. apply (emitted_log_checks l). repeat constructor. Defined.

(** Three lines with their claims, the hash being the identity. *)
Definition lines_text : JsonText :=
  {| json_of_string := fun l =>
       if bool_decide (l = "a") then Ok (JObject [])
       else if bool_decide (l = "b") then Ok (JObject [("prev_event_sha256", JString "a")])
       else Err "unexpected" |}.

Definition two_events : string := "a" +:+ String nl ("b" +:+ String nl "").

Lemma chain_tamper_evident_witness :
  @audit_chain_check sha lines_text (Ok tt) (Some two_events) = Ok 2 /\
  (forall text, events_of text `prefix_of` events_of two_events ->
     @audit_chain_check sha lines_text (Ok tt) (Some text) = Ok (length (events_of text))).
Proof.
  split; [reflexivity|].
  apply (@chain_tamper_evident sha lines_text two_events two_events 2 2 "b"); reflexivity.
Defined.

(** Six kills of one container within a minute. *)
#[local] Instance events : TetragonJson :=
  {| tetragon_of_json := fun l => Ok (mkTetragonEvent l "SIGKILL" 42 "/cg" "c1" "/bin/x" 1000) |}.
Definition host : Host := mkHost 7 (Ok (true, "exit status: 0")) (Ok tt) (Ok tt) 5.
Definition responder : Responder := mkResponder "/log/audit" "/dev/console" "host" "kid".
Definition line_io (t : Z) : LineIo := mkLineIo (Ok "event") t host (Ok (Some t)) true (fun _ => true) io_ok.
Definition start : GuardState := mkGuardState breaker_new [] None [].
Definition flood : list (list LineIo) := [[line_io 1000; line_io 2000; line_io 3000]; [line_io 4000; line_io 5000; line_io 6000]].

Lemma guardian_effects_exact_witness :
  let att := flood ≫= attempts in
  let done := allowed att (spec_breaker (stamp <$> att) []).1 in
  length att = 6 /\ length done = 5 /\
  gs_effects (run_guardian responder flood start) = (done ≫= response responder).
Proof.
  split; [reflexivity|]. split; [reflexivity|].
  apply (guardian_effects_exact responder flood start); [reflexivity..|].
  apply Sorted_StronglySorted; [intros x y z; apply Z.le_trans|]. vm_compute. repeat constructor; done.
Defined.

Definition entry (n : nat) : string * (option Z * Verdict) := ("evt-" +:+ show_uint (Z.of_nat n) +:+ ".json", (Some (Z.of_nat n), verdict)).

Lemma ring_eviction_witness :
  let ring := entry <$> seq 1 3 in
  length (json_entries (evict_old_ring_entries 2 true (fun _ => true) ring)) = 2.
Proof. intros ring. apply (ring_eviction 2 ring). apply (bool_decide_eq_true_1 _). vm_compute. reflexivity. Defined.

Lemma ring_loses_verdict_witness :
  let e1 := mkTetragonEvent "e1" "SIGKILL" 42 "/cg" "c1" "/bin/x" 1000 in
  let e2 := mkTetragonEvent "e2" "SIGKILL" 43 "/cg" "c2" "/bin/y" 1000 in
  let s2 := handle_event responder (line_io 1001) e2 (handle_event responder (line_io 1000) e1 start) in
  vd_event_id <$> (gs_ring s2).*2.*2 = ["e2"].
Proof.
  intros e1 e2 s2.
  apply (ring_loses_verdict responder (line_io 1000) (line_io 1001) e1 e2 start (Some 1000%Z) (Some 1001%Z)); done.
Defined.
End GuardianExamples.
