(* ===== verification/Scheduler.v ===== *)
(** * The scheduler: measurements, objective, route

    Models the decision pipeline of crates/selfdef-scheduler with the types of
    crates/selfdef-scheduler-mirror: pressure readings of the kernel (psi.rs) and
    of the GPUs (dcgm.rs), the monitor with its hysteresis and the objective
    (lib.rs), the driver (backpressure_driver.rs), the axes measured from the host
    (objective_signals.rs), the route (scheduling_law.rs) and the decision
    (decide.rs). A measurement is an [f32]; what the files and commands answer is an
    input. The pending approvals, the logs and the ring are in SchedulerLog. *)

From S2P Require Import Prelude Core NetText F32 Auditd Guardian.
From stdpp Require Import options.

(** [Display] of a float is the shortest text that reads back. *)
Class FloatText := { f_display : f32 -> string }.

(** ** selfdef-scheduler-mirror *)

Definition SCHEMA_VERSION : string := "1.0.0".

Module Profile.
Inductive t := Fast | Careful | Private | Autonomous | Experimental | Production.

Definition all : list t := [Fast; Careful; Private; Autonomous; Experimental; Production].

Definition label (p : t) : string :=
  match p with
  | Fast => "fast" | Careful => "careful" | Private => "private" | Autonomous => "autonomous"
  | Experimental => "experimental" | Production => "production"
  end.

Definition debug (p : t) : string :=
  match p with
  | Fast => "Fast" | Careful => "Careful" | Private => "Private" | Autonomous => "Autonomous"
  | Experimental => "Experimental" | Production => "Production"
  end.
End Profile.

Module Route.
Inductive t := Blackwell | Rtx3090 | Cpu | Hybrid | Hibernate.

#[global] Instance eq_dec : EqDecision t.
Proof. solve_decision. Defined.

Definition debug (r : t) : string :=
  match r with
  | Blackwell => "Blackwell" | Rtx3090 => "Rtx3090" | Cpu => "Cpu" | Hybrid => "Hybrid" | Hibernate => "Hibernate"
  end.
End Route.

Record AxisScores := mkAxisScores {
  as_latency : f32;
  as_cost : f32;
  as_risk : f32;
  as_energy : f32;
  as_human_attention : f32;
  as_hardware_pressure : f32;
  as_compound : f32;
}.

Record BackpressureState := mkBackpressureState {
  bs_blackwell_vram_high : bool;
  bs_gpu3090_busy : bool;
  bs_cpu_pressure : bool;
  bs_ram_pressure : bool;
  bs_io_pressure : bool;
  bs_human_gate_queue_high : bool;
}.

Definition bs_clean : BackpressureState := mkBackpressureState false false false false false false.

Definition pressure_count (s : BackpressureState) : Z :=
  (Z.b2z (bs_blackwell_vram_high s) + Z.b2z (bs_gpu3090_busy s) + Z.b2z (bs_cpu_pressure s)
   + Z.b2z (bs_ram_pressure s) + Z.b2z (bs_io_pressure s) + Z.b2z (bs_human_gate_queue_high s))%Z.

Definition any_pressure (s : BackpressureState) : bool := (0 <? pressure_count s)%Z.

Record Decision := mkDecision {
  d_schema_version : string;
  d_request_id : string;
  d_profile : Profile.t;
  d_route : Route.t;
  d_axis_scores : AxisScores;
  d_backpressure : BackpressureState;
  d_ts_ms : Z;
  d_hostname : string;
  d_signer_kid_policy : string;
  d_override_signer_kid : option string;
  d_rationale : string;
}.

Inductive MirrorError :=
| SchemaMismatch (got : string)
| EmptyPolicySigner
| EmptyHostname
| BadTimestamp
| EmptyRequestId
| RationaleTooLong (len : Z)
| AxisScoreOutOfBounds (axis : string) (value : f32)
| MirrorSerde (e : string).

Definition mirror_error_display `{FloatText} (e : MirrorError) : string :=
  match e with
  | SchemaMismatch got => "schema version mismatch: expected " +:+ SCHEMA_VERSION +:+ ", got " +:+ got
  | EmptyPolicySigner => "signer_kid_policy is empty (MS003 binding required)"
  | EmptyHostname => "hostname is empty (MS026 OCSF binding requires device.hostname)"
  | BadTimestamp => "ts_ms must be >= 1 (got 0)"
  | EmptyRequestId => "request_id is empty (UUIDv7 required for replay invariant)"
  | RationaleTooLong n => "rationale exceeds 512 chars (got " +:+ show_uint n +:+ ")"
  | AxisScoreOutOfBounds axis v => "axis score out of [0.0, 1.0]: " +:+ axis +:+ "=" +:+ f_display v
  | MirrorSerde e => "serde_json: " +:+ e
  end.

Definition decision_new (request_id : string) (profile : Profile.t) (route : Route.t) (scores : AxisScores)
    (backpressure : BackpressureState) (ts_ms : Z) (hostname signer_kid_policy rationale : string) : Decision :=
  mkDecision SCHEMA_VERSION request_id profile route scores backpressure ts_ms hostname signer_kid_policy None
    rationale.

Definition axes (a : AxisScores) : list (string * f32) :=
  [("latency", as_latency a); ("cost", as_cost a); ("risk", as_risk a); ("energy", as_energy a);
   ("human_attention", as_human_attention a); ("hardware_pressure", as_hardware_pressure a);
   ("compound", as_compound a)].

Definition unit_range (x : f32) : bool := f_within f_zero f_one x.

Fixpoint check_axes (l : list (string * f32)) : result unit MirrorError :=
  match l with
  | [] => Ok tt
  | (axis, value) :: l => if unit_range value then check_axes l else Err (AxisScoreOutOfBounds axis value)
  end.

Definition decision_validate (d : Decision) : result unit MirrorError :=
  if negb (bool_decide (d_schema_version d = SCHEMA_VERSION)) then Err (SchemaMismatch (d_schema_version d))
  else if bool_decide (d_request_id d = "") then Err EmptyRequestId
  else if bool_decide (d_signer_kid_policy d = "") then Err EmptyPolicySigner
  else if bool_decide (d_hostname d = "") then Err EmptyHostname
  else if (d_ts_ms d =? 0)%Z then Err BadTimestamp
  else if bool_decide (512 < String.length (d_rationale d))
  then Err (RationaleTooLong (Z.of_nat (String.length (d_rationale d))))
  else check_axes (axes (d_axis_scores d)).

(** ** Profiles *)

Record ProfileRules := mkProfileRules {
  pr_profile : Profile.t;
  pr_favor_latency : bool;
  pr_oracle_verification_required : bool;
  pr_tests_required : bool;
  pr_scout_first : bool;
  pr_cloud_disabled : bool;
  pr_strict_memory_exposure : bool;
  pr_sandbox_first : bool;
  pr_checkpoint_often : bool;
  pr_batch_approvals : bool;
  pr_wide_branch_search : bool;
  pr_no_host_commit : bool;
  pr_strict_commit_gates : bool;
  pr_low_variance : bool;
  pr_strong_observability : bool;
}.

Definition rules_for_profile (p : Profile.t) : ProfileRules :=
  match p with
  | Profile.Fast =>
      mkProfileRules p true false false true false false false false false false false false false false
  | Profile.Careful =>
      mkProfileRules p false true true false false false false false false false false false false false
  | Profile.Private =>
      mkProfileRules p false false false false true true false false false false false false false false
  | Profile.Autonomous =>
      mkProfileRules p false false false false false false true true true false false false false false
  | Profile.Experimental =>
      mkProfileRules p false false false false false false true false false true true false false false
  | Profile.Production =>
      mkProfileRules p true false true false false false false false false false false true true true
  end.

Record AxisWeights := mkAxisWeights {
  w_latency : f32;
  w_cost : f32;
  w_risk : f32;
  w_energy : f32;
  w_human_attention : f32;
  w_hardware_pressure : f32;
}.

Definition tenths (n : Z) : f32 := f_lit n 1.

Definition weights_for_profile (p : Profile.t) : AxisWeights :=
  match p with
  | Profile.Fast => mkAxisWeights (tenths 10) (tenths 3) (tenths 3) (tenths 2) (tenths 2) (tenths 5)
  | Profile.Careful => mkAxisWeights (tenths 5) (tenths 5) (tenths 10) (tenths 5) (tenths 9) (tenths 9)
  | Profile.Private => mkAxisWeights (tenths 5) (tenths 0) (tenths 10) (tenths 3) (tenths 5) (tenths 5)
  | Profile.Autonomous => mkAxisWeights (tenths 5) (tenths 5) (tenths 7) (tenths 5) (tenths 2) (tenths 5)
  | Profile.Experimental => mkAxisWeights (tenths 5) (tenths 3) (tenths 3) (tenths 3) (tenths 3) (tenths 3)
  | Profile.Production => mkAxisWeights (tenths 9) (tenths 7) (tenths 10) (tenths 5) (tenths 5) (tenths 7)
  end.

(** Sums associate to the left. *)
Definition weights_sum (w : AxisWeights) : f32 :=
  f_add (f_add (f_add (f_add (f_add (w_latency w) (w_cost w)) (w_risk w)) (w_energy w)) (w_human_attention w))
    (w_hardware_pressure w).

Record AxisSignals := mkAxisSignals {
  sg_latency : f32;
  sg_cost : f32;
  sg_risk : f32;
  sg_energy : f32;
  sg_human_attention : f32;
  sg_hardware_pressure : f32;
}.

Definition weighted_sum (s : AxisSignals) (w : AxisWeights) : f32 :=
  f_add (f_add (f_add (f_add (f_add (f_mul (sg_latency s) (w_latency w)) (f_mul (sg_cost s) (w_cost w)))
    (f_mul (sg_risk s) (w_risk w))) (f_mul (sg_energy s) (w_energy w)))
    (f_mul (sg_human_attention s) (w_human_attention w)))
    (f_mul (sg_hardware_pressure s) (w_hardware_pressure w)).

Definition evaluate_objective (s : AxisSignals) (p : Profile.t) : AxisScores :=
  let w := weights_for_profile p in
  let compound :=
    if f_gt (weights_sum w) f_zero then f_clamp (f_div (weighted_sum s w) (weights_sum w)) f_zero f_one
    else f_zero in
  mkAxisScores (sg_latency s) (sg_cost s) (sg_risk s) (sg_energy s) (sg_human_attention s)
    (sg_hardware_pressure s) compound.

(** ** The backpressure monitor *)

Record BackpressureThresholds := mkBackpressureThresholds {
  bt_blackwell_vram_high : f32;
  bt_gpu3090_busy : f32;
  bt_cpu_pressure : f32;
  bt_ram_pressure : f32;
  bt_io_pressure : f32;
  bt_human_gate_queue_high : Z;
}.

Definition default_for_sain01 : BackpressureThresholds :=
  mkBackpressureThresholds (f_lit 90 2) (f_lit 80 2) (f_lit 50 2) (f_lit 30 2) (f_lit 40 2) 5.

Definition HYSTERESIS_MARGIN : f32 := f_lit 10 2.

Record ResourceMeasurements := mkResourceMeasurements {
  rm_blackwell_vram_util : f32;
  rm_gpu3090_util : f32;
  rm_cpu_psi : f32;
  rm_mem_psi : f32;
  rm_io_psi : f32;
  rm_human_gate_queue_depth : Z;
}.

Definition rm_clean : ResourceMeasurements := mkResourceMeasurements f_zero f_zero f_zero f_zero f_zero 0.

Record BackpressureMonitor := mkBackpressureMonitor {
  bm_thresholds : BackpressureThresholds;
  bm_last_state : BackpressureState;
}.

Definition monitor_new : BackpressureMonitor := mkBackpressureMonitor default_for_sain01 bs_clean.
Definition with_thresholds (t : BackpressureThresholds) : BackpressureMonitor := mkBackpressureMonitor t bs_clean.

Definition enter_or_stay (was : bool) (value threshold hysteresis : f32) : bool :=
  if was then f_ge value (f_sub threshold hysteresis) else f_ge value threshold.

Definition monitor_update (m : ResourceMeasurements) (b : BackpressureMonitor) :
    BackpressureState * BackpressureMonitor :=
  let t := bm_thresholds b in
  let last := bm_last_state b in
  let h := HYSTERESIS_MARGIN in
  let next := mkBackpressureState
    (enter_or_stay (bs_blackwell_vram_high last) (rm_blackwell_vram_util m) (bt_blackwell_vram_high t) h)
    (enter_or_stay (bs_gpu3090_busy last) (rm_gpu3090_util m) (bt_gpu3090_busy t) h)
    (enter_or_stay (bs_cpu_pressure last) (rm_cpu_psi m) (bt_cpu_pressure t) h)
    (enter_or_stay (bs_ram_pressure last) (rm_mem_psi m) (bt_ram_pressure t) h)
    (enter_or_stay (bs_io_pressure last) (rm_io_psi m) (bt_io_pressure t) h)
    (bt_human_gate_queue_high t <? rm_human_gate_queue_depth m)%Z in
  (next, mkBackpressureMonitor t next).

(** ** Pressure of the kernel: psi.rs *)

(** The texts of [ParseIntError] for an unsigned integer and of [ParseFloatError]. *)
Definition int_error (s : string) : string :=
  if bool_decide (s = "") then "cannot parse integer from empty string"
  else match digits_val (match s with String "+" s' => s' | _ => s end) 0 with
       | Some _ => if bool_decide (s = "+") then "invalid digit found in string"
                   else "number too large to fit in target type"
       | None => "invalid digit found in string"
       end.
Definition float_error (s : string) : string :=
  if bool_decide (s = "") then "cannot parse float from empty string" else "invalid float literal".

Section psi.
Context `{UnicodeTables} `{FloatText}.

Inductive PsiKind := PsiSome | PsiFull.

Definition psi_kind_parse (s : string) : option PsiKind :=
  if bool_decide (s = "some") then Some PsiSome
  else if bool_decide (s = "full") then Some PsiFull
  else None.

Record PsiBucket := mkPsiBucket {
  pb_avg10 : f32;
  pb_avg60 : f32;
  pb_avg300 : f32;
  pb_total_micros : Z;
}.

Record PsiResourceReading := mkPsiResourceReading {
  prr_some : PsiBucket;
  prr_full : option PsiBucket;
}.

Record PsiReading := mkPsiReading {
  psr_captured_at_unix_micros : Z;
  psr_cpu : PsiResourceReading;
  psr_memory : PsiResourceReading;
  psr_io : PsiResourceReading;
}.

Inductive PsiError :=
| PsiIo (resource source : string)
| PsiParse (resource line reason : string)
| PsiUnavailable (msg : string).

Definition psi_error_display (e : PsiError) : string :=
  match e with
  | PsiIo resource source => "psi io (" +:+ resource +:+ "): " +:+ source
  | PsiParse resource line reason =>
      "psi parse (" +:+ resource +:+ "): line " +:+ str_debug line +:+ ": " +:+ reason
  | PsiUnavailable msg => "psi unavailable: " +:+ msg
  end.

Definition parse_avg_percent (resource line value : string) : result f32 PsiError :=
  let? pct := ok_or (f_parse value)
    (PsiParse resource line ("avg value " +:+ str_debug value +:+ " not f32: " +:+ float_error value)) in
  if f_within f_zero (f_lit 100 0) pct then Ok (f_div pct (f_lit 100 0))
  else Err (PsiParse resource line ("avg value " +:+ f_display pct +:+ " outside 0.0..=100.0")).

(** The four fields read so far; a repeated field replaces the earlier one. *)
Record PsiFields := mkPsiFields {
  pf_avg10 : option f32;
  pf_avg60 : option f32;
  pf_avg300 : option f32;
  pf_total : option Z;
}.

Definition psi_token (resource line token : string) (f : PsiFields) : result PsiFields PsiError :=
  match split_once "=" token with
  | None => Err (PsiParse resource line ("token " +:+ str_debug token +:+ " missing '='"))
  | Some (k, v) =>
      if bool_decide (k = "avg10") then
        let? x := parse_avg_percent resource line v in
        Ok (mkPsiFields (Some x) (pf_avg60 f) (pf_avg300 f) (pf_total f))
      else if bool_decide (k = "avg60") then
        let? x := parse_avg_percent resource line v in
        Ok (mkPsiFields (pf_avg10 f) (Some x) (pf_avg300 f) (pf_total f))
      else if bool_decide (k = "avg300") then
        let? x := parse_avg_percent resource line v in
        Ok (mkPsiFields (pf_avg10 f) (pf_avg60 f) (Some x) (pf_total f))
      else if bool_decide (k = "total") then
        let? n := ok_or (parse_uint u64_max v)
          (PsiParse resource line ("total=" +:+ str_debug v +:+ " not u64: " +:+ int_error v)) in
        Ok (mkPsiFields (pf_avg10 f) (pf_avg60 f) (pf_avg300 f) (Some n))
      else Ok f
  end.

Fixpoint psi_tokens (resource line : string) (tokens : list string) (f : PsiFields) : result PsiFields PsiError :=
  match tokens with
  | [] => Ok f
  | token :: tokens => let? f := psi_token resource line token f in psi_tokens resource line tokens f
  end.

Definition parse_psi_line (resource line : string) : result (option (PsiKind * PsiBucket)) PsiError :=
  let trimmed := trim line in
  if bool_decide (trimmed = "") then Ok None
  else
    match split_whitespace trimmed with
    | [] => Err (PsiParse resource line "empty line (missing kind token)")
    | kind_str :: tokens =>
        let? kind := ok_or (psi_kind_parse kind_str)
          (PsiParse resource line ("unknown kind " +:+ str_debug kind_str +:+ "; expected 'some' or 'full'")) in
        let? f := psi_tokens resource line tokens (mkPsiFields None None None None) in
        match pf_avg10 f, pf_avg60 f, pf_avg300 f, pf_total f with
        | Some avg10, Some avg60, Some avg300, Some total => Ok (Some (kind, mkPsiBucket avg10 avg60 avg300 total))
        | _, _, _, _ => Err (PsiParse resource line "missing one of avg10 / avg60 / avg300 / total")
        end
    end.

Fixpoint psi_lines (resource : string) (lines : list string) (some full : option PsiBucket) :
    result (option PsiBucket * option PsiBucket) PsiError :=
  match lines with
  | [] => Ok (some, full)
  | line :: lines =>
      let? parsed := parse_psi_line resource line in
      match parsed with
      | None => psi_lines resource lines some full
      | Some (PsiSome, bucket) => psi_lines resource lines (Some bucket) full
      | Some (PsiFull, bucket) => psi_lines resource lines some (Some bucket)
      end
  end.

Definition parse_psi_file_contents (resource contents : string) : result PsiResourceReading PsiError :=
  let? parsed := psi_lines resource (str_lines contents) None None in
  match parsed with
  | (Some some, full) => Ok (mkPsiResourceReading some full)
  | (None, _) => Err (PsiParse resource contents "missing 'some' line")
  end.

(** A file under the pressure directory: absent, or what reading it gives. *)
Definition read_resource (dir : string) (files : string -> option (result string string)) (resource : string) :
    result PsiResourceReading PsiError :=
  let path := path_join dir resource in
  match files path with
  | None => Err (PsiUnavailable (path +:+ " not present"))
  | Some (Err e) => Err (PsiIo resource e)
  | Some (Ok contents) => parse_psi_file_contents resource contents
  end.

Definition psi_read (dir : string) (is_dir : bool) (files : string -> option (result string string)) (now : Z) :
    result PsiReading PsiError :=
  if negb is_dir then Err (PsiUnavailable (dir +:+ " not present (kernel < 4.20 or CONFIG_PSI=n)"))
  else
    let? cpu := read_resource dir files "cpu" in
    let? memory := read_resource dir files "memory" in
    let? io := read_resource dir files "io" in
    Ok (mkPsiReading now cpu memory io).
End psi.

(** ** Pressure of the GPUs: dcgm.rs *)

Section dcgm.
Context `{UnicodeTables} `{FloatText}.

Record DcgmGpuIndices := mkDcgmGpuIndices { gi_blackwell : Z; gi_gpu3090 : Z }.
Definition sain01_baseline : DcgmGpuIndices := mkDcgmGpuIndices 0 1.

Record GpuReading := mkGpuReading {
  gr_index : Z;
  gr_utilization : f32;
  gr_vram_used_mib : Z;
  gr_vram_total_mib : Z;
  gr_temperature_c : f32;
  gr_power_w : f32;
}.

Definition vram_util_fraction (g : GpuReading) : f32 :=
  if (gr_vram_total_mib g =? 0)%Z then f_zero else double_ratio (gr_vram_used_mib g) (gr_vram_total_mib g).

Record DcgmReading := mkDcgmReading {
  dr_captured_at_unix_micros : Z;
  dr_indices : DcgmGpuIndices;
  dr_blackwell : GpuReading;
  dr_gpu3090 : GpuReading;
  dr_others : list GpuReading;
}.

Inductive DcgmError :=
| CommandIo (e : string)
| CommandExit (code : Z) (stderr : string)
| DcgmParse (line reason : string)
| DcgmUnavailable (msg : string)
| GpuMissing (index : Z) (observed : list Z).

Definition dcgm_error_display (e : DcgmError) : string :=
  match e with
  | CommandIo e => "dcgm command IO: " +:+ e
  | CommandExit code stderr => "dcgm command exit code " +:+ show_int code +:+ "; stderr: " +:+ stderr
  | DcgmParse line reason => "dcgm parse: line " +:+ str_debug line +:+ ": " +:+ reason
  | DcgmUnavailable msg => "dcgm unavailable: " +:+ msg
  | GpuMissing index observed =>
      "dcgm gpu index " +:+ show_uint index +:+ " missing from output (observed indices: "
      +:+ vec_debug (show_uint <$> observed) +:+ ")"
  end.

Definition parse_f32_field (line field value : string) : result f32 DcgmError :=
  ok_or (f_parse value) (DcgmParse line (field +:+ " " +:+ str_debug value +:+ " not f32: " +:+ float_error value)).

Definition parse_uint_field (max : Z) (line field kind value : string) : result Z DcgmError :=
  ok_or (parse_uint max value)
    (DcgmParse line (field +:+ " " +:+ str_debug value +:+ " not " +:+ kind +:+ ": " +:+ int_error value)).

Definition parse_nvidia_smi_line (line : string) : result (option GpuReading) DcgmError :=
  let trimmed := trim line in
  if bool_decide (trimmed = "") then Ok None
  else
    match trim <$> split "," trimmed with
    | [c0; c1; c2; c3; c4; c5] =>
        let? index := parse_uint_field u32_max line "index" "u32" c0 in
        let? pct := parse_f32_field line "utilization.gpu" c1 in
        if negb (f_within f_zero (f_lit 100 0) pct)
        then Err (DcgmParse line ("utilization " +:+ f_display pct +:+ " outside 0.0..=100.0"))
        else
          let? used := parse_uint_field u64_max line "memory.used" "u64" c2 in
          let? total := parse_uint_field u64_max line "memory.total" "u64" c3 in
          let? temperature := parse_f32_field line "temperature.gpu" c4 in
          let? power := parse_f32_field line "power.draw" c5 in
          Ok (Some (mkGpuReading index (f_div pct (f_lit 100 0)) used total temperature power))
    | cols => Err (DcgmParse line ("expected 6 CSV columns, got " +:+ show_uint (Z.of_nat (length cols))))
    end.

Fixpoint nvidia_smi_lines (lines : list string) : result (list GpuReading) DcgmError :=
  match lines with
  | [] => Ok []
  | line :: lines =>
      let? parsed := parse_nvidia_smi_line line in
      let? rest := nvidia_smi_lines lines in
      Ok (option_list parsed ++ rest)
  end.

Definition parse_nvidia_smi_csv (stdout : string) : result (list GpuReading) DcgmError :=
  let? out := nvidia_smi_lines (str_lines stdout) in
  match out with [] => Err (DcgmUnavailable "nvidia-smi returned no GPU rows") | _ => Ok out end.

(** The last row with an index wins; the first index is looked at first. *)
Definition assign_gpu (indices : DcgmGpuIndices) (acc : option GpuReading * option GpuReading * list GpuReading)
    (gpu : GpuReading) : option GpuReading * option GpuReading * list GpuReading :=
  let '(blackwell, gpu3090, others) := acc in
  if (gr_index gpu =? gi_blackwell indices)%Z then (Some gpu, gpu3090, others)
  else if (gr_index gpu =? gi_gpu3090 indices)%Z then (blackwell, Some gpu, others)
  else (blackwell, gpu3090, others ++ [gpu]).

Definition assemble_dcgm_reading (gpus : list GpuReading) (indices : DcgmGpuIndices) (now : Z) :
    result DcgmReading DcgmError :=
  let '(blackwell, gpu3090, others) := foldl (assign_gpu indices) (None, None, []) gpus in
  let observed := gr_index <$> gpus in
  let? blackwell := ok_or blackwell (GpuMissing (gi_blackwell indices) observed) in
  let? gpu3090 := ok_or gpu3090 (GpuMissing (gi_gpu3090 indices) observed) in
  Ok (mkDcgmReading now indices blackwell gpu3090 others).

(** What one attempt to run [nvidia-smi] gives; the output is text. *)
Inductive SmiRun :=
| SmiBusy (e : string)
| SmiNotFound
| SmiIo (e : string)
| SmiDone (success : bool) (code : option Z) (stdout stderr : string).

(** Up to five attempts while the executable is busy: [runs] are the outcomes of
    the successive attempts. *)
Fixpoint run_nvidia_smi (attempts : nat) (command : string) (runs : nat -> SmiRun) (i : nat) :
    result (bool * option Z * string * string) DcgmError :=
  match runs i with
  | SmiDone success code stdout stderr => Ok (success, code, stdout, stderr)
  | SmiBusy e => match attempts with
                 | S (S _ as attempts) => run_nvidia_smi attempts command runs (S i)
                 | _ => Err (CommandIo e)
                 end
  | SmiNotFound => Err (DcgmUnavailable (command +:+ " not found on PATH"))
  | SmiIo e => Err (CommandIo e)
  end.

Definition dcgm_read (command : string) (indices : DcgmGpuIndices) (runs : nat -> SmiRun) (now : Z) :
    result DcgmReading DcgmError :=
  let? out := run_nvidia_smi 5 command runs 0 in
  let '(success, code, stdout, stderr_full) := out in
  if negb success then
    let stderr := if bool_decide (1024 < String.length stderr_full)
                  then str_concat (take 1024 (chars stderr_full)) else stderr_full in
    if contains stderr "couldn't communicate with the NVIDIA driver"
       || contains stderr "NVIDIA driver is not loaded"
    then Err (DcgmUnavailable ("nvidia driver not loaded: " +:+ stderr))
    else Err (CommandExit (default (-1)%Z code) stderr)
  else
    let? gpus := parse_nvidia_smi_csv stdout in
    assemble_dcgm_reading gpus indices now.
End dcgm.

(** ** Waiting approvals: human_gate.rs *)

Section human_gate.
Context `{WireFormat} `{JsonText}.

Definition PENDING_RESTORES_FILENAME : string := "pending-restores.json".

Record HumanGateReading := mkHumanGateReading {
  hg_captured_at_unix_micros : Z;
  hg_total_pending : Z;
  hg_per_source : list (string * Z);
}.

Inductive HumanGateError :=
| HgIo (path source : string)
| HgParse (path reason : string)
| HgUnavailable (msg : string).

Definition human_gate_error_display (e : HumanGateError) : string :=
  match e with
  | HgIo path source => "human-gate io (" +:+ path +:+ "): " +:+ source
  | HgParse path reason => "human-gate parse (" +:+ path +:+ "): " +:+ reason
  | HgUnavailable msg => "human-gate unavailable: " +:+ msg
  end.

(** An entry of the state directory: its name, and for a directory the files in it,
    by name, with what reading them gives. *)
Record StateEntry := mkStateEntry {
  se_name : string;
  se_dir : option (string -> option (result string string));
}.

Definition count_json_array_entries (path : string) (read : result string string) : result Z HumanGateError :=
  match read with
  | Err e => Err (HgIo path e)
  | Ok bytes =>
      if bool_decide (bytes = "") then Ok 0%Z
      else match json_of_string bytes with
           | Err e => Err (HgParse path ("invalid json: " +:+ e))
           | Ok (JArray arr) => Ok (Z.min (Z.of_nat (length arr)) u32_max)
           | Ok value => Err (HgParse path ("expected top-level array, got " +:+ json_to_string value))
           end
  end.

Fixpoint count_entries (root : string) (entries : list (result StateEntry string)) (total : Z)
    (per_source : list (string * Z)) : result (Z * list (string * Z)) HumanGateError :=
  match entries with
  | [] => Ok (total, per_source)
  | Err e :: _ => Err (HgIo root e)
  | Ok entry :: entries =>
      match se_dir entry ≫= (fun files => files PENDING_RESTORES_FILENAME) with
      | None => count_entries root entries total per_source
      | Some read =>
          let? count := count_json_array_entries
            (path_join (path_join root (se_name entry)) PENDING_RESTORES_FILENAME) read in
          count_entries root entries (Z.min (total + count) u32_max) (per_source ++ [(se_name entry, count)])
      end
  end.

(** [listing] is [None] when the root is not a directory. *)
Definition human_gate_read (root : string) (listing : option (result (list (result StateEntry string)) string))
    (now : Z) : result HumanGateReading HumanGateError :=
  match listing with
  | None => Err (HgUnavailable ("state root " +:+ root +:+ " not present"))
  | Some (Err e) => Err (HgIo root e)
  | Some (Ok entries) =>
      let? counted := count_entries root entries 0 [] in
      Ok (mkHumanGateReading now counted.1 (merge_sort field_le counted.2))
  end.
End human_gate.

(** ** The driver: backpressure_driver.rs *)

Inductive SourceStatus := Healthy | Unavailable (msg : string) | Errored (msg : string).

Definition is_healthy (s : SourceStatus) : bool := match s with Healthy => true | _ => false end.
Definition is_degraded (s : SourceStatus) : bool := negb (is_healthy s).

Record SubstrateHealth := mkSubstrateHealth {
  sh_psi_status : SourceStatus;
  sh_dcgm_status : SourceStatus;
  sh_human_gate_status : SourceStatus;
}.

Definition all_healthy : SubstrateHealth := mkSubstrateHealth Healthy Healthy Healthy.
Definition degraded_count (h : SubstrateHealth) : Z :=
  (Z.b2z (is_degraded (sh_psi_status h)) + Z.b2z (is_degraded (sh_dcgm_status h))
   + Z.b2z (is_degraded (sh_human_gate_status h)))%Z.
Definition all_healthy_now (h : SubstrateHealth) : bool :=
  is_healthy (sh_psi_status h) && is_healthy (sh_dcgm_status h) && is_healthy (sh_human_gate_status h).

Record DriverReading := mkDriverReading {
  rd_captured_at_unix_micros : Z;
  rd_measurements : ResourceMeasurements;
  rd_state : BackpressureState;
  rd_substrate_health : SubstrateHealth;
}.

Definition poll `{UnicodeTables} (psi : result PsiReading PsiError) (dcgm : result DcgmReading DcgmError)
    (gate : result HumanGateReading HumanGateError) (now : Z) (monitor : BackpressureMonitor) :
    DriverReading * BackpressureMonitor :=
  let '(cpu, mem, io, psi_status) :=
    match psi with
    | Ok r => (pb_avg10 (prr_some (psr_cpu r)), pb_avg10 (prr_some (psr_memory r)), pb_avg10 (prr_some (psr_io r)),
               Healthy)
    | Err (PsiUnavailable msg) => (f_zero, f_zero, f_zero, Unavailable msg)
    | Err e => (f_zero, f_zero, f_zero, Errored (psi_error_display e))
    end in
  let '(vram, gpu3090, dcgm_status) :=
    match dcgm with
    | Ok r => (vram_util_fraction (dr_blackwell r), gr_utilization (dr_gpu3090 r), Healthy)
    | Err (DcgmUnavailable msg) => (f_zero, f_zero, Unavailable msg)
    | Err e => (f_zero, f_zero, Errored (dcgm_error_display e))
    end in
  let '(depth, gate_status) :=
    match gate with
    | Ok r => (hg_total_pending r, Healthy)
    | Err (HgUnavailable msg) => (0%Z, Unavailable msg)
    | Err e => (0%Z, Errored (human_gate_error_display e))
    end in
  let measurements := mkResourceMeasurements vram gpu3090 cpu mem io depth in
  let '(state, monitor) := monitor_update measurements monitor in
  (mkDriverReading now measurements state (mkSubstrateHealth psi_status dcgm_status gate_status), monitor).

(** ** Axes measured from the host: objective_signals.rs *)

Definition DEFAULT_HUMAN_ATTENTION_QUEUE_CAP : Z := 20.

Definition substrate_hardware_pressure_score (r : DriverReading) : f32 :=
  let m := rd_measurements r in
  let worst := f_clamp (f_max (f_max (f_max (f_max (rm_blackwell_vram_util m) (rm_gpu3090_util m)) (rm_cpu_psi m))
                                (rm_mem_psi m)) (rm_io_psi m)) f_zero f_one in
  f_sub f_one worst.

Definition substrate_human_attention_score (r : DriverReading) (max_queue : Z) : f32 :=
  let depth := rm_human_gate_queue_depth (rd_measurements r) in
  if (depth =? 0)%Z then f_one
  else if ((max_queue =? 0) || (max_queue <=? depth))%Z then f_zero
  else f_sub f_one (f_div (f_of_uint depth) (f_of_uint max_queue)).

Definition merge_substrate_into_signals (s : AxisSignals) (r : DriverReading) (max_queue : Z) : AxisSignals :=
  mkAxisSignals (f_clamp (sg_latency s) f_zero f_one) (f_clamp (sg_cost s) f_zero f_one)
    (f_clamp (sg_risk s) f_zero f_one) (f_clamp (sg_energy s) f_zero f_one)
    (substrate_human_attention_score r max_queue) (substrate_hardware_pressure_score r).

Definition score_current_substrate (r : DriverReading) (s : AxisSignals) (p : Profile.t) (max_queue : Z) : AxisScores :=
  evaluate_objective (merge_substrate_into_signals s r max_queue) p.

(** ** The route: scheduling_law.rs *)

Definition RISK_DEMANDS_VERIFICATION_FLOOR : f32 := tenths 5.

Module LawClause.
Inductive t := NoClause | ExpensiveCognitionNotDeferred | SpeculationRequiresVerification.

Definition debug (c : t) : string :=
  match c with
  | NoClause => "None"
  | ExpensiveCognitionNotDeferred => "ExpensiveCognitionNotDeferred"
  | SpeculationRequiresVerification => "SpeculationRequiresVerification"
  end.
End LawClause.

Record RouteRecommendation := mkRouteRecommendation {
  rr_route : Route.t;
  rr_law_clause : LawClause.t;
  rr_rationale : string;
}.

Definition blackwell_admissible (r : DriverReading) : bool := negb (bs_blackwell_vram_high (rd_state r)).
Definition rtx3090_admissible (r : DriverReading) : bool := negb (bs_gpu3090_busy (rd_state r)).
Definition cpu_admissible (r : DriverReading) : bool :=
  negb (bs_cpu_pressure (rd_state r) || bs_ram_pressure (rd_state r) || bs_io_pressure (rd_state r)).

Definition route_admissible (route : Route.t) (r : DriverReading) : bool :=
  match route with
  | Route.Blackwell => blackwell_admissible r
  | Route.Rtx3090 => rtx3090_admissible r
  | Route.Cpu => cpu_admissible r
  | Route.Hybrid => blackwell_admissible r || rtx3090_admissible r || cpu_admissible r
  | Route.Hibernate => true
  end.

Definition preference_order (rules : ProfileRules) : list Route.t :=
  if pr_scout_first rules then [Route.Rtx3090; Route.Blackwell; Route.Cpu]
  else [Route.Blackwell; Route.Rtx3090; Route.Cpu].

Definition profile_demands_verification (rules : ProfileRules) : bool :=
  pr_oracle_verification_required rules || pr_tests_required rules || pr_strict_commit_gates rules.

Definition recommend_route (r : DriverReading) (p : Profile.t) (scores : AxisScores) : RouteRecommendation :=
  let rules := rules_for_profile p in
  let below_floor := "risk score " +:+ f_show2 (as_risk scores) +:+ " < floor "
    +:+ f_show2 RISK_DEMANDS_VERIFICATION_FLOOR +:+ " and profile " +:+ Profile.debug p +:+ " demands verification" in
  if f_lt (as_risk scores) RISK_DEMANDS_VERIFICATION_FLOOR && profile_demands_verification rules then
    if blackwell_admissible r then
      mkRouteRecommendation Route.Blackwell LawClause.SpeculationRequiresVerification
        (below_floor +:+ " (oracle_verification_required/tests_required/strict_commit_gates); escalated to oracle tier (Blackwell)")
    else
      mkRouteRecommendation Route.Hibernate LawClause.SpeculationRequiresVerification
        (below_floor +:+ ", but oracle tier (Blackwell) VRAM is under pressure; hibernating rather than letting cheap speculation commit")
  else
    match list_find (fun route => route_admissible route r = true) (preference_order rules) with
    | Some (_, route) =>
        mkRouteRecommendation route
          (if bool_decide (route = Route.Blackwell) then LawClause.ExpensiveCognitionNotDeferred
           else LawClause.NoClause)
          ("profile " +:+ Profile.debug p +:+ " preference order selected first admissible tier " +:+ Route.debug route)
    | None =>
        mkRouteRecommendation Route.Hibernate LawClause.NoClause
          "all compute tiers (Blackwell/Rtx3090/Cpu) under backpressure; hibernating pending another resource"
    end.

(** ** The decision: decide.rs *)

Definition RATIONALE_MAX : nat := 512.

Record RequestContext := mkRequestContext {
  rc_request_id : string;
  rc_profile : Profile.t;
  rc_model_signals : AxisSignals;
  rc_max_queue : Z;
  rc_ts_ms : Z;
  rc_hostname : string;
  rc_signer_kid_policy : string;
}.

Fixpoint back_to_boundary (s : string) (n : nat) : nat :=
  match n with
  | O => O
  | S n' => if is_char_boundary s n then n else back_to_boundary s n'
  end.

Definition clamp_rationale (s : string) : string :=
  if bool_decide (String.length s <= RATIONALE_MAX) then s else str_prefix (back_to_boundary s RATIONALE_MAX) s.

Definition decide_request (r : DriverReading) (ctx : RequestContext) : result Decision MirrorError :=
  let scores := score_current_substrate r (rc_model_signals ctx) (rc_profile ctx) (rc_max_queue ctx) in
  let rec := recommend_route r (rc_profile ctx) scores in
  let rationale := clamp_rationale ("route=" +:+ Route.debug (rr_route rec) +:+ " ["
    +:+ LawClause.debug (rr_law_clause rec) +:+ "]: " +:+ rr_rationale rec) in
  let decision := decision_new (rc_request_id ctx) (rc_profile ctx) (rr_route rec) scores (rd_state r) (rc_ts_ms ctx)
    (rc_hostname ctx) (rc_signer_kid_policy ctx) rationale in
  let? _ := decision_validate decision in
  Ok decision.
