(* ===== verification/SchedulerProps.v ===== *)
(** * Properties of the scheduler

    The order on floats, the hysteresis of the monitor by its history, the routes
    that a decision may take, and the approvals that the driver counts. *)

From S2P Require Import Prelude Core F32 Guardian Journal JournalKinds Scheduler.
From stdpp Require Import options.

(** ** The order on floats *)

Lemma pos_compare_cont_eq p q : Pos.compare_cont Eq p q = Pos.compare p q.
Proof. reflexivity. Qed.

(** A float in a normal form: the mantissa and exponent that IEEE 754 gives a value
    are unique, so comparing exponents before mantissas is comparing values. *)
Definition key (x : f32) : option (Z * Z * Z) :=
  match x with
  | S754_nan => None
  | S754_infinity s => Some ((if s then -2 else 2)%Z, 0%Z, 0%Z)
  | S754_zero _ => Some (0%Z, 0%Z, 0%Z)
  | S754_finite s m e => Some (if s then (-1, -e, Zneg m)%Z else (1, e, Zpos m)%Z)
  end.

Definition key_le (a b : Z * Z * Z) : Prop :=
  let '(a1, a2, a3) := a in let '(b1, b2, b3) := b in
  (a1 < b1 \/ a1 = b1 /\ (a2 < b2 \/ a2 = b2 /\ a3 <= b3))%Z.

Lemma f_le_key x y : f_le x y = true <-> exists a b, key x = Some a /\ key y = Some b /\ key_le a b.
Proof.
  unfold f_le, SFleb.
  destruct x as [s1|s1| |s1 m1 e1], y as [s2|s2| |s2 m2 e2]; try destruct s1; try destruct s2; simpl;
    repeat match goal with |- context [Z.compare ?a ?b] => destruct (Z.compare_spec a b) end; subst;
    rewrite ?pos_compare_cont_eq;
    repeat match goal with |- context [Pos.compare ?a ?b] => destruct (Pos.compare_spec a b) end; subst; simpl;
    (split; [intros ?; try done; do 2 eexists; (split; [done|split; [done|]]); simpl; lia
            |intros (a & b & Ha & Hb & Hl); simplify_eq; simpl in Hl; try done; lia]).
Qed.

Lemma float_key_le_trans a b c : key_le a b -> key_le b c -> key_le a c.
Proof. destruct a as [[] ?], b as [[] ?], c as [[] ?]. simpl. lia. Qed.

Lemma f_le_trans x y z : f_le x y = true -> f_le y z = true -> f_le x z = true.
Proof.
  rewrite !f_le_key. intros (a & b & Ha & Hb & Hab) (b' & c & Hb' & Hc & Hbc). simplify_eq.
  exists a, c. eauto using float_key_le_trans.
Qed.

(** ** Hysteresis *)

(** A surface after the values [vs]. *)
Definition surface_after (t h : f32) (was : bool) (vs : list f32) : bool :=
  foldl (fun was v => enter_or_stay was v t h) was vs.

(** Some value reached the threshold, and none since has been below it by more than
    the margin. *)
Definition hot (t h : f32) (vs : list f32) : Prop :=
  exists a v b, vs = a ++ v :: b /\ f_ge v t = true /\ Forall (fun w => f_ge w (f_sub t h) = true) b.

Lemma surface_hot t h vs : f_le (f_sub t h) t = true -> surface_after t h false vs = true <-> hot t h vs.
Proof.
  intros Hm. unfold surface_after. induction vs as [|v vs IH] using rev_ind.
  - simpl. split; [done|]. intros (a & w & b & E & _). by destruct a.
  - rewrite foldl_snoc. set (was := foldl _ false vs) in *. split.
    + intros He. destruct was; simpl in He.
      * destruct (proj1 IH eq_refl) as (a & w & b & -> & Hw & Hb). exists a, w, (b ++ [v]).
        split; [by rewrite <-app_assoc|]. split; [done|]. apply Forall_app; auto.
      * exists vs, v, []. auto.
    + intros (a & w & b & E & Hw & Hb). destruct b as [|y b _] using rev_ind.
      * apply app_inj_tail in E as [-> ->]. destruct was; simpl; [|done].
        unfold f_ge in *. by eapply f_le_trans.
      * rewrite app_comm_cons, app_assoc in E. apply app_inj_tail in E as [-> ->].
        apply Forall_app in Hb as [Hb Hy]. rewrite (proj2 IH) by (by exists a, w, b). simpl.
        by inversion Hy.
Qed.

(** The surfaces that a measurement has a fraction for. *)
Module Surface.
Inductive t := Vram | Gpu3090 | CpuPsi | MemPsi | IoPsi.

Definition value (s : t) (m : ResourceMeasurements) : f32 :=
  match s with
  | Vram => rm_blackwell_vram_util m | Gpu3090 => rm_gpu3090_util m
  | CpuPsi => rm_cpu_psi m | MemPsi => rm_mem_psi m | IoPsi => rm_io_psi m
  end.
Definition threshold (s : t) (b : BackpressureThresholds) : f32 :=
  match s with
  | Vram => bt_blackwell_vram_high b | Gpu3090 => bt_gpu3090_busy b
  | CpuPsi => bt_cpu_pressure b | MemPsi => bt_ram_pressure b | IoPsi => bt_io_pressure b
  end.
Definition flag (s : t) (b : BackpressureState) : bool :=
  match s with
  | Vram => bs_blackwell_vram_high b | Gpu3090 => bs_gpu3090_busy b
  | CpuPsi => bs_cpu_pressure b | MemPsi => bs_ram_pressure b | IoPsi => bs_io_pressure b
  end.
End Surface.

Section driver.
Context `{UnicodeTables}.

(** What the three sources answer to one poll, and the clock. *)
Record Probe := mkProbe {
  pr_psi : result PsiReading PsiError;
  pr_dcgm : result DcgmReading DcgmError;
  pr_gate : result HumanGateReading HumanGateError;
  pr_now : Z;
}.

Definition poll_probe (p : Probe) : BackpressureMonitor -> DriverReading * BackpressureMonitor :=
  poll (pr_psi p) (pr_dcgm p) (pr_gate p) (pr_now p).

Fixpoint poll_all (ps : list Probe) (b : BackpressureMonitor) : list DriverReading * BackpressureMonitor :=
  match ps with
  | [] => ([], b)
  | p :: ps => let '(r, b) := poll_probe p b in let '(rs, b) := poll_all ps b in (r :: rs, b)
  end.

Lemma poll_updates p b :
  let '(r, b') := poll_probe p b in monitor_update (rd_measurements r) b = (rd_state r, b').
Proof. unfold poll_probe, poll. repeat case_match; simplify_eq/=; done. Qed.

Lemma update_flag m b s :
  Surface.flag s (monitor_update m b).1 =
    enter_or_stay (Surface.flag s (bm_last_state b)) (Surface.value s m) (Surface.threshold s (bm_thresholds b))
      HYSTERESIS_MARGIN /\
  (monitor_update m b).2 = mkBackpressureMonitor (bm_thresholds b) (monitor_update m b).1.
Proof. by destruct s. Qed.

Definition values (s : Surface.t) (rs : list DriverReading) : list f32 :=
  (fun r => Surface.value s (rd_measurements r)) <$> rs.

Lemma poll_all_flag s ps b rs b' :
  poll_all ps b = (rs, b') ->
  bm_thresholds b' = bm_thresholds b /\
  Surface.flag s (bm_last_state b') =
    surface_after (Surface.threshold s (bm_thresholds b)) HYSTERESIS_MARGIN (Surface.flag s (bm_last_state b))
      (values s rs) /\
  match last rs with Some r => rd_state r = bm_last_state b' | None => b' = b end.
Proof.
  revert b rs. induction ps as [|p ps IH]; intros b rs E; simpl in E; [by simplify_eq|].
  pose proof (poll_updates p b) as Hu. destruct (poll_probe p b) as [r b1].
  destruct (poll_all ps b1) as [rs1 b2] eqn:E1. simplify_eq. destruct (IH _ _ E1) as (Ht & Hf & Hl).
  pose proof (update_flag (rd_measurements r) b s) as [Hs Hb]. rewrite Hu in Hs, Hb. simpl in Hs, Hb. subst b1.
  simpl in *. rewrite Hs in Hf. split_and!; [done|exact Hf|]. rewrite last_cons. destruct (last rs1); by subst.
Qed.
End driver.

(** What a surface's source answered to a poll; [None] when the source failed. *)
Definition answered (s : Surface.t) (p : Probe) : option f32 :=
  match s with
  | Surface.Vram => match pr_dcgm p with Ok r => Some (vram_util_fraction (dr_blackwell r)) | Err _ => None end
  | Surface.Gpu3090 => match pr_dcgm p with Ok r => Some (gr_utilization (dr_gpu3090 r)) | Err _ => None end
  | Surface.CpuPsi => match pr_psi p with Ok r => Some (pb_avg10 (prr_some (psr_cpu r))) | Err _ => None end
  | Surface.MemPsi => match pr_psi p with Ok r => Some (pb_avg10 (prr_some (psr_memory r))) | Err _ => None end
  | Surface.IoPsi => match pr_psi p with Ok r => Some (pb_avg10 (prr_some (psr_io r))) | Err _ => None end
  end.

(** A source that fails counts as one that answered zero. *)
Definition counted (s : Surface.t) (p : Probe) : f32 := default f_zero (answered s p).

Lemma values_counted `{UnicodeTables} s ps b rs b' : poll_all ps b = (rs, b') -> values s rs = counted s <$> ps.
Proof.
  revert b rs. induction ps as [|p ps IH]; intros b rs E; simpl in E; [by simplify_eq|].
  destruct (poll_probe p b) as [r b1] eqn:Ep. destruct (poll_all ps b1) as [rs1 b2] eqn:E1. simplify_eq.
  specialize (IH _ _ E1). unfold values in *. rewrite !fmap_cons, IH. f_equal. unfold poll_probe, poll in Ep.
  destruct (pr_psi p) as [|[]] eqn:Hpsi, (pr_dcgm p) as [|[]] eqn:Hd, (pr_gate p) as [|[]]; injection Ep as <- _;
    unfold counted, answered; destruct s; simpl; by rewrite ?Hpsi, ?Hd.
Qed.

(** A surface under pressure, by the polls: at one of them its source answered at least
    the threshold (or failed, if zero is that much), and at every later one it answered
    at least the threshold less the margin. *)
Definition under_pressure (t : BackpressureThresholds) (ps : list Probe) (s : Surface.t) : Prop :=
  exists before p since, ps = before ++ p :: since /\ f_ge (counted s p) (Surface.threshold s t) = true /\
    Forall (fun q => f_ge (counted s q) (f_sub (Surface.threshold s t) HYSTERESIS_MARGIN) = true) since.

Lemma hot_counted t ps s :
  hot (Surface.threshold s t) HYSTERESIS_MARGIN (counted s <$> ps) <-> under_pressure t ps s.
Proof.
  unfold hot, under_pressure. split.
  - intros (a & v & b & Hs & Hv & Hb). apply fmap_app_inv in Hs as (pa & pb & Ha & Hpb & ->). symmetry in Hpb.
    apply fmap_cons_inv in Hpb as (p & pb' & -> & -> & ->). exists pa, p, pb'. rewrite Forall_fmap in Hb. done.
  - intros (pa & p & pb & -> & Hv & Hb). exists (counted s <$> pa), (counted s p), (counted s <$> pb).
    rewrite fmap_app, Forall_fmap. done.
Qed.

(** ** The route *)

Definition first_admissible (r : DriverReading) (order : list Route.t) : Route.t :=
  default Route.Hibernate (head (filter (fun route => route_admissible route r = true) order)).

(** The law in one line: a risky request of a verifying profile goes to the oracle
    tier or waits, any other to the first admissible tier of its order. *)
Lemma recommend_route_law r p scores :
  rr_route (recommend_route r p scores) =
    first_admissible r
      (if f_lt (as_risk scores) RISK_DEMANDS_VERIFICATION_FLOOR && profile_demands_verification (rules_for_profile p)
       then [Route.Blackwell] else preference_order (rules_for_profile p)).
Proof.
  unfold recommend_route, first_admissible. case_match.
  - simpl. rewrite filter_cons. simpl. by destruct (blackwell_admissible r).
  - unfold preference_order. destruct (pr_scout_first _); rewrite !filter_cons, filter_nil; simpl;
      by destruct (blackwell_admissible r), (rtx3090_admissible r), (cpu_admissible r).
Qed.

Lemma demands_verification p :
  profile_demands_verification (rules_for_profile p) = true <-> p = Profile.Careful \/ p = Profile.Production.
Proof. destruct p; simpl; split; try done; try (intros [[=]|[=]]); auto. Qed.

Lemma back_to_boundary_le s n : back_to_boundary s n <= n.
Proof. induction n as [|n IH]; simpl; [done|]. case_match; lia. Qed.

Lemma str_prefix_length n s : String.length (str_prefix n s) <= n.
Proof. revert s. induction n as [|n IH]; intros [|a s]; simpl; try lia. specialize (IH s). lia. Qed.

Lemma clamp_rationale_length s : String.length (clamp_rationale s) <= 512.
Proof.
  unfold clamp_rationale. case_bool_decide; [done|].
  pose proof (str_prefix_length (back_to_boundary s RATIONALE_MAX) s).
  pose proof (back_to_boundary_le s RATIONALE_MAX). unfold RATIONALE_MAX in *. lia.
Qed.

(** What a decision is, and when there is none: a missing name, a zero clock, or an
    axis that is not between zero and one. The schema and the rationale never fail. *)
Lemma decide_spec r ctx :
  decide_request r ctx =
    if bool_decide (rc_request_id ctx = "") then Err EmptyRequestId
    else if bool_decide (rc_signer_kid_policy ctx = "") then Err EmptyPolicySigner
    else if bool_decide (rc_hostname ctx = "") then Err EmptyHostname
    else if (rc_ts_ms ctx =? 0)%Z then Err BadTimestamp
    else
      let scores := score_current_substrate r (rc_model_signals ctx) (rc_profile ctx) (rc_max_queue ctx) in
      let rec := recommend_route r (rc_profile ctx) scores in
      let? _ := check_axes (axes scores) in
      Ok (decision_new (rc_request_id ctx) (rc_profile ctx) (rr_route rec) scores (rd_state r) (rc_ts_ms ctx)
            (rc_hostname ctx) (rc_signer_kid_policy ctx)
            (clamp_rationale ("route=" +:+ Route.debug (rr_route rec) +:+ " ["
               +:+ LawClause.debug (rr_law_clause rec) +:+ "]: " +:+ rr_rationale rec))).
Proof.
  unfold decide_request, decision_validate. cbn [decision_new d_schema_version d_request_id d_signer_kid_policy
    d_hostname d_ts_ms d_rationale d_axis_scores].
  rewrite bool_decide_true by done. cbn [negb].
  repeat (case_bool_decide; [done|]). case_match; [done|].
  rewrite bool_decide_false by (apply Nat.nlt_ge, clamp_rationale_length). done.
Qed.

Lemma decided r ctx d :
  decide_request r ctx = Ok d ->
  d_profile d = rc_profile ctx /\ d_backpressure d = rd_state r /\
  d_route d = rr_route (recommend_route r (rc_profile ctx) (d_axis_scores d)) /\
  Forall (fun a => unit_range a.2 = true) (axes (d_axis_scores d)).
Proof.
  rewrite decide_spec. repeat (case_bool_decide; [done|]). case_match; [done|]. cbn zeta.
  set (scores := score_current_substrate _ _ _ _). intros E.
  destruct (check_axes (axes scores)) as [[]|] eqn:Ec; [|done].
  assert (Inj : forall x y : Decision, Ok (E := MirrorError) x = Ok y -> x = y) by congruence.
  apply Inj in E as <-. clear Inj.
  split_and!; try done. cbn [decision_new d_axis_scores]. revert Ec. generalize (axes scores). clear.
  induction l as [|[axis v] l IH]; simpl; [done|]. case_match; [|done]. intros ?. constructor; [done|auto].
Qed.

(** The surfaces that a tier works on. *)
Definition tier_surfaces (route : Route.t) : list Surface.t :=
  match route with
  | Route.Blackwell => [Surface.Vram]
  | Route.Rtx3090 => [Surface.Gpu3090]
  | Route.Cpu => [Surface.CpuPsi; Surface.MemPsi; Surface.IoPsi]
  | Route.Hybrid | Route.Hibernate => []
  end.
Definition tiers : list Route.t := [Route.Blackwell; Route.Rtx3090; Route.Cpu].

Lemma elem_of_tiers route : route ∈ tiers <-> route = Route.Blackwell \/ route = Route.Rtx3090 \/ route = Route.Cpu.
Proof. unfold tiers. rewrite !elem_of_cons, elem_of_nil. tauto. Qed.

Lemma preference_tiers rules route : route ∈ preference_order rules <-> route ∈ tiers.
Proof.
  rewrite elem_of_tiers. unfold preference_order. case_match; rewrite !elem_of_cons, elem_of_nil; tauto.
Qed.

Lemma tier_flags r route : route ∈ tiers ->
  route_admissible route r = true <-> Forall (fun s => Surface.flag s (rd_state r) = false) (tier_surfaces route).
Proof.
  intros [->|[->| ->]]%elem_of_tiers; simpl; unfold blackwell_admissible, rtx3090_admissible, cpu_admissible;
    rewrite !Forall_cons, Forall_nil; simpl; rewrite negb_true_iff, ?orb_false_iff; tauto.
Qed.

Lemma first_admissible_spec r order : Forall (fun route => route ∈ tiers) order ->
  let route := first_admissible r order in
  (route ∈ order /\ route_admissible route r = true) \/
  (route = Route.Hibernate /\ Forall (fun route => route_admissible route r = false) order).
Proof.
  intros Ho. simpl. unfold first_admissible. destruct (filter _ order) as [|x l] eqn:E; simpl.
  - right. split; [done|]. apply Forall_forall. intros y Hy. apply not_true_is_false. intros Hy'.
    assert (Hin : y ∈ filter (fun route => route_admissible route r = true) order) by (by apply list_elem_of_filter).
    rewrite E in Hin. by apply elem_of_nil in Hin.
  - left. assert (Hin : x ∈ filter (fun route => route_admissible route r = true) order) by (rewrite E; left).
    by apply list_elem_of_filter in Hin as [? ?].
Qed.

Section route.
Context `{UnicodeTables}.

(** The flags of the last reading say which surfaces are under pressure. *)
Lemma last_flags t ps rs b r s :
  f_le (f_sub (Surface.threshold s t) HYSTERESIS_MARGIN) (Surface.threshold s t) = true ->
  poll_all ps (with_thresholds t) = (rs, b) -> last rs = Some r ->
  Surface.flag s (rd_state r) = true <-> under_pressure t ps s.
Proof.
  intros Hm Hp Hl. destruct (poll_all_flag s _ _ _ _ Hp) as (_ & Hf & Hs). rewrite Hl in Hs. rewrite Hs, Hf.
  replace (Surface.flag s (bm_last_state (with_thresholds t))) with false by (by destruct s).
  rewrite <-hot_counted, <-(values_counted s _ _ _ _ Hp). by apply surface_hot.
Qed.

Lemma pressured_tier r tier : tier ∈ tiers -> route_admissible tier r = false ->
  Exists (fun s => Surface.flag s (rd_state r) = true) (tier_surfaces tier).
Proof.
  intros Ht Ha. apply not_true_iff_false in Ha. rewrite tier_flags in Ha by done.
  apply not_Forall_Exists in Ha; [|apply _]. eapply Exists_impl; [exact Ha|]. intros s Hs. apply not_false_is_true, Hs.
Qed.

(** C26: A decision never sends work to a tier that is under pressure, by the history of the
    polls and not only by the last one. Take any polls of a driver, with thresholds whose
    exit level (the threshold less the margin) is not above them, as those shipped, and a
    decision on the last reading. A surface is under pressure when at some poll its source
    answered at least the threshold and at no later poll less than the exit level. A
    source that fails counts as one that answered 0.0, and one answer below the exit level
    ends the pressure, so a failed poll does. No surface of the chosen tier is under
    pressure. A request whose risk is high for a profile that verifies gets the oracle
    tier, or waits because the oracle tier is under pressure; and work waits only in that
    case or when every tier is under pressure. *)
Theorem routed_tier_calm t ps rs b r ctx d :
  (forall s, f_le (f_sub (Surface.threshold s t) HYSTERESIS_MARGIN) (Surface.threshold s t) = true) ->
  poll_all ps (with_thresholds t) = (rs, b) -> last rs = Some r -> decide_request r ctx = Ok d ->
  let risky := f_lt (as_risk (d_axis_scores d)) RISK_DEMANDS_VERIFICATION_FLOOR = true /\
               (rc_profile ctx = Profile.Careful \/ rc_profile ctx = Profile.Production) in
  Forall (fun s => ~ under_pressure t ps s) (tier_surfaces (d_route d)) /\
  d_route d <> Route.Hybrid /\
  (risky -> d_route d = Route.Blackwell \/ d_route d = Route.Hibernate /\ under_pressure t ps Surface.Vram) /\
  (d_route d = Route.Hibernate ->
     risky /\ under_pressure t ps Surface.Vram \/
     Forall (fun tier => Exists (under_pressure t ps) (tier_surfaces tier)) tiers).
Proof.
  intros Hm Hp Hl Hd risky. set (is_hot := under_pressure t ps).
  assert (Hflag : forall s, Surface.flag s (rd_state r) = true <-> is_hot s).
  { intros s. by eapply last_flags. }
  assert (Hcalm : forall s, Surface.flag s (rd_state r) = false <-> ~ is_hot s).
  { intros s. rewrite <-Hflag. by destruct (Surface.flag s _). }
  assert (Hadm : forall tier, tier ∈ tiers -> route_admissible tier r = false -> Exists is_hot (tier_surfaces tier)).
  { intros tier Ht Ha. eapply Exists_impl; [by apply (pressured_tier r)|]. intros s. apply Hflag. }
  destruct (decided r ctx d Hd) as (_ & _ & Hr & _). rewrite recommend_route_law in Hr.
  set (q := f_lt _ _ && _) in Hr. assert (Hq : q = true <-> risky).
  { unfold q, risky. by rewrite andb_true_iff, demands_verification. }
  destruct (first_admissible_spec r (if q then [Route.Blackwell] else preference_order (rules_for_profile (rc_profile ctx))))
    as [[Hin Ha]|[Hh Hn]].
  { apply Forall_forall. intros x Hx. destruct q; [|by apply preference_tiers in Hx].
    apply list_elem_of_singleton in Hx as ->. by left. }
  - rewrite <-Hr in Hin, Ha. assert (Ht : d_route d ∈ tiers).
    { destruct q; [|by apply preference_tiers in Hin]. apply list_elem_of_singleton in Hin as ->. by left. }
    split; [|split; [|split]].
    + apply tier_flags in Ha; [|done]. eapply Forall_impl; [exact Ha|]. intros s Hs. by apply Hcalm.
    + apply elem_of_tiers in Ht as [->|[->| ->]]; done.
    + intros Hrisk. left. apply Hq in Hrisk. rewrite Hrisk in Hin. by apply list_elem_of_singleton in Hin.
    + apply elem_of_tiers in Ht as [->|[->| ->]]; done.
  - rewrite <-Hr in Hh. rewrite Hh. split; [constructor|]. split; [done|].
    assert (Hv : q = true -> is_hot Surface.Vram).
    { intros Hq'. rewrite Hq' in Hn. apply Forall_cons in Hn as [Hn _].
      apply Hadm in Hn; [|by left]. by apply Exists_cons in Hn as [Hn|Hn%Exists_nil]. }
    split; [intros Hrisk; right; split; [done|by apply Hv, Hq]|]. intros _. destruct q eqn:Eq.
    + left. split; [by apply Hq|by apply Hv].
    + right. apply Forall_forall. intros tier Ht. apply Hadm; [done|].
      rewrite Forall_forall in Hn. by apply Hn, preference_tiers.
Qed.
End route.

(** ** Approvals that are not counted *)

Section gate.
Context `{WireFormat} `{JsonText} `{UnicodeTables}.

(** What a crate writes under its own directory does not change the count, unless
    the file has the one name that is read. *)
Lemma gate_reads_one_name root a b name files file content total per :
  file <> PENDING_RESTORES_FILENAME ->
  count_entries root (a ++ Ok (mkStateEntry name (Some (fun f => if bool_decide (f = file) then content else files f))) :: b)
    total per =
  count_entries root (a ++ Ok (mkStateEntry name (Some files)) :: b) total per.
Proof.
  intros Hf. revert total per. induction a as [|[e|e] a IH]; intros total per; simpl.
  - by rewrite bool_decide_false.
  - case_match; [|done]. by destruct (count_json_array_entries _ _); simpl.
  - done.
Qed.

(** The approvals of the quarantine, namespace, process tree and mount crates are not
    counted: whatever their pending file holds, the reading is that without it. *)
Theorem gate_misses_releases root name frozen a b files content now :
  let reading f := human_gate_read root (Some (Ok (a ++ Ok (mkStateEntry name (Some f)) :: b))) now in
  Forall (fun file => reading (fun f => if bool_decide (f = file) then content else files f) = reading files)
    [jr_pending_file (Journaled := quarantine_journal); jr_pending_file (Journaled := netns_journal);
     jr_pending_file (Journaled := Trees.journal frozen); jr_pending_file (Journaled := Mounts.journal)].
Proof.
  simpl. repeat constructor; by rewrite gate_reads_one_name.
Qed.
End gate.

(** ** Witnesses *)

Module SchedulerDemo.
#[export] Instance tables : UnicodeTables :=
  {| uc_alphanumeric := fun _ => false; uc_uppercase := fun c => c; uc_debug_plain := fun _ => true |}.

Definition gpu (index used : Z) : GpuReading := mkGpuReading index f_zero used 100 f_zero f_zero.
Definition bucket : PsiBucket := mkPsiBucket f_zero f_zero f_zero 0.
Definition idle : PsiResourceReading := mkPsiResourceReading bucket None.

(** Video memory at the given percentage, no pressure elsewhere, no approvals known. *)
Definition probe (used : Z) : Probe :=
  mkProbe (Ok (mkPsiReading 0 idle idle idle)) (Ok (mkDcgmReading 0 sain01_baseline (gpu 0 used) (gpu 1 0) []))
    (Err (HgUnavailable "no state")) used.

Definition probes : list Probe := [probe 20; probe 95; probe 85].
Definition run : list DriverReading * BackpressureMonitor := poll_all probes (with_thresholds default_for_sain01).

Definition context (p : Profile.t) (risk : f32) : RequestContext :=
  mkRequestContext "req-1" p (mkAxisSignals (tenths 7) (tenths 7) risk (tenths 7) f_zero f_zero) 20 1700000000000 "sain-01"
    "policy-kid-1".

Definition last_reading : DriverReading := default (mkDriverReading 0 rm_clean bs_clean all_healthy) (last run.1).
Definition decision (p : Profile.t) (risk : f32) : option Decision :=
  match decide_request last_reading (context p risk) with Ok d => Some d | Err _ => None end.

Example decisions :
  (d_route <$> decision Profile.Production (tenths 7), d_route <$> decision Profile.Careful (tenths 3)) =
  (Some Route.Rtx3090, Some Route.Hibernate).
Proof. vm_compute. reflexivity. Qed.

Lemma routed_tier_calm_witness :
  exists d, decide_request last_reading (context Profile.Careful (tenths 3)) = Ok d /\ d_route d = Route.Hibernate /\
    under_pressure default_for_sain01 probes Surface.Vram.
Proof.
  destruct (decide_request last_reading (context Profile.Careful (tenths 3))) as [d|] eqn:E; [|by vm_compute in E].
  exists d. split; [done|].
  assert (Hr : d_route d = Route.Hibernate) by (vm_compute in E; by injection E as <-). split; [done|].
  assert (Hk : f_lt (as_risk (d_axis_scores d)) RISK_DEMANDS_VERIFICATION_FLOOR = true)
    by (vm_compute in E; by injection E as <-).
  destruct (routed_tier_calm default_for_sain01 probes run.1 run.2 last_reading
    (context Profile.Careful (tenths 3)) d) as (_ & _ & Hv & _).
  - intros []; reflexivity.
  - reflexivity.
  - reflexivity.
  - exact E.
  - destruct (Hv (conj Hk (or_introl eq_refl))) as [Hv'|[_ Hh]]; [by rewrite Hr in Hv'|exact Hh].
Defined.

(** The route of a request that is not risky, after the polls. *)
Definition route_after (ps : list Probe) : option Route.t :=
  match last (poll_all ps (with_thresholds default_for_sain01)).1 with
  | Some r => match decide_request r (context Profile.Careful (tenths 7)) with Ok d => Some (d_route d) | Err _ => None end
  | None => None
  end.

(** The video memory of the oracle tier is full and work goes elsewhere; one poll in which
    the card cannot be read, and the oracle tier is given the work. *)
Theorem failed_source_ends_pressure :
  let failed := mkProbe (pr_psi (probe 0)) (Err (DcgmUnavailable "timeout")) (pr_gate (probe 0)) 96 in
  route_after [probe 95; probe 95] <> Some Route.Blackwell /\
  route_after [probe 95; probe 95; failed] = Some Route.Blackwell.
Proof. vm_compute. done. Qed.

(** Pressure ends at the first answer below the margin: a poll a microsecond after the one
    that found the memory full, and the oracle tier is given the work. *)
Theorem pressure_ends_at_once :
  let later := mkProbe (pr_psi (probe 0)) (pr_dcgm (probe 79)) (pr_gate (probe 0)) 96 in
  (pr_now later - pr_now (probe 95) = 1)%Z /\
  route_after [probe 95] <> Some Route.Blackwell /\ route_after [probe 95; later] = Some Route.Blackwell.
Proof. vm_compute. done. Qed.
End SchedulerDemo.
