(* ===== verification/SchedulerLog.v ===== *)
(** * The scheduler: logs, ring, replay, binaries

    Models the rest of crates/selfdef-scheduler: the chained log of decisions and its
    check, the ring of recent decisions and the counterfactual replay of a decision
    (lib.rs), the rotated log of readings (decision_audit.rs) and its replay
    (driver_replay.rs), the configuration (config.rs), and the programs that put the
    parts together (decide.rs and the three files of bin/). A log is the text of its
    file, [None] when there is no file; the rotated log is a map from generations to
    texts, in which zero is the current file. The checker of the decision log is, line
    for line, that of the guardian, and is used from there. *)

From S2P Require Import Prelude Core Auditd NetText F32 Guardian Scheduler.
From stdpp Require Import options.

(** ** The log of decisions: lib.rs *)

Inductive SchedulerError :=
| SSchemaMismatch (got : string)
| SIo (e : string)
| SSerde (e : string)
| SAuditChainBreak (line : nat) (detail : string)
| InvalidDecision (e : string).

Definition scheduler_error_display (e : SchedulerError) : string :=
  match e with
  | SSchemaMismatch got => "schema version mismatch: expected " +:+ SCHEMA_VERSION +:+ ", got " +:+ got
  | SIo e => "io: " +:+ e
  | SSerde e => "serde_json: " +:+ e
  | SAuditChainBreak line detail =>
      "audit chain break at line " +:+ show_uint (Z.of_nat line) +:+ ": " +:+ detail
  | InvalidDecision e => "decision invalid: " +:+ e
  end.

(** A float in a JSON value is a double; NaN and the infinities are null. *)
Definition double_bits (negative : bool) (m : positive) (e : Z) : Z :=
  let shift := (53 - Z.pos (digits2_pos m))%Z in
  (Z.b2z negative * 2 ^ 63 + (e - shift + 1075) * 2 ^ 52 + (Zpos m * 2 ^ shift - 2 ^ 52))%Z.

Definition json_f32 (x : f32) : json :=
  match x with
  | S754_nan | S754_infinity _ => JNull
  | S754_zero s => JFloat (Z.b2z s * 2 ^ 63)
  | S754_finite s m e => JFloat (double_bits s m e)
  end.

Example json_f32_half : (json_f32 (f_lit 5 1), json_f32 f_one) = (JFloat 0x3FE0000000000000, JFloat 0x3FF0000000000000).
Proof. vm_compute. reflexivity. Qed.

Definition route_label (r : Route.t) : string :=
  match r with
  | Route.Blackwell => "blackwell" | Route.Rtx3090 => "rtx3090" | Route.Cpu => "cpu" | Route.Hybrid => "hybrid"
  | Route.Hibernate => "hibernate"
  end.

Definition axis_scores_json (a : AxisScores) : json := JObject (prod_map id json_f32 <$> axes a).

Definition backpressure_json (b : BackpressureState) : json :=
  JObject [("blackwell_vram_high", JBool (bs_blackwell_vram_high b)); ("gpu3090_busy", JBool (bs_gpu3090_busy b));
           ("cpu_pressure", JBool (bs_cpu_pressure b)); ("ram_pressure", JBool (bs_ram_pressure b));
           ("io_pressure", JBool (bs_io_pressure b));
           ("human_gate_queue_high", JBool (bs_human_gate_queue_high b))].

Definition json_option (o : option string) : json := match o with Some s => JString s | None => JNull end.

Definition decision_entry (d : Decision) (prev_sha : option string) : list (string * json) :=
  [("schema_version", JString SCHEMA_VERSION); ("ts_ms", JPosInt (d_ts_ms d)); ("hostname", JString (d_hostname d));
   ("request_id", JString (d_request_id d)); ("profile", JString (Profile.label (d_profile d)));
   ("route", JString (route_label (d_route d))); ("axis_scores", axis_scores_json (d_axis_scores d));
   ("backpressure", backpressure_json (d_backpressure d));
   ("signer_kid_policy", JString (d_signer_kid_policy d));
   ("override_signer_kid", json_option (d_override_signer_kid d)); ("rationale", JString (d_rationale d));
   ("prev_event_sha256", json_option prev_sha)].

Section decisions.
Context `{WireFormat} `{Sha256} `{JsonText}.

(** Opening, writing and syncing a line at the end of a file. *)
Definition append_line (io : LogIo) (line : string) (file : option string) : result unit string * option string :=
  match li_open io with
  | Err e => (Err e, file)
  | Ok _ =>
      let text := default "" file in
      match li_write io with
      | Err (e, n) => (Err e, Some (text +:+ str_prefix n (line +:+ newline)))
      | Ok _ => (li_sync io, Some (text +:+ line +:+ newline))
      end
  end.

Definition map_err {A E F} (f : E -> F) (r : result A E) : result A F :=
  match r with Ok a => Ok a | Err e => Err (f e) end.

Definition emit_audit_entry (io : LogIo) (d : Decision) (file : option string) :
    result unit SchedulerError * option string :=
  match li_mkdir io with
  | Err e => (Err (SIo e), file)
  | Ok _ =>
      match (match file with Some _ => li_read io | None => Ok tt end) with
      | Err e => (Err (SIo e), file)
      | Ok _ =>
          let line := json_to_string (JObject (decision_entry d (last_line_sha256 file))) in
          let '(r, file) := append_line io line file in (map_err SIo r, file)
      end
  end.

Definition chain_error (e : GuardianError) : SchedulerError :=
  match e with
  | AuditChainBreak line detail => SAuditChainBreak line detail
  | GIo e | GSerde e | Classifier e | GCommand e | CircuitBreakerOpen e | GSchemaMismatch e => SIo e
  end.

Definition decision_chain_check (read : result unit string) (file : option string) : result nat SchedulerError :=
  map_err chain_error (audit_chain_check read file).
End decisions.

(** ** Replay of a decision *)

Record ReplayResult := mkReplayResult {
  rp_original : Decision;
  rp_counterfactual : Decision;
  rp_route_differs : bool;
  rp_compound_differs : bool;
}.

Definition f_abs (x : f32) : f32 := SFabs x.

Definition replay (original : Decision) (replay_profile : Profile.t) : ReplayResult :=
  let a := d_axis_scores original in
  let signals := mkAxisSignals (as_latency a) (as_cost a) (as_risk a) (as_energy a) (as_human_attention a)
                   (as_hardware_pressure a) in
  let new_scores := evaluate_objective signals replay_profile in
  let counterfactual := mkDecision (d_schema_version original) (d_request_id original) replay_profile
    (d_route original) new_scores (d_backpressure original) (d_ts_ms original) (d_hostname original)
    (d_signer_kid_policy original) (d_override_signer_kid original)
    ("REPLAY against " +:+ Profile.debug replay_profile +:+ ": " +:+ d_rationale original) in
  mkReplayResult original counterfactual
    (negb (bool_decide (d_route counterfactual = d_route original)))
    (f_gt (f_abs (f_sub (as_compound new_scores) (as_compound a))) (f_lit 1 3)).

(** ** The log of readings: decision_audit.rs *)

Definition DEFAULT_MAX_GENERATIONS : nat := 10.
Definition DEFAULT_ROTATE_BYTES : Z := 64 * 1024 * 1024.
Definition DRIVER_AUDIT_SCHEMA_VERSION : string := "1.0.0".

Inductive DriverAuditError :=
| DIo (path source : string)
| DSerde (e : string)
| DChainBreak (line : nat) (detail : string).

Record DriverAuditEntry := mkDriverAuditEntry {
  da_schema_version : string;
  da_captured_at_unix_micros : Z;
  da_reading : DriverReading;
  da_signer_kid : option string;
  da_prev_event_sha256 : option string;
}.

(** The JSON text of an entry, and its reading. *)
Class DriverText := {
  entry_text : DriverAuditEntry -> string;
  entry_parse : string -> result DriverAuditEntry string;
}.

Abbreviation Generations := (gmap nat string).

Definition generation_path (base : string) (n : nat) : string :=
  match n with O => base | _ => base +:+ "." +:+ show_uint (Z.of_nat n) end.

(** [Path::parent] of a path that ends in a file name. *)
Definition parent_dir (path : string) : string :=
  let pieces := split "/" path in
  let dir := join "/" (take (length pieces - 1) pieces) in
  if bool_decide (dir = "") && starts_with path "/" then "/" else dir.

Section driver_log.
Context `{Sha256} `{DriverText}.

(** The answers of the file system to one emission. *)
Record EmitIo := mkEmitIo {
  ei_read : nat -> result unit string;
  ei_log : LogIo;
}.

Fixpoint probe_generations (base : string) (read : nat -> result unit string) (gens : Generations) (ns : list nat) :
    result (option string) DriverAuditError :=
  match ns with
  | [] => Ok None
  | n :: ns =>
      match gens !! n with
      | None => probe_generations base read gens ns
      | Some text =>
          let? _ := map_err (DIo (generation_path base n)) (read n) in
          match last_line_sha256 (Some text) with
          | Some sha => Ok (Some sha)
          | None => probe_generations base read gens ns
          end
      end
  end.

(** The current file first, then its generations one to ten. *)
Definition last_sha256_of (base : string) (read : nat -> result unit string) (gens : Generations) :
    result (option string) DriverAuditError :=
  probe_generations base read gens (seq 0 (S DEFAULT_MAX_GENERATIONS)).

Definition emit_driver_reading (base : string) (io : EmitIo) (reading : DriverReading) (signer_kid : option string)
    (gens : Generations) : result DriverAuditEntry DriverAuditError * Generations :=
  match li_mkdir (ei_log io) with
  | Err e => (Err (DIo (parent_dir base) e), gens)
  | Ok _ =>
      match last_sha256_of base (ei_read io) gens with
      | Err e => (Err e, gens)
      | Ok prev_sha =>
          let entry := mkDriverAuditEntry DRIVER_AUDIT_SCHEMA_VERSION (rd_captured_at_unix_micros reading) reading
                         signer_kid prev_sha in
          let '(r, file) := append_line (ei_log io) (entry_text entry) (gens !! 0) in
          (match r with Ok _ => Ok entry | Err e => Err (DIo base e) end,
           match file with Some text => <[0 := text]> gens | None => gens end)
      end
  end.

(** The answers of the file system to a rotation. *)
Record RotateIo := mkRotateIo {
  ri_metadata : result unit string;
  ri_remove : result unit string;
  ri_rename : nat -> result unit string;
  ri_create : result unit string;
}.

(** [.n] becomes [.n+1], for [n] counting down to one. *)
Fixpoint shift_generations (base : string) (io : RotateIo) (n : nat) (gens : Generations) :
    result unit DriverAuditError * Generations :=
  match n with
  | O => (Ok tt, gens)
  | S n' =>
      match gens !! n with
      | None => shift_generations base io n' gens
      | Some text =>
          match ri_rename io n with
          | Err e => (Err (DIo (generation_path base n) e), gens)
          | Ok _ => shift_generations base io n' (<[S n := text]> (delete n gens))
          end
      end
  end.

(** With a cap of zero the oldest name is [.0], which no log writes. *)
Definition drop_oldest (base : string) (io : RotateIo) (max_generations : nat) (gens : Generations) :
    result unit DriverAuditError * Generations :=
  match max_generations, gens !! max_generations with
  | O, _ | _, None => (Ok tt, gens)
  | _, Some _ => match ri_remove io with
                 | Err e => (Err (DIo (generation_path base max_generations) e), gens)
                 | Ok _ => (Ok tt, delete max_generations gens)
                 end
  end.

Definition rotate_audit_log (base : string) (io : RotateIo) (max_bytes : Z) (max_generations : nat)
    (gens : Generations) : result bool DriverAuditError * Generations :=
  match gens !! 0, ri_metadata io with
  | None, _ | _, Err _ => (Ok false, gens)
  | Some text, Ok _ =>
      if (Z.of_nat (String.length text) <? max_bytes)%Z then (Ok false, gens)
      else
        match drop_oldest base io max_generations gens with
        | (Err e, gens) => (Err e, gens)
        | (Ok _, gens) =>
            match shift_generations base io (max_generations - 1) gens with
            | (Err e, gens) => (Err e, gens)
            | (Ok _, gens) =>
                match ri_rename io 0 with
                | Err e => (Err (DIo base e), gens)
                | Ok _ =>
                    let gens := <[1 := text]> (delete 0 gens) in
                    match ri_create io with
                    | Err e => (Err (DIo base e), gens)
                    | Ok _ => (Ok true, <[0 := ""]> gens)
                    end
                end
            end
        end
  end.

Record ChainStats := mkChainStats {
  cs_event_count : nat;
  cs_first_ts_unix_micros : option Z;
  cs_last_ts_unix_micros : option Z;
  cs_last_sha256 : option string;
}.

Definition cs_empty : ChainStats := mkChainStats 0 None None None.

(** One entry against the hash of the one before it. *)
Definition check_entry (n : nat) (last_sha : option string) (is_first accept_first_prev : bool)
    (entry : DriverAuditEntry) : result unit DriverAuditError :=
  match last_sha, da_prev_event_sha256 entry with
  | Some want, Some got =>
      if bool_decide (want = got) then Ok tt
      else Err (DChainBreak n ("prev_event_sha256=" +:+ got +:+ ", expected " +:+ want))
  | Some _, None => Err (DChainBreak n "prev_event_sha256 missing from non-genesis entry")
  | None, Some _ =>
      if is_first && negb accept_first_prev
      then Err (DChainBreak n "prev_event_sha256 present on genesis entry (expected None)") else Ok tt
  | None, None => Ok tt
  end.

Fixpoint verify_lines (n : nat) (lines : list string) (accept_first_prev : bool) (is_first : bool) (st : ChainStats) :
    result ChainStats DriverAuditError :=
  match lines with
  | [] => Ok st
  | line :: lines =>
      if blank line then verify_lines (S n) lines accept_first_prev is_first st
      else
        let? entry := map_err (fun e => DChainBreak n ("malformed json: " +:+ e)) (entry_parse line) in
        let? _ := check_entry n (cs_last_sha256 st) is_first accept_first_prev entry in
        let ts := Some (da_captured_at_unix_micros entry) in
        verify_lines (S n) lines accept_first_prev false
          (mkChainStats (S (cs_event_count st))
             (match cs_first_ts_unix_micros st with None => ts | first => first end) ts (Some (sha256_hex line)))
  end.

Definition verify_chain_text (text : string) (expected_first_prev_sha : option string) (accept_first_prev : bool) :
    result ChainStats DriverAuditError :=
  verify_lines 1 (str_lines text) accept_first_prev true (mkChainStats 0 None None expected_first_prev_sha).

Definition verify_chain (base : string) (read : result unit string) (gens : Generations) :
    result ChainStats DriverAuditError :=
  match gens !! 0 with
  | None => Ok cs_empty
  | Some text => let? _ := map_err (DIo base) read in verify_chain_text text None false
  end.

(** The files from the oldest generation to the current one. *)
Definition oldest_first (max_generations : nat) (gens : Generations) : list (nat * string) :=
  omap (fun n => pair n <$> gens !! n) (reverse (seq 0 (S max_generations))).

Fixpoint verify_files (base : string) (read : nat -> result unit string) (files : list (nat * string))
    (overall : ChainStats) (expected_prev : option string) (anchored : bool) : result ChainStats DriverAuditError :=
  match files with
  | [] => Ok overall
  | (n, text) :: files =>
      let? _ := map_err (DIo (generation_path base n)) (read n) in
      let? stats := verify_chain_text text expected_prev (negb anchored) in
      if bool_decide (cs_event_count stats = 0) then verify_files base read files overall expected_prev anchored
      else
        verify_files base read files
          (mkChainStats (cs_event_count overall + cs_event_count stats)
             (if bool_decide (cs_event_count overall = 0) then cs_first_ts_unix_micros stats
              else cs_first_ts_unix_micros overall)
             (cs_last_ts_unix_micros stats) (cs_last_sha256 stats))
          (cs_last_sha256 stats) true
  end.

Definition verify_chain_across_generations (base : string) (read : nat -> result unit string) (max_generations : nat)
    (gens : Generations) : result ChainStats DriverAuditError :=
  verify_files base read (oldest_first max_generations gens) cs_empty None false.
End driver_log.

(** ** Replay of the readings: driver_replay.rs *)

(** Counters are [u32]; a release build wraps. *)
Definition u32_add (a b : Z) : Z := ((a + b) `mod` 2 ^ 32)%Z.

Record SurfaceDiff := mkSurfaceDiff {
  sd_both_fired : Z;
  sd_only_counterfactual_fired : Z;
  sd_only_original_fired : Z;
  sd_neither_fired : Z;
}.
Definition sd_zero : SurfaceDiff := mkSurfaceDiff 0 0 0 0.

Definition observe (original counterfactual : bool) (s : SurfaceDiff) : SurfaceDiff :=
  let '(mkSurfaceDiff b c o n) := s in
  match original, counterfactual with
  | true, true => mkSurfaceDiff (u32_add b 1) c o n
  | false, true => mkSurfaceDiff b (u32_add c 1) o n
  | true, false => mkSurfaceDiff b c (u32_add o 1) n
  | false, false => mkSurfaceDiff b c o (u32_add n 1)
  end.

Definition surface_diverges (s : SurfaceDiff) : bool :=
  ((0 <? sd_only_counterfactual_fired s) || (0 <? sd_only_original_fired s))%Z.

Record ReplayStats := mkReplayStats {
  rs_entries_replayed : Z;
  rs_cpu_pressure : SurfaceDiff;
  rs_ram_pressure : SurfaceDiff;
  rs_io_pressure : SurfaceDiff;
  rs_blackwell_vram_high : SurfaceDiff;
  rs_gpu3090_busy : SurfaceDiff;
  rs_human_gate_queue_high : SurfaceDiff;
  rs_first_divergence_at_unix_micros : option Z;
}.
Definition rs_default : ReplayStats := mkReplayStats 0 sd_zero sd_zero sd_zero sd_zero sd_zero sd_zero None.

Definition replay_diverges (s : ReplayStats) : bool :=
  surface_diverges (rs_cpu_pressure s) || surface_diverges (rs_ram_pressure s)
  || surface_diverges (rs_io_pressure s) || surface_diverges (rs_blackwell_vram_high s)
  || surface_diverges (rs_gpu3090_busy s) || surface_diverges (rs_human_gate_queue_high s).

Definition replay_enter_or_stay (prev : bool) (value threshold margin : f32) : bool :=
  if prev then f_ge value (f_sub threshold margin) else f_gt value threshold.

Definition replay_driver_reading (r : DriverReading) (t : BackpressureThresholds) (prev : BackpressureState) :
    BackpressureState :=
  let m := rd_measurements r in
  let h := HYSTERESIS_MARGIN in
  mkBackpressureState
    (replay_enter_or_stay (bs_blackwell_vram_high prev) (rm_blackwell_vram_util m) (bt_blackwell_vram_high t) h)
    (replay_enter_or_stay (bs_gpu3090_busy prev) (rm_gpu3090_util m) (bt_gpu3090_busy t) h)
    (replay_enter_or_stay (bs_cpu_pressure prev) (rm_cpu_psi m) (bt_cpu_pressure t) h)
    (replay_enter_or_stay (bs_ram_pressure prev) (rm_mem_psi m) (bt_ram_pressure t) h)
    (replay_enter_or_stay (bs_io_pressure prev) (rm_io_psi m) (bt_io_pressure t) h)
    (bt_human_gate_queue_high t <? rm_human_gate_queue_depth m)%Z.

Definition state_diverges (a b : BackpressureState) : bool :=
  negb (eqb (bs_cpu_pressure a) (bs_cpu_pressure b)) || negb (eqb (bs_ram_pressure a) (bs_ram_pressure b))
  || negb (eqb (bs_io_pressure a) (bs_io_pressure b))
  || negb (eqb (bs_blackwell_vram_high a) (bs_blackwell_vram_high b))
  || negb (eqb (bs_gpu3090_busy a) (bs_gpu3090_busy b))
  || negb (eqb (bs_human_gate_queue_high a) (bs_human_gate_queue_high b)).

(** One entry: the recorded state against the counterfactual one. *)
Definition replay_entry (reading : DriverReading) (counterfactual : BackpressureState) (s : ReplayStats) :
    ReplayStats :=
  let original := rd_state reading in
  mkReplayStats (u32_add (rs_entries_replayed s) 1)
    (observe (bs_cpu_pressure original) (bs_cpu_pressure counterfactual) (rs_cpu_pressure s))
    (observe (bs_ram_pressure original) (bs_ram_pressure counterfactual) (rs_ram_pressure s))
    (observe (bs_io_pressure original) (bs_io_pressure counterfactual) (rs_io_pressure s))
    (observe (bs_blackwell_vram_high original) (bs_blackwell_vram_high counterfactual) (rs_blackwell_vram_high s))
    (observe (bs_gpu3090_busy original) (bs_gpu3090_busy counterfactual) (rs_gpu3090_busy s))
    (observe (bs_human_gate_queue_high original) (bs_human_gate_queue_high counterfactual)
       (rs_human_gate_queue_high s))
    (match rs_first_divergence_at_unix_micros s with
     | None => if state_diverges original counterfactual then Some (rd_captured_at_unix_micros reading) else None
     | first => first
     end).

Section replay_log.
Context `{DriverText}.

Fixpoint replay_lines (n : nat) (lines : list string) (alt : BackpressureThresholds) (s : ReplayStats)
    (prev : BackpressureState) : result (ReplayStats * BackpressureState) DriverAuditError :=
  match lines with
  | [] => Ok (s, prev)
  | line :: lines =>
      if blank line then replay_lines (S n) lines alt s prev
      else
        let? entry := map_err (fun e => DChainBreak n ("malformed json: " +:+ e)) (entry_parse line) in
        let counterfactual := replay_driver_reading (da_reading entry) alt prev in
        replay_lines (S n) lines alt (replay_entry (da_reading entry) counterfactual s) counterfactual
  end.

Definition replay_text_keep_state (text : string) (alt : BackpressureThresholds) (init : BackpressureState) :
    result (ReplayStats * BackpressureState) DriverAuditError :=
  replay_lines 1 (str_lines text) alt rs_default init.

Definition replay_text (text : string) (alt : BackpressureThresholds) (init : BackpressureState) :
    result ReplayStats DriverAuditError :=
  let? out := replay_text_keep_state text alt init in Ok out.1.

Definition replay_audit_log (base : string) (read : result unit string) (gens : Generations)
    (alt : BackpressureThresholds) : result ReplayStats DriverAuditError :=
  match gens !! 0 with
  | None => Ok rs_default
  | Some text => let? _ := map_err (DIo base) read in replay_text text alt bs_clean
  end.

Definition merge_surface (into from : SurfaceDiff) : SurfaceDiff :=
  mkSurfaceDiff (u32_add (sd_both_fired into) (sd_both_fired from))
    (u32_add (sd_only_counterfactual_fired into) (sd_only_counterfactual_fired from))
    (u32_add (sd_only_original_fired into) (sd_only_original_fired from))
    (u32_add (sd_neither_fired into) (sd_neither_fired from)).

Definition merge (into from : ReplayStats) : ReplayStats :=
  mkReplayStats (u32_add (rs_entries_replayed into) (rs_entries_replayed from))
    (merge_surface (rs_cpu_pressure into) (rs_cpu_pressure from))
    (merge_surface (rs_ram_pressure into) (rs_ram_pressure from))
    (merge_surface (rs_io_pressure into) (rs_io_pressure from))
    (merge_surface (rs_blackwell_vram_high into) (rs_blackwell_vram_high from))
    (merge_surface (rs_gpu3090_busy into) (rs_gpu3090_busy from))
    (merge_surface (rs_human_gate_queue_high into) (rs_human_gate_queue_high from))
    (match rs_first_divergence_at_unix_micros into with
     | None => rs_first_divergence_at_unix_micros from
     | first => first
     end).

Fixpoint replay_files (base : string) (read : nat -> result unit string) (files : list (nat * string))
    (alt : BackpressureThresholds) (stats : ReplayStats) (prev : BackpressureState) :
    result ReplayStats DriverAuditError :=
  match files with
  | [] => Ok stats
  | (n, text) :: files =>
      let? _ := map_err (DIo (generation_path base n)) (read n) in
      let? out := replay_text_keep_state text alt prev in
      replay_files base read files alt (merge stats out.1) out.2
  end.

Definition replay_audit_log_across_generations (base : string) (read : nat -> result unit string)
    (max_generations : nat) (gens : Generations) (alt : BackpressureThresholds) : result ReplayStats DriverAuditError :=
  replay_files base read (oldest_first max_generations gens) alt rs_default bs_clean.
End replay_log.
