(* ===== verification/SchedulerRun.v ===== *)
(** * The scheduler: ring, security events, configuration, programs

    Models the ring of recent decisions (lib.rs), the events for the security log
    (ocsf_emitter.rs), scheduler.toml (config.rs), the persistence of a decision
    (decide.rs) and the three programs of bin/: the poll of the timer, the decision
    on one request, and the heartbeat. A directory maps the names of its files to their texts
    and times; the answers of the file system are inputs. The Prometheus text
    is not modelled. *)

From S2P Require Import Prelude Core Auditd NetText F32 Guardian Scheduler SchedulerLog.
From stdpp Require Import options.

(** ** The ring of decisions: lib.rs *)

(** The JSON text of a decision, and its reading. *)
Class DecisionText := {
  decision_text : Decision -> string;
  decision_parse : string -> option Decision;
}.

Record RingFile := mkRingFile { rf_text : string; rf_mtime : Z }.
Abbreviation Ring := (gmap string RingFile).

Definition DEFAULT_RING_MAX_ENTRIES : nat := 256.

Definition sanitize_char (c : rchar) : rchar :=
  if is_ascii_alphanumeric (char_code c) || bool_decide (c ∈ ["."; "_"; "-"]) then c else "_".
Definition sanitize_for_filename (s : string) : string := str_concat (sanitize_char <$> chars s).

Fixpoint zeros (n : nat) : string := match n with O => "" | S n => String "0" (zeros n) end.

(** [{:020}] *)
Definition pad20 (n : Z) : string := let s := show_uint n in zeros (20 - String.length s) +:+ s.

Definition ring_stem (d : Decision) : string := pad20 (d_ts_ms d) +:+ "-" +:+ sanitize_for_filename (d_request_id d).
Definition ring_name (d : Decision) : string := ring_stem d +:+ ".json".
Definition ring_tmp_name (d : Decision) (pid now : Z) : string :=
  "." +:+ ring_stem d +:+ ".tmp." +:+ show_uint pid +:+ "." +:+ show_uint now.

Definition json_files (ring : Ring) : list string :=
  filter (fun name => json_name name = true) (elements (dom ring)).

Section ring.
Context `{DecisionText}.

(** The answers of the file system: [gi_write] gives the bytes written before a
    failure, [gi_removed] whether a file could be removed. *)
Record RingIo := mkRingIo {
  gi_mkdir : result unit string;
  gi_create : result unit string;
  gi_write : result unit (string * nat);
  gi_sync : result unit string;
  gi_rename : result unit string;
  gi_list : result unit string;
  gi_removed : string -> bool;
  gi_pid : Z;
  gi_now : Z;
}.

Definition evict_ring_overflow (io : RingIo) (max_entries : nat) (ring : Ring) : result unit SchedulerError * Ring :=
  match gi_list io with
  | Err e => (Err (SIo e), ring)
  | Ok _ =>
      let files := merge_sort String.le (json_files ring) in
      if bool_decide (length files <= max_entries) then (Ok tt, ring)
      else (Ok tt, foldr delete ring (filter (fun p => gi_removed io p = true)
                                       (take (length files - max_entries) files)))
  end.

Definition write_ring_buffer (io : RingIo) (d : Decision) (max_entries : nat) (ring : Ring) :
    result unit SchedulerError * Ring :=
  match gi_mkdir io, gi_create io with
  | Err e, _ | _, Err e => (Err (SIo e), ring)
  | Ok _, Ok _ =>
      let json := decision_text d in
      let tmp := ring_tmp_name d (gi_pid io) (gi_now io) in
      match gi_write io, gi_sync io with
      | Err (e, n), _ => (Err (SIo e), <[tmp := mkRingFile (str_prefix n json) (gi_now io)]> ring)
      | Ok _, Err e => (Err (SIo e), <[tmp := mkRingFile json (gi_now io)]> ring)
      | Ok _, Ok _ =>
          match gi_rename io with
          | Err e => (Err (SIo e), if gi_removed io tmp then delete tmp ring
                                   else <[tmp := mkRingFile json (gi_now io)]> ring)
          | Ok _ =>
              let ring := <[ring_name d := mkRingFile json (gi_now io)]> (delete tmp ring) in
              if bool_decide (0 < max_entries) then evict_ring_overflow io max_entries ring else (Ok tt, ring)
          end
      end
  end.

Definition newer (a b : Decision) : Prop := (d_ts_ms b <= d_ts_ms a)%Z.
#[global] Instance newer_dec : RelDecision newer.
Proof. unfold newer. solve_decision. Defined.

Definition ring_decision (ring : Ring) (readable : string -> bool) (name : string) : option Decision :=
  if negb (json_name name && readable name) then None
  else
    f ← ring !! name;
    d ← decision_parse (rf_text f);
    if is_ok (decision_validate d) then Some d else None.

(** [listing] is the order of the directory. *)
Definition read_ring_buffer (ring : option Ring) (listing : result (list string) string) (readable : string -> bool) :
    result (list Decision) SchedulerError :=
  match ring with
  | None => Ok []
  | Some ring =>
      let? names := map_err SIo listing in
      Ok (merge_sort newer (omap (ring_decision ring readable) names))
  end.

(** The heartbeat's own eviction: the newest by modification time stay. *)
Definition recent (a b : Z * string) : Prop := (b.1 <= a.1)%Z.
#[global] Instance recent_dec : RelDecision recent.
Proof. unfold recent. solve_decision. Defined.

Definition evict_old_ring_entries (listing : result (list string) string) (removed : string -> bool) (cap : nat)
    (ring : Ring) : result unit string * Ring :=
  match listing with
  | Err e => (Err e, ring)
  | Ok names =>
      let entries := omap (fun p => (fun f => (rf_mtime f, p)) <$> ring !! p) (filter (fun p => json_name p = true) names) in
      if bool_decide (length entries <= cap) then (Ok tt, ring)
      else (Ok tt, foldr delete ring (filter (fun p => removed p = true) (drop cap (merge_sort recent entries)).*2))
  end.
End ring.

(** ** Security events: ocsf_emitter.rs *)

Module OcsfSeverityId.
Inductive t := Informational | Low | Medium | High.
Definition as_u32 (s : t) : Z :=
  match s with Informational => 1 | Low => 2 | Medium => 3 | High => 4 end%Z.
End OcsfSeverityId.

Definition derive_severity_id (r : DriverReading) : OcsfSeverityId.t :=
  let degraded := degraded_count (rd_substrate_health r) in
  let s := rd_state r in
  let surfaces := pressure_count s in
  if (degraded =? 3)%Z || (bs_blackwell_vram_high s && (bs_cpu_pressure s || bs_ram_pressure s))
  then OcsfSeverityId.High
  else if ((2 <=? degraded) || (2 <=? surfaces))%Z then OcsfSeverityId.Medium
  else if ((degraded =? 1) || (surfaces =? 1))%Z then OcsfSeverityId.Low
  else OcsfSeverityId.Informational.

Definition derive_decision_severity_id (d : Decision) : OcsfSeverityId.t :=
  let surfaces := pressure_count (d_backpressure d) in
  if bool_decide (d_route d = Route.Hibernate) then OcsfSeverityId.High
  else if (2 <=? surfaces)%Z || bool_decide (d_route d = Route.Cpu) then OcsfSeverityId.Medium
  else if (surfaces =? 1)%Z then OcsfSeverityId.Low
  else OcsfSeverityId.Informational.

Definition observable (name type : string) (value : json) : json :=
  JObject [("name", JString name); ("type", JString type); ("value", value)].

Definition status_enrichment (source : string) (s : SourceStatus) : list json :=
  let entry kind reason := [JObject [("name", JString (source +:+ "_status"));
                                     ("data", JObject [("kind", JString kind); ("reason", JString reason)])]] in
  match s with
  | Healthy => []
  | Unavailable r => entry "unavailable" r
  | Errored r => entry "errored" r
  end.

Definition ocsf_head (severity : OcsfSeverityId.t) (now_ms : Z) : list (string * json) :=
  [("time", JPosInt now_ms); ("category_uid", JPosInt 2); ("class_uid", JPosInt 2004);
   ("type_uid", JPosInt (2004 * 100 + 1)); ("activity_id", JPosInt 1);
   ("severity_id", JPosInt (OcsfSeverityId.as_u32 severity)); ("status_id", JPosInt 1)].
Definition ocsf_product : json :=
  JObject [("name", JString "selfdef-scheduler"); ("vendor_name", JString "selfdef")].

Section ocsf.
Context `{WireFormat} `{DecisionText} (reading_text : DriverReading -> string).

Definition render_ocsf_event (r : DriverReading) (now_ms : Z) : string :=
  let m := rd_measurements r in
  let s := rd_state r in
  let h := rd_substrate_health r in
  let observables :=
    [observable "cpu_psi" "Fraction" (json_f32 (rm_cpu_psi m)); observable "mem_psi" "Fraction" (json_f32 (rm_mem_psi m));
     observable "io_psi" "Fraction" (json_f32 (rm_io_psi m));
     observable "blackwell_vram_util" "Fraction" (json_f32 (rm_blackwell_vram_util m));
     observable "gpu3090_util" "Fraction" (json_f32 (rm_gpu3090_util m));
     observable "human_gate_queue_depth" "Counter" (JPosInt (rm_human_gate_queue_depth m));
     observable "cpu_pressure" "Boolean" (JBool (bs_cpu_pressure s));
     observable "ram_pressure" "Boolean" (JBool (bs_ram_pressure s));
     observable "io_pressure" "Boolean" (JBool (bs_io_pressure s));
     observable "blackwell_vram_high" "Boolean" (JBool (bs_blackwell_vram_high s));
     observable "gpu3090_busy" "Boolean" (JBool (bs_gpu3090_busy s));
     observable "human_gate_queue_high" "Boolean" (JBool (bs_human_gate_queue_high s));
     observable "psi_healthy" "Boolean" (JBool (is_healthy (sh_psi_status h)));
     observable "dcgm_healthy" "Boolean" (JBool (is_healthy (sh_dcgm_status h)));
     observable "human_gate_healthy" "Boolean" (JBool (is_healthy (sh_human_gate_status h)));
     observable "substrate_degraded_count" "Counter" (JPosInt (degraded_count h))] in
  let enrichments := status_enrichment "psi" (sh_psi_status h) ++ status_enrichment "dcgm" (sh_dcgm_status h)
                     ++ status_enrichment "human_gate" (sh_human_gate_status h) in
  json_to_string (JObject (ocsf_head (derive_severity_id r) now_ms
    ++ [("metadata", JObject [("version", JString "1.1.0"); ("product", ocsf_product)]);
        ("observables", JArray observables); ("raw_data", JString (reading_text r))]
    ++ match enrichments with [] => [] | _ => [("enrichments", JArray enrichments)] end)) +:+ newline.

Definition render_decision_ocsf (d : Decision) (now_ms : Z) : string :=
  let a := d_axis_scores d in
  let observables :=
    [observable "profile" "String" (JString (Profile.debug (d_profile d)));
     observable "route" "String" (JString (Route.debug (d_route d)));
     observable "compound" "Fraction" (json_f32 (as_compound a)); observable "latency" "Fraction" (json_f32 (as_latency a));
     observable "cost" "Fraction" (json_f32 (as_cost a)); observable "risk" "Fraction" (json_f32 (as_risk a));
     observable "energy" "Fraction" (json_f32 (as_energy a));
     observable "human_attention" "Fraction" (json_f32 (as_human_attention a));
     observable "hardware_pressure" "Fraction" (json_f32 (as_hardware_pressure a));
     observable "backpressure_count" "Counter" (JPosInt (pressure_count (d_backpressure d)))] in
  json_to_string (JObject (ocsf_head (derive_decision_severity_id d) now_ms
    ++ [("message", JString (d_rationale d));
        ("metadata", JObject [("version", JString "1.1.0"); ("product", ocsf_product);
                              ("event_kind", JString "scheduler_decision")]);
        ("finding_info", JObject [("uid", JString (d_request_id d));
           ("title", JString ("scheduler routed " +:+ Route.debug (d_route d) +:+ " under "
                              +:+ Profile.debug (d_profile d)))]);
        ("observables", JArray observables); ("raw_data", JString (decision_text d))])) +:+ newline.

(** Failing to make the directory is ignored; the line already ends. *)
Definition append_ocsf_jsonl (io : LogIo) (line : string) (file : option string) : result unit string * option string :=
  match li_open io with
  | Err e => (Err e, file)
  | Ok _ =>
      let text := default "" file in
      match li_write io with
      | Err (e, n) => (Err e, Some (text +:+ str_prefix n line))
      | Ok _ => (li_sync io, Some (text +:+ line))
      end
  end.
End ocsf.

(** ** scheduler.toml: config.rs *)

Record SubstrateConfig := mkSubstrateConfig {
  sc_psi_dir : string;
  sc_nvidia_smi_bin : string;
  sc_state_root : string;
  sc_dcgm_indices : DcgmGpuIndices;
}.

Record EmitConfig := mkEmitConfig {
  ec_textfile_path : string;
  ec_ocsf_path : string;
  ec_ring_dir : string;
  ec_ocsf_enabled : bool;
  ec_audit_path : string;
  ec_audit_enabled : bool;
  ec_audit_rotate_bytes : Z;
  ec_audit_max_generations : Z;
}.

Record SchedulerConfig := mkSchedulerConfig {
  cfg_substrate : SubstrateConfig;
  cfg_emit : EmitConfig;
  cfg_thresholds : BackpressureThresholds;
  cfg_signer_kid : option string;
}.

Definition DEFAULT_TEXTFILE_PATH : string := "/var/lib/node_exporter/textfile_collector/selfdef-scheduler.prom".
Definition DEFAULT_OCSF_PATH : string := "/var/log/selfdef/scheduler.ocsf.jsonl".
Definition DEFAULT_RING_DIR : string := "/var/cache/selfdef/scheduler/ring".
Definition DEFAULT_DRIVER_AUDIT_PATH : string := "/var/log/selfdef/scheduler.driver.audit.jsonl".
Definition DEFAULT_AUDIT_LOG_PATH : string := "/mnt/vault/context/scheduler_audit.log".
Definition DEFAULT_CONFIG_PATH : string := "/etc/selfdef/scheduler.toml".

Definition substrate_default : SubstrateConfig :=
  mkSubstrateConfig "/proc/pressure" "nvidia-smi" "/var/lib/selfdef" sain01_baseline.
Definition emit_default : EmitConfig :=
  mkEmitConfig DEFAULT_TEXTFILE_PATH DEFAULT_OCSF_PATH DEFAULT_RING_DIR true DEFAULT_DRIVER_AUDIT_PATH true
    DEFAULT_ROTATE_BYTES (Z.of_nat DEFAULT_MAX_GENERATIONS).
Definition config_default : SchedulerConfig := mkSchedulerConfig substrate_default emit_default default_for_sain01 None.

Inductive ConfigError :=
| CIo (path source : string)
| CParse (path source : string)
| Validation (reason : string).

Definition threshold_fields (t : BackpressureThresholds) : list (string * f32) :=
  [("blackwell_vram_high", bt_blackwell_vram_high t); ("gpu3090_busy", bt_gpu3090_busy t);
   ("cpu_pressure", bt_cpu_pressure t); ("ram_pressure", bt_ram_pressure t); ("io_pressure", bt_io_pressure t)].

Definition path_fields (c : SchedulerConfig) : list (string * string) :=
  [("substrate.psi_dir", sc_psi_dir (cfg_substrate c)); ("substrate.nvidia_smi_bin", sc_nvidia_smi_bin (cfg_substrate c));
   ("substrate.state_root", sc_state_root (cfg_substrate c)); ("emit.textfile_path", ec_textfile_path (cfg_emit c));
   ("emit.ocsf_path", ec_ocsf_path (cfg_emit c)); ("emit.ring_dir", ec_ring_dir (cfg_emit c));
   ("emit.audit_path", ec_audit_path (cfg_emit c))].

Section config.
Context `{FloatText} (toml_parse : string -> result SchedulerConfig string).

Definition config_validate (c : SchedulerConfig) : result unit ConfigError :=
  match list_find (fun nv => unit_range nv.2 = false) (threshold_fields (cfg_thresholds c)) with
  | Some (_, (name, v)) =>
      Err (Validation ("thresholds." +:+ name +:+ " = " +:+ f_display v +:+ " outside [0.0, 1.0]"))
  | None =>
      let bytes := ec_audit_rotate_bytes (cfg_emit c) in
      let cap := ec_audit_max_generations (cfg_emit c) in
      if (bytes <? 1024)%Z
      then Err (Validation ("emit.audit_rotate_bytes = " +:+ show_uint bytes +:+ " < 1024 (would rotate every poll)"))
      else if (cap =? 0)%Z
      then Err (Validation ("emit.audit_max_generations = 0 (rotation disabled " +:+ "—" +:+ " set " +:+ "≥" +:+ "1)"))
      else if (100 <? cap)%Z
      then Err (Validation ("emit.audit_max_generations = " +:+ show_uint cap +:+ " > 100 (excessive)"))
      else match list_find (fun np => np.2 = "") (path_fields c) with
           | Some (_, (name, _)) => Err (Validation (name +:+ " is empty path"))
           | None => Ok tt
           end
  end.

Definition parse_str (path text : string) : result SchedulerConfig ConfigError :=
  let? cfg := map_err (CParse path) (toml_parse text) in
  let? _ := config_validate cfg in
  Ok cfg.

(** [file] is [None] when there is none. *)
Definition load_from (path : string) (file : option (result string string)) : result SchedulerConfig ConfigError :=
  match file with
  | None => Ok config_default
  | Some (Err e) => Err (CIo path e)
  | Some (Ok bytes) =>
      if utf8_valid bytes then parse_str path bytes
      else Err (Validation (path +:+ " contains non-UTF-8 bytes"))
  end.
End config.

(** ** Deciding and persisting: decide.rs *)

(** The files a decision is written to: the log at the path of the audit, the ring
    and the security log. *)
Record Files := mkFiles {
  fl_audit : Generations;
  fl_ring : Ring;
  fl_ocsf : option string;
}.

Record PersistIo := mkPersistIo {
  po_audit : LogIo;
  po_ring : RingIo;
  po_ocsf : LogIo;
  po_now_ms : Z;
}.

Definition set_current (file : option string) (gens : Generations) : Generations :=
  match file with Some text => <[0 := text]> gens | None => gens end.

Section persist.
Context `{WireFormat} `{Sha256} `{JsonText} `{DecisionText} `{FloatText}.

Definition decide_and_audit (io : LogIo) (r : DriverReading) (ctx : RequestContext) (file : option string) :
    result Decision SchedulerError * option string :=
  match decide_request r ctx with
  | Err e => (Err (InvalidDecision (mirror_error_display e)), file)
  | Ok d => let '(a, file) := emit_audit_entry io d file in (let? _ := a in Ok d, file)
  end.

Definition decide_and_persist (io : PersistIo) (r : DriverReading) (ctx : RequestContext) (max_entries : nat)
    (f : Files) : result Decision SchedulerError * Files :=
  match decide_and_audit (po_audit io) r ctx (fl_audit f !! 0) with
  | (Err e, file) => (Err e, mkFiles (set_current file (fl_audit f)) (fl_ring f) (fl_ocsf f))
  | (Ok d, file) =>
      let '(w, ring) := write_ring_buffer (po_ring io) d max_entries (fl_ring f) in
      (let? _ := w in Ok d, mkFiles (set_current file (fl_audit f)) ring (fl_ocsf f))
  end.

Definition decide_persist_and_emit (io : PersistIo) (r : DriverReading) (ctx : RequestContext) (max_entries : nat)
    (f : Files) : result Decision SchedulerError * Files :=
  match decide_and_persist io r ctx max_entries f with
  | (Err e, f) => (Err e, f)
  | (Ok d, f) =>
      let '(w, ocsf) := append_ocsf_jsonl (po_ocsf io) (render_decision_ocsf d (po_now_ms io)) (fl_ocsf f) in
      (let? _ := map_err SIo w in Ok d, mkFiles (fl_audit f) (fl_ring f) ocsf)
  end.
End persist.

(** ** The programs: bin/ *)

(** What the host answers: the pressure files, the runs of a command, the state
    directory and the clock in microseconds. *)
Record Host := mkHost {
  ho_psi_dir : string -> bool;
  ho_psi_files : string -> option (result string string);
  ho_smi : string -> nat -> SmiRun;
  ho_state : string -> option (result (list (result StateEntry string)) string);
  ho_now : Z;
}.

Definition env_path (env : string -> option string) (key default_path : string) : string :=
  default default_path (env key).

Record TaskInput := mkTaskInput {
  ti_request_id : option string;
  ti_profile : string;
  ti_latency : f32;
  ti_cost : f32;
  ti_risk : f32;
  ti_energy : f32;
}.

Definition parse_profile (s : string) : option Profile.t :=
  let l := to_ascii_lowercase s in
  if bool_decide (l = "fast") then Some Profile.Fast
  else if bool_decide (l = "careful") then Some Profile.Careful
  else if bool_decide (l = "private") then Some Profile.Private
  else if bool_decide (l = "autonomous") then Some Profile.Autonomous
  else if bool_decide (l = "experimental") then Some Profile.Experimental
  else if bool_decide (l = "production") then Some Profile.Production
  else None.

Section programs.
Context `{WireFormat} `{UnicodeTables} `{FloatText} `{JsonText} `{Sha256} `{DecisionText} `{DriverText}.
Context (toml_parse : string -> result SchedulerConfig string) (reading_text : DriverReading -> string).

(** Both one-shot programs make a new driver, with its default monitor and indices,
    and poll it once. *)
Definition one_shot_poll (env : string -> option string) (cfg : SchedulerConfig) (host : Host) : DriverReading :=
  let psi_dir := env_path env "SELFDEF_SCHEDULER_PSI_DIR" (sc_psi_dir (cfg_substrate cfg)) in
  let nvidia_smi := env_path env "SELFDEF_SCHEDULER_NVIDIA_SMI_BIN" (sc_nvidia_smi_bin (cfg_substrate cfg)) in
  let state_root := env_path env "SELFDEF_SCHEDULER_STATE_ROOT" (sc_state_root (cfg_substrate cfg)) in
  (poll (psi_read psi_dir (ho_psi_dir host psi_dir) (ho_psi_files host) (ho_now host))
     (dcgm_read nvidia_smi sain01_baseline (ho_smi host nvidia_smi) (ho_now host))
     (human_gate_read state_root (ho_state host state_root) (ho_now host)) (ho_now host) monitor_new).1.

Definition env_flag (env : string -> option string) (key : string) (default_flag : bool) : bool :=
  match env key with Some v => negb (bool_decide (v = "0")) | None => default_flag end.
Definition env_uint (max : Z) (env : string -> option string) (key : string) (default_n : Z) : Z :=
  default default_n (env key ≫= parse_uint max).

Record TextfileIo := mkTextfileIo {
  to_textfile_written : bool;
  to_ocsf : LogIo;
  to_audit : EmitIo;
  to_rotate : RotateIo;
  to_now_ms : Z;
}.

(** The poll of the timer: the exit code and the files. The chain entry is written,
    and the log rotated, only when the textfile was written. *)
Definition textfile_main (env : string -> option string) (config_file : string -> option (result string string))
    (host : Host) (io : TextfileIo) (f : Files) : Z * Files :=
  let config_path := env_path env "SELFDEF_SCHEDULER_CONFIG" DEFAULT_CONFIG_PATH in
  let cfg := match load_from toml_parse config_path (config_file config_path) with Ok c => c | Err _ => config_default end in
  let emit := cfg_emit cfg in
  let audit_path := env_path env "SELFDEF_SCHEDULER_AUDIT_PATH" (ec_audit_path emit) in
  let signer_kid := match env "SELFDEF_SCHEDULER_SIGNER_KID" with Some k => Some k | None => cfg_signer_kid cfg end in
  let reading := one_shot_poll env cfg host in
  if negb (to_textfile_written io) then (1%Z, f)
  else
    let ocsf :=
      if env_flag env "SELFDEF_SCHEDULER_OCSF_ENABLE" (ec_ocsf_enabled emit)
      then (append_ocsf_jsonl (to_ocsf io) (render_ocsf_event reading_text reading (to_now_ms io)) (fl_ocsf f)).2
      else fl_ocsf f in
    let audit :=
      if env_flag env "SELFDEF_SCHEDULER_AUDIT_ENABLE" (ec_audit_enabled emit)
      then
        let '(r, gens) := emit_driver_reading audit_path (to_audit io) reading signer_kid (fl_audit f) in
        match r with
        | Ok _ =>
            (rotate_audit_log audit_path (to_rotate io)
               (env_uint u64_max env "SELFDEF_SCHEDULER_AUDIT_ROTATE_BYTES" (ec_audit_rotate_bytes emit))
               (Z.to_nat (env_uint u32_max env "SELFDEF_SCHEDULER_AUDIT_MAX_GENERATIONS" (ec_audit_max_generations emit)))
               gens).2
        | Err _ => gens
        end
      else fl_audit f in
    (0%Z, mkFiles audit (fl_ring f) ocsf).

(** Deciding on one request: the exit code, what is printed and the files. The path
    of the audit is that of the log of readings. *)
Definition decide_main (env : string -> option string) (config_file : string -> option (result string string))
    (task_parse : string -> result TaskInput string) (input : result string string) (host : Host) (pid now_ms : Z)
    (io : PersistIo) (f : Files) : Z * option Decision * Files :=
  match input with
  | Err _ => (2%Z, None, f)
  | Ok raw =>
      match task_parse raw with
      | Err _ => (2%Z, None, f)
      | Ok task =>
          match parse_profile (ti_profile task) with
          | None => (2%Z, None, f)
          | Some profile =>
              let config_path := env_path env "SELFDEF_SCHEDULER_CONFIG" DEFAULT_CONFIG_PATH in
              let cfg := match load_from toml_parse config_path (config_file config_path) with
                         | Ok c => c | Err _ => config_default
                         end in
              let reading := one_shot_poll env cfg host in
              let ctx := mkRequestContext
                (default ("req-" +:+ show_uint now_ms +:+ "-" +:+ show_uint pid) (ti_request_id task)) profile
                (mkAxisSignals (ti_latency task) (ti_cost task) (ti_risk task) (ti_energy task) f_zero f_zero)
                DEFAULT_HUMAN_ATTENTION_QUEUE_CAP now_ms
                (match env "HOSTNAME" with Some (String a s) => String a s | _ => "localhost" end)
                (default "unsigned" (cfg_signer_kid cfg)) in
              match decide_persist_and_emit io reading ctx DEFAULT_RING_MAX_ENTRIES f with
              | (Ok d, f) => (0%Z, Some d, f)
              | (Err _, f) => (1%Z, None, f)
              end
          end
      end
  end.

(** *** The heartbeat *)

Definition psi_token_avg10 (token : string) : option f32 := strip_prefix "avg10=" token ≫= f_parse.

Definition psi_line_avg10 (line : string) : option f32 :=
  rest ← strip_prefix "some " line; head (omap psi_token_avg10 (split_whitespace rest)).

Definition clamp_unit (v : f32) : f32 := f_clamp v f_zero f_one.

Definition read_psi_avg10 (file : option string) : f32 :=
  match file with
  | None => f_zero
  | Some text => match head (omap psi_line_avg10 (str_lines text)) with
                 | Some v => clamp_unit (f_div v (f_lit 100 0))
                 | None => f_zero
                 end
  end.

Definition read_psi (files : string -> option string) : ResourceMeasurements :=
  mkResourceMeasurements f_zero f_zero (read_psi_avg10 (files "/proc/pressure/cpu"))
    (read_psi_avg10 (files "/proc/pressure/memory")) (read_psi_avg10 (files "/proc/pressure/io")) 0.

Record Heartbeat := mkHeartbeat {
  hb_tick_count : Z;
  hb_monitor : BackpressureMonitor;
  hb_ring : Ring;
  hb_audit : option string;
}.

Record HeartbeatIo := mkHeartbeatIo {
  bi_files : string -> option string;
  bi_ring_write : result unit (string * option nat);
  bi_listing : result (list string) string;
  bi_removed : string -> bool;
  bi_audit : LogIo;
  bi_now_ms : Z;
}.

Definition heartbeat_name (tick : Z) : string := "heartbeat-" +:+ show_uint tick +:+ ".json".

Definition heartbeat_decision (hostname signer_kid : string) (tick now_ms : Z) (m : ResourceMeasurements)
    (bp : BackpressureState) : Decision :=
  let signals := mkAxisSignals (clamp_unit (f_sub f_one (rm_cpu_psi m))) f_one f_one
    (clamp_unit (f_sub f_one (rm_gpu3090_util m))) f_one
    (clamp_unit (f_sub f_one (f_div (f_of_uint (pressure_count bp)) (f_lit 6 0)))) in
  decision_new ("heartbeat-" +:+ show_uint tick) Profile.Careful Route.Cpu (evaluate_objective signals Profile.Careful) bp
    now_ms hostname signer_kid
    ("heartbeat tick=" +:+ show_uint tick +:+ " backpressure=" +:+ show_uint (pressure_count bp)).

(** One turn of the loop. A write that fails before the file is made leaves the ring,
    a later failure a part of the text. *)
Definition heartbeat_tick (hostname signer_kid : string) (io : HeartbeatIo) (s : Heartbeat) : Heartbeat :=
  let tick := (hb_tick_count s + 1)%Z in
  let measurements := read_psi (bi_files io) in
  let '(bp, monitor) := monitor_update measurements (hb_monitor s) in
  let d := heartbeat_decision hostname signer_kid tick (bi_now_ms io) measurements bp in
  let text := match bi_ring_write io with
              | Ok _ => Some (decision_text d)
              | Err (_, n) => (fun n => str_prefix n (decision_text d)) <$> n
              end in
  let ring := match text with Some t => <[heartbeat_name tick := mkRingFile t (bi_now_ms io)]> (hb_ring s)
                            | None => hb_ring s end in
  let ring := (evict_old_ring_entries (bi_listing io) (bi_removed io) 256 ring).2 in
  mkHeartbeat tick monitor ring (emit_audit_entry (bi_audit io) d (hb_audit s)).2.
End programs.
