(* ===== verification/SchedulerLogProps.v ===== *)
(** * Properties of the scheduler's logs, ring and programs

    The rotated log of readings verifies across its generations whatever the order of
    emissions, rotations and failures; a replay of the log reproduces the monitor that
    wrote it; the ring keeps the last decisions. Then what the programs do to these
    logs together. *)

From S2P Require Import Prelude Core F32 Guardian GuardianProps Scheduler SchedulerProps SchedulerLog SchedulerRun.
From stdpp Require Import options.

(** ** Files made of whole lines *)

Definition good_line (l : string) : Prop := no_nl l = true /\ blank l = false /\ strip_cr l = l.

Fixpoint render (ls : list string) : string :=
  match ls with [] => "" | l :: ls => (l +:+ newline) +:+ render ls end.

Lemma render_snoc ls l : render (ls ++ [l]) = render ls +:+ (l +:+ newline).
Proof.
  induction ls as [|x ls IH]; cbn [render app]; [rewrite str_app_nil_r; reflexivity|]. by rewrite IH, !str_app_assoc.
Qed.

Lemma render_ended ls : ended (render ls).
Proof.
  destruct ls as [|l ls _] using rev_ind; [by left|]. right. rewrite render_snoc. eexists.
  by rewrite str_app_assoc.
Qed.

Lemma render_lines ls : Forall good_line ls -> str_lines (render ls) = ls.
Proof.
  induction ls as [|l ls IH] using rev_ind; [done|]. intros [Hls Hl]%Forall_app.
  apply Forall_cons in Hl as [(? & _ & ?) _]. rewrite render_snoc. unfold newline.
  change (String "010" "") with (String nl ""). rewrite str_lines_snoc by (done || apply render_ended). by rewrite IH.
Qed.

Lemma good_not_blank ls : Forall good_line ls -> filter (fun l => blank l = false) ls = ls.
Proof. intros Hg. apply filter_all. eapply Forall_impl; [exact Hg|]. by intros l (_ & ? & _). Qed.

(** ** Generations as one sequence *)

(** The lines of the generations [k + m - 1] down to [k], oldest first. *)
Fixpoint stack (A : nat -> list string) (k m : nat) : list string :=
  match m with O => [] | S m => stack A (S k) m ++ A k end.

Lemma stack_split A k a b : stack A k (a + b) = stack A (k + a) b ++ stack A k a.
Proof.
  revert k. induction a as [|a IH]; intros k; simpl; [by rewrite Nat.add_0_r, app_nil_r|].
  rewrite IH, Nat.add_succ_r. by rewrite app_assoc.
Qed.

Lemma stack_ext A B k m : (forall i, k <= i < k + m -> A i = B i) -> stack A k m = stack B k m.
Proof.
  revert k. induction m as [|m IH]; intros k Hab; [done|]. simpl. rewrite (Hab k) by lia.
  rewrite (IH (S k)); [done|]. intros i ?. apply Hab. lia.
Qed.

Lemma stack_nil A k m : (forall i, k <= i < k + m -> A i = []) -> stack A k m = [].
Proof.
  intros Ha. rewrite (stack_ext A (fun _ => [])) by done. clear Ha. revert k.
  induction m as [|m IH]; intros k; [done|]. simpl. by rewrite IH.
Qed.

(** The files up to generation [g] hold the lines [ls], and there is no other. *)
Definition holds (g : nat) (gens : Generations) (ls : list string) : Prop :=
  exists A : nat -> list string,
    (forall n, match gens !! n with Some text => text = render (A n) | None => A n = [] end) /\
    (forall n, Forall good_line (A n)) /\ (forall n, g < n -> gens !! n = None) /\ stack A 0 (S g) = ls.

Lemma holds_nothing g : holds g ∅ [].
Proof.
  exists (fun _ => []). split_and!; [intros n; by rewrite lookup_empty|done|intros; apply lookup_empty|by apply stack_nil].
Qed.

Definition put (A : nat -> list string) (n : nat) (ls : list string) : nat -> list string :=
  fun i => if bool_decide (i = n) then ls else A i.

Lemma put_at A n ls : put A n ls n = ls.
Proof. unfold put. by rewrite bool_decide_true. Qed.
Lemma put_other A n m ls : m <> n -> put A n ls m = A m.
Proof. intros. unfold put. by rewrite bool_decide_false. Qed.

Lemma holds_move g gens ls n text :
  holds g gens ls -> n < g -> gens !! S n = None -> gens !! n = Some text ->
  holds g (<[S n := text]> (delete n gens)) ls.
Proof.
  intros (A & Ha & Hg & Hd & Hs) Hn H1 H0. exists (put (put A n []) (S n) (A n)). split_and!.
  - intros i. pose proof (Ha n) as Hn'. rewrite H0 in Hn'. destruct (decide (i = S n)) as [->|Hi].
    + by rewrite lookup_insert_eq, put_at.
    + rewrite lookup_insert_ne, put_other by done. destruct (decide (i = n)) as [->|Hi'].
      * by rewrite lookup_delete_eq, put_at.
      * rewrite lookup_delete_ne, put_other by done. apply Ha.
  - intros i. unfold put. repeat case_bool_decide; auto.
  - intros i Hi. rewrite lookup_insert_ne, lookup_delete_ne by lia. auto.
  - rewrite <-Hs. pose proof (Ha (S n)) as Hs1. rewrite H1 in Hs1.
    replace (S g) with (n + (2 + (g - S n))) by lia.
    rewrite !(stack_split _ 0), !(stack_split _ (0 + n) 2). f_equal; [f_equal|].
    + apply stack_ext. intros i ?. rewrite !put_other by lia. done.
    + simpl. rewrite put_at, put_other, put_at by lia. by rewrite Hs1, app_nil_r.
    + apply stack_ext. intros i ?. rewrite !put_other by lia. done.
Qed.

Lemma holds_drop g gens ls text0 :
  holds g gens ls -> 0 < g -> gens !! 0 = Some text0 -> 0 < String.length text0 ->
  exists ls', holds g (delete g gens) ls' /\ ls' `suffix_of` ls /\ ls' <> [].
Proof.
  intros (A & Ha & Hg & Hd & Hs) Hn H0 Ht. exists (stack A 0 g). split_and!.
  - exists (put A g []). split_and!.
    + intros i. destruct (decide (i = g)) as [->|Hi]; [by rewrite lookup_delete_eq, put_at|].
      rewrite lookup_delete_ne, put_other by done. apply Ha.
    + intros i. unfold put. case_bool_decide; auto.
    + intros i Hi. rewrite lookup_delete_ne by lia. auto.
    + replace (S g) with (g + 1) by lia. rewrite stack_split. simpl. rewrite put_at. simpl.
      apply stack_ext. intros i ?. apply put_other. lia.
  - exists (A g). rewrite <-Hs. replace (S g) with (g + 1) by lia. by rewrite stack_split.
  - destruct g as [|g]; [lia|]. simpl. pose proof (Ha 0) as Ha0. rewrite H0 in Ha0. subst text0.
    destruct (A 0); [simpl in Ht; lia|]. by destruct (stack A 1 g).
Qed.

Lemma holds_create g gens ls : holds g gens ls -> gens !! 0 = None -> holds g (<[0 := ""]> gens) ls.
Proof.
  intros (A & Ha & Hg & Hd & Hs) H0. exists A. split_and!; try done.
  - intros n. destruct (decide (n = 0)) as [->|]; [|rewrite lookup_insert_ne by done; apply Ha].
    rewrite lookup_insert_eq. specialize (Ha 0). rewrite H0 in Ha. by rewrite Ha.
  - intros n Hn. rewrite lookup_insert_ne by lia. auto.
Qed.

Lemma holds_append g gens ls l :
  holds g gens ls -> good_line l ->
  holds g (<[0 := default "" (gens !! 0) +:+ l +:+ newline]> gens) (ls ++ [l]).
Proof.
  intros (A & Ha & Hg & Hd & Hs) Hl. exists (put A 0 (A 0 ++ [l])). split_and!.
  - intros n. destruct (decide (n = 0)) as [->|]; [|rewrite lookup_insert_ne, put_other by done; apply Ha].
    rewrite lookup_insert_eq, put_at, render_snoc. f_equal. specialize (Ha 0).
    destruct (gens !! 0); simpl; [done|by rewrite Ha].
  - intros n. unfold put. case_bool_decide; [|auto]. apply Forall_app; auto.
  - intros n Hn. rewrite lookup_insert_ne by lia. auto.
  - rewrite <-Hs. simpl. rewrite put_at, app_assoc. f_equal. f_equal. apply stack_ext. intros i ?. apply put_other. lia.
Qed.

Lemma holds_good g gens ls : holds g gens ls -> Forall good_line ls.
Proof.
  intros (A & _ & Hg & _ & <-). generalize 0 as k, (S g) as m. intros k m. revert k.
  induction m as [|m IH]; intros k; simpl; [done|]. apply Forall_app; auto.
Qed.

(** ** The chain of readings *)

(** serde_json: the text of an entry is one line that is not blank and does not end
    in a carriage return; an entry with finite floats is read back as it was; and an
    object without a reading is refused. *)
Definition f_finite (x : f32) : bool := match x with S754_nan | S754_infinity _ => false | _ => true end.
Definition finite_reading (r : DriverReading) : Prop :=
  let m := rd_measurements r in
  Forall (fun x => f_finite x = true)
    [rm_blackwell_vram_util m; rm_gpu3090_util m; rm_cpu_psi m; rm_mem_psi m; rm_io_psi m].

Class DriverTextLaws `{WireFormat} `{DriverText} : Prop := {
  entry_good e : good_line (entry_text e);
  entry_read_back e : finite_reading (da_reading e) -> entry_parse (entry_text e) = Ok e;
  entry_needs_reading fields :
    assoc "reading" fields = None -> is_ok (entry_parse (json_to_string (JObject fields))) = false;
}.

#[local] Arguments last_line_sha256 : simpl never.

Section chain.
Context `{Sha256} `{DriverText}.

Fixpoint dlinked (ls : list string) (prev : option string) : Prop :=
  match ls with
  | [] => True
  | l :: ls => (exists e, entry_parse l = Ok e /\ da_prev_event_sha256 e = prev) /\ dlinked ls (Some (sha256_hex l))
  end.

Definition sha_last (ls : list string) (prev : option string) : option string :=
  match last ls with Some l => Some (sha256_hex l) | None => prev end.

Lemma sha_last_app a b prev : sha_last (a ++ b) prev = sha_last b (sha_last a prev).
Proof. unfold sha_last. rewrite last_app. by destruct (last b). Qed.

Lemma sha_last_cons l ls prev : sha_last (l :: ls) prev = sha_last ls (Some (sha256_hex l)).
Proof. exact (sha_last_app [l] ls prev). Qed.

Lemma dlinked_app a b prev : dlinked (a ++ b) prev <-> dlinked a prev /\ dlinked b (sha_last a prev).
Proof.
  revert prev. induction a as [|l a IH]; intros prev; [simpl; tauto|].
  rewrite sha_last_cons. cbn [app dlinked]. rewrite IH. tauto.
Qed.

Lemma last_line_render ls : Forall good_line ls -> last_line_sha256 (Some (render ls)) = sha_last ls None.
Proof.
  intros Hg. unfold last_line_sha256. cbn [mbind option_bind]. rewrite render_lines, good_not_blank by done. unfold sha_last.
  by destruct (last ls).
Qed.

Lemma probe_stack base read gens A k m :
  (forall n, match gens !! n with Some text => text = render (A n) | None => A n = [] end) ->
  (forall n, Forall good_line (A n)) ->
  match probe_generations base read gens (seq k m) with Ok p => p = sha_last (stack A k m) None | Err _ => True end.
Proof.
  intros Ha Hg. revert k. induction m as [|m IH]; intros k; [done|]. simpl. pose proof (Ha k) as Hk.
  destruct (gens !! k) as [text|]; [|rewrite Hk, app_nil_r; apply IH]. subst text.
  destruct (read k); simpl; [|done]. rewrite last_line_render, sha_last_app by done.
  unfold sha_last at 1. destruct (last (A k)) as [l|] eqn:El; simpl.
  - unfold sha_last. by rewrite El.
  - apply last_None in El. rewrite El. apply IH.
Qed.

Lemma holds_sha base read g gens ls :
  holds g gens ls -> g <= DEFAULT_MAX_GENERATIONS ->
  match last_sha256_of base read gens with Ok p => p = sha_last ls None | Err _ => True end.
Proof.
  intros (A & Ha & Hg & Hd & <-) Hle. unfold last_sha256_of.
  replace (stack A 0 (S g)) with (stack A 0 (S DEFAULT_MAX_GENERATIONS)); [by apply probe_stack|].
  replace (S DEFAULT_MAX_GENERATIONS) with (S g + (DEFAULT_MAX_GENERATIONS - g)) by lia.
  rewrite (stack_split _ 0 (S g)), (stack_nil A (0 + S g)); [done|].
  intros i Hi. specialize (Ha i). by rewrite Hd in Ha by lia.
Qed.

(** *** Verification *)

Definition stamp (l : string) : option Z :=
  match entry_parse l with Ok e => Some (da_captured_at_unix_micros e) | Err _ => None end.

(** The statistics after more lines. *)
Definition add_stats (st : ChainStats) (ls : list string) : ChainStats :=
  mkChainStats (cs_event_count st + length ls)
    (match cs_first_ts_unix_micros st with None => head ls ≫= stamp | first => first end)
    (match last ls with Some l => stamp l | None => cs_last_ts_unix_micros st end)
    (sha_last ls (cs_last_sha256 st)).

Lemma verify_lines_linked n ls accept first st prev :
  Forall good_line ls -> dlinked ls prev ->
  cs_last_sha256 st = prev \/ (cs_last_sha256 st = None /\ accept = true) ->
  verify_lines n ls accept first st = Ok (add_stats st ls).
Proof.
  intros Hg. revert n first st prev. induction Hg as [|l ls (_ & Hb & _) _ IH]; intros n first st prev Hl Hp.
  { unfold add_stats, sha_last. simpl. rewrite Nat.add_0_r. destruct st as [c [|] t s]; done. }
  destruct Hl as [(e & He & Hprev) Hl]. cbn [verify_lines]. rewrite Hb, He. cbn [map_err result_bind].
  assert (Hc : check_entry n (cs_last_sha256 st) first accept e = Ok tt).
  { unfold check_entry. rewrite Hprev. destruct Hp as [->|[-> ->]].
    - destruct prev; [by rewrite bool_decide_true|done].
    - destruct prev; [by rewrite andb_false_r|done]. }
  rewrite Hc. cbn [result_bind]. erewrite IH; [|exact Hl|by left]. unfold add_stats. cbn [cs_event_count cs_first_ts_unix_micros
    cs_last_ts_unix_micros cs_last_sha256 length head]. rewrite sha_last_cons. f_equal. f_equal.
  - lia.
  - unfold stamp. simpl. rewrite He. by destruct (cs_first_ts_unix_micros st).
  - rewrite last_cons. unfold stamp. destruct (last ls); [done|]. by rewrite He.
Qed.

Lemma verify_text_linked ls accept expected prev :
  Forall good_line ls -> dlinked ls prev -> expected = prev \/ (expected = None /\ accept = true) ->
  verify_chain_text (render ls) expected accept = Ok (add_stats (mkChainStats 0 None None expected) ls).
Proof. intros Hg Hl Hp. unfold verify_chain_text. rewrite render_lines by done. by eapply verify_lines_linked. Qed.

Definition anchored (o : ChainStats) : bool := negb (bool_decide (cs_event_count o = 0)).

Lemma verify_files_app base read a b o :
  verify_files base read (a ++ b) o (cs_last_sha256 o) (anchored o) =
  let? o := verify_files base read a o (cs_last_sha256 o) (anchored o) in
  verify_files base read b o (cs_last_sha256 o) (anchored o).
Proof.
  revert o. induction a as [|[n text] a IH]; intros o; [done|]. simpl. destruct (read n); [|done]. simpl.
  destruct (verify_chain_text _ _ _) as [st|]; [|done]. simpl. case_bool_decide as Hc; [apply IH|].
  set (o' := mkChainStats _ _ _ _). specialize (IH o').
  replace (anchored o') with true in IH; [exact IH|].
  unfold anchored, o'. simpl. by rewrite bool_decide_false by lia.
Qed.

Lemma add_stats_app a b :
  b <> [] ->
  let o := add_stats cs_empty a in let st := add_stats (mkChainStats 0 None None (cs_last_sha256 o)) b in
  mkChainStats (cs_event_count o + cs_event_count st)
    (if bool_decide (cs_event_count o = 0) then cs_first_ts_unix_micros st else cs_first_ts_unix_micros o)
    (cs_last_ts_unix_micros st) (cs_last_sha256 st) = add_stats cs_empty (a ++ b).
Proof.
  intros Hb. unfold add_stats. simpl. rewrite length_app, sha_last_app. f_equal.
  - destruct a; [done|]. by rewrite bool_decide_false.
  - rewrite last_app. destruct (last b) eqn:E; [done|]. by apply last_None in E.
Qed.

Definition files (gens : Generations) (k m : nat) : list (nat * string) :=
  omap (fun n => pair n <$> gens !! n) (reverse (seq k m)).

Lemma verify_stack base gens A k m prev :
  (forall n, match gens !! n with Some text => text = render (A n) | None => A n = [] end) ->
  (forall n, Forall good_line (A n)) -> dlinked (stack A k m) prev ->
  verify_files base (fun _ => Ok tt) (files gens k m) cs_empty None false = Ok (add_stats cs_empty (stack A k m)).
Proof.
  intros Ha Hg. revert k. induction m as [|m IH]; intros k Hl; [done|]. cbn [stack] in *.
  apply dlinked_app in Hl as [Ho Hl]. unfold files. cbn [seq]. rewrite reverse_cons, omap_app.
  fold (files gens (S k) m). change None with (cs_last_sha256 cs_empty). change false with (anchored cs_empty).
  rewrite verify_files_app. cbn [anchored cs_last_sha256 cs_empty]. change (anchored cs_empty) with false.
  rewrite (IH (S k) Ho). cbn [result_bind]. set (o := add_stats cs_empty (stack A (S k) m)). simpl.
  pose proof (Ha k) as Hk. destruct (gens !! k) as [text|]; simpl; [|by rewrite Hk, app_nil_r]. subst text.
  rewrite (verify_text_linked (A k) _ _ (sha_last (stack A (S k) m) prev)); [|done..|].
  - cbn [result_bind]. case_bool_decide as Hc.
    + change (length (A k) = 0) in Hc. apply nil_length_inv in Hc. by rewrite Hc, app_nil_r.
    + f_equal. apply (add_stats_app (stack A (S k) m) (A k)).
      intros E. apply Hc. change (length (A k) = 0). by rewrite E.
  - unfold o, anchored, add_stats, sha_last. simpl. destruct (last (stack A (S k) m)) eqn:E; [by left|].
    apply last_None in E. rewrite E. by right.
Qed.

Lemma holds_verify base g gens ls :
  holds g gens ls -> (exists prev, dlinked ls prev) ->
  verify_chain_across_generations base (fun _ => Ok tt) g gens = Ok (add_stats cs_empty ls).
Proof.
  intros (A & Ha & Hg & _ & <-) [prev Hl]. unfold verify_chain_across_generations, oldest_first.
  exact (verify_stack base gens A 0 (S g) prev Ha Hg Hl).
Qed.
End chain.

(** ** Emissions and rotations in any order *)

Section rotation.
Context `{WireFormat} `{Sha256} `{DriverText} (base : string) (g : nat).

Inductive AuditOp :=
| Emit (io : EmitIo) (r : DriverReading) (kid : option string)
| Rotate (io : RotateIo) (max_bytes : Z).

Definition audit_op (op : AuditOp) (gens : Generations) : Generations :=
  match op with
  | Emit io r kid => (emit_driver_reading base io r kid gens).2
  | Rotate io max_bytes => (rotate_audit_log base io max_bytes g gens).2
  end.

Definition entry_of (r : DriverReading) (kid prev : option string) : DriverAuditEntry :=
  mkDriverAuditEntry DRIVER_AUDIT_SCHEMA_VERSION (rd_captured_at_unix_micros r) r kid prev.

(** The line that an operation appends to the current file, if it does. *)
Definition appended (op : AuditOp) (gens : Generations) : list string :=
  match op with
  | Emit io r kid =>
      match li_mkdir (ei_log io), last_sha256_of base (ei_read io) gens, li_open (ei_log io), li_write (ei_log io) with
      | Ok _, Ok prev, Ok _, Ok _ => [entry_text (entry_of r kid prev)]
      | _, _, _, _ => []
      end
  | Rotate _ _ => []
  end.

(** The files, and every line that was ever appended. *)
Definition audit_step (st : Generations * list string) (op : AuditOp) : Generations * list string :=
  (audit_op op st.1, st.2 ++ appended op st.1).
Definition audit_run (ops : list AuditOp) : Generations * list string := foldl audit_step (∅, []) ops.

(** No write is torn, readings are finite, an empty file is not rotated. *)
Definition op_ok (op : AuditOp) : Prop :=
  match op with
  | Emit io r _ => untorn (ei_log io) /\ finite_reading r
  | Rotate _ max_bytes => (0 < max_bytes)%Z
  end.

Definition kept_chain (gens : Generations) (hist kept : list string) : Prop :=
  holds g gens kept /\ kept `suffix_of` hist /\ (hist = [] \/ kept <> []) /\ dlinked hist None.

Context `{!DriverTextLaws}.
#[local] Set Default Proof Using "Type*".

Lemma kept_sha hist kept : kept `suffix_of` hist -> hist = [] \/ kept <> [] -> sha_last hist None = sha_last kept None.
Proof using Type.
  intros [x ->] [Hn|Hn].
  - apply app_nil in Hn as [-> ->]. done.
  - rewrite sha_last_app. unfold sha_last at 1 3. destruct (last kept) eqn:E; [done|]. by apply last_None in E.
Qed.

Lemma dlinked_snoc hist r kid : finite_reading r -> dlinked hist None ->
  dlinked (hist ++ [entry_text (entry_of r kid (sha_last hist None))]) None.
Proof.
  intros Hf Hd. apply dlinked_app. split; [done|]. cbn [dlinked]. split; [|done].
  eexists. split; [by apply entry_read_back|done].
Qed.

Lemma suffix_snoc (hist kept : list string) l : kept `suffix_of` hist -> kept ++ [l] `suffix_of` hist ++ [l].
Proof using Type. intros [x ->]. exists x. by rewrite app_assoc. Qed.

Lemma emit_kept io r kid gens hist kept :
  g <= DEFAULT_MAX_GENERATIONS -> op_ok (Emit io r kid) -> kept_chain gens hist kept ->
  exists kept', kept_chain (audit_op (Emit io r kid) gens) (hist ++ appended (Emit io r kid) gens) kept'.
Proof.
  intros Hg [Hu Hf] (Hh & Hs & Hn & Hd). unfold audit_op, appended, emit_driver_reading.
  assert (Hsame : exists kept', kept_chain gens (hist ++ []) kept') by (exists kept; by rewrite app_nil_r).
  destruct (li_mkdir (ei_log io)); [|done].
  pose proof (holds_sha base (ei_read io) g gens kept Hh Hg) as Hp.
  destruct (last_sha256_of base (ei_read io) gens) as [prev|]; [|done]. subst prev.
  unfold append_line, untorn in *. destruct (li_open (ei_log io)); [|by destruct (gens !! 0) eqn:E; simpl; rewrite ?insert_id].
  destruct (li_write (ei_log io)) as [|[e [|]]]; [|simpl|done].
  - fold (entry_of r kid (sha_last kept None)). rewrite <-(kept_sha hist kept) by done.
    exists (kept ++ [entry_text (entry_of r kid (sha_last hist None))]). split_and!.
    + apply holds_append; [done|apply entry_good].
    + by apply suffix_snoc.
    + right. by destruct kept.
    + by apply dlinked_snoc.
  - rewrite app_nil_r, str_app_nil_r. exists kept. split; [|done].
    destruct (gens !! 0) eqn:E; simpl; [by rewrite insert_id|by apply holds_create].
Qed.

Lemma shift_holds io n gens ls :
  n < g -> gens !! S n = None -> holds g gens ls ->
  holds g (shift_generations base io n gens).2 ls /\
  (shift_generations base io n gens).2 !! 0 = gens !! 0 /\
  ((shift_generations base io n gens).1 = Ok tt -> (shift_generations base io n gens).2 !! 1 = None).
Proof using Type.
  revert gens. induction n as [|n IH]; intros gens Hn Hhole Hh; [done|]. cbn [shift_generations].
  destruct (gens !! S n) as [text|] eqn:E; [|by apply IH; [lia|..]].
  destruct (ri_rename io (S n)); [|done].
  destruct (IH (<[S (S n) := text]> (delete (S n) gens))) as (Hs1 & Hs2 & Hs3); [lia| |by apply holds_move|].
  - by rewrite lookup_insert_ne, lookup_delete_eq by lia.
  - split; [done|]. split; [|done]. rewrite Hs2. by rewrite lookup_insert_ne, lookup_delete_ne by lia.
Qed.

Lemma drop_kept io gens kept text :
  0 < g -> holds g gens kept -> gens !! 0 = Some text -> 0 < String.length text ->
  let '(r, gens') := drop_oldest base io g gens in
  exists ls, holds g gens' ls /\ ls `suffix_of` kept /\ ls <> [] /\ gens' !! 0 = Some text /\
    (r = Ok tt -> gens' !! g = None).
Proof using Type.
  intros Hg Hh E0 Hlen. destruct (holds_drop g gens kept text Hh Hg E0 Hlen) as (ls & Hl1 & Hl2 & Hl3).
  assert (Hk : kept <> []) by (intros ->; destruct Hl2 as [x Hx]; symmetry in Hx; by apply app_nil in Hx as [_ ->]).
  unfold drop_oldest. destruct g as [|g'] eqn:Eg; [lia|]. rewrite <-Eg in *.
  destruct (gens !! g) eqn:E1; [destruct (ri_remove io)|].
  - exists ls. rewrite lookup_delete_ne, lookup_delete_eq by lia. done.
  - exists kept. split_and!; done.
  - exists kept. split_and!; done.
Qed.

Lemma rotate_kept io max_bytes gens hist kept :
  0 < g -> (0 < max_bytes)%Z -> kept_chain gens hist kept ->
  exists kept', kept_chain (rotate_audit_log base io max_bytes g gens).2 hist kept' /\
    ((rotate_audit_log base io max_bytes g gens).1 = Ok true ->
     kept' <> [] /\ (rotate_audit_log base io max_bytes g gens).2 !! 0 = Some "").
Proof using Type.
  intros Hg Hb (Hh & Hs & Hn & Hd). unfold rotate_audit_log.
  assert (Hsame : kept_chain gens hist kept) by done.
  destruct (gens !! 0) as [text|] eqn:E0; [|by exists kept]. destruct (ri_metadata io); [|by exists kept].
  case_match eqn:Hlen; [by exists kept|]. clear Hsame. apply Z.ltb_ge in Hlen.
  pose proof (drop_kept io gens kept text Hg Hh E0 ltac:(lia)) as Hdrop.
  destruct (drop_oldest base io g gens) as [r gens1]. destruct Hdrop as (ls & Hl1 & Hl2 & Hl3 & Hl4 & Hl5).
  assert (Hls : ls `suffix_of` hist) by (by etrans).
  destruct r as [[]|e]; simpl in *; [|by exists ls; split; [split_and!; auto|]].
  destruct (shift_holds io (g - 1) gens1 ls) as (Hm1 & Hm2 & Hm3); [lia|replace (S (g - 1)) with g by lia; auto|done|].
  destruct (shift_generations base io (g - 1) gens1) as [[[]|e] gens2]; simpl in *; [|by exists ls; split; [split_and!; auto|]].
  destruct (ri_rename io 0); [|by exists ls; split; [split_and!; auto|]].
  assert (Hmv : holds g (<[1:=text]> (delete 0 gens2)) ls).
  { apply holds_move; [done|lia|auto|]. by rewrite Hm2. }
  destruct (ri_create io); [|by exists ls; split; [split_and!; auto|]]. exists ls. split; [split_and!; auto|].
  - apply holds_create; [done|]. by rewrite lookup_insert_ne, lookup_delete_eq by lia.
  - intros _. split; [done|]. cbn [snd]. by rewrite lookup_insert_eq.
Qed.

Lemma run_kept ops : 0 < g <= DEFAULT_MAX_GENERATIONS -> Forall op_ok ops ->
  exists kept, kept_chain (audit_run ops).1 (audit_run ops).2 kept.
Proof.
  intros Hg Hok. unfold audit_run. induction ops as [|op ops IH] using rev_ind.
  { exists []. simpl. split_and!; [apply holds_nothing|done|by left|done]. }
  rewrite foldl_snoc. apply Forall_app in Hok as [Hok Hop]. apply Forall_cons in Hop as [Hop _].
  destruct (IH Hok) as [kept Hk]. destruct (foldl audit_step (∅, []) ops) as [gens hist]. simpl in *.
  destruct op as [io r kid|io max_bytes].
  - apply emit_kept with kept; [lia|done|done].
  - rewrite app_nil_r. destruct (rotate_kept io max_bytes gens hist kept) as (kept' & Hk' & _); eauto. lia.
Qed.

(** C27: the rotated log of readings verifies. Start without files and run any emissions
    and rotations, in any order, with any failures of the file system that do not tear a
    line. Verifying across the generations succeeds. What the files hold is an
    unbroken tail of everything that was ever appended, the last entry included, and
    it is what the verifier counts. *)
Theorem rotated_log_verifies ops :
  0 < g <= DEFAULT_MAX_GENERATIONS -> Forall op_ok ops ->
  let '(gens, hist) := audit_run ops in
  exists stats kept,
    verify_chain_across_generations base (fun _ => Ok tt) g gens = Ok stats /\
    holds g gens kept /\ kept `suffix_of` hist /\ (hist = [] \/ kept <> []) /\
    cs_event_count stats = length kept /\ cs_last_sha256 stats = sha_last hist None /\
    cs_last_ts_unix_micros stats = last hist ≫= stamp.
Proof.
  intros Hg Hok. destruct (run_kept ops Hg Hok) as [kept (Hh & Hs & Hn & Hd)].
  destruct (audit_run ops) as [gens hist]. cbn [fst snd] in *. exists (add_stats cs_empty kept), kept.
  pose proof Hs as [x Hx]. split_and!; try done.
  - apply holds_verify; [done|]. exists (sha_last x None). rewrite Hx in Hd. by apply dlinked_app in Hd as [_ Hd].
  - symmetry. by apply kept_sha.
  - rewrite Hx, last_app. simpl. destruct (last kept) eqn:E; [done|]. apply last_None in E as ->.
    destruct Hn as [Hn|Hn]; [|done]. rewrite Hn in Hx. symmetry in Hx. by apply app_nil in Hx as [-> _].
Qed.

(** The current file alone does not: once the log has been rotated, the next entry
    names the one before it, and verifying the current file reports a break. *)
Theorem current_file_breaks ops io max_bytes io' r kid gens1 e gens2 :
  0 < g <= DEFAULT_MAX_GENERATIONS -> Forall op_ok ops -> (0 < max_bytes)%Z -> op_ok (Emit io' r kid) ->
  rotate_audit_log base io max_bytes g (audit_run ops).1 = (Ok true, gens1) ->
  emit_driver_reading base io' r kid gens1 = (Ok e, gens2) ->
  verify_chain base (Ok tt) gens2 =
    Err (DChainBreak 1 "prev_event_sha256 present on genesis entry (expected None)").
Proof.
  intros Hg Hok Hb [_ Hf] Hr He. destruct (run_kept ops Hg Hok) as [kept Hk].
  destruct (rotate_kept io max_bytes _ _ _ ltac:(lia) Hb Hk) as (kept' & (Hh & _) & Ht). rewrite Hr in Hh, Ht.
  destruct (Ht eq_refl) as [Hn Hz]. cbn [fst snd] in *. unfold emit_driver_reading in He.
  destruct (li_mkdir (ei_log io')); [|done].
  pose proof (holds_sha base (ei_read io') g gens1 kept' Hh ltac:(lia)) as Hp.
  destruct (last_sha256_of base (ei_read io') gens1) as [prev|]; [|done]. subst prev.
  rewrite Hz in He. unfold append_line in He. destruct (li_open (ei_log io')); [|done].
  destruct (li_write (ei_log io')) as [|[]]; [|done]. destruct (li_sync (ei_log io')); [|done].
  fold (entry_of r kid (sha_last kept' None)) in He. simplify_eq. unfold verify_chain. rewrite lookup_insert_eq.
  cbn [map_err result_bind]. set (l := entry_text _).
  replace (default "" (Some "") +:+ l +:+ newline) with (render [l]) by (simpl; by rewrite str_app_nil_r).
  unfold verify_chain_text. rewrite render_lines by (constructor; [apply entry_good|done]).
  cbn [verify_lines]. destruct (entry_good (entry_of r kid (sha_last kept' None))) as (_ & Hbl & _).
  unfold l. rewrite Hbl, entry_read_back by done. cbn [map_err result_bind]. unfold check_entry. simpl.
  unfold sha_last. destruct (last kept') eqn:E; [done|]. by apply last_None in E.
Qed.
End rotation.

(** ** Decisions in the log of readings *)

Section mixed.
Context `{WireFormat} `{Sha256} `{JsonText} `{DecisionText} `{FloatText} `{DriverText} (base : string) (g : nat).

Lemma verify_lines_bad n lines accept first st l :
  l ∈ lines -> blank l = false -> is_ok (entry_parse l) = false ->
  is_ok (verify_lines n lines accept first st) = false.
Proof.
  intros Hin Hb Hp. revert n first st. induction lines as [|x lines IH]; intros n first st; [by apply not_elem_of_nil in Hin|].
  apply elem_of_cons in Hin as [<-|Hin]; simpl.
  - rewrite Hb. by destruct (entry_parse l).
  - destruct (blank x); [by apply IH|]. destruct (entry_parse x) as [e|]; [|done]. simpl.
    destruct (check_entry _ _ _ _ _); [by apply IH|done].
Qed.

Lemma verify_files_bad read files o e a n text :
  (n, text) ∈ files -> (forall expected accept, is_ok (verify_chain_text text expected accept) = false) ->
  is_ok (verify_files base read files o e a) = false.
Proof.
  intros Hin Hbad. revert o e a. induction files as [|[k t] files IH]; intros o e a; [by apply not_elem_of_nil in Hin|].
  simpl. destruct (read k); [|done]. simpl. apply elem_of_cons in Hin as [Hkt|Hin].
  - simplify_eq. specialize (Hbad e (negb a)). by destruct (verify_chain_text _ _ _).
  - destruct (verify_chain_text _ _ _); [|done]. simpl. case_match; by apply IH.
Qed.

Lemma decision_line_good d prev `{!JsonTextLaws} : good_line (json_to_string (JObject (decision_entry d prev))).
Proof. split; [apply object_one_line|]. split; [apply object_not_blank|apply object_no_cr]. Qed.

Context `{!JsonTextLaws} `{!DriverTextLaws}.
#[local] Set Default Proof Using "Type*".

(** The program that decides writes to the path of the log of readings. After any
    readings and rotations, one persisted decision makes the log fail both
    verifications, whatever the generations: the entry is not a reading. *)
Theorem decision_breaks_reading_log ops io r ctx max_entries ring ocsf d f :
  0 < g <= DEFAULT_MAX_GENERATIONS -> Forall op_ok ops ->
  decide_and_persist io r ctx max_entries (mkFiles (audit_run base g ops).1 ring ocsf) = (Ok d, f) ->
  is_ok (verify_chain base (Ok tt) (fl_audit f)) = false /\
  is_ok (verify_chain_across_generations base (fun _ => Ok tt) g (fl_audit f)) = false.
Proof.
  intros Hg Hok Hd. destruct (run_kept base g ops Hg Hok) as [kept ((A & Ha & HA & _) & _)].
  destruct (audit_run base g ops) as [gens hist]. cbn [fst snd] in *.
  unfold decide_and_persist, decide_and_audit in Hd. cbn [fl_audit] in Hd.
  destruct (decide_request r ctx) as [d'|]; [|done]. unfold emit_audit_entry in Hd.
  destruct (li_mkdir (po_audit io)); [|done].
  destruct (match gens !! 0 with Some _ => li_read (po_audit io) | None => Ok tt end); [|done].
  unfold append_line in Hd. destruct (li_open (po_audit io)); [|done].
  destruct (li_write (po_audit io)) as [|[]]; [|done]. destruct (li_sync (po_audit io)); [|done].
  cbn [map_err result_bind] in Hd. destruct (write_ring_buffer _ _ _ _) as [[[]|] ring']; [|done]. simplify_eq/=.
  set (line := json_to_string _). cbn [fl_audit set_current]. set (text := _ +:+ line +:+ newline).
  assert (Hbad : forall expected accept, is_ok (verify_chain_text text expected accept) = false).
  { intros expected accept.
    assert (He : ended (default "" (gens !! 0))).
    { specialize (Ha 0). destruct (gens !! 0); [subst; apply render_ended|by left]. }
    destruct (decision_line_good d (last_line_sha256 (gens !! 0))) as (Hl1 & Hl2 & Hl3). fold line in Hl1, Hl2, Hl3.
    apply verify_lines_bad with line; [|done|by apply entry_needs_reading].
    unfold text, newline. change (String "010" "") with (String nl ""). rewrite str_lines_snoc by done.
    apply elem_of_app. right. by left. }
  split.
  - unfold verify_chain. rewrite lookup_insert_eq. apply Hbad.
  - apply verify_files_bad with 0 text; [|done]. unfold oldest_first. apply list_elem_of_omap. exists 0.
    rewrite elem_of_reverse, elem_of_seq, lookup_insert_eq. split; [lia|done].
Qed.
End mixed.

(** ** Replay *)

(** A surface is measured at its threshold exactly. *)
Definition on_threshold (t : BackpressureThresholds) (r : DriverReading) (s : Surface.t) : bool :=
  SFeqb (Surface.threshold s t) (Surface.value s (rd_measurements r)).

Lemma ge_gt v t : SFeqb t v = false -> f_ge v t = f_gt v t.
Proof. unfold f_ge, f_gt, f_le, f_lt, SFeqb, SFleb, SFltb. destruct (SFcompare t v) as [[]|]; done. Qed.

Lemma replay_surface was v t h : SFeqb t v = false -> replay_enter_or_stay was v t h = enter_or_stay was v t h.
Proof. intros Ht. unfold replay_enter_or_stay, enter_or_stay. by rewrite (ge_gt v t). Qed.

Lemma replay_update r b :
  (forall s, on_threshold (bm_thresholds b) r s = false) ->
  replay_driver_reading r (bm_thresholds b) (bm_last_state b) = (monitor_update (rd_measurements r) b).1.
Proof.
  intros Ht. unfold replay_driver_reading, monitor_update. cbn [fst].
  by rewrite (replay_surface _ _ _ _ (Ht Surface.Vram)), (replay_surface _ _ _ _ (Ht Surface.Gpu3090)),
    (replay_surface _ _ _ _ (Ht Surface.CpuPsi)), (replay_surface _ _ _ _ (Ht Surface.MemPsi)),
    (replay_surface _ _ _ _ (Ht Surface.IoPsi)).
Qed.

Lemma observe_same b s : surface_diverges (observe b b s) = surface_diverges s.
Proof. by destruct s, b. Qed.

Definition agrees (s : ReplayStats) : Prop := replay_diverges s = false /\ rs_first_divergence_at_unix_micros s = None.

Lemma replay_entry_agrees r s : agrees s -> agrees (replay_entry r (rd_state r) s).
Proof.
  intros [Hd Hf]. split.
  - unfold replay_diverges, replay_entry. simpl. rewrite !observe_same. exact Hd.
  - unfold replay_entry. simpl. rewrite Hf. unfold state_diverges. by rewrite !eqb_reflx.
Qed.

Section replay.
Context `{WireFormat} `{Sha256} `{UnicodeTables} `{DriverText} `{!DriverTextLaws}.
#[local] Set Default Proof Using "Type*".

Lemma replay_lines_agree n es ps b rs b' s :
  poll_all ps b = (rs, b') -> da_reading <$> es = rs ->
  Forall (fun r => finite_reading r /\ forall s, on_threshold (bm_thresholds b) r s = false) rs -> agrees s ->
  exists s', replay_lines n (entry_text <$> es) (bm_thresholds b) s (bm_last_state b) = Ok (s', bm_last_state b') /\
    agrees s' /\ rs_entries_replayed s' = foldl (fun n _ => u32_add n 1) (rs_entries_replayed s) rs.
Proof.
  revert n es b rs s. induction ps as [|p ps IH]; intros n es b rs s Hp He Hr Hs; simpl in Hp.
  { simplify_eq. destruct es; [|done]. by exists s. }
  pose proof (poll_updates p b) as Hu. destruct (poll_probe p b) as [r b1].
  destruct (poll_all ps b1) as [rs1 b2] eqn:E1. destruct es as [|e es]; [by simplify_eq|].
  injection Hp as <- ->. rewrite fmap_cons in He. injection He as <- <-. apply Forall_cons in Hr as [[Hf Ht] Hr].
  destruct (entry_good e) as (_ & Hb & _). cbn [fmap list_fmap replay_lines]. rewrite Hb, entry_read_back by done.
  cbn [map_err result_bind]. rewrite replay_update by done. rewrite Hu. cbn [fst].
  destruct (update_flag (rd_measurements (da_reading e)) b Surface.Vram) as [_ Hb1]. rewrite Hu in Hb1. simpl in Hb1.
  destruct (IH (S n) es b1 (da_reading <$> es) (replay_entry (da_reading e) (rd_state (da_reading e)) s)) as (s' & H1' & H2' & H3');
    [done|done|by rewrite Hb1|by apply replay_entry_agrees|].
  exists s'. rewrite Hb1 in H1'. simpl in H1'. split_and!; [exact H1'|done|exact H3'].
Qed.

(** C37: a replay of the log under the thresholds that were in force reproduces every
    recorded state: for a log written by any polls of one driver, no surface diverges,
    all entries are counted, provided that no surface is ever measured at its threshold
    exactly. *)
Theorem replay_reproduces t ps rs b es :
  poll_all ps (with_thresholds t) = (rs, b) -> da_reading <$> es = rs ->
  Forall (fun r => finite_reading r /\ forall s, on_threshold t r s = false) rs ->
  exists s, replay_text (render (entry_text <$> es)) t bs_clean = Ok s /\
    replay_diverges s = false /\ rs_first_divergence_at_unix_micros s = None /\
    rs_entries_replayed s = (Z.of_nat (length rs) `mod` 2 ^ 32)%Z.
Proof.
  intros Hp He Hr. unfold replay_text, replay_text_keep_state.
  rewrite render_lines by (apply Forall_fmap, Forall_forall; intros e _; apply entry_good).
  destruct (replay_lines_agree 1 es ps (with_thresholds t) rs b rs_default Hp He Hr) as (s & Hs & [Hd Hf] & Hn); [done|].
  cbn [bm_thresholds bm_last_state with_thresholds] in Hs. rewrite Hs. exists s. split_and!; try done. rewrite Hn. clear.
  simpl. induction rs as [|r rs IH] using rev_ind; [done|]. rewrite foldl_snoc, IH, length_app. unfold u32_add.
  simpl. rewrite Zplus_mod_idemp_l. f_equal. lia.
Qed.

(** At the threshold exactly the first poll records pressure and the replay of it does
    not. *)
Theorem replay_differs_on_threshold t p r b s :
  poll_probe p (with_thresholds t) = (r, b) -> on_threshold t r s = true ->
  Surface.flag s (rd_state r) = true /\ Surface.flag s (replay_driver_reading r t bs_clean) = false.
Proof using Type.
  intros Hp Ht. pose proof (poll_updates p (with_thresholds t)) as Hu. rewrite Hp in Hu.
  destruct (update_flag (rd_measurements r) (with_thresholds t) s) as [Hf _]. rewrite Hu in Hf. cbn [fst] in Hf. rewrite Hf.
  unfold on_threshold, SFeqb in Ht. destruct s; simpl in *;
    unfold enter_or_stay, replay_enter_or_stay, f_ge, f_gt, f_le, f_lt, SFleb, SFltb;
    destruct (SFcompare _ _) as [[]|]; done.
Qed.
End replay.

(** ** One poll per process *)

Section one_shot.
Context `{WireFormat} `{UnicodeTables} `{FloatText} `{JsonText}.

(** A program that polls once has no hysteresis and does not look at the configured
    thresholds: each surface is the comparison of one measurement with the default. *)
Theorem one_shot_no_memory env cfg host s :
  let r := one_shot_poll env cfg host in
  Surface.flag s (rd_state r) = f_ge (Surface.value s (rd_measurements r)) (Surface.threshold s default_for_sain01).
Proof.
  simpl. unfold one_shot_poll. cbn zeta. set (psi := psi_read _ _ _ _). set (dcgm := dcgm_read _ _ _ _).
  set (gate := human_gate_read _ _ _). clearbody psi dcgm gate. set (now := ho_now host).
  pose proof (poll_updates (mkProbe psi dcgm gate now) monitor_new) as Hu. unfold poll_probe in Hu. cbn in Hu.
  destruct (poll psi dcgm gate now monitor_new) as [r b]. cbn [fst].
  destruct (update_flag (rd_measurements r) monitor_new s) as [Hf _]. rewrite Hu in Hf. cbn [fst] in Hf. rewrite Hf.
  by destruct s.
Qed.
End one_shot.

(** ** The order of the names in the ring *)

Lemma show_go_length fuel n acc k :
  (0 <= n < 10 ^ Z.of_nat (S k))%Z -> String.length (show_go fuel n acc) <= S k + String.length acc.
Proof.
  revert n acc k. induction fuel as [|fuel IH]; intros n acc k Hn; simpl; [lia|]. case_match eqn:E; simpl; [lia|].
  apply Z.ltb_ge in E. destruct k as [|k]; [change (10 ^ Z.of_nat 1)%Z with 10%Z in Hn; lia|].
  etrans; [apply (IH _ _ k)|simpl; lia]. rewrite Nat2Z.inj_succ, Z.pow_succ_r in Hn by lia.
  split; [apply Z.div_pos; lia|apply Z.div_lt_upper_bound; lia].
Qed.

Lemma zeros_length n : String.length (zeros n) = n.
Proof. induction n; simpl; auto. Qed.

Lemma pad20_length n : (0 <= n < 10 ^ 20)%Z -> String.length (pad20 n) = 20.
Proof.
  intros Hn. unfold pad20. rewrite str_length_app, zeros_length.
  pose proof (show_go_length (S (Z.to_nat (Z.log2 n))) n "" 19 Hn) as Hl. fold (show_uint n) in Hl. simpl in Hl. lia.
Qed.

Lemma digits_val_zeros k s : digits_val (zeros k +:+ s) 0 = digits_val s 0.
Proof. induction k as [|k IH]; [done|]. exact IH. Qed.

Lemma pad20_digits n : (0 <= n)%Z -> digits_val (pad20 n) 0 = Some n.
Proof. intros. unfold pad20. rewrite digits_val_zeros. by apply digits_val_show. Qed.

Lemma digit_val_range a d : digit_val a = Some d -> (0 <= d < 10)%Z /\ d = (Z.of_N (byte a) - 48)%Z.
Proof.
  unfold digit_val, in_range. case_match eqn:E; [|done]. intros. simplify_eq.
  apply andb_true_iff in E as [E1%N.leb_le E2%N.leb_le]. lia.
Qed.

(** The value of digits read after [acc]. *)
Lemma digits_val_bound s acc v :
  digits_val s acc = Some v ->
  (acc * 10 ^ Z.of_nat (String.length s) <= v < (acc + 1) * 10 ^ Z.of_nat (String.length s))%Z.
Proof.
  revert acc. induction s as [|a s IH]; intros acc; cbn [digits_val String.length].
  - intros. simplify_eq. change (Z.of_nat 0) with 0%Z. lia.
  - destruct (digit_val a) as [d|] eqn:Ed; [|done]. intros Hv%IH. apply digit_val_range in Ed as [Hd _].
    rewrite Nat2Z.inj_succ, Z.pow_succ_r by lia. nia.
Qed.

(** Texts of digits of one length are ordered as their values. *)
Lemma digits_order s1 s2 r1 r2 a1 a2 v1 v2 :
  String.length s1 = String.length s2 -> (a1 <= a2)%Z -> digits_val s1 a1 = Some v1 -> digits_val s2 a2 = Some v2 ->
  (a1 < a2)%Z \/ String.leb (s1 +:+ r1) (s2 +:+ r2) = true -> (v1 <= v2)%Z.
Proof.
  revert s2 a1 a2. induction s1 as [|c1 s1 IH]; intros [|c2 s2] a1 a2 Hlen Ha H1 H2 Hlt; try done.
  { cbn [digits_val] in *. simplify_eq. lia. }
  destruct (decide (a1 < a2)%Z) as [Hl|Hnl].
  { apply digits_val_bound in H1, H2. rewrite Hlen in H1. nia. }
  assert (a1 = a2) as -> by lia. destruct Hlt as [|Hle]; [lia|]. cbn [digits_val] in H1, H2.
  destruct (digit_val c1) as [d1|] eqn:E1; [|done]. destruct (digit_val c2) as [d2|] eqn:E2; [|done].
  apply digit_val_range in E1 as [R1 B1], E2 as [R2 B2]. injection Hlen as Hlen.
  unfold String.leb in Hle. change (String c1 s1 +:+ r1) with (String c1 (s1 +:+ r1)) in Hle.
  change (String c2 s2 +:+ r2) with (String c2 (s2 +:+ r2)) in Hle. cbn [String.compare] in Hle.
  unfold Ascii.compare in Hle. unfold byte in *. destruct (N.compare_spec (N_of_ascii c1) (N_of_ascii c2)) as [Hc|Hc|Hc].
  - apply (IH s2 (a2 * 10 + d1)%Z (a2 * 10 + d2)%Z); auto; lia.
  - apply (IH s2 (a2 * 10 + d1)%Z (a2 * 10 + d2)%Z); auto; lia.
  - done.
Qed.

(** Names in the order of texts are in the order of time. *)
Lemma ring_name_order a b :
  (0 <= d_ts_ms a < 10 ^ 20)%Z -> (0 <= d_ts_ms b < 10 ^ 20)%Z ->
  String.le (ring_name a) (ring_name b) -> (d_ts_ms a <= d_ts_ms b)%Z.
Proof.
  intros Ha Hb Hle. unfold ring_name, ring_stem in Hle. unfold String.le in Hle. apply Is_true_true in Hle.
  rewrite !str_app_assoc in Hle. eapply digits_order; [|reflexivity|apply pad20_digits|apply pad20_digits|by right]; [|lia..].
  by rewrite !pad20_length.
Qed.

(** A name starts with a digit and ends in [.json]. *)
Lemma pad20_first n : (0 <= n)%Z -> exists a s, pad20 n = String a s /\ digit_byte a = true.
Proof.
  intros Hn. unfold pad20. destruct (20 - String.length (show_uint n)) as [|k]; simpl.
  - destruct (show_uint_cons n) as (a & s & E). exists a, s. split; [exact E|].
    pose proof (show_uint_all n Hn) as Ha. rewrite E in Ha. simpl in Ha. by apply andb_true_iff in Ha as [? _].
  - by exists "0"%char, (zeros k +:+ show_uint n).
Qed.

Lemma ring_stem_first d : (0 <= d_ts_ms d)%Z -> exists a s, ring_stem d = String a s /\ digit_byte a = true.
Proof.
  intros Hn. destruct (pad20_first _ Hn) as (a & s & E & Ha). unfold ring_stem. rewrite E.
  by exists a, (s +:+ "-" +:+ sanitize_for_filename (d_request_id d)).
Qed.

Lemma ring_name_json d : (0 <= d_ts_ms d)%Z -> json_name (ring_name d) = true.
Proof.
  intros Hn. destruct (ring_stem_first d Hn) as (a & s & E & Ha).
  unfold json_name, ring_name, extension. rewrite E. apply bool_decide_true.
  rewrite bool_decide_false by (by destruct a as [[] [] [] [] [] [] [] []]).
  change ".json" with (String "." "json"). rewrite split_sep. change (split "." "json") with ["json"].
  pose proof (last_snoc "json" (split "." (String a s))) as Hlast.
  destruct (split_cons_ne "." (String a s)) as (h & t & Hs). rewrite Hs in Hlast |- *.
  assert (Hh : h <> "").
  { simpl in Hs. rewrite bool_decide_false in Hs by (by intros ->). destruct (split "." s); by simplify_eq. }
  destruct h as [|c h]; [done|]. by destruct t.
Qed.

Lemma tmp_name_other d e pid now : (0 <= d_ts_ms e)%Z -> ring_name e <> ring_tmp_name d pid now.
Proof.
  intros Hn. destruct (ring_stem_first e Hn) as (a & s & E & Ha). unfold ring_name, ring_tmp_name. rewrite E.
  change (String a s +:+ ".json") with (String a (s +:+ ".json")). intros Hc.
  change ("." +:+ ?x) with (String "." x) in Hc. injection Hc as -> _. done.
Qed.

(** ** Eviction *)

Lemma elem_of_json_files ring p : p ∈ json_files ring <-> json_name p = true /\ is_Some (ring !! p).
Proof. unfold json_files. by rewrite list_elem_of_filter, elem_of_elements, elem_of_dom. Qed.

Lemma json_files_NoDup ring : NoDup (json_files ring).
Proof. apply NoDup_filter, NoDup_elements. Qed.

Definition sorted_files (ring : Ring) : list string := merge_sort String.le (json_files ring).

Lemma sorted_files_spec ring :
  StronglySorted String.le (sorted_files ring) /\ NoDup (sorted_files ring) /\
  (forall p, p ∈ sorted_files ring <-> json_name p = true /\ is_Some (ring !! p)) /\
  length (sorted_files ring) = length (json_files ring).
Proof.
  unfold sorted_files. split_and!.
  - apply StronglySorted_merge_sort; apply _.
  - rewrite merge_sort_Permutation. apply json_files_NoDup.
  - intros p. rewrite merge_sort_Permutation. apply elem_of_json_files.
  - by rewrite merge_sort_Permutation.
Qed.

(** The files that eviction removes when every removal works. *)
Definition evicted (max_entries : nat) (ring : Ring) : list string :=
  take (length (sorted_files ring) - max_entries) (sorted_files ring).

Lemma evict_result io max_entries ring :
  gi_list io = Ok tt -> (forall p, gi_removed io p = true) ->
  evict_ring_overflow io max_entries ring = (Ok tt, foldr delete ring (evicted max_entries ring)).
Proof.
  intros Hl Hr. unfold evict_ring_overflow, evicted. rewrite Hl. fold (sorted_files ring). case_bool_decide as Hc.
  - by replace (length (sorted_files ring) - max_entries) with 0 by lia.
  - rewrite filter_all; [done|]. apply Forall_forall. auto.
Qed.

Lemma evicted_split max_entries ring p q :
  p ∈ evicted max_entries ring -> q ∈ sorted_files ring -> q ∉ evicted max_entries ring -> String.le p q.
Proof.
  intros Hp Hq Hn. destruct (sorted_files_spec ring) as (Hs & _). unfold evicted in *.
  set (k := length _ - _) in *. rewrite <-(take_drop k (sorted_files ring)) in Hq, Hs.
  apply elem_of_app in Hq as [?|Hq]; [done|]. by apply (StronglySorted_app_1_elem_of _ _ _ p q Hs).
Qed.

Lemma evict_length max_entries ring : length (json_files (foldr delete ring (evicted max_entries ring))) <= max_entries.
Proof.
  destruct (sorted_files_spec ring) as (_ & Hnd & He & _). set (ring' := foldr delete ring _).
  set (k := length (sorted_files ring) - max_entries).
  assert (Hsub : json_files ring' ⊆+ drop k (sorted_files ring)).
  { apply NoDup_submseteq; [apply json_files_NoDup|]. intros p [Hj [f Hf]]%elem_of_json_files.
    unfold ring' in Hf. apply lookup_foldr_delete_Some in Hf as [Hn Hf]. unfold evicted in Hn. fold k in Hn.
    assert (Hin : p ∈ sorted_files ring) by (apply He; eauto).
    rewrite <-(take_drop k (sorted_files ring)), elem_of_app in Hin. tauto. }
  apply submseteq_length in Hsub. rewrite length_drop in Hsub. lia.
Qed.

Section ring.
Context `{DecisionText}.

(** A write that succeeds leaves the ring with the file of the decision, evicted. *)
Lemma ring_written io d max_entries ring ring' :
  0 < max_entries -> (forall p, gi_removed io p = true) -> write_ring_buffer io d max_entries ring = (Ok tt, ring') ->
  exists all, all = <[ring_name d := mkRingFile (decision_text d) (gi_now io)]>
                      (delete (ring_tmp_name d (gi_pid io) (gi_now io)) ring) /\
    ring' = foldr delete all (evicted max_entries all).
Proof.
  intros Hm Hr. unfold write_ring_buffer. destruct (gi_mkdir io), (gi_create io); try done.
  destruct (gi_write io) as [|[]], (gi_sync io); try done. destruct (gi_rename io); [|done].
  rewrite bool_decide_true by done. intros Hw. eexists. split; [done|]. destruct (gi_list io) as [[]|] eqn:El.
  - rewrite evict_result in Hw by done. by simplify_eq.
  - unfold evict_ring_overflow in Hw. by rewrite El in Hw.
Qed.

(** The ring keeps the newest decisions. After a write that succeeds, at most the
    wanted number of decisions is left, none of them new but the one written, and every
    one that was removed is as old as or older than every one that stays. *)
Theorem ring_keeps_newest io d max_entries ring ring' :
  0 < max_entries -> (forall p, gi_removed io p = true) -> write_ring_buffer io d max_entries ring = (Ok tt, ring') ->
  length (json_files ring') <= max_entries /\
  (forall p f, ring' !! p = Some f -> p = ring_name d \/ ring !! p = Some f) /\
  (forall a b, (0 <= d_ts_ms a < 10 ^ 20)%Z -> (0 <= d_ts_ms b < 10 ^ 20)%Z ->
     ring_name a = ring_name d \/ is_Some (ring !! ring_name a) ->
     ring' !! ring_name a = None -> is_Some (ring' !! ring_name b) -> (d_ts_ms a <= d_ts_ms b)%Z).
Proof.
  intros Hm Hr Hw. destruct (ring_written io d max_entries ring ring' Hm Hr Hw) as (all & Hall & ->).
  destruct (sorted_files_spec all) as (_ & _ & He & _). split; [apply evict_length|]. split.
  - intros p f [_ Hf]%lookup_foldr_delete_Some. rewrite Hall in Hf. destruct (decide (p = ring_name d)); [by left|].
    right. rewrite lookup_insert_ne in Hf by done. by apply lookup_delete_Some in Hf as [_ ?].
  - intros a b Ha Hb Hin Hgone [f Hf]. pose proof (ring_name_json a ltac:(lia)). pose proof (ring_name_json b ltac:(lia)).
    pose proof (tmp_name_other d a (gi_pid io) (gi_now io) ltac:(lia)). apply ring_name_order; [done|done|].
    assert (Hsome : is_Some (all !! ring_name a)).
    { rewrite Hall. destruct (decide (ring_name a = ring_name d)) as [->|Hne]; [by rewrite lookup_insert_eq|].
      rewrite lookup_insert_ne, lookup_delete_ne by done. by destruct Hin. }
    apply lookup_foldr_delete_Some in Hf as [Hkept Hf]. apply evicted_split with max_entries all; [|by apply He; eauto|done].
    destruct (decide (ring_name a ∈ evicted max_entries all)) as [|Hn]; [done|].
    rewrite lookup_foldr_delete_not_elem_of in Hgone by done. rewrite Hgone in Hsome. by destruct Hsome.
Qed.

Lemma name_before_heartbeat d n : (0 <= d_ts_ms d)%Z -> ~ String.le (heartbeat_name n) (ring_name d).
Proof.
  intros Hn. destruct (ring_stem_first d Hn) as (a & s & E & Ha). unfold ring_name, heartbeat_name. rewrite E.
  unfold String.le, String.leb. change (String a s +:+ ".json") with (String a (s +:+ ".json")).
  change ("heartbeat-" +:+ show_uint n +:+ ".json") with (String "h" ("eartbeat-" +:+ show_uint n +:+ ".json")).
  cbn [String.compare]. destruct a as [[] [] [] [] [] [] [] []]; try discriminate Ha; exact id.
Qed.

Lemma heartbeat_other d n pid now : (0 <= d_ts_ms d)%Z ->
  heartbeat_name n <> ring_name d /\ heartbeat_name n <> ring_tmp_name d pid now.
Proof.
  intros Hn. split; [|done]. intros Hc. apply (name_before_heartbeat d n Hn). rewrite Hc. reflexivity.
Qed.

(** Heartbeats and decisions share the ring, and the heartbeats come last in the order
    of names. Once they fill it, a decision is removed by the very write that stores
    it. *)
Theorem heartbeats_evict_decision io d max_entries ring ring' :
  (0 <= d_ts_ms d)%Z -> 0 < max_entries -> (forall p, gi_removed io p = true) ->
  max_entries <= length (json_files ring) ->
  Forall (fun p => exists n, p = heartbeat_name n) (json_files ring) ->
  write_ring_buffer io d max_entries ring = (Ok tt, ring') -> ring' !! ring_name d = None.
Proof.
  intros Hn Hm Hr Hfull Hbeats Hw. destruct (ring_written io d max_entries ring ring' Hm Hr Hw) as (all & Hall & ->).
  destruct (sorted_files_spec all) as (_ & Hnd & He & Hlen). rewrite Forall_forall in Hbeats.
  assert (Hbeat : forall p, p ∈ json_files ring -> p <> ring_name d /\ is_Some (all !! p) /\ json_name p = true).
  { intros p Hp. destruct (Hbeats p Hp) as [n ->].
    destruct (heartbeat_other d n (gi_pid io) (gi_now io) Hn) as [Hd Ht]. apply elem_of_json_files in Hp as [Hj Hp].
    split; [done|]. rewrite Hall, lookup_insert_ne, lookup_delete_ne by done. done. }
  assert (Hlong : max_entries < length (sorted_files all)).
  { rewrite Hlen. assert (Hsub : ring_name d :: json_files ring ⊆+ json_files all); [|apply submseteq_length in Hsub; simpl in Hsub; lia].
    apply NoDup_submseteq.
    - constructor; [|apply json_files_NoDup]. intros Hin. by destruct (Hbeat _ Hin).
    - intros p [->|Hp]%elem_of_cons; apply elem_of_json_files; [|by destruct (Hbeat p Hp) as (_ & ? & ?)].
      split; [by apply ring_name_json|]. rewrite Hall, lookup_insert_eq. by eexists. }
  apply lookup_foldr_delete. destruct (decide (ring_name d ∈ evicted max_entries all)) as [|Hout]; [done|].
  assert (Hself : ring_name d ∈ sorted_files all).
  { apply He. split; [by apply ring_name_json|]. rewrite Hall, lookup_insert_eq. by eexists. }
  destruct (evicted max_entries all) as [|p l] eqn:Eev.
  { apply (f_equal length) in Eev. unfold evicted in Eev. rewrite length_take in Eev. simpl in Eev. lia. }
  assert (Hp : p ∈ evicted max_entries all) by (rewrite Eev; by left). exfalso.
  assert (Hle : String.le p (ring_name d)) by (apply evicted_split with max_entries all; rewrite ?Eev; [by left|done..]).
  assert (Hin : p ∈ sorted_files all) by (eapply elem_of_sublist; [exact Hp|apply sublist_take]).
  apply He in Hin as [Hj [f Hf]]. rewrite Hall in Hf. destruct (decide (p = ring_name d)) as [->|Hne].
  { apply Hout. by left. }
  rewrite lookup_insert_ne in Hf by done. apply lookup_delete_Some in Hf as [_ Hf].
  destruct (Hbeats p) as [n ->]; [apply elem_of_json_files; eauto|]. by apply (name_before_heartbeat d n Hn).
Qed.
End ring.

(** ** Witnesses *)

Module SchedulerLogDemo.
Import SchedulerDemo.

(** Texts of entries: the encoding of an entry in binary digits. *)
Definition FloatCode : Type := bool + bool + unit + bool * positive * Z.
Definition float_code (x : f32) : FloatCode :=
  match x with
  | S754_zero s => inl (inl (inl s)) | S754_infinity s => inl (inl (inr s)) | S754_nan => inl (inr ())
  | S754_finite s m e => inr (s, m, e)
  end.
Definition code_float (c : FloatCode) : f32 :=
  match c with
  | inl (inl (inl s)) => S754_zero s | inl (inl (inr s)) => S754_infinity s | inl (inr ()) => S754_nan
  | inr (s, m, e) => S754_finite s m e
  end.
Lemma code_float_code x : code_float (float_code x) = x.
Proof. by destruct x. Qed.

Definition StatusCode : Type := unit + string + string.
Definition status_code (x : SourceStatus) : StatusCode :=
  match x with Healthy => inl (inl ()) | Unavailable m => inl (inr m) | Errored m => inr m end.
Definition code_status (c : StatusCode) : SourceStatus :=
  match c with inl (inl ()) => Healthy | inl (inr m) => Unavailable m | inr m => Errored m end.
Lemma code_status_code x : code_status (status_code x) = x.
Proof. by destruct x. Qed.

Definition EntryCode : Type :=
  string * Z * option string * option string * Z * (FloatCode * FloatCode * FloatCode * FloatCode * FloatCode * Z)
  * (bool * bool * bool * bool * bool * bool) * (StatusCode * StatusCode * StatusCode).

Definition entry_code (e : DriverAuditEntry) : EntryCode :=
  let '(mkDriverAuditEntry v ts (mkDriverReading c (mkResourceMeasurements a1 a2 a3 a4 a5 q)
          (mkBackpressureState b1 b2 b3 b4 b5 b6) (mkSubstrateHealth h1 h2 h3)) kid prev) := e in
  (v, ts, kid, prev, c, (float_code a1, float_code a2, float_code a3, float_code a4, float_code a5, q),
   (b1, b2, b3, b4, b5, b6), (status_code h1, status_code h2, status_code h3)).
Definition code_entry (c : EntryCode) : DriverAuditEntry :=
  let '(v, ts, kid, prev, c, (a1, a2, a3, a4, a5, q), (b1, b2, b3, b4, b5, b6), (h1, h2, h3)) := c in
  mkDriverAuditEntry v ts (mkDriverReading c
    (mkResourceMeasurements (code_float a1) (code_float a2) (code_float a3) (code_float a4) (code_float a5) q)
    (mkBackpressureState b1 b2 b3 b4 b5 b6) (mkSubstrateHealth (code_status h1) (code_status h2) (code_status h3)))
    kid prev.
Lemma code_entry_code e : code_entry (entry_code e) = e.
Proof. destruct e as [v ts [c [] [] []] kid prev]. simpl. by rewrite !code_float_code, !code_status_code. Qed.

#[export] Instance wire : WireFormat :=
  {| uuid_to_string := fun _ => ""; rfc3339_format := fun _ => None; json_to_string := fun _ => "{}" |}.
#[export] Instance sha : Sha256 := {| sha256_hex := fun s => s |}.
#[export] Instance driver_text : DriverText :=
  {| entry_text := fun e => GuardianExamples.bits (encode (entry_code e));
     entry_parse := fun s =>
       if starts_with s "{" then Err "missing field `reading`"
       else match decode (GuardianExamples.unbits s) with Some c => Ok (code_entry c) | None => Err "not JSON" end |}.
#[export] Instance driver_text_laws : DriverTextLaws.
Proof.
  split.
  - intros e. apply GuardianExamples.bits_text.
  - intros e _. unfold entry_parse, entry_text, driver_text. set (p := encode _).
    replace (starts_with (GuardianExamples.bits p) "{") with false.
    + unfold p. by rewrite GuardianExamples.text_of_bits, decode_encode, code_entry_code.
    + by destruct (GuardianExamples.bits_cons p) as (a & t & -> & [-> | ->]).
  - done.
Qed.

Definition log_ok : LogIo := mkLogIo (Ok tt) (Ok tt) (Ok tt) (Ok tt) (Ok tt).
Definition log_full : LogIo := mkLogIo (Ok tt) (Ok tt) (Ok tt) (Err ("disk full", 0)) (Ok tt).
Definition emit_io (log : LogIo) : EmitIo := mkEmitIo (fun _ => Ok tt) log.
Definition rotate_io (create : result unit string) : RotateIo := mkRotateIo (Ok tt) (Ok tt) (fun _ => Ok tt) create.

(** Two rotations, of which the second does not get a new file, and a full disk. *)
Definition history : list AuditOp :=
  [Emit (emit_io log_ok) last_reading None; Rotate (rotate_io (Ok tt)) 1; Emit (emit_io log_full) last_reading None;
   Emit (emit_io log_ok) last_reading (Some "kid"); Rotate (rotate_io (Err "denied")) 1;
   Emit (emit_io log_ok) last_reading None].

Lemma reading_finite : finite_reading last_reading.
Proof. unfold finite_reading. repeat constructor. Qed.

Lemma rotated_log_verifies_witness :
  let '(gens, hist) := audit_run "/log" 1 history in
  exists stats kept,
    verify_chain_across_generations "/log" (fun _ => Ok tt) 1 gens = Ok stats /\
    holds 1 gens kept /\ kept `suffix_of` hist /\ (hist = [] \/ kept <> []) /\
    cs_event_count stats = length kept /\ cs_last_sha256 stats = sha_last hist None /\
    cs_last_ts_unix_micros stats = last hist ≫= stamp.
Proof.
  apply (rotated_log_verifies "/log" 1 history); [split; [lia|unfold DEFAULT_MAX_GENERATIONS; lia]|].
  unfold history. repeat constructor; apply reading_finite.
Defined.

Definition recorded : list DriverAuditEntry := (fun r => entry_of r None None) <$> run.1.

Lemma replay_reproduces_witness :
  exists s, replay_text (render (entry_text <$> recorded)) default_for_sain01 bs_clean = Ok s /\
    replay_diverges s = false /\ rs_first_divergence_at_unix_micros s = None /\ rs_entries_replayed s = 3%Z.
Proof.
  apply (replay_reproduces default_for_sain01 probes run.1 run.2 recorded); [reflexivity..|].
  repeat constructor; intros []; reflexivity.
Defined.

Definition named (id : string) (ts : Z) : Decision :=
  decision_new id Profile.Fast Route.Cpu (mkAxisScores f_one f_one f_one f_one f_one f_one f_one) bs_clean ts "host" "kid" "".

#[export] Instance decision_texts : DecisionText := {| decision_text := fun _ => "{}"; decision_parse := fun _ => None |}.
Definition ring_io : RingIo := mkRingIo (Ok tt) (Ok tt) (Ok tt) (Ok tt) (Ok tt) (Ok tt) (fun _ => true) 7 100.
Definition old_ring : Ring := <[ring_name (named "a" 10) := mkRingFile "{}" 10]> (<[ring_name (named "b" 9) := mkRingFile "{}" 9]> ∅).
Definition new_ring : Ring := (write_ring_buffer ring_io (named "c" 100) 2 old_ring).2.

Lemma ring_keeps_newest_witness :
  json_files new_ring <> [] /\ length (json_files new_ring) <= 2 /\ new_ring !! ring_name (named "b" 9) = None /\
  (d_ts_ms (named "b" 9) <= d_ts_ms (named "a" 10))%Z.
Proof.
  destruct (ring_keeps_newest ring_io (named "c" 100) 2 old_ring new_ring) as (Hl & _ & Ho);
    [lia|reflexivity|vm_compute; reflexivity|].
  split; [by vm_compute|]. split; [exact Hl|]. split; [vm_compute; reflexivity|].
  apply (Ho (named "b" 9) (named "a" 10)); [vm_compute; by split|vm_compute; by split| |vm_compute; reflexivity|].
  - right. exists (mkRingFile "{}" 9). vm_compute. reflexivity.
  - exists (mkRingFile "{}" 10). vm_compute. reflexivity.
Defined.
End SchedulerLogDemo.
