(* ===== verification/Registry.v ===== *)
(** * Daemon-resident registries

    What crates/selfdef-grant-registry, -capability-registry, -sandbox-registry,
    -quarantine-registry and -trust-score-registry have in common, with the
    snapshot types of their mirror crates and the handlers of crates/selfdef-api
    around them: a snapshot kept in one JSON file that every request loads, changes
    and saves; per-kind tiles recomputed at every change; and, for the first three,
    entries with a life time.

    A request takes its clock reading (nanoseconds) and what the file system
    answers. Files are a map from path to content. *)

From S2P Require Import Prelude Core.
From stdpp Require Import options.

(** ** Snapshots *)

Definition SCHEMA_VERSION : string := "1.0.0".

Record Snapshot (E T : Type) := mkSnapshot {
  sn_schema_version : string;
  sn_captured_at : string;
  sn_summaries : list T;
  sn_entries : list E;
  sn_signature : string;
}.
Arguments mkSnapshot {_ _}.
Arguments sn_schema_version {_ _}.
Arguments sn_captured_at {_ _}.
Arguments sn_summaries {_ _}.
Arguments sn_entries {_ _}.
Arguments sn_signature {_ _}.

Definition registry_new {E T} : Snapshot E T := mkSnapshot SCHEMA_VERSION "" [] [] "".

Definition with_entries {E T} (l : list E) (s : Snapshot E T) : Snapshot E T :=
  mkSnapshot (sn_schema_version s) (sn_captured_at s) (sn_summaries s) l (sn_signature s).

(** What a registry answers when it does not do what it was asked: [Refused] are the
    refusals of its own, the rest is shared. *)
Inductive RegistryError (R : Type) :=
| Refused (r : R)
| Malformed (path source : string)
| RegIo (path source : string)
| TimeFormat (source : string).
Arguments Refused {_}.
Arguments Malformed {_}.
Arguments RegIo {_}.
Arguments TimeFormat {_}.

(** The text of an error; [name] is that of the store. *)
Definition registry_display {R} (name : string) (refused : R -> string) (e : RegistryError R) : string :=
  match e with
  | Refused r => refused r
  | Malformed path source => "malformed " +:+ name +:+ " store at " +:+ path +:+ ": " +:+ source
  | RegIo path source => name +:+ " store io error at " +:+ path +:+ ": " +:+ source
  | TimeFormat source => "timestamp format error: " +:+ source
  end.

(** [OffsetDateTime::parse] with [Rfc3339]; its laws state that it reads what
    [format] writes. The text of a formatting error is the library's. *)
Class Rfc3339 := {
  rfc3339_parse : string -> option Z;
  rfc3339_format_error : Z -> string;
}.
Class Rfc3339Laws `{WireFormat} `{Rfc3339} : Prop :=
  { parse_format t s : rfc3339_format t = Some s -> rfc3339_parse s = Some t }.

(** [serde_json] on a snapshot. *)
Class SnapshotJson (E T : Type) := {
  snap_encode : Snapshot E T -> result string string;
  snap_decode : string -> result (Snapshot E T) string;
}.
Class SnapshotJsonLaws E T `{!SnapshotJson E T} : Prop :=
  { decode_encode_snap s b : snap_encode s = Ok b -> snap_decode b = Ok s }.

(** ** Tiles *)

(** [HashMap::into_values]. *)
Class HashValues (K T : Type) `{Countable K} := { hash_values : gmap K T -> list T }.
Class HashValuesLaws K T `{HashValues K T} : Prop :=
  { hash_values_perm m : hash_values m ≡ₚ (map_to_list m).*2 }.

Section tiles.
Context {E K T : Type} `{HashValues K T} (key : E -> K) (zero : K -> T) (add : E -> T -> T) (rank : T -> nat).

Definition tile_add (m : gmap K T) (e : E) : gmap K T :=
  <[key e := add e (default (zero (key e)) (m !! key e))]> m.

Definition rank_le (x y : T) : Prop := rank x <= rank y.
#[global] Instance rank_le_dec : RelDecision rank_le.
Proof using Type. unfold rank_le. solve_decision. Defined.

Definition tiles (l : list E) : list T := merge_sort rank_le (hash_values (foldl tile_add ∅ l)).
End tiles.

(** A counter of a tile: [u32] with [+= 1]. *)
Definition incr32 (x : Z) : Z := as_u32 (x + 1).

(** The tiles of a registry. *)
Class Registry (E T : Type) := { recompute_summaries : list E -> list T }.

Definition recompute {E T R} `{WireFormat} `{Rfc3339} `{!Registry E T} (now : Z) (s : Snapshot E T) :
    result unit (RegistryError R) * Snapshot E T :=
  let summaries := recompute_summaries (sn_entries s) in
  match rfc3339_format now with
  | Some t => (Ok tt, mkSnapshot (sn_schema_version s) t summaries (sn_entries s) (sn_signature s))
  | None => (Err (TimeFormat (rfc3339_format_error now)), mkSnapshot (sn_schema_version s) (sn_captured_at s) summaries (sn_entries s) (sn_signature s))
  end.

Definition and_return {A R E T} (a : A) (p : result unit (RegistryError R) * Snapshot E T) :
    result A (RegistryError R) * Snapshot E T :=
  (match p.1 with Ok _ => Ok a | Err e => Err e end, p.2).

(** ** Entries with a life time *)

Class TtlEntry (E St : Type) := {
  tt_id : E -> string;
  tt_state : E -> St;
  tt_set : St -> E -> E;
  tt_until : E -> string;
  tt_live : St -> bool;
  tt_over : St;
}.

Definition MAX_TTL_SECONDS : Z := 86400.

(** [now + Duration::seconds(ttl)]. *)
Definition after_secs (now ttl : Z) : Z := (now + ttl * 10 ^ 9)%Z.

(** [format] with the question mark. *)
Definition format_time {R} `{WireFormat} `{Rfc3339} (t : Z) : result string (RegistryError R) :=
  match rfc3339_format t with Some s => Ok s | None => Err (TimeFormat (rfc3339_format_error t)) end.

Section ttl.
Context {E T St R : Type} `{WireFormat} `{Rfc3339} `{!Registry E T} `{!TtlEntry E St}.

Definition set_state (id : string) (st : St) (now : Z) (s : Snapshot E T) :
    result bool (RegistryError R) * Snapshot E T :=
  match list_find (fun e => tt_id e = id) (sn_entries s) with
  | Some (i, e) => and_return true (recompute now (with_entries (<[i := tt_set st e]> (sn_entries s)) s))
  | None => (Ok false, s)
  end.

Definition due (now : Z) (e : E) : bool :=
  tt_live (tt_state e) && match rfc3339_parse (tt_until e) with Some t => (t <=? now)%Z | None => true end.

Definition expire_due (now : Z) (s : Snapshot E T) : result nat (RegistryError R) * Snapshot E T :=
  let changed := length (filter (fun e => due now e = true) (sn_entries s)) in
  let s' := with_entries ((fun e => if due now e then tt_set tt_over e else e) <$> sn_entries s) s in
  if decide (0 < changed) then and_return changed (recompute now s') else (Ok changed, s').
End ttl.

(** ** Files *)

Abbreviation Disk := (gmap string string).

Inductive SaveOutcome :=
| MkdirFails (e : string)
| TmpCreateFails (e : string)
| TmpWriteFails (partial e : string)
| TmpSyncFails (e : string)
| PublishFails (e : string)
| Saved.

Section files.
Context {E T R : Type} `{!SnapshotJson E T}.

(** [read_error]: an I/O error other than a missing file. *)
Definition load (path : string) (read_error : option string) (disk : Disk) : result (Snapshot E T) (RegistryError R) :=
  match read_error with
  | Some e => Err (RegIo path e)
  | None =>
      match disk !! path with
      | None => Ok registry_new
      | Some text => match snap_decode text with Ok s => Ok s | Err e => Err (Malformed path e) end
      end
  end.

Definition save (path : string) (s : Snapshot E T) (o : SaveOutcome) (disk : Disk) :
    result unit (RegistryError R) * Disk :=
  match o with
  | MkdirFails e => (Err (RegIo path e), disk)
  | _ =>
      match snap_encode s with
      | Err e => (Err (Malformed path e), disk)
      | Ok body =>
          let tmp := with_extension path "json.tmp" in
          match o with
          | MkdirFails e | TmpCreateFails e => (Err (RegIo path e), disk)
          | TmpWriteFails partial e => (Err (RegIo path e), <[tmp := partial]> disk)
          | TmpSyncFails e | PublishFails e => (Err (RegIo path e), <[tmp := body]> disk)
          | Saved => (Ok tt, <[path := body]> (delete tmp disk))
          end
      end
  end.
End files.

(** ** Requests *)

Definition BAD_REQUEST : Z := 400.
Definition NOT_FOUND : Z := 404.
Definition CONFLICT : Z := 409.
Definition TOO_MANY_REQUESTS : Z := 429.
Definition INTERNAL_SERVER_ERROR : Z := 500.

Abbreviation Answer A := (result A (Z * string)).

(** One request: what the host answers to it. *)
Record Io := mkIo {
  io_now : Z;
  io_read : option string;
  io_save : SaveOutcome;
}.

Section api.
Context {E T R : Type} `{!SnapshotJson E T} (display : RegistryError R -> string).

(** The refusals are the caller's fault, the rest is the daemon's. *)
Definition api_map_err (e : RegistryError R) : Z * string :=
  match e with Refused _ => (BAD_REQUEST, display e) | _ => (INTERNAL_SERVER_ERROR, display e) end.

(** Every change: load the file, apply the operation, save unless it was refused.
    Nothing is locked: other requests may run between the load and the rest. *)
Definition api_finish {A} (path : string) (op : Snapshot E T -> Answer A * Snapshot E T) (io : Io) (s : Snapshot E T)
    (disk : Disk) : Answer (A * Snapshot E T) * Disk :=
  match op s with
  | (Err e, _) => (Err e, disk)
  | (Ok a, s') =>
      match save path s' (io_save io) disk with
      | (Err e, disk) => (Err (INTERNAL_SERVER_ERROR, display e), disk)
      | (Ok _, disk) => (Ok (a, s'), disk)
      end
  end.

Definition api_update {A} (path : string) (op : Snapshot E T -> Answer A * Snapshot E T) (io : Io) (disk : Disk) :
    Answer (A * Snapshot E T) * Disk :=
  match load path (io_read io) disk with
  | Err e => (Err (INTERNAL_SERVER_ERROR, display e), disk)
  | Ok s => api_finish path op io s disk
  end.

Definition lift_err {A} (p : result A (RegistryError R) * Snapshot E T) : Answer A * Snapshot E T :=
  (match p.1 with Ok a => Ok a | Err e => Err (api_map_err e) end, p.2).

(** An operation that reports whether it found its target. *)
Definition or_not_found (message : string) (p : Answer bool * Snapshot E T) : Answer unit * Snapshot E T :=
  (match p.1 with Ok true => Ok tt | Ok false => Err (NOT_FOUND, message) | Err e => Err e end, p.2).

(** The answer of a change is the new snapshot, or the entry that was made. *)
Definition answer_snapshot {A} (p : Answer (A * Snapshot E T) * Disk) : Answer (Snapshot E T) * Disk :=
  (match p.1 with Ok (_, s) => Ok s | Err e => Err e end, p.2).

Definition answer_entry `{!TtlEntry E St} (missing : string) (p : Answer (string * Snapshot E T) * Disk) :
    Answer E * Disk :=
  (match p.1 with
   | Ok (id, s) =>
       match list_find (fun e => tt_id e = id) (sn_entries s) with
       | Some (_, e) => Ok e
       | None => Err (INTERNAL_SERVER_ERROR, missing)
       end
   | Err e => Err e
   end, p.2).
End api.

(** The identifier of an entry: the clock in hexadecimal behind a prefix ([i128]). *)
Definition stamp_id (prefix : string) (now : Z) : string := prefix +:+ show_hex (now `mod` 2 ^ 128).
