(* ===== verification/Registries.v ===== *)
(** * The five registries

    One Module per registry: its entries and tiles (crates/selfdef-*-mirror), its
    operations (crates/selfdef-*-registry, with the grant issuer, the overlap
    detector, the issuance cooldown and the trust-score engine), and the handlers
    of crates/selfdef-api. The shared parts are in Registry. *)

From S2P Require Import Prelude Core CapWord Registry.
From stdpp Require Import options.

(** ** Grants *)

Module Grants.

Module GrantKind.
Inductive t := Filesystem | Network | Capability | Communication | Sandbox.

#[global] Instance eq_dec : EqDecision t.
Proof. solve_decision. Defined.
Definition rank (k : t) : nat :=
  match k with Filesystem => 0 | Network => 1 | Capability => 2 | Communication => 3 | Sandbox => 4 end.
Definition all : list t := [Filesystem; Network; Capability; Communication; Sandbox].
#[global] Program Instance countable : Countable t := inj_countable rank (fun n => all !! n) _.
Next Obligation. by intros []. Qed.
Definition debug (k : t) : string :=
  match k with
  | Filesystem => "Filesystem" | Network => "Network" | Capability => "Capability"
  | Communication => "Communication" | Sandbox => "Sandbox"
  end.
End GrantKind.

Module GrantState.
Inductive t := Pending | Active | Expired | Revoked | Quarantined.

#[global] Instance eq_dec : EqDecision t.
Proof. solve_decision. Defined.
End GrantState.

Record GrantEntry := mkGrantEntry {
  grant_id : string;
  kind : GrantKind.t;
  scope : string;
  reason : string;
  issued_at : string;
  expires_at : string;
  ttl_seconds : Z;
  profile : string;
  actor : string;
  state : GrantState.t;
  trace_id : string;
  signature : string;
}.

Definition with_state (st : GrantState.t) (g : GrantEntry) : GrantEntry :=
  mkGrantEntry (grant_id g) (kind g) (scope g) (reason g) (issued_at g) (expires_at g) (ttl_seconds g)
    (profile g) (actor g) st (trace_id g) (signature g).

Record GrantSummary := mkGrantSummary {
  gs_kind : GrantKind.t;
  gs_active : Z;
  gs_pending : Z;
  gs_expired_24h : Z;
  gs_revoked_24h : Z;
  gs_quarantined : Z;
}.

Definition tile_zero (k : GrantKind.t) : GrantSummary := mkGrantSummary k 0 0 0 0 0.

Definition tile_count (g : GrantEntry) (t : GrantSummary) : GrantSummary :=
  let '(mkGrantSummary k a p e r q) := t in
  match state g with
  | GrantState.Active => mkGrantSummary k (incr32 a) p e r q
  | GrantState.Pending => mkGrantSummary k a (incr32 p) e r q
  | GrantState.Expired => mkGrantSummary k a p (incr32 e) r q
  | GrantState.Revoked => mkGrantSummary k a p e (incr32 r) q
  | GrantState.Quarantined => mkGrantSummary k a p e r (incr32 q)
  end.

Definition recompute_grants `{!HashValues GrantKind.t GrantSummary} (l : list GrantEntry) : list GrantSummary :=
  tiles kind tile_zero tile_count (fun t => GrantKind.rank (gs_kind t)) l.
#[global] Instance registry `{!HashValues GrantKind.t GrantSummary} : Registry GrantEntry GrantSummary :=
  {| recompute_summaries := recompute_grants |}.

#[global] Instance ttl_entry : TtlEntry GrantEntry GrantState.t :=
  {| tt_id := grant_id; tt_state := state; tt_set := with_state; tt_until := expires_at;
     tt_live := fun st => match st with GrantState.Active | GrantState.Pending => true | _ => false end;
     tt_over := GrantState.Expired |}.

Definition active_count (s : Snapshot GrantEntry GrantSummary) : nat :=
  length (filter (fun g => state g = GrantState.Active) (sn_entries s)).
Definition attention_count (s : Snapshot GrantEntry GrantSummary) : nat :=
  length (filter (fun g => state g = GrantState.Pending \/ state g = GrantState.Quarantined) (sn_entries s)).

Inductive MirrorError :=
| SchemaMismatch (expected actual : string)
| SignatureFailed (e : string)
| EmptySnapshot
| Deserialize (e : string).

Definition major (version : string) : string := default "" (head (split "." version)).

Definition validate_schema {E T} (s : Snapshot E T) : result unit MirrorError :=
  if bool_decide (sn_schema_version s = SCHEMA_VERSION) then Ok tt
  else if negb (bool_decide (major (sn_schema_version s) = major SCHEMA_VERSION))
  then Err (SchemaMismatch SCHEMA_VERSION (sn_schema_version s))
  else Ok tt.

(** *** The issuer *)

Definition DEFAULT_TTL_SECONDS : Z := 60.

Record GrantRequest := mkGrantRequest {
  rq_kind : GrantKind.t;
  rq_scope : string;
  rq_reason : string;
  rq_profile : string;
  rq_actor : string;
  rq_ttl_seconds : Z;
  rq_signature : string;
}.

Inductive IssueError :=
| IssueSchemaMismatch
| Unsigned
| EmptyScope
| EmptyReason
| EmptyActor
| EmptyProfile
| TtlAboveCeiling (ttl ceiling : Z)
| TtlZero.

Definition issue_error_display (e : IssueError) : string :=
  match e with
  | IssueSchemaMismatch => "schema version mismatch"
  | Unsigned => "request unsigned (MS003 signature required)"
  | EmptyScope => "scope empty"
  | EmptyReason => "reason empty (R09657 non-empty requirement)"
  | EmptyActor => "actor empty"
  | EmptyProfile => "profile empty"
  | TtlAboveCeiling t c => "ttl " +:+ show_uint t +:+ "s above " +:+ show_uint c +:+ "s ceiling"
  | TtlZero => "ttl=0 not allowed (grants must have non-zero lifetime)"
  end.

Definition issue_entry (req : GrantRequest) (id issued expires trace : string) : result GrantEntry IssueError :=
  if bool_decide (rq_signature req = "") then Err Unsigned
  else if bool_decide (rq_scope req = "") then Err EmptyScope
  else if bool_decide (rq_reason req = "") then Err EmptyReason
  else if bool_decide (rq_actor req = "") then Err EmptyActor
  else if bool_decide (rq_profile req = "") then Err EmptyProfile
  else if (rq_ttl_seconds req =? 0)%Z then Err TtlZero
  else if (MAX_TTL_SECONDS <? rq_ttl_seconds req)%Z then Err (TtlAboveCeiling (rq_ttl_seconds req) MAX_TTL_SECONDS)
  else Ok (mkGrantEntry id (rq_kind req) (rq_scope req) (rq_reason req) issued expires (rq_ttl_seconds req)
             (rq_profile req) (rq_actor req) GrantState.Pending trace (rq_signature req)).

(** *** The registry *)

Section registry.
Context `{WireFormat} `{Rfc3339} `{!HashValues GrantKind.t GrantSummary}.

Abbreviation Snap := (Snapshot GrantEntry GrantSummary).
Abbreviation Error := (RegistryError IssueError).

Definition issue (req : GrantRequest) (id trace : string) (now : Z) (s : Snap) : result string Error * Snap :=
  match (let? issued := format_time now in
         let? expires := format_time (after_secs now (rq_ttl_seconds req)) in
         match issue_entry req id issued expires trace with Ok e => Ok e | Err e => Err (Refused e) end) with
  | Err e => (Err e, s)
  | Ok entry => and_return id (recompute now (with_entries (sn_entries s ++ [entry]) s))
  end.

Definition activate (id : string) : Z -> Snap -> result bool Error * Snap := set_state id GrantState.Active.
Definition revoke (id : string) : Z -> Snap -> result bool Error * Snap := set_state id GrantState.Revoked.
End registry.

(** *** Overlap *)

Definition trim_trailing_slash (s : string) : string :=
  if (1 <? String.length s) && ends_with s "/" then default s (strip_suffix "/" s) else s.

Definition overlaps (k : GrantKind.t) (a b : string) : option string :=
  if bool_decide (a = b) then Some ("identical scope " +:+ a)
  else match k with
       | GrantKind.Filesystem =>
           let a_p := trim_trailing_slash a +:+ "/" in
           let b_p := trim_trailing_slash b +:+ "/" in
           if starts_with b a_p then Some (a +:+ " prefix of " +:+ b)
           else if starts_with a b_p then Some (b +:+ " prefix of " +:+ a)
           else None
       | GrantKind.Network =>
           if starts_with a "." && ends_with b a then Some (a +:+ " suffix-covers " +:+ b)
           else if starts_with b "." && ends_with a b then Some (b +:+ " suffix-covers " +:+ a)
           else None
       | _ => None
       end.

Record OverlapPair := mkOverlapPair {
  op_grant_a : string;
  op_grant_b : string;
  op_kind : GrantKind.t;
  op_reason : string;
}.

Definition scan_pair (a b : GrantEntry) : option OverlapPair :=
  if bool_decide (kind a = kind b) then
    reason ← overlaps (kind a) (scope a) (scope b);
    Some (mkOverlapPair (grant_id a) (grant_id b) (kind a) reason)
  else None.

Fixpoint scan_active (active : list GrantEntry) : list OverlapPair :=
  match active with
  | [] => []
  | a :: rest => omap (scan_pair a) rest ++ scan_active rest
  end.

Definition scan (grants : list GrantEntry) : list OverlapPair :=
  scan_active (filter (fun g => state g = GrantState.Active) grants).

(** *** Issuance cooldown *)

Record GrantIssuanceCooldown := mkCooldown {
  cd_schema_version : string;
  cd_cooldown_ms : Z;
  cd_last : gmap string Z;
}.

Inductive CooldownVerdict := Ready | Cooldown (ready_at_ms : Z).
Inductive CooldownError := CooldownSchemaMismatch | EmptyId.

Definition cooldown_new (ms : Z) : GrantIssuanceCooldown := mkCooldown SCHEMA_VERSION ms ∅.

Definition record_issued (template : string) (ts : Z) (c : GrantIssuanceCooldown) :
    result unit CooldownError * GrantIssuanceCooldown :=
  if bool_decide (template = "") then (Err EmptyId, c)
  else (Ok tt, mkCooldown (cd_schema_version c) (cd_cooldown_ms c) (<[template := ts]> (cd_last c))).

Definition classify (c : GrantIssuanceCooldown) (template : string) (now : Z) : CooldownVerdict :=
  match cd_last c !! template with
  | None => Ready
  | Some prev =>
      let ready_at := ((prev + cd_cooldown_ms c) `min` u64_max)%Z in
      if (ready_at <=? now)%Z then Ready else Cooldown ready_at
  end.

Definition rotate (now : Z) (c : GrantIssuanceCooldown) : GrantIssuanceCooldown :=
  mkCooldown (cd_schema_version c) (cd_cooldown_ms c)
    (filter (fun kt => ((now - kt.2) `max` 0 < cd_cooldown_ms c)%Z) (cd_last c)).

Definition cooldown_validate (c : GrantIssuanceCooldown) : result unit CooldownError :=
  if negb (bool_decide (cd_schema_version c = SCHEMA_VERSION)) then Err CooldownSchemaMismatch
  else if bool_decide (is_Some (cd_last c !! "")) then Err EmptyId
  else Ok tt.

(** *** Handlers *)

Inductive GrantsOverlapPolicy := Off | Warn | Refuse.

(** The text of an answer: a refusal is answered with the text of the issuer's error. *)
Definition display (e : RegistryError IssueError) : string := registry_display "grants" issue_error_display e.

Definition identity (a : string) (k : GrantKind.t) (s : string) : string := a +:+ "|" +:+ GrantKind.debug k +:+ "|" +:+ s.
Definition grant_key_req (req : GrantRequest) : string := identity (rq_actor req) (rq_kind req) (rq_scope req).
Definition grant_key_entry (g : GrantEntry) : string := identity (actor g) (kind g) (scope g).

(** [(nanos / 1_000_000) as u64] *)
Definition epoch_ms (nanos : Z) : Z := (nanos ÷ 1000000) `mod` 2 ^ 64.

Section handlers.
Context `{WireFormat} `{Rfc3339} `{!HashValues GrantKind.t GrantSummary} `{!SnapshotJson GrantEntry GrantSummary}.
Abbreviation Snap := (Snapshot GrantEntry GrantSummary).

Definition parse_rfc3339_ms (s : string) : option Z := epoch_ms <$> rfc3339_parse s.

Definition max_of (l : list Z) : option Z :=
  match l with [] => None | x :: l => Some (foldl Z.max x l) end.

Definition cooldown_ready_at_ms (grants : list GrantEntry) (candidate key : string) (cooldown_secs now_ms : Z) : option Z :=
  latest ← max_of (omap (fun g => parse_rfc3339_ms (issued_at g))
             (filter (fun g => grant_key_entry g = key) (filter (fun g => grant_id g <> candidate) grants)));
  match record_issued key latest (cooldown_new ((cooldown_secs * 1000) `min` u64_max)) with
  | (Err _, _) => None
  | (Ok _, ledger) => match classify ledger key now_ms with Ready => None | Cooldown t => Some t end
  end.

Definition candidate_overlap (grants : list GrantEntry) (candidate : string) : option GrantEntry :=
  let for_scan :=
    (fun g => if bool_decide (grant_id g = candidate) then with_state GrantState.Active g else g)
      <$> filter (fun g => state g = GrantState.Active \/ grant_id g = candidate) grants in
  pair ← head (filter (fun p => op_grant_a p = candidate \/ op_grant_b p = candidate) (scan for_scan));
  let other := if bool_decide (op_grant_a pair = candidate) then op_grant_b pair else op_grant_a pair in
  snd <$> list_find (fun g => grant_id g = other) for_scan.

Definition show_grants (path : string) (io : Io) (disk : Disk) : Answer Snap :=
  match load path (io_read io) disk with
  | Err e => Err (INTERNAL_SERVER_ERROR, display e)
  | Ok s => Ok (expire_due (R := IssueError) (io_now io) s).2
  end.

(** The gates between minting a grant and saving it. *)
Definition gate (policy : GrantsOverlapPolicy) (cooldown_secs : Z) (req : GrantRequest) (id : string) (now : Z)
    (grants : list GrantEntry) : Answer string :=
  let key := grant_key_req req in
  match (if (0 <? cooldown_secs)%Z then cooldown_ready_at_ms grants id key cooldown_secs (epoch_ms now) else None) with
  | Some ready =>
      Err (TOO_MANY_REQUESTS, "grant " +:+ id +:+ " (" +:+ key +:+ ") re-issued within the " +:+ show_uint cooldown_secs
             +:+ "s issuance cooldown; ready at epoch-ms " +:+ show_uint ready)
  | None =>
      match policy with
      | Off => Ok id
      | Warn => Ok id
      | Refuse =>
          match candidate_overlap grants id with
          | Some other =>
              Err (CONFLICT, "grant " +:+ id +:+ " (" +:+ rq_scope req +:+ ") overlaps active grant " +:+ grant_id other
                     +:+ ": " +:+ reason other)
          | None => Ok id
          end
      end
  end.

Definition issue_op (policy : GrantsOverlapPolicy) (cooldown_secs : Z) (req : GrantRequest) (now : Z) (s : Snap) :
    Answer string * Snap :=
  match lift_err display (issue req (stamp_id "gr-" now) (stamp_id "tr-" now) now s) with
  | (Err e, s) => (Err e, s)
  | (Ok id, s) => (gate policy cooldown_secs req id now (sn_entries s), s)
  end.

Definition issue_handler (path : string) (policy : GrantsOverlapPolicy) (cooldown_secs : Z) (req : GrantRequest)
    (io : Io) (disk : Disk) : Answer GrantEntry * Disk :=
  answer_entry "issued grant missing from registry"
    (api_update display path (issue_op policy cooldown_secs req (io_now io)) io disk).

Definition revoke_op (id : string) (now : Z) (s : Snap) : Answer unit * Snap :=
  or_not_found ("no grant with id " +:+ id) (lift_err display (revoke id now s)).

Definition revoke_handler (path id : string) (io : Io) (disk : Disk) : Answer Snap * Disk :=
  answer_snapshot (api_update display path (revoke_op id (io_now io)) io disk).
End handlers.
End Grants.

(** ** Capability tokens *)

Module CapTokens.

Module TokenState.
Inductive t := Pending | Active | Expired | Revoked | Quarantined.

#[global] Instance eq_dec : EqDecision t.
Proof. solve_decision. Defined.
End TokenState.

Module TrustRing.
Inductive t := Ring0 | Ring1 | Ring2 | Ring3 | Ring4.

#[global] Instance eq_dec : EqDecision t.
Proof. solve_decision. Defined.
Definition rank (k : t) : nat :=
  match k with Ring0 => 0 | Ring1 => 1 | Ring2 => 2 | Ring3 => 3 | Ring4 => 4 end.
Definition all : list t := [Ring0; Ring1; Ring2; Ring3; Ring4].
#[global] Program Instance countable : Countable t := inj_countable rank (fun n => all !! n) _.
Next Obligation. by intros []. Qed.
End TrustRing.

Inductive AuthorityLevel := L0Observe | L1Suggest | L2Simulate | L3Prepare | L4Execute | L5Commit | L6Persist.

Record CapabilityEntry := mkCapabilityEntry {
  token_id : string;
  capability_word : string;
  actor : string;
  profile : string;
  trust_ring : TrustRing.t;
  authority_level : AuthorityLevel;
  allowed_tools : list string;
  sandbox_tier : string;
  issued_at : string;
  expires_at : string;
  ttl_seconds : Z;
  state : TokenState.t;
  trace_id : string;
  parent_token_id : string;
  signature : string;
}.

Definition with_state (st : TokenState.t) (t : CapabilityEntry) : CapabilityEntry :=
  mkCapabilityEntry (token_id t) (capability_word t) (actor t) (profile t) (trust_ring t) (authority_level t)
    (allowed_tools t) (sandbox_tier t) (issued_at t) (expires_at t) (ttl_seconds t) st (trace_id t)
    (parent_token_id t) (signature t).

Record RingSummary := mkRingSummary {
  rs_ring : TrustRing.t;
  rs_active : Z;
  rs_pending : Z;
  rs_expired_24h : Z;
  rs_revoked_24h : Z;
  rs_quarantined : Z;
}.

Definition tile_zero (k : TrustRing.t) : RingSummary := mkRingSummary k 0 0 0 0 0.

Definition tile_count (g : CapabilityEntry) (t : RingSummary) : RingSummary :=
  let '(mkRingSummary k a p e r q) := t in
  match state g with
  | TokenState.Active => mkRingSummary k (incr32 a) p e r q
  | TokenState.Pending => mkRingSummary k a (incr32 p) e r q
  | TokenState.Expired => mkRingSummary k a p (incr32 e) r q
  | TokenState.Revoked => mkRingSummary k a p e (incr32 r) q
  | TokenState.Quarantined => mkRingSummary k a p e r (incr32 q)
  end.

Definition recompute_tokens `{!HashValues TrustRing.t RingSummary} (l : list CapabilityEntry) : list RingSummary :=
  tiles trust_ring tile_zero tile_count (fun t => TrustRing.rank (rs_ring t)) l.
#[global] Instance registry `{!HashValues TrustRing.t RingSummary} : Registry CapabilityEntry RingSummary :=
  {| recompute_summaries := recompute_tokens |}.

#[global] Instance ttl_entry : TtlEntry CapabilityEntry TokenState.t :=
  {| tt_id := token_id; tt_state := state; tt_set := with_state; tt_until := expires_at;
     tt_live := fun st => match st with TokenState.Active | TokenState.Pending => true | _ => false end;
     tt_over := TokenState.Expired |}.

Definition active_count (s : Snapshot CapabilityEntry RingSummary) : nat :=
  length (filter (fun t => state t = TokenState.Active) (sn_entries s)).
Definition attention_count (s : Snapshot CapabilityEntry RingSummary) : nat :=
  length (filter (fun t => state t = TokenState.Pending \/ state t = TokenState.Quarantined) (sn_entries s)).

(** Children of each token, in the order of the list. *)
Definition inheritance_map (s : Snapshot CapabilityEntry RingSummary) : gmap string (list string) :=
  foldl (fun m t =>
    if bool_decide (parent_token_id t = "") then m
    else <[parent_token_id t := default [] (m !! parent_token_id t) ++ [token_id t]]> m) ∅ (sn_entries s).

Definition SANDBOX_TIERS : list string := ["A"; "B"; "C"; "D"].

Record CapabilityRequest := mkCapabilityRequest {
  rq_actor : string;
  rq_profile : string;
  rq_allowed_tools : list string;
  rq_trust_ring : TrustRing.t;
  rq_authority_level : AuthorityLevel;
  rq_sandbox_tier : string;
  rq_parent_token_id : string;
  rq_ttl_seconds : Z;
  rq_signature : string;
}.

Inductive Refusal :=
| Unsigned
| EmptyField (name : string)
| EmptyTools
| UnknownTool (tool valid : string)
| InvalidSandboxTier (tier : string)
| TtlAboveCeiling (ttl ceiling : Z)
| TtlZero
| WordBuild (e : string).

Definition refusal_display `{UnicodeTables} (e : Refusal) : string :=
  match e with
  | Unsigned => "request unsigned (MS003 signature required)"
  | EmptyField f => "mandatory field empty: " +:+ f
  | EmptyTools => "allowed_tools empty (token must grant at least one tool)"
  | UnknownTool t v => "unknown tool " +:+ str_debug t +:+ " (expected one of " +:+ v +:+ ")"
  | InvalidSandboxTier t => "invalid sandbox_tier " +:+ str_debug t +:+ " (expected one of A/B/C/D)"
  | TtlAboveCeiling t c => "ttl " +:+ show_uint t +:+ "s above " +:+ show_uint c +:+ "s ceiling"
  | TtlZero => "ttl=0 not allowed (tokens must have non-zero lifetime)"
  | WordBuild e => "capability_word build failed: " +:+ e
  end.

Definition tool_token (t : ToolClass.t) : string :=
  match t with
  | ToolClass.ReadOnlyHost => "read-only-host"
  | ToolClass.WriteHost => "write-host"
  | ToolClass.Tests => "tests"
  | ToolClass.Builds => "builds"
  | ToolClass.NetworkEgress => "network-egress"
  | ToolClass.GpuCompute => "gpu-compute"
  | ToolClass.VmSpawn => "vm-spawn"
  | ToolClass.Browser => "browser"
  end.

Definition parse_tool (token : string) : option ToolClass.t :=
  if bool_decide (token = "read-only-host") then Some ToolClass.ReadOnlyHost
  else if bool_decide (token = "write-host") then Some ToolClass.WriteHost
  else if bool_decide (token = "tests") then Some ToolClass.Tests
  else if bool_decide (token = "builds") then Some ToolClass.Builds
  else if bool_decide (token = "network-egress") then Some ToolClass.NetworkEgress
  else if bool_decide (token = "gpu-compute") then Some ToolClass.GpuCompute
  else if bool_decide (token = "vm-spawn") then Some ToolClass.VmSpawn
  else if bool_decide (token = "browser") then Some ToolClass.Browser
  else None.

Definition valid_tools_csv : string :=
  join ", " ["read-only-host"; "write-host"; "tests"; "builds"; "network-egress"; "gpu-compute"; "vm-spawn"; "browser"].

Definition trust_ring_numeric (r : TrustRing.t) : Z :=
  match r with
  | TrustRing.Ring0 => 0 | TrustRing.Ring1 => 1 | TrustRing.Ring2 => 2 | TrustRing.Ring3 => 3 | TrustRing.Ring4 => 4
  end.

Fixpoint parse_tools (l : list string) : result (list ToolClass.t) Refusal :=
  match l with
  | [] => Ok []
  | tok :: l =>
      match parse_tool tok with
      | None => Err (UnknownTool tok valid_tools_csv)
      | Some t => let? ts := parse_tools l in Ok (t :: ts)
      end
  end.

Definition cap_error_debug (e : CapError) : string :=
  match e with
  | InvalidFilesystemScope b => "InvalidFilesystemScope(" +:+ show_uint b +:+ ")"
  | InvalidTrustLevel b => "InvalidTrustLevel(" +:+ show_uint b +:+ ")"
  | InvalidNetworkScope b => "InvalidNetworkScope(" +:+ show_uint b +:+ ")"
  end.

Definition build_word (tools : list ToolClass.t) (ring : TrustRing.t) : result string Refusal :=
  let word := foldl (fun w t => allow_tool t w) word_empty tools in
  match set_trust_level (trust_ring_numeric ring) word with
  | Ok w => Ok (to_hex w)
  | Err e => Err (WordBuild (cap_error_debug e))
  end.

(** The checks of a request, and the tools and the word it asks for. *)
Definition check_request (req : CapabilityRequest) : result (list ToolClass.t * string) Refusal :=
  if bool_decide (rq_signature req = "") then Err Unsigned
  else if bool_decide (rq_actor req = "") then Err (EmptyField "actor")
  else if bool_decide (rq_profile req = "") then Err (EmptyField "profile")
  else if bool_decide (rq_allowed_tools req = []) then Err EmptyTools
  else if negb (bool_decide (rq_sandbox_tier req ∈ SANDBOX_TIERS)) then Err (InvalidSandboxTier (rq_sandbox_tier req))
  else if (rq_ttl_seconds req =? 0)%Z then Err TtlZero
  else if (MAX_TTL_SECONDS <? rq_ttl_seconds req)%Z then Err (TtlAboveCeiling (rq_ttl_seconds req) MAX_TTL_SECONDS)
  else
    let? tools := parse_tools (rq_allowed_tools req) in
    let? word := build_word tools (rq_trust_ring req) in
    Ok (tools, word).

Section registry.
Context `{WireFormat} `{Rfc3339} `{!HashValues TrustRing.t RingSummary}.

Abbreviation Snap := (Snapshot CapabilityEntry RingSummary).
Abbreviation Error := (RegistryError Refusal).

Definition issue (req : CapabilityRequest) (id trace : string) (now : Z) (s : Snap) : result string Error * Snap :=
  match check_request req with
  | Err e => (Err (Refused e), s)
  | Ok (tools, word) =>
      match (let? issued := format_time now in
             let? expires := format_time (after_secs now (rq_ttl_seconds req)) in Ok (issued, expires)) with
      | Err e => (Err e, s)
      | Ok (issued, expires) =>
          let entry := mkCapabilityEntry id word (rq_actor req) (rq_profile req) (rq_trust_ring req)
            (rq_authority_level req) (tool_token <$> tools) (rq_sandbox_tier req) issued expires (rq_ttl_seconds req)
            TokenState.Pending trace (rq_parent_token_id req) (rq_signature req) in
          and_return id (recompute now (with_entries (sn_entries s ++ [entry]) s))
      end
  end.

Definition activate (id : string) : Z -> Snap -> result bool Error * Snap := set_state id TokenState.Active.
Definition revoke (id : string) : Z -> Snap -> result bool Error * Snap := set_state id TokenState.Revoked.
End registry.

Section handlers.
Context `{UnicodeTables} `{WireFormat} `{Rfc3339} `{!HashValues TrustRing.t RingSummary}
  `{!SnapshotJson CapabilityEntry RingSummary}.
Abbreviation Snap := (Snapshot CapabilityEntry RingSummary).

Definition display (e : RegistryError Refusal) : string := registry_display "capability-tokens" refusal_display e.

Definition snapshot_handler (path : string) (io : Io) (disk : Disk) : Answer Snap :=
  match load path (io_read io) disk with
  | Err e => Err (INTERNAL_SERVER_ERROR, display e)
  | Ok s => Ok (expire_due (R := Refusal) (io_now io) s).2
  end.

Definition issue_op (req : CapabilityRequest) (now : Z) (s : Snap) : Answer string * Snap :=
  lift_err display (issue req (stamp_id "tok-" now) (stamp_id "tr-" now) now s).

Definition issue_handler (path : string) (req : CapabilityRequest) (io : Io) (disk : Disk) : Answer CapabilityEntry * Disk :=
  answer_entry "issued capability token missing from registry"
    (api_update display path (issue_op req (io_now io)) io disk).

Definition revoke_op (id : string) (now : Z) (s : Snap) : Answer unit * Snap :=
  or_not_found ("no capability token with id " +:+ id) (lift_err display (revoke id now s)).

Definition revoke_handler (path id : string) (io : Io) (disk : Disk) : Answer Snap * Disk :=
  answer_snapshot (api_update display path (revoke_op id (io_now io)) io disk).
End handlers.
End CapTokens.

(** ** Sandboxes *)

Module Sandboxes.

Module SandboxTier.
Inductive t := TierA | TierB | TierC | TierD.

#[global] Instance eq_dec : EqDecision t.
Proof. solve_decision. Defined.
Definition rank (k : t) : nat := match k with TierA => 0 | TierB => 1 | TierC => 2 | TierD => 3 end.
Definition all : list t := [TierA; TierB; TierC; TierD].
#[global] Program Instance countable : Countable t := inj_countable rank (fun n => all !! n) _.
Next Obligation. by intros []. Qed.
Definition debug (k : t) : string :=
  match k with TierA => "TierA" | TierB => "TierB" | TierC => "TierC" | TierD => "TierD" end.
End SandboxTier.

Module AllocationState.
Inductive t := Pending | Running | Checkpointed | Idle | Released | Quarantined.

#[global] Instance eq_dec : EqDecision t.
Proof. solve_decision. Defined.
End AllocationState.

Inductive IsolationPrimitive :=
| HostSeccomp | UserNamespace | NetworkedNamespace | KvmVfio | KvmHeadless | CriuCheckpoint | ZfsClone
| FirecrackerMicrovm.

Record AllocationEntry := mkAllocationEntry {
  allocation_id : string;
  tier : SandboxTier.t;
  ms032_tier : Z;
  isolation : IsolationPrimitive;
  tool : string;
  capability_token_id : string;
  profile : string;
  actor : string;
  allocated_at : string;
  release_at : string;
  ttl_seconds : Z;
  resident_mb : Z;
  cpu_percent : Z;
  state : AllocationState.t;
  trace_id : string;
  signature : string;
}.

Definition with_state (st : AllocationState.t) (a : AllocationEntry) : AllocationEntry :=
  mkAllocationEntry (allocation_id a) (tier a) (ms032_tier a) (isolation a) (tool a) (capability_token_id a) (profile a)
    (actor a) (allocated_at a) (release_at a) (ttl_seconds a) (resident_mb a) (cpu_percent a) st (trace_id a) (signature a).

Record TierSummary := mkTierSummary {
  ts_tier : SandboxTier.t;
  ts_running : Z;
  ts_pending : Z;
  ts_checkpointed : Z;
  ts_idle : Z;
  ts_released_24h : Z;
  ts_quarantined : Z;
}.

Definition tile_zero (k : SandboxTier.t) : TierSummary := mkTierSummary k 0 0 0 0 0 0.

Definition tile_count (g : AllocationEntry) (t : TierSummary) : TierSummary :=
  let '(mkTierSummary k r p c i l q) := t in
  match state g with
  | AllocationState.Running => mkTierSummary k (incr32 r) p c i l q
  | AllocationState.Pending => mkTierSummary k r (incr32 p) c i l q
  | AllocationState.Checkpointed => mkTierSummary k r p (incr32 c) i l q
  | AllocationState.Idle => mkTierSummary k r p c (incr32 i) l q
  | AllocationState.Released => mkTierSummary k r p c i (incr32 l) q
  | AllocationState.Quarantined => mkTierSummary k r p c i l (incr32 q)
  end.

Definition recompute_tiers `{!HashValues SandboxTier.t TierSummary} (l : list AllocationEntry) : list TierSummary :=
  tiles tier tile_zero tile_count (fun t => SandboxTier.rank (ts_tier t)) l.
#[global] Instance registry `{!HashValues SandboxTier.t TierSummary} : Registry AllocationEntry TierSummary :=
  {| recompute_summaries := recompute_tiers |}.

#[global] Instance ttl_entry : TtlEntry AllocationEntry AllocationState.t :=
  {| tt_id := allocation_id; tt_state := state; tt_set := with_state; tt_until := release_at;
     tt_live := fun st => match st with AllocationState.Running | AllocationState.Pending => true | _ => false end;
     tt_over := AllocationState.Released |}.

Definition running_count (s : Snapshot AllocationEntry TierSummary) : nat :=
  length (filter (fun a => state a = AllocationState.Running) (sn_entries s)).
Definition total_resident_mb (s : Snapshot AllocationEntry TierSummary) : Z :=
  foldl Z.add 0%Z (resident_mb <$>
    filter (fun a => state a = AllocationState.Running \/ state a = AllocationState.Checkpointed) (sn_entries s)).

Definition ms032_range_for (t : SandboxTier.t) : Z * Z :=
  match t with
  | SandboxTier.TierA => (1, 1)
  | SandboxTier.TierB => (2, 5)
  | SandboxTier.TierC => (6, 6)
  | SandboxTier.TierD => (7, 9)
  end%Z.

(** [validate_ms032_indices]: the first index outside of 1..9. *)
Definition validate_ms032_indices (s : Snapshot AllocationEntry TierSummary) : result unit Z :=
  match list_find (fun a => ms032_tier a = 0%Z \/ (9 < ms032_tier a)%Z) (sn_entries s) with
  | Some (_, a) => Err (ms032_tier a)
  | None => Ok tt
  end.

Record AllocationRequest := mkAllocationRequest {
  rq_actor : string;
  rq_profile : string;
  rq_tier : SandboxTier.t;
  rq_ms032_tier : Z;
  rq_isolation : IsolationPrimitive;
  rq_tool : string;
  rq_capability_token_id : string;
  rq_ttl_seconds : Z;
  rq_signature : string;
}.

Inductive Refusal :=
| Unsigned
| EmptyField (name : string)
| Ms032OutOfRange (got lo hi : Z) (t : SandboxTier.t)
| TtlAboveCeiling (ttl ceiling : Z)
| TtlZero.

Definition refusal_display (e : Refusal) : string :=
  match e with
  | Unsigned => "request unsigned (MS003 signature required)"
  | EmptyField f => "mandatory field empty: " +:+ f
  | Ms032OutOfRange g lo hi t =>
      "ms032_tier " +:+ show_uint g +:+ " outside range " +:+ show_uint lo +:+ ".." +:+ show_uint hi +:+ " for tier "
      +:+ SandboxTier.debug t
  | TtlAboveCeiling t c => "ttl " +:+ show_uint t +:+ "s above " +:+ show_uint c +:+ "s ceiling"
  | TtlZero => "ttl=0 not allowed (allocations must have non-zero lifetime)"
  end.

Definition check_request (req : AllocationRequest) : result unit Refusal :=
  let '(lo, hi) := ms032_range_for (rq_tier req) in
  if bool_decide (rq_signature req = "") then Err Unsigned
  else if bool_decide (rq_actor req = "") then Err (EmptyField "actor")
  else if bool_decide (rq_profile req = "") then Err (EmptyField "profile")
  else if bool_decide (rq_tool req = "") then Err (EmptyField "tool")
  else if bool_decide (rq_capability_token_id req = "") then Err (EmptyField "capability_token_id")
  else if (rq_ttl_seconds req =? 0)%Z then Err TtlZero
  else if (MAX_TTL_SECONDS <? rq_ttl_seconds req)%Z then Err (TtlAboveCeiling (rq_ttl_seconds req) MAX_TTL_SECONDS)
  else if (rq_ms032_tier req <? lo)%Z || (hi <? rq_ms032_tier req)%Z
  then Err (Ms032OutOfRange (rq_ms032_tier req) lo hi (rq_tier req))
  else Ok tt.

Section registry.
Context `{WireFormat} `{Rfc3339} `{!HashValues SandboxTier.t TierSummary}.

Abbreviation Snap := (Snapshot AllocationEntry TierSummary).
Abbreviation Error := (RegistryError Refusal).

Definition allocate (req : AllocationRequest) (id trace : string) (now : Z) (s : Snap) : result string Error * Snap :=
  match check_request req with
  | Err e => (Err (Refused e), s)
  | Ok _ =>
      match (let? allocated := format_time now in
             let? release := format_time (after_secs now (rq_ttl_seconds req)) in Ok (allocated, release)) with
      | Err e => (Err e, s)
      | Ok (allocated, release) =>
          let entry := mkAllocationEntry id (rq_tier req) (rq_ms032_tier req) (rq_isolation req) (rq_tool req)
            (rq_capability_token_id req) (rq_profile req) (rq_actor req) allocated release (rq_ttl_seconds req) 0 0
            AllocationState.Pending trace (rq_signature req) in
          and_return id (recompute now (with_entries (sn_entries s ++ [entry]) s))
      end
  end.

Definition start (id : string) : Z -> Snap -> result bool Error * Snap := set_state id AllocationState.Running.
Definition release (id : string) : Z -> Snap -> result bool Error * Snap := set_state id AllocationState.Released.
End registry.

Section handlers.
Context `{WireFormat} `{Rfc3339} `{!HashValues SandboxTier.t TierSummary} `{!SnapshotJson AllocationEntry TierSummary}.
Abbreviation Snap := (Snapshot AllocationEntry TierSummary).

Definition display (e : RegistryError Refusal) : string := registry_display "sandboxes" refusal_display e.

Definition snapshot_handler (path : string) (io : Io) (disk : Disk) : Answer Snap :=
  match load path (io_read io) disk with
  | Err e => Err (INTERNAL_SERVER_ERROR, display e)
  | Ok s => Ok (expire_due (R := Refusal) (io_now io) s).2
  end.

Definition allocate_op (req : AllocationRequest) (now : Z) (s : Snap) : Answer string * Snap :=
  lift_err display (allocate req (stamp_id "alloc-" now) (stamp_id "tr-" now) now s).

Definition allocate_handler (path : string) (req : AllocationRequest) (io : Io) (disk : Disk) : Answer AllocationEntry * Disk :=
  answer_entry "issued allocation missing from registry"
    (api_update display path (allocate_op req (io_now io)) io disk).

Definition release_op (id : string) (now : Z) (s : Snap) : Answer unit * Snap :=
  or_not_found ("no allocation with id " +:+ id) (lift_err display (release id now s)).

Definition release_handler (path id : string) (io : Io) (disk : Disk) : Answer Snap * Disk :=
  answer_snapshot (api_update display path (release_op id (io_now io)) io disk).
End handlers.
End Sandboxes.

(** ** Quarantine *)

Module Quarantines.

Module MismatchSeverity.
Inductive t := Informational | Minor | Major | Critical.

#[global] Instance eq_dec : EqDecision t.
Proof. solve_decision. Defined.
(** Critical first. *)
Definition rank (k : t) : nat := match k with Critical => 0 | Major => 1 | Minor => 2 | Informational => 3 end.
Definition all : list t := [Critical; Major; Minor; Informational].
#[global] Program Instance countable : Countable t := inj_countable rank (fun n => all !! n) _.
Next Obligation. by intros []. Qed.
End MismatchSeverity.

Module QuarantineState.
Inductive t := Blocking | Quarantined | Released | Forfeited | AutoReleased.

#[global] Instance eq_dec : EqDecision t.
Proof. solve_decision. Defined.
End QuarantineState.

Inductive MismatchField := ReadPaths | WritePaths | NetworkDomains | EnvVars | SecretAccess | SideEffects | Rollback.

Record MismatchDetail := mkMismatchDetail {
  md_field : MismatchField;
  md_declared : string;
  md_observed : string;
  md_first_observed_at : string;
  md_severity : MismatchSeverity.t;
}.

Record QuarantineEntry := mkQuarantineEntry {
  quarantine_id : string;
  tool : string;
  declarer : string;
  capability_token_id : string;
  blocked_at : string;
  updated_at : string;
  state : QuarantineState.t;
  max_severity : MismatchSeverity.t;
  mismatches : list MismatchDetail;
  trace_id : string;
  signature : string;
}.

Record SeveritySummary := mkSeveritySummary {
  ss_severity : MismatchSeverity.t;
  ss_quarantined : Z;
  ss_released_24h : Z;
  ss_forfeited_24h : Z;
}.

Definition tile_zero (k : MismatchSeverity.t) : SeveritySummary := mkSeveritySummary k 0 0 0.

Definition tile_count (e : QuarantineEntry) (t : SeveritySummary) : SeveritySummary :=
  let '(mkSeveritySummary k q r f) := t in
  match state e with
  | QuarantineState.Quarantined | QuarantineState.Blocking => mkSeveritySummary k (incr32 q) r f
  | QuarantineState.Released | QuarantineState.AutoReleased => mkSeveritySummary k q (incr32 r) f
  | QuarantineState.Forfeited => mkSeveritySummary k q r (incr32 f)
  end.

Definition recompute_severities `{!HashValues MismatchSeverity.t SeveritySummary} (l : list QuarantineEntry) :
    list SeveritySummary :=
  tiles max_severity tile_zero tile_count (fun t => MismatchSeverity.rank (ss_severity t)) l.
#[global] Instance registry `{!HashValues MismatchSeverity.t SeveritySummary} : Registry QuarantineEntry SeveritySummary :=
  {| recompute_summaries := recompute_severities |}.

Definition quarantined_count (s : Snapshot QuarantineEntry SeveritySummary) : nat :=
  length (filter (fun e => state e = QuarantineState.Quarantined) (sn_entries s)).
Definition total_mismatches (s : Snapshot QuarantineEntry SeveritySummary) : nat :=
  foldl Nat.add 0 ((fun e => length (mismatches e)) <$> sn_entries s).

Record BlockReport := mkBlockReport {
  br_tool : string;
  br_declarer : string;
  br_capability_token_id : string;
  br_mismatches : list MismatchDetail;
}.

Record OverrideRequest := mkOverrideRequest {
  or_quarantine_id : string;
  or_actor : string;
  or_signature : string;
}.

Inductive Refusal := Unsigned | EmptyField (name : string) | EmptyMismatches.

Definition refusal_display (e : Refusal) : string :=
  match e with
  | Unsigned => "request unsigned (MS003 signature required)"
  | EmptyField f => "mandatory field empty: " +:+ f
  | EmptyMismatches => "block report has no mismatches (need at least one observed mismatch)"
  end.

Definition severity_max (a b : MismatchSeverity.t) : MismatchSeverity.t :=
  match a, b with
  | MismatchSeverity.Critical, _ | _, MismatchSeverity.Critical => MismatchSeverity.Critical
  | MismatchSeverity.Major, _ | _, MismatchSeverity.Major => MismatchSeverity.Major
  | MismatchSeverity.Minor, _ | _, MismatchSeverity.Minor => MismatchSeverity.Minor
  | _, _ => MismatchSeverity.Informational
  end.
Definition report_severity (l : list MismatchDetail) : MismatchSeverity.t :=
  foldl (fun m d => severity_max m (md_severity d)) MismatchSeverity.Informational l.

Section registry.
Context `{WireFormat} `{Rfc3339} `{!HashValues MismatchSeverity.t SeveritySummary}.

Abbreviation Snap := (Snapshot QuarantineEntry SeveritySummary).
Abbreviation Error := (RegistryError Refusal).

Definition record_block (report : BlockReport) (id trace : string) (now : Z) (s : Snap) : result string Error * Snap :=
  if bool_decide (br_tool report = "") then (Err (Refused (EmptyField "tool")), s)
  else if bool_decide (br_declarer report = "") then (Err (Refused (EmptyField "declarer")), s)
  else if bool_decide (br_capability_token_id report = "") then (Err (Refused (EmptyField "capability_token_id")), s)
  else match br_mismatches report with
       | [] => (Err (Refused EmptyMismatches), s)
       | _ =>
           match format_time now with
           | Err e => (Err e, s)
           | Ok stamp =>
               let entry := mkQuarantineEntry id (br_tool report) (br_declarer report) (br_capability_token_id report)
                 stamp stamp QuarantineState.Quarantined (report_severity (br_mismatches report)) (br_mismatches report)
                 trace "" in
               and_return id (recompute now (with_entries (sn_entries s ++ [entry]) s))
           end
       end.

Definition overridden (st : QuarantineState.t) (stamp sig : string) (e : QuarantineEntry) : QuarantineEntry :=
  mkQuarantineEntry (quarantine_id e) (tool e) (declarer e) (capability_token_id e) (blocked_at e) stamp st
    (max_severity e) (mismatches e) (trace_id e) sig.

Definition apply_override (req : OverrideRequest) (st : QuarantineState.t) (now : Z) (s : Snap) :
    result bool Error * Snap :=
  if bool_decide (or_signature req = "") then (Err (Refused Unsigned), s)
  else if bool_decide (or_actor req = "") then (Err (Refused (EmptyField "actor")), s)
  else match format_time now with
       | Err e => (Err e, s)
       | Ok stamp =>
           match list_find (fun e => quarantine_id e = or_quarantine_id req) (sn_entries s) with
           | Some (i, e) =>
               and_return true (recompute now
                 (with_entries (<[i := overridden st stamp (or_signature req) e]> (sn_entries s)) s))
           | None => (Ok false, s)
           end
       end.

Definition release (req : OverrideRequest) : Z -> Snap -> result bool Error * Snap :=
  apply_override req QuarantineState.Released.
Definition forfeit (req : OverrideRequest) : Z -> Snap -> result bool Error * Snap :=
  apply_override req QuarantineState.Forfeited.
End registry.

Section handlers.
Context `{WireFormat} `{Rfc3339} `{!HashValues MismatchSeverity.t SeveritySummary}
  `{!SnapshotJson QuarantineEntry SeveritySummary}.
Abbreviation Snap := (Snapshot QuarantineEntry SeveritySummary).

Definition display (e : RegistryError Refusal) : string := registry_display "quarantine" refusal_display e.

Definition snapshot_handler (path : string) (io : Io) (disk : Disk) : Answer Snap :=
  match load path (io_read io) disk with
  | Err e => Err (INTERNAL_SERVER_ERROR, display e)
  | Ok s => Ok s
  end.

Definition override_op (st : QuarantineState.t) (req : OverrideRequest) (now : Z) (s : Snap) : Answer unit * Snap :=
  or_not_found ("no quarantine entry with id " +:+ or_quarantine_id req) (lift_err display (apply_override req st now s)).

Definition release_handler (path : string) (req : OverrideRequest) (io : Io) (disk : Disk) : Answer Snap * Disk :=
  answer_snapshot (api_update display path (override_op QuarantineState.Released req (io_now io)) io disk).
Definition forfeit_handler (path : string) (req : OverrideRequest) (io : Io) (disk : Disk) : Answer Snap * Disk :=
  answer_snapshot (api_update display path (override_op QuarantineState.Forfeited req (io_now io)) io disk).
End handlers.
End Quarantines.

(** ** Trust scores *)

Module TrustScores.

Inductive DeltaReason :=
| Baseline | SuccessfulExecution | MismatchMinor | MismatchMajor | MismatchCritical | OperatorAdjustment | Decay
| QuarantineRelease | Forfeiture.

Module TrustBand.
Inductive t := Trusted | Watched | Suspect | Untrusted.

#[global] Instance eq_dec : EqDecision t.
Proof. solve_decision. Defined.
Definition rank (k : t) : nat := match k with Trusted => 0 | Watched => 1 | Suspect => 2 | Untrusted => 3 end.
Definition all : list t := [Trusted; Watched; Suspect; Untrusted].
#[global] Program Instance countable : Countable t := inj_countable rank (fun n => all !! n) _.
Next Obligation. by intros []. Qed.
End TrustBand.

Definition for_score (score : Z) : TrustBand.t :=
  if (800 <=? score)%Z && (score <=? 1000)%Z then TrustBand.Trusted
  else if (500 <=? score)%Z && (score <=? 799)%Z then TrustBand.Watched
  else if (200 <=? score)%Z && (score <=? 499)%Z then TrustBand.Suspect
  else TrustBand.Untrusted.

Record DeltaEntry := mkDeltaEntry {
  de_applied_at : string;
  de_reason : DeltaReason;
  de_delta : Z;
  de_score_after : Z;
  de_trace_id : string;
  de_signature : string;
}.

Record ToolScoreEntry := mkToolScoreEntry {
  tool : string;
  declarer : string;
  current_score : Z;
  band : TrustBand.t;
  first_admitted_at : string;
  last_delta_at : string;
  executions_total : Z;
  mismatches_total : Z;
  history : list DeltaEntry;
  last_trace_id : string;
  signature : string;
}.

Record BandSummary := mkBandSummary {
  bs_band : TrustBand.t;
  bs_count : Z;
  bs_mean_score : Z;
}.

(** The running total and count of a band. *)
Record BandTotal := mkBandTotal {
  bt_band : TrustBand.t;
  bt_total : Z;
  bt_count : Z;
}.

Definition tile_zero (k : TrustBand.t) : BandTotal := mkBandTotal k 0 0.
Definition tile_count (e : ToolScoreEntry) (t : BandTotal) : BandTotal :=
  mkBandTotal (bt_band t) (bt_total t + current_score e) (incr32 (bt_count t)).
Definition band_summary (t : BandTotal) : BandSummary :=
  mkBandSummary (bt_band t) (bt_count t) (if (bt_count t =? 0)%Z then 0 else (bt_total t / bt_count t) `mod` 2 ^ 16)%Z.

(** The sort looks at the band only, so it commutes with the conversion. *)
Definition recompute_bands `{!HashValues TrustBand.t BandTotal} (l : list ToolScoreEntry) : list BandSummary :=
  band_summary <$> tiles band tile_zero tile_count (fun t => TrustBand.rank (bt_band t)) l.
#[global] Instance registry `{!HashValues TrustBand.t BandTotal} : Registry ToolScoreEntry BandSummary :=
  {| recompute_summaries := recompute_bands |}.

Inductive MirrorError :=
| SchemaMismatch (expected actual : string)
| SignatureFailed (e : string)
| EmptySnapshot
| Deserialize (e : string)
| ScoreOutOfRange (score : Z)
| BandMismatch (score : Z) (declared expected : TrustBand.t).

Fixpoint validate_history (l : list DeltaEntry) : result unit MirrorError :=
  match l with
  | [] => Ok tt
  | h :: l => if (1000 <? de_score_after h)%Z then Err (ScoreOutOfRange (de_score_after h)) else validate_history l
  end.

Fixpoint validate_tools (l : list ToolScoreEntry) : result unit MirrorError :=
  match l with
  | [] => Ok tt
  | t :: l =>
      if (1000 <? current_score t)%Z then Err (ScoreOutOfRange (current_score t))
      else if negb (bool_decide (band t = for_score (current_score t)))
      then Err (BandMismatch (current_score t) (band t) (for_score (current_score t)))
      else let? _ := validate_history (history t) in validate_tools l
  end.
Definition validate_scores (s : Snapshot ToolScoreEntry BandSummary) : result unit MirrorError := validate_tools (sn_entries s).

Definition tools_trending_down (s : Snapshot ToolScoreEntry BandSummary) : list ToolScoreEntry :=
  filter (fun t => let tail := take 5 (reverse (history t)) in
                   tail <> [] /\ (foldl Z.add 0 (de_delta <$> tail) < 0)%Z) (sn_entries s).

Definition mean_score (s : Snapshot ToolScoreEntry BandSummary) : Z :=
  match sn_entries s with
  | [] => 0
  | l => (foldl Z.add 0 (current_score <$> l) / Z.of_nat (length l)) `mod` 2 ^ 16
  end%Z.

(** *** The engine *)

Definition canonical_delta (r : DeltaReason) : Z :=
  match r with
  | Baseline => 1000
  | SuccessfulExecution => 1
  | MismatchMinor => -10
  | MismatchMajor => -50
  | MismatchCritical => -200
  | OperatorAdjustment => 0
  | Decay => -1
  | QuarantineRelease => 100
  | Forfeiture => -1000
  end.

(** [i32] addition in a release build wraps around. *)
Definition wrap_i32 (x : Z) : Z := (x + 2 ^ 31) `mod` 2 ^ 32 - 2 ^ 31.
Definition apply_delta (starting delta : Z) : Z := (wrap_i32 (starting + delta) `max` 0) `min` 1000.

Definition next_entry (starting : Z) (r : DeltaReason) (applied_at : string) (operator_override : option Z)
    (trace sig : string) : DeltaEntry :=
  let delta := match r, operator_override with
               | OperatorAdjustment, Some d => d
               | _, _ => canonical_delta r
               end in
  mkDeltaEntry applied_at r delta (apply_delta starting delta) trace sig.

(** *** The registry *)

Definition MAX_HISTORY_ENTRIES : nat := 64.

Record OperatorDeltaRequest := mkOperatorDeltaRequest {
  od_tool : string;
  od_actor : string;
  od_reason : DeltaReason;
  od_delta : Z;
  od_trace_id : string;
  od_signature : string;
}.

Inductive Refusal := Unsigned | EmptyField (name : string) | InitialScoreOutOfRange (score : Z).

Definition refusal_display (e : Refusal) : string :=
  match e with
  | Unsigned => "request unsigned (MS003 signature required)"
  | EmptyField f => "mandatory field empty: " +:+ f
  | InitialScoreOutOfRange s => "initial_score " +:+ show_uint s +:+ " out of range (0..=1000)"
  end.

Definition saturating_incr32 (x : Z) : Z := (x + 1) `min` u32_max.

Definition scored (r : DeltaReason) (delta : Z) (trace sig stamp : string) (e : ToolScoreEntry) : ToolScoreEntry :=
  let score := apply_delta (current_score e) delta in
  let h := history e ++ [mkDeltaEntry stamp r delta score trace sig] in
  mkToolScoreEntry (tool e) (declarer e) score (for_score score) (first_admitted_at e) stamp
    (saturating_incr32 (executions_total e))
    (if (delta <? 0)%Z then saturating_incr32 (mismatches_total e) else mismatches_total e)
    (drop (length h - MAX_HISTORY_ENTRIES) h) trace (signature e).

Section registry.
Context `{WireFormat} `{Rfc3339} `{!HashValues TrustBand.t BandTotal}.

Abbreviation Snap := (Snapshot ToolScoreEntry BandSummary).
Abbreviation Error := (RegistryError Refusal).

Definition admit_tool (t decl : string) (initial : Z) (now : Z) (s : Snap) : result bool Error * Snap :=
  if bool_decide (t = "") then (Err (Refused (EmptyField "tool")), s)
  else if bool_decide (decl = "") then (Err (Refused (EmptyField "declarer")), s)
  else if (1000 <? initial)%Z then (Err (Refused (InitialScoreOutOfRange initial)), s)
  else if existsb (fun e => bool_decide (tool e = t)) (sn_entries s) then (Ok false, s)
  else match format_time now with
       | Err e => (Err e, s)
       | Ok stamp =>
           let entry := mkToolScoreEntry t decl initial (for_score initial) stamp stamp 0 0 [] "" "" in
           and_return true (recompute now (with_entries (sn_entries s ++ [entry]) s))
       end.

Definition apply_internal (t : string) (r : DeltaReason) (delta : Z) (trace sig : string) (now : Z) (s : Snap) :
    result bool Error * Snap :=
  match format_time now with
  | Err e => (Err e, s)
  | Ok stamp =>
      match list_find (fun e => tool e = t) (sn_entries s) with
      | None => (Ok false, s)
      | Some (i, e) =>
          and_return true (recompute now (with_entries (<[i := scored r delta trace sig stamp e]> (sn_entries s)) s))
      end
  end.

Definition record_delta (t : string) (r : DeltaReason) (trace : string) (now : Z) (s : Snap) : result bool Error * Snap :=
  apply_internal t r (canonical_delta r) trace "" now s.

Definition apply_operator_delta (req : OperatorDeltaRequest) (now : Z) (s : Snap) : result bool Error * Snap :=
  if bool_decide (od_signature req = "") then (Err (Refused Unsigned), s)
  else if bool_decide (od_actor req = "") then (Err (Refused (EmptyField "actor")), s)
  else if bool_decide (od_tool req = "") then (Err (Refused (EmptyField "tool")), s)
  else apply_internal (od_tool req) (od_reason req) (od_delta req) (od_trace_id req) (od_signature req) now s.

Definition score_of (t : string) (s : Snap) : option Z :=
  (fun p => current_score p.2) <$> list_find (fun e => tool e = t) (sn_entries s).
End registry.

Section handlers.
Context `{WireFormat} `{Rfc3339} `{!HashValues TrustBand.t BandTotal} `{!SnapshotJson ToolScoreEntry BandSummary}.
Abbreviation Snap := (Snapshot ToolScoreEntry BandSummary).

Definition display (e : RegistryError Refusal) : string := registry_display "trust-scores" refusal_display e.

Record AdmitRequest := mkAdmitRequest {
  aq_tool : string;
  aq_declarer : string;
  aq_initial_score : Z;
  aq_signature : string;
}.

Definition snapshot_handler (path : string) (io : Io) (disk : Disk) : Answer Snap :=
  match load path (io_read io) disk with
  | Err e => Err (INTERNAL_SERVER_ERROR, display e)
  | Ok s => Ok s
  end.

Definition admit_op (req : AdmitRequest) (now : Z) (s : Snap) : Answer bool * Snap :=
  lift_err display (admit_tool (aq_tool req) (aq_declarer req) (aq_initial_score req) now s).

Definition admit_handler (path : string) (req : AdmitRequest) (io : Io) (disk : Disk) : Answer Snap * Disk :=
  if bool_decide (aq_signature req = "") then (Err (BAD_REQUEST, "admit request unsigned"), disk)
  else answer_snapshot (api_update display path (admit_op req (io_now io)) io disk).

Definition operator_delta_op (req : OperatorDeltaRequest) (now : Z) (s : Snap) : Answer unit * Snap :=
  or_not_found ("no trust-score entry for tool " +:+ od_tool req) (lift_err display (apply_operator_delta req now s)).

Definition operator_delta_handler (path : string) (req : OperatorDeltaRequest) (io : Io) (disk : Disk) :
    Answer Snap * Disk :=
  answer_snapshot (api_update display path (operator_delta_op req (io_now io)) io disk).
End handlers.
End TrustScores.
