(* ===== verification/RegistryProps.v ===== *)
(** * Properties of the registries

    The shared parts first, against their interfaces: tiles do not depend on hash
    order, expiry is exact, a request is a transaction on the file. Then what each
    registry adds: the life of a grant under its handlers, the word of a
    capability token, the range of a trust score. *)

From S2P Require Import Prelude Core CapWord Registry Registries.
From stdpp Require Import options.

(** ** Tiles *)

(** What the tiles of a registry are: a tile keeps its group, the rank of a tile is
    that of its group, and the groups are listed by rank. *)
Class TileLaws {E K T} (key : E -> K) (zero : K -> T) (add : E -> T -> T) (rank : T -> nat)
    (group : T -> K) (krank : K -> nat) (all : list K) : Prop := {
  group_zero k : group (zero k) = k;
  group_add e t : group (add e t) = group t;
  rank_group t : rank t = krank (group t);
  krank_inj k k' : krank k = krank k' -> k = k';
  all_complete k : k ∈ all;
  all_sorted : StronglySorted lt (krank <$> all);
}.

Section tiles.
Context {E K T : Type} `{HashValuesLaws K T} (key : E -> K) (zero : K -> T) (add : E -> T -> T) (rank : T -> nat)
  (group : T -> K) (krank : K -> nat) (all : list K) `{!TileLaws key zero add rank group krank all}.
#[local] Set Default Proof Using "Type*".

(** The tile of one group: all its entries, in order. *)
Definition tile_of (l : list E) (k : K) : option T :=
  match filter (fun e => key e = k) l with
  | [] => None
  | es => Some (foldl (fun t e => add e t) (zero k) es)
  end.

Lemma tile_fold l m k : foldl (tile_add key zero add) m l !! k =
  match filter (fun e => key e = k) l with
  | [] => m !! k
  | es => Some (foldl (fun t e => add e t) (default (zero k) (m !! k)) es)
  end.
Proof using Type.
  revert m. induction l as [|e l IH]; intros m; [done|]. simpl. rewrite IH, filter_cons. unfold tile_add.
  destruct (decide (key e = k)) as [<-|Hne].
  - rewrite lookup_insert_eq. simpl. by destruct (filter _ l).
  - rewrite lookup_insert_ne by done. done.
Qed.

Lemma foldl_group es t : group (foldl (fun t e => add e t) t es) = group t.
Proof. revert t. induction es as [|e es IH]; intros t; simpl; [done|]. by rewrite IH, (group_add (TileLaws := TileLaws0)). Qed.

Lemma tile_of_group l k t : tile_of l k = Some t -> group t = k.
Proof.
  unfold tile_of. destruct (filter _ l) as [|e es]; [done|]. intros [= <-]. simpl.
  by rewrite foldl_group, (group_add (TileLaws := TileLaws0)), (group_zero (TileLaws := TileLaws0)).
Qed.

Lemma all_NoDup : NoDup all.
Proof.
  assert (Hs := all_sorted (TileLaws := TileLaws0)). clear -Hs.
  induction all as [|k l IH]; [constructor|]. simpl in Hs. apply StronglySorted_inv in Hs as [Hs Hf]. constructor; [|auto].
  intros Hin. rewrite Forall_fmap, Forall_forall in Hf. specialize (Hf k Hin). simpl in Hf. lia.
Qed.

Lemma tiles_sorted l : StronglySorted (rank_le rank) (omap (tile_of l) all).
Proof.
  assert (Hs := all_sorted (TileLaws := TileLaws0)).
  assert (Hr : forall k t, tile_of l k = Some t -> rank t = krank k).
  { intros k t Ht. by rewrite (rank_group (TileLaws := TileLaws0)), (tile_of_group _ _ _ Ht). }
  clear -Hs Hr. induction all as [|k ks IH]; simpl; [constructor|]. simpl in Hs. apply StronglySorted_inv in Hs as [Hs Hf].
  destruct (tile_of l k) as [t|] eqn:Et; [|auto]. constructor; [auto|]. apply Forall_forall. intros t' Ht'.
  apply list_elem_of_omap in Ht' as (k' & Hk' & Ek'). rewrite Forall_fmap, Forall_forall in Hf. specialize (Hf k' Hk').
  unfold rank_le. rewrite (Hr _ _ Et), (Hr _ _ Ek'). simpl in Hf. lia.
Qed.

(** The tiles are those of the groups that occur, by rank, whatever the order in
    which the hash map yields them. *)
Lemma tiles_exact l : tiles key zero add rank l = omap (tile_of l) all.
Proof.
  assert (Hl : forall k, foldl (tile_add key zero add) ∅ l !! k = tile_of l k).
  { intros k. rewrite tile_fold, lookup_empty. unfold tile_of. by destruct (filter _ l). }
  set (m := foldl (tile_add key zero add) ∅ l) in *.
  assert (Hp : merge_sort (rank_le rank) (hash_values m) ≡ₚ omap (tile_of l) all).
  { rewrite merge_sort_Permutation, hash_values_perm.
    assert (Hml : map_to_list m ≡ₚ omap (fun k => pair k <$> tile_of l k) all).
    { apply NoDup_Permutation; [apply NoDup_map_to_list| |].
      - apply NoDup_omap; [|apply all_NoDup]. intros x y z _ _ Hx Hy.
        apply fmap_Some in Hx as (? & _ & ->). apply fmap_Some in Hy as (? & _ & ?). by simplify_eq.
      - intros [k t]. rewrite elem_of_map_to_list, Hl, list_elem_of_omap. split.
        + intros Ht. exists k. split; [apply (all_complete (TileLaws := TileLaws0))|by rewrite Ht].
        + intros (k' & _ & E'). apply fmap_Some in E' as (? & ? & ?). by simplify_eq. }
    rewrite Hml. clear. induction all as [|k ks IH]; [done|]. simpl. destruct (tile_of l k); simpl; by rewrite IH. }
  unfold tiles. fold m. eapply (StronglySorted_unique_strong (rank_le rank)); [|apply StronglySorted_merge_sort|apply tiles_sorted|done].
  - intros x y Hx Hy Hxy Hyx. rewrite Hp in Hx. apply list_elem_of_omap in Hx as (k & _ & Ek), Hy as (k' & _ & Ek').
    assert (k = k') as ->; [|by simplify_eq]. apply (krank_inj (TileLaws := TileLaws0)). unfold rank_le in *.
    rewrite !(rank_group (TileLaws := TileLaws0)) in *. rewrite (tile_of_group _ _ _ Ek), (tile_of_group _ _ _ Ek') in *. lia.
  - intros x y z. unfold rank_le. lia.
  - intros x y. unfold rank_le. lia.
Qed.
End tiles.

(** ** The tiles of the five registries *)

#[export] Instance grant_tile_laws :
  TileLaws Grants.kind Grants.tile_zero Grants.tile_count (fun t => Grants.GrantKind.rank (Grants.gs_kind t))
    Grants.gs_kind Grants.GrantKind.rank Grants.GrantKind.all.
Proof. split; [done| |done|by intros [] []|intros []; set_solver|repeat constructor]. intros e []. unfold Grants.tile_count. by destruct (Grants.state e). Qed.
#[export] Instance token_tile_laws :
  TileLaws CapTokens.trust_ring CapTokens.tile_zero CapTokens.tile_count (fun t => CapTokens.TrustRing.rank (CapTokens.rs_ring t))
    CapTokens.rs_ring CapTokens.TrustRing.rank CapTokens.TrustRing.all.
Proof. split; [done| |done|by intros [] []|intros []; set_solver|repeat constructor]. intros e []. unfold CapTokens.tile_count. by destruct (CapTokens.state e). Qed.
#[export] Instance sandbox_tile_laws :
  TileLaws Sandboxes.tier Sandboxes.tile_zero Sandboxes.tile_count (fun t => Sandboxes.SandboxTier.rank (Sandboxes.ts_tier t))
    Sandboxes.ts_tier Sandboxes.SandboxTier.rank Sandboxes.SandboxTier.all.
Proof. split; [done| |done|by intros [] []|intros []; set_solver|repeat constructor]. intros e []. unfold Sandboxes.tile_count. by destruct (Sandboxes.state e). Qed.
#[export] Instance quarantine_tile_laws :
  TileLaws Quarantines.max_severity Quarantines.tile_zero Quarantines.tile_count
    (fun t => Quarantines.MismatchSeverity.rank (Quarantines.ss_severity t))
    Quarantines.ss_severity Quarantines.MismatchSeverity.rank Quarantines.MismatchSeverity.all.
Proof. split; [done| |done|by intros [] []|intros []; set_solver|repeat constructor]. intros e []. unfold Quarantines.tile_count. by destruct (Quarantines.state e). Qed.
#[export] Instance band_tile_laws :
  TileLaws TrustScores.band TrustScores.tile_zero TrustScores.tile_count
    (fun t => TrustScores.TrustBand.rank (TrustScores.bt_band t))
    TrustScores.bt_band TrustScores.TrustBand.rank TrustScores.TrustBand.all.
Proof. split; [done|done|done|by intros [] []|intros []; set_solver|repeat constructor]. Qed.

(** How many entries of a list are in a state. *)
Definition count {E} (P : E -> Prop) `{!forall x, Decision (P x)} (l : list E) : Z := Z.of_nat (length (filter P l)).

Lemma count_cons {E} (P : E -> Prop) `{!forall x, Decision (P x)} x l :
  count P (x :: l) = ((if decide (P x) then 1 else 0) + count P l)%Z.
Proof. unfold count. rewrite filter_cons. case_decide; simpl; lia. Qed.

Lemma incr32_small x : (0 <= x)%Z -> (x + 1 < 2 ^ 32)%Z -> incr32 x = (x + 1)%Z.
Proof. intros. unfold incr32, as_u32. apply Z.mod_small. lia. Qed.

Section grant_tiles.
Import Grants.

Lemma grant_tile_fold k es a p e r q :
  (0 <= a /\ 0 <= p /\ 0 <= e /\ 0 <= r /\ 0 <= q)%Z ->
  (a + Z.of_nat (length es) < 2 ^ 32 /\ p + Z.of_nat (length es) < 2 ^ 32 /\ e + Z.of_nat (length es) < 2 ^ 32 /\
   r + Z.of_nat (length es) < 2 ^ 32 /\ q + Z.of_nat (length es) < 2 ^ 32)%Z ->
  let n st := count (fun g => state g = st) es in
  foldl (fun t g => tile_count g t) (mkGrantSummary k a p e r q) es =
    mkGrantSummary k (a + n GrantState.Active) (p + n GrantState.Pending) (e + n GrantState.Expired)
      (r + n GrantState.Revoked) (q + n GrantState.Quarantined).
Proof.
  revert a p e r q. induction es as [|g es IH]; intros a p e r q H0 Hb; simpl in *; [by rewrite !Z.add_0_r|].
  rewrite !count_cons. destruct (state g) eqn:E; simpl; rewrite incr32_small by lia; rewrite IH by lia;
    f_equal; repeat case_decide; (done || lia).
Qed.

(** The tile of a kind as a dashboard reads it. *)
Definition grant_tile (l : list GrantEntry) (k : GrantKind.t) : option GrantSummary :=
  let n st := count (fun g => kind g = k /\ state g = st) l in
  if decide (Exists (fun g => kind g = k) l)
  then Some (mkGrantSummary k (n GrantState.Active) (n GrantState.Pending) (n GrantState.Expired)
               (n GrantState.Revoked) (n GrantState.Quarantined))
  else None.

Context `{!HashValues GrantKind.t GrantSummary} `{!HashValuesLaws GrantKind.t GrantSummary}.
#[local] Set Default Proof Using "Type*".

Lemma recompute_grants_exact l : (Z.of_nat (length l) < 2 ^ 32)%Z ->
  recompute_grants l = omap (grant_tile l) GrantKind.all.
Proof.
  intros Hl. unfold recompute_grants. rewrite (tiles_exact _ _ _ _ _ _ GrantKind.all).
  apply list_omap_ext. apply Forall_Forall2_diag, Forall_forall. intros k _. unfold tile_of, grant_tile.
  destruct (filter (fun g => kind g = k) l) as [|g es] eqn:Ef.
  - rewrite decide_False; [done|]. intros (g & Hg & Hk)%Exists_exists.
    assert (g ∈ @nil GrantEntry) as []%elem_of_nil. rewrite <-Ef. by apply list_elem_of_filter.
  - rewrite decide_True.
    2:{ apply Exists_exists. exists g. assert (g ∈ g :: es) as Hg by by left. rewrite <-Ef in Hg.
        by apply list_elem_of_filter in Hg as [? ?]. }
    rewrite <-Ef. assert (Hlen : length (filter (fun g => kind g = k) l) <= length l) by apply length_filter.
    unfold tile_zero. rewrite grant_tile_fold by lia. f_equal. rewrite !Z.add_0_l.
    assert (Hc : forall st, count (fun g => state g = st) (filter (fun g => kind g = k) l) =
                            count (fun g => kind g = k /\ state g = st) l).
    { intros st. unfold count. rewrite list_filter_filter. do 2 f_equal. apply list_filter_iff. tauto. }
    by rewrite !Hc.
Qed.
End grant_tiles.

(** ** Expiry *)

Lemma fmap_fixed {A} (f : A -> A) l : Forall (fun x => f x = x) l -> f <$> l = l.
Proof. induction 1; simpl; by f_equal. Qed.

(** Setting the state of an entry changes nothing else, and an entry that is over is
    not live. *)
Class TtlEntryLaws E St `{!TtlEntry E St} : Prop := {
  tt_state_set st e : tt_state (tt_set st e) = st;
  tt_id_set st e : tt_id (tt_set st e) = tt_id e;
  tt_until_set st e : tt_until (tt_set st e) = tt_until e;
  tt_over_dead : tt_live tt_over = false;
}.
#[export] Instance grants_ttl_laws : TtlEntryLaws Grants.GrantEntry Grants.GrantState.t.
Proof. by split. Qed.
#[export] Instance tokens_ttl_laws : TtlEntryLaws CapTokens.CapabilityEntry CapTokens.TokenState.t.
Proof. by split. Qed.
#[export] Instance sandboxes_ttl_laws : TtlEntryLaws Sandboxes.AllocationEntry Sandboxes.AllocationState.t.
Proof. by split. Qed.

Section expiry.
Context {E T St R : Type} `{WireFormat} `{Rfc3339} `{!Registry E T} `{!TtlEntry E St} `{!TtlEntryLaws E St}.
#[local] Set Default Proof Using "Type*".
Implicit Types s : Snapshot E T.

Lemma and_return_snd {A} (a : A) (p : result unit (RegistryError R) * Snapshot E T) : (and_return a p).2 = p.2.
Proof using Type. done. Qed.

Lemma recompute_entries now s : sn_entries (recompute (R := R) now s).2 = sn_entries s.
Proof using Type. unfold recompute. by destruct (rfc3339_format now). Qed.

Lemma recompute_tiles now s : sn_summaries (recompute (R := R) now s).2 = recompute_summaries (sn_entries s).
Proof using Type. unfold recompute. by destruct (rfc3339_format now). Qed.

Lemma expire_entries now s :
  sn_entries (expire_due (R := R) now s).2 = (fun e => if due now e then tt_set tt_over e else e) <$> sn_entries s.
Proof using Type. unfold expire_due. case_decide; [by rewrite and_return_snd, recompute_entries|done]. Qed.

Lemma due_over now now' e : (now' <= now)%Z -> due now' (if due now e then tt_set tt_over e else e) = false.
Proof.
  intros Hn. destruct (due now e) eqn:Ed.
  - unfold due. by rewrite tt_state_set, tt_over_dead.
  - unfold due in *. destruct (tt_live (tt_state e)); [|done]. simpl in *.
    destruct (rfc3339_parse (tt_until e)); [|done]. apply Z.leb_gt in Ed. apply Z.leb_gt. lia.
Qed.

(** Expiry is exact. It ends the entries that are live and whose time has come or
    cannot be read, and only those, keeps every other field and the order,
    recomputes the tiles if anything changed, and reports how many it ended;
    afterwards nothing is due at that time or any earlier one, so running it
    again changes nothing. *)
Theorem expire_due_exact now earlier s :
  (earlier <= now)%Z ->
  let after := (expire_due (R := R) now s).2 in
  (forall i e, sn_entries s !! i = Some e -> exists e', sn_entries after !! i = Some e' /\
     tt_id e' = tt_id e /\ tt_until e' = tt_until e /\
     (if due now e then tt_state e' = tt_over else e' = e)) /\
  length (sn_entries after) = length (sn_entries s) /\
  (sn_entries after <> sn_entries s -> sn_summaries after = recompute_summaries (sn_entries after)) /\
  expire_due (R := R) earlier after = (Ok 0, after).
Proof.
  intros Hn after. assert (Hes := expire_entries now s). fold after in Hes. split_and!.
  - intros i e Hi. rewrite Hes, list_lookup_fmap, Hi. eexists. split; [done|].
    destruct (due now e); [by rewrite tt_id_set, tt_until_set, tt_state_set|done].
  - rewrite Hes. by rewrite length_fmap.
  - intros Hne. unfold after, expire_due. case_decide as Hc; [by rewrite and_return_snd, recompute_tiles, recompute_entries|].
    destruct Hne. rewrite Hes. apply fmap_fixed, Forall_forall. intros e He.
    destruct (due now e) eqn:Ed; [|done]. destruct Hc.
    assert (e ∈ filter (fun e => due now e = true) (sn_entries s)) as Hin by by apply list_elem_of_filter.
    destruct (filter _ (sn_entries s)); [by apply elem_of_nil in Hin|simpl; lia].
  - assert (Hnone : Forall (fun e => due earlier e = false) (sn_entries after)).
    { rewrite Hes, Forall_fmap. apply Forall_forall. intros e _. by apply due_over. }
    unfold expire_due. rewrite filter_none.
    2:{ eapply Forall_impl; [exact Hnone|]. intros e He. by rewrite He. }
    simpl. f_equal. destruct after as [v c u l g]. unfold with_entries. simpl in *. f_equal.
    apply fmap_fixed, (Forall_impl _ _ _ Hnone). by intros e ->.
Qed.
End expiry.

(** ** A request is a transaction *)

Lemma split_elem c s x : x ∈ split c s -> all_bytes (fun a => negb (bool_decide (a = c))) x = true.
Proof.
  revert x. induction s as [|a s IH]; intros x; simpl; [by intros ->%list_elem_of_singleton|].
  case_bool_decide as E; [set_solver|]. destruct (split c s) as [|h t].
  - intros ->%list_elem_of_singleton. simpl. by rewrite bool_decide_false.
  - rewrite elem_of_cons. intros [->|Hx]; [|apply IH; by right]. simpl. rewrite bool_decide_false by done. apply IH. by left.
Qed.

Lemma str_app_cancel_l s t u : s +:+ t = s +:+ u -> t = u.
Proof. induction s as [|a s IH]; [done|]. rewrite !str_cons_app. intros [= E]. by apply IH. Qed.

Lemma str_app_longer s t : t <> "" -> s +:+ t <> s.
Proof. intros Ht E. apply (f_equal String.length) in E. rewrite str_length_app in E. destruct t; [done|]. simpl in E. lia. Qed.

Lemma extension_piece name e : extension name = Some e -> e ∈ split "." name.
Proof.
  unfold extension. destruct (bool_decide (name = "..")); [done|]. intros He. apply last_Some_elem_of.
  destruct (split "." name) as [|x [|y [|z l]]]; try done; destruct x; done.
Qed.

Lemma snapshot_tmp_ne path : with_extension path "json.tmp" <> path.
Proof.
  unfold with_extension. destruct (extension _) as [e|] eqn:Ee; [|by apply str_app_longer].
  destruct (strip_suffix e path) as [base|] eqn:Eb; simpl; [|by apply str_app_longer].
  apply strip_suffix_Some in Eb. intros Eq. rewrite Eb in Eq. apply str_app_cancel_l in Eq. subst e.
  by apply extension_piece, split_elem in Ee.
Qed.

Section transaction.
Context {E T R : Type} `{!SnapshotJson E T} `{!SnapshotJsonLaws E T} (display : RegistryError R -> string).
#[local] Set Default Proof Using "Type*".

Lemma save_cases path (s : Snapshot E T) o disk :
  match save (R := R) path s o disk with
  | (Err _, disk') => disk' !! path = disk !! path
  | (Ok _, disk') => exists b, snap_encode s = Ok b /\ disk' !! path = Some b
  end.
Proof using Type.
  assert (Ht := snapshot_tmp_ne path). unfold save.
  destruct o, (snap_encode s) as [b|]; try done; simpl; rewrite ?lookup_insert_ne by done; try done.
  exists b. split; [done|]. by rewrite lookup_insert_eq.
Qed.

(** A request that is answered with an error leaves the stored file as it was; one
    that is answered with success has stored the snapshot it answers with. *)
Lemma api_finish_cases {A} path (op : Snapshot E T -> Answer A * Snapshot E T) io s disk :
  match api_finish display path op io s disk with
  | (Err _, disk') => disk' !! path = disk !! path
  | (Ok (a, s'), disk') => op s = (Ok a, s') /\ load (R := R) path None disk' = Ok s'
  end.
Proof.
  unfold api_finish. destruct (op s) as [[a|e] s'] eqn:Eo; [|done]. assert (Hc := save_cases path s' (io_save io) disk).
  destruct (save path s' (io_save io) disk) as [[[]|e] disk']; [|done]. destruct Hc as (b & Eb & Hb).
  split; [done|]. unfold load. by rewrite Hb, (decode_encode_snap s' b Eb).
Qed.

Lemma api_update_load {A} path (op : Snapshot E T -> Answer A * Snapshot E T) io disk :
  match load (R := R) path (io_read io) disk with
  | Ok s => io_read io = None /\ load (R := R) path None disk = Ok s
  | Err _ => True
  end.
Proof using Type. unfold load. destruct (io_read io); [done|]. destruct (disk !! path); [|done]. by destruct (snap_decode _). Qed.

Lemma api_update_cases {A} path (op : Snapshot E T -> Answer A * Snapshot E T) io disk :
  match api_update display path op io disk with
  | (Err _, disk') => disk' !! path = disk !! path
  | (Ok (a, s'), disk') => exists s, load (R := R) path None disk = Ok s /\ io_read io = None /\ op s = (Ok a, s') /\
      load (R := R) path None disk' = Ok s'
  end.
Proof.
  unfold api_update. assert (Hl := api_update_load path op io disk). destruct (load path (io_read io) disk) as [s|e]; [|done].
  assert (Hc := api_finish_cases path op io s disk). destruct (api_finish _ _ _ _ _) as [[[a s']|] disk']; [|done].
  exists s. naive_solver.
Qed.

Lemma api_update_error {A} path (op : Snapshot E T -> Answer A * Snapshot E T) io disk c m disk' :
  api_update display path op io disk = (Err (c, m), disk') ->
  c = INTERNAL_SERVER_ERROR \/ exists s s', load (R := R) path None disk = Ok s /\ op s = (Err (c, m), s').
Proof using Type.
  unfold api_update, api_finish. assert (Hl := api_update_load path op io disk).
  destruct (load path (io_read io) disk) as [s|e]; [|intros; simplify_eq; by left]. destruct Hl as [_ Hl].
  destruct (op s) as [[a|[c' m']] s'] eqn:Eo; [|intros; simplify_eq; right; by exists s, s'].
  destruct (save path s' (io_save io) disk) as [[[]|e] disk1]; intros; simplify_eq. by left.
Qed.
End transaction.

(** ** Identifiers *)

Lemma show_hex_go_val fuel n acc : (0 <= n < 16 ^ Z.of_nat fuel)%Z ->
  hex_digits_val (show_hex_go fuel n acc) 0 = hex_digits_val acc n.
Proof.
  revert n acc. induction fuel as [|fuel IH]; intros n acc Hn.
  { simpl in Hn. replace n with 0%Z by lia. done. }
  cbn [show_hex_go]. assert (Hm := Z.mod_pos_bound n 16). assert (Hdm := Z.div_mod n 16).
  destruct (Z.ltb_spec n 16) as [Hlt|Hge].
  - simpl. rewrite hex_val_digit by lia. simpl. f_equal. rewrite Z.mod_small by lia. done.
  - rewrite IH.
    + simpl. rewrite hex_val_digit by lia. simpl. f_equal. lia.
    + split; [apply Z.div_pos; lia|]. apply Z.div_lt_upper_bound; [lia|].
      rewrite Nat2Z.inj_succ, Z.pow_succ_r in Hn by lia. lia.
Qed.

Lemma show_hex_read n : (0 <= n)%Z -> hex_digits_val (show_hex n) 0 = Some n.
Proof.
  intros Hk. unfold show_hex. rewrite show_hex_go_val; [done|]. split; [done|].
  rewrite Nat2Z.inj_succ, Z2Nat.id by apply Z.log2_nonneg. destruct (Z.eq_dec n 0%Z) as [->|]; [done|].
  eapply Z.lt_le_trans; [apply Z.log2_spec; lia|]. apply Z.pow_le_mono_l. lia.
Qed.

Lemma show_hex_inj m n : (0 <= m)%Z -> (0 <= n)%Z -> show_hex m = show_hex n -> m = n.
Proof.
  intros Hm Hn E. apply (f_equal (fun s => hex_digits_val s 0)) in E. rewrite !show_hex_read in E by done. by simplify_eq.
Qed.

(** A clock reading whose milliseconds fit. *)
Definition clock_ok (t : Z) : Prop := (0 <= t < 1000000 * (2 ^ 64 - 1))%Z.

Lemma stamp_id_inj p t u : clock_ok t -> clock_ok u -> stamp_id p t = stamp_id p u -> t = u.
Proof.
  unfold clock_ok, stamp_id. intros Ht Hu E%str_app_cancel_l. rewrite !Z.mod_small in E by lia.
  apply show_hex_inj in E; [done|lia..].
Qed.

Lemma epoch_ms_ok t : clock_ok t -> (0 <= Grants.epoch_ms t < u64_max)%Z.
Proof.
  unfold clock_ok, Grants.epoch_ms, u64_max. intros Ht. rewrite Z.quot_div_nonneg by lia.
  assert (0 <= t / 1000000 < 2 ^ 64 - 1)%Z; [|rewrite Z.mod_small by lia; lia].
  split; [apply Z.div_pos; lia|apply Z.div_lt_upper_bound; lia].
Qed.

(** ** The life of a grant *)

Lemma sublist_elem {A} (l k : list A) x : l `sublist_of` k -> x ∈ l -> x ∈ k.
Proof. induction 1; set_solver. Qed.

#[local] Arguments load : simpl never.

Section grants_life.
Import Grants.
Context `{WireFormat} `{Rfc3339} `{!HashValues GrantKind.t GrantSummary} `{!SnapshotJson GrantEntry GrantSummary}
  (path : string) (policy : GrantsOverlapPolicy) (cooldown : Z).
Implicit Types s : Snapshot GrantEntry GrantSummary.

Inductive GrantsCall := CallIssue (req : GrantRequest) | CallRevoke (id : string).

Definition status {A} (a : Answer A) : Z := match a with Ok _ => 200%Z | Err (c, _) => c end.

Definition grants_call (c : GrantsCall) (io : Io) (disk : Disk) : Z * Disk :=
  match c with
  | CallIssue req => let '(a, disk) := issue_handler path policy cooldown req io disk in (status a, disk)
  | CallRevoke id => let '(a, disk) := revoke_handler path id io disk in (status a, disk)
  end.

Fixpoint grants_run (calls : list (GrantsCall * Io)) (disk : Disk) : list Z * Disk :=
  match calls with
  | [] => ([], disk)
  | (c, io) :: calls =>
      let '(r, disk) := grants_call c io disk in
      let '(rs, disk) := grants_run calls disk in (r :: rs, disk)
  end.

(** The ttl of a request is unsigned. *)
Definition call_ok (c : GrantsCall) : Prop := match c with CallIssue req => (0 <= rq_ttl_seconds req)%Z | CallRevoke _ => True end.

(** A grant as it was minted at an instant. *)
Definition minted (t : Z) (g : GrantEntry) : Prop :=
  grant_id g = stamp_id "gr-" t /\ rfc3339_format t = Some (issued_at g) /\
  rfc3339_format (after_secs t (ttl_seconds g)) = Some (expires_at g) /\
  (0 < ttl_seconds g <= MAX_TTL_SECONDS)%Z /\
  signature g <> "" /\ scope g <> "" /\ reason g <> "" /\ actor g <> "" /\ profile g <> "" /\
  (state g = GrantState.Pending \/ state g = GrantState.Revoked).

Lemma format_time_ok {R} t x : format_time (R := R) t = Ok x -> rfc3339_format t = Some x.
Proof using Type. unfold format_time. by destruct (rfc3339_format t); intros; simplify_eq. Qed.

Lemma issue_entry_minted req id t issued expires trace g :
  (0 <= rq_ttl_seconds req)%Z -> id = stamp_id "gr-" t -> rfc3339_format t = Some issued ->
  rfc3339_format (after_secs t (rq_ttl_seconds req)) = Some expires ->
  issue_entry req id issued expires trace = Ok g -> minted t g /\ grant_key_entry g = grant_key_req req.
Proof using Type.
  intros Hu Hid Hi He. unfold issue_entry. repeat case_bool_decide; try done. repeat zcase; try done.
  intros [= <-]. split; [|done]. unfold minted. simpl. split_and!; try done; try lia. by left.
Qed.

Lemma issue_op_ok req now s id s' :
  (0 <= rq_ttl_seconds req)%Z -> issue_op policy cooldown req now s = (Ok id, s') ->
  exists g, minted now g /\ grant_key_entry g = grant_key_req req /\ sn_entries s' = sn_entries s ++ [g] /\
    sn_summaries s' = recompute_grants (sn_entries s') /\ sn_schema_version s' = sn_schema_version s /\
    gate policy cooldown req (stamp_id "gr-" now) now (sn_entries s') = Ok id.
Proof using Type.
  intros Hu. unfold issue_op, issue. destruct (format_time now) as [issued|] eqn:Ei; [|done].
  cbn [result_bind].
  destruct (format_time (after_secs now (rq_ttl_seconds req))) as [expires|] eqn:Ee; [|done]. cbn [result_bind].
  apply format_time_ok in Ei, Ee. destruct (issue_entry _ _ _ _ _) as [g|] eqn:Eg; [|done].
  unfold recompute. rewrite Ei. unfold and_return, lift_err. simpl. intros [= Hg <-].
  destruct (issue_entry_minted _ _ _ _ _ _ _ Hu eq_refl Ei Ee Eg) as [Hm Hk]. exists g. done.
Qed.

Lemma revoke_op_ok id now s s' :
  revoke_op id now s = (Ok tt, s') ->
  exists i g, sn_entries s !! i = Some g /\ sn_entries s' = <[i := with_state GrantState.Revoked g]> (sn_entries s) /\
    grant_id g = id /\ sn_summaries s' = recompute_grants (sn_entries s') /\ sn_schema_version s' = sn_schema_version s.
Proof using Type.
  unfold revoke_op, revoke, set_state. destruct (list_find _ (sn_entries s)) as [[i g]|] eqn:Ef; [|done].
  apply list_find_Some in Ef as (Hi & Hid & _). unfold recompute, or_not_found, lift_err, and_return.
  destruct (rfc3339_format now); [|done]. simpl. intros [= <-]. by exists i, g.
Qed.

(** Two grants of one identity are a cooldown apart. *)
Definition spaced (us : list Z) (l : list GrantEntry) : Prop :=
  forall i j u v g h, i < j -> us !! i = Some u -> us !! j = Some v -> l !! i = Some g -> l !! j = Some h ->
    grant_key_entry g = grant_key_entry h -> (epoch_ms u + cooldown * 1000 <= epoch_ms v)%Z.

Definition grants_inv (ts : list Z) s : Prop :=
  sn_schema_version s = SCHEMA_VERSION /\ sn_summaries s = recompute_grants (sn_entries s) /\
  exists us, us `sublist_of` ts /\ Forall2 minted us (sn_entries s) /\ ((0 < cooldown)%Z -> spaced us (sn_entries s)).

Lemma minted_other_ids us l now : Forall clock_ok us -> clock_ok now -> now ∉ us -> Forall2 minted us l ->
  Forall (fun h => grant_id h <> stamp_id "gr-" now) l.
Proof using Type.
  intros Hc Hn Hni Hm. induction Hm as [|u h us l [Hid _] _ IH]; [constructor|].
  apply Forall_cons in Hc as [Hu Hc]. apply not_elem_of_cons in Hni as [Hne Hni]. constructor; [|by apply IH].
  rewrite Hid. intros E%stamp_id_inj; done.
Qed.

Lemma max_of_ge l x : x ∈ l -> exists m, max_of l = Some m /\ (x <= m)%Z.
Proof using Type.
  assert (Hf : forall l a, (a <= foldl Z.max a l)%Z /\ forall x, x ∈ l -> (x <= foldl Z.max a l)%Z).
  { clear. induction l as [|y l IH]; intros a; simpl; [split; [done|by intros x ?%elem_of_nil]|].
    destruct (IH (a `max` y)%Z) as [Ha Hx]. split; [lia|]. intros x [->|Hin]%elem_of_cons; [lia|by apply Hx]. }
  destruct l as [|y l]; [by intros ?%elem_of_nil|]. intros Hx. eexists. split; [done|].
  destruct (Hf l y) as [Hy Hl]. apply elem_of_cons in Hx as [->|Hx]; [done|by apply Hl].
Qed.

Lemma identity_nonempty a k sc : identity a k sc <> "".
Proof using Type. unfold identity. by destruct a. Qed.

Lemma cooldown_apart key m now : (0 <= m)%Z -> (0 <= now < u64_max)%Z -> (0 < cooldown)%Z -> key <> "" ->
  match record_issued key m (cooldown_new ((cooldown * 1000) `min` u64_max)) with
  | (Err _, _) => None
  | (Ok _, ledger) => match classify ledger key now with Ready => None | Cooldown t => Some t end
  end = None -> (m + cooldown * 1000 <= now)%Z.
Proof using Type.
  intros Hm Hn Hc Hk. unfold record_issued. rewrite bool_decide_false by done. unfold classify. simpl.
  rewrite lookup_insert_eq. destruct (Z.leb_spec ((m + (cooldown * 1000) `min` u64_max) `min` u64_max)%Z now); [|done].
  intros _. lia.
Qed.

Context `{!Rfc3339Laws}.
#[local] Set Default Proof Using "Type*".

Lemma gate_cooldown req now us l g id :
  Forall clock_ok us -> clock_ok now -> now ∉ us -> Forall2 minted us l -> minted now g -> (0 < cooldown)%Z ->
  gate policy cooldown req (stamp_id "gr-" now) now (l ++ [g]) = Ok id ->
  forall i u h, us !! i = Some u -> l !! i = Some h -> grant_key_entry h = grant_key_req req ->
    (epoch_ms u + cooldown * 1000 <= epoch_ms now)%Z.
Proof.
  intros Hc Hn Hni Hm Hg Hcd Hgate i u h Hu Hh Hk. unfold gate in Hgate. rewrite (proj2 (Z.ltb_lt _ _)) in Hgate by done.
  destruct (cooldown_ready_at_ms _ _ _ _ _) as [|] eqn:Ec; [done|]. clear Hgate. unfold cooldown_ready_at_ms in Ec.
  assert (Hids := minted_other_ids us l now Hc Hn Hni Hm).
  rewrite filter_app, (filter_all _ l), (filter_none _ [g]), app_nil_r in Ec.
  2:{ constructor; [|done]. destruct Hg as [-> _]. naive_solver. }
  2:{ done. }
  destruct (Forall2_lookup_lr _ _ _ _ _ _ Hm Hu Hh) as (_ & Hf & _).
  assert (Hin : epoch_ms u ∈ omap (fun g => parse_rfc3339_ms (issued_at g)) (filter (fun g => grant_key_entry g = grant_key_req req) l)).
  { apply list_elem_of_omap. exists h. split.
    - apply list_elem_of_filter. split; [done|]. by eapply list_elem_of_lookup_2.
    - unfold parse_rfc3339_ms. by rewrite (parse_format _ _ Hf). }
  apply max_of_ge in Hin as (m & Em & Hle). rewrite Em in Ec. cbn [mbind option_bind] in Ec.
  assert (Hu' : clock_ok u) by (by eapply Forall_lookup_1). apply epoch_ms_ok in Hu'. assert (Hn' := epoch_ms_ok now Hn).
  apply cooldown_apart in Ec; [lia..|apply identity_nonempty].
Qed.

(** Nothing but the candidate is active, so nothing overlaps. *)
Lemma no_overlap now us l g :
  Forall clock_ok us -> clock_ok now -> now ∉ us -> Forall2 minted us l ->
  candidate_overlap (l ++ [g]) (stamp_id "gr-" now) = None.
Proof using Type.
  intros Hc Hn Hni Hm. unfold candidate_overlap.
  assert (Hids := minted_other_ids us l now Hc Hn Hni Hm).
  assert (Hl : Forall (fun h => ~ (state h = GrantState.Active \/ grant_id h = stamp_id "gr-" now)) l).
  { apply Forall_forall. intros h Hh. rewrite Forall_forall in Hids. specialize (Hids h Hh).
    apply list_elem_of_lookup in Hh as [i Hi]. destruct (Forall2_lookup_r _ _ _ _ _ Hm Hi) as (u & _ & Hmh).
    unfold minted in Hmh. naive_solver congruence. }
  rewrite filter_app, (filter_none _ l) by done. rewrite filter_cons, filter_nil. simpl.
  case_decide as Ha; [|done]. cbn [fmap list_fmap]. unfold scan. rewrite filter_cons, filter_nil. by repeat case_decide.
Qed.

Lemma issue_op_error req now us s c m s' :
  Forall clock_ok us -> clock_ok now -> now ∉ us -> Forall2 minted us (sn_entries s) -> (0 <= rq_ttl_seconds req)%Z ->
  issue_op policy cooldown req now s = (Err (c, m), s') -> c <> CONFLICT.
Proof using Type.
  intros Hc Hn Hni Hm Hu. unfold issue_op. destruct (issue _ _ _ _ _) as [[id|e] s1] eqn:Ei; unfold lift_err; simpl.
  2:{ intros E. destruct e; by simplify_eq/=. }
  intros [= Hg <-]. assert (Hop : exists g, sn_entries s1 = sn_entries s ++ [g] /\ id = stamp_id "gr-" now).
  { unfold issue in Ei. destruct (result_bind _ _) as [g|]; [|done]. unfold and_return, recompute in Ei.
    destruct (rfc3339_format now); simplify_eq/=. by exists g. }
  destruct Hop as (g & Hes & ->). rewrite Hes in Hg. unfold gate in Hg. rewrite (no_overlap now us) in Hg by done.
  destruct (if (0 <? cooldown)%Z then _ else _); [by simplify_eq|]. by destruct policy.
Qed.

Lemma spaced_snoc us l now g :
  length us = length l -> spaced us l ->
  (forall i u h, us !! i = Some u -> l !! i = Some h -> grant_key_entry h = grant_key_entry g ->
     (epoch_ms u + cooldown * 1000 <= epoch_ms now)%Z) ->
  spaced (us ++ [now]) (l ++ [g]).
Proof using Type.
  intros Hl Hs Hn i j u v a b Hij Hu Hv Ha Hb Hk. apply lookup_snoc_Some in Hb as [[Hj Hb]|[-> <-]].
  - rewrite lookup_app_l in Hu by lia. rewrite lookup_app_l in Hv by lia. rewrite lookup_app_l in Ha by lia. by apply (Hs i j u v a b).
  - rewrite lookup_app_l in Hu by lia. rewrite lookup_app_l in Ha by lia. rewrite <-Hl, list_lookup_middle in Hv by done.
    simplify_eq. by apply (Hn i u a).
Qed.

Lemma spaced_insert us l i g st : l !! i = Some g -> spaced us l ->
  spaced us (<[i := with_state st g]> l).
Proof using Type.
  intros Hi Hs a b u v x y Hab Hu Hv Hx Hy Hk.
  assert (Hget : forall n z, <[i := with_state st g]> l !! n = Some z -> exists z', l !! n = Some z' /\ grant_key_entry z' = grant_key_entry z).
  { intros n z Hz. apply list_lookup_insert_Some in Hz as [(-> & <- & _)|[_ Hz]]; [by exists g|by exists z]. }
  destruct (Hget a x Hx) as (x' & Hx' & Ex), (Hget b y Hy) as (y' & Hy' & Ey). apply (Hs a b u v x' y'); [done..|]. congruence.
Qed.

Lemma minted_revoked us l i g : l !! i = Some g -> Forall2 minted us l -> Forall2 minted us (<[i := with_state GrantState.Revoked g]> l).
Proof using Type.
  intros Hi Hm. destruct (Forall2_lookup_r _ _ _ _ _ Hm Hi) as (u & Hu & Hmg). rewrite <-(list_insert_id us i u Hu).
  apply Forall2_insert; [done|]. unfold minted in *. simpl. naive_solver.
Qed.

Lemma grants_inv_mono ts t s : grants_inv ts s -> grants_inv (ts ++ [t]) s.
Proof using Type.
  intros (Hv & Ht & us & Hsub & Hm). split; [done|]. split; [done|]. exists us. split; [by apply sublist_inserts_r|done].
Qed.

Context `{!SnapshotJsonLaws GrantEntry GrantSummary}.

Lemma issue_call_inv ts req io disk s :
  Forall clock_ok ts -> clock_ok (io_now io) -> io_now io ∉ ts -> (0 <= rq_ttl_seconds req)%Z ->
  load (R := IssueError) path None disk = Ok s -> grants_inv ts s ->
  exists s', load (R := IssueError) path None (issue_handler path policy cooldown req io disk).2 = Ok s' /\
    grants_inv (ts ++ [io_now io]) s' /\ status (issue_handler path policy cooldown req io disk).1 <> CONFLICT.
Proof.
  intros Hc Hn Hni Hok Hl Hinv. assert (Hkeep := grants_inv_mono ts (io_now io) s Hinv).
  destruct Hinv as (Hv & Htiles & us & Hsub & Hm & Hsp).
  assert (Hus : Forall clock_ok us) by (rewrite Forall_forall in *; intros u Hu; apply Hc; by eapply sublist_elem).
  assert (Hnu : io_now io ∉ us) by (intros Hin; apply Hni; by eapply sublist_elem).
  assert (Hcases := api_update_cases Grants.display path (issue_op policy cooldown req (io_now io)) io disk).
  unfold issue_handler, answer_entry. destruct (api_update _ _ _ _ _) as [[[id s']|[code m]] disk'] eqn:Ea; simpl.
  - destruct Hcases as (s0 & Hs0 & _ & Hop & Hl'). rewrite Hl in Hs0. simplify_eq. exists s'. split; [done|]. split.
    + destruct (issue_op_ok _ _ _ _ _ Hok Hop) as (g & Hg & Hk & Hes & Ht & Hsv & Hgate).
      split; [congruence|]. split; [done|]. exists (us ++ [io_now io]). split; [by apply sublist_app|]. rewrite Hes in *. split.
      { apply Forall2_app; [done|]. constructor; [done|constructor]. }
      intros Hcd. apply spaced_snoc; [by eapply Forall2_length|by apply Hsp|]. rewrite Hk. by eapply gate_cooldown.
    + by destruct (list_find _ (sn_entries s')) as [[? ?]|].
  - exists s. split; [unfold load in *; by rewrite Hcases|]. split; [done|].
    destruct (api_update_error _ _ _ _ _ _ _ _ Ea) as [->|(s0 & s1 & Hs0 & Hop)]; [done|].
    rewrite Hl in Hs0. simplify_eq. by eapply issue_op_error.
Qed.

Lemma revoke_call_inv ts id io disk s :
  load (R := IssueError) path None disk = Ok s -> grants_inv ts s ->
  exists s', load (R := IssueError) path None (revoke_handler path id io disk).2 = Ok s' /\
    grants_inv ts s' /\ status (revoke_handler path id io disk).1 <> CONFLICT.
Proof.
  intros Hl Hinv. assert (Hcases := api_update_cases Grants.display path (revoke_op id (io_now io)) io disk).
  unfold revoke_handler, answer_snapshot. destruct (api_update _ _ _ _ _) as [[[[] s']|[code m]] disk'] eqn:Ea; simpl.
  - destruct Hcases as (s0 & Hs0 & _ & Hop & Hl'). rewrite Hl in Hs0. simplify_eq. exists s'. split; [done|]. split; [|done].
    destruct (revoke_op_ok _ _ _ _ Hop) as (i & g & Hi & Hes & _ & Ht & Hsv).
    destruct Hinv as (Hv & _ & us & Hsub & Hm & Hsp). split; [congruence|]. split; [done|]. exists us. rewrite Hes.
    split; [done|]. split; [by apply minted_revoked|]. intros Hcd. by apply spaced_insert, Hsp.
  - exists s. split; [unfold load in *; by rewrite Hcases|]. split; [done|].
    destruct (api_update_error _ _ _ _ _ _ _ _ Ea) as [->|(s0 & s1 & _ & Hop)]; [done|].
    unfold revoke_op, or_not_found, lift_err in Hop. destruct (revoke id (io_now io) s0) as [[[]|e] s2]; [by simplify_eq/=..|].
    destruct e; by simplify_eq/=.
Qed.

Lemma grants_run_inv calls ts disk s :
  Forall clock_ok ts -> Forall clock_ok (io_now <$> calls.*2) -> NoDup (ts ++ (io_now <$> calls.*2)) ->
  Forall (fun p => call_ok p.1) calls ->
  load (R := IssueError) path None disk = Ok s -> grants_inv ts s ->
  exists s', load (R := IssueError) path None (grants_run calls disk).2 = Ok s' /\
    grants_inv (ts ++ (io_now <$> calls.*2)) s' /\ CONFLICT ∉ (grants_run calls disk).1.
Proof.
  intros Hts. revert ts Hts disk s. induction calls as [|[c io] calls IH]; intros ts Hts disk s Hcs Hnd Hok Hl Hinv; csimpl in *.
  { exists s. rewrite app_nil_r. split; [done|]. split; [done|]. apply not_elem_of_nil. }
  apply Forall_cons in Hcs as [Hcio Hcs]. apply Forall_cons in Hok as [Hc Hok]. simpl in Hc.
  assert (Hni : io_now io ∉ ts).
  { apply NoDup_app in Hnd as (_ & Hd & _). intros Hin. by eapply Hd; [|left]. }
  assert (Hstep : exists s', load (R := IssueError) path None (grants_call c io disk).2 = Ok s' /\
    grants_inv (ts ++ [io_now io]) s' /\ (grants_call c io disk).1 <> CONFLICT).
  { unfold grants_call. destruct c as [req|id].
    - destruct (issue_call_inv ts req io disk s) as (s' & ? & ? & ?); [done..|]. exists s'. by destruct (issue_handler _ _ _ _ _ _).
    - destruct (revoke_call_inv ts id io disk s) as (s' & ? & ? & ?); [done..|]. exists s'.
      destruct (revoke_handler _ _ _ _). split; [done|]. split; [by apply grants_inv_mono|done]. }
  destruct Hstep as (s1 & Hl1 & Hinv1 & Hr). destruct (grants_call c io disk) as [r disk1]. csimpl in *.
  destruct (IH (ts ++ [io_now io])) with (disk := disk1) (s := s1) as (s2 & Hl2 & Hinv2 & Hr2); try done.
  - apply Forall_app. split; [done|]. constructor; [done|constructor].
  - by rewrite <-app_assoc.
  - rewrite <-app_assoc in Hinv2. destruct (grants_run calls disk1) as [rs disk2]. csimpl in *.
    exists s2. split; [done|]. split; [done|]. by apply not_elem_of_cons.
Qed.

Context `{!HashValuesLaws GrantKind.t GrantSummary}.

Lemma grants_inv_new : grants_inv [] registry_new.
Proof.
  split; [done|]. split; [|exists []; repeat split; try constructor; intros ? ? ?; done].
  simpl. by rewrite recompute_grants_exact by (simpl; lia).
Qed.

(** C19: the grant store over any history of requests from an empty store, failures of
    the file system included. The file always reads back; its tiles are those of
    its grants; every grant was minted by one request, with that request's clock,
    is signed, has a scope, a reason, an actor, a profile and a life time of at
    most a day that ends when it says; and with a cooldown configured, two grants
    of the same actor, kind and scope were issued at least the cooldown apart,
    revoked and expired ones included. No two requests see the same clock
    reading. *)
Theorem grants_history calls disk :
  disk !! path = None -> Forall clock_ok (io_now <$> calls.*2) -> NoDup (io_now <$> calls.*2) ->
  Forall (fun p => call_ok p.1) calls ->
  exists s us, load (R := IssueError) path None (grants_run calls disk).2 = Ok s /\
    sn_schema_version s = SCHEMA_VERSION /\ sn_summaries s = recompute_grants (sn_entries s) /\
    us `sublist_of` (io_now <$> calls.*2) /\ Forall2 minted us (sn_entries s) /\
    ((0 < cooldown)%Z -> spaced us (sn_entries s)).
Proof.
  intros Hd Hc Hn Hok. destruct (grants_run_inv calls [] disk registry_new) as (s & Hl & (Hv & Ht & us & Hu) & _); try done.
  - unfold load. by rewrite Hd.
  - apply grants_inv_new.
  - by exists s, us.
Qed.

(** The overlap gate has nothing to compare with. Under every policy, [Refuse]
    included, no request of any history from an empty store is answered with a
    conflict: the gate looks at active grants, requests make pending ones, and
    nothing in the daemon activates a grant. *)
Theorem overlap_gate_vacuous calls disk :
  disk !! path = None -> Forall clock_ok (io_now <$> calls.*2) -> NoDup (io_now <$> calls.*2) ->
  Forall (fun p => call_ok p.1) calls -> CONFLICT ∉ (grants_run calls disk).1.
Proof.
  intros Hd Hc Hn Hok. destruct (grants_run_inv calls [] disk registry_new) as (s & _ & _ & Hr); try done.
  - unfold load. by rewrite Hd.
  - apply grants_inv_new.
Qed.

(** Requests are not isolated from each other. A revocation and an issuance that both
    load the store before either saves it are both answered with success, the
    revocation with a snapshot in which the grant is revoked; but the store then
    holds the grant as it was before the revocation. *)
Theorem concurrent_revoke_lost id req io1 io2 s0 disk disk1 disk2 s1 i g id2 s2 :
  (0 <= rq_ttl_seconds req)%Z ->
  load (R := IssueError) path None disk = Ok s0 -> list_find (fun e => grant_id e = id) (sn_entries s0) = Some (i, g) ->
  api_finish display path (revoke_op id (io_now io1)) io1 s0 disk = (Ok (tt, s1), disk1) ->
  api_finish display path (issue_op policy cooldown req (io_now io2)) io2 s0 disk1 = (Ok (id2, s2), disk2) ->
  (exists g', sn_entries s1 !! i = Some g' /\ grant_id g' = id /\ state g' = GrantState.Revoked) /\
  exists s, load (R := IssueError) path None disk2 = Ok s /\ sn_entries s !! i = Some g.
Proof.
  intros Hok Hl Hf Hr Hi2.
  assert (C1 := api_finish_cases display path (revoke_op id (io_now io1)) io1 s0 disk). rewrite Hr in C1.
  assert (C2 := api_finish_cases display path (issue_op policy cooldown req (io_now io2)) io2 s0 disk1). rewrite Hi2 in C2.
  assert (Hf' := Hf). apply list_find_Some in Hf as (Hi & Hid & Hfirst). split.
  - destruct C1 as [C1 _]. unfold revoke_op, revoke, set_state in C1. simpl in C1.
    rewrite Hf' in C1. unfold recompute, or_not_found, lift_err, and_return in C1.
    destruct (rfc3339_format (io_now io1)); simplify_eq/=. eexists.
    split; [apply list_lookup_insert_eq; by eapply lookup_lt_Some|done].
  - destruct C2 as [C2 Hl2]. exists s2. split; [done|]. destruct (issue_op_ok _ _ _ _ _ Hok C2) as (g2 & _ & _ & Hes & _).
    rewrite Hes. by apply lookup_app_l_Some.
Qed.
End grants_life.

(** ** Overlapping scopes *)

Section overlap.
Import Grants.

(** An absolute path, from the names on the way down; the root itself is written
    ["/"] and is not of this form. *)
Definition is_name (c : string) : Prop := c <> "" /\ all_bytes (fun a => negb (bool_decide (a = "/"%char))) c = true.
Fixpoint path_of (cs : list string) : string :=
  match cs with [] => "" | c :: cs => "/" +:+ c +:+ path_of cs end.

Lemma path_of_app cs ds : path_of (cs ++ ds) = path_of cs +:+ path_of ds.
Proof. induction cs as [|c cs IH]; simpl; [done|]. by rewrite IH, !str_app_assoc. Qed.

(** What follows a name: nothing, or a slash. *)
Definition at_name_end (r : string) : Prop := match r with "" => True | String a _ => a = "/"%char end.

Lemma path_of_end cs : at_name_end (path_of cs).
Proof. by destruct cs. Qed.

Lemma name_end_unique c d r r' : is_name c -> is_name d -> at_name_end r -> at_name_end r' ->
  c +:+ r = d +:+ r' -> c = d /\ r = r'.
Proof.
  intros [_ Hc] [_ Hd] Hr Hr'. revert d Hd. induction c as [|a c IH]; intros [|b d] Hd; simpl in *; rewrite ?str_cons_app; intros E.
  - done.
  - exfalso. change (("" +:+ r) : string) with r in E. subst r. simpl in Hr. subst b. done.
  - exfalso. change (("" +:+ r') : string) with r' in E. subst r'. simpl in Hr'. subst a. done.
  - injection E as -> E. apply andb_true_iff in Hc as [_ Hc]. apply andb_true_iff in Hd as [_ Hd].
    destruct (IH Hc d Hd E) as [-> ->]. done.
Qed.

Lemma path_of_prefix cs ds r : Forall is_name cs -> Forall is_name ds -> at_name_end r ->
  path_of cs +:+ r = path_of ds -> cs `prefix_of` ds.
Proof.
  intros Hc. revert ds. induction Hc as [|c cs Hn Hc IH]; intros ds Hds Hr E; [apply prefix_nil|].
  destruct Hds as [|d ds Hd Hds]; [done|]. simpl in E. rewrite !str_app_assoc in E. apply str_app_cancel_l in E.
  destruct (name_end_unique c d (path_of cs +:+ r) (path_of ds)) as [-> E']; [done|done|by destruct cs|apply path_of_end|done|].
  apply prefix_cons. by apply IH.
Qed.

Fixpoint last_byte (s : string) : option Ascii.ascii :=
  match s with "" => None | String a "" => Some a | String _ s => last_byte s end.
Lemma last_byte_app s t : t <> "" -> last_byte (s +:+ t) = last_byte t.
Proof.
  intros Ht. induction s as [|a s IH]; [done|]. rewrite str_cons_app. simpl.
  destruct (s +:+ t) as [|b u] eqn:E; [|done]. destruct s; [by destruct t|done].
Qed.

Lemma name_last c : is_name c -> last_byte c <> Some "/"%char.
Proof.
  intros [_ Hc]. induction c as [|a c IH]; simpl in *; [done|]. apply andb_true_iff in Hc as [Ha Hc].
  destruct c; [intros [= ->]; done|by apply IH].
Qed.

Lemma path_last cs : cs <> [] -> Forall is_name cs -> last_byte (path_of cs) <> Some "/"%char.
Proof.
  intros Hne Hc. destruct cs as [|c cs _] using rev_ind; [done|]. apply Forall_app in Hc as [_ Hc].
  apply Forall_cons in Hc as [Hc _]. rewrite path_of_app. simpl. rewrite str_app_nil_r, <-str_app_assoc.
  rewrite last_byte_app; [by apply name_last|by destruct Hc].
Qed.

Lemma trim_path cs : cs <> [] -> Forall is_name cs -> trim_trailing_slash (path_of cs) = path_of cs.
Proof.
  intros Hne Hc. unfold trim_trailing_slash. destruct (strip_suffix "/" (path_of cs)) as [t|] eqn:Es; [|by destruct (_ && _)].
  apply strip_suffix_Some in Es. destruct (path_last _ Hne Hc). rewrite Es. by apply last_byte_app.
Qed.

Lemma path_under cs ds : cs <> [] -> Forall is_name cs -> Forall is_name ds -> cs <> ds ->
  starts_with (path_of ds) (trim_trailing_slash (path_of cs) +:+ "/") = true <-> cs `prefix_of` ds.
Proof.
  intros Hne Hc Hd Hcd. rewrite trim_path, starts_with_spec by done. split.
  - intros [t E]. rewrite str_app_assoc in E. apply (path_of_prefix cs ds ("/" +:+ t)); [done..|by rewrite E].
  - intros [[|e es] ->]; [by rewrite app_nil_r in Hcd|]. exists (e +:+ path_of es).
    rewrite path_of_app. simpl. by rewrite !str_app_assoc.
Qed.

(** Two file-system scopes overlap, for the detector, exactly if one of them is the
    other or lies below it, name by name; except for the root, which covers
    everything and overlaps only itself. *)
Theorem filesystem_overlap_exact cs ds :
  cs <> [] -> ds <> [] -> Forall is_name cs -> Forall is_name ds ->
  (is_Some (overlaps GrantKind.Filesystem (path_of cs) (path_of ds)) <-> cs `prefix_of` ds \/ ds `prefix_of` cs) /\
  overlaps GrantKind.Filesystem "/" (path_of cs) = None.
Proof.
  intros Hc0 Hd0 Hc Hd. split.
  - unfold overlaps. case_bool_decide as Eq.
    { split; [|by eexists]. intros _. left. apply (path_of_prefix cs ds ""); [done..|]. by rewrite str_app_nil_r. }
    assert (Hne : cs <> ds) by (by intros ->).
    destruct (starts_with (path_of ds) _) eqn:E1; [|destruct (starts_with (path_of cs) _) eqn:E2].
    + apply path_under in E1; [|done..]. split; [by left|by eexists].
    + apply path_under in E2; [|done..]. split; [by right|by eexists].
    + split; [by intros []|]. intros [H%path_under|H%path_under]; congruence || done.
  - unfold overlaps. destruct cs as [|c cs]; [done|]. apply Forall_cons in Hc as [[Hc Hs] Hcs].
    destruct c as [|a c]; [done|]. rewrite bool_decide_false by done.
    destruct (starts_with (path_of (String a c :: cs)) _) eqn:E.
    { apply starts_with_spec in E as [t E]. simpl in E. injection E as -> _. done. }
    destruct (starts_with "/" _) eqn:E2; [|done]. apply starts_with_spec in E2 as [t E2].
    rewrite trim_path in E2; [|done|by repeat constructor]. simpl in E2. by destruct c.
Qed.
End overlap.

(** ** The word of a capability token *)

Section tokens.
Import CapTokens.

Lemma tool_token_parse tok t : parse_tool tok = Some t <-> tok = tool_token t.
Proof.
  split; [|intros ->; by destruct t]. unfold parse_tool. repeat case_bool_decide; by intros [= <-].
Qed.
Lemma tool_token_inj t t' : tool_token t = tool_token t' -> t = t'.
Proof. intros E. assert (H := proj2 (tool_token_parse _ _) E). assert (H' := proj2 (tool_token_parse (tool_token t) t) eq_refl). congruence. Qed.

Lemma parse_tools_ok l ts : parse_tools l = Ok ts -> tool_token <$> ts = l.
Proof.
  revert ts. induction l as [|tok l IH]; intros ts; simpl; [by intros [= <-]|].
  destruct (parse_tool tok) as [t|] eqn:Et; [|done]. apply tool_token_parse in Et.
  destruct (parse_tools l) as [ts'|]; [|done]. intros [= <-]. csimpl. f_equal; [done|by apply IH].
Qed.

Lemma allow_tools_spec ts w : is_word w ->
  let w' := foldl (fun w t => allow_tool t w) w ts in
  is_word w' /\ (forall t, has_tool w' t = true <-> t ∈ ts \/ has_tool w t = true).
Proof.
  revert w. induction ts as [|t ts IH]; intros w Hw; csimpl.
  - split; [done|]. intros t. rewrite elem_of_nil. tauto.
  - destruct (allow_tool_spec t w Hw) as (Hw1 & Ht & _). destruct (IH _ Hw1) as [Hw2 Ht2]. split; [done|].
    intros t'. rewrite Ht2, Ht, elem_of_cons, orb_true_iff, bool_decide_eq_true. intuition congruence.
Qed.

Lemma build_word_ok ts ring h : build_word ts ring = Ok h ->
  exists w, from_hex h = Some w /\ trust_level w = Ok (trust_ring_numeric ring) /\ forall t, has_tool w t = true <-> t ∈ ts.
Proof.
  assert (H0 : is_word word_empty) by done. unfold build_word. destruct (allow_tools_spec ts word_empty H0) as [Hw Ht].
  set (w := foldl _ _ _) in *. clearbody w. assert (Hr : (0 <= trust_ring_numeric ring <= 4)%Z) by (destruct ring; simpl; lia).
  assert (Hb : is_byte (trust_ring_numeric ring)) by (unfold is_byte; lia).
  unfold set_trust_level. rewrite (proj2 (Z.ltb_ge 4 _)) by lia. intros [= <-]. eexists. split_and!.
  - apply hex_round_trip. by apply set_byte_word.
  - unfold trust_level. rewrite byte_set_byte, decide_True by done. by rewrite (proj2 (Z.ltb_ge 4 _)) by lia.
  - intros t. unfold has_tool. rewrite byte_set_byte, decide_False by done.
    transitivity (has_tool w t = true); [done|]. rewrite Ht. split; [intros [?|E]; [done|by destruct t]|by left].
Qed.

Lemma check_request_ok req ts h : check_request req = Ok (ts, h) ->
  rq_signature req <> "" /\ rq_actor req <> "" /\ rq_profile req <> "" /\ rq_allowed_tools req <> [] /\
  rq_sandbox_tier req ∈ SANDBOX_TIERS /\ rq_ttl_seconds req <> 0%Z /\ (rq_ttl_seconds req <= MAX_TTL_SECONDS)%Z /\
  tool_token <$> ts = rq_allowed_tools req /\ build_word ts (rq_trust_ring req) = Ok h.
Proof.
  unfold check_request. do 4 (case_bool_decide; [done|]). case_bool_decide; simpl; [|done].
  destruct (Z.eqb_spec (rq_ttl_seconds req) 0); [done|]. destruct (Z.ltb_spec MAX_TTL_SECONDS (rq_ttl_seconds req)); [done|].
  destruct (parse_tools (rq_allowed_tools req)) as [ts'|] eqn:Ep; [|done]. simpl.
  destruct (build_word ts' (rq_trust_ring req)) as [h'|] eqn:Eb; [|done]. simpl. intros [= <- <-].
  split_and!; try done. by apply parse_tools_ok.
Qed.

Context `{WireFormat} `{Rfc3339} `{!HashValues TrustRing.t RingSummary}.

(** An issued capability token grants what was asked and nothing else: its word, in
    the text form that clients read, allows a tool exactly if the request lists
    it and carries the requested trust ring; the readable list of tools agrees
    with the word; and it is appended, pending, with the life time of the request,
    at most a day. *)
Theorem issued_word_exact req id trace now s id' s' :
  issue req id trace now s = (Ok id', s') ->
  exists e w, sn_entries s' = sn_entries s ++ [e] /\ token_id e = id /\ id' = id /\
    from_hex (capability_word e) = Some w /\
    (forall t, has_tool w t = true <-> tool_token t ∈ rq_allowed_tools req) /\
    trust_level w = Ok (trust_ring_numeric (rq_trust_ring req)) /\
    allowed_tools e = rq_allowed_tools req /\ state e = TokenState.Pending /\
    rfc3339_format now = Some (issued_at e) /\
    rfc3339_format (after_secs now (rq_ttl_seconds req)) = Some (expires_at e) /\
    (rq_ttl_seconds req <= MAX_TTL_SECONDS)%Z /\ rq_signature req <> "".
Proof using Type.
  unfold issue. destruct (check_request req) as [[ts h]|] eqn:Ec; [|done].
  apply check_request_ok in Ec as (Hs & _ & _ & _ & _ & _ & Httl & Hts & Hb).
  unfold format_time, recompute, and_return. destruct (rfc3339_format now) as [issued|] eqn:Ei; [|done].
  destruct (rfc3339_format (after_secs now (rq_ttl_seconds req))) as [expires|] eqn:Ee; [|done].
  cbn [result_bind]. intros E. simplify_eq/=.
  destruct (build_word_ok _ _ _ Hb) as (w & Hw & Hl & Ht).
  eexists _, w. split_and!; try done. intros t. rewrite Ht, <-Hts, list_elem_of_fmap. split; [by exists t|].
  by intros (t' & ->%tool_token_inj & ?).
Qed.
End tokens.

(** ** The range and the history of a trust score *)

Section scores.
Import TrustScores.

(** Every score in the history follows from the one before it by its delta, and the
    last one is the current score. *)
Fixpoint explained (h : list DeltaEntry) (current : Z) : Prop :=
  match h with
  | [] => True
  | [d] => de_score_after d = current
  | d :: (d' :: _) as rest => de_score_after d' = apply_delta (de_score_after d) (de_delta d') /\ explained rest current
  end.

Definition entry_ok (e : ToolScoreEntry) : Prop :=
  (0 <= current_score e <= 1000)%Z /\ band e = for_score (current_score e) /\
  Forall (fun d => 0 <= de_score_after d <= 1000)%Z (history e) /\
  length (history e) <= MAX_HISTORY_ENTRIES /\ explained (history e) (current_score e).

Lemma apply_delta_range s d : (0 <= apply_delta s d <= 1000)%Z.
Proof. unfold apply_delta. lia. Qed.

Lemma explained_snoc h c d : explained h c -> de_score_after d = apply_delta c (de_delta d) ->
  explained (h ++ [d]) (de_score_after d).
Proof.
  intros Hh Hd. induction h as [|x h IH]; [done|]. destruct h as [|y h]; simpl in *.
  - by subst c.
  - destruct Hh as [? ?]. split; [done|by apply IH].
Qed.

Lemma explained_drop n h c : explained h c -> explained (drop n h) c.
Proof.
  revert n. induction h as [|x h IH]; intros [|n] Hh; try done. simpl. apply IH. destruct h; [done|]. by destruct Hh.
Qed.

Lemma scored_ok r d trace sig stamp e : entry_ok e -> entry_ok (scored r d trace sig stamp e).
Proof.
  intros (Hs & _ & Hf & Hl & Hx). split; [apply apply_delta_range|]. split; [done|]. simpl. split_and!.
  - apply Forall_drop, Forall_app. split; [done|]. constructor; [apply apply_delta_range|constructor].
  - rewrite length_drop, length_app. simpl. unfold MAX_HISTORY_ENTRIES. lia.
  - apply explained_drop. by apply (explained_snoc _ (current_score e)).
Qed.

Context `{WireFormat} `{Rfc3339} `{!HashValues TrustBand.t BandTotal}.
Implicit Types s : Snapshot ToolScoreEntry BandSummary.

Inductive ScoreOp :=
| OpAdmit (tool declarer : string) (initial : Z)
| OpRecord (tool : string) (r : DeltaReason) (trace : string)
| OpOperator (req : OperatorDeltaRequest).

Definition score_op (op : ScoreOp) (now : Z) s : result bool (RegistryError Refusal) * Snapshot ToolScoreEntry BandSummary :=
  match op with
  | OpAdmit t d i => admit_tool t d i now s
  | OpRecord t r tr => record_delta t r tr now s
  | OpOperator req => apply_operator_delta req now s
  end.
(** An initial score is a [u16]. *)
Definition score_op_ok (op : ScoreOp) : Prop := match op with OpAdmit _ _ i => (0 <= i)%Z | _ => True end.

Definition score_run (ops : list (ScoreOp * Z)) s : Snapshot ToolScoreEntry BandSummary :=
  foldl (fun s op => (score_op op.1 op.2 s).2) s ops.

Definition scores_inv s : Prop := Forall entry_ok (sn_entries s) /\ NoDup (tool <$> sn_entries s).

Lemma recompute_scores_entries now s : sn_entries (recompute (R := Refusal) now s).2 = sn_entries s.
Proof using Type. unfold recompute. by destruct (rfc3339_format now). Qed.

Lemma admit_inv t d i now s : (0 <= i)%Z -> scores_inv s -> scores_inv (admit_tool t d i now s).2.
Proof using Type.
  intros Hi [Hf Hn]. unfold admit_tool. case_bool_decide; [done|]. case_bool_decide; [done|].
  destruct (Z.ltb_spec 1000 i); [done|]. destruct (existsb _ _) eqn:Ex; [done|].
  destruct (format_time now) as [stamp|]; [|done]. unfold and_return, scores_inv. simpl. rewrite recompute_scores_entries. simpl.
  split; [apply Forall_app; split; [done|]; constructor; [|constructor]; split_and!; simpl; try done; unfold MAX_HISTORY_ENTRIES; lia|].
  rewrite fmap_app. apply NoDup_app. split_and!; [done| |repeat constructor; by intros ?%elem_of_nil].
  intros x (e & -> & He)%list_elem_of_fmap Hx%list_elem_of_singleton. simpl in Hx.
  assert (existsb (fun e => bool_decide (tool e = t)) (sn_entries s) = true); [|congruence].
  apply existsb_exists. exists e. split; [by apply list_elem_of_In|by apply bool_decide_eq_true].
Qed.

Lemma apply_internal_inv t r d trace sig now s : scores_inv s -> scores_inv (apply_internal t r d trace sig now s).2.
Proof using Type.
  intros [Hf Hn]. unfold apply_internal. destruct (format_time now) as [stamp|]; [|done].
  destruct (list_find _ _) as [[i e]|] eqn:Ef; [|done]. apply list_find_Some in Ef as (Hi & _ & _).
  unfold and_return, scores_inv. simpl. rewrite recompute_scores_entries. simpl. split.
  - apply Forall_insert; [done|]. apply scored_ok. by eapply Forall_lookup_1.
  - rewrite list_fmap_insert. simpl. rewrite list_insert_id; [done|]. by rewrite list_lookup_fmap, Hi.
Qed.

Lemma score_op_inv op now s : score_op_ok op -> scores_inv s -> scores_inv (score_op op now s).2.
Proof using Type.
  intros Ho Hs. destruct op as [t d i|t r tr|req]; simpl.
  - by apply admit_inv.
  - by apply apply_internal_inv.
  - unfold apply_operator_delta. do 3 (case_bool_decide; [done|]). by apply apply_internal_inv.
Qed.

Lemma validate_tools_ok l : Forall entry_ok l -> validate_tools l = Ok tt.
Proof using Type.
  induction 1 as [|e l (Hs & Hb & Hh & _) _ IH]; simpl; [done|].
  rewrite (proj2 (Z.ltb_ge 1000 _)), bool_decide_true by (done || lia). simpl.
  assert (Hv : validate_history (history e) = Ok tt); [|by rewrite Hv].
  induction Hh as [|d h Hd _ IHh]; simpl; [done|]. by rewrite (proj2 (Z.ltb_ge 1000 _)) by lia.
Qed.

(** The trust scores over any history of admissions, recorded outcomes and operator
    adjustments, refused ones included. The snapshot always passes the mirror's
    own validation; no tool is listed twice; at most 64 deltas are kept per tool;
    and those kept explain the score: each follows from the one before it by its
    delta, clamped, and the last is the current score. *)
Theorem trust_scores_valid ops :
  Forall (fun op => score_op_ok op.1) ops ->
  let s := score_run ops registry_new in
  validate_scores s = Ok tt /\ NoDup (tool <$> sn_entries s) /\
  Forall (fun e => length (history e) <= 64 /\ explained (history e) (current_score e)) (sn_entries s).
Proof using Type.
  intros Hops s. assert (Hinv : scores_inv s).
  { subst s. assert (Hnew : scores_inv registry_new) by (split; constructor).
    revert Hnew. generalize (@registry_new ToolScoreEntry BandSummary).
    induction Hops as [|[op now] ops Ho _ IH]; intros s0 Hnew; [done|]. apply IH. by apply score_op_inv. }
  destruct Hinv as [Hf Hn]. split_and!; [by apply validate_tools_ok|done|].
  eapply Forall_impl; [exact Hf|]. by intros e (_ & _ & _ & ? & ?).
Qed.

(** A delta moves a score by its amount and stops at 0 and at 1000, unless the sum
    leaves the 32-bit range: an operator's very large reward then turns into the
    score 0. *)
Theorem apply_delta_exact score d :
  (0 <= score <= 1000)%Z -> (- 2 ^ 31 <= d < 2 ^ 31)%Z ->
  apply_delta score d = if decide (score + d < 2 ^ 31)%Z then ((score + d) `max` 0 `min` 1000)%Z else 0%Z.
Proof.
  intros Hs Hd. unfold apply_delta, wrap_i32. case_decide.
  - destruct (Z.lt_ge_cases (score + d) (- 2 ^ 31)); [lia|]. by rewrite Z.mod_small by lia; lia.
  - replace (score + d + 2 ^ 31)%Z with (score + d - 2 ^ 31 + 1 * 2 ^ 32)%Z by lia.
    rewrite Z.mod_add, Z.mod_small by lia. lia.
Qed.
End scores.

(** ** The routes that change a registry *)

Section effects.
Context {E T : Type} `{!SnapshotJson E T} `{!Registry E T}.

(** The snapshot that a file holds; no file is an empty registry. *)
Definition stored (path : string) (disk : Disk) (s : Snapshot E T) : Prop :=
  match disk !! path with None => s = registry_new | Some text => snap_decode text = Ok s end.

(** A request on the registry in the file [path]: an error leaves the file as it was, a
    success turns the snapshot it held into another, with the given effect; nothing but
    the file and its temporary file is touched. *)
Definition all_or_nothing {B} (path : string) (effect : Snapshot E T -> Snapshot E T -> B -> Prop) (disk : Disk)
    (p : Answer B * Disk) : Prop :=
  match p.1 with
  | Err _ => p.2 !! path = disk !! path
  | Ok b => exists s s', stored path disk s /\ stored path p.2 s' /\ effect s s' b
  end /\
  forall q, q <> path -> q <> with_extension path "json.tmp" -> p.2 !! q = disk !! q.

(** One entry more, at the end, with the tiles counted anew. *)
Definition one_more (e : E) (s s' : Snapshot E T) : Prop :=
  sn_entries s' = sn_entries s ++ [e] /\ sn_summaries s' = recompute_summaries (sn_entries s').
(** The first entry with the property replaced, the others as they were. *)
Definition one_replaced (P : E -> Prop) (new : E -> E -> Prop) (s s' : Snapshot E T) : Prop :=
  exists l e e' l', sn_entries s = l ++ e :: l' /\ Forall (fun x => ~ P x) l /\ P e /\ new e e' /\
    sn_entries s' = l ++ e' :: l' /\ sn_summaries s' = recompute_summaries (sn_entries s').

Lemma list_find_replaced (P : E -> Prop) `{!forall x, Decision (P x)} l i e e' : list_find P l = Some (i, e) ->
  exists l1 l2, l = l1 ++ e :: l2 /\ Forall (fun x => ~ P x) l1 /\ P e /\ <[i := e']> l = l1 ++ e' :: l2.
Proof using Type.
  intros (Hi & Hp & Hbefore)%list_find_Some. exists (take i l), (drop (S i) l). split; [by rewrite take_drop_middle|].
  split.
  - apply Forall_lookup. intros j x Hj. pose proof (lookup_lt_Some _ _ _ Hj) as Hl. rewrite length_take in Hl.
    rewrite lookup_take_lt in Hj by lia. apply (Hbefore j x Hj). lia.
  - split; [done|]. by apply insert_take_drop; eapply lookup_lt_Some.
Qed.

Context `{!SnapshotJsonLaws E T} {R : Type} (display : RegistryError R -> string).

Lemma load_stored path disk s : load (R := R) path None disk = Ok s -> stored path disk s.
Proof using Type. unfold load, stored. destruct (disk !! path); [|by intros [= <-]]. by destruct (snap_decode _); intros [= <-]. Qed.

Lemma save_others path (s : Snapshot E T) o disk q : q <> path -> q <> with_extension path "json.tmp" ->
  (save (R := R) path s o disk).2 !! q = disk !! q.
Proof using Type.
  intros H1 H2. unfold save. destruct o, (snap_encode s); simpl; rewrite ?lookup_insert_ne, ?lookup_delete_ne by done; done.
Qed.

Lemma api_update_others {A} path (op : Snapshot E T -> Answer A * Snapshot E T) io disk q :
  q <> path -> q <> with_extension path "json.tmp" -> (api_update display path op io disk).2 !! q = disk !! q.
Proof using Type.
  intros H1 H2. unfold api_update, api_finish. destruct (load _ _ _) as [s|]; [|done]. destruct (op s) as [[a|] s']; [|done].
  pose proof (save_others path s' (io_save io) disk q H1 H2) as Hs. by destruct (save _ _ _ _) as [[]].
Qed.

Lemma snapshot_route {A} path (op : Snapshot E T -> Answer A * Snapshot E T) io disk (effect : Snapshot E T -> Snapshot E T -> Prop) :
  (forall s a s', op s = (Ok a, s') -> effect s s') ->
  all_or_nothing path (fun s s' b => b = s' /\ effect s s') disk (answer_snapshot (api_update display path op io disk)).
Proof using All.
  intros He. split; [|apply api_update_others]. assert (Hc := api_update_cases display path op io disk). unfold answer_snapshot.
  destruct (api_update _ _ _ _ _) as [[[a s']|e] disk']; simpl; [|done].
  destruct Hc as (s & Hs & _ & Hop & Hs'). exists s, s'. split; [by apply load_stored|]. split; [by apply load_stored|].
  split; [done|]. by eapply He.
Qed.

Lemma entry_route {St} `{!TtlEntry E St} missing path (op : Snapshot E T -> Answer string * Snapshot E T) io disk
    (effect : Snapshot E T -> Snapshot E T -> E -> Prop) :
  (forall s id s', op s = (Ok id, s') -> exists e, tt_id e = id /\ one_more e s s' /\ effect s s' e) ->
  all_or_nothing path (fun s s' b => exists e, tt_id b = tt_id e /\ b ∈ sn_entries s' /\ one_more e s s' /\ effect s s' e) disk
    (answer_entry missing (api_update display path op io disk)).
Proof using All.
  intros He. split; [|apply api_update_others]. assert (Hc := api_update_cases display path op io disk). unfold answer_entry.
  destruct (api_update _ _ _ _ _) as [[[id s']|e] disk']; simpl; [|done].
  destruct Hc as (s & Hs & _ & Hop & Hs'). destruct (He s id s' Hop) as (e & <- & Ho & Hx).
  destruct (list_find (fun x => tt_id x = tt_id e) (sn_entries s')) as [[i b]|] eqn:Ef; simpl.
  - apply list_find_Some in Ef as (Hi & Hid & _). exists s, s'. split; [by apply load_stored|]. split; [by apply load_stored|].
    exists e. split; [done|]. split; [by eapply list_elem_of_lookup_2|done].
  - exfalso. rewrite list_find_None, Forall_forall in Ef. apply (Ef e); [|done]. destruct Ho as [-> _]. set_solver.
Qed.
End effects.

Lemma set_state_replaced {E T St R} `{WireFormat} `{Rfc3339} `{!Registry E T} `{!TtlEntry E St} id (st : St) now
    (s s' : Snapshot E T) : set_state (R := R) id st now s = (Ok true, s') ->
  one_replaced (fun e => tt_id e = id) (fun e e' => e' = tt_set st e) s s'.
Proof.
  unfold set_state. destruct (list_find _ _) as [[i e]|] eqn:Ef; [|done]. unfold and_return, recompute.
  destruct (rfc3339_format now) as [t|]; [|done]. simpl. intros [= <-].
  destruct (list_find_replaced _ _ i e (tt_set st e) Ef) as (l1 & l2 & Hl & Hf & Hp & Hi).
  exists l1, e, (tt_set st e), l2. by split_and!.
Qed.

Lemma or_not_found_ok {E T R} (display : RegistryError R -> string) m (p : result bool (RegistryError R) * Snapshot E T) s' u :
  or_not_found m (lift_err display p) = (Ok u, s') -> p = (Ok true, s').
Proof. destruct p as [[[]|e] s1]; unfold or_not_found, lift_err; simpl; by intros [= _ <-]. Qed.

Section routes.
Context `{UnicodeTables} `{WireFormat} `{Rfc3339}.
Context `{!HashValues Grants.GrantKind.t Grants.GrantSummary} `{!SnapshotJson Grants.GrantEntry Grants.GrantSummary}
  `{!SnapshotJsonLaws Grants.GrantEntry Grants.GrantSummary}.
Context `{!HashValues CapTokens.TrustRing.t CapTokens.RingSummary} `{!SnapshotJson CapTokens.CapabilityEntry CapTokens.RingSummary}
  `{!SnapshotJsonLaws CapTokens.CapabilityEntry CapTokens.RingSummary}.
Context `{!HashValues Sandboxes.SandboxTier.t Sandboxes.TierSummary} `{!SnapshotJson Sandboxes.AllocationEntry Sandboxes.TierSummary}
  `{!SnapshotJsonLaws Sandboxes.AllocationEntry Sandboxes.TierSummary}.
Context `{!HashValues Quarantines.MismatchSeverity.t Quarantines.SeveritySummary}
  `{!SnapshotJson Quarantines.QuarantineEntry Quarantines.SeveritySummary}
  `{!SnapshotJsonLaws Quarantines.QuarantineEntry Quarantines.SeveritySummary}.
Context `{!HashValues TrustScores.TrustBand.t TrustScores.BandTotal} `{!SnapshotJson TrustScores.ToolScoreEntry TrustScores.BandSummary}
  `{!SnapshotJsonLaws TrustScores.ToolScoreEntry TrustScores.BandSummary}.
#[local] Set Default Proof Using "All".

Lemma grant_issued policy cooldown req now s id s' : Grants.issue_op policy cooldown req now s = (Ok id, s') ->
  exists e, tt_id e = id /\ one_more e s s' /\
    Grants.kind e = Grants.rq_kind req /\ Grants.scope e = Grants.rq_scope req /\ Grants.actor e = Grants.rq_actor req /\
    Grants.state e = Grants.GrantState.Pending /\ Grants.rq_signature req <> "".
Proof.
  unfold Grants.issue_op, Grants.issue, format_time, recompute. destruct (rfc3339_format now) as [t|]; [|done]. cbn [result_bind].
  destruct (rfc3339_format (after_secs _ _)) as [t'|]; [|done]. cbn [result_bind].
  destruct (Grants.issue_entry _ _ _ _ _) as [e|] eqn:Ee; [|done]. unfold and_return, lift_err. simpl. intros [= Hg <-].
  unfold Grants.issue_entry in Ee. repeat case_bool_decide; try done. repeat zcase; try done. injection Ee as <-.
  assert (Hid : id = stamp_id "gr-" now).
  { unfold Grants.gate in Hg. repeat case_match; simplify_eq; done. }
  subst id. eexists. split; [|split; [split; [reflexivity|]|]]; first [done|by split_and!].
Qed.

Lemma token_issued req now s id s' : CapTokens.issue_op req now s = (Ok id, s') ->
  exists e, tt_id e = id /\ one_more e s s' /\
    CapTokens.allowed_tools e = CapTokens.rq_allowed_tools req /\ CapTokens.state e = CapTokens.TokenState.Pending /\
    CapTokens.rq_signature req <> "".
Proof.
  unfold CapTokens.issue_op, CapTokens.issue. destruct (CapTokens.check_request req) as [[ts h]|] eqn:Ec; [|done].
  apply check_request_ok in Ec as (Hs & _ & _ & _ & _ & _ & _ & Hts & _). unfold format_time, recompute.
  destruct (rfc3339_format now) as [t|]; [|done]. cbn [result_bind].
  destruct (rfc3339_format (after_secs _ _)) as [t'|]; [|done]. unfold and_return, lift_err. simpl. intros [= <- <-].
  eexists. split; [|split; [split; [reflexivity|]|]]; first [done|by split_and!].
Qed.

Lemma allocation_made req now s id s' : Sandboxes.allocate_op req now s = (Ok id, s') ->
  exists e, tt_id e = id /\ one_more e s s' /\
    Sandboxes.tier e = Sandboxes.rq_tier req /\ Sandboxes.tool e = Sandboxes.rq_tool req /\
    Sandboxes.state e = Sandboxes.AllocationState.Pending.
Proof.
  unfold Sandboxes.allocate_op, Sandboxes.allocate. destruct (Sandboxes.check_request req) as [[]|]; [|done].
  unfold format_time, recompute. destruct (rfc3339_format now) as [t|]; [|done]. cbn [result_bind].
  destruct (rfc3339_format (after_secs _ _)) as [t'|]; [|done]. unfold and_return, lift_err. simpl. intros [= <- <-].
  eexists. split; [|split; [split; [reflexivity|]|]]; first [done|by split_and!].
Qed.

Lemma quarantine_overridden st req now s u s' : Quarantines.override_op st req now s = (Ok u, s') ->
  Quarantines.or_signature req <> "" /\ Quarantines.or_actor req <> "" /\
  one_replaced (fun e => Quarantines.quarantine_id e = Quarantines.or_quarantine_id req)
    (fun e e' => exists stamp, rfc3339_format now = Some stamp /\ e' = Quarantines.overridden st stamp (Quarantines.or_signature req) e) s s'.
Proof.
  intros Ho%or_not_found_ok. revert Ho. unfold Quarantines.apply_override. do 2 (case_bool_decide; [done|]).
  unfold format_time, recompute, and_return. destruct (rfc3339_format now) as [t|]; [|done].
  destruct (list_find _ _) as [[i e]|] eqn:Ef; [|done]. simpl. intros [= <-]. split; [done|]. split; [done|].
  destruct (list_find_replaced _ _ i e (Quarantines.overridden st t (Quarantines.or_signature req) e) Ef) as (l1 & l2 & Hl & Hf & Hp & Hi).
  eexists l1, e, _, l2. split_and!; [done|done|done|by exists t|done|done].
Qed.

Lemma tool_listed req now s a s' : TrustScores.admit_op req now s = (Ok a, s') ->
  TrustScores.aq_tool req ∈ TrustScores.tool <$> sn_entries s /\ s' = s \/
  exists e, one_more e s s' /\ TrustScores.tool e = TrustScores.aq_tool req /\
    TrustScores.current_score e = TrustScores.aq_initial_score req /\ (TrustScores.aq_initial_score req <= 1000)%Z /\
    TrustScores.aq_tool req ∉ TrustScores.tool <$> sn_entries s.
Proof.
  unfold TrustScores.admit_op, TrustScores.admit_tool. do 2 (case_bool_decide; [done|]). destruct (Z.ltb_spec 1000 (TrustScores.aq_initial_score req)); [done|].
  destruct (existsb _ _) eqn:Ex.
  - intros [= _ <-]. left. split; [|done]. apply existsb_exists in Ex as (e & Hin%list_elem_of_In & He%bool_decide_eq_true).
    rewrite <-He. by apply list_elem_of_fmap_2.
  - unfold format_time, recompute, and_return, lift_err. destruct (rfc3339_format now) as [t|]; [|done]. simpl. intros [= _ <-].
    right. eexists. split; [by split|]. split_and!; [done|done|done|]. intros (e & He & Hin)%list_elem_of_fmap.
    apply not_true_iff_false in Ex. apply Ex, existsb_exists. exists e. split; [by apply list_elem_of_In|]. by apply bool_decide_eq_true.
Qed.

Lemma score_changed req now s u s' : TrustScores.operator_delta_op req now s = (Ok u, s') ->
  TrustScores.od_signature req <> "" /\ TrustScores.od_actor req <> "" /\
  one_replaced (fun e => TrustScores.tool e = TrustScores.od_tool req)
    (fun e e' => TrustScores.tool e' = TrustScores.tool e /\
       TrustScores.current_score e' = TrustScores.apply_delta (TrustScores.current_score e) (TrustScores.od_delta req)) s s'.
Proof.
  intros Ho%or_not_found_ok. revert Ho. unfold TrustScores.apply_operator_delta. do 3 (case_bool_decide; [done|]).
  unfold TrustScores.apply_internal, format_time, recompute, and_return. destruct (rfc3339_format now) as [t|]; [|done].
  destruct (list_find _ _) as [[i e]|] eqn:Ef; [|done]. simpl. intros [= <-]. split; [done|]. split; [done|].
  set (e' := TrustScores.scored _ _ _ _ _ e).
  destruct (list_find_replaced _ _ i e e' Ef) as (l1 & l2 & Hl & Hf & Hp & Hi).
  exists l1, e, e', l2. split_and!; done.
Qed.

End routes.

(** ** Witnesses *)

Module RegistryExamples.
Import Grants.

#[local] Instance wire : WireFormat :=
  {| uuid_to_string := fun _ => "u";
     rfc3339_format := fun t => if (0 <=? t)%Z then Some (show_hex t) else None;
     json_to_string := fun _ => "{}" |}.
#[local] Instance rfc : Rfc3339 :=
  {| rfc3339_parse := fun s => hex_digits_val s 0; rfc3339_format_error := fun _ => "out of range" |}.
#[local] Instance rfc_laws : Rfc3339Laws.
Proof. split. intros t s. simpl. destruct (Z.leb_spec 0 t); [|done]. intros [= <-]. by apply show_hex_read. Qed.

#[local] Instance values K T `{Countable K} : HashValues K T := {| hash_values := fun m => (map_to_list m).*2 |}.
#[local] Instance values_laws K T `{Countable K} : HashValuesLaws K T.
Proof. by split. Qed.

#[local] Instance entry_eq_dec : EqDecision GrantEntry.
Proof. solve_decision. Defined.
#[local] Instance summary_eq_dec : EqDecision GrantSummary.
Proof. solve_decision. Defined.
#[local] Instance snapshot_eq_dec : EqDecision (Snapshot GrantEntry GrantSummary).
Proof. solve_decision. Defined.

(** A codec for the snapshots of a list: the text has the length of the position. *)
Fixpoint stroke (n : nat) : string := match n with O => "" | S n => String "|" (stroke n) end.
Lemma stroke_length n : String.length (stroke n) = n.
Proof. induction n; simpl; by f_equal. Qed.
Definition list_codec (l : list (Snapshot GrantEntry GrantSummary)) : SnapshotJson GrantEntry GrantSummary :=
  {| snap_encode := fun s => match list_find (eq s) l with Some (i, _) => Ok (stroke i) | None => Err "unsupported" end;
     snap_decode := fun b => match l !! String.length b with Some s => Ok s | None => Err "unsupported" end |}.
Lemma list_codec_laws l : @SnapshotJsonLaws _ _ (list_codec l).
Proof.
  split. intros s b. simpl. destruct (list_find (eq s) l) as [[i s']|] eqn:E; [|done]. intros [= <-].
  rewrite stroke_length. apply list_find_Some in E as (-> & -> & _). done.
Qed.

Definition req (sc : string) : GrantRequest := mkGrantRequest GrantKind.Filesystem sc "triage" "careful" "op" 60 "sig".
Definition io (t : Z) : Io := mkIo t None Saved.
Definition ns (t : Z) : Z := (t * 10 ^ 9)%Z.

Definition s1 := (issue_op Refuse 30 (req "/srv") (ns 1) registry_new).2.
Definition s2 := (revoke_op (stamp_id "gr-" (ns 1)) (ns 2) s1).2.
Definition s3 := (issue_op Refuse 30 (req "/srv/www") (ns 3) s2).2.
Definition s4 := (issue_op Refuse 30 (req "/srv/www") (ns 3) s1).2.
#[local] Instance codec : SnapshotJson GrantEntry GrantSummary := list_codec [s1; s2; s3; s4].
#[local] Instance codec_laws : SnapshotJsonLaws GrantEntry GrantSummary := list_codec_laws _.

Definition calls : list (GrantsCall * Io) :=
  [(CallIssue (req "/srv"), io (ns 1)); (CallRevoke (stamp_id "gr-" (ns 1)), io (ns 2));
   (CallIssue (req "/srv/www"), io (ns 3)); (CallIssue (req "/srv"), io (ns 4))].

(** The last request comes within the cooldown of the first. *)
Example calls_answers : (grants_run "/g.json" Refuse 30 calls ∅).1 = [200; 200; 200; TOO_MANY_REQUESTS]%Z.
Proof. vm_compute. reflexivity. Qed.

Lemma expire_due_exact_witness :
  let s' := (expire_due (R := IssueError) (ns 61) s4).2 in
  (forall i e, sn_entries s4 !! i = Some e -> exists e', sn_entries s' !! i = Some e' /\
     tt_id e' = tt_id e /\ tt_until e' = tt_until e /\ (if due (ns 61) e then tt_state e' = tt_over else e' = e)) /\
  length (sn_entries s') = length (sn_entries s4) /\
  (sn_entries s' <> sn_entries s4 -> sn_summaries s' = recompute_summaries (sn_entries s')) /\
  expire_due (R := IssueError) (ns 60) s' = (Ok 0, s').
Proof. apply (expire_due_exact (ns 61) (ns 60) s4). unfold ns. lia. Defined.

#[local] Instance no_codec E T : SnapshotJson E T | 100 := {| snap_encode := fun _ => Err "unsupported"; snap_decode := fun _ => Err "unsupported" |}.
#[local] Instance no_codec_laws E T : @SnapshotJsonLaws E T (no_codec E T) | 100.
Proof. by split. Qed.
#[local] Instance tables : UnicodeTables :=
  {| uc_alphanumeric := fun _ => false; uc_uppercase := fun c => c; uc_debug_plain := fun _ => true |}.


Lemma calls_clocks : Forall clock_ok (io_now <$> calls.*2) /\ NoDup (io_now <$> calls.*2) /\ Forall (fun p => call_ok p.1) calls.
Proof.
  split; [unfold calls, clock_ok, io, ns; simpl; repeat constructor; lia|].
  split; [apply (bool_decide_unpack _); vm_compute; exact I|]. repeat constructor; simpl; lia.
Qed.

Lemma grants_history_witness :
  exists s us, load (R := IssueError) "/g.json" None (grants_run "/g.json" Refuse 30 calls ∅).2 = Ok s /\
    sn_schema_version s = SCHEMA_VERSION /\ sn_summaries s = recompute_grants (sn_entries s) /\
    us `sublist_of` (io_now <$> calls.*2) /\ Forall2 minted us (sn_entries s) /\
    ((0 < 30)%Z -> spaced 30 us (sn_entries s)).
Proof. apply (grants_history "/g.json" Refuse 30 calls ∅); [done|apply calls_clocks..]. Defined.

Lemma overlap_gate_vacuous_witness : CONFLICT ∉ (grants_run "/g.json" Refuse 30 calls ∅).1.
Proof. apply (overlap_gate_vacuous "/g.json" Refuse 30 calls ∅); [done|apply calls_clocks..]. Defined.

Definition disk0 : Disk := {[ "/g.json" := "" ]}.
Definition grant1 : GrantEntry := default (mkGrantEntry "" GrantKind.Network "" "" "" "" 0 "" "" GrantState.Pending "" "") (head (sn_entries s1)).
Definition disk1 : Disk := (api_finish display "/g.json" (revoke_op (stamp_id "gr-" (ns 1)) (ns 2)) (io (ns 2)) s1 disk0).2.
Definition disk2 : Disk := (api_finish display "/g.json" (issue_op Refuse 30 (req "/srv/www") (ns 3)) (io (ns 3)) s1 disk1).2.

Lemma concurrent_revoke_lost_witness :
  (exists g', sn_entries s2 !! 0 = Some g' /\ grant_id g' = stamp_id "gr-" (ns 1) /\ state g' = GrantState.Revoked) /\
  exists s, load (R := IssueError) "/g.json" None disk2 = Ok s /\ sn_entries s !! 0 = Some grant1.
Proof.
  apply (concurrent_revoke_lost "/g.json" Refuse 30 (stamp_id "gr-" (ns 1)) (req "/srv/www") (io (ns 2)) (io (ns 3)) s1 disk0
    disk1 disk2 s2 0 grant1 (stamp_id "gr-" (ns 3)) s4); [simpl; lia|vm_compute; reflexivity..].
Defined.

Lemma filesystem_overlap_exact_witness :
  (is_Some (overlaps GrantKind.Filesystem "/srv" "/srv/www") <-> ["srv"] `prefix_of` ["srv"; "www"] \/ ["srv"; "www"] `prefix_of` ["srv"]) /\
  overlaps GrantKind.Filesystem "/" "/srv" = None.
Proof. apply (filesystem_overlap_exact ["srv"] ["srv"; "www"]); [done|done|repeat constructor; done..]. Defined.

Definition token_req : CapTokens.CapabilityRequest :=
  CapTokens.mkCapabilityRequest "op" "careful" ["tests"; "builds"] CapTokens.TrustRing.Ring2 CapTokens.L2Simulate "B" "" 60 "sig".
Definition token_s := (CapTokens.issue token_req "tok-1" "tr-1" (ns 1) registry_new).2.

Lemma issued_word_exact_witness :
  exists e w, sn_entries token_s = [] ++ [e] /\ CapTokens.token_id e = "tok-1" /\ "tok-1" = "tok-1" /\
    from_hex (CapTokens.capability_word e) = Some w /\
    (forall t, has_tool w t = true <-> CapTokens.tool_token t ∈ CapTokens.rq_allowed_tools token_req) /\
    trust_level w = Ok (CapTokens.trust_ring_numeric (CapTokens.rq_trust_ring token_req)) /\
    CapTokens.allowed_tools e = CapTokens.rq_allowed_tools token_req /\ CapTokens.state e = CapTokens.TokenState.Pending /\
    rfc3339_format (ns 1) = Some (CapTokens.issued_at e) /\
    rfc3339_format (after_secs (ns 1) (CapTokens.rq_ttl_seconds token_req)) = Some (CapTokens.expires_at e) /\
    (CapTokens.rq_ttl_seconds token_req <= MAX_TTL_SECONDS)%Z /\ CapTokens.rq_signature token_req <> "".
Proof. apply (issued_word_exact token_req "tok-1" "tr-1" (ns 1) registry_new "tok-1" token_s). vm_compute. reflexivity. Defined.

Definition score_ops : list (ScoreOp * Z) :=
  [(OpAdmit "cargo" "op" 900, ns 1); (OpRecord "cargo" TrustScores.MismatchCritical "tr", ns 2);
   (OpOperator (TrustScores.mkOperatorDeltaRequest "cargo" "op" TrustScores.OperatorAdjustment 2147483647 "tr" "sig"), ns 3)].

Lemma trust_scores_valid_witness :
  let s := score_run score_ops registry_new in
  TrustScores.validate_scores s = Ok tt /\ NoDup (TrustScores.tool <$> sn_entries s) /\
  Forall (fun e => length (TrustScores.history e) <= 64 /\ explained (TrustScores.history e) (TrustScores.current_score e)) (sn_entries s).
Proof. apply (trust_scores_valid score_ops). repeat constructor; simpl; lia. Defined.

Lemma apply_delta_exact_witness : TrustScores.apply_delta 700 2147483647 = 0%Z.
Proof. apply (apply_delta_exact 700 2147483647); lia. Defined.
End RegistryExamples.
