(* ===== verification/Profiles.v ===== *)
(** * Authority profiles

    Models crates/selfdef-profile-authority-gate (the decision on a request for
    authority under one of the six profiles), crates/selfdef-flex-profile with its
    handlers in crates/selfdef-api/src/flex_profile.rs (the live changes over a
    profile and their revert history, kept in one file), and what
    crates/selfdef-profile-mirror and the export loop of the daemon publish of it.
    The JSON text of the file comes from serde ([FlexJson]). *)

From S2P Require Import Prelude Core Registry RegistryProps.
From stdpp Require Import options.

(** ** The authority gate *)

Module Profile.
Inductive t := Private | Fast | Careful | Autonomous | Experimental | Production.
#[global] Instance eq_dec : EqDecision t.
Proof. solve_decision. Defined.
End Profile.

Module AuthorityLevel.
Inductive t := L0Observe | L1Suggest | L2Simulate | L3Prepare | L4Execute | L5Commit | L6Persist.
#[global] Instance eq_dec : EqDecision t.
Proof. solve_decision. Defined.
End AuthorityLevel.

Module TrustRing.
Inductive t := Ring0 | Ring1 | Ring2 | Ring3 | Ring4.
#[global] Instance eq_dec : EqDecision t.
Proof. solve_decision. Defined.
End TrustRing.

Module SandboxTier.
Inductive t := TierA | TierB | TierC | TierD.
#[global] Instance eq_dec : EqDecision t.
Proof. solve_decision. Defined.
End SandboxTier.

(** The derived orders. *)
Definition level_rank (l : AuthorityLevel.t) : nat :=
  match l with
  | AuthorityLevel.L0Observe => 0
  | AuthorityLevel.L1Suggest => 1
  | AuthorityLevel.L2Simulate => 2
  | AuthorityLevel.L3Prepare => 3
  | AuthorityLevel.L4Execute => 4
  | AuthorityLevel.L5Commit => 5
  | AuthorityLevel.L6Persist => 6
  end.
Definition ring_rank (r : TrustRing.t) : nat :=
  match r with
  | TrustRing.Ring0 => 0
  | TrustRing.Ring1 => 1
  | TrustRing.Ring2 => 2
  | TrustRing.Ring3 => 3
  | TrustRing.Ring4 => 4
  end.

(** The names that [Debug] prints. *)
Definition profile_debug (p : Profile.t) : string :=
  match p with
  | Profile.Private => "Private"
  | Profile.Fast => "Fast"
  | Profile.Careful => "Careful"
  | Profile.Autonomous => "Autonomous"
  | Profile.Experimental => "Experimental"
  | Profile.Production => "Production"
  end.
Definition level_debug (l : AuthorityLevel.t) : string :=
  match l with
  | AuthorityLevel.L0Observe => "L0Observe"
  | AuthorityLevel.L1Suggest => "L1Suggest"
  | AuthorityLevel.L2Simulate => "L2Simulate"
  | AuthorityLevel.L3Prepare => "L3Prepare"
  | AuthorityLevel.L4Execute => "L4Execute"
  | AuthorityLevel.L5Commit => "L5Commit"
  | AuthorityLevel.L6Persist => "L6Persist"
  end.
Definition ring_debug (r : TrustRing.t) : string :=
  match r with
  | TrustRing.Ring0 => "Ring0"
  | TrustRing.Ring1 => "Ring1"
  | TrustRing.Ring2 => "Ring2"
  | TrustRing.Ring3 => "Ring3"
  | TrustRing.Ring4 => "Ring4"
  end.

Record Evidence := mkEvidence {
  evd_valid_schema : bool;
  evd_safe_policy : bool;
  evd_successful_sandbox : bool;
  evd_tests_pass : bool;
  evd_oracle_agrees : bool;
  evd_user_approves : bool;
  evd_snapshot_present : bool;
  evd_digest : string;
}.

Record AuthorityRequest := mkAuthorityRequest {
  arq_target_authority : AuthorityLevel.t;
  arq_trust_ring : TrustRing.t;
  arq_sandbox_tier : SandboxTier.t;
  arq_evidence : Evidence;
  arq_ttl_seconds : Z;
}.

Record AuthorityDecision := mkAuthorityDecision {
  ad_allowed : bool;
  ad_profile : Profile.t;
  ad_reason : string;
  ad_missing_evidence : list string;
}.

Inductive GateError :=
| TtlExceedsCeiling (profile : Profile.t) (ttl_seconds ceiling_seconds : Z)
| DoctrineTampered (expected : string).

Definition max_authority (p : Profile.t) : AuthorityLevel.t :=
  match p with
  | Profile.Private => AuthorityLevel.L1Suggest
  | Profile.Fast => AuthorityLevel.L4Execute
  | Profile.Careful => AuthorityLevel.L6Persist
  | Profile.Autonomous => AuthorityLevel.L5Commit
  | Profile.Experimental => AuthorityLevel.L4Execute
  | Profile.Production => AuthorityLevel.L6Persist
  end.

Definition max_trust_ring (p : Profile.t) : TrustRing.t :=
  match p with Profile.Experimental => TrustRing.Ring3 | _ => TrustRing.Ring2 end.

Definition ttl_ceiling_seconds (p : Profile.t) : Z :=
  match p with
  | Profile.Private => 60
  | Profile.Fast => 3600
  | Profile.Careful => 86400
  | Profile.Autonomous => 86400
  | Profile.Experimental => 1800
  | Profile.Production => 600
  end.

Definition requires_sandbox (p : Profile.t) : bool :=
  match p with Profile.Careful | Profile.Autonomous | Profile.Experimental => true | _ => false end.
Definition requires_oracle (p : Profile.t) : bool :=
  match p with Profile.Careful | Profile.Autonomous | Profile.Production => true | _ => false end.
Definition requires_snapshot_for_persist (p : Profile.t) : bool :=
  match p with Profile.Careful | Profile.Autonomous | Profile.Production => true | _ => false end.

(** [missing.push] under a condition. *)
Definition when (b : bool) (name : string) : list string := if b then [name] else [].

Definition at_least (r : AuthorityRequest) (l : AuthorityLevel.t) : bool :=
  level_rank l <=? level_rank (arq_target_authority r).

(** The evidence that the branch of a profile finds missing. *)
Definition profile_missing (p : Profile.t) (r : AuthorityRequest) : list string :=
  let e := arq_evidence r in
  let l4 := at_least r AuthorityLevel.L4Execute in
  let l5 := at_least r AuthorityLevel.L5Commit in
  let l6 := bool_decide (arq_target_authority r = AuthorityLevel.L6Persist) in
  match p with
  | Profile.Private =>
      when ((level_rank AuthorityLevel.L1Suggest <? level_rank (arq_target_authority r)) && negb (evd_user_approves e))
        "user_approves"
  | Profile.Fast =>
      when (bool_decide (arq_target_authority r = AuthorityLevel.L4Execute)
            && negb (bool_decide (arq_sandbox_tier r = SandboxTier.TierA))) "sandbox_tier_a_for_fast_l4"
  | Profile.Careful =>
      when (l5 && negb (evd_tests_pass e)) "tests_pass" ++ when (l5 && negb (evd_oracle_agrees e)) "oracle_agrees"
      ++ when (l5 && bool_decide (evd_digest e = "")) "evidence_digest"
      ++ when (l4 && negb (evd_successful_sandbox e)) "successful_sandbox"
      ++ when (l6 && negb (evd_snapshot_present e)) "snapshot_present"
  | Profile.Autonomous =>
      when (l5 && negb (evd_tests_pass e)) "tests_pass" ++ when (l6 && negb (evd_oracle_agrees e)) "oracle_agrees"
      ++ when (l6 && negb (evd_user_approves e)) "user_approves"
  | Profile.Experimental =>
      when l5 "experimental_no_host_commit"
      ++ when (negb (bool_decide (arq_sandbox_tier r ∈ [SandboxTier.TierC; SandboxTier.TierD]))) "sandbox_tier_c_or_d"
  | Profile.Production =>
      when (l5 && negb (evd_tests_pass e)) "tests_pass" ++ when (l5 && negb (evd_oracle_agrees e)) "oracle_agrees"
      ++ when (l5 && negb (evd_user_approves e)) "user_approves"
      ++ when (l6 && negb (evd_snapshot_present e)) "snapshot_present"
  end.

Section gate.
Context `{UnicodeTables}.

(** [Debug] of a list of names. *)
Definition names_debug (l : list string) : string := "[" +:+ join ", " (str_debug <$> l) +:+ "]".

Definition gate_decide (p : Profile.t) (r : AuthorityRequest) : AuthorityDecision :=
  let max := max_authority p in
  if level_rank max <? level_rank (arq_target_authority r) then
    mkAuthorityDecision false p
      ("target authority exceeds " +:+ profile_debug p +:+ " ceiling (" +:+ level_debug (arq_target_authority r)
       +:+ " > " +:+ level_debug max +:+ ")") ["operator_promotion"]
  else if ring_rank (max_trust_ring p) <? ring_rank (arq_trust_ring r) then
    mkAuthorityDecision false p
      ("trust ring exceeds " +:+ profile_debug p +:+ " cap (" +:+ ring_debug (arq_trust_ring r) +:+ " > "
       +:+ ring_debug (max_trust_ring p) +:+ ")") ["trust_ring_demotion"]
  else
    let missing := when (negb (evd_valid_schema (arq_evidence r))) "valid_schema"
                   ++ when (negb (evd_safe_policy (arq_evidence r))) "safe_policy" ++ profile_missing p r in
    match missing with
    | [] =>
        mkAuthorityDecision true p (profile_debug p +:+ " envelope OK at " +:+ level_debug (arq_target_authority r)) []
    | _ =>
        mkAuthorityDecision false p
          ("evidence ladder incomplete for " +:+ profile_debug p +:+ ": missing " +:+ names_debug missing) missing
    end.
End gate.

Definition validate_ttl (p : Profile.t) (ttl_seconds : Z) : result unit GateError :=
  let ceiling := ttl_ceiling_seconds p in
  if (ceiling <? ttl_seconds)%Z then Err (TtlExceedsCeiling p ttl_seconds ceiling) else Ok tt.

Definition DOCTRINE_AUTHORITY_FOLLOWS_EVIDENCE : string := "Authority follows evidence".

Definition assert_doctrine_intact (observed : string) : result unit GateError :=
  if bool_decide (observed = DOCTRINE_AUTHORITY_FOLLOWS_EVIDENCE) then Ok tt
  else Err (DoctrineTampered DOCTRINE_AUTHORITY_FOLLOWS_EVIDENCE).

(** ** The flex profile *)

Inductive DeltaOp :=
| AttachModel (slug : string)
| DetachModel (slug : string)
| AttachLora (base_model lora : string)
| DetachLora (base_model lora : string).

Definition inverse (op : DeltaOp) : DeltaOp :=
  match op with
  | AttachModel s => DetachModel s
  | DetachModel s => AttachModel s
  | AttachLora b l => DetachLora b l
  | DetachLora b l => AttachLora b l
  end.

Record Delta := mkDelta {
  dl_id : Z;
  dl_actor : string;
  dl_reason : string;
  dl_applied_at_ms : Z;
  dl_operation : DeltaOp;
}.

Record RevertRecord := mkRevertRecord {
  rr_original : Delta;
  rr_actor : string;
  rr_reverted_at_ms : Z;
  rr_reason : string;
}.

Record FlexProfile := mkFlexProfile {
  fp_schema_version : string;
  fp_baseline : string;
  fp_deltas : list Delta;
  fp_history : list RevertRecord;
}.

Inductive FlexProfileError :=
| SchemaMismatch
| NothingToRevert
| MandatoryFieldMissing (field : string).

Definition flex_new (baseline : string) : FlexProfile := mkFlexProfile "1.0.0" baseline [] [].

Definition flex_apply (delta : Delta) (p : FlexProfile) : result FlexProfile FlexProfileError :=
  if bool_decide (dl_actor delta = "") then Err (MandatoryFieldMissing "actor")
  else if bool_decide (dl_reason delta = "") then Err (MandatoryFieldMissing "reason")
  else Ok (mkFlexProfile (fp_schema_version p) (fp_baseline p) (fp_deltas p ++ [delta]) (fp_history p)).

Definition flex_revert (actor reason : string) (now_ms : Z) (p : FlexProfile) : result FlexProfile FlexProfileError :=
  match last (fp_deltas p) with
  | None => Err NothingToRevert
  | Some original =>
      Ok (mkFlexProfile (fp_schema_version p) (fp_baseline p) (take (length (fp_deltas p) - 1) (fp_deltas p))
            (fp_history p ++ [mkRevertRecord original actor now_ms reason]))
  end.

(** ** The handlers *)

Class FlexJson := {
  flex_encode : FlexProfile -> result string string;
  flex_decode : string -> result FlexProfile string;
}.

Section handlers.
Context `{FlexJson}.

(** [read_error]: the file is there but cannot be read as text. *)
Definition read_or_create (path : string) (baseline : option string) (read_error : bool) (disk : Disk) :
    Answer FlexProfile :=
  match (if read_error then None else disk !! path) with
  | Some text =>
      match flex_decode text with
      | Ok p => Ok p
      | Err e => Err (INTERNAL_SERVER_ERROR, "malformed flex-profile.json at " +:+ path +:+ ": " +:+ e)
      end
  | None =>
      match baseline with
      | Some b => Ok (flex_new b)
      | None => Err (BAD_REQUEST, "no flex-profile at " +:+ path
                       +:+ " and no `baseline` field in request body (required on first apply)")
      end
  end.

(** The text of a failing [create_dir_all] has the directory's name in it. *)
Definition atomic_write (path body : string) (o : SaveOutcome) (disk : Disk) : Answer unit * Disk :=
  let tmp := with_extension path "json.tmp" in
  match o with
  | MkdirFails e => (Err (INTERNAL_SERVER_ERROR, "create_dir_all " +:+ e), disk)
  | TmpCreateFails e => (Err (INTERNAL_SERVER_ERROR, "create " +:+ tmp +:+ ": " +:+ e), disk)
  | TmpWriteFails partial e => (Err (INTERNAL_SERVER_ERROR, "write " +:+ tmp +:+ ": " +:+ e), <[tmp := partial]> disk)
  | TmpSyncFails e => (Err (INTERNAL_SERVER_ERROR, "fsync " +:+ tmp +:+ ": " +:+ e), <[tmp := body]> disk)
  | PublishFails e => (Err (INTERNAL_SERVER_ERROR, "rename " +:+ tmp +:+ " → " +:+ path +:+ ": " +:+ e), <[tmp := body]> disk)
  | Saved => (Ok tt, <[path := body]> (delete tmp disk))
  end.

Definition map_flex_error (e : FlexProfileError) : Z * string :=
  match e with
  | SchemaMismatch => (CONFLICT, "schema version mismatch")
  | NothingToRevert => (CONFLICT, "no delta on the stack to revert")
  | MandatoryFieldMissing f => (BAD_REQUEST, "mandatory field missing: " +:+ f)
  end.

(** What the host answers to a request. *)
Record FlexIo := mkFlexIo {
  fi_read_error : bool;
  fi_save : SaveOutcome;
  fi_now_ms : Z;
}.

(** What an update does once the profile is in hand. Nothing is locked: other
    requests may run between the read and the rest. *)
Definition flex_finish (path : string) (op : FlexProfile -> result FlexProfile FlexProfileError) (io : FlexIo)
    (p : FlexProfile) (disk : Disk) : Answer FlexProfile * Disk :=
  match op p with
  | Err e => (Err (map_flex_error e), disk)
  | Ok p =>
      match flex_encode p with
      | Err e => (Err (INTERNAL_SERVER_ERROR, "serialize: " +:+ e), disk)
      | Ok body =>
          match atomic_write path body (fi_save io) disk with
          | (Err e, disk) => (Err e, disk)
          | (Ok _, disk) => (Ok p, disk)
          end
      end
  end.

Definition flex_update (path : string) (baseline : option string) (op : FlexProfile -> result FlexProfile FlexProfileError)
    (io : FlexIo) (disk : Disk) : Answer FlexProfile * Disk :=
  match read_or_create path baseline (fi_read_error io) disk with
  | Err e => (Err e, disk)
  | Ok p => flex_finish path op io p disk
  end.

Inductive FlexRequest :=
| Apply (baseline : option string) (delta : Delta)
| Revert (actor reason : string) (now_ms : option Z).

Definition request_baseline (req : FlexRequest) : option string :=
  match req with Apply baseline _ => baseline | Revert _ _ _ => None end.

Definition request_op (req : FlexRequest) (io : FlexIo) : FlexProfile -> result FlexProfile FlexProfileError :=
  match req with
  | Apply _ delta => flex_apply delta
  | Revert actor reason now_ms => flex_revert actor reason (default (fi_now_ms io) now_ms)
  end.

(** The handlers [apply] and [revert]. *)
Definition handle_flex (path : string) (req : FlexRequest) (io : FlexIo) (disk : Disk) : Answer FlexProfile * Disk :=
  flex_update path (request_baseline req) (request_op req io) io disk.

Definition read_state (path : string) (read_error : bool) (disk : Disk) : option FlexProfile :=
  text ← (if read_error then None else disk !! path);
  match flex_decode text with Ok p => Some p | Err _ => None end.

Record FlexProfileResponse := mkFlexProfileResponse {
  fr_state : option FlexProfile;
  fr_state_path : string;
  fr_state_present : bool;
}.

(** The handler [show], less the constant part that describes the schema. *)
Definition show_flex (path : string) (read_error : bool) (disk : Disk) : FlexProfileResponse :=
  let present := bool_decide (is_Some (disk !! path)) in
  mkFlexProfileResponse (if present then read_state path read_error disk else None) path present.

(** ** What is published *)

Definition from_token (token : string) : option Profile.t :=
  if bool_decide (token = "private") then Some Profile.Private
  else if bool_decide (token = "fast") then Some Profile.Fast
  else if bool_decide (token = "careful") then Some Profile.Careful
  else if bool_decide (token = "autonomous") then Some Profile.Autonomous
  else if bool_decide (token = "experimental") then Some Profile.Experimental
  else if bool_decide (token = "production") then Some Profile.Production
  else None.

Definition as_str (p : Profile.t) : string :=
  match p with
  | Profile.Private => "private"
  | Profile.Fast => "fast"
  | Profile.Careful => "careful"
  | Profile.Autonomous => "autonomous"
  | Profile.Experimental => "experimental"
  | Profile.Production => "production"
  end.

Definition envelope_for (p : Profile.t) : string :=
  "max authority " +:+ level_debug (max_authority p) +:+ " · max trust "
  +:+ ring_debug (max_trust_ring p).

Record ProfileTransition := mkProfileTransition {
  ptr_ts : string;
  ptr_from : string;
  ptr_to : string;
  ptr_actor : string;
  ptr_rationale : string;
  ptr_signature : string;
}.

Record ProfileMirrorSnapshot := mkProfileMirror {
  pm_schema_version : string;
  pm_active : Profile.t;
  pm_since : string;
  pm_actor : string;
  pm_envelope : string;
  pm_history : list ProfileTransition;
}.

Definition project_snapshot (flex : option FlexProfile) : ProfileMirrorSnapshot :=
  let active := default Profile.Private (flex ≫= fun f => from_token (to_ascii_lowercase (fp_baseline f))) in
  mkProfileMirror "1.0.0" active "—" "unknown" (envelope_for active) [].
End handlers.

(** ** Properties of the gate *)

Section gate_props.
Context `{UnicodeTables}.

(** The decision as a predicate: the ceilings of the profile, the two checks that
    every request needs, and the evidence that each level needs under the profile. *)
Definition authorised (p : Profile.t) (r : AuthorityRequest) : Prop :=
  let e := arq_evidence r in
  let level := level_rank (arq_target_authority r) in
  level <= level_rank (max_authority p) /\ ring_rank (arq_trust_ring r) <= ring_rank (max_trust_ring p) /\
  evd_valid_schema e = true /\ evd_safe_policy e = true /\
  match p with
  | Profile.Private => True
  | Profile.Fast => level = 4 -> arq_sandbox_tier r = SandboxTier.TierA
  | Profile.Careful =>
      (4 <= level -> evd_successful_sandbox e = true) /\
      (5 <= level -> evd_tests_pass e = true /\ evd_oracle_agrees e = true /\ evd_digest e <> "") /\
      (level = 6 -> evd_snapshot_present e = true)
  | Profile.Autonomous => level = 5 -> evd_tests_pass e = true
  | Profile.Experimental => arq_sandbox_tier r = SandboxTier.TierC \/ arq_sandbox_tier r = SandboxTier.TierD
  | Profile.Production =>
      (5 <= level -> evd_tests_pass e = true /\ evd_oracle_agrees e = true /\ evd_user_approves e = true) /\
      (level = 6 -> evd_snapshot_present e = true)
  end.

Lemma when_nil b s l : when b s ++ l = [] <-> b = false /\ l = [].
Proof. unfold when. destruct b; simpl; split; [done|by intros []|done|by intros []]. Qed.

Lemma gate_allowed p r :
  ad_allowed (gate_decide p r) = true <->
  level_rank (arq_target_authority r) <= level_rank (max_authority p) /\
  ring_rank (arq_trust_ring r) <= ring_rank (max_trust_ring p) /\
  evd_valid_schema (arq_evidence r) = true /\ evd_safe_policy (arq_evidence r) = true /\ profile_missing p r = [].
Proof.
  unfold gate_decide. destruct (Nat.ltb_spec (level_rank (max_authority p)) (level_rank (arq_target_authority r))).
  { split; [done|]. simpl. lia. }
  destruct (Nat.ltb_spec (ring_rank (max_trust_ring p)) (ring_rank (arq_trust_ring r))).
  { split; [done|]. simpl. lia. }
  destruct (when _ _ ++ _) as [|m l] eqn:E; simpl.
  - apply when_nil in E as [E1 E]. apply when_nil in E as [E2 E]. apply negb_false_iff in E1, E2. tauto.
  - split; [done|]. intros (_ & _ & Hv & Hs & Hm). rewrite Hv, Hs, Hm in E. done.
Qed.

Lemma profile_missing_nil p r :
  level_rank (arq_target_authority r) <= level_rank (max_authority p) ->
  profile_missing p r = [] <->
  match p with
  | Profile.Private => True
  | Profile.Fast => level_rank (arq_target_authority r) = 4 -> arq_sandbox_tier r = SandboxTier.TierA
  | Profile.Careful =>
      (4 <= level_rank (arq_target_authority r) -> evd_successful_sandbox (arq_evidence r) = true) /\
      (5 <= level_rank (arq_target_authority r) -> evd_tests_pass (arq_evidence r) = true /\
         evd_oracle_agrees (arq_evidence r) = true /\ evd_digest (arq_evidence r) <> "") /\
      (level_rank (arq_target_authority r) = 6 -> evd_snapshot_present (arq_evidence r) = true)
  | Profile.Autonomous => level_rank (arq_target_authority r) = 5 -> evd_tests_pass (arq_evidence r) = true
  | Profile.Experimental => arq_sandbox_tier r = SandboxTier.TierC \/ arq_sandbox_tier r = SandboxTier.TierD
  | Profile.Production =>
      (5 <= level_rank (arq_target_authority r) -> evd_tests_pass (arq_evidence r) = true /\
         evd_oracle_agrees (arq_evidence r) = true /\ evd_user_approves (arq_evidence r) = true) /\
      (level_rank (arq_target_authority r) = 6 -> evd_snapshot_present (arq_evidence r) = true)
  end.
Proof.
  destruct r as [lvl ring tier [vs sp ss tp oa ua sn dg] ttl]. unfold profile_missing, at_least. simpl.
  intros Hl. destruct p; simpl in Hl.
  - by destruct lvl; simpl in *; try lia.
  - destruct lvl; simpl in *; try lia; try done. case_bool_decide; simpl; [tauto|]. split; [done|]. intros Hx. by specialize (Hx eq_refl).
  - destruct lvl; simpl in *; try (split; [lia|done]).
    + destruct ss; simpl; split; try done; [intros _; split; [done|lia]|]. intros [Hx _]. by specialize (Hx ltac:(lia)).
    + destruct tp, oa, ss; simpl; try (case_bool_decide; simpl); split; try done; intros; repeat split; try done; try lia;
        destruct_and?; try (match goal with Hx : 5 <= 5 -> _ |- _ => specialize (Hx ltac:(lia)) end);
        try (match goal with Hx : 4 <= 5 -> _ |- _ => specialize (Hx ltac:(lia)) end); naive_solver.
    + destruct tp, oa, ss, sn; simpl; try (case_bool_decide; simpl); split; try done; intros; repeat split; try done; try lia;
        destruct_and?; try (match goal with Hx : 5 <= 6 -> _ |- _ => specialize (Hx ltac:(lia)) end);
        try (match goal with Hx : 4 <= 6 -> _ |- _ => specialize (Hx ltac:(lia)) end); naive_solver.
  - destruct lvl, tp; simpl in *; try lia; try done. split; [done|]. intros Hx. by specialize (Hx eq_refl).
  - destruct lvl; simpl in *; try lia; destruct tier; simpl; split; try done; intros; by auto || destruct_or?.
  - destruct lvl; simpl in *; try (split; [lia|done]).
    + destruct tp, oa, ua; simpl; split; try done; intros; repeat split; try done; try lia;
        destruct_and?; match goal with Hx : 5 <= 5 -> _ |- _ => specialize (Hx ltac:(lia)) end; naive_solver.
    + destruct tp, oa, ua, sn; simpl; split; try done; intros; repeat split; try done; try lia;
        destruct_and?; try match goal with Hx : 5 <= 6 -> _ |- _ => specialize (Hx ltac:(lia)) end; naive_solver.
Qed.

(** The gate grants exactly what the profile authorises: a request is allowed if and
    only if its level and its trust ring are within the profile's ceilings, its
    schema and policy checks passed, and the evidence that the profile asks for at
    that level is there. *)
Theorem authority_gate_exact (p : Profile.t) (r : AuthorityRequest) : ad_allowed (gate_decide p r) = true <-> authorised p r.
Proof.
  rewrite gate_allowed. unfold authorised. simpl. split.
  - intros (Hl & Hr & Hv & Hs & Hm). split_and!; try done. by apply profile_missing_nil.
  - intros (Hl & Hr & Hv & Hs & Hm). split_and!; try done. by apply profile_missing_nil.
Qed.

(** [b] implies [b']. *)
Definition weaker (b b' : bool) : Prop := b = true -> b' = true.

(** One request asks for no more than another and brings no less. *)
Definition no_stronger (r r' : AuthorityRequest) : Prop :=
  let e := arq_evidence r in
  let e' := arq_evidence r' in
  level_rank (arq_target_authority r') <= level_rank (arq_target_authority r) /\
  ring_rank (arq_trust_ring r') <= ring_rank (arq_trust_ring r) /\ arq_sandbox_tier r' = arq_sandbox_tier r /\
  weaker (evd_valid_schema e) (evd_valid_schema e') /\ weaker (evd_safe_policy e) (evd_safe_policy e') /\
  weaker (evd_successful_sandbox e) (evd_successful_sandbox e') /\ weaker (evd_tests_pass e) (evd_tests_pass e') /\
  weaker (evd_oracle_agrees e) (evd_oracle_agrees e') /\ weaker (evd_user_approves e) (evd_user_approves e') /\
  weaker (evd_snapshot_present e) (evd_snapshot_present e') /\ (evd_digest e <> "" -> evd_digest e' <> "").

(** Authority follows evidence: a request that asks for no more and brings no
    less than one that was allowed is allowed too, under every profile. *)
Theorem gate_monotone (p : Profile.t) (r r' : AuthorityRequest) (Hle : no_stronger r r')
    (Hok : ad_allowed (gate_decide p r) = true) : ad_allowed (gate_decide p r') = true.
Proof.
  apply gate_allowed in Hok as (Hl & Hr & Hv & Hs & Hm). pose proof (proj1 (profile_missing_nil p r Hl) Hm) as Hm'.
  destruct Hle as (H1 & H2 & Ht & Hv' & Hs' & Ha & Hb & Hc & Hd & He & Hf).
  apply gate_allowed. split_and!; [lia|lia|by apply Hv'|by apply Hs'|]. apply profile_missing_nil; [lia|].
  rewrite Ht. destruct p; simpl in *; try done.
  - intros H4. apply Hm'. lia.
  - destruct Hm' as (M1 & M2 & M3). split_and!.
    + intros. apply Ha, M1. lia.
    + intros. destruct M2 as (? & ? & ?); [lia|]. auto.
    + intros. apply He, M3. lia.
  - intros. apply Hb, Hm'. lia.
  - destruct Hm' as (M1 & M2). split; intros.
    + destruct M1 as (? & ? & ?); [lia|]. auto.
    + apply He, M2. lia.
Qed.

(** Under the autonomous profile a durable commit is allowed without any sandbox
    run and without the oracle, although the profile is declared to require both. *)
Theorem autonomous_commit_unproven (tier : SandboxTier.t) (ttl : Z) :
  requires_sandbox Profile.Autonomous = true /\ requires_oracle Profile.Autonomous = true /\
  ad_allowed (gate_decide Profile.Autonomous
    (mkAuthorityRequest AuthorityLevel.L5Commit TrustRing.Ring2 tier
       (mkEvidence true true false true false false false "") ttl)) = true.
Proof. done. Qed.
End gate_props.


(** ** Properties of the flex profile *)

Class FlexJsonLaws `{FlexJson} : Prop :=
  { flex_decode_encode p b : flex_encode p = Ok b -> flex_decode b = Ok p }.

Section flex_props.
Context `{FlexJson}.
Context `{!FlexJsonLaws}.
#[local] Set Default Proof Using "Type*".

(** What the file at [path] holds. *)
Definition holds (path : string) (disk : Disk) (s : option FlexProfile) : Prop :=
  match s with
  | None => disk !! path = None
  | Some p => exists text, disk !! path = Some text /\ flex_decode text = Ok p
  end.

(** The profile without files: what a request makes of it, given its answer. *)
Definition flex_step (req : FlexRequest) (io : FlexIo) (s : option FlexProfile) (a : Answer FlexProfile) : Prop :=
  match a with
  | Ok p' => exists p, (s = Some p \/ (s = None /\ exists b, request_baseline req = Some b /\ p = flex_new b)) /\
             request_op req io p = Ok p'
  | Err _ => True
  end.

Definition flex_after (s : option FlexProfile) (a : Answer FlexProfile) : option FlexProfile :=
  match a with Ok p => Some p | Err _ => s end.

Fixpoint run_flex (path : string) (reqs : list (FlexRequest * FlexIo)) (disk : Disk) : list (Answer FlexProfile) * Disk :=
  match reqs with
  | [] => ([], disk)
  | (req, io) :: reqs =>
      let '(a, disk) := handle_flex path req io disk in
      let '(l, disk) := run_flex path reqs disk in
      (a :: l, disk)
  end.

(** The changes that were accepted. *)
Fixpoint accepted (reqs : list (FlexRequest * FlexIo)) (answers : list (Answer FlexProfile)) : list Delta :=
  match reqs, answers with
  | (Apply _ d, _) :: reqs, Ok _ :: answers => d :: accepted reqs answers
  | _ :: reqs, _ :: answers => accepted reqs answers
  | _, _ => []
  end.

Lemma atomic_write_holds path body o disk a disk' :
  atomic_write path body o disk = (a, disk') ->
  match a with Ok _ => disk' !! path = Some body | Err _ => disk' !! path = disk !! path end.
Proof.
  pose proof (snapshot_tmp_ne path) as Hne. unfold atomic_write.
  destruct o; intros [= <- <-]; first [done|by rewrite lookup_insert_ne|by rewrite lookup_insert_eq].
Qed.

Lemma handle_flex_holds path req io disk a disk' s :
  fi_read_error io = false -> holds path disk s -> handle_flex path req io disk = (a, disk') ->
  flex_step req io s a /\ holds path disk' (flex_after s a).
Proof.
  intros Hr Hs. unfold handle_flex, flex_update, read_or_create. rewrite Hr.
  assert (Hfin : forall p, (s = Some p \/ (s = None /\ exists b, request_baseline req = Some b /\ p = flex_new b)) ->
    flex_finish path (request_op req io) io p disk = (a, disk') ->
    flex_step req io s a /\ holds path disk' (flex_after s a)).
  { intros p Hp. unfold flex_finish. destruct (request_op req io p) as [p'|e] eqn:Eop; [|by intros [= <- <-]].
    destruct (flex_encode p') as [body|e] eqn:Een; [|by intros [= <- <-]].
    destruct (atomic_write _ _ _ _) as [w d] eqn:Ew. apply atomic_write_holds in Ew.
    destruct w; intros [= <- <-]; simpl.
    - split; [by eauto|]. exists body. split; [done|]. by apply flex_decode_encode.
    - split; [done|]. unfold holds in *. destruct s; by rewrite Ew. }
  destruct s as [p|]; simpl in Hs.
  - destruct Hs as (text & Ht & Hd). rewrite Ht, Hd. by apply Hfin; left.
  - rewrite Hs. destruct (request_baseline req) as [b|] eqn:Eb; [|by intros [= <- <-]].
    apply Hfin. right. by eauto.
Qed.

(** Every change ever accepted, live or reverted. *)
Definition known (s : option FlexProfile) : list Delta :=
  match s with Some p => fp_deltas p ++ (rr_original <$> fp_history p) | None => [] end.

Lemma request_op_known req io p p' :
  request_op req io p = Ok p' ->
  known (Some p') ≡ₚ known (Some p) ++ match req with Apply _ d => [d] | Revert _ _ _ => [] end.
Proof.
  destruct req as [b d|actor reason now]; simpl.
  - unfold flex_apply. case_bool_decide; [done|]. case_bool_decide; [done|]. intros [= <-]. simpl.
    rewrite <- !(assoc_L (++)). f_equiv. by rewrite (comm (++)).
  - unfold flex_revert. destruct (last (fp_deltas p)) as [o|] eqn:E; [|done]. intros [= <-]. simpl.
    apply last_Some in E as [l ->]. rewrite length_app, Nat.add_sub, take_app_length, fmap_app. simpl.
    rewrite (right_id_L [] (++)). rewrite <- (assoc_L (++)). f_equiv. by rewrite (comm (++)).
Qed.

Lemma run_flex_known path reqs disk s :
  Forall (fun r => fi_read_error r.2 = false) reqs -> holds path disk s ->
  exists s', holds path (run_flex path reqs disk).2 s' /\
    known s' ≡ₚ known s ++ accepted reqs (run_flex path reqs disk).1.
Proof.
  revert disk s. induction reqs as [|[req io] reqs IH]; intros disk s Hr Hs; simpl.
  { exists s. by rewrite (right_id_L [] (++)). }
  apply Forall_cons in Hr as [Hr1 Hr]. simpl in Hr1.
  destruct (handle_flex path req io disk) as [a d] eqn:E.
  destruct (handle_flex_holds _ _ _ _ _ _ s Hr1 Hs E) as [Hst Hd].
  destruct (IH d (flex_after s a) Hr Hd) as (s' & Hs' & Hk).
  destruct (run_flex path reqs d) as [l d2]. simpl in *. exists s'. split; [done|]. rewrite Hk.
  destruct a as [p'|e]; simpl.
  - destruct Hst as (p & Hp & Hop). pose proof (request_op_known _ _ _ _ Hop) as Hkn.
    assert (known s = known (Some p)) as ->.
    { destruct Hp as [->|(-> & b & _ & ->)]; [done|]. done. }
    change (fp_deltas p' ++ (rr_original <$> fp_history p')) with (known (Some p')). rewrite Hkn.
    rewrite <- (assoc_L (++)). by destruct req.
  - by destruct req.
Qed.
End flex_props.

(** The flex profile loses no change: over any sequence of requests, whatever the
    writes answer, the file can still be read and the changes on its stack together
    with those in its revert history are exactly the changes that were accepted,
    each as often as it was. *)
Theorem flex_history `{FlexJson} `{!FlexJsonLaws} (path : string) (reqs : list (FlexRequest * FlexIo)) (disk : Disk)
    (Hread : Forall (fun r => fi_read_error r.2 = false) reqs) (Hnew : disk !! path = None) :
  exists s, holds path (run_flex path reqs disk).2 s /\ known s ≡ₚ accepted reqs (run_flex path reqs disk).1.
Proof. by apply (run_flex_known path reqs disk None). Qed.

(** A profile that is there but cannot be read as text is taken for a missing one:
    an apply that names a baseline answers success and the file then holds a profile
    over that baseline with this one change and an empty history. *)
Theorem unreadable_profile_overwritten `{FlexJson} `{!FlexJsonLaws} (path baseline body : string) (delta : Delta)
    (now : Z) (disk : Disk) (Hactor : dl_actor delta <> "") (Hreason : dl_reason delta <> "")
    (Henc : flex_encode (mkFlexProfile "1.0.0" baseline [delta] []) = Ok body) :
  let '(a, disk') := handle_flex path (Apply (Some baseline) delta) (mkFlexIo true Saved now) disk in
  a = Ok (mkFlexProfile "1.0.0" baseline [delta] []) /\ read_state path false disk' = Some (mkFlexProfile "1.0.0" baseline [delta] []).
Proof.
  unfold handle_flex, flex_update, read_or_create, flex_finish, request_op, flex_apply. simpl.
  rewrite !bool_decide_eq_false_2 by done. unfold flex_new. simpl. rewrite Henc. simpl. split; [done|].
  unfold read_state. rewrite lookup_insert_eq. simpl. by rewrite (flex_decode_encode _ _ Henc).
Qed.

(** ** A run *)

Module ProfilesDemo.
#[local] Instance tables : UnicodeTables :=
  {| uc_alphanumeric := fun _ => false; uc_uppercase := fun _ => ""; uc_debug_plain := fun _ => true |}.
#[local] Instance delta_op_eq_dec : EqDecision DeltaOp.
Proof. solve_decision. Defined.
#[local] Instance delta_eq_dec : EqDecision Delta.
Proof. solve_decision. Defined.
#[local] Instance revert_eq_dec : EqDecision RevertRecord.
Proof. solve_decision. Defined.
#[local] Instance flex_eq_dec : EqDecision FlexProfile.
Proof. solve_decision. Defined.

Definition attach (n : Z) : Delta := mkDelta n "op" "code work" n (AttachModel "qwen3-coder-32b").
Definition one : FlexProfile := mkFlexProfile "1.0.0" "careful" [attach 1] [].
Definition undone : FlexProfile := mkFlexProfile "1.0.0" "careful" [] [mkRevertRecord (attach 1) "op" 9 "slow"].

(** A codec for these two. *)
#[local] Instance codec : FlexJson :=
  {| flex_encode := fun p =>
       if decide (p = one) then Ok "one" else if decide (p = undone) then Ok "undone" else Err "unsupported";
     flex_decode := fun b =>
       if decide (b = "one") then Ok one else if decide (b = "undone") then Ok undone else Err "unsupported" |}.
#[local] Instance codec_laws : FlexJsonLaws.
Proof. split. intros p b. simpl. repeat case_decide; intros; simplify_eq; done. Qed.

Definition ok (now : Z) : FlexIo := mkFlexIo false Saved now.
Definition reqs : list (FlexRequest * FlexIo) :=
  [(Revert "op" "nothing yet" None, ok 0); (Apply (Some "careful") (attach 1), ok 1);
   (Apply None (attach 2), mkFlexIo false (PublishFails "disk full") 2); (Revert "op" "slow" None, ok 9)].

Lemma flex_history_witness :
  exists s, holds "/f.json" (run_flex "/f.json" reqs ∅).2 s /\ known s ≡ₚ accepted reqs (run_flex "/f.json" reqs ∅).1.
Proof. apply (flex_history "/f.json" reqs ∅); [repeat constructor|done]. Defined.

(** The one change that was accepted is the one in the history. *)
Example flex_accepted : accepted reqs (run_flex "/f.json" reqs ∅).1 = [attach 1] /\
  read_state "/f.json" false (run_flex "/f.json" reqs ∅).2 = Some undone.
Proof. vm_compute. done. Qed.

Lemma unreadable_profile_overwritten_witness :
  let '(a, disk') := handle_flex "/f.json" (Apply (Some "careful") (attach 1)) (mkFlexIo true Saved 1) {[ "/f.json" := "undone" ]} in
  a = Ok one /\ read_state "/f.json" false disk' = Some one.
Proof.
  apply (unreadable_profile_overwritten "/f.json" "careful" "one" (attach 1) 1 {[ "/f.json" := "undone" ]});
    [done|done|vm_compute; reflexivity].
Defined.

Definition full : Evidence := mkEvidence true true true true true true true "sha256:00".
Definition commit (l : AuthorityLevel.t) : AuthorityRequest := mkAuthorityRequest l TrustRing.Ring2 SandboxTier.TierA full 60.

Lemma gate_monotone_witness : ad_allowed (gate_decide Profile.Careful (commit AuthorityLevel.L4Execute)) = true.
Proof.
  apply (gate_monotone Profile.Careful (commit AuthorityLevel.L6Persist) (commit AuthorityLevel.L4Execute));
    [|vm_compute; reflexivity]. unfold no_stronger, weaker. simpl. split_and!; (lia || done).
Defined.
End ProfilesDemo.
