(* ===== verification/AuditRegistry.v ===== *)
(** * The audit chain

    Models crates/selfdef-audit-registry with the snapshot types and checks of
    crates/selfdef-audit-mirror: spans linked by hashes, the bounded tail of them that
    is published, the integrity report and the per-category tiles. SHA-256 is a
    parameter ([Sha256]); [json_to_string] writes the fields of an object in the order
    of their keys, whatever the order in which they are listed here. *)

From S2P Require Import Prelude Core Registry RegistryProps Guardian.
From stdpp Require Import options.

Module Audits.

(** ** Spans *)

Module OcsfCategory.
Inductive t := ProcessActivity | FileSystemActivity | NetworkActivity | HostInventory | AuthorityDecision | Other.
#[global] Instance eq_dec : EqDecision t.
Proof. solve_decision. Defined.
Definition all : list t := [ProcessActivity; FileSystemActivity; NetworkActivity; HostInventory; AuthorityDecision; Other].
Definition rank (c : t) : nat :=
  match c with
  | ProcessActivity => 0
  | FileSystemActivity => 1
  | NetworkActivity => 2
  | HostInventory => 3
  | AuthorityDecision => 4
  | Other => 5
  end.
Definition text (c : t) : string :=
  match c with
  | ProcessActivity => "process_activity"
  | FileSystemActivity => "file_system_activity"
  | NetworkActivity => "network_activity"
  | HostInventory => "host_inventory"
  | AuthorityDecision => "authority_decision"
  | Other => "other"
  end.
#[global] Program Instance countable : Countable t := inj_countable rank (fun n => all !! n) _.
Next Obligation. by intros []. Qed.
End OcsfCategory.

Module PolicyOutcome.
Inductive t := Allow | Deny | Ask | Sandbox.
#[global] Instance eq_dec : EqDecision t.
Proof. solve_decision. Defined.
Definition text (o : t) : string :=
  match o with Allow => "allow" | Deny => "deny" | Ask => "ask" | Sandbox => "sandbox" end.
End PolicyOutcome.

(** What the daemon hands in. *)
Record SpanAppend := mkSpanAppend {
  sa_trace_id : string;
  sa_profile : string;
  sa_model : string;
  sa_provider : string;
  sa_hardware : string;
  sa_tokens_prompt : Z;
  sa_tokens_completion : Z;
  sa_latency_ms : Z;
  sa_cost_millicents : Z;
  sa_risk_score : Z;
  sa_memory_refs : list string;
  sa_tool_refs : list string;
  sa_policy_result : PolicyOutcome.t;
  sa_branch_id : string;
  sa_ocsf_category : OcsfCategory.t;
  sa_signature : string;
}.

(** A span of the chain: what was handed in, when it was closed, and its hashes. *)
Record SpanEntry := mkSpanEntry {
  se_span : SpanAppend;
  se_closed_at : string;
  se_prev_chain_hash : string;
  se_chain_hash : string;
}.

Record CategorySummary := mkCategorySummary {
  cs_category : OcsfCategory.t;
  cs_total : Z;
  cs_allow : Z;
  cs_deny : Z;
  cs_ask : Z;
  cs_sandbox : Z;
}.

Record ChainIntegrityReport := mkIntegrity {
  ci_head_hash : string;
  ci_total_entries : Z;
  ci_continuous : bool;
  ci_first_gap_at : option Z;
  ci_verified_at : string;
}.

Record AuditMirrorSnapshot := mkAuditSnapshot {
  as_schema_version : string;
  as_captured_at : string;
  as_summaries : list CategorySummary;
  as_integrity : ChainIntegrityReport;
  as_spans : list SpanEntry;
  as_signature : string;
}.

Inductive RegistryError :=
| EmptyField (field : string)
| RiskOutOfRange (risk : Z)
| AuditMalformed (path source : string)
| AuditIo (path source : string)
| AuditTimeFormat (source : string).

Inductive MirrorError :=
| SchemaMismatch (expected actual : string)
| SignatureFailed (e : string)
| EmptySnapshot
| Deserialize (e : string)
| ChainBroken (index : Z).

Definition MAX_PUBLISHED_SPANS : nat := 256.

Definition initial_integrity : ChainIntegrityReport := mkIntegrity "" 0 true None "".

Definition audit_new : AuditMirrorSnapshot := mkAuditSnapshot "1.0.0" "" [] initial_integrity [] "".

(** ** Tiles *)

Definition tile_zero (c : OcsfCategory.t) : CategorySummary := mkCategorySummary c 0 0 0 0 0.

Definition tile_count (e : SpanEntry) (t : CategorySummary) : CategorySummary :=
  let '(mkCategorySummary c n a d k x) := t in
  let n := incr32 n in
  match sa_policy_result (se_span e) with
  | PolicyOutcome.Allow => mkCategorySummary c n (incr32 a) d k x
  | PolicyOutcome.Deny => mkCategorySummary c n a (incr32 d) k x
  | PolicyOutcome.Ask => mkCategorySummary c n a d (incr32 k) x
  | PolicyOutcome.Sandbox => mkCategorySummary c n a d k (incr32 x)
  end.

Definition recompute_audit `{!HashValues OcsfCategory.t CategorySummary} (l : list SpanEntry) : list CategorySummary :=
  tiles (fun e => sa_ocsf_category (se_span e)) tile_zero tile_count (fun t => OcsfCategory.rank (cs_category t)) l.

Definition total_cost_millicents (s : AuditMirrorSnapshot) : Z :=
  foldr Z.add 0%Z ((fun e => sa_cost_millicents (se_span e)) <$> as_spans s) `mod` 2 ^ 64.

Definition mean_latency_ms (s : AuditMirrorSnapshot) : Z :=
  match as_spans s with
  | [] => 0
  | l => as_u32 (foldr Z.add 0%Z ((fun e => sa_latency_ms (se_span e)) <$> l) `mod` 2 ^ 64 / Z.of_nat (length l))
  end.

(** Allowed, denied, asked, sandboxed. *)
Definition outcome_counts (s : AuditMirrorSnapshot) : Z * Z * Z * Z :=
  foldl (fun '(a, d, k, x) e =>
           match sa_policy_result (se_span e) with
           | PolicyOutcome.Allow => (incr32 a, d, k, x)
           | PolicyOutcome.Deny => (a, incr32 d, k, x)
           | PolicyOutcome.Ask => (a, d, incr32 k, x)
           | PolicyOutcome.Sandbox => (a, d, k, incr32 x)
           end) (0, 0, 0, 0)%Z (as_spans s).

Definition major (version : string) : string := default "" (head (split "." version)).

Definition validate_schema (s : AuditMirrorSnapshot) : result unit MirrorError :=
  if bool_decide (as_schema_version s = SCHEMA_VERSION) then Ok tt
  else if negb (bool_decide (major (as_schema_version s) = major SCHEMA_VERSION))
  then Err (SchemaMismatch SCHEMA_VERSION (as_schema_version s))
  else Ok tt.

(** ** Appending *)

Section registry.
Context `{WireFormat} `{Rfc3339} `{Sha256} `{!HashValues OcsfCategory.t CategorySummary}.

Definition span_json (e : SpanEntry) : json :=
  let a := se_span e in
  JObject
    [("trace_id", JString (sa_trace_id a)); ("profile", JString (sa_profile a)); ("model", JString (sa_model a));
     ("provider", JString (sa_provider a)); ("hardware", JString (sa_hardware a));
     ("tokens_prompt", JPosInt (sa_tokens_prompt a)); ("tokens_completion", JPosInt (sa_tokens_completion a));
     ("latency_ms", JPosInt (sa_latency_ms a)); ("cost_millicents", JPosInt (sa_cost_millicents a));
     ("risk_score", JPosInt (sa_risk_score a)); ("memory_refs", JArray (JString <$> sa_memory_refs a));
     ("tool_refs", JArray (JString <$> sa_tool_refs a)); ("policy_result", JString (PolicyOutcome.text (sa_policy_result a)));
     ("branch_id", JString (sa_branch_id a)); ("ocsf_category", JString (OcsfCategory.text (sa_ocsf_category a)));
     ("closed_at", JString (se_closed_at e)); ("prev_chain_hash", JString (se_prev_chain_hash e))].

Definition compute_chain_hash (e : SpanEntry) : string := sha256_hex (json_to_string (span_json e)).

Definition head_hash (l : list SpanEntry) : string := default "" (se_chain_hash <$> last l).

Definition audit_recompute (now : Z) (s : AuditMirrorSnapshot) : result unit RegistryError * AuditMirrorSnapshot :=
  let summaries := recompute_audit (as_spans s) in
  match rfc3339_format now with
  | None =>
      (Err (AuditTimeFormat (rfc3339_format_error now)),
       mkAuditSnapshot (as_schema_version s) (as_captured_at s) summaries (as_integrity s) (as_spans s) (as_signature s))
  | Some t =>
      let i := as_integrity s in
      (Ok tt,
       mkAuditSnapshot (as_schema_version s) t summaries
         (mkIntegrity (head_hash (as_spans s)) (Z.min u64_max (ci_total_entries i + 1)) (ci_continuous i)
            (ci_first_gap_at i) (ci_verified_at i))
         (as_spans s) (as_signature s))
  end.

(** The checks of [append_span]. *)
Definition check_span (a : SpanAppend) : result unit RegistryError :=
  if bool_decide (sa_trace_id a = "") then Err (EmptyField "trace_id")
  else if bool_decide (sa_profile a = "") then Err (EmptyField "profile")
  else if bool_decide (sa_model a = "") then Err (EmptyField "model")
  else if (100 <? sa_risk_score a)%Z then Err (RiskOutOfRange (sa_risk_score a))
  else Ok tt.

Definition link_span (prev closed_at : string) (a : SpanAppend) : SpanEntry :=
  mkSpanEntry a closed_at prev (compute_chain_hash (mkSpanEntry a closed_at prev "")).

(** [drain] of the front of the list. *)
Definition bound_tail (l : list SpanEntry) : list SpanEntry := drop (length l - MAX_PUBLISHED_SPANS) l.

Definition append_span (a : SpanAppend) (now : Z) (s : AuditMirrorSnapshot) :
    result string RegistryError * AuditMirrorSnapshot :=
  match check_span a with
  | Err e => (Err e, s)
  | Ok _ =>
      match rfc3339_format now with
      | None => (Err (AuditTimeFormat (rfc3339_format_error now)), s)
      | Some closed_at =>
          let entry := link_span (head_hash (as_spans s)) closed_at a in
          let spans := bound_tail (as_spans s ++ [entry]) in
          match audit_recompute now (mkAuditSnapshot (as_schema_version s) (as_captured_at s) (as_summaries s)
                                       (as_integrity s) spans (as_signature s)) with
          | (Err e, s) => (Err e, s)
          | (Ok _, s) => (Ok (se_chain_hash entry), s)
          end
      end
  end.

(** ** Verification *)

(** The loop over the pairs of neighbours: the index of the first that is not linked. *)
Fixpoint first_gap (i : nat) (l : list SpanEntry) : option nat :=
  match l with
  | a :: (b :: _) as l => if bool_decide (se_prev_chain_hash b = se_chain_hash a) then first_gap (S i) l else Some (S i)
  | _ => None
  end.

Definition verify_tail (now : Z) (s : AuditMirrorSnapshot) : result bool RegistryError * AuditMirrorSnapshot :=
  let gap := first_gap 0 (as_spans s) in
  let continuous := bool_decide (gap = None) in
  match rfc3339_format now with
  | None => (Err (AuditTimeFormat (rfc3339_format_error now)), s)
  | Some t =>
      (Ok continuous,
       mkAuditSnapshot (as_schema_version s) (as_captured_at s) (as_summaries s)
         (mkIntegrity (head_hash (as_spans s)) (ci_total_entries (as_integrity s)) continuous (Z.of_nat <$> gap) t)
         (as_spans s) (as_signature s))
  end.

(** The check of the mirror's reader. *)
Definition verify_chain_continuity (s : AuditMirrorSnapshot) : result unit MirrorError :=
  match first_gap 0 (as_spans s) with None => Ok tt | Some i => Err (ChainBroken (Z.of_nat i)) end.
End registry.

(** ** The store *)

Class AuditJson := {
  audit_encode : AuditMirrorSnapshot -> result string string;
  audit_decode : string -> result AuditMirrorSnapshot string;
}.

Section store.
Context `{AuditJson}.

Definition audit_load (path : string) (read_error : option string) (disk : Disk) : result AuditMirrorSnapshot RegistryError :=
  match read_error with
  | Some e => Err (AuditIo path e)
  | None =>
      match disk !! path with
      | None => Ok audit_new
      | Some text => match audit_decode text with Ok s => Ok s | Err e => Err (AuditMalformed path e) end
      end
  end.

Definition audit_save (path : string) (s : AuditMirrorSnapshot) (o : SaveOutcome) (disk : Disk) :
    result unit RegistryError * Disk :=
  match o with
  | MkdirFails e => (Err (AuditIo path e), disk)
  | _ =>
      match audit_encode s with
      | Err e => (Err (AuditMalformed path e), disk)
      | Ok body =>
          let tmp := with_extension path "json.tmp" in
          match o with
          | MkdirFails e | TmpCreateFails e => (Err (AuditIo path e), disk)
          | TmpWriteFails partial e => (Err (AuditIo path e), <[tmp := partial]> disk)
          | TmpSyncFails e | PublishFails e => (Err (AuditIo path e), <[tmp := body]> disk)
          | Saved => (Ok tt, <[path := body]> (delete tmp disk))
          end
      end
  end.
End store.

(** ** Properties *)

Section props.
Context `{WireFormat} `{Rfc3339} `{Sha256} `{!HashValues OcsfCategory.t CategorySummary}.

(** The whole chain that a sequence of spans makes, refused ones left out. *)
Fixpoint chain (prev : string) (l : list (SpanAppend * Z)) : list SpanEntry :=
  match l with
  | [] => []
  | (a, now) :: l =>
      match check_span a, rfc3339_format now with
      | Ok _, Some closed_at => let e := link_span prev closed_at a in e :: chain (se_chain_hash e) l
      | _, _ => chain prev l
      end
  end.

Definition append_all (l : list (SpanAppend * Z)) (s : AuditMirrorSnapshot) : AuditMirrorSnapshot :=
  foldl (fun s p => (append_span p.1 p.2 s).2) s l.

Definition linked (a b : SpanEntry) : Prop := se_prev_chain_hash b = se_chain_hash a.

(** The last [n] of a list. *)
Definition lastn {A} (n : nat) (l : list A) : list A := drop (length l - n) l.

Lemma last_lastn {A} n (l : list A) : last (lastn (S n) l) = last l.
Proof.
  unfold lastn. destruct l as [|x l] using rev_ind; [done|]. rewrite length_app. simpl.
  rewrite drop_app_le by lia. by rewrite !last_snoc.
Qed.

Lemma lastn_snoc {A} n (l : list A) x : lastn (S n) (lastn (S n) l ++ [x]) = lastn (S n) (l ++ [x]).
Proof.
  unfold lastn. rewrite !length_app, length_drop. simpl.
  rewrite (drop_app_le l) by lia. rewrite drop_app_le by (rewrite length_drop; lia).
  f_equal. rewrite drop_drop. f_equal. lia.
Qed.

Lemma head_hash_lastn l : head_hash (lastn MAX_PUBLISHED_SPANS l) = head_hash l.
Proof. unfold head_hash, MAX_PUBLISHED_SPANS. by rewrite last_lastn. Qed.

Lemma head_hash_snoc l e : head_hash (l ++ [e]) = se_chain_hash e.
Proof. unfold head_hash. by rewrite last_snoc. Qed.

Lemma first_gap_pair i a b l :
  first_gap i (a :: b :: l) =
  if bool_decide (se_prev_chain_hash b = se_chain_hash a) then first_gap (S i) (b :: l) else Some (S i).
Proof. reflexivity. Qed.

Lemma chain_links prev l e :
  head_hash [e] = prev -> first_gap 0 (e :: chain prev l) = None.
Proof.
  generalize 0. revert prev e. induction l as [|[a now] l IH]; intros prev e i Hp; [done|]. simpl.
  destruct (check_span a); [|by apply IH]. destruct (rfc3339_format now); [|by apply IH].
  rewrite bool_decide_eq_true_2 by (by subst). by apply IH.
Qed.

Lemma first_gap_tail i l : first_gap i l = None -> first_gap (S i) (tail l) = None.
Proof.
  destruct l as [|a [|b l]]; [done|done|]. change (tail (a :: b :: l)) with (b :: l). rewrite !first_gap_pair.
  by case_bool_decide.
Qed.

Lemma first_gap_drop n i l : first_gap i l = None -> first_gap (n + i) (drop n l) = None.
Proof.
  revert i l. induction n as [|n IH]; intros i l Hg; [by rewrite drop_0|].
  rewrite Nat.add_succ_comm. destruct l as [|a l]; [by rewrite drop_nil|]. apply IH. by apply first_gap_tail in Hg.
Qed.

Lemma first_gap_shift i j l : first_gap i l = None -> first_gap j l = None.
Proof.
  revert i j. induction l as [|a [|b l] IH]; intros i j; [done|done|]. rewrite !first_gap_pair. case_bool_decide; [|done].
  apply IH.
Qed.

Lemma chain_no_gap prev l : first_gap 0 (chain prev l) = None.
Proof.
  revert prev. induction l as [|[a now] l IH]; intros prev; [done|]. simpl.
  destruct (check_span a); [|done]. destruct (rfc3339_format now); [|done]. by apply chain_links.
Qed.

(** What holds between the registry and the whole chain of what it was given. *)
Record follows (full : list SpanEntry) (s : AuditMirrorSnapshot) : Prop := {
  fo_spans : as_spans s = lastn MAX_PUBLISHED_SPANS full;
  fo_total : ci_total_entries (as_integrity s) = Z.min u64_max (Z.of_nat (length full));
  fo_head : ci_head_hash (as_integrity s) = head_hash full;
  fo_tiles : full <> [] -> as_summaries s = recompute_audit (as_spans s);
}.

Lemma append_span_follows full s a now :
  follows full s ->
  follows (full ++ chain (head_hash full) [(a, now)]) (append_span a now s).2.
Proof.
  intros [Hs Ht Hh Hk]. simpl. unfold append_span. destruct (check_span a); simpl; [|by rewrite (right_id_L [] (++))].
  unfold audit_recompute. destruct (rfc3339_format now) as [t|]; simpl; [|by rewrite (right_id_L [] (++))].
  rewrite Hs, head_hash_lastn. set (e := link_span _ _ _).
  assert (bound_tail (lastn MAX_PUBLISHED_SPANS full ++ [e]) = lastn MAX_PUBLISHED_SPANS (full ++ [e])) as Hb.
  { change (bound_tail ?x) with (lastn MAX_PUBLISHED_SPANS x). apply lastn_snoc. }
  split; simpl.
  - done.
  - rewrite Ht, length_app. simpl. unfold u64_max. lia.
  - by rewrite Hb, head_hash_lastn.
  - done.
Qed.

Lemma chain_app prev l1 l2 :
  chain prev (l1 ++ l2) = chain prev l1 ++ chain (default prev (se_chain_hash <$> last (chain prev l1))) l2.
Proof.
  revert prev. induction l1 as [|[a now] l1 IH]; intros prev; [done|]. simpl.
  destruct (check_span a); [|apply IH]. destruct (rfc3339_format now) as [t|]; [|apply IH]. simpl. f_equal.
  rewrite IH. do 2 f_equal. rewrite last_cons. by destruct (last _).
Qed.

Lemma append_all_follows l : follows (chain "" l) (append_all l audit_new).
Proof.
  induction l as [|[a now] l IH] using rev_ind.
  { by split. }
  unfold append_all. rewrite foldl_app. simpl. fold (append_all l audit_new).
  rewrite chain_app. change (default "" (se_chain_hash <$> last (chain "" l))) with (head_hash (chain "" l)).
  by apply append_span_follows.
Qed.
End props.

(** C20: The audit registry refines the unbounded chain: after any sequence of spans,
    refused ones included, what it publishes is the last 256 spans of the chain that
    links every accepted span to the hash of the one before it; the reported length
    is that of the whole chain, the reported head is its last hash, the tiles are
    those of the published spans, and the published tail verifies. *)
Theorem audit_history `{WireFormat} `{Rfc3339} `{Sha256} `{!HashValues OcsfCategory.t CategorySummary}
    (l : list (SpanAppend * Z)) (now : Z) :
  let full := chain "" l in
  let s := append_all l audit_new in
  as_spans s = drop (length full - 256) full /\
  ci_total_entries (as_integrity s) = Z.min u64_max (Z.of_nat (length full)) /\
  ci_head_hash (as_integrity s) = head_hash full /\
  (full <> [] -> as_summaries s = recompute_audit (as_spans s)) /\
  verify_chain_continuity s = Ok tt /\ (verify_tail now s).1 <> Ok false.
Proof.
  intros full s. destruct (append_all_follows l) as [Hs Ht Hh Hk]. fold full s in Hs, Ht, Hh, Hk.
  assert (Hg : first_gap 0 (as_spans s) = None).
  { rewrite Hs. eapply first_gap_shift, first_gap_drop, (chain_no_gap "" l). }
  split_and!; [exact Hs|exact Ht|exact Hh|exact Hk|unfold verify_chain_continuity; by rewrite Hg|].
  unfold verify_tail. rewrite Hg. by destruct (rfc3339_format now).
Qed.

Lemma first_gap_Some i l k :
  first_gap i l = Some k <->
  exists a b, i < k /\ l !! (k - i - 1) = Some a /\ l !! (k - i) = Some b /\ ~ linked a b /\
    forall j x y, j < k - i - 1 -> l !! j = Some x -> l !! S j = Some y -> linked x y.
Proof.
  revert i. induction l as [|a [|b l] IH]; intros i.
  - split; [done|]. by intros (? & ? & ? & ? & ? & _).
  - split; [done|]. intros (x & y & Hk & Hx & Hy & _). destruct (k - i) as [|[|]] eqn:E; [lia| |]; done.
  - rewrite !first_gap_pair. case_bool_decide as Hl.
    + etrans; [apply IH|]. split.
      * intros (x & y & Hk & Hx & Hy & Hn & Hall). exists x, y.
        replace (k - i) with (S (k - S i)) by lia. replace (S (k - S i) - 1) with (S (k - S i - 1)) by lia.
        split_and!; [lia|done|done|done|]. intros [|j] u v Hj Hu Hv; [by simplify_eq/=|]. eapply (Hall j); [lia|done|done].
      * intros (x & y & Hk & Hx & Hy & Hn & Hall). destruct (decide (k = S i)) as [->|Hne].
        { replace (S i - i) with 1 in * by lia. simplify_eq/=. by destruct Hn. }
        exists x, y. replace (k - i) with (S (k - S i)) in * by lia. replace (S (k - S i) - 1) with (S (k - S i - 1)) in * by lia.
        split_and!; [lia|done|done|done|]. intros j u v Hj Hu Hv. apply (Hall (S j)); [lia|done|done].
    + split.
      * intros [= <-]. exists a, b. replace (S i - i) with 1 by lia. split_and!; [lia|done|done|done|]. simpl. lia.
      * intros (x & y & Hk & Hx & Hy & Hn & Hall). f_equal. destruct (decide (k = S i)); [done|].
        destruct Hl. apply (Hall 0); [lia|done|done].
Qed.

(** Verification reports exactly the first gap: it answers false if and only if some
    span does not carry the hash of the one before it, and the reported index is that
    of the first such span; the reader's check answers the same index. *)
Theorem verify_tail_exact `{WireFormat} `{Rfc3339} (now : Z) (t : string) (s : AuditMirrorSnapshot)
    (Ht : rfc3339_format now = Some t) (k : nat) :
  ((verify_tail now s).1 = Ok false /\ ci_first_gap_at (as_integrity (verify_tail now s).2) = Some (Z.of_nat k) <->
   exists a b, 0 < k /\ as_spans s !! (k - 1) = Some a /\ as_spans s !! k = Some b /\ ~ linked a b /\
     forall j x y, j < k - 1 -> as_spans s !! j = Some x -> as_spans s !! S j = Some y -> linked x y) /\
  (verify_chain_continuity s = Err (ChainBroken (Z.of_nat k)) <-> ci_first_gap_at (as_integrity (verify_tail now s).2) = Some (Z.of_nat k)).
Proof.
  unfold verify_tail, verify_chain_continuity. rewrite Ht. simpl. split.
  - pose proof (first_gap_Some 0 (as_spans s) k) as Hf. rewrite !Nat.sub_0_r in Hf. rewrite <- Hf.
    destruct (first_gap 0 (as_spans s)) as [g|]; simpl; split; [|intros [= ->]; done|by intros [_ ?]|done].
    intros [_ Hg]. f_equal. simplify_eq. lia.
  - destruct (first_gap 0 (as_spans s)) as [g|]; simpl; split; [by intros [= ->]|by intros [= ->]|done|done].
Qed.

Lemma first_gap_hashes i l l' :
  (fun e => (se_prev_chain_hash e, se_chain_hash e)) <$> l = (fun e => (se_prev_chain_hash e, se_chain_hash e)) <$> l' ->
  first_gap i l = first_gap i l'.
Proof.
  revert i l'. induction l as [|a [|b l] IH]; intros i [|a' [|b' l']] Hf; try done.
  injection Hf as Ha1 Ha2 Hb1 Hb2 Hl. rewrite !first_gap_pair, Ha2, Hb1. case_bool_decide; [|done].
  apply IH. rewrite !fmap_cons. by f_equal; [f_equal|].
Qed.

(** What a span says is not covered by verification: whatever the outcome, the risk,
    the references of any span are replaced by, the check of the registry answers as
    before and so does that of the reader, as long as the recorded hashes are kept. *)
Theorem altered_span_unnoticed `{WireFormat} `{Rfc3339} (now : Z) (s : AuditMirrorSnapshot) (i : nat) (e : SpanEntry)
    (forged : SpanAppend) (closed_at : string) (Hi : as_spans s !! i = Some e) :
  let spans := <[i := mkSpanEntry forged closed_at (se_prev_chain_hash e) (se_chain_hash e)]> (as_spans s) in
  let s' := mkAuditSnapshot (as_schema_version s) (as_captured_at s) (as_summaries s) (as_integrity s) spans (as_signature s) in
  (verify_tail now s').1 = (verify_tail now s).1 /\ verify_chain_continuity s' = verify_chain_continuity s.
Proof.
  intros spans s'.
  assert (Hg : first_gap 0 spans = first_gap 0 (as_spans s)).
  { apply first_gap_hashes. unfold spans. rewrite list_fmap_insert. simpl. apply list_insert_id.
    by rewrite list_lookup_fmap, Hi. }
  unfold verify_tail, verify_chain_continuity. change (as_spans s') with spans. rewrite Hg.
  by destruct (rfc3339_format now).
Qed.

(** An append never touches the continuity flag or the recorded gap: a registry that
    was found broken stays reported as broken, one that was never checked stays
    reported as continuous, whatever its spans are. *)
Theorem append_keeps_continuity `{WireFormat} `{Rfc3339} `{Sha256} `{!HashValues OcsfCategory.t CategorySummary}
    (a : SpanAppend) (now : Z) (s : AuditMirrorSnapshot) :
  ci_continuous (as_integrity (append_span a now s).2) = ci_continuous (as_integrity s) /\
  ci_first_gap_at (as_integrity (append_span a now s).2) = ci_first_gap_at (as_integrity s) /\
  ci_verified_at (as_integrity (append_span a now s).2) = ci_verified_at (as_integrity s).
Proof.
  unfold append_span, audit_recompute. destruct (check_span a); [|done]. by destruct (rfc3339_format now).
Qed.

Class AuditJsonLaws `{AuditJson} : Prop :=
  { audit_decode_encode s b : audit_encode s = Ok b -> audit_decode b = Ok s }.

Lemma audit_save_load `{AuditJson} `{!AuditJsonLaws} path s o disk :
  match audit_save path s o disk with
  | (Ok _, disk') => audit_load path None disk' = Ok s
  | (Err _, disk') => disk' !! path = disk !! path
  end.
Proof.
  pose proof (snapshot_tmp_ne path) as Hne. unfold audit_save, audit_load.
  destruct (audit_encode s) as [body|e] eqn:E; destruct o; try done; try by rewrite lookup_insert_ne.
  rewrite lookup_insert_eq. by rewrite (audit_decode_encode _ _ E).
Qed.

(** ** A run *)

Module AuditDemo.
#[local] Instance wire : WireFormat :=
  {| uuid_to_string := fun _ => ""; rfc3339_format := fun t => if (t =? 0)%Z then None else Some (show_uint t);
     json_to_string := fun j => match json_get j "trace_id" ≫= json_as_str with Some s => s | None => "" end |}.
#[local] Instance times : Rfc3339 := {| rfc3339_parse := fun _ => None; rfc3339_format_error := fun _ => "year" |}.
#[local] Instance sha : Sha256 := {| sha256_hex := fun s => "#" +:+ s |}.
#[local] Instance values : HashValues OcsfCategory.t CategorySummary := {| hash_values := fun m => (map_to_list m).*2 |}.

Definition span (id : string) (risk : Z) : SpanAppend :=
  mkSpanAppend id "careful" "weaver" "local-cuda" "cpu_pulse" 1 1 1 1 risk [] [] PolicyOutcome.Deny "b0"
    OcsfCategory.AuthorityDecision "sig".
Definition s : AuditMirrorSnapshot :=
  append_all [(span "a" 1, 1); (span "b" 101, 2); (span "c" 3, 3); (span "d" 3, 0)]%Z audit_new.

(** A score above the range and an unprintable time are refused. *)
Example s_spans : (fun e => (se_prev_chain_hash e, se_chain_hash e)) <$> as_spans s = [("", "#a"); ("#a", "#c")].
Proof. vm_compute. reflexivity. Qed.

Lemma altered_span_unnoticed_witness :
  let spans := <[0 := mkSpanEntry (span "z" 0) "9" "" "#a"]> (as_spans s) in
  let s' := mkAuditSnapshot "1.0.0" "3" (as_summaries s) (as_integrity s) spans "" in
  (verify_tail 5 s').1 = (verify_tail 5 s).1 /\ verify_chain_continuity s' = verify_chain_continuity s.
Proof.
  apply (altered_span_unnoticed 5 s 0 (mkSpanEntry (span "a" 1) "1" "" "#a") (span "z" 0) "9").
  vm_compute. reflexivity.
Defined.

Definition cut : AuditMirrorSnapshot :=
  mkAuditSnapshot "1.0.0" "3" [] initial_integrity [mkSpanEntry (span "a" 1) "1" "" "#a"; mkSpanEntry (span "c" 3) "3" "#b" "#c"] "".

Lemma verify_tail_exact_witness :
  (verify_tail 5 cut).1 = Ok false /\ ci_first_gap_at (as_integrity (verify_tail 5 cut).2) = Some (Z.of_nat 1).
Proof.
  assert (Ht : rfc3339_format 5 = Some "5") by (vm_compute; reflexivity).
  apply (verify_tail_exact 5 "5" cut Ht 1).
  exists (mkSpanEntry (span "a" 1) "1" "" "#a"), (mkSpanEntry (span "c" 3) "3" "#b" "#c").
  split_and!; [lia|done|done|done|simpl; lia].
Defined.
End AuditDemo.
End Audits.
