(* ===== verification/RulesRegistry.v ===== *)
(** * The nftables rules

    Models crates/selfdef-rules-registry (the registry and the parser of the output of
    [nft -j list ruleset]), the snapshot types of crates/selfdef-rules-mirror, the
    collector loop of the daemon (rules_collector_loop.rs) and the read route of
    crates/selfdef-api/src/rules_registry.rs. What [nft] prints and the host answers is
    an input; JSON text is read by [JsonText] and [SnapshotJson]. *)

From S2P Require Import Prelude Core Registry Registries RegistryProps Guardian.
From stdpp Require Import options.

Module Rules.

Module TrustRing.
Inductive t := SovereignKernel | TrustedLocal | Sandboxed | Experimental | CloudExternal.
#[global] Instance eq_dec : EqDecision t.
Proof. solve_decision. Defined.
Definition all : list t := [SovereignKernel; TrustedLocal; Sandboxed; Experimental; CloudExternal].
Definition index (r : t) : nat :=
  match r with SovereignKernel => 0 | TrustedLocal => 1 | Sandboxed => 2 | Experimental => 3 | CloudExternal => 4 end.
#[global] Program Instance countable : Countable t := inj_countable index (fun n => all !! n) _.
Next Obligation. by intros []. Qed.
End TrustRing.

Module Disposition.
Inductive t := Accept | Drop | Reject | Jump | Continue | Return.
#[global] Instance eq_dec : EqDecision t.
Proof. solve_decision. Defined.
End Disposition.

Record RuleEntry := mkRuleEntry {
  handle : Z;
  rule_id : string;
  ring : TrustRing.t;
  table : string;
  chain : string;
  match_expr : string;
  disposition : Disposition.t;
  priority : Z;
  packets : Z;
  bytes : Z;
  installed_at : string;
  installed_by : option string;
  rule_signature : string;
}.

Record RingSummary := mkRingSummary {
  rg_ring : TrustRing.t;
  rg_rule_count : Z;
  rg_total_bytes : Z;
  rg_total_packets : Z;
  rg_pending_l3 : Z;
}.

(** ** The parser *)

Inductive NftParseError :=
| MissingNftables
| NftDeserialize (e : string).

Definition json_as_array (v : json) : option (list json) := match v with JArray l => Some l | _ => None end.
Definition json_as_object (v : json) : option (list (string * json)) := match v with JObject l => Some l | _ => None end.

(** [iter().next()] of an object: the entry with the least key. *)
Fixpoint first_entry (l : list (string * json)) : option (string * json) :=
  match l with
  | [] => None
  | e :: l =>
      match first_entry l with
      | Some e' => if String.leb e.1 e'.1 then Some e else Some e'
      | None => Some e
      end
  end.

Definition ring_from_chain (chain : string) : TrustRing.t :=
  if starts_with chain "ring0" then TrustRing.SovereignKernel
  else if starts_with chain "ring1" then TrustRing.TrustedLocal
  else if starts_with chain "ring2" then TrustRing.Sandboxed
  else if starts_with chain "ring3" then TrustRing.Experimental
  else if starts_with chain "ring4" then TrustRing.CloudExternal
  else TrustRing.Experimental.

Definition stringify_operand (v : json) : string :=
  match v with
  | JString s => s
  | JPosInt n => show_uint n
  | JObject l =>
      match first_entry l with
      | Some (k, inner) =>
          match json_as_object inner with
          | Some iobj =>
              match assoc "key" iobj ≫= json_as_str with
              | Some key => k +:+ ":" +:+ key
              | None =>
                  match assoc "protocol" iobj ≫= json_as_str, assoc "field" iobj ≫= json_as_str with
                  | Some proto, Some field => proto +:+ ":" +:+ field
                  | _, _ => k
                  end
              end
          | None => k
          end
      | None => ""
      end
  | _ => ""
  end.

Definition summarize_match_expr (kind : string) (v : json) : string :=
  if bool_decide (kind = "match") then
    match json_as_object v with
    | Some obj =>
        let op := default "==" (assoc "op" obj ≫= json_as_str) in
        let left := default "" (stringify_operand <$> assoc "left" obj) in
        let right := default "" (stringify_operand <$> assoc "right" obj) in
        left +:+ " " +:+ op +:+ " " +:+ right
    | None => kind
    end
  else if bool_decide (kind ∈ ["payload"; "meta"; "ct"]) then stringify_operand v
  else kind.

(** The words that decide what happens to a packet. *)
Definition verb (k : string) : option Disposition.t :=
  if bool_decide (k = "accept") then Some Disposition.Accept
  else if bool_decide (k = "drop") then Some Disposition.Drop
  else if bool_decide (k = "reject") then Some Disposition.Reject
  else if bool_decide (k = "jump") then Some Disposition.Jump
  else if bool_decide (k = "continue") then Some Disposition.Continue
  else if bool_decide (k = "return") then Some Disposition.Return
  else None.

(** What the loop of [project_expr] carries: disposition, packets, bytes, match parts. *)
Definition Projection : Type := Disposition.t * Z * Z * list string.

Definition expr_step (acc : Projection) (e : json) : Projection :=
  let '(d, p, b, parts) := acc in
  match json_as_object e ≫= first_entry with
  | None => acc
  | Some (k, v) =>
      match verb k with
      | Some d => (d, p, b, parts)
      | None =>
          if bool_decide (k = "counter") then
            match json_as_object v with
            | Some cobj => (d, default 0%Z (assoc "packets" cobj ≫= json_as_u64), default 0%Z (assoc "bytes" cobj ≫= json_as_u64), parts)
            | None => acc
            end
          else
            let summary := summarize_match_expr k v in
            (d, p, b, if bool_decide (summary = "") then parts else parts ++ [summary])
      end
  end.

Definition project_expr (expr : option (list json)) : Disposition.t * Z * Z * string :=
  match expr with
  | None => (Disposition.Continue, 0%Z, 0%Z, "")
  | Some l => let '(d, p, b, parts) := foldl expr_step (Disposition.Continue, 0%Z, 0%Z, []) l in (d, p, b, join " " parts)
  end.

Definition project_rule (obj : list (string * json)) (captured_at : string) : option RuleEntry :=
  let table := default "" (assoc "table" obj ≫= json_as_str) in
  let chain := default "" (assoc "chain" obj ≫= json_as_str) in
  let handle := default 0%Z (assoc "handle" obj ≫= json_as_u64) in
  if bool_decide (table = "") || bool_decide (chain = "") then None
  else
    let comment := default "" (assoc "comment" obj ≫= json_as_str) in
    let rule_id :=
      match strip_prefix "selfdef:" comment with
      | Some suffix => suffix
      | None => "nft-" +:+ table +:+ "-" +:+ chain +:+ "-" +:+ show_uint handle
      end in
    let '(d, p, b, m) := project_expr (assoc "expr" obj ≫= json_as_array) in
    Some (mkRuleEntry handle rule_id (ring_from_chain chain) table chain m d 0 p b captured_at None "").

Section parser.
Context `{WireFormat} `{JsonText}.

Definition now_rfc3339 (now : Z) : string := default "1970-01-01T00:00:00Z" (rfc3339_format now).

Definition parse_nft_ruleset_json (text : string) (now : Z) : result (list RuleEntry) NftParseError :=
  match json_of_string text with
  | Err e => Err (NftDeserialize e)
  | Ok v =>
      match json_get v "nftables" ≫= json_as_array with
      | None => Err MissingNftables
      | Some arr =>
          Ok (omap (fun item => (json_get item "rule" ≫= json_as_object) ≫= fun obj => project_rule obj (now_rfc3339 now)) arr)
      end
  end.
End parser.

(** ** The registry *)

Definition tile_zero (r : TrustRing.t) : RingSummary := mkRingSummary r 0 0 0 0.

(** [saturating_add] of [u64]. *)
Definition sat_add64 (x y : Z) : Z := Z.min u64_max (x + y).

Definition tile_count (e : RuleEntry) (t : RingSummary) : RingSummary :=
  mkRingSummary (rg_ring t) (incr32 (rg_rule_count t)) (sat_add64 (rg_total_bytes t) (bytes e))
    (sat_add64 (rg_total_packets t) (packets e)) (rg_pending_l3 t).

Definition recompute_rules `{!HashValues TrustRing.t RingSummary} (l : list RuleEntry) : list RingSummary :=
  tiles ring tile_zero tile_count (fun t => TrustRing.index (rg_ring t)) l.

Abbreviation RulesSnapshot := (Snapshot RuleEntry RingSummary).

(** A snapshot refused by the schema check is the one refusal of this registry. *)
Abbreviation RulesError := (RegistryError Grants.MirrorError).

Section registry.
Context `{WireFormat} `{!HashValues TrustRing.t RingSummary} `{!SnapshotJson RuleEntry RingSummary}.

Definition rules_new (now : Z) : RulesSnapshot := mkSnapshot SCHEMA_VERSION (now_rfc3339 now) [] [] "".

Definition replace_rules (rules : list RuleEntry) (now : Z) (s : RulesSnapshot) : RulesSnapshot :=
  mkSnapshot (sn_schema_version s) (now_rfc3339 now) (recompute_rules rules) rules (sn_signature s).

Definition touch (now : Z) (s : RulesSnapshot) : RulesSnapshot :=
  mkSnapshot (sn_schema_version s) (now_rfc3339 now) (sn_summaries s) (sn_entries s) (sn_signature s).

Definition load_from_path (path : string) (read_error : option string) (now : Z) (disk : Disk) :
    result RulesSnapshot RulesError :=
  match read_error with
  | Some e => Err (RegIo path e)
  | None =>
      match disk !! path with
      | None => Ok (rules_new now)
      | Some text =>
          match snap_decode text with
          | Err e => Err (Malformed path e)
          | Ok s => match Grants.validate_schema s with Ok _ => Ok s | Err e => Err (Refused e) end
          end
      end
  end.

(** [Path::parent] of a path that ends in a file name. *)
Definition parent_dir (path : string) : string :=
  let p := default path (strip_suffix (default "" (last (split "/" path))) path) in
  if bool_decide (p = "/") then "/" else default p (strip_suffix "/" p).

Definition rules_tmp (path : string) (pid : Z) : string :=
  path_join (parent_dir path) (".rules.json.tmp." +:+ show_uint pid).

Definition save_to_path (path : string) (pid : Z) (s : RulesSnapshot) (o : SaveOutcome) (disk : Disk) :
    result unit RulesError * Disk :=
  let tmp := rules_tmp path pid in
  match o with
  | MkdirFails e => (Err (RegIo (parent_dir path) e), disk)
  | _ =>
      match snap_encode s with
      | Err e => (Err (Malformed tmp e), disk)
      | Ok body =>
          match o with
          | MkdirFails e => (Err (RegIo (parent_dir path) e), disk)
          | TmpCreateFails e => (Err (RegIo tmp e), disk)
          | TmpWriteFails partial e => (Err (RegIo tmp e), <[tmp := partial]> disk)
          | TmpSyncFails e => (Err (RegIo tmp e), <[tmp := body]> disk)
          | PublishFails e => (Err (RegIo path e), <[tmp := body]> disk)
          | Saved => (Ok tt, <[path := body]> (delete tmp disk))
          end
      end
  end.

(** The read route. *)
Definition rules_display (e : RulesError) : string :=
  match e with
  | Refused (Grants.SchemaMismatch expected actual) =>
      "mirror validation: schema version mismatch: expected " +:+ expected +:+ ", got " +:+ actual
  | Refused (Grants.SignatureFailed e) => "mirror validation: MS003 signature verification failed: " +:+ e
  | Refused Grants.EmptySnapshot => "mirror validation: snapshot is empty (publisher may be initializing)"
  | Refused (Grants.Deserialize e) => "mirror validation: snapshot deserialization failed: " +:+ e
  | Malformed path source => "malformed rules store at " +:+ path +:+ ": " +:+ source
  | RegIo path source => "rules store io error at " +:+ path +:+ ": " +:+ source
  | TimeFormat source => "timestamp format error: " +:+ source
  end.

Definition rules_snapshot_route (path : string) (io : Io) (disk : Disk) : Answer RulesSnapshot :=
  match load_from_path path (io_read io) (io_now io) disk with
  | Ok s => Ok s
  | Err e => Err (INTERNAL_SERVER_ERROR, rules_display e)
  end.
End registry.

(** ** The collector *)

Inductive NftOutcome :=
| NftTimeout
| NftMissing
| NftSpawnFails (e : string)
| NftFails (code : option Z) (stderr : string)
| NftNotUtf8
| NftPrints (stdout : string).

Record CollectIo := mkCollectIo {
  co_nft : NftOutcome;
  co_pid : Z;
  co_io : Io;
}.

Section collector.
Context `{WireFormat} `{JsonText} `{!HashValues TrustRing.t RingSummary} `{!SnapshotJson RuleEntry RingSummary}.

Definition collect_once (store : string) (io : CollectIo) (disk : Disk) : bool * Disk :=
  let now := io_now (co_io io) in
  match co_nft io with
  | NftPrints stdout =>
      match parse_nft_ruleset_json stdout now with
      | Err _ => (false, disk)
      | Ok rules =>
          let reg := match load_from_path store (io_read (co_io io)) now disk with Ok r => r | Err _ => rules_new now end in
          match save_to_path store (co_pid io) (replace_rules rules now reg) (io_save (co_io io)) disk with
          | (Err _, disk) => (false, disk)
          | (Ok _, disk) => (true, disk)
          end
      end
  | _ => (false, disk)
  end.

(** [run_rules_collector_loop]: one pass at start-up and one per tick. *)
Definition run_rules_collector_loop (store : string) (ticks : list CollectIo) (disk : Disk) : Disk :=
  foldl (fun disk io => (collect_once store io disk).2) disk ticks.
End collector.

(** ** What the parser makes of a rule *)

(** The parts of an expression: a verb, a counter, or a match. *)
Definition expr_verb (e : json) : option Disposition.t :=
  match json_as_object e ≫= first_entry with Some (k, _) => verb k | None => None end.

Definition expr_counter (e : json) : option (Z * Z) :=
  match json_as_object e ≫= first_entry with
  | Some (k, v) =>
      if bool_decide (k = "counter") then
        (fun cobj => (default 0%Z (assoc "packets" cobj ≫= json_as_u64), default 0%Z (assoc "bytes" cobj ≫= json_as_u64)))
        <$> json_as_object v
      else None
  | None => None
  end.

Definition expr_match (e : json) : option string :=
  match json_as_object e ≫= first_entry with
  | Some (k, v) =>
      match verb k with
      | Some _ => None
      | None =>
          if bool_decide (k = "counter") then None
          else if bool_decide (summarize_match_expr k v = "") then None else Some (summarize_match_expr k v)
      end
  | None => None
  end.

Lemma expr_step_parts d p b parts e :
  expr_step (d, p, b, parts) e =
  (default d (expr_verb e), default p (fst <$> expr_counter e), default b (snd <$> expr_counter e),
   parts ++ option_list (expr_match e)).
Proof.
  unfold expr_step, expr_verb, expr_counter, expr_match.
  destruct (json_as_object e ≫= first_entry) as [[k v]|]; simpl; [|by rewrite (right_id_L [] (++))].
  destruct (verb k) eqn:Ev; simpl.
  - case_bool_decide as Hk; simpl; [subst k; done|]. by rewrite (right_id_L [] (++)).
  - case_bool_decide as Hk; simpl.
    + destruct (json_as_object v); simpl; by rewrite (right_id_L [] (++)).
    + case_bool_decide; simpl; by rewrite ?(right_id_L [] (++)).
Qed.

Lemma last_omap_cons {A B} (f : A -> option B) x l d :
  default d (last (omap f (x :: l))) = default (default d (f x)) (last (omap f l)).
Proof.
  cbn. destruct (f x) as [y|]; [|done]. rewrite last_cons. by destruct (last (omap f l)).
Qed.

Lemma expr_fold l d p b parts :
  foldl expr_step (d, p, b, parts) l =
  (default d (last (omap expr_verb l)), default p (last (omap (fun e => fst <$> expr_counter e) l)),
   default b (last (omap (fun e => snd <$> expr_counter e) l)), parts ++ omap expr_match l).
Proof.
  revert d p b parts. induction l as [|e l IH]; intros d p b parts; [by cbn; rewrite app_nil_r|].
  cbn [foldl]. rewrite expr_step_parts, IH, !last_omap_cons. f_equal. rewrite <- (assoc_L (++)). f_equal.
  simpl. by destruct (expr_match e).
Qed.

(** What is shown of a rule: its disposition is the last verb of its expressions
    (continue without one), its counters are those of the last counter that has any
    (zero without one), and its match text joins what the other expressions say, in
    order. *)
Theorem project_expr_exact (l : list json) :
  project_expr (Some l) =
  (default Disposition.Continue (last (omap expr_verb l)), default 0%Z (last (omap (fun e => fst <$> expr_counter e) l)),
   default 0%Z (last (omap (fun e => snd <$> expr_counter e) l)), join " " (omap expr_match l)).
Proof. unfold project_expr. by rewrite expr_fold. Qed.

(** The counters of a rule with two of them are those of the second. *)
Example second_counter_wins :
  project_expr (Some [JObject [("counter", JObject [("packets", JPosInt 5); ("bytes", JPosInt 320)])];
                      JObject [("counter", JObject [("packets", JPosInt 1); ("bytes", JPosInt 60)])]; JObject [("drop", JNull)]])
  = (Disposition.Drop, 1%Z, 60%Z, "").
Proof. vm_compute. reflexivity. Qed.

(** A chain whose name only begins like that of a trusted ring is shown in that ring. *)
Example ring_by_prefix :
  ring_from_chain "ring1_egress" = TrustRing.TrustedLocal /\ ring_from_chain "ring10_egress" = TrustRing.TrustedLocal /\
  ring_from_chain "ring0day" = TrustRing.SovereignKernel /\ ring_from_chain "docker" = TrustRing.Experimental.
Proof. vm_compute. done. Qed.

(** ** Tiles *)

#[export] Instance rule_tile_laws :
  TileLaws ring tile_zero tile_count (fun t => TrustRing.index (rg_ring t)) rg_ring TrustRing.index TrustRing.all.
Proof. split; [done|done|done|by intros [] []|intros []; set_solver|repeat constructor]. Qed.

Definition sum64 (l : list Z) : Z := Z.min u64_max (foldr Z.add 0%Z l).

(** The tile of a ring, from the rules in it. *)
Definition ring_tile (l : list RuleEntry) (r : TrustRing.t) : option RingSummary :=
  match filter (fun e => ring e = r) l with
  | [] => None
  | es => Some (mkRingSummary r (Z.of_nat (length es)) (sum64 (bytes <$> es)) (sum64 (packets <$> es)) 0)
  end.

Definition counters_ok (e : RuleEntry) : Prop := (0 <= bytes e)%Z /\ (0 <= packets e)%Z.

Lemma sum64_nonneg l : Forall (Z.le 0) l -> (0 <= foldr Z.add 0 l)%Z.
Proof. induction 1; simpl; lia. Qed.

Lemma rule_tile_fold es r n b p x :
  (0 <= n)%Z -> (n + Z.of_nat (length es) < 2 ^ 32)%Z -> (0 <= b <= u64_max)%Z -> (0 <= p <= u64_max)%Z -> Forall counters_ok es ->
  foldl (fun t e => tile_count e t) (mkRingSummary r n b p x) es =
  mkRingSummary r (n + Z.of_nat (length es)) (Z.min u64_max (b + foldr Z.add 0%Z (bytes <$> es)))
    (Z.min u64_max (p + foldr Z.add 0%Z (packets <$> es))) x.
Proof.
  revert n b p. induction es as [|e es IH]; intros n b p Hn Hl Hb Hp Hf.
  - simpl. f_equal; lia.
  - apply Forall_cons in Hf as [[He1 He2] Hf]. simpl in Hl. cbn [foldl]. unfold tile_count at 2. cbn [rg_ring rg_rule_count rg_total_bytes rg_total_packets rg_pending_l3 length].
    rewrite incr32_small by lia. unfold sat_add64.
    assert (0 <= foldr Z.add 0 (bytes <$> es))%Z.
    { apply sum64_nonneg, Forall_fmap. eapply Forall_impl; [exact Hf|]. intros ? []. done. }
    assert (0 <= foldr Z.add 0 (packets <$> es))%Z.
    { apply sum64_nonneg, Forall_fmap. eapply Forall_impl; [exact Hf|]. intros ? []. done. }
    rewrite IH by (try done; unfold u64_max in *; lia). rewrite !fmap_cons. cbn [foldr]. f_equal; lia.
Qed.

(** The tiles of the rules are exact: the rings that have rules, in order, each with
    the number of its rules and the sums of their bytes and packets, which stop at
    the largest 64-bit number instead of wrapping. *)
Theorem rules_tiles_exact `{!HashValues TrustRing.t RingSummary} `{!HashValuesLaws TrustRing.t RingSummary}
    (l : list RuleEntry) (Hl : (Z.of_nat (length l) < 2 ^ 32)%Z) (Hc : Forall counters_ok l) :
  recompute_rules l = omap (ring_tile l) TrustRing.all.
Proof.
  unfold recompute_rules. rewrite (tiles_exact _ _ _ _ _ _ TrustRing.all).
  apply list_omap_ext. apply Forall_Forall2_diag, Forall_forall. intros r _. unfold tile_of, ring_tile.
  destruct (filter (fun e => ring e = r) l) as [|e es] eqn:Ef; [done|].
  assert (Hlen : length (e :: es) <= length l) by (rewrite <- Ef; apply length_filter).
  assert (Hf : Forall counters_ok (e :: es)).
  { rewrite <- Ef. apply Forall_forall. intros x [_ Hx]%list_elem_of_filter. by eapply Forall_forall in Hc. }
  f_equal. unfold tile_zero. rewrite rule_tile_fold by (try done; unfold u64_max; lia). done.
Qed.

(** ** The store after the collector *)

Section collector_props.
Context `{WireFormat} `{JsonText} `{!HashValues TrustRing.t RingSummary} `{!SnapshotJson RuleEntry RingSummary}.
Context `{!SnapshotJsonLaws RuleEntry RingSummary}.
#[local] Set Default Proof Using "Type*".

(** The store holds what a pass printed. *)
Definition collected (store : string) (io : CollectIo) (disk : Disk) : Prop :=
  exists stdout s t, co_nft io = NftPrints stdout /\ parse_nft_ruleset_json stdout (io_now (co_io io)) = Ok (sn_entries s) /\
    sn_summaries s = recompute_rules (sn_entries s) /\ load_from_path store None t disk = Ok s.

Lemma load_from_path_valid path e now disk s :
  load_from_path path e now disk = Ok s -> Grants.validate_schema s = Ok tt.
Proof.
  unfold load_from_path. destruct e; [done|]. destruct (disk !! path); [|by intros [= <-]].
  destruct (snap_decode _) as [s'|]; [|done]. destruct (Grants.validate_schema s') as [[]|] eqn:E; [|done]. by intros [= <-].
Qed.

Lemma validate_replace rules now s :
  Grants.validate_schema (replace_rules rules now s) = Grants.validate_schema s.
Proof. done. Qed.

Lemma collect_once_spec store io disk :
  rules_tmp store (co_pid io) <> store ->
  match collect_once store io disk with
  | (true, disk') => collected store io disk'
  | (false, disk') => disk' !! store = disk !! store
  end.
Proof.
  intros Htmp. unfold collect_once. destruct (co_nft io) as [| | | | |stdout] eqn:En; try done.
  destruct (parse_nft_ruleset_json _ _) as [rules|] eqn:Ep; [|done].
  set (reg := match load_from_path _ _ _ _ with Ok r => r | Err _ => _ end).
  assert (Hv : Grants.validate_schema reg = Ok tt).
  { unfold reg. destruct (load_from_path _ _ _ _) as [s|] eqn:El; [by apply load_from_path_valid in El|done]. }
  set (s := replace_rules rules (io_now (co_io io)) reg). unfold save_to_path.
  destruct (snap_encode s) as [body|e] eqn:Ee; destruct (io_save (co_io io)); simpl; try done;
    try (by rewrite lookup_insert_ne).
  exists stdout, s, 0%Z. split_and!; [done|done|done|]. unfold load_from_path.
  rewrite lookup_insert_eq, (decode_encode_snap _ _ Ee). unfold s. by rewrite validate_replace, Hv.
Qed.

Lemma collected_stable store io disk disk' : disk' !! store = disk !! store -> collected store io disk -> collected store io disk'.
Proof.
  intros He (stdout & s & t & Hn & Hp & Ht & Hl). exists stdout, s, t. split_and!; [done|done|done|].
  unfold load_from_path in *. by rewrite He.
Qed.
End collector_props.

(** Whether a pass succeeds, at the point of the run where it happens. *)
Fixpoint passes `{WireFormat} `{JsonText} `{!HashValues TrustRing.t RingSummary} `{!SnapshotJson RuleEntry RingSummary}
    (store : string) (ticks : list CollectIo) (disk : Disk) : list bool :=
  match ticks with
  | [] => []
  | io :: ticks => (collect_once store io disk).1 :: passes store ticks (collect_once store io disk).2
  end.

(** The collector keeps the last ruleset it could read: after any passes, whatever
    [nft] and the file system answer, the store reads back as the rules of the last
    pass that succeeded, with their tiles; if none did the store is untouched. A
    store that cannot be read, is malformed or of another schema does not stop it. *)
Theorem rules_collector_exact `{WireFormat} `{JsonText} `{!HashValues TrustRing.t RingSummary}
    `{!SnapshotJson RuleEntry RingSummary} `{!SnapshotJsonLaws RuleEntry RingSummary}
    (store : string) (ticks : list CollectIo) (disk : Disk)
    (Htmp : Forall (fun io => rules_tmp store (co_pid io) <> store) ticks) :
  let disk' := run_rules_collector_loop store ticks disk in
  (true ∉ passes store ticks disk /\ disk' !! store = disk !! store) \/
  (exists l1 io l2, ticks = l1 ++ io :: l2 /\ (collect_once store io (run_rules_collector_loop store l1 disk)).1 = true /\
     true ∉ passes store l2 (run_rules_collector_loop store (l1 ++ [io]) disk) /\ collected store io disk').
Proof.
  intros disk'. unfold disk'. clear disk'. revert disk. induction ticks as [|io ticks IH]; intros disk; simpl.
  { left. split; [apply not_elem_of_nil|done]. }
  apply Forall_cons in Htmp as [Hio Htmp]. specialize (IH Htmp).
  pose proof (collect_once_spec store io disk Hio) as Hone.
  destruct (collect_once store io disk) as [ok d] eqn:Ec. simpl.
  destruct (IH d) as [[Hn Hd]|(l1 & io' & l2 & -> & Hok & Hn & Hcol)].
  - destruct ok.
    + right. exists [], io, ticks. split_and!; [done|by simpl; rewrite Ec|simpl; by rewrite Ec|].
      eapply collected_stable; [exact Hd|exact Hone].
    + left. split; [by rewrite not_elem_of_cons|]. by rewrite Hd.
  - right. exists (io :: l1), io', l2. split_and!; [done| | |done]; simpl; by rewrite Ec.
Qed.

(** ** A run *)

Module RulesDemo.
#[local] Instance wire : WireFormat :=
  {| uuid_to_string := fun _ => ""; rfc3339_format := fun t => Some (show_uint t); json_to_string := fun _ => "" |}.
#[local] Instance values : HashValues TrustRing.t RingSummary := {| hash_values := fun m => (map_to_list m).*2 |}.
#[local] Instance values_laws : HashValuesLaws TrustRing.t RingSummary.
Proof. by split. Qed.

Definition rule_json (chain : string) (n : Z) : json :=
  JObject [("rule", JObject [("table", JString "selfdef_bridge"); ("chain", JString chain); ("handle", JPosInt n);
    ("expr", JArray [JObject [("match", JObject [("op", JString "=="); ("left", JObject [("meta", JObject [("key", JString "l4proto")])]);
                                                ("right", JString "tcp")])];
                     JObject [("counter", JObject [("packets", JPosInt n); ("bytes", JPosInt (60 * n))])]; JObject [("drop", JNull)]])])].

(** One text that parses: two rules among other objects. *)
#[local] Instance text : JsonText :=
  {| json_of_string := fun b =>
       if bool_decide (b = "ruleset") then
         Ok (JObject [("nftables", JArray [JObject [("metainfo", JNull)]; rule_json "ring0_egress" 1; rule_json "ring2_in" 2])])
       else Err "not JSON" |}.

#[local] Instance ring_eq_dec : EqDecision RingSummary.
Proof. solve_decision. Defined.
#[local] Instance rule_eq_dec : EqDecision RuleEntry.
Proof. solve_decision. Defined.
#[local] Instance snap_eq_dec : EqDecision RulesSnapshot.
Proof. solve_decision. Defined.

Definition rules_of (now : Z) : list RuleEntry :=
  match parse_nft_ruleset_json "ruleset" now with Ok l => l | Err _ => [] end.

Example rules_shown : (fun r => (rule_id r, match_expr r, packets r)) <$> rules_of 7 =
  [("nft-selfdef_bridge-ring0_egress-1", "meta:l4proto == tcp", 1%Z); ("nft-selfdef_bridge-ring2_in-2", "meta:l4proto == tcp", 2%Z)].
Proof. vm_compute. reflexivity. Qed.

Definition one : RulesSnapshot := replace_rules (rules_of 7) 7 (rules_new 7).
#[local] Instance codec : SnapshotJson RuleEntry RingSummary :=
  {| snap_encode := fun s => if decide (s = one) then Ok "one" else Err "unsupported";
     snap_decode := fun b => if decide (b = "one") then Ok one else Err "unsupported" |}.
#[local] Instance codec_laws : SnapshotJsonLaws RuleEntry RingSummary.
Proof. split. intros s b. simpl. repeat case_decide; intros; simplify_eq; done. Qed.

Definition tick (o : NftOutcome) (now : Z) : CollectIo := mkCollectIo o 99 (mkIo now None Saved).
Definition ticks : list CollectIo := [tick NftTimeout 1; tick (NftPrints "ruleset") 7; tick (NftPrints "junk") 9].

Lemma rules_collector_exact_witness :
  let disk' := run_rules_collector_loop "/r.json" ticks ∅ in
  (true ∉ passes "/r.json" ticks ∅ /\ disk' !! "/r.json" = (∅ : Disk) !! "/r.json") \/
  (exists l1 io l2, ticks = l1 ++ io :: l2 /\ (collect_once "/r.json" io (run_rules_collector_loop "/r.json" l1 ∅)).1 = true /\
     true ∉ passes "/r.json" l2 (run_rules_collector_loop "/r.json" (l1 ++ [io]) ∅) /\ collected "/r.json" io disk').
Proof. apply (rules_collector_exact "/r.json" ticks ∅). repeat constructor; vm_compute; discriminate. Defined.

Example ticks_passes : passes "/r.json" ticks ∅ = [false; true; false].
Proof. vm_compute. reflexivity. Qed.

Lemma rules_tiles_exact_witness : recompute_rules (rules_of 7) = omap (ring_tile (rules_of 7)) TrustRing.all.
Proof.
  apply (rules_tiles_exact (rules_of 7)); [vm_compute; reflexivity|].
  repeat constructor; vm_compute; discriminate.
Defined.
End RulesDemo.
End Rules.
