(* ===== verification/MirrorExport.v ===== *)
(** * Published mirrors

    Models what the daemon publishes for the dashboards: mirror_export_loop.rs and
    cli_mirror_publisher.rs of crates/selfdef-daemon with the snapshot types and checks
    of crates/selfdef-tui-mirror and crates/selfdef-cli-mirror, and the publish
    counters of crates/selfdef-api/src/metrics.rs. The resident stores are those of the
    registries; the JSON encoders, the output of [selfdefctl] and the answers of the
    file system are inputs. *)

From S2P Require Import Prelude Core Registry Registries RegistryProps Guardian Profiles AuditRegistry RulesRegistry.
From stdpp Require Import options.

(** ** The panels *)

Module Tui.

Module PanelKind.
Inductive t := Rules | Grants | Quarantine | Authority.
#[global] Instance eq_dec : EqDecision t.
Proof. solve_decision. Defined.
End PanelKind.

Module Quadrant.
Inductive t := TopLeft | TopRight | BottomLeft | BottomRight.
#[global] Instance eq_dec : EqDecision t.
Proof. solve_decision. Defined.
End Quadrant.

Record KeyBinding := mkKeyBinding {
  kb_key : string;
  kb_action : string;
  kb_mutating : bool;
}.

Record ColumnSpec := mkColumnSpec {
  cl_header : string;
  cl_field : string;
  cl_width : Z;
  cl_right_align : bool;
}.

Record PanelEntry := mkPanelEntry {
  pe_kind : PanelKind.t;
  pe_quadrant : Quadrant.t;
  pe_title : string;
  pe_source_mirror : string;
  pe_columns : list ColumnSpec;
  pe_key_bindings : list KeyBinding;
  pe_min_authority : string;
  pe_refresh_ms : Z;
  pe_signature : string;
}.

Record TuiMirrorSnapshot := mkTuiMirror {
  tm_schema_version : string;
  tm_tui_build_version : string;
  tm_doctrine : string;
  tm_captured_at : string;
  tm_panels : list PanelEntry;
  tm_global_keys : list KeyBinding;
  tm_signature : string;
}.

Inductive MirrorError :=
| SchemaMismatch (expected actual : string)
| SignatureFailed (e : string)
| EmptySnapshot
| Deserialize (e : string)
| DoctrineTampered (expected actual : string)
| PanelCountInvalid (n : nat)
| PanelKindMissing (k : PanelKind.t)
| QuadrantCollision (q : Quadrant.t).

Definition DOCTRINE_NO_VANITY_GRAPHS : string := "A dashboard should not show vanity graphs".

Definition validate_schema (s : TuiMirrorSnapshot) : result unit MirrorError :=
  if bool_decide (tm_schema_version s = SCHEMA_VERSION) then Ok tt
  else if negb (bool_decide (Grants.major (tm_schema_version s) = Grants.major SCHEMA_VERSION))
  then Err (SchemaMismatch SCHEMA_VERSION (tm_schema_version s))
  else Ok tt.

Definition validate_doctrine (s : TuiMirrorSnapshot) : result unit MirrorError :=
  if negb (bool_decide (tm_doctrine s = DOCTRINE_NO_VANITY_GRAPHS))
  then Err (DoctrineTampered DOCTRINE_NO_VANITY_GRAPHS (tm_doctrine s)) else Ok tt.

(** The first of the required kinds that no panel has. *)
Definition missing_kind (l : list PanelEntry) : option PanelKind.t :=
  List.find (fun k => negb (existsb (fun p => bool_decide (pe_kind p = k)) l))
    [PanelKind.Rules; PanelKind.Grants; PanelKind.Quarantine; PanelKind.Authority].

(** The loop over the set of quadrants seen so far. *)
Fixpoint collision (seen : list Quadrant.t) (l : list PanelEntry) : option Quadrant.t :=
  match l with
  | [] => None
  | p :: l => if bool_decide (pe_quadrant p ∈ seen) then Some (pe_quadrant p) else collision (pe_quadrant p :: seen) l
  end.

Definition validate_layout (s : TuiMirrorSnapshot) : result unit MirrorError :=
  if negb (length (tm_panels s) =? 4) then Err (PanelCountInvalid (length (tm_panels s)))
  else
    match missing_kind (tm_panels s) with
    | Some k => Err (PanelKindMissing k)
    | None => match collision [] (tm_panels s) with Some q => Err (QuadrantCollision q) | None => Ok tt end
    end.

Definition find_panel (k : PanelKind.t) (s : TuiMirrorSnapshot) : option PanelEntry :=
  List.find (fun p => bool_decide (pe_kind p = k)) (tm_panels s).

Definition panel_name (k : PanelKind.t) : string :=
  match k with
  | PanelKind.Rules => "rules"
  | PanelKind.Grants => "grants"
  | PanelKind.Quarantine => "quarantine"
  | PanelKind.Authority => "authority"
  end.

Definition mutating_keys (s : TuiMirrorSnapshot) : list (string * KeyBinding) :=
  (tm_panels s ≫= fun p => pair (panel_name (pe_kind p)) <$> filter (fun k => kb_mutating k = true) (pe_key_bindings p))
  ++ (pair "global" <$> filter (fun k => kb_mutating k = true) (tm_global_keys s)).

#[local] Open Scope Z_scope.
Definition canonical_rules_panel : PanelEntry :=
  mkPanelEntry PanelKind.Rules Quadrant.TopLeft "Rules · Ring 0..4 · selfdef-rules-mirror" "selfdef-rules-mirror"
    [mkColumnSpec "ring" "ring" 12 false;
     mkColumnSpec "table" "table" 14 false;
     mkColumnSpec "chain" "chain" 22 false;
     mkColumnSpec "match" "match_expr" 0 false;
     mkColumnSpec "dispo" "disposition" 8 false;
     mkColumnSpec "packets" "packets" 10 true;
     mkColumnSpec "bytes" "bytes" 12 true]
    [mkKeyBinding "j/k" "cursor down/up" false;
     mkKeyBinding "Enter" "show full match_expr" false;
     mkKeyBinding "/" "filter rules (search)" false;
     mkKeyBinding "r" "filter by ring (0..4)" false]
    "l0_observe" 30000 "".

Definition canonical_grants_panel : PanelEntry :=
  mkPanelEntry PanelKind.Grants Quadrant.TopRight "Grants · MS035 + MS037 + MS038 · selfdef-grants-mirror" "selfdef-grants-mirror"
    [mkColumnSpec "grant_id" "grant_id" 14 false;
     mkColumnSpec "kind" "kind" 12 false;
     mkColumnSpec "scope" "scope" 0 false;
     mkColumnSpec "actor" "actor" 14 false;
     mkColumnSpec "state" "state" 10 false;
     mkColumnSpec "expires" "expires_at" 20 false]
    [mkKeyBinding "j/k" "cursor down/up" false;
     mkKeyBinding "i" "copy `selfdefctl grants issue ...`" false;
     mkKeyBinding "r" "copy `selfdefctl grants revoke <id>`" false;
     mkKeyBinding "Enter" "inspect grant detail" false]
    "l0_observe" 5000 "".

Definition canonical_quarantine_panel : PanelEntry :=
  mkPanelEntry PanelKind.Quarantine Quadrant.BottomLeft "Quarantine · MS042 declaration-vs-observed · selfdef-quarantine-mirror" "selfdef-quarantine-mirror"
    [mkColumnSpec "quarantine_id" "quarantine_id" 16 false;
     mkColumnSpec "tool" "tool" 14 false;
     mkColumnSpec "severity" "max_severity" 12 false;
     mkColumnSpec "state" "state" 12 false;
     mkColumnSpec "mismatches" "mismatches" 0 false;
     mkColumnSpec "blocked" "blocked_at" 20 false]
    [mkKeyBinding "j/k" "cursor down/up" false;
     mkKeyBinding "Enter" "show per-field mismatch detail" false;
     mkKeyBinding "R" "copy `selfdefctl quarantine release <id> --confirm`" false;
     mkKeyBinding "F" "copy `selfdefctl quarantine forfeit <id> --confirm`" false;
     mkKeyBinding "T" "copy `selfdefctl quarantine trace <id>`" false]
    "l0_observe" 5000 "".

Definition canonical_authority_panel : PanelEntry :=
  mkPanelEntry PanelKind.Authority Quadrant.BottomRight "Authority · MS039 L0..L6 + MS040 profile · selfdef-profile-mirror" "selfdef-profile-mirror"
    [mkColumnSpec "field" "field" 20 false;
     mkColumnSpec "value" "value" 0 false]
    [mkKeyBinding "j/k" "cursor down/up" false;
     mkKeyBinding "p" "copy `selfdefctl flex-profile switch <name>`" false;
     mkKeyBinding "h" "show transition history" false;
     mkKeyBinding "Enter" "show full MS040 authority envelope (L0..L6)" false]
    "l0_observe" 30000 "".

Definition canonical_global_keys : list KeyBinding :=
  [mkKeyBinding "Tab" "focus next panel (clockwise)" false;
   mkKeyBinding "S-Tab" "focus prev panel (counter-CW)" false;
   mkKeyBinding "1..4" "focus panel by quadrant index" false;
   mkKeyBinding "?" "toggle help overlay" false;
   mkKeyBinding "q" "quit" false;
   mkKeyBinding "Ctrl-r" "force refresh all panels" false;
   mkKeyBinding ":" "command palette (copies selfdefctl)" false].

#[local] Close Scope Z_scope.

Definition canonical_snapshot (tui_build_version captured_at : string) : TuiMirrorSnapshot :=
  mkTuiMirror SCHEMA_VERSION tui_build_version DOCTRINE_NO_VANITY_GRAPHS captured_at
    [canonical_rules_panel; canonical_grants_panel; canonical_quarantine_panel; canonical_authority_panel]
    canonical_global_keys "".
End Tui.

(** ** The commands *)

Module Cli.

Module EffectClass.
Inductive t := ReadOnly | Diagnostic | Simulate | Prepare | Execute | Commit | Persist | Destructive.
#[global] Instance eq_dec : EqDecision t.
Proof. solve_decision. Defined.
End EffectClass.

Module ArgKind.
Inductive t := Positional | Flag | Option | MultiOption.
End ArgKind.

Record ArgSpec := mkArgSpec {
  ag_name : string;
  ag_kind : ArgKind.t;
  ag_required : bool;
  ag_help : string;
  ag_default : option string;
  ag_allowed_values : list string;
}.

Record SubcommandEntry := mkSubcommandEntry {
  sc_path : string;
  sc_help_summary : string;
  sc_help_long : string;
  sc_effect_class : EffectClass.t;
  sc_min_authority : string;
  sc_args : list ArgSpec;
  sc_mirror : string;
  sc_requires_signature : bool;
  sc_p95_target_ms : Z;
  sc_signature : string;
}.

Record EffectSummary := mkEffectSummary {
  ef_effect : EffectClass.t;
  ef_count : Z;
}.

Record CliMirrorSnapshot := mkCliMirror {
  cm_schema_version : string;
  cm_cli_build_version : string;
  cm_doctrine : string;
  cm_captured_at : string;
  cm_summaries : list EffectSummary;
  cm_subcommands : list SubcommandEntry;
  cm_signature : string;
}.

Inductive MirrorError :=
| SchemaMismatch (expected actual : string)
| SignatureFailed (e : string)
| EmptySnapshot
| Deserialize (e : string)
| DoctrineTampered (expected actual : string)
| SubcommandCountLow (n : nat).

Definition DOCTRINE_FULLSTACK_AT_THE_EDGES : string := "Fullstack at the edges".

Definition validate_schema (s : CliMirrorSnapshot) : result unit MirrorError :=
  if bool_decide (cm_schema_version s = SCHEMA_VERSION) then Ok tt
  else if negb (bool_decide (Grants.major (cm_schema_version s) = Grants.major SCHEMA_VERSION))
  then Err (SchemaMismatch SCHEMA_VERSION (cm_schema_version s))
  else Ok tt.

Definition validate_doctrine (s : CliMirrorSnapshot) : result unit MirrorError :=
  if negb (bool_decide (cm_doctrine s = DOCTRINE_FULLSTACK_AT_THE_EDGES))
  then Err (DoctrineTampered DOCTRINE_FULLSTACK_AT_THE_EDGES (cm_doctrine s)) else Ok tt.

Definition validate_surface_size (s : CliMirrorSnapshot) : result unit MirrorError :=
  if length (cm_subcommands s) <? 50 then Err (SubcommandCountLow (length (cm_subcommands s))) else Ok tt.

Definition find_subcommand (path : string) (s : CliMirrorSnapshot) : option SubcommandEntry :=
  List.find (fun c => bool_decide (sc_path c = path)) (cm_subcommands s).

Definition signature_required_paths (s : CliMirrorSnapshot) : list string :=
  sc_path <$> filter (fun c => sc_requires_signature c = true) (cm_subcommands s).

Definition for_mirror (name : string) (s : CliMirrorSnapshot) : list SubcommandEntry :=
  filter (fun c => sc_mirror c = name) (cm_subcommands s).
End Cli.

(** ** Files and counters *)

(** The files, and when a published file was last written (nanoseconds). *)
Record MirrorFs := mkMirrorFs {
  mf_disk : Disk;
  mf_mtime : gmap string Z;
}.

Inductive WriteOutcome :=
| DirFails
| TmpFails (partial : option string)
| RenameFails
| Written.

(** [write_json_atomic] and [write_bytes_atomic], which differ in the name of their
    temporary file. *)
Definition write_atomic (dir file tmp_name : string) (body : result string string) (o : WriteOutcome) (clock : Z)
    (fs : MirrorFs) : MirrorFs :=
  let target := path_join dir file in
  let tmp := path_join dir tmp_name in
  match o with
  | DirFails => fs
  | _ =>
      match body with
      | Err _ => fs
      | Ok body =>
          match o with
          | DirFails | TmpFails None => fs
          | TmpFails (Some partial) => mkMirrorFs (<[tmp := partial]> (mf_disk fs)) (mf_mtime fs)
          | RenameFails => mkMirrorFs (<[tmp := body]> (mf_disk fs)) (mf_mtime fs)
          | Written => mkMirrorFs (<[target := body]> (delete tmp (mf_disk fs))) (<[target := clock]> (mf_mtime fs))
          end
      end
  end.

Definition write_json_atomic (dir file : string) : result string string -> WriteOutcome -> Z -> MirrorFs -> MirrorFs :=
  write_atomic dir file ("." +:+ file +:+ ".tmp").

(** The counters: successes and failures of an artifact, and its last success (seconds). *)
Record PublishMetrics := mkPublishMetrics {
  pu_counts : gmap string (Z * Z);
  pu_last : gmap string Z;
}.

Definition record_m060_publish (artifact : string) (ok : bool) (now_secs : Z) (m : PublishMetrics) : PublishMetrics :=
  let '(good, bad) := default (0%Z, 0%Z) (pu_counts m !! artifact) in
  mkPublishMetrics (<[artifact := if ok then ((good + 1)%Z, bad) else (good, (bad + 1)%Z)]> (pu_counts m))
    (if ok then <[artifact := now_secs]> (pu_last m) else pu_last m).

Definition exists_at (path : string) (fs : MirrorFs) : bool := bool_decide (is_Some (mf_disk fs !! path)).

Definition record_outcome (dir artifact : string) (store : option string) (now : Z) (fs : MirrorFs)
    (metrics : option PublishMetrics) : option PublishMetrics :=
  m ← metrics;
  if match store with Some s => negb (exists_at s fs) | None => false end then Some m
  else
    let path := path_join dir artifact in
    if negb (exists_at path fs) then Some (record_m060_publish artifact false (now / 10 ^ 9) m)
    else
      let fresh :=
        match mf_mtime fs !! path with
        | Some t => (t <=? now)%Z && ((now - t) / 10 ^ 9 <? 60)%Z
        | None => false
        end in
      Some (record_m060_publish artifact fresh (now / 10 ^ 9) m).

(** ** Publishing *)

Class MirrorJson := {
  profile_encode : ProfileMirrorSnapshot -> result string string;
  tui_encode : Tui.TuiMirrorSnapshot -> result string string;
  cli_decode : string -> result Cli.CliMirrorSnapshot string;
}.

Record MirrorPaths := mkMirrorPaths {
  mp_mirror_dir : string;
  mp_flex : string;
  mp_grants : string;
  mp_capability_tokens : string;
  mp_sandboxes : string;
  mp_quarantine : string;
  mp_trust_scores : string;
  mp_audit : string;
  mp_rules : string;
}.

(** What the host answers while one artifact is published. *)
Record ArtifactIo := mkArtifactIo {
  ar_read_error : option string;
  ar_write : WriteOutcome;
  ar_clock : Z;
}.

Section publish.
Context `{WireFormat} `{Rfc3339} `{Sha256} `{JsonText} `{FlexJson} `{!Audits.AuditJson} `{MirrorJson}
  `{!SnapshotJson Grants.GrantEntry Grants.GrantSummary} `{!SnapshotJson CapTokens.CapabilityEntry CapTokens.RingSummary}
  `{!SnapshotJson Sandboxes.AllocationEntry Sandboxes.TierSummary}
  `{!SnapshotJson Quarantines.QuarantineEntry Quarantines.SeveritySummary}
  `{!SnapshotJson TrustScores.ToolScoreEntry TrustScores.BandSummary} `{!SnapshotJson Rules.RuleEntry Rules.RingSummary}
  `{!HashValues Grants.GrantKind.t Grants.GrantSummary} `{!HashValues CapTokens.TrustRing.t CapTokens.RingSummary}
  `{!HashValues Sandboxes.SandboxTier.t Sandboxes.TierSummary}.

(** What every publisher of a resident store does: nothing without the store, nothing
    when it does not load. *)
Definition publish_store {S Er} (dir file store : string) (load : option string -> Disk -> result S Er)
    (body : S -> result string string) (io : ArtifactIo) (fs : MirrorFs) : MirrorFs :=
  if exists_at store fs then
    match load (ar_read_error io) (mf_disk fs) with
    | Ok s => write_json_atomic dir file (body s) (ar_write io) (ar_clock io) fs
    | Err _ => fs
    end
  else fs.

Definition publish_profile (dir flex_path : string) (io : ArtifactIo) (fs : MirrorFs) : MirrorFs :=
  let flex := read_state flex_path (bool_decide (is_Some (ar_read_error io))) (mf_disk fs) in
  write_json_atomic dir "active-profile.json" (profile_encode (project_snapshot flex)) (ar_write io) (ar_clock io) fs.

Definition publish_grants (dir store : string) (now : Z) : ArtifactIo -> MirrorFs -> MirrorFs :=
  publish_store dir "grants.json" store (load (E := Grants.GrantEntry) (T := Grants.GrantSummary) (R := Grants.IssueError) store)
    (fun s => snap_encode (expire_due (R := Grants.IssueError) now s).2).

Definition publish_capability_tokens (dir store : string) (now : Z) : ArtifactIo -> MirrorFs -> MirrorFs :=
  publish_store dir "capability-tokens.json" store
    (load (E := CapTokens.CapabilityEntry) (T := CapTokens.RingSummary) (R := CapTokens.Refusal) store)
    (fun s => snap_encode (expire_due (R := CapTokens.Refusal) now s).2).

Definition publish_sandboxes (dir store : string) (now : Z) : ArtifactIo -> MirrorFs -> MirrorFs :=
  publish_store dir "sandboxes.json" store
    (load (E := Sandboxes.AllocationEntry) (T := Sandboxes.TierSummary) (R := Sandboxes.Refusal) store)
    (fun s => snap_encode (expire_due (R := Sandboxes.Refusal) now s).2).

Definition publish_quarantine (dir store : string) : ArtifactIo -> MirrorFs -> MirrorFs :=
  publish_store dir "quarantine.json" store
    (load (E := Quarantines.QuarantineEntry) (T := Quarantines.SeveritySummary) (R := Quarantines.Refusal) store) snap_encode.

Definition publish_trust_scores (dir store : string) : ArtifactIo -> MirrorFs -> MirrorFs :=
  publish_store dir "trust-scores.json" store
    (load (E := TrustScores.ToolScoreEntry) (T := TrustScores.BandSummary) (R := TrustScores.Refusal) store) snap_encode.

Definition publish_audit (dir store : string) : ArtifactIo -> MirrorFs -> MirrorFs :=
  publish_store dir "audit.json" store (Audits.audit_load store) Audits.audit_encode.

Definition publish_rules (dir store : string) (now : Z) : ArtifactIo -> MirrorFs -> MirrorFs :=
  publish_store dir "rules.json" store (fun e => Rules.load_from_path store e now) snap_encode.

Definition publish_tui (dir version : string) (now : Z) (io : ArtifactIo) (fs : MirrorFs) : MirrorFs :=
  write_json_atomic dir "tui.json" (tui_encode (Tui.canonical_snapshot version (Rules.now_rfc3339 now))) (ar_write io)
    (ar_clock io) fs.

(** One domain: its artifact, its resident store if it has one, and its publisher. *)
Record Domain := mkDomain {
  do_file : string;
  do_store : option string;
  do_publish : ArtifactIo -> MirrorFs -> MirrorFs;
}.

Definition domains (p : MirrorPaths) (version : string) (now : Z) : list Domain :=
  let dir := mp_mirror_dir p in
  [mkDomain "active-profile.json" None (publish_profile dir (mp_flex p));
   mkDomain "grants.json" (Some (mp_grants p)) (publish_grants dir (mp_grants p) now);
   mkDomain "capability-tokens.json" (Some (mp_capability_tokens p)) (publish_capability_tokens dir (mp_capability_tokens p) now);
   mkDomain "sandboxes.json" (Some (mp_sandboxes p)) (publish_sandboxes dir (mp_sandboxes p) now);
   mkDomain "quarantine.json" (Some (mp_quarantine p)) (publish_quarantine dir (mp_quarantine p));
   mkDomain "trust-scores.json" (Some (mp_trust_scores p)) (publish_trust_scores dir (mp_trust_scores p));
   mkDomain "audit.json" (Some (mp_audit p)) (publish_audit dir (mp_audit p));
   mkDomain "rules.json" (Some (mp_rules p)) (publish_rules dir (mp_rules p) now);
   mkDomain "tui.json" None (publish_tui dir version now)].

(** Publish, then classify what became of it. *)
Definition publish_domain (dir : string) (io : string -> ArtifactIo) (st : MirrorFs * option PublishMetrics) (d : Domain) :
    MirrorFs * option PublishMetrics :=
  let fs := do_publish d (io (do_file d)) st.1 in
  (fs, record_outcome dir (do_file d) (do_store d) (ar_clock (io (do_file d))) fs st.2).

Definition publish_all (p : MirrorPaths) (version : string) (now : Z) (io : string -> ArtifactIo)
    (st : MirrorFs * option PublishMetrics) : MirrorFs * option PublishMetrics :=
  foldl (publish_domain (mp_mirror_dir p) io) st (domains p version now).

(** *** The commands *)

Record CliCache := mkCliCache {
  cc_resident : option (Z * string);
  cc_shell : option (option string);
}.

Inductive CtlOutcome :=
| CtlTimeout
| CtlMissing
| CtlSpawnFails
| CtlFails
| CtlPrints (stdout : string).

Record CliIo := mkCliIo {
  cl_now : Z;
  cl_read_error : bool;
  cl_ctl : CtlOutcome;
  cl_pid : Z;
  cl_write : WriteOutcome;
}.

Definition read_resident_store (path : string) (read_error : bool) (disk : Disk) : option string :=
  bytes ← (if read_error then None else disk !! path);
  match cli_decode bytes with
  | Ok s => match Cli.validate_schema s with Ok _ => Some bytes | Err _ => None end
  | Err _ => None
  end.

Definition RESIDENT_RECHECK_INTERVAL : Z := 300 * 10 ^ 9.

Definition resident_snapshot_bytes (path : string) (io : CliIo) (c : CliCache) (disk : Disk) : option string * CliCache :=
  let refresh :=
    match read_resident_store path (cl_read_error io) disk with
    | Some fresh => (Some fresh, mkCliCache (Some (cl_now io, fresh)) (cc_shell c))
    | None => (None, c)
    end in
  match cc_resident c with
  | Some (stamped, bytes) => if (cl_now io - stamped <? RESIDENT_RECHECK_INTERVAL)%Z then (Some bytes, c) else refresh
  | None => refresh
  end.

Definition fetch_snapshot_bytes (o : CtlOutcome) : option string :=
  match o with
  | CtlPrints stdout => match json_of_string stdout with Ok _ => Some stdout | Err _ => None end
  | _ => None
  end.

(** The bytes to publish: the resident store's, else those of the one shell-out. *)
Definition cli_bytes (path : string) (io : CliIo) (c : CliCache) (disk : Disk) : option string * CliCache :=
  match resident_snapshot_bytes path io c disk with
  | (Some b, c) => (Some b, c)
  | (None, c) =>
      match cc_shell c with
      | Some r => (r, c)
      | None => let r := fetch_snapshot_bytes (cl_ctl io) in (r, mkCliCache (cc_resident c) (Some r))
      end
  end.

Definition publish_cli (dir path : string) (io : CliIo) (st : CliCache * MirrorFs) : CliCache * MirrorFs :=
  match cli_bytes path io st.1 (mf_disk st.2) with
  | (None, c) => (c, st.2)
  | (Some b, c) =>
      (c, write_atomic dir "cli.json" (".cli.json.tmp." +:+ show_uint (cl_pid io)) (Ok b) (cl_write io) (cl_now io) st.2)
  end.

(** *** The loop *)

Record TickIo := mkTickIo {
  tk_now : Z;
  tk_artifacts : string -> ArtifactIo;
  tk_cli : CliIo;
}.

Record ExportState := mkExportState {
  ex_fs : MirrorFs;
  ex_metrics : option PublishMetrics;
  ex_cli : CliCache;
}.

Definition export_tick (p : MirrorPaths) (version cli_store : string) (st : ExportState) (io : TickIo) : ExportState :=
  let '(fs, metrics) := publish_all p version (tk_now io) (tk_artifacts io) (ex_fs st, ex_metrics st) in
  let '(cli, fs) := publish_cli (mp_mirror_dir p) cli_store (tk_cli io) (ex_cli st, fs) in
  mkExportState fs metrics cli.

(** [run_mirror_export_loop]: one pass at start-up and one per tick, until shut down. *)
Definition run_mirror_export_loop (p : MirrorPaths) (version cli_store : string) (ticks : list TickIo) (st : ExportState) :
    ExportState :=
  foldl (export_tick p version cli_store) st ticks.
End publish.
