(* ===== verification/MirrorProps.v ===== *)
(** * Properties of the published mirrors

    The export loop writes nothing but its own artifacts; what it shows of the
    registries is current; what it publishes of the commands is always valid; and what
    its counters say of a publication that failed. *)

From S2P Require Import Prelude Core Registry Registries RegistryProps Guardian Profiles AuditRegistry RulesRegistry MirrorExport.
From stdpp Require Import options.

(** ** The panels *)

Section layout.
Import Tui.

Lemma collision_None seen l : NoDup seen -> collision seen l = None <-> NoDup (reverse (pe_quadrant <$> l) ++ seen).
Proof.
  revert seen. induction l as [|p l IH]; intros seen Hs; simpl; [done|].
  rewrite reverse_cons, <- (assoc_L (++)). simpl. case_bool_decide as Hin.
  - split; [done|]. intros Hn. apply NoDup_app in Hn as (_ & _ & Hn). apply NoDup_cons in Hn as [Hn _]. done.
  - apply IH. by constructor.
Qed.

Definition all_kinds : list PanelKind.t := [PanelKind.Rules; PanelKind.Grants; PanelKind.Quarantine; PanelKind.Authority].

Lemma missing_kind_None l : missing_kind l = None <-> all_kinds ⊆ pe_kind <$> l.
Proof.
  unfold missing_kind. fold all_kinds.
  assert (Hk : forall k, existsb (fun p => bool_decide (pe_kind p = k)) l = true <-> k ∈ pe_kind <$> l).
  { intros k. rewrite existsb_exists, list_elem_of_fmap. split.
    - intros (p & Hp & Hb%bool_decide_eq_true). exists p. split; [done|]. by apply list_elem_of_In.
    - intros (p & -> & Hp). exists p. split; [by apply list_elem_of_In|by apply bool_decide_eq_true]. }
  induction all_kinds as [|k ks IH]; simpl.
  - split; [|done]. intros _ x []%elem_of_nil.
  - destruct (existsb _ l) eqn:E; simpl.
    + rewrite IH. apply Hk in E. set_solver.
    + split; [done|]. intros Hsub. assert (k ∈ pe_kind <$> l) as Hin%Hk by set_solver. congruence.
Qed.

(** The layout check accepts exactly the canonical layouts: four panels, one of each
    kind, in four different quadrants. *)
Theorem validate_layout_exact (s : TuiMirrorSnapshot) :
  validate_layout s = Ok tt <->
  pe_kind <$> tm_panels s ≡ₚ [PanelKind.Rules; PanelKind.Grants; PanelKind.Quarantine; PanelKind.Authority] /\
  NoDup (pe_quadrant <$> tm_panels s).
Proof.
  fold all_kinds. unfold validate_layout. destruct (Nat.eqb_spec (length (tm_panels s)) 4) as [Hl|Hl]; simpl.
  - assert (Hp : all_kinds ⊆ pe_kind <$> tm_panels s <-> pe_kind <$> tm_panels s ≡ₚ all_kinds).
    { split; [|by intros ->]. intros Hsub. symmetry. apply submseteq_length_Permutation.
      - apply NoDup_submseteq; [apply (bool_decide_unpack _); vm_compute; exact I|done].
      - by rewrite length_fmap, Hl. }
    pose proof (missing_kind_None (tm_panels s)) as Hm. rewrite Hp in Hm.
    pose proof (collision_None [] (tm_panels s) (NoDup_nil_2)) as Hc. rewrite app_nil_r, reverse_Permutation in Hc.
    destruct (missing_kind _); [naive_solver|]. destruct (collision _ _); naive_solver.
  - split; [done|]. intros [Hp _]. apply Permutation_length in Hp. by rewrite length_fmap in Hp.
Qed.

(** What is published passes the checks of its readers and has no key that changes anything. *)
Example canonical_accepted :
  let s := canonical_snapshot "0.1.0" "2026-01-01T00:00:00Z" in
  validate_schema s = Ok tt /\ validate_doctrine s = Ok tt /\ validate_layout s = Ok tt /\ mutating_keys s = [].
Proof. vm_compute. done. Qed.
End layout.

(** ** Only the artifacts are written *)

Definition artifacts : list string :=
  ["active-profile.json"; "grants.json"; "capability-tokens.json"; "sandboxes.json"; "quarantine.json";
   "trust-scores.json"; "audit.json"; "rules.json"; "tui.json"].

Definition same_outside (dir : string) (names : list string) (fs fs' : MirrorFs) : Prop :=
  forall q, (forall f, f ∈ names -> q <> path_join dir f) -> mf_disk fs' !! q = mf_disk fs !! q.

Definition json_names (f : string) : list string := [f; "." +:+ f +:+ ".tmp"].

Definition artifact_names : list string := artifacts ≫= json_names.

Lemma json_names_artifact f : f ∈ artifacts -> json_names f ⊆ artifact_names.
Proof. intros Hf x Hx. apply list_elem_of_bind. by exists f. Qed.

Lemma artifact_names_in name : name ∈ artifact_names <->
  name ∈ artifacts \/ exists file, file ∈ artifacts /\ name = "." +:+ file +:+ ".tmp".
Proof.
  unfold artifact_names, json_names. rewrite list_elem_of_bind. split.
  - intros (f & Hn & Hf). apply elem_of_cons in Hn as [->|Hn]; [by left|]. apply list_elem_of_singleton in Hn as ->. right. eauto.
  - intros [Hn|(f & Hf & ->)]; [exists name|exists f]; (split; [|done]); rewrite elem_of_cons, list_elem_of_singleton; tauto.
Qed.

Lemma same_outside_refl dir names fs : same_outside dir names fs fs.
Proof. by intros q _. Qed.

Lemma same_outside_trans dir names fs1 fs2 fs3 :
  same_outside dir names fs1 fs2 -> same_outside dir names fs2 fs3 -> same_outside dir names fs1 fs3.
Proof. intros H1 H2 q Hq. by rewrite H2, H1. Qed.

Lemma same_outside_weaken dir names names' fs fs' :
  names ⊆ names' -> same_outside dir names fs fs' -> same_outside dir names' fs fs'.
Proof. intros Hs H1 q Hq. apply H1. set_solver. Qed.

Lemma write_atomic_outside dir file tmp body o clock fs :
  same_outside dir [file; tmp] fs (write_atomic dir file tmp body o clock fs).
Proof.
  intros q Hq. pose proof (Hq file ltac:(set_solver)) as H1. pose proof (Hq tmp ltac:(set_solver)) as H2.
  unfold write_atomic. destruct o as [|[?|]| |], body; simpl; try done.
  - by rewrite lookup_insert_ne.
  - by rewrite lookup_insert_ne.
  - rewrite lookup_insert_ne by done. by rewrite lookup_delete_ne.
Qed.

Create HintDb mirror.
#[export] Hint Resolve same_outside_refl write_atomic_outside : mirror.

Section confined.
Context `{WireFormat} `{Rfc3339} `{Sha256} `{JsonText} `{FlexJson} `{!Audits.AuditJson} `{MirrorJson}
  `{!SnapshotJson Grants.GrantEntry Grants.GrantSummary} `{!SnapshotJson CapTokens.CapabilityEntry CapTokens.RingSummary}
  `{!SnapshotJson Sandboxes.AllocationEntry Sandboxes.TierSummary}
  `{!SnapshotJson Quarantines.QuarantineEntry Quarantines.SeveritySummary}
  `{!SnapshotJson TrustScores.ToolScoreEntry TrustScores.BandSummary} `{!SnapshotJson Rules.RuleEntry Rules.RingSummary}
  `{!HashValues Grants.GrantKind.t Grants.GrantSummary} `{!HashValues CapTokens.TrustRing.t CapTokens.RingSummary}
  `{!HashValues Sandboxes.SandboxTier.t Sandboxes.TierSummary}.
#[local] Set Default Proof Using "Type".

Lemma publish_store_outside {S Er} dir file store (load : option string -> Disk -> result S Er) body io fs :
  same_outside dir (json_names file) fs (publish_store dir file store load body io fs).
Proof.
  unfold publish_store. destruct (exists_at store fs); [|auto with mirror].
  destruct (load _ _); [apply write_atomic_outside|auto with mirror].
Qed.

Lemma domains_outside p version now d io fs :
  d ∈ domains p version now ->
  do_file d ∈ artifacts /\ same_outside (mp_mirror_dir p) (json_names (do_file d)) fs (do_publish d io fs).
Proof.
  unfold domains. rewrite !elem_of_cons, elem_of_nil.
  intros [->|[->|[->|[->|[->|[->|[->|[->|[->|[]]]]]]]]]]; (split; [simpl; set_solver|]);
    first [apply publish_store_outside|apply write_atomic_outside].
Qed.

Lemma fold_domains_outside p io ds st :
  Forall (fun d => do_file d ∈ artifacts /\ forall io fs, same_outside (mp_mirror_dir p) (json_names (do_file d)) fs (do_publish d io fs)) ds ->
  same_outside (mp_mirror_dir p) artifact_names st.1 (foldl (publish_domain (mp_mirror_dir p) io) st ds).1.
Proof.
  intros Hds. revert st. induction Hds as [|d ds [Hf Hd] Hds IH]; intros st; [apply same_outside_refl|]. simpl.
  eapply same_outside_trans; [|apply IH]. simpl. eapply same_outside_weaken; [|apply Hd]. by apply json_names_artifact.
Qed.

Lemma publish_all_outside p version now io st :
  same_outside (mp_mirror_dir p) artifact_names st.1 (publish_all p version now io st).1.
Proof.
  apply fold_domains_outside. apply Forall_forall. intros d Hd. split.
  - by eapply (domains_outside p version now d (mkArtifactIo None Written 0) st.1).
  - intros io' fs. by eapply domains_outside.
Qed.

Definition cli_tmp (io : CliIo) : string := ".cli.json.tmp." +:+ show_uint (cl_pid io).

Lemma publish_cli_outside dir path io st :
  same_outside dir ["cli.json"; cli_tmp io] st.2 (publish_cli dir path io st).2.
Proof.
  unfold publish_cli. destruct (cli_bytes _ _ _ _) as [[b|] c]; simpl; [apply write_atomic_outside|auto with mirror].
Qed.

(** The names that the loop may write: the artifacts, their temporary files, and those
    of the command schema. *)
Definition written_names (ticks : list TickIo) : list string :=
  artifact_names ++ "cli.json" :: (cli_tmp ∘ tk_cli <$> ticks).

Lemma written_names_in f ticks :
  f ∈ written_names ticks <-> f ∈ artifact_names \/ f = "cli.json" \/ exists io, io ∈ ticks /\ f = cli_tmp (tk_cli io).
Proof.
  unfold written_names. rewrite elem_of_app, elem_of_cons, list_elem_of_fmap. split; intros [?|[?|(io & H1' & H2')]]; eauto 6.
Qed.

Lemma export_tick_outside p version cli_store st io :
  same_outside (mp_mirror_dir p) (written_names [io]) (ex_fs st) (ex_fs (export_tick p version cli_store st io)).
Proof.
  unfold export_tick. pose proof (publish_all_outside p version (tk_now io) (tk_artifacts io) (ex_fs st, ex_metrics st)) as Ha.
  destruct (publish_all _ _ _ _ _) as [fs m]. simpl in Ha.
  pose proof (publish_cli_outside (mp_mirror_dir p) cli_store (tk_cli io) (ex_cli st, fs)) as Hb.
  destruct (publish_cli _ _ _ _) as [c fs']. simpl in *.
  eapply same_outside_trans; (eapply same_outside_weaken; [|eassumption]); intros x Hx; unfold written_names.
  - apply elem_of_app. by left.
  - apply elem_of_app. by right.
Qed.

Lemma export_outside (p : MirrorPaths) (version cli_store : string) (ticks : list TickIo) (st : ExportState) (q : string) :
  (forall f, f ∈ written_names ticks -> q <> path_join (mp_mirror_dir p) f) ->
  mf_disk (ex_fs (run_mirror_export_loop p version cli_store ticks st)) !! q = mf_disk (ex_fs st) !! q.
Proof.
  revert st. induction ticks as [|io ticks IH]; intros st Hq; [done|]. simpl. rewrite IH.
  - apply (export_tick_outside p version cli_store st io). intros f Hf. apply Hq. rewrite written_names_in in *.
    destruct Hf as [?|[?|(x & ->%list_elem_of_singleton & ->)]]; eauto using list_elem_of_here.
  - intros f Hf. apply Hq. rewrite written_names_in in *.
    destruct Hf as [?|[?|(x & ? & ->)]]; eauto 6 using list_elem_of_further.
Qed.

(** The stores that the loop reads. *)
Definition resident_stores (p : MirrorPaths) (cli_store : string) : list string :=
  [mp_flex p; mp_grants p; mp_capability_tokens p; mp_sandboxes p; mp_quarantine p; mp_trust_scores p; mp_audit p;
   mp_rules p; cli_store].

(** C21: The mirror export is confined to its directory. Over any number of ticks, whatever
    the host answers, the export loop changes no file but its ten artifacts in the
    configured mirror directory (active-profile, grants, capability-tokens, sandboxes,
    quarantine, trust-scores, audit, rules, tui and cli .json) and the temporary files
    they are renamed from. So each of the nine stores it reads is left as it was whenever
    it is not itself a file of the mirror directory. The code does not check that last
    condition: with the stores' own directory as mirror directory they are overwritten. *)
Theorem export_confined (p : MirrorPaths) (version cli_store : string) (ticks : list TickIo) (st : ExportState) :
  let before := mf_disk (ex_fs st) in
  let after := mf_disk (ex_fs (run_mirror_export_loop p version cli_store ticks st)) in
  (forall q, after !! q <> before !! q -> exists name, q = path_join (mp_mirror_dir p) name /\
    (name ∈ ["active-profile.json"; "grants.json"; "capability-tokens.json"; "sandboxes.json"; "quarantine.json";
             "trust-scores.json"; "audit.json"; "rules.json"; "tui.json"; "cli.json"] \/
     (exists file, file ∈ artifacts /\ name = "." +:+ file +:+ ".tmp") \/
     (exists io, io ∈ ticks /\ name = ".cli.json.tmp." +:+ show_uint (cl_pid (tk_cli io))))) /\
  (forall q, q ∈ resident_stores p cli_store -> (forall name, q <> path_join (mp_mirror_dir p) name) -> after !! q = before !! q).
Proof.
  cbv zeta. split.
  - intros q Hq. destruct (decide (Exists (fun f => q = path_join (mp_mirror_dir p) f) (written_names ticks))) as [Hx|Hx].
    + apply Exists_exists in Hx as (name & Hn & ->). exists name. split; [done|]. apply written_names_in in Hn.
      destruct Hn as [Hn|[->|(io & Hio & ->)]]; [|left; set_solver|right; right; by exists io].
      apply artifact_names_in in Hn as [Hn|Hn]; [left|by right; left].
      unfold artifacts in Hn. set_solver.
    + exfalso. apply Hq, export_outside. intros f Hf ->. apply Hx, Exists_exists. eauto.
  - intros q _ Hq. by apply export_outside.
Qed.
End confined.

(** ** What is shown is current *)

Lemma write_json_written dir file body clock fs :
  mf_disk (write_json_atomic dir file (Ok body) Written clock fs) !! path_join dir file = Some body.
Proof. simpl. apply lookup_insert_eq. Qed.

Section current.
Context {E T St R : Type} `{WireFormat} `{Rfc3339} `{!Registry E T} `{!TtlEntry E St} `{!SnapshotJson E T}.
Context `{!TtlEntryLaws E St} `{!SnapshotJsonLaws E T}.
#[local] Set Default Proof Using "Type*".

Lemma publish_current dir file store now io fs s body :
  exists_at store fs = true -> load (R := R) store (ar_read_error io) (mf_disk fs) = Ok s -> ar_write io = Written ->
  snap_encode (expire_due (R := R) now s).2 = Ok body ->
  let fs' := publish_store dir file store (load (R := R) store) (fun s => snap_encode (expire_due (R := R) now s).2) io fs in
  exists s', load (R := R) (path_join dir file) None (mf_disk fs') = Ok s' /\ Forall (fun e => due now e = false) (sn_entries s') /\
    tt_id <$> sn_entries s' = tt_id <$> sn_entries s.
Proof.
  intros Hx Hl Hw He fs'. exists (expire_due (R := R) now s).2. split_and!.
  - unfold fs', publish_store. rewrite Hx, Hl, He, Hw. unfold load. rewrite write_json_written. by rewrite (decode_encode_snap _ _ He).
  - rewrite expire_entries. apply Forall_fmap, Forall_forall. intros e _. by apply due_over.
  - rewrite expire_entries, <- list_fmap_compose. apply list_fmap_ext. intros i e _. simpl.
    destruct (due now e); [by rewrite tt_id_set|done].
Qed.
End current.

(** The dashboards never see a grant past its time: when the grants are published the
    artifact reads back as the grants of the store, each by its id and in order, and
    none of them is still live at the time of the publication, whatever the store
    says. The store itself is not changed. *)
Theorem mirrored_grants_current `{WireFormat} `{Rfc3339} `{!HashValues Grants.GrantKind.t Grants.GrantSummary}
    `{!SnapshotJson Grants.GrantEntry Grants.GrantSummary} `{!SnapshotJsonLaws Grants.GrantEntry Grants.GrantSummary}
    (dir store : string) (now : Z) (io : ArtifactIo) (fs : MirrorFs) (s : Snapshot Grants.GrantEntry Grants.GrantSummary)
    (body : string) (Hx : exists_at store fs = true)
    (Hl : load (R := Grants.IssueError) store (ar_read_error io) (mf_disk fs) = Ok s) (Hw : ar_write io = Written)
    (He : snap_encode (expire_due (R := Grants.IssueError) now s).2 = Ok body)
    (Hne : store <> path_join dir "grants.json") (Htmp : store <> path_join dir ".grants.json.tmp") :
  let fs' := publish_grants dir store now io fs in
  (exists s', load (R := Grants.IssueError) (path_join dir "grants.json") None (mf_disk fs') = Ok s' /\
     Forall (fun e => due now e = false) (sn_entries s') /\
     Grants.grant_id <$> sn_entries s' = Grants.grant_id <$> sn_entries s) /\
  mf_disk fs' !! store = mf_disk fs !! store.
Proof.
  intros fs'. split.
  - destruct (publish_current (R := Grants.IssueError) dir "grants.json" store now io fs s body Hx Hl Hw He) as (s' & H1' & H2' & H3').
    exists s'. split_and!; [exact H1'|exact H2'|exact H3'].
  - apply (publish_store_outside dir "grants.json" store). unfold json_names. simpl. intros f Hf. set_solver.
Qed.

(** ** What the counters say *)

(** A publication that fails can be counted as a success: when the store of the grants
    no longer loads, nothing is written, and yet, as long as the artifact of an
    earlier pass is less than a minute old, the success counter goes up and the last
    publication is dated now. *)
Theorem failed_publication_counted `{WireFormat} `{Rfc3339} `{!HashValues Grants.GrantKind.t Grants.GrantSummary}
    `{!SnapshotJson Grants.GrantEntry Grants.GrantSummary} (dir store text body e : string) (now t : Z) (io : string -> ArtifactIo)
    (fs : MirrorFs) (m : PublishMetrics) (good bad : Z)
    (Hstore : mf_disk fs !! store = Some text) (Hbad : snap_decode text = Err e)
    (Hfile : mf_disk fs !! path_join dir "grants.json" = Some body)
    (Hmtime : mf_mtime fs !! path_join dir "grants.json" = Some t)
    (Hage : (t <= ar_clock (io "grants.json") < t + 60 * 10 ^ 9)%Z)
    (Hcount : pu_counts m !! "grants.json" = Some (good, bad)) :
  publish_domain dir io (fs, Some m) (mkDomain "grants.json" (Some store) (publish_grants dir store now)) =
  (fs, Some (mkPublishMetrics (<["grants.json" := ((good + 1)%Z, bad)]> (pu_counts m))
               (<["grants.json" := (ar_clock (io "grants.json") / 10 ^ 9)%Z]> (pu_last m)))).
Proof.
  assert (Hsame : publish_grants dir store now (io "grants.json") fs = fs).
  { unfold publish_grants, publish_store, exists_at. rewrite Hstore. simpl. unfold load. destruct (ar_read_error _); [done|].
    by rewrite Hstore, Hbad. }
  unfold publish_domain. simpl. rewrite Hsame. f_equal. unfold record_outcome, exists_at, record_m060_publish. simpl.
  rewrite !bool_decide_eq_true_2 by (rewrite ?Hstore, ?Hfile; eauto). simpl. rewrite Hmtime, Hcount. simpl.
  assert (((t <=? ar_clock (io "grants.json")) && ((ar_clock (io "grants.json") - t) / 10 ^ 9 <? 60) = true)%Z) as ->; [|done].
  apply andb_true_iff. split; [lia|]. apply Z.ltb_lt, Z.div_lt_upper_bound; lia.
Qed.

(** ** The command schema *)

Section cli.
Context `{JsonText} `{MirrorJson}.

(** A text that one of the two sources vouched for. *)
Definition cli_ok (text : string) : Prop :=
  (exists s, cli_decode text = Ok s /\ Cli.validate_schema s = Ok tt) \/ exists v, json_of_string text = Ok v.

Definition cache_ok (c : CliCache) : Prop :=
  (forall t b, cc_resident c = Some (t, b) -> cli_ok b) /\ (forall b, cc_shell c = Some (Some b) -> cli_ok b).

Lemma read_resident_ok path e disk b : read_resident_store path e disk = Some b -> cli_ok b.
Proof.
  unfold read_resident_store. intros (text & _ & Hb)%bind_Some. destruct (cli_decode text) as [s|] eqn:Ed; [|done].
  destruct (Cli.validate_schema s) as [[]|] eqn:Ev; [|done]. simplify_eq. left. eauto.
Qed.

Lemma resident_bytes_ok path io c disk :
  cache_ok c ->
  cache_ok (resident_snapshot_bytes path io c disk).2 /\
  forall b, (resident_snapshot_bytes path io c disk).1 = Some b -> cli_ok b.
Proof.
  intros [Hr Hs]. unfold resident_snapshot_bytes.
  assert (Hrefresh : forall r, r = match read_resident_store path (cl_read_error io) disk with
      | Some fresh => (Some fresh, mkCliCache (Some (cl_now io, fresh)) (cc_shell c)) | None => (None, c) end ->
    cache_ok r.2 /\ forall b, r.1 = Some b -> cli_ok b).
  { intros r ->. destruct (read_resident_store _ _ _) as [f|] eqn:E; [|by split]. apply read_resident_ok in E.
    split; [split|]; simpl; intros; simplify_eq; eauto. }
  pose proof (conj Hr Hs : cache_ok c) as Hc. destruct (cc_resident c) as [[t b]|] eqn:Ec; [|by apply Hrefresh].
  destruct (_ <? _)%Z; [|by apply Hrefresh]. split; [done|]. intros b' [= <-]. by eapply Hr.
Qed.

Lemma cli_bytes_ok path io c disk :
  cache_ok c -> cache_ok (cli_bytes path io c disk).2 /\ forall b, (cli_bytes path io c disk).1 = Some b -> cli_ok b.
Proof.
  intros Hc. unfold cli_bytes. destruct (resident_bytes_ok path io c disk Hc) as [Hc' Hb].
  destruct (resident_snapshot_bytes _ _ _ _) as [[b|] c']; simpl in *; [auto|]. destruct Hc' as [Hr Hs].
  destruct (cc_shell c') as [r|] eqn:Es; simpl.
  - split; [split; rewrite ?Es; auto|]. intros b ->. by apply Hs.
  - assert (Hf : forall b, fetch_snapshot_bytes (cl_ctl io) = Some b -> cli_ok b).
    { intros b. unfold fetch_snapshot_bytes. destruct (cl_ctl io) as [| | | |out]; try done.
      destruct (json_of_string out) eqn:Ej; [|done]. intros [= <-]. right. eauto. }
    split; [split; simpl|done]; [done|]. intros b [= Hb']. by apply Hf.
Qed.

Definition run_publish_cli (dir path : string) (ios : list CliIo) (st : CliCache * MirrorFs) : CliCache * MirrorFs :=
  foldl (fun st io => publish_cli dir path io st) st ios.

Lemma publish_cli_ok dir path io st :
  cache_ok st.1 -> (forall b, mf_disk st.2 !! path_join dir "cli.json" = Some b -> cli_ok b) ->
  cache_ok (publish_cli dir path io st).1 /\
  forall b, mf_disk (publish_cli dir path io st).2 !! path_join dir "cli.json" = Some b -> cli_ok b.
Proof.
  intros Hc Hd. unfold publish_cli. destruct (cli_bytes_ok path io st.1 (mf_disk st.2) Hc) as [Hc' Hb].
  destruct (cli_bytes _ _ _ _) as [[b|] c]; simpl in *; [|done]. split; [done|]. intros b'. unfold write_atomic.
  assert (Hne : path_join dir (".cli.json.tmp." +:+ show_uint (cl_pid io)) <> path_join dir "cli.json").
  { intros Heq%path_join_inj. done. }
  destruct (cl_write io) as [|[?|]| |]; simpl; try rewrite lookup_insert_ne by done; auto.
  rewrite lookup_insert_eq. intros [= <-]. auto.
Qed.

(** Whatever the resident store holds and [selfdefctl] prints, over any number of
    passes and cache refreshes the published schema of the commands is a text that
    its source was checked for: one of the resident store that parses as a schema of
    a supported version, or an output that is valid JSON. *)
Theorem cli_published_valid (dir path : string) (ios : list CliIo) (fs : MirrorFs) (b : string)
    (Hnone : mf_disk fs !! path_join dir "cli.json" = None)
    (Hb : mf_disk (run_publish_cli dir path ios (mkCliCache None None, fs)).2 !! path_join dir "cli.json" = Some b) :
  cli_ok b.
Proof.
  assert (Hinv : forall ios st, cache_ok st.1 -> (forall b, mf_disk st.2 !! path_join dir "cli.json" = Some b -> cli_ok b) ->
    forall b, mf_disk (run_publish_cli dir path ios st).2 !! path_join dir "cli.json" = Some b -> cli_ok b).
  { intros ios'. induction ios' as [|io ios' IH]; intros st Hc Hd; simpl; [done|].
    destruct (publish_cli_ok dir path io st Hc Hd) as [Hc' Hd']. by apply IH. }
  apply (Hinv ios (mkCliCache None None, fs)); [done|simpl; congruence|done].
Qed.

(** One failed shell-out is final: when the first call of [selfdefctl] yields nothing,
    by a timeout for instance, the schema is never published for the life of the
    daemon as long as there is no resident store, however well later calls would go. *)
Theorem cli_shell_out_once (dir path : string) (io : CliIo) (ios : list CliIo) (fs : MirrorFs)
    (Hctl : fetch_snapshot_bytes (cl_ctl io) = None) (Hstore : mf_disk fs !! path = None) :
  run_publish_cli dir path (io :: ios) (mkCliCache None None, fs) = (mkCliCache None (Some None), fs).
Proof.
  assert (Hread : forall e, read_resident_store path e (mf_disk fs) = None).
  { intros []; unfold read_resident_store; [done|]. by rewrite Hstore. }
  assert (Hdead : forall io', publish_cli dir path io' (mkCliCache None (Some None), fs) = (mkCliCache None (Some None), fs)).
  { intros io'. unfold publish_cli, cli_bytes, resident_snapshot_bytes. simpl. by rewrite Hread. }
  assert (Hfirst : publish_cli dir path io (mkCliCache None None, fs) = (mkCliCache None (Some None), fs)).
  { unfold publish_cli, cli_bytes, resident_snapshot_bytes. simpl. rewrite Hread. simpl. by rewrite Hctl. }
  unfold run_publish_cli. cbn [foldl]. rewrite Hfirst. clear -Hdead. induction ios as [|io' ios IH]; [done|].
  cbn [foldl]. by rewrite Hdead.
Qed.
End cli.

(** ** A run *)

Module MirrorDemo.
#[local] Instance wire : WireFormat :=
  {| uuid_to_string := fun _ => ""; rfc3339_format := fun t => Some (show_uint t); json_to_string := fun _ => "" |}.
#[local] Instance times : Rfc3339 := {| rfc3339_parse := fun s => if decide (s = "60") then Some 60%Z else None; rfc3339_format_error := fun _ => "" |}.
#[local] Instance sha : Sha256 := {| sha256_hex := fun s => s |}.
#[local] Instance text : JsonText := {| json_of_string := fun b => if decide (b = "{}") then Ok (JObject []) else Err "not JSON" |}.
#[local] Instance flex : FlexJson := {| flex_encode := fun _ => Err ""; flex_decode := fun _ => Err "" |}.
#[local] Instance audits : Audits.AuditJson := {| Audits.audit_encode := fun _ => Err ""; Audits.audit_decode := fun _ => Err "" |}.
#[local] Instance mirrors : MirrorJson :=
  {| profile_encode := fun p => Ok (pm_envelope p); tui_encode := fun _ => Ok "tui"; cli_decode := fun _ => Err "not a schema" |}.
#[local] Instance values K T `{Countable K} : HashValues K T := {| hash_values := fun m => (map_to_list m).*2 |}.

Import Grants.
#[local] Instance entry_eq_dec : EqDecision GrantEntry.
Proof. solve_decision. Defined.
#[local] Instance summary_eq_dec : EqDecision GrantSummary.
Proof. solve_decision. Defined.
#[local] Instance snapshot_eq_dec : EqDecision (Snapshot GrantEntry GrantSummary).
Proof. solve_decision. Defined.

(** A store with one active grant whose time was up at 60, and what is shown of it. *)
Definition grant (st : GrantState.t) : GrantEntry :=
  mkGrantEntry "gr-1" GrantKind.Network "eth0" "triage" "0" "60" 60 "careful" "op" st "tr-1" "sig".
Definition stored : Snapshot GrantEntry GrantSummary := mkSnapshot "1.0.0" "0" [] [grant GrantState.Active] "".
Definition shown : Snapshot GrantEntry GrantSummary := (expire_due (R := IssueError) 61 stored).2.

Example shown_expired : state <$> sn_entries shown = [GrantState.Expired].
Proof. vm_compute. reflexivity. Qed.

#[local] Instance grants_codec : SnapshotJson GrantEntry GrantSummary :=
  {| snap_encode := fun s => if decide (s = stored) then Ok "stored" else if decide (s = shown) then Ok "shown" else Err "unsupported";
     snap_decode := fun b => if decide (b = "stored") then Ok stored else if decide (b = "shown") then Ok shown else Err "unsupported" |}.
#[local] Instance grants_codec_laws : SnapshotJsonLaws GrantEntry GrantSummary.
Proof. split. intros s b. simpl. repeat case_decide; intros; simplify_eq; done. Qed.
#[local] Instance no_codec E T : SnapshotJson E T | 100 := {| snap_encode := fun _ => Err ""; snap_decode := fun _ => Err "" |}.

Definition fs0 : MirrorFs := mkMirrorFs {[ "/var/grants.json" := "stored" ]} ∅.
Definition io0 : ArtifactIo := mkArtifactIo None Written 61.

Lemma mirrored_grants_current_witness :
  let fs' := publish_grants "/mirror" "/var/grants.json" 61 io0 fs0 in
  (exists s', load (R := IssueError) (path_join "/mirror" "grants.json") None (mf_disk fs') = Ok s' /\
     Forall (fun e => due 61 e = false) (sn_entries s') /\ grant_id <$> sn_entries s' = ["gr-1"]) /\
  mf_disk fs' !! "/var/grants.json" = mf_disk fs0 !! "/var/grants.json".
Proof.
  apply (mirrored_grants_current "/mirror" "/var/grants.json" 61 io0 fs0 stored "shown");
    [vm_compute; reflexivity|vm_compute; reflexivity|done|vm_compute; reflexivity|vm_compute; discriminate|vm_compute; discriminate].
Defined.

Definition paths : MirrorPaths :=
  mkMirrorPaths "/mirror" "/var/flex.json" "/var/grants.json" "/var/tokens.json" "/var/sandboxes.json" "/var/quarantine.json"
    "/var/trust.json" "/var/audit.json" "/var/rules.json".
Definition tick : TickIo := mkTickIo 61 (fun _ => io0) (mkCliIo 61 false (CtlPrints "{}") 7 Written).
Definition start : ExportState := mkExportState fs0 (Some (mkPublishMetrics ∅ ∅)) (mkCliCache None None).

Lemma export_confined_witness :
  mf_disk (ex_fs (run_mirror_export_loop paths "0.1.0" "/var/cli.json" [tick; tick] start)) !! "/var/grants.json" = Some "stored".
Proof.
  apply (export_confined paths "0.1.0" "/var/cli.json" [tick; tick] start); [apply list_elem_of_In; vm_compute; tauto|].
  intros f. by destruct f.
Defined.

(** Nothing keeps the mirror directory apart from the stores: when it is the directory the
    grants are kept in, the first pass replaces the registry of grants by its mirror. *)
Theorem mirror_over_store :
  let p := mkMirrorPaths "/var" "/var/flex.json" "/var/grants.json" "/var/tokens.json" "/var/sandboxes.json"
    "/var/quarantine.json" "/var/trust.json" "/var/audit.json" "/var/rules.json" in
  mf_disk (ex_fs start) !! mp_grants p = Some "stored" /\
  mf_disk (ex_fs (run_mirror_export_loop p "0.1.0" "/var/cli.json" [tick] start)) !! mp_grants p = Some "shown".
Proof. vm_compute. done. Qed.

(** What two passes leave in the mirror directory. *)
Example mirror_files :
  (fun f => mf_disk (ex_fs (run_mirror_export_loop paths "0.1.0" "/var/cli.json" [tick; tick] start)) !! path_join "/mirror" f)
    <$> ["active-profile.json"; "grants.json"; "rules.json"; "tui.json"; "cli.json"]
  = [Some "max authority L1Suggest · max trust Ring2"; Some "shown"; None; Some "tui"; Some "{}"].
Proof. vm_compute. reflexivity. Qed.

Definition fs1 : MirrorFs := mkMirrorFs {[ "/var/grants.json" := "junk"; "/mirror/grants.json" := "shown" ]} {[ "/mirror/grants.json" := 0%Z ]}.
Definition metrics1 : PublishMetrics := mkPublishMetrics {[ "grants.json" := (1, 0)%Z ]} {[ "grants.json" := 0%Z ]}.
Definition io1 (_ : string) : ArtifactIo := mkArtifactIo None Written (30 * 10 ^ 9).

Lemma failed_publication_counted_witness :
  publish_domain "/mirror" io1 (fs1, Some metrics1)
    (mkDomain "grants.json" (Some "/var/grants.json") (publish_grants "/mirror" "/var/grants.json" (30 * 10 ^ 9))) =
  (fs1, Some (mkPublishMetrics (<["grants.json" := (2, 0)%Z]> (pu_counts metrics1)) (<["grants.json" := 30%Z]> (pu_last metrics1)))).
Proof.
  apply (failed_publication_counted "/mirror" "/var/grants.json" "junk" "shown" "unsupported" (30 * 10 ^ 9) 0 io1 fs1 metrics1 1 0);
    [vm_compute; reflexivity..|simpl; lia|vm_compute; reflexivity].
Defined.

Definition cli_io (t : Z) (o : CtlOutcome) : CliIo := mkCliIo t false o 7 Written.

Lemma cli_published_valid_witness : cli_ok "{}".
Proof.
  apply (cli_published_valid "/mirror" "/var/cli.json" [cli_io 1 (CtlPrints "{}"); cli_io 2 CtlTimeout] fs0);
    vm_compute; reflexivity.
Defined.

Lemma cli_shell_out_once_witness :
  run_publish_cli "/mirror" "/var/cli.json" [cli_io 1 CtlTimeout; cli_io 2 (CtlPrints "{}")] (mkCliCache None None, fs0)
  = (mkCliCache None (Some None), fs0).
Proof. apply (cli_shell_out_once "/mirror" "/var/cli.json" (cli_io 1 CtlTimeout) [cli_io 2 (CtlPrints "{}")] fs0); vm_compute; reflexivity. Defined.
End MirrorDemo.
