(* ===== verification/Notify.v ===== *)
(** * Notifications: payloads, subscriptions and the chain

    Models crates/selfdef-notifier-orchestrator/src/lib.rs (the payload and
    channel types and the per-channel subscription) and
    crates/selfdef-notifier/src/lib.rs (the rendering helpers, the event-level
    subscription and the first-success-wins chain). What a channel answers is an
    input of each call. *)

From S2P Require Import Prelude Core.
From stdpp Require Import options.

(** ** The orchestrator's types *)

(** [PayloadId] and [EventId] wrap a 128-bit UUID. *)
Record Payload := mkPayload {
  pl_id : Z;
  pl_event_id : option Z;
  pl_title : string;
  pl_body : string;
  pl_severity : SeverityId.t;
  pl_ack_link : option string;
  pl_event_kind : option string;
  pl_ack_token : option string;
}.

Record Subscription := mkSubscription {
  sub_severity_floor : option SeverityId.t;
  sub_event_kinds : list string;
}.

Definition subscription_default : Subscription := mkSubscription None [].

Definition below_floor (severity : SeverityId.t) (floor : option SeverityId.t) : bool :=
  match floor with
  | Some floor => (severity_u32 severity <? severity_u32 floor)%Z
  | None => false
  end.

Definition kind_matches (kinds : list string) (kind : string) : bool :=
  let class := to_ascii_lowercase kind in
  existsb (fun k => contains class (to_ascii_lowercase k)) kinds.

(** [Subscription::matches] of the orchestrator: a payload without a kind passes
    only an empty filter. *)
Definition payload_matches (sub : Subscription) (payload : Payload) : bool :=
  if below_floor (pl_severity payload) (sub_severity_floor sub) then false
  else
    match sub_event_kinds sub with
    | [] => true
    | kinds =>
        match pl_event_kind payload with
        | None => false
        | Some kind => kind_matches kinds kind
        end
    end.

Record DeliveryReceipt := mkDeliveryReceipt { native_message_id : option string }.

Inductive ChannelError :=
| Transport (reason : string)
| Remote (status : Z) (body : string)
| ChannelTimeout
| ChannelOther (reason : string).

Definition channel_error_display (e : ChannelError) : string :=
  match e with
  | Transport r => "transport error: " +:+ r
  | Remote status body => "remote returned " +:+ show_uint status +:+ ": " +:+ body
  | ChannelTimeout => "operation timed out"
  | ChannelOther r => "channel error: " +:+ r
  end.

Module AckReplyHint.
Inductive t := HttpClickLink | NativeButton | TextReply | SlashCommand.
End AckReplyHint.

(** ** The legacy notifier ABI *)

Inductive NotifierError :=
| Http (reason : string)
| NotifierIo (reason : string)
| SignalCli (status : Z) (stderr : string)
| AllChannelsFailed
| NotConfigured.

Definition newline : string := String "010"%char "".

Definition render_title (event : Event) : string :=
  let summary := default "Detection" (head (str_lines (default "Detection" (ev_message event)))) in
  "[" +:+ severity_name (ev_severity_id event) +:+ "] " +:+ summary.

Section render.
Context `{WireFormat}.

Definition render_body (event : Event) : string :=
  match ev_message event with Some msg => msg +:+ newline | None => "" end
  +:+ match ev_src_endpoint event ≫= ep_ip with
      | Some ip => "source: " +:+ show_ip ip +:+ newline
      | None => ""
      end
  +:+ (if bool_decide (ev_attack event = []) then ""
       else "att&ck: " +:+ join ", " (tr_id <$> ev_attack event) +:+ newline)
  +:+ "class: " +:+ class_name (ev_class_uid event) +:+ newline
  +:+ "host:  " +:+ ev_host_tag event +:+ newline
  +:+ "id:    " +:+ uuid_to_string (ev_id event) +:+ newline.
End render.

(** The ntfy priority. *)
Definition priority_for (severity : SeverityId.t) : Z :=
  match severity with
  | SeverityId.Unknown | SeverityId.Informational => 2
  | SeverityId.Low => 3
  | SeverityId.Medium => 4
  | SeverityId.High | SeverityId.Critical | SeverityId.Fatal | SeverityId.Other => 5
  end.

(** [Subscription::matches] of the legacy crate, on events. *)
Definition event_matches (sub : Subscription) (event : Event) : bool :=
  if below_floor (ev_severity_id event) (sub_severity_floor sub) then false
  else
    match sub_event_kinds sub with
    | [] => true
    | kinds => kind_matches kinds (class_name (ev_class_uid event))
    end.

(** ** [NotifierChain] *)

(** A chain is the names and subscriptions of its channels; [answer i] is what
    the [i]-th channel returned. The loop returns its result and the channels
    it called, in order. *)
Definition NotifierChain := list (string * Subscription).

Definition chain_new (inner : list string) : NotifierChain :=
  (fun n => (n, subscription_default)) <$> inner.

Fixpoint chain_loop (inner : NotifierChain) (event : Event) (answer : nat -> result unit NotifierError)
    (i : nat) (tried : nat) : result unit NotifierError * list string :=
  match inner with
  | [] => (if bool_decide (tried = 0) then Ok tt else Err AllChannelsFailed, [])
  | (n, sub) :: inner =>
      if negb (event_matches sub event) then chain_loop inner event answer (S i) tried
      else
        match answer i with
        | Ok _ => (Ok tt, [n])
        | Err _ =>
            let '(r, called) := chain_loop inner event answer (S i) (S tried) in (r, n :: called)
        end
  end.

Definition chain_notify (inner : NotifierChain) (event : Event) (answer : nat -> result unit NotifierError) :
    result unit NotifierError * list string :=
  if bool_decide (inner = []) then (Err NotConfigured, []) else chain_loop inner event answer 0 0.

(** ** Lemmas *)

Lemma below_floor_lt severity floor :
  below_floor severity (Some floor) = severity_lt severity floor.
Proof. done. Qed.

(** The channels that a subscription lets through, with their position. *)
Definition eligible (event : Event) (i : nat) (inner : NotifierChain) : list (nat * string) :=
  omap (fun '(k, (n, sub)) => if event_matches sub event then Some (k, n) else None)
    (imap (fun k x => (i + k, x)) inner).

Lemma eligible_cons event i n sub inner :
  eligible event i ((n, sub) :: inner) =
  (if event_matches sub event then [(i, n)] else []) ++ eligible event (S i) inner.
Proof.
  unfold eligible. rewrite imap_cons. simpl. rewrite Nat.add_0_r.
  assert (Hi : imap ((fun k (x : string * Subscription) => (i + k, x)) ∘ S) inner
    = imap (fun k x => (S i + k, x)) inner).
  { apply imap_ext. intros k x _. simpl. by rewrite Nat.add_succ_r. }
  rewrite Hi. by destruct (event_matches sub event).
Qed.

(** The outcome of trying channels one after the other: those called are the
    ones up to the first that accepts. *)
Fixpoint first_success {E} (l : list (nat * string)) (answer : nat -> result unit E) :
    bool * list string :=
  match l with
  | [] => (false, [])
  | (k, n) :: l =>
      match answer k with
      | Ok _ => (true, [n])
      | Err _ => let '(r, called) := first_success l answer in (r, n :: called)
      end
  end.

Lemma chain_loop_spec event answer inner : forall i tried,
  let '(ok, called) := first_success (eligible event i inner) answer in
  chain_loop inner event answer i tried =
  (if ok then Ok tt
   else if bool_decide (tried + length (eligible event i inner) = 0) then Ok tt
   else Err AllChannelsFailed, called).
Proof.
  induction inner as [|[n sub] inner IH]; intros i tried; [simpl; by rewrite Nat.add_0_r|].
  rewrite eligible_cons. simpl. destruct (event_matches sub event); simpl.
  - destruct (answer i); [done|]. specialize (IH (S i) (S tried)).
    destruct (first_success _ _) as [ok called]. rewrite IH. destruct ok; [done|].
    by rewrite !bool_decide_false by lia.
  - specialize (IH (S i) tried). by destruct (first_success _ _).
Qed.

(** ** Properties *)

(** The notification chain is first-success-wins over the subscribed
    channels. Channels whose subscription rejects the event are never called;
    the others are called in order up to and including the first that accepts;
    the result is success when one accepted or when none was subscribed,
    [AllChannelsFailed] when all that were called failed, and [NotConfigured]
    exactly for the empty chain. *)
Theorem chain_first_success (inner : NotifierChain) (event : Event)
    (answer : nat -> result unit NotifierError) :
  let '(ok, called) := first_success (eligible event 0 inner) answer in
  chain_notify inner event answer =
  (if bool_decide (inner = []) then Err NotConfigured
   else if ok || bool_decide (eligible event 0 inner = []) then Ok tt
   else Err AllChannelsFailed, called).
Proof.
  unfold chain_notify. case_bool_decide; [by subst|].
  pose proof (chain_loop_spec event answer inner 0 0) as Hc.
  destruct (first_success _ _) as [ok called]. rewrite Hc. destruct ok; simpl; [done|].
  repeat case_bool_decide; try done; destruct (eligible event 0 inner); simpl in *; done || lia.
Qed.
