(* ===== verification/Escalation.v ===== *)
(** * The escalation engine

    Models crates/selfdef-notifier-engine/src/lib.rs: the SQLite table of pending
    escalations and every operation on it. Each operation of the code is one
    SQLite transaction; it is a function on the table here, with the failures
    that depend on the table (a token already taken, a row that does not
    convert) as results. Failures of the database itself (disk, lock) leave the
    table unchanged and are added where operations are composed.

    SQLite is third-party: [SqlEngine] gives the order in which a query meets
    rows that its ORDER BY does not separate, and which of two violated
    uniqueness constraints an upsert reports; [UuidText] the text form of
    UUIDs. *)

From S2P Require Import Prelude Core Notify.
From stdpp Require Import options.

(** ** The table *)

(** A row of [notification_escalations], under its primary key [event_id]. *)
Record Row := mkRow {
  row_payload_id : string;
  row_title : string;
  row_body : string;
  row_severity : Z;
  row_ack_link : option string;
  row_rung_index : Z;
  row_deadline_at : Z;
  row_acked_at : option Z;
  row_created_at : Z;
  row_event_kind : option string;
  row_ack_token : string;
}.

#[export] Instance row_eq_dec : EqDecision Row.
Proof. solve_decision. Defined.

Abbreviation Table := (gmap string Row).

Class SqlEngine := {
  scan : Table -> list (string * Row);
  scan_perm t : Permutation (scan t) (map_to_list t);
  upsert_checks_token_first : bool;
}.

Class UuidText := {
  uuid_text : Z -> string;
  uuid_parse_str : string -> result Z string;
  uuid_parse_text u : uuid_parse_str (uuid_text u) = Ok u;
}.

Inductive EngineError :=
| Sqlite (reason : string)
| EngineJoin (reason : string)
| EngineIo (reason : string)
| PayloadMissingEventId
| UnknownSeverity (v : Z)
| SchemaTooNew (found supported : Z).

Record PendingEscalation := mkPending {
  pe_event_id : Z;
  pe_payload_id : Z;
  pe_title : string;
  pe_body : string;
  pe_severity : SeverityId.t;
  pe_ack_link : option string;
  pe_rung_index : Z;
  pe_deadline_at : Z;
  pe_event_kind : option string;
  pe_ack_token : string;
}.

Definition ENGINE_SCHEMA_VERSION : Z := 3.

(** Updates of one column. *)
Definition set_acked (t : option Z) (r : Row) : Row :=
  mkRow (row_payload_id r) (row_title r) (row_body r) (row_severity r) (row_ack_link r)
    (row_rung_index r) (row_deadline_at r) t (row_created_at r) (row_event_kind r) (row_ack_token r).
Definition set_deadline (d : Z) (r : Row) : Row :=
  mkRow (row_payload_id r) (row_title r) (row_body r) (row_severity r) (row_ack_link r)
    (row_rung_index r) d (row_acked_at r) (row_created_at r) (row_event_kind r) (row_ack_token r).
Definition set_rung (n : Z) (r : Row) : Row :=
  mkRow (row_payload_id r) (row_title r) (row_body r) (row_severity r) (row_ack_link r)
    n (row_deadline_at r) (row_acked_at r) (row_created_at r) (row_event_kind r) (row_ack_token r).

Definition pending (r : Row) : bool := bool_decide (row_acked_at r = None).

(** Whether a row other than [event_id] holds the token: the UNIQUE index. *)
Definition token_taken (t : Table) (event_id token : string) : bool :=
  bool_decide (map_Exists (fun k r => k <> event_id /\ row_ack_token r = token) t).

Definition UNIQUE_FAILED : EngineError :=
  Sqlite "UNIQUE constraint failed: notification_escalations.ack_token".

Definition severity_from_u32 (v : Z) : result SeverityId.t EngineError :=
  match v with
  | 0 => Ok SeverityId.Unknown
  | 1 => Ok SeverityId.Informational
  | 2 => Ok SeverityId.Low
  | 3 => Ok SeverityId.Medium
  | 4 => Ok SeverityId.High
  | 5 => Ok SeverityId.Critical
  | 6 => Ok SeverityId.Fatal
  | 99 => Ok SeverityId.Other
  | n => Err (UnknownSeverity n)
  end%Z.

Section engine_ops.
Context `{SqlEngine} `{UuidText}.

Definition parse_uuid (s : string) : result Z EngineError :=
  match uuid_parse_str s with
  | Ok u => Ok u
  | Err e => Err (Sqlite e)
  end.

(** ** Operations *)

(** [enqueue]: an upsert. A known event restarts at rung 0 unacked and keeps
    its token and its creation time; [minted] is the token drawn for a payload
    that carries none. *)
Definition enqueue (payload : Payload) (deadline_at now : Z) (minted : string) (t : Table) :
    result unit EngineError * Table :=
  match pl_event_id payload with
  | None => (Err PayloadMissingEventId, t)
  | Some event_id =>
      let key := uuid_text event_id in
      let token := default minted (pl_ack_token payload) in
      let row created token := {|
        row_payload_id := uuid_text (pl_id payload); row_title := pl_title payload;
        row_body := pl_body payload; row_severity := severity_u32 (pl_severity payload);
        row_ack_link := pl_ack_link payload; row_rung_index := 0; row_deadline_at := deadline_at;
        row_acked_at := None; row_created_at := created; row_event_kind := pl_event_kind payload;
        row_ack_token := token |} in
      match t !! key with
      | Some old =>
          if upsert_checks_token_first && token_taken t key token then (Err UNIQUE_FAILED, t)
          else (Ok tt, <[key := row (row_created_at old) (row_ack_token old)]> t)
      | None =>
          if token_taken t key token then (Err UNIQUE_FAILED, t)
          else (Ok tt, <[key := row now token]> t)
      end
  end.

(** [UPDATE ... WHERE event_id = ? AND cond]: whether a row changed. *)
Definition update_where (event_id : Z) (cond : Row -> bool) (f : Row -> Row) (t : Table) : bool * Table :=
  let key := uuid_text event_id in
  match t !! key with
  | Some r => if cond r then (true, <[key := f r]> t) else (false, t)
  | None => (false, t)
  end.

Definition record_ack (event_id acked_at : Z) (t : Table) : bool * Table :=
  update_where event_id pending (set_acked (Some acked_at)) t.

(** [record_ack_by_token]: the update and the read of the same row; the token
    index is unique, so at most one row has it. *)
Definition find_token (token : string) (t : Table) : option (string * Row) :=
  List.find (fun kr => bool_decide (row_ack_token kr.2 = token)) (scan t).

Definition record_ack_by_token (token : string) (acked_at : Z) (t : Table) :
    result (option (Z * string)) EngineError * Table :=
  match find_token token t with
  | Some (key, r) =>
      if pending r then
        (let? id := parse_uuid key in Ok (Some (id, row_title r)),
         <[key := set_acked (Some acked_at) r]> t)
      else (Ok None, t)
  | None => (Ok None, t)
  end.

Definition lookup_or_mint_token (event_id : Z) (minted : string) (t : Table) : string :=
  match t !! uuid_text event_id with
  | Some r => row_ack_token r
  | None => minted
  end.

Definition close_event (event_id : Z) (t : Table) : bool * Table :=
  let key := uuid_text event_id in
  (bool_decide (is_Some (t !! key)), delete key t).

Definition reschedule_now (event_id now : Z) (t : Table) : bool * Table :=
  update_where event_id pending (set_deadline now) t.

Definition advance_rung (event_id new_rung new_deadline : Z) (t : Table) : bool * Table :=
  update_where event_id (fun r => pending r && (row_rung_index r <? new_rung)%Z)
    (fun r => set_deadline new_deadline (set_rung new_rung r)) t.

(** [SELECT MIN(deadline_at) ... WHERE acked_at IS NULL]. *)
Definition next_pending_at (t : Table) : option Z :=
  foldr (fun kr acc => if pending kr.2
                       then Some (match acc with Some d => Z.min (row_deadline_at kr.2) d
                                               | None => row_deadline_at kr.2 end)
                       else acc) None (scan t).

Definition due (now : Z) (kr : string * Row) : bool :=
  pending kr.2 && (row_deadline_at kr.2 <=? now)%Z.

Definition row_of (kr : string * Row) : result PendingEscalation EngineError :=
  let r := kr.2 in
  let? event_id := parse_uuid kr.1 in
  let? payload_id := parse_uuid (row_payload_id r) in
  let? severity := severity_from_u32 (row_severity r) in
  Ok {| pe_event_id := event_id; pe_payload_id := payload_id; pe_title := row_title r;
        pe_body := row_body r; pe_severity := severity; pe_ack_link := row_ack_link r;
        pe_rung_index := row_rung_index r; pe_deadline_at := row_deadline_at r;
        pe_event_kind := row_event_kind r; pe_ack_token := row_ack_token r |}.

Fixpoint rows_of (l : list (string * Row)) : result (list PendingEscalation) EngineError :=
  match l with
  | [] => Ok []
  | kr :: l => let? row := row_of kr in let? rows := rows_of l in Ok (row :: rows)
  end.

Definition deadline_le (a b : string * Row) : Prop := (row_deadline_at a.2 <= row_deadline_at b.2)%Z.

#[local] Instance deadline_le_dec : RelDecision deadline_le.
Proof. intros a b. unfold deadline_le. apply _. Defined.

(** The rows the query selects, oldest deadline first, at most [limit]. *)
Definition due_rows (now : Z) (limit : nat) (t : Table) : list (string * Row) :=
  take limit (merge_sort deadline_le (filter (fun kr => due now kr = true) (scan t))).

Definition take_due (now : Z) (limit : nat) (t : Table) : result (list PendingEscalation) EngineError :=
  rows_of (due_rows now limit t).

Definition row_count (t : Table) : nat := size t.
End engine_ops.

(** ** Well-formed tables *)

Section engine_facts.
Context `{SqlEngine} `{UuidText}.

Definition valid_severity (v : Z) : Prop := is_ok (severity_from_u32 v) = true.

(** A row that [take_due] can convert. *)
Definition row_wf (key : string) (r : Row) : Prop :=
  (exists u, key = uuid_text u) /\ (exists u, row_payload_id r = uuid_text u) /\
  valid_severity (row_severity r) /\ (0 <= row_rung_index r)%Z.

(** Convertible rows and the UNIQUE index on tokens. *)
Definition table_wf (t : Table) : Prop :=
  map_Forall row_wf t /\
  forall k1 k2 r1 r2, t !! k1 = Some r1 -> t !! k2 = Some r2 ->
    row_ack_token r1 = row_ack_token r2 -> k1 = k2.

#[export] Instance uuid_text_inj : Inj (=) (=) uuid_text.
Proof.
  intros u v E. assert (Ok u = (Ok v : result Z string)) as [= ->]; [|done].
  by rewrite <-!uuid_parse_text, E.
Qed.

Lemma parse_uuid_text u : parse_uuid (uuid_text u) = Ok u.
Proof. unfold parse_uuid. by rewrite uuid_parse_text. Qed.

Lemma severity_roundtrip s : severity_from_u32 (severity_u32 s) = Ok s.
Proof. by destruct s. Qed.

Lemma elem_of_scan t k r : (k, r) ∈ scan t <-> t !! k = Some r.
Proof. by rewrite scan_perm, elem_of_map_to_list. Qed.

Lemma scan_NoDup t : NoDup (scan t).*1.
Proof. rewrite scan_perm. apply NoDup_fst_map_to_list. Qed.

Lemma token_taken_spec t key token :
  token_taken t key token = true <->
  exists k r, t !! k = Some r /\ k <> key /\ row_ack_token r = token.
Proof.
  unfold token_taken. rewrite bool_decide_eq_true. split.
  - intros (k & r & ? & ? & ?). eauto.
  - intros (k & r & ? & ? & ?). exists k, r. auto.
Qed.

(** A change of one row that keeps its token keeps the table well formed. *)
Lemma table_wf_update t key r r' :
  t !! key = Some r -> row_ack_token r' = row_ack_token r -> row_wf key r' ->
  table_wf t -> table_wf (<[key := r']> t).
Proof.
  intros Hk Htok Hr [Hrows Huniq]. split; [by apply map_Forall_insert_2|].
  intros k1 k2 r1 r2 [(<- & <-)|[? ?]]%lookup_insert_Some [(<- & <-)|[? ?]]%lookup_insert_Some;
    intros E; eauto; eapply Huniq; eauto; congruence.
Qed.

Lemma update_where_wf event_id cond f t :
  (forall r, row_ack_token (f r) = row_ack_token r) ->
  (forall k r, cond r = true -> row_wf k r -> row_wf k (f r)) ->
  table_wf t -> table_wf (update_where event_id cond f t).2.
Proof.
  intros Htok Hf Hwf. unfold update_where. destruct (t !! _) as [r|] eqn:E; [|done].
  destruct (cond r) eqn:Ec; [|done]. simpl. eapply table_wf_update; [done|by apply Htok| |done].
  apply Hf; [done|]. by apply (proj1 Hwf).
Qed.

Lemma find_token_Some token t key r :
  find_token token t = Some (key, r) -> t !! key = Some r /\ row_ack_token r = token.
Proof.
  intros [Hin%list_elem_of_In Ht]%List.find_some. rewrite elem_of_scan in Hin.
  by apply bool_decide_eq_true in Ht.
Qed.

Lemma find_token_None token t key r :
  find_token token t = None -> t !! key = Some r -> row_ack_token r <> token.
Proof.
  intros Hf Hk%elem_of_scan%list_elem_of_In Ht. eapply List.find_none in Hf; [|exact Hk].
  by apply bool_decide_eq_false in Hf.
Qed.

(** With unique tokens the search is exact. *)
Lemma find_token_unique token t key r :
  table_wf t -> t !! key = Some r -> row_ack_token r = token -> find_token token t = Some (key, r).
Proof.
  intros [_ Huniq] Hk Ht. destruct (find_token token t) as [[k' r']|] eqn:E.
  - apply find_token_Some in E as [Hk' Ht']. assert (k' = key) as -> by (eapply Huniq; [done..|congruence]).
    by simplify_eq.
  - by eapply find_token_None in E; [|exact Hk].
Qed.

Lemma enqueue_wf payload deadline now minted t :
  table_wf t -> table_wf (enqueue payload deadline now minted t).2.
Proof.
  intros Hwf. unfold enqueue. destruct (pl_event_id payload) as [id|]; [|done].
  assert (Hrow : forall created token, row_wf (uuid_text id)
    {| row_payload_id := uuid_text (pl_id payload); row_title := pl_title payload;
       row_body := pl_body payload; row_severity := severity_u32 (pl_severity payload);
       row_ack_link := pl_ack_link payload; row_rung_index := 0; row_deadline_at := deadline;
       row_acked_at := None; row_created_at := created; row_event_kind := pl_event_kind payload;
       row_ack_token := token |}).
  { intros. split_and!; simpl; [by eauto|by eauto| |lia]. unfold valid_severity. by rewrite severity_roundtrip. }
  destruct (t !! uuid_text id) as [old|] eqn:E.
  - destruct (_ && _); [done|]. simpl. by eapply table_wf_update.
  - destruct (token_taken _ _ _) eqn:Et; [done|]. simpl. destruct Hwf as [Hrows Huniq].
    split; [apply map_Forall_insert_2; [apply Hrow|done]|].
    assert (Hfree : forall k r, t !! k = Some r -> row_ack_token r <> default minted (pl_ack_token payload)).
    { intros k r Hk Htok. apply not_true_iff_false in Et. apply Et, token_taken_spec.
      exists k, r. split_and!; [done|congruence|done]. }
    intros k1 k2 r1 r2 [(<- & <-)|[? ?]]%lookup_insert_Some [(<- & <-)|[? ?]]%lookup_insert_Some;
      simpl; intros Htok; eauto; exfalso; by eapply Hfree.
Qed.

Lemma record_ack_wf id acked t : table_wf t -> table_wf (record_ack id acked t).2.
Proof. by apply update_where_wf. Qed.

Lemma reschedule_now_wf id now t : table_wf t -> table_wf (reschedule_now id now t).2.
Proof. by apply update_where_wf. Qed.

Lemma advance_rung_wf id rung deadline t : table_wf t -> table_wf (advance_rung id rung deadline t).2.
Proof.
  apply update_where_wf; [done|]. intros k r [_ Hlt%Z.ltb_lt]%andb_true_iff (?&?&?&?).
  split_and!; simpl; try done. lia.
Qed.

Lemma close_event_wf id t : table_wf t -> table_wf (close_event id t).2.
Proof.
  intros [Hrows Huniq]. split; simpl.
  - intros k r Hk. apply lookup_delete_Some in Hk as [_ Hk]. by apply Hrows.
  - intros k1 k2 r1 r2 [_ ?]%lookup_delete_Some [_ ?]%lookup_delete_Some. eauto.
Qed.

Lemma record_ack_by_token_wf token acked t : table_wf t -> table_wf (record_ack_by_token token acked t).2.
Proof.
  intros Hwf. unfold record_ack_by_token. destruct (find_token token t) as [[k r]|] eqn:E; [|done].
  destruct (pending r); [|done]. apply find_token_Some in E as [Hk _]. simpl.
  eapply table_wf_update; [done|done| |done]. exact (proj1 Hwf k r Hk).
Qed.

(** ** Due rows *)

Lemma rows_of_wf l :
  Forall (fun kr => row_wf kr.1 kr.2) l ->
  exists rows, rows_of l = Ok rows /\
    Forall2 (fun kr pe => kr.1 = uuid_text (pe_event_id pe) /\ row_of kr = Ok pe) l rows.
Proof.
  induction 1 as [|[k r] l [(u & Hu) [(p & Hp) [Hs _]]] _ IH]; simpl in *; [by exists []|]. subst k.
  destruct IH as (rows & -> & Hf). unfold row_of in *. simpl.
  rewrite parse_uuid_text, Hp, parse_uuid_text. unfold valid_severity in Hs. simpl.
  destruct (severity_from_u32 (row_severity r)) as [sev|] eqn:Esev; [|done]. simpl.
  eexists. split; [done|]. constructor; [|done]. simpl. split; [done|].
  by rewrite parse_uuid_text, Hp, parse_uuid_text, Esev.
Qed.

Lemma row_of_columns kr pe :
  row_of kr = Ok pe -> row_deadline_at kr.2 = pe_deadline_at pe /\
  row_rung_index kr.2 = pe_rung_index pe /\ row_ack_token kr.2 = pe_ack_token pe.
Proof.
  unfold row_of. destruct (parse_uuid kr.1); [|done]. simpl. destruct (parse_uuid _); [|done]. simpl.
  destruct (severity_from_u32 _); [|done]. intros. by simplify_eq/=.
Qed.

Lemma due_rows_elem now limit t k r :
  (k, r) ∈ due_rows now limit t -> t !! k = Some r /\ due now (k, r) = true.
Proof.
  unfold due_rows. intros Hin%elem_of_take. destruct Hin as (i & Hin & _).
  apply list_elem_of_lookup_2 in Hin. rewrite merge_sort_Permutation, list_elem_of_filter, elem_of_scan in Hin.
  tauto.
Qed.

#[local] Instance deadline_le_dec' : RelDecision deadline_le := deadline_le_dec.

#[local] Instance deadline_le_total : Total deadline_le.
Proof. intros a b. unfold deadline_le. lia. Qed.

#[local] Instance deadline_le_trans : Transitive deadline_le.
Proof. intros a b c. unfold deadline_le. lia. Qed.

Lemma due_sorted now t :
  StronglySorted deadline_le (merge_sort deadline_le (filter (fun kr => due now kr = true) (scan t))).
Proof. apply StronglySorted_merge_sort; apply _. Qed.

(** What the query promises: due rows only, sorted, no more than the limit, and
    a due row left out is no older than any row returned and the limit was hit. *)
Lemma due_rows_spec now limit t :
  StronglySorted deadline_le (due_rows now limit t) /\ length (due_rows now limit t) <= limit /\
  NoDup (due_rows now limit t).*1 /\
  (forall k r, (k, r) ∈ due_rows now limit t -> t !! k = Some r /\ due now (k, r) = true) /\
  (forall k r, t !! k = Some r -> due now (k, r) = true -> (k, r) ∉ due_rows now limit t ->
     length (due_rows now limit t) = limit /\
     Forall (fun kr => row_deadline_at kr.2 <= row_deadline_at r)%Z (due_rows now limit t)).
Proof.
  pose proof (due_sorted now t) as Hs. split_and!.
  - unfold due_rows. apply StronglySorted_app_1_l with (drop limit (merge_sort deadline_le
      (filter (fun kr => due now kr = true) (scan t)))). by rewrite take_drop.
  - unfold due_rows. rewrite length_take. lia.
  - unfold due_rows. eapply sublist_NoDup; [|apply fmap_sublist, sublist_take].
    rewrite merge_sort_Permutation. eapply sublist_NoDup; [|apply fmap_sublist, sublist_filter].
    apply scan_NoDup.
  - apply due_rows_elem.
  - intros k r Hk Hd Hnot. unfold due_rows in *. set (l := merge_sort _ _) in *.
    assert (Hin : (k, r) ∈ l).
    { unfold l. rewrite merge_sort_Permutation, list_elem_of_filter, elem_of_scan. done. }
    rewrite <-(take_drop limit l) in Hin. apply elem_of_app in Hin as [?|Hdrop]; [done|]. split.
    + rewrite length_take. destruct (decide (limit <= length l)); [lia|].
      rewrite drop_ge in Hdrop by lia. by apply elem_of_nil in Hdrop.
    + apply Forall_forall. intros kr Hkr. rewrite <-(take_drop limit l) in Hs.
      by eapply (StronglySorted_app_1_elem_of _ _ _ kr (k, r) Hs).
Qed.

(** ** The earliest deadline *)

Lemma next_pending_spec t :
  match next_pending_at t with
  | Some d => (exists k r, t !! k = Some r /\ pending r = true /\ row_deadline_at r = d) /\
      forall k r, t !! k = Some r -> pending r = true -> (d <= row_deadline_at r)%Z
  | None => forall k r, t !! k = Some r -> pending r = false
  end.
Proof.
  assert (Hgen : forall l : list (string * Row), match foldr (fun kr acc => if pending kr.2
      then Some (match acc with Some d => Z.min (row_deadline_at kr.2) d | None => row_deadline_at kr.2 end)
      else acc) None l with
    | Some d => (exists k r, (k, r) ∈ l /\ pending r = true /\ row_deadline_at r = d) /\
        forall k r, (k, r) ∈ l -> pending r = true -> (d <= row_deadline_at r)%Z
    | None => forall k r, (k, r) ∈ l -> pending r = false
    end).
  { induction l as [|[k0 r0] l IH]; simpl; [by intros k r ?%elem_of_nil|].
    destruct (pending r0) eqn:E0.
    - destruct (foldr _ None l) as [d|].
      + destruct IH as [(k & r & Hin & Hp & Hd) Hmin]. split.
        * destruct (Z.min_spec (row_deadline_at r0) d) as [[_ ->]|[_ ->]];
            [exists k0, r0|exists k, r]; (split_and!; [by constructor|done|done]).
        * intros k' r' [[= -> ->]|Hin']%elem_of_cons Hp'; [lia|]. specialize (Hmin _ _ Hin' Hp'). lia.
      + split; [exists k0, r0; split_and!; [by constructor|done|done]|].
        intros k' r' [[= -> ->]|Hin']%elem_of_cons Hp'; [lia|]. apply IH in Hin'. congruence.
    - destruct (foldr _ None l) as [d|].
      + destruct IH as [(k & r & Hin & Hp & Hd) Hmin]. split; [exists k, r; split_and!; [by constructor|done|done]|].
        intros k' r' [[= -> ->]|Hin']%elem_of_cons Hp'; [congruence|by eapply Hmin].
      + intros k' r' [[= -> ->]|Hin']%elem_of_cons; [done|by eapply IH]. }
  unfold next_pending_at. specialize (Hgen (scan t)). destruct (foldr _ None (scan t)) as [d|].
  - destruct Hgen as [(k & r & Hin & ?) Hmin]. rewrite elem_of_scan in Hin. split; [by exists k, r|].
    intros k' r' Hk'%elem_of_scan. by eapply Hmin.
  - intros k r Hk%elem_of_scan. by eapply Hgen.
Qed.
End engine_facts.

#[export] Hint Resolve enqueue_wf record_ack_wf record_ack_by_token_wf close_event_wf
  reschedule_now_wf advance_rung_wf : selfdef.

(** ** Sequences of operations *)

Inductive EngineOp :=
| OpEnqueue (payload : Payload) (deadline_at now : Z) (minted : string)
| OpAck (event_id acked_at : Z)
| OpAckToken (token : string) (acked_at : Z)
| OpClose (event_id : Z)
| OpReschedule (event_id now : Z)
| OpAdvance (event_id new_rung new_deadline : Z).

Section sequences.
Context `{SqlEngine} `{UuidText}.

Definition apply_op (op : EngineOp) (t : Table) : Table :=
  match op with
  | OpEnqueue payload deadline_at now minted => (enqueue payload deadline_at now minted t).2
  | OpAck id acked_at => (record_ack id acked_at t).2
  | OpAckToken token acked_at => (record_ack_by_token token acked_at t).2
  | OpClose id => (close_event id t).2
  | OpReschedule id now => (reschedule_now id now t).2
  | OpAdvance id rung deadline => (advance_rung id rung deadline t).2
  end.

Definition apply_ops (ops : list EngineOp) (t : Table) : Table := foldl (fun t op => apply_op op t) t ops.

(** An operation that (re)submits or forgets the event. *)
Definition submits (id : Z) (op : EngineOp) : Prop :=
  match op with OpEnqueue payload _ _ _ => pl_event_id payload = Some id | _ => False end.
Definition closes (id : Z) (op : EngineOp) : Prop :=
  match op with OpClose id' => id' = id | _ => False end.

#[export] Instance closes_dec id op : Decision (closes id op).
Proof. destruct op; simpl; apply _. Defined.

#[export] Instance submits_dec id op : Decision (submits id op).
Proof. destruct op; simpl; apply _. Defined.

Lemma apply_op_wf op t : table_wf t -> table_wf (apply_op op t).
Proof.
  destruct op; cbn [apply_op]; auto with selfdef.
Qed.

Lemma apply_ops_wf ops : forall t, table_wf t -> table_wf (apply_ops ops t).
Proof. induction ops as [|op ops IH]; intros t Hwf; [done|]. simpl. by apply IH, apply_op_wf. Qed.

Lemma table_wf_empty : table_wf ∅.
Proof. split; [apply map_Forall_empty|]. intros. by simplify_map_eq. Qed.

Lemma update_where_lookup id id' cond f t :
  (update_where id cond f t).2 !! uuid_text id' =
  if bool_decide (id = id') then (fun r => if cond r then f r else r) <$> t !! uuid_text id'
  else t !! uuid_text id'.
Proof.
  unfold update_where. case_bool_decide as Hid; [subst|].
  - destruct (t !! uuid_text id') as [r|] eqn:E; simpl; [|done].
    destruct (cond r); simpl; [by rewrite lookup_insert_eq|done].
  - destruct (t !! uuid_text id) as [r|] eqn:E; simpl; [|done].
    destruct (cond r); simpl; [|done]. rewrite lookup_insert_ne; [done|]. by intros ?%(inj uuid_text).
Qed.

(** What an operation does to the row of an event that it neither submits nor
    closes: token, creation and payload stay, an ack stays, the rung never
    goes down. *)
Definition row_step (r r' : Row) : Prop :=
  row_ack_token r' = row_ack_token r /\ row_payload_id r' = row_payload_id r /\
  row_title r' = row_title r /\ (row_rung_index r <= row_rung_index r')%Z /\
  (pending r = false -> r' = r).

Lemma row_step_refl r : row_step r r.
Proof. unfold row_step. split_and!; try done. Qed.

Lemma row_step_trans r1 r2 r3 : row_step r1 r2 -> row_step r2 r3 -> row_step r1 r3.
Proof.
  intros (T1 & P1 & I1 & R1 & A1) (T2 & P2 & I2 & R2 & A2). unfold row_step.
  split_and!; try congruence; try lia. intros Hp. specialize (A1 Hp). subst. by apply A2.
Qed.

Lemma update_where_step id id' cond f t r :
  (forall r, cond r = true -> row_step r (f r)) -> t !! uuid_text id' = Some r ->
  exists r', (update_where id cond f t).2 !! uuid_text id' = Some r' /\ row_step r r'.
Proof.
  intros Hf Hr. rewrite update_where_lookup, Hr. simpl. case_bool_decide; [|eauto using row_step_refl].
  eexists. split; [done|]. destruct (cond r) eqn:E; auto using row_step_refl.
Qed.

Lemma pending_step f :
  (forall r, row_ack_token (f r) = row_ack_token r /\ row_payload_id (f r) = row_payload_id r /\
     row_title (f r) = row_title r /\ (row_rung_index r <= row_rung_index (f r))%Z) ->
  forall r, pending r = true -> row_step r (f r).
Proof. intros Hf r Hp. destruct (Hf r) as (? & ? & ? & ?). unfold row_step. split_and!; congruence || done. Qed.

Lemma apply_op_step id op t r :
  table_wf t -> t !! uuid_text id = Some r -> ~ submits id op -> ~ closes id op ->
  exists r', apply_op op t !! uuid_text id = Some r' /\ row_step r r'.
Proof.
  intros Hwf Hr Hs Hc. destruct op as [p d n m|id' ac|token ac|id'|id' n|id' rung d]; simpl in *.
  - exists r. split; [|apply row_step_refl]. unfold enqueue. destruct (pl_event_id p) as [id'|]; [|done].
    assert (uuid_text id' <> uuid_text id) by (intros ?%(inj uuid_text); congruence).
    destruct (t !! uuid_text id') as [old|]; [destruct (_ && _)|destruct (token_taken _ _ _)]; simpl; try done;
      by rewrite lookup_insert_ne.
  - apply update_where_step; [|done]. by apply pending_step.
  - unfold record_ack_by_token. destruct (find_token token t) as [[k r']|] eqn:E;
      [|eauto using row_step_refl]. apply find_token_Some in E as [Hk Ht].
    destruct (pending r') eqn:Hp; [|eauto using row_step_refl]. simpl.
    destruct (decide (k = uuid_text id)) as [->|].
    + simplify_eq. rewrite lookup_insert_eq. eexists. split; [done|]. by apply (pending_step (set_acked (Some ac))).
    + rewrite lookup_insert_ne by done. eauto using row_step_refl.
  - rewrite lookup_delete_ne; [eauto using row_step_refl|]. intros ?%(inj uuid_text). by destruct Hc.
  - apply update_where_step; [|done]. by apply pending_step.
  - apply update_where_step; [|done]. intros r0 [Hp Hlt%Z.ltb_lt]%andb_true_iff.
    unfold row_step. split_and!; simpl; congruence || lia || done.
Qed.

Lemma apply_ops_step id ops : forall t r,
  table_wf t -> t !! uuid_text id = Some r -> Forall (fun op => ~ submits id op) ops ->
  Forall (fun op => ~ closes id op) ops ->
  exists r', apply_ops ops t !! uuid_text id = Some r' /\ row_step r r'.
Proof.
  induction ops as [|op ops IH]; intros t r Hwf Hr Hs Hc; [eauto using row_step_refl|].
  inv Hs. inv Hc. destruct (apply_op_step id op t r) as (r1 & Hr1 & Hstep); [done..|].
  destruct (IH (apply_op op t) r1) as (r2 & Hr2 & Hstep2); [by apply apply_op_wf|done..|].
  exists r2. split; [done|]. by eapply row_step_trans.
Qed.

(** The row is gone or acked. *)
Definition settled (id : Z) (t : Table) : Prop :=
  match t !! uuid_text id with Some r => pending r = false | None => True end.

Lemma apply_op_settled id op t :
  table_wf t -> settled id t -> ~ submits id op -> settled id (apply_op op t).
Proof.
  intros Hwf Hset Hs. unfold settled in *.
  destruct (decide (closes id op)) as [Hc|Hc].
  { destruct op; simpl in *; try done. subst. by rewrite lookup_delete_eq. }
  destruct (t !! uuid_text id) as [r|] eqn:E.
  - destruct (apply_op_step id op t r Hwf E Hs Hc) as (r' & -> & (_ & _ & _ & _ & Hk)). by rewrite (Hk Hset).
  - destruct op as [p d n m|id' ac|token ac|id'|id' n|id' rung d]; simpl in *.
    + unfold enqueue. destruct (pl_event_id p) as [id'|]; [|by simpl; rewrite E].
      assert (uuid_text id' <> uuid_text id) by (intros ?%(inj uuid_text); congruence).
      destruct (t !! uuid_text id') as [old|]; [destruct (_ && _)|destruct (token_taken _ _ _)]; simpl;
        rewrite ?lookup_insert_ne by done; by rewrite E.
    + unfold record_ack. rewrite update_where_lookup, E. by case_bool_decide.
    + unfold record_ack_by_token. destruct (find_token token t) as [[k r']|] eqn:Ef; [|by simpl; rewrite E].
      apply find_token_Some in Ef as [Hk _]. destruct (pending r'); [|by simpl; rewrite E]. simpl.
      rewrite lookup_insert_ne by congruence. by rewrite E.
    + destruct (decide (uuid_text id' = uuid_text id)) as [->|]; [by rewrite lookup_delete_eq|].
      by rewrite lookup_delete_ne, E.
    + unfold reschedule_now. rewrite update_where_lookup, E. by case_bool_decide.
    + unfold advance_rung. rewrite update_where_lookup, E. by case_bool_decide.
Qed.

Lemma apply_ops_settled id ops : forall t,
  table_wf t -> settled id t -> Forall (fun op => ~ submits id op) ops -> settled id (apply_ops ops t).
Proof.
  induction ops as [|op ops IH]; intros t Hwf Hset Hs; [done|]. inv Hs. simpl.
  apply IH; [by apply apply_op_wf|by apply apply_op_settled|done].
Qed.
End sequences.

(** ** [take_due] in terms of the selected rows *)

Section take_due_facts.
Context `{SqlEngine} `{UuidText}.

Definition converts (kr : string * Row) (pe : PendingEscalation) : Prop :=
  kr.1 = uuid_text (pe_event_id pe) /\ row_deadline_at kr.2 = pe_deadline_at pe /\
  row_rung_index kr.2 = pe_rung_index pe /\ row_ack_token kr.2 = pe_ack_token pe.

Lemma take_due_rows now limit t :
  table_wf t ->
  exists rows, take_due now limit t = Ok rows /\ Forall2 converts (due_rows now limit t) rows.
Proof.
  intros Hwf. destruct (rows_of_wf (due_rows now limit t)) as (rows & Hr & Hf).
  { apply Forall_forall. intros [k r] [Ht _]%due_rows_elem. by apply (proj1 Hwf). }
  exists rows. split; [done|]. eapply Forall2_impl; [exact Hf|].
  intros kr pe [Hk Hrow]. split; [done|]. by apply row_of_columns.
Qed.

Lemma converts_keys l rows : Forall2 converts l rows -> l.*1 = uuid_text <$> (pe_event_id <$> rows).
Proof. induction 1 as [|kr pe ? ? [Hk _]]; [done|]. csimpl. by f_equal. Qed.

(** The events of the result are those of the selected rows. *)
Lemma converts_elem l rows id :
  Forall2 converts l rows -> id ∈ pe_event_id <$> rows <-> exists r, (uuid_text id, r) ∈ l.
Proof.
  intros Hkeys%converts_keys. split.
  - intros Hid. apply (list_elem_of_fmap_2 uuid_text) in Hid. rewrite <-Hkeys in Hid.
    apply list_elem_of_fmap in Hid as ([k r] & Hk & ?). simpl in Hk. subst k. by exists r.
  - intros (r & Hin). apply (list_elem_of_fmap_2 fst) in Hin. rewrite Hkeys in Hin. simpl in Hin.
    by apply list_elem_of_fmap in Hin as (id' & ->%(inj uuid_text) & ?).
Qed.

(** A table that fits into the limit is selected completely. *)
Lemma due_rows_complete now limit t k r :
  size t <= limit -> t !! k = Some r -> due now (k, r) = true -> (k, r) ∈ due_rows now limit t.
Proof.
  intros Hsize Hk Hd. destruct (decide ((k, r) ∈ due_rows now limit t)) as [|Hno]; [done|]. exfalso.
  destruct (due_rows_spec now limit t) as (_ & _ & Hnd & Hin & Hout).
  destruct (Hout _ _ Hk Hd Hno) as [Hlen _].
  assert (Hsub : length ((k, r) :: due_rows now limit t) <= size t); [|simpl in Hsub; lia].
  rewrite <-length_map_to_list. apply submseteq_length, NoDup_submseteq.
  - constructor; [done|]. by eapply (NoDup_fmap_1 fst).
  - intros [k0 r0] [[= -> ->]|Hk0]%elem_of_cons; apply elem_of_map_to_list; [done|]. by apply Hin.
Qed.

Lemma converts_bound l rows d :
  Forall2 converts l rows -> Forall (fun kr => row_deadline_at kr.2 <= d)%Z l ->
  Forall (fun pe => pe_deadline_at pe <= d)%Z rows.
Proof. induction 1 as [|kr pe ? ? (_ & Hd & _) _ IH]; intros Hall; inv Hall; constructor; [lia|auto]. Qed.

Lemma converts_sorted l rows :
  Forall2 converts l rows -> StronglySorted deadline_le l ->
  StronglySorted (fun a b => pe_deadline_at a <= pe_deadline_at b)%Z rows.
Proof.
  induction 1 as [|kr pe l rows (_ & Hd & _) Hrest IH]; intros Hs; inv Hs; constructor; [auto|].
  match goal with H : Forall _ l |- _ => revert H end. clear -Hrest Hd. unfold deadline_le.
  induction Hrest as [|kr' pe' l' rows' (_ & Hd' & _) _ IHr]; intros Hall; inv Hall; constructor; [lia|auto].
Qed.
End take_due_facts.

(** ** Properties *)

(** The table can always be read back. After any sequence of operations on
    an empty database, tokens are unique, every row converts, and [take_due]
    returns rows instead of a conversion error, for every instant and limit. *)
Theorem engine_always_readable `{SqlEngine} `{UuidText} (ops : list EngineOp) (now : Z) (limit : nat) :
  let t := apply_ops ops ∅ in
  table_wf t /\ exists rows, take_due now limit t = Ok rows /\ length rows <= limit.
Proof.
  intros t. assert (Hwf : table_wf t) by apply apply_ops_wf, table_wf_empty. split; [done|].
  destruct (take_due_rows now limit t Hwf) as (rows & Hr & Hf). exists rows. split; [done|].
  destruct (due_rows_spec now limit t) as (_ & Hl & _). apply Forall2_length in Hf. lia.
Qed.

(** [take_due] returns the oldest due rows. On a well-formed table it returns
    unacked rows whose deadline has passed, each event once, in deadline order
    and at most [limit] of them; a due row is left out only when the limit was
    reached, and then it is no older than any row returned. *)
Theorem take_due_exact `{SqlEngine} `{UuidText} (now : Z) (limit : nat) (t : Table) :
  table_wf t ->
  exists rows, take_due now limit t = Ok rows /\ NoDup (pe_event_id <$> rows) /\ length rows <= limit /\
  StronglySorted (fun a b => pe_deadline_at a <= pe_deadline_at b)%Z rows /\
  (forall pe, pe ∈ rows -> exists r, t !! uuid_text (pe_event_id pe) = Some r /\ pending r = true /\
     row_deadline_at r = pe_deadline_at pe /\ (pe_deadline_at pe <= now)%Z /\
     row_rung_index r = pe_rung_index pe /\ row_ack_token r = pe_ack_token pe) /\
  (forall id r, t !! uuid_text id = Some r -> pending r = true -> (row_deadline_at r <= now)%Z ->
     id ∉ pe_event_id <$> rows ->
     length rows = limit /\ Forall (fun pe => pe_deadline_at pe <= row_deadline_at r)%Z rows).
Proof.
  intros Hwf. destruct (due_rows_spec now limit t) as (Hs & Hl & Hnd & Hin & Hout).
  destruct (take_due_rows now limit t Hwf) as (rows & Hr & Hconv).
  pose proof (converts_keys _ _ Hconv) as Hkeys. pose proof (Forall2_length _ _ _ Hconv) as Hlen.
  exists rows. split_and!; [done| |lia|by eapply converts_sorted| |].
  - apply (NoDup_fmap_1 uuid_text). by rewrite <-Hkeys.
  - intros pe [i Hi]%list_elem_of_lookup.
    destruct (Forall2_lookup_r _ _ _ _ _ Hconv Hi) as ([k r] & Hkr & Hk & Hd & Hri & Htk).
    simpl in *. subst k. apply list_elem_of_lookup_2 in Hkr.
    destruct (Hin _ _ Hkr) as [Ht [Hp Hdue%Z.leb_le]%andb_true_iff]. simpl in *.
    exists r. split_and!; congruence || lia || done.
  - intros id r Ht Hp Hd Hnot. destruct (Hout _ r Ht) as [Hlim Hall].
    + unfold due. simpl. rewrite Hp. by apply Z.leb_le.
    + intros Hin'. apply Hnot. rewrite (converts_elem _ _ _ Hconv). by exists r.
    + split; [lia|]. by eapply converts_bound.
Qed.

(** An acknowledgement stops the escalation. Once an event is acked, by id or
    by the token of its link, no sequence of operations short of a new
    submission of the same event, whatever wake-task advances, reschedules and
    closes were already under way, makes the wake task see it again. *)
Theorem ack_stops_escalation `{SqlEngine} `{UuidText} (t : Table) (id : Z) r (ops : list EngineOp)
    (now : Z) (limit : nat) (acked_at : Z) rows :
  table_wf t -> t !! uuid_text id = Some r -> Forall (fun op => ~ submits id op) ops ->
  (take_due now limit (apply_ops ops (record_ack id acked_at t).2) = Ok rows \/
   take_due now limit (apply_ops ops (record_ack_by_token (row_ack_token r) acked_at t).2) = Ok rows) ->
  id ∉ pe_event_id <$> rows.
Proof.
  intros Hwf Hr Hops Htake.
  assert (Hgen : forall t', table_wf t' -> settled id t' -> take_due now limit (apply_ops ops t') = Ok rows ->
    id ∉ pe_event_id <$> rows).
  { intros t' Hwf' Hset Htd. pose proof (apply_ops_settled id ops t' Hwf' Hset Hops) as Hfin.
    destruct (take_due_rows now limit (apply_ops ops t') (apply_ops_wf ops t' Hwf')) as (rows' & Htd' & Hconv).
    rewrite Htd' in Htd. simplify_eq. rewrite (converts_elem _ _ _ Hconv). intros (r' & Hin).
    apply due_rows_elem in Hin as [Ht [Hp _]%andb_true_iff]. unfold settled in Hfin. simpl in *.
    rewrite Ht in Hfin. congruence. }
  destruct Htake as [Htd|Htd].
  - eapply Hgen; [by apply (record_ack_wf id acked_at)| |done]. unfold settled, record_ack.
    rewrite update_where_lookup, bool_decide_true, Hr by done. simpl. by destruct (pending r) eqn:E.
  - eapply Hgen; [by apply (record_ack_by_token_wf (row_ack_token r) acked_at)| |done].
    unfold settled, record_ack_by_token. rewrite (find_token_unique _ _ _ _ Hwf Hr) by done.
    destruct (pending r) eqn:E; simpl; [by rewrite lookup_insert_eq|by rewrite Hr].
Qed.

(** Links in messages already sent keep working. Whatever happens to an event
    after it was stored, resubmissions with other tokens, rung advances,
    reschedules and acks included, as long as it is not closed its row keeps the
    same token; without a resubmission its rung never goes down either. *)
Theorem ack_token_stable `{SqlEngine} `{UuidText} (t : Table) (id : Z) r (ops : list EngineOp) :
  table_wf t -> t !! uuid_text id = Some r -> Forall (fun op => ~ closes id op) ops ->
  exists r', apply_ops ops t !! uuid_text id = Some r' /\ row_ack_token r' = row_ack_token r /\
    (Forall (fun op => ~ submits id op) ops -> (row_rung_index r <= row_rung_index r')%Z).
Proof.
  intros Hwf Hr Hc.
  assert (Htok : exists r', apply_ops ops t !! uuid_text id = Some r' /\ row_ack_token r' = row_ack_token r).
  { revert t r Hwf Hr. induction Hc as [|op ops Hop _ IH]; intros t r Hwf Hr; [by exists r|]. simpl.
    assert (Hone : exists r', apply_op op t !! uuid_text id = Some r' /\ row_ack_token r' = row_ack_token r).
    { destruct (decide (submits id op)) as [Hp|Hp].
      2: { destruct (apply_op_step id op t r Hwf Hr Hp Hop) as (r' & ? & ? & _). by exists r'. }
      destruct op as [p d n m| | | | | ]; simpl in Hp; try done.
      simpl. unfold enqueue. rewrite Hp, Hr. destruct (_ && _); simpl; [by exists r|].
      rewrite lookup_insert_eq. by eexists. }
    destruct Hone as (r1 & Hr1 & Ht1).
    destruct (IH (apply_op op t) r1) as (r2 & Hr2 & Ht2); [by apply apply_op_wf|done|].
    exists r2. split; [done|congruence]. }
  destruct Htok as (r' & Hr' & Ht). exists r'. split_and!; [done..|]. intros Hs.
  destruct (apply_ops_step id ops t r Hwf Hr Hs Hc) as (r2 & Hr2 & (_ & _ & _ & ? & _)). by simplify_eq.
Qed.

(** The wake task can rely on [next_pending_at]. It is the earliest deadline
    of an unacked row: nothing is due before it, and from that instant on
    [take_due] has something to return. *)
Theorem next_pending_wakes `{SqlEngine} `{UuidText} (t : Table) (now : Z) (limit : nat) :
  table_wf t -> 0 < limit ->
  exists rows, take_due now limit t = Ok rows /\
  (rows <> [] <-> exists d, next_pending_at t = Some d /\ (d <= now)%Z).
Proof.
  intros Hwf Hlim. destruct (take_due_rows now limit t Hwf) as (rows & Htd & Hconv).
  exists rows. split; [done|]. pose proof (next_pending_spec t) as Hn. split.
  - intros Hne. destruct rows as [|pe rows]; [done|]. inversion Hconv as [|[k r] ? ? ? Hk _ Hdue]; subst.
    assert (Hin : (k, r) ∈ due_rows now limit t) by (rewrite <-Hdue; by constructor).
    apply due_rows_elem in Hin as [Ht [Hp Hd%Z.leb_le]%andb_true_iff]. simpl in *.
    destruct (next_pending_at t) as [d|].
    + destruct Hn as [_ Hmin]. specialize (Hmin k r Ht Hp). exists d. split; [done|lia].
    + apply Hn in Ht. congruence.
  - intros (d & Hd & Hle). rewrite Hd in Hn. destruct Hn as [(k & r & Ht & Hp & Hrd) _].
    intros ->. inv Hconv. destruct (due_rows_spec now limit t) as (_ & _ & _ & _ & Hout).
    destruct (Hout k r Ht) as [Hlen _].
    + unfold due. simpl. rewrite Hp. apply Z.leb_le. lia.
    + match goal with H : [] = due_rows _ _ _ |- _ => rewrite <-H end. by intros ?%elem_of_nil.
    + match goal with H : [] = due_rows _ _ _ |- _ => rewrite <-H in Hlen end. simpl in Hlen. lia.
Qed.

(** ** The properties on a small table *)

Module EngineDemo.

(** UUIDs as the bits of their numbers, tables scanned in map order. *)
Fixpoint bits_text (p : positive) : string :=
  match p with
  | xH => ""
  | xO p => String "0" (bits_text p)
  | xI p => String "1" (bits_text p)
  end.
Fixpoint bits_parse (s : string) : positive :=
  match s with
  | "" => xH
  | String a s => if bool_decide (a = "0"%char) then xO (bits_parse s) else xI (bits_parse s)
  end.

Lemma bits_parse_text p : bits_parse (bits_text p) = p.
Proof. induction p as [p IH|p IH|]; simpl; by rewrite ?IH. Qed.

#[export] Instance uuid_text_demo : UuidText.
Proof.
  refine {| uuid_text := fun u => bits_text (encode u);
            uuid_parse_str := fun s =>
              match decode (bits_parse s) with Some u => Ok u | None => Err "invalid uuid" end |}.
  intros u. by rewrite bits_parse_text, decode_encode.
Defined.

#[export] Instance sql_engine_demo : SqlEngine :=
  {| scan := map_to_list; scan_perm := fun t => Permutation_refl (map_to_list t);
     upsert_checks_token_first := false |}.

#[export] Instance unicode_demo : UnicodeTables :=
  {| uc_alphanumeric := fun _ => false; uc_uppercase := fun c => c; uc_debug_plain := fun _ => true |}.

Definition payload (id : Z) : Payload :=
  mkPayload (id + 1000) (Some id) "[High] brute force" "body" SeverityId.High None
    (Some "Detection Finding") None.

(** Two events; the second one is submitted again, with another token. *)
Definition ops : list EngineOp :=
  [OpEnqueue (payload 1) 300 0 "t1"; OpEnqueue (payload 2) 200 0 "t2"; OpAdvance 1 1 100;
   OpEnqueue (payload 2) 400 50 "t3"].
Definition table : Table := apply_ops ops ∅.

Lemma table_ok : table_wf table.
Proof. apply apply_ops_wf, table_wf_empty. Qed.

Example table_due :
  (fun pe => (pe_event_id pe, pe_rung_index pe, pe_ack_token pe)) <$>
    match take_due 500 10 table with Ok rows => rows | Err _ => [] end
  = [(1, 1, "t1"); (2, 0, "t2")]%Z.
Proof. by vm_compute. Qed.

Lemma engine_always_readable_witness :
  table_wf (apply_ops ops ∅) /\
  exists rows, take_due 500 1 (apply_ops ops ∅) = Ok rows /\ length rows <= 1.
Proof. exact (engine_always_readable ops 500 1). Defined.

Lemma take_due_exact_witness :
  exists rows, take_due 500 1 table = Ok rows /\ length rows <= 1.
Proof. destruct (take_due_exact 500 1 table table_ok) as (rows & ? & _ & ? & _). exists rows. split; assumption. Defined.

Lemma ack_stops_escalation_witness :
  exists rows, take_due 500 10 (apply_ops [OpAdvance 1 2 300; OpReschedule 1 10] (record_ack 1 60 table).2) = Ok rows
    /\ 1%Z ∉ pe_event_id <$> rows.
Proof.
  destruct (table !! uuid_text 1) as [r|] eqn:E; [|vm_compute in E; discriminate].
  destruct (take_due_rows 500 10 (apply_ops [OpAdvance 1 2 300; OpReschedule 1 10] (record_ack 1 60 table).2))
    as (rows & Hr & _); [by apply apply_ops_wf, record_ack_wf, table_ok|].
  exists rows. split; [exact Hr|].
  apply (ack_stops_escalation table 1 r [OpAdvance 1 2 300; OpReschedule 1 10] 500 10 60 rows);
    [exact table_ok|exact E|repeat constructor; simpl; tauto|left; exact Hr].
Defined.

Lemma ack_token_stable_witness :
  exists r', apply_ops [OpEnqueue (payload 2) 900 60 "t9"; OpAck 2 70] table !! uuid_text 2 = Some r' /\
    row_ack_token r' = "t2".
Proof.
  destruct (table !! uuid_text 2) as [r|] eqn:E; [|vm_compute in E; discriminate].
  destruct (ack_token_stable table 2 r [OpEnqueue (payload 2) 900 60 "t9"; OpAck 2 70])
    as (r' & Hr' & Ht & _); [exact table_ok|exact E|repeat constructor; simpl; tauto|].
  exists r'. split; [exact Hr'|]. rewrite Ht. vm_compute in E. injection E as <-. reflexivity.
Defined.

Lemma next_pending_wakes_witness :
  exists rows, take_due 100 1 table = Ok rows /\
    (rows <> [] <-> exists d, next_pending_at table = Some d /\ (d <= 100)%Z).
Proof. apply (next_pending_wakes table 100 1 table_ok). lia. Defined.
End EngineDemo.
