(* ===== verification/Dispatcher.v ===== *)
(** * Profiles, the payload dispatcher and the daemon's adapter

    Models crates/selfdef-notifier-engine/src/profile.rs and dispatcher.rs, and
    crates/selfdef-daemon/src/dispatcher_adapter.rs: escalation profiles, the
    channel walk with its rung and subscription filters, the operating mode with
    the panic floor, submission, and the conversion of an event into a persisted
    payload with its ack link. The answers of the channels and the failures of
    the database are inputs. *)

From S2P Require Import Prelude Core Notify Escalation.
From stdpp Require Import options.

(** ** Profiles *)

Record Rung := mkRung {
  rg_ack_window_secs : Z;
  rg_channels : list string;
}.

Definition rung_new (w : Z) : Rung := mkRung w [].

Definition allows_channel (r : Rung) (name : string) : bool :=
  bool_decide (rg_channels r = []) || existsb (fun c => bool_decide (c = name)) (rg_channels r).

Record Profile := mkProfile {
  pf_name : string;
  pf_rungs : list Rung;
}.

Definition profile_auto : Profile := mkProfile "auto" [rung_new 300; rung_new 300].
Definition profile_aggressive : Profile :=
  mkProfile "aggressive" [rung_new 60; rung_new 180; rung_new 600].
Definition profile_patient : Profile :=
  mkProfile "patient" [rung_new 600; rung_new 1800; rung_new 3600; rung_new 7200].

Definition profile_from_name (s : string) : option Profile :=
  let s := to_ascii_lowercase s in
  if bool_decide (s = "auto") then Some profile_auto
  else if bool_decide (s = "aggressive") then Some profile_aggressive
  else if bool_decide (s = "patient") then Some profile_patient
  else None.

Inductive ProfileBuildError := EmptyRungs.

Definition profile_custom (name : string) (rungs : list Rung) : result Profile ProfileBuildError :=
  if bool_decide (rungs = []) then Err EmptyRungs else Ok (mkProfile name rungs).

(** Indexing of the rungs, clamped to the last one; [None] is the panic of an
    index into an empty list. *)
Definition rung_at (p : Profile) (index : Z) : option Rung :=
  pf_rungs p !! Z.to_nat (Z.min index (Z.of_nat (length (pf_rungs p) - 1))).

Definition channels_for (p : Profile) (index : Z) : option (list string) :=
  rg_channels <$> rung_at p index.
Definition ack_window_for (p : Profile) (index : Z) : option Z :=
  rg_ack_window_secs <$> rung_at p index.
Definition max_rung (p : Profile) : Z := Z.of_nat (length (pf_rungs p) - 1).

(** ** The dispatcher *)

Module Mode.
Inductive t := Enforce | Audit.

#[global] Instance eq_dec : EqDecision t.
Proof. solve_decision. Defined.
End Mode.

Definition mode_from_str_ci (s : string) : option Mode.t :=
  let s := to_ascii_lowercase s in
  if bool_decide (s = "enforce") then Some Mode.Enforce
  else if bool_decide (s = "audit") then Some Mode.Audit
  else None.
Definition mode_name (m : Mode.t) : string :=
  match m with Mode.Enforce => "enforce" | Mode.Audit => "audit" end.

Inductive DispatchOutcome :=
| Delivered (channel : string)
| PersistedButAllChannelsFailed (e : ChannelError)
| PersistFailed (e : EngineError).

Definition delivered (o : DispatchOutcome) : bool :=
  match o with Delivered _ => true | _ => false end.

Record PayloadDispatcher := mkDispatcher {
  pd_channels : list string;
  pd_mode : Mode.t;
  pd_profile : Profile;
  pd_panic_floor : option SeverityId.t;
  pd_subscriptions : gmap string Subscription;
}.

Definition dispatcher_new (channels : list string) : PayloadDispatcher :=
  mkDispatcher channels Mode.Enforce profile_auto None ∅.

Definition crosses_panic_floor (d : PayloadDispatcher) (severity : SeverityId.t) : bool :=
  match pd_panic_floor d with
  | Some floor => (severity_u32 floor <=? severity_u32 severity)%Z
  | None => false
  end.

(** What the channels answer: [answers i] is the result of [send] on the [i]-th
    configured channel. *)
Definition Answers := nat -> result DeliveryReceipt ChannelError.

(** [{:?}] of a list of channel names. *)
Definition debug_names `{UnicodeTables} (l : list string) : string := vec_debug (str_debug <$> l).

Definition rung_allows (rung_filter : list string) (name : string) : bool :=
  bool_decide (rung_filter = []) || bool_decide (name ∈ rung_filter).

Definition subscribed (d : PayloadDispatcher) (payload : Payload) (name : string) : bool :=
  match pd_subscriptions d !! name with
  | Some sub => payload_matches sub payload
  | None => true
  end.

(** The error of a walk in which no channel accepted. *)
Definition walk_error `{UnicodeTables} (rung_filter : list string) (last_err : option ChannelError)
    (attempted filtered : nat) : ChannelError :=
  match last_err with
  | Some e => e
  | None =>
      if bool_decide (attempted = 0) && bool_decide (0 < filtered) then
        ChannelOther ("dispatcher: every configured channel filtered out by [notifier.subscriptions.*] ("
          +:+ show_uint (Z.of_nat filtered) +:+ " channels filtered)")
      else if bool_decide (attempted = 0) && negb (bool_decide (rung_filter = [])) then
        ChannelOther ("dispatcher: rung's channel allow-list " +:+ debug_names rung_filter
          +:+ " matched none of the configured channels")
      else ChannelOther "dispatcher: no channels configured"
  end.

(** The loop of [fire_channels_filtered], from the [i]-th channel on: the
    outcome and the channels that were sent the payload, in order. *)
Fixpoint walk_channels `{UnicodeTables} (d : PayloadDispatcher) (payload : Payload) (rung_filter : list string)
    (answers : Answers) (channels : list string) (i : nat)
    (last_err : option ChannelError) (attempted filtered : nat) : DispatchOutcome * list string :=
  match channels with
  | [] => (PersistedButAllChannelsFailed (walk_error rung_filter last_err attempted filtered), [])
  | c :: channels =>
      if negb (rung_allows rung_filter c) then
        walk_channels d payload rung_filter answers channels (S i) last_err attempted filtered
      else if negb (subscribed d payload c) then
        walk_channels d payload rung_filter answers channels (S i) last_err attempted (S filtered)
      else
        match answers i with
        | Ok _ => (Delivered c, [c])
        | Err e =>
            let '(o, sent) :=
              walk_channels d payload rung_filter answers channels (S i) (Some e) (S attempted) filtered in
            (o, c :: sent)
        end
  end.

Definition fire_channels_filtered `{UnicodeTables} (d : PayloadDispatcher) (payload : Payload) (rung_filter : list string)
    (answers : Answers) : DispatchOutcome * list string :=
  walk_channels d payload rung_filter answers (pd_channels d) 0 None 0 0.

Definition fire_channels `{UnicodeTables} (d : PayloadDispatcher) (payload : Payload) (answers : Answers) :=
  fire_channels_filtered d payload [] answers.

(** Audit mode below the panic floor. *)
Definition suppressed (d : PayloadDispatcher) (payload : Payload) : bool :=
  bool_decide (pd_mode d = Mode.Audit) && negb (crosses_panic_floor d (pl_severity payload)).

Definition dispatch_payload `{UnicodeTables} (d : PayloadDispatcher) (payload : Payload) (answers : Answers) :
    DispatchOutcome * list string :=
  if suppressed d payload then (Delivered "audit", []) else fire_channels d payload answers.

(** [dispatch_payload_for_rung]; [None] is the panic on a profile without rungs. *)
Definition dispatch_payload_for_rung `{UnicodeTables} (d : PayloadDispatcher) (payload : Payload) (rung_index : Z)
    (answers : Answers) : option (DispatchOutcome * list string) :=
  rung_filter ← channels_for (pd_profile d) rung_index;
  Some (if suppressed d payload then (Delivered "audit", [])
        else fire_channels_filtered d payload rung_filter answers).

Section submit.
Context `{UnicodeTables} `{SqlEngine} `{UuidText}.

(** [submit]: persist, then fire; [fault] is a failure of the database. *)
Definition submit (d : PayloadDispatcher) (payload : Payload) (deadline_at now : Z) (minted : string)
    (fault : option string) (answers : Answers) (t : Table) :
    DispatchOutcome * list string * Table :=
  let '(persisted, t) :=
    match fault, pl_event_id payload with
    | Some e, Some _ => (Err (Sqlite e), t)
    | _, _ => enqueue payload deadline_at now minted t
    end in
  match persisted with
  | Err e => (PersistFailed e, [], t)
  | Ok _ =>
      let '(o, sent) :=
        if suppressed d payload then (Delivered "audit", []) else fire_channels d payload answers in
      (o, sent, t)
  end.

(** ** The daemon's adapter *)

Context `{WireFormat}.

Record DispatcherAdapter := mkAdapter {
  da_dispatcher : PayloadDispatcher;
  da_ack_link_base : option string;
}.

Definition with_ack_link_base (base : option string) (a : DispatcherAdapter) : DispatcherAdapter :=
  mkAdapter (da_dispatcher a)
    (match base with
     | Some s => if bool_decide (trim s = "") then None else Some s
     | None => None
     end).

(** The readings of one [notify]: fresh UUIDs for the payload and for tokens,
    the clock, the failures of the database read and write, the channels. *)
Record NotifyEnv := mkNotifyEnv {
  ne_payload_id : Z;
  ne_minted : string;
  ne_enqueue_minted : string;
  ne_now : Z;
  ne_read_fault : option string;
  ne_write_fault : option string;
  ne_answers : Answers;
}.

Definition adapter_token (event_id : Z) (env : NotifyEnv) (t : Table) : string :=
  match ne_read_fault env with
  | Some _ => ne_minted env
  | None => lookup_or_mint_token event_id (ne_minted env) t
  end.

Definition adapter_payload (a : DispatcherAdapter) (event : Event) (env : NotifyEnv) (t : Table) : Payload :=
  let '(ack_token, ack_link) :=
    match da_ack_link_base a with
    | Some base =>
        let token := adapter_token (ev_id event) env t in
        (Some token, Some (base +:+ "/" +:+ token))
    | None => (None, None)
    end in
  {| pl_id := ne_payload_id env; pl_event_id := Some (ev_id event); pl_title := render_title event;
     pl_body := render_body event; pl_severity := ev_severity_id event; pl_ack_link := ack_link;
     pl_event_kind := Some (class_name (ev_class_uid event)); pl_ack_token := ack_token |}.

Definition engine_error_display (e : EngineError) : string :=
  match e with
  | Sqlite r => "sqlite error: " +:+ r
  | EngineJoin r => "blocking task join error: " +:+ r
  | EngineIo r => "io error: " +:+ r
  | PayloadMissingEventId => "cannot enqueue payload without an event_id"
  | UnknownSeverity v => "unknown severity id in row: " +:+ show_uint v
  | SchemaTooNew found supported =>
      "escalation schema at version " +:+ show_uint found +:+ " > engine support " +:+ show_uint supported
  end.

(** [notify]; [None] is the panic on a profile without rungs. *)
Definition adapter_notify (a : DispatcherAdapter) (event : Event) (env : NotifyEnv) (t : Table) :
    option (result unit NotifierError * list string * Table) :=
  let payload := adapter_payload a event env t in
  window ← ack_window_for (pd_profile (da_dispatcher a)) 0;
  let '(o, sent, t) :=
    submit (da_dispatcher a) payload (ne_now env + window) (ne_now env) (ne_enqueue_minted env)
      (ne_write_fault env) (ne_answers env) t in
  Some (match o with
        | Delivered _ => Ok tt
        | PersistedButAllChannelsFailed e =>
            Err (Http ("engine persisted, every channel failed (will retry): " +:+ channel_error_display e))
        | PersistFailed e => Err (Http ("engine persist failed: " +:+ engine_error_display e))
        end, sent, t).
End submit.

(** ** The channel walk *)

Section walk.
Context `{UnicodeTables} (d : PayloadDispatcher) (payload : Payload) (rung_filter : list string) (answers : Answers).

(** The channels both filters let through, with their positions, from [i] on. *)
Fixpoint eligible_channels (channels : list string) (i : nat) : list (nat * string) :=
  match channels with
  | [] => []
  | c :: channels =>
      (if rung_allows rung_filter c && subscribed d payload c then [(i, c)] else [])
      ++ eligible_channels channels (S i)
  end.

(** The first channel that accepts, the error of the last that did not, and the
    channels that were sent the payload. *)
Fixpoint try_channels (l : list (nat * string)) (last_err : option ChannelError) :
    option string * option ChannelError * list string :=
  match l with
  | [] => (None, last_err, [])
  | (i, c) :: l =>
      match answers i with
      | Ok _ => (Some c, last_err, [c])
      | Err e => let '(w, err, sent) := try_channels l (Some e) in (w, err, c :: sent)
      end
  end.

Lemma walk_channels_spec channels : forall i last_err attempted filtered,
  exists attempted' filtered',
  let '(winner, err, sent) := try_channels (eligible_channels channels i) last_err in
  walk_channels d payload rung_filter answers channels i last_err attempted filtered =
  (match winner with
   | Some c => Delivered c
   | None => PersistedButAllChannelsFailed (walk_error rung_filter err attempted' filtered')
   end, sent).
Proof.
  induction channels as [|c channels IH]; intros i last_err attempted filtered; simpl;
    [by exists attempted, filtered|].
  destruct (rung_allows rung_filter c); simpl; [|apply IH].
  destruct (subscribed d payload c); simpl; [|apply IH].
  destruct (answers i) as [r|e]; [by exists 0, 0|].
  destruct (IH (S i) (Some e) (S attempted) filtered) as (a & f & Hw). exists a, f.
  destruct (try_channels _ _) as [[w err] sent]. by rewrite Hw.
Qed.

Lemma try_channels_sent l : forall last_err,
  let '(winner, err, sent) := try_channels l last_err in
  sent `prefix_of` l.*2 /\
  match winner with
  | Some c => last sent = Some c /\ exists i, (i, c) ∈ l /\ is_ok (answers i) = true
  | None => sent = l.*2 /\ Forall (fun ic => is_ok (answers ic.1) = false) l /\
      (l <> [] -> is_Some err)
  end.
Proof.
  induction l as [|[i c] l IH]; intros last_err; simpl; [by split_and!|].
  destruct (answers i) as [r|e] eqn:Ea.
  - split; [by exists l.*2|]. split; [done|]. exists i. split; [by constructor|by rewrite Ea].
  - specialize (IH (Some e)).
    assert (Herr : (try_channels l (Some e)).1.2 <> None).
    { clear. generalize e. induction l as [|[i c] l IH]; intros e0; simpl; [done|].
      destruct (answers i) as [|e1]; [done|]. specialize (IH e1).
      by destruct (try_channels l (Some e1)) as [[w err] sent]. }
    destruct (try_channels l (Some e)) as [[w err] sent]. destruct IH as [Hp Hw].
    split; [by apply prefix_cons|]. destruct w as [w|].
    + destruct Hw as [Hl (j & Hj & Hok)]. split.
      * destruct sent; [done|]. done.
      * exists j. split; [by constructor|done].
    + destruct Hw as (-> & Hall & _). split_and!; [done| |].
      * constructor; [simpl; by rewrite Ea|done].
      * intros _. destruct err; [done|]. by destruct Herr.
Qed.

Lemma fire_channels_spec :
  exists a f,
  let '(winner, err, sent) := try_channels (eligible_channels (pd_channels d) 0) None in
  fire_channels_filtered d payload rung_filter answers =
  (match winner with
   | Some c => Delivered c
   | None => PersistedButAllChannelsFailed (walk_error rung_filter err a f)
   end, sent).
Proof. apply walk_channels_spec. Qed.
End walk.

(** The walk reads the channels and the subscriptions, nothing else. *)
Lemma walk_channels_mode `{UnicodeTables} d1 d2 payload rf answers channels :
  pd_subscriptions d1 = pd_subscriptions d2 -> forall i l a f,
  walk_channels d1 payload rf answers channels i l a f = walk_channels d2 payload rf answers channels i l a f.
Proof.
  intros Hs. induction channels as [|c channels IH]; intros i l a f; [done|]. simpl.
  unfold subscribed. rewrite Hs. destruct (negb (rung_allows rf c)); [apply IH|].
  destruct (negb _); [apply IH|]. destruct (answers i); [done|]. by rewrite IH.
Qed.

Lemma fire_channels_mode `{UnicodeTables} d1 d2 payload rf answers :
  pd_channels d1 = pd_channels d2 -> pd_subscriptions d1 = pd_subscriptions d2 ->
  fire_channels_filtered d1 payload rf answers = fire_channels_filtered d2 payload rf answers.
Proof. intros Hc Hs. unfold fire_channels_filtered. rewrite Hc. by apply walk_channels_mode. Qed.

(** ** Submission *)

Section submit_facts.
Context `{UnicodeTables} `{SqlEngine} `{UuidText} `{WireFormat}.

Lemma enqueue_stored payload deadline now minted t id :
  pl_event_id payload = Some id -> (enqueue payload deadline now minted t).1 = Ok tt ->
  exists r, (enqueue payload deadline now minted t).2 !! uuid_text id = Some r /\
    row_rung_index r = 0%Z /\ pending r = true /\ row_deadline_at r = deadline /\
    row_title r = pl_title payload /\ row_ack_link r = pl_ack_link payload /\
    row_ack_token r = match t !! uuid_text id with
                      | Some old => row_ack_token old
                      | None => default minted (pl_ack_token payload)
                      end.
Proof.
  intros Hid. unfold enqueue. rewrite Hid. destruct (t !! uuid_text id) as [old|] eqn:E;
    [destruct (_ && _)|destruct (token_taken _ _ _)]; simpl; try done;
    intros _; rewrite lookup_insert_eq; eexists; split; done.
Qed.

Lemma enqueue_failed payload deadline now minted t :
  is_ok (enqueue payload deadline now minted t).1 = false -> (enqueue payload deadline now minted t).2 = t.
Proof.
  unfold enqueue. destruct (pl_event_id payload) as [id|]; [|done].
  destruct (t !! uuid_text id) as [old|]; [destruct (_ && _)|destruct (token_taken _ _ _)]; done.
Qed.

(** An acknowledgement by token reaches the row that holds it. *)
Lemma ack_by_token_row t id r acked_at :
  table_wf t -> t !! uuid_text id = Some r -> pending r = true ->
  record_ack_by_token (row_ack_token r) acked_at t =
  (Ok (Some (id, row_title r)), <[uuid_text id := set_acked (Some acked_at) r]> t).
Proof.
  intros Hwf Hr Hp. unfold record_ack_by_token. rewrite (find_token_unique _ _ _ _ Hwf Hr) by done.
  by rewrite Hp, parse_uuid_text.
Qed.
End submit_facts.

(** ** Properties *)

(** The dispatcher's channel walk is first-success-wins under both filters.
    Only configured channels that the rung's allow-list and the channel's
    subscription let through are sent the payload, in configuration order and
    never past the first that accepts; the outcome is that channel, or, when
    every one of them failed, an error that exists as soon as one was tried. *)
Theorem dispatch_first_success `{UnicodeTables} (d : PayloadDispatcher) (payload : Payload) (rung_filter : list string)
    (answers : Answers) :
  let '(outcome, sent) := fire_channels_filtered d payload rung_filter answers in
  let allowed := eligible_channels d payload rung_filter (pd_channels d) 0 in
  sent `prefix_of` allowed.*2 /\
  match outcome with
  | Delivered c => last sent = Some c /\ exists i, (i, c) ∈ allowed /\ is_ok (answers i) = true
  | PersistedButAllChannelsFailed _ =>
      sent = allowed.*2 /\ Forall (fun ic => is_ok (answers ic.1) = false) allowed
  | PersistFailed _ => False
  end.
Proof.
  destruct (fire_channels_spec d payload rung_filter answers) as (a & f & Hf).
  pose proof (try_channels_sent answers (eligible_channels d payload rung_filter (pd_channels d) 0) None) as Ht.
  destruct (try_channels _ _ _) as [[w err] sent]. rewrite Hf. destruct Ht as [Hp Hw]. split; [done|].
  destruct w; [done|]. tauto.
Qed.

(** The panic floor and audit mode decide whether anything is sent, and only
    that. Below the floor in audit mode neither a submission nor a re-fire sends
    anything, yet the row is stored as in production; in every other case both
    behave exactly as in enforce mode. *)
Theorem mode_decides_sending `{UnicodeTables} `{SqlEngine} `{UuidText} (d : PayloadDispatcher) (payload : Payload)
    (deadline_at now rung : Z) (minted : string) (fault : option string) (answers : Answers) (t : Table) :
  let enforced := mkDispatcher (pd_channels d) Mode.Enforce (pd_profile d) (pd_panic_floor d)
                    (pd_subscriptions d) in
  (submit d payload deadline_at now minted fault answers t).2
    = (submit enforced payload deadline_at now minted fault answers t).2 /\
  (if bool_decide (pd_mode d = Mode.Audit) && negb (crosses_panic_floor d (pl_severity payload))
   then (submit d payload deadline_at now minted fault answers t).1.2 = [] /\
        (forall res, dispatch_payload_for_rung d payload rung answers = Some res -> res.2 = [])
   else submit d payload deadline_at now minted fault answers t
          = submit enforced payload deadline_at now minted fault answers t /\
        dispatch_payload_for_rung d payload rung answers
          = dispatch_payload_for_rung enforced payload rung answers).
Proof.
  intros enforced. unfold submit, dispatch_payload_for_rung, fire_channels.
  assert (Hw : forall rf, fire_channels_filtered enforced payload rf answers
    = fire_channels_filtered d payload rf answers) by (intros; by apply fire_channels_mode).
  rewrite Hw. unfold suppressed. simpl.
  set (p := match fault, pl_event_id payload with Some e, Some _ => _ | _, _ => _ end).
  destruct p as [[u|e] t1], (channels_for _ rung) as [rf|], (bool_decide (pd_mode d = Mode.Audit) && _);
    simpl; rewrite ?Hw; destruct (fire_channels_filtered d payload [] answers);
    split_and!; try done; intros; by simplify_eq/=.
Qed.

(** Persist before send. Whenever [submit] hands the payload to a channel, or
    reports anything but a failed write, the escalation row of the event is in
    the table, unacked, at rung 0, under the requested deadline; when the write
    fails nothing is sent and the table is unchanged. *)
Theorem submit_persists_first `{UnicodeTables} `{SqlEngine} `{UuidText} (d : PayloadDispatcher) (payload : Payload)
    (deadline_at now : Z) (minted : string) (fault : option string) (answers : Answers) (t : Table) :
  let '(outcome, sent, t') := submit d payload deadline_at now minted fault answers t in
  match outcome with
  | PersistFailed _ => sent = [] /\ t' = t
  | _ => exists id r, pl_event_id payload = Some id /\ t' !! uuid_text id = Some r /\
      row_rung_index r = 0%Z /\ pending r = true /\ row_deadline_at r = deadline_at
  end.
Proof.
  unfold submit. destruct (pl_event_id payload) as [id|] eqn:Hid.
  - destruct fault as [e|]; [done|].
    destruct (enqueue payload deadline_at now minted t) as [[[]|e] t1] eqn:E; simpl.
    + destruct (enqueue_stored payload deadline_at now minted t id Hid) as (r & Hr & ? & ? & ? & _);
        [by rewrite E|]. rewrite E in Hr. simpl in Hr.
      destruct (suppressed d payload); [by exists id, r|].
      unfold fire_channels. pose proof (fire_channels_spec d payload [] answers) as (a & f & Hf).
      destruct (try_channels _ _ _) as [[w err] sent]. rewrite Hf. destruct w; by exists id, r.
    + split; [done|]. pose proof (enqueue_failed payload deadline_at now minted t) as Hf.
      rewrite E in Hf. by apply Hf.
  - assert (Hq : enqueue payload deadline_at now minted t = (Err PayloadMissingEventId, t))
      by (unfold enqueue; by rewrite Hid). destruct fault; by rewrite Hq.
Qed.

(** The ack link sent to the operator resolves. When HTTP acks are configured
    and the token lookup succeeded, then after a [notify] that stored the event,
    for the first time or again, the link in the message is the base followed by
    the token in the event's row, and clicking it acknowledges exactly that event
    and names it. *)
Theorem ack_link_resolves `{UnicodeTables} `{SqlEngine} `{UuidText} `{WireFormat} (a : DispatcherAdapter) (base : string)
    (event : Event) (env : NotifyEnv) (t : Table) res sent t' (acked_at : Z) :
  table_wf t -> da_ack_link_base a = Some base -> ne_read_fault env = None ->
  adapter_notify a event env t = Some (res, sent, t') -> (res = Ok tt \/ sent <> []) ->
  exists token r, pl_ack_link (adapter_payload a event env t) = Some (base +:+ "/" +:+ token) /\
    t' !! uuid_text (ev_id event) = Some r /\ row_ack_token r = token /\
    record_ack_by_token token acked_at t' =
      (Ok (Some (ev_id event, render_title event)),
       <[uuid_text (ev_id event) := set_acked (Some acked_at) r]> t').
Proof.
  intros Hwf Hbase Hread Hn Hres. set (payload := adapter_payload a event env t).
  assert (Hp : pl_event_id payload = Some (ev_id event) /\ pl_title payload = render_title event /\
    pl_ack_token payload = Some (adapter_token (ev_id event) env t) /\
    pl_ack_link payload = Some (base +:+ "/" +:+ adapter_token (ev_id event) env t)).
  { unfold payload, adapter_payload. by rewrite Hbase. }
  destruct Hp as (Hid & Htitle & Htok & Hlink). unfold adapter_notify in Hn. fold payload in Hn.
  destruct (ack_window_for _ 0) as [w|]; [|done]. simpl in Hn. unfold submit in Hn. rewrite Hid in Hn.
  destruct (ne_write_fault env) as [e|]; [naive_solver|].
  destruct (enqueue payload _ _ _ t) as [[[]|e] t1] eqn:E; [|naive_solver].
  assert (t' = t1) as ->.
  { destruct (suppressed _ _); [by simplify_eq|]. destruct (fire_channels _ _ _) as [o s]. by simplify_eq. }
  destruct (enqueue_stored payload (ne_now env + w) (ne_now env) (ne_enqueue_minted env) t (ev_id event) Hid)
    as (r & Hr & _ & Hpend & _ & Ht & _ & Htr); [by rewrite E|].
  pose proof (enqueue_wf payload (ne_now env + w) (ne_now env) (ne_enqueue_minted env) t Hwf) as Hwf1.
  rewrite E in Hr, Hwf1. simpl in Hr, Hwf1.
  assert (Htoken : row_ack_token r = adapter_token (ev_id event) env t).
  { rewrite Htr, Htok. unfold adapter_token, lookup_or_mint_token. rewrite Hread. by destruct (t !! _). }
  exists (adapter_token (ev_id event) env t), r. split_and!; [done..|].
  rewrite <-Htoken, (ack_by_token_row t1 (ev_id event) r) by done. by rewrite Ht, Htitle.
Qed.

Module DispatcherWitnesses.
Import EngineDemo Core.Demo.

Definition adapter : DispatcherAdapter :=
  mkAdapter (mkDispatcher ["ntfy"; "smtp"] Mode.Enforce profile_auto None ∅) (Some "https://d/notify/ack").

(** The first channel is down, the second accepts. *)
Definition env : NotifyEnv :=
  mkNotifyEnv 77 "fresh" "other" 1000 None None
    (fun i => if bool_decide (i = 0) then Err ChannelTimeout else Ok (mkDeliveryReceipt None)).

Definition event : Event :=
  event_new (mkStamp 2 0 0) DETECTION_FINDING 1 SeverityId.High "web-1" "r" 1.

Definition audit : PayloadDispatcher :=
  mkDispatcher ["ntfy"; "smtp"] Mode.Audit profile_auto (Some SeverityId.Critical) ∅.

Lemma mode_decides_sending_witness :
  (submit audit (payload 5) 900 600 "t5" None (ne_answers env) table).1.2 = [] /\
  is_Some ((submit audit (payload 5) 900 600 "t5" None (ne_answers env) table).2 !! uuid_text 5).
Proof.
  destruct (mode_decides_sending audit (payload 5) 900 600 0 "t5" None (ne_answers env) table) as [Ht [Hs _]].
  split; [exact Hs|]. rewrite Ht. vm_compute. by eexists.
Defined.

Lemma submit_persists_first_witness :
  exists t' id r, submit (da_dispatcher adapter) (payload 5) 900 600 "t5" None (ne_answers env) table
    = (Delivered "smtp", ["ntfy"; "smtp"], t') /\
  pl_event_id (payload 5) = Some id /\ t' !! uuid_text id = Some r /\
  row_rung_index r = 0%Z /\ pending r = true /\ row_deadline_at r = 900%Z.
Proof.
  pose proof (submit_persists_first (da_dispatcher adapter) (payload 5) 900 600 "t5" None (ne_answers env) table) as H.
  destruct (submit _ _ _ _ _ _ _ _) as [[outcome sent] t'] eqn:E.
  assert (Ho : outcome = Delivered "smtp") by (vm_compute in E; congruence).
  assert (Hs : sent = ["ntfy"; "smtp"]) by (vm_compute in E; congruence).
  subst. destruct H as (id & r & H). exists t', id, r. split; [reflexivity|exact H].
Defined.

Lemma ack_link_resolves_witness :
  exists res t', adapter_notify adapter event env table = Some (res, ["ntfy"; "smtp"], t') /\
  exists token r, pl_ack_link (adapter_payload adapter event env table)
      = Some ("https://d/notify/ack/" +:+ token) /\
    t' !! uuid_text 2 = Some r /\ row_ack_token r = token /\ token = "t2" /\
    (record_ack_by_token token 1100 t').1 = Ok (Some (2%Z, render_title event)).
Proof.
  destruct (adapter_notify adapter event env table) as [[[res sent] t']|] eqn:E;
    [|vm_compute in E; discriminate].
  assert (Hs : sent = ["ntfy"; "smtp"]) by (vm_compute in E; injection E as _ <- _; reflexivity).
  subst sent. exists res, t'. split; [reflexivity|].
  destruct (ack_link_resolves adapter "https://d/notify/ack" event env table res ["ntfy"; "smtp"] t' 1100
    table_ok eq_refl eq_refl E) as (token & r & Hl & Hr & Ht & Ha); [right; discriminate|].
  exists token, r. split; [exact Hl|]. split; [exact Hr|]. split; [exact Ht|].
  split; [vm_compute in Hl; injection Hl as <-; reflexivity|]. rewrite Ha. reflexivity.
Defined.
End DispatcherWitnesses.
