(* ===== verification/WakeTask.v ===== *)
(** * The wake task

    Models crates/selfdef-notifier-engine/src/wake_task.rs: how long the task
    sleeps, and one round over the due rows, each closed at the last rung or
    re-fired and advanced. Operations of other tasks (acks, submissions, operator
    commands) that land while a row is being handled are part of the row's
    environment, as are the answers of the channels and the failures of the
    database. *)

From S2P Require Import Prelude Core Notify Escalation Dispatcher.
From stdpp Require Import options.

Definition MAX_RUNG : Z := 1.
Definition DEFAULT_RUNG_INTERVAL_SECS : Z := 300.
Definition IDLE_POLL_INTERVAL_SECS : Z := 60.
Definition TAKE_DUE_LIMIT : nat := 100.

(** What one row meets while it is handled. *)
Record RowEnv := mkRowEnv {
  re_answers : Answers;
  re_interleaved : list EngineOp;
  re_fault : option string;
}.

(** A re-fire: the event, its rung and the channels that were sent the payload. *)
Record Refire := mkRefire {
  rf_event_id : Z;
  rf_rung : Z;
  rf_sent : list string;
}.

Definition payload_of (row : PendingEscalation) : Payload :=
  {| pl_id := pe_payload_id row; pl_event_id := Some (pe_event_id row); pl_title := pe_title row;
     pl_body := pe_body row; pl_severity := pe_severity row; pl_ack_link := pe_ack_link row;
     pl_event_kind := pe_event_kind row; pl_ack_token := Some (pe_ack_token row) |}.

Section wake.
Context `{UnicodeTables} `{SqlEngine} `{UuidText}.
Context (d : PayloadDispatcher).

(** [compute_sleep], in seconds; [fault] is a failed query. *)
Definition compute_sleep (now : Z) (fault : bool) (t : Table) : Z :=
  if fault then IDLE_POLL_INTERVAL_SECS
  else
    match next_pending_at t with
    | Some deadline_at =>
        if (deadline_at <=? now)%Z then 0
        else Z.min (deadline_at - now) IDLE_POLL_INTERVAL_SECS
    | None => IDLE_POLL_INTERVAL_SECS
    end.

(** A write that a database failure may prevent. *)
Definition unless_fault (fault : option string) (f : Table -> Table) (t : Table) : Table :=
  match fault with Some _ => t | None => f t end.

(** [handle_row]; [None] is the panic on a profile without rungs. *)
Definition handle_row (row : PendingEscalation) (now : Z) (env : RowEnv) (t : Table) :
    option (list Refire * Table) :=
  let profile := pd_profile d in
  if (max_rung profile <=? pe_rung_index row)%Z then
    let t := apply_ops (re_interleaved env) t in
    Some ([], unless_fault (re_fault env) (fun t => (close_event (pe_event_id row) t).2) t)
  else
    '(_, sent) ← dispatch_payload_for_rung d (payload_of row) (pe_rung_index row) (re_answers env);
    let t := apply_ops (re_interleaved env) t in
    let next_rung := (pe_rung_index row + 1)%Z in
    window ← ack_window_for profile next_rung;
    Some ([mkRefire (pe_event_id row) (pe_rung_index row) sent],
          unless_fault (re_fault env)
            (fun t => (advance_rung (pe_event_id row) next_rung (now + window) t).2) t).

Fixpoint handle_rows (rows : list PendingEscalation) (now : Z) (env : nat -> RowEnv) (i : nat) (t : Table) :
    option (list Refire * Table) :=
  match rows with
  | [] => Some ([], t)
  | row :: rows =>
      '(fired, t) ← handle_row row now (env i) t;
      '(rest, t) ← handle_rows rows now env (S i) t;
      Some (fired ++ rest, t)
  end.

Definition process_due_at (now : Z) (fault : bool) (env : nat -> RowEnv) (t : Table) :
    option (list Refire * Table) :=
  if fault then Some ([], t)
  else
    match take_due now TAKE_DUE_LIMIT t with
    | Err _ => Some ([], t)
    | Ok rows => handle_rows rows now env 0 t
    end.

(** What the task meets in one turn of its loop: the seconds that pass before it looks at
    the clock, whether the query for the next deadline fails, whether it is cancelled while
    it sleeps, the seconds it wakes late, the operations of other tasks that land while it
    sleeps, whether the query for the due rows fails, and what each row meets. *)
Record TurnEnv := mkTurnEnv {
  te_before : Z;
  te_sleep_fault : bool;
  te_cancelled : bool;
  te_late : Z;
  te_meanwhile : list EngineOp;
  te_take_fault : bool;
  te_rows : nat -> RowEnv;
}.

(** [run]: the re-fires, the clock of the last round, the table, and whether the loop
    still runs. *)
Fixpoint run (now : Z) (turns : list TurnEnv) (t : Table) : option (list Refire * Z * Table * bool) :=
  match turns with
  | [] => Some ([], now, t, true)
  | e :: turns =>
      let now := (now + te_before e)%Z in
      let sleep_for := compute_sleep now (te_sleep_fault e) t in
      if te_cancelled e then Some ([], now, t, false)
      else
        let now := (now + sleep_for + te_late e)%Z in
        '(fired, t) ← process_due_at now (te_take_fault e) (te_rows e) (apply_ops (te_meanwhile e) t);
        '(rest, now, t, running) ← run now turns t;
        Some (fired ++ rest, now, t, running)
  end.
End wake.

(** ** One row *)

Section wake_facts.
Context `{UnicodeTables} `{SqlEngine} `{UuidText}.
Context (d : PayloadDispatcher).

Definition calm (env : RowEnv) : Prop := re_interleaved env = [] /\ re_fault env = None.

Lemma rung_at_some p i : pf_rungs p <> [] -> (0 <= i)%Z -> exists r, rung_at p i = Some r /\ r ∈ pf_rungs p.
Proof.
  intros Hne Hi. unfold rung_at. destruct (lookup_lt_is_Some_2 (pf_rungs p)
    (Z.to_nat (Z.min i (Z.of_nat (length (pf_rungs p) - 1))))) as [r Hr].
  - destruct (pf_rungs p); [done|]. simpl. lia.
  - exists r. split; [done|]. by eapply list_elem_of_lookup_2.
Qed.

(** What a round without interference does to the row of a due event: it leaves, or goes up
    one rung. *)
Definition after_round (now : Z) (r : Row) : option Row :=
  if (max_rung (pd_profile d) <=? row_rung_index r)%Z then None
  else Some (set_deadline (now + default 0%Z (ack_window_for (pd_profile d) (row_rung_index r + 1)))
              (set_rung (row_rung_index r + 1) r)).

Definition put_row (k : string) (o : option Row) (t : Table) : Table :=
  match o with Some r => <[k := r]> t | None => delete k t end.

(** The rungs that were fired for an event, in order. *)
Definition fires (id : Z) (fired : list Refire) : list Z := rf_rung <$> filter (fun f => rf_event_id f = id) fired.

Lemma fires_app id f1 f2 : fires id (f1 ++ f2) = fires id f1 ++ fires id f2.
Proof. unfold fires. by rewrite filter_app, fmap_app. Qed.

Definition fired_by (r : Row) : list Z :=
  if (max_rung (pd_profile d) <=? row_rung_index r)%Z then [] else [row_rung_index r].

(** *** The work that is left *)

(** A pending row is handled once for each rung it has yet to climb, and once to close it. *)
Definition rank (r : Row) : nat :=
  if pending r then S (Z.to_nat (max_rung (pd_profile d) - row_rung_index r)) else 0.
Definition work (t : Table) : nat := sum_list (rank <$> (map_to_list t).*2).

Lemma work_delete (t : Table) k r : t !! k = Some r -> work t = rank r + work (delete k t).
Proof. intros Hr. unfold work. by rewrite <-(map_to_list_delete t k r Hr). Qed.

Lemma work_insert_fresh (t : Table) k r : t !! k = None -> work (<[k := r]> t) = rank r + work t.
Proof. intros Hr. unfold work. by rewrite (map_to_list_insert t k r Hr). Qed.

Lemma work_after now (t : Table) k r : t !! k = Some r -> pending r = true ->
  S (work (put_row k (after_round now r) t)) = work t.
Proof.
  intros Hr Hp. rewrite (work_delete t k r Hr). unfold after_round, rank at 1. rewrite Hp.
  destruct (Z.leb_spec (max_rung (pd_profile d)) (row_rung_index r)); simpl.
  - replace (Z.to_nat _) with 0 by lia. done.
  - rewrite <-insert_delete_eq, work_insert_fresh by apply lookup_delete_eq. unfold rank, pending in *. simpl. rewrite Hp. lia.
Qed.

Lemma work_none (t : Table) : work t = 0 -> forall k r, t !! k = Some r -> pending r = false.
Proof.
  intros Hw k r Hr. rewrite (work_delete t k r Hr) in Hw. unfold rank in Hw. by destruct (pending r).
Qed.

Lemma work_some (t : Table) : work t <> 0 -> exists k r, t !! k = Some r /\ pending r = true.
Proof.
  intros Hw. destruct (decide (Exists (fun kr => pending kr.2 = true) (map_to_list t))) as [Hx|Hx].
  - apply Exists_exists in Hx as ([k r] & Hin%elem_of_map_to_list & Hp). eauto.
  - exfalso. apply Hw. unfold work. apply not_Exists_Forall in Hx; [|apply _].
    induction Hx as [|[k r] l Hkr _ IH]; [done|]. csimpl. unfold rank at 1. simpl in Hkr. by destruct (pending r).
Qed.

Lemma sum_list_le b l : Forall (fun n => n <= b) l -> sum_list l <= length l * b.
Proof. induction 1 as [|n l Hn _ IH]; simpl; lia. Qed.

Lemma work_bound (t : Table) : pf_rungs (pd_profile d) <> [] -> table_wf t ->
  work t <= size t * length (pf_rungs (pd_profile d)).
Proof.
  intros Hne Hwf. unfold work. rewrite <-length_map_to_list, <-(length_fmap snd), <-(length_fmap rank). apply sum_list_le.
  apply Forall_fmap, Forall_fmap, Forall_forall. intros [k r] Hin%elem_of_map_to_list. simpl. unfold rank, max_rung.
  destruct (proj1 Hwf _ _ Hin) as (_ & _ & _ & Hpos). destruct (pf_rungs (pd_profile d)); [done|]. simpl.
  destruct (pending r); lia.
Qed.

Lemma handle_row_calm row now env t r :
  pf_rungs (pd_profile d) <> [] -> calm env -> (0 <= row_rung_index r)%Z ->
  t !! uuid_text (pe_event_id row) = Some r -> pending r = true -> pe_rung_index row = row_rung_index r ->
  exists fired, handle_row d row now env t = Some (fired, put_row (uuid_text (pe_event_id row)) (after_round now r) t) /\
    forall id, fires id fired = if bool_decide (id = pe_event_id row) then fired_by r else [].
Proof.
  intros Hne [Hi Hf] Hpos Hr Hp Hrung. unfold handle_row, after_round, fired_by. rewrite Hrung.
  destruct (Z.leb_spec (max_rung (pd_profile d)) (row_rung_index r)) as [Hmax|Hmax].
  - exists []. rewrite Hi, Hf. split; [done|]. intros id. by case_bool_decide.
  - unfold dispatch_payload_for_rung, channels_for, ack_window_for.
    destruct (rung_at_some (pd_profile d) (row_rung_index r) Hne Hpos) as (g & -> & _). simpl.
    destruct (if suppressed d _ then _ else _) as [o sent].
    destruct (rung_at_some (pd_profile d) (row_rung_index r + 1) Hne) as (g' & -> & _); [lia|]. simpl.
    eexists. rewrite Hi, Hf. simpl. unfold advance_rung, update_where.
    rewrite Hr, Hp. simpl. rewrite (proj2 (Z.ltb_lt _ _)) by lia. split; [done|]. intros id. unfold fires. rewrite filter_cons. simpl.
    by destruct (decide (pe_event_id row = id)) as [->|Hne']; [rewrite bool_decide_true|rewrite bool_decide_false by congruence].
Qed.

(** What a round did to the row of an event, and what it fired for it. *)
Definition round_row (now : Z) (t t' : Table) (fired : list Refire) (id : Z) : Prop :=
  t' !! uuid_text id = t !! uuid_text id /\ fires id fired = [] \/
  exists r, t !! uuid_text id = Some r /\ pending r = true /\
    t' !! uuid_text id = after_round now r /\ fires id fired = fired_by r.

Lemma put_row_eq k o t : put_row k o t !! k = o.
Proof. destruct o; simpl; [apply lookup_insert_eq|apply lookup_delete_eq]. Qed.
Lemma put_row_ne k k' o t : k <> k' -> put_row k o t !! k' = t !! k'.
Proof. intros Hne. destruct o; simpl; [by apply lookup_insert_ne|by apply lookup_delete_ne]. Qed.

Lemma handle_rows_calm rows now env : forall i t,
  pf_rungs (pd_profile d) <> [] -> (forall k, calm (env k)) -> NoDup (pe_event_id <$> rows) ->
  Forall (fun pe => exists r, t !! uuid_text (pe_event_id pe) = Some r /\ pending r = true /\
    row_rung_index r = pe_rung_index pe /\ (0 <= row_rung_index r)%Z) rows ->
  exists fired t', handle_rows d rows now env i t = Some (fired, t') /\ work t' + length rows = work t /\
    (forall id, id ∉ pe_event_id <$> rows -> t' !! uuid_text id = t !! uuid_text id /\ fires id fired = []) /\
    (forall id, round_row now t t' fired id).
Proof.
  induction rows as [|row rows IH]; intros i t Hne Hcalm Hnd Hrows.
  { exists [], t. split_and!; [done|simpl; lia|done|]. intros id. by left. }
  inv Hrows. csimpl in Hnd. apply NoDup_cons in Hnd as [Hnot Hnd].
  match goal with H : exists r, _ |- _ => destruct H as (r & Hr & Hp & Hrung & Hpos) end.
  destruct (handle_row_calm row now (env i) t r) as (f1 & E1 & Hf1); [done|apply Hcalm|done..|].
  set (t1 := put_row _ _ t) in *.
  destruct (IH (S i) t1) as (f2 & t2 & E2 & Hw & Hout & Hin); [done..| |].
  { eapply Forall_impl; [apply Forall_and; split; [done|]|].
    - apply Forall_forall. intros pe Hpe. exact (list_elem_of_fmap_2 pe_event_id _ _ Hpe).
    - simpl. intros pe [(r' & Hr' & ?) Hpe]. exists r'. split; [|done].
      unfold t1. rewrite put_row_ne; [done|]. intros E%(inj uuid_text). by rewrite E in Hnot. }
  exists (f1 ++ f2), t2. simpl. rewrite E1. simpl. rewrite E2.
  assert (Hold : forall id, id <> pe_event_id row -> t1 !! uuid_text id = t !! uuid_text id /\ fires id f1 = []).
  { intros id Hid. split; [unfold t1; rewrite put_row_ne; [done|]; by intros E%(inj uuid_text)|]. rewrite Hf1. by rewrite bool_decide_false. }
  split_and!; [done| | |].
  - pose proof (work_after now t _ r Hr Hp) as Hwa. fold t1 in Hwa. simpl. lia.
  - intros id. rewrite not_elem_of_cons. intros [Hid1 Hid2]. destruct (Hold id Hid1) as [Ho1 Ho2]. destruct (Hout id Hid2) as [Hu1 Hu2].
    split; [congruence|]. by rewrite fires_app, Ho2, Hu2.
  - intros id. unfold round_row. rewrite fires_app. destruct (decide (id = pe_event_id row)) as [->|Hid].
    + destruct (Hout _ Hnot) as [Hu1 Hu2]. right. exists r. split; [done|]. split; [done|]. rewrite Hu1, Hu2, Hf1, bool_decide_true, app_nil_r by done.
      split; [|done]. apply put_row_eq.
    + destruct (Hold id Hid) as [Ho1 Ho2]. rewrite Ho2. simpl. specialize (Hin id). unfold round_row in Hin. by rewrite Ho1 in Hin.
Qed.

(** A round: some rows are handled, at least one when a pending row is due. *)
Lemma process_due_calm now env t :
  pf_rungs (pd_profile d) <> [] -> (forall k, calm (env k)) -> table_wf t ->
  exists fired t' n, process_due_at d now false env t = Some (fired, t') /\ work t' + n = work t /\
    (n = 0 -> t' = t) /\
    (forall k r, t !! k = Some r -> pending r = true -> (row_deadline_at r <= now)%Z -> n <> 0) /\
    forall id, round_row now t t' fired id.
Proof.
  intros Hne Hcalm Hwf. unfold process_due_at.
  destruct (take_due_rows now TAKE_DUE_LIMIT t Hwf) as (rows & -> & Hconv).
  destruct (due_rows_spec now TAKE_DUE_LIMIT t) as (_ & _ & Hnd & Hin & Hout).
  rewrite (converts_keys _ _ Hconv) in Hnd.
  destruct (handle_rows_calm rows now env 0 t Hne Hcalm) as (fired & t' & E & Hw & _ & Hrow).
  - by apply (NoDup_fmap_1 uuid_text).
  - apply Forall_forall. intros pe [i Hi]%list_elem_of_lookup.
    destruct (Forall2_lookup_r _ _ _ _ _ Hconv Hi) as ([k r] & Hkr & Hk & _ & Hri & _). simpl in *. subst k.
    apply list_elem_of_lookup_2 in Hkr. destruct (Hin _ _ Hkr) as [Ht [Hp _]%andb_true_iff].
    exists r. split_and!; [done..|]. by destruct (proj1 Hwf _ _ Ht) as (_ & _ & _ & ?).
  - exists fired, t', (length rows). split_and!; [done|done| | |done].
    + intros Hn. destruct rows; [|done]. simpl in E. by simplify_eq.
    + intros k r Hr Hp Hd Hn. apply Forall2_length in Hconv. rewrite Hn in Hconv.
      destruct (Hout k r Hr) as [Hl _]; [unfold due; simpl; rewrite Hp; by apply Z.leb_le| |].
      * intros Hin'. by destruct (due_rows now TAKE_DUE_LIMIT t); [apply elem_of_nil in Hin'|].
      * unfold TAKE_DUE_LIMIT in Hl. unfold TAKE_DUE_LIMIT in Hconv. lia.
Qed.

(** ** Rounds keep the table well formed *)

Lemma handle_row_wf row now env t fired t' :
  table_wf t -> handle_row d row now env t = Some (fired, t') -> table_wf t'.
Proof.
  intros Hwf. unfold handle_row, unless_fault. destruct (_ <=? _)%Z.
  - intros [= <- <-]. destruct (re_fault env); auto using apply_ops_wf with selfdef.
    by apply close_event_wf, apply_ops_wf.
  - destruct (dispatch_payload_for_rung _ _ _ _) as [[o sent]|]; [|done]. simpl.
    destruct (ack_window_for _ _); [|done]. simpl. intros [= <- <-].
    destruct (re_fault env); [by apply apply_ops_wf|]. by apply advance_rung_wf, apply_ops_wf.
Qed.

Lemma handle_rows_wf rows now env : forall i t fired t',
  table_wf t -> handle_rows d rows now env i t = Some (fired, t') -> table_wf t'.
Proof.
  induction rows as [|row rows IH]; intros i t fired t' Hwf; simpl; [by intros [= <- <-]|].
  destruct (handle_row d row now (env i) t) as [[f1 t1]|] eqn:E1; [|done]. simpl.
  destruct (handle_rows d rows now env (S i) t1) as [[f2 t2]|] eqn:E2; [|done]. simpl.
  intros [= <- <-]. eapply IH; [|exact E2]. by eapply handle_row_wf.
Qed.

Lemma process_due_wf now env t fired t' :
  table_wf t -> process_due_at d now false env t = Some (fired, t') -> table_wf t'.
Proof.
  intros Hwf. unfold process_due_at. destruct (take_due _ _ t) as [rows|]; [|by intros [= <- <-]].
  by apply handle_rows_wf.
Qed.

Lemma due_rungs_nonneg now limit t rows :
  table_wf t -> Forall2 converts (due_rows now limit t) rows ->
  Forall (fun row => 0 <= pe_rung_index row)%Z rows.
Proof.
  intros Hwf Hconv. apply Forall_forall. intros pe [i Hi]%list_elem_of_lookup.
  destruct (Forall2_lookup_r _ _ _ _ _ Hconv Hi) as ([k r] & Hkr & _ & _ & <- & _).
  apply list_elem_of_lookup_2, due_rows_elem in Hkr as [Ht _].
  by destruct (proj1 Hwf _ _ Ht) as (_ & _ & _ & ?).
Qed.

(** ** The loop *)

(** A turn in which nobody cancels the task, no statement fails and no other task touches
    the table. *)
Definition undisturbed (e : TurnEnv) : Prop :=
  (0 <= te_before e)%Z /\ te_sleep_fault e = false /\ te_cancelled e = false /\ (0 <= te_late e)%Z /\
  te_meanwhile e = [] /\ te_take_fault e = false /\ forall i, calm (te_rows e i).

Lemma sleep_reaches now t k r : t !! k = Some r -> pending r = true -> exists k' r', t !! k' = Some r' /\ pending r' = true /\
  (row_deadline_at r' <= row_deadline_at r)%Z /\ (0 <= compute_sleep now false t)%Z /\
  (row_deadline_at r' <= now + compute_sleep now false t \/
   compute_sleep now false t = 60 /\ now + 60 < row_deadline_at r')%Z.
Proof.
  intros Hr Hp. unfold compute_sleep, IDLE_POLL_INTERVAL_SECS. pose proof (next_pending_spec t) as Hn.
  destruct (next_pending_at t) as [dl|]; [|by rewrite (Hn k r Hr) in Hp].
  destruct Hn as [(k' & r' & Hr' & Hp' & <-) Hmin]. exists k', r'. split; [done|]. split; [done|].
  split; [by eapply Hmin|]. destruct (Z.leb_spec (row_deadline_at r') now); lia.
Qed.

(** How the run leaves an event: closed if it was pending, after its rungs were fired. *)
Definition left_rungs (t : Table) (id : Z) : list Z :=
  match t !! uuid_text id with
  | Some r => if pending r then seqZ (row_rung_index r) (max_rung (pd_profile d) - row_rung_index r) else []
  | None => []
  end.
Definition ended (t t' : Table) (fired : list Refire) (id : Z) : Prop :=
  t' !! uuid_text id = (r ← t !! uuid_text id; if pending r then None else Some r) /\ fires id fired = left_rungs t id.

Lemma ended_step now t t1 t2 f1 f2 id : round_row now t t1 f1 id -> ended t1 t2 f2 id -> ended t t2 (f1 ++ f2) id.
Proof.
  unfold ended, left_rungs. rewrite fires_app. intros [[-> ->]|(r & Hr & Hp & Ha & ->)] [He Hf]; [done|].
  rewrite He, Hf, Ha, Hr. simpl. unfold after_round, fired_by. rewrite Hp.
  destruct (Z.leb_spec (max_rung (pd_profile d)) (row_rung_index r)); simpl.
  - by rewrite seqZ_nil by lia.
  - unfold pending in *. simpl. rewrite Hp. split; [done|]. rewrite (seqZ_cons (row_rung_index r)) by lia. simpl. f_equal. f_equal; lia.
Qed.

Lemma run_ends B turns : forall now t w,
  pf_rungs (pd_profile d) <> [] -> Forall (fun r => 0 <= rg_ack_window_secs r <= B)%Z (pf_rungs (pd_profile d)) -> (0 <= B)%Z ->
  Forall undisturbed turns -> table_wf t ->
  map_Forall (fun _ r => pending r = true -> (row_deadline_at r <= now + B)%Z) t ->
  (work t = 0 \/ exists k r, t !! k = Some r /\ pending r = true /\ (row_deadline_at r <= now + 60 * Z.of_nat w)%Z /\
     1 <= w /\ (work t - 1) * (Z.to_nat (B / 60) + 1) + w <= length turns) ->
  exists fired now' t', run d now turns t = Some (fired, now', t', true) /\ forall id, ended t t' fired id.
Proof.
  induction turns as [|e turns IH]; intros now t w Hne Hwin HB Hq Hwf Hdl Hw.
  { destruct Hw as [Hw|(k & r & _ & _ & _ & Hw1 & Hw)]; [|cbn [length] in Hw; apply Nat.le_0_r, Nat.eq_add_0 in Hw; lia]. exists [], now, t. split; [done|]. intros id.
    unfold ended, left_rungs. destruct (t !! uuid_text id) as [r|] eqn:Er; [|done]. simpl. by rewrite (work_none t Hw _ r Er). }
  inversion Hq as [|? ? (Hb & Hsf & Hcn & Hlate & Hmw & Htf & Hrows) Hq']; subst. cbn [run]. rewrite Hsf, Hcn, Hmw, Htf.
  cbn [apply_ops foldl]. set (now1 := (now + te_before e)%Z). set (sl := compute_sleep now1 false t).
  set (now2 := (now1 + sl + te_late e)%Z).
  assert (Hsl : (0 <= sl)%Z).
  { unfold sl, compute_sleep, IDLE_POLL_INTERVAL_SECS. destruct (next_pending_at t); [|lia]. destruct (Z.leb_spec z now1); lia. }
  destruct (process_due_calm now2 (te_rows e) t Hne Hrows Hwf) as (f1 & t1 & n & E1 & Hwork & Hn0 & Hdue & Hrow).
  unfold apply_ops. cbn [foldl]. rewrite E1. cbn [mbind option_bind].
  assert (Hwf1 : table_wf t1) by (by eapply process_due_wf).
  assert (Hdl1 : map_Forall (fun _ r => pending r = true -> (row_deadline_at r <= now2 + B)%Z) t1).
  { intros k r1 Hr1 Hp1. destruct (proj1 Hwf1 k r1 Hr1) as [(id & ->) _].
    destruct (Hrow id) as [[Hs _]|(r & Hr & Hp & Hs & _)]; rewrite Hs in Hr1.
    - specialize (Hdl _ _ Hr1 Hp1). simpl in Hdl. lia.
    - unfold after_round in Hr1. destruct (Z.leb_spec (max_rung (pd_profile d)) (row_rung_index r)); simplify_eq/=.
      destruct (proj1 Hwf _ _ Hr) as (_ & _ & _ & Hpos). unfold ack_window_for.
      destruct (rung_at_some (pd_profile d) (row_rung_index r + 1) Hne) as (g & -> & Hg); [lia|].
      rewrite Forall_forall in Hwin. specialize (Hwin g Hg). simpl. lia. }
  assert (Hgoal : exists w', work t1 = 0 \/ exists k r, t1 !! k = Some r /\ pending r = true /\
    (row_deadline_at r <= now2 + 60 * Z.of_nat w')%Z /\ 1 <= w' /\
    (work t1 - 1) * (Z.to_nat (B / 60) + 1) + w' <= length turns).
  { destruct (decide (work t1 = 0)) as [|Hw1]; [exists 0; by left|].
    destruct Hw as [Hw|(k & r & Hr & Hp & Hd & Hw & Hlen)]; [lia|]. cbn [length] in Hlen.
    destruct (decide (n = 0)) as [Hz|Hz].
    - specialize (Hn0 Hz). subst t1.
      destruct (sleep_reaches now1 t k r Hr Hp) as (k' & r' & Hr' & Hp' & Hle & _ & [Hsl'|[Hsl' Hfar]]); fold sl in Hsl'.
      + exfalso. apply (Hdue k' r' Hr' Hp'); lia.
      + exists (w - 1). right. exists k', r'. split_and!; [done|done|lia|lia|lia].
    - exists (Z.to_nat (B / 60) + 1). right. destruct (work_some t1 Hw1) as (k1 & r1 & Hr1 & Hp1). exists k1, r1.
      split; [done|]. split; [done|]. specialize (Hdl1 _ _ Hr1 Hp1). simpl in Hdl1.
      pose proof (Z.div_pos B 60 HB ltac:(lia)). pose proof (Z.mod_pos_bound B 60 ltac:(lia)). pose proof (Z.div_mod B 60 ltac:(lia)).
      split; [lia|]. split; [lia|].
      assert (Hm : work t1 * (Z.to_nat (B / 60) + 1) <= (work t - 1) * (Z.to_nat (B / 60) + 1)) by (apply Nat.mul_le_mono_r; lia).
      destruct (work t1) as [|m]; [done|]. simpl. simpl in Hm. rewrite Nat.sub_0_r. lia. }
  destruct Hgoal as [w' Hw'].
  destruct (IH now2 t1 w' Hne Hwin HB Hq' Hwf1 Hdl1 Hw') as (f2 & now' & t2 & E2 & Hend). rewrite E2. cbn [mbind option_bind].
  exists (f1 ++ f2), now', t2. split; [done|]. intros id. by eapply ended_step.
Qed.
End wake_facts.

(** ** Properties *)

(** C40: Escalations end. Take any stored escalations, however many, and a wake task that runs
    undisturbed: it sleeps until the next deadline but a minute at most, wakes then or any
    time later, handles up to a hundred due rows and sleeps again. Let no ack window of the
    profile and no deadline be more than B seconds away. Then after at most (rows) x (rungs)
    x (B/60 + 1) turns no escalation is pending any more. Each pending one has fired the
    rungs from the one it had reached up to the last but one, each exactly once and in
    order, and was then closed: the rung count less one closes it, one round earlier than
    the documentation of the profile says. Acknowledged rows are untouched and no turn
    panics. *)
Theorem escalations_end `{UnicodeTables} `{SqlEngine} `{UuidText} (d : PayloadDispatcher) (now B : Z)
    (turns : list TurnEnv) (t : Table) :
  pf_rungs (pd_profile d) <> [] -> (0 <= B)%Z -> Forall (fun r => 0 <= rg_ack_window_secs r <= B)%Z (pf_rungs (pd_profile d)) ->
  table_wf t -> map_Forall (fun _ r => pending r = true -> row_deadline_at r <= now + B)%Z t ->
  Forall undisturbed turns ->
  size t * length (pf_rungs (pd_profile d)) * (Z.to_nat (B / 60) + 1) <= length turns ->
  exists fired now' t', run d now turns t = Some (fired, now', t', true) /\
    forall id, t' !! uuid_text id = (r ← t !! uuid_text id; if pending r then None else Some r) /\
      forall r, t !! uuid_text id = Some r -> pending r = true ->
        fires id fired = seqZ (row_rung_index r) (Z.of_nat (length (pf_rungs (pd_profile d))) - 1 - row_rung_index r).
Proof.
  intros Hne HB Hwin Hwf Hdl Hq Hlen. set (K := Z.to_nat (B / 60) + 1) in *.
  destruct (run_ends d B turns now t K) as (fired & now' & t' & E & Hend); try done.
  - destruct (decide (work d t = 0)) as [|Hw]; [by left|]. right. destruct (work_some d t Hw) as (k & r & Hr & Hp). exists k, r.
    split; [done|]. split; [done|]. specialize (Hdl _ _ Hr Hp). simpl in Hdl. unfold K.
    pose proof (Z.div_pos B 60 HB ltac:(lia)). pose proof (Z.mod_pos_bound B 60 ltac:(lia)). pose proof (Z.div_mod B 60 ltac:(lia)).
    split; [lia|]. split; [lia|]. fold K. pose proof (work_bound d t Hne Hwf) as Hb.
    assert (Hm : work d t * K <= size t * length (pf_rungs (pd_profile d)) * K) by (by apply Nat.mul_le_mono_r).
    destruct (work d t) as [|m]; [done|]. simpl in *. rewrite Nat.sub_0_r. lia.
  - exists fired, now', t'. split; [done|]. intros id. destruct (Hend id) as [Ht Hf]. split; [done|].
    intros r Hr Hp. rewrite Hf. unfold left_rungs. rewrite Hr, Hp. f_equal. unfold max_rung.
    destruct (pf_rungs (pd_profile d)); [done|]. simpl. lia.
Qed.

(** The wake task never oversleeps. It wakes at the latest at the earliest
    pending deadline and at the latest after a minute; it does not sleep at all
    exactly when a row is due. *)
Theorem sleep_bounded `{SqlEngine} `{UuidText} (now : Z) (t : Table) :
  (0 <= compute_sleep now false t <= IDLE_POLL_INTERVAL_SECS)%Z /\
  (forall k r, t !! k = Some r -> pending r = true ->
     (row_deadline_at r <= now \/ now + compute_sleep now false t <= row_deadline_at r)%Z) /\
  (compute_sleep now false t = 0%Z <->
   exists k r, t !! k = Some r /\ pending r = true /\ (row_deadline_at r <= now)%Z).
Proof.
  unfold compute_sleep, IDLE_POLL_INTERVAL_SECS. pose proof (next_pending_spec t) as Hn.
  destruct (next_pending_at t) as [dl|].
  - destruct Hn as [(k0 & r0 & Hr0 & Hp0 & Hd0) Hmin].
    destruct (Z.leb_spec dl now); (split_and!; [lia|lia| |]).
    + intros k r Hr Hp. specialize (Hmin k r Hr Hp). lia.
    + split; [|done]. intros _. exists k0, r0. split_and!; [done..|lia].
    + intros k r Hr Hp. specialize (Hmin k r Hr Hp). lia.
    + split; [lia|]. intros (k & r & Hr & Hp & Hd). specialize (Hmin k r Hr Hp). lia.
  - split_and!; [lia|lia| |].
    + intros k r Hr Hp. apply Hn in Hr. congruence.
    + split; [done|]. intros (k & r & Hr & Hp & _). apply Hn in Hr. congruence.
Qed.

(** The last rung's channel list is dead. The wake task closes a row that
    reached the last rung without firing, fires a row's rung before advancing
    it, and a submission ignores rungs: two dispatchers whose profiles differ
    only in the channels of the last rung behave alike on every table. *)
Theorem last_rung_channels_unused `{UnicodeTables} `{SqlEngine} `{UuidText} (d1 d2 : PayloadDispatcher)
    (init : list Rung) (w : Z) (c1 c2 : list string) (now : Z) (fault : bool) (env : nat -> RowEnv) (t : Table) :
  table_wf t -> pf_rungs (pd_profile d1) = init ++ [mkRung w c1] -> pf_rungs (pd_profile d2) = init ++ [mkRung w c2] ->
  pd_channels d1 = pd_channels d2 -> pd_mode d1 = pd_mode d2 -> pd_panic_floor d1 = pd_panic_floor d2 ->
  pd_subscriptions d1 = pd_subscriptions d2 ->
  process_due_at d1 now fault env t = process_due_at d2 now fault env t /\
  (forall payload deadline minted dbfault answers,
     submit d1 payload deadline now minted dbfault answers t
     = submit d2 payload deadline now minted dbfault answers t).
Proof.
  intros Hwf Hr1 Hr2 Hc Hm Hp Hs.
  assert (Hlen : length (pf_rungs (pd_profile d1)) = length (pf_rungs (pd_profile d2)))
    by (rewrite Hr1, Hr2, !length_app; done).
  assert (Hsup : forall payload, suppressed d1 payload = suppressed d2 payload).
  { intros. unfold suppressed, crosses_panic_floor. by rewrite Hm, Hp. }
  assert (Hfire : forall payload rf answers,
    fire_channels_filtered d1 payload rf answers = fire_channels_filtered d2 payload rf answers)
    by (intros; by apply fire_channels_mode).
  assert (Hmax : max_rung (pd_profile d1) = max_rung (pd_profile d2)) by (unfold max_rung; by rewrite Hlen).
  assert (Hrow : forall row e t', (0 <= pe_rung_index row)%Z ->
    handle_row d1 row now e t' = handle_row d2 row now e t').
  { intros row e t' Hpos. unfold handle_row. rewrite Hmax.
    destruct (Z.leb_spec (max_rung (pd_profile d2)) (pe_rung_index row)) as [|Hlt]; [done|].
    assert (Hch : channels_for (pd_profile d1) (pe_rung_index row) = channels_for (pd_profile d2) (pe_rung_index row)).
    { unfold channels_for, rung_at. rewrite Hlen, Hr1, Hr2.
      unfold max_rung in Hlt. rewrite Hr2, length_app in Hlt. simpl in Hlt.
      rewrite length_app. simpl.
      rewrite (lookup_app_l init [mkRung w c1]), (lookup_app_l init [mkRung w c2]) by lia. done. }
    assert (Hw : ack_window_for (pd_profile d1) (pe_rung_index row + 1)
      = ack_window_for (pd_profile d2) (pe_rung_index row + 1)).
    { unfold ack_window_for, rung_at. rewrite Hlen, Hr1, Hr2. rewrite <-!list_lookup_fmap.
      by rewrite !fmap_app. }
    unfold dispatch_payload_for_rung. rewrite Hch, Hw. destruct (channels_for (pd_profile d2) _); simpl; [|done].
    by rewrite Hsup, Hfire. }
  split.
  - unfold process_due_at. destruct fault; [done|].
    destruct (take_due_rows now TAKE_DUE_LIMIT t Hwf) as (rows & -> & Hconv).
    assert (Hpos : Forall (fun row => 0 <= pe_rung_index row)%Z rows) by exact (due_rungs_nonneg now TAKE_DUE_LIMIT t rows Hwf Hconv).
    clear Hwf Hconv. generalize 0 as i. revert t. induction Hpos as [|row rows Hrung _ IH]; intros t i; [done|].
    simpl. rewrite Hrow by done.
    destruct (handle_row d2 row now (env i) t) as [[f t1]|]; [|done]. simpl. by rewrite IH.
  - intros. unfold submit, fire_channels. by rewrite Hsup, Hfire.
Qed.

(** ** The properties on a small table *)

Module WakeWitnesses.
Import EngineDemo.

Definition dispatcher (last : list string) : PayloadDispatcher :=
  mkDispatcher ["ntfy"; "smtp"] Mode.Enforce
    (mkProfile "p" [mkRung 60 ["ntfy"]; mkRung 120 ["smtp"]; mkRung 600 last]) None ∅.

Definition quiet (_ : nat) : RowEnv := mkRowEnv (fun _ => Err ChannelTimeout) [] None.
(** A turn that wakes two seconds late. *)
Definition late : TurnEnv := mkTurnEnv 1 false false 2 [] false quiet.
Definition turns : list TurnEnv := replicate 99 late.

Example fired_in_order :
  match run (dispatcher []) 0 turns table with
  | Some (fired, _, t, _) => Some ((fun f => (rf_event_id f, rf_rung f, rf_sent f)) <$> fired, size t)
  | None => None
  end = Some ([(1, 1, ["smtp"]); (2, 0, ["ntfy"]); (2, 1, ["smtp"])]%Z, 0).
Proof. by vm_compute. Qed.

Lemma escalations_end_witness :
  exists fired now' t', run (dispatcher []) 0 turns table = Some (fired, now', t', true) /\
    t' !! uuid_text 2 = None /\ fires 2 fired = [0; 1]%Z.
Proof.
  destruct (escalations_end (dispatcher []) 0 600 turns table) as (fired & now' & t' & E & Ht).
  - discriminate.
  - lia.
  - repeat constructor; simpl; discriminate || lia.
  - exact table_ok.
  - intros k r Hr _. apply elem_of_map_to_list in Hr. vm_compute in Hr.
    repeat (apply elem_of_cons in Hr as [[= _ ->]|Hr]; [simpl; lia|]). by apply elem_of_nil in Hr.
  - apply Forall_forall. intros e He%elem_of_replicate_inv. subst e. repeat split; simpl; done || lia.
  - vm_compute. lia.
  - exists fired, now', t'. split; [exact E|]. destruct (Ht 2%Z) as [H1 H2]. split; [rewrite H1; vm_compute; reflexivity|].
    destruct (table !! uuid_text 2) as [r|] eqn:Er; [|vm_compute in Er; discriminate].
    rewrite (H2 r eq_refl); vm_compute in Er; injection Er as <-; reflexivity.
Defined.

Lemma sleep_bounded_witness :
  compute_sleep 95 false table = 5%Z /\
  forall k r, table !! k = Some r -> pending r = true ->
    (row_deadline_at r <= 95 \/ 95 + compute_sleep 95 false table <= row_deadline_at r)%Z.
Proof. split; [reflexivity|]. exact (proj1 (proj2 (sleep_bounded 95 table))). Defined.

Lemma last_rung_channels_unused_witness :
  process_due_at (dispatcher ["twilio"]) 500 false quiet table
  = process_due_at (dispatcher ["ntfy"]) 500 false quiet table.
Proof.
  apply (last_rung_channels_unused (dispatcher ["twilio"]) (dispatcher ["ntfy"])
    [mkRung 60 ["ntfy"]; mkRung 120 ["smtp"]] 600 ["twilio"] ["ntfy"]); [exact table_ok|reflexivity..].
Defined.
End WakeWitnesses.
