(* ===== verification/Api.v ===== *)
(** * The HTTP API: who may do what

    Models of crates/selfdef-api: the transports with their tokens (transport.rs),
    the control extractor and the control verbs (control.rs), the acknowledgement
    link and the subscriber quota of the event stream (handlers.rs), the handles
    (state.rs) and the routes that change state (lib.rs). The handlers of the
    registries are in Registries, the components behind the control verbs in
    Correlator, Responder and Escalation.

    HTTP itself (hyper, axum) is not modelled: a request is the text of its
    authorization header and a decoded verb. What the host answers to one request
    is a [Call]. *)

From S2P Require Import Prelude Core Signing Sigma RuleStore Bus Correlator Responder Ms003 Registry Registries.
From S2P Require Import Notify Escalation.
From stdpp Require Import options.

(** ** Tokens *)

Record TlsConfig := mkTlsConfig {
  tls_cert_path : string;
  tls_key_path : string;
  tls_client_ca : option string;
}.

Record ApiConfig := mkApiConfig {
  ac_enabled : bool;
  ac_unix_socket : option string;
  ac_tcp_addr : option (IpAddr * Z);
  ac_token_file : option string;
  ac_control_token_file : option string;
  ac_unix_socket_mode : Z;
  ac_tls : option TlsConfig;
}.

Module Capability.
Inductive t := Read | Full.

#[global] Instance eq_dec : EqDecision t.
Proof. solve_decision. Defined.
End Capability.

Inductive ServerError :=
| ServerIo (e : string)
| EmptyToken (p : string)
| LooseTokenMode (p : string) (mode : Z)
| MissingToken
| NoTransport
| Tls (e : string).

Record LoadedTokens := mkLoadedTokens {
  lt_read : string;
  lt_control : option string;
}.

(** What a path answers to [metadata] (the mode) and to [read_to_string]. *)
Record TokenFile := mkTokenFile {
  tf_mode : result Z string;
  tf_text : result string string;
}.
Abbreviation TokenFiles := (string -> TokenFile).

Section tokens.
Context `{UnicodeTables}.

Definition read_token (files : TokenFiles) (path : string) : result string ServerError :=
  match tf_mode (files path) with
  | Err e => Err (ServerIo e)
  | Ok mode =>
      let mode := Z.land mode 511 in
      if negb (Z.land mode 63 =? 0)%Z then Err (LooseTokenMode path mode)
      else
        match tf_text (files path) with
        | Err e => Err (ServerIo e)
        | Ok raw =>
            let token := trim raw in
            if bool_decide (token = "") then Err (EmptyToken path) else Ok token
        end
  end.

Definition load_tokens (files : TokenFiles) (cfg : ApiConfig) : result LoadedTokens ServerError :=
  match ac_token_file cfg with
  | None => Err MissingToken
  | Some p =>
      let? read := read_token files p in
      match ac_control_token_file cfg with
      | Some p => let? control := read_token files p in Ok (mkLoadedTokens read (Some control))
      | None => Ok (mkLoadedTokens read None)
      end
  end.

(** [TokenReloader::reload]: the tokens stay as they are on an error. *)
Definition reload (files : TokenFiles) (cfg : ApiConfig) (tokens : option LoadedTokens) :
    result unit ServerError * option LoadedTokens :=
  match load_tokens files cfg with
  | Ok new => (Ok tt, Some new)
  | Err e => (Err e, tokens)
  end.

Definition is_loaded (tokens : option LoadedTokens) : bool := bool_decide (is_Some tokens).

(** Which transports [ApiServer::run] goes on to serve, and the tokens it starts with;
    the serving itself is [Transport.server_run]. *)
Definition server_start (files : TokenFiles) (cfg : ApiConfig) (tokens : option LoadedTokens) :
    result (bool * bool) ServerError * option LoadedTokens :=
  if negb (ac_enabled cfg) then (Ok (false, false), tokens)
  else
    let unix := bool_decide (is_Some (ac_unix_socket cfg)) in
    match ac_tcp_addr cfg with
    | None => if unix then (Ok (true, false), tokens) else (Err NoTransport, tokens)
    | Some _ =>
        match load_tokens files cfg with
        | Err e => (Err e, tokens)
        | Ok initial => (Ok (unix, true), Some initial)
        end
    end.
End tokens.

(** *** Authentication *)

(** The accumulator of [token_eq]; the texts have the same length. *)
Fixpoint token_diff (p e : string) (diff : Z) : Z :=
  match p, e with
  | String a p, String b e => token_diff p e (Z.lor diff (Z.lxor (zbyte a) (zbyte b)))
  | _, _ => diff
  end.
Definition token_eq (presented expected : string) : bool :=
  if negb (String.length presented =? String.length expected) then false
  else (token_diff presented expected 0 =? 0)%Z.

(** The capability a request on the TCP transport earns; [header] is the
    authorization header, when there is one that is text. *)
Definition bearer_auth (tokens : option LoadedTokens) (header : option string) : option Capability.t :=
  match tokens with
  | None => None
  | Some tokens =>
      match header ≫= strip_prefix "Bearer " with
      | None => None
      | Some p =>
          if match lt_control tokens with Some c => token_eq p c | None => false end then Some Capability.Full
          else if token_eq p (lt_read tokens) then Some Capability.Read
          else None
      end
  end.

(** ** Answers *)

Record ApiError := mkApiError { ae_status : Z; ae_message : string }.
Definition UNAUTHORIZED : Z := 401.
Definition FORBIDDEN : Z := 403.
Definition SERVICE_UNAVAILABLE : Z := 503.

Definition internal (m : string) : ApiError := mkApiError INTERNAL_SERVER_ERROR m.
Definition bad_request (m : string) : ApiError := mkApiError BAD_REQUEST m.
Definition not_found (m : string) : ApiError := mkApiError NOT_FOUND m.
Definition unavailable (m : string) : ApiError := mkApiError SERVICE_UNAVAILABLE m.

Definition require_control (cap : option Capability.t) : result unit ApiError :=
  match cap with
  | Some Capability.Full => Ok tt
  | Some Capability.Read => Err (mkApiError FORBIDDEN "control verb requires the control token")
  | None => Err (mkApiError UNAUTHORIZED "unauthenticated")
  end.

(** ** Error texts *)

Definition signing_error_display (e : SigningError) : string :=
  match e with
  | ReadPublicKey p s => "reading public key " +:+ path_display p +:+ ": " +:+ s
  | ReadTarget p s => "reading signed target " +:+ path_display p +:+ ": " +:+ s
  | ReadSignature p s => "reading signature file " +:+ path_display p +:+ ": " +:+ s
  | BadPublicKey p r => "public key file " +:+ path_display p +:+ " unreadable or malformed: " +:+ r
  | MissingSignature p t =>
      "signature file " +:+ path_display p +:+ " is missing — operator must sign with `minisign -S -m "
      +:+ path_display t +:+ "`"
  | BadSignature p r => "signature file " +:+ path_display p +:+ " malformed: " +:+ r
  | VerificationFailed t =>
      "signature on " +:+ path_display t +:+ " does not verify under the configured public key"
  end.

Definition sigma_error_display (e : SigmaError) : string :=
  match e with
  | Yaml p s => "yaml parse error in " +:+ path_display p +:+ ": " +:+ s
  | Sigma.Io s => "io error: " +:+ s
  | InvalidRule id r => "invalid rule " +:+ id +:+ ": " +:+ r
  | RegexError s => "invalid regex: " +:+ s
  | InvalidTimeframe s => "invalid timeframe: " +:+ s
  | InvalidCondition s => "invalid condition: " +:+ s
  | Signature p s => "signature check failed for " +:+ path_display p +:+ ": " +:+ signing_error_display s
  end.

Definition action_error_display (e : ActionError) : string :=
  match e with
  | ActionIo r => "io error: " +:+ r
  | ActionNotify r => "notify failed: " +:+ r
  | ActionExec r => "exec failed: " +:+ r
  end.

(** ** State *)

(** The handles and settings of [ApiState]. *)
Record ApiContext := mkApiContext {
  ax_host_tag : string;
  ax_publisher : bool;
  ax_responder : option Responder;
  ax_grants_overlap_policy : Grants.GrantsOverlapPolicy;
  ax_grants_issuance_cooldown_secs : Z;
  ax_grants_path : string;
  ax_tokens_path : string;
  ax_sandboxes_path : string;
  ax_quarantine_path : string;
  ax_trust_scores_path : string;
}.

(** What a request can do besides changing the state: publish an event, walk the
    actions of the responder, run one action on an event. *)
Inductive ApiEffect :=
| Published (e : Event)
| Dispatched (verdicts : list (string * Verdict))
| Ran (action : string) (e : Event).

Section verbs.
Context `{RuleLibs} `{!UnicodeTables} `{!WireFormat} `{!Minisign} `{!RuleYaml} `{!SqlEngine} `{!UuidText} `{!Rfc3339}.
Context `{!HashValues Grants.GrantKind.t Grants.GrantSummary} `{!SnapshotJson Grants.GrantEntry Grants.GrantSummary}.
Context `{!HashValues CapTokens.TrustRing.t CapTokens.RingSummary}
  `{!SnapshotJson CapTokens.CapabilityEntry CapTokens.RingSummary}.
Context `{!HashValues Sandboxes.SandboxTier.t Sandboxes.TierSummary}
  `{!SnapshotJson Sandboxes.AllocationEntry Sandboxes.TierSummary}.
Context `{!HashValues Quarantines.MismatchSeverity.t Quarantines.SeveritySummary}
  `{!SnapshotJson Quarantines.QuarantineEntry Quarantines.SeveritySummary}.
Context `{!HashValues TrustScores.TrustBand.t TrustScores.BandTotal}
  `{!SnapshotJson TrustScores.ToolScoreEntry TrustScores.BandSummary}.

(** The state behind the handles. *)
Record Daemon := mkDaemon {
  dm_correlator : option Correlator;
  dm_responder : RespState;
  dm_engine : option Table;
  dm_disk : Disk;
  dm_effects : list ApiEffect;
}.

Definition with_correlator (c : option Correlator) (d : Daemon) : Daemon :=
  mkDaemon c (dm_responder d) (dm_engine d) (dm_disk d) (dm_effects d).
Definition with_resp (s : RespState) (d : Daemon) : Daemon :=
  mkDaemon (dm_correlator d) s (dm_engine d) (dm_disk d) (dm_effects d).
Definition with_engine (t : option Table) (d : Daemon) : Daemon :=
  mkDaemon (dm_correlator d) (dm_responder d) t (dm_disk d) (dm_effects d).
Definition with_disk (files : Disk) (d : Daemon) : Daemon :=
  mkDaemon (dm_correlator d) (dm_responder d) (dm_engine d) files (dm_effects d).
Definition add_effect (e : ApiEffect) (d : Daemon) : Daemon :=
  mkDaemon (dm_correlator d) (dm_responder d) (dm_engine d) (dm_disk d) (dm_effects d ++ [e]).

(** What the host gives to one request: clock and file answers of the registries, the
    rule files, identifiers and times of the events made, what the actions do,
    what the event store answers, the time in seconds and, when the escalation
    database fails, its error. *)
Record Call := mkCall {
  cl_io : Io;
  cl_fs : LiveFs;
  cl_audit_stamp : Stamp;
  cl_event_stamp : Stamp;
  cl_env : nat -> Attempt;
  cl_run : Event -> string -> RunResult;
  cl_store : Z -> result (option Event) string;
  cl_now : Z;
  cl_db : option EngineError;
}.

Inductive Verb :=
| RulesReload
| PanicFire (confirm : string) (message : option string)
| ActionsRun (name : string) (event : option Event) (event_id : option string)
| ActionsList
| NotifyAck (token : string)
| GrantsShow
| GrantsIssue (req : Grants.GrantRequest)
| GrantsRevoke (id : string)
| TokensSnapshot
| TokensIssue (req : CapTokens.CapabilityRequest)
| TokensRevoke (id : string)
| SandboxesSnapshot
| SandboxesAllocate (req : Sandboxes.AllocationRequest)
| SandboxesRelease (id : string)
| QuarantineSnapshot
| QuarantineRelease (req : Quarantines.OverrideRequest)
| QuarantineForfeit (req : Quarantines.OverrideRequest)
| ScoresSnapshot
| ScoresAdmit (req : TrustScores.AdmitRequest)
| ScoresOperatorDelta (req : TrustScores.OperatorDeltaRequest).

Inductive Reply :=
| RulesLoaded (n : nat)
| PanicDispatched (host_tag : string)
| ActionRan (action status notes : string)
| Actions (names : list string)
| Text (body : string)
| GrantReply (g : Grants.GrantEntry)
| GrantsReply (s : Snapshot Grants.GrantEntry Grants.GrantSummary)
| TokenReply (t : CapTokens.CapabilityEntry)
| TokensReply (s : Snapshot CapTokens.CapabilityEntry CapTokens.RingSummary)
| SandboxReply (a : Sandboxes.AllocationEntry)
| SandboxesReply (s : Snapshot Sandboxes.AllocationEntry Sandboxes.TierSummary)
| QuarantineReply (s : Snapshot Quarantines.QuarantineEntry Quarantines.SeveritySummary)
| ScoresReply (s : Snapshot TrustScores.ToolScoreEntry TrustScores.BandSummary).

Section handlers.
Context (ctx : ApiContext).

(** *** Control verbs *)

Definition audit_event (st : Stamp) (action status : string) (details : json) : Event :=
  with_raw (JObject [("action", JString action); ("status", JString status); ("details", details)])
    (with_message ("api.control " +:+ action +:+ ": " +:+ status)
      (event_new st INCIDENT_FINDING 1 SeverityId.Informational (ax_host_tag ctx) "selfdef.api" 0)).

Definition emit_audit (st : Stamp) (action status : string) (details : json) (d : Daemon) : Daemon :=
  if ax_publisher ctx then add_effect (Published (audit_event st action status details)) d else d.

Definition rules_reload (call : Call) (d : Daemon) : result Reply ApiError * Daemon :=
  match dm_correlator d with
  | None => (Err (unavailable "correlator handle not configured"), d)
  | Some corr =>
      match load_rules (cl_fs call) corr with
      | (Ok n, corr) =>
          (Ok (RulesLoaded n),
           emit_audit (cl_audit_stamp call) "rules_reload" "ok" (JObject [("rules_loaded", JPosInt (Z.of_nat n))])
             (with_correlator (Some corr) d))
      | (Err e, corr) =>
          (Err (internal ("rule reload failed: " +:+ sigma_error_display e)),
           emit_audit (cl_audit_stamp call) "rules_reload" "error"
             (JObject [("error", JString (sigma_error_display e))]) (with_correlator (Some corr) d))
      end
  end.

Definition panic_event (st : Stamp) (msg : string) : Event :=
  with_message msg (event_new st DETECTION_FINDING 1 SeverityId.Critical (ax_host_tag ctx) "selfdef.panic" 0).

Definition panic_fire (confirm : string) (message : option string) (call : Call) (d : Daemon) :
    result Reply ApiError * Daemon :=
  if negb (bool_decide (confirm = ax_host_tag ctx)) then
    (Err (bad_request ("confirm '" +:+ confirm +:+ "' does not match host '" +:+ ax_host_tag ctx +:+ "'")),
     emit_audit (cl_audit_stamp call) "panic" "rejected" (JObject [("reason", JString "confirm hostname mismatch")]) d)
  else
    match ax_responder ctx with
    | None => (Err (unavailable "responder handle not configured"), d)
    | Some resp =>
        let msg := default "PANIC: manual lockdown via API" message in
        let '(verdicts, s) := fire resp (panic_event (cl_event_stamp call) msg) (cl_env call) (dm_responder d) in
        (Ok (PanicDispatched (ax_host_tag ctx)),
         emit_audit (cl_audit_stamp call) "panic" "dispatched" (JObject [("message", JString msg)])
           (add_effect (Dispatched verdicts) (with_resp s d)))
    end.

Definition requested_event (event : option Event) (event_id : option string) (call : Call) : result Event ApiError :=
  match event, event_id with
  | Some _, Some _ => Err (bad_request "specify exactly one of `event` or `event_id`")
  | None, None => Err (bad_request "missing `event` or `event_id` in request body")
  | Some e, None => Ok e
  | None, Some id =>
      match uuid_parse_str id with
      | Err _ => Err (bad_request ("invalid event_id: " +:+ id))
      | Ok uuid =>
          match cl_store call uuid with
          | Err e => Err (internal ("store: " +:+ e))
          | Ok None => Err (not_found ("no event with id " +:+ id))
          | Ok (Some e) => Ok e
          end
      end
  end.

Definition status_text (s : ActionStatus.t) : string :=
  match s with
  | ActionStatus.Success => "success"
  | ActionStatus.DryRun => "dry_run"
  | ActionStatus.Skipped => "skipped"
  end.

Definition actions_run (name : string) (event : option Event) (event_id : option string) (call : Call) (d : Daemon) :
    result Reply ApiError * Daemon :=
  match ax_responder ctx with
  | None => (Err (unavailable "responder handle not configured"), d)
  | Some resp =>
      match requested_event event event_id call with
      | Err e => (Err e, d)
      | Ok event =>
          match dispatch_single resp name (cl_run call event) with
          | None =>
              (Err (not_found ("unknown action: " +:+ name)),
               emit_audit (cl_audit_stamp call) "actions.run" "unknown_action" (JObject [("action", JString name)]) d)
          | Some (Err e) =>
              (Err (internal ("action failed: " +:+ action_error_display e)),
               emit_audit (cl_audit_stamp call) "actions.run" "error"
                 (JObject [("action", JString name); ("error", JString (action_error_display e))])
                 (add_effect (Ran name event) d))
          | Some (Ok o) =>
              (Ok (ActionRan name (status_text (ao_status o)) (ao_notes o)),
               emit_audit (cl_audit_stamp call) "actions.run" (status_text (ao_status o))
                 (JObject [("action", JString name); ("notes", JString (ao_notes o))]) (add_effect (Ran name event) d))
          end
      end
  end.

Definition actions_list (d : Daemon) : result Reply ApiError * Daemon :=
  (Ok (Actions match ax_responder ctx with Some r => action_names r | None => [] end), d).

(** *** The acknowledgement link *)

Definition notify_ack (token : string) (call : Call) (d : Daemon) : result Reply ApiError * Daemon :=
  match dm_engine d with
  | None => (Err (unavailable ("escalation engine not configured (set [notifier].escalations_path)" +:+ newline)), d)
  | Some table =>
      match cl_db call with
      | Some _ => (Err (internal ("engine error" +:+ newline)), d)
      | None =>
          match record_ack_by_token token (cl_now call) table with
          | (Ok (Some (event_id, title)), table) =>
              (Ok (Text ("Acknowledged." +:+ newline +:+ newline +:+ "Event: " +:+ uuid_to_string event_id +:+ newline
                         +:+ "Title:  " +:+ title +:+ newline +:+ "At:     unix=" +:+ show_int (cl_now call) +:+ newline)),
               with_engine (Some table) d)
          | (Ok None, table) =>
              (Err (not_found ("Token not found (unknown, already acked, or forgotten)" +:+ newline)),
               with_engine (Some table) d)
          | (Err _, table) => (Err (internal ("engine error" +:+ newline)), with_engine (Some table) d)
          end
      end
  end.

(** *** Routes *)

Definition reply_with {A} (f : A -> Reply) (a : Answer A) : result Reply ApiError :=
  match a with Ok x => Ok (f x) | Err (code, m) => Err (mkApiError code m) end.
Definition read_registry {A} (f : A -> Reply) (a : Answer A) (d : Daemon) : result Reply ApiError * Daemon :=
  (reply_with f a, d).
Definition change_registry {A} (f : A -> Reply) (p : Answer A * Disk) (d : Daemon) : result Reply ApiError * Daemon :=
  (reply_with f p.1, with_disk p.2 d).

(** The handler of a route, the control extractor aside. *)
Definition handler (verb : Verb) (call : Call) (d : Daemon) : result Reply ApiError * Daemon :=
  let io := cl_io call in
  let disk := dm_disk d in
  match verb with
  | RulesReload => rules_reload call d
  | PanicFire confirm message => panic_fire confirm message call d
  | ActionsRun name event event_id => actions_run name event event_id call d
  | ActionsList => actions_list d
  | NotifyAck token => notify_ack token call d
  | GrantsShow => read_registry GrantsReply (Grants.show_grants (ax_grants_path ctx) io disk) d
  | GrantsIssue req =>
      change_registry GrantReply
        (Grants.issue_handler (ax_grants_path ctx) (ax_grants_overlap_policy ctx)
           (ax_grants_issuance_cooldown_secs ctx) req io disk) d
  | GrantsRevoke id => change_registry GrantsReply (Grants.revoke_handler (ax_grants_path ctx) id io disk) d
  | TokensSnapshot => read_registry TokensReply (CapTokens.snapshot_handler (ax_tokens_path ctx) io disk) d
  | TokensIssue req => change_registry TokenReply (CapTokens.issue_handler (ax_tokens_path ctx) req io disk) d
  | TokensRevoke id => change_registry TokensReply (CapTokens.revoke_handler (ax_tokens_path ctx) id io disk) d
  | SandboxesSnapshot => read_registry SandboxesReply (Sandboxes.snapshot_handler (ax_sandboxes_path ctx) io disk) d
  | SandboxesAllocate req =>
      change_registry SandboxReply (Sandboxes.allocate_handler (ax_sandboxes_path ctx) req io disk) d
  | SandboxesRelease id => change_registry SandboxesReply (Sandboxes.release_handler (ax_sandboxes_path ctx) id io disk) d
  | QuarantineSnapshot => read_registry QuarantineReply (Quarantines.snapshot_handler (ax_quarantine_path ctx) io disk) d
  | QuarantineRelease req =>
      change_registry QuarantineReply (Quarantines.release_handler (ax_quarantine_path ctx) req io disk) d
  | QuarantineForfeit req =>
      change_registry QuarantineReply (Quarantines.forfeit_handler (ax_quarantine_path ctx) req io disk) d
  | ScoresSnapshot => read_registry ScoresReply (TrustScores.snapshot_handler (ax_trust_scores_path ctx) io disk) d
  | ScoresAdmit req => change_registry ScoresReply (TrustScores.admit_handler (ax_trust_scores_path ctx) req io disk) d
  | ScoresOperatorDelta req =>
      change_registry ScoresReply (TrustScores.operator_delta_handler (ax_trust_scores_path ctx) req io disk) d
  end.

(** Whether the handler of a route takes the control extractor. *)
Definition is_control (verb : Verb) : bool :=
  match verb with
  | RulesReload | PanicFire _ _ | ActionsRun _ _ _ | GrantsIssue _ | GrantsRevoke _ | TokensIssue _ | TokensRevoke _
  | SandboxesAllocate _ | SandboxesRelease _ | QuarantineRelease _ | QuarantineForfeit _ | ScoresAdmit _
  | ScoresOperatorDelta _ => true
  | ActionsList | NotifyAck _ | GrantsShow | TokensSnapshot | SandboxesSnapshot | QuarantineSnapshot
  | ScoresSnapshot => false
  end.

Definition route (cap : option Capability.t) (verb : Verb) (call : Call) (d : Daemon) : result Reply ApiError * Daemon :=
  if is_control verb then
    match require_control cap with
    | Err e => (Err e, d)
    | Ok _ => handler verb call d
    end
  else handler verb call d.

(** *** Transports *)

Inductive Transport := Unix | Tcp (header : option string).

Definition unauthorized : ApiError := mkApiError UNAUTHORIZED "unauthorized".

Definition serve (tokens : option LoadedTokens) (t : Transport) (verb : Verb) (call : Call) (d : Daemon) :
    result Reply ApiError * Daemon :=
  match t with
  | Unix => route (Some Capability.Full) verb call d
  | Tcp header =>
      match bearer_auth tokens header with
      | None => (Err unauthorized, d)
      | Some cap => route (Some cap) verb call d
      end
  end.

(** A run of the server: requests and token rotations (SIGUSR2). *)
Inductive ApiInput :=
| Request (t : Transport) (verb : Verb) (call : Call)
| Rotate (files : TokenFiles).

Definition api_turn (cfg : ApiConfig) (i : ApiInput) (s : option LoadedTokens * Daemon) : option LoadedTokens * Daemon :=
  match i with
  | Request t verb call => (s.1, (serve s.1 t verb call s.2).2)
  | Rotate files => ((reload files cfg s.1).2, s.2)
  end.
End handlers.
End verbs.

(** ** The quota of the event stream *)

Definition MAX_SSE_SUBSCRIBERS : Z := 64.
Definition MAX_SSE_SUBSCRIBERS_PER_TOKEN : Z := 8.

Record SseCaps := mkSseCaps { caps_global : option Z; caps_per_token : option Z }.

Definition cap_or (default_cap : Z) (c : option Z) : Z :=
  match c with Some n => if (0 <? n)%Z then n else default_cap | None => default_cap end.
Definition cap_global (caps : SseCaps) : Z := cap_or MAX_SSE_SUBSCRIBERS (caps_global caps).
Definition cap_per_token (caps : SseCaps) : Z := cap_or MAX_SSE_SUBSCRIBERS_PER_TOKEN (caps_per_token caps).

(** Where one request is between its arrival and the end of its stream. The token
    counter is changed under a lock and the global one by atomic operations, so
    every constructor is a point at which other requests may act:
    [Entered]: the token counter is taken, the global one not read yet. [Reserved]:
    with the value last read from the global one. [Rejected]: the global cap was met and the token counter is to be
    given back. [Streaming]: the guard is held. [Released]: the guard is being
    dropped and the global counter is given back already. *)
Inductive Phase :=
| Entered (fp : option string)
| Reserved (fp : option string) (current : Z)
| Rejected (fp : option string)
| Streaming (fp : option string)
| Released (fp : option string).

Record Quota := mkQuota {
  qt_global : Z;
  qt_per_token : gmap string Z;
  qt_phases : list Phase;
}.

Definition quota_new : Quota := mkQuota 0 ∅ [].

(** The decrement of a token counter, with the removal at zero. *)
Definition give_back (fp : option string) (m : gmap string Z) : gmap string Z :=
  match fp with
  | None => m
  | Some k =>
      match m !! k with
      | Some c => if (c =? 1)%Z then delete k m else <[k := (c - 1)%Z]> m
      | None => m
      end
  end.

Section quota.
Context (caps : SseCaps).

Inductive quota_step : Quota -> Quota -> Prop :=
| acquire_token g m l fp :
    match fp with Some k => (default 0 (m !! k) < cap_per_token caps)%Z | None => True end ->
    quota_step (mkQuota g m l)
      (mkQuota g (match fp with Some k => <[k := (default 0 (m !! k) + 1)%Z]> m | None => m end) (Entered fp :: l))
| load_global g m l1 l2 fp :
    quota_step (mkQuota g m (l1 ++ Entered fp :: l2)) (mkQuota g m (l1 ++ Reserved fp g :: l2))
| refuse_token g m l k :
    (cap_per_token caps <= default 0 (m !! k))%Z ->
    quota_step (mkQuota g m l) (mkQuota g (match m !! k with Some _ => m | None => <[k := 0%Z]> m end) l)
| global_full g m l1 l2 fp current :
    (cap_global caps <= current)%Z ->
    quota_step (mkQuota g m (l1 ++ Reserved fp current :: l2)) (mkQuota g m (l1 ++ Rejected fp :: l2))
| exchange_ok g m l1 l2 fp current :
    (current < cap_global caps)%Z -> g = current ->
    quota_step (mkQuota g m (l1 ++ Reserved fp current :: l2)) (mkQuota (g + 1) m (l1 ++ Streaming fp :: l2))
| exchange_fails g m l1 l2 fp current :
    (current < cap_global caps)%Z ->
    quota_step (mkQuota g m (l1 ++ Reserved fp current :: l2)) (mkQuota g m (l1 ++ Reserved fp g :: l2))
| undo g m l1 l2 fp :
    quota_step (mkQuota g m (l1 ++ Rejected fp :: l2)) (mkQuota g (give_back fp m) (l1 ++ l2))
| drop_global g m l1 l2 fp :
    quota_step (mkQuota g m (l1 ++ Streaming fp :: l2)) (mkQuota (g - 1) m (l1 ++ Released fp :: l2))
| drop_token g m l1 l2 fp :
    quota_step (mkQuota g m (l1 ++ Released fp :: l2)) (mkQuota g (give_back fp m) (l1 ++ l2)).
End quota.

(** *** The stream *)

Inductive Frame := Data (json : string) | LaggedFrame (n : Z) | ShutdownFrame (reason : string).
Inductive SendResult := Sent | Disconnected | SlowClient.

(** One turn of the forwarder: what the bus gave, the event as text when it could be
    written, what the send of a frame did, and whether the last frame fitted. *)
Record StreamTurn := mkStreamTurn {
  su_recv : result Event BusError;
  su_json : option string;
  su_send : SendResult;
  su_room : bool;
}.

Definition shutdown_frames (t : StreamTurn) (reason : string) : list Frame :=
  if su_room t then [ShutdownFrame reason] else [].
Definition sent_frames (t : StreamTurn) (f : Frame) : list Frame :=
  match su_send t with Sent => [f] | _ => [] end.
Definition goes_on (t : StreamTurn) : bool := match su_send t with Sent => true | _ => false end.

Fixpoint forward (turns : list StreamTurn) : list Frame :=
  match turns with
  | [] => []
  | t :: turns =>
      match su_recv t with
      | Ok _ =>
          match su_json t with
          | Some json => sent_frames t (Data json) ++ (if goes_on t then forward turns else [])
          | None => forward turns
          end
      | Err (Lagged n) => sent_frames t (LaggedFrame n) ++ (if goes_on t then forward turns else [])
      | Err Closed => shutdown_frames t "bus closed"
      | Err _ => shutdown_frames t "bus error"
      end
  end.
