(* ===== verification/ApiProps.v ===== *)
(** * Properties of the API

    Authority: what a request over TCP can do depends on the tokens read last, and
    nothing changes without one. The control verbs and what their audit events
    lead to in the responder. The acknowledgement link. The subscriber quota under
    concurrent requests. *)

From S2P Require Import Prelude Core Signing Sigma SigmaEngine RuleStore Bus Correlator Responder ResponderProps.
From S2P Require Import Backends Actions ActionsProps Ms003 Registry Registries Notify Escalation Api.
From stdpp Require Import options.

(** ** Tokens *)

Lemma zbyte_inj a b : zbyte a = zbyte b -> a = b.
Proof. unfold zbyte, byte. intros E%N2Z.inj. by rewrite <-(ascii_N_embedding a), <-(ascii_N_embedding b), E. Qed.

Lemma token_diff_zero p e d : String.length p = String.length e -> token_diff p e d = 0%Z <-> d = 0%Z /\ p = e.
Proof.
  revert e d. induction p as [|a p IH]; intros [|b e] d Hl; simpl in *; try done; [naive_solver|].
  injection Hl as Hl. rewrite IH, Z.lor_eq_0_iff, Z.lxor_eq_0_iff by done. split.
  - intros [[-> ->%zbyte_inj] ->]. done.
  - intros [-> [= -> ->]]. done.
Qed.

(** The comparison that looks at every byte is equality. *)
Lemma token_eq_exact p e : token_eq p e = true <-> p = e.
Proof.
  unfold token_eq. destruct (Nat.eqb_spec (String.length p) (String.length e)) as [Hl|Hl]; simpl.
  - rewrite Z.eqb_eq, token_diff_zero by done. naive_solver.
  - split; [done|]. by intros ->.
Qed.

Section authority.
Context `{RuleLibs} `{!UnicodeTables} `{!WireFormat} `{!Minisign} `{!RuleYaml} `{!SqlEngine} `{!UuidText} `{!Rfc3339}.
Context `{!HashValues Grants.GrantKind.t Grants.GrantSummary} `{!SnapshotJson Grants.GrantEntry Grants.GrantSummary}.
Context `{!HashValues CapTokens.TrustRing.t CapTokens.RingSummary}
  `{!SnapshotJson CapTokens.CapabilityEntry CapTokens.RingSummary}.
Context `{!HashValues Sandboxes.SandboxTier.t Sandboxes.TierSummary}
  `{!SnapshotJson Sandboxes.AllocationEntry Sandboxes.TierSummary}.
Context `{!HashValues Quarantines.MismatchSeverity.t Quarantines.SeveritySummary}
  `{!SnapshotJson Quarantines.QuarantineEntry Quarantines.SeveritySummary}.
Context `{!HashValues TrustScores.TrustBand.t TrustScores.BandTotal}
  `{!SnapshotJson TrustScores.ToolScoreEntry TrustScores.BandSummary}.
Context (ctx : ApiContext).

(** The bearer token of a header. *)
Definition presents (header : option string) (token : string) : Prop := header = Some ("Bearer " +:+ token).

Lemma presents_strip header p : header ≫= strip_prefix "Bearer " = Some p <-> presents header p.
Proof. unfold presents. destruct header as [h|]; [|done]. cbn [mbind option_bind]. rewrite strip_prefix_Some. naive_solver. Qed.

Lemma bearer_auth_full tokens header : bearer_auth tokens header = Some Capability.Full <->
  exists t c, tokens = Some t /\ lt_control t = Some c /\ presents header c.
Proof.
  unfold bearer_auth. destruct tokens as [t|]; [|naive_solver].
  destruct (header ≫= strip_prefix "Bearer ") as [p|] eqn:Ep.
  - assert (Hp := proj1 (presents_strip _ _) Ep). split.
    + destruct (lt_control t) as [c|] eqn:Ec.
      * destruct (token_eq p c) eqn:Eq; [|by destruct (token_eq p (lt_read t))].
        apply token_eq_exact in Eq as ->. intros _. by exists t, c.
      * by destruct (token_eq p (lt_read t)).
    + intros (t' & c & [= <-] & Hc & Hc'%presents_strip). rewrite Hc. assert (p = c) as -> by congruence.
      by rewrite (proj2 (token_eq_exact c c) eq_refl).
  - split; [done|]. intros (t' & c & _ & _ & Hp%presents_strip). congruence.
Qed.

Lemma bearer_auth_some tokens header cap : bearer_auth tokens header = Some cap ->
  exists t p, tokens = Some t /\ presents header p /\ (lt_control t = Some p \/ lt_read t = p).
Proof.
  unfold bearer_auth. destruct tokens as [t|]; [|done].
  destruct (header ≫= strip_prefix "Bearer ") as [p|] eqn:Ep; [|done]. apply presents_strip in Ep.
  intros E. exists t, p. split; [done|]. split; [done|].
  destruct (lt_control t) as [c|] eqn:Ec; [destruct (token_eq p c) eqn:Eq|].
  - left. by apply token_eq_exact in Eq as ->.
  - destruct (token_eq p (lt_read t)) eqn:Er; [|done]. right. by apply token_eq_exact in Er as ->.
  - destruct (token_eq p (lt_read t)) eqn:Er; [|done]. right. by apply token_eq_exact in Er as ->.
Qed.

(** A token file as [read_token] accepts it: only its owner may read or write it. *)
Definition private_token (files : TokenFiles) (path token : string) : Prop :=
  exists mode raw, tf_mode (files path) = Ok mode /\ Z.land mode 63 = 0%Z /\
    tf_text (files path) = Ok raw /\ token = trim raw /\ token <> "".

Lemma read_token_ok files path token : read_token files path = Ok token <-> private_token files path token.
Proof.
  unfold read_token, private_token. destruct (tf_mode (files path)) as [mode|e]; [|naive_solver].
  assert (Hm : Z.land (Z.land mode 511) 63 = Z.land mode 63) by by rewrite <-Z.land_assoc. rewrite Hm.
  destruct (Z.eqb_spec (Z.land mode 63) 0); simpl; [|naive_solver].
  destruct (tf_text (files path)) as [raw|e']; [|naive_solver]. case_bool_decide; naive_solver.
Qed.

Lemma load_tokens_control files cfg t c : load_tokens files cfg = Ok t -> lt_control t = Some c ->
  exists path, ac_control_token_file cfg = Some path /\ private_token files path c.
Proof.
  unfold load_tokens. destruct (ac_token_file cfg) as [p|]; [|done]. destruct (read_token files p) as [r|]; [|done]. simpl.
  destruct (ac_control_token_file cfg) as [p'|]; [|intros; by simplify_eq/=].
  destruct (read_token files p') as [c'|] eqn:Er; [|done]. simpl. intros; simplify_eq/=. exists p'. split; [done|].
  by apply read_token_ok.
Qed.

(** *** Runs *)

Definition api_run (cfg : ApiConfig) (inputs : list ApiInput) (s : option LoadedTokens * Daemon) :
    option LoadedTokens * Daemon :=
  foldl (fun s i => api_turn ctx cfg i s) s inputs.

Definition rotated (i : ApiInput) : option TokenFiles := match i with Rotate files => Some files | _ => None end.

(** The files from which the tokens in force were read: the last ones that loaded. *)
Definition loads (cfg : ApiConfig) (files : TokenFiles) : bool := is_ok (load_tokens files cfg).
Definition in_force (cfg : ApiConfig) (l : list TokenFiles) : option TokenFiles :=
  last (filter (fun files => loads cfg files = true) l).

Lemma in_force_snoc cfg l files : in_force cfg (l ++ [files]) = if loads cfg files then Some files else in_force cfg l.
Proof.
  unfold in_force. rewrite filter_app, filter_cons, filter_nil. destruct (loads cfg files).
  - rewrite decide_True by done. apply last_snoc.
  - rewrite decide_False by done. by rewrite app_nil_r.
Qed.

Lemma run_tokens cfg files0 t0 inputs d0 : load_tokens files0 cfg = Ok t0 ->
  exists files t, in_force cfg (files0 :: omap rotated inputs) = Some files /\ load_tokens files cfg = Ok t /\
    (api_run cfg inputs (Some t0, d0)).1 = Some t.
Proof.
  intros Hl. induction inputs as [|i inputs IH] using rev_ind.
  { exists files0, t0. split; [|done]. unfold in_force, loads. by rewrite filter_cons, Hl, decide_True. }
  destruct IH as (files & t & Hf & Ht & Hs). unfold api_run in *. rewrite foldl_app, omap_app. simpl.
  destruct i as [tr verb call|new]; simpl.
  - rewrite app_nil_r. by exists files, t.
  - rewrite app_comm_cons, in_force_snoc. unfold reload, loads. destruct (load_tokens new cfg) as [t'|e] eqn:El; simpl.
    + by exists new, t'.
    + by exists files, t.
Qed.

(** A route without the control extractor changes nothing, the acknowledgement link
    aside. *)
Lemma read_handler verb call d : is_control verb = false -> (handler ctx verb call d).2 <> d -> exists token, verb = NotifyAck token.
Proof. destruct verb; try done. intros _ _. by eexists. Qed.

(** C11: authority over TCP, for any run of the server from its start, with requests on
    both transports, other tokens and token rotations in between. The tokens in
    force are those of the last files that loaded. A control verb succeeds or
    changes anything only if the request presents the control token of those
    files, which only their owner could read; with it the verb is carried out.
    Without the control extractor only an acknowledgement changes anything, and
    it needs one of the two tokens as well. Every other request is refused and
    changes nothing. *)
Theorem tcp_authority cfg files0 unix t0 inputs d0 header verb call :
  server_start files0 cfg None = (Ok (unix, true), t0) ->
  let s := api_run cfg inputs (t0, d0) in
  let r := serve ctx s.1 (Tcp header) verb call s.2 in
  exists files t, in_force cfg (files0 :: omap rotated inputs) = Some files /\ load_tokens files cfg = Ok t /\
    (is_control verb = true -> r.2 <> s.2 \/ is_ok r.1 = true ->
       exists path c, ac_control_token_file cfg = Some path /\ private_token files path c /\ presents header c) /\
    (forall c, lt_control t = Some c -> presents header c -> r = handler ctx verb call s.2) /\
    (is_control verb = false -> r.2 <> s.2 -> exists token, verb = NotifyAck token) /\
    ((forall p, presents header p -> lt_control t <> Some p /\ lt_read t <> p) -> r = (Err unauthorized, s.2)).
Proof using Type.
  intros Hs s r. assert (exists t, t0 = Some t /\ load_tokens files0 cfg = Ok t) as (t' & -> & Hl).
  { unfold server_start in Hs. destruct (negb (ac_enabled cfg)); [done|]. destruct (ac_tcp_addr cfg).
    - destruct (load_tokens files0 cfg) as [t|]; [|done]. simplify_eq. by exists t.
    - by destruct (bool_decide _). }
  destruct (run_tokens cfg files0 t' inputs d0 Hl) as (files & t & Hf & Ht & Hst). fold s in Hst.
  exists files, t. split; [done|]. split; [done|]. unfold r, serve, route. rewrite Hst. split_and!.
  - intros Hc Hr. rewrite Hc in Hr. destruct (bearer_auth (Some t) header) as [[]|] eqn:Eb; simpl in Hr; [by destruct Hr| |by destruct Hr].
    apply bearer_auth_full in Eb as (t1 & c & [= <-] & Hlc & Hp). destruct (load_tokens_control _ _ _ _ Ht Hlc) as (p & ? & ?).
    by exists p, c.
  - intros c Hlc Hp. rewrite (proj2 (bearer_auth_full (Some t) header)) by (by exists t, c). by destruct (is_control verb).
  - intros Hc. rewrite Hc. destruct (bearer_auth (Some t) header) as [cap|]; [|done]. by apply read_handler.
  - intros Hn. destruct (bearer_auth (Some t) header) as [cap|] eqn:Eb; [|done].
    apply bearer_auth_some in Eb as (t1 & p & [= <-] & Hp & Hor). destruct (Hn p Hp). naive_solver.
Qed.
End authority.

(** ** The subscriber quota *)

Definition phase_fp (p : Phase) : option string :=
  match p with Entered fp | Reserved fp _ | Rejected fp | Streaming fp | Released fp => fp end.
Definition streaming (p : Phase) : bool := match p with Streaming _ => true | _ => false end.

(** How many requests stream, and how many of a token are in the books. *)
Definition streams (l : list Phase) : Z := Z.of_nat (length (filter (fun p => streaming p = true) l)).
Definition holders (k : string) (l : list Phase) : Z := Z.of_nat (length (filter (fun p => phase_fp p = Some k) l)).

Lemma filter_mid {A} (P : A -> Prop) `{!forall x, Decision (P x)} l1 x l2 :
  length (filter P (l1 ++ x :: l2)) = (if decide (P x) then 1 else 0) + length (filter P (l1 ++ l2)).
Proof. rewrite !filter_app, filter_cons, !length_app. case_decide; simpl; lia. Qed.

Lemma streams_mid l1 p l2 : streams (l1 ++ p :: l2) = ((if streaming p then 1 else 0) + streams (l1 ++ l2))%Z.
Proof. unfold streams. rewrite filter_mid. destruct (streaming p); simpl; lia. Qed.
Lemma holders_mid k l1 p l2 :
  holders k (l1 ++ p :: l2) = ((if decide (phase_fp p = Some k) then 1 else 0) + holders k (l1 ++ l2))%Z.
Proof. unfold holders. rewrite filter_mid. case_decide; lia. Qed.

Lemma streams_cons p l : streams (p :: l) = ((if streaming p then 1 else 0) + streams l)%Z.
Proof. apply (streams_mid [] p l). Qed.
Lemma holders_cons k p l : holders k (p :: l) = ((if decide (phase_fp p = Some k) then 1 else 0) + holders k l)%Z.
Proof. apply (holders_mid k [] p l). Qed.

Section quota_facts.
Context (caps : SseCaps).

Lemma cap_or_pos d c : (0 < d)%Z -> (0 < cap_or d c)%Z.
Proof. unfold cap_or. destruct c as [n|]; [|done]. destruct (Z.ltb_spec 0 n); lia. Qed.

Definition books (m : gmap string Z) (l : list Phase) : Prop :=
  forall k, m !! k = (let n := holders k l in if decide (n = 0%Z) then None else Some n) /\
    (holders k l <= cap_per_token caps)%Z.

Definition quota_inv (q : Quota) : Prop :=
  qt_global q = streams (qt_phases q) /\ (qt_global q <= cap_global caps)%Z /\ books (qt_per_token q) (qt_phases q).

Lemma books_default m l k : books m l -> default 0%Z (m !! k) = holders k l.
Proof. intros Hb. destruct (Hb k) as [-> _]. simpl. case_decide; simpl; lia. Qed.

Lemma books_same m l1 p p' l2 : phase_fp p = phase_fp p' -> books m (l1 ++ p :: l2) -> books m (l1 ++ p' :: l2).
Proof. intros E Hb k. specialize (Hb k). rewrite !holders_mid in *. rewrite <-E. done. Qed.

Lemma holders_nonneg k l : (0 <= holders k l)%Z.
Proof. unfold holders. lia. Qed.

Lemma books_back m l1 p l2 : books m (l1 ++ p :: l2) -> books (give_back (phase_fp p) m) (l1 ++ l2).
Proof.
  intros Hb k. assert (Hn := holders_nonneg k (l1 ++ l2)). assert (Hk := Hb k). simpl in Hk. rewrite !holders_mid in Hk.
  destruct (phase_fp p) as [j|] eqn:Ep; [|by rewrite (decide_False (P := None = Some k)), !Z.add_0_l in Hk by done].
  assert (Hnj := holders_nonneg j (l1 ++ l2)). destruct (Hb j) as [Hj _]. simpl in Hj.
  rewrite !holders_mid, Ep, (decide_True (P := Some j = Some j)), decide_False in Hj by (done || lia). simpl. rewrite Hj.
  destruct (decide (Some j = Some k)) as [[= <-]|Hne].
  - split; [|lia]. destruct (Z.eqb_spec (1 + holders j (l1 ++ l2)) 1).
    + rewrite lookup_delete_eq. by rewrite decide_True by lia.
    + rewrite lookup_insert_eq, decide_False by lia. f_equal. lia.
  - rewrite !Z.add_0_l in Hk. assert (j <> k) by congruence.
    destruct (_ =? 1)%Z; rewrite ?lookup_delete_ne, ?lookup_insert_ne by done; done.
Qed.

Lemma quota_step_inv q q' : quota_step caps q q' -> quota_inv q -> quota_inv q'.
Proof.
  assert (Hcg : (0 < cap_global caps)%Z) by by apply cap_or_pos.
  assert (Hct : (0 < cap_per_token caps)%Z) by by apply cap_or_pos.
  intros Hs (Hg & Hc & Hb). unfold quota_inv. destruct Hs as [g m l fp Ha|g m l1 l2 fp|g m l k Hr|g m l1 l2 fp cur Hf|
    g m l1 l2 fp cur Hlt ->|g m l1 l2 fp cur Hlt|g m l1 l2 fp|g m l1 l2 fp|g m l1 l2 fp];
    cbn [qt_global qt_per_token qt_phases] in *; rewrite ?streams_mid in *; cbn [streaming] in *.
  - rewrite streams_cons. simpl. split; [lia|]. split; [done|].
    intros k. rewrite holders_cons. cbn [phase_fp]. assert (Hn := holders_nonneg k l). destruct fp as [j|].
    + rewrite (books_default _ _ _ Hb) in Ha. destruct (decide (Some j = Some k)) as [[= <-]|Hne].
      * rewrite lookup_insert_eq, (books_default _ _ _ Hb), decide_False by lia. split; [f_equal; lia|lia].
      * rewrite lookup_insert_ne by congruence. rewrite !Z.add_0_l. apply Hb.
    + apply Hb.
  - split; [lia|]. split; [done|]. by apply (books_same _ _ (Entered fp)).
  - split; [done|]. split; [done|]. rewrite (books_default _ _ _ Hb) in Hr. destruct (Hb k) as [Hk Hle]. rewrite Hk.
    simpl. by rewrite decide_False by lia.
  - split; [lia|]. split; [done|]. by apply (books_same _ _ (Reserved fp cur)).
  - split; [lia|]. split; [lia|]. by apply (books_same _ _ (Reserved fp cur)).
  - split; [lia|]. split; [done|]. by apply (books_same _ _ (Reserved fp cur)).
  - split; [lia|]. split; [done|]. by apply (books_back _ _ (Rejected fp)).
  - split; [lia|]. split; [lia|]. by apply (books_same _ _ (Streaming fp)).
  - split; [lia|]. split; [done|]. by apply (books_back _ _ (Released fp)).
Qed.

(** C22: the quota of the event stream under any interleaving of requests. The counters
    never drift: the global one is the number of streams, that of a token the
    number of its requests in progress, and a token without one has no entry. So
    no more than the global cap stream at once, no token has more than its own cap,
    and when the last request is gone the state is the initial one. *)
Theorem quota_exact q :
  rtc (quota_step caps) quota_new q ->
  qt_global q = streams (qt_phases q) /\ (streams (qt_phases q) <= cap_global caps)%Z /\
  (forall k, qt_per_token q !! k = (let n := holders k (qt_phases q) in if decide (n = 0%Z) then None else Some n) /\
     (holders k (qt_phases q) <= cap_per_token caps)%Z) /\
  (qt_phases q = [] -> q = quota_new).
Proof.
  intros Hr. assert (Hi : quota_inv q).
  { assert (H0 : quota_inv quota_new).
    { assert (0 < cap_global caps)%Z by by apply cap_or_pos. assert (0 < cap_per_token caps)%Z by by apply cap_or_pos.
      split; [done|]. split; [simpl; lia|]. intros k. simpl. rewrite lookup_empty. split; [done|]. unfold holders. simpl. lia. }
    revert H0. induction Hr as [|x y z Hxy _ IH]; [done|]. intros Hx. by eapply IH, quota_step_inv. }
  destruct Hi as (Hg & Hc & Hb). split; [done|]. split; [lia|]. split; [exact Hb|].
  intros Hl. destruct q as [g m l]. simpl in *. subst l. unfold quota_new. f_equal; [by rewrite Hg|].
  apply map_empty. intros k. by destruct (Hb k) as [-> _].
Qed.
End quota_facts.

(** ** The event stream *)

Definition frame_data (f : Frame) : option string := match f with Data j => Some j | _ => None end.
Definition turn_data (t : StreamTurn) : option string := match su_recv t with Ok _ => su_json t | Err _ => None end.

(** A client sees the events in the order of the bus, without repetition, from the
    first one on; what it misses is at the end. *)
Lemma stream_in_order turns : omap frame_data (forward turns) `prefix_of` omap turn_data turns.
Proof.
  induction turns as [|t turns IH]; [done|]. cbn [forward omap list_omap]. unfold turn_data at 1, sent_frames, goes_on, shutdown_frames.
  destruct (su_recv t) as [e|[|n|]].
  - destruct (su_json t) as [j|]; [|done]. destruct (su_send t); simpl; [by apply prefix_cons|apply prefix_nil..].
  - destruct (su_room t); apply prefix_nil.
  - destruct (su_send t); simpl; [done|apply prefix_nil..].
  - destruct (su_room t); apply prefix_nil.
Qed.

(** ** Control verbs *)

Section control.
Context `{RuleLibs} `{!UnicodeTables} `{!WireFormat} `{!Minisign} `{!RuleYaml} `{!SqlEngine} `{!UuidText}.
Context (ctx : ApiContext).

Lemma handle_open cfg event name a s :
  name ∈ rp_allowed_actions cfg -> ev_federated event = false -> rp_dedup_window cfg = 0%Z ->
  rp_destructive_cap_per_min cfg = 0%Z -> exists s', handle_action cfg event true name a s = (Executed (at_result a), s').
Proof.
  intros Hn Hf Hd Hc. unfold handle_action, dedup_gate, cap_gate. rewrite bool_decide_true, Hf, Hd, Hc by done. simpl.
  rewrite !andb_false_r. simpl. by eexists.
Qed.

Lemma respond_open cfg event acts turns s i a t :
  acts !! i = Some a -> turns !! i = Some t -> action_name a ∈ rp_allowed_actions cfg -> ev_federated event = false ->
  rp_dedup_window cfg = 0%Z -> rp_destructive_cap_per_min cfg = 0%Z ->
  forall eff, eff ∈ turn_effects cfg a event t -> eff ∈ (respond cfg event true acts turns s).1.
Proof.
  intros Ha Ht Hn Hf Hd Hc eff Heff. revert acts turns s Ha Ht. induction i as [|i IH]; intros [|a' acts] [|t' turns] s Ha Ht; simplify_eq/=.
  - destruct (handle_open cfg event (action_name a) (attempt_of cfg a event t) s) as [s' ->]; [done..|].
    destruct (respond cfg event true acts turns s') as [effs s'']. simpl. apply elem_of_app. by left.
  - destruct (handle_action _ _ _ _ _ _) as [v s']. specialize (IH acts turns s' Ha Ht).
    destruct (respond cfg event true acts turns s') as [effs s'']. simpl in *. destruct v; [done..|]. apply elem_of_app. by right.
Qed.

(** The audit trail of the API feeds the responder. A panic request that is refused,
    because it does not confirm the host, is answered with an error and fires
    nothing itself; but the refusal is published as a finding, and a responder
    without a severity floor, a dedup window and a cap (the defaults) takes it
    for one: every allowed action runs on it, the egress lockdown included. *)
Theorem refused_panic_locks_down confirm message call d cfg acts turns s i script t :
  ax_publisher ctx = true -> confirm <> ax_host_tag ctx ->
  rp_min_severity cfg = SeverityId.Unknown -> rp_dedup_window cfg = 0%Z -> rp_destructive_cap_per_min cfg = 0%Z ->
  rp_dry_run cfg = false -> "lockdown_egress" ∈ rp_allowed_actions cfg ->
  acts !! i = Some (LockdownEgressAction script) -> turns !! i = Some t -> tu_expired t = None ->
  exists e m, panic_fire ctx confirm message call d = (Err (bad_request m), add_effect (Published e) d) /\
    ev_category_uid e = CategoryUid.Findings /\
    severity_lt (ev_severity_id e) (rp_min_severity cfg) = false /\
    Spawned script ["activate"] ∈ (respond cfg e true acts turns s).1.
Proof.
  intros Hp Hc Hs Hd Hr Hdry Hin Ha Ht Hex. unfold panic_fire, emit_audit. rewrite bool_decide_false, Hp by done. simpl.
  eexists _, _. split; [reflexivity|]. split_and!.
  - done.
  - by rewrite Hs.
  - eapply respond_open; [exact Ha|exact Ht|done|done|done|done|].
    unfold turn_effects. rewrite Hex. simpl. unfold lockdown_egress_execute. rewrite Hdry. simpl. by left.
Qed.

Definition answer_status (r : result Reply ApiError) : Z := match r with Ok _ => 200%Z | Err e => ae_status e end.

(** The acknowledgement link. A link whose row is pending is answered with 200 and
    the row is acknowledged; any further click on it finds nothing to do and is
    answered with 404, also long before the event is closed. *)
Theorem ack_link_once token call call' d table id r :
  dm_engine d = Some table -> table_wf table -> table !! uuid_text id = Some r -> row_ack_token r = token ->
  pending r = true -> cl_db call = None -> cl_db call' = None ->
  let first := notify_ack token call d in
  let second := notify_ack token call' first.2 in
  answer_status first.1 = 200%Z /\
  dm_engine first.2 = Some (<[uuid_text id := set_acked (Some (cl_now call)) r]> table) /\
  answer_status second.1 = 404%Z /\ second.2 = first.2.
Proof.
  intros He Hwf Hr Ht Hp Hdb Hdb' first second.
  assert (Hw1 : table_wf (<[uuid_text id := set_acked (Some (cl_now call)) r]> table)).
  { assert (Hw := record_ack_by_token_wf token (cl_now call) table Hwf). revert Hw.
    rewrite <-Ht. unfold record_ack_by_token. rewrite (find_token_unique _ _ _ _ Hwf Hr) by done. by rewrite Hp. }
  assert (Hf : first.2 = with_engine (Some (<[uuid_text id := set_acked (Some (cl_now call)) r]> table)) d /\ answer_status first.1 = 200%Z).
  { unfold first, notify_ack. rewrite He, Hdb. unfold record_ack_by_token.
    rewrite (find_token_unique token table _ r) by done. by rewrite Hp, parse_uuid_text. }
  destruct Hf as [Hf Hs]. split; [done|]. split; [by rewrite Hf|]. unfold second, notify_ack. rewrite Hf. cbn [dm_engine with_engine].
  rewrite Hdb'. unfold record_ack_by_token.
  rewrite (find_token_unique token _ (uuid_text id) (set_acked (Some (cl_now call)) r)); [done|done|by rewrite lookup_insert_eq|done].
Qed.
End control.

(** ** Witnesses *)

Module ApiExamples.
Import DemoLibs Core.Demo EngineDemo.

#[local] Instance minisign : Minisign := {|
  PublicKey := string; MinisignSignature := string; key_from_base64 := Ok; signature_decode := Ok;
  key_verify := fun key bytes sg => bool_decide (sg = bytes +:+ key) |}.
#[local] Instance rule_yaml : RuleYaml := {| raw_rule_from_slice := fun s => Err s |}.
#[local] Instance rfc : Rfc3339 := {| rfc3339_parse := fun _ => None; rfc3339_format_error := fun _ => "" |}.
#[local] Instance values K T `{Countable K} : HashValues K T := {| hash_values := fun m => (map_to_list m).*2 |}.
#[local] Instance codec E T : SnapshotJson E T :=
  {| snap_encode := fun _ => Err "unsupported"; snap_decode := fun _ => Err "unsupported" |}.

Definition st : Stamp := mkStamp 7 0 0.
Definition no_fs : LiveFs := still (mkFileSystem (fun _ => None) (fun _ => Err "ENOENT") (fun _ => Err "ENOENT")).
Definition call : Call :=
  mkCall (mkIo 0 None Saved) no_fs st st (fun _ => mkAttempt 0 0 None 0) (fun _ _ => None) (fun _ => Ok None) 90 None.
Definition resp : Responder :=
  let r := (responder_new ["lockdown_egress"] ["lockdown_egress"] false).1 in
  mkResponder (rp_actions r) (rp_allowed_actions r) false SeverityId.Unknown (rp_action_deadline r) 0 0 true.
Definition resp_state : RespState := (responder_new [] [] false).2.
Definition ctx : ApiContext := mkApiContext "host-a" true (Some resp) Grants.Off 0 "/g" "/t" "/s" "/q" "/r".
Definition daemon : Daemon := mkDaemon None resp_state (Some table) ∅ [].

Definition files (control : string) : TokenFiles := fun p =>
  if bool_decide (p = "/etc/api.token") then mkTokenFile (Ok 33152%Z) (Ok "reader")
  else if bool_decide (p = "/etc/api.control") then mkTokenFile (Ok 33152%Z) (Ok control)
  else mkTokenFile (Err "ENOENT") (Err "ENOENT").
(** A token file that everyone may read is refused. *)
Definition loose : TokenFiles := fun p => mkTokenFile (Ok 33188%Z) (Ok "leaked").
Definition cfg : ApiConfig := mkApiConfig true (Some "/run/s") (Some (V4 0, 1%Z))
  (Some "/etc/api.token") (Some "/etc/api.control") 432 None.

Definition inputs : list ApiInput :=
  [Request (Tcp (Some "Bearer one")) (PanicFire "host-a" None) call; Rotate loose; Rotate (files "two");
   Request Unix (PanicFire "other" None) call].

(** The old control token is refused after a rotation, the new one is not, and the read
    token never reaches a control verb. *)
Example rotation :
  let s := api_run ctx cfg inputs (Some (mkLoadedTokens "reader" (Some "one")), daemon) in
  let status h := answer_status (serve ctx s.1 (Tcp h) (PanicFire "host-a" None) call s.2).1 in
  (status (Some "Bearer one"), status (Some "Bearer two"), status (Some "Bearer reader"), status None) = (401, 200, 403, 401)%Z.
Proof. vm_compute. reflexivity. Qed.

Definition t0 : option LoadedTokens := Some (mkLoadedTokens "reader" (Some "one")).
Definition s1 := api_run ctx cfg inputs (t0, daemon).
Definition r1 := serve ctx s1.1 (Tcp (Some "Bearer two")) (PanicFire "host-a" None) call s1.2.

Lemma tcp_authority_witness :
  exists fs t, in_force cfg (files "one" :: omap rotated inputs) = Some fs /\ load_tokens fs cfg = Ok t /\
    (true = true -> r1.2 <> s1.2 \/ is_ok r1.1 = true ->
       exists path c, ac_control_token_file cfg = Some path /\ private_token fs path c /\ presents (Some "Bearer two") c) /\
    (forall c, lt_control t = Some c -> presents (Some "Bearer two") c -> r1 = handler ctx (PanicFire "host-a" None) call s1.2) /\
    (true = false -> r1.2 <> s1.2 -> exists token, PanicFire "host-a" None = NotifyAck token) /\
    ((forall p, presents (Some "Bearer two") p -> lt_control t <> Some p /\ lt_read t <> p) -> r1 = (Err unauthorized, s1.2)).
Proof.
  exact (tcp_authority ctx cfg (files "one") true t0 inputs daemon (Some "Bearer two") (PanicFire "host-a" None) call eq_refl).
Defined.

Definition caps : SseCaps := mkSseCaps (Some 1%Z) None.
Definition q1 : Quota := mkQuota 1 {[ "a" := 2%Z ]} [Entered (Some "a"); Streaming (Some "a")].
Lemma q1_reached : rtc (quota_step caps) quota_new q1.
Proof.
  eapply rtc_l; [apply (acquire_token caps 0 ∅ [] (Some "a")); done|].
  eapply rtc_l; [apply (load_global caps 0 _ [] [] (Some "a"))|].
  eapply rtc_l; [apply (exchange_ok caps 0 _ [] [] (Some "a") 0); done|].
  eapply rtc_l; [apply (acquire_token caps 1 _ [Streaming (Some "a")] (Some "a")); vm_compute; reflexivity|].
  apply reflexive_eq. reflexivity.
Qed.

Lemma quota_exact_witness :
  qt_global q1 = streams (qt_phases q1) /\ (streams (qt_phases q1) <= cap_global caps)%Z /\
  (forall k, qt_per_token q1 !! k = (let n := holders k (qt_phases q1) in if decide (n = 0%Z) then None else Some n) /\
     (holders k (qt_phases q1) <= cap_per_token caps)%Z) /\
  (qt_phases q1 = [] -> q1 = quota_new).
Proof. exact (quota_exact caps q1 q1_reached). Defined.

Definition host : World :=
  mkWorld 900 (fun _ => Ok tt) (fun _ _ => Ok (mkOutput true (Some 0%Z) "" "")) (fun _ => Ok tt)
    (fun _ => Ok "x") (fun _ _ => Ok tt) (fun _ => Err "no link") (fun _ => None) (fun _ => Ok "{}")
    (fun _ _ => Err (Backends.BackendUnreachable "")).
Definition turn0 : Turn := mkTurn 0 0 0 host None.

Lemma refused_panic_locks_down_witness :
  exists e m, panic_fire ctx "host-b" None call daemon = (Err (bad_request m), add_effect (Published e) daemon) /\
    ev_category_uid e = CategoryUid.Findings /\ severity_lt (ev_severity_id e) (rp_min_severity resp) = false /\
    Spawned "/sbin/lockdown" ["activate"] ∈ (respond resp e true [LockdownEgressAction "/sbin/lockdown"] [turn0] resp_state).1.
Proof.
  apply (refused_panic_locks_down ctx "host-b" None call daemon resp [LockdownEgressAction "/sbin/lockdown"] [turn0] resp_state 0
    "/sbin/lockdown" turn0); done.
Defined.

Definition row1 : Row := default (mkRow "" "" "" 0 None 0 0 None 0 None "") (table !! uuid_text 1).

Lemma ack_link_once_witness :
  let first := notify_ack "t1" call daemon in
  let second := notify_ack "t1" call first.2 in
  answer_status first.1 = 200%Z /\
  dm_engine first.2 = Some (<[uuid_text 1 := set_acked (Some (cl_now call)) row1]> table) /\
  answer_status second.1 = 404%Z /\ second.2 = first.2.
Proof.
  apply (ack_link_once "t1" call call daemon table 1 row1); [reflexivity|exact table_ok|vm_compute; reflexivity..].
Defined.
End ApiExamples.
