(* ===== verification/Transport.v ===== *)
(** * Serving the API

    Model of the serving half of crates/selfdef-api/src/transport.rs: [serve_unix] with
    the mode of its socket, [serve_tcp] with its TLS acceptor, and [ApiServer::run] over
    both. What the host answers is an input ([SocketCalls], [ServeHost]); rustls is the
    parameter [Rustls]: what it reads in PEM files, what it refuses to configure, and
    which handshakes succeed under a configuration. The requests of a served connection
    are [Api.serve]. *)

From S2P Require Import Prelude Core Api.
From stdpp Require Import options.

(** ** The UNIX socket *)

(** What a path holds: a mode, and whether a process is listening there. *)
Record Entry := mkEntry { en_mode : Z; en_live : bool }.
Abbreviation Entries := (gmap string Entry).

(** What the calls of [serve_unix] answer, in their order; [None] is no fault of its own.
    A path without a parent makes no call of [create_dir_all], which then has no fault. *)
Record SocketCalls := mkSocketCalls {
  sk_exists : option string;
  sk_remove : option string;
  sk_create_dir_all : option string;
  sk_bind : option string;
  sk_umask : Z;
  sk_metadata : option string;
  sk_set_permissions : option string;
  sk_cleanup : option string;
}.

Definition IN_USE : string := "Address already in use (os error 98)".

Definition remove_stale (calls : SocketCalls) (path : string) (fs : Entries) : Entries :=
  match sk_exists calls, sk_remove calls with
  | None, None => delete path fs
  | _, _ => fs
  end.

(** [UnixListener::bind]: the name must be free; the umask decides the first mode. *)
Definition unix_bind (calls : SocketCalls) (path : string) (fs : Entries) : result Entries string :=
  match sk_bind calls, fs !! path with
  | Some e, _ => Err e
  | None, Some _ => Err IN_USE
  | None, None => Ok (<[path := mkEntry (Z.land 511 (Z.lnot (sk_umask calls))) true]> fs)
  end.

(** A failed [metadata] is passed over, a failed chmod is a warning; chmod(2) keeps
    twelve bits. *)
Definition set_unix_socket_mode (calls : SocketCalls) (path : string) (mode : Z) (fs : Entries) : Entries :=
  match sk_metadata calls, sk_set_permissions calls with
  | None, None => alter (fun e => mkEntry (Z.land mode 4095) (en_live e)) path fs
  | _, _ => fs
  end.

Section serving.
Context `{UnicodeTables} {Conn : Type}.

(** The connections of an accept loop: a failed accept is a warning. *)
Definition accept_loop (accepts : list (result Conn string)) : list Conn :=
  omap (fun a => match a with Ok c => Some c | Err _ => None end) accepts.

Record UnixDoor := mkUnixDoor {
  ud_path : string;
  ud_entry : option Entry;
  ud_served : list Conn;
}.

(** What is served until shutdown, and the names that are left. *)
Definition serve_unix (calls : SocketCalls) (accepts : list (result Conn string)) (path : string) (mode : Z)
    (fs : Entries) : result UnixDoor string * Entries :=
  let fs := remove_stale calls path fs in
  match sk_create_dir_all calls with
  | Some e => (Err e, fs)
  | None =>
      match unix_bind calls path fs with
      | Err e => (Err e, fs)
      | Ok fs =>
          let fs := set_unix_socket_mode calls path mode fs in
          (Ok (mkUnixDoor path (fs !! path) (accept_loop accepts)),
           match sk_cleanup calls with None => delete path fs | Some _ => fs end)
      end
  end.

(** ** TLS *)

(** The [rustls::ServerConfig] that is built: the chain and the key that are presented,
    and the roots a client certificate is verified against, when one is required. *)
Record ServerConfig := mkServerConfig {
  sc_certs : list string;
  sc_key : string;
  sc_client_roots : option (list string);
}.

Record Rustls := mkRustls {
  rl_pem_file_iter : string -> result (list (result string string)) string;
  rl_from_pem_file : string -> result string string;
  rl_protocol_versions : result unit string;
  rl_root_add : string -> result unit string;
  rl_client_verifier : list string -> result unit string;
  rl_single_cert : option (list string) -> list string -> string -> result unit string;
  rl_accept : ServerConfig -> Conn -> result unit string;
}.

Definition tls_err {A} (what : string) (r : result A string) : result A ServerError :=
  match r with Ok a => Ok a | Err e => Err (Tls (what +:+ ": " +:+ e)) end.

(** [collect::<Result<Vec<_>, _>>]: the first error. *)
Fixpoint collect {A E} (l : list (result A E)) : result (list A) E :=
  match l with
  | [] => Ok []
  | r :: l => let? a := r in let? rest := collect l in Ok (a :: rest)
  end.

Context (rustls : Rustls).

Definition load_certs (path : string) : result (list string) ServerError :=
  let? items := tls_err ("open " +:+ path) (rl_pem_file_iter rustls path) in
  tls_err ("parse certs " +:+ path) (collect items).

Definition load_private_key (path : string) : result string ServerError :=
  tls_err ("parse key " +:+ path) (rl_from_pem_file rustls path).

Fixpoint add_roots (certs roots : list string) : result (list string) ServerError :=
  match certs with
  | [] => Ok roots
  | c :: certs => let? _ := tls_err "add root" (rl_root_add rustls c) in add_roots certs (roots ++ [c])
  end.

Definition load_root_store (path : string) : result (list string) ServerError :=
  let? certs := load_certs path in add_roots certs [].

Definition with_single_cert (clients : option (list string)) (certs : list string) (key : string) :
    result ServerConfig ServerError :=
  let? _ := tls_err "single cert" (rl_single_cert rustls clients certs key) in Ok (mkServerConfig certs key clients).

Definition build_tls_acceptor (cfg : TlsConfig) : result (ServerConfig * bool) ServerError :=
  let? certs := load_certs (tls_cert_path cfg) in
  let? key := load_private_key (tls_key_path cfg) in
  let? _ := tls_err "default protocols" (rl_protocol_versions rustls) in
  let? server_cfg :=
    match tls_client_ca cfg with
    | Some ca_path =>
        let? roots := load_root_store ca_path in
        let? _ := tls_err "client verifier" (rl_client_verifier rustls roots) in
        with_single_cert (Some roots) certs key
    | None => with_single_cert None certs key
    end in
  Ok (server_cfg, bool_decide (is_Some (tls_client_ca cfg))).

(** ** TCP *)

Record TcpDoor := mkTcpDoor {
  td_addr : IpAddr * Z;
  td_tls : option ServerConfig;
  td_served : list Conn;
}.

(** A connection of the TLS loop is dropped when its handshake fails. *)
Definition handshaken (cfg : ServerConfig) (c : Conn) : bool :=
  match rl_accept rustls cfg c with Ok _ => true | Err _ => false end.

Definition serve_tcp (bind : result unit string) (accepts : list (result Conn string)) (addr : IpAddr * Z)
    (tls : option TlsConfig) : result TcpDoor ServerError :=
  match bind with
  | Err e => Err (ServerIo e)
  | Ok _ =>
      match tls with
      | Some t =>
          let? acceptor := build_tls_acceptor t in
          Ok (mkTcpDoor addr (Some acceptor.1) (filter (fun c => handshaken acceptor.1 c = true) (accept_loop accepts)))
      | None => Ok (mkTcpDoor addr None (accept_loop accepts))
      end
  end.

(** ** The server *)

Record ServeHost := mkServeHost {
  sh_token_files : TokenFiles;
  sh_entries : Entries;
  sh_socket : SocketCalls;
  sh_unix_accepts : list (result Conn string);
  sh_tcp_bind : result unit string;
  sh_tcp_accepts : list (result Conn string);
}.

(** The outcome of the two tasks; an error of one is logged and leaves the other alone. *)
Record Served := mkServed {
  sv_unix : option (result UnixDoor string);
  sv_tcp : option (result TcpDoor ServerError);
}.

Definition server_run (host : ServeHost) (cfg : ApiConfig) (tokens : option LoadedTokens) :
    result Served ServerError * option LoadedTokens :=
  match server_start (sh_token_files host) cfg tokens with
  | (Err e, tokens) => (Err e, tokens)
  | (Ok (unix, tcp), tokens) =>
      (Ok {| sv_unix :=
               if unix then
                 (fun path => (serve_unix (sh_socket host) (sh_unix_accepts host) path (ac_unix_socket_mode cfg)
                                 (sh_entries host)).1) <$> ac_unix_socket cfg
               else None;
             sv_tcp :=
               if tcp then
                 (fun addr => serve_tcp (sh_tcp_bind host) (sh_tcp_accepts host) addr (ac_tls cfg)) <$> ac_tcp_addr cfg
               else None |}, tokens)
  end.
End serving.

Arguments ServeHost : clear implicits.
Arguments Rustls : clear implicits.
Arguments UnixDoor : clear implicits.
Arguments TcpDoor : clear implicits.
Arguments Served : clear implicits.

(** ** What is loaded *)

Section loading.
Context {Conn : Type} (rustls : Rustls Conn).

Lemma tls_err_ok {A} what (r : result A string) a : tls_err what r = Ok a <-> r = Ok a.
Proof. destruct r; simpl; naive_solver. Qed.

Lemma collect_ok {A E} (l : list (result A E)) a : collect l = Ok a -> l = Ok <$> a.
Proof.
  revert a. induction l as [|[x|e] l IH]; simpl; intros a Ha; [by simplify_eq| |done].
  destruct (collect l) as [rest|]; [|done]. simplify_eq/=. by rewrite <- (IH rest).
Qed.

(** A file of certificates: it opens, and every item in it is one. *)
Definition holds_certs (path : string) (certs : list string) : Prop :=
  rl_pem_file_iter rustls path = Ok (Ok <$> certs).

Lemma load_certs_ok path certs : load_certs rustls path = Ok certs -> holds_certs path certs.
Proof.
  unfold load_certs, holds_certs. destruct (rl_pem_file_iter rustls path) as [items|]; [|done]. simpl.
  intros Hc%tls_err_ok%collect_ok. by subst.
Qed.

Lemma add_roots_ok certs roots out : add_roots rustls certs roots = Ok out -> out = roots ++ certs.
Proof.
  revert roots. induction certs as [|c certs IH]; simpl; intros roots Ho; [by simplify_eq; rewrite app_nil_r|].
  destruct (rl_root_add rustls c); [|done]. simpl in Ho. apply IH in Ho. by rewrite <- app_assoc in Ho.
Qed.

Lemma load_root_store_ok path roots : load_root_store rustls path = Ok roots -> holds_certs path roots.
Proof.
  unfold load_root_store. destruct (load_certs rustls path) as [certs|] eqn:Hc; [|done]. simpl.
  intros ->%add_roots_ok. by apply load_certs_ok.
Qed.

(** An acceptor presents what the two files hold, and verifies clients against the CA
    file whenever one is named. *)
Lemma build_tls_acceptor_ok cfg sc mtls : build_tls_acceptor rustls cfg = Ok (sc, mtls) ->
  holds_certs (tls_cert_path cfg) (sc_certs sc) /\ rl_from_pem_file rustls (tls_key_path cfg) = Ok (sc_key sc) /\
  match tls_client_ca cfg with
  | None => sc_client_roots sc = None
  | Some ca => exists roots, sc_client_roots sc = Some roots /\ holds_certs ca roots
  end.
Proof.
  unfold build_tls_acceptor, load_private_key, with_single_cert.
  destruct (load_certs rustls (tls_cert_path cfg)) as [certs|] eqn:Hc; [|done]. apply load_certs_ok in Hc. simpl.
  destruct (rl_from_pem_file rustls (tls_key_path cfg)) as [key|]; [|done].
  destruct (rl_protocol_versions rustls); [|done]. simpl. destruct (tls_client_ca cfg) as [ca|].
  - destruct (load_root_store rustls ca) as [roots|] eqn:Hr; [|done]. apply load_root_store_ok in Hr. simpl.
    destruct (rl_client_verifier rustls roots); [|done]. simpl.
    destruct (rl_single_cert rustls (Some roots) certs key); [|done]. simpl. intros [= <- _]. eauto.
  - destruct (rl_single_cert rustls None certs key); [|done]. simpl. by intros [= <- _].
Qed.

(** The mode of a socket that is served. *)
Lemma serve_unix_ok calls (accepts : list (result Conn string)) path mode fs door :
  (serve_unix calls accepts path mode fs).1 = Ok door ->
  sk_create_dir_all calls = None /\ sk_bind calls = None /\
  ud_path door = path /\ ud_served door = accept_loop accepts /\
  ud_entry door = Some (mkEntry (match sk_metadata calls, sk_set_permissions calls with
                                 | None, None => Z.land mode 4095
                                 | _, _ => Z.land 511 (Z.lnot (sk_umask calls))
                                 end) true).
Proof.
  unfold serve_unix, unix_bind. destruct (sk_create_dir_all calls); [done|]. destruct (sk_bind calls); [done|].
  destruct (remove_stale calls path fs !! path); [done|]. simpl. intros [= <-]. simpl. split_and!; [done..|].
  unfold set_unix_socket_mode. destruct (sk_metadata calls), (sk_set_permissions calls);
    by rewrite ?lookup_alter_eq, ?lookup_insert_eq.
Qed.
End loading.

(** The name of a socket that another process is listening on is taken from it: the
    bind does not fail, since the name was removed just before. *)
Theorem live_socket_taken_over {Conn} (accepts : list (result Conn string)) path mode other fs calls :
  fs !! path = Some (mkEntry other true) ->
  sk_exists calls = None -> sk_remove calls = None -> sk_create_dir_all calls = None -> sk_bind calls = None ->
  exists door, (serve_unix calls accepts path mode fs).1 = Ok door /\ ud_served door = accept_loop accepts.
Proof.
  intros _ He Hr Hd Hb. unfold serve_unix, remove_stale, unix_bind. rewrite He, Hr, Hd, Hb, lookup_delete_eq. simpl. eauto.
Qed.
