(* ===== verification/Perimeter.v ===== *)
(** * Perimeter extensions

    Models the extension store of crates/selfdef-perimeter/src/lib.rs: the manifest of
    an allowlist extension, its validation, the two signatures bound to the
    signer's and the auditor's own key, the scan of the manifest directory and
    the lookups. The file system is that of Signing; parsing of the manifest and
    decoding of a key file are parameters.

    Where the code builds a text for a failed signature, the cause is kept as a
    constructor. *)

From S2P Require Import Prelude Signing.
From stdpp Require Import options.

(** ** Manifests *)

Definition PERIMETER_SCHEMA : string := "1.0.0".
Definition DEFAULT_ALLOWLIST : list string :=
  ["/usr/bin/python3"; "/usr/bin/nvidia-smi"; "/usr/local/bin/vllm"; "/usr/bin/podman"].
Definition MAX_EXTENSION_TTL_MS : Z := 30 * 24 * 60 * 60 * 1000.

Record ExtensionManifest := mkManifest {
  em_schema_version : string;
  em_extension_id : string;
  em_binary_paths : list string;
  em_reason : string;
  em_issued_at_ms : Z;
  em_expires_at_ms : Z;
  em_signer_kid : string;
  em_auditor_kid : string;
  em_incident_url : option string;
}.

Inductive SignatureFailure :=
| NoFileName
| SignatureMissing (kid : string) (p : path)
| KeyMissing (kid : string) (p : path)
| SignatureUnreadable (kid e : string)
| SignatureNotUtf8 (kid : string)
| SignatureMalformed (kid e : string)
| KeyUnreadable (kid e : string)
| KeyNotUtf8 (kid : string)
| KeyMalformed (kid e : string)
| NotVerified (kid : string) (p : path).

Inductive PerimeterError :=
| SchemaMismatch (got : string)
| PerimeterIo (e : string)
| Serde (e : string)
| ExtensionInvalid (reason : string)
| SignatureFailed (f : SignatureFailure).

Section validation.
Context `{UnicodeTables}.

Definition id_byte (a : ascii) : bool :=
  ((97 <=? byte a)%N && (byte a <=? 122)%N) || ((48 <=? byte a)%N && (byte a <=? 57)%N) || bool_decide (a = "-"%char).
Definition kid_byte (a : ascii) : bool :=
  is_ascii_alphanumeric (byte a) || bool_decide (a = "-"%char) || bool_decide (a = "_"%char).

(** Whitespace or a shell metacharacter; the quotes are written by their codes. *)
Definition shell_char (c : rchar) : bool :=
  is_whitespace c ||
  bool_decide (c ∈ ["$"; "`"; String "034" ""; "'"; "*"; "?"; ";"; "|"; "&"]).

Definition check_path (bp : string) : result unit PerimeterError :=
  if negb (starts_with bp "/") then
    Err (ExtensionInvalid ("binary_paths entry " +:+ str_debug bp +:+ " must be absolute (start with '/')"))
  else if existsb shell_char (chars bp) then
    Err (ExtensionInvalid ("binary_paths entry " +:+ str_debug bp +:+ " contains whitespace or shell metacharacters"))
  else if bool_decide (bp ∈ DEFAULT_ALLOWLIST) then
    Err (ExtensionInvalid ("binary_paths entry " +:+ str_debug bp
      +:+ " is already in the verbatim sain-01 §6 default allowlist; an extension is unnecessary"))
  else Ok tt.

Fixpoint check_paths (l : list string) : result unit PerimeterError :=
  match l with
  | [] => Ok tt
  | bp :: l => let? _ := check_path bp in check_paths l
  end.

Definition check_kid (label kid : string) : result unit PerimeterError :=
  if all_bytes kid_byte kid then Ok tt
  else Err (ExtensionInvalid (label +:+ " " +:+ str_debug kid
         +:+ " must be [A-Za-z0-9_-] (it indexes key/signature filenames)")).

Definition validate_manifest (m : ExtensionManifest) (now_ms : Z) : result unit PerimeterError :=
  if negb (bool_decide (em_schema_version m = PERIMETER_SCHEMA)) then Err (SchemaMismatch (em_schema_version m))
  else if bool_decide (em_extension_id m = "") then Err (ExtensionInvalid "extension_id is empty")
  else if negb (all_bytes id_byte (em_extension_id m)) then
    Err (ExtensionInvalid ("extension_id " +:+ str_debug (em_extension_id m)
      +:+ " must be lowercase-kebab-case (a-z, 0-9, '-')"))
  else if bool_decide (em_binary_paths m = []) then Err (ExtensionInvalid "binary_paths must contain at least one entry")
  else
    let? _ := check_paths (em_binary_paths m) in
    if bool_decide (em_reason m = "") then Err (ExtensionInvalid "reason is empty")
    else if 512 <? String.length (em_reason m) then Err (ExtensionInvalid "reason exceeds 512 chars")
    else if bool_decide (em_signer_kid m = "") then Err (ExtensionInvalid "signer_kid is empty")
    else if bool_decide (em_auditor_kid m = "") then
      Err (ExtensionInvalid "auditor_kid is empty (production manifest must declare a distinct auditor kid)")
    else if bool_decide (em_signer_kid m = em_auditor_kid m) then
      Err (ExtensionInvalid "signer_kid and auditor_kid must be distinct")
    else
      let? _ := check_kid "signer_kid" (em_signer_kid m) in
      let? _ := check_kid "auditor_kid" (em_auditor_kid m) in
      if (em_expires_at_ms m <=? em_issued_at_ms m)%Z then
        Err (ExtensionInvalid "expires_at_ms must be > issued_at_ms")
      else
        let ttl := (em_expires_at_ms m - em_issued_at_ms m)%Z in
        if (MAX_EXTENSION_TTL_MS <? ttl)%Z then
          Err (ExtensionInvalid ("TTL " +:+ show_uint ttl +:+ " ms exceeds MAX_EXTENSION_TTL_MS ("
            +:+ show_uint MAX_EXTENSION_TTL_MS +:+ ")"))
        else if (em_expires_at_ms m <=? now_ms)%Z then
          Err (ExtensionInvalid "extension expired (expires_at_ms <= now_ms)")
        else Ok tt.
End validation.

(** ** Loading *)

(** [serde_json::from_slice] on a manifest. *)
Class ManifestJson := { manifest_from_slice : string -> result ExtensionManifest string }.

(** [PublicKey::decode] of minisign_verify on the text of a key file. *)
Class KeyFile `{Minisign} := { key_decode : string -> result PublicKey string }.

Record ExtensionStore := mkExtensionStore {
  es_by_path : gmap string ExtensionManifest;
  es_all : list ExtensionManifest;
}.

Definition store_new : ExtensionStore := mkExtensionStore ∅ [].

Definition insert_manifest (m : ExtensionManifest) (s : ExtensionStore) : ExtensionStore :=
  mkExtensionStore (foldl (fun t bp => <[bp := m]> t) (es_by_path s) (em_binary_paths m)) (es_all s ++ [m]).

Section loading.
Context `{UnicodeTables} `{Minisign} `{!KeyFile} `{ManifestJson} (fs : FileSystem).

Definition verify_minisign_with_key (kid payload : string) (sig_path key_path : path) : result unit SignatureFailure :=
  match fs_read fs sig_path with
  | Err e => Err (SignatureUnreadable kid e)
  | Ok sig_bytes =>
      if negb (utf8_valid sig_bytes) then Err (SignatureNotUtf8 kid)
      else match signature_decode sig_bytes with
      | Err e => Err (SignatureMalformed kid e)
      | Ok signature =>
          match fs_read fs key_path with
          | Err e => Err (KeyUnreadable kid e)
          | Ok pk_bytes =>
              if negb (utf8_valid pk_bytes) then Err (KeyNotUtf8 kid)
              else match key_decode (trim pk_bytes) with
              | Err e => Err (KeyMalformed kid e)
              | Ok pk => if key_verify pk payload signature then Ok tt else Err (NotVerified kid key_path)
              end
          end
      end
  end.

Definition verify_kid (dir roots : path) (file_name payload kid : string) : result unit SignatureFailure :=
  let sig_path := dir ++ [file_name +:+ "." +:+ kid +:+ ".minisig"] in
  let key_path := roots ++ [kid +:+ ".pub"] in
  if negb (fs_exists fs sig_path) then Err (SignatureMissing kid sig_path)
  else if negb (fs_exists fs key_path) then Err (KeyMissing kid key_path)
  else verify_minisign_with_key kid payload sig_path key_path.

(** The manifest [file_name] of a directory. *)
Definition load_signed (dir roots : path) (file_name : string) (now_ms : Z) : result ExtensionManifest PerimeterError :=
  match fs_read fs (dir ++ [file_name]) with
  | Err e => Err (PerimeterIo e)
  | Ok bytes =>
      match manifest_from_slice bytes with
      | Err e => Err (Serde e)
      | Ok m =>
          let? _ := validate_manifest m now_ms in
          if negb (utf8_valid file_name) then Err (SignatureFailed NoFileName) else
          match (let? _ := verify_kid dir roots file_name bytes (em_signer_kid m) in
                 verify_kid dir roots file_name bytes (em_auditor_kid m)) with
          | Err f => Err (SignatureFailed f)
          | Ok _ => Ok m
          end
      end
  end.

Fixpoint load_entries (dir roots : path) (names : list string) (now_ms : Z) (s : ExtensionStore)
    (report : list (result string PerimeterError)) : ExtensionStore * list (result string PerimeterError) :=
  match names with
  | [] => (s, report)
  | name :: names =>
      if negb (bool_decide (extension name = Some "json")) then load_entries dir roots names now_ms s report
      else
        match load_signed dir roots name now_ms with
        | Ok m => load_entries dir roots names now_ms (insert_manifest m s) (report ++ [Ok (em_extension_id m)])
        | Err e => load_entries dir roots names now_ms s (report ++ [Err e])
        end
  end.

Definition load_dir (dir roots : path) (now_ms : Z) :
    result (ExtensionStore * list (result string PerimeterError)) PerimeterError :=
  match fs_tree fs dir with
  | None => Ok (store_new, [])
  | Some NFile => Err (PerimeterIo "Not a directory (os error 20)")
  | Some (NDir entries err) =>
      let '(s, report) := load_entries dir roots entries.*1 now_ms store_new [] in
      match err with
      | Some e => Err (PerimeterIo e)
      | None => Ok (s, report)
      end
  end.
End loading.

(** ** Lookups *)

Definition is_active (s : ExtensionStore) (binary_path : string) (now_ms : Z) : bool :=
  match es_by_path s !! binary_path with
  | None => false
  | Some m => (now_ms <? em_expires_at_ms m)%Z
  end.

Definition get (s : ExtensionStore) (binary_path : string) (now_ms : Z) : option ExtensionManifest :=
  if is_active s binary_path now_ms then es_by_path s !! binary_path else None.

Definition active (s : ExtensionStore) (now_ms : Z) : list ExtensionManifest :=
  filter (fun m => (now_ms < em_expires_at_ms m)%Z) (es_all s).

Definition active_paths (s : ExtensionStore) (now_ms : Z) : list string :=
  merge_sort String.le ((map_to_list (filter (fun pm => (now_ms < em_expires_at_ms pm.2)%Z) (es_by_path s))).*1).

(** ** Two-person control *)

Lemma bind_unit_ok {A E} (r : result unit E) (f : result A E) x : (let? _ := r in f) = Ok x <-> r = Ok tt /\ f = Ok x.
Proof. destruct r as [[]|e]; simpl; naive_solver. Qed.

(** A file name made of such a key identifier stays in its directory. *)
Definition path_safe (kid : string) : Prop := kid <> "" /\ all_bytes kid_byte kid = true.

(** What a valid manifest promises. *)
Record manifest_ok (m : ExtensionManifest) (now_ms : Z) : Prop := {
  mo_kids : em_signer_kid m <> em_auditor_kid m;
  mo_signer : path_safe (em_signer_kid m);
  mo_auditor : path_safe (em_auditor_kid m);
  mo_reason : em_reason m <> "";
  mo_issued : (em_issued_at_ms m < em_expires_at_ms m)%Z;
  mo_ttl : (em_expires_at_ms m - em_issued_at_ms m <= MAX_EXTENSION_TTL_MS)%Z;
  mo_live : (now_ms < em_expires_at_ms m)%Z;
  mo_paths : Forall (fun bp => starts_with bp "/" = true /\ existsb shell_char (chars bp) = false /\ bp ∉ DEFAULT_ALLOWLIST)
    (em_binary_paths m);
}.

Section facts.
Context `{UnicodeTables} `{Minisign} `{!KeyFile} `{ManifestJson} (fs : FileSystem).

Lemma check_paths_ok l : check_paths l = Ok tt ->
  Forall (fun bp => starts_with bp "/" = true /\ existsb shell_char (chars bp) = false /\ bp ∉ DEFAULT_ALLOWLIST) l.
Proof using Type.
  induction l as [|bp l IH]; simpl; [constructor|]. rewrite bind_unit_ok. intros [Hb Hl]. constructor; [|auto].
  unfold check_path in Hb. destruct (starts_with bp "/"); [|done]. simpl in Hb. destruct (existsb shell_char (chars bp)); [done|].
  by case_bool_decide.
Qed.

Lemma validate_ok m now_ms : validate_manifest m now_ms = Ok tt -> manifest_ok m now_ms.
Proof using Type.
  unfold validate_manifest. case_bool_decide; [simpl|done]. case_bool_decide; [done|].
  destruct (all_bytes id_byte _); [simpl|done]. case_bool_decide; [done|]. rewrite bind_unit_ok. intros [Hp Hv].
  do 1 (case_bool_decide; [done|]). destruct (512 <? _); [done|]. do 3 (case_bool_decide; [done|]).
  rewrite !bind_unit_ok in Hv. destruct Hv as (Hs & Ha & Hv). unfold check_kid in Hs, Ha.
  destruct (all_bytes kid_byte (em_signer_kid m)) eqn:Es; [|done]. destruct (all_bytes kid_byte (em_auditor_kid m)) eqn:Ea; [|done].
  destruct (Z.leb_spec (em_expires_at_ms m) (em_issued_at_ms m)); [done|].
  destruct (Z.ltb_spec MAX_EXTENSION_TTL_MS (em_expires_at_ms m - em_issued_at_ms m)); [done|].
  destruct (Z.leb_spec (em_expires_at_ms m) now_ms); [done|]. split; try done. by apply check_paths_ok.
Qed.

(** The holder of a key signed the payload. *)
Definition signed_by (dir roots : path) (name payload kid : string) : Prop :=
  exists sig_text sg key_text pk,
    fs_read fs (dir ++ [name +:+ "." +:+ kid +:+ ".minisig"]) = Ok sig_text /\ signature_decode sig_text = Ok sg /\
    fs_read fs (roots ++ [kid +:+ ".pub"]) = Ok key_text /\ key_decode (trim key_text) = Ok pk /\
    key_verify pk payload sg = true.

Lemma verify_kid_ok dir roots name payload kid : verify_kid fs dir roots name payload kid = Ok tt -> signed_by dir roots name payload kid.
Proof using Type.
  unfold verify_kid, verify_minisign_with_key, signed_by. destruct (fs_exists fs _); [simpl|done].
  destruct (fs_exists fs _); [simpl|done]. destruct (fs_read fs (dir ++ _)) as [st|]; [|done].
  destruct (utf8_valid st); [simpl|done]. destruct (signature_decode st) as [sg|] eqn:Es; [|done].
  destruct (fs_read fs (roots ++ _)) as [kt|]; [|done]. destruct (utf8_valid kt); [simpl|done].
  destruct (key_decode (trim kt)) as [pk|] eqn:Ek; [|done]. destruct (key_verify pk payload sg) eqn:Ev; [|done].
  intros _. by exists st, sg, kt, pk.
Qed.

Lemma load_signed_ok dir roots name now_ms m : load_signed fs dir roots name now_ms = Ok m ->
  manifest_ok m now_ms /\ exists bytes, fs_read fs (dir ++ [name]) = Ok bytes /\ manifest_from_slice bytes = Ok m /\
    signed_by dir roots name bytes (em_signer_kid m) /\ signed_by dir roots name bytes (em_auditor_kid m).
Proof using Type.
  unfold load_signed. destruct (fs_read fs (dir ++ [name])) as [bytes|]; [|done].
  destruct (manifest_from_slice bytes) as [m'|] eqn:Em; [|done]. rewrite bind_unit_ok. intros [Hv Hs].
  destruct (utf8_valid name); [simpl in Hs|done]. destruct (let? _ := _ in _) as [[]|] eqn:Ev; [|done]. apply bind_unit_ok in Ev as [Hk1%verify_kid_ok Hk2%verify_kid_ok].
  simplify_eq. split; [by apply validate_ok|]. by exists bytes.
Qed.

(** *** The store *)

Definition lists (bp : string) (m : ExtensionManifest) : Prop := bp ∈ em_binary_paths m.
#[local] Instance lists_dec bp m : Decision (lists bp m).
Proof using Type. unfold lists. apply _. Defined.

Lemma insert_paths (m : ExtensionManifest) (l : list string) (t : gmap string ExtensionManifest) bp :
  foldl (fun t bp => <[bp := m]> t) t l !! bp = if decide (bp ∈ l) then Some m else t !! bp.
Proof using Type.
  revert t. induction l as [|x l IH]; intros t; simpl; [done|]. rewrite IH.
  destruct (decide (bp ∈ l)) as [Hin|Hni].
  - rewrite decide_True; [done|]. by right.
  - destruct (decide (bp = x)) as [->|Hne].
    + rewrite lookup_insert_eq, decide_True; [done|]. by left.
    + rewrite lookup_insert_ne, decide_False; [done| |done]. by rewrite elem_of_cons; intros [?|?].
Qed.

(** The manifest that answers for a path is the last one loaded that lists it. *)
Definition store_inv (s : ExtensionStore) : Prop :=
  forall bp, es_by_path s !! bp = last (filter (lists bp) (es_all s)).

Lemma insert_inv m s : store_inv s -> store_inv (insert_manifest m s).
Proof using Type.
  intros Hs bp. simpl. rewrite insert_paths, filter_app, filter_cons, filter_nil, Hs.
  destruct (decide (lists bp m)) as [Hl|Hl].
  - by rewrite last_snoc, decide_True.
  - by rewrite app_nil_r, decide_False.
Qed.

Definition loaded (dir roots : path) (now_ms : Z) (name : string) : option ExtensionManifest :=
  if bool_decide (extension name = Some "json")
  then match load_signed fs dir roots name now_ms with Ok m => Some m | Err _ => None end
  else None.

Lemma load_entries_facts dir roots now_ms names s report : store_inv s ->
  let s' := (load_entries fs dir roots names now_ms s report).1 in
  store_inv s' /\ es_all s' = es_all s ++ omap (loaded dir roots now_ms) names.
Proof using Type.
  revert s report. induction names as [|name names IH]; intros s report Hs; simpl; [by rewrite app_nil_r|].
  unfold loaded at 1. case_bool_decide; simpl; [|by apply IH].
  destruct (load_signed fs dir roots name now_ms) as [m|e]; [|by apply IH].
  destruct (IH (insert_manifest m s) (report ++ [Ok (em_extension_id m)])) as [Hi Ha]; [by apply insert_inv|].
  split; [done|]. rewrite Ha. simpl. by rewrite <-app_assoc.
Qed.

Lemma load_dir_facts dir roots now_ms s report : load_dir fs dir roots now_ms = Ok (s, report) ->
  store_inv s /\ forall m, m ∈ es_all s -> exists name, load_signed fs dir roots name now_ms = Ok m.
Proof using Type.
  assert (Hnew : store_inv store_new) by (intros bp; simpl; by rewrite lookup_empty).
  unfold load_dir. destruct (fs_tree fs dir) as [[|entries err]|].
  - done.
  - destruct (load_entries_facts dir roots now_ms entries.*1 store_new [] Hnew) as [Hi Ha].
    destruct (load_entries _ _ _ _ _ _ _) as [s' r']. simpl in *. destruct err; [done|]. intros [= <- <-]. split; [done|].
    intros m. rewrite Ha. intros (name & _ & Hl)%list_elem_of_omap. exists name. unfold loaded in Hl.
    case_bool_decide; [|done]. by destruct (load_signed fs dir roots name now_ms); simplify_eq.
  - intros [= <- <-]. split; [done|]. by intros m ?%elem_of_nil.
Qed.

(** C16: the perimeter lets a binary through on two named signatures only. A binary that
    an extension lets through is named, as an absolute path without shell characters
    and outside of the built-in list, by a manifest of the directory; the manifest
    expires after the time of the question and at most thirty days after the time of
    issue that it claims itself, which is not compared with the clock; and that very
    file was verified under two key files of the trust roots, the one of its signer's
    and the one of its auditor's name, which are different names that cannot lead out
    of the directory. That the two files hold different keys is not checked. *)
Theorem two_person_control dir roots now_ms s report bp later :
  load_dir fs dir roots now_ms = Ok (s, report) -> is_active s bp later = true ->
  exists name bytes m, fs_read fs (dir ++ [name]) = Ok bytes /\ manifest_from_slice bytes = Ok m /\
    manifest_ok m now_ms /\ bp ∈ em_binary_paths m /\ (later < em_expires_at_ms m)%Z /\
    signed_by dir roots name bytes (em_signer_kid m) /\ signed_by dir roots name bytes (em_auditor_kid m).
Proof using Type.
  intros Hl Ha. destruct (load_dir_facts _ _ _ _ _ Hl) as [Hi Hall]. unfold is_active in Ha. rewrite Hi in Ha.
  destruct (last (filter (lists bp) (es_all s))) as [m|] eqn:El; [|done]. apply Z.ltb_lt in Ha.
  apply last_Some_elem_of, list_elem_of_filter in El as [Hlist Hin].
  destruct (Hall m Hin) as (name & Hn). destruct (load_signed_ok _ _ _ _ _ Hn) as (Hok & bytes & ? & ? & ? & ?).
  by exists name, bytes, m.
Qed.
End facts.

(** The thirty days are counted from the time of issue that the manifest claims, which
    may lie in the future: however long a period is wanted, a manifest that is valid
    now lets its binary through for longer. *)
Theorem extension_lifetime_unbounded `{UnicodeTables} (now_ms period : Z) : (0 <= period)%Z ->
  exists m bp, validate_manifest m now_ms = Ok tt /\ forall s later, (now_ms <= later <= now_ms + period)%Z ->
    is_active (insert_manifest m s) bp later = true.
Proof.
  intros Hp.
  exists (mkManifest PERIMETER_SCHEMA "e" ["/b"] "r" (now_ms + period) (now_ms + period + 1) "op" "audit" None), "/b". split.
  - unfold validate_manifest. simpl.
    rewrite (proj2 (Z.leb_gt _ _)) by lia. rewrite (proj2 (Z.ltb_ge _ _)) by (unfold MAX_EXTENSION_TTL_MS; lia).
    by rewrite (proj2 (Z.leb_gt _ _)) by lia.
  - intros s later Hl. unfold is_active, insert_manifest. simpl. rewrite lookup_insert_eq. simpl. apply Z.ltb_lt. lia.
Qed.

(** A later extension hides an earlier one. When two manifests list the same binary
    and the one loaded last expires first, the binary is no longer let through
    from then on, although the other manifest is still counted as active. *)
Theorem later_extension_shadows s m1 m2 bp now_ms :
  bp ∈ em_binary_paths m1 -> bp ∈ em_binary_paths m2 ->
  (em_expires_at_ms m2 <= now_ms < em_expires_at_ms m1)%Z ->
  let s' := insert_manifest m2 (insert_manifest m1 s) in
  is_active s' bp now_ms = false /\ get s' bp now_ms = None /\ m1 ∈ active s' now_ms.
Proof.
  intros H1 H2 Ht s'. assert (Ha : is_active s' bp now_ms = false).
  { unfold is_active, s'. simpl. rewrite insert_paths, decide_True by done. apply Z.ltb_ge. lia. }
  split; [done|]. split; [unfold get; by rewrite Ha|]. unfold active, s'. simpl. apply list_elem_of_filter.
  split; [lia|]. rewrite !elem_of_app. left. right. by left.
Qed.

(** ** The properties at concrete manifests *)

Module PerimeterExamples.
#[local] Instance tables : UnicodeTables :=
  {| uc_alphanumeric := fun _ => false; uc_uppercase := fun c => c; uc_debug_plain := fun _ => true |}.
(** A signature is the signed text followed by the key. *)
#[local] Instance minisign : Minisign := {|
  PublicKey := string; MinisignSignature := string; key_from_base64 := Ok; signature_decode := Ok;
  key_verify := fun key bytes sg => bool_decide (sg = bytes +:+ key) |}.
#[local] Instance key_file : KeyFile := {| key_decode := Ok |}.

Definition grafana (expires_at_ms : Z) : ExtensionManifest :=
  mkManifest "1.0.0" "grafana" ["/usr/bin/grafana"] "dashboards" 0 expires_at_ms "op" "audit" None.
#[local] Instance manifest_json : ManifestJson :=
  {| manifest_from_slice := fun s => if bool_decide (s = "grafana") then Ok (grafana 1000) else Err "expected value" |}.

Definition keys_at (signer auditor : string) : FileSystem :=
  let files := [(["etc"; "ext"; "g.json"], "grafana"); (["etc"; "ext"; "g.json.op.minisig"], "grafana" +:+ signer);
    (["etc"; "ext"; "g.json.audit.minisig"], "grafana" +:+ auditor);
    (["etc"; "roots"; "op.pub"], "K1"); (["etc"; "roots"; "audit.pub"], "K2")] in
  let find p := head (filter (fun f => f.1 = p) files) in
  mkFileSystem
    (fun p => if bool_decide (p = ["etc"; "ext"])
      then Some (NDir [("g.json", NFile); ("g.json.op.minisig", NFile); ("g.json.audit.minisig", NFile)] None)
      else match find p with Some _ => Some NFile | None => None end)
    (fun p => match find p with Some f => Ok f.2 | None => Err "ENOENT" end) (fun _ => Err "ENOENT").

Definition grafana_store : ExtensionStore := mkExtensionStore {["/usr/bin/grafana" := grafana 1000]} [grafana 1000].

Lemma two_person_control_witness :
  load_dir (keys_at "K1" "K2") ["etc"; "ext"] ["etc"; "roots"] 10 = Ok (grafana_store, [Ok "grafana"]) /\
  is_active grafana_store "/usr/bin/grafana" 999 = true /\
  exists name bytes m, fs_read (keys_at "K1" "K2") (["etc"; "ext"] ++ [name]) = Ok bytes /\ manifest_from_slice bytes = Ok m /\
    manifest_ok m 10 /\ "/usr/bin/grafana" ∈ em_binary_paths m /\ (999 < em_expires_at_ms m)%Z /\
    signed_by (keys_at "K1" "K2") ["etc"; "ext"] ["etc"; "roots"] name bytes (em_signer_kid m) /\
    signed_by (keys_at "K1" "K2") ["etc"; "ext"] ["etc"; "roots"] name bytes (em_auditor_kid m).
Proof.
  split; [vm_compute; reflexivity|]. split; [vm_compute; reflexivity|].
  apply (two_person_control (keys_at "K1" "K2") ["etc"; "ext"] ["etc"; "roots"] 10 grafana_store [Ok "grafana"]
    "/usr/bin/grafana" 999); vm_compute; reflexivity.
Defined.

(** The operator's key under both names is not enough. *)
Example one_key_is_refused :
  load_dir (keys_at "K1" "K1") ["etc"; "ext"] ["etc"; "roots"] 10
    = Ok (store_new, [Err (SignatureFailed (NotVerified "audit" ["etc"; "roots"; "audit.pub"]))]).
Proof. vm_compute. reflexivity. Qed.

(** One key under both names is accepted when both key files hold it. *)
Example same_key_twice :
  let files := keys_at "K1" "K1" in
  let twice := mkFileSystem (fs_tree files)
    (fun p => if bool_decide (p = ["etc"; "roots"; "audit.pub"]) then Ok "K1" else fs_read files p) (fs_read_to_string files) in
  load_dir twice ["etc"; "ext"] ["etc"; "roots"] 10 = Ok (grafana_store, [Ok "grafana"]).
Proof. vm_compute. reflexivity. Qed.

Lemma later_extension_shadows_witness :
  let s := insert_manifest (grafana 50) (insert_manifest (grafana 1000) store_new) in
  is_active s "/usr/bin/grafana" 60 = false /\ get s "/usr/bin/grafana" 60 = None /\ grafana 1000 ∈ active s 60.
Proof. apply (later_extension_shadows store_new (grafana 1000) (grafana 50)); [by left|by left|vm_compute; done]. Defined.
End PerimeterExamples.
