(* ===== verification/FrictionAudit.v ===== *)
(** * The friction audit

    Models crates/selfdef-friction-audit and the verdict type of
    crates/selfdef-friction-audit-mirror, with the read routes of
    crates/selfdef-api/src/friction_audit.rs and the summary of
    crates/selfdef-cli/src/friction_audit.rs: override manifests and their signed
    store, the ring of verdicts, the replay of the script and the check of the event
    log. The file system and minisign are those of Signing; JSON and SHA-256 are
    parameters. Where the code builds a text for a failed signature, the cause is
    kept as a constructor. *)

From S2P Require Import Prelude Core Signing Perimeter Guardian.
From stdpp Require Import sorting.
From stdpp Require Import options.

(** ** selfdef-friction-audit-mirror *)

Module Gate.
Inductive t := Pcie | Zfs | Memory | Immutability | Signature | Timeout.
#[global] Instance eq_dec : EqDecision t.
Proof. solve_decision. Defined.

(** The serde name, and the [Debug] text. *)
Definition wire (g : t) : string :=
  match g with
  | Pcie => "pcie" | Zfs => "zfs" | Memory => "memory"
  | Immutability => "immutability" | Signature => "signature" | Timeout => "timeout"
  end.
Definition debug (g : t) : string :=
  match g with
  | Pcie => "Pcie" | Zfs => "Zfs" | Memory => "Memory"
  | Immutability => "Immutability" | Signature => "Signature" | Timeout => "Timeout"
  end.
Definition all : list t := [Pcie; Zfs; Memory; Immutability; Signature; Timeout].
End Gate.

Inductive GateStatus :=
| GatePass
| GateSkipped (reason : string)
| GateFail (code : Z)
| OverrideActive (manifest_sha256 : string) (expires_at_ms : Z).

Record GateVerdict := mkGateVerdict {
  gv_schema_version : string;
  gv_gate : Gate.t;
  gv_status : GateStatus;
  gv_ts_ms : Z;
  gv_hostname : string;
  gv_signer_kid_policy : string;
  gv_signer_kid_extension : option string;
}.

Definition FRICTION_SCHEMA : string := "1.0.0".

Inductive VerdictError :=
| VSchemaMismatch (got : string)
| EmptyPolicySigner
| EmptyHostname
| BadTimestamp
| EmptyOverrideManifest
| VSerde (e : string).

Definition verdict_new (gate : Gate.t) (status : GateStatus) (ts_ms : Z) (hostname signer_kid_policy : string) :
    GateVerdict :=
  mkGateVerdict FRICTION_SCHEMA gate status ts_ms hostname signer_kid_policy None.

Definition with_override_signer (kid : string) (v : GateVerdict) : GateVerdict :=
  mkGateVerdict (gv_schema_version v) (gv_gate v) (gv_status v) (gv_ts_ms v) (gv_hostname v)
    (gv_signer_kid_policy v) (Some kid).

Definition verdict_validate (v : GateVerdict) : result unit VerdictError :=
  if negb (bool_decide (gv_schema_version v = FRICTION_SCHEMA)) then Err (VSchemaMismatch (gv_schema_version v))
  else if bool_decide (gv_signer_kid_policy v = "") then Err EmptyPolicySigner
  else if bool_decide (gv_hostname v = "") then Err EmptyHostname
  else if (gv_ts_ms v =? 0)%Z then Err BadTimestamp
  else match gv_status v with
       | OverrideActive sha _ => if bool_decide (sha = "") then Err EmptyOverrideManifest else Ok tt
       | _ => Ok tt
       end.

Definition is_failing (v : GateVerdict) : bool := match gv_status v with GateFail _ => true | _ => false end.
Definition is_override_active (v : GateVerdict) : bool :=
  match gv_status v with OverrideActive _ _ => true | _ => false end.

(** ** Override manifests *)

Definition MAX_OVERRIDE_TTL_MS : Z := 7 * 24 * 60 * 60 * 1000.

Record OverrideManifest := mkOverride {
  om_schema_version : string;
  om_gate : Gate.t;
  om_reason : string;
  om_issued_at_ms : Z;
  om_expires_at_ms : Z;
  om_signer_kid : string;
  om_auditor_kid : string;
  om_legal_review_kid : option string;
  om_incident_url : option string;
}.

(** What [verify_minisign] reports. *)
Inductive TrustFailure :=
| SigUnreadable (e : string)
| SigNotUtf8
| SigMalformed (e : string)
| RootsMissing (p : path)
| RootsUnreadable (e : string)
| NoRootValidated (p : path) (tried : nat).

Inductive FrictionError :=
| FSchemaMismatch (got : string)
| FIo (e : string)
| FSerde (e : string)
| OverrideInvalid (reason : string)
| FSignatureMissing (p : path)
| FSignature (f : TrustFailure)
| FScript (e : string)
| FAuditChainBreak (line : nat) (detail : string).

Definition must_not_touch (g : Gate.t) : bool :=
  match g with Gate.Immutability | Gate.Signature => true | _ => false end.

Definition override_validate (m : OverrideManifest) (now_ms : Z) : result unit FrictionError :=
  if negb (bool_decide (om_schema_version m = FRICTION_SCHEMA)) then Err (FSchemaMismatch (om_schema_version m))
  else if bool_decide (om_reason m = "") then Err (OverrideInvalid "reason is empty")
  else if 512 <? String.length (om_reason m) then Err (OverrideInvalid "reason exceeds 512 chars")
  else if bool_decide (om_signer_kid m = "") then Err (OverrideInvalid "signer_kid is empty")
  else if bool_decide (om_auditor_kid m = "") then
    Err (OverrideInvalid "auditor_kid is empty (production profile requires multi-sig)")
  else if bool_decide (om_signer_kid m = om_auditor_kid m) then
    Err (OverrideInvalid "signer_kid and auditor_kid must be distinct")
  else if (om_expires_at_ms m <=? om_issued_at_ms m)%Z then
    Err (OverrideInvalid "expires_at_ms must be > issued_at_ms")
  else
    let ttl := (om_expires_at_ms m - om_issued_at_ms m)%Z in
    if (MAX_OVERRIDE_TTL_MS <? ttl)%Z then
      Err (OverrideInvalid ("TTL " +:+ show_uint ttl +:+ " ms exceeds MAX_OVERRIDE_TTL_MS ("
        +:+ show_uint MAX_OVERRIDE_TTL_MS +:+ ")"))
    else if (om_expires_at_ms m <=? now_ms)%Z then
      Err (OverrideInvalid "override expired (expires_at_ms <= now_ms)")
    else if must_not_touch (om_gate m) && bool_decide (default "" (om_legal_review_kid m) = "") then
      Err (OverrideInvalid (Gate.debug (om_gate m) +:+ " gate is must-not-touch tier; legal_review_kid is required"))
    else match om_legal_review_kid m with
         | Some lr =>
             if bool_decide (lr = om_signer_kid m) || bool_decide (lr = om_auditor_kid m) then
               Err (OverrideInvalid "legal_review_kid must be distinct from signer + auditor")
             else Ok tt
         | None => Ok tt
         end.

(** ** The override store *)

(** The store, keyed by the JSON text of the gate. *)
Abbreviation OverrideStore := (gmap string OverrideManifest).
Definition gate_key (g : Gate.t) : string := String "034" (Gate.wire g +:+ String "034" "").

Definition override_insert (m : OverrideManifest) (s : OverrideStore) : OverrideStore := <[gate_key (om_gate m) := m]> s.

Definition override_is_active (s : OverrideStore) (gate : Gate.t) (now_ms : Z) : bool :=
  match s !! gate_key gate with
  | None => false
  | Some m => (now_ms <? om_expires_at_ms m)%Z
  end.

Definition override_get (s : OverrideStore) (gate : Gate.t) (now_ms : Z) : option OverrideManifest :=
  if override_is_active s gate now_ms then s !! gate_key gate else None.

Definition active_gates (s : OverrideStore) (now_ms : Z) : list Gate.t :=
  filter (fun g => override_is_active s g now_ms = true) Gate.all.

(** [serde_json::from_slice] on a manifest and on a ring entry of the script. *)
Record ScriptRingEntry := mkRingEntry {
  re_gate : string;
  re_status : string;
  re_ts_ms : Z;
  re_hostname : string;
}.
Class FrictionJson := {
  override_from_slice : string -> result OverrideManifest string;
  ring_entry_from_slice : string -> result ScriptRingEntry string;
  verdict_from_slice : string -> result GateVerdict string;
}.

Definition from_json `{FrictionJson} (bytes : string) : result GateVerdict VerdictError :=
  match verdict_from_slice bytes with
  | Err e => Err (VSerde e)
  | Ok v => let? _ := verdict_validate v in Ok v
  end.

Section store.
Context `{Minisign} `{!KeyFile} `{FrictionJson} (fs : FileSystem).

(** The key files in the order the directory lists them, [tried] of them so far. *)
Fixpoint try_roots (roots : path) (payload : string) (signature : MinisignSignature) (names : list string)
    (err : option string) (tried : nat) : result unit TrustFailure :=
  match names with
  | [] => match err with Some e => Err (RootsUnreadable e) | None => Err (NoRootValidated roots tried) end
  | name :: names =>
      if negb (bool_decide (extension name = Some "pub")) then try_roots roots payload signature names err tried
      else
        let next := try_roots roots payload signature names err (S tried) in
        match fs_read fs (roots ++ [name]) with
        | Err _ => next
        | Ok pk_bytes =>
            if negb (utf8_valid pk_bytes) then next
            else match key_decode (trim pk_bytes) with
                 | Err _ => next
                 | Ok pk => if key_verify pk payload signature then Ok tt else next
                 end
        end
  end.

Definition verify_minisign (payload : string) (sig_path roots : path) : result unit TrustFailure :=
  match fs_read fs sig_path with
  | Err e => Err (SigUnreadable e)
  | Ok sig_bytes =>
      if negb (utf8_valid sig_bytes) then Err SigNotUtf8
      else match signature_decode sig_bytes with
      | Err e => Err (SigMalformed e)
      | Ok signature =>
          match fs_tree fs roots with
          | None => Err (RootsMissing roots)
          | Some NFile => Err (RootsUnreadable "Not a directory (os error 20)")
          | Some (NDir entries err) => try_roots roots payload signature entries.*1 err 0
          end
      end
  end.

Definition load_override (dir roots : path) (file_name : string) (now_ms : Z) : result OverrideManifest FrictionError :=
  match fs_read fs (dir ++ [file_name]) with
  | Err e => Err (FIo e)
  | Ok bytes =>
      match override_from_slice bytes with
      | Err e => Err (FSerde e)
      | Ok m =>
          let? _ := override_validate m now_ms in
          let sig_path := dir ++ [with_extension file_name "json.minisig"] in
          if negb (fs_exists fs sig_path) then Err (FSignatureMissing sig_path)
          else match verify_minisign bytes sig_path roots with
               | Err f => Err (FSignature f)
               | Ok _ => Ok m
               end
      end
  end.

Fixpoint load_overrides (dir roots : path) (names : list string) (now_ms : Z) (s : OverrideStore)
    (report : list (result Gate.t FrictionError)) : OverrideStore * list (result Gate.t FrictionError) :=
  match names with
  | [] => (s, report)
  | name :: names =>
      if negb (bool_decide (extension name = Some "json")) then load_overrides dir roots names now_ms s report
      else
        match load_override dir roots name now_ms with
        | Ok m => load_overrides dir roots names now_ms (override_insert m s) (report ++ [Ok (om_gate m)])
        | Err e => load_overrides dir roots names now_ms s (report ++ [Err e])
        end
  end.

Definition load_override_dir (dir roots : path) (now_ms : Z) :
    result (OverrideStore * list (result Gate.t FrictionError)) FrictionError :=
  match fs_tree fs dir with
  | None => Ok (∅, [])
  | Some NFile => Err (FIo "Not a directory (os error 20)")
  | Some (NDir entries err) =>
      let '(s, report) := load_overrides dir roots entries.*1 now_ms ∅ [] in
      match err with
      | Some e => Err (FIo e)
      | None => Ok (s, report)
      end
  end.

Definition load_default_overrides : Z -> result (OverrideStore * list (result Gate.t FrictionError)) FrictionError :=
  load_override_dir ["etc"; "selfdef"; "overrides"] ["etc"; "selfdef"; "trust-roots"].

(** ** The ring of verdicts *)

Definition gate_of_name (s : string) : Gate.t :=
  match s with
  | "pcie" => Gate.Pcie | "zfs" => Gate.Zfs | "memory" => Gate.Memory
  | "immutability" => Gate.Immutability | "signature" => Gate.Signature | "timeout" => Gate.Timeout
  | _ => Gate.Pcie
  end.

Definition fail_code (g : Gate.t) : Z :=
  match g with Gate.Pcie => 1 | Gate.Zfs => 2 | Gate.Memory => 3 | Gate.Timeout => 4 | _ => 255 end.

Definition into_verdict (e : ScriptRingEntry) : GateVerdict :=
  let gate := gate_of_name (re_gate e) in
  let status := match re_status e with
                | "pass" => GatePass
                | "skip" => GateSkipped "operator-extended SKIP (tool absent)"
                | "fail" => GateFail (fail_code gate)
                | _ => GateFail 255
                end in
  mkGateVerdict FRICTION_SCHEMA gate status (re_ts_ms e) (re_hostname e) "<unsigned>" None.

(** Newest first; the sort is stable. *)
Definition newer (v w : GateVerdict) : Prop := (gv_ts_ms w <= gv_ts_ms v)%Z.
#[export] Instance newer_dec v w : Decision (newer v w).
Proof using Type. unfold newer. apply _. Defined.

Definition ring_entry (ring : path) (name : string) : option GateVerdict :=
  if negb (bool_decide (extension name = Some "json")) then None
  else match fs_read fs (ring ++ [name]) with
       | Err _ => None
       | Ok bytes => match ring_entry_from_slice bytes with Ok e => Some (into_verdict e) | Err _ => None end
       end.

Definition read_ring_buffer (ring : path) : result (list GateVerdict) FrictionError :=
  match fs_tree fs ring with
  | None => Ok []
  | Some NFile => Err (FIo "Not a directory (os error 20)")
  | Some (NDir _ (Some e)) => Err (FIo e)
  | Some (NDir entries None) => Ok (merge_sort newer (omap (ring_entry ring) entries.*1))
  end.

(** ** Replay *)

(** [spawned] is what starting the script gives: its exit code, none when a signal ended it. *)
Definition replay (script : path) (spawned : result (option Z) string) : result Z FrictionError :=
  if negb (fs_exists fs script) then Err (FIo ("script not found at " +:+ path_display script))
  else match spawned with
       | Err e => Err (FScript e)
       | Ok code => Ok (default (-1)%Z code)
       end.
End store.

(** ** The event log *)

Section chain.
Context `{Sha256} `{JsonText}.

Definition friction_line (n : nat) (last_sha : option string) (line : string) : result string FrictionError :=
  match json_of_string line with
  | Err e => Err (FAuditChainBreak n ("malformed JSON: " +:+ e))
  | Ok parsed =>
      match json_get parsed "prev_event_sha256" ≫= json_as_str, last_sha with
      | Some prev, Some want =>
          if bool_decide (prev = want) then Ok (sha256_hex line)
          else Err (FAuditChainBreak n ("prev_event_sha256=" +:+ prev +:+ ", expected " +:+ want))
      | _, _ => Ok (sha256_hex line)
      end
  end.

Fixpoint friction_lines (n : nat) (lines : list string) (last_sha : option string) (events : nat) :
    result nat FrictionError :=
  match lines with
  | [] => Ok events
  | line :: lines =>
      if blank line then friction_lines (S n) lines last_sha events
      else let? sha := friction_line n last_sha line in friction_lines (S n) lines (Some sha) (S events)
  end.

Definition friction_chain_check (fs : FileSystem) (log : path) : result nat FrictionError :=
  if negb (fs_exists fs log) then Ok 0
  else match fs_read_to_string fs log with
       | Err e => Err (FIo e)
       | Ok text => friction_lines 1 (str_lines text) None 0
       end.
End chain.

(** ** The summaries *)

(** The first verdict of each gate. *)
Definition latest_of (verdicts : list GateVerdict) (g : Gate.t) : option GateVerdict :=
  head (filter (fun v => gv_gate v = g) verdicts).

(** selfdefctl lists the gates in the order of the type, the API in that of their
    [Debug] names. *)
Definition latest_per_gate (verdicts : list GateVerdict) : list GateVerdict := omap (latest_of verdicts) Gate.all.
Definition latest_by_name (verdicts : list GateVerdict) : list GateVerdict :=
  omap (latest_of verdicts) [Gate.Immutability; Gate.Memory; Gate.Pcie; Gate.Signature; Gate.Timeout; Gate.Zfs].

Definition aggregate (verdicts : list GateVerdict) (overridden_gates : list Gate.t) : string :=
  if bool_decide (verdicts = []) then "unknown"
  else if existsb is_failing verdicts then "fail"
  else if negb (bool_decide (overridden_gates = [])) then "override"
  else "ok".

Record FrictionAuditBody := mkFrictionBody {
  fb_aggregate : string;
  fb_now_ms : Z;
  fb_verdicts : list GateVerdict;
  fb_overrides : list OverrideManifest;
  fb_overridden_gates : list Gate.t;
}.

Definition friction_ring_dir : path := ["var"; "cache"; "selfdef"; "friction-audit"; "ring"].

Section routes.
Context `{Minisign} `{!KeyFile} `{FrictionJson} (fs : FileSystem).

(** [GET /v1/friction-audit]; an error is answered with status 500. *)
Definition show_friction_audit (now : Z) : result FrictionAuditBody FrictionError :=
  let? verdicts := read_ring_buffer fs friction_ring_dir in
  let? loaded := load_default_overrides fs now in
  let store := loaded.1 in
  let verdicts := latest_by_name verdicts in
  let overridden_gates := active_gates store now in
  Ok (mkFrictionBody (aggregate verdicts overridden_gates) now verdicts
        (omap (fun g => override_get store g now) overridden_gates) overridden_gates).

(** [GET /v1/friction-audit/history]. *)
Definition friction_history (limit : option Z) : result (list GateVerdict) FrictionError :=
  let? all := read_ring_buffer fs friction_ring_dir in
  Ok (take (Z.to_nat (default 32 limit `min` 256)%Z) all).
End routes.

(** ** selfdefctl friction-audit *)

Section cli.
Context `{FrictionJson} (fs : FileSystem).

(** As [read_ring_buffer], but a file that cannot be read ends the command; the
    directory lists [names] before it fails with [err], if it does. *)
Fixpoint cli_entries (ring : path) (names : list string) (err : option string) (out : list GateVerdict) :
    result (list GateVerdict) string :=
  match names with
  | [] => match err with Some e => Err e | None => Ok out end
  | name :: names =>
      if negb (bool_decide (extension name = Some "json")) then cli_entries ring names err out
      else match fs_read fs (ring ++ [name]) with
           | Err e => Err e
           | Ok bytes =>
               match ring_entry_from_slice bytes with
               | Ok re => cli_entries ring names err (out ++ [into_verdict re])
               | Err _ => cli_entries ring names err out
               end
           end
  end.

Definition cli_load_all (ring : path) : result (list GateVerdict) string :=
  match fs_tree fs ring with
  | None => Ok []
  | Some NFile => Err "Not a directory (os error 20)"
  | Some (NDir entries err) => let? out := cli_entries ring entries.*1 err [] in Ok (merge_sort newer out)
  end.

(** The verdicts shown and the exit code. *)
Definition run_show (ring : path) : result (list GateVerdict * Z) string :=
  let? all := cli_load_all ring in
  let verdicts := latest_per_gate all in
  Ok (verdicts, if existsb is_failing verdicts then 1 else 0)%Z.

Definition run_history (ring : path) (limit : Z) : result (list GateVerdict) string :=
  let? all := cli_load_all ring in Ok (take (Z.to_nat limit) all).

Definition run_replay (spawned : result (option Z) string) : result Z string :=
  if negb (fs_exists fs ["usr"; "local"; "bin"; "friction-audit"]) then Ok 127%Z
  else match spawned with Err e => Err e | Ok code => Ok (default (-1)%Z code) end.
End cli.

(** ** What an override rests on *)

(** What a valid manifest promises at the time it is loaded. *)
Record override_ok (m : OverrideManifest) (now_ms : Z) : Prop := {
  oo_reason : om_reason m <> "" /\ String.length (om_reason m) <= 512;
  oo_kids : om_signer_kid m <> "" /\ om_auditor_kid m <> "" /\ om_signer_kid m <> om_auditor_kid m;
  oo_ttl : (0 < om_expires_at_ms m - om_issued_at_ms m <= MAX_OVERRIDE_TTL_MS)%Z;
  oo_live : (now_ms < om_expires_at_ms m)%Z;
  oo_legal : must_not_touch (om_gate m) = true -> exists lr, om_legal_review_kid m = Some lr /\ lr <> "";
  oo_legal_distinct : forall lr, om_legal_review_kid m = Some lr -> lr <> om_signer_kid m /\ lr <> om_auditor_kid m;
}.

Lemma override_validate_ok m now_ms : override_validate m now_ms = Ok tt <->
  om_schema_version m = FRICTION_SCHEMA /\ override_ok m now_ms.
Proof.
  unfold override_validate. split.
  - destruct (bool_decide_reflect (om_schema_version m = FRICTION_SCHEMA)) as [Hs|]; [|done]. simpl.
    destruct (bool_decide_reflect (om_reason m = "")) as [|Hr]; [done|].
    destruct (Nat.ltb_spec 512 (String.length (om_reason m))) as [|Hl]; [done|].
    destruct (bool_decide_reflect (om_signer_kid m = "")) as [|Hsg]; [done|].
    destruct (bool_decide_reflect (om_auditor_kid m = "")) as [|Hau]; [done|].
    destruct (bool_decide_reflect (om_signer_kid m = om_auditor_kid m)) as [|Hd]; [done|].
    destruct (Z.leb_spec (om_expires_at_ms m) (om_issued_at_ms m)) as [|Hi]; [done|].
    destruct (Z.ltb_spec MAX_OVERRIDE_TTL_MS (om_expires_at_ms m - om_issued_at_ms m)) as [|Ht]; [done|].
    destruct (Z.leb_spec (om_expires_at_ms m) now_ms) as [|Hn]; [done|].
    intros Hv. split; [done|].
    constructor; [done|done|lia|lia| |].
    + intros Eg. rewrite Eg in Hv. destruct (om_legal_review_kid m) as [lr|]; simpl in Hv; [|done].
      exists lr. split; [done|]. intros ->. done.
    + intros lr Elr. rewrite Elr in Hv. destruct (must_not_touch _ && _); [done|].
      destruct (bool_decide_reflect (lr = om_signer_kid m)); [done|].
      by destruct (bool_decide_reflect (lr = om_auditor_kid m)).
  - intros [Hs [[Hr1 Hr2] (Hk1 & Hk2 & Hk3) Ht Hl Hg Hd]].
    rewrite bool_decide_true by done. simpl. rewrite bool_decide_false by done.
    destruct (Nat.ltb_spec 512 (String.length (om_reason m))) as [|_]; [lia|].
    rewrite !bool_decide_false by done.
    destruct (Z.leb_spec (om_expires_at_ms m) (om_issued_at_ms m)) as [|_]; [lia|].
    destruct (Z.ltb_spec MAX_OVERRIDE_TTL_MS (om_expires_at_ms m - om_issued_at_ms m)) as [|_]; [lia|].
    destruct (Z.leb_spec (om_expires_at_ms m) now_ms) as [|_]; [lia|].
    destruct (must_not_touch (om_gate m)) eqn:Eg; simpl.
    + destruct (Hg eq_refl) as (lr & Elr & Hne). destruct (Hd lr Elr). rewrite Elr. simpl.
      by rewrite !bool_decide_false by done.
    + destruct (om_legal_review_kid m) as [lr|] eqn:Elr; [|done]. destruct (Hd lr eq_refl). by rewrite !bool_decide_false by done.
Qed.

Lemma gate_key_inj g h : gate_key g = gate_key h -> g = h.
Proof. destruct g, h; done. Qed.

Section facts.
Context `{Minisign} `{!KeyFile} `{FrictionJson} (fs : FileSystem).

(** Some key of the trust roots verifies the sidecar over the file's own bytes. *)
Definition root_signed (dir roots : path) (name bytes : string) : Prop :=
  exists sig_bytes signature root pk_bytes pk,
    fs_read fs (dir ++ [with_extension name "json.minisig"]) = Ok sig_bytes /\
    signature_decode sig_bytes = Ok signature /\ extension root = Some "pub" /\
    fs_read fs (roots ++ [root]) = Ok pk_bytes /\ key_decode (trim pk_bytes) = Ok pk /\
    key_verify pk bytes signature = true.

Lemma try_roots_ok roots payload signature names err tried :
  try_roots fs roots payload signature names err tried = Ok tt ->
  exists root pk_bytes pk, extension root = Some "pub" /\ fs_read fs (roots ++ [root]) = Ok pk_bytes /\
    key_decode (trim pk_bytes) = Ok pk /\ key_verify pk payload signature = true.
Proof using Type.
  revert tried. induction names as [|name names IH]; intros tried; simpl; [by destruct err|].
  case_bool_decide as Hx; simpl; [|apply IH].
  destruct (fs_read fs (roots ++ [name])) as [pkb|] eqn:Er; [|apply IH]. destruct (utf8_valid pkb); [|apply IH]. simpl.
  destruct (key_decode (trim pkb)) as [pk|] eqn:Ek; [|apply IH]. destruct (key_verify pk payload signature) eqn:Ev; [|apply IH].
  intros _. eauto 10.
Qed.

Lemma load_override_ok dir roots name now_ms m : load_override fs dir roots name now_ms = Ok m ->
  override_ok m now_ms /\ exists bytes, fs_read fs (dir ++ [name]) = Ok bytes /\ override_from_slice bytes = Ok m /\
    root_signed dir roots name bytes.
Proof using Type.
  unfold load_override. destruct (fs_read fs (dir ++ [name])) as [bytes|] eqn:Eb; [|done].
  destruct (override_from_slice bytes) as [m'|] eqn:Ep; [|done].
  rewrite bind_unit_ok. intros [Hv%override_validate_ok Hs]. destruct (fs_exists _ _); [|done]. simpl in Hs.
  destruct (verify_minisign fs bytes _ roots) as [[]|] eqn:Ev; [|done]. injection Hs as ->. split; [by destruct Hv|].
  exists bytes. split; [done|]. split; [done|]. unfold verify_minisign in Ev.
  destruct (fs_read fs (dir ++ [with_extension name "json.minisig"])) as [sb|] eqn:Esb; [|done].
  destruct (utf8_valid sb); [|done]. simpl in Ev. destruct (signature_decode sb) as [sg|] eqn:Esg; [|done].
  destruct (fs_tree fs roots) as [[|entries err]|]; [done| |done].
  apply try_roots_ok in Ev as (root & pkb & pk & ? & ? & ? & ?). by exists sb, sg, root, pkb, pk.
Qed.

(** Every manifest of the store was loaded, and sits under its own gate. *)
Definition loaded_inv (dir roots : path) (now_ms : Z) (s : OverrideStore) : Prop :=
  map_Forall (fun k m => k = gate_key (om_gate m) /\ exists name, load_override fs dir roots name now_ms = Ok m) s.

Lemma load_overrides_inv dir roots names now_ms s report :
  loaded_inv dir roots now_ms s -> loaded_inv dir roots now_ms (load_overrides fs dir roots names now_ms s report).1.
Proof using Type.
  revert s report. induction names as [|name names IH]; intros s report Hs; simpl; [done|].
  case_bool_decide; simpl; [|by apply IH]. destruct (load_override fs dir roots name now_ms) as [m|e] eqn:El; [|by apply IH].
  apply IH. apply map_Forall_insert_2; [|done]. eauto.
Qed.

Lemma load_override_dir_inv dir roots now_ms s report :
  load_override_dir fs dir roots now_ms = Ok (s, report) -> loaded_inv dir roots now_ms s.
Proof using Type.
  assert (He : loaded_inv dir roots now_ms ∅) by apply map_Forall_empty.
  unfold load_override_dir. destruct (fs_tree fs dir) as [[|entries err]|]; [done| |by intros [= <- _]].
  pose proof (load_overrides_inv dir roots entries.*1 now_ms ∅ [] He) as Hi.
  destruct (load_overrides _ _ _ _ _ _ _) as [s' r']. simpl in Hi. destruct err; [done|]. by intros [= <- _].
Qed.

(** A gate counts as overridden only through a manifest for that very gate, whose
    bytes some trust-root key signed, which names two different key holders, spans
    at most seven days, was not over when it was loaded and is not over now, and, for
    the two gates that must not be touched, names a third one for legal review. *)
Theorem override_rests_on_signature dir roots now_ms s report gate later :
  load_override_dir fs dir roots now_ms = Ok (s, report) -> override_is_active s gate later = true ->
  exists name bytes m, override_get s gate later = Some m /\ om_gate m = gate /\
    fs_read fs (dir ++ [name]) = Ok bytes /\ override_from_slice bytes = Ok m /\ override_ok m now_ms /\
    (later < om_expires_at_ms m)%Z /\ root_signed dir roots name bytes.
Proof using Type.
  intros Hl Ha. unfold override_get. rewrite Ha. unfold override_is_active in Ha.
  destruct (s !! gate_key gate) as [m|] eqn:Em; [|done]. apply Z.ltb_lt in Ha.
  destruct (load_override_dir_inv _ _ _ _ _ Hl _ _ Em) as (Hk%gate_key_inj & name & Hn).
  destruct (load_override_ok _ _ _ _ _ Hn) as (Hok & bytes & ? & ? & ?). by exists name, bytes, m.
Qed.

(** The ring: what the files of the directory hold, newest first. *)
Theorem ring_newest_first ring entries out :
  fs_tree fs ring = Some (NDir entries None) -> read_ring_buffer fs ring = Ok out ->
  StronglySorted newer out /\ out ≡ₚ omap (ring_entry fs ring) entries.*1.
Proof using Type.
  unfold read_ring_buffer. intros -> [= <-].
  assert (Transitive newer) by (intros a b c; unfold newer; lia).
  assert (Total newer) by (intros a b; unfold newer; lia).
  split; [by apply StronglySorted_merge_sort|apply merge_sort_Permutation].
Qed.
End facts.

(** The seven days are counted from the issue time that the manifest itself claims,
    which may lie in the future: however long a period is wanted, a manifest that is
    accepted now is in force for longer. *)
Theorem override_lifetime_unbounded (now_ms period : Z) : (0 <= period)%Z ->
  exists m, override_validate m now_ms = Ok tt /\ forall s later, (now_ms <= later <= now_ms + period)%Z ->
    override_is_active (override_insert m s) (om_gate m) later = true.
Proof.
  intros Hp.
  exists (mkOverride FRICTION_SCHEMA Gate.Pcie "r" (now_ms + period) (now_ms + period + 1) "op" "audit" None None). split.
  - apply override_validate_ok. split; [done|]. constructor; simpl; [split; [done|lia]|done|unfold MAX_OVERRIDE_TTL_MS; lia|lia|done|done].
  - intros s later Hl. unfold override_is_active, override_insert. rewrite lookup_insert_eq. simpl. apply Z.ltb_lt. lia.
Qed.

(** ** The event log *)

Section chain_facts.
Context `{Sha256} `{JsonText}.

(** What a line claims to follow. *)
Definition claims (line : string) : option string :=
  match json_of_string line with Ok v => json_get v "prev_event_sha256" ≫= json_as_str | Err _ => None end.

(** Two neighbours agree unless the second claims another predecessor. *)
Definition follows (a b : string) : Prop := forall prev, claims b = Some prev -> prev = sha256_hex a.

Fixpoint chained_from (last : option string) (lines : list string) : Prop :=
  match lines with
  | [] => True
  | l :: lines => is_ok (json_of_string l) = true /\ (forall a, last = Some a -> follows a l) /\ chained_from (Some l) lines
  end.

Lemma friction_line_ok n last line :
  match friction_line n (sha256_hex <$> last) line with
  | Ok sha => sha = sha256_hex line /\ is_ok (json_of_string line) = true /\ forall a, last = Some a -> follows a line
  | Err _ => ~ (is_ok (json_of_string line) = true /\ forall a, last = Some a -> follows a line)
  end.
Proof using Type.
  unfold friction_line, follows, claims. destruct (json_of_string line) as [v|e]; simpl; [|naive_solver].
  destruct (json_get v "prev_event_sha256" ≫= json_as_str) as [prev|]; [|naive_solver].
  destruct last as [a|]; simpl; [|naive_solver].
  case_bool_decide as Hp; [naive_solver|]. intros [_ Hf]. apply Hp. by apply (Hf a).
Qed.

Lemma friction_lines_exact n lines last k m :
  friction_lines n lines (sha256_hex <$> last) k = Ok m <->
  chained_from last (filter (fun l => blank l = false) lines) /\ m = k + length (filter (fun l => blank l = false) lines).
Proof using Type.
  revert n last k. induction lines as [|l lines IH]; intros n last k; simpl.
  { rewrite Nat.add_0_r. naive_solver. }
  rewrite filter_cons. destruct (blank l) eqn:Eb; simpl; [apply IH|].
  pose proof (friction_line_ok n last l) as Hl. destruct (friction_line n _ l) as [sha|e]; simpl.
  - destruct Hl as (-> & Hok & Hf). rewrite (IH (S n) (Some l) (S k)). split; [intros [? ->]|intros ((?&?&?) & ->)];
      (split; [done|lia]).
  - split; [done|]. intros ((Hok & Hf & _) & _). by destruct Hl.
Qed.

(** The check of the event log, exactly: it counts the lines that are not blank when
    each is JSON and none claims a predecessor other than the line before it. *)
Theorem friction_chain_exact fs log text n :
  fs_exists fs log = true -> fs_read_to_string fs log = Ok text ->
  friction_chain_check fs log = Ok n <->
  chained_from None (filter (fun l => blank l = false) (str_lines text)) /\
  n = length (filter (fun l => blank l = false) (str_lines text)).
Proof using Type.
  intros He Ht. unfold friction_chain_check. rewrite He, Ht. apply (friction_lines_exact 1 (str_lines text) None 0).
Qed.

(** Lines that claim nothing can be removed, repeated or put in another order. *)
Theorem unclaimed_log_unprotected n (lines1 lines2 : list string) :
  Forall (fun l => is_ok (json_of_string l) = true /\ claims l = None /\ blank l = false) (lines1 ++ lines2) ->
  is_ok (friction_lines n lines1 None 0) = true /\ is_ok (friction_lines n lines2 None 0) = true.
Proof using Type.
  assert (Hc : forall lines last, Forall (fun l => is_ok (json_of_string l) = true /\ claims l = None /\ blank l = false) lines ->
    chained_from last (filter (fun l => blank l = false) lines)).
  { intros lines last Hl. revert last. induction Hl as [|l lines (Hok & Hn & Hb) _ IH]; intros last; [done|].
    rewrite filter_cons, decide_True by done. split; [done|]. split; [|apply IH]. intros a _ prev. by rewrite Hn. }
  intros [H1 H2]%Forall_app.
  split; erewrite (proj2 (friction_lines_exact n _ None 0 _)); [done|split; [by apply Hc|done]|done|split; [by apply Hc|done]].
Qed.
End chain_facts.

(** ** What the summaries show *)

Lemma into_verdict_no_override e : is_override_active (into_verdict e) = false.
Proof. unfold is_override_active, into_verdict. simpl. repeat case_match; done. Qed.

Lemma latest_of_elem vs g v : latest_of vs g = Some v -> v ∈ vs /\ gv_gate v = g.
Proof.
  unfold latest_of. intros Hv. assert (Hin : v ∈ filter (fun v => gv_gate v = g) vs).
  { destruct (filter _ vs); [done|]. injection Hv as ->. by left. }
  by apply list_elem_of_filter in Hin as [? ?].
Qed.

Lemma latest_by_name_elem vs v : v ∈ latest_by_name vs <-> exists g, latest_of vs g = Some v.
Proof.
  unfold latest_by_name. rewrite list_elem_of_omap. split; [naive_solver|].
  intros [g Hg]. exists g. split; [|done]. destruct g; set_solver.
Qed.

Lemma ring_verdicts `{FrictionJson} fs ring vs v : read_ring_buffer fs ring = Ok vs -> v ∈ vs -> exists e, v = into_verdict e.
Proof.
  unfold read_ring_buffer. destruct (fs_tree fs ring) as [[|entries [e|]]|]; [done|done| |].
  - intros [= <-]. rewrite merge_sort_Permutation. intros (name & _ & Hr)%list_elem_of_omap. unfold ring_entry in Hr.
    destruct (negb _); [done|]. destruct (fs_read fs _); [|done]. destruct (ring_entry_from_slice _); [|done]. naive_solver.
  - intros [= <-]. by intros ?%elem_of_nil.
Qed.

(** An override is listed but never applied to what the route reports: no verdict it
    shows is an overridden one, and a failing gate makes the whole audit fail,
    whether an override covers it or not. *)
Theorem override_not_applied `{Minisign} `{!KeyFile} `{FrictionJson} fs now body :
  show_friction_audit fs now = Ok body ->
  Forall (fun v => is_override_active v = false) (fb_verdicts body) /\
  (forall v, v ∈ fb_verdicts body -> is_failing v = true -> fb_aggregate body = "fail").
Proof.
  unfold show_friction_audit. destruct (read_ring_buffer fs friction_ring_dir) as [vs|] eqn:Er; simpl; [|done].
  destruct (load_default_overrides fs now) as [[s r]|]; simpl; [|done]. intros [= <-]. simpl. split.
  - apply Forall_forall. intros v (g & [Hv _]%latest_of_elem)%latest_by_name_elem.
    destruct (ring_verdicts fs _ _ _ Er Hv) as [e ->]. apply into_verdict_no_override.
  - intros v Hin Hf. unfold aggregate. rewrite bool_decide_false by (intros E; rewrite E in Hin; by apply elem_of_nil in Hin).
    assert (Hex : existsb is_failing (latest_by_name vs) = true).
    { apply existsb_exists. exists v. split; [by apply list_elem_of_In|done]. }
    by rewrite Hex.
Qed.

(** The script ends a clean run with an entry named overall; it is read as one of
    the PCIe gate, so that a PCIe check that was skipped is shown as passed. *)
Theorem overall_hides_skip host t1 t2 : (t1 < t2)%Z ->
  let skipped := into_verdict (mkRingEntry "pcie" "skip" t1 host) in
  let overall := into_verdict (mkRingEntry "overall" "pass" t2 host) in
  let shown := latest_by_name (merge_sort newer [skipped; overall]) in
  gv_status skipped <> GatePass /\ shown = [overall] /\ gv_gate overall = Gate.Pcie /\ gv_status overall = GatePass /\
  aggregate shown [] = "ok".
Proof.
  intros Ht skipped overall shown.
  assert (Hs : merge_sort newer [skipped; overall] = [overall; skipped]).
  { unfold merge_sort. simpl. rewrite decide_False by (unfold newer; simpl; lia). done. }
  assert (Hshown : shown = [overall]) by (unfold shown; rewrite Hs; done).
  rewrite Hshown. split_and!; done.
Qed.

(** ** The properties at concrete files *)

Module FrictionExamples.
(** A signature is the signed text followed by the key. *)
#[local] Instance minisign : Minisign := {|
  PublicKey := string; MinisignSignature := string; key_from_base64 := Ok; signature_decode := Ok;
  key_verify := fun key bytes sg => bool_decide (sg = bytes +:+ key) |}.
#[local] Instance key_file : KeyFile := {| key_decode := Ok |}.

Definition pcie_override : OverrideManifest :=
  mkOverride "1.0.0" Gate.Pcie "riser on order" 0 1000 "op" "audit" None None.
#[local] Instance friction_json : FrictionJson := {|
  override_from_slice := fun s => if bool_decide (s = "override") then Ok pcie_override else Err "expected value";
  ring_entry_from_slice := fun s => if bool_decide (s = "entry") then Ok (mkRingEntry "pcie" "fail" 5 "sain-01") else Err "expected value";
  verdict_from_slice := fun _ => Err "expected value" |}.

(** The only key that signed is filed under neither of the two names. *)
Definition one_key : FileSystem :=
  let files := [(["etc"; "selfdef"; "overrides"; "friction-audit-pcie.json"], "override");
    (["etc"; "selfdef"; "overrides"; "friction-audit-pcie.json.minisig"], "overrideK9");
    (["etc"; "selfdef"; "trust-roots"; "op.pub"], "K1"); (["etc"; "selfdef"; "trust-roots"; "audit.pub"], "K2");
    (["etc"; "selfdef"; "trust-roots"; "intern.pub"], "K9"); (friction_ring_dir ++ ["1.json"], "entry")] in
  let find p := head (filter (fun f => f.1 = p) files) in
  mkFileSystem
    (fun p => if bool_decide (p = ["etc"; "selfdef"; "overrides"])
      then Some (NDir [("friction-audit-pcie.json", NFile); ("friction-audit-pcie.json.minisig", NFile)] None)
      else if bool_decide (p = ["etc"; "selfdef"; "trust-roots"])
      then Some (NDir [("op.pub", NFile); ("audit.pub", NFile); ("intern.pub", NFile)] None)
      else if bool_decide (p = friction_ring_dir) then Some (NDir [("1.json", NFile)] None)
      else match find p with Some _ => Some NFile | None => None end)
    (fun p => match find p with Some f => Ok f.2 | None => Err "ENOENT" end) (fun _ => Err "ENOENT").

(** One signature is enough, although the manifest names a signer and an auditor. *)
Theorem one_signature_overrides :
  load_default_overrides one_key 10 = Ok ({[gate_key Gate.Pcie := pcie_override]}, [Ok Gate.Pcie]) /\
  verify_kid one_key ["etc"; "selfdef"; "overrides"] ["etc"; "selfdef"; "trust-roots"] "friction-audit-pcie.json"
    "override" "op" <> Ok tt /\
  verify_kid one_key ["etc"; "selfdef"; "overrides"] ["etc"; "selfdef"; "trust-roots"] "friction-audit-pcie.json"
    "override" "audit" <> Ok tt.
Proof. split; [vm_compute; reflexivity|]. split; vm_compute; done. Qed.

Lemma override_rests_on_signature_witness :
  override_is_active {[gate_key Gate.Pcie := pcie_override]} Gate.Pcie 999 = true /\
  exists name bytes m, override_get {[gate_key Gate.Pcie := pcie_override]} Gate.Pcie 999 = Some m /\ om_gate m = Gate.Pcie /\
    fs_read one_key (["etc"; "selfdef"; "overrides"] ++ [name]) = Ok bytes /\ override_from_slice bytes = Ok m /\
    override_ok m 10 /\ (999 < om_expires_at_ms m)%Z /\
    root_signed one_key ["etc"; "selfdef"; "overrides"] ["etc"; "selfdef"; "trust-roots"] name bytes.
Proof.
  split; [vm_compute; reflexivity|].
  apply (override_rests_on_signature one_key ["etc"; "selfdef"; "overrides"] ["etc"; "selfdef"; "trust-roots"] 10
    {[gate_key Gate.Pcie := pcie_override]} [Ok Gate.Pcie] Gate.Pcie 999); vm_compute; reflexivity.
Defined.

(** The gate of the example is overridden, and the route reports a failure. *)
Example overridden_and_failing :
  (fun b => (fb_aggregate b, fb_overridden_gates b)) <$> (match show_friction_audit one_key 10 with Ok b => Some b | Err _ => None end)
    = Some ("fail", [Gate.Pcie]).
Proof. vm_compute. reflexivity. Qed.

Lemma override_lifetime_unbounded_witness :
  exists m, override_validate m 10 = Ok tt /\ forall s later, (10 <= later <= 10 + MAX_OVERRIDE_TTL_MS * 52)%Z ->
    override_is_active (override_insert m s) (om_gate m) later = true.
Proof. apply (override_lifetime_unbounded 10 (MAX_OVERRIDE_TTL_MS * 52)). vm_compute. done. Defined.
End FrictionExamples.
