(* ===== verification/Channels.v ===== *)
(** * The notification channels

    Models the integration crates crates/selfdef-integration-*/src/lib.rs, one
    Module per crate: the channel as its constructor builds it from configuration
    ([from_config], with its errors), what it renders, the requests or children it
    starts for one notification, and how the answer becomes the result of
    [Notifier::notify] and [Channel::send].

    A file system is the outcome of reading a path ([Files]); what a server or a
    child process answers is an input of each call, and so are the clocks. The mail
    library, the JSON and timestamp texts and the UUID texts are parameters. *)

From S2P Require Import Prelude Core Federation Notify.
From stdpp Require Import options.

Definition Files := string -> result string string.

(** ** HTTP *)

Inductive HttpAuth := NoAuth | Bearer (token : string) | BasicAuth (user password : string).
Inductive HttpBody := TextBody (s : string) | JsonBody (j : json) | FormBody (l : list (string * string)).

Record Request := mkRequest {
  rq_url : string;
  rq_headers : list (string * string);
  rq_auth : HttpAuth;
  rq_body : HttpBody;
}.

(** What [send().await] gives: the status and the outcome of reading the body, or
    an error. *)
Inductive HttpAnswer :=
| Answered (status : Z) (text : result string string)
| SendFailed (e : string).

Definition is_success (status : Z) : bool := ((200 <=? status) && (status <? 300))%Z.

(** [text().await.unwrap_or_default()]. *)
Definition text_or_default (text : result string string) : string :=
  match text with Ok s => s | Err _ => "" end.

(** The delivery error that the HTTP crates declare, each with its own texts. *)
Inductive DeliveryError :=
| DNotConfigured
| DTransport (e : string)
| DRemote (status : Z) (body : string).

(** [#[error(..)]] of those enums; [why] is what the crate says of a channel that is
    not configured. *)
Definition delivery_display (name why : string) (e : DeliveryError) : string :=
  match e with
  | DNotConfigured => name +:+ " not configured (" +:+ why +:+ ")"
  | DTransport s => name +:+ " transport error: " +:+ s
  | DRemote status body => name +:+ " remote returned " +:+ show_uint status +:+ ": " +:+ body
  end.

Definition delivery_notifier (name why : string) (e : DeliveryError) : NotifierError :=
  match e with
  | DNotConfigured => NotConfigured
  | other => Http (delivery_display name why other)
  end.

Definition delivery_channel (name : string) (e : DeliveryError) : ChannelError :=
  match e with
  | DNotConfigured => ChannelOther (name +:+ " not configured")
  | DTransport s => Transport s
  | DRemote status body => Remote status body
  end.

(** One request and its answer, as the [post] of those crates reads it. *)
Definition read_answer (a : HttpAnswer) : result unit DeliveryError :=
  match a with
  | SendFailed e => Err (DTransport e)
  | Answered status text => if is_success status then Ok tt else Err (DRemote status (text_or_default text))
  end.

Definition map_err {A E F} (f : E -> F) (r : result A E) : result A F :=
  match r with Ok a => Ok a | Err e => Err (f e) end.

(** [post(..).await?; Ok(())] and [post(..).await?; Ok(DeliveryReceipt::empty())]. *)
Definition receipt_empty : DeliveryReceipt := mkDeliveryReceipt None.
Definition as_notify {A} (f : A -> NotifierError) (r : result unit A) : result unit NotifierError := map_err f r.
Definition as_receipt {A E} (f : E -> ChannelError) (r : result A E) : result DeliveryReceipt ChannelError :=
  match r with Ok _ => Ok receipt_empty | Err e => Err (f e) end.

Definition or_default (s d : string) : string := if bool_decide (s = "") then d else s.

(** The file of a secret, read and trimmed. *)
Definition read_trimmed {E} (files : Files) (path : string) (unreadable : string -> E) (empty : E) : result string E :=
  match files path with
  | Err e => Err (unreadable e)
  | Ok s => let t := trim s in if bool_decide (t = "") then Err empty else Ok t
  end.

(** [trim_end_matches] of one character. *)
Fixpoint drop_slashes (s : string) : string :=
  match s with
  | String a s' => if bool_decide (a = "/"%char) then drop_slashes s' else s
  | "" => ""
  end.
Definition trim_end_slashes (s : string) : string := String.rev (drop_slashes (String.rev s)).

(** [Uuid::simple]. *)
Class UuidSimple := { uuid_simple : Z -> string }.

(** ** Child processes *)

(** What became of a spawned child: it could not be started, the exchange with it
    failed, it outlived its deadline and was killed, or it exited. *)
Inductive ChildAnswer :=
| SpawnFailed (e : string)
| StdinFailed (e : string)
| WaitFailed (e : string)
| TimedOut
| Exited (code : option Z) (stderr : string).

Record Child := mkChild { ch_binary : string; ch_args : list string; ch_stdin : option string }.

(** [status.unsigned_abs() as u16]. *)
Definition abs_u16 (status : Z) : Z := Z.abs status `mod` 2 ^ 16.

(** ** ntfy *)

Module Ntfy.

Record NtfyNotifier := mkNtfy { nt_url : string; nt_topic : string; nt_token : option string }.

(** [char::is_control]: the Unicode category Cc. *)
Definition is_control (c : rchar) : bool := in_range 0 31 (char_code c) || in_range 127 159 (char_code c).

Definition header_safe (s : string) : string :=
  str_concat ((fun c => if is_control c then " " else c) <$> chars s).

Definition from_config (files : Files) (url topic : string) (token_file : option string) : NtfyNotifier :=
  mkNtfy url topic
    (match token_file with
     | None => None
     | Some p =>
         match files p with
         | Ok s => let t := trim s in if bool_decide (t = "") then None else Some t
         | Err _ => None
         end
     end).

(** What one [post] does: it waits between attempts and sends requests. *)
Inductive Step := Slept (millis : Z) | Sent (r : Request).

Definition request (n : NtfyNotifier) (title body : string) (priority : Z) (tags : string) : Request :=
  {| rq_url := trim_end_slashes (nt_url n) +:+ "/" +:+ nt_topic n;
     rq_headers := [("Title", header_safe title); ("Priority", show_uint priority); ("Tags", header_safe tags)];
     rq_auth := match nt_token n with Some t => Bearer t | None => NoAuth end;
     rq_body := TextBody body |}.

(** The loop over attempts; [answer] gives the outcome of each. *)
Fixpoint attempts (r : Request) (answer : nat -> HttpAnswer) (remaining attempt : nat) (last_err : option DeliveryError) :
    list Step * result Z DeliveryError :=
  match remaining with
  | 0 => ([], Err (default (DTransport "unknown") last_err))
  | S remaining =>
      let wait := if bool_decide (attempt = 0) then [] else [Slept (Z.shiftl 200 (Z.of_nat attempt))] in
      let again e := let '(steps, res) := attempts r answer remaining (S attempt) (Some e) in (wait ++ Sent r :: steps, res) in
      match answer attempt with
      | Answered status _ =>
          if is_success status then (wait ++ [Sent r], Ok status)
          else again (DRemote status ("non-success status: " +:+ show_uint status))
      | SendFailed e => again (DTransport e)
      end
  end.

Definition post (n : NtfyNotifier) (title body : string) (priority : Z) (tags : string) (answer : nat -> HttpAnswer) :
    list Step * result Z DeliveryError :=
  if bool_decide (nt_url n = "") || bool_decide (nt_topic n = "") then ([], Err DNotConfigured)
  else attempts (request n title body priority tags) answer 3 0 None.

Definition to_notifier_error (e : DeliveryError) : NotifierError :=
  match e with
  | DNotConfigured => NotConfigured
  | DTransport s => Http s
  | DRemote _ message => Http message
  end.

Definition to_channel_error (e : DeliveryError) : ChannelError :=
  match e with
  | DNotConfigured => ChannelOther "ntfy not configured (empty url or topic)"
  | DTransport s => Transport s
  | DRemote status message => Remote status message
  end.

Definition ntfy_tags_for (event : Event) : string :=
  match ev_attack event with
  | [] => "shield"
  | attack => join "," ("shield" :: (tr_id <$> attack))
  end.

Definition notify `{WireFormat} (n : NtfyNotifier) (event : Event) (answer : nat -> HttpAnswer) :
    list Step * result unit NotifierError :=
  let '(steps, r) :=
    post n (render_title event) (render_body event) (priority_for (ev_severity_id event)) (ntfy_tags_for event) answer in
  (steps, match r with Ok _ => Ok tt | Err e => Err (to_notifier_error e) end).

Definition send (n : NtfyNotifier) (payload : Payload) (answer : nat -> HttpAnswer) :
    list Step * result DeliveryReceipt ChannelError :=
  let '(steps, r) := post n (pl_title payload) (pl_body payload) (priority_for (pl_severity payload)) "shield" answer in
  (steps, as_receipt to_channel_error r).
End Ntfy.

(** ** signal-cli *)

Module SignalCli.

(** The deadline in seconds. *)
Record SignalCliNotifier := mkSignal { sg_binary : string; sg_account : string; sg_recipient : string; sg_timeout : Z }.

Definition DEFAULT_SEND_TIMEOUT : Z := 30.
Definition new (binary account recipient : string) : SignalCliNotifier :=
  mkSignal binary account recipient DEFAULT_SEND_TIMEOUT.

Inductive SignalDeliveryError :=
| SNotConfigured
| SIo (e : string)
| SSubprocess (status : Z) (stderr : string)
| STimeout (secs : Z).

(** [run]: the child started, if any, and the outcome. *)
Definition run (s : SignalCliNotifier) (message : string) (answer : ChildAnswer) :
    list Child * result unit SignalDeliveryError :=
  if bool_decide (sg_account s = "") || bool_decide (sg_recipient s = "") then ([], Err SNotConfigured)
  else
    ([mkChild (sg_binary s) ["-a"; sg_account s; "send"; "-m"; message; sg_recipient s] None],
     match answer with
     | SpawnFailed e | StdinFailed e | WaitFailed e => Err (SIo e)
     | TimedOut => Err (STimeout (sg_timeout s))
     | Exited code stderr =>
         if bool_decide (code = Some 0%Z) then Ok tt
         else Err (SSubprocess (default (-1)%Z code) (from_utf8_lossy stderr))
     end).

Definition timeout_text (secs : Z) : string :=
  "signal-cli send timed out after " +:+ show_uint secs +:+ "s (child killed)".

Definition to_notifier_error (e : SignalDeliveryError) : NotifierError :=
  match e with
  | SNotConfigured => NotConfigured
  | SIo e => NotifierIo e
  | SSubprocess status stderr => Notify.SignalCli status stderr
  | STimeout secs => NotifierIo (timeout_text secs)
  end.

Definition to_channel_error (e : SignalDeliveryError) : ChannelError :=
  match e with
  | SNotConfigured => ChannelOther "signal-cli not configured (empty account or recipient)"
  | SIo e => Transport e
  | SSubprocess status stderr => Remote (abs_u16 status) stderr
  | STimeout secs => Transport (timeout_text secs)
  end.

Definition notify `{WireFormat} (s : SignalCliNotifier) (event : Event) (answer : ChildAnswer) :
    list Child * result unit NotifierError :=
  let '(started, r) := run s (render_title event +:+ newline +:+ newline +:+ render_body event) answer in
  (started, as_notify to_notifier_error r).

Definition send (s : SignalCliNotifier) (payload : Payload) (answer : ChildAnswer) :
    list Child * result DeliveryReceipt ChannelError :=
  let '(started, r) := run s (pl_title payload +:+ newline +:+ newline +:+ pl_body payload) answer in
  (started, as_receipt to_channel_error r).
End SignalCli.

(** ** SMTP *)

(** The mail library: the mailboxes it parses and the relays it accepts. *)
Class MailLib := {
  Mailbox : Type;
  parse_mailbox : string -> result Mailbox string;
  starttls_relay : string -> result unit string;
  implicit_relay : string -> result unit string;
}.

Module TlsProfile.
Inductive t := StartTls | ImplicitTls | Plain.
End TlsProfile.

Module Smtp.

Inductive SmtpBuildError :=
| EmptyRelayHost
| EmptyRecipientList
| InvalidAddress (e : string)
| TransportConstruction (e : string)
| PasswordFileUnreadable (e : string)
| EmptyPasswordFile
| AuthOverPlain.

Section smtp.
Context `{MailLib} `{UnicodeTables} `{WireFormat} `{UuidSimple}.

(** The transport as the builder configures it. *)
Record SmtpNotifier := mkSmtp {
  sm_host : string;
  sm_port : Z;
  sm_tls : TlsProfile.t;
  sm_timeout : Z;
  sm_credentials : option (string * string);
  sm_from : Mailbox;
  sm_to : list Mailbox;
}.

Fixpoint parse_recipients (to : list string) : result (list Mailbox) SmtpBuildError :=
  match to with
  | [] => Ok []
  | r :: to =>
      match parse_mailbox r with
      | Err e => Err (InvalidAddress ("to " +:+ str_debug r +:+ ": " +:+ e))
      | Ok m => let? ms := parse_recipients to in Ok (m :: ms)
      end
  end.

Definition relay_of (tls : TlsProfile.t) (host : string) : result unit SmtpBuildError :=
  match tls with
  | TlsProfile.StartTls => map_err TransportConstruction (starttls_relay host)
  | TlsProfile.ImplicitTls => map_err TransportConstruction (implicit_relay host)
  | TlsProfile.Plain => Ok tt
  end.

Definition credentials_of (files : Files) (tls : TlsProfile.t) (username password_file : option string) :
    result (option (string * string)) SmtpBuildError :=
  match username, password_file with
  | Some user, Some path =>
      let? password := read_trimmed files path PasswordFileUnreadable EmptyPasswordFile in
      match tls with
      | TlsProfile.Plain => Err AuthOverPlain
      | _ => Ok (Some (user, password))
      end
  | _, _ => Ok None
  end.

Definition from_config (files : Files) (relay_host : string) (relay_port : Z) (tls : TlsProfile.t)
    (username password_file : option string) (from : string) (to : list string) (timeout : Z) :
    result SmtpNotifier SmtpBuildError :=
  if bool_decide (relay_host = "") then Err EmptyRelayHost
  else if bool_decide (to = []) then Err EmptyRecipientList
  else
    match parse_mailbox from with
    | Err e => Err (InvalidAddress ("from: " +:+ e))
    | Ok from_mbox =>
        let? to_mboxes := parse_recipients to in
        let? _ := relay_of tls relay_host in
        let? credentials := credentials_of files tls username password_file in
        Ok (mkSmtp relay_host relay_port tls timeout credentials from_mbox to_mboxes)
    end.

(** The reply of a server: its three-digit code, the code's debug text and the
    first line. *)
Record SmtpResponse := mkResponse {
  rs_severity : Z;
  rs_category : Z;
  rs_detail : Z;
  rs_code_debug : string;
  rs_first_line : option string;
}.
Definition is_positive (r : SmtpResponse) : bool := bool_decide (rs_severity r = 2%Z) || bool_decide (rs_severity r = 3%Z).

Inductive SmtpAnswer := MessageRefused (e : string) | MailFailed (e : string) | Replied (r : SmtpResponse).
Inductive SmtpDeliveryError := Build (e : string) | SendError (e : string).

Record Mail := mkMail { ml_from : Mailbox; ml_to : list Mailbox; ml_subject : string; ml_body : string }.

(** [dispatch]: the mail handed to the transport, if one could be built. *)
Definition dispatch (s : SmtpNotifier) (subject body : string) (answer : SmtpAnswer) :
    list Mail * result SmtpResponse SmtpDeliveryError :=
  let mail := mkMail (sm_from s) (sm_to s) subject body in
  match answer with
  | MessageRefused e => ([], Err (Build e))
  | MailFailed e => ([mail], Err (SendError e))
  | Replied r => ([mail], Ok r)
  end.

Definition smtp_error_display (e : SmtpDeliveryError) : string :=
  match e with
  | Build s => "smtp message build error: " +:+ s
  | SendError s => "smtp send error: " +:+ s
  end.

Definition to_notifier_error (e : SmtpDeliveryError) : NotifierError := Http (smtp_error_display e).
Definition to_channel_error (e : SmtpDeliveryError) : ChannelError :=
  match e with
  | Build msg => ChannelOther ("smtp build: " +:+ msg)
  | SendError msg => Transport msg
  end.

Definition non_positive (r : SmtpResponse) : string := "smtp non-positive response: " +:+ rs_code_debug r.

Definition notify (s : SmtpNotifier) (event : Event) (answer : SmtpAnswer) : list Mail * result unit NotifierError :=
  let '(mails, r) := dispatch s (render_title event) (render_body event) answer in
  (mails,
   match r with
   | Ok resp => if is_positive resp then Ok tt else Err (Http (non_positive resp))
   | Err e => Err (to_notifier_error e)
   end).

Definition send_body (payload : Payload) : string :=
  match pl_ack_link payload with
  | Some link =>
      pl_body payload +:+ newline +:+ newline +:+ "Ack: " +:+ link +:+ newline
      +:+ "(or run `selfdefctl notify ack " +:+ uuid_simple (pl_id payload) +:+ "`)"
  | None => pl_body payload
  end.

Definition send (s : SmtpNotifier) (payload : Payload) (answer : SmtpAnswer) :
    list Mail * result DeliveryReceipt ChannelError :=
  let '(mails, r) := dispatch s (pl_title payload) (send_body payload) answer in
  (mails,
   match r with
   | Err e => Err (to_channel_error e)
   | Ok resp =>
       if negb (is_positive resp) then
         Err (Remote (rs_severity resp * 100 + rs_category resp * 10 + rs_detail resp) (non_positive resp))
       else
         let native_id := default "" (rs_first_line resp) in
         Ok (if bool_decide (native_id = "") then receipt_empty else mkDeliveryReceipt (Some native_id))
   end).
End smtp.
End Smtp.

(** ** Slack *)

Module Slack.

Record SlackNotifier := mkSlack { sl_webhook_url : string; sl_username : string; sl_icon_emoji : string }.

Inductive SlackBuildError := WebhookFileUnreadable (e : string) | EmptyWebhookFile | NotHttps.

Definition from_config (files : Files) (webhook_url_file username icon_emoji : string) :
    result SlackNotifier SlackBuildError :=
  let? webhook_url := read_trimmed files webhook_url_file WebhookFileUnreadable EmptyWebhookFile in
  if negb (starts_with webhook_url "https://") then Err NotHttps
  else Ok (mkSlack webhook_url (or_default username "selfdef") (or_default icon_emoji ":shield:")).

Definition request (s : SlackNotifier) (text : string) : Request :=
  {| rq_url := sl_webhook_url s; rq_headers := []; rq_auth := NoAuth;
     rq_body := JsonBody (JObject [("text", JString text); ("username", JString (sl_username s));
       ("icon_emoji", JString (sl_icon_emoji s))]) |}.

Definition post (s : SlackNotifier) (text : string) (answer : HttpAnswer) : list Request * result unit DeliveryError :=
  if bool_decide (sl_webhook_url s = "") then ([], Err DNotConfigured)
  else ([request s text], read_answer answer).

Definition to_notifier_error : DeliveryError -> NotifierError := delivery_notifier "slack" "empty webhook url".
Definition to_channel_error : DeliveryError -> ChannelError := delivery_channel "slack".

Definition severity_emoji (severity : SeverityId.t) : string :=
  match severity with
  | SeverityId.Unknown | SeverityId.Informational => ":information_source:"
  | SeverityId.Low => ":small_blue_diamond:"
  | SeverityId.Medium => ":warning:"
  | SeverityId.High => ":rotating_light:"
  | SeverityId.Critical | SeverityId.Fatal => ":fire:"
  | SeverityId.Other => ":grey_question:"
  end.

Definition fence : string := "```".

Definition render_slack_for_event `{WireFormat} (event : Event) : string :=
  severity_emoji (ev_severity_id event) +:+ " " +:+ render_title event +:+ newline +:+ fence +:+ newline
  +:+ render_body event +:+ fence.

Definition render_slack_for_payload (payload : Payload) : string :=
  severity_emoji (pl_severity payload) +:+ " " +:+ pl_title payload +:+ newline +:+ fence +:+ newline
  +:+ pl_body payload +:+ fence
  +:+ match pl_ack_link payload with
      | Some link => newline +:+ "<" +:+ link +:+ "|Acknowledge>"
      | None => ""
      end.

Definition notify `{WireFormat} (s : SlackNotifier) (event : Event) (answer : HttpAnswer) :
    list Request * result unit NotifierError :=
  let '(sent, r) := post s (render_slack_for_event event) answer in (sent, as_notify to_notifier_error r).

Definition send (s : SlackNotifier) (payload : Payload) (answer : HttpAnswer) :
    list Request * result DeliveryReceipt ChannelError :=
  let '(sent, r) := post s (render_slack_for_payload payload) answer in (sent, as_receipt to_channel_error r).
End Slack.

(** ** Discord *)

(** The emoji that Discord, wall and write share. *)
Definition unicode_emoji (severity : SeverityId.t) : string :=
  match severity with
  | SeverityId.Unknown | SeverityId.Informational => "ℹ️"
  | SeverityId.Low => "🔹"
  | SeverityId.Medium => "⚠️"
  | SeverityId.High => "🚨"
  | SeverityId.Critical | SeverityId.Fatal => "🔥"
  | SeverityId.Other => "❓"
  end.

Module Discord.

Record DiscordNotifier := mkDiscord { dc_webhook_url : string; dc_username : string }.

Inductive DiscordBuildError := WebhookFileUnreadable (e : string) | EmptyWebhookFile | NotHttps.

Definition DISCORD_CONTENT_CAP : nat := 1990.

Definition from_config (files : Files) (webhook_url_file username : string) : result DiscordNotifier DiscordBuildError :=
  let? webhook_url := read_trimmed files webhook_url_file WebhookFileUnreadable EmptyWebhookFile in
  if negb (starts_with webhook_url "https://") then Err NotHttps
  else Ok (mkDiscord webhook_url (or_default username "selfdef")).

Definition truncate_content (content : string) : string :=
  if DISCORD_CONTENT_CAP <? length (chars content) then
    str_concat (take DISCORD_CONTENT_CAP (chars content)) +:+ "…[truncated]"
  else content.

Definition request (d : DiscordNotifier) (content : string) : Request :=
  {| rq_url := dc_webhook_url d; rq_headers := []; rq_auth := NoAuth;
     rq_body := JsonBody (JObject [("content", JString content); ("username", JString (dc_username d))]) |}.

Definition post (d : DiscordNotifier) (content : string) (answer : HttpAnswer) : list Request * result unit DeliveryError :=
  if bool_decide (dc_webhook_url d = "") then ([], Err DNotConfigured)
  else ([request d (truncate_content content)], read_answer answer).

Definition to_notifier_error : DeliveryError -> NotifierError := delivery_notifier "discord" "empty webhook url".
Definition to_channel_error : DeliveryError -> ChannelError := delivery_channel "discord".

Definition render_discord_for_event `{WireFormat} (event : Event) : string :=
  unicode_emoji (ev_severity_id event) +:+ " **" +:+ render_title event +:+ "**" +:+ newline +:+ "```" +:+ newline
  +:+ render_body event +:+ "```".

Definition render_discord_for_payload (payload : Payload) : string :=
  unicode_emoji (pl_severity payload) +:+ " **" +:+ pl_title payload +:+ "**" +:+ newline +:+ "```" +:+ newline
  +:+ pl_body payload +:+ "```"
  +:+ match pl_ack_link payload with
      | Some link => newline +:+ "[Acknowledge](" +:+ link +:+ ")"
      | None => ""
      end.

Definition notify `{WireFormat} (d : DiscordNotifier) (event : Event) (answer : HttpAnswer) :
    list Request * result unit NotifierError :=
  let '(sent, r) := post d (render_discord_for_event event) answer in (sent, as_notify to_notifier_error r).

Definition send (d : DiscordNotifier) (payload : Payload) (answer : HttpAnswer) :
    list Request * result DeliveryReceipt ChannelError :=
  let '(sent, r) := post d (render_discord_for_payload payload) answer in (sent, as_receipt to_channel_error r).
End Discord.

(** ** PagerDuty *)

Module PdSeverity.
Inductive t := Info | Warning | Error | Critical.
End PdSeverity.

Module PagerDuty.

Record PagerDutyNotifier := mkPagerDuty { pd_endpoint : string; pd_routing_key : string; pd_source : string }.

Inductive PagerDutyBuildError := RoutingKeyFileUnreadable (e : string) | EmptyRoutingKeyFile | EndpointNotHttps.

Definition DEFAULT_ENDPOINT : string := "https://events.pagerduty.com/v2/enqueue".

Definition from_config (files : Files) (routing_key_file endpoint source : string) :
    result PagerDutyNotifier PagerDutyBuildError :=
  let? routing_key := read_trimmed files routing_key_file RoutingKeyFileUnreadable EmptyRoutingKeyFile in
  let? endpoint :=
    (if bool_decide (endpoint = "") then Ok DEFAULT_ENDPOINT
     else if negb (starts_with endpoint "https://") then Err EndpointNotHttps
     else Ok endpoint) in
  Ok (mkPagerDuty endpoint routing_key (or_default source "selfdef")).

Definition severity_str (s : PdSeverity.t) : string :=
  match s with
  | PdSeverity.Info => "info"
  | PdSeverity.Warning => "warning"
  | PdSeverity.Error => "error"
  | PdSeverity.Critical => "critical"
  end.

Definition map_severity (s : SeverityId.t) : PdSeverity.t :=
  match s with
  | SeverityId.Unknown | SeverityId.Other | SeverityId.Informational => PdSeverity.Info
  | SeverityId.Low => PdSeverity.Info
  | SeverityId.Medium => PdSeverity.Warning
  | SeverityId.High => PdSeverity.Error
  | SeverityId.Critical | SeverityId.Fatal => PdSeverity.Critical
  end.

Definition wire (p : PagerDutyNotifier) (summary : string) (severity : PdSeverity.t) (body dedup_key : string) : json :=
  JObject [("routing_key", JString (pd_routing_key p)); ("event_action", JString "trigger");
    ("dedup_key", JString dedup_key);
    ("payload", JObject [("summary", JString summary); ("severity", JString (severity_str severity));
       ("source", JString (pd_source p)); ("custom_details", JObject [("body", JString body)])])].

Definition post (p : PagerDutyNotifier) (summary : string) (severity : PdSeverity.t) (body dedup_key : string)
    (answer : HttpAnswer) : list Request * result unit DeliveryError :=
  if bool_decide (pd_routing_key p = "") then ([], Err DNotConfigured)
  else ([mkRequest (pd_endpoint p) [] NoAuth (JsonBody (wire p summary severity body dedup_key))], read_answer answer).

Definition to_notifier_error : DeliveryError -> NotifierError := delivery_notifier "pagerduty" "empty routing key".
Definition to_channel_error : DeliveryError -> ChannelError := delivery_channel "pagerduty".

Definition notify `{WireFormat} `{UuidSimple} (p : PagerDutyNotifier) (event : Event) (answer : HttpAnswer) :
    list Request * result unit NotifierError :=
  let '(sent, r) :=
    post p (render_title event) (map_severity (ev_severity_id event)) (render_body event) (uuid_simple (ev_id event)) answer in
  (sent, as_notify to_notifier_error r).

Definition send `{UuidSimple} (p : PagerDutyNotifier) (payload : Payload) (answer : HttpAnswer) :
    list Request * result DeliveryReceipt ChannelError :=
  let '(sent, r) :=
    post p (pl_title payload) (map_severity (pl_severity payload)) (pl_body payload) (uuid_simple (pl_id payload)) answer in
  (sent, as_receipt to_channel_error r).
End PagerDuty.

(** The lowercase label that Loki, OpenSearch and TheHive share. *)
Definition severity_label (s : SeverityId.t) : string :=
  match s with
  | SeverityId.Unknown | SeverityId.Other => "unknown"
  | SeverityId.Informational => "informational"
  | SeverityId.Low => "low"
  | SeverityId.Medium => "medium"
  | SeverityId.High => "high"
  | SeverityId.Critical => "critical"
  | SeverityId.Fatal => "fatal"
  end.

(** ** Loki *)

Module Loki.

Record LokiNotifier := mkLoki {
  lk_endpoint : string;
  lk_tenant_id : option string;
  lk_token : option string;
  lk_source : string;
}.

Inductive LokiBuildError := EmptyEndpoint | EndpointNotHttps | TokenFileUnreadable (e : string) | EmptyTokenFile.

Definition from_config (files : Files) (endpoint tenant_id : string) (auth_token_file : option string) (source : string) :
    result LokiNotifier LokiBuildError :=
  if bool_decide (endpoint = "") then Err EmptyEndpoint
  else if negb (starts_with endpoint "https://") then Err EndpointNotHttps
  else
    let? token :=
      match auth_token_file with
      | None => Ok None
      | Some p => let? raw := read_trimmed files p TokenFileUnreadable EmptyTokenFile in Ok (Some raw)
      end in
    Ok (mkLoki endpoint (if bool_decide (tenant_id = "") then None else Some tenant_id) token (or_default source "selfdef")).

(** The clock in nanoseconds from the Unix epoch; one before the epoch reads 0. *)
Definition request (l : LokiNotifier) (labels : list (string * string)) (line : string) (now : Z) : Request :=
  {| rq_url := lk_endpoint l;
     rq_headers :=
       ("content-type", "application/json")
       :: match lk_tenant_id l with Some tid => [("X-Scope-OrgID", tid)] | None => [] end;
     rq_auth := match lk_token l with Some tok => Bearer tok | None => NoAuth end;
     rq_body := JsonBody (JObject [("streams", JArray [JObject
       [("stream", JObject ((fun '(k, v) => (k, JString v)) <$> labels));
        ("values", JArray [JArray [JString (show_uint (now `max` 0)); JString line]])]])]) |}.

Definition push (l : LokiNotifier) (labels : list (string * string)) (line : string) (now : Z) (answer : HttpAnswer) :
    list Request * result unit DeliveryError :=
  if bool_decide (lk_endpoint l = "") then ([], Err DNotConfigured)
  else ([request l labels line now], read_answer answer).

Definition to_notifier_error : DeliveryError -> NotifierError := delivery_notifier "loki" "empty endpoint".
Definition to_channel_error : DeliveryError -> ChannelError := delivery_channel "loki".

Definition is_line_break (c : rchar) : bool := bool_decide (c = newline) || bool_decide (c = String "013" "").

Definition render_line (title body : string) : string :=
  replace_chars is_line_break " · " (if bool_decide (body = "") then title else title +:+ " · " +:+ body).

(** A [BTreeMap] serialises in key order. *)
Definition event_labels (l : LokiNotifier) (event : Event) : list (string * string) :=
  [("host", lk_source l); ("kind", class_name (ev_class_uid event)); ("service", "selfdef");
   ("severity", severity_label (ev_severity_id event))].
Definition payload_labels (l : LokiNotifier) (payload : Payload) : list (string * string) :=
  [("host", lk_source l)]
  ++ match pl_event_kind payload with Some kind => [("kind", kind)] | None => [] end
  ++ [("service", "selfdef"); ("severity", severity_label (pl_severity payload))].

Definition notify `{WireFormat} (l : LokiNotifier) (event : Event) (now : Z) (answer : HttpAnswer) :
    list Request * result unit NotifierError :=
  let '(sent, r) := push l (event_labels l event) (render_line (render_title event) (render_body event)) now answer in
  (sent, as_notify to_notifier_error r).

Definition send (l : LokiNotifier) (payload : Payload) (now : Z) (answer : HttpAnswer) :
    list Request * result DeliveryReceipt ChannelError :=
  let '(sent, r) := push l (payload_labels l payload) (render_line (pl_title payload) (pl_body payload)) now answer in
  (sent, as_receipt to_channel_error r).
End Loki.

(** ** OpenSearch *)

Module AuthKind.
Inductive t := NoAuth | Basic | ApiKey.
#[export] Instance auth_kind_eq_dec : EqDecision t.
Proof. solve_decision. Defined.
End AuthKind.

Module OpenSearch.

Definition from_str_ci (s : string) : option AuthKind.t :=
  let s := to_ascii_lowercase s in
  if bool_decide (s ∈ [""; "none"]) then Some AuthKind.NoAuth
  else if bool_decide (s = "basic") then Some AuthKind.Basic
  else if bool_decide (s ∈ ["apikey"; "api_key"; "api-key"]) then Some AuthKind.ApiKey
  else None.

Record OpenSearchNotifier := mkOpenSearch {
  os_endpoint : string;
  os_index : string;
  os_auth_kind : AuthKind.t;
  os_username : option string;
  os_token : option string;
  os_source : string;
}.

Inductive OpenSearchBuildError :=
| EmptyEndpoint
| EndpointNotHttps
| EmptyIndex
| UnknownAuthKind (s : string)
| BasicMissingUsername
| BasicMissingTokenFile
| ApiKeyMissingTokenFile
| TokenFileUnreadable (e : string)
| EmptyTokenFile.

Definition read_token (files : Files) (path : string) : result string OpenSearchBuildError :=
  read_trimmed files path TokenFileUnreadable EmptyTokenFile.

Definition auth_of (files : Files) (auth_kind : AuthKind.t) (username : string) (auth_token_file : option string) :
    result (option string * option string) OpenSearchBuildError :=
  match auth_kind with
  | AuthKind.NoAuth => Ok (None, None)
  | AuthKind.Basic =>
      if bool_decide (username = "") then Err BasicMissingUsername
      else
        match auth_token_file with
        | None => Err BasicMissingTokenFile
        | Some path => let? token := read_token files path in Ok (Some username, Some token)
        end
  | AuthKind.ApiKey =>
      match auth_token_file with
      | None => Err ApiKeyMissingTokenFile
      | Some path => let? token := read_token files path in Ok (None, Some token)
      end
  end.

Definition from_config (files : Files) (endpoint index auth_kind username : string) (auth_token_file : option string)
    (source : string) : result OpenSearchNotifier OpenSearchBuildError :=
  if bool_decide (endpoint = "") then Err EmptyEndpoint
  else if negb (starts_with endpoint "https://") then Err EndpointNotHttps
  else
    let endpoint := trim_end_slashes endpoint in
    if bool_decide (index = "") then Err EmptyIndex
    else
      let? kind := ok_or (from_str_ci auth_kind) (UnknownAuthKind auth_kind) in
      let? auth := auth_of files kind username auth_token_file in
      Ok (mkOpenSearch endpoint index kind auth.1 auth.2 (or_default source "selfdef")).

Record OpenSearchDocument := mkDocument {
  doc_timestamp : string;
  doc_host : string;
  doc_severity : string;
  doc_kind : option string;
  doc_title : string;
  doc_body : string;
  doc_event_id : option string;
  doc_payload_id : option string;
}.

(** [kind] is not skipped when absent; the two identifiers are. *)
Definition document_json (d : OpenSearchDocument) : json :=
  JObject ([("@timestamp", JString (doc_timestamp d)); ("service", JString "selfdef"); ("host", JString (doc_host d));
    ("severity", JString (doc_severity d)); ("kind", match doc_kind d with Some k => JString k | None => JNull end);
    ("title", JString (doc_title d)); ("body", JString (doc_body d))]
    ++ opt_field "event_id" JString (doc_event_id d) ++ opt_field "payload_id" JString (doc_payload_id d)).

(** The [Authorization] header of an API key is set by hand. *)
Definition request (o : OpenSearchNotifier) (doc : OpenSearchDocument) : Request :=
  let '(auth, extra) :=
    match os_auth_kind o, os_username o, os_token o with
    | AuthKind.Basic, Some user, Some pass => (BasicAuth user pass, [])
    | AuthKind.ApiKey, _, Some tok => (NoAuth, [("authorization", "ApiKey " +:+ tok)])
    | _, _, _ => (NoAuth, [])
    end in
  {| rq_url := os_endpoint o +:+ "/" +:+ os_index o +:+ "/_doc";
     rq_headers := ("content-type", "application/json") :: extra; rq_auth := auth;
     rq_body := JsonBody (document_json doc) |}.

Definition index_document (o : OpenSearchNotifier) (doc : OpenSearchDocument) (answer : HttpAnswer) :
    list Request * result unit DeliveryError :=
  if bool_decide (os_endpoint o = "") || bool_decide (os_index o = "") then ([], Err DNotConfigured)
  else ([request o doc], read_answer answer).

Definition to_notifier_error : DeliveryError -> NotifierError := delivery_notifier "opensearch" "empty endpoint or index".
Definition to_channel_error : DeliveryError -> ChannelError := delivery_channel "opensearch".

Section opensearch.
Context `{WireFormat} `{UuidSimple}.

Definition iso8601_now (now : Z) : string := default "1970-01-01T00:00:00Z" (rfc3339_format now).

Definition event_document (o : OpenSearchNotifier) (event : Event) (now : Z) : OpenSearchDocument :=
  {| doc_timestamp := iso8601_now now; doc_host := os_source o; doc_severity := severity_label (ev_severity_id event);
     doc_kind := Some (class_name (ev_class_uid event)); doc_title := render_title event; doc_body := render_body event;
     doc_event_id := Some (uuid_simple (ev_id event)); doc_payload_id := None |}.

Definition payload_document (o : OpenSearchNotifier) (payload : Payload) (now : Z) : OpenSearchDocument :=
  {| doc_timestamp := iso8601_now now; doc_host := os_source o; doc_severity := severity_label (pl_severity payload);
     doc_kind := pl_event_kind payload; doc_title := pl_title payload; doc_body := pl_body payload;
     doc_event_id := uuid_simple <$> pl_event_id payload; doc_payload_id := Some (uuid_simple (pl_id payload)) |}.

Definition notify (o : OpenSearchNotifier) (event : Event) (now : Z) (answer : HttpAnswer) :
    list Request * result unit NotifierError :=
  let '(sent, r) := index_document o (event_document o event now) answer in (sent, as_notify to_notifier_error r).

Definition send (o : OpenSearchNotifier) (payload : Payload) (now : Z) (answer : HttpAnswer) :
    list Request * result DeliveryReceipt ChannelError :=
  let '(sent, r) := index_document o (payload_document o payload now) answer in (sent, as_receipt to_channel_error r).
End opensearch.
End OpenSearch.

(** ** TheHive *)

Module TheHive.

Record TheHiveNotifier := mkTheHive { th_endpoint : string; th_api_key : string; th_source : string; th_alert_type : string }.

Inductive TheHiveBuildError := EmptyEndpoint | EndpointNotHttps | ApiKeyFileUnreadable (e : string) | EmptyApiKeyFile.

Definition DEFAULT_TLP : Z := 2.

Definition from_config (files : Files) (endpoint api_key_file source alert_type : string) :
    result TheHiveNotifier TheHiveBuildError :=
  if bool_decide (endpoint = "") then Err EmptyEndpoint
  else if negb (starts_with endpoint "https://") then Err EndpointNotHttps
  else
    let? api_key := read_trimmed files api_key_file ApiKeyFileUnreadable EmptyApiKeyFile in
    Ok (mkTheHive (trim_end_slashes endpoint) api_key (or_default source "selfdef") (or_default alert_type "selfdef")).

Record TheHiveAlert := mkAlert {
  al_source_ref : string;
  al_title : string;
  al_description : string;
  al_severity : Z;
  al_tags : list string;
}.

Definition alert_json (t : TheHiveNotifier) (a : TheHiveAlert) : json :=
  JObject [("type", JString (th_alert_type t)); ("source", JString (th_source t)); ("sourceRef", JString (al_source_ref a));
    ("title", JString (al_title a)); ("description", JString (al_description a)); ("severity", JPosInt (al_severity a));
    ("tlp", JPosInt DEFAULT_TLP); ("tags", JArray (JString <$> al_tags a))].

Definition post_alert (t : TheHiveNotifier) (a : TheHiveAlert) (answer : HttpAnswer) : list Request * result unit DeliveryError :=
  if bool_decide (th_endpoint t = "") || bool_decide (th_api_key t = "") then ([], Err DNotConfigured)
  else
    ([mkRequest (th_endpoint t +:+ "/api/v1/alert") [] (Bearer (th_api_key t)) (JsonBody (alert_json t a))],
     read_answer answer).

Definition map_severity (s : SeverityId.t) : Z :=
  match s with
  | SeverityId.Unknown | SeverityId.Other | SeverityId.Informational | SeverityId.Low => 1
  | SeverityId.Medium => 2
  | SeverityId.High => 3
  | SeverityId.Critical | SeverityId.Fatal => 4
  end.

Definition compose_tags (severity : SeverityId.t) (kind : option string) : list string :=
  ["selfdef"; "selfdef:" +:+ severity_label severity]
  ++ match kind with Some k => ["kind:" +:+ k] | None => [] end.

Definition to_notifier_error : DeliveryError -> NotifierError := delivery_notifier "thehive" "empty endpoint or api_key".
Definition to_channel_error : DeliveryError -> ChannelError := delivery_channel "thehive".

Definition notify `{WireFormat} `{UuidSimple} (t : TheHiveNotifier) (event : Event) (answer : HttpAnswer) :
    list Request * result unit NotifierError :=
  let '(sent, r) :=
    post_alert t
      {| al_source_ref := uuid_simple (ev_id event); al_title := render_title event; al_description := render_body event;
         al_severity := map_severity (ev_severity_id event);
         al_tags := compose_tags (ev_severity_id event) (Some (class_name (ev_class_uid event))) |} answer in
  (sent, as_notify to_notifier_error r).

Definition send `{UuidSimple} (t : TheHiveNotifier) (payload : Payload) (answer : HttpAnswer) :
    list Request * result DeliveryReceipt ChannelError :=
  let '(sent, r) :=
    post_alert t
      {| al_source_ref := uuid_simple (pl_id payload); al_title := pl_title payload; al_description := pl_body payload;
         al_severity := map_severity (pl_severity payload);
         al_tags := compose_tags (pl_severity payload) (pl_event_kind payload) |} answer in
  (sent, as_receipt to_channel_error r).
End TheHive.

(** ** Twilio *)

(** [&s[..n]]; [None] is the panic. *)
Definition slice_to (s : string) (n : nat) : option string :=
  if is_char_boundary s n then Some (String.substring 0 n s) else None.

Module Twilio.

Record TwilioNotifier := mkTwilio {
  tw_api_base : string;
  tw_account_sid : string;
  tw_auth_token : string;
  tw_from : string;
  tw_to : list string;
  tw_timeout : Z;
}.

Definition DEFAULT_TWILIO_API_BASE : string := "https://api.twilio.com".
Definition SMS_BODY_SOFT_CAP : nat := 1500.

Inductive TwilioBuildError :=
| EmptyAccountSid
| EmptyFromNumber
| EmptyRecipientList
| AuthTokenFileUnreadable (e : string)
| EmptyAuthTokenFile.

Definition from_config (files : Files) (account_sid auth_token_file from : string) (to : list string) (timeout : Z) :
    result TwilioNotifier TwilioBuildError :=
  if bool_decide (account_sid = "") then Err EmptyAccountSid
  else if bool_decide (from = "") then Err EmptyFromNumber
  else if bool_decide (to = []) then Err EmptyRecipientList
  else
    let? auth_token := read_trimmed files auth_token_file AuthTokenFileUnreadable EmptyAuthTokenFile in
    Ok (mkTwilio DEFAULT_TWILIO_API_BASE account_sid auth_token from to timeout).

Inductive TwilioDeliveryError := TTransport (e : string) | TRemote (status : Z) (body : string).

Definition request (t : TwilioNotifier) (recipient body : string) : Request :=
  {| rq_url := trim_end_slashes (tw_api_base t) +:+ "/2010-04-01/Accounts/" +:+ tw_account_sid t +:+ "/Messages.json";
     rq_headers := []; rq_auth := BasicAuth (tw_account_sid t) (tw_auth_token t);
     rq_body := FormBody [("From", tw_from t); ("To", recipient); ("Body", body)] |}.

Definition send_one (answer : HttpAnswer) : result string TwilioDeliveryError :=
  match answer with
  | SendFailed e => Err (TTransport e)
  | Answered status text =>
      if is_success status then Ok (text_or_default text) else Err (TRemote status (text_or_default text))
  end.

(** The loop over recipients; [i] is the position of the next. *)
Fixpoint recipients (t : TwilioNotifier) (body : string) (to : list string) (answer : nat -> HttpAnswer) (i succeeded : nat)
    (last_err : option TwilioDeliveryError) : list Request * nat * option TwilioDeliveryError :=
  match to with
  | [] => ([], succeeded, last_err)
  | recipient :: to =>
      let '(sent, n, e) :=
        match send_one (answer i) with
        | Ok _ => recipients t body to answer (S i) (S succeeded) last_err
        | Err e => recipients t body to answer (S i) succeeded (Some e)
        end in
      (request t recipient body :: sent, n, e)
  end.

(** [fan_out]; [None] is the panic of the byte slice. *)
Definition fan_out (t : TwilioNotifier) (body : string) (answer : nat -> HttpAnswer) :
    option (list Request * result nat TwilioDeliveryError) :=
  truncated ← (if SMS_BODY_SOFT_CAP <? String.length body then slice_to body SMS_BODY_SOFT_CAP else Some body);
  let '(sent, succeeded, last_err) := recipients t truncated (tw_to t) answer 0 0 None in
  Some (sent,
        if bool_decide (succeeded = 0) then Err (default (TTransport "no recipients configured") last_err)
        else Ok succeeded).

Definition twilio_error_display (e : TwilioDeliveryError) : string :=
  match e with
  | TTransport s => "twilio transport error: " +:+ s
  | TRemote status body => "twilio remote returned " +:+ show_uint status +:+ ": " +:+ body
  end.

Definition to_notifier_error (e : TwilioDeliveryError) : NotifierError := Http (twilio_error_display e).
Definition to_channel_error (e : TwilioDeliveryError) : ChannelError :=
  match e with TTransport s => Transport s | TRemote status body => Remote status body end.

Definition render_sms_for_event `{WireFormat} (event : Event) : string :=
  render_title event +:+ newline +:+ join newline (take 3 (str_lines (render_body event))).

Definition first_line (s : string) : string := default "" (head (str_lines s)).

Definition render_sms_for_payload (payload : Payload) : string :=
  pl_title payload +:+ newline +:+ first_line (pl_body payload)
  +:+ match pl_ack_link payload with Some link => newline +:+ "Ack: " +:+ link | None => "" end.

Definition notify `{WireFormat} (t : TwilioNotifier) (event : Event) (answer : nat -> HttpAnswer) :
    option (list Request * result unit NotifierError) :=
  if bool_decide (tw_to t = []) then Some ([], Err NotConfigured)
  else
    '(sent, r) ← fan_out t (render_sms_for_event event) answer;
    Some (sent, match r with Ok _ => Ok tt | Err e => Err (to_notifier_error e) end).

Definition send (t : TwilioNotifier) (payload : Payload) (answer : nat -> HttpAnswer) :
    option (list Request * result DeliveryReceipt ChannelError) :=
  if bool_decide (tw_to t = []) then Some ([], Err (ChannelOther "twilio: no recipients configured"))
  else
    '(sent, r) ← fan_out t (render_sms_for_payload payload) answer;
    Some (sent, as_receipt to_channel_error r).
End Twilio.

(** ** wall and write *)

(** The operator's severity words, the same in both crates. *)
Definition severity_from_str (s : string) : option SeverityId.t :=
  let s := to_ascii_lowercase s in
  if bool_decide (s ∈ ["info"; "informational"]) then Some SeverityId.Informational
  else if bool_decide (s = "low") then Some SeverityId.Low
  else if bool_decide (s ∈ ["medium"; "med"]) then Some SeverityId.Medium
  else if bool_decide (s = "high") then Some SeverityId.High
  else if bool_decide (s ∈ ["critical"; "crit"]) then Some SeverityId.Critical
  else if bool_decide (s = "fatal") then Some SeverityId.Fatal
  else None.

Definition render_attention_banner (severity : SeverityId.t) (title event_id : string) : string :=
  unicode_emoji severity +:+ " [selfdef] " +:+ severity_name severity +:+ " — " +:+ title +:+ "  (event " +:+ event_id
  +:+ ")" +:+ newline.

Definition attention_message `{WireFormat} (payload : Payload) : string :=
  render_attention_banner (pl_severity payload) (pl_title payload) (from_option uuid_to_string "—" (pl_event_id payload))
  +:+ pl_body payload +:+ newline
  +:+ match pl_ack_link payload with Some link => "Ack: " +:+ link +:+ newline | None => "" end.

Definition attention_event_message `{WireFormat} (event : Event) : string :=
  render_attention_banner (ev_severity_id event) (render_title event) (uuid_to_string (ev_id event))
  +:+ render_body event.

Module Wall.

Record WallChannel := mkWall { wl_binary : string; wl_severity_floor : SeverityId.t; wl_timeout : Z }.

Definition DEFAULT_SEVERITY_FLOOR : SeverityId.t := SeverityId.High.
Definition DEFAULT_SEND_TIMEOUT : Z := 10.

Inductive WallBuildError := EmptyBinary | UnknownSeverity (s : string).

Definition from_config (binary : string) (severity_floor : option string) : result WallChannel WallBuildError :=
  if bool_decide (binary = "") then Err EmptyBinary
  else
    let? floor :=
      match severity_floor with
      | None | Some "" => Ok DEFAULT_SEVERITY_FLOOR
      | Some s => ok_or (severity_from_str s) (UnknownSeverity s)
      end in
    Ok (mkWall binary floor DEFAULT_SEND_TIMEOUT).

Inductive WallDeliveryError :=
| WSpawn (e : string)
| WWriteStdin (e : string)
| WWait (e : string)
| WSubprocess (status : Z) (stderr : string)
| WTimeout (secs : Z).

Definition below (floor severity : SeverityId.t) : bool := (severity_u32 severity <? severity_u32 floor)%Z.

(** [broadcast]: the child started, if any, and whether it broadcast. *)
Definition broadcast (w : WallChannel) (severity : SeverityId.t) (message : string) (answer : ChildAnswer) :
    list Child * result bool WallDeliveryError :=
  if below (wl_severity_floor w) severity then ([], Ok false)
  else
    ([mkChild (wl_binary w) [] (Some message)],
     match answer with
     | SpawnFailed e => Err (WSpawn e)
     | StdinFailed e => Err (WWriteStdin e)
     | WaitFailed e => Err (WWait e)
     | TimedOut => Err (WTimeout (wl_timeout w))
     | Exited code stderr =>
         if bool_decide (code = Some 0%Z) then Ok true
         else Err (WSubprocess (default (-1)%Z code) (from_utf8_lossy stderr))
     end).

Definition wall_error_display (e : WallDeliveryError) : string :=
  match e with
  | WSpawn s => "wall spawn failed: " +:+ s
  | WWriteStdin s => "wall write-to-stdin failed: " +:+ s
  | WWait s => "wall wait failed: " +:+ s
  | WSubprocess status stderr => "wall exited with status " +:+ show_int status +:+ ": " +:+ stderr
  | WTimeout secs => "wall broadcast timed out after " +:+ show_uint secs +:+ "s (child killed; jammed TTY?)"
  end.

Definition to_notifier_error (e : WallDeliveryError) : NotifierError := Http (wall_error_display e).
Definition to_channel_error (e : WallDeliveryError) : ChannelError :=
  match e with
  | WSubprocess status stderr => Remote (abs_u16 status) stderr
  | other => Transport (wall_error_display other)
  end.

Definition notify `{WireFormat} (w : WallChannel) (event : Event) (answer : ChildAnswer) :
    list Child * result unit NotifierError :=
  if bool_decide (wl_binary w = "") then ([], Err NotConfigured)
  else
    let '(started, r) := broadcast w (ev_severity_id event) (attention_event_message event) answer in
    (started, match r with Ok _ => Ok tt | Err e => Err (to_notifier_error e) end).

Definition send `{WireFormat} (w : WallChannel) (payload : Payload) (answer : ChildAnswer) :
    list Child * result DeliveryReceipt ChannelError :=
  if bool_decide (wl_binary w = "") then ([], Err (ChannelOther "wall not configured"))
  else
    let '(started, r) := broadcast w (pl_severity payload) (attention_message payload) answer in
    (started, as_receipt to_channel_error r).
End Wall.

Module WriteTty.

Record WriteChannel := mkWrite {
  wr_binary : string;
  wr_severity_floor : SeverityId.t;
  wr_users : list string;
  wr_timeout : Z;
}.

Definition DEFAULT_SEVERITY_FLOOR : SeverityId.t := SeverityId.High.
Definition DEFAULT_SEND_TIMEOUT : Z := 10.

Inductive WriteBuildError := EmptyBinary | EmptyUsers | UnknownSeverity (s : string) | UnsafeUsername (s : string).

Definition username_byte (a : ascii) : bool :=
  is_ascii_alphanumeric (byte a) || bool_decide (a = "."%char) || bool_decide (a = "_"%char) || bool_decide (a = "-"%char).
Definition is_safe_username (s : string) : bool := negb (bool_decide (s = "")) && all_bytes username_byte s.

Definition from_config (binary : string) (severity_floor : option string) (users : list string) :
    result WriteChannel WriteBuildError :=
  if bool_decide (binary = "") then Err EmptyBinary
  else if bool_decide (users = []) then Err EmptyUsers
  else
    match list_find (fun u => is_safe_username u = false) users with
    | Some (_, u) => Err (UnsafeUsername u)
    | None =>
        let? floor :=
          match severity_floor with
          | None | Some "" => Ok DEFAULT_SEVERITY_FLOOR
          | Some s => ok_or (severity_from_str s) (UnknownSeverity s)
          end in
        Ok (mkWrite binary floor users DEFAULT_SEND_TIMEOUT)
    end.

Inductive WriteDeliveryError := NoUsers | WSpawn (e : string).

Definition timeout_text `{UnicodeTables} (user : string) (secs : Z) : string :=
  "write(1) to user " +:+ str_debug user +:+ " timed out after " +:+ show_uint secs +:+ "s (child killed; jammed TTY?)".

Definition write_to_user `{UnicodeTables} (user : string) (secs : Z) (answer : ChildAnswer) : result bool string :=
  match answer with
  | SpawnFailed e | StdinFailed e | WaitFailed e => Err e
  | TimedOut => Err (timeout_text user secs)
  | Exited code _ => Ok (bool_decide (code = Some 0%Z))
  end.

Fixpoint write_users `{UnicodeTables} (w : WriteChannel) (message : string) (users : list string) (answer : nat -> ChildAnswer)
    (i : nat) (delivered_any : bool) (last_spawn_err : option string) : list Child * bool * option string :=
  match users with
  | [] => ([], delivered_any, last_spawn_err)
  | user :: users =>
      let '(started, d, e) :=
        match write_to_user user (wr_timeout w) (answer i) with
        | Ok true => write_users w message users answer (S i) true last_spawn_err
        | Ok false => write_users w message users answer (S i) delivered_any last_spawn_err
        | Err e => write_users w message users answer (S i) delivered_any (Some e)
        end in
      (mkChild (wr_binary w) [user] (Some message) :: started, d, e)
  end.

Definition deliver_to_users `{UnicodeTables} (w : WriteChannel) (severity : SeverityId.t) (message : string)
    (answer : nat -> ChildAnswer) : list Child * result bool WriteDeliveryError :=
  if Wall.below (wr_severity_floor w) severity then ([], Ok false)
  else if bool_decide (wr_users w = []) then ([], Err NoUsers)
  else
    let '(started, delivered_any, last_spawn_err) := write_users w message (wr_users w) answer 0 false None in
    (started,
     if delivered_any : bool then Ok true
     else match last_spawn_err with Some e => Err (WSpawn e) | None => Ok false end).

Definition write_error_display (e : WriteDeliveryError) : string :=
  match e with
  | NoUsers => "write users list is empty"
  | WSpawn s => "write spawn failed: " +:+ s
  end.
Definition to_notifier_error (e : WriteDeliveryError) : NotifierError := Http (write_error_display e).
Definition to_channel_error (e : WriteDeliveryError) : ChannelError := Transport (write_error_display e).

Definition notify `{WireFormat} `{UnicodeTables} (w : WriteChannel) (event : Event) (answer : nat -> ChildAnswer) :
    list Child * result unit NotifierError :=
  if bool_decide (wr_binary w = "") || bool_decide (wr_users w = []) then ([], Err NotConfigured)
  else
    let '(started, r) := deliver_to_users w (ev_severity_id event) (attention_event_message event) answer in
    (started, match r with Ok _ => Ok tt | Err e => Err (to_notifier_error e) end).

Definition send `{WireFormat} `{UnicodeTables} (w : WriteChannel) (payload : Payload) (answer : nat -> ChildAnswer) :
    list Child * result DeliveryReceipt ChannelError :=
  if bool_decide (wr_binary w = "") || bool_decide (wr_users w = []) then ([], Err (ChannelOther "write not configured"))
  else
    let '(started, r) := deliver_to_users w (pl_severity payload) (attention_message payload) answer in
    (started, as_receipt to_channel_error r).
End WriteTty.

(** ** The shared audit summary *)

(** [Iso8601::DEFAULT] of the time library. *)
Class Iso8601 := { iso8601_format : Z -> option string }.

(** One append to a file: what failed, and how many of the bytes were written by then. *)
Inductive AppendAnswer :=
| OpenFailed (e : string)
| WriteFailed (written : nat) (e : string)
| SyncFailed (e : string)
| Appended.

Definition append_text (a : AppendAnswer) (buf file : string) : string :=
  match a with
  | OpenFailed _ => file
  | WriteFailed n _ => file +:+ String.substring 0 n buf
  | SyncFailed _ | Appended => file +:+ buf
  end.

Module SharedAudit.

Record SharedAuditSummaryChannel := mkSummary {
  sa_shared_log_path : string;
  sa_selfdef_audit_path : string;
  sa_severity_floor : SeverityId.t;
  sa_line_counter : Z;
  sa_jsonl_twin_path : option string;
}.

Definition DEFAULT_SEVERITY_FLOOR : SeverityId.t := SeverityId.Informational.

Definition with_paths_and_jsonl_twin (shared_log_path selfdef_audit_path : string) (twin : option string) :
    SharedAuditSummaryChannel :=
  mkSummary shared_log_path selfdef_audit_path DEFAULT_SEVERITY_FLOOR 0 twin.

Definition bump (c : SharedAuditSummaryChannel) : SharedAuditSummaryChannel :=
  mkSummary (sa_shared_log_path c) (sa_selfdef_audit_path c) (sa_severity_floor c) (sa_line_counter c + 1)
    (sa_jsonl_twin_path c).

Definition severity_to_summary_token (s : SeverityId.t) : string :=
  match s with
  | SeverityId.Unknown | SeverityId.Informational | SeverityId.Low | SeverityId.Other => "INFO"
  | SeverityId.Medium | SeverityId.High => "WARN"
  | SeverityId.Critical => "ERROR"
  | SeverityId.Fatal => "FATAL"
  end.

(** The two files a channel appends to. *)
Record Logs := mkLogs { lg_shared : string; lg_twin : string }.

(** What one call reads from outside: a clock for each line, and the outcomes of
    the appends. *)
Record SummaryEnv := mkSummaryEnv {
  se_now : Z;
  se_twin_now : Z;
  se_append : AppendAnswer;
  se_twin : AppendAnswer;
}.

Section summary.
Context `{WireFormat} `{Iso8601}.

Definition current_iso8601_utc (now : Z) : string := default "1970-01-01T00:00:00Z" (iso8601_format now).

Definition render_summary_line (c : SharedAuditSummaryChannel) (severity : SeverityId.t) (event_id kind : string)
    (line_number now : Z) : string :=
  current_iso8601_utc now +:+ " selfdef " +:+ severity_to_summary_token severity +:+ " " +:+ event_id +:+ " " +:+ kind
  +:+ " see " +:+ sa_selfdef_audit_path c +:+ ":" +:+ show_uint line_number.

Definition dquote : string := String "034" "".
Definition backslash : string := String "092" "".
Definition str_field (k v : string) : string := dquote +:+ k +:+ dquote +:+ ":" +:+ dquote +:+ v +:+ dquote.

Definition render_jsonl_object (c : SharedAuditSummaryChannel) (severity : SeverityId.t) (event_id kind : string)
    (line_number now : Z) : string :=
  let p_escaped :=
    replace dquote (backslash +:+ dquote) (replace backslash (backslash +:+ backslash) (sa_selfdef_audit_path c)) in
  "{" +:+ join "," [str_field "ts" (current_iso8601_utc now); str_field "component" "selfdef";
    str_field "severity" (severity_to_summary_token severity); str_field "event_id" event_id; str_field "kind" kind;
    str_field "selfdef_audit_path" p_escaped; dquote +:+ "line_number" +:+ dquote +:+ ":" +:+ show_uint line_number] +:+ "}".

Definition append_jsonl_twin (c : SharedAuditSummaryChannel) (severity : SeverityId.t) (event_id kind : string)
    (line_number : Z) (env : SummaryEnv) (l : Logs) : Logs :=
  match sa_jsonl_twin_path c with
  | None => l
  | Some _ =>
      mkLogs (lg_shared l)
        (append_text (se_twin env) (render_jsonl_object c severity event_id kind line_number (se_twin_now env) +:+ newline)
          (lg_twin l))
  end.

(** The common part of [notify] and [send] once the severity passes: the counter is
    taken first, the text line is appended, and only then the twin. *)
Definition emit (c : SharedAuditSummaryChannel) (severity : SeverityId.t) (event_id kind : string) (env : SummaryEnv)
    (l : Logs) : SharedAuditSummaryChannel * Logs * AppendAnswer :=
  let c := bump c in
  let line_no := sa_line_counter c in
  let line := render_summary_line c severity event_id kind line_no (se_now env) in
  let l := mkLogs (append_text (se_append env) (line +:+ newline) (lg_shared l)) (lg_twin l) in
  match se_append env with
  | Appended => (c, append_jsonl_twin c severity event_id kind line_no env l, Appended)
  | a => (c, l, a)
  end.

Definition event_kind (event : Event) : string :=
  "C" +:+ show_uint (ev_class_uid event) +:+ "." +:+ show_uint (ev_activity_id event).

Definition notify (c : SharedAuditSummaryChannel) (event : Event) (env : SummaryEnv) (l : Logs) :
    result unit NotifierError * SharedAuditSummaryChannel * Logs :=
  if severity_lt (ev_severity_id event) (sa_severity_floor c) then (Ok tt, c, l)
  else
    let '(c, l, a) := emit c (ev_severity_id event) (uuid_to_string (ev_id event)) (event_kind event) env l in
    (match a with
     | Appended => Ok tt
     | OpenFailed e | WriteFailed _ e | SyncFailed e => Err (NotifierIo e)
     end, c, l).

Definition payload_kind (payload : Payload) : string :=
  match pl_event_kind payload with
  | Some (String _ _ as k) => k
  | _ =>
      if negb (bool_decide (pl_title payload = "")) then str_map ascii_upper (replace_chars is_whitespace "_" (pl_title payload))
      else "EVENT"
  end.

Definition send (c : SharedAuditSummaryChannel) (payload : Payload) (env : SummaryEnv) (l : Logs) :
    result DeliveryReceipt ChannelError * SharedAuditSummaryChannel * Logs :=
  if severity_lt (pl_severity payload) (sa_severity_floor c) then (Ok receipt_empty, c, l)
  else
    let '(c, l, a) :=
      emit c (pl_severity payload) (from_option uuid_to_string "—" (pl_event_id payload)) (payload_kind payload) env l in
    (match a with
     | Appended => Ok receipt_empty
     | OpenFailed e => Err (ChannelOther ("open " +:+ sa_shared_log_path c +:+ ": " +:+ e))
     | WriteFailed _ e => Err (ChannelOther ("append: " +:+ e))
     | SyncFailed e => Err (ChannelOther ("sync: " +:+ e))
     end, c, l).
End summary.
End SharedAudit.

(** ** Oracle triage *)

Module OutputTarget.
Inductive t := OperatorDashboard | SharedAuditSummary | Both.
End OutputTarget.

(** The text of an HTTP status. *)
Class HttpText := { status_display : Z -> string }.

Module OracleTriage.

Record TriageFilter := mkFilter { fl_min_severity : SeverityId.t; fl_kinds : list string }.
Definition DEFAULT_MIN_SEVERITY : SeverityId.t := SeverityId.Medium.
Definition filter_default : TriageFilter := mkFilter DEFAULT_MIN_SEVERITY [].

Record OracleTriageChannel := mkOracle {
  ot_endpoint : string;
  ot_model : string;
  ot_timeout : Z;
  ot_api_key : option string;
  ot_filter : TriageFilter;
  ot_output_target : OutputTarget.t;
  ot_system_prompt : string;
  ot_rate_limit_per_hour : Z;
  ot_rate_limit_state : list Z;
}.

Definition set_rate_state (q : list Z) (c : OracleTriageChannel) : OracleTriageChannel :=
  mkOracle (ot_endpoint c) (ot_model c) (ot_timeout c) (ot_api_key c) (ot_filter c) (ot_output_target c)
    (ot_system_prompt c) (ot_rate_limit_per_hour c) q.

Definition DEFAULT_MODEL : string := "auto".
Definition DEFAULT_SYSTEM_PROMPT : string :=
  "You are a security triage assistant for the sovereign-os SAIN-01 deployment. "
  +:+ "Analyze the following selfdef event and recommend operator-actionable next steps "
  +:+ "in 3-5 bullet points. Be specific. Cite the event-id.".

Inductive OracleTriageBuildError :=
| EmptyEndpoint
| EndpointNotHttp
| ApiKeyEnvUnset (name : string)
| ApiKeyEnvEmpty (name : string).

Definition api_key_of (env : string -> option string) (api_key_env : option string) :
    result (option string) OracleTriageBuildError :=
  match api_key_env with
  | None | Some "" => Ok None
  | Some name =>
      match env name with
      | None => Err (ApiKeyEnvUnset name)
      | Some value => if bool_decide (value = "") then Err (ApiKeyEnvEmpty name) else Ok (Some value)
      end
  end.

Definition from_config (files : Files) (env : string -> option string) (endpoint model : string) (timeout_seconds : Z)
    (api_key_env : option string) (filter : TriageFilter) (output_target : OutputTarget.t)
    (system_prompt_file : option string) (rate_limit_per_hour : Z) : result OracleTriageChannel OracleTriageBuildError :=
  if bool_decide (endpoint = "") then Err EmptyEndpoint
  else if negb (starts_with endpoint "http://" || starts_with endpoint "https://") then Err EndpointNotHttp
  else
    let? api_key := api_key_of env api_key_env in
    let system_prompt :=
      match system_prompt_file with
      | None => DEFAULT_SYSTEM_PROMPT
      | Some p => match files p with Ok s => trim s | Err _ => DEFAULT_SYSTEM_PROMPT end
      end in
    Ok (mkOracle endpoint (or_default model DEFAULT_MODEL) (timeout_seconds `max` 1) api_key filter output_target
          system_prompt rate_limit_per_hour []).

(** The front of the queue is dropped while it is more than an hour old. *)
Fixpoint drop_stale (now : Z) (q : list Z) : list Z :=
  match q with
  | front :: q' => if (from_secs 3600 <? duration_since now front)%Z then drop_stale now q' else q
  | [] => []
  end.

(** [rate_limit_check] at the monotonic instant [now] (nanoseconds). *)
Definition rate_limit_check (c : OracleTriageChannel) (now : Z) : bool * OracleTriageChannel :=
  if bool_decide (ot_rate_limit_per_hour c = 0%Z) then (true, c)
  else
    let q := drop_stale now (ot_rate_limit_state c) in
    if (ot_rate_limit_per_hour c <=? as_u32 (Z.of_nat (length q)))%Z then (false, set_rate_state q c)
    else (true, set_rate_state (q ++ [now]) c).

Definition passes_filter (c : OracleTriageChannel) (payload : Payload) : bool :=
  if severity_lt (pl_severity payload) (fl_min_severity (ot_filter c)) then false
  else
    match fl_kinds (ot_filter c) with
    | [] => true
    | kinds => match pl_event_kind payload with Some k => bool_decide (k ∈ kinds) | None => false end
    end.

(** The object of [json!] is sorted by key. *)
Definition message_json (role content : string) : json := JObject [("content", JString content); ("role", JString role)].
Definition chat_body (c : OracleTriageChannel) (user_content : string) : json :=
  JObject [("max_tokens", JPosInt 512);
    ("messages", JArray [message_json "system" (ot_system_prompt c); message_json "user" user_content]);
    ("model", JString (ot_model c)); ("response_format", JObject [("type", JString "json_object")])].

Section oracle.
Context `{WireFormat} `{HttpText}.

Definition render_request_body (c : OracleTriageChannel) (payload : Payload) : json :=
  chat_body c ("Event " +:+ from_option uuid_to_string "—" (pl_event_id payload) +:+ newline
    +:+ "Kind: " +:+ default "EVENT" (pl_event_kind payload) +:+ newline
    +:+ "Severity: " +:+ severity_name (pl_severity payload) +:+ newline
    +:+ "Title: " +:+ pl_title payload +:+ newline +:+ "Detail:" +:+ newline +:+ pl_body payload).

Definition render_event_body (c : OracleTriageChannel) (event : Event) (kind : string) : json :=
  chat_body c ("Event " +:+ uuid_to_string (ev_id event) +:+ newline +:+ "Kind: " +:+ kind +:+ newline
    +:+ "Severity: " +:+ severity_name (ev_severity_id event) +:+ newline
    +:+ "Detail: " +:+ default "(no message)" (ev_message event)).

Definition request (c : OracleTriageChannel) (body : json) : Request :=
  mkRequest (ot_endpoint c +:+ "/v1/chat/completions") []
    (match ot_api_key c with Some k => Bearer k | None => NoAuth end) (JsonBody body).

(** The answer to the request; the triage it carries is only logged. *)
Definition read_chat (answer : HttpAnswer) : result unit string :=
  match answer with
  | SendFailed e => Err ("oracle-triage: " +:+ e)
  | Answered _ (Err e) => Err ("oracle-triage body: " +:+ e)
  | Answered status (Ok text) =>
      if is_success status then Ok tt
      else Err ("oracle-triage: HTTP " +:+ status_display status +:+ ": " +:+ str_concat (take 200 (chars text)))
  end.

(** The gate and the request: with the budget used up nothing is sent and the call succeeds. *)
Definition dispatch (c : OracleTriageChannel) (body : json) (now : Z) (answer : HttpAnswer) :
    list Request * result unit string * OracleTriageChannel :=
  let '(ok, c) := rate_limit_check c now in
  if negb ok then ([], Ok tt, c) else ([request c body], read_chat answer, c).

Definition event_wanted (c : OracleTriageChannel) (event : Event) : bool :=
  negb (severity_lt (ev_severity_id event) (fl_min_severity (ot_filter c)))
  && (bool_decide (fl_kinds (ot_filter c) = []) || bool_decide (SharedAudit.event_kind event ∈ fl_kinds (ot_filter c))).

Definition notify (c : OracleTriageChannel) (event : Event) (now : Z) (answer : HttpAnswer) :
    list Request * result unit NotifierError * OracleTriageChannel :=
  if negb (event_wanted c event) then ([], Ok tt, c)
  else
    let '(sent, r, c) := dispatch c (render_event_body c event (SharedAudit.event_kind event)) now answer in
    (sent, map_err Http r, c).

Definition send (c : OracleTriageChannel) (payload : Payload) (now : Z) (answer : HttpAnswer) :
    list Request * result DeliveryReceipt ChannelError * OracleTriageChannel :=
  if negb (passes_filter c payload) then ([], Ok receipt_empty, c)
  else
    let '(sent, r, c) := dispatch c (render_request_body c payload) now answer in
    (sent, as_receipt ChannelOther r, c).
End oracle.
End OracleTriage.
