(* ===== verification/ChannelsProps.v ===== *)
(** * Properties of the notification channels

    Secrets go out over TLS; header values are accepted by the HTTP library
    whatever the alert says; the retries, the per-recipient and per-user loops and
    the hourly budget of the triage channel; the size that Discord's and Twilio's
    truncations give; and what a channel that skips an event does to the
    first-success-wins walk it is part of. *)

From S2P Require Import Prelude Core Federation Notify Channels.
From stdpp Require Import options.

(** ** Characters *)

Definition non_ascii (a : ascii) : bool := negb (is_ascii a).

Lemma in_range_iff lo hi n : in_range lo hi n = true <-> (lo <= n <= hi)%N.
Proof. unfold in_range. rewrite andb_true_iff, !N.leb_le. done. Qed.

Lemma cont_byte lo hi b : (128 <= lo)%N -> in_range lo hi (byte b) = true -> non_ascii b = true.
Proof. rewrite in_range_iff. unfold non_ascii, is_ascii. intros. apply negb_true_iff, N.ltb_ge. lia. Qed.

(** The bytes that [need] asks for are above ASCII, and any string may follow them. *)
Lemma utf8_needed need s :
  (forall r, r ∈ need -> 128 <= r.1)%N -> utf8_valid_go need s = true ->
  exists t r, s = t +:+ r /\ String.length t = length need /\ all_bytes non_ascii t = true /\
    forall r', utf8_valid_go need (t +:+ r') = utf8_valid r'.
Proof.
  revert s. induction need as [|[lo hi] need IH]; intros s Hn Hv; [by exists "", s|].
  destruct s as [|b s]; [done|]. simpl in Hv. apply andb_true_iff in Hv as [Hb Hv].
  destruct (IH s) as (t & r & -> & Hl & Ht & Hr); [set_solver|done|].
  exists (String b t), r. rewrite str_cons_app. simpl. rewrite Hl, Ht.
  rewrite (cont_byte lo hi b); [|apply (Hn (lo, hi)); left|done].
  split; [done|]. split; [done|]. split; [done|]. intros r'. by rewrite Hb, Hr.
Qed.

(** The continuation bytes after a leading byte. *)
Definition tail_len (a : ascii) : nat := if (byte a <? 224)%N then 1 else if (byte a <? 240)%N then 2 else 3.

(** What a byte above ASCII asks for at the start of a character. *)
Lemma utf8_asks a :
  (128 <= byte a)%N ->
  (forall x, utf8_valid (String a x) = false) \/
  exists need, (forall x, utf8_valid (String a x) = utf8_valid_go need x) /\ (forall r, r ∈ need -> 128 <= r.1)%N /\
    length need = tail_len a /\ (192 <= byte a)%N.
Proof.
  intros Ha. unfold utf8_valid. cbn [utf8_valid_go]. rewrite (proj2 (N.ltb_ge _ 128)) by done.
  assert (Hask : forall need f, (forall r, r ∈ need -> 128 <= r.1)%N -> length need = tail_len a -> (192 <= byte a)%N ->
    f = utf8_valid_go need -> (forall x, f x = false) \/ exists need', (forall x, f x = utf8_valid_go need' x) /\
      (forall r, r ∈ need' -> 128 <= r.1)%N /\ length need' = tail_len a /\ (192 <= byte a)%N).
  { intros need f Hn Hl Hb ->. right. by exists need. }
  assert (Hlen : forall n, n = 1 /\ (byte a < 224)%N \/ n = 2 /\ (224 <= byte a < 240)%N \/ n = 3 /\ (240 <= byte a)%N ->
    n = tail_len a).
  { unfold tail_len. intros n Hn. destruct (N.ltb_spec (byte a) 224), (N.ltb_spec (byte a) 240); lia. }
  repeat match goal with
  | |- context [if ?b then _ else _] => let E := fresh "E" in destruct b eqn:E
  end; try (by left); rewrite ?N.eqb_eq, ?in_range_iff in *;
  (eapply Hask; [| | |reflexivity]; [set_solver by lia|apply Hlen; simpl; lia|lia]).
Qed.

(** The characters of a valid string: one ASCII byte each, or bytes above ASCII. *)
Definition proper_char (c : rchar) : bool :=
  match c with
  | "" => false
  | String a "" => is_ascii a
  | _ => all_bytes non_ascii c
  end.

(** [chars] cuts a valid string at its character boundaries. *)
Lemma chars_cons a s :
  utf8_valid (String a s) = true ->
  exists c r, String a s = c +:+ r /\ proper_char c = true /\
    forall r', chars (c +:+ r') = c :: chars r' /\ utf8_valid (c +:+ r') = utf8_valid r'.
Proof.
  intros Hv. destruct (is_ascii a) eqn:Ha.
  { exists (String a ""), s. split; [done|]. split; [done|]. intros r'. split; [apply (chars_cons_ascii a r' Ha)|].
    change (String a "" +:+ r') with (String a r'). unfold utf8_valid. cbn [utf8_valid_go].
    unfold is_ascii in Ha. by rewrite Ha. }
  unfold is_ascii in Ha. apply N.ltb_ge in Ha.
  destruct (utf8_asks a Ha) as [Hf|(need & Hn & Hlo & Hl & Hb)]; [by rewrite Hf in Hv|].
  rewrite Hn in Hv. destruct (utf8_needed need s Hlo Hv) as (t & r & -> & Ht & Hc & Hr).
  exists (String a t), r. split; [by rewrite str_cons_app|]. rewrite Hl in Ht.
  assert (Hna : non_ascii a = true) by (unfold non_ascii, is_ascii; by rewrite (proj2 (N.ltb_ge _ _) Ha)).
  split.
  { destruct t; [unfold tail_len in Ht; by repeat case_match|]. simpl in *. by rewrite Hna. }
  intros r'. rewrite str_cons_app, Hn, Hr. split; [|done]. cbn [chars]. unfold tail_len in Ht.
  rewrite (proj2 (N.ltb_ge _ 192)) by done.
  destruct (byte a <? 224)%N; [destruct t as [|b [|]]; done|].
  destruct (byte a <? 240)%N; [destruct t as [|b [|c [|]]]; done|].
  by destruct t as [|b [|c [|d [|]]]].
Qed.

(** Induction along the characters of a valid string. *)
Lemma utf8_ind (P : string -> Prop) :
  P "" ->
  (forall c r, proper_char c = true ->
     (forall r', chars (c +:+ r') = c :: chars r' /\ utf8_valid (c +:+ r') = utf8_valid r') -> P r -> P (c +:+ r)) ->
  forall s, utf8_valid s = true -> P s.
Proof.
  intros H0 Hstep s. remember (String.length s) as n eqn:Hn. revert s Hn.
  induction (lt_wf n) as [n _ IH]. intros [|a s] -> Hv; [done|].
  destruct (chars_cons a s Hv) as (c & r & He & Hp & Hc).
  rewrite He in *. apply Hstep; try done. eapply (IH (String.length r)); [|done|by rewrite <- (proj2 (Hc r))].
  rewrite str_length_app. destruct c; [done|]. simpl. lia.
Qed.

Lemma chars_app s t : utf8_valid s = true -> chars (s +:+ t) = chars s ++ chars t.
Proof.
  intros Hs. revert s Hs. apply utf8_ind; [done|]. intros c r _ Hc IH.
  rewrite str_app_assoc, (proj1 (Hc _)), IH. by rewrite (proj1 (Hc r)).
Qed.

Lemma chars_proper s : utf8_valid s = true -> Forall (fun c => proper_char c = true) (chars s).
Proof.
  revert s. apply utf8_ind; [by constructor|]. intros c r Hp Hc IH. rewrite (proj1 (Hc r)). by constructor.
Qed.

(** A cut between characters leaves a valid string. *)
Lemma chars_take s : utf8_valid s = true -> forall n,
  chars (str_concat (take n (chars s))) = take n (chars s) /\ utf8_valid (str_concat (take n (chars s))) = true.
Proof.
  revert s. apply (utf8_ind (fun s => forall n, _ /\ _)); [by intros []|].
  intros c r _ Hc IH [|n]; [done|]. rewrite (proj1 (Hc r)). cbn [take str_concat]. destruct (IH n) as [IH1 IH2].
  destruct (Hc (str_concat (take n (chars r)))) as [Hc1 Hc2]. by rewrite Hc1, Hc2, IH1.
Qed.

(** ** ntfy *)

(** What the HTTP library accepts in a header value. *)
Definition header_byte (a : ascii) : bool := ((32 <=? byte a) && negb (byte a =? 127) || (byte a =? 9))%N.

Lemma non_ascii_header a : non_ascii a = true -> header_byte a = true.
Proof.
  unfold non_ascii, is_ascii, header_byte. intros H%negb_true_iff%N.ltb_ge.
  rewrite (proj2 (N.leb_le _ _)), (proj2 (N.eqb_neq _ 127)) by lia. done.
Qed.

Lemma proper_char_header c :
  proper_char c = true -> all_bytes header_byte (if Ntfy.is_control c then " " else c) = true.
Proof.
  intros Hp. destruct (Ntfy.is_control c) eqn:Hc; [done|].
  destruct c as [|a [|b s]]; [done| |].
  - unfold Ntfy.is_control in Hc. simpl in *. unfold header_byte, in_range, is_ascii in *.
    apply orb_false_iff in Hc as [H1 H2]. apply N.ltb_lt in Hp.
    apply andb_false_iff in H1, H2. rewrite !N.leb_gt in H1, H2.
    rewrite (proj2 (N.leb_le _ _)), (proj2 (N.eqb_neq _ 127)) by lia. done.
  - eapply all_bytes_impl; [apply non_ascii_header|done].
Qed.

Lemma header_safe_bytes s : utf8_valid s = true -> all_bytes header_byte (Ntfy.header_safe s) = true.
Proof.
  intros Hs%chars_proper. unfold Ntfy.header_safe. induction Hs as [|c l Hc _ IH]; [done|].
  cbn [fmap list_fmap str_concat]. rewrite all_bytes_app. rewrite proper_char_header by done. apply IH.
Qed.

Definition accepted (a : HttpAnswer) : bool := match a with Answered status _ => is_success status | SendFailed _ => false end.
Definition sent_of (s : Ntfy.Step) : option Request := match s with Ntfy.Sent r => Some r | Ntfy.Slept _ => None end.

Lemma attempts_spec r answer : forall left attempt last_err, 0 < left ->
  let '(steps, res) := Ntfy.attempts r answer left attempt last_err in
  exists k, k < left /\ (forall j, j < k -> accepted (answer (attempt + j)) = false) /\
    omap sent_of steps = replicate (S k) r /\
    if accepted (answer (attempt + k)) then is_ok res = true else S k = left /\ is_ok res = false.
Proof.
  induction left as [|left IH]; intros attempt last_err Hl; [lia|]. cbn [Ntfy.attempts].
  assert (Hw : forall l, omap sent_of ((if bool_decide (attempt = 0) then [] else
    [Ntfy.Slept (Z.shiftl 200 (Z.of_nat attempt))]) ++ l) = omap sent_of l) by (intros l; by case_bool_decide).
  assert (Hno : accepted (answer attempt) = false -> forall e,
    let '(steps, res) := Ntfy.attempts r answer left (S attempt) (Some e) in
    exists k, k < S left /\ (forall j, j < k -> accepted (answer (attempt + j)) = false) /\
      omap sent_of (Ntfy.Sent r :: steps) = replicate (S k) r /\
      if accepted (answer (attempt + k)) then is_ok res = true else S k = S left /\ is_ok res = false).
  { intros Ha e. destruct left as [|left].
    { simpl. exists 0. rewrite Nat.add_0_r, Ha. repeat split; lia || done. }
    specialize (IH (S attempt) (Some e) ltac:(lia)). destruct (Ntfy.attempts _ _ _ _ _) as [steps res].
    destruct IH as (k & Hk & Hj & Hs & Hr). exists (S k). split; [lia|]. split.
    - intros [|j] ?; [by rewrite Nat.add_0_r|]. rewrite <- Nat.add_succ_comm. apply Hj. lia.
    - change (omap sent_of (Ntfy.Sent r :: steps)) with (r :: omap sent_of steps). rewrite Hs, <- Nat.add_succ_comm.
      split; [done|]. by destruct (accepted _); [|destruct Hr as [-> ?]]. }
  destruct (answer attempt) as [status text|e] eqn:Ha; [destruct (is_success status) eqn:Hs|].
  - exists 0. rewrite Nat.add_0_r, Ha, Hw. simpl. rewrite Hs. repeat split; lia || done.
  - specialize (Hno Hs (DRemote status ("non-success status: " +:+ show_uint status))).
    destruct (Ntfy.attempts _ _ _ _ _) as [steps res]. rewrite Hw. apply Hno.
  - specialize (Hno eq_refl (DTransport e)). destruct (Ntfy.attempts _ _ _ _ _) as [steps res]. rewrite Hw. apply Hno.
Qed.

(** An ntfy notification is attempted at most three times and stops at the first
    accepted answer: exactly [k + 1] identical requests go out, all earlier answers
    were refusals or transport errors, and the call succeeds if and only if answer
    [k] accepted; it fails only after the third. Every request carries header values
    that the HTTP library accepts, whatever bytes the alert's title has, so that no
    text of an alert can suppress its own notification. *)
Theorem ntfy_delivery (n : Ntfy.NtfyNotifier) (payload : Payload) (answer : nat -> HttpAnswer) :
  Ntfy.nt_url n <> "" -> Ntfy.nt_topic n <> "" -> utf8_valid (pl_title payload) = true ->
  let '(steps, res) := Ntfy.send n payload answer in
  exists k r, k < 3 /\ (forall j, j < k -> accepted (answer j) = false) /\
    omap sent_of steps = replicate (S k) r /\ rq_body r = TextBody (pl_body payload) /\
    Forall (fun h => all_bytes header_byte h.2 = true) (rq_headers r) /\
    if accepted (answer k) then res = Ok receipt_empty else k = 2 /\ exists e, res = Err e.
Proof.
  intros Hu Ht Hv. unfold Ntfy.send, Ntfy.post. rewrite !bool_decide_false by done. cbn [orb].
  pose proof (attempts_spec (Ntfy.request n (pl_title payload) (pl_body payload) (priority_for (pl_severity payload)) "shield")
    answer 3 0 None ltac:(lia)) as Hs.
  destruct (Ntfy.attempts _ _ _ _ _) as [steps res]. destruct Hs as (k & Hk & Hj & Hst & Hr).
  exists k, (Ntfy.request n (pl_title payload) (pl_body payload) (priority_for (pl_severity payload)) "shield").
  repeat (split; [done|]). split; [|destruct (accepted _); destruct res; simpl; naive_solver lia].
  cbn [Ntfy.request rq_headers]. repeat apply Forall_cons_2; cbn [snd]; [by apply header_safe_bytes| |done|done].
  by destruct (pl_severity payload).
Qed.

Module NtfyWitness.
Definition payload : Payload := mkPayload 1 None (String "013" "alert") "body" SeverityId.High None None None.
Definition answer (i : nat) : HttpAnswer := if bool_decide (i = 1) then Answered 200 (Ok "") else Answered 500 (Ok "").
End NtfyWitness.

Lemma ntfy_delivery_witness :
  (Ntfy.send (Ntfy.mkNtfy "http://ntfy" "alerts" None) NtfyWitness.payload NtfyWitness.answer).2 = Ok receipt_empty /\
  exists k r, k < 3 /\ (forall j, j < k -> accepted (NtfyWitness.answer j) = false) /\
    omap sent_of (Ntfy.send (Ntfy.mkNtfy "http://ntfy" "alerts" None) NtfyWitness.payload NtfyWitness.answer).1
      = replicate (S k) r.
Proof.
  split; [reflexivity|].
  pose proof (ntfy_delivery (Ntfy.mkNtfy "http://ntfy" "alerts" None) NtfyWitness.payload NtfyWitness.answer
    ltac:(done) ltac:(done) ltac:(reflexivity)) as H.
  destruct (Ntfy.send _ _ _) as [steps res]. destruct H as (k & r & Hk & Hj & Hs & _). by exists k, r.
Defined.

(** ** Secrets *)

Lemma starts_with_app p q s : starts_with s (p +:+ q) = true -> starts_with s p = true.
Proof. rewrite !starts_with_spec. intros [t ->]. exists (q +:+ t). by rewrite str_app_assoc. Qed.

Lemma starts_with_app_r p s t : starts_with s p = true -> starts_with (s +:+ t) p = true.
Proof. rewrite !starts_with_spec. intros [r ->]. exists (r +:+ t). by rewrite str_app_assoc. Qed.

(** [trim_end_matches('/')] takes slashes off the end. *)
Lemma drop_slashes_suffix s : exists p, s = p +:+ drop_slashes s /\ all_bytes (fun a => bool_decide (a = "/"%char)) p = true.
Proof.
  induction s as [|a s IH]; [by exists ""|]. simpl. case_bool_decide as Ha; [|by exists ""].
  destruct IH as (p & Hp & Hall). exists (String a p). rewrite str_cons_app. simpl.
  split; [by f_equal|]. by rewrite bool_decide_true.
Qed.

Lemma all_bytes_rev P s : all_bytes P (String.rev s) = all_bytes P s.
Proof.
  induction s as [|a s IH]; [done|]. change (String a s) with (String a "" +:+ s).
  rewrite rev_str_app, !all_bytes_app, IH. by rewrite andb_comm.
Qed.

Lemma trim_end_slashes_prefix s :
  exists p, s = trim_end_slashes s +:+ p /\ all_bytes (fun a => bool_decide (a = "/"%char)) p = true.
Proof.
  destruct (drop_slashes_suffix (String.rev s)) as (p & Hp & Hall). exists (String.rev p).
  unfold trim_end_slashes. split; [by rewrite <- rev_str_app, <- Hp, rev_str_involutive|by rewrite all_bytes_rev].
Qed.

(** Two ways to cut one string. *)
Lemma str_app_eq q x y p : q +:+ x = y +:+ p -> (exists z, y = q +:+ z) \/ exists z, q = y +:+ z /\ p = z +:+ x.
Proof.
  revert y. induction q as [|c q IH]; intros y He; [left; by exists y|].
  destruct y as [|d y]; [right; by exists (String c q)|].
  rewrite !str_cons_app in He. injection He as -> He.
  destruct (IH y He) as [[z ->]|(z & -> & ->)]; [left|right]; exists z; by rewrite str_cons_app.
Qed.

Lemma trim_end_slashes_https s : starts_with s "https://" = true -> starts_with (trim_end_slashes s) "https:" = true.
Proof.
  intros [t ->]%starts_with_spec. destruct (trim_end_slashes_prefix ("https://" +:+ t)) as (p & Hp & Hall).
  change ("https://" +:+ t) with ("https:" +:+ ("//" +:+ t)) in Hp at 1.
  destruct (str_app_eq _ _ _ _ Hp) as [[z Hz]|(z & Hz & ->)]; [apply starts_with_spec; by exists z|].
  rewrite all_bytes_app in Hall. apply andb_true_iff in Hall as [Hz' _].
  destruct (str_snoc_inv z) as [->|(z0 & b & ->)]; [rewrite str_app_nil_r in Hz; by rewrite <- Hz|].
  rewrite <- str_app_assoc in Hz. change "https:" with ("https" +:+ String ":" "") in Hz.
  apply str_snoc_inj in Hz as [_ <-]. rewrite all_bytes_app in Hz'. by destruct (all_bytes _ z0).
Qed.

Lemma read_trimmed_ok {E} files path (u : string -> E) e s :
  read_trimmed files path u e = Ok s -> exists raw, files path = Ok raw /\ s = trim raw /\ s <> "".
Proof. unfold read_trimmed. destruct (files path) as [raw|]; [|done]. case_bool_decide; naive_solver. Qed.

(** The one request of a call goes to [url]. *)
Definition goes_to (P : string -> Prop) {R} (call : list Request * R) : Prop := Forall (fun r => P (rq_url r)) call.1.
Definition over_tls (url : string) : Prop := starts_with url "https:" = true.

Section secrets.
Context `{WireFormat} `{UuidSimple} `{MailLib} `{UnicodeTables}.

Lemma slack_tls files f u i n : Slack.from_config files f u i = Ok n -> over_tls (Slack.sl_webhook_url n).
Proof.
  unfold Slack.from_config. destruct (read_trimmed _ _ _ _); [|done]. simpl.
  destruct (starts_with _ _) eqn:Hs; [|done]. intros [= <-]. by apply (starts_with_app "https:" "//").
Qed.

Lemma discord_tls files f u n : Discord.from_config files f u = Ok n -> over_tls (Discord.dc_webhook_url n).
Proof.
  unfold Discord.from_config. destruct (read_trimmed _ _ _ _); [|done]. simpl.
  destruct (starts_with _ _) eqn:Hs; [|done]. intros [= <-]. by apply (starts_with_app "https:" "//").
Qed.

Lemma pagerduty_tls files f e s n : PagerDuty.from_config files f e s = Ok n -> over_tls (PagerDuty.pd_endpoint n).
Proof.
  unfold PagerDuty.from_config. destruct (read_trimmed _ _ _ _); [|done]. simpl. case_bool_decide; [by intros [= <-]|].
  destruct (starts_with _ _) eqn:Hs; [|done]. intros [= <-]. by apply (starts_with_app "https:" "//").
Qed.

Lemma loki_tls files e t f s n : Loki.from_config files e t f s = Ok n -> over_tls (Loki.lk_endpoint n).
Proof.
  unfold Loki.from_config. case_bool_decide; [done|]. destruct (starts_with _ _) eqn:Hs; [|done]. simpl.
  destruct (match f with None => _ | Some _ => _ end); [|done]. intros [= <-]. by apply (starts_with_app "https:" "//").
Qed.

Lemma opensearch_tls files e i k u f s n :
  OpenSearch.from_config files e i k u f s = Ok n -> over_tls (OpenSearch.os_endpoint n).
Proof.
  unfold OpenSearch.from_config. case_bool_decide; [done|]. destruct (starts_with _ _) eqn:Hs; [|done]. simpl.
  case_bool_decide; [done|]. destruct (ok_or _ _); [|done]. simpl. destruct (OpenSearch.auth_of _ _ _ _); [|done].
  intros [= <-]. by apply trim_end_slashes_https.
Qed.

Lemma thehive_tls files e f s a n : TheHive.from_config files e f s a = Ok n -> over_tls (TheHive.th_endpoint n).
Proof.
  unfold TheHive.from_config. case_bool_decide; [done|]. destruct (starts_with _ _) eqn:Hs; [|done]. simpl.
  destruct (read_trimmed _ _ _ _); [|done]. intros [= <-]. by apply trim_end_slashes_https.
Qed.

Lemma smtp_no_plain_auth files h p tls u f from to t n :
  Smtp.from_config files h p tls u f from to t = Ok n -> Smtp.sm_credentials n <> None -> Smtp.sm_tls n <> TlsProfile.Plain.
Proof.
  unfold Smtp.from_config. do 2 (case_bool_decide; [done|]). destruct (parse_mailbox from); [|done].
  destruct (Smtp.parse_recipients to); [|done]. simpl. destruct (Smtp.relay_of _ _); [|done]. simpl.
  unfold Smtp.credentials_of. destruct u, f; try (intros [= <-]; done).
  destruct (read_trimmed _ _ _ _); [|done]. simpl. by destruct tls; intros [= <-].
Qed.

(** A channel built from configuration never sends its secret in the clear. For
    Slack and Discord (whose webhook URL is the secret), PagerDuty, Loki, OpenSearch
    and TheHive, whatever the configuration and the contents of the secret's file, a
    channel that is built sends every request to an https URL; and an SMTP channel
    that holds credentials never uses the plaintext profile. *)
Theorem secrets_over_tls (files : Files) :
  (forall f u i n payload a, Slack.from_config files f u i = Ok n -> goes_to over_tls (Slack.send n payload a)) /\
  (forall f u n payload a, Discord.from_config files f u = Ok n -> goes_to over_tls (Discord.send n payload a)) /\
  (forall f e s n payload a, PagerDuty.from_config files f e s = Ok n -> goes_to over_tls (PagerDuty.send n payload a)) /\
  (forall e t f s n payload now a, Loki.from_config files e t f s = Ok n -> goes_to over_tls (Loki.send n payload now a)) /\
  (forall e i k u f s n payload now a, OpenSearch.from_config files e i k u f s = Ok n ->
     goes_to over_tls (OpenSearch.send n payload now a)) /\
  (forall e f s t n payload a, TheHive.from_config files e f s t = Ok n -> goes_to over_tls (TheHive.send n payload a)) /\
  (forall h p tls u f from to t n, Smtp.from_config files h p tls u f from to t = Ok n ->
     Smtp.sm_credentials n <> None -> Smtp.sm_tls n <> TlsProfile.Plain).
Proof.
  unfold goes_to. repeat split.
  - intros f u i n payload a Hn%slack_tls. unfold Slack.send, Slack.post. case_bool_decide; by repeat constructor.
  - intros f u n payload a Hn%discord_tls. unfold Discord.send, Discord.post. case_bool_decide; by repeat constructor.
  - intros f e s n payload a Hn%pagerduty_tls. unfold PagerDuty.send, PagerDuty.post. case_bool_decide; by repeat constructor.
  - intros e t f s n payload now a Hn%loki_tls. unfold Loki.send, Loki.push. case_bool_decide; by repeat constructor.
  - intros e i k u f s n payload now a Hn%opensearch_tls. unfold OpenSearch.send, OpenSearch.index_document.
    destruct (_ || _); [constructor|]. apply Forall_singleton. unfold OpenSearch.request.
    destruct (match OpenSearch.os_auth_kind n with AuthKind.NoAuth => _ | _ => _ end). by apply starts_with_app_r.
  - intros e f s t n payload a Hn%thehive_tls. unfold TheHive.send, TheHive.post_alert.
    destruct (_ || _); [constructor|]. apply Forall_singleton. by apply starts_with_app_r.
  - intros *. apply smtp_no_plain_auth.
Qed.
End secrets.

(** ** Truncation *)

(** Discord's content is longer than the cap it is cut to fit. For a message of
    more than 1990 characters the text sent has exactly 2002: the cut keeps 1990 and
    the marker adds twelve, where the comment promises that cutting at 1990 leaves
    room for it within the API's 2000. Messages of 1991 to 2000 characters, which
    would have been accepted, are lengthened past the cap. *)
Theorem discord_truncation_exceeds_cap (d : Discord.DiscordNotifier) (content : string) (a : HttpAnswer) :
  utf8_valid content = true -> Discord.dc_webhook_url d <> "" -> Discord.DISCORD_CONTENT_CAP < length (chars content) ->
  exists sent, (Discord.post d content a).1 = [Discord.request d sent] /\ length (chars sent) = 2002.
Proof.
  intros Hv Hu Hl. unfold Discord.post, Discord.truncate_content. rewrite bool_decide_false by done.
  rewrite (proj2 (Nat.ltb_lt _ _)) by done. eexists. split; [reflexivity|].
  destruct (chars_take content Hv Discord.DISCORD_CONTENT_CAP) as [Hc Ht].
  rewrite chars_app by done. rewrite Hc, length_app, length_take_le by (unfold Discord.DISCORD_CONTENT_CAP in *; lia).
  reflexivity.
Qed.

(** A string of [n] copies of a letter. *)
Fixpoint letters (n : nat) : string := match n with 0 => "" | S n => String "a" (letters n) end.

Lemma discord_truncation_exceeds_cap_witness :
  exists sent, (Discord.post (Discord.mkDiscord "https://discord.com/x" "selfdef") (letters 1995) (Answered 400 (Ok ""))).1
      = [Discord.request (Discord.mkDiscord "https://discord.com/x" "selfdef") sent] /\ length (chars sent) = 2002.
Proof.
  apply (discord_truncation_exceeds_cap (Discord.mkDiscord "https://discord.com/x" "selfdef") (letters 1995)
    (Answered 400 (Ok ""))); [vm_compute; reflexivity|done|apply Nat.ltb_lt; vm_compute; reflexivity].
Defined.

Lemma recipients_spec t body answer : forall to i succeeded last_err,
  let '(sent, n, e) := Twilio.recipients t body to answer i succeeded last_err in
  sent = (fun recipient => Twilio.request t recipient body) <$> to /\
  n = succeeded + length (filter (fun k => is_ok (Twilio.send_one (answer k)) = true) (seq i (length to))).
Proof.
  induction to as [|recipient to IH]; intros i succeeded last_err; [simpl; split; [done|lia]|].
  cbn [Twilio.recipients length seq]. rewrite filter_cons.
  destruct (Twilio.send_one (answer i)) eqn:Ha; [rewrite decide_True by done|rewrite decide_False by done].
  - specialize (IH (S i) (S succeeded) last_err). destruct (Twilio.recipients _ _ _ _ _ _ _) as [[sent n] e].
    destruct IH as [-> ->]. split; [done|]. cbn [length]. lia.
  - match goal with |- context [Twilio.recipients _ _ _ _ _ _ (Some ?x)] => specialize (IH (S i) succeeded (Some x)) end.
    destruct (Twilio.recipients _ _ _ _ _ _ _) as [[sent n] er]. by destruct IH as [-> ->].
Qed.

(** Twilio's truncation cuts bytes, not characters. A message longer than 1500
    bytes whose 1500th byte falls inside a character makes [fan_out] panic before
    anything is sent; the text of an event, which an attacker can choose, decides
    it. On every other message each recipient gets exactly one request, with the
    same text of at most 1500 bytes, and the call succeeds with the number of
    recipients whose answer was a success, or fails when there was none. *)
Theorem twilio_fan_out_exact (t : Twilio.TwilioNotifier) (body : string) (answer : nat -> HttpAnswer) :
  let cut := bool_decide (Twilio.SMS_BODY_SOFT_CAP < String.length body) in
  let taken := length (filter (fun k => is_ok (Twilio.send_one (answer k)) = true) (seq 0 (length (Twilio.tw_to t)))) in
  if cut && negb (is_char_boundary body Twilio.SMS_BODY_SOFT_CAP) then Twilio.fan_out t body answer = None
  else exists text sent res, Twilio.fan_out t body answer = Some (sent, res) /\
    sent = (fun recipient => Twilio.request t recipient text) <$> Twilio.tw_to t /\
    text = (if cut then String.substring 0 Twilio.SMS_BODY_SOFT_CAP body else body) /\
    (if bool_decide (taken = 0) then is_ok res = false else res = Ok taken).
Proof.
  simpl. unfold Twilio.fan_out, slice_to.
  assert (Hrest : forall text, exists sent res,
    (let '(sent, succeeded, last_err) := Twilio.recipients t text (Twilio.tw_to t) answer 0 0 None in
     Some (sent, if bool_decide (succeeded = 0) then Err (default (Twilio.TTransport "no recipients configured") last_err)
       else Ok succeeded)) = Some (sent, res) /\
    sent = (fun recipient => Twilio.request t recipient text) <$> Twilio.tw_to t /\
    (if bool_decide (length (filter (fun k => is_ok (Twilio.send_one (answer k)) = true) (seq 0 (length (Twilio.tw_to t)))) = 0)
     then is_ok res = false
     else res = Ok (length (filter (fun k => is_ok (Twilio.send_one (answer k)) = true) (seq 0 (length (Twilio.tw_to t))))))).
  { intros text. pose proof (recipients_spec t text answer (Twilio.tw_to t) 0 0 None) as Hr.
    destruct (Twilio.recipients _ _ _ _ _ _ _) as [[sent n] e]. destruct Hr as [-> Hn]. simpl in Hn. subst n.
    do 2 eexists. split; [reflexivity|]. split; [done|]. by case_bool_decide. }
  destruct (Nat.ltb_spec Twilio.SMS_BODY_SOFT_CAP (String.length body)) as [Hlt|Hge].
  - rewrite (bool_decide_true (_ < _)) by done. simpl. destruct (is_char_boundary _ _); [|done]. simpl.
    destruct (Hrest (String.substring 0 Twilio.SMS_BODY_SOFT_CAP body)) as (sent & res & H1 & H2 & H3). eauto 8.
  - rewrite (bool_decide_false (_ < _)) by lia. simpl.
    destruct (Hrest body) as (sent & res & H1 & H2 & H3). eauto 8.
Qed.

(** ** Channels that skip an event *)

Lemma chain_stops_at_ok event pre n sub post answer :
  event_matches sub event = true -> answer (length pre) = Ok tt ->
  (forall k, k < length pre -> is_ok (answer k) = false) ->
  exists called, chain_notify (pre ++ (n, sub) :: post) event answer = (Ok tt, called ++ [n]) /\ called ⊆ pre.*1.
Proof.
  intros Hm Hok Hpre. unfold chain_notify. rewrite bool_decide_false by (by destruct pre).
  assert (Hloop : forall pre' i tried, answer (i + length pre') = Ok tt ->
    (forall k, k < length pre' -> is_ok (answer (i + k)) = false) ->
    exists called, chain_loop (pre' ++ (n, sub) :: post) event answer i tried = (Ok tt, called ++ [n]) /\ called ⊆ pre'.*1).
  { induction pre' as [|[m s] pre' IH]; intros i tried Ha Hp; simpl.
    { rewrite Nat.add_0_r in Ha. rewrite Hm, Ha. simpl. by exists []. }
    destruct (IH (S i) (if event_matches s event then S tried else tried)) as (called & Hc & Hsub).
    { simpl in Ha. by rewrite Nat.add_succ_r in Ha. }
    { intros k Hk. specialize (Hp (S k)). rewrite Nat.add_succ_r in Hp. apply Hp. simpl. lia. }
    destruct (event_matches s event); simpl.
    - specialize (Hp 0 ltac:(simpl; lia)). rewrite Nat.add_0_r in Hp. destruct (answer i); [done|].
      rewrite Hc. exists (m :: called). split; [done|set_solver].
    - rewrite Hc. exists called. split; [done|set_solver]. }
  by apply (Hloop pre 0 0).
Qed.

Section quiet.
Context `{WireFormat} `{UnicodeTables} `{HttpText} `{Iso8601}.

(** A configured channel that was called for an event and reached nobody: no
    broadcast was started, no user's terminal took the message, no request was
    sent, no line was written. *)
Inductive quiet (event : Event) : result unit NotifierError -> Prop :=
| quiet_wall w a r : Wall.wl_binary w <> "" -> Wall.notify w event a = ([], r) -> quiet event r
| quiet_write w a started r :
    WriteTty.wr_binary w <> "" -> WriteTty.wr_users w <> [] ->
    (forall i, exists code err, a i = Exited code err /\ code <> Some 0%Z) ->
    WriteTty.notify w event a = (started, r) -> quiet event r
| quiet_oracle c now a r c' : OracleTriage.notify c event now a = ([], r, c') -> quiet event r.

Lemma write_users_none w message answer : forall users i,
  (forall k, exists code err, answer k = Exited code err /\ code <> Some 0%Z) ->
  (WriteTty.write_users w message users answer i false None).1.2 = false /\
  (WriteTty.write_users w message users answer i false None).2 = None.
Proof.
  induction users as [|user users IH]; intros i Ha; [done|]. simpl.
  destruct (Ha i) as (code & err & -> & Hc). simpl. rewrite bool_decide_false by done.
  specialize (IH (S i) Ha). by destruct (WriteTty.write_users _ _ _ _ _ _ _) as [[? ?] ?].
Qed.

(** A channel that reached nobody answers success. *)
Lemma quiet_ok event r : quiet event r -> r = Ok tt.
Proof.
  intros [w a r' Hb Hn|w a started r' Hb Hu Ha Hn|c now a r' c' Hn].
  - revert Hn. unfold Wall.notify, Wall.broadcast. rewrite bool_decide_false by done.
    destruct (Wall.below _ _); [by intros [= <-]|done].
  - revert Hn. unfold WriteTty.notify, WriteTty.deliver_to_users. rewrite !bool_decide_false by done. simpl.
    destruct (Wall.below _ _); [by intros [= _ <-]|].
    pose proof (write_users_none w (attention_event_message event) a (WriteTty.wr_users w) 0 Ha) as [Hd He].
    destruct (WriteTty.write_users _ _ _ _ _ _ _) as [[st d] e]. simpl in *. subst. by intros [= _ <-].
  - revert Hn. unfold OracleTriage.notify, OracleTriage.dispatch. destruct (negb _); [by intros [= <- _]|].
    destruct (OracleTriage.rate_limit_check _ _) as [[] ?]; [done|]. by intros [= <- _].
Qed.

(** A channel that reached nobody ends the notification chain as delivered. When
    wall is below its severity floor, when none of write's users is logged in, or when
    the triage channel filters the event out or has used its budget, the channel
    answers success; the first-success-wins chain then stops, reports success, and
    calls none of the channels after it, although nobody was told. The crates'
    comments say that sibling channels still fire. *)
Theorem quiet_channel_ends_chain (event : Event) (pre post : NotifierChain) (n : string) (sub : Subscription)
    (answer : nat -> result unit NotifierError) :
  event_matches sub event = true -> quiet event (answer (length pre)) ->
  (forall k, k < length pre -> is_ok (answer k) = false) ->
  exists called, chain_notify (pre ++ (n, sub) :: post) event answer = (Ok tt, called ++ [n]) /\ called ⊆ pre.*1.
Proof. intros Hm Hq%quiet_ok Hp. by apply chain_stops_at_ok. Qed.
End quiet.

(** ** The hourly budget of the triage channel *)

Module RateLimit.
Import OracleTriage.

Definition HOUR : Z := from_secs 3600.

(** The instants at which requests were let through. *)
Fixpoint grants (c : OracleTriageChannel) (nows : list Z) : list Z :=
  match nows with
  | [] => []
  | now :: nows => let '(ok, c) := rate_limit_check c now in (if ok then [now] else []) ++ grants c nows
  end.

(** The specification keeps every grant: a request passes when fewer than [limit]
    of the grants lie in the hour that ends with it. *)
Definition in_hour (t g : Z) : Prop := (t - HOUR <= g <= t)%Z.
Definition count_hour (t : Z) (past : list Z) : Z := Z.of_nat (length (filter (in_hour t) past)).
Fixpoint spec_grants (limit : Z) (past nows : list Z) : list Z :=
  match nows with
  | [] => []
  | now :: nows =>
      if bool_decide (limit = 0%Z) || (count_hour now past <? limit)%Z then now :: spec_grants limit (past ++ [now]) nows
      else spec_grants limit past nows
  end.

Definition nondecreasing (start : Z) (nows : list Z) : Prop := Sorted Z.le (start :: nows).

(** The queue against the list of all grants: what was dropped is more than an hour
    old, and what is kept is in order. *)
Definition sim (last : Z) (past q : list Z) : Prop :=
  exists dropped, past = dropped ++ q /\ Forall (fun g => g < last - HOUR)%Z dropped /\ StronglySorted Z.le q /\
    Forall (fun g => g <= last)%Z q.

Lemma drop_stale_spec now q : StronglySorted Z.le q -> Forall (fun g => g <= now)%Z q ->
  exists p, q = p ++ drop_stale now q /\ Forall (fun g => g < now - HOUR)%Z p /\ StronglySorted Z.le (drop_stale now q) /\
    Forall (in_hour now) (drop_stale now q).
Proof.
  induction q as [|g q IH]; intros Hs Hle; [by exists []|]. cbn [drop_stale].
  apply StronglySorted_inv in Hs as [Hs Hall]. apply Forall_cons_1 in Hle as [Hg Hle].
  change (from_secs 3600) with HOUR. rewrite duration_since_le by done. destruct (Z.ltb_spec HOUR (now - g)) as [Hst|Hk].
  - destruct (IH Hs Hle) as (p & Hq & Hp & Hs' & Hin). exists (g :: p).
    split; [simpl; by f_equal|]. repeat split; [|done|done]. constructor; [lia|done].
  - exists []. repeat split; [constructor|by constructor|]. constructor; [unfold in_hour; lia|].
    rewrite Forall_forall in *. intros x Hx. specialize (Hall x Hx). specialize (Hle x Hx). unfold in_hour. lia.
Qed.

Lemma filter_in_hour_dropped now dropped : Forall (fun g => g < now - HOUR)%Z dropped -> filter (in_hour now) dropped = [].
Proof. intros Hd. apply filter_none. eapply Forall_impl; [exact Hd|]. unfold in_hour. simpl. lia. Qed.

Lemma sim_count last now past q : (last <= now)%Z -> sim last past q ->
  count_hour now past = Z.of_nat (length (drop_stale now q)) /\ sim now past (drop_stale now q).
Proof.
  intros Hle (dropped & -> & Hd & Hs & Hq).
  assert (Hq' : Forall (fun g => g <= now)%Z q) by (eapply Forall_impl; [exact Hq|simpl; lia]).
  assert (Hd' : Forall (fun g => g < now - HOUR)%Z dropped) by (eapply Forall_impl; [exact Hd|simpl; lia]).
  destruct (drop_stale_spec now q Hs Hq') as (p & Hp & Hpd & Hs' & Hin). split.
  - unfold count_hour. rewrite Hp at 1. rewrite !filter_app, !filter_in_hour_dropped by done. simpl.
    by rewrite filter_all.
  - exists (dropped ++ p). rewrite <- app_assoc, <- Hp. split; [done|]. split; [by apply Forall_app|]. split; [done|].
    eapply Forall_impl; [exact Hin|]. unfold in_hour. simpl. lia.
Qed.

Lemma sim_grant now past q : sim now past q -> sim now (past ++ [now]) (q ++ [now]).
Proof.
  intros (dropped & -> & Hd & Hs & Hq). exists dropped. rewrite app_assoc. repeat split; [done| |].
  - clear -Hs Hq. induction Hs as [|g q Hs IH Hall]; [repeat constructor|]. apply Forall_cons_1 in Hq as [Hg Hq].
    simpl. constructor; [by apply IH|]. apply Forall_app. split; [done|by repeat constructor].
  - apply Forall_app. split; [done|by repeat constructor].
Qed.

Lemma grants_spec nows : forall c last past,
  (0 <= ot_rate_limit_per_hour c <= u32_max)%Z -> nondecreasing last nows ->
  ot_rate_limit_per_hour c <> 0%Z ->
  sim last past (ot_rate_limit_state c) -> (Z.of_nat (length (ot_rate_limit_state c)) <= ot_rate_limit_per_hour c)%Z ->
  grants c nows = spec_grants (ot_rate_limit_per_hour c) past nows.
Proof.
  induction nows as [|now nows IH]; intros c last past Hb Hn Hz Hsim Hlen; [done|].
  apply Sorted_inv in Hn as [Hn Hlast]. apply HdRel_inv in Hlast.
  destruct (sim_count _ _ _ _ Hlast Hsim) as [Hc Hsim'].
  assert (Hlen' : (Z.of_nat (length (drop_stale now (ot_rate_limit_state c))) <= ot_rate_limit_per_hour c)%Z).
  { destruct Hsim as (d & -> & Hd & Hs & Hq). destruct (drop_stale_spec now (ot_rate_limit_state c) Hs) as (p & Hp & _).
    { eapply Forall_impl; [exact Hq|simpl; lia]. }
    rewrite Hp, length_app in Hlen. lia. }
  cbn [grants spec_grants]. unfold rate_limit_check. rewrite !bool_decide_false by done.
  rewrite as_u32_id by lia. rewrite Hc. cbn [orb].
  destruct (Z.leb_spec (ot_rate_limit_per_hour c) (Z.of_nat (length (drop_stale now (ot_rate_limit_state c))))) as [Hfull|Hroom].
  - rewrite (proj2 (Z.ltb_ge _ _)) by lia. simpl.
    by apply (IH (set_rate_state (drop_stale now (ot_rate_limit_state c)) c) now past).
  - rewrite (proj2 (Z.ltb_lt _ _)) by lia. simpl. f_equal.
    apply (IH (set_rate_state (drop_stale now (ot_rate_limit_state c) ++ [now]) c) now (past ++ [now])); try done.
    + by apply sim_grant.
    + simpl. rewrite length_app. simpl. lia.
Qed.

(** In the specification every hour holds at most [limit] grants. *)
Lemma spec_window limit nows : forall start past, (0 < limit)%Z -> nondecreasing start nows ->
  Forall (fun g => g <= start)%Z past -> (forall t, count_hour t past <= limit)%Z ->
  forall t, (count_hour t (past ++ spec_grants limit past nows) <= limit)%Z.
Proof.
  induction nows as [|now nows IH]; intros start past Hl Hn Hp Hw t; [by rewrite app_nil_r|].
  apply Sorted_inv in Hn as [Hn Hlast]. apply HdRel_inv in Hlast. cbn [spec_grants].
  assert (Hp' : Forall (fun g => g <= now)%Z past) by (eapply Forall_impl; [exact Hp|simpl; lia]).
  rewrite bool_decide_false by lia. cbn [orb]. destruct (Z.ltb_spec (count_hour now past) limit) as [Hlt|Hge].
  - rewrite cons_middle, app_assoc. apply (IH now (past ++ [now])); try done.
    { apply Forall_app. split; [done|by repeat constructor]. }
    intros t'. unfold count_hour in *. rewrite filter_app, filter_cons. simpl.
    destruct (decide (in_hour t' now)) as [Hin|Hout].
    + rewrite length_app. simpl.
      assert (Hsub : length (filter (in_hour t') past) <= length (filter (in_hour now) past)).
      { clear -Hp' Hin. induction past as [|g past IH]; [done|]. apply Forall_cons_1 in Hp' as [Hg Hp].
        rewrite !filter_cons. unfold in_hour in *. repeat case_decide; simpl; specialize (IH Hp); lia. }
      lia.
    + rewrite app_nil_r. apply Hw.
  - by apply (IH now past).
Qed.
End RateLimit.

(** C28: The triage channel's queue is a sliding window: along any sequence of calls at
    nondecreasing instants, the requests let through are exactly those of the
    specification that remembers every grant and lets a request pass when fewer than
    [limit] grants lie in the hour ending with it (always, when the limit is 0); and
    with a limit no closed hour ever holds more than [limit] requests. *)
Theorem oracle_rate_limit_exact (c : OracleTriage.OracleTriageChannel) (start : Z) (nows : list Z) :
  OracleTriage.ot_rate_limit_state c = [] -> (0 <= OracleTriage.ot_rate_limit_per_hour c <= u32_max)%Z ->
  RateLimit.nondecreasing start nows ->
  RateLimit.grants c nows = RateLimit.spec_grants (OracleTriage.ot_rate_limit_per_hour c) [] nows /\
  (OracleTriage.ot_rate_limit_per_hour c <> 0%Z ->
     forall t, (RateLimit.count_hour t (RateLimit.grants c nows) <= OracleTriage.ot_rate_limit_per_hour c)%Z).
Proof.
  intros Hq Hb Hn.
  assert (Hg : RateLimit.grants c nows = RateLimit.spec_grants (OracleTriage.ot_rate_limit_per_hour c) [] nows).
  { destruct (decide (OracleTriage.ot_rate_limit_per_hour c = 0%Z)) as [Hz|Hz].
    - rewrite Hz. generalize (@nil Z) as past. clear Hn. induction nows as [|now nows IH]; intros past; [done|].
      simpl. unfold OracleTriage.rate_limit_check. rewrite bool_decide_true by done. simpl. f_equal. apply IH.
    - apply (RateLimit.grants_spec nows c start []); try done; rewrite Hq; [|simpl; lia].
      exists []. repeat split; constructor. }
  split; [done|]. intros Hz t. rewrite Hg.
  apply (RateLimit.spec_window _ nows start []); [lia|done|constructor|]. intros t'. unfold RateLimit.count_hour. simpl. lia.
Qed.

Module ChannelDemo.
Import Demo.
#[export] Instance tables : UnicodeTables :=
  {| uc_alphanumeric := fun _ => false; uc_uppercase := fun c => c; uc_debug_plain := fun _ => true |}.
#[export] Instance http_text : HttpText := {| status_display := show_uint |}.
#[export] Instance iso : Iso8601 := {| iso8601_format := fun t => Some (show_int t) |}.

Definition event (s : SeverityId.t) : Event := event_new {| st_id := 7; st_time := 0; st_logged := 0 |} DETECTION_FINDING 1 s "host" "test" 0.
Definition wall : Wall.WallChannel := Wall.mkWall "/usr/bin/wall" SeverityId.High 10.
Definition chain : NotifierChain := chain_new ["ntfy"; "wall"; "write"].
Definition answer (i : nat) : result unit NotifierError :=
  if bool_decide (i = 1) then (Wall.notify wall (event SeverityId.Medium) TimedOut).2 else Err (Http "down").
Definition oracle : OracleTriage.OracleTriageChannel :=
  OracleTriage.mkOracle "http://127.0.0.1:8080" "auto" 30 None OracleTriage.filter_default OutputTarget.OperatorDashboard "" 2 [].
End ChannelDemo.

Section demo.
Import Demo ChannelDemo.

Lemma quiet_channel_ends_chain_witness :
  exists called, chain_notify chain (event SeverityId.Medium) answer = (Ok tt, called ++ ["wall"]) /\ called ⊆ ["ntfy"].
Proof.
  apply (quiet_channel_ends_chain (event SeverityId.Medium) [("ntfy", subscription_default)] [("write", subscription_default)]
    "wall" subscription_default answer).
  - reflexivity.
  - apply (quiet_wall _ wall TimedOut); [done|reflexivity].
  - intros [|k] Hk; [reflexivity|simpl in Hk; lia].
Defined.

Lemma oracle_rate_limit_exact_witness :
  RateLimit.grants oracle [0; 1; 2; 3600000000002]%Z = [0; 1; 3600000000002]%Z /\
  forall t, (RateLimit.count_hour t (RateLimit.grants oracle [0; 1; 2; 3600000000002]) <= 2)%Z.
Proof.
  split; [reflexivity|].
  apply (oracle_rate_limit_exact oracle 0 [0; 1; 2; 3600000000002]%Z); [reflexivity|vm_compute; done| |done].
  repeat constructor; lia.
Defined.

(** A 1501-byte text whose 1500th byte is the middle of a character. *)
Definition hostile_text : string := letters 1499 +:+ "é".

Example twilio_panics :
  Twilio.fan_out (Twilio.mkTwilio Twilio.DEFAULT_TWILIO_API_BASE "AC1" "token" "+1" ["+2"] 10) hostile_text
    (fun _ => Answered 201 (Ok "")) = None.
Proof. vm_compute. reflexivity. Qed.

(** After a restart the counter starts again: the first lines of two runs point at
    the same line of the audit file. *)
Example summary_pointer_restarts :
  let line (now : Z) :=
    SharedAudit.lg_shared (SharedAudit.notify (SharedAudit.with_paths_and_jsonl_twin "/s.log" "/a.jsonl" None)
      (event SeverityId.High) (SharedAudit.mkSummaryEnv now 0 Appended Appended) (SharedAudit.mkLogs "" "")).2 in
  line 1%Z = "1 selfdef WARN uuid-7 C2004.1 see /a.jsonl:1" +:+ newline /\
  line 2%Z = "2 selfdef WARN uuid-7 C2004.1 see /a.jsonl:1" +:+ newline.
Proof. vm_compute. done. Qed.
End demo.

(** ** Loki *)

Lemma replace_chars_bytes (p : rchar -> bool) to (Q : ascii -> bool) s :
  all_bytes Q to = true -> Forall (fun c => p c = false -> all_bytes Q c = true) (chars s) ->
  all_bytes Q (replace_chars p to s) = true.
Proof.
  intros Hto Hc. unfold replace_chars. induction Hc as [|c l Hc _ IH]; [done|].
  cbn [fmap list_fmap str_concat]. rewrite all_bytes_app. apply andb_true_iff. split; [|apply IH].
  destruct (p c) eqn:Hp; [done|by apply Hc].
Qed.

Definition not_break (a : ascii) : bool := negb (bool_decide (a = "010"%char)) && negb (bool_decide (a = "013"%char)).

Lemma non_ascii_not_break a : non_ascii a = true -> not_break a = true.
Proof.
  unfold non_ascii, is_ascii, not_break. intros Ha. apply andb_true_iff. split; apply negb_true_iff, bool_decide_eq_false;
  intros ->; by vm_compute in Ha.
Qed.

(** A Loki entry is one line, whatever the title and the body are. *)
Lemma loki_line_single title body : utf8_valid title = true -> utf8_valid body = true ->
  all_bytes not_break (Loki.render_line title body) = true.
Proof.
  intros Ht Hb. unfold Loki.render_line.
  assert (Hv : utf8_valid (if bool_decide (body = "") then title else title +:+ " · " +:+ body) = true).
  { case_bool_decide; [done|]. revert title Ht. apply utf8_ind; [|intros c r _ Hc IH; by rewrite str_app_assoc, (proj2 (Hc _))].
    unfold utf8_valid. exact Hb. }
  apply replace_chars_bytes; [reflexivity|]. eapply Forall_impl; [exact (chars_proper _ Hv)|].
  intros c Hp. unfold Loki.is_line_break. intros [H1 H2]%orb_false_iff.
  apply bool_decide_eq_false in H1, H2. destruct c as [|a [|b s]]; [done| |].
  - simpl. rewrite andb_true_r. apply andb_true_iff.
    split; apply negb_true_iff, bool_decide_eq_false; intros ->; [by apply H1|by apply H2].
  - eapply all_bytes_impl; [apply non_ascii_not_break|done].
Qed.
