(* ===== verification/Daemon.v ===== *)
(** * The daemon: from a configuration to running parts

    Models crates/selfdef-daemon/src/main.rs: the pre-flight checks, the typed parts
    that the string-shaped configuration becomes (API transports, responder, notifier
    path with its channels, subscriptions, mode and profile, correlator, NATS bridge,
    collectors), and the signal loop. The parts themselves are the components modelled
    elsewhere; what the host answers (files, environment, hardware probe, opening of
    the escalation database) is an input. *)

From S2P Require Import Prelude Core NetText Signing Sigma RuleStore Bus Correlator Responder Federation.
From S2P Require Import Notify Escalation Dispatcher Auditd Api Config Channels.
From stdpp Require Import options.

(** ** Words *)

Definition parse_severity_floor (s : string) : option SeverityId.t :=
  let s := to_ascii_lowercase s in
  if bool_decide (s ∈ ["info"; "informational"]) then Some SeverityId.Informational
  else if bool_decide (s = "low") then Some SeverityId.Low
  else if bool_decide (s ∈ ["medium"; "med"]) then Some SeverityId.Medium
  else if bool_decide (s = "high") then Some SeverityId.High
  else if bool_decide (s ∈ ["critical"; "crit"]) then Some SeverityId.Critical
  else if bool_decide (s = "fatal") then Some SeverityId.Fatal
  else None.

(** The words of the triage filter are not the same. *)
Definition parse_severity_token (s : string) : option SeverityId.t :=
  let s := to_ascii_lowercase s in
  if bool_decide (s ∈ ["informational"; "info"]) then Some SeverityId.Informational
  else if bool_decide (s = "low") then Some SeverityId.Low
  else if bool_decide (s ∈ ["medium"; "warn"]) then Some SeverityId.Medium
  else if bool_decide (s = "high") then Some SeverityId.High
  else if bool_decide (s ∈ ["critical"; "error"]) then Some SeverityId.Critical
  else if bool_decide (s = "fatal") then Some SeverityId.Fatal
  else None.

Definition parse_dispatcher_mode (raw : string) : Mode.t := default Mode.Enforce (mode_from_str_ci raw).

Definition resolve_log_level (cli_level : option string) (config_level : string) : option string :=
  let nonempty s := let s := trim s in if bool_decide (s = "") then None else Some s in
  match cli_level ≫= nonempty with Some s => Some s | None => nonempty config_level end.

(** ** Pre-flight *)

Definition opposite (target : DeploymentTarget.t) : DeploymentTarget.t :=
  match target with
  | DeploymentTarget.Generic => DeploymentTarget.Sain01
  | DeploymentTarget.Sain01 => DeploymentTarget.Generic
  end.

(** The state files found at the other target's location; [fs p] tells whether [p] exists. *)
Definition fork_conflicts (fs : string -> bool) (target : DeploymentTarget.t) : list string :=
  let other := opposite target in
  if negb (fs (state_dir other)) then []
  else filter (fun p => fs p = true) [audit_log_path other; escalations_path other].

Definition check_q13c_state_fork (fs : string -> bool) (target : DeploymentTarget.t) : result unit string :=
  match fork_conflicts fs target with
  | [] => Ok tt
  | conflicts =>
      Err ("SDD-013 Q13-C state-fork hazard detected:" +:+ newline
        +:+ "configured target = " +:+ target_as_str target +:+ ", but selfdef state exists at the "
        +:+ target_as_str (opposite target) +:+ " location (" +:+ join ", " conflicts +:+ ")." +:+ newline
        +:+ "Migrate or remove the conflicting state file(s) before starting the daemon — silent state-fork can lose events."
        +:+ newline +:+ "For migration guidance see docs/sdd/013-deployment-target-config.md § Q13-C.")
  end.

(** The strict gate on the hardware verdict: [None] is a probe that failed, [Some full]
    whether the verdict is a full match. *)
Definition strict_gate (d : DeploymentConfig) (probe : option bool) : bool :=
  match probe with
  | Some full => negb (bool_decide (cdep_target d = DeploymentTarget.Sain01) && cdep_sain01_strict d && negb full)
  | None => true
  end.

(** ** The API *)

Definition unless_blank (s : string) : option string := if blank s then None else Some s.

Definition build_api_config (cfg : Config.ApiConfig) : Api.ApiConfig :=
  {| ac_enabled := ca_enabled cfg;
     ac_unix_socket := unless_blank (ca_unix_socket cfg);
     ac_tcp_addr := if blank (ca_tcp_addr cfg) then None else parse_socket_addr (ca_tcp_addr cfg);
     ac_token_file := unless_blank (ca_token_file cfg);
     ac_control_token_file := unless_blank (ca_control_token_file cfg);
     ac_unix_socket_mode := default 432%Z (u32_from_octal (trim_zeros (ca_unix_socket_mode cfg)));
     ac_tls :=
       if blank (ctls_cert_path (ca_tls cfg)) || blank (ctls_key_path (ca_tls cfg)) then None
       else Some (mkTlsConfig (ctls_cert_path (ca_tls cfg)) (ctls_key_path (ca_tls cfg))
         (unless_blank (ctls_client_ca (ca_tls cfg)))) |}.

(** ** The responder *)

Definition registered_actions : list string :=
  ["notify"; "block_ip"; "snapshot_proc"; "kill_pid"; "lockdown_egress"; "revoke_session"; "forensics_bundle";
   "velociraptor_escalate"].

(** The floor: a word that is not a grade gives none. *)
Definition min_severity_of (raw : string) : option SeverityId.t :=
  let token := to_ascii_lowercase (trim raw) in
  if bool_decide (token ∈ [""; "none"; "unknown"]) then None else parse_severity_floor token.

(** What the metrics report as the floor. *)
Definition floor_repr (raw : string) : Z :=
  match min_severity_of raw with Some s => severity_u32 s | None => 0 end.

Definition build_responder (r : ResponderConfig) : Responder * RespState :=
  let '(base, st) := responder_new registered_actions (cr_allowed_actions r) (cr_dry_run r) in
  ({| rp_actions := rp_actions base;
      rp_allowed_actions := rp_allowed_actions base;
      rp_dry_run := rp_dry_run base;
      rp_min_severity := default (rp_min_severity base) (min_severity_of (cr_min_severity r));
      rp_action_deadline := rp_action_deadline base;
      rp_dedup_window :=
        if (0 <? cr_dedup_window_secs r)%Z then from_secs (cr_dedup_window_secs r) else rp_dedup_window base;
      rp_destructive_cap_per_min :=
        if (0 <? cr_max_destructive_actions_per_min r)%Z then cr_max_destructive_actions_per_min r
        else rp_destructive_cap_per_min base;
      rp_act_on_federated := cr_act_on_federated r |},
   {| rs_recent_fires := rs_recent_fires st; rs_destructive_fire_log := rs_destructive_fire_log st;
      rs_lag_counter := Some 0%Z; rs_suppressed_counter := Some 0%Z; rs_ratecap_tripped_counter := Some 0%Z;
      rs_federated_refused_counter := Some 0%Z |}).

(** ** Subscriptions, mode and profile of the notifier *)

Definition subscription_of (sc : SubscriptionConfig) : Subscription :=
  mkSubscription (csub_severity_floor sc ≫= parse_severity_floor) (csub_event_kinds sc).

Definition build_subscription (channel : string) (n : NotifierConfig) : Subscription :=
  from_option subscription_of subscription_default (assoc channel (cn_subscriptions n)).

Definition build_channel_subscriptions (n : NotifierConfig) : gmap string Subscription :=
  list_to_map ((fun '(channel, sc) => (channel, subscription_of sc)) <$> cn_subscriptions n).

Definition build_rung (r : RungConfig) : Rung :=
  let window := if (0 <? crun_ack_window_secs r)%Z then crun_ack_window_secs r else 300%Z in
  match crun_channels r with [] => rung_new window | channels => mkRung window channels end.

Definition parse_dispatcher_profile (raw : string) (n : NotifierConfig) : Profile :=
  let built_in := default profile_auto (profile_from_name raw) in
  match cn_profiles n !! raw with
  | Some custom_cfg =>
      match profile_custom raw (build_rung <$> cpro_rungs custom_cfg) with Ok p => p | Err _ => built_in end
  | None => built_in
  end.

(** ** Channels *)

(** What the host gives to the constructors: files, the environment, the mail library. *)
Record Host := mkHost { ho_files : Files; ho_env : string -> option string }.

Section daemon.
Context `{MailLib} `{UnicodeTables}.

Inductive BuiltChannel :=
| BNtfy (n : Ntfy.NtfyNotifier)
| BSignal (s : SignalCli.SignalCliNotifier)
| BSmtp (s : Smtp.SmtpNotifier)
| BDiscord (d : Discord.DiscordNotifier)
| BPagerDuty (p : PagerDuty.PagerDutyNotifier)
| BLoki (l : Loki.LokiNotifier)
| BOpenSearch (o : OpenSearch.OpenSearchNotifier)
| BTheHive (t : TheHive.TheHiveNotifier)
| BSlack (s : Slack.SlackNotifier)
| BTwilio (t : Twilio.TwilioNotifier)
| BWall (w : Wall.WallChannel)
| BWrite (w : WriteTty.WriteChannel)
| BSummary (s : SharedAudit.SharedAuditSummaryChannel)
| BOracle (o : OracleTriage.OracleTriageChannel).

(** [name()] of each. *)
Definition channel_name (b : BuiltChannel) : string :=
  match b with
  | BNtfy _ => "ntfy" | BSignal _ => "signal" | BSmtp _ => "smtp" | BDiscord _ => "discord"
  | BPagerDuty _ => "pagerduty" | BLoki _ => "loki" | BOpenSearch _ => "opensearch" | BTheHive _ => "thehive"
  | BSlack _ => "slack" | BTwilio _ => "twilio" | BWall _ => "wall" | BWrite _ => "write"
  | BSummary _ => "shared-audit-summary" | BOracle _ => "oracle-triage"
  end.

Definition ok {A E} (r : result A E) : option A := match r with Ok a => Some a | Err _ => None end.

Definition tls_of (s : string) : TlsProfile.t :=
  if bool_decide (s = "implicit_tls") then TlsProfile.ImplicitTls
  else if bool_decide (s = "plain") then TlsProfile.Plain
  else TlsProfile.StartTls.

Definition floor_of (s : string) : option string := if bool_decide (s = "") then None else Some s.

Definition build_oracle_triage_channel (h : Host) (c : OracleTriageConfig) :
    result OracleTriage.OracleTriageChannel OracleTriage.OracleTriageBuildError :=
  let output_target :=
    if bool_decide (cor_output_target c = "shared-audit-summary") then OutputTarget.SharedAuditSummary
    else if bool_decide (cor_output_target c = "both") then OutputTarget.Both
    else OutputTarget.OperatorDashboard in
  OracleTriage.from_config (ho_files h) (ho_env h) (cor_endpoint c) (cor_model c) (cor_timeout_seconds c)
    (cor_api_key_env c)
    (OracleTriage.mkFilter (default SeverityId.Medium (parse_severity_token (cof_min_severity (cor_filter c))))
      (cof_kinds (cor_filter c)))
    output_target (cor_system_prompt_path c) (cor_max_events_per_hour c).

(** One turn of the loop over [[notifier].channels], the same in
    [build_notifier_chain] and [build_channel_set]; [None] is a channel left out with
    a warning. *)
Definition build_channel (h : Host) (cfg : Config) (channel : string) : option BuiltChannel :=
  let n := cfg_notifier cfg in
  let files := ho_files h in
  let named s := bool_decide (channel = s) in
  let given s := negb (bool_decide (s = "")) in
  if named "ntfy" && given (cntfy_url (cn_ntfy n)) && given (cntfy_topic (cn_ntfy n)) then
    Some (BNtfy (Ntfy.from_config files (cntfy_url (cn_ntfy n)) (cntfy_topic (cn_ntfy n)) (cntfy_token_file (cn_ntfy n))))
  else if named "signal" && given (csig_account (cn_signal n)) && given (csig_recipient (cn_signal n)) then
    Some (BSignal (SignalCli.new (csig_binary (cn_signal n)) (csig_account (cn_signal n)) (csig_recipient (cn_signal n))))
  else if named "smtp" && given (csmtp_relay_host (cn_smtp n)) && negb (bool_decide (csmtp_to (cn_smtp n) = [])) then
    let s := cn_smtp n in
    BSmtp <$> ok (Smtp.from_config files (csmtp_relay_host s) (csmtp_relay_port s) (tls_of (csmtp_tls s))
      (csmtp_username s) (csmtp_password_file s) (csmtp_from s) (csmtp_to s) (csmtp_timeout_secs s))
  else if named "discord" then
    url_path ← cdis_webhook_url_file (cn_discord n);
    BDiscord <$> ok (Discord.from_config files url_path (cdis_username (cn_discord n)))
  else if named "pagerduty" then
    key_path ← cpd_routing_key_file (cn_pagerduty n);
    BPagerDuty <$> ok (PagerDuty.from_config files key_path (cpd_endpoint (cn_pagerduty n)) (cpd_source (cn_pagerduty n)))
  else if named "loki" && given (clok_endpoint (cn_loki n)) then
    BLoki <$> ok (Loki.from_config files (clok_endpoint (cn_loki n)) (clok_tenant_id (cn_loki n))
      (clok_auth_token_file (cn_loki n)) (clok_source (cn_loki n)))
  else if named "opensearch" && given (cos_endpoint (cn_opensearch n)) then
    let o := cn_opensearch n in
    BOpenSearch <$> ok (OpenSearch.from_config files (cos_endpoint o) (cos_index o) (cos_auth_kind o) (cos_username o)
      (cos_auth_token_file o) (cos_source o))
  else if named "thehive" && given (cth_endpoint (cn_thehive n)) then
    key_path ← cth_api_key_file (cn_thehive n);
    BTheHive <$> ok (TheHive.from_config files (cth_endpoint (cn_thehive n)) key_path (cth_source (cn_thehive n))
      (cth_alert_type (cn_thehive n)))
  else if named "slack" then
    url_path ← cslk_webhook_url_file (cn_slack n);
    BSlack <$> ok (Slack.from_config files url_path (cslk_username (cn_slack n)) (cslk_icon_emoji (cn_slack n)))
  else if named "twilio" && given (ctw_account_sid (cn_twilio n)) && negb (bool_decide (ctw_to (cn_twilio n) = [])) then
    token_path ← ctw_auth_token_file (cn_twilio n);
    BTwilio <$> ok (Twilio.from_config files (ctw_account_sid (cn_twilio n)) token_path (ctw_from (cn_twilio n))
      (ctw_to (cn_twilio n)) (ctw_timeout_secs (cn_twilio n)))
  else if named "wall" && given (cwall_binary (cn_wall n)) then
    BWall <$> ok (Wall.from_config (cwall_binary (cn_wall n)) (floor_of (cwall_severity_floor (cn_wall n))))
  else if named "write" && given (cwri_binary (cn_write n)) && negb (bool_decide (cwri_users (cn_write n) = [])) then
    BWrite <$> ok (WriteTty.from_config (cwri_binary (cn_write n)) (floor_of (cwri_severity_floor (cn_write n)))
      (cwri_users (cn_write n)))
  else if named "shared-audit-summary" && resolve_shared_audit_summary_enabled cfg then
    path ← resolve_shared_audit_summary_path cfg;
    Some (BSummary (SharedAudit.with_paths_and_jsonl_twin path (resolve_shared_audit_summary_pointer cfg)
      (resolve_shared_audit_summary_jsonl_twin cfg)))
  else if named "oracle-triage" && cor_enabled (cn_oracle_triage n) then
    BOracle <$> ok (build_oracle_triage_channel h (cn_oracle_triage n))
  else None.

Definition build_channel_set (h : Host) (cfg : Config) : list BuiltChannel :=
  omap (build_channel h cfg) (cn_channels (cfg_notifier cfg)).

Definition build_notifier_chain (h : Host) (cfg : Config) : list (BuiltChannel * Subscription) :=
  omap (fun channel => b ← build_channel h cfg channel; Some (b, build_subscription channel (cfg_notifier cfg)))
    (cn_channels (cfg_notifier cfg)).

(** ** The notifier path *)

Inductive NotifierPath :=
| LegacyChain (inner : list (BuiltChannel * Subscription))
| EngineBacked (channels : list BuiltChannel) (adapter : DispatcherAdapter).

Definition build_dispatcher (cfg : Config) (channels : list BuiltChannel) : PayloadDispatcher :=
  let n := cfg_notifier cfg in
  mkDispatcher (channel_name <$> channels) (parse_dispatcher_mode (cn_mode n)) (parse_dispatcher_profile (cn_profile n) n)
    (cn_panic_floor n ≫= parse_severity_floor) (build_channel_subscriptions n).

(** [opened] is the outcome of opening the database, asked only when a path is set. *)
Definition build_notifier_path (h : Host) (cfg : Config) (opened : result unit string) : NotifierPath :=
  match cn_escalations_path (cfg_notifier cfg) with
  | None => LegacyChain (build_notifier_chain h cfg)
  | Some _ =>
      match opened with
      | Ok _ =>
          let channels := build_channel_set h cfg in
          EngineBacked channels
            (with_ack_link_base (cn_ack_link_base (cfg_notifier cfg)) (mkAdapter (build_dispatcher cfg channels) None))
      | Err _ => LegacyChain (build_notifier_chain h cfg)
      end
  end.
End daemon.

(** ** The correlator, the bridge and the collectors *)

Inductive StartError :=
| LoadFailed (e : ConfigError)
| StateFork (e : string)
| StrictHardware
| KeyUnset
| KeyLoad (e : SigningError).

(** An absolute path by its components. *)
Definition components (s : string) : path := filter (fun c => c <> "") (split "/" s).

Section correlator.
Context `{RuleLibs} `{UnicodeTables} `{WireFormat} `{Minisign} `{RuleYaml}.

(** [None] when the correlator is disabled. A rule load that fails leaves the
    correlator running with no rules. *)
Definition start_correlator (fs : LiveFs) (cfg : Config) (host_tag : string) :
    result (option Correlator) StartError :=
  if negb (ccor_enabled (cfg_correlator cfg)) then Ok None
  else
    let corr := with_lag_counter 0 (correlator_new host_tag (components (ccor_rules_dir (cfg_correlator cfg)))) in
    let? corr :=
      (if csec_require_signed_rules (cfg_security cfg) then
         match csec_signing_public_key_file (cfg_security cfg) with
         | None => Err KeyUnset
         | Some key_path =>
             match verifier_load fs (components key_path) with
             | Err e => Err (KeyLoad e)
             | Ok v => Ok (with_verifier v corr)
             end
         end
       else Ok corr) in
    Ok (Some (load_rules fs corr).2).
End correlator.

(** ** The bridge *)

Definition nats_config (n : NatsBridgeConfig) : NatsConfig :=
  let js := cnats_jetstream n in
  mkNatsConfig (cnats_url n) (cnats_subject_prefix n)
    (mkJetStreamConfig (cjs_enabled js) (cjs_stream_name js) (cjs_durable_consumer_prefix js) (cjs_max_age_secs js)
      (cjs_max_bytes js) (cjs_max_msgs js)).

Definition nats_wanted (n : NatsBridgeConfig) : bool := cnats_enabled n && negb (blank (cnats_url n)).

(** ** The collectors *)

Inductive InputMode :=
| JournaldFile (path : string) (read_from : ReadFrom.t)
| Journalctl (binary : string) (units : list string).

Definition journald_mode (j : JournaldConfig) : InputMode :=
  if bool_decide (cjd_mode j = "file")
  then JournaldFile (default "/var/log/journal.jsonl" (cjd_input_path j)) (read_from_parse (cjd_read_from j))
  else Journalctl (cjd_journalctl_path j) (cjd_units j).

(** A collector task with what it is built from; every one publishes to the bus, and
    all but eventstream are given the host tag. *)
Inductive CollectorTask :=
| AuditdTask (path : string) (read_from : ReadFrom.t)
| JournaldTask (mode : InputMode)
| TetragonTask (path : string) (read_from : ReadFrom.t)
| SuricataTask (path : string) (read_from : ReadFrom.t)
| CanaryTask (paths : list string)
| EventstreamTask (path : string) (read_from : ReadFrom.t) (integrity : bool) (allowed_owners : list Z)
| EbpfTask (program : string) (execve lsm_file_open kprobe_unlinkat : bool).

(** The collectors that are started, in order; eventstream has one per path. *)
Definition collector_handles (c : CollectorsConfig) : list CollectorTask :=
  let a := ccol_auditd c in let j := ccol_journald c in let t := ccol_tetragon c in let s := ccol_suricata c in
  let k := ccol_canary c in let e := ccol_eventstream c in let b := ccol_ebpf c in
  (if caud_enabled a then [AuditdTask (caud_input_path a) (read_from_parse (caud_read_from a))] else [])
  ++ (if cjd_enabled j then [JournaldTask (journald_mode j)] else [])
  ++ (if ctet_enabled t then [TetragonTask (ctet_input_path t) (read_from_parse (ctet_read_from t))] else [])
  ++ (if csur_enabled s then [SuricataTask (csur_input_path s) (read_from_parse (csur_read_from s))] else [])
  ++ (if ccan_enabled k then [CanaryTask (ccan_paths k)] else [])
  ++ (if cevs_enabled e
      then (fun path => EventstreamTask path (read_from_parse (cevs_read_from e)) (cevs_integrity_check e)
                          (cevs_allowed_owners e)) <$> cevs_paths e
      else [])
  ++ (if cebpf_enabled b
      then [EbpfTask (cebpf_program_path b) (cebpf_enable_execve b) (cebpf_enable_lsm_open b)
              (cebpf_enable_kprobe_unlink b)]
      else []).

(** ** Start and signals *)

Section start.
Context `{MailLib} `{RuleLibs} `{UnicodeTables} `{WireFormat} `{Minisign} `{RuleYaml}.

(** The parts of a daemon that has started. *)
Record Running := mkRunning {
  rn_config : Config;
  rn_host_tag : string;
  rn_correlator : option Correlator;
  rn_responder : Responder;
  rn_notifier : NotifierPath;
  rn_api : option Api.ApiConfig;
  rn_collectors : list CollectorTask;
}.

(** What the host answers at start: the parsed configuration, whether a path exists,
    the hardware probe, the file trees, the host tag of the machine, the opening of
    the escalation database. *)
Record Boot := mkBoot {
  bt_parsed : result Config string;
  bt_exists : string -> bool;
  bt_probe : option bool;
  bt_fs : LiveFs;
  bt_host : Host;
  bt_hostname : string;
  bt_engine : result unit string;
}.

Definition daemon_start (b : Boot) : result Running StartError :=
  match load (bt_parsed b) with
  | Err e => Err (LoadFailed e)
  | Ok cfg =>
      let host_tag := default (bt_hostname b) (cdm_host_tag (cfg_daemon cfg)) in
      match check_q13c_state_fork (bt_exists b) (cdep_target (cfg_deployment cfg)) with
      | Err e => Err (StateFork e)
      | Ok _ =>
          if negb (strict_gate (cfg_deployment cfg) (bt_probe b)) then Err StrictHardware
          else
            let? correlator := start_correlator (bt_fs b) cfg host_tag in
            Ok {| rn_config := cfg; rn_host_tag := host_tag; rn_correlator := correlator;
                  rn_responder := (build_responder (cfg_responder cfg)).1;
                  rn_notifier := build_notifier_path (bt_host b) cfg (bt_engine b);
                  rn_api := if ca_enabled (cfg_api cfg) then Some (build_api_config (cfg_api cfg)) else None;
                  rn_collectors := collector_handles (cfg_collectors cfg) |}
      end
  end.

(** A signal that the main loop waits for, with the disk it meets. *)
Inductive Signal :=
| Sigterm
| Sigint
| SigHup (fs : LiveFs)
| SigUsr2 (fs : LiveFs) (tokens : TokenFiles).

(** One turn of [wait_for_shutdown_or_reload]: the new state, and whether it goes on.
    The tokens are reloaded when the API runs, the verifier and the rules when the
    correlator has a verifier; neither depends on the other's outcome. *)
Definition on_signal (api : option Api.ApiConfig) (s : Signal) (st : option Correlator * option LoadedTokens) :
    option Correlator * option LoadedTokens * bool :=
  let '(corr, tokens) := st in
  match s with
  | Sigterm | Sigint => (corr, tokens, false)
  | SigHup fs => ((fun c => (load_rules fs c).2) <$> corr, tokens, true)
  | SigUsr2 fs files =>
      (on_sigusr2 fs <$> corr,
       match api with Some cfg => (reload files cfg tokens).2 | None => tokens end, true)
  end.
End start.
