(* ===== verification/DaemonProps.v ===== *)
(** * Properties of configuration and start

    What [validate] promises, and whether the daemon that starts keeps it: the API
    serves exactly the configured transports, the responder applies exactly the
    configured floor, the escalation profile never runs out of rungs, required rule
    signatures hold from the first rule on; and where a validated floor is lost. *)

From S2P Require Import Prelude Core NetText Signing Sigma RuleStore Bus Correlator Responder Federation.
From S2P Require Import Notify Escalation Dispatcher Api ApiProps Transport Config Channels Daemon SigmaEngine.
From stdpp Require Import options.

(** ** Validation *)

Section validation.
Context `{UnicodeTables}.

Lemma result_bind_unit {E} (r1 r2 : result unit E) : (let? _ := r1 in r2) = Ok tt <-> r1 = Ok tt /\ r2 = Ok tt.
Proof. destruct r1 as [[]|]; simpl; naive_solver. Qed.

(** Every check of a configuration that loads has passed. *)
Lemma validate_checks c : validate c = Ok tt ->
  check_signing (cfg_security c) = Ok tt /\ check_api (cfg_api c) = Ok tt /\ check_bus (cfg_bus c) = Ok tt /\
  check_min_severity (cfg_responder c) = Ok tt /\ check_panic_floor (cfg_notifier c) = Ok tt /\
  check_channel_floors (cfg_notifier c) = Ok tt.
Proof. unfold validate. rewrite !result_bind_unit. tauto. Qed.
End validation.

(** ** The API *)

Section api.
Context `{UnicodeTables}.

Lemma check_api_inv a : ca_enabled a = true -> check_api a = Ok tt ->
  (blank (ca_unix_socket a) && blank (ca_tcp_addr a) = false) /\
  (blank (ca_tcp_addr a) = false -> blank (ca_token_file a) = false /\ is_Some (parse_socket_addr (ca_tcp_addr a)) /\
     check_tls true (ca_tls a) = Ok tt) /\
  (blank (ca_unix_socket a) = false -> is_Some (u32_from_octal (trim_zeros (ca_unix_socket_mode a)))).
Proof.
  intros He. unfold check_api. rewrite He. cbn [negb].
  destruct (blank (ca_unix_socket a)), (blank (ca_tcp_addr a)); cbn [negb andb]; try done.
  - destruct (blank (ca_token_file a)); [done|]. case_bool_decide as Hp; [done|]. intros Ht.
    split; [done|]. split; [|done]. intros _. split; [done|]. split; [|done]. by destruct (parse_socket_addr _).
  - case_bool_decide as Hp; [done|]. intros Ht. split; [done|]. split; [done|]. intros _. by destruct (u32_from_octal _).
  - destruct (blank (ca_token_file a)); [done|]. case_bool_decide as Hp; [done|]. case_bool_decide as Hm; [done|].
    intros Ht. split; [done|]. split; [intros _; split; [done|]; split; [|done]; by destruct (parse_socket_addr _)|].
    intros _. by destruct (u32_from_octal _).
Qed.

Lemma check_tls_inv t : check_tls true t = Ok tt ->
  blank (ctls_cert_path t) = blank (ctls_key_path t) /\
  (blank (ctls_client_ca t) = false -> blank (ctls_cert_path t) = false).
Proof.
  unfold check_tls. cbn [negb]. case_bool_decide as He; [|done]. cbn [negb].
  destruct (blank (ctls_cert_path t)), (blank (ctls_key_path t)), (blank (ctls_client_ca t)); naive_solver.
Qed.

Lemma read_token_err files path e : read_token files path = Err e -> e <> NoTransport /\ e <> MissingToken.
Proof. unfold read_token. repeat case_match; naive_solver. Qed.

(** The tokens of a configuration that names a token file. *)
Lemma named_tokens a files : blank (ca_token_file a) = false ->
  match load_tokens files (build_api_config a) with
  | Ok t => private_token files (ca_token_file a) (lt_read t) /\
      (if blank (ca_control_token_file a) then lt_control t = None
       else exists c, lt_control t = Some c /\ private_token files (ca_control_token_file a) c)
  | Err e => exists path, path ∈ [ca_token_file a; ca_control_token_file a] /\ read_token files path = Err e
  end.
Proof.
  intros Hb. unfold load_tokens. simpl. unfold unless_blank. rewrite Hb.
  destruct (read_token files (ca_token_file a)) as [r|e] eqn:Hr; simpl; [|exists (ca_token_file a); set_solver].
  apply read_token_ok in Hr. destruct (blank (ca_control_token_file a)); [done|].
  destruct (read_token files (ca_control_token_file a)) as [c|e] eqn:Hc; simpl; [|exists (ca_control_token_file a); set_solver].
  apply read_token_ok in Hc. eauto.
Qed.

Section serving.
Context {Conn : Type} (rustls : Rustls Conn) (host : ServeHost Conn).

(** What the operator wrote about the socket, and what is served there. *)
Definition socket_as_written (a : Config.ApiConfig) (task : option (result (UnixDoor Conn) string)) : Prop :=
  let calls := sh_socket host in
  match task with
  | None => blank (ca_unix_socket a) = true
  | Some (Err e) => blank (ca_unix_socket a) = false /\
      (sk_create_dir_all calls = Some e \/ sk_bind calls = Some e \/
       e = IN_USE /\ is_Some (sh_entries host !! ca_unix_socket a) /\ (is_Some (sk_exists calls) \/ is_Some (sk_remove calls)))
  | Some (Ok door) => blank (ca_unix_socket a) = false /\
      sk_create_dir_all calls = None /\ sk_bind calls = None /\ ud_path door = ca_unix_socket a /\
      ud_served door = accept_loop (sh_unix_accepts host) /\
      exists mode, u32_from_octal (trim_zeros (ca_unix_socket_mode a)) = Some mode /\
        (sk_metadata calls = None -> sk_set_permissions calls = None ->
           ud_entry door = Some (mkEntry (Z.land mode 4095) true)) /\
        (is_Some (sk_metadata calls) \/ is_Some (sk_set_permissions calls) ->
           ud_entry door = Some (mkEntry (Z.land 511 (Z.lnot (sk_umask calls))) true))
  end.

(** The same for the TCP listener. *)
Definition tcp_as_written (a : Config.ApiConfig) (task : option (result (TcpDoor Conn) ServerError)) : Prop :=
  let t := ca_tls a in
  match task with
  | None => blank (ca_tcp_addr a) = true
  | Some (Err e) => blank (ca_tcp_addr a) = false /\
      ((exists io, sh_tcp_bind host = Err io /\ e = ServerIo io) \/
       blank (ctls_cert_path t) = false /\ blank (ctls_key_path t) = false /\
       build_tls_acceptor rustls (mkTlsConfig (ctls_cert_path t) (ctls_key_path t) (unless_blank (ctls_client_ca t))) = Err e)
  | Some (Ok door) => blank (ca_tcp_addr a) = false /\ sh_tcp_bind host = Ok tt /\
      parse_socket_addr (ca_tcp_addr a) = Some (td_addr door) /\
      match td_tls door with
      | None => blank (ctls_cert_path t) = true /\ blank (ctls_key_path t) = true /\ blank (ctls_client_ca t) = true /\
          td_served door = accept_loop (sh_tcp_accepts host)
      | Some sc => holds_certs rustls (ctls_cert_path t) (sc_certs sc) /\
          rl_from_pem_file rustls (ctls_key_path t) = Ok (sc_key sc) /\
          (if blank (ctls_client_ca t) then sc_client_roots sc = None
           else exists roots, sc_client_roots sc = Some roots /\ holds_certs rustls (ctls_client_ca t) roots) /\
          td_served door = filter (fun c => is_ok (rl_accept rustls sc c) = true) (accept_loop (sh_tcp_accepts host))
      end
  end.

Lemma socket_served a : (blank (ca_unix_socket a) = false -> is_Some (u32_from_octal (trim_zeros (ca_unix_socket_mode a)))) ->
  socket_as_written a
    ((fun path => (serve_unix (sh_socket host) (sh_unix_accepts host) path (ac_unix_socket_mode (build_api_config a))
       (sh_entries host)).1) <$> ac_unix_socket (build_api_config a)).
Proof.
  intros Hm. simpl. unfold unless_blank. destruct (blank (ca_unix_socket a)) eqn:Hb; [done|].
  destruct (Hm eq_refl) as [m Em]. rewrite Em. simpl.
  destruct (serve_unix _ _ _ _ _).1 as [door|e] eqn:Es; simpl; (split; [done|]).
  - apply serve_unix_ok in Es as (Hd & Hb' & Hp & Ha & He). do 4 (split; [done|]). exists m. split; [done|].
    rewrite He. split; [by intros -> ->|]. destruct (sk_metadata (sh_socket host)), (sk_set_permissions (sh_socket host));
      try done. by intros [[]|[]].
  - revert Es. unfold serve_unix, unix_bind, remove_stale. destruct (sk_create_dir_all (sh_socket host)); [naive_solver|].
    destruct (sk_bind (sh_socket host)); [naive_solver|].
    destruct (sk_exists (sh_socket host)), (sk_remove (sh_socket host)); simpl; rewrite ?lookup_delete_eq; try done;
      destruct (sh_entries host !! ca_unix_socket a) eqn:Ef; simpl; try done; intros [= <-]; right; right; by eauto 6.
Qed.

Lemma tcp_served a : (blank (ca_tcp_addr a) = false -> is_Some (parse_socket_addr (ca_tcp_addr a)) /\ check_tls true (ca_tls a) = Ok tt) ->
  tcp_as_written a
    ((fun addr => serve_tcp rustls (sh_tcp_bind host) (sh_tcp_accepts host) addr (ac_tls (build_api_config a)))
       <$> ac_tcp_addr (build_api_config a)).
Proof.
  intros Ht. simpl. destruct (blank (ca_tcp_addr a)) eqn:Hb; [done|].
  destruct (Ht eq_refl) as ([addr Ea] & [Hck Hca]%check_tls_inv). rewrite Ea. simpl. unfold serve_tcp.
  destruct (sh_tcp_bind host) as [[]|io] eqn:Hbind; [|split; [done|]; left; eauto].
  rewrite <- Hck. destruct (blank (ctls_cert_path (ca_tls a))) eqn:Hc; simpl.
  - do 5 (split; [done|]). split; [|done].
    destruct (blank (ctls_client_ca (ca_tls a))); [done|]. by specialize (Hca eq_refl).
  - destruct (build_tls_acceptor rustls _) as [[sc mtls]|e] eqn:Eb; simpl; [|split; [done|]; right; auto].
    apply build_tls_acceptor_ok in Eb as (Hcert & Hkey & Hroots). simpl in *.
    do 5 (split; [done|]). split.
    + unfold unless_blank in Hroots. by destruct (blank (ctls_client_ca (ca_tls a))).
    + done.
Qed.

(** C34: A validated API configuration is served as it is written, whatever the host
    answers. The server gives up, serving nothing on either transport, only over a
    token file of a configured TCP listener. Otherwise the socket is served at the
    written path exactly when one is written and its directory and name can be had;
    its mode is the octal mode that was written (its twelve permission bits, never
    the fallback), except that a failed stat or chmod is not fatal and leaves the
    mode the umask gave. TCP is served at the written address only with a private
    read token loaded, and in plaintext only when no TLS file is named; with TLS it
    presents the written certificate and key, serves only connections whose
    handshake succeeds under that configuration, and verifies clients against the
    named CA file exactly when one is named; a TLS file that does not load serves
    nothing. *)
Theorem validated_api_is_served (c : Config) (tokens : option LoadedTokens) :
  validate c = Ok tt -> ca_enabled (cfg_api c) = true ->
  let a := cfg_api c in
  let r := server_run rustls host (build_api_config a) tokens in
  match r.1 with
  | Err e => blank (ca_tcp_addr a) = false /\ exists path, path ∈ [ca_token_file a; ca_control_token_file a] /\
      read_token (sh_token_files host) path = Err e
  | Ok served => socket_as_written a (sv_unix served) /\ tcp_as_written a (sv_tcp served) /\
      (is_Some (sv_unix served) \/ is_Some (sv_tcp served)) /\
      (is_Some (sv_tcp served) -> exists t, r.2 = Some t /\
         private_token (sh_token_files host) (ca_token_file a) (lt_read t) /\
         (if blank (ca_control_token_file a) then lt_control t = None
          else exists k, lt_control t = Some k /\ private_token (sh_token_files host) (ca_control_token_file a) k))
  end.
Proof.
  intros (_ & Ha & _)%validate_checks He. cbv zeta. destruct (check_api_inv _ He Ha) as (Hsome & Htcp & Hunix).
  pose proof (socket_served (cfg_api c) Hunix) as Hs.
  pose proof (tcp_served (cfg_api c) (fun Hb => proj2 (Htcp Hb))) as Ht.
  unfold server_run, server_start. cbn [build_api_config ac_enabled ac_unix_socket ac_tcp_addr] in *. rewrite He. cbn [negb].
  unfold unless_blank in *. destruct (blank (ca_tcp_addr (cfg_api c))) eqn:Hb.
  - rewrite andb_true_r in Hsome. rewrite Hsome in *. rewrite bool_decide_eq_true_2 by eauto. cbn [fst snd sv_unix sv_tcp] in *.
    split; [done|]. split; [done|]. split; [left; eauto|]. by intros [].
  - destruct (Htcp eq_refl) as (Htok & [addr Haddr] & _). rewrite Haddr in *.
    pose proof (named_tokens (cfg_api c) (sh_token_files host) Htok) as Hl.
    destruct (load_tokens (sh_token_files host) (build_api_config (cfg_api c))) as [t|e]; cbn [fst snd sv_unix sv_tcp]; [|by split].
    split; [|split; [done|split; [right; eauto|intros _; exists t; naive_solver]]].
    by destruct (blank (ca_unix_socket (cfg_api c))).
Qed.
End serving.
End api.

(** ** Severity words *)

(** The grades an operator may write, and what they mean. *)
Definition grades : list (string * SeverityId.t) :=
  [("info", SeverityId.Informational); ("informational", SeverityId.Informational); ("low", SeverityId.Low);
   ("medium", SeverityId.Medium); ("med", SeverityId.Medium); ("high", SeverityId.High);
   ("critical", SeverityId.Critical); ("crit", SeverityId.Critical); ("fatal", SeverityId.Fatal)].

Lemma parse_severity_floor_grades s : parse_severity_floor s = assoc (to_ascii_lowercase s) grades.
Proof.
  unfold parse_severity_floor. generalize (to_ascii_lowercase s) as w. intros w. unfold grades. cbn [assoc].
  repeat case_bool_decide; subst; set_solver.
Qed.

Lemma grade_words : VALID_SEVERITY_GRADE ⊆ grades.*1.
Proof. unfold VALID_SEVERITY_GRADE, grades. simpl. set_solver. Qed.

Lemma assoc_is_Some {A} k (l : list (string * A)) : k ∈ l.*1 -> is_Some (assoc k l).
Proof.
  induction l as [|[k' v] l IH]; [set_solver|]. simpl. case_bool_decide; [eauto|]. intros [->|?]%elem_of_cons; [done|auto].
Qed.

Lemma bad_grade_false raw : bad_grade raw = false -> blank raw = false -> is_Some (parse_severity_floor (trim raw)).
Proof.
  unfold bad_grade, blank. intros Hg Hb. rewrite parse_severity_floor_grades. apply assoc_is_Some.
  apply andb_false_iff in Hg as [Hg|Hg]; apply negb_false_iff, bool_decide_eq_true in Hg.
  - exfalso. apply bool_decide_eq_false in Hb. apply Hb. destruct (trim raw); [done|].
    unfold to_ascii_lowercase in Hg. simpl in Hg. done.
  - by apply grade_words.
Qed.

(** A word of letters has no blank around it. *)
Definition letter (a : ascii) : bool := in_range 97 122 (byte (ascii_lower a)).

Lemma letter_plain a : letter a = true -> is_ascii a = true /\ ws_byte a = false.
Proof. destruct a as [[] [] [] [] [] [] [] []]; vm_compute; done. Qed.

Lemma lower_bytes P s : all_bytes P (to_ascii_lowercase s) = all_bytes (fun a => P (ascii_lower a)) s.
Proof. unfold to_ascii_lowercase. induction s as [|a s IH]; [done|]. simpl. by rewrite IH. Qed.

Lemma letters_trimmed s : all_bytes letter s = true -> trim s = s.
Proof.
  intros Hs. apply trim_id.
  - destruct s as [|a s]; [done|]. simpl in Hs. apply andb_true_iff in Hs as [Ha _]. apply letter_plain in Ha as [Ha Hw].
    rewrite chars_cons_ascii by done. by intros c [= <-].
  - destruct (str_snoc_inv s) as [->|(t & b & ->)]; [done|]. rewrite all_bytes_app in Hs.
    apply andb_true_iff in Hs as [Ht Hb]. simpl in Hb. rewrite andb_true_r in Hb. apply letter_plain in Hb as [Hb Hw].
    rewrite chars_app_ascii by (eapply all_bytes_impl; [|exact Ht]; intros ? ?%letter_plain; tauto).
    rewrite (chars_cons_ascii b "") by done. change (chars "") with (@nil string). rewrite last_snoc. by intros c [= <-].
Qed.

Lemma parse_severity_floor_trimmed raw s : parse_severity_floor raw = Some s -> trim raw = raw.
Proof.
  rewrite parse_severity_floor_grades. intros Ha. apply letters_trimmed.
  assert (Hin : to_ascii_lowercase raw ∈ grades.*1).
  { revert Ha. generalize (to_ascii_lowercase raw) as w. clear. intros w. unfold grades. simpl.
    repeat case_bool_decide; subst; set_solver. }
  change letter with (fun a => in_range 97 122 (byte (ascii_lower a))). rewrite <- (lower_bytes (fun a => in_range 97 122 (byte a))).
  revert Hin. generalize (to_ascii_lowercase raw) as w. intros w Hin.
  assert (Hall : Forall (fun w => all_bytes (fun a => in_range 97 122 (byte a)) w = true) grades.*1)
    by (repeat constructor).
  rewrite Forall_forall in Hall. by apply Hall.
Qed.

(** ** The responder's floor *)

Section floor.
Context `{UnicodeTables}.

Lemma min_severity_checked r : check_min_severity r = Ok tt ->
  to_ascii_lowercase (trim (cr_min_severity r)) ∈ [""; "none"; "unknown"] /\ min_severity_of (cr_min_severity r) = None \/
  exists sev, assoc (to_ascii_lowercase (trim (cr_min_severity r))) grades = Some sev /\
    min_severity_of (cr_min_severity r) = Some sev.
Proof.
  unfold check_min_severity, min_severity_of. rewrite parse_severity_floor_grades.
  assert (Hidem : forall s, to_ascii_lowercase (to_ascii_lowercase s) = to_ascii_lowercase s).
  { clear. unfold to_ascii_lowercase. induction s as [|a s IH]; [done|]. simpl. rewrite IH. f_equal.
    destruct a as [[] [] [] [] [] [] [] []]; reflexivity. }
  rewrite Hidem. generalize (to_ascii_lowercase (trim (cr_min_severity r))) as w. intros w.
  case_bool_decide as H1; [intros _; left; split; [set_solver|by rewrite bool_decide_true by set_solver]|].
  case_bool_decide as H2; [|done]. intros _. case_bool_decide as H3; [by left|]. right.
  destruct (assoc_is_Some w grades) as [sev Hs]; [|by eauto].
  apply grade_words. unfold VALID_MIN_SEVERITY in H2. set_solver.
Qed.

(** A validated floor of autonomous response is the one that is applied. If the
    configuration loads, [min_severity] is either one of the words for no floor, and
    then the responder acts on findings of every severity, or a grade, and then the
    responder that the daemon builds has exactly that floor: a finding below it
    triggers no action and changes nothing, whatever the state and the environment. *)
Theorem validated_floor_is_applied (c : Config) :
  validate c = Ok tt ->
  let word := to_ascii_lowercase (trim (cr_min_severity (cfg_responder c))) in
  let responder := (build_responder (cfg_responder c)).1 in
  word ∈ [""; "none"; "unknown"] /\ rp_min_severity responder = SeverityId.Unknown \/
  exists sev, assoc word grades = Some sev /\ rp_min_severity responder = sev /\
    forall event env s, (severity_u32 (ev_severity_id event) < severity_u32 sev)%Z ->
      resp_turn responder (FromBus (Ok event) env) s = ([], s, true).
Proof.
  intros (_ & _ & _ & Hm & _)%validate_checks. simpl.
  destruct (min_severity_checked _ Hm) as [[Hw ->]|(sev & Hw & ->)]; [by left|].
  right. exists sev. split; [done|]. split; [done|]. intros event env s Hlt. unfold resp_turn, severity_lt. simpl.
  case_bool_decide; [|done]. by rewrite (proj2 (Z.ltb_lt _ _)).
Qed.

(** ** Floors of the notifier *)

(** A validated panic floor is lost when it is written with blanks around it.
    [validate] reads the word trimmed, the daemon does not: for a configuration that
    loads and names a floor, the dispatcher's floor is the named grade exactly when
    the word has no surrounding blanks, and otherwise there is none, so that in audit
    mode nothing is sent whatever the severity. *)
Theorem panic_floor_lost_iff_padded `{MailLib} (c : Config) (raw : string) (channels : list BuiltChannel)
    (payload : Payload) (answers : Answers) :
  validate c = Ok tt -> cn_panic_floor (cfg_notifier c) = Some raw -> blank raw = false ->
  let d := build_dispatcher c channels in
  exists sev, assoc (to_ascii_lowercase (trim raw)) grades = Some sev /\
    pd_panic_floor d = (if bool_decide (trim raw = raw) then Some sev else None) /\
    (trim raw <> raw -> parse_dispatcher_mode (cn_mode (cfg_notifier c)) = Mode.Audit ->
       dispatch_payload d payload answers = (Delivered "audit", [])).
Proof.
  intros (_ & _ & _ & _ & Hp & _)%validate_checks Hraw Hb. simpl.
  unfold check_panic_floor in Hp. rewrite Hraw in Hp. destruct (bad_grade raw) eqn:Hg; [done|].
  destruct (bad_grade_false raw Hg Hb) as [sev Hs]. exists sev. rewrite parse_severity_floor_grades in Hs.
  assert (Hf : cn_panic_floor (cfg_notifier c) ≫= parse_severity_floor = if bool_decide (trim raw = raw) then Some sev else None).
  { rewrite Hraw. simpl. case_bool_decide as Ht; [by rewrite parse_severity_floor_grades, <- Ht|].
    destruct (parse_severity_floor raw) as [x|] eqn:Hx; [|done]. by apply parse_severity_floor_trimmed in Hx. }
  split; [done|]. split; [done|]. intros Ht Hm. unfold dispatch_payload, suppressed, crosses_panic_floor. simpl.
  rewrite Hf, Hm. rewrite (bool_decide_false (trim raw = raw)) by done. done.
Qed.
End floor.

(** ** The profile *)

Lemma parse_profile_rungs raw n : pf_rungs (parse_dispatcher_profile raw n) <> [].
Proof.
  assert (Hb : pf_rungs (default profile_auto (profile_from_name raw)) <> []).
  { unfold profile_from_name. by repeat case_bool_decide. }
  unfold parse_dispatcher_profile. destruct (cn_profiles n !! raw) as [cfg|]; [|done].
  unfold profile_custom. case_bool_decide as He; [done|]. done.
Qed.

Lemma parse_profile_windows raw n : Forall (fun r => 0 < rg_ack_window_secs r)%Z (pf_rungs (parse_dispatcher_profile raw n)).
Proof.
  assert (Hb : Forall (fun r => 0 < rg_ack_window_secs r)%Z (pf_rungs (default profile_auto (profile_from_name raw)))).
  { unfold profile_from_name. by repeat case_bool_decide; repeat constructor. }
  unfold parse_dispatcher_profile. destruct (cn_profiles n !! raw) as [cfg|]; [|done].
  unfold profile_custom. case_bool_decide as He; [done|]. simpl. apply Forall_fmap, Forall_true. intros r.
  unfold build_rung, compose. destruct (Z.ltb_spec 0 (crun_ack_window_secs r)); by destruct (crun_channels r).
Qed.

Lemma rung_at_total p index : pf_rungs p <> [] -> exists r, rung_at p index = Some r /\ r ∈ pf_rungs p.
Proof.
  intros Hne. unfold rung_at.
  destruct (lookup_lt_is_Some_2 (pf_rungs p) (Z.to_nat (Z.min index (Z.of_nat (length (pf_rungs p) - 1))))) as [r Hr].
  { destruct (pf_rungs p); [done|]. simpl. lia. }
  exists r. split; [done|]. by eapply list_elem_of_lookup_2.
Qed.

(** No configuration makes the escalation panic. Whatever profile is named, custom
    with any rungs (an empty list and nonpositive windows included), built in or
    unknown, the profile that the daemon builds has a rung for every index, with a
    positive window, and the dispatch of any payload for any rung gives an outcome. *)
Theorem built_profile_total `{MailLib} `{UnicodeTables} (c : Config) (channels : list BuiltChannel) (payload : Payload)
    (index : Z) (answers : Answers) :
  (exists r, rung_at (pd_profile (build_dispatcher c channels)) index = Some r /\ (0 < rg_ack_window_secs r)%Z) /\
  exists o sent, dispatch_payload_for_rung (build_dispatcher c channels) payload index answers = Some (o, sent).
Proof.
  simpl. destruct (rung_at_total _ index (parse_profile_rungs (cn_profile (cfg_notifier c)) (cfg_notifier c)))
    as (r & Hr & Hin).
  pose proof (parse_profile_windows (cn_profile (cfg_notifier c)) (cfg_notifier c)) as Hw. rewrite Forall_forall in Hw.
  split; [by eauto|]. unfold dispatch_payload_for_rung, channels_for. simpl. rewrite Hr. simpl.
  destruct (suppressed _ _); [by eauto|]. destruct (fire_channels_filtered _ _ _ _) as [o sent]. eauto.
Qed.

(** ** Start *)

Section start.
Context `{MailLib} `{RuleLibs} `{UnicodeTables} `{WireFormat} `{Minisign} `{RuleYaml}.

Lemma start_inv b rn : daemon_start b = Ok rn ->
  bt_parsed b = Ok (rn_config rn) /\ validate (rn_config rn) = Ok tt /\
  fork_conflicts (bt_exists b) (cdep_target (cfg_deployment (rn_config rn))) = [] /\
  strict_gate (cfg_deployment (rn_config rn)) (bt_probe b) = true /\
  start_correlator (bt_fs b) (rn_config rn) (rn_host_tag rn) = Ok (rn_correlator rn) /\
  rn_responder rn = (build_responder (cfg_responder (rn_config rn))).1.
Proof.
  unfold daemon_start, load. destruct (bt_parsed b) as [cfg|]; [|done]. simpl.
  destruct (validate cfg) as [[]|] eqn:Hv; [|done]. simpl. unfold check_q13c_state_fork.
  destruct (fork_conflicts _ _) eqn:Hf; [|done]. destruct (strict_gate _ _) eqn:Hs; [|done]. simpl.
  destruct (start_correlator _ _ _) as [corr|] eqn:Hc; [|done]. simpl. intros [= <-]. simpl. auto 7.
Qed.

Lemma start_correlator_signed fs cfg host_tag c :
  start_correlator fs cfg host_tag = Ok (Some c) -> csec_require_signed_rules (cfg_security cfg) = true ->
  exists key_path v0, csec_signing_public_key_file (cfg_security cfg) = Some key_path /\
    verifier_load fs (components key_path) = Ok v0 /\ provenance_inv v0 [fs] c.
Proof.
  unfold start_correlator. destruct (negb _); [done|]. intros Hst Hreq. rewrite Hreq in Hst.
  destruct (csec_signing_public_key_file _) as [key_path|]; [|done].
  destruct (verifier_load fs (components key_path)) as [v0|] eqn:Hl; [|done]. simpl in Hst.
  injection Hst as <-. exists key_path, v0. split; [done|]. split; [done|].
  apply load_rules_provenance; [set_solver|]. split; [constructor|]. exists v0. split; [done|]. split; [done|]. by left.
Qed.

(** C8: A daemon that requires signed rules runs no rule whose file did not pass the
    signature check. If the
    configuration requires signatures and the daemon starts with a correlator, then
    its key file was named and loaded, and from the first rule on, through any
    sequence of events, rule reloads and key rotations, every rule in the engine is
    the compilation of a file whose sidecar verified, after the file was parsed and
    before the rule was taken in, under that key or one read later from the same
    path. The check reads the file again: what it verified is what was compiled
    provided that the file did not change between the two reads, and only then. *)
Theorem started_rules_signed (b : Boot) (rn : Running) (c : Correlator) :
  daemon_start b = Ok rn -> csec_require_signed_rules (cfg_security (rn_config rn)) = true -> rn_correlator rn = Some c ->
  exists key_path v0, csec_signing_public_key_file (cfg_security (rn_config rn)) = Some key_path /\
    verifier_load (bt_fs b) (components key_path) = Ok v0 /\
    forall inputs, Forall (signed_rule v0 (bt_fs b :: snapshots inputs)) (co_engine (run inputs c).1.2).
Proof.
  intros (_ & _ & _ & _ & Hst & _)%start_inv Hreq Hc. rewrite Hc in Hst.
  destruct (start_correlator_signed _ _ _ _ Hst Hreq) as (key_path & v0 & Hk & Hl & Hp).
  exists key_path, v0. split; [done|]. split; [done|]. intros inputs. exact (proj1 (run_provenance v0 inputs [bt_fs b] c Hp)).
Qed.

(** What a daemon may do on its own. Every action that the started responder
    executes for a finding is one of the eight the daemon registers and is named in
    [allowed_actions]; of the seventeen destructive actions the responder knows, only
    four can therefore ever run autonomously, and an allowlist with none of these four
    leaves an autonomous responder that never contains anything. *)
Theorem started_actions_confined (b : Boot) (rn : Running) (event : Event) (env : nat -> Attempt) (s : RespState)
    (name : string) (r : RunResult) :
  daemon_start b = Ok rn -> (name, Executed r) ∈ (handle_finding (rn_responder rn) event true env s).1 ->
  name ∈ registered_actions /\ name ∈ cr_allowed_actions (cfg_responder (rn_config rn)) /\
  (is_destructive_action name = true -> name ∈ ["block_ip"; "kill_pid"; "lockdown_egress"; "revoke_session"]).
Proof.
  intros (_ & _ & _ & _ & _ & Hr)%start_inv Hin. rewrite Hr in Hin. unfold handle_finding in Hin.
  assert (Hgen : forall actions i s, (name, Executed r) ∈ (handle_actions (build_responder (cfg_responder (rn_config rn))).1
    event true actions env i s).1 -> name ∈ actions /\ name ∈ cr_allowed_actions (cfg_responder (rn_config rn))).
  { clear. induction actions as [|a actions IH]; intros i s; simpl; [set_solver|].
    destruct (handle_action _ _ _ _ _ _) as [v s1] eqn:Hv. specialize (IH (S i) s1).
    destruct (handle_actions _ _ _ _ _ _ _) as [vs s2]. simpl. intros [[= <- <-]|Hin]%elem_of_cons.
    - split; [left|]. revert Hv. unfold handle_action. simpl.
      destruct (bool_decide _) eqn:Hb; [|done]. intros _. apply bool_decide_eq_true in Hb. simpl in Hb. set_solver.
    - destruct (IH Hin). split; [by right|done]. }
  apply Hgen in Hin as [Hreg Hall]. split; [done|]. split; [done|]. simpl in Hreg.
  unfold is_destructive_action. intros Hd%bool_decide_eq_true.
  unfold registered_actions in Hreg. unfold destructive_actions in Hd. set_solver.
Qed.
End start.

(** ** Examples *)

Module DaemonDemo.
Import Core.Demo.

#[export] Instance tables : UnicodeTables :=
  {| uc_alphanumeric := fun _ => false; uc_uppercase := fun c => c; uc_debug_plain := fun _ => true |}.
#[export] Instance mail : MailLib :=
  {| Mailbox := string; parse_mailbox := fun s => Ok s; starttls_relay := fun _ => Ok tt; implicit_relay := fun _ => Ok tt |}.
#[export] Instance minisign : Minisign := {|
  PublicKey := string; MinisignSignature := string; key_from_base64 := fun s => Ok s; signature_decode := fun s => Ok s;
  key_verify := fun key bytes sg => bool_decide (sg = bytes +:+ key) |}.
#[export] Instance rule_yaml : RuleYaml := {| raw_rule_from_slice := fun s => Err s |}.

Definition base := config_default.
Definition with_parts (n : NotifierConfig) (r : ResponderConfig) (a : Config.ApiConfig) (s : SecurityConfig) : Config :=
  mkConfig (cfg_daemon base) (cfg_bus base) (cfg_store base) (cfg_collectors base) (cfg_correlator base) n r a s
    (cfg_deployment base) (cfg_hardware_probe base) (cfg_perimeter base) (cfg_grants base).

Definition responder (floor : string) : ResponderConfig :=
  mkResponderConfig false ["notify"; "kill_pid"] floor 0 0 true "/s" "/l" "/r" [] "/f" "/v" [] "/n".
Definition api : Config.ApiConfig :=
  Config.mkApiConfig true "/run/selfdef.sock" "0600" "127.0.0.1:8443" "/etc/selfdef/api.token" ""
    (mkApiTlsConfig "/c.pem" "/k.pem" "/ca.pem") None None.
Definition notifier (floor : string) : NotifierConfig :=
  mkNotifierConfig [] ntfy_default signal_default smtp_default twilio_default slack_default discord_default
    pagerduty_default loki_default opensearch_default thehive_default wall_default write_default
    shared_audit_summary_default oracle_triage_default (Some "/e.sqlite") "audit" "auto" (Some floor) ∅ [] None.
Definition config : Config :=
  with_parts (notifier " high ") (responder " Critical ") api (mkSecurityConfig true (Some "/etc/selfdef/policy.pub")).

(** A host on which everything is there, with the name of the socket taken; the
    connection 3 fails its handshake. *)
Definition rustls : Rustls nat :=
  mkRustls (fun p => Ok [Ok (if bool_decide (p = "/ca.pem") then "ca" else "server")]) (fun _ => Ok "key") (Ok tt)
    (fun _ => Ok tt) (fun _ => Ok tt) (fun _ _ _ => Ok tt) (fun _ c => if bool_decide (c = 3) then Err "alert" else Ok tt).
Definition host : ServeHost nat :=
  mkServeHost (fun _ => mkTokenFile (Ok 384%Z) (Ok "t")) {[ "/run/selfdef.sock" := mkEntry 511 false ]}
    (mkSocketCalls None None None None 18 None None None) [Ok 1; Err "EMFILE"; Ok 2] (Ok tt) [Ok 3; Ok 4].

Definition disk : LiveFs := still {|
  fs_tree := fun p => if bool_decide (p = ["etc"; "selfdef"; "rules"]) then Some (NDir [] None) else None;
  fs_read := fun _ => Ok "KEY"; fs_read_to_string := fun _ => Ok "KEY" |}.
Definition boot : Boot :=
  mkBoot (Ok config) (fun _ => false) None disk (mkHost (fun _ => Err "ENOENT") (fun _ => None)) "web-1" (Ok tt).
Definition fatal : Payload := mkPayload 1 (Some 2%Z) "alert" "body" SeverityId.Fatal None (Some "Detection Finding") None.
Definition finding : Event :=
  event_new {| st_id := 7; st_time := 0; st_logged := 0 |} DETECTION_FINDING 1 SeverityId.Fatal "web-1" "test" 0.
Definition attempt (i : nat) : Attempt :=
  {| at_dedup_now := 0; at_cap_now := 0; at_done := 0; at_result := Some (Ok (mkActionOutcome ActionStatus.Success "done")) |}.
End DaemonDemo.

Section witnesses.
Import Core.Demo DemoLibs DaemonDemo.

Lemma validated_api_is_served_witness :
  exists served, (server_run rustls host (build_api_config (cfg_api config)) None).1 = Ok served /\
    sv_unix served = Some (Ok (mkUnixDoor "/run/selfdef.sock" (Some (mkEntry 384 true)) [1; 2])) /\
    sv_tcp served = Some (Ok (mkTcpDoor (V4 2130706433, 8443%Z) (Some (mkServerConfig ["server"] "key" (Some ["ca"]))) [4])) /\
    socket_as_written host (cfg_api config) (sv_unix served) /\ tcp_as_written rustls host (cfg_api config) (sv_tcp served).
Proof.
  assert (Hv : validate config = Ok tt) by (vm_compute; reflexivity).
  pose proof (validated_api_is_served rustls host config None Hv eq_refl) as Hs. cbv zeta in Hs.
  destruct (server_run rustls host (build_api_config (cfg_api config)) None).1 as [served|e] eqn:Er.
  - exists served. split; [reflexivity|]. destruct Hs as (Hu & Ht & _).
    split_and!; [vm_compute in Er; injection Er as <-; reflexivity..|exact Hu|exact Ht].
  - exfalso. vm_compute in Er. discriminate Er.
Defined.

Lemma validated_floor_is_applied_witness :
  rp_min_severity (build_responder (cfg_responder config)).1 = SeverityId.Critical /\
  let word := to_ascii_lowercase (trim (cr_min_severity (cfg_responder config))) in
  let responder := (build_responder (cfg_responder config)).1 in
  word ∈ [""; "none"; "unknown"] /\ rp_min_severity responder = SeverityId.Unknown \/
  exists sev, assoc word grades = Some sev /\ rp_min_severity responder = sev /\
    forall event env s, (severity_u32 (ev_severity_id event) < severity_u32 sev)%Z ->
      resp_turn responder (FromBus (Ok event) env) s = ([], s, true).
Proof.
  split; [vm_compute; reflexivity|]. apply validated_floor_is_applied. vm_compute. reflexivity.
Defined.

Lemma panic_floor_lost_iff_padded_witness :
  exists sev, assoc "high" grades = Some sev /\ pd_panic_floor (build_dispatcher config []) = None /\
    dispatch_payload (build_dispatcher config []) fatal (fun _ => Ok (mkDeliveryReceipt None)) = (Delivered "audit", []).
Proof.
  destruct (panic_floor_lost_iff_padded config " high " [] fatal (fun _ => Ok (mkDeliveryReceipt None)))
    as (sev & Hs & Hf & Hd); [vm_compute; reflexivity|reflexivity|vm_compute; reflexivity|].
  exists sev. split; [vm_compute in Hs |- *; exact Hs|]. split; [vm_compute; reflexivity|].
  apply Hd; [|vm_compute; reflexivity]. vm_compute. discriminate.
Defined.

Lemma started_rules_signed_witness :
  exists rn c, daemon_start boot = Ok rn /\ rn_correlator rn = Some c /\
    exists key_path v0, csec_signing_public_key_file (cfg_security (rn_config rn)) = Some key_path /\
      verifier_load disk (components key_path) = Ok v0 /\
      forall inputs, Forall (signed_rule v0 (disk :: snapshots inputs)) (co_engine (run inputs c).1.2).
Proof.
  destruct (daemon_start boot) as [rn|e] eqn:Hs; [|vm_compute in Hs; discriminate].
  destruct (rn_correlator rn) as [c|] eqn:Hc.
  - exists rn, c. split; [reflexivity|]. split; [exact Hc|]. apply (started_rules_signed boot rn c Hs); [|exact Hc].
    unfold daemon_start in Hs. vm_compute in Hs. injection Hs as <-. reflexivity.
  - exfalso. vm_compute in Hs. injection Hs as <-. discriminate Hc.
Defined.

Lemma started_actions_confined_witness :
  exists rn, daemon_start boot = Ok rn /\ "kill_pid" ∈ cr_allowed_actions (cfg_responder (rn_config rn)).
Proof.
  destruct (daemon_start boot) as [rn|e] eqn:Hs; [|vm_compute in Hs; discriminate]. exists rn. split; [reflexivity|].
  apply (started_actions_confined boot rn finding attempt (build_responder (responder " Critical ")).2 "kill_pid"
    (at_result (attempt 0)) Hs).
  vm_compute in Hs. injection Hs as <-. vm_compute. do 3 right. left.
Defined.
End witnesses.
