(* ===== verification/SshWrap.v ===== *)
(** * The ssh wrapper

    Models crates/selfdef-ssh-wrap: argv.rs (the getopt-style view of ssh's
    options, the location of the target, the filter), policy.rs (host policies,
    their merge and resolution, the options they impose and deny) and the
    decision part of main.rs (pass-through, filtered arguments, audit record).
    The policy file comes deserialized; starting ssh, [known_hosts] and the event
    sink are not modelled. A [char] is the string of its UTF-8 bytes. *)

From S2P Require Import Prelude Core.
From stdpp Require Import options.

(** ** argv.rs *)

Definition VALUE_OPTIONS : list rchar :=
  ["B"; "b"; "c"; "D"; "E"; "e"; "F"; "I"; "i"; "J"; "L"; "l"; "m"; "O"; "o"; "p"; "Q"; "R"; "S";
   "W"; "w"].

Definition is_value_option (c : rchar) : bool := bool_decide (c ∈ VALUE_OPTIONS).

Inductive Token :=
| Flag (c : rchar)
| Option (c : rchar) (value : string)
| AttachedOption (c : rchar) (value : string)
| Positional (s : string)
| EndOfOptions.

#[export] Instance token_eq_dec : EqDecision Token.
Proof. solve_decision. Defined.

(** An argument that cannot be an option. *)
Definition is_word (arg : string) : bool := negb (starts_with arg "-") || bool_decide (arg = "-").

(** [&arg[1..]] of an argument that starts with a dash. *)
Definition cluster_of (arg : string) : list rchar :=
  match arg with "" => [] | String _ s => chars s end.

(** The walk over one cluster: its leading flags, and its first value option with
    the rest of the cluster. *)
Fixpoint scan_cluster (cs : list rchar) : list rchar * option (rchar * string) :=
  match cs with
  | [] => ([], None)
  | ch :: cs =>
      if is_value_option ch then ([], Some (ch, str_concat cs))
      else let '(flags, o) := scan_cluster cs in (ch :: flags, o)
  end.

Fixpoint classify_from (after_dashdash : bool) (args : list string) : list Token :=
  match args with
  | [] => []
  | arg :: args' =>
      if after_dashdash || is_word arg then Positional arg :: classify_from after_dashdash args'
      else if bool_decide (arg = "--") then EndOfOptions :: classify_from true args'
      else
        let '(flags, o) := scan_cluster (cluster_of arg) in
        (Flag <$> flags) ++
        match o with
        | None => classify_from after_dashdash args'
        | Some (ch, rest) =>
            if bool_decide (rest = "") then
              match args' with
              | val :: args'' => Option ch val :: classify_from after_dashdash args''
              | [] => [Flag ch]
              end
            else AttachedOption ch rest :: classify_from after_dashdash args'
        end
  end.

Definition classify (args : list string) : list Token := classify_from false args.

Fixpoint target_index_from (args : list string) (i : nat) : option nat :=
  match args with
  | [] => None
  | arg :: args' =>
      if bool_decide (arg = "--") then
        match args' with _ :: _ => Some (S i) | [] => None end
      else if is_word arg then Some i
      else
        match (scan_cluster (cluster_of arg)).2 with
        | Some (_, "") =>
            match args' with
            | _ :: args'' => target_index_from args'' (S (S i))
            | [] => None
            end
        | _ => target_index_from args' (S i)
        end
  end.

Definition target_index (args : list string) : option nat := target_index_from args 0.

Fixpoint extract_target (tokens : list Token) : option string :=
  match tokens with
  | [] => None
  | Positional p :: _ => Some p
  | _ :: tokens => extract_target tokens
  end.

(** [o_option_key]: the text before the first [=] or white space. *)
Fixpoint take_key (cs : list rchar) : string :=
  match cs with
  | [] => ""
  | c :: cs => if bool_decide (c = "=") || is_whitespace c then "" else c +:+ take_key cs
  end.
Definition o_option_key (val : string) : string := take_key (chars (trim_start val)).

Definition denied_key (denied_o_keys : list string) (val : string) : bool :=
  existsb (fun k => eq_ignore_ascii_case (o_option_key val) k) denied_o_keys.

(** One arm of the [match] of [filter]: what is pushed for a token. *)
Definition filter_token (denied_flags : list rchar) (denied_o_keys : list string) (tok : Token) : list string :=
  match tok with
  | Flag c => if bool_decide (c ∈ denied_flags) then [] else ["-" +:+ c]
  | Option c val =>
      if bool_decide (c = "o") then if denied_key denied_o_keys val then [] else ["-o"; val]
      else if bool_decide (c ∈ denied_flags) then [] else ["-" +:+ c; val]
  | AttachedOption c val =>
      if bool_decide (c = "o") then if denied_key denied_o_keys val then [] else ["-o" +:+ val]
      else if bool_decide (c ∈ denied_flags) then [] else ["-" +:+ c +:+ val]
  | Positional p => [p]
  | EndOfOptions => ["--"]
  end.

Definition filter_args (tokens : list Token) (denied_flags : list rchar) (denied_o_keys : list string) :
    list string :=
  tokens ≫= filter_token denied_flags denied_o_keys.

(** [rsplit_once]. *)
Fixpoint rsplit_once (c : ascii) (s : string) : option (string * string) :=
  match s with
  | "" => None
  | String a s' =>
      match rsplit_once c s' with
      | Some (l, r) => Some (String a l, r)
      | None => if bool_decide (a = c) then Some ("", s') else None
      end
  end.

Fixpoint count_char (c : ascii) (s : string) : nat :=
  match s with
  | "" => 0
  | String a s => (if bool_decide (a = c) then 1 else 0) + count_char c s
  end.

Definition parse_host_port (user : option string) (rest : string) : option string * string * option Z :=
  if bool_decide (1 < count_char ":" rest) then (user, rest, None)
  else
    match rsplit_once ":" rest with
    | Some (h, p) =>
        if negb (bool_decide (h = "")) && bool_decide (is_Some (parse_uint u16_max p))
        then (user, h, parse_uint u16_max p)
        else (user, rest, None)
    | None => (user, rest, None)
    end.

Definition parse_target (spec : string) : option string * string * option Z :=
  let '(user, rest) :=
    match split_once "@" spec with
    | Some (u, r) => (Some u, r)
    | None => (None, spec)
    end in
  match strip_prefix "[" rest with
  | Some after_lb =>
      match split_once "]" after_lb with
      | Some (addr, tail) => (user, addr, strip_prefix ":" tail ≫= parse_uint u16_max)
      | None => parse_host_port user rest
      end
  | None => parse_host_port user rest
  end.

(** ** policy.rs *)

Record HostPolicy := mkHostPolicy {
  hp_forward_agent : option bool;
  hp_forward_x11 : option bool;
  hp_port_forwarding : option bool;
  hp_permit_command_execution : option bool;
  hp_strict_host_key : option string;
  hp_exit_on_forward_failure : option bool;
  hp_connect_timeout_secs : option Z;
  hp_server_alive_interval_secs : option Z;
}.

Definition host_policy_default : HostPolicy := mkHostPolicy None None None None None None None None.

Definition secure_defaults : HostPolicy :=
  mkHostPolicy (Some false) (Some false) (Some false) (Some false) (Some "accept-new") (Some true)
    (Some 20%Z) (Some 30%Z).

(** [Option::or]. *)
Definition or_else {A} (a b : option A) : option A := match a with Some _ => a | None => b end.

Definition merge_over (self base : HostPolicy) : HostPolicy :=
  {| hp_forward_agent := or_else (hp_forward_agent self) (hp_forward_agent base);
     hp_forward_x11 := or_else (hp_forward_x11 self) (hp_forward_x11 base);
     hp_port_forwarding := or_else (hp_port_forwarding self) (hp_port_forwarding base);
     hp_permit_command_execution :=
       or_else (hp_permit_command_execution self) (hp_permit_command_execution base);
     hp_strict_host_key := or_else (hp_strict_host_key self) (hp_strict_host_key base);
     hp_exit_on_forward_failure :=
       or_else (hp_exit_on_forward_failure self) (hp_exit_on_forward_failure base);
     hp_connect_timeout_secs := or_else (hp_connect_timeout_secs self) (hp_connect_timeout_secs base);
     hp_server_alive_interval_secs :=
       or_else (hp_server_alive_interval_secs self) (hp_server_alive_interval_secs base) |}.

(** The hosts table in the order its [HashMap] iterates. *)
Record PolicyFile := mkPolicyFile {
  pf_defaults : HostPolicy;
  pf_hosts : list (string * HostPolicy);
}.

Definition policy_file_default : PolicyFile := mkPolicyFile secure_defaults [].

Record ResolvedPolicy := mkResolvedPolicy {
  rp_forward_agent : bool;
  rp_forward_x11 : bool;
  rp_port_forwarding : bool;
  rp_permit_command_execution : bool;
  rp_strict_host_key : string;
  rp_exit_on_forward_failure : bool;
  rp_connect_timeout_secs : Z;
  rp_server_alive_interval_secs : Z;
}.

Definition matches_pattern (pattern host : string) : bool :=
  if bool_decide (pattern = host) then true
  else
    match strip_prefix "*." pattern with
    | Some suffix =>
        let dotted := "." +:+ suffix in
        bool_decide (String.length dotted < String.length host) && ends_with host dotted
    | None =>
        match strip_suffix ".*" pattern with
        | Some prefix =>
            let dotted := prefix +:+ "." in
            bool_decide (String.length dotted < String.length host) && starts_with host dotted
        | None =>
            match strip_prefix "*" pattern with
            | Some suffix => ends_with host suffix
            | None =>
                match strip_suffix "*" pattern with
                | Some prefix => starts_with host prefix
                | None => false
                end
            end
        end
    end.

(** The order of [sort_by]: an exact match last, then the longer pattern, then
    the lexically greater one. *)
Definition spec_le (host a b : string) : Prop :=
  let ea := bool_decide (a = host) in
  let eb := bool_decide (b = host) in
  (ea = false /\ eb = true) \/
  (ea = eb /\ (String.length a < String.length b \/
               (String.length a = String.length b /\ String.le a b))).

#[export] Instance spec_le_dec host a b : Decision (spec_le host a b).
Proof. unfold spec_le. apply _. Defined.

Definition entry_le (host : string) (x y : string * HostPolicy) : Prop := spec_le host x.1 y.1.

#[export] Instance entry_le_dec host : RelDecision (entry_le host).
Proof. intros x y. unfold entry_le. apply _. Defined.

Definition merged_policy (file : PolicyFile) (host : string) : HostPolicy :=
  let base := merge_over secure_defaults (pf_defaults file) in
  if contains host "@" then base
  else
    let matches := filter (fun x => matches_pattern x.1 host = true) (pf_hosts file) in
    foldl (fun merged x => merge_over x.2 merged) base (merge_sort (entry_le host) matches).

Definition resolve (file : PolicyFile) (host : string) : ResolvedPolicy :=
  let merged := merged_policy file host in
  {| rp_forward_agent := default false (hp_forward_agent merged);
     rp_forward_x11 := default false (hp_forward_x11 merged);
     rp_port_forwarding := default false (hp_port_forwarding merged);
     rp_permit_command_execution := default false (hp_permit_command_execution merged);
     rp_strict_host_key := default "accept-new" (hp_strict_host_key merged);
     rp_exit_on_forward_failure := default true (hp_exit_on_forward_failure merged);
     rp_connect_timeout_secs := default 20%Z (hp_connect_timeout_secs merged);
     rp_server_alive_interval_secs := default 30%Z (hp_server_alive_interval_secs merged) |}.

Definition yesno (b : bool) : string := if b then "yes" else "no".

(** The [key=value] pairs of [to_ssh_args], and the arguments. *)
Definition policy_options (p : ResolvedPolicy) : list string :=
  ["ForwardAgent=" +:+ yesno (rp_forward_agent p);
   "ForwardX11=" +:+ yesno (rp_forward_x11 p);
   "ForwardX11Trusted=" +:+ yesno (rp_forward_x11 p);
   "ClearAllForwardings=" +:+ yesno (negb (rp_port_forwarding p));
   "ExitOnForwardFailure=" +:+ yesno (rp_exit_on_forward_failure p);
   "StrictHostKeyChecking=" +:+ rp_strict_host_key p;
   "ConnectTimeout=" +:+ show_uint (rp_connect_timeout_secs p);
   "ServerAliveInterval=" +:+ show_uint (rp_server_alive_interval_secs p)].

Definition to_ssh_args (p : ResolvedPolicy) : list string := policy_options p ≫= fun kv => ["-o"; kv].

Definition denied_flags (p : ResolvedPolicy) : list rchar :=
  (if rp_forward_agent p then [] else ["A"]) ++ (if rp_forward_x11 p then [] else ["X"; "Y"])
  ++ (if rp_port_forwarding p then [] else ["L"; "R"; "D"; "W"]).

Definition denied_o_keys (p : ResolvedPolicy) : list string :=
  (if rp_forward_agent p then [] else ["ForwardAgent"])
  ++ (if rp_forward_x11 p then [] else ["ForwardX11"; "ForwardX11Trusted"])
  ++ (if rp_port_forwarding p then [] else ["LocalForward"; "RemoteForward"; "DynamicForward"])
  ++ (if rp_permit_command_execution p then []
      else ["ProxyCommand"; "LocalCommand"; "PermitLocalCommand"; "KnownHostsCommand"]).

(** ** main.rs *)

(** One arm of [compute_stripped]. *)
Definition stripped_token (denied_flags : list rchar) (denied_o : list string) (tok : Token) : list string :=
  match tok with
  | Flag c => if bool_decide (c ∈ denied_flags) then ["-" +:+ c] else []
  | Option c v | AttachedOption c v =>
      if bool_decide (c = "o") then if denied_key denied_o v then ["-o " +:+ v] else []
      else if bool_decide (c ∈ denied_flags) then ["-" +:+ c +:+ " " +:+ v] else []
  | _ => []
  end.

Definition compute_stripped (tokens : list Token) (denied_flags : list rchar) (denied_o : list string) :
    list string :=
  tokens ≫= stripped_token denied_flags denied_o.

Definition is_help (a : string) : bool := bool_decide (a ∈ ["-V"; "--version"; "-h"; "--help"]).

(** What [run] decides: hand the arguments to ssh as they are, or run ssh with
    these arguments and record these stripped options. *)
Inductive WrapDecision :=
| PassThrough (args : list string)
| Enforced (final_args : list string) (stripped : list string).

Definition run (file : PolicyFile) (raw_args : list string) : WrapDecision :=
  let target_idx := target_index raw_args in
  let option_region := match target_idx with Some i => take i raw_args | None => raw_args end in
  if existsb is_help option_region then PassThrough raw_args
  else
    match target_idx with
    | None => PassThrough raw_args
    | Some i =>
        let target := default "" (raw_args !! i) in
        let tokens := classify (take i raw_args) in
        let '(_, host, _) := parse_target target in
        let resolved := resolve file host in
        let filtered := filter_args tokens (denied_flags resolved) (denied_o_keys resolved) in
        Enforced (to_ssh_args resolved ++ filtered ++ drop i raw_args)
          (compute_stripped tokens (denied_flags resolved) (denied_o_keys resolved))
    end.
