(* ===== verification/SshWrapProps.v ===== *)
(** * Properties of the ssh wrapper

    What real ssh sees of the arguments the wrapper hands to it, which options
    survive the policy, how host policies resolve, and what the audit record
    says, for the definitions of SshWrap. *)

From S2P Require Import Prelude Core SshWrap.
From stdpp Require Import options.

(** ** Characters *)

Lemma chars_single s c : c ∈ chars s -> chars c = [c] /\ c <> "".
Proof.
  revert s c. fix IH 1. intros [|a s1] c; simpl chars; [by intros ?%elem_of_nil|].
  case_match eqn:Ea.
  { intros [->|?]%elem_of_cons; [|by apply (IH s1)]. split; [|done]. simpl. by rewrite Ea. }
  destruct s1 as [|b s2].
  { intros ->%list_elem_of_singleton. split; [|done]. simpl. by rewrite Ea. }
  case_match eqn:Eb.
  { intros [->|?]%elem_of_cons; [|by apply (IH s2)]. split; [|done]. simpl. by rewrite Ea, Eb. }
  destruct s2 as [|d s3].
  { intros ->%list_elem_of_singleton. split; [|done]. simpl. by rewrite Ea, Eb. }
  case_match eqn:Ed.
  { intros [->|?]%elem_of_cons; [|by apply (IH s3)]. split; [|done]. simpl. by rewrite Ea, Eb, Ed. }
  destruct s3 as [|e s4].
  { intros ->%list_elem_of_singleton. split; [|done]. simpl. by rewrite Ea, Eb, Ed. }
  intros [->|?]%elem_of_cons; [|by apply (IH s4)]. split; [|done]. simpl. by rewrite Ea, Eb, Ed.
Qed.

Lemma value_option_chars c v : is_value_option c = true -> chars (c +:+ v) = c :: chars v.
Proof.
  unfold is_value_option. rewrite bool_decide_eq_true. intros Hin.
  assert (Ha : exists a, c = String a "" /\ is_ascii a = true).
  { repeat (apply elem_of_cons in Hin as [->|Hin]; [by eexists|]). by apply elem_of_nil in Hin. }
  destruct Ha as (a & -> & Ha). exact (chars_cons_ascii a v Ha).
Qed.

(** ** Tokens of an option region *)

(** What the policy removes. *)
Definition denied (F : list rchar) (K : list string) (tok : Token) : bool :=
  match tok with
  | Flag c => bool_decide (c ∈ F)
  | Option c v | AttachedOption c v => if bool_decide (c = "o") then denied_key K v else bool_decide (c ∈ F)
  | _ => false
  end.

(** An option as [classify] produces it before the target. *)
Definition option_token (tok : Token) : Prop :=
  match tok with
  | Flag c => is_value_option c = false /\ chars c = [c]
  | Option c _ => is_value_option c = true
  | AttachedOption c v => is_value_option c = true /\ v <> ""
  | _ => False
  end.

Lemma scan_cluster_spec cs flags o :
  scan_cluster cs = (flags, o) ->
  Forall (fun c => is_value_option c = false) flags /\ (forall c, c ∈ flags -> c ∈ cs) /\
  match o with Some (c, _) => is_value_option c = true | None => True end.
Proof.
  revert flags o. induction cs as [|c cs IH]; intros flags o; simpl.
  - intros; simplify_eq. split_and!; [constructor|done|done].
  - destruct (is_value_option c) eqn:E.
    + intros; simplify_eq. split_and!; [constructor|by intros ? ?%elem_of_nil|done].
    + destruct (scan_cluster cs) as [fl o'] eqn:Es. intros; simplify_eq.
      destruct (IH _ _ eq_refl) as (Hf & Hin & Ho). split_and!; [by constructor| |done].
      intros c' [->|?]%elem_of_cons; [by constructor|]. constructor. auto.
Qed.

Lemma cluster_flags arg flags o :
  scan_cluster (cluster_of arg) = (flags, o) -> Forall option_token (Flag <$> flags).
Proof.
  intros Hs. destruct (scan_cluster_spec _ _ _ Hs) as (Hf & Hin & _).
  apply Forall_fmap, Forall_forall. intros c Hc. simpl. rewrite Forall_forall in Hf. split; [by apply Hf|].
  apply Hin in Hc. unfold cluster_of in Hc. destruct arg; [by apply elem_of_nil in Hc|].
  by apply chars_single in Hc as [? _].
Qed.

(** ** Rendering a token and reading it back *)

Lemma dash_word c : c <> "" -> is_word ("-" +:+ c) = false.
Proof.
  intros Hc. unfold is_word. assert (Hs : starts_with ("-" +:+ c) "-" = true)
    by (apply starts_with_spec; by exists c). rewrite Hs. simpl. apply bool_decide_eq_false.
  change ("-" +:+ c) with (String "-" c). intros [= ->]. done.
Qed.

Lemma dash_cluster c : cluster_of ("-" +:+ c) = chars c.
Proof. done. Qed.

(** How an argument that is an option cluster is read. *)
Definition option_arg (arg : string) : Prop := is_word arg = false /\ arg <> "--".

Lemma classify_flag c rest :
  option_token (Flag c) -> c <> "-" ->
  classify_from false (("-" +:+ c) :: rest) = Flag c :: classify_from false rest /\
  forall i, target_index_from (("-" +:+ c) :: rest) i = target_index_from rest (S i).
Proof.
  intros [Hv Hc] Hd. assert (Hne : c <> "") by (intros ->; done).
  assert (Hdd : "-" +:+ c <> "--") by (change ("-" +:+ c) with (String "-" c); congruence).
  assert (Hscan : scan_cluster (cluster_of ("-" +:+ c)) = ([c], None)).
  { rewrite dash_cluster, Hc. simpl. by rewrite Hv. }
  cbn [classify_from target_index_from]. rewrite dash_word, Hscan by done. simpl.
  by rewrite bool_decide_false by done.
Qed.

Lemma classify_option c v rest :
  is_value_option c = true ->
  classify_from false (("-" +:+ c) :: v :: rest) = Option c v :: classify_from false rest /\
  forall i, target_index_from (("-" +:+ c) :: v :: rest) i = target_index_from rest (S (S i)).
Proof.
  intros Hv. assert (Hc : chars c = [c]).
  { pose proof (value_option_chars c "" Hv) as Hc. by rewrite str_app_nil_r in Hc. }
  assert (Hne : c <> "") by (intros ->; done).
  assert (Hdd : "-" +:+ c <> "--").
  { change ("-" +:+ c) with (String "-" c). intros [= ->]. by vm_compute in Hv. }
  assert (Hscan : scan_cluster (cluster_of ("-" +:+ c)) = ([], Some (c, ""))).
  { rewrite dash_cluster, Hc. simpl. by rewrite Hv. }
  cbn [classify_from target_index_from]. rewrite dash_word, Hscan by done. simpl.
  by rewrite bool_decide_false by done.
Qed.

Lemma classify_attached c v rest :
  is_value_option c = true -> v <> "" ->
  classify_from false (("-" +:+ c +:+ v) :: rest) = AttachedOption c v :: classify_from false rest /\
  forall i, target_index_from (("-" +:+ c +:+ v) :: rest) i = target_index_from rest (S i).
Proof.
  intros Hv Hne. assert (Hcv : c +:+ v <> "").
  { intros E. pose proof (value_option_chars c v Hv) as Hc. rewrite E in Hc. done. }
  assert (Hdd : "-" +:+ (c +:+ v) <> "--").
  { change ("-" +:+ (c +:+ v)) with (String "-" (c +:+ v)). intros [= E].
    pose proof (value_option_chars c v Hv) as Hc. rewrite E in Hc. simpl in Hc.
    injection Hc as <- _. by vm_compute in Hv. }
  assert (Hscan : scan_cluster (cluster_of ("-" +:+ (c +:+ v))) = ([], Some (c, v))).
  { rewrite dash_cluster, value_option_chars by done. simpl. rewrite Hv, chars_concat. done. }
  cbn [classify_from target_index_from]. rewrite dash_word, Hscan by done. simpl.
  rewrite bool_decide_false by done. rewrite (bool_decide_false (v = "")) by done. split; [done|].
  intros i. by destruct v.
Qed.

(** Filtering a token and reading the result back gives the token, unless the
    policy denies it. *)
Lemma filter_token_read F K tok rest :
  option_token tok -> tok <> Flag "-" ->
  classify_from false (filter_token F K tok ++ rest)
    = (if denied F K tok then [] else [tok]) ++ classify_from false rest /\
  forall i, target_index_from (filter_token F K tok ++ rest) i
    = target_index_from rest (i + length (filter_token F K tok)).
Proof.
  intros Ht Hd. destruct tok as [c|c v|c v|p|]; try done; unfold filter_token, denied.
  - case_bool_decide; simpl app; [split; [done|]; intros; by rewrite Nat.add_0_r|].
    destruct (classify_flag c rest Ht) as [-> Hi]; [congruence|]. split; [done|].
    intros i. rewrite Hi. f_equal. simpl. lia.
  - assert (Hread := classify_option c v rest Ht).
    assert (Hkeep : classify_from false (["-" +:+ c; v] ++ rest) = [Option c v] ++ classify_from false rest /\
      forall i, target_index_from (["-" +:+ c; v] ++ rest) i = target_index_from rest (i + 2)).
    { simpl app. destruct Hread as [-> Hi]. split; [done|]. intros i. rewrite Hi. f_equal. lia. }
    assert (Hdrop : classify_from false ([] ++ rest) = [] ++ classify_from false rest /\
      forall i, target_index_from ([] ++ rest) i = target_index_from rest (i + 0)).
    { split; [done|]. intros i. by rewrite Nat.add_0_r. }
    case_bool_decide as Ho; [subst c; by destruct (denied_key K v)|by case_bool_decide].
  - destruct Ht as [Hv Hne]. assert (Hread := classify_attached c v rest Hv Hne).
    assert (Hkeep : classify_from false (["-" +:+ c +:+ v] ++ rest)
        = [AttachedOption c v] ++ classify_from false rest /\
      forall i, target_index_from (["-" +:+ c +:+ v] ++ rest) i = target_index_from rest (i + 1)).
    { simpl app. destruct Hread as [-> Hi]. split; [done|]. intros i. rewrite Hi. f_equal. lia. }
    assert (Hdrop : classify_from false ([] ++ rest) = [] ++ classify_from false rest /\
      forall i, target_index_from ([] ++ rest) i = target_index_from rest (i + 0)).
    { split; [done|]. intros i. by rewrite Nat.add_0_r. }
    case_bool_decide as Ho; [subst c; by destruct (denied_key K v)|by case_bool_decide].
Qed.

Definition keeps (F : list rchar) (K : list string) (tokens : list Token) : list Token :=
  filter (fun tok => denied F K tok = false) tokens.

Lemma filter_args_read F K tokens rest :
  Forall option_token tokens -> Flag "-" ∉ tokens ->
  classify_from false (filter_args tokens F K ++ rest) = keeps F K tokens ++ classify_from false rest /\
  forall i, target_index_from (filter_args tokens F K ++ rest) i
    = target_index_from rest (i + length (filter_args tokens F K)).
Proof.
  unfold filter_args, keeps. induction 1 as [|tok tokens Ht _ IH]; intros Hd.
  { split; [done|]. intros i. simpl. by rewrite Nat.add_0_r. }
  apply not_elem_of_cons in Hd as [Hd1 Hd2]. destruct (IH Hd2) as [Hc Hi].
  rewrite !bind_cons, <-app_assoc.
  destruct (filter_token_read F K tok ((tokens ≫= filter_token F K) ++ rest) Ht) as [Hct Hit]; [congruence|].
  rewrite Hct, Hc, filter_cons. split.
  - by destruct (denied F K tok).
  - intros i. rewrite Hit, Hi, length_app. f_equal. lia.
Qed.

(** ** The option region *)

(** The arguments of complete options, with the tokens they stand for. *)
Inductive region : list string -> list Token -> Prop :=
| region_nil : region [] []
| region_self arg flags o args toks :
    is_word arg = false -> arg <> "--" -> scan_cluster (cluster_of arg) = (flags, o) ->
    match o with Some (_, v) => v <> "" | None => True end -> region args toks ->
    region (arg :: args) ((Flag <$> flags)
      ++ match o with Some (c, v) => [AttachedOption c v] | None => [] end ++ toks)
| region_pair arg flags c val args toks :
    is_word arg = false -> arg <> "--" -> scan_cluster (cluster_of arg) = (flags, Some (c, "")) ->
    region args toks -> region (arg :: val :: args) ((Flag <$> flags) ++ Option c val :: toks).

Lemma region_option_tokens args toks : region args toks -> Forall option_token toks.
Proof.
  induction 1 as [|arg flags o args toks _ _ Es Ho _ IH|arg flags c val args toks _ _ Es _ IH];
    [constructor|..]; destruct (scan_cluster_spec _ _ _ Es) as (_ & _ & Hv);
    (apply Forall_app_2; [by eapply cluster_flags|]).
  - apply Forall_app_2; [|done]. destruct o as [[c v]|]; [|constructor]. by repeat constructor.
  - by constructor.
Qed.

Lemma region_classify args toks l :
  region args toks -> classify_from false (args ++ l) = toks ++ classify_from false l.
Proof.
  induction 1 as [|arg flags o args toks Hw Hdd Es Ho _ IH|arg flags c val args toks Hw Hdd Es _ IH]; [done|..];
    cbn [classify_from app]; rewrite Hw, Es, (bool_decide_false (arg = "--")) by done; simpl.
  - rewrite <-!app_assoc. f_equal. destruct o as [[c v]|]; simpl; [|done].
    rewrite bool_decide_false by done. by rewrite IH.
  - rewrite <-!app_assoc. f_equal. by rewrite IH.
Qed.

(** [target_index] cuts the arguments after the complete options and an optional
    [--]; what follows is the target. *)
Lemma target_region n : forall args j m,
  length args <= n -> target_index_from args j = Some m ->
  exists opts toks (dd : bool) target rest,
    args = opts ++ (if dd then ["--"] else []) ++ target :: rest /\ region opts toks /\
    m = j + length (opts ++ if dd then ["--"] else []) /\
    (dd = true \/ (is_word target = true /\ target <> "--")).
Proof.
  induction n as [|n IH]; intros [|arg args] j m Hn Ht; simpl in Hn; try done; [lia|].
  cbn [target_index_from] in Ht. case_bool_decide as Hdd.
  { destruct args as [|target rest]; [done|]. subst arg. exists [], [], true, target, rest.
    split_and!; [done|constructor|simpl; injection Ht; lia|by left]. }
  destruct (is_word arg) eqn:Hw.
  { exists [], [], false, arg, args. split_and!; [done|constructor|simpl; injection Ht; lia|by right]. }
  destruct (scan_cluster (cluster_of arg)) as [flags o] eqn:Es. simpl in Ht.
  destruct o as [[c [|a v]]|].
  - destruct args as [|val args]; [done|]. simpl in Hn.
    destruct (IH args (S (S j)) m) as (opts & toks & dd & target & rest & -> & Hr & -> & Htg); [lia|done|].
    exists (arg :: val :: opts), ((Flag <$> flags) ++ Option c val :: toks), dd, target, rest.
    split_and!; [done|by apply region_pair|simpl; lia|done].
  - destruct (IH args (S j) m) as (opts & toks & dd & target & rest & -> & Hr & -> & Htg); [lia|done|].
    exists (arg :: opts), ((Flag <$> flags) ++ [AttachedOption c (String a v)] ++ toks), dd, target, rest.
    split_and!; [done|by apply (region_self _ _ (Some (c, String a v)))|simpl; lia|done].
  - destruct (IH args (S j) m) as (opts & toks & dd & target & rest & -> & Hr & -> & Htg); [lia|done|].
    exists (arg :: opts), ((Flag <$> flags) ++ [] ++ toks), dd, target, rest.
    split_and!; [done|by apply (region_self _ _ None)|simpl; lia|done].
Qed.

(** The policy's own options, read by ssh. *)
Lemma policy_args_read (kvs : list string) rest :
  classify_from false ((kvs ≫= fun kv => ["-o"; kv]) ++ rest) = (Option "o" <$> kvs) ++ classify_from false rest /\
  forall i, target_index_from ((kvs ≫= fun kv => ["-o"; kv]) ++ rest) i
    = target_index_from rest (i + length (kvs ≫= fun kv => ["-o"; kv])).
Proof.
  induction kvs as [|kv kvs [Hc Hi]]; [split; [done|]; intros i; simpl; by rewrite Nat.add_0_r|].
  rewrite !bind_cons. cbn [app]. destruct (classify_option "o" kv ((kvs ≫= fun kv => ["-o"; kv]) ++ rest)) as [Hco Hio]; [done|].
  change ("-" +:+ "o") with "-o" in Hco. split.
  - rewrite Hco, Hc. done.
  - intros i. change ("-" +:+ "o") with "-o" in Hio. rewrite Hio, Hi. f_equal. simpl. lia.
Qed.

Lemma target_end (dd : bool) target rest i :
  dd = true \/ (is_word target = true /\ target <> "--") ->
  target_index_from ((if dd then ["--"] else []) ++ target :: rest) i
    = Some (i + length (if dd then ["--"] else [])).
Proof.
  destruct dd; simpl; intros Hd; [f_equal; lia|]. destruct Hd as [|[Hw Hne]]; [done|].
  rewrite bool_decide_false, Hw by done. f_equal. lia.
Qed.

Lemma classify_dashdash (dd : bool) :
  classify_from false (if dd then ["--"] else []) = if dd then [EndOfOptions] else [].
Proof. by destruct dd. Qed.

Lemma filter_args_app F K t1 t2 : filter_args (t1 ++ t2) F K = filter_args t1 F K ++ filter_args t2 F K.
Proof. unfold filter_args. by rewrite bind_app. Qed.

Lemma filter_args_end F K (dd : bool) :
  filter_args (if dd then [EndOfOptions] else []) F K = if dd then ["--"] else [].
Proof. by destruct dd. Qed.

(** ** The order of host patterns *)

Lemma spec_le_total host a b : spec_le host a b \/ spec_le host b a.
Proof.
  unfold spec_le. destruct (total String.le a b), (Nat.lt_trichotomy (String.length a) (String.length b))
    as [|[|]], (bool_decide (a = host)), (bool_decide (b = host)); intuition lia.
Qed.

Lemma spec_le_trans host a b c : spec_le host a b -> spec_le host b c -> spec_le host a c.
Proof.
  unfold spec_le. intros [[-> Hb]|[Eab [Hl1|[Hl1 H1]]]] [[Eb Hc]|[Ebc [Hl2|[Hl2 H2]]]];
    try congruence; try (left; split; congruence);
    right; (split; [congruence|]); try (left; lia); right; (split; [lia|]); by trans b.
Qed.

Lemma spec_le_antisym host a b : spec_le host a b -> spec_le host b a -> a = b.
Proof.
  unfold spec_le. intros [[Ea Eb]|[Eab [Hl1|[Hl1 H1]]]] [[Eb' Ea']|[Eba [Hl2|[Hl2 H2]]]];
    try congruence; try lia. by apply (anti_symm String.le).
Qed.

#[local] Instance entry_le_total host : Total (entry_le host).
Proof. intros x y. apply spec_le_total. Qed.

#[local] Instance entry_le_transitive host : Transitive (entry_le host).
Proof. intros x y z. apply spec_le_trans. Qed.

(** With distinct patterns the sorted matches depend on the set of entries only. *)
Lemma sorted_matches_perm host (l1 l2 : list (string * HostPolicy)) :
  NoDup l1.*1 -> Permutation l1 l2 ->
  merge_sort (entry_le host) l1 = merge_sort (entry_le host) l2.
Proof.
  intros Hnd Hp. apply (StronglySorted_unique_strong (entry_le host));
    [|apply StronglySorted_merge_sort; apply _..|by rewrite !merge_sort_Permutation].
  intros [a p] [b q] Ha Hb Hab Hba. rewrite merge_sort_Permutation in Ha, Hb. rewrite <-Hp in Hb.
  assert (a = b) as -> by exact (spec_le_antisym host a b Hab Hba).
  apply list_elem_of_lookup in Ha as [i Hi], Hb as [j Hj].
  assert (i = j) as ->; [|by simplify_eq].
  eapply (NoDup_lookup l1.*1); [done|by rewrite list_lookup_fmap, Hi|by rewrite list_lookup_fmap, Hj].
Qed.

Lemma matches_NoDup host (l : list (string * HostPolicy)) :
  NoDup l.*1 -> NoDup (filter (fun x => matches_pattern x.1 host = true) l).*1.
Proof. intros Hnd. eapply sublist_NoDup; [exact Hnd|]. apply fmap_sublist, sublist_filter. Qed.

(** The entry for the host itself is merged last. *)
Lemma exact_entry_last host p (l : list (string * HostPolicy)) :
  NoDup l.*1 -> (host, p) ∈ l ->
  exists init, merge_sort (entry_le host) (filter (fun x => matches_pattern x.1 host = true) l)
    = init ++ [(host, p)].
Proof.
  intros Hnd Hin. set (m := filter _ l). assert (Hm : NoDup m.*1) by by apply matches_NoDup.
  assert (Hhp : (host, p) ∈ m).
  { apply list_elem_of_filter. split; [|done]. unfold matches_pattern. simpl. by rewrite bool_decide_true. }
  assert (Hs : StronglySorted (entry_le host) (merge_sort (entry_le host) m))
    by (apply StronglySorted_merge_sort; apply _).
  assert (Hperm := merge_sort_Permutation (entry_le host) m).
  rewrite <-Hperm in Hhp, Hm. apply list_elem_of_split in Hhp as (l1 & l2 & Hl). rewrite Hl in *.
  destruct l2 as [|[b q] l2]; [by exists l1|]. exfalso.
  assert (Hle : entry_le host (host, p) (b, q)).
  { apply StronglySorted_app_1_r in Hs. inv Hs. match goal with H : Forall _ _ |- _ => by inv H end. }
  assert (Hne : b <> host).
  { intros ->. rewrite fmap_app in Hm. apply NoDup_app in Hm as (_ & _ & Hm). csimpl in Hm.
    apply NoDup_cons in Hm as [Hm _]. apply Hm. by constructor. }
  unfold entry_le, spec_le in Hle. simpl in Hle. rewrite bool_decide_true, bool_decide_false in Hle by done.
  naive_solver.
Qed.

(** How the assembled argument vector is read back: policy, kept options, target. *)
Lemma assembled_read (kvs : list string) F K toks (dd : bool) target rest :
  Forall option_token toks -> Flag "-" ∉ toks -> dd = true \/ is_word target = true /\ target <> "--" ->
  let final := (kvs ≫= fun kv => ["-o"; kv]) ++ (filter_args toks F K ++ if dd then ["--"] else []) ++ target :: rest in
  exists j, target_index final = Some j /\ drop j final = target :: rest /\
    classify (take j final) = (Option "o" <$> kvs) ++ keeps F K (toks ++ if dd then [EndOfOptions] else []).
Proof.
  intros Hopt Hd Htg final. set (ddl := if dd then ["--"] else []).
  set (pol := kvs ≫= fun kv => ["-o"; kv]). exists (length (pol ++ filter_args toks F K ++ ddl)).
  assert (Hfinal : final = (pol ++ filter_args toks F K ++ ddl) ++ target :: rest)
    by (unfold final; by rewrite <-!(assoc_L (++))).
  rewrite Hfinal. split_and!.
  - unfold target_index. rewrite <-!(assoc_L (++)). unfold pol. rewrite (proj2 (policy_args_read _ _)).
    rewrite (proj2 (filter_args_read F K toks _ Hopt Hd)). unfold ddl. rewrite target_end by done.
    f_equal. rewrite !length_app. simpl. lia.
  - by rewrite drop_app_length.
  - rewrite take_app_length. unfold classify, pol. rewrite (proj1 (policy_args_read _ _)).
    rewrite (proj1 (filter_args_read F K toks _ Hopt Hd)). unfold ddl, keeps. rewrite classify_dashdash, filter_app.
    by destruct dd.
Qed.

(** ** A reader of options

    How a program reads its arguments by the guidelines of POSIX getopt, given which
    letters take a value. It is written without the wrapper's definitions. An option is
    its letter and its value; how it was spelled (alone, in a cluster, with the value
    attached or as the next argument) does not matter. *)

Definition Opt : Type := rchar * option string.

Inductive reads (takes : rchar -> bool) : list string -> list Opt -> list string -> Prop :=
| reads_nil : reads takes [] [] []
| reads_operand arg args : (forall s, arg <> String "-" s) \/ arg = "-" -> reads takes (arg :: args) [] (arg :: args)
| reads_end args : reads takes ("--" :: args) [] args
| reads_flags s args opts operands :
    s <> "" -> s <> "-" -> Forall (fun c => takes c = false) (chars s) -> reads takes args opts operands ->
    reads takes (String "-" s :: args) (((fun c => (c, None)) <$> chars s) ++ opts) operands
| reads_attached s flags c v args opts operands :
    chars s = flags ++ c :: v -> Forall (fun c => takes c = false) flags -> takes c = true -> v <> [] ->
    reads takes args opts operands ->
    reads takes (String "-" s :: args) (((fun c => (c, None)) <$> flags) ++ (c, Some (str_concat v)) :: opts) operands
| reads_separate s flags c v args opts operands :
    chars s = flags ++ [c] -> Forall (fun c => takes c = false) flags -> takes c = true ->
    reads takes args opts operands ->
    reads takes (String "-" s :: v :: args) (((fun c => (c, None)) <$> flags) ++ (c, Some v) :: opts) operands.

(** The letters that take a value, as ssh(1) lists them. *)
Definition ssh_letters : list rchar :=
  ["B"; "D"; "E"; "F"; "I"; "J"; "L"; "O"; "Q"; "R"; "S"; "W"; "b"; "c"; "e"; "i"; "l"; "m"; "o"; "p"; "w"].

(** The key of an [-o] value: what comes before the first [=] or white space, leading
    white space aside, whatever the case of its letters. *)
Definition separates (c : rchar) : Prop := c = "=" \/ is_whitespace c = true.
Definition names_key (val key : string) : Prop :=
  exists cs rest, chars (trim_start val) = cs ++ rest /\ Forall (fun c => ~ separates c) cs /\
    (forall c rest', rest = c :: rest' -> separates c) /\ eq_ignore_ascii_case (str_concat cs) key = true.

Definition sets_key (o : Opt) (keys : list string) : Prop :=
  o.1 = "o" /\ match o.2 with Some val => Exists (names_key val) keys | None => False end.

(** The options that a policy forbids. *)
Definition forbidden (p : ResolvedPolicy) (o : Opt) : Prop :=
  (rp_forward_agent p = false /\ (o.1 = "A" \/ sets_key o ["ForwardAgent"])) \/
  (rp_forward_x11 p = false /\ (o.1 = "X" \/ o.1 = "Y" \/ sets_key o ["ForwardX11"; "ForwardX11Trusted"])) \/
  (rp_port_forwarding p = false /\
     (o.1 = "L" \/ o.1 = "R" \/ o.1 = "D" \/ o.1 = "W" \/ sets_key o ["LocalForward"; "RemoteForward"; "DynamicForward"])) \/
  (rp_permit_command_execution p = false /\
     sets_key o ["ProxyCommand"; "LocalCommand"; "PermitLocalCommand"; "KnownHostsCommand"]).

Lemma take_key_unique cs rest :
  Forall (fun c => ~ separates c) cs -> (forall c rest', rest = c :: rest' -> separates c) ->
  take_key (cs ++ rest) = str_concat cs.
Proof.
  unfold separates. intros Hc Hr. induction Hc as [|c cs Hs _ IH]; simpl.
  - destruct rest as [|c rest]; [done|]. simpl. destruct (Hr c rest eq_refl) as [->|Hw]; [done|]. by rewrite Hw, orb_true_r.
  - rewrite bool_decide_false by tauto. destruct (is_whitespace c) eqn:E; [tauto|]. simpl. by rewrite IH.
Qed.

Lemma separates_split cs : exists cs' rest, cs = cs' ++ rest /\ Forall (fun c => ~ separates c) cs' /\
  (forall c rest', rest = c :: rest' -> separates c).
Proof.
  induction cs as [|c cs (cs' & rest & -> & Hf & Hr)]; [by exists [], []|].
  destruct (decide (c = "=" \/ is_whitespace c = true)) as [Hs|Hs].
  - exists [], (c :: cs' ++ rest). split; [done|]. split; [constructor|]. by intros c' rest' [= <- <-].
  - exists (c :: cs'), rest. split; [done|]. split; [by constructor|done].
Qed.

Lemma names_key_iff val key : names_key val key <-> eq_ignore_ascii_case (o_option_key val) key = true.
Proof.
  unfold names_key, o_option_key. split.
  - intros (cs & rest & -> & Hf & Hr & He). by rewrite take_key_unique.
  - intros He. destruct (separates_split (chars (trim_start val))) as (cs & rest & E & Hf & Hr).
    rewrite E, take_key_unique in He by done. by exists cs, rest.
Qed.

#[local] Instance names_key_dec val key : Decision (names_key val key).
Proof. refine (cast_if (decide (eq_ignore_ascii_case (o_option_key val) key = true))); by rewrite names_key_iff. Defined.
#[local] Instance sets_key_dec o keys : Decision (sets_key o keys).
Proof. unfold sets_key. destruct (o.2); apply _. Defined.
#[local] Instance forbidden_dec p o : Decision (forbidden p o).
Proof. unfold forbidden. apply _. Defined.

(** What the reader sees of a token. *)
Definition opt_of (tok : Token) : option Opt :=
  match tok with
  | Flag c => Some (c, None)
  | Option c v | AttachedOption c v => Some (c, Some v)
  | _ => None
  end.

Lemma denied_key_iff K v : denied_key K v = true <-> Exists (names_key v) K.
Proof.
  unfold denied_key. rewrite existsb_exists, Exists_exists. split.
  - intros (k & Hk%list_elem_of_In & He). exists k. by rewrite names_key_iff.
  - intros (k & Hk & He). exists k. rewrite <-list_elem_of_In. by rewrite <-names_key_iff.
Qed.

Lemma denied_forbidden p tok o : option_token tok -> opt_of tok = Some o ->
  (denied (denied_flags p) (denied_o_keys p) tok = true <-> forbidden p o).
Proof.
  intros Ht Ho. assert (Hk : forall v, denied_key (denied_o_keys p) v = true <->
      forbidden p ("o", Some v)).
  { intros v. rewrite denied_key_iff. unfold denied_o_keys, forbidden, sets_key. simpl. rewrite !Exists_app.
    destruct (rp_forward_agent p), (rp_forward_x11 p), (rp_port_forwarding p), (rp_permit_command_execution p);
      rewrite ?Exists_nil; naive_solver. }
  assert (Hf : forall c v, c <> "o" -> bool_decide (c ∈ denied_flags p) = true <-> forbidden p (c, v)).
  { intros c v Hc. rewrite bool_decide_eq_true. unfold denied_flags, forbidden, sets_key. simpl. rewrite !elem_of_app.
    destruct (rp_forward_agent p), (rp_forward_x11 p), (rp_port_forwarding p);
      rewrite ?elem_of_cons, ?elem_of_nil; naive_solver. }
  destruct tok as [c|c v|c v|s|]; simpl in Ho; simplify_eq; unfold denied.
  - destruct Ht as [Hv _]. apply Hf. intros ->. by vm_compute in Hv.
  - case_bool_decide as Hc; [subst; apply Hk|by apply Hf].
  - case_bool_decide as Hc; [subst; apply Hk|by apply Hf].
Qed.

Lemma keeps_opts p toks : Forall option_token toks ->
  omap opt_of (keeps (denied_flags p) (denied_o_keys p) toks) = filter (fun o => ~ forbidden p o) (omap opt_of toks).
Proof.
  unfold keeps. induction 1 as [|tok toks Ht _ IH]; [done|]. rewrite filter_cons. simpl.
  destruct (opt_of tok) as [o|] eqn:Eo; [|by destruct tok]. rewrite filter_cons.
  pose proof (denied_forbidden p tok o Ht Eo) as Hd. destruct (denied _ _ tok) eqn:E.
  - rewrite decide_False by done. rewrite decide_False by tauto. done.
  - rewrite decide_True by done. rewrite decide_True by (intros Hf%Hd; congruence). simpl. rewrite Eo. by f_equal.
Qed.

Lemma dash_s s : s <> "" -> is_word (String "-" s) = false.
Proof. intros Hs. change (String "-" s) with ("-" +:+ s). by apply dash_word. Qed.

Lemma omap_flags (flags : list rchar) : omap opt_of (Flag <$> flags) = (fun c => (c, None)) <$> flags.
Proof. induction flags as [|c flags IH]; [done|]. csimpl. by f_equal. Qed.

Lemma concat_ne s flags c v : chars s = flags ++ c :: v -> v <> [] -> str_concat v <> "".
Proof.
  intros E Hv. destruct v as [|x v]; [done|]. assert (Hx : x ∈ chars s) by (rewrite E; set_solver).
  apply chars_single in Hx as [_ Hx]. by destruct x.
Qed.

Section reader.
Context (takes : rchar -> bool) (Htakes : forall c, takes c = bool_decide (c ∈ ssh_letters)).

Lemma takes_value c : takes c = is_value_option c.
Proof using Htakes.
  rewrite Htakes. unfold is_value_option. apply bool_decide_ext. unfold ssh_letters, VALUE_OPTIONS.
  rewrite !elem_of_cons. tauto.
Qed.

Lemma scan_flags cs : Forall (fun c => takes c = false) cs -> scan_cluster cs = (cs, None).
Proof using Htakes. induction 1 as [|c cs Hc _ IH]; [done|]. simpl. rewrite <-takes_value, Hc. by rewrite IH. Qed.

Lemma scan_value flags c v : Forall (fun c => takes c = false) flags -> takes c = true ->
  scan_cluster (flags ++ c :: v) = (flags, Some (c, str_concat v)).
Proof using Htakes.
  intros Hf Hc. induction Hf as [|f flags Hx _ IH]; simpl; rewrite <-takes_value; [by rewrite Hc|]. rewrite Hx. by rewrite IH.
Qed.

Lemma scan_inv cs flags o : scan_cluster cs = (flags, o) ->
  Forall (fun c => takes c = false) flags /\
  match o with
  | None => cs = flags
  | Some (c, v) => takes c = true /\ exists rest, cs = flags ++ c :: rest /\ v = str_concat rest
  end.
Proof using Htakes.
  revert flags o. induction cs as [|c cs IH]; intros flags o; simpl; [by intros [= <- <-]|].
  rewrite <-takes_value. destruct (takes c) eqn:E; [intros [= <- <-]; eauto|].
  destruct (scan_cluster cs) as [fl o'] eqn:Es. intros [= <- <-]. destruct (IH _ _ eq_refl) as [Hf Ho].
  split; [by constructor|]. destruct o' as [[c' v]|]; [|by subst]. destruct Ho as (? & rest & -> & ->). eauto.
Qed.

Lemma takes_dash : takes "-" = false.
Proof using Htakes. by rewrite takes_value. Qed.

Lemma value_not_dash s flags c v : chars s = flags ++ c :: v -> takes c = true -> s <> "-" /\ s <> "".
Proof using Htakes.
  intros E Hc. split; intros ->.
  - simpl in E. destruct flags as [|f flags]; simplify_eq/=; [by rewrite takes_dash in Hc|by destruct flags].
  - by destruct flags.
Qed.

(** The wrapper finds what the reader reads. *)
Lemma reads_found args opts operands : reads takes args opts operands ->
  (forall i, target_index_from args i = match operands with [] => None | _ => Some (i + (length args - length operands)) end) /\
  length operands <= length args /\ drop (length args - length operands) args = operands /\
  (operands <> [] -> omap opt_of (classify_from false (take (length args - length operands) args)) = opts).
Proof using Htakes.
  assert (Hsub : forall n m, m <= n -> S n - m = S (n - m)) by lia.
  induction 1 as [|arg args Hw|args|s args opts ops Hs Hd Hf _ IH|s flags c v args opts ops Hc Hf Ht Hv _ IH
    |s flags c v args opts ops Hc Hf Ht _ IH].
  - done.
  - rewrite Nat.sub_diag. split; [|done]. intros i. cbn [target_index_from].
    assert (Hdd : arg <> "--") by (intros ->; destruct Hw as [Hw|]; [by destruct (Hw "-")|done]).
    rewrite (bool_decide_false (arg = "--")) by done. assert (Hword : is_word arg = true).
    { unfold is_word. destruct Hw as [Hw| ->]; [|done]. destruct (starts_with arg "-") eqn:E; [|done].
      apply starts_with_spec in E as [r ->]. by destruct (Hw r). }
    rewrite Hword. simpl. f_equal. lia.
  - simpl length. rewrite Hsub, Nat.sub_diag by done. split; [|split; [lia|done]]. intros i. destruct args; [done|].
    simpl. f_equal. lia.
  - destruct IH as (Hi & Hl & Hdr & Hcl). simpl length. rewrite Hsub by done.
    cbn [take drop target_index_from classify_from]. rewrite dash_s, (bool_decide_false (String "-" s = "--")) by congruence.
    change (cluster_of (String "-" s)) with (chars s). rewrite scan_flags by done. simpl.
    split; [intros i; rewrite Hi; destruct ops; [done|f_equal; lia]|]. split; [lia|]. split; [done|].
    intros Ho. rewrite omap_app, omap_flags. by rewrite Hcl.
  - destruct IH as (Hi & Hl & Hdr & Hcl). destruct (value_not_dash _ _ _ _ Hc Ht) as [Hd Hne].
    simpl length. rewrite Hsub by done. cbn [take drop target_index_from classify_from].
    rewrite dash_s, (bool_decide_false (String "-" s = "--")) by congruence.
    change (cluster_of (String "-" s)) with (chars s). rewrite Hc, scan_value by done. simpl.
    assert (Hsv := concat_ne _ _ _ _ Hc Hv). rewrite (bool_decide_false (str_concat v = "")) by done.
    split; [intros i; destruct (str_concat v); [done|]; rewrite Hi; destruct ops; [done|f_equal; lia]|].
    split; [lia|]. split; [done|]. intros Ho. rewrite omap_app, omap_flags. f_equal. simpl. f_equal. by apply Hcl.
  - destruct IH as (Hi & Hl & Hdr & Hcl). destruct (value_not_dash _ _ _ _ Hc Ht) as [Hd Hne].
    simpl length. rewrite !Hsub by lia. cbn [take drop target_index_from classify_from].
    rewrite dash_s, (bool_decide_false (String "-" s = "--")) by congruence.
    change (cluster_of (String "-" s)) with (chars s). rewrite Hc, scan_value by done. simpl.
    split; [intros i; rewrite Hi; destruct ops; [done|f_equal; lia]|].
    split; [lia|]. split; [done|]. intros Ho. rewrite omap_app, omap_flags. f_equal. simpl. f_equal. by apply Hcl.
Qed.

Lemma cluster_word arg : is_word arg = false -> arg <> "--" -> exists s, arg = String "-" s /\ s <> "" /\ s <> "-".
Proof using Type.
  unfold is_word. intros [Hs%negb_false_iff Hd%bool_decide_eq_false]%orb_false_iff Hdd.
  apply starts_with_spec in Hs as [s ->]. change ("-" +:+ s) with (String "-" s) in *.
  exists s. split; [done|]. split; congruence.
Qed.

Lemma region_reads args toks tail opts operands : region args toks -> reads takes tail opts operands ->
  reads takes (args ++ tail) (omap opt_of toks ++ opts) operands.
Proof using Htakes.
  induction 1 as [|arg flags o args toks Hw Hdd Es Ho _ IH|arg flags c val args toks Hw Hdd Es _ IH]; intros Hr; [done|..];
    destruct (cluster_word arg Hw Hdd) as (s & -> & Hne & Hd); destruct (scan_inv _ _ _ Es) as [Hf Hc];
    change (cluster_of (String "-" s)) with (chars s) in *; rewrite omap_app, omap_flags, <-app_assoc; simpl.
  - destruct o as [[c v]|].
    + destruct Hc as (Ht & rest & E & ->). simpl. apply reads_attached; auto. by intros ->.
    + simpl. subst flags. apply reads_flags; auto.
  - destruct Hc as (Ht & rest & E & Hv). destruct (decide (rest = [])) as [->|Hrest].
    + simpl. apply reads_separate; auto.
    + by destruct (concat_ne _ _ _ _ E Hrest).
Qed.

Lemma found_reads args j : target_index args = Some j ->
  reads takes args (omap opt_of (classify (take j args))) (drop j args).
Proof using Htakes.
  intros Ht. destruct (target_region _ args 0 j (le_n _) Ht) as (opts & toks & dd & target & rest & -> & Hr & -> & Htg).
  rewrite (assoc_L (++) opts). simpl. rewrite take_app_length, drop_app_length. unfold classify.
  rewrite (region_classify _ _ _ Hr), omap_app, <-(assoc_L (++) opts). apply region_reads; [done|].
  destruct dd; simpl; [apply reads_end|]. destruct Htg as [|[Hw Hne]]; [done|]. apply reads_operand.
  destruct (decide (target = "-")) as [->|Hd]; [by right|]. left. intros s ->. unfold is_word in Hw.
  rewrite (bool_decide_false (String "-" s = "-")), orb_false_r in Hw by done.
  assert (Hs : starts_with (String "-" s) "-" = true) by (apply starts_with_spec; by exists s). by rewrite Hs in Hw.
Qed.
End reader.

(** ** Properties *)


(** What follows the target is never looked at. A denied flag there reaches ssh. *)
Theorem options_after_target_kept (file : PolicyFile) (host : string) :
  is_word host = true -> host <> "--" -> exists final, run file [host; "-A"] = Enforced final [] /\ last final = Some "-A".
Proof.
  intros Hw Hd. unfold run, target_index. cbn [target_index_from]. rewrite (bool_decide_false (host = "--")), Hw by done.
  simpl. destruct (parse_target host) as [[u h] port]. eexists. split; [done|]. reflexivity.
Qed.

(** The audit record mirrors the filter. What is recorded as stripped is, in
    order, the rendering of exactly the tokens the filter drops: every token is
    either kept or recorded, so nothing is removed silently and nothing that was
    kept is reported. *)
Theorem audit_mirrors_filter (tokens : list Token) (F : list rchar) (K : list string) :
  Forall2 (fun tok line => stripped_token F K tok = [line])
    (filter (fun tok => denied F K tok = true) tokens) (compute_stripped tokens F K) /\
  filter_args tokens F K = keeps F K tokens ≫= filter_token [] [].
Proof.
  unfold compute_stripped, filter_args, keeps. induction tokens as [|tok tokens [IH1 IH2]]; [by split|].
  rewrite !bind_cons, !filter_cons, IH2.
  assert (Htok : (denied F K tok = true /\ exists line, stripped_token F K tok = [line] /\ filter_token F K tok = [])
    \/ (denied F K tok = false /\ stripped_token F K tok = [] /\ filter_token F K tok = filter_token [] [] tok)).
  { unfold denied, stripped_token, filter_token. destruct tok as [c|c v|c v|s|]; auto;
      repeat case_bool_decide; try destruct (denied_key K v); simpl; eauto; set_solver. }
  destruct Htok as [(Hd & line & Hl & Hf)|(Hd & Hl & Hf)]; rewrite Hd, Hl, Hf; simpl; split; try done.
  by constructor.
Qed.

(** The resolved policy is deterministic. It does not depend on the order in
    which the table of hosts is iterated, even when several overlapping patterns
    with conflicting values match. *)
Theorem resolve_deterministic (d : HostPolicy) (hosts1 hosts2 : list (string * HostPolicy)) (host : string) :
  NoDup hosts1.*1 -> Permutation hosts1 hosts2 ->
  resolve (mkPolicyFile d hosts1) host = resolve (mkPolicyFile d hosts2) host.
Proof.
  intros Hnd Hp. unfold resolve. assert (Hm : merged_policy (mkPolicyFile d hosts1) host
    = merged_policy (mkPolicyFile d hosts2) host); [|by rewrite Hm].
  unfold merged_policy. simpl. destruct (contains host "@"); [done|].
  rewrite (sorted_matches_perm host (filter _ hosts1) (filter (fun x => matches_pattern x.1 host = true) hosts2));
    [done|by apply matches_NoDup|]. by rewrite Hp.
Qed.

(** The entry for the host itself wins, and an ambiguous host gets no entry.
    For a host without an at sign every setting of the exact entry is in force,
    whatever patterns also match; for a host with one, which ssh may parse
    differently, no entry of the table applies at all. *)
Theorem resolve_precedence (d : HostPolicy) (hosts : list (string * HostPolicy)) (host : string) (p : HostPolicy) :
  (contains host "@" = true ->
     merged_policy (mkPolicyFile d hosts) host = merged_policy (mkPolicyFile d []) host) /\
  (contains host "@" = false -> NoDup hosts.*1 -> (host, p) ∈ hosts ->
     exists base, merged_policy (mkPolicyFile d hosts) host = merge_over p base).
Proof.
  unfold merged_policy. simpl. split; [by intros ->|]. intros -> Hnd Hin.
  destruct (exact_entry_last host p hosts Hnd Hin) as (init & ->). rewrite foldl_app. simpl. by eexists.
Qed.

(** The [defaults] section of the policy file has no effect. The secure
    defaults are merged over it and set every field, so two files that differ
    only in their defaults resolve alike for every host, and a host that no entry
    matches gets the built-in values whatever the file says. *)
Theorem file_defaults_ignored (d1 d2 : HostPolicy) (hosts : list (string * HostPolicy)) (host : string) :
  resolve (mkPolicyFile d1 hosts) host = resolve (mkPolicyFile d2 hosts) host /\
  ((forall x, x ∈ hosts -> matches_pattern x.1 host = false) ->
     resolve (mkPolicyFile d1 hosts) host = resolve policy_file_default host).
Proof.
  split; [done|]. intros Hno. unfold resolve. assert (Hm : merged_policy (mkPolicyFile d1 hosts) host
    = merged_policy policy_file_default host); [|by rewrite Hm].
  unfold merged_policy. simpl. destruct (contains host "@"); [done|].
  assert (Hf : filter (fun x => matches_pattern x.1 host = true) hosts = []); [|by rewrite Hf].
  destruct (filter _ hosts) as [|x l] eqn:E; [done|]. exfalso.
  assert (Hx : x ∈ x :: l) by by constructor. rewrite <-E in Hx. apply list_elem_of_filter in Hx as [Hx1 Hx2].
  by rewrite (Hno x Hx2) in Hx1.
Qed.

(** An option value that looks like a help flag disables the policy. The
    help and version check looks at every argument before the target, values
    included: for arguments that ssh reads as options with a target and no help
    or version flag among them, the wrapper can hand everything to ssh
    unfiltered, a denied flag included. *)
Theorem help_value_bypasses_policy (file : PolicyFile) :
  exists raw i, target_index raw = Some i /\ run file raw = PassThrough raw /\
    Flag "V" ∉ classify (take i raw) /\ Flag "h" ∉ classify (take i raw) /\
    Flag "A" ∈ classify (take i raw).
Proof.
  exists ["-E"; "-V"; "-A"; "evil.example"], 3. split_and!; [done|done|..]; vm_compute; set_solver.
Qed.

(** A subdomain pattern stops at the label boundary. [*.suffix] matches the
    names that end in a dot and the suffix with at least one character before,
    and its own literal text, and nothing else. *)
Theorem subdomain_pattern_exact (suffix host : string) :
  matches_pattern ("*." +:+ suffix) host = true <->
  host = "*." +:+ suffix \/ exists label, label <> "" /\ host = label +:+ "." +:+ suffix.
Proof.
  unfold matches_pattern. case_bool_decide as Heq; [by intuition eauto|].
  assert (Hs : strip_prefix "*." ("*." +:+ suffix) = Some suffix) by by apply strip_prefix_Some.
  rewrite Hs, andb_true_iff, ends_with_spec, bool_decide_eq_true. split.
  - intros [Hlen [t ->]]. right. exists t. split; [|done]. intros ->. simpl in Hlen.
    change ("" +:+ ("." +:+ suffix)) with ("." +:+ suffix) in Hlen. simpl in Hlen. lia.
  - intros [->|(label & Hne & ->)]; [done|]. split; [|by exists label].
    rewrite !str_length_app. destruct label; [done|]. simpl. lia.
Qed.

(** ** The properties at concrete inputs *)

Module SshWitnesses.

Definition agent_ok : HostPolicy := mkHostPolicy (Some true) None None None None None None None.
Definition x11_ok : HostPolicy := mkHostPolicy None (Some true) None None None None None None.
Definition no_agent : HostPolicy := mkHostPolicy (Some false) None None None None None (Some 5%Z) None.

Definition hosts : list (string * HostPolicy) :=
  [("*.lab", agent_ok); ("a.lab", no_agent); ("a.*", x11_ok)].

Definition file : PolicyFile := mkPolicyFile host_policy_default hosts.

Definition raw : list string :=
  ["-vA"; "-oForwardX11=yes"; "-L"; "80:b:80"; "-o"; "proxycommand nc"; "-p22"; "root@a.lab"; "ls"; "-L"].

Definition takes (c : rchar) : bool := bool_decide (c ∈ ssh_letters).

Definition raw_opts : list Opt :=
  [("v", None); ("A", None); ("o", Some "ForwardX11=yes"); ("L", Some "80:b:80"); ("o", Some "proxycommand nc"); ("p", Some "22")].

Lemma raw_reads : reads takes raw raw_opts ["root@a.lab"; "ls"; "-L"].
Proof.
  apply (found_reads takes (fun c => eq_refl) raw 7). reflexivity.
Qed.


Lemma resolve_deterministic_witness :
  resolve (mkPolicyFile host_policy_default hosts) "a.lab"
    = resolve (mkPolicyFile host_policy_default (reverse hosts)) "a.lab" /\
  rp_forward_agent (resolve file "a.lab") = false /\ rp_forward_x11 (resolve file "a.lab") = true.
Proof.
  split; [|done]. apply resolve_deterministic; [|symmetry; apply reverse_Permutation].
  repeat constructor; set_solver.
Defined.

Lemma resolve_precedence_witness :
  exists base, merged_policy file "a.lab" = merge_over no_agent base.
Proof.
  destruct (resolve_precedence host_policy_default hosts "a.lab" no_agent) as [_ H].
  apply H; [done| |set_solver]. repeat constructor; set_solver.
Defined.

End SshWitnesses.
